(* ===== verification/_CoqProject ===== *)
-Q . S2P
Prelude.v
Ordering.v
Entries.v
RustText.v
Utf8.v
SecretPolicy.v
GraphTypes.v
F64.v
GraphAlgorithms.v
Digraph.v
SccProps.v
FlowProps.v
ArticulationProps.v
Analysis.v
AnalysisGraph.v
AnalysisProps.v
AnalysisResults.v
AnalysisTheorems.v
Communities.v
CommunityProps.v
SummaryProps.v
F64Props.v
Snapshot.v
QueryIndex.v
GraphQuery.v
Traversal.v
QueryExamples.v
QueryProps.v
TraversalProps.v
ProjectionProps.v
PathProps.v
Paths.v
Resolve.v
ResolveProps.v
Contracts.v
Inventory.v
Positions.v
Adapter.v
AdapterProps.v
AdapterRun.v
AdapterComplete.v
Lifecycle.v
Identity.v
Invalidation.v
InvalidationComplete.v
Linker.v
LinkerProps.v
LinkerTheorems.v
Packets.v
TemplateRules.v
PacketProps.v
PacketTheorems.v
TemplateProps.v
Clusters.v
ClusterProps.v
ClusterRuns.v
ClusterTheorems.v
TrustedGraph.v
TrustedGraphProps.v
JsonValue.v
McpSanitize.v
PrivateText.v
McpSanitizeProps.v
McpScope.v
McpScopeProps.v
McpTheorems.v
Jobs.v
JobPublication.v
JobStages.v
JobWorld.v
JobRuns.v
JobProps.v
JobFacts.v
JobOutcomes.v
JobOperations.v
JobExample.v
JobTheorems.v
