(* ===== verification/Prelude.v ===== *)
(** * CodeVetter: the business-rule archaeology core

    CodeVetter reads a repository, extracts facts from its source with exact
    spans, derives business rules whose every clause cites those facts, and
    publishes rules and evidence as a graph an agent or a person may navigate.
    People review the rules, sources change, and the tool has to say which
    rules still stand.  Its promise is that nothing it publishes is trusted
    beyond its evidence, that no state change is guessed, and that partial or
    ambiguous work fails closed.  This development models the part of the Rust
    code that carries that promise and proves it.  All paths below are under
    [src/crates/codevetter-core/src/commands/]; files without a directory are
    those of [business_rule_archaeology/].

    ** The modelled parts and how they call each other

    - [SecretPolicy] ([secret_policy.rs] beside the directories): what is a
      sensitive path or a credential, and redaction.  Called by the emission
      protocol and the graph projection.
    - [GraphTypes] ([structural_graph/types.rs]): trust and origin labels with
      their storage names, graph nodes and edges, the FNV-1a identities, the
      cancellation token.
    - [Contracts] ([contracts.rs]) and [Inventory] ([inventory.rs]): facts,
      spans, clauses, rule packets with their validators, and the source unit.
    - The emission protocol ([adapter.rs]), through which language adapters
      hand parsed facts to a store.  [Positions] is the checkpoint index from
      bytes to lines and columns; [Adapter] the validating output with its
      checks and counters and [run_archaeology_adapter], from the gate to the
      commit or abort of one unit.  The store is the class
      [ArchaeologyAdapterOutput], an adapter a program of emissions
      ([parse_program]); the theorems hold for all of both.  [AdapterProps]
      holds the invariants of the validating output, [AdapterRun] the theorems
      about a run, [AdapterComplete] that good evidence is committed.
    - [TrustedGraph] ([graph.rs]): the projection of source units, spans, facts,
      rules and relations into the trusted graph; [TrustedGraphProps] holds its
      theorems.
    - [Lifecycle] ([lifecycle.rs]): the event-sourced review state of a rule,
      the compare-and-swap append, snapshot compatibility, rule aliases.
    - [Identity] ([identity.rs]): the stable, evidence, contradiction,
      description and continuity identities of a rule.  [Lifecycle]'s snapshots
      carry the results as strings.
    - [Invalidation] ([invalidation.rs]): the reverse dependency closure of
      changed paths and the classification of changed generation inputs;
      [InvalidationComplete] holds the exactness of its bounds.
    - The structural graph's analysis ([structural_graph/analysis.rs]).
      [GraphAlgorithms]: the loops over neighbour indices (strongly connected
      components, articulation points, reachability, execution flows).
      [Analysis]: the index graph built from trusted edges, PageRank, the
      results and the coverage record.  [Communities]: label propagation,
      communities and the summary.  [Digraph] is the vocabulary of paths and
      marks; [SccProps], [FlowProps] and [ArticulationProps] the theorems about
      the loops; [AnalysisGraph], [AnalysisProps], [AnalysisResults] the
      lemmas that lead from indices to node ids; [AnalysisTheorems],
      [CommunityProps] and [SummaryProps] the theorems on ids.
    - The structural graph's queries ([structural_graph/query/]).  [Snapshot]:
      the snapshot they read.  [QueryIndex]: normalization, the tiers of
      whole-value matches, tokens, lexical relevance, the index of a snapshot
      and the process-wide cache of indexes, a state each query takes and
      returns.  [GraphQuery]: search, resolution, neighbours, projections,
      differences, the response limits.  [Traversal]: [subgraph], [impact] and
      [shortest_path].  [QueryProps], [ProjectionProps], [TraversalProps] and
      [PathProps] hold their theorems, [F64Props] that rounding is monotone, on
      which the least cost of a path rests, and [QueryExamples] the source's
      tests and the places where its comments or messages do not hold.
    - Cross-file resolution ([structural_graph/resolve.rs]).  [Paths]: path
      components and the normal form of a relative path.  [Resolve]: import
      statements, the candidates of a symbol or a module, and the edges of
      references, document links, test targets and analytics events.
      [ResolveProps] holds its theorems.  The order a hash table is read in is
      the class [HashOrder].
    - The linker of facts across source units ([mod linker] of [mod.rs]).
      [Linker]: the tables built from units, facts and edges, the loops over
      includes, references and predicates with the patch they grow, and what
      [persist_link_patch] ([jobs.rs]) does with it to the rows of facts and
      edges.  [LinkerProps] reduces a run to the functions its loops compute and
      keeps the counts of removed incidents; [LinkerTheorems] states what the
      patch means.
    - Rule derivation ([deterministic_rules.rs]).  [Packets]: the evidence
      packet of each anchor fact, its neighbourhood walked within the limits,
      with kind, caveats, confidence and identity.  [TemplateRules]: the
      renderer's check of a packet, and the rule rendered from it by templates.
      [Clusters]: rules of one meaning share a primary, rules that set aside
      what others rest on are marked as conflicting, and the occurrences of one
      canonical rule are merged.  [PacketProps] holds the invariants of the walk
      and of the tables the first two build, [PacketTheorems] and [TemplateProps]
      what packets and rules mean, and that each takes what the one before it
      makes.  [ClusterProps] is about the tables and keys of the clustering,
      [ClusterRuns] follows its loops from the rules that come in to those that
      go out, and [ClusterTheorems] says what the answer means.
    - The access of agents over MCP ([mcp/] beside [commands/]).  [JsonValue]: a
      JSON value and the reads of it.  [McpSanitize] ([sanitize.rs]): what a
      response may show; [PrivateText] says what private text is without the code
      and that the code withholds exactly that.  [McpScope] ([uri.rs], [cursor.rs]): the addresses of
      resources and the cursors of paged requests, each bound to a scope.
      [McpSanitizeProps] and [McpScopeProps] hold their lemmas, [McpTheorems]
      their theorems.
    - The jobs that build what is shown ([jobs.rs]), over the SQLite tables of
      repositories, generations and jobs.  [Jobs]: the tables with their
      constraints ([db/schema/business_rule_archaeology.sql]), a statement as a
      guard and a change of one row, transactions, and the operations of a job.
      [JobPublication]: the receipt of what was validated and the transaction
      that makes a generation the one that is read.  [JobStages]: how each stage
      hands its job on, and the cleanup of generations.  [JobWorld] is their
      specification, a step relation on what is shown, the statuses of generations
      and the workers, with its invariant.  [JobRuns] opens runs of database
      actions; [JobProps] shows that every operation refines the specification;
      [JobFacts] what operations never touch, whom they refuse and that rows stay
      well formed; [JobOutcomes] what publishing, failing and cleaning come to.
      [JobOperations] is everything that is done to the tables as one type, from
      which [JobTheorems] takes its reachable databases; [JobExample] is the
      database its witnesses run on.
    - [Prelude], [Ordering], [Entries], [RustText], [Utf8] and [F64] model what
      the code uses of the Rust standard library: results, panics, loops and vectors;
      [BTreeMap]/[BTreeSet]/[sort_by] through the class [RustOrd], with the
      entries [map.entry(key).or_default()] makes; [str] as
      UTF-8 bytes, with the decoder the emission gate applies to source bytes;
      and [f64] as IEEE 754 binary64 in the Standard Library's executable
      specification.

    Each Rust struct is a Record with its fields, each enum an Inductive type
    with its variants (a prefix tells apart names two types share), each
    function a Definition of the same name.  The body of a [for] loop is a
    definition of its own, taken through the vector by [for_each] with the
    variables the loop mutates as its state; the body of a [while let] loop is a
    step taken by [loop]; [?] is the bind of [outcome].  A long function is cut
    where its local variables change, each piece a definition.

    ** Outcomes, machine integers, cancellation, fuel

    [outcome] has three cases: [Ok] and [Err] are Rust's, with the source's
    error texts, and [Crash] is a panic (indexing a map at an absent key or a
    vector out of bounds, [unreachable!]) or a loop that ran out of fuel.
    [returns m] says that [m] is one of the first two; the totality theorems
    prove it for every input.

    [u64] and [usize] are [N] with the source's checked, saturating or wrapping
    operations written out; lengths are those of values in memory.  In the graph
    algorithms indices into vectors and counts of elements are [nat].

    The cancellation token is a shared flag another thread may set at any time:
    a run reads it once per check, so it is modelled as the sequence of values
    those loads observe ([observed]), any sequence at all, and the check counter
    is threaded through the [polling] monad.

    Fuel, and why it is enough. The queue of [Invalidation.walk] is given one
    more than the number of seeds and dependencies: every path is queued at
    most once, because breadth-first order never improves a known depth.
    [Lifecycle.follow_aliases] is given one more than the number of aliases:
    the visited set grows at each step. [Positions.fill] gets [fill_fuel], one
    step for each checkpoint it may store. The searches of [GraphAlgorithms]
    get [finish_fuel], two steps per node and one per neighbour, as each node
    is opened and closed once and each neighbour looked at once; [reach_fuel],
    one per entry point, node and edge; the number of nodes for the second
    pass of the components; and [flow_fuel], as many steps as the flow limit
    and the depth limit allow. [Traversal.walk_fuel] is one turn per root and
    per end of an edge, as a node is queued once; [path_fuel] one more than
    the bound of visits; reading a path back takes at most one turn per entry
    of [previous], since a node's predecessor was settled before it. That
    these suffice is part of the theorems, which conclude that the loops
    return.

    ** Code that is not in the repository

    [sha2]'s SHA-256 is the parameter [sha256], a function on byte strings.
    Injectivity theorems give, for equal identities, equal inputs or two
    explicit colliding streams.  [serde_json] appears as [json_chunks] (the
    lengths of the buffers written for an input, used by the bounded writer),
    [json_length] (the length of a serialized fragment, or none when it cannot
    be serialized) and [json_span], [json_fact], [json_edge], [json_metadata]
    (the buffers of an emission) and [json_patch] (the length of a serialized
    patch, or none) and likewise [json_packet], [json_rule] and
    [json_rules], arbitrary functions in every theorem; clustering also compares
    serialized values, by the parameter [to_string], which one theorem assumes to
    tell values apart.  A JSON value is [serde_json]'s documented enum; [json_value]
    is the length of its text, [cursor_to_vec] and [cursor_from_slice] the text of a
    cursor and back, [base64_encode] and [base64_decode] those of [base64], with
    their round trips and alphabet as the hypotheses of two theorems.  Of the
    database a job sees [julianday] and chrono's instants (the class [Clock]),
    the message of a refused statement ([Sqlite]), its records as text
    ([JobJson]), and the tables of a generation's evidence with what other files
    compute from them and change in them ([GenerationContent]); none of them has a
    hypothesis but that the text of one error reads back, in one theorem.  The
    queries take Rust's Unicode tables as the class [Unicode], the natural
    logarithm as [ln] and the length of a serialized value as the class
    [Serialize].  Where a
    sum of lengths could wrap, the hypothesis is that a value in memory is at
    most [isize_max] bytes long, as Rust guarantees.

    ** What the theorems show

    - Trust: the nodes and edges of a fragment are one for one the elements of its
      input, shown with no more trust than how each was derived allows, an edge no
      more than its endpoints ([TrustedGraphProps.fragment_trust]); a
      fragment has exactly the nodes and edges its input names
      ([fragment_complete], [relation_parity]), within its bounds, sorted, the
      same for every order of the input, and is never produced by a panic or
      changed by cancellation.
    - Evidence: whatever an adapter does, what is committed is admissible
      evidence with the positions of its bytes ([committed_unit_evidence]), by a
      session of calls that ends in exactly one commit or abort
      ([adapter_session]); good evidence does get committed
      ([evidence_committed]).
    - Review: a projection is what [Lifecycle.reviewed] reads off the ordered
      stream; the loop is the step relation [Lifecycle.Run], from which its
      invariants, the legality of each accepted append and the compare-and-swap
      discipline follow; aliases form stars; snapshots are compared exactly.
    - Identity: every identity determines, up to a collision, precisely the
      inputs it is meant to depend on, and depends on nothing else (order,
      repetition, parser, span positions, as the case may be).
    - Refresh: the closure is the set of reachable paths with least depths and
      all the dependency kinds that bring each in, and is returned exactly where it
      fits the limits; the classification of input
      drift names exactly what drifted and picks the strongest mode.
    - Navigation: the analysis returns on every graph; its components are the
      strongly connected ones, its reachable set and its execution flows are
      exact, it calls itself complete exactly where nothing was left out, its
      communities partition the nodes, and none of it depends on the order of the
      input.
    - Queries: they return; a reference resolves exactly when its strongest match
      is one node under one name; search pages are the stretches of one ranking
      their cursors name; subgraphs, impact and differences are exact where they
      are not marked truncated, and closed and bounded where they are; a shortest
      path is a path with its own cost, and where it is not marked truncated none
      costs less in the code's [f64].  The cache of indexes changes no answer.
    - Resolution: the edges found for references are those of the references that
      can mean a node, trusted where it is one node and otherwise with all the
      candidates, and no others; no order, of the input or of a hash table, changes
      that.
    - Linking: a reference is linked to the one fact it can mean or to a
      placeholder with the reason; an include is answered by the one unit it can
      mean; contradictions join exactly the complementary predicates; a
      placeholder is removed only with all its edges, so that the rows the patch
      leaves keep every edge's facts ([linked_store_consistent], from consistent
      rows with distinct edges where no unresolved fact has references of its own:
      [Linker.ex_dangling] shows the need); the linker returns, within its bounds.
    - Derivation: a packet holds exactly what surrounds its anchor, unless it
      says that it was cut; the renderer accepts the packets the derivation made,
      where unresolved facts are only at the end of relationships marked unresolved,
      which contradictions are not, and packet identities are distinct
      ([derived_packets_accepted]; [TemplateRules.ex_unmarked_refused] shows the
      need); a rule's clauses rest on what the packet supports, cite only its
      evidence, are never more confident, and leave no relationship of a
      supporting fact out.  Clustering puts together exactly what means the same
      and marks exactly the conflicts of the evidence, in whatever order its input
      comes; it loses no clause and no evidence, and leaves no reference to a rule
      that is gone.
    - Access: a response has no private key and no path of this machine at the
      boundaries the sanitizer knows, at any depth; every text of it that was not
      withheld is free of what [PrivateText] calls private, or is the start of an
      excerpt that is, and where nothing is private it is the value itself.  A path
      behind a colon, as in [file:///home/me], is not caught
      ([PrivateText.ex_file_url_kept]).  An address reads back as exactly the
      resource it was printed for, in its own repository; a cursor of at most 2048
      bytes is read by the request it was handed out for alone, a longer one by none
      ([McpTheorems.long_fingerprint_refused]).
    - Jobs: whatever is done in whatever order, every operation takes steps of
      the specification and every database is consistent; what is shown is
      replaced by a publication only, which is all or nothing and of exactly what
      was validated; a worker that lost its job is refused; no active job is
      stuck; a cleanup deletes only what is superseded beyond the retained
      generations or was left by a job of its owner, nothing that is read or worked
      on.
    - Safety of published text: the redaction policy's coverage and idempotence;
      validators of spans and rules characterised exactly; storage names and
      identities of the structural graph.

    ** What is not modelled

    The SQLite stores ([*_store.rs], [db/]) apart from the three tables of the
    jobs, process and network code (agents, terminals, git, GitHub), the user
    interfaces ([apps/]), and the benchmarks are effects or glue around the parts
    above.  Of the jobs, failures of the disk or of a lock are not modelled, nor
    what a stage computes and stores besides its statement on the three tables
    (the pure computations are [Adapter], [Linker] and [Packets] to [Clusters]),
    nor the threads of [refresh_command.rs]: the theorems allow any interleaving
    of the operations and any change of the other tables between them.  Of
    [adapter.rs] the fingerprint of semantic expressions is left; of the
    articulation points, that the low-link values identify them (they are proved
    to be computed without a panic).  Of [mcp/] the validation of tool arguments
    and the server are left.  The legacy and COBOL parsers and the navigator crate
    are pure in parts and are not modelled. *)
From stdpp Require Export base list strings numbers sets sorting.
From Stdlib Require Export NArith Lia.
From Stdlib Require Ascii String.

Local Open Scope N_scope.

(** * Outcomes of Rust code *)

(** What a call does: [Ok] and [Err] are the two constructors of Rust's
    [Result<A, String>]; [Crash] is a panic ([unreachable!], indexing a map
    with a key it does not hold) or a loop whose fuel ran out. *)
Inductive outcome (A : Type) : Type :=
  | Ok (a : A)
  | Err (e : string)
  | Crash (why : string).
Arguments Ok {A} a.
Arguments Err {A} e.
Arguments Crash {A} why.

(** The [?] operator. *)
#[export] Instance outcome_ret : MRet outcome := @Ok.
#[export] Instance outcome_bind : MBind outcome := fun A B f m =>
  match m with
  | Ok a => f a
  | Err e => Err e
  | Crash w => Crash w
  end.
#[export] Instance outcome_fmap : FMap outcome := fun A B f m =>
  match m with
  | Ok a => Ok (f a)
  | Err e => Err e
  | Crash w => Crash w
  end.

#[export] Instance outcome_eq_dec {A} `{EqDecision A} : EqDecision (outcome A).
Proof. solve_decision. Defined.

Definition is_Ok {A} (m : outcome A) : Prop := exists a, m = Ok a.
Definition is_Err {A} (m : outcome A) : Prop := exists e, m = Err e.
(** The call returns: it neither panics nor loops. *)
Definition returns {A} (m : outcome A) : Prop :=
  match m with Crash _ => False | _ => True end.

(** [o.ok_or(e)?] *)
Definition ok_or {A} (o : option A) (e : string) : outcome A :=
  match o with Some a => Ok a | None => Err e end.
(** [map[key]]: indexing a map panics where the key is missing. *)
Definition index_or_panic {A} (o : option A) : outcome A :=
  match o with Some a => Ok a | None => Crash "no entry found for key" end.

(** [l.iter().enumerate()] *)
Fixpoint enumerate_nat {A} (i : nat) (l : list A) : list (nat * A) :=
  match l with [] => [] | x :: l => (i, x) :: enumerate_nat (S i) l end.

(** [for x in l { s = f(s, x)?; }] *)
Fixpoint for_each {S A : Type} (f : S -> A -> outcome S) (s : S) (l : list A)
    : outcome S :=
  match l with
  | [] => Ok s
  | x :: l => s' ← f s x; for_each f s' l
  end.

(** [for x in l { f(x)?; }] *)
Fixpoint for_all {A : Type} (f : A -> outcome unit) (l : list A) : outcome unit :=
  match l with
  | [] => Ok tt
  | x :: l => _ ← f x; for_all f l
  end.

(** [l.iter().map(f).collect::<Result<Vec<_>, _>>()] *)
Fixpoint collect {A B : Type} (f : A -> outcome B) (l : list A) : outcome (list B) :=
  match l with
  | [] => Ok []
  | x :: l => y ← f x; ys ← collect f l; Ok (y :: ys)
  end.

(** [l.iter().any(p)] where [p] may panic: it stops at the first success. *)
Fixpoint any_outcome {A} (p : A -> outcome bool) (l : list A) : outcome bool :=
  match l with
  | [] => Ok false
  | x :: l => b ← p x; if (b : bool) then Ok true else any_outcome p l
  end.

(** * Machine integers: [usize] and [u64] are 64 bits wide *)

Definition u64_max : N := 18446744073709551615.
Definition usize_max : N := u64_max.
Definition u32_max : N := 4294967295.
Definition saturating_add (a b : N) : N := N.min (a + b) usize_max.
Definition checked_add (a b : N) : option N :=
  if a + b <=? usize_max then Some (a + b) else None.
(** [u32::try_from(v).ok()] *)
Definition u32_try_from (v : N) : option N :=
  if v <=? u32_max then Some v else None.

(** [Vec::len] and [str::len] (bytes). *)
Definition len {A} (l : list A) : N := N.of_nat (length l).
Definition blen (s : string) : N := N.of_nat (String.length s).

(** [o.is_some_and(p)] *)
Definition is_some_and {A} (o : option A) (p : A -> bool) : bool :=
  match o with Some a => p a | None => false end.
(** [l.iter().any(p)] *)
Definition any {A} (p : A -> bool) (l : list A) : bool := existsb p l.
(** [b.then(|| v).into_iter().collect()] *)
Definition when {A} (b : bool) (v : A) : list A := if b then [v] else [].

Definition is_nil {A} (l : list A) : bool := match l with [] => true | _ => false end.
Definition seqb (a b : string) : bool := bool_decide (a = b).
Definition is_some {A} (o : option A) : bool := match o with Some _ => true | None => false end.
Definition elemb {A} `{EqDecision A} (a : A) (l : list A) : bool := bool_decide (a ∈ l).

(** * Reasoning about outcomes *)

Lemma bind_Ok {A B} (m : outcome A) (f : A -> outcome B) b :
  (m ≫= f) = Ok b <-> exists a, m = Ok a /\ f a = Ok b.
Proof. destruct m; cbn; naive_solver. Qed.

Lemma bind_of_Ok {A B} (a : A) (f : A -> outcome B) : (Ok a ≫= f) = f a.
Proof. done. Qed.

(** A validator followed by the rest. *)
Lemma then_Ok {B} (m : outcome unit) (k : outcome B) b :
  (m ≫= fun _ => k) = Ok b <-> m = Ok tt /\ k = Ok b.
Proof. destruct m as [[]| |]; cbn; naive_solver. Qed.

Lemma if_Err_Ok {A} (c : bool) e (m : outcome A) a :
  (if c then Err e else m) = Ok a <-> c = false /\ m = Ok a.
Proof. destruct c; naive_solver. Qed.

Lemma if_Ok_Err {A} (c : bool) e (m : outcome A) a :
  (if c then m else Err e) = Ok a <-> c = true /\ m = Ok a.
Proof. destruct c; naive_solver. Qed.

Lemma ok_or_Ok {A} (o : option A) e a : ok_or o e = Ok a <-> o = Some a.
Proof. destruct o; naive_solver. Qed.

Lemma index_or_panic_Ok {A} (o : option A) a : index_or_panic o = Ok a <-> o = Some a.
Proof. destruct o; naive_solver. Qed.

Lemma Ok_inj_iff {A} (a b : A) : Ok a = Ok b <-> a = b.
Proof. naive_solver. Qed.

Lemma is_Ok_Ok {A} (a : A) : is_Ok (Ok a).
Proof. by exists a. Qed.
Lemma is_Ok_then {B} (m : outcome unit) (k : outcome B) :
  is_Ok (m ≫= fun _ => k) <-> m = Ok tt /\ is_Ok k.
Proof. unfold is_Ok. setoid_rewrite then_Ok. naive_solver. Qed.
Lemma is_Ok_if_Err {A} (c : bool) e (m : outcome A) :
  is_Ok (if c then Err e else m) <-> c = false /\ is_Ok m.
Proof. unfold is_Ok. setoid_rewrite if_Err_Ok. naive_solver. Qed.

Lemma returns_bind {A B} (m : outcome A) (f : A -> outcome B) :
  returns m -> (forall a, m = Ok a -> returns (f a)) -> returns (m ≫= f).
Proof. destruct m; cbn; auto. Qed.

Lemma returns_if {A} (c : bool) (m1 m2 : outcome A) :
  (c = true -> returns m1) -> (c = false -> returns m2) -> returns (if c then m1 else m2).
Proof. destruct c; auto. Qed.

Lemma returns_ok_or {A} (o : option A) e : returns (ok_or o e).
Proof. by destruct o. Qed.

Lemma returns_Ok {A} (a : A) : returns (Ok a).
Proof. done. Qed.
Lemma returns_Err {A} e : returns (@Err A e).
Proof. done. Qed.

Create HintDb outcomes.
Create Rewrite HintDb outcome_rw.
Create Rewrite HintDb bools.
#[export] Hint Resolve returns_Ok returns_Err returns_ok_or : outcomes.
#[export] Hint Rewrite @then_Ok @bind_Ok @if_Err_Ok @if_Ok_Err @ok_or_Ok @index_or_panic_Ok
  @Ok_inj_iff @orb_false_iff @andb_true_iff : outcome_rw.

(** Opens a hypothesis that a composite call returned [Ok]. *)
Ltac ok_inv H :=
  autorewrite with outcome_rw in H;
  repeat match goal with
  | K : exists _, _ |- _ => destruct K as [? K]
  | K : _ /\ _ |- _ => destruct K
  end; simplify_eq.

Section ForEach.
Context {S A : Type}.
Implicit Types (f : S -> A -> outcome S) (l : list A) (s : S).

Lemma for_each_app f s l1 l2 :
  for_each f s (l1 ++ l2) = (s' ← for_each f s l1; for_each f s' l2).
Proof.
  revert s; induction l1 as [|x l1 IH]; intros s; cbn; [done|].
  destruct (f s x); cbn; [apply IH|done|done].
Qed.

(** Invariants indexed by the elements already consumed. *)
Lemma for_each_inv (P : list A -> S -> Prop) f s0 l s :
  P [] s0 ->
  (forall pre x suf s1 s2, l = pre ++ x :: suf -> P pre s1 -> f s1 x = Ok s2 ->
    P (pre ++ [x]) s2) ->
  for_each f s0 l = Ok s -> P l s.
Proof.
  intros H0 Hstep.
  enough (forall suf pre s1, l = pre ++ suf -> P pre s1 -> for_each f s1 suf = Ok s -> P l s)
    by eauto using app_nil_l.
  induction suf as [|x suf IH]; intros pre s1 -> HP; cbn.
  - rewrite app_nil_r. naive_solver.
  - intros H. apply bind_Ok in H as (s2 & Hf & Hrest).
    apply (IH (pre ++ [x]) s2); [by rewrite <- app_assoc| |done].
    eapply Hstep; eauto.
Qed.

Lemma for_each_returns (P : S -> Prop) f s0 l :
  P s0 ->
  (forall x s1, x ∈ l -> P s1 -> returns (f s1 x)) ->
  (forall x s1 s2, x ∈ l -> P s1 -> f s1 x = Ok s2 -> P s2) ->
  returns (for_each f s0 l).
Proof.
  revert s0; induction l as [|x l IH]; intros s0 H0 Hret Hpres; cbn; [done|].
  apply returns_bind; [apply Hret; [left|done]|].
  intros s1 Hs1. apply IH.
  - eapply Hpres; [left|done|done].
  - intros y s2 ?. apply Hret. by right.
  - intros y s2 s3 ?. apply Hpres. by right.
Qed.
End ForEach.

Lemma for_all_Ok {A} (f : A -> outcome unit) l :
  for_all f l = Ok tt <-> Forall (fun x => f x = Ok tt) l.
Proof.
  induction l as [|x l IH]; cbn; [split; [constructor|done]|].
  rewrite bind_Ok, Forall_cons, <- IH. split.
  - intros ([] & ? & ?); auto.
  - intros [? ?]; eauto.
Qed.

Lemma for_all_returns {A} (f : A -> outcome unit) l :
  (forall x, x ∈ l -> returns (f x)) -> returns (for_all f l).
Proof.
  induction l as [|x l IH]; cbn; intros H; [done|].
  apply returns_bind; [apply H; left|]. intros _ _. apply IH. intros; apply H; by right.
Qed.

(** A validator that can only fail with one message does not depend on the
    order of its elements. *)
Lemma for_all_perm {A} (f : A -> outcome unit) e l1 l2 :
  (forall x, f x = Ok tt \/ f x = Err e) -> l1 ≡ₚ l2 -> for_all f l1 = for_all f l2.
Proof.
  intros Hf. induction 1 as [|x l1 l2 ? IH|x y l|? ? ? ? IH1 ? IH2]; cbn.
  - done.
  - by rewrite IH.
  - destruct (Hf x) as [-> | ->], (Hf y) as [-> | ->]; done.
  - congruence.
Qed.

Lemma collect_Ok {A B} (f : A -> outcome B) l k :
  collect f l = Ok k <-> Forall2 (fun x y => f x = Ok y) l k.
Proof.
  revert k; induction l as [|x l IH]; intros k; cbn.
  - rewrite Ok_inj_iff. split; [intros <-; constructor|inversion 1; done].
  - rewrite bind_Ok. setoid_rewrite bind_Ok. setoid_rewrite IH. split.
    + intros (y & Hy & ys & Hys & [= <-]). by constructor.
    + inversion 1; subst. eauto.
Qed.

(** Likewise for a collecting loop: on a permuted list it fails in the same way
    or gives the permuted results. *)
Lemma collect_perm {A B} (f : A -> outcome B) e l1 l2 :
  (forall x, is_Ok (f x) \/ f x = Err e) -> l1 ≡ₚ l2 ->
  (exists k1 k2, collect f l1 = Ok k1 /\ collect f l2 = Ok k2 /\ k1 ≡ₚ k2) \/
  (collect f l1 = Err e /\ collect f l2 = Err e).
Proof.
  intros Hf. induction 1 as [|x l1 l2 ? IH|x y l|l1 l2 l3 ? IH1 ? IH2]; cbn.
  - left. by exists [], [].
  - destruct (Hf x) as [[a ->]| ->]; cbn; [|by right].
    destruct IH as [(k1 & k2 & -> & -> & Hk)|[-> ->]]; [left|by right].
    eexists _, _. split_and!; [done..|]. by constructor.
  - destruct (Hf x) as [[a ->]| ->], (Hf y) as [[b ->]| ->]; cbn; [|by right..].
    assert (is_Ok (collect f l) \/ collect f l = Err e) as [[k ->]| ->].
    { clear - Hf. induction l as [|z l IH]; cbn; [left; by exists []|].
      destruct (Hf z) as [[c ->]| ->]; cbn; [|by right].
      destruct IH as [[k ->]| ->]; [left; by eexists|by right]. }
    + left. eexists _, _. split_and!; [done..|]. constructor.
    + by right.
  - destruct IH1 as [(k1 & k2 & E1 & E2 & H12)|[E1 E2]], IH2 as [(k2' & k3 & E2' & E3 & H23)|[E2' E3]];
      [|congruence|congruence|right; split; congruence].
    left. exists k1, k3. split_and!; [done..|]. rewrite H12. by replace k2 with k2' by congruence.
Qed.

Lemma collect_returns {A B} (f : A -> outcome B) l :
  (forall x, x ∈ l -> returns (f x)) -> returns (collect f l).
Proof.
  induction l as [|x l IH]; cbn; intros H; [done|].
  apply returns_bind; [apply H; left|]. intros y _.
  apply returns_bind; [|done]. apply IH. intros; apply H; by right.
Qed.

Lemma any_outcome_returns {A} (p : A -> outcome bool) l :
  (forall x, x ∈ l -> returns (p x)) -> returns (any_outcome p l).
Proof.
  induction l as [|x l IH]; cbn; intros H; [done|]. apply returns_bind; [apply H; left|].
  intros [] _; [done|]. apply IH. intros y Hy. apply H. by right.
Qed.

(** * Booleans and lists *)

Lemma len_cons {A} (x : A) l : len (x :: l) = len l + 1.
Proof. unfold len. cbn [length]. lia. Qed.
Lemma len_snoc {A} (l : list A) x : len (l ++ [x]) = len l + 1.
Proof. unfold len. rewrite length_app. cbn. lia. Qed.
Lemma len_app {A} (l1 l2 : list A) : len (l1 ++ l2) = len l1 + len l2.
Proof. unfold len. rewrite length_app. lia. Qed.

Lemma any_true {A} (p : A -> bool) l : any p l = true <-> exists x, x ∈ l /\ p x = true.
Proof.
  unfold any. rewrite existsb_exists. by setoid_rewrite list_elem_of_In.
Qed.

Lemma any_false {A} (p : A -> bool) l : any p l = false <-> forall x, x ∈ l -> p x = false.
Proof.
  split.
  - intros H x Hx. destruct (p x) eqn:E; [|done].
    assert (any p l = true) by (apply any_true; eauto). congruence.
  - intros H. destruct (any p l) eqn:E; [|done].
    apply any_true in E as (x & Hx & Hp). rewrite H in Hp; done.
Qed.

Lemma seqb_true a b : seqb a b = true <-> a = b.
Proof. apply bool_decide_eq_true. Qed.
Lemma seqb_false a b : seqb a b = false <-> a <> b.
Proof. apply bool_decide_eq_false. Qed.
Lemma elemb_true {A} `{EqDecision A} (a : A) l : elemb a l = true <-> a ∈ l.
Proof. apply bool_decide_eq_true. Qed.
Lemma elemb_false {A} `{EqDecision A} (a : A) l : elemb a l = false <-> a ∉ l.
Proof. apply bool_decide_eq_false. Qed.
Lemma is_nil_true {A} (l : list A) : is_nil l = true <-> l = [].
Proof. by destruct l. Qed.
Lemma is_nil_false {A} (l : list A) : is_nil l = false <-> l <> [].
Proof. by destruct l. Qed.
Lemma is_some_true {A} (o : option A) : is_some o = true <-> is_Some o.
Proof. destruct o; cbn; [|split; [done|inversion 1; done]]. split; eauto. Qed.

#[export] Hint Rewrite @any_true @any_false @elemb_true @elemb_false @is_nil_true
  @is_nil_false @is_some_true seqb_true seqb_false N.leb_le N.leb_gt N.ltb_lt N.ltb_ge
  N.eqb_eq N.eqb_neq negb_true_iff negb_false_iff : bools.

Lemma for_each_progress {S A} (P : list A -> S -> Prop) (f : S -> A -> outcome S) s0 l :
  P [] s0 ->
  (forall pre x suf s, l = pre ++ x :: suf -> P pre s -> exists s', f s x = Ok s' /\ P (pre ++ [x]) s') ->
  exists s, for_each f s0 l = Ok s /\ P l s.
Proof.
  intros H0 Hstep.
  enough (forall suf pre s, l = pre ++ suf -> P pre s -> exists s', for_each f s suf = Ok s' /\ P l s')
    as H by (by apply (H l [])).
  induction suf as [|x suf IH]; intros pre s -> HP; cbn.
  - exists s. by rewrite app_nil_r in *.
  - destruct (Hstep _ _ _ _ eq_refl HP) as (s' & -> & HP'). cbn.
    apply (IH (pre ++ [x])); [by rewrite <- app_assoc|done].
Qed.

(** * Totals *)

Fixpoint total {A} (w : A -> N) (l : list A) : N :=
  match l with [] => 0 | x :: l => w x + total w l end.

Lemma total_app {A} (w : A -> N) l k : total w (l ++ k) = total w l + total w k.
Proof. induction l as [|x l IH]; cbn; [done|]. rewrite IH. lia. Qed.
Lemma total_snoc {A} (w : A -> N) l x : total w (l ++ [x]) = total w l + w x.
Proof. rewrite total_app. cbn. lia. Qed.
#[export] Instance total_proper {A} (w : A -> N) : Proper ((≡ₚ) ==> (=)) (total w).
Proof. induction 1; cbn; lia. Qed.

(** A list whose keys are distinct and whose elements weigh no more than the
    ones of the same key in another list weighs no more than it. *)
Lemma total_dominated {A K} (key : A -> K) (w : A -> N) l out :
  NoDup (map key l) -> (forall x, x ∈ l -> exists y, y ∈ out /\ key y = key x /\ w x <= w y) ->
  (length l <= length out)%nat /\ total w l <= total w out.
Proof.
  revert out. induction l as [|x l IH]; intros out Hnd Hdom; cbn; [split; lia|].
  apply NoDup_cons in Hnd as [Hx Hnd]. destruct (Hdom x ltac:(left)) as (y & Hy & Hk & Hw).
  apply elem_of_Permutation in Hy as [out' Hp].
  destruct (IH out' Hnd) as [Hlen Htot].
  - intros z Hz. destruct (Hdom z ltac:(by right)) as (y' & Hy' & Hk' & Hw').
    rewrite Hp in Hy'. apply elem_of_cons in Hy' as [->|Hy']; [|by exists y'].
    exfalso. apply Hx. rewrite <- Hk, Hk'. by apply list_elem_of_fmap_2.
  - rewrite Hp. cbn. lia.
Qed.

Lemma NoDup_snoc {A} (l : list A) x : NoDup (l ++ [x]) <-> x ∉ l /\ NoDup l.
Proof. rewrite (comm (++) l [x]). apply NoDup_cons. Qed.

(** * While loops *)

(** [while let Some(..) = ..]: [step] is the body, [None] when the condition
    fails.  A loop that is still running when its fuel is spent crashes. *)
Fixpoint loop {S : Type} (fuel : nat) (step : S -> option (outcome S)) (s : S) : outcome S :=
  match step s with
  | None => Ok s
  | Some next =>
      match fuel with
      | O => Crash "out of fuel"
      | S fuel => s ← next; loop fuel step s
      end
  end.

(** A body that keeps an invariant and decreases a measure runs to the end of the
    loop. *)
Lemma loop_ends {S} (P : S -> Prop) (measure : S -> nat) (step : S -> option (outcome S)) fuel s :
  (forall s next, P s -> step s = Some next ->
     exists s', next = Ok s' /\ P s' /\ (measure s' < measure s)%nat) ->
  P s -> (measure s <= fuel)%nat ->
  exists s', loop fuel step s = Ok s' /\ P s' /\ step s' = None.
Proof.
  intros Hstep. revert s. induction fuel as [|fuel IH]; intros s HP Hfuel; cbn;
    destruct (step s) as [next|] eqn:E; try by eauto.
  - destruct (Hstep _ _ HP E) as (s' & _ & _ & Hlt). lia.
  - destruct (Hstep _ _ HP E) as (s' & -> & HP' & Hlt). cbn. apply IH; [done|lia].
Qed.

(** [v[i]] on vectors, read and written. *)
Definition at_index {A} (l : list A) (i : nat) : outcome A := index_or_panic (l !! i).
Definition set_index {A} (l : list A) (i : nat) (a : A) : outcome (list A) :=
  if decide (i < length l)%nat then Ok (<[i := a]> l) else Crash "index out of bounds".

Lemma at_index_Ok {A} (l : list A) i a : l !! i = Some a -> at_index l i = Ok a.
Proof. unfold at_index. by intros ->. Qed.
Lemma set_index_Ok {A} (l : list A) i (a : A) : (i < length l)%nat -> set_index l i a = Ok (<[i := a]> l).
Proof. intros Hi. unfold set_index. by rewrite decide_True. Qed.
Lemma at_index_inv {A} (l : list A) i a : at_index l i = Ok a <-> l !! i = Some a.
Proof. apply index_or_panic_Ok. Qed.
Lemma set_index_inv {A} (l : list A) i (a : A) l' : set_index l i a = Ok l' <-> (i < length l)%nat /\ l' = <[i := a]> l.
Proof. unfold set_index. case_decide; naive_solver. Qed.

Lemma elem_of_concat {A} (x : A) ll : x ∈ concat ll <-> exists l, x ∈ l /\ l ∈ ll.
Proof.
  rewrite list_elem_of_In, in_concat. split.
  - intros (l & Hl & Hx). exists l. by rewrite !list_elem_of_In.
  - intros (l & Hx & Hl). exists l. by rewrite <- !list_elem_of_In.
Qed.

(** A key without duplicates identifies the elements of a list. *)
Lemma elem_of_enumerate_nat {A} k (l : list A) i x :
  (i, x) ∈ enumerate_nat k l <-> (k <= i)%nat /\ l !! (i - k)%nat = Some x.
Proof.
  revert k. induction l as [|y l IH]; intros k; cbn.
  - split; [by intros ?%not_elem_of_nil|by intros [_ ?]].
  - rewrite elem_of_cons, IH. split.
    + intros [[= -> ->]|[Hle Hl]]; [by rewrite Nat.sub_diag|]. split; [lia|].
      by replace (i - k)%nat with (S (i - S k)) by lia.
    + intros [Hle Hl]. destruct (decide (i = k)) as [->|Hne].
      * rewrite Nat.sub_diag in Hl. injection Hl as ->. by left.
      * right. split; [lia|]. by replace (i - k)%nat with (S (i - S k)) in Hl by lia.
Qed.
Lemma elem_of_enumerate {A} (l : list A) i x : (i, x) ∈ enumerate_nat 0 l <-> l !! i = Some x.
Proof. rewrite elem_of_enumerate_nat, Nat.sub_0_r. split; [by intros [_ ?]|]. split; [lia|done]. Qed.
Lemma map_snd_enumerate {A} k (l : list A) : map snd (enumerate_nat k l) = l.
Proof. revert k. induction l as [|x l IH]; intros k; cbn; [done|]. by rewrite IH. Qed.
Lemma map_fst_enumerate {A} k (l : list A) : map fst (enumerate_nat k l) = seq k (length l).
Proof. revert k. induction l as [|x l IH]; intros k; cbn; [done|]. by rewrite IH. Qed.
Lemma elem_of_concat_map {A B} (f : A -> list B) l y : y ∈ concat (map f l) <-> exists x, y ∈ f x /\ x ∈ l.
Proof. rewrite elem_of_concat. setoid_rewrite list_elem_of_fmap. naive_solver. Qed.
Lemma for_each_concat_map {S A B} (f : A -> S -> B -> outcome S) (g : A -> list B) l s :
  for_each (fun s x => for_each (f x) s (g x)) s l
  = for_each (fun s p => f (fst p) s (snd p)) s (concat (map (fun x => map (pair x) (g x)) l)).
Proof.
  revert s. induction l as [|x l IH]; intros s; cbn [for_each map concat]; [done|]. rewrite for_each_app.
  assert (for_each (fun s p => f (fst p) s (snd p)) s (map (pair x) (g x)) = for_each (f x) s (g x)) as ->.
  { generalize (g x) as k. intros k. revert s. induction k as [|y k IHk]; intros s; cbn; [done|].
    destruct (f x s y); cbn; [apply IHk|done|done]. }
  destruct (for_each (f x) s (g x)); cbn; [apply IH|done|done].
Qed.
Lemma key_identifies {A B} (f : A -> B) l : NoDup (map f l) -> forall x y, x ∈ l -> y ∈ l -> f x = f y -> x = y.
Proof.
  intros Hnd x y [i Hi]%list_elem_of_lookup [j Hj]%list_elem_of_lookup Heq.
  assert (i = j) as ->; [|by simplify_eq].
  apply (NoDup_lookup (map f l) i j (f x) Hnd); change (map ?f ?l) with (f <$> l); rewrite list_lookup_fmap;
    [by rewrite Hi|rewrite Hj; cbn; by f_equal].
Qed.
Lemma elem_of_filter_bool {A} (p : A -> bool) x l : x ∈ List.filter p l <-> x ∈ l /\ p x = true.
Proof. by rewrite !list_elem_of_In, filter_In. Qed.
Lemma filter_bool_NoDup {A} (p : A -> bool) l : NoDup l -> NoDup (List.filter p l).
Proof. rewrite !NoDup_ListNoDup. apply List.NoDup_filter. Qed.
Lemma filter_bool_nil {A} (p : A -> bool) l : List.filter p l = [] <-> forall x, x ∈ l -> p x = false.
Proof.
  induction l as [|y l IH]; cbn; [split; [by intros _ x ?%not_elem_of_nil|done]|].
  destruct (p y) eqn:Hy.
  - split; [done|]. intros Hall. by rewrite Hall in Hy by left.
  - rewrite IH. split; [intros Hall x [->|Hx]%elem_of_cons; auto|]. intros Hall x Hx. apply Hall. by right.
Qed.
Lemma filter_perm {A} (p : A -> bool) l k : l ≡ₚ k -> List.filter p l ≡ₚ List.filter p k.
Proof.
  induction 1 as [|x l k _ IH|x y l|l k m _ IH1 _ IH2]; cbn; [done| | |by rewrite IH1].
  - destruct (p x); by rewrite IH.
  - destruct (p x), (p y); try done. by constructor.
Qed.
Lemma filter_perm_length {A} (p : A -> bool) l k : l ≡ₚ k -> length (List.filter p l) = length (List.filter p k).
Proof. intros Hperm. by rewrite (filter_perm p l k Hperm). Qed.
