(* ===== verification/Ordering.v ===== *)
(** Rust's [Ord] and the ordered containers built on it.

    [RustOrd] is the interface: a three-way comparison that is a strict total
    order whose equivalence is equality, which is what a derived [Ord] gives.
    [BTreeMap] and [BTreeSet] are the lists Rust's containers iterate over, in
    key order; [sort_by] is the stable sort of [slice::sort_by]; [dedup] removes
    consecutive equal elements.  The laws proved here (lookup after insert,
    extensionality, order independence of collecting and of sorting) are what
    the components use. *)
From S2P Require Import Prelude.
From stdpp Require Import sorting.
Local Open Scope N_scope.

Class RustOrd (A : Type) : Type := {
  cmp : A -> A -> comparison;
  cmp_eq_iff : forall x y, cmp x y = Eq <-> x = y;
  cmp_antisym : forall x y, cmp y x = CompOpp (cmp x y);
  cmp_lt_trans : forall x y z, cmp x y = Lt -> cmp y z = Lt -> cmp x z = Lt
}.

(** [Ordering::then_with] *)
Definition then_with (c1 c2 : comparison) : comparison :=
  match c1 with Eq => c2 | _ => c1 end.

Section OrdLaws.
Context {A : Type} `{RustOrd A}.

Definition lt (x y : A) : Prop := cmp x y = Lt.

Lemma cmp_refl (x : A) : cmp x x = Eq.
Proof. by apply cmp_eq_iff. Qed.

Lemma cmp_gt_iff (x y : A) : cmp x y = Gt <-> cmp y x = Lt.
Proof. rewrite (cmp_antisym x y). by destruct (cmp x y). Qed.

#[export] Instance lt_trans : Transitive lt.
Proof. intros x y z. apply cmp_lt_trans. Qed.

#[export] Instance lt_irrefl : Irreflexive lt.
Proof. intros x Hx. unfold lt in Hx. by rewrite cmp_refl in Hx. Qed.

Lemma lt_asym (x y : A) : lt x y -> lt y x -> False.
Proof. intros H1 H2. by apply (irreflexivity lt x), (transitivity (y:=y)). Qed.

#[export] Instance ord_eq_dec : EqDecision A.
Proof.
  intros x y. destruct (cmp x y) eqn:E.
  - left. by apply cmp_eq_iff.
  - right. intros ->. by rewrite cmp_refl in E.
  - right. intros ->. by rewrite cmp_refl in E.
Defined.
End OrdLaws.
#[export] Hint Extern 0 (lt _ _) => assumption : core.

(** ** Instances: derived [Ord]s *)

(** An order pulled back along an injection into an ordered type: enums by
    their discriminant, structs by the tuple of their fields. *)
Program Definition ord_by {A B} `{RustOrd B} (f : A -> B) (Hf : forall x y, f x = f y -> x = y)
    : RustOrd A := {| cmp x y := cmp (f x) (f y) |}.
Next Obligation. intros A B ? f Hf x y. cbn. rewrite cmp_eq_iff. naive_solver. Qed.
Next Obligation. intros A B ? f Hf x y. apply cmp_antisym. Qed.
Next Obligation. intros A B ? f Hf x y z. apply cmp_lt_trans. Qed.

#[export] Program Instance ord_N : RustOrd N := {| cmp := N.compare |}.
Next Obligation. apply N.compare_eq_iff. Qed.
Next Obligation. intros. apply N.compare_antisym. Qed.
Next Obligation. intros x y z. rewrite !N.compare_lt_iff. lia. Qed.

(** [usize] used as an index. *)
#[export] Program Instance ord_nat : RustOrd nat := {| cmp := Nat.compare |}.
Next Obligation. apply Nat.compare_eq_iff. Qed.
Next Obligation. intros. apply Nat.compare_antisym. Qed.
Next Obligation. intros x y z. rewrite !Nat.compare_lt_iff. lia. Qed.

Lemma ascii_compare_N a b : Ascii.compare a b = N.compare (Ascii.N_of_ascii a) (Ascii.N_of_ascii b).
Proof. reflexivity. Qed.

(** [str]'s [Ord]: lexicographic on bytes. *)
#[export] Program Instance ord_string : RustOrd string := {| cmp := String.compare |}.
Next Obligation.
  split; [apply String.compare_eq_iff|intros ->].
  induction y as [|a y IH]; cbn; [done|]. by rewrite ascii_compare_N, N.compare_refl.
Qed.
Next Obligation. intros. apply String.compare_antisym. Qed.
Next Obligation.
  induction x as [|a x IH]; intros [|b y] [|c z]; cbn; try done.
  rewrite !ascii_compare_N.
  destruct (N.compare_spec (Ascii.N_of_ascii a) (Ascii.N_of_ascii b)) as [E1|E1|E1],
    (N.compare_spec (Ascii.N_of_ascii b) (Ascii.N_of_ascii c)) as [E2|E2|E2]; try done; intros H1 H2.
  - rewrite E1, E2, N.compare_refl. eauto.
  - rewrite E1. by apply N.compare_lt_iff in E2 as ->.
  - rewrite <- E2. by apply N.compare_lt_iff in E1 as ->.
  - assert (Ascii.N_of_ascii a < Ascii.N_of_ascii c) as E%N.compare_lt_iff by lia. by rewrite E.
Qed.

Lemma then_with_Eq c1 c2 : then_with c1 c2 = Eq <-> c1 = Eq /\ c2 = Eq.
Proof. destruct c1; naive_solver. Qed.

#[export] Program Instance ord_pair {A B} `{RustOrd A, RustOrd B} : RustOrd (A * B) :=
  {| cmp x y := then_with (cmp (fst x) (fst y)) (cmp (snd x) (snd y)) |}.
Next Obligation.
  intros A B ? ? [x1 x2] [y1 y2]. cbn. rewrite then_with_Eq, !cmp_eq_iff. naive_solver.
Qed.
Next Obligation.
  intros A B ? ? [x1 x2] [y1 y2]. cbn. rewrite (cmp_antisym x1 y1), (cmp_antisym x2 y2).
  by destruct (cmp x1 y1).
Qed.
Next Obligation.
  intros A B ? ? [x1 x2] [y1 y2] [z1 z2]. cbn.
  destruct (cmp x1 y1) eqn:E1, (cmp y1 z1) eqn:E2; cbn; try done; intros H1 H2.
  - apply cmp_eq_iff in E1 as ->, E2 as ->. rewrite cmp_refl. cbn. by eapply cmp_lt_trans.
  - apply cmp_eq_iff in E1 as ->. by rewrite E2.
  - apply cmp_eq_iff in E2 as ->. by rewrite E1.
  - by rewrite (cmp_lt_trans _ _ _ E1 E2).
Qed.

(** [Option]'s [Ord]: [None] comes first. *)
#[export] Program Instance ord_option {A} `{RustOrd A} : RustOrd (option A) :=
  {| cmp x y := match x, y with
                | None, None => Eq | None, Some _ => Lt | Some _, None => Gt
                | Some a, Some b => cmp a b end |}.
Next Obligation. intros A ? [x|] [y|]; cbn; rewrite ?cmp_eq_iff; naive_solver. Qed.
Next Obligation. intros A ? [x|] [y|]; cbn; try done. apply cmp_antisym. Qed.
Next Obligation. intros A ? [x|] [y|] [z|]; cbn; try done. apply cmp_lt_trans. Qed.

(** [Vec]'s [Ord]: lexicographic. *)
Fixpoint list_cmp {A} `{RustOrd A} (l k : list A) : comparison :=
  match l, k with
  | [], [] => Eq
  | [], _ :: _ => Lt
  | _ :: _, [] => Gt
  | x :: l, y :: k => then_with (cmp x y) (list_cmp l k)
  end.
#[export] Program Instance ord_list {A} `{RustOrd A} : RustOrd (list A) := {| cmp := list_cmp |}.
Next Obligation.
  intros A ? l. induction l as [|x l IH]; intros [|y k]; cbn; try done.
  rewrite then_with_Eq, cmp_eq_iff, IH. naive_solver.
Qed.
Next Obligation.
  intros A ? l. induction l as [|x l IH]; intros [|y k]; cbn; try done.
  rewrite (cmp_antisym x y), IH. by destruct (cmp x y).
Qed.
Next Obligation.
  intros A ? l. induction l as [|x l IH]; intros [|y k] [|z m]; cbn; try done.
  destruct (cmp x y) eqn:E1, (cmp y z) eqn:E2; cbn; try done; intros H1 H2.
  - apply cmp_eq_iff in E1 as ->, E2 as ->. rewrite cmp_refl. cbn. eauto.
  - apply cmp_eq_iff in E1 as ->. by rewrite E2.
  - apply cmp_eq_iff in E2 as ->. by rewrite E1.
  - by rewrite (cmp_lt_trans _ _ _ E1 E2).
Qed.

(** * Sorted lists *)

Section SortedLists.
Context {A : Type} `{RustOrd A}.
Implicit Types l : list A.

Lemma sorted_NoDup l : StronglySorted lt l -> NoDup l.
Proof.
  induction 1 as [|x l Hl IH Hx]; [constructor|]. constructor; [|done].
  intros Hin. rewrite Forall_forall in Hx. by apply (irreflexivity lt x), Hx.
Qed.

(** A strictly sorted list is determined by its elements. *)
Lemma sorted_ext l k :
  StronglySorted lt l -> StronglySorted lt k -> (forall x, x ∈ l <-> x ∈ k) -> l = k.
Proof.
  intros Hl Hk Hlk. apply (StronglySorted_unique_strong lt); [|done|done|].
  - intros x y _ _ H1 H2. destruct (lt_asym x y); done.
  - apply NoDup_Permutation; auto using sorted_NoDup.
Qed.
End SortedLists.

(** * [BTreeSet] *)

Abbreviation BTreeSet A := (list A) (only parsing).

Section BTreeSets.
Context {A : Type} `{RustOrd A}.
Implicit Types (x y : A) (s : BTreeSet A).

Fixpoint set_insert x s : BTreeSet A :=
  match s with
  | [] => [x]
  | y :: s' =>
      match cmp x y with
      | Lt => x :: s
      | Eq => s
      | Gt => y :: set_insert x s'
      end
  end.
Fixpoint set_contains x s : bool :=
  match s with
  | [] => false
  | y :: s' => match cmp x y with Eq => true | _ => set_contains x s' end
  end.
(** [iter().collect::<BTreeSet<_>>()] *)
Definition set_of_list (l : list A) : BTreeSet A := foldl (fun s x => set_insert x s) [] l.

Lemma set_contains_true x s : set_contains x s = true <-> x ∈ s.
Proof.
  induction s as [|y s IH]; cbn; [by rewrite elem_of_nil|].
  rewrite elem_of_cons, <- IH, <- (cmp_eq_iff x y). destruct (cmp x y); naive_solver.
Qed.
Lemma set_contains_false x s : set_contains x s = false <-> x ∉ s.
Proof. rewrite <- set_contains_true. by destruct (set_contains x s). Qed.

Lemma elem_of_set_insert x y s : y ∈ set_insert x s <-> y = x \/ y ∈ s.
Proof.
  induction s as [|z s IH]; cbn; [set_solver|].
  destruct (cmp x z) eqn:E; [apply cmp_eq_iff in E as ->|..]; set_solver.
Qed.

Lemma set_insert_sorted x s : StronglySorted lt s -> StronglySorted lt (set_insert x s).
Proof.
  induction 1 as [|y s Hs IH Hy]; cbn; [repeat constructor|].
  destruct (cmp x y) eqn:E.
  - by constructor.
  - constructor; [by constructor|]. constructor; [done|].
    eapply Forall_impl; [done|]. intros z. by apply lt_trans.
  - constructor; [done|]. rewrite Forall_forall in *. intros z.
    rewrite elem_of_set_insert. intros [->|?]; [by apply cmp_gt_iff|auto].
Qed.

Lemma set_insert_length_new x s : x ∉ s -> length (set_insert x s) = S (length s).
Proof.
  induction s as [|y s IH]; cbn; intros Hx; [done|]. apply not_elem_of_cons in Hx as [Hxy Hx].
  destruct (cmp x y) eqn:E; cbn; [|done|].
  - by apply cmp_eq_iff in E.
  - by rewrite IH.
Qed.

Lemma set_insert_perm_new x s : x ∉ s -> set_insert x s ≡ₚ x :: s.
Proof.
  induction s as [|y s IH]; cbn; intros Hx; [done|]. apply not_elem_of_cons in Hx as [Hxy Hx].
  destruct (cmp x y) eqn:E; [by apply cmp_eq_iff in E|done|]. rewrite IH by done. constructor.
Qed.
Lemma set_insert_NoDup x s : x ∉ s -> NoDup s -> NoDup (set_insert x s).
Proof. intros Hx Hs. rewrite set_insert_perm_new by done. by constructor. Qed.

Lemma set_insert_id x s : StronglySorted lt s -> x ∈ s -> set_insert x s = s.
Proof.
  intros Hs Hx. apply sorted_ext; [by apply set_insert_sorted|done|].
  intros y. rewrite elem_of_set_insert. naive_solver.
Qed.

Lemma set_of_list_spec l :
  StronglySorted lt (set_of_list l) /\ (forall x, x ∈ set_of_list l <-> x ∈ l).
Proof.
  unfold set_of_list.
  enough (forall s, StronglySorted lt s ->
    StronglySorted lt (foldl (fun s x => set_insert x s) s l) /\
    (forall x, x ∈ foldl (fun s x => set_insert x s) s l <-> x ∈ l \/ x ∈ s)) as Hgen.
  { destruct (Hgen [] ltac:(constructor)) as [? Helem]. split; [done|].
    intros x. rewrite Helem, elem_of_nil. tauto. }
  induction l as [|y l IH]; intros s Hs; cbn.
  - split; [done|]. intros x. rewrite elem_of_nil. tauto.
  - destruct (IH (set_insert y s) (set_insert_sorted _ _ Hs)) as [? Helem].
    split; [done|]. intros x. rewrite Helem, elem_of_set_insert, elem_of_cons. tauto.
Qed.

Lemma set_of_list_sorted l : StronglySorted lt (set_of_list l).
Proof. apply set_of_list_spec. Qed.
Lemma elem_of_set_of_list x l : x ∈ set_of_list l <-> x ∈ l.
Proof. apply set_of_list_spec. Qed.

Lemma set_of_list_ext l k : (forall x, x ∈ l <-> x ∈ k) -> set_of_list l = set_of_list k.
Proof.
  intros Hlk. apply sorted_ext; [apply set_of_list_sorted..|].
  intros x. by rewrite !elem_of_set_of_list.
Qed.
End BTreeSets.
#[export] Hint Resolve set_insert_sorted set_of_list_sorted : ordered.
#[export] Hint Extern 1 (StronglySorted _ []) => constructor : ordered.
#[export] Hint Rewrite @set_contains_true @set_contains_false : bools.

(** * [BTreeMap] *)

Abbreviation BTreeMap K V := (list (K * V)) (only parsing).

Section BTreeMaps.
Context {K V : Type} `{RustOrd K}.
Implicit Types (k : K) (v : V) (m : BTreeMap K V).

Fixpoint map_insert k v m : BTreeMap K V :=
  match m with
  | [] => [(k, v)]
  | (k', v') :: m' =>
      match cmp k k' with
      | Lt => (k, v) :: m
      | Eq => (k, v) :: m'
      | Gt => (k', v') :: map_insert k v m'
      end
  end.
Fixpoint map_get k m : option V :=
  match m with
  | [] => None
  | (k', v') :: m' => match cmp k k' with Eq => Some v' | _ => map_get k m' end
  end.
Definition map_contains_key k m : bool := is_some (map_get k m).
Definition map_keys m : list K := map fst m.
Definition map_values m : list V := map snd m.
(** [iter().collect::<BTreeMap<_, _>>()]: a later pair replaces an earlier one. *)
Definition map_of_list (l : list (K * V)) : BTreeMap K V :=
  foldl (fun m kv => map_insert (fst kv) (snd kv) m) [] l.

Definition map_wf m : Prop := StronglySorted lt (map_keys m).

Lemma map_get_insert k k' v m :
  map_wf m -> map_get k' (map_insert k v m) = match cmp k' k with Eq => Some v | _ => map_get k' m end.
Proof.
  induction m as [|[k1 v1] m IH]; cbn; intros Hm; [by destruct (cmp k' k)|].
  apply StronglySorted_inv in Hm as [Hm Hk1].
  destruct (cmp k k1) eqn:E; cbn.
  - apply cmp_eq_iff in E as ->. by destruct (cmp k' k1).
  - destruct (cmp k' k) eqn:E'; done.
  - rewrite IH by done. destruct (cmp k' k1) eqn:E1; [|done|done].
    apply cmp_eq_iff in E1 as ->. destruct (cmp k1 k) eqn:E2; [|done|done].
    apply cmp_eq_iff in E2 as ->. by rewrite cmp_refl in E.
Qed.
Lemma map_get_insert_eq k v m : map_wf m -> map_get k (map_insert k v m) = Some v.
Proof. intros. by rewrite map_get_insert, cmp_refl. Qed.
Lemma map_get_insert_ne k k' v m :
  map_wf m -> k' <> k -> map_get k' (map_insert k v m) = map_get k' m.
Proof.
  intros Hm Hk. rewrite map_get_insert by done.
  destruct (cmp k' k) eqn:E; [|done|done]. by apply cmp_eq_iff in E.
Qed.

Lemma elem_of_map_keys_insert k k' v m : k' ∈ map_keys (map_insert k v m) <-> k' = k \/ k' ∈ map_keys m.
Proof.
  induction m as [|[k1 v1] m IH]; cbn; [set_solver|].
  destruct (cmp k k1) eqn:E; cbn; [apply cmp_eq_iff in E as ->|..]; set_solver.
Qed.

Lemma map_insert_wf k v m : map_wf m -> map_wf (map_insert k v m).
Proof.
  unfold map_wf. induction m as [|[k1 v1] m IH]; cbn; intros Hm; [repeat constructor|].
  apply StronglySorted_inv in Hm as [Hm Hk1].
  destruct (cmp k k1) eqn:E; cbn.
  - apply cmp_eq_iff in E as ->. by constructor.
  - constructor; [by constructor|]. constructor; [done|].
    eapply Forall_impl; [done|]. intros z. by apply lt_trans.
  - constructor; [auto|]. rewrite Forall_forall in *. intros z Hz.
    apply elem_of_map_keys_insert in Hz as [->|Hz]; [by apply cmp_gt_iff|auto].
Qed.

Lemma map_get_None k m : map_get k m = None <-> k ∉ map_keys m.
Proof.
  induction m as [|[k1 v1] m IH]; cbn; [set_solver|].
  rewrite not_elem_of_cons, <- IH, <- (cmp_eq_iff k k1). destruct (cmp k k1); naive_solver.
Qed.
Lemma map_get_is_Some k m : is_Some (map_get k m) <-> k ∈ map_keys m.
Proof.
  rewrite <- not_eq_None_Some, map_get_None. destruct (decide (k ∈ map_keys m)); naive_solver.
Qed.
Lemma map_contains_key_true k m : map_contains_key k m = true <-> k ∈ map_keys m.
Proof. unfold map_contains_key. by rewrite is_some_true, map_get_is_Some. Qed.

Lemma map_get_Some k v m : map_wf m -> map_get k m = Some v <-> (k, v) ∈ m.
Proof.
  unfold map_wf. induction m as [|[k1 v1] m IH]; cbn; intros Hm; [set_solver|].
  apply StronglySorted_inv in Hm as [Hm Hk1]. rewrite elem_of_cons, <- IH by done.
  destruct (cmp k k1) eqn:E.
  - apply cmp_eq_iff in E as ->. split; [intros [= ->]; by left|].
    intros [[= ->]|Hin]; [done|]. apply IH in Hin; [|done].
    assert (lt k1 k1) as []%(irreflexivity lt). rewrite Forall_forall in Hk1. apply Hk1.
    apply list_elem_of_fmap. by exists (k1, v).
  - split; [by right|]. intros [[= -> ->]|?]; [by rewrite cmp_refl in E|done].
  - split; [by right|]. intros [[= -> ->]|?]; [by rewrite cmp_refl in E|done].
Qed.

Lemma map_keys_NoDup m : map_wf m -> NoDup (map_keys m).
Proof. apply sorted_NoDup. Qed.

(** Two maps with the same lookups are the same map. *)
Lemma map_ext_get m1 m2 :
  map_wf m1 -> map_wf m2 -> (forall k, map_get k m1 = map_get k m2) -> m1 = m2.
Proof.
  intros H1 H2 Hget. assert (m1 ≡ₚ m2) as Hperm.
  { apply NoDup_Permutation.
    - eapply (NoDup_fmap_1 fst). by apply map_keys_NoDup.
    - eapply (NoDup_fmap_1 fst). by apply map_keys_NoDup.
    - intros [k v]. rewrite <- !map_get_Some by done. by rewrite Hget. }
  assert (map_keys m1 = map_keys m2) as Hkeys.
  { apply sorted_ext; [done..|]. intros k. by rewrite <- !map_get_is_Some, Hget. }
  revert m2 H1 H2 Hget Hperm Hkeys. induction m1 as [|[k v] m1 IH]; intros [|[k2 v2] m2]; cbn;
    intros H1 H2 Hget Hperm Hkeys; simplify_eq; [done|].
  pose proof (Hget k2) as Hv. rewrite cmp_refl in Hv. simplify_eq.
  f_equal. apply StronglySorted_inv in H1 as [H1 _], H2 as [H2 _].
  apply IH; [done|done| |by apply (Permutation_cons_inv (a := (k2, v2)))|done].
  intros k. specialize (Hget k). destruct (cmp k k2) eqn:E; [|done|done].
  apply cmp_eq_iff in E as ->. apply (Permutation_cons_inv) in Hperm.
  destruct (map_get k2 m1) eqn:E1.
  - apply map_get_Some in E1; [|done]. rewrite Hperm in E1. by apply map_get_Some in E1.
  - destruct (map_get k2 m2) eqn:E2; [|done].
    apply map_get_Some in E2; [|done]. rewrite <- Hperm in E2.
    apply map_get_Some in E2; [congruence|done].
Qed.

Lemma map_insert_perm k v m : map_get k m = None -> map_insert k v m ≡ₚ (k, v) :: m.
Proof.
  induction m as [|[k1 v1] m IH]; cbn; [done|].
  destruct (cmp k k1) eqn:E; [done|done|]. intros Hm. rewrite IH by done. constructor.
Qed.
Lemma map_insert_length_new k v m : map_get k m = None -> length (map_insert k v m) = S (length m).
Proof. intros Hk. by rewrite (map_insert_perm _ v _ Hk). Qed.
Lemma map_keys_insert_old k v v' m :
  map_wf m -> map_get k m = Some v' -> map_keys (map_insert k v m) = map_keys m.
Proof.
  intros Hm Hk. apply sorted_ext; [by apply map_insert_wf|done|].
  intros k'. rewrite elem_of_map_keys_insert. split; [|auto]. intros [->|?]; [|done].
  apply map_get_is_Some. eauto.
Qed.

Lemma map_of_list_wf (l : list (K * V)) : map_wf (map_of_list l).
Proof.
  unfold map_of_list. assert (map_wf (@nil (K * V))) as H0 by constructor. revert H0.
  generalize (@nil (K * V)) as m. induction l as [|[k v] l IH]; cbn; auto using map_insert_wf.
Qed.

Lemma map_of_list_elem (l : list (K * V)) k v : map_get k (map_of_list l) = Some v -> (k, v) ∈ l.
Proof.
  unfold map_of_list.
  enough (forall m, map_wf m -> map_get k (foldl (fun m kv => map_insert (fst kv) (snd kv) m) m l) = Some v ->
    (k, v) ∈ l \/ map_get k m = Some v) as H0.
  { intros Hv. apply H0 in Hv as [?|?]; [done|done|constructor]. }
  induction l as [|[k1 v1] l IH]; intros m Hm Hv; cbn in Hv; [by right|].
  apply IH in Hv as [Hv|Hv]; [left; by right| |by apply map_insert_wf].
  rewrite map_get_insert in Hv by done. destruct (cmp k k1) eqn:E; [|by right..].
  apply cmp_eq_iff in E as ->. injection Hv as ->. left. left.
Qed.
Lemma map_of_list_keys (l : list (K * V)) k : k ∈ map_keys (map_of_list l) <-> k ∈ map fst l.
Proof.
  unfold map_of_list.
  enough (forall m, k ∈ map_keys (foldl (fun m kv => map_insert (fst kv) (snd kv) m) m l)
    <-> k ∈ map fst l \/ k ∈ map_keys m) as H0.
  { rewrite H0. cbn. set_solver. }
  induction l as [|[k1 v1] l IH]; intros m; cbn; [set_solver|].
  rewrite IH, elem_of_map_keys_insert. set_solver.
Qed.
(** Built from a list without losing an entry: the keys were distinct. *)
Lemma map_of_list_length_NoDup (l : list (K * V)) : length (map_of_list l) = length l -> NoDup (map fst l).
Proof.
  intros Hlen. assert (map_keys (map_of_list l) ≡ₚ map fst l) as <-.
  - apply submseteq_length_Permutation.
    + apply NoDup_submseteq; [apply map_keys_NoDup, map_of_list_wf|]. intros k. by rewrite map_of_list_keys.
    + unfold map_keys. rewrite !length_map. lia.
  - apply map_keys_NoDup, map_of_list_wf.
Qed.
Lemma map_of_list_get (l : list (K * V)) k v :
  NoDup (map fst l) -> map_get k (map_of_list l) = Some v <-> (k, v) ∈ l.
Proof.
  intros Hnd. split; [apply map_of_list_elem|]. intros Hin.
  assert (k ∈ map_keys (map_of_list l)) as [v' Hv]%map_get_is_Some.
  { rewrite map_of_list_keys. apply (list_elem_of_fmap_2 fst _ _ Hin). }
  rewrite Hv. apply map_of_list_elem in Hv. f_equal.
  apply list_elem_of_lookup in Hin as [i Hi]. apply list_elem_of_lookup in Hv as [j Hj].
  assert (i = j) as ->; [|congruence].
  apply (NoDup_lookup (map fst l) i j k Hnd); change (map fst l) with (fst <$> l);
    by rewrite list_lookup_fmap, ?Hi, ?Hj.
Qed.
End BTreeMaps.
Arguments map_wf {K V _} m.
#[export] Hint Resolve map_insert_wf map_of_list_wf : ordered.
#[export] Hint Extern 1 (map_wf []) => constructor : ordered.

Lemma map_get_map {K V W} `{RustOrd K} (f : K -> V -> W) (m : BTreeMap K V) key :
  map_get key (map (fun p => (fst p, f (fst p) (snd p))) m) = option_map (f key) (map_get key m).
Proof.
  induction m as [|[k a] m IH]; cbn [map map_get fst snd]; [done|].
  destruct (cmp key k) eqn:E; [|done|done]. apply cmp_eq_iff in E as ->. done.
Qed.

(** Values by key, when keys are the values' own identities: a map built by
    inserting values under their identity, refusing a duplicate. *)
Section KeyedMaps.
Context {K V : Type} `{RustOrd K} (key : V -> K).

Definition keyed (m : BTreeMap K V) : Prop := map_wf m /\ Forall (fun kv => fst kv = key (snd kv)) m.

Lemma keyed_get m k v : keyed m -> map_get k m = Some v -> k = key v.
Proof.
  intros [Hwf Hm] Hk. apply map_get_Some in Hk; [|done].
  rewrite Forall_forall in Hm. apply (Hm _ Hk).
Qed.

Lemma keyed_insert m v : keyed m -> map_get (key v) m = None -> keyed (map_insert (key v) v m).
Proof.
  intros [Hwf Hm] Hk. split; [by apply map_insert_wf|].
  rewrite (map_insert_perm _ _ _ Hk). by constructor.
Qed.

(** A keyed map is determined by its values, in any order. *)
Lemma keyed_ext m1 m2 : keyed m1 -> keyed m2 -> map_values m1 ≡ₚ map_values m2 -> m1 = m2.
Proof.
  intros [Hwf1 Hm1] [Hwf2 Hm2] Hperm.
  assert (forall m, Forall (fun kv => fst kv = key (snd kv)) m ->
    m = map (fun v => (key v, v)) (map_values m)) as Hval.
  { induction 1 as [|[k v] m Hk _ IH]; cbn in *; [done|]. subst k. f_equal. exact IH. }
  assert (m1 ≡ₚ m2) as Hp. { rewrite (Hval m1), (Hval m2) by done. by rewrite Hperm. }
  apply map_ext_get; [done..|]. intros k.
  destruct (map_get k m1) eqn:E1.
  - apply map_get_Some in E1; [|done]. rewrite Hp in E1. symmetry. by apply map_get_Some.
  - destruct (map_get k m2) eqn:E2; [|done]. apply map_get_Some in E2; [|done].
    rewrite <- Hp in E2. apply map_get_Some in E2; [congruence|done].
Qed.
End KeyedMaps.

(** * [slice::sort_by] (stable) and [Vec::dedup] *)

Section Sorting.
Context {A : Type} (c : A -> A -> comparison).

Fixpoint sort_insert (x : A) (l : list A) : list A :=
  match l with
  | [] => [x]
  | y :: l' => match c x y with Gt => y :: sort_insert x l' | _ => x :: l end
  end.
(** Elements that compare equal keep their order. *)
Fixpoint sort_by (l : list A) : list A :=
  match l with
  | [] => []
  | x :: l => sort_insert x (sort_by l)
  end.

Lemma sort_insert_perm x l : sort_insert x l ≡ₚ x :: l.
Proof.
  induction l as [|y l IH]; cbn; [done|]. destruct (c x y); [done|done|].
  rewrite IH. constructor.
Qed.
Lemma sort_by_perm l : sort_by l ≡ₚ l.
Proof. induction l as [|x l IH]; cbn; [done|]. by rewrite sort_insert_perm, IH. Qed.
Lemma sort_by_length l : length (sort_by l) = length l.
Proof. by rewrite sort_by_perm. Qed.
Lemma elem_of_sort_by x l : x ∈ sort_by l <-> x ∈ l.
Proof. by rewrite sort_by_perm. Qed.
End Sorting.

(** Sorting by a key with a total order. *)
Section SortByKey.
Context {A B : Type} `{RustOrd B} (f : A -> B).
Notation by_key := (fun x y => cmp (f x) (f y)).
Notation le := (fun x y => cmp (f x) (f y) <> Gt).

Lemma by_key_le_trans x y z : le x y -> le y z -> le x z.
Proof.
  intros H1 H2. destruct (cmp (f x) (f y)) eqn:E1, (cmp (f y) (f z)) eqn:E2; try done.
  - apply cmp_eq_iff in E1 as ->. by rewrite E2.
  - apply cmp_eq_iff in E1 as ->. by rewrite E2.
  - apply cmp_eq_iff in E2 as <-. by rewrite E1.
  - by rewrite (cmp_lt_trans _ _ _ E1 E2).
Qed.

Lemma sort_by_key_sorted l : StronglySorted le (sort_by by_key l).
Proof.
  induction l as [|x l IH]; cbn; [constructor|]. revert IH.
  generalize (sort_by by_key l) as k. intros k. induction 1 as [|y k Hk IH Hy]; cbn; [repeat constructor|].
  destruct (cmp (f x) (f y)) eqn:E.
  - constructor; [by constructor|]. constructor; [by rewrite E|].
    eapply Forall_impl; [done|]. intros z Hz. apply (by_key_le_trans x y z); [by rewrite E|exact Hz].
  - constructor; [by constructor|]. constructor; [by rewrite E|].
    eapply Forall_impl; [done|]. intros z Hz. apply (by_key_le_trans x y z); [by rewrite E|exact Hz].
  - constructor; [done|]. rewrite sort_insert_perm. constructor; [|done].
    apply cmp_gt_iff in E. by rewrite E.
Qed.

(** Sorting does not see the input's order, when keys identify elements. *)
Lemma sort_by_key_ext l k :
  l ≡ₚ k -> (forall x y, x ∈ l -> y ∈ l -> f x = f y -> x = y) ->
  sort_by by_key l = sort_by by_key k.
Proof.
  intros Hlk Hinj. apply (StronglySorted_unique_strong le).
  - intros x y Hx Hy H1 H2. rewrite elem_of_sort_by in Hx. rewrite elem_of_sort_by, <- Hlk in Hy.
    apply Hinj; [done..|]. apply cmp_eq_iff. rewrite (cmp_antisym (f x) (f y)) in H2.
    by destruct (cmp (f x) (f y)).
  - apply sort_by_key_sorted.
  - apply sort_by_key_sorted.
  - by rewrite !sort_by_perm.
Qed.

(** With distinct keys, the keys come out strictly sorted. *)
Lemma sort_by_key_NoDup l : NoDup (map f l) -> StronglySorted lt (map f (sort_by by_key l)).
Proof.
  intros Hnd. assert (NoDup (map f (sort_by by_key l))) as Hnd' by by rewrite sort_by_perm.
  clear Hnd. revert Hnd'. induction (sort_by_key_sorted l) as [|x k Hk IH Hx]; cbn; [constructor|].
  intros [Hnin Hnd]%NoDup_cons. constructor; [by apply IH|].
  apply Forall_forall. intros y (z & -> & Hz)%list_elem_of_fmap.
  pose proof (proj1 (Forall_forall _ _) Hx z Hz) as Hxz. unfold lt. destruct (cmp (f x) (f z)) eqn:E; [|done|done].
  apply cmp_eq_iff in E. exfalso. apply Hnin. rewrite E. apply list_elem_of_fmap. eauto.
Qed.
End SortByKey.

(** [v.sort(); v.dedup();] *)
Fixpoint dedup {A} `{EqDecision A} (l : list A) : list A :=
  match l with
  | [] => []
  | x :: l' =>
      match l' with
      | [] => [x]
      | y :: _ => if decide (x = y) then dedup l' else x :: dedup l'
      end
  end.
Definition sort {A} `{RustOrd A} (l : list A) : list A := sort_by cmp l.

Section SortDedup.
Context {A : Type} `{RustOrd A} `{!EqDecision A}.

Lemma elem_of_dedup (x : A) l : x ∈ dedup l <-> x ∈ l.
Proof.
  induction l as [|y l IH]; [done|]. cbn [dedup]. destruct l as [|z l]; [done|].
  destruct (decide (y = z)) as [->|].
  - rewrite IH. set_solver.
  - rewrite !(elem_of_cons _ x y), IH. done.
Qed.

Lemma dedup_sorted (l : list A) :
  StronglySorted (fun x y => cmp x y <> Gt) l -> StronglySorted lt (dedup l).
Proof.
  induction 1 as [|x l Hl IH Hx]; [constructor|]. cbn [dedup]. destruct l as [|y l]; [repeat constructor|].
  destruct (decide (x = y)) as [->|Hne]; [done|]. constructor; [done|].
  rewrite Forall_forall in *. intros z. rewrite elem_of_dedup. intros Hz. unfold lt.
  pose proof (Hx _ Hz) as Hxz. destruct (cmp x z) eqn:E; [|done|done].
  apply cmp_eq_iff in E as <-. exfalso.
  apply StronglySorted_inv in Hl as [_ Hy]. apply elem_of_cons in Hz as [->|Hz]; [done|].
  rewrite Forall_forall in Hy. pose proof (Hy _ Hz) as Hyx.
  pose proof (Hx y ltac:(left)) as Hxy. apply Hne, cmp_eq_iff.
  rewrite (cmp_antisym x y) in Hyx. destruct (cmp x y); cbn in *; congruence.
Qed.

Lemma sort_dedup_sorted (l : list A) : StronglySorted lt (dedup (sort l)).
Proof. apply dedup_sorted. apply (sort_by_key_sorted (fun x : A => x)). Qed.
Lemma elem_of_sort_dedup (x : A) l : x ∈ dedup (sort l) <-> x ∈ l.
Proof. rewrite elem_of_dedup. unfold sort. apply elem_of_sort_by. Qed.
(** Sorting and removing duplicates builds the list of the set. *)
Lemma sort_dedup_set (l : list A) : dedup (sort l) = set_of_list l.
Proof.
  apply sorted_ext; [apply sort_dedup_sorted|apply set_of_list_sorted|].
  intros x. by rewrite elem_of_sort_dedup, elem_of_set_of_list.
Qed.
End SortDedup.

(** A loop that inserts the key of each element and fails on a repeated key. *)
Section InsertLoop.
Context {X A : Type} `{RustOrd A} (f : BTreeSet A -> X -> outcome (BTreeSet A)).
Context (P : X -> Prop) (key : X -> A).
Context (Hf : forall s x s', f s x = Ok s' <-> P x /\ key x ∉ s /\ s' = set_insert (key x) s).

Lemma set_of_list_snoc (l : list A) x : set_of_list (l ++ [x]) = set_insert x (set_of_list l).
Proof. unfold set_of_list. by rewrite foldl_app. Qed.

Lemma insert_loop_Ok l s :
  for_each f [] l = Ok s <-> Forall P l /\ NoDup (map key l) /\ s = set_of_list (map key l).
Proof.
  revert s; induction l as [|x l IH] using rev_ind; intros s.
  { cbn. rewrite Ok_inj_iff. split; [intros <-; repeat constructor|by intros (_ & _ & ->)]. }
  rewrite for_each_app, bind_Ok, map_app, Forall_app, Forall_singleton, NoDup_app.
  setoid_rewrite IH. cbn [for_each map]. rewrite set_of_list_snoc. split.
  - intros (s0 & (HP & Hnd & ->) & H1). apply bind_Ok in H1 as (s1 & H1 & [= <-]).
    apply Hf in H1 as (HPx & Hx & ->). rewrite elem_of_set_of_list in Hx.
    split_and!; try done; [|apply NoDup_singleton].
    intros y Hy Hyx. apply list_elem_of_singleton in Hyx. by subst.
  - intros ((HP & HPx) & (Hnd & Hx & _) & ->). exists (set_of_list (map key l)).
    split; [done|]. apply bind_Ok. eexists. split; [|reflexivity]. apply Hf.
    split_and!; [done| |done]. rewrite elem_of_set_of_list. intros Hin. apply (Hx _ Hin). left.
Qed.
End InsertLoop.

Lemma set_of_list_perm {A} `{RustOrd A} (l k : list A) : l ≡ₚ k -> set_of_list l = set_of_list k.
Proof. intros Hlk. apply set_of_list_ext. intros x. by rewrite Hlk. Qed.
Lemma set_of_list_NoDup_perm {A} `{RustOrd A} (l k : list A) :
  NoDup l -> NoDup k -> set_of_list l = set_of_list k -> l ≡ₚ k.
Proof.
  intros Hl Hk Heq. apply NoDup_Permutation; [done..|]. intros x.
  by rewrite <- (elem_of_set_of_list x l), Heq, elem_of_set_of_list.
Qed.
Lemma sort_perm_eq {A} `{RustOrd A} (l k : list A) : l ≡ₚ k -> sort l = sort k.
Proof. intros Hlk. apply (sort_by_key_ext id); [done|]. by intros x y _ _. Qed.
Lemma sort_nat_sorted (l : list nat) : NoDup l -> StronglySorted Nat.lt (sort l).
Proof.
  intros Hnd. pose proof (sort_by_key_NoDup (fun x : nat => x) l) as Hsort. rewrite !map_id in Hsort.
  specialize (Hsort Hnd). rewrite <- (list_fmap_id (sort l)). eapply StronglySorted_fmap; [|exact Hsort].
  intros x y. apply Nat.compare_lt_iff.
Qed.

(** ** [sort_by_key] and [dedup_by_key] *)

Section KeyedSort.
Context {A K : Type} `{RustOrd K} (key : A -> K).

(** [l.sort_by(|left, right| key(left).cmp(&key(right)))], and the removal of
    elements whose key is that of the one kept before them. *)
Definition sort_by_key (l : list A) : list A := sort_by (fun left right => cmp (key left) (key right)) l.
Fixpoint dedup_after (previous : K) (l : list A) : list A :=
  match l with
  | [] => []
  | x :: l => if decide (key x = previous) then dedup_after previous l else x :: dedup_after (key x) l
  end.
Definition dedup_by_key (l : list A) : list A :=
  match l with [] => [] | x :: l => x :: dedup_after (key x) l end.

Lemma elem_of_sort_by_key x l : x ∈ sort_by_key l <-> x ∈ l.
Proof. apply elem_of_sort_by. Qed.
Lemma sort_by_key_Permutation l : sort_by_key l ≡ₚ l.
Proof. apply sort_by_perm. Qed.
Lemma map_sort_by_key l : map key (sort_by_key l) = sort (map key l).
Proof.
  unfold sort_by_key, sort. induction l as [|x l IH]; [done|]. cbn [map sort_by]. rewrite <- IH.
  generalize (sort_by (fun left right => cmp (key left) (key right)) l) as k. intros k.
  induction k as [|y k IHk]; [done|]. cbn [map sort_insert].
  destruct (cmp (key x) (key y)); [done|done|]. cbn [map]. by rewrite IHk.
Qed.
Lemma map_dedup_by_key l : map key (dedup_by_key l) = dedup (map key l).
Proof.
  destruct l as [|x l]; [done|]. unfold dedup_by_key. revert x. induction l as [|y l IH]; intros x; [done|].
  cbn [dedup_after map]. specialize (IH y). cbn [map] in IH. change (dedup (key x :: key y :: map key l)) with
    (if decide (key x = key y) then dedup (key y :: map key l) else key x :: dedup (key y :: map key l)).
  destruct (decide (key y = key x)) as [E|E].
  - rewrite decide_True, <- IH by done. by rewrite E.
  - rewrite decide_False, <- IH by done. done.
Qed.
Lemma dedup_by_key_incl x l : x ∈ dedup_by_key l -> x ∈ l.
Proof.
  destruct l as [|y l]; [done|]. unfold dedup_by_key. intros [->|Hx]%elem_of_cons; [left|right].
  generalize (key y), Hx. clear. induction l as [|z l IH]; intros k; [done|]. cbn. case_decide.
  - intros Hx. right. by eapply IH.
  - intros [->|Hx]%elem_of_cons; [left|right; by eapply IH].
Qed.
(** Sorted by a key and without repeats of it: the keys are the set of them. *)
Lemma map_sort_dedup_by_key l : map key (dedup_by_key (sort_by_key l)) = set_of_list (map key l).
Proof. by rewrite map_dedup_by_key, map_sort_by_key, sort_dedup_set. Qed.
Lemma sort_dedup_by_key_incl x l : x ∈ dedup_by_key (sort_by_key l) -> x ∈ l.
Proof. intros Hx%dedup_by_key_incl. by rewrite elem_of_sort_by_key in Hx. Qed.
(** Where keys identify elements nothing is lost. *)
Lemma elem_of_sort_dedup_by_key l x :
  (forall y z, y ∈ l -> z ∈ l -> key y = key z -> y = z) -> x ∈ dedup_by_key (sort_by_key l) <-> x ∈ l.
Proof.
  intros Hinj. split; [apply sort_dedup_by_key_incl|]. intros Hx.
  assert (key x ∈ map key (dedup_by_key (sort_by_key l))) as (y & Hk & Hy)%list_elem_of_fmap.
  { rewrite map_sort_dedup_by_key, elem_of_set_of_list. by apply list_elem_of_fmap_2. }
  rewrite (Hinj x y); [done|done|by apply sort_dedup_by_key_incl|done].
Qed.
End KeyedSort.
