(* ===== verification/Entries.v ===== *)
(** Rust's entry interface of maps, [map.entry(key).or_default()], as the modelled
    files use it: counting, pushing onto the vector of a key, inserting into the
    set of a key; and what a loop of pushes leaves in the map. *)
From S2P Require Import Prelude Ordering.
Local Open Scope nat_scope.

Section Entries.
Context {K : Type} `{RustOrd K}.

(** [*map.entry(key).or_default() += n] *)
Definition add_count (key : K) (n : nat) (counts : BTreeMap K nat) : BTreeMap K nat :=
  map_insert key (default 0 (map_get key counts) + n) counts.
Definition count_of (counts : BTreeMap K nat) (key : K) : nat := default 0 (map_get key counts).
(** [map.entry(key).or_default().push(x)] *)
Definition push_entry {A} (key : K) (x : A) (m : BTreeMap K (list A)) : BTreeMap K (list A) :=
  map_insert key (default [] (map_get key m) ++ [x]) m.
(** [map.entry(key).or_default().insert(x)] *)
Definition insert_entry {A} `{RustOrd A} (key : K) (x : A) (m : BTreeMap K (BTreeSet A)) : BTreeMap K (BTreeSet A) :=
  map_insert key (set_insert x (default [] (map_get key m))) m.

Lemma map_get_push {A} key (x : A) m k :
  map_wf m -> map_get k (push_entry key x m) =
  if decide (k = key) then Some (default [] (map_get k m) ++ [x]) else map_get k m.
Proof.
  intros Hwf. unfold push_entry. case_decide as Hk; [subst; by rewrite map_get_insert_eq|].
  by rewrite map_get_insert_ne.
Qed.
Lemma map_get_insert_entry {A} `{RustOrd A} key (x : A) m k :
  map_wf m -> map_get k (insert_entry key x m) =
  if decide (k = key) then Some (set_insert x (default [] (map_get k m))) else map_get k m.
Proof.
  intros Hwf. unfold insert_entry. case_decide as Hk; [subst; by rewrite map_get_insert_eq|].
  by rewrite map_get_insert_ne.
Qed.
Lemma map_get_add key n m k :
  map_wf m -> map_get k (add_count key n m) =
  if decide (k = key) then Some (count_of m k + n) else map_get k m.
Proof.
  intros Hwf. unfold add_count, count_of. case_decide as Hk; [subst; by rewrite map_get_insert_eq|].
  by rewrite map_get_insert_ne.
Qed.
Lemma count_add key n m k :
  map_wf m -> count_of (add_count key n m) k = count_of m k + if decide (k = key) then n else 0.
Proof. intros Hm. unfold count_of at 1. rewrite map_get_add by done. case_decide; cbn; [done|]. unfold count_of. lia. Qed.
Lemma push_entry_wf {A} key (x : A) m : map_wf m -> map_wf (push_entry key x m).
Proof. apply map_insert_wf. Qed.
Lemma insert_entry_wf {A} `{RustOrd A} key (x : A) m : map_wf m -> map_wf (insert_entry key x m).
Proof. apply map_insert_wf. Qed.
Lemma add_count_wf key n m : map_wf m -> map_wf (add_count key n m).
Proof. apply map_insert_wf. Qed.

(** The elements filed under a key when those that have one are pushed in turn. *)
Definition filed {A} (key : A -> option K) (l : list A) (k : K) : list A :=
  List.filter (fun x => bool_decide (key x = Some k)) l.
Definition push_keyed {A} (key : A -> option K) (m : BTreeMap K (list A)) (x : A) : BTreeMap K (list A) :=
  match key x with Some k => push_entry k x m | None => m end.

Lemma push_keyed_get {A} (key : A -> option K) l k :
  map_wf (foldl (push_keyed key) [] l) /\
  map_get k (foldl (push_keyed key) [] l) = if is_nil (filed key l k) then None else Some (filed key l k).
Proof.
  induction l as [|x l [Hwf IH]] using rev_ind; [by split; [constructor|]|].
  rewrite foldl_app. cbn [foldl]. unfold filed. rewrite List.filter_app. cbn [List.filter].
  unfold push_keyed at 1 3. destruct (key x) as [j|] eqn:Hj.
  - split; [by apply push_entry_wf|]. rewrite map_get_push, IH by done. unfold filed. case_decide as Hk.
    + subst j. rewrite bool_decide_eq_true_2 by done. by destruct (List.filter _ l).
    + rewrite bool_decide_eq_false_2 by naive_solver. by rewrite app_nil_r.
  - split; [done|]. rewrite bool_decide_eq_false_2 by done. by rewrite app_nil_r.
Qed.
Lemma elem_of_filed {A} (key : A -> option K) l k x : x ∈ filed key l k <-> x ∈ l /\ key x = Some k.
Proof. unfold filed. by rewrite elem_of_filter_bool, bool_decide_eq_true. Qed.
End Entries.
Create HintDb entries.
#[export] Hint Resolve push_entry_wf insert_entry_wf add_count_wf : entries.

(** A loop that refuses a key it has seen. *)
Lemma insert_absent_Ok {K A V} `{RustOrd K} (key : A -> K) (value : A -> V) e l m :
  for_each (fun m x => if map_contains_key (key x) m then Err e else Ok (map_insert (key x) (value x) m)) [] l = Ok m ->
  map_wf m /\ forall k v, map_get k m = Some v <-> exists x, x ∈ l /\ key x = k /\ value x = v.
Proof.
  apply (for_each_inv (fun pre m => map_wf m /\ forall k v, map_get k m = Some v <->
    exists x, x ∈ pre /\ key x = k /\ value x = v)).
  { split; [constructor|]. intros k v. split; [done|]. by intros (x & ?%not_elem_of_nil & _). }
  intros pre x suf m1 m2 _ [Hwf Hm] [Hnew [= <-]]%if_Err_Ok. split; [by apply map_insert_wf|].
  assert (forall v, map_get (key x) m1 <> Some v) as Hnone.
  { intros v Hv. assert (map_contains_key (key x) m1 = true) as Hc; [|congruence].
    apply map_contains_key_true, map_get_is_Some. by exists v. }
  intros k v. rewrite map_get_insert by done.
  assert ((exists y, y ∈ pre ++ [x] /\ key y = k /\ value y = v) <->
    map_get k m1 = Some v \/ key x = k /\ value x = v) as ->.
  { rewrite Hm. setoid_rewrite elem_of_app. setoid_rewrite list_elem_of_singleton. naive_solver. }
  destruct (cmp k (key x)) eqn:E.
  1: apply cmp_eq_iff in E as ->; naive_solver.
  all: assert (key x <> k) by (intros <-; by rewrite cmp_refl in E); naive_solver.
Qed.

(** * Entries pushed one by one *)

Lemma foldl_concat {A B} (f : A -> B -> A) s ls : foldl f s (concat ls) = foldl (foldl f) s ls.
Proof. revert s. induction ls as [|l ls IH]; intros s; cbn; [done|]. by rewrite foldl_app, IH. Qed.
Lemma foldl_map {A B C} (f : A -> B -> A) (g : C -> B) s l : foldl f s (map g l) = foldl (fun s x => f s (g x)) s l.
Proof. revert s. induction l as [|x l IH]; intros s; cbn; [done|apply IH]. Qed.
Lemma foldl_ext_in {A B} (f g : A -> B -> A) s l : (forall s x, f s x = g s x) -> foldl f s l = foldl g s l.
Proof. intros Hfg. revert s. induction l as [|x l IH]; intros s; cbn; [done|]. by rewrite Hfg. Qed.

Section Pushes.
Context {K : Type} `{RustOrd K}.

Definition pushes {A} (l : list (K * A)) : BTreeMap K (list A) :=
  foldl (fun m p => push_entry (fst p) (snd p) m) [] l.
Definition entries_of {A} (l : list (K * A)) (key : K) : list A :=
  map snd (List.filter (fun p => bool_decide (fst p = key)) l).

Lemma pushes_get {A} (l : list (K * A)) key :
  map_wf (pushes l) /\ map_get key (pushes l) = if is_nil (entries_of l key) then None else Some (entries_of l key).
Proof.
  unfold pushes. induction l as [|[k x] l [Hwf IH]] using rev_ind; [by split; [constructor|]|].
  rewrite foldl_app. cbn [foldl fst snd]. split; [auto with entries|].
  rewrite map_get_push, IH by done. unfold entries_of. rewrite List.filter_app, map_app. cbn [List.filter map fst].
  case_decide as Hk; [subst; rewrite bool_decide_eq_true_2 by done|rewrite bool_decide_eq_false_2 by naive_solver];
    cbn [map snd].
  - destruct (map snd _); done.
  - by rewrite app_nil_r.
Qed.
Lemma pushes_wf {A} (l : list (K * A)) : map_wf (pushes l).
Proof.
  destruct l as [|[k x] l]; [constructor|]. apply (pushes_get _ k).
Qed.
Lemma pushes_default {A} (l : list (K * A)) key : default [] (map_get key (pushes l)) = entries_of l key.
Proof. rewrite (proj2 (pushes_get l key)). by destruct (entries_of l key). Qed.
Lemma elem_of_entries {A} (l : list (K * A)) key x : x ∈ entries_of l key <-> (key, x) ∈ l.
Proof.
  unfold entries_of. rewrite list_elem_of_fmap. setoid_rewrite elem_of_filter_bool. split.
  - intros ([k y] & -> & Hin & Hk). apply bool_decide_eq_true_1 in Hk. cbn in *. by subst.
  - intros Hin. exists (key, x). split_and!; [done|done|]. by apply bool_decide_eq_true_2.
Qed.
(** Loops that push what each element contributes. *)
Lemma pushes_omap {A B} (entry : B -> option (K * A)) l :
  foldl (fun m x => match entry x with Some p => push_entry (fst p) (snd p) m | None => m end) [] l
  = pushes (omap entry l).
Proof.
  unfold pushes. generalize (@nil (K * list A)) as m. induction l as [|x l IH]; intros m; cbn; [done|].
  destruct (entry x) as [p|]; apply IH.
Qed.
Lemma pushes_concat {A B} (keys : B -> list K) (value : B -> A) l :
  foldl (fun m x => foldl (fun m key => push_entry key (value x) m) m (keys x)) [] l
  = pushes (concat (map (fun x => map (fun key => (key, value x)) (keys x)) l)).
Proof.
  unfold pushes. rewrite foldl_concat, foldl_map. apply foldl_ext_in. intros m x. by rewrite foldl_map.
Qed.
(** What is filed together. *)
Lemma elem_of_push_groups {A} (l : list (K * A)) group :
  group ∈ map_values (pushes l) -> exists key, group = entries_of l key.
Proof.
  intros ([key g] & -> & Hin)%list_elem_of_fmap. exists key. cbn.
  apply map_get_Some in Hin; [|apply pushes_wf]. rewrite (proj2 (pushes_get l key)) in Hin.
  by destruct (entries_of l key); inversion Hin.
Qed.
Lemma push_groups_elem {A} (l : list (K * A)) key x :
  (key, x) ∈ l -> entries_of l key ∈ map_values (pushes l).
Proof.
  intros Hin%elem_of_entries. assert (map_get key (pushes l) = Some (entries_of l key)) as Hget.
  { rewrite (proj2 (pushes_get l key)). destruct (entries_of l key); [by apply not_elem_of_nil in Hin|done]. }
  apply map_get_Some in Hget; [|apply pushes_wf]. by apply (list_elem_of_fmap_2 snd) in Hget.
Qed.
End Pushes.
Lemma push_entry_concat {K A} `{RustOrd K} key (x : A) m :
  map_wf m -> concat (map snd (push_entry key x m)) ≡ₚ x :: concat (map snd m).
Proof.
  intros Hwf. unfold push_entry. destruct (map_get key m) as [l|] eqn:Hget; cbn [default].
  - unfold id. revert l Hget. induction m as [|[k1 l1] m IH]; intros l; [done|].
    cbn [map_get map_insert map concat snd].
    apply StronglySorted_inv in Hwf as [Hwf Hk1]. destruct (cmp key k1) eqn:E; cbn [map concat snd].
    + intros [= ->]. by rewrite <- app_assoc, Permutation_middle.
    + intros Hget. exfalso. assert (key ∈ map_keys m) as Hin by (apply map_get_is_Some; by eexists).
      rewrite Forall_forall in Hk1. apply (lt_asym key k1 E), Hk1, Hin.
    + intros Hget. rewrite (IH Hwf l Hget), <- Permutation_middle. done.
  - by rewrite (map_insert_perm key [x] m Hget).
Qed.
Lemma pushes_perm {K A} `{RustOrd K} (l : list (K * A)) : concat (map_values (pushes l)) ≡ₚ map snd l.
Proof.
  unfold pushes, map_values. induction l as [|[k x] l IH] using rev_ind; [done|].
  rewrite foldl_app, map_app. cbn [foldl map fst snd]. rewrite push_entry_concat by apply pushes_wf.
  rewrite IH. by rewrite Permutation_app_comm.
Qed.
#[export] Hint Resolve pushes_wf : entries.
