(* ===== verification/RustText.v ===== *)
(** Rust's [str].

    A [str] is its UTF-8 bytes, so it is a Rocq [string]: [len], ordering and
    byte iteration are those of the bytes.  [char_indices] splits it into
    scalar values with their encodings; on well-formed UTF-8 it is what
    [str::chars] yields, and on any bytes the encodings concatenate back to the
    string.  The functions below are the [str] and [char] methods the modelled
    files call. *)
From S2P Require Import Prelude Ordering.
Local Open Scope N_scope.

Definition byte_of (c : Ascii.ascii) : N := Ascii.N_of_ascii c.
Definition char_of (b : N) : Ascii.ascii := Ascii.ascii_of_N b.
Fixpoint bytes (s : string) : list N :=
  match s with
  | EmptyString => []
  | String c s => byte_of c :: bytes s
  end.
Fixpoint string_of_bytes (l : list N) : string :=
  match l with
  | [] => EmptyString
  | b :: l => String (char_of b) (string_of_bytes l)
  end.
Definition NUL : string := String (char_of 0) EmptyString.
Definition is_empty (s : string) : bool := match s with EmptyString => true | _ => false end.

(** ** Classes of bytes ([u8]) and scalar values ([char]) *)

Definition in_range (lo hi b : N) : bool := (lo <=? b) && (b <=? hi).
Definition is_ascii_digit (b : N) : bool := in_range 48 57 b.
Definition is_ascii_uppercase (b : N) : bool := in_range 65 90 b.
Definition is_ascii_lowercase (b : N) : bool := in_range 97 122 b.
Definition is_ascii_alphabetic (b : N) : bool := is_ascii_uppercase b || is_ascii_lowercase b.
Definition is_ascii_alphanumeric (b : N) : bool :=
  is_ascii_digit b || is_ascii_uppercase b || is_ascii_lowercase b.
Definition is_ascii_hexdigit (b : N) : bool :=
  is_ascii_digit b || in_range 65 70 b || in_range 97 102 b.
Definition is_ascii_control (b : N) : bool := (b <? 32) || (b =? 127).
(** U+0020, tab, line feed, form feed, carriage return. *)
Definition is_ascii_whitespace (b : N) : bool :=
  elemb b [32; 9; 10; 12; 13].
(** [char::is_control]: general category Cc. *)
Definition is_control (c : N) : bool := (c <? 32) || in_range 127 159 c.
(** [char::is_whitespace]: the White_Space property. *)
Definition is_whitespace (c : N) : bool :=
  in_range 9 13 c || (c =? 32) || (c =? 133) || (c =? 160) || (c =? 5760)
  || in_range 8192 8202 c || elemb c [8232; 8233; 8239; 8287; 12288].

Definition ascii_lower (b : N) : N := if is_ascii_uppercase b then b + 32 else b.
Fixpoint map_bytes (f : N -> N) (s : string) : string :=
  match s with
  | EmptyString => EmptyString
  | String c s => String (char_of (f (byte_of c))) (map_bytes f s)
  end.
Definition to_ascii_lowercase (s : string) : string := map_bytes ascii_lower s.
(** [s.replace(a, b)] for one-byte [a] and [b]. *)
Definition replace_byte (a b : N) (s : string) : string :=
  map_bytes (fun x => if x =? a then b else x) s.

(** ** Scalar values *)

Definition REPLACEMENT : N := 65533.
Fixpoint decode (need : nat) (acc : N) (pending s : string) : list (N * string) :=
  match s with
  | EmptyString => if is_empty pending then [] else [(REPLACEMENT, pending)]
  | String c s' =>
      let b := byte_of c in
      let one := String c EmptyString in
      let lead :=
        if b <? 128 then (b, one) :: decode 0 0 EmptyString s'
        else if b <? 192 then (REPLACEMENT, one) :: decode 0 0 EmptyString s'
        else if b <? 224 then decode 1 (N.land b 31) one s'
        else if b <? 240 then decode 2 (N.land b 15) one s'
        else decode 3 (N.land b 7) one s'
      in
      match need with
      | O => lead
      | S need' =>
          if in_range 128 191 b then
            let acc' := acc * 64 + N.land b 63 in
            let pending' := (pending ++ one)%string in
            match need' with
            | O => (acc', pending') :: decode 0 0 EmptyString s'
            | S _ => decode need' acc' pending' s'
            end
          else (REPLACEMENT, pending) :: lead
      end
  end.
Definition char_indices (s : string) : list (N * string) := decode 0 0 EmptyString s.
Definition chars (s : string) : list N := map fst (char_indices s).
Definition encode (l : list (N * string)) : string := foldr (fun c s => (snd c ++ s)%string) EmptyString l.

(** [s.trim().is_empty()] *)
Definition trim_is_empty (s : string) : bool := forallb is_whitespace (chars s).

Fixpoint drop_while {A} (p : A -> bool) (l : list A) : list A :=
  match l with
  | [] => []
  | x :: l' => if p x then drop_while p l' else l
  end.
(** [trim_start_matches] and [trim_matches] *)
Definition trim_start_matches (p : N -> bool) (s : string) : string :=
  encode (drop_while (fun c => p (fst c)) (char_indices s)).
Definition trim_matches (p : N -> bool) (s : string) : string :=
  encode (reverse (drop_while (fun c => p (fst c))
    (reverse (drop_while (fun c => p (fst c)) (char_indices s))))).

(** [s.split(p)]: the pieces between separators, the empty ones included. *)
Fixpoint split_pieces (p : N -> bool) (cur : string) (l : list (N * string)) : list string :=
  match l with
  | [] => [cur]
  | (c, e) :: l =>
      if p c then cur :: split_pieces p EmptyString l else split_pieces p (cur ++ e)%string l
  end.
Definition split (p : N -> bool) (s : string) : list string :=
  split_pieces p EmptyString (char_indices s).
Definition split_whitespace (s : string) : list string :=
  List.filter (fun t => negb (is_empty t)) (split is_whitespace s).
(** [s.split(p).next()], which is never [None]. *)
Definition first_piece (p : N -> bool) (s : string) : string :=
  match split p s with [] => EmptyString | t :: _ => t end.
(** [s.rsplit(c).next()] *)
Definition last_piece (p : N -> bool) (s : string) : string :=
  match reverse (split p s) with [] => EmptyString | t :: _ => t end.

(** ** Substrings *)

Definition starts_with (p s : string) : bool := String.prefix p s.
Fixpoint str_drop (n : nat) (s : string) : string :=
  match n, s with
  | O, _ => s
  | S n, String _ s => str_drop n s
  | S _, EmptyString => EmptyString
  end.
Definition ends_with (p s : string) : bool :=
  (String.length p <=? String.length s)%nat
  && seqb (str_drop (String.length s - String.length p) s) p.
(** The text after the first occurrence of a needle: [&s[i + needle.len()..]]
    where [s.find(needle) = Some(i)]. *)
Fixpoint find_after (needle s : string) : option string :=
  if starts_with needle s then Some (str_drop (String.length needle) s)
  else match s with
       | EmptyString => None
       | String _ s' => find_after needle s'
       end.
Definition str_contains (needle s : string) : bool := is_some (find_after needle s).
(** [Path::new(s).is_absolute()] on Unix. *)
Definition is_absolute_path (s : string) : bool := starts_with "/" s.

(** [s.strip_prefix(p)] *)
Definition strip_prefix (p s : string) : option string :=
  if starts_with p s then Some (str_drop (String.length p) s) else None.
(** [trim_start_matches] and [trim_end_matches] of a string pattern, and
    [s.replace(needle, by)], for a pattern that is not empty. *)
Fixpoint str_take (n : nat) (s : string) : string :=
  match n, s with
  | S n, String c s => String c (str_take n s)
  | _, _ => EmptyString
  end.
Fixpoint trim_prefixes (fuel : nat) (p s : string) : string :=
  match fuel with
  | O => s
  | S fuel => if starts_with p s then trim_prefixes fuel p (str_drop (String.length p) s) else s
  end.
Definition trim_start_str (p s : string) : string := trim_prefixes (String.length s) p s.
Fixpoint trim_suffixes (fuel : nat) (p s : string) : string :=
  match fuel with
  | O => s
  | S fuel => if ends_with p s then trim_suffixes fuel p (str_take (String.length s - String.length p) s) else s
  end.
Definition trim_end_str (p s : string) : string := trim_suffixes (String.length s) p s.
Fixpoint replace_all (fuel : nat) (needle replacement s : string) : string :=
  match fuel, s with
  | S fuel, String c rest =>
      if starts_with needle s then replacement ++ replace_all fuel needle replacement (str_drop (String.length needle) s)
      else String c (replace_all fuel needle replacement rest)
  | _, _ => s
  end%string.
Definition replace_str (needle replacement s : string) : string :=
  replace_all (String.length s) needle replacement s.
(** [s.replace(p, by)] for a class of characters. *)
Definition replace_chars (p : N -> bool) (replacement s : string) : string :=
  foldr (fun c out => (if p (fst c) then replacement else snd c) ++ out)%string EmptyString (char_indices s).
(** [s.trim_end_matches(p)] for a class of characters. *)
Definition trim_end_matches (p : N -> bool) (s : string) : string :=
  encode (reverse (drop_while (fun c => p (fst c)) (reverse (char_indices s)))).
Definition trim (s : string) : string := trim_matches is_whitespace s.
Definition eq_ignore_ascii_case (s t : string) : bool := seqb (to_ascii_lowercase s) (to_ascii_lowercase t).

(** [s.is_char_boundary(n)], for text that is valid UTF-8: no continuation byte
    is at [n].  [s.get(..n)] *)
Definition is_char_boundary (n : nat) (s : string) : bool :=
  (n <=? String.length s)%nat && match bytes (str_drop n s) with b :: _ => negb (in_range 128 191 b) | [] => true end.
Definition str_get_to (n : nat) (s : string) : option string :=
  if is_char_boundary n s then Some (str_take n s) else None.

(** ** Hexadecimal output: [{byte:02x}] and [{hash:016x}] *)

Definition hex_digit (d : N) : Ascii.ascii := char_of (if d <? 10 then 48 + d else 87 + d).
Fixpoint hex_padded (width : nat) (v : N) : string :=
  match width with
  | O => EmptyString
  | S w => (hex_padded w (v / 16) ++ String (hex_digit (v mod 16)) EmptyString)%string
  end.
(** [hex] of src's inventory: each byte as two lowercase digits. *)
Fixpoint hex (s : string) : string :=
  match s with
  | EmptyString => EmptyString
  | String c s => (hex_padded 2 (byte_of c) ++ hex s)%string
  end.
(** [value.to_be_bytes()] of a [u64]. *)
Fixpoint be_bytes (width : nat) (v : N) : string :=
  match width with
  | O => EmptyString
  | S w => (be_bytes w (v / 256) ++ String (char_of (v mod 256)) EmptyString)%string
  end.
Definition to_be_bytes (v : N) : string := be_bytes 8 v.
#[global] Arguments to_be_bytes _ : simpl never.

(** * Lemmas *)

Lemma byte_of_lt c : byte_of c < 256.
Proof. apply Ascii.N_ascii_bounded. Qed.
Lemma char_of_byte c : char_of (byte_of c) = c.
Proof. apply Ascii.ascii_N_embedding. Qed.
Lemma byte_of_char b : b < 256 -> byte_of (char_of b) = b.
Proof. apply Ascii.N_ascii_embedding. Qed.
Lemma byte_of_inj c d : byte_of c = byte_of d -> c = d.
Proof. intros H. by rewrite <- (char_of_byte c), H, char_of_byte. Qed.

Lemma append_cons c s t : (String c s ++ t)%string = String c (s ++ t).
Proof. reflexivity. Qed.
Lemma append_nil_l t : ("" ++ t)%string = t.
Proof. reflexivity. Qed.
Lemma append_assoc s1 s2 s3 : ((s1 ++ s2) ++ s3 = s1 ++ (s2 ++ s3))%string.
Proof. induction s1 as [|c s1 IH]; [done|]. by rewrite !append_cons, IH. Qed.
Lemma append_nil_r s : (s ++ "")%string = s.
Proof. induction s as [|c s IH]; [done|]. by rewrite append_cons, IH. Qed.
Lemma length_append s1 s2 : String.length (s1 ++ s2) = (String.length s1 + String.length s2)%nat.
Proof. induction s1 as [|c s1 IH]; [done|]. rewrite append_cons. cbn. by rewrite IH. Qed.
Lemma append_inj_length s1 s2 t1 t2 :
  String.length s1 = String.length t1 -> (s1 ++ s2 = t1 ++ t2)%string -> s1 = t1 /\ s2 = t2.
Proof.
  revert t1; induction s1 as [|c s1 IH]; intros [|d t1] Hl; try done.
  rewrite !append_cons. intros [= -> H]. cbn in Hl.
  destruct (IH t1 ltac:(lia) H) as [-> ->]. done.
Qed.
Lemma append_inj_l s t1 t2 : (s ++ t1 = s ++ t2)%string -> t1 = t2.
Proof. intros H. by apply (append_inj_length s t1 s t2). Qed.
Lemma length_append_snoc_inj s t a b :
  (s ++ String a "" = t ++ String b "")%string -> s = t /\ a = b.
Proof.
  intros H. pose proof (f_equal String.length H) as Hl. rewrite !length_append in Hl. cbn in Hl.
  apply append_inj_length in H as [-> H]; [|lia]. by simplify_eq.
Qed.

Lemma is_empty_true s : is_empty s = true <-> s = ""%string.
Proof. by destruct s. Qed.
Lemma is_empty_false s : is_empty s = false <-> s <> ""%string.
Proof. by destruct s. Qed.

Lemma bytes_app s t : bytes (s ++ t) = bytes s ++ bytes t.
Proof. induction s as [|c s IH]; [done|]. rewrite append_cons. cbn. by rewrite IH. Qed.
Lemma bytes_length s : length (bytes s) = String.length s.
Proof. induction s as [|c s IH]; cbn; [done|]. by rewrite IH. Qed.
Lemma bytes_inj s t : bytes s = bytes t -> s = t.
Proof.
  revert t; induction s as [|c s IH]; intros [|d t]; cbn; try done.
  intros [= H1 H2]. by rewrite (byte_of_inj _ _ H1), (IH t).
Qed.

Lemma encode_decode need acc pending s :
  (need = O -> pending = ""%string) -> encode (decode need acc pending s) = (pending ++ s)%string.
Proof.
  revert need acc pending. induction s as [|c s IH]; intros need acc pending Hp; cbn [decode].
  - destruct pending as [|d p]; cbn; by rewrite ?append_nil_r.
  - assert (forall l, l = (if byte_of c <? 128 then (byte_of c, String c "") :: decode 0 0 "" s
      else if byte_of c <? 192 then (REPLACEMENT, String c "") :: decode 0 0 "" s
      else if byte_of c <? 224 then decode 1 (N.land (byte_of c) 31) (String c "") s
      else if byte_of c <? 240 then decode 2 (N.land (byte_of c) 15) (String c "") s
      else decode 3 (N.land (byte_of c) 7) (String c "") s) -> encode l = String c s) as Hlead.
    { intros l ->. repeat case_match; cbn; rewrite IH by done; done. }
    destruct need as [|need]; [rewrite (Hp eq_refl); by apply Hlead|].
    destruct (in_range 128 191 (byte_of c)).
    + destruct need as [|need]; cbn; rewrite IH by done; by rewrite append_assoc.
    + cbn [encode foldr snd]. f_equal. by apply Hlead.
Qed.

(** The encodings of a string's scalar values concatenate back to it. *)
Lemma encode_char_indices s : encode (char_indices s) = s.
Proof. unfold char_indices. by rewrite encode_decode. Qed.

Lemma hex_padded_length w v : String.length (hex_padded w v) = w.
Proof. revert v; induction w as [|w IH]; intros v; cbn; [done|]. rewrite length_append, IH. cbn. lia. Qed.
Lemma be_bytes_length w v : String.length (be_bytes w v) = w.
Proof. revert v; induction w as [|w IH]; intros v; cbn; [done|]. rewrite length_append, IH. cbn. lia. Qed.
Lemma to_be_bytes_length v : String.length (to_be_bytes v) = 8%nat.
Proof. apply be_bytes_length. Qed.

Lemma hex_digit_inj a b : a < 16 -> b < 16 -> hex_digit a = hex_digit b -> a = b.
Proof.
  intros Ha Hb H. unfold hex_digit in H. apply (f_equal byte_of) in H.
  destruct (N.ltb_spec a 10), (N.ltb_spec b 10); rewrite !byte_of_char in H by lia; lia.
Qed.

(** Fixed-width printing loses nothing below its range. *)
Lemma hex_padded_inj w v1 v2 :
  v1 < 16 ^ N.of_nat w -> v2 < 16 ^ N.of_nat w -> hex_padded w v1 = hex_padded w v2 -> v1 = v2.
Proof.
  revert v1 v2; induction w as [|w IH]; intros v1 v2 H1 H2; cbn [hex_padded].
  - intros _. assert (16 ^ N.of_nat 0 = 1) by reflexivity. lia.
  - rewrite Nat2N.inj_succ, N.pow_succ_r' in H1, H2.
    intros [Hhi Hlo]%length_append_snoc_inj. apply IH in Hhi; [|apply N.Div0.div_lt_upper_bound; lia..].
    apply hex_digit_inj in Hlo; [|apply N.mod_lt; lia..].
    rewrite (N.div_mod v1 16), (N.div_mod v2 16) by lia. congruence.
Qed.

Lemma be_bytes_inj w v1 v2 :
  v1 < 256 ^ N.of_nat w -> v2 < 256 ^ N.of_nat w -> be_bytes w v1 = be_bytes w v2 -> v1 = v2.
Proof.
  revert v1 v2; induction w as [|w IH]; intros v1 v2 H1 H2; cbn [be_bytes].
  - intros _. assert (256 ^ N.of_nat 0 = 1) by reflexivity. lia.
  - rewrite Nat2N.inj_succ, N.pow_succ_r' in H1, H2.
    intros [Hhi Hlo]%length_append_snoc_inj. apply IH in Hhi; [|apply N.Div0.div_lt_upper_bound; lia..].
    apply (f_equal byte_of) in Hlo. rewrite !byte_of_char in Hlo by (apply N.mod_lt; lia).
    rewrite (N.div_mod v1 256), (N.div_mod v2 256) by lia. congruence.
Qed.

Lemma to_be_bytes_inj v1 v2 :
  v1 <= u64_max -> v2 <= u64_max -> to_be_bytes v1 = to_be_bytes v2 -> v1 = v2.
Proof.
  intros H1 H2. apply be_bytes_inj; change (256 ^ N.of_nat 8) with (u64_max + 1); lia.
Qed.

Lemma hex_inj s t : hex s = hex t -> s = t.
Proof.
  revert t; induction s as [|c s IH]; intros [|d t]; cbn [hex]; [done|done|done|].
  intros H. apply append_inj_length in H as [Hb Hr]; [|by rewrite !hex_padded_length].
    apply hex_padded_inj in Hb; [|change (16 ^ N.of_nat 2) with 256; apply byte_of_lt..].
    by rewrite (byte_of_inj _ _ Hb), (IH t).
Qed.

(** ** ASCII case *)

Lemma ascii_lower_lt b : b < 256 -> ascii_lower b < 256.
Proof.
  unfold ascii_lower, is_ascii_uppercase, in_range.
  destruct (N.leb_spec 65 b), (N.leb_spec b 90); cbn; lia.
Qed.
Lemma ascii_lower_idem b : ascii_lower (ascii_lower b) = ascii_lower b.
Proof.
  unfold ascii_lower, is_ascii_uppercase, in_range.
  destruct (N.leb_spec 65 b), (N.leb_spec b 90); cbn; try lia;
    destruct (N.leb_spec 65 (b + 32)), (N.leb_spec (b + 32) 90); cbn; try lia;
    destruct (N.leb_spec 65 b), (N.leb_spec b 90); cbn; lia.
Qed.

Lemma map_bytes_map_bytes f g s :
  (forall b, b < 256 -> g b < 256) -> map_bytes f (map_bytes g s) = map_bytes (fun b => f (g b)) s.
Proof.
  intros Hg. induction s as [|c s IH]; cbn; [done|].
  by rewrite byte_of_char, IH by (apply Hg, byte_of_lt).
Qed.
Lemma map_bytes_ext f g s : (forall b, b < 256 -> f b = g b) -> map_bytes f s = map_bytes g s.
Proof. intros Hfg. induction s as [|c s IH]; cbn; [done|]. by rewrite IH, Hfg by apply byte_of_lt. Qed.
Lemma map_bytes_length f s : String.length (map_bytes f s) = String.length s.
Proof. induction s as [|c s IH]; cbn; [done|]. by rewrite IH. Qed.

Lemma to_ascii_lowercase_idem s : to_ascii_lowercase (to_ascii_lowercase s) = to_ascii_lowercase s.
Proof.
  unfold to_ascii_lowercase. rewrite map_bytes_map_bytes by apply ascii_lower_lt.
  apply map_bytes_ext. intros. apply ascii_lower_idem.
Qed.

(** ** Prefixes *)

Lemma starts_with_append p s : starts_with p (p ++ s) = true.
Proof.
  unfold starts_with. induction p as [|c p IH]; [by destruct s|].
  rewrite append_cons. cbn. by destruct (Ascii.ascii_dec c c).
Qed.
Lemma str_drop_append p s : str_drop (String.length p) (p ++ s) = s.
Proof. induction p as [|c p IH]; [done|]. by rewrite append_cons. Qed.
Lemma starts_with_true p s : starts_with p s = true <-> exists t, s = (p ++ t)%string.
Proof.
  split; [|intros [t ->]; apply starts_with_append].
  unfold starts_with. revert s; induction p as [|c p IH]; intros s; [by exists s|].
  destruct s as [|d s]; cbn; [done|]. destruct (Ascii.ascii_dec c d) as [->|]; [|done].
  intros [t ->]%IH. by exists t.
Qed.

Example chars_ascii : chars "ab c" = [97; 98; 32; 99].
Proof. reflexivity. Qed.
Example split_whitespace_ex : split_whitespace " a  bc	d " = ["a"; "bc"; "d"].
Proof. reflexivity. Qed.
Example last_piece_ex : last_piece (N.eqb 47) "a/b/.env" = ".env"%string.
Proof. reflexivity. Qed.
Example trim_matches_ex : trim_matches (N.eqb 47) "/a/b//" = "a/b"%string.
Proof. reflexivity. Qed.
Example hex_padded_ex : hex_padded 16 3735928559 = "00000000deadbeef"%string.
Proof. reflexivity. Qed.

Lemma blen_append s t : blen (s ++ t) = blen s + blen t.
Proof. unfold blen. rewrite length_append. lia. Qed.
