(* ===== verification/Utf8.v ===== *)
(** UTF-8 at the level of bytes: [str::from_utf8], [char::encode_utf8],
    [str::is_char_boundary] and byte slicing.

    [RustText] reads any bytes as scalar values; here the bytes that are a Rust
    [str] are singled out, and decoding is shown to invert encoding, so that a
    [str] is the same thing as its list of scalar values. *)
From S2P Require Import Prelude RustText.
Local Open Scope N_scope.

Definition is_scalar (c : N) : bool := (c <? 55296) || in_range 57344 1114111 c.

Definition encode_utf8 (c : N) : string :=
  string_of_bytes
    (if c <? 128 then [c]
     else if c <? 2048 then [192 + c / 64; 128 + c mod 64]
     else if c <? 65536 then [224 + c / 4096; 128 + (c / 64) mod 64; 128 + c mod 64]
     else [240 + c / 262144; 128 + (c / 4096) mod 64; 128 + (c / 64) mod 64; 128 + c mod 64]).

(** [std::str::from_utf8(s).is_ok()]: every character is a scalar value in its
    one encoding. *)
Definition from_utf8 (s : string) : bool :=
  forallb (fun ce => is_scalar (fst ce) && seqb (snd ce) (encode_utf8 (fst ce))) (char_indices s).

(** [l.into_iter().collect::<String>()] *)
Fixpoint str_of (l : list N) : string :=
  match l with [] => EmptyString | c :: l => (encode_utf8 c ++ str_of l)%string end.

(** [s.is_char_boundary(i)] *)
Fixpoint boundary_at (l : list (N * string)) (i : N) : bool :=
  (i =? 0) ||
  match l with
  | [] => false
  | (_, e) :: l => (blen e <=? i) && boundary_at l (i - blen e)
  end.
Definition is_char_boundary (s : string) (i : N) : bool := boundary_at (char_indices s) i.

(** [&s[a..b]], which panics off a boundary. *)
Definition slice (s : string) (a b : N) : outcome string :=
  if (a <=? b) && is_char_boundary s a && is_char_boundary s b
  then Ok (str_take (N.to_nat (b - a)) (str_drop (N.to_nat a) s))
  else Crash "byte index is not a char boundary".

(** * Decoding inverts encoding *)

Lemma land_low (k x n : N) : x < 2 ^ n -> N.land (k * 2 ^ n + x) (N.ones n) = x.
Proof.
  intros Hx. rewrite N.land_ones, N.add_comm, N.Div0.mod_add. by apply N.mod_small.
Qed.

Lemma lead_bits : forall x,
  (x < 32 -> N.land (192 + x) 31 = x) /\ (x < 16 -> N.land (224 + x) 15 = x) /\
  (x < 8 -> N.land (240 + x) 7 = x) /\ (x < 64 -> N.land (128 + x) 63 = x).
Proof.
  intros x. split_and!; intros Hx.
  - exact (land_low 6 x 5 Hx).
  - exact (land_low 14 x 4 Hx).
  - exact (land_low 30 x 3 Hx).
  - exact (land_low 2 x 6 Hx).
Qed.

Lemma byte_of_byte b : b < 256 -> byte_of (char_of b) = b.
Proof. apply byte_of_char. Qed.

Lemma continuation_digit x : x < 64 -> in_range 128 191 (128 + x) = true.
Proof. intros Hx. unfold in_range. rewrite !(proj2 (N.leb_le _ _)) by lia. done. Qed.

(** Settles the comparisons of the decoder and the encoder by arithmetic. *)
Ltac settle :=
  repeat match goal with
  | |- context [?a <? ?b] =>
      first [ rewrite (proj2 (N.ltb_lt a b)) by lia | rewrite (proj2 (N.ltb_ge a b)) by lia ]
  end.

Lemma decode_one b s : b < 128 ->
  char_indices (String (char_of b) s) = (b, String (char_of b) EmptyString) :: char_indices s.
Proof. intros Hb. unfold char_indices. cbn [decode]. rewrite byte_of_byte by lia. by settle. Qed.

Lemma decode_last acc pending x s : x < 64 ->
  decode 1 acc pending (String (char_of (128 + x)) s) =
  (acc * 64 + x, (pending ++ String (char_of (128 + x)) "")%string) :: char_indices s.
Proof.
  intros Hx. cbn [decode]. rewrite byte_of_byte, continuation_digit by lia.
  by rewrite (proj2 (proj2 (proj2 (lead_bits x)))).
Qed.
Lemma decode_more n acc pending x s : x < 64 ->
  decode (S (S n)) acc pending (String (char_of (128 + x)) s) =
  decode (S n) (acc * 64 + x) (pending ++ String (char_of (128 + x)) "") s.
Proof.
  intros Hx. cbn [decode]. rewrite byte_of_byte, continuation_digit by lia.
  by rewrite (proj2 (proj2 (proj2 (lead_bits x)))).
Qed.

Lemma decode_lead x s :
  (x < 32 -> char_indices (String (char_of (192 + x)) s) = decode 1 x (String (char_of (192 + x)) "") s) /\
  (x < 16 -> char_indices (String (char_of (224 + x)) s) = decode 2 x (String (char_of (224 + x)) "") s) /\
  (x < 8 -> char_indices (String (char_of (240 + x)) s) = decode 3 x (String (char_of (240 + x)) "") s).
Proof.
  unfold char_indices. split_and!; intros Hx; cbn [decode]; rewrite byte_of_byte by lia; settle;
    f_equal; by apply lead_bits.
Qed.

Lemma decode_two x y s : x < 32 -> y < 64 ->
  char_indices (String (char_of (192 + x)) (String (char_of (128 + y)) s)) =
  (x * 64 + y, String (char_of (192 + x)) (String (char_of (128 + y)) "")) :: char_indices s.
Proof.
  intros Hx Hy. rewrite (proj1 (decode_lead x _)) by done. by rewrite decode_last.
Qed.
Lemma decode_three x y z s : x < 16 -> y < 64 -> z < 64 ->
  char_indices (String (char_of (224 + x)) (String (char_of (128 + y)) (String (char_of (128 + z)) s))) =
  ((x * 64 + y) * 64 + z,
   String (char_of (224 + x)) (String (char_of (128 + y)) (String (char_of (128 + z)) ""))) :: char_indices s.
Proof.
  intros Hx Hy Hz. rewrite (proj1 (proj2 (decode_lead x _))) by done. by rewrite decode_more, decode_last.
Qed.
Lemma decode_four x y z w s : x < 8 -> y < 64 -> z < 64 -> w < 64 ->
  char_indices (String (char_of (240 + x)) (String (char_of (128 + y)) (String (char_of (128 + z))
    (String (char_of (128 + w)) s)))) =
  (((x * 64 + y) * 64 + z) * 64 + w,
   String (char_of (240 + x)) (String (char_of (128 + y)) (String (char_of (128 + z))
     (String (char_of (128 + w)) "")))) :: char_indices s.
Proof.
  intros Hx Hy Hz Hw. rewrite (proj2 (proj2 (decode_lead x _))) by done.
  by rewrite !decode_more, decode_last.
Qed.

Lemma is_scalar_lt c : is_scalar c = true -> c < 1114112.
Proof.
  unfold is_scalar, in_range. rewrite orb_true_iff, andb_true_iff, N.ltb_lt, !N.leb_le. lia.
Qed.

Local Ltac Zify.zify_post_hook ::= Z.to_euclidean_division_equations.

Lemma decode_encode c s : is_scalar c = true ->
  char_indices (encode_utf8 c ++ s) = (c, encode_utf8 c) :: char_indices s.
Proof.
  intros Hc%is_scalar_lt. unfold encode_utf8.
  assert (forall k, (c / k) mod 64 < 64) as Hm by (intros; by apply N.mod_lt).
  pose proof (N.mod_lt c 64 ltac:(done)) as H0.
  destruct (N.ltb_spec c 128); [by apply decode_one|].
  destruct (N.ltb_spec c 2048); [|destruct (N.ltb_spec c 65536)].
  - cbn [string_of_bytes]. rewrite !append_cons, append_nil_l, decode_two; [|lia|lia]. do 2 f_equal. lia.
  - cbn [string_of_bytes]. rewrite !append_cons, append_nil_l, decode_three; [|lia|auto|lia]. do 2 f_equal. lia.
  - cbn [string_of_bytes]. rewrite !append_cons, append_nil_l, decode_four; [|lia|auto|auto|lia]. do 2 f_equal. lia.
Qed.

(** ** A [str] is its scalar values *)

Lemma char_indices_str_of l s : Forall (fun c => is_scalar c = true) l ->
  char_indices (str_of l ++ s) = map (fun c => (c, encode_utf8 c)) l ++ char_indices s.
Proof.
  induction 1 as [|c l Hc _ IH]; [done|]. cbn [str_of map app].
  by rewrite append_assoc, decode_encode, IH.
Qed.
Lemma chars_str_of l : Forall (fun c => is_scalar c = true) l -> chars (str_of l) = l.
Proof.
  intros Hl. unfold chars. rewrite <- (append_nil_r (str_of l)), char_indices_str_of by done.
  cbn. rewrite app_nil_r, map_map. apply map_id.
Qed.

Lemma from_utf8_true s : from_utf8 s = true <->
  exists l, Forall (fun c => is_scalar c = true) l /\ s = str_of l.
Proof.
  unfold from_utf8. split.
  - intros H. rewrite forallb_forall in H. exists (chars s). split.
    + apply Forall_forall. intros c (ce & -> & Hin)%list_elem_of_fmap.
      apply list_elem_of_In, H, andb_true_iff in Hin. tauto.
    + rewrite <- (encode_char_indices s) at 1. unfold chars. revert H. generalize (char_indices s) as l.
      induction l as [|[c e] l IH]; intros H; cbn; [done|]. rewrite <- IH.
      * specialize (H (c, e) ltac:(by left)). apply andb_true_iff in H as [_ He%seqb_true]. cbn in He. by subst.
      * intros x Hx. apply H. by right.
  - intros (l & Hl & ->). rewrite <- (append_nil_r (str_of l)), char_indices_str_of by done. cbn.
    rewrite app_nil_r, forallb_forall. intros ce Hin%list_elem_of_In.
    apply list_elem_of_fmap in Hin as (c & -> & Hc). rewrite Forall_forall in Hl. cbn.
    by rewrite Hl, (proj2 (seqb_true _ _)).
Qed.

(** * Boundaries and slices *)

Fixpoint size (l : list (N * string)) : N :=
  match l with [] => 0 | (_, e) :: l => blen e + size l end.

Lemma size_app l k : size (l ++ k) = size l + size k.
Proof. induction l as [|[c e] l IH]; cbn; [done|]. rewrite IH. lia. Qed.
Lemma encode_cons c e l : encode ((c, e) :: l) = (e ++ encode l)%string.
Proof. done. Qed.
Lemma blen_encode l : blen (encode l) = size l.
Proof. induction l as [|[c e] l IH]; [done|]. by rewrite encode_cons, blen_append, IH. Qed.
Lemma size_char_indices s : size (char_indices s) = blen s.
Proof. by rewrite <- blen_encode, encode_char_indices. Qed.

Lemma boundary_at_true l i :
  boundary_at l i = true <-> exists l1 l2, l = l1 ++ l2 /\ i = size l1.
Proof.
  revert i. induction l as [|[c e] l IH]; intros i; cbn.
  - rewrite orb_false_r, N.eqb_eq. split; [intros ->; by exists [], []|].
    intros (l1 & l2 & H & ->). symmetry in H. by apply app_eq_nil in H as [-> _].
  - rewrite orb_true_iff, andb_true_iff, N.eqb_eq, N.leb_le, IH. split.
    + intros [->|(Hle & l1 & l2 & -> & Hi)]; [by exists [], ((c, e) :: l)|].
      exists ((c, e) :: l1), l2. split; [done|]. cbn. lia.
    + intros ([|[c' e'] l1] & l2 & H & ->); [by left|]. cbn in H. injection H as -> -> ->. right. cbn.
      split; [lia|]. exists l1, l2. split; [done|]. lia.
Qed.

Lemma str_take_append s t : str_take (String.length s) (s ++ t) = s.
Proof.
  induction s as [|c s IH]; [by destruct t|]. cbn [String.length]. rewrite append_cons. cbn. by rewrite IH.
Qed.
Lemma encode_app l k : encode (l ++ k) = (encode l ++ encode k)%string.
Proof.
  induction l as [|[c e] l IH]; [done|]. cbn [app]. by rewrite !encode_cons, IH, append_assoc.
Qed.

Lemma slice_split s l1 l2 l3 :
  char_indices s = l1 ++ l2 ++ l3 -> slice s (size l1) (size (l1 ++ l2)) = Ok (encode l2).
Proof.
  intros Hs. unfold slice, is_char_boundary. rewrite Hs.
  rewrite (proj2 (boundary_at_true _ (size l1))) by eauto.
  rewrite (proj2 (boundary_at_true _ (size (l1 ++ l2)))) by (exists (l1 ++ l2), l3; by rewrite app_assoc).
  rewrite size_app, (proj2 (N.leb_le _ _)) by lia. cbn [andb]. f_equal.
  assert (forall l, N.to_nat (size l) = String.length (encode l)) as Hlen.
  { intros l. rewrite <- blen_encode. unfold blen. lia. }
  replace (size l1 + size l2 - size l1) with (size l2) by lia.
  by rewrite <- (encode_char_indices s), Hs, !encode_app, !Hlen, str_drop_append, str_take_append.
Qed.

(** Every part of a [str] between boundaries reads as it did in the whole. *)
Lemma char_indices_part s l1 l2 l3 :
  from_utf8 s = true -> char_indices s = l1 ++ l2 ++ l3 -> char_indices (encode l2) = l2.
Proof.
  intros (l & Hl & ->)%from_utf8_true Hs.
  rewrite <- (append_nil_r (str_of l)), char_indices_str_of in Hs by done. cbn in Hs. rewrite app_nil_r in Hs.
  apply map_eq_app in Hs as (k1 & k' & -> & <- & Hs). apply map_eq_app in Hs as (k2 & k3 & -> & <- & <-).
  rewrite !Forall_app in Hl. destruct Hl as (_ & Hl & _).
  assert (encode (map (fun c => (c, encode_utf8 c)) k2) = str_of k2) as ->.
  { clear. induction k2 as [|c l IH]; [done|]. cbn [map str_of]. by rewrite encode_cons, IH. }
  rewrite <- (append_nil_r (str_of k2)), char_indices_str_of by done. cbn. by rewrite app_nil_r.
Qed.

Lemma encode_utf8_nonempty c : 1 <= blen (encode_utf8 c) <= 4.
Proof. unfold encode_utf8, blen. repeat case_match; cbn; lia. Qed.
Lemma char_nonempty s ce : from_utf8 s = true -> ce ∈ char_indices s -> 1 <= blen (snd ce) <= 4.
Proof.
  unfold from_utf8. rewrite forallb_forall. intros H Hin%list_elem_of_In.
  apply H, andb_true_iff in Hin as [_ ->%seqb_true]. apply encode_utf8_nonempty.
Qed.
(** Two splits at one offset are one split. *)
Lemma split_unique s l1 l2 k1 k2 :
  from_utf8 s = true -> char_indices s = l1 ++ l2 -> char_indices s = k1 ++ k2 -> size l1 = size k1 ->
  l1 = k1 /\ l2 = k2.
Proof.
  intros Hu. assert (forall ce, ce ∈ char_indices s -> 1 <= blen (snd ce)) as Hpos
    by (intros ce H; apply (char_nonempty s ce Hu H)).
  generalize (char_indices s) as l, Hpos. clear. intros l. revert l1 k1.
  induction l as [|[c e] l IH]; intros l1 k1 Hpos H1 H2 Hsize.
  - symmetry in H1, H2. apply app_eq_nil in H1 as [-> ->], H2 as [-> ->]. done.
  - pose proof (Hpos (c, e) ltac:(left)) as He. cbn in He.
    destruct l1 as [|[c1 e1] l1], k1 as [|[c2 e2] k1]; cbn in *; simplify_eq; [done|lia|lia|].
    destruct (IH l1 k1) as [-> ->]; [|done|done|lia|done]. intros ce Hce. apply Hpos. by right.
Qed.
