(* ===== verification/GraphTypes.v ===== *)
(** [src/crates/codevetter-core/src/commands/structural_graph/types.rs]: the
    structural graph's vocabulary the archaeology components share (trust and
    origin labels with their storage names, source anchors, nodes and edges),
    the stable FNV-1a identities, and the cancellation token. *)
From S2P Require Import Prelude Ordering RustText.
Local Open Scope N_scope.

Inductive GraphTrust : Type := Extracted | Inferred | Ambiguous | Legacy.
#[export] Instance GraphTrust_eq_dec : EqDecision GraphTrust.
Proof. solve_decision. Defined.

Definition GraphTrust_as_str (t : GraphTrust) : string :=
  match t with
  | Extracted => "extracted"
  | Inferred => "inferred"
  | Ambiguous => "ambiguous"
  | Legacy => "legacy"
  end.
Definition GraphTrust_from_storage (value : string) : GraphTrust :=
  if seqb value "extracted" then Extracted
  else if seqb value "inferred" then Inferred
  else if seqb value "ambiguous" then Ambiguous
  else Legacy.

Inductive GraphOrigin : Type :=
  | OSyntax | OResolution | OAnalysis | OMetadata | OExtracted | ODeterministic
  | OModelSynthesized | OHumanConfirmed | OImportedNodeLink | OUserAnnotation | OLegacyMetadata.
#[export] Instance GraphOrigin_eq_dec : EqDecision GraphOrigin.
Proof. solve_decision. Defined.

Definition GraphOrigin_as_str (o : GraphOrigin) : string :=
  match o with
  | OSyntax => "syntax"
  | OResolution => "resolution"
  | OAnalysis => "analysis"
  | OMetadata => "metadata"
  | OExtracted => "extracted"
  | ODeterministic => "deterministic"
  | OModelSynthesized => "model_synthesized"
  | OHumanConfirmed => "human_confirmed"
  | OImportedNodeLink => "imported_node_link"
  | OUserAnnotation => "user_annotation"
  | OLegacyMetadata => "legacy_metadata"
  end.
Definition GraphOrigin_from_storage (value : string) : GraphOrigin :=
  if seqb value "syntax" then OSyntax
  else if seqb value "resolution" then OResolution
  else if seqb value "analysis" then OAnalysis
  else if seqb value "metadata" then OMetadata
  else if seqb value "extracted" then OExtracted
  else if seqb value "deterministic" then ODeterministic
  else if seqb value "model_synthesized" then OModelSynthesized
  else if seqb value "human_confirmed" then OHumanConfirmed
  else if seqb value "imported_node_link" then OImportedNodeLink
  else if seqb value "user_annotation" then OUserAnnotation
  else OLegacyMetadata.

Record GraphSourceAnchor : Type := {
  path : string;
  start_line : option N;
  start_column : option N;
  end_line : option N;
  end_column : option N;
  excerpt : option string
}.

Record StructuralGraphNode : Type := {
  node_id : string;
  node_kind : string;
  label : string;
  qualified_name : option string;
  node_path : option string;
  detail : option string;
  language : option string;
  community_id : option string;
  node_trust : GraphTrust;
  node_origin : GraphOrigin;
  node_sources : list GraphSourceAnchor
}.

Record StructuralGraphEdge : Type := {
  edge_id : string;
  from : string;
  to : string;
  edge_kind : string;
  evidence : string;
  edge_trust : GraphTrust;
  edge_origin : GraphOrigin;
  edge_sources : list GraphSourceAnchor;
  candidates : list string
}.

(** ** Stable identities *)

Definition FNV_OFFSET : N := 14695981039346656037.
Definition FNV_PRIME : N := 1099511628211.
Definition wrapping_mul (a b : N) : N := (a * b) mod (u64_max + 1).
Definition fnv_step (hash byte : N) : N := wrapping_mul (N.lxor hash byte) FNV_PRIME.
Definition fnv_hash (l : list N) : N := foldl fnv_step FNV_OFFSET l.

Definition stable_graph_id (kind identity : string) : string :=
  (kind ++ ":" ++ hex_padded 16 (fnv_hash (bytes kind ++ [0] ++ bytes identity)))%string.
Definition namespaced_graph_id (repository_id local_id : string) : string :=
  stable_graph_id "workspace-node" (repository_id ++ NUL ++ local_id).

Example fnv_empty : stable_graph_id "" "" = ":af63bd4c8601b7df"%string.
Proof. vm_compute. reflexivity. Qed.

(** ** Cancellation

    The token is an atomic flag any thread may raise.  [observed n] is what the
    [n]-th load by the running operation sees; an operation carries the number
    of loads it has made.  The code never lowers the flag. *)
Record StructuralGraphCancellation : Type := { observed : nat -> bool }.
Definition never_cancelled : StructuralGraphCancellation := {| observed := fun _ => false |}.
(** The flag is raised before the [n]-th load and stays raised. *)
Definition cancelled_from (n : nat) : StructuralGraphCancellation :=
  {| observed := fun k => (n <=? k)%nat |}.

(** A computation that may load the flag: given the loads made so far, its
    outcome with the loads made when it returned. *)
Definition polling (A : Type) : Type := nat -> outcome (A * nat).
#[export] Instance polling_ret : MRet polling := fun A a n => Ok (a, n).
#[export] Instance polling_bind : MBind polling := fun A B f m n =>
  '(a, n') ← m n; f a n'.
Definition lift {A} (m : outcome A) : polling A := fun n => a ← m; Ok (a, n).
(** [if cancellation.is_cancelled() { return Err(message) }] *)
Definition poll (token : StructuralGraphCancellation) (message : string) : polling unit :=
  fun n => if observed token n then Err message else Ok (tt, S n).
(** [if index % period == 0 { .. }], the check a long loop makes now and then. *)
Definition poll_every (token : StructuralGraphCancellation) (message : string) (period index : nat) : polling unit :=
  if (index mod period =? 0)%nat then poll token message else mret tt.
Fixpoint for_each_polling {S A : Type} (f : S -> A -> polling S) (s : S) (l : list A) : polling S :=
  match l with
  | [] => mret s
  | x :: l => s' ← f s x; for_each_polling f s' l
  end.

(** * Lemmas *)

Lemma poll_Ok token message n r :
  poll token message n = Ok r <-> observed token n = false /\ r = (tt, S n).
Proof. unfold poll. destruct (observed token n); naive_solver. Qed.

Lemma polling_bind_Ok {A B} (m : polling A) (f : A -> polling B) n r :
  (m ≫= f) n = Ok r <-> exists a n', m n = Ok (a, n') /\ f a n' = Ok r.
Proof.
  unfold mbind at 1, polling_bind. rewrite bind_Ok. split.
  - intros ([a n'] & ? & ?). eauto.
  - intros (a & n' & ? & ?). exists (a, n'). eauto.
Qed.
Lemma lift_Ok {A} (m : outcome A) n r : lift m n = Ok r <-> exists a, m = Ok a /\ r = (a, n).
Proof. unfold lift. rewrite bind_Ok. naive_solver. Qed.
Lemma polling_ret_Ok {A} (a : A) n r : (mret a : polling A) n = Ok r <-> r = (a, n).
Proof. unfold mret, polling_ret. naive_solver. Qed.

Section ForEachPolling.
Context {S A : Type}.
Implicit Types (f : S -> A -> polling S).

Lemma for_each_polling_inv (P : list A -> S -> Prop) f s0 l n s n' :
  P [] s0 ->
  (forall pre x suf s1 s2 k k', l = pre ++ x :: suf -> P pre s1 -> f s1 x k = Ok (s2, k') ->
    P (pre ++ [x]) s2) ->
  for_each_polling f s0 l n = Ok (s, n') -> P l s.
Proof.
  intros H0 Hstep.
  enough (forall suf pre s1 n, l = pre ++ suf -> P pre s1 ->
    for_each_polling f s1 suf n = Ok (s, n') -> P l s) by eauto using app_nil_l.
  induction suf as [|x suf IH]; intros pre s1 k -> HP; cbn.
  - rewrite app_nil_r. intros [= <- <-]. done.
  - intros (s2 & k2 & Hf & Hrest)%polling_bind_Ok.
    apply (IH (pre ++ [x]) s2 k2); [by rewrite <- app_assoc| |done].
    eapply Hstep; eauto.
Qed.

Lemma for_each_polling_returns (P : S -> Prop) f s0 l n :
  P s0 ->
  (forall x s1 k, x ∈ l -> P s1 -> returns (f s1 x k)) ->
  (forall x s1 s2 k k', x ∈ l -> P s1 -> f s1 x k = Ok (s2, k') -> P s2) ->
  returns (for_each_polling f s0 l n).
Proof.
  revert s0 n; induction l as [|x l IH]; intros s0 n H0 Hret Hpres; cbn; [done|].
  unfold mbind, polling_bind. apply returns_bind; [apply Hret; [left|done]|].
  intros [s1 k] Hs1. apply IH.
  - eapply Hpres; [left|done|done].
  - intros y s2 k2 ?. apply Hret. by right.
  - intros y s2 s3 k2 k3 ?. apply Hpres. by right.
Qed.
End ForEachPolling.

Lemma mret_Ok {A} (a b : A) n n' : (mret a : polling A) n = Ok (b, n') -> b = a.
Proof. intros H%polling_ret_Ok. by apply (f_equal fst) in H. Qed.
(** A polling step that changes the state the way a function does. *)
Lemma for_each_polling_effect {S A} (f : S -> A -> polling S) (g : S -> A -> S) :
  (forall s x n s' n', f s x n = Ok (s', n') -> s' = g s x) ->
  forall l s n s' n', for_each_polling f s l n = Ok (s', n') -> s' = foldl g s l.
Proof.
  intros Hf. induction l as [|x l IH]; intros s n s' n'; cbn.
  - by intros [= <- <-].
  - intros (s1 & n1 & H1 & H2)%polling_bind_Ok. apply Hf in H1 as ->. eauto.
Qed.
Lemma returns_polling_bind {A B} (m : polling A) (f : A -> polling B) n :
  returns (m n) -> (forall a n', m n = Ok (a, n') -> returns (f a n')) -> returns ((m ≫= f) n).
Proof. intros Hm Hf. apply returns_bind; [done|]. intros [a n'] Ha. by apply Hf. Qed.
Lemma returns_lift {A} (m : outcome A) n : returns m -> returns (lift m n).
Proof. intros Hm. apply returns_bind; done. Qed.
Lemma returns_poll token message n : returns (poll token message n).
Proof. unfold poll. by case_match. Qed.
Lemma returns_poll_every token message period index n : returns (poll_every token message period index n).
Proof. unfold poll_every. case_match; [apply returns_poll|done]. Qed.
Lemma for_each_polling_all {S A} (f : S -> A -> polling S) s l n :
  (forall s x n, x ∈ l -> returns (f s x n)) -> returns (for_each_polling f s l n).
Proof. intros Hf. apply (for_each_polling_returns (fun _ => True)); [done| |done]. intros. by apply Hf. Qed.

(** What cancellation may change: an operation that polls either does what it
    does when never cancelled, or fails with the cancellation message. *)
Definition cancellable {A} (message : string) (op : StructuralGraphCancellation -> polling A) : Prop :=
  forall token n, op token n = op never_cancelled n \/ op token n = Err message.

Section Cancellable.
Context (message : string).
Notation cancellable := (cancellable message).

Lemma cancellable_const {A} (m : polling A) : cancellable (fun _ => m).
Proof. intros token n. by left. Qed.
Lemma cancellable_poll : cancellable (fun token => poll token message).
Proof. intros token n. unfold poll. cbn. destruct (observed token n); auto. Qed.
Lemma cancellable_poll_every period index : cancellable (fun token => poll_every token message period index).
Proof. unfold poll_every. case_match; [apply cancellable_poll|apply cancellable_const]. Qed.
Lemma cancellable_bind {A B} (m : StructuralGraphCancellation -> polling A)
    (f : StructuralGraphCancellation -> A -> polling B) :
  cancellable m -> (forall a, cancellable (fun token => f token a)) ->
  cancellable (fun token => m token ≫= f token).
Proof.
  intros Hm Hf token n. unfold mbind, polling_bind.
  destruct (Hm token n) as [-> | ->]; [|by right].
  destruct (m never_cancelled n) as [[a n']|e|w]; cbn; [apply Hf|by left|by left].
Qed.
Lemma cancellable_for_each {S A} (f : StructuralGraphCancellation -> S -> A -> polling S) s l :
  (forall s x, cancellable (fun token => f token s x)) ->
  cancellable (fun token => for_each_polling (f token) s l).
Proof.
  intros Hf. revert s. induction l as [|x l IH]; intros s; cbn; [apply cancellable_const|].
  apply (cancellable_bind (fun token => f token s x)
    (fun token s' => for_each_polling (f token) s' l)); auto.
Qed.
End Cancellable.
Create HintDb cancel.
#[export] Hint Resolve cancellable_const cancellable_poll cancellable_poll_every cancellable_bind cancellable_for_each : cancel.

(** Steps that only poll return, and are cancellable. *)
Ltac returning := repeat first
  [ apply returns_poll | apply returns_poll_every | done
  | apply returns_polling_bind; [|intros]
  | match goal with |- returns ((if ?c then _ else _) _) => destruct c end
  | match goal with |- returns (if ?c then _ else _) => destruct c end ].
Ltac cancelling := repeat first
  [ apply cancellable_poll | apply cancellable_poll_every | apply cancellable_const | apply cancellable_bind; [|intros ?]
  | apply cancellable_for_each; intros ? ? | case_match ].

(** * Storage names *)

(** The trust and origin labels survive storage, and reading back a
    name gives either the label that prints as it or the weakest label: an
    unknown name is never upgraded. *)
Theorem storage_names_roundtrip :
  (forall t, GraphTrust_from_storage (GraphTrust_as_str t) = t) /\
  (forall o, GraphOrigin_from_storage (GraphOrigin_as_str o) = o) /\
  (forall value, GraphTrust_from_storage value = Legacy \/
     GraphTrust_as_str (GraphTrust_from_storage value) = value) /\
  (forall value, GraphOrigin_from_storage value = OLegacyMetadata \/
     GraphOrigin_as_str (GraphOrigin_from_storage value) = value).
Proof.
  split_and!; [by intros []|by intros []|..]; intros value.
  - unfold GraphTrust_from_storage.
    repeat (destruct (seqb value _) eqn:E; [apply seqb_true in E as ->; by right|clear E]). by left.
  - unfold GraphOrigin_from_storage.
    repeat (destruct (seqb value _) eqn:E; [apply seqb_true in E as ->; by right|clear E]). by left.
Qed.

(** * FNV-1a is injective in each step *)

Definition FNV_PRIME_INVERSE : N := 14886173955864302971.

Lemma fnv_step_lt h b : fnv_step h b < u64_max + 1.
Proof. apply N.mod_lt. done. Qed.

Lemma wrapping_mul_prime_inj a b :
  a < u64_max + 1 -> b < u64_max + 1 -> wrapping_mul a FNV_PRIME = wrapping_mul b FNV_PRIME -> a = b.
Proof.
  intros Ha Hb H. unfold wrapping_mul in H.
  assert (forall x, x < u64_max + 1 ->
    ((x * FNV_PRIME) mod (u64_max + 1) * FNV_PRIME_INVERSE) mod (u64_max + 1) = x) as Hinv.
  { intros x Hx. rewrite N.Div0.mul_mod_idemp_l, <- N.mul_assoc, <- N.Div0.mul_mod_idemp_r.
    replace ((FNV_PRIME * FNV_PRIME_INVERSE) mod (u64_max + 1)) with 1 by (vm_compute; reflexivity).
    rewrite N.mul_1_r. by apply N.mod_small. }
  rewrite <- (Hinv a Ha), <- (Hinv b Hb). by rewrite H.
Qed.

Lemma lxor_lt a b : a < u64_max + 1 -> b < 256 -> N.lxor a b < u64_max + 1.
Proof.
  intros Ha Hb. change (u64_max + 1) with (2 ^ 64) in *.
  destruct (N.eq_dec (N.lxor a b) 0) as [-> |Hne]; [done|].
  apply N.log2_lt_pow2; [lia|]. eapply N.le_lt_trans; [apply N.log2_lxor|].
  assert (b < 2 ^ 64) by (assert (2 ^ 64 = 18446744073709551616) by reflexivity; lia).
  destruct (N.eq_dec a 0) as [-> |Ha0], (N.eq_dec b 0) as [-> |Hb0];
    apply N.max_lub_lt; try done; apply N.log2_lt_pow2; lia.
Qed.

Lemma lxor_cancel_r a b c : N.lxor a c = N.lxor b c -> a = b.
Proof.
  intros H. apply (f_equal (fun x => N.lxor x c)) in H.
  by rewrite !N.lxor_assoc, N.lxor_nilpotent, !N.lxor_0_r in H.
Qed.

Lemma fnv_step_inj_hash h1 h2 b :
  h1 < u64_max + 1 -> h2 < u64_max + 1 -> b < 256 -> fnv_step h1 b = fnv_step h2 b -> h1 = h2.
Proof.
  intros H1 H2 Hb H. apply wrapping_mul_prime_inj in H; [|by apply lxor_lt..].
  by apply lxor_cancel_r in H.
Qed.
Lemma fnv_step_inj_byte h a b :
  h < u64_max + 1 -> a < 256 -> b < 256 -> fnv_step h a = fnv_step h b -> a = b.
Proof.
  intros Hh Ha Hb H. apply wrapping_mul_prime_inj in H; [|by apply lxor_lt..].
  rewrite !(N.lxor_comm h) in H. by apply lxor_cancel_r in H.
Qed.

Lemma foldl_fnv_lt h l : h < u64_max + 1 -> foldl fnv_step h l < u64_max + 1.
Proof. revert h; induction l as [|b l IH]; intros h Hh; cbn; [done|]. apply IH, fnv_step_lt. Qed.
Lemma foldl_fnv_inj h1 h2 l :
  h1 < u64_max + 1 -> h2 < u64_max + 1 -> Forall (fun b => b < 256) l ->
  foldl fnv_step h1 l = foldl fnv_step h2 l -> h1 = h2.
Proof.
  intros H1 H2 Hl. revert h1 h2 H1 H2. induction Hl as [|b l Hb _ IH]; cbn; [done|].
  intros h1 h2 H1 H2 H. eapply fnv_step_inj_hash, IH; eauto using fnv_step_lt.
Qed.
Lemma bytes_lt s : Forall (fun b => b < 256) (bytes s).
Proof. induction s; cbn; constructor; auto using byte_of_lt. Qed.

Lemma fnv_hash_lt l : fnv_hash l < u64_max + 1.
Proof. apply foldl_fnv_lt. done. Qed.

(** Same kind: the identities collide exactly where the hashes do. *)
Lemma stable_graph_id_eq_iff kind s t :
  stable_graph_id kind s = stable_graph_id kind t <->
  fnv_hash (bytes kind ++ [0] ++ bytes s) = fnv_hash (bytes kind ++ [0] ++ bytes t).
Proof.
  unfold stable_graph_id. split; [|by intros ->].
  intros H. apply append_inj_l, (append_inj_l ":"), hex_padded_inj in H; [done|apply fnv_hash_lt..].
Qed.

(** Identities of one kind that differ in exactly one byte never collide,
    and every identity is its kind, a colon and sixteen hexadecimal digits. *)
Theorem stable_graph_id_one_byte (kind pre post : string) (a b : Ascii.ascii) :
  stable_graph_id kind (pre ++ String a post) = stable_graph_id kind (pre ++ String b post) <->
  a = b.
Proof.
  split; [|by intros ->].
  rewrite stable_graph_id_eq_iff, !bytes_app. cbn [bytes]. unfold fnv_hash.
  rewrite !foldl_app. cbn [foldl]. intros H.
  apply foldl_fnv_inj in H; [|apply fnv_step_lt..|apply bytes_lt].
  apply fnv_step_inj_byte in H; [|apply foldl_fnv_lt, fnv_step_lt|apply byte_of_lt..].
  by apply byte_of_inj.
Qed.

Lemma stable_graph_id_length kind s :
  String.length (stable_graph_id kind s) = (String.length kind + 17)%nat.
Proof. unfold stable_graph_id. rewrite !length_append, hex_padded_length. cbn. lia. Qed.
