(* ===== verification/F64.v ===== *)
(** Rust's [f64]: IEEE 754 binary64, through the executable specification of the
    Standard Library ([SpecFloat], which relies on no axiom).  Only what the
    structural graph uses: the four operations, comparison, [total_cmp],
    conversions from [usize] and decimal literals. *)
From S2P Require Import Prelude.
From Stdlib Require Export ZArith.
From Stdlib Require Import SpecFloat.
Local Open Scope Z_scope.

Definition f64 : Type := spec_float.
Definition f64_of_Z (z : Z) : f64 := binary_normalize 53 1024 z 0 false.
(** [n as f64] *)
Definition f64_of_nat (n : nat) : f64 := f64_of_Z (Z.of_nat n).
Definition f64_add : f64 -> f64 -> f64 := SFadd 53 1024.
Definition f64_sub : f64 -> f64 -> f64 := SFsub 53 1024.
Definition f64_mul : f64 -> f64 -> f64 := SFmul 53 1024.
Definition f64_div : f64 -> f64 -> f64 := SFdiv 53 1024.
Definition f64_abs : f64 -> f64 := SFabs.
(** [<], false on NaN *)
Definition f64_ltb : f64 -> f64 -> bool := SFltb.
(** The literal [num / den], correctly rounded. *)
Definition f64_literal (num den : Z) : f64 := f64_div (f64_of_Z num) (f64_of_Z den).
Definition f64_zero : f64 := S754_zero false.
Definition f64_one : f64 := f64_of_Z 1.
(** [.sum::<f64>()] of values that are not negative *)
Definition f64_sum (l : list f64) : f64 := foldl f64_add f64_zero l.

Definition f64_sqrt : f64 -> f64 := SFsqrt 53 1024.
(** [x.ceil() as usize] *)
Definition f64_ceil_usize (x : f64) : N :=
  match x with
  | S754_finite false m e =>
      let value := match e with
        | Z0 => Npos m
        | Zpos e => N.shiftl (Npos m) (Npos e)
        | Zneg e => N.shiftr (Npos m + N.ones (Npos e)) (Npos e)
        end in
      N.min value usize_max
  | S754_infinity false => usize_max
  | _ => 0
  end%N.

(** [f64::total_cmp] on the values of [spec_float], which has one NaN. *)
Definition f64_rank (x : f64) : Z :=
  match x with
  | S754_infinity true => -3
  | S754_finite true _ _ => -2
  | S754_zero true => -1
  | S754_zero false => 0
  | S754_finite false _ _ => 1
  | S754_infinity false => 2
  | S754_nan => 3
  end.
Definition f64_total_cmp (x y : f64) : comparison :=
  match Z.compare (f64_rank x) (f64_rank y) with
  | Eq => match SFcompare x y with Some c => c | None => Eq end
  | c => c
  end.

Example f64_add_literals : f64_add (f64_literal 1 10) (f64_literal 2 10) <> f64_literal 3 10.
Proof. vm_compute. discriminate. Qed.
Example f64_halves : f64_add (f64_literal 1 2) (f64_literal 1 2) = f64_one.
Proof. vm_compute. reflexivity. Qed.
Example f64_zero_signs : f64_total_cmp (S754_zero true) f64_zero = Lt.
Proof. vm_compute. reflexivity. Qed.
Example f64_sqrt_ceil : map (fun n => f64_ceil_usize (f64_sqrt (f64_of_Z n))) [0; 1; 144; 145; 169; 170]%Z = [0; 1; 12; 13; 13; 14]%N.
Proof. vm_compute. reflexivity. Qed.

(** [f64::max], [f64::clamp] and [<=] on values that are not NaN. *)
Definition f64_leb (x y : f64) : bool := SFleb x y.
Definition f64_max (x y : f64) : f64 := if f64_ltb x y then y else x.
Definition f64_clamp (x lo hi : f64) : f64 := if f64_ltb x lo then lo else if f64_ltb hi x then hi else x.
(** [x.round() as u32]: half away from zero. *)
Definition f64_round_u32 (x : f64) : N :=
  match x with
  | S754_finite false m e =>
      let value := match e with
        | Z0 => Npos m
        | Zpos e => N.shiftl (Npos m) (Npos e)
        | Zneg e => N.shiftr (Npos m + N.shiftl 1 (Pos.pred_N e)) (Npos e)
        end in
      N.min value u32_max
  | S754_infinity false => u32_max
  | _ => 0
  end%N.
Example f64_rounds : map f64_round_u32 [f64_literal 1 2; f64_literal 49 100; f64_literal 5 2; f64_of_Z 7; f64_literal (-3) 2]
  = [1; 0; 3; 7; 0]%N.
Proof. vm_compute. reflexivity. Qed.
