(* ===== verification/GraphAlgorithms.v ===== *)
(** The graph algorithms of
    [src/crates/codevetter-core/src/commands/structural_graph/analysis.rs]: the
    strongly connected components, the articulation points, the reachable set
    and the bounded execution flows, on vectors of neighbour indices.

    A [while let Some(..) = stack.pop()] loop is [Prelude.loop]: its state is a
    Record of the variables the loop mutates, its body one [_step] definition.
    A stack is a list whose head is the top. *)
From S2P Require Import Prelude Ordering RustText GraphTypes.
Local Open Scope nat_scope.

(** [&[Vec<usize>]] *)
Abbreviation adjacency := (list (list nat)).

Definition degree_sum (graph : adjacency) : nat := sum_list (map length graph).

(** ** Strongly connected components *)

Record finish_state : Type := {
  finish_stack : list (nat * nat);
  finish_seen : list bool;
  finish_order_list : list nat
}.
(** The body of the loop of [finish_order]; a frame is a node and the index of
    its next neighbour. *)
Definition finish_step (graph : adjacency) (st : finish_state) : option (outcome finish_state) :=
  match finish_stack st with
  | [] => None
  | (node, next_neighbor) :: rest => Some (
      neighbors ← at_index graph node;
      match neighbors !! next_neighbor with
      | Some target =>
          seen ← at_index (finish_seen st) target;
          if (seen : bool)
          then Ok {| finish_stack := (node, S next_neighbor) :: rest; finish_seen := finish_seen st;
                     finish_order_list := finish_order_list st |}
          else
            marked ← set_index (finish_seen st) target true;
            Ok {| finish_stack := (target, 0) :: (node, S next_neighbor) :: rest; finish_seen := marked;
                  finish_order_list := finish_order_list st |}
      | None =>
          Ok {| finish_stack := rest; finish_seen := finish_seen st;
                finish_order_list := finish_order_list st ++ [node] |}
      end)
  end.
Definition finish_fuel (graph : adjacency) : nat := 2 * length graph + degree_sum graph.

(** The nodes in the order a depth-first search from [start] leaves them, after
    those already left. *)
Definition finish_order (start : nat) (graph : adjacency) (seen : list bool) (order : list nat)
    : outcome (list bool * list nat) :=
  marked ← set_index seen start true;
  st ← loop (finish_fuel graph) (finish_step graph)
         {| finish_stack := [(start, 0)]; finish_seen := marked; finish_order_list := order |};
  Ok (finish_seen st, finish_order_list st).

Definition finish_from (outgoing : adjacency) (st : list bool * list nat) (start : nat)
    : outcome (list bool * list nat) :=
  seen ← at_index (fst st) start;
  if (seen : bool) then Ok st else finish_order start outgoing (fst st) (snd st).

Record collect_state : Type := {
  collect_stack : list nat;
  collect_seen : list bool;
  component : list nat
}.
Definition push_unseen (st : list nat * list bool) (target : nat) : outcome (list nat * list bool) :=
  seen ← at_index (snd st) target;
  if (seen : bool) then Ok st else
  marked ← set_index (snd st) target true;
  Ok (target :: fst st, marked).
Definition collect_step (incoming : adjacency) (st : collect_state) : option (outcome collect_state) :=
  match collect_stack st with
  | [] => None
  | node :: rest => Some (
      neighbors ← at_index incoming node;
      pushed ← for_each push_unseen (rest, collect_seen st) (reverse neighbors);
      Ok {| collect_stack := fst pushed; collect_seen := snd pushed; component := component st ++ [node] |})
  end.
(** One turn of the loop over the reversed order. *)
Definition collect_from (incoming : adjacency) (st : list bool * list (list nat)) (start : nat)
    : outcome (list bool * list (list nat)) :=
  seen ← at_index (fst st) start;
  if (seen : bool) then Ok st else
  marked ← set_index (fst st) start true;
  found ← loop (length incoming) (collect_step incoming)
            {| collect_stack := [start]; collect_seen := marked; component := [] |};
  Ok (collect_seen found, snd st ++ [sort (component found)]).

Definition strongly_connected_components (outgoing incoming : adjacency) : outcome (list (list nat)) :=
  finished ← for_each (finish_from outgoing) (replicate (length outgoing) false, []) (seq 0 (length outgoing));
  collected ← for_each (collect_from incoming) (replicate (length outgoing) false, [])
                (reverse (snd finished));
  Ok (snd collected).

(** 0 -> 1 -> 2 -> 0, 2 -> 3, 3 <-> 4, 5 alone *)
Definition ex_outgoing : adjacency := [[1]; [2]; [0; 3]; [4]; [3]; []].
Definition ex_incoming : adjacency := [[2]; [0]; [1]; [2; 4]; [3]; []].
Example ex_components :
  strongly_connected_components ex_outgoing ex_incoming = Ok [[5]; [0; 1; 2]; [3; 4]].
Proof. vm_compute. reflexivity. Qed.
Example ex_components_bad_index : ~ returns (strongly_connected_components [[1]] [[]]).
Proof. vm_compute. tauto. Qed.

(** ** Articulation points *)

Record lowlink_state : Type := {
  low_stack : list (nat * nat);
  discovered : list nat;
  low : list nat;
  parent : list (option nat);
  child_count : list nat;
  articulation : list bool;
  time : nat
}.
Definition discover (st : lowlink_state) (node : nat) (stack : list (nat * nat)) (parents : list (option nat))
    (children : list nat) : outcome lowlink_state :=
  discovered' ← set_index (discovered st) node (S (time st));
  low' ← set_index (low st) node (S (time st));
  Ok {| low_stack := (node, 0) :: stack; discovered := discovered'; low := low'; parent := parents;
        child_count := children; articulation := articulation st; time := S (time st) |}.
Definition with_low (st : lowlink_state) (stack : list (nat * nat)) (low' : list nat) (points : list bool)
    : lowlink_state :=
  {| low_stack := stack; discovered := discovered st; low := low'; parent := parent st;
     child_count := child_count st; articulation := points; time := time st |}.
Definition lower (low' : list nat) (node value : nat) : outcome (list nat) :=
  current ← at_index low' node; set_index low' node (Nat.min current value).

Definition lowlink_step (graph : adjacency) (st : lowlink_state) : option (outcome lowlink_state) :=
  match low_stack st with
  | [] => None
  | (node, next_neighbor) :: rest => Some (
      neighbors ← at_index graph node;
      match neighbors !! next_neighbor with
      | Some target =>
          found ← at_index (discovered st) target;
          if found =? 0 then
            parents ← set_index (parent st) target (Some node);
            count ← at_index (child_count st) node;
            children ← set_index (child_count st) node (S count);
            discover st target ((node, S next_neighbor) :: rest) parents children
          else
            above ← at_index (parent st) node;
            if bool_decide (above = Some target) then Ok (with_low st ((node, S next_neighbor) :: rest) (low st) (articulation st)) else
            low' ← lower (low st) node found;
            Ok (with_low st ((node, S next_neighbor) :: rest) low' (articulation st))
      | None =>
          above ← at_index (parent st) node;
          match above with
          | Some parent_index =>
              finished_low ← at_index (low st) node;
              low' ← lower (low st) parent_index finished_low;
              grand ← at_index (parent st) parent_index;
              finished_low ← at_index low' node;
              parent_found ← at_index (discovered st) parent_index;
              points ← (if is_some grand && (parent_found <=? finished_low)
                        then set_index (articulation st) parent_index true else Ok (articulation st));
              Ok (with_low st rest low' points)
          | None =>
              count ← at_index (child_count st) node;
              points ← (if 1 <? count then set_index (articulation st) node true else Ok (articulation st));
              Ok (with_low st rest (low st) points)
          end
      end)
  end.
Definition lowlink_from (graph : adjacency) (st : lowlink_state) (root : nat) : outcome lowlink_state :=
  found ← at_index (discovered st) root;
  if negb (found =? 0) then Ok st else
  st ← discover st root [] (parent st) (child_count st);
  loop (finish_fuel graph) (lowlink_step graph) st.
Fixpoint true_indices (i : nat) (l : list bool) : list nat :=
  match l with
  | [] => []
  | b :: l => if b then i :: true_indices (S i) l else true_indices (S i) l
  end.
Definition articulation_points (graph : adjacency) : outcome (list nat) :=
  let count := length graph in
  st ← for_each (lowlink_from graph)
         {| low_stack := []; discovered := replicate count 0; low := replicate count 0;
            parent := replicate count None; child_count := replicate count 0;
            articulation := replicate count false; time := 0 |} (seq 0 count);
  Ok (true_indices 0 (articulation st)).

(** 0 - 1 - 2 - 0 and 2 - 3 - 4 *)
Example ex_articulation : articulation_points [[1; 2]; [0; 2]; [0; 1; 3]; [2; 4]; [3]] = Ok [2; 3].
Proof. vm_compute. reflexivity. Qed.
Example ex_articulation_root : articulation_points [[1; 2]; [0]; [0]] = Ok [0].
Proof. vm_compute. reflexivity. Qed.

(** ** Reachable nodes *)

(** [Vec<Vec<(usize, &str)>>]: targets with the ids of their edges. *)
Abbreviation labelled := (list (list (nat * string))).

Record reach_state : Type := { reach_pending : list nat; reachable : list bool }.
Definition reach_step (execution : labelled) (st : reach_state) : option (outcome reach_state) :=
  match reach_pending st with
  | [] => None
  | index :: rest => Some (
      seen ← at_index (reachable st) index;
      if (seen : bool) then Ok {| reach_pending := rest; reachable := reachable st |} else
      marked ← set_index (reachable st) index true;
      targets ← at_index execution index;
      Ok {| reach_pending := reverse (map fst targets) ++ rest; reachable := marked |})
  end.
Definition reach_fuel (execution : labelled) (entrypoints : list nat) : nat :=
  length entrypoints + length execution + sum_list (map length execution).
Definition reachable_from (execution : labelled) (entrypoints : list nat) : outcome (list bool) :=
  st ← loop (reach_fuel execution entrypoints) (reach_step execution)
         {| reach_pending := reverse entrypoints; reachable := replicate (length execution) false |};
  Ok (reachable st).

(** ** Execution flows *)

Definition MAX_EXECUTION_FLOWS : nat := 100.
Definition MAX_EXECUTION_FLOW_DEPTH : nat := 8.

Record StructuralGraphExecutionFlow : Type := {
  entrypoint_node_id : string;
  flow_node_ids : list string;
  flow_edge_ids : list string;
  terminal_reason : string
}.

(** A path under extension: its nodes and its edges. *)
Abbreviation path_so_far := (list nat * list string)%type.
Record flow_state : Type := {
  flow_pending : list path_so_far;
  flows : list StructuralGraphExecutionFlow;
  truncated : bool
}.

Definition open_targets (targets : list (nat * string)) (node_path : list nat) : list (nat * string) :=
  List.filter (fun t => negb (elemb (fst t) node_path)) targets.
Definition build_flow (nodes : list StructuralGraphNode) (entrypoint : nat) (path : path_so_far) (reason : string)
    : outcome StructuralGraphExecutionFlow :=
  entry ← at_index nodes entrypoint;
  ids ← collect (fun index => node ← at_index nodes index; Ok (node_id node)) (fst path);
  Ok {| entrypoint_node_id := node_id entry; flow_node_ids := ids; flow_edge_ids := snd path;
        terminal_reason := reason |}.
Definition extend_path (path : path_so_far) (target : nat * string) : path_so_far :=
  (fst path ++ [fst target], snd path ++ [snd target]).

(** The body of the inner loop; [truncated] is set where it breaks. *)
Definition flow_step (nodes : list StructuralGraphNode) (execution : labelled) (entrypoint : nat) (st : flow_state)
    : option (outcome flow_state) :=
  if truncated st then None else
  match flow_pending st with
  | [] => None
  | path :: rest => Some (
      if MAX_EXECUTION_FLOWS <=? length (flows st)
      then Ok {| flow_pending := rest; flows := flows st; truncated := true |} else
      current ← index_or_panic (last (fst path));
      let at_depth_limit := MAX_EXECUTION_FLOW_DEPTH <=? length (snd path) in
      targets ← at_index execution current;
      let next := open_targets targets (fst path) in
      if at_depth_limit || is_nil next then
        let reason := (if at_depth_limit then "depth_limit"
                       else if is_nil targets then "terminal" else "cycle_avoided")%string in
        flow ← build_flow nodes entrypoint path reason;
        Ok {| flow_pending := rest; flows := flows st ++ [flow]; truncated := false |}
      else
        Ok {| flow_pending := foldl (fun pending t => extend_path path t :: pending) rest (reverse next);
              flows := flows st; truncated := false |})
  end.
Definition flow_fuel : nat := (MAX_EXECUTION_FLOWS + 2) * (MAX_EXECUTION_FLOW_DEPTH + 2).

(** One turn of the outer loop, which stops once truncated. *)
Definition flows_from (nodes : list StructuralGraphNode) (execution : labelled)
    (st : list StructuralGraphExecutionFlow * bool) (entrypoint : nat)
    : outcome (list StructuralGraphExecutionFlow * bool) :=
  if snd st then Ok st else
  found ← loop flow_fuel (flow_step nodes execution entrypoint)
            {| flow_pending := [([entrypoint], [])]; flows := fst st; truncated := false |};
  Ok (flows found, truncated found).
Definition bounded_execution_flows (nodes : list StructuralGraphNode) (execution : labelled)
    (entrypoints : list nat) : outcome (list StructuralGraphExecutionFlow * bool) :=
  for_each (flows_from nodes execution) ([], false) entrypoints.

Definition ex_node (id : string) : StructuralGraphNode := {|
  node_id := id; node_kind := "function"; label := id; qualified_name := None; node_path := None; detail := None;
  language := None; community_id := None; node_trust := Extracted; node_origin := OSyntax; node_sources := [] |}.
(** a -> b -> c -> a, b -> d *)
Definition ex_nodes : list StructuralGraphNode := map ex_node ["a"; "b"; "c"; "d"]%string.
Definition ex_execution : labelled := [[(1, "ab")]; [(2, "bc"); (3, "bd")]; [(0, "ca")]; []]%string.
Example ex_flows :
  bounded_execution_flows ex_nodes ex_execution [0] =
  Ok ([{| entrypoint_node_id := "a"; flow_node_ids := ["a"; "b"; "c"]; flow_edge_ids := ["ab"; "bc"];
          terminal_reason := "cycle_avoided" |};
       {| entrypoint_node_id := "a"; flow_node_ids := ["a"; "b"; "d"]; flow_edge_ids := ["ab"; "bd"];
          terminal_reason := "terminal" |}]%string, false).
Proof. vm_compute. reflexivity. Qed.
Example ex_reachable : reachable_from ex_execution [2] = Ok [true; true; true; true].
Proof. vm_compute. reflexivity. Qed.
