(* ===== verification/Digraph.v ===== *)
(** Directed graphs given by vectors of neighbour indices: edges, reachability,
    strong connectivity, and the weight of the nodes not yet marked, which
    bounds the searches of [GraphAlgorithms]. *)
From S2P Require Import Prelude Ordering GraphAlgorithms.
From stdpp Require Export relations.
Local Open Scope nat_scope.

Section Graphs.
Context (graph : adjacency).

Definition edge (u v : nat) : Prop := exists ns, graph !! u = Some ns /\ v ∈ ns.
(** [v] is the [k]th neighbour of [u]. *)
Definition neighbor (u k v : nat) : Prop := exists ns, graph !! u = Some ns /\ ns !! k = Some v.
Definition reach : nat -> nat -> Prop := rtc edge.
Definition mutual (u v : nat) : Prop := reach u v /\ reach v u.
(** Every index is one of a node. *)
Definition closed_graph : Prop := forall u v, edge u v -> v < length graph.

Lemma edge_neighbor u v : edge u v <-> exists k, neighbor u k v.
Proof.
  split.
  - intros (ns & Hu & [k Hk]%list_elem_of_lookup). by exists k, ns.
  - intros (k & ns & Hu & Hk). exists ns. split; [done|]. by eapply list_elem_of_lookup_2.
Qed.
Lemma neighbor_edge u k v : neighbor u k v -> edge u v.
Proof. intros Hn. apply edge_neighbor. by exists k. Qed.

Lemma edge_reach u v : edge u v -> reach u v.
Proof. apply rtc_once. Qed.
Lemma mutual_refl u : mutual u u.
Proof. by split. Qed.
Lemma mutual_sym u v : mutual u v -> mutual v u.
Proof. intros [? ?]. by split. Qed.
Lemma mutual_trans u v w : mutual u v -> mutual v w -> mutual u w.
Proof. intros [? ?] [? ?]. split; unfold reach in *; by etrans. Qed.
End Graphs.
#[export] Instance reach_trans graph : Transitive (reach graph).
Proof. intros x y z Hxy Hyz. unfold reach in *. by etrans. Qed.
#[export] Instance reach_refl graph : Reflexive (reach graph).
Proof. intros x. apply rtc_refl. Qed.
#[export] Hint Resolve edge_reach mutual_refl mutual_sym : graphs.

(** A non-empty path is an edge and a path. *)
Lemma tc_split {A} (R : A -> A -> Prop) x y : tc R x y <-> exists z, R x z /\ rtc R z y.
Proof.
  split.
  - destruct 1 as [x y Hxy|x z y Hxz Hzy%tc_rtc]; [by exists y|by exists z].
  - intros (z & Hxz & Hzy). eapply tc_rtc_r; [by apply tc_once|done].
Qed.

(** A path that leaves a set crosses its border. *)
Lemma path_exit graph (inside : nat -> Prop) x y :
  (forall z, Decision (inside z)) -> reach graph x y -> inside x -> ~ inside y ->
  exists u w, inside u /\ ~ inside w /\ edge graph u w /\ reach graph x u /\ reach graph w y.
Proof.
  intros Hdec Hxy. induction Hxy as [|x z y Hxz Hzy IH]; intros Hx Hy; [done|].
  destruct (decide (inside z)) as [Hz|Hz].
  - destruct (IH Hz Hy) as (u & w & ? & ? & ? & Hzu & ?). exists u, w. split_and!; try done.
    by eapply rtc_l.
  - exists x, z. by split_and!.
Qed.

(** * Marks *)

Definition marked (seen : list bool) (v : nat) : Prop := seen !! v = Some true.

Lemma marked_insert seen t v :
  t < length seen -> marked (<[t := true]> seen) v <-> v = t \/ marked seen v.
Proof.
  intros Ht. unfold marked. rewrite list_lookup_insert. case_decide as H; [naive_solver|].
  split; [by right|]. intros [->|]; [tauto|done].
Qed.
Lemma not_marked seen v : v < length seen -> seen !! v <> Some true -> seen !! v = Some false.
Proof. intros [[] Hb]%lookup_lt_is_Some; naive_solver. Qed.
Lemma marked_lt seen v : marked seen v -> v < length seen.
Proof. apply lookup_lt_Some. Qed.
Lemma marked_replicate n v : ~ marked (replicate n false) v.
Proof. unfold marked. by intros [? _]%lookup_replicate. Qed.

(** The weight of the nodes not marked. *)
Fixpoint unseen (w : nat -> nat) (seen : list bool) : nat :=
  match seen with
  | [] => 0
  | b :: seen => (if b then 0 else w 0) + unseen (fun k => w (S k)) seen
  end.

Lemma unseen_mark w seen t :
  seen !! t = Some false -> unseen w seen = w t + unseen w (<[t := true]> seen).
Proof.
  revert w t. induction seen as [|b seen IH]; intros w t Ht; [done|].
  destruct t as [|t]; cbn in *; [by injection Ht as ->|]. rewrite (IH _ t Ht), !Nat.add_assoc, (Nat.add_comm (w (S t))). done.
Qed.
Lemma unseen_le_length seen : unseen (fun _ => 1) seen <= length seen.
Proof.
  induction seen as [|b seen IH]; cbn; [done|].
  change (unseen _ seen) with (unseen (fun _ => 1) seen). destruct b; lia.
Qed.

Definition degree (graph : adjacency) (v : nat) : nat := length (default [] (graph !! v)).
Lemma unseen_degree_le c graph seen :
  length seen = length graph ->
  unseen (fun v => c + degree graph v) seen <= c * length graph + degree_sum graph.
Proof.
  unfold degree_sum. revert graph. induction seen as [|b seen IH]; intros [|ns graph]; cbn; try lia.
  intros [= Hlen]. specialize (IH graph Hlen). unfold degree in IH |- *. cbn.
  match goal with |- _ + ?x <= _ => change x with (unseen (fun v => c + length (default [] (graph !! v))) seen) end.
  destruct b; lia.
Qed.
