(* ===== verification/SccProps.v ===== *)
(** [GraphAlgorithms.strongly_connected_components] computes the strongly
    connected components.

    The search's stack is described by [chain], an inductive relation between
    the nodes left so far and the frames still open: [pre] was left before a
    frame was opened and [post] since.  From it follows what the second pass
    relies on: some node strongly connected to [x] is left no earlier than
    anything [x] reaches ([latest]). *)
From S2P Require Import Prelude Ordering GraphAlgorithms Digraph.
Local Open Scope nat_scope.

(** * The depth-first search *)

Section Search.
Context (graph : adjacency) (Hgraph : closed_graph graph).

(** Between [pre ++ post], the nodes left, and the frame [v] at its [i]th
    neighbour over the nodes [below]. *)
Record frame_ok (pre post : list nat) (v i : nat) (below : list nat) : Prop := {
  frame_fresh : v ∉ pre;
  frame_post : forall x, x ∈ post -> reach graph v x;
  frame_done : forall x u, x ∈ post -> edge graph x u -> u ∈ pre ++ post ++ v :: below;
  frame_next : forall k u, k < i -> neighbor graph v k u -> u ∈ pre ++ post ++ v :: below
}.

Definition closed (order : list nat) : Prop := forall x u, x ∈ order -> edge graph x u -> u ∈ order.

Inductive chain : list nat -> list (nat * nat) -> Prop :=
  | chain_nil order : closed order -> chain order []
  | chain_root pre post v i :
      closed pre -> frame_ok pre post v i [] -> chain (pre ++ post) [(v, i)]
  | chain_child pre post p j rest v i :
      chain pre ((p, j) :: rest) -> neighbor graph p j v -> frame_ok pre post v i (p :: map fst rest) ->
      chain (pre ++ post) ((v, i) :: (p, S j) :: rest).

Lemma frame_advance pre post v i below t :
  frame_ok pre post v i below -> neighbor graph v i t -> t ∈ pre ++ post ++ v :: below ->
  frame_ok pre post v (S i) below.
Proof.
  intros [Hf Hp Hd Hn] (ns & Hns & Ht) Hin. split; [done..|]. intros k u Hk (ns' & Hns' & Hu).
  destruct (decide (k = i)) as [->|]; [by simplify_eq|]. apply (Hn k); [lia|by exists ns'].
Qed.

(** The three things a step does. *)
Lemma chain_advance order v i rest t :
  chain order ((v, i) :: rest) -> neighbor graph v i t -> t ∈ order ++ v :: map fst rest ->
  chain order ((v, S i) :: rest).
Proof.
  intros Hc Ht Hin. inversion Hc as [|pre post ? ? Hpre Hf|pre post p j rest' ? ? Hch Hn Hf]; subst; constructor;
    try done; eapply frame_advance; try done; by rewrite <- app_assoc in Hin.
Qed.
Lemma chain_open order v i rest t :
  chain order ((v, i) :: rest) -> neighbor graph v i t -> t ∉ order ->
  chain order ((t, 0) :: (v, S i) :: rest).
Proof.
  intros Hc Ht Hin. rewrite <- (app_nil_r order). constructor; [done..|].
  split; [done|..]; try by intros ? ?%not_elem_of_nil || (intros; lia).
  all: intros ? ? Hx; try (by apply not_elem_of_nil in Hx); lia.
Qed.

(** The frame under one that closes takes over what it left. *)
Lemma frame_absorb pre post pre' post' v i p j below :
  pre = pre' ++ post' -> frame_ok pre post v i (p :: below) -> frame_ok pre' post' p j below ->
  neighbor graph p j v -> (forall u, edge graph v u -> exists k, k < i /\ neighbor graph v k u) ->
  frame_ok pre' (post' ++ post ++ [v]) p (S j) below.
Proof.
  intros -> [Hf Hp Hd Hn] [Hf' Hp' Hd' Hn'] Hv Hall. split; [done|..].
  - intros x. rewrite !elem_of_app, list_elem_of_singleton.
    apply neighbor_edge, edge_reach in Hv. intros [Hx|[Hx| ->]]; [by apply Hp'|etrans; [exact Hv|by apply Hp]|done].
  - intros x u. rewrite !elem_of_app, list_elem_of_singleton. intros [Hx|[Hx| ->]] Hu.
    + specialize (Hd' x u Hx Hu). set_solver.
    + specialize (Hd x u Hx Hu). set_solver.
    + destruct (Hall u Hu) as (k & Hk & Hku). specialize (Hn k u Hk Hku). set_solver.
  - intros k u Hk Hku. destruct (decide (k = j)) as [->|].
    + assert (u = v) as -> by (destruct Hku as (? & ? & ?), Hv as (? & ? & ?); by simplify_eq). set_solver.
    + specialize (Hn' k u ltac:(lia) Hku). set_solver.
Qed.
Lemma chain_close order v i rest :
  chain order ((v, i) :: rest) -> (forall u, edge graph v u -> exists k, k < i /\ neighbor graph v k u) ->
  chain (order ++ [v]) rest.
Proof.
  intros Hc Hall. inversion Hc as [|pre post ? ? Hpre Hf|pre post p j rest' ? ? Hch Hn Hf]; subst.
  - destruct Hf as [Hf Hp Hd Hn]. constructor. intros x u. rewrite !elem_of_app, list_elem_of_singleton.
    intros [[Hx|Hx]| ->] Hu.
    + specialize (Hpre x u Hx Hu). set_solver.
    + specialize (Hd x u Hx Hu). set_solver.
    + destruct (Hall u Hu) as (k & Hk & Hku). specialize (Hn k u Hk Hku). set_solver.
  - inversion Hch as [|pre' post' ? ? Hpre' Hf'|pre' post' p' j' rest'' ? ? Hch' Hn' Hf']; subst.
    + rewrite <- !app_assoc. apply chain_root; [done|]. by eapply frame_absorb.
    + rewrite <- !app_assoc. apply chain_child; [done..|]. by eapply frame_absorb.
Qed.

(** ** What a chain says of paths *)

Lemma chain_stack_reach order v i rest w :
  chain order ((v, i) :: rest) -> w ∈ map fst rest -> reach graph w v.
Proof.
  intros Hc. remember ((v, i) :: rest) as stack eqn:Hs. revert v i rest Hs w.
  induction Hc as [|pre post v' i' Hpre Hf|pre post p j rest' v' i' Hch IH Hn Hf]; intros v i rest [=] w Hw; subst.
  - by apply not_elem_of_nil in Hw.
  - apply neighbor_edge, edge_reach in Hn. cbn in Hw. apply elem_of_cons in Hw as [->|Hw]; [done|].
    etrans; [by eapply (IH p j rest')|done].
Qed.

Lemma chain_border order stack x u :
  chain order stack -> x ∈ order -> edge graph x u -> u ∈ order \/ u ∈ map fst stack.
Proof.
  intros Hc. revert x u. induction Hc as [order Hcl|pre post v i Hpre Hf|pre post p j rest v i Hch IH Hn Hf];
    intros x u Hx Hu; cbn in *.
  - left. by eapply Hcl.
  - apply elem_of_app in Hx as [Hx|Hx].
    + left. apply elem_of_app. left. by eapply Hpre.
    + pose proof (frame_done _ _ _ _ _ Hf x u Hx Hu) as H. rewrite !elem_of_app in *. tauto.
  - apply elem_of_app in Hx as [Hx|Hx].
    + destruct (IH x u Hx Hu) as [H|H]; [left; set_solver|]. right. cbn in H. set_solver.
    + pose proof (frame_done _ _ _ _ _ Hf x u Hx Hu) as H. rewrite !elem_of_app in *. tauto.
Qed.

(** A node left that reaches an open frame is strongly connected to one. *)
Lemma chain_meets_stack order stack x w :
  chain order stack -> x ∈ order -> w ∈ map fst stack -> reach graph x w ->
  exists z, z ∈ map fst stack /\ mutual graph z x.
Proof.
  intros Hc. revert x w. induction Hc as [order Hcl|pre post v i Hpre Hf|pre post p j rest v i Hch IH Hn Hf];
    intros x w Hx Hw Hxw.
  - by apply not_elem_of_nil in Hw.
  - apply list_elem_of_singleton in Hw as ->. cbn in Hxw |- *. apply elem_of_app in Hx as [Hx|Hx].
    + destruct (path_exit graph (fun z => z ∈ pre) x v _ Hxw Hx (frame_fresh _ _ _ _ _ Hf)) as (a & b & Ha & Hb & Hab & _).
      destruct Hb. by eapply Hpre.
    + exists v. split; [by left|]. split; [by eapply frame_post|done].
  - assert (forall y, y ∈ pre -> reach graph y v -> exists z, z ∈ map fst ((v, i) :: (p, S j) :: rest) /\ mutual graph z y)
      as Hpre.
    { intros y Hy Hyv.
      destruct (path_exit graph (fun z => z ∈ pre) y v _ Hyv Hy (frame_fresh _ _ _ _ _ Hf)) as (a & b & Ha & Hb & Hab & Hya & Hbv).
      destruct (chain_border _ _ a b Hch Ha Hab) as [?|Hin]; [done|].
      destruct (IH y b Hy Hin) as (z & Hz & Hm); [etrans; [exact Hya|by apply edge_reach]|].
      exists z. split; [by right|done]. }
    apply elem_of_app in Hx as [Hx|Hx].
    + cbn in Hw. apply elem_of_cons in Hw as [->|Hw]; [by apply Hpre|].
      destruct (IH x w Hx Hw Hxw) as (z & Hz & Hm). exists z. split; [by right|done].
    + pose proof (frame_post _ _ _ _ _ Hf x Hx) as Hvx. cbn in Hw. apply elem_of_cons in Hw as [->|Hw].
      { exists v. split; [by left|done]. }
      exists w. split; [by right|]. split; [|done]. etrans; [|exact Hvx].
      eapply (chain_stack_reach (pre ++ post) v i ((p, S j) :: rest)); [by constructor|done].
Qed.

(** ** The order of leaving *)

(** Anything [x] reaches is left no later than some node strongly connected to
    [x], or one of those is still open. *)
Definition latest (order open : list nat) : Prop :=
  forall x y, x ∈ order -> y ∈ order -> reach graph x y ->
    (exists z, z ∈ open /\ mutual graph z x) \/
    exists before after z, order = before ++ y :: after /\ z ∈ y :: after /\ mutual graph z x.

Lemma latest_open order stack t : latest order stack -> latest order (t :: stack).
Proof.
  intros Hl x y Hx Hy Hxy. destruct (Hl x y Hx Hy Hxy) as [(z & Hz & Hm)|?]; [left|by right].
  exists z. split; [by right|done].
Qed.
Lemma latest_close order v i rest :
  chain order ((v, i) :: rest) -> latest order (v :: map fst rest) -> latest (order ++ [v]) (map fst rest).
Proof.
  intros Hc Hl x y Hx Hy Hxy. rewrite elem_of_app, list_elem_of_singleton in Hx, Hy.
  destruct Hx as [Hx| ->].
  2: { right. destruct Hy as [(before & after & ->)%list_elem_of_split| ->].
       - exists before, (after ++ [v]), v. rewrite <- app_assoc. split_and!; [done|set_solver|by apply mutual_refl].
       - exists order, [], v. split_and!; [done|by left|by apply mutual_refl]. }
  assert ((exists z, z ∈ v :: map fst rest /\ mutual graph z x) \/
    exists before after z, order = before ++ y :: after /\ z ∈ y :: after /\ mutual graph z x)
    as [(z & Hz & Hm)|(before & after & z & -> & Hz & Hm)].
  { destruct Hy as [Hy| ->]; [by apply Hl|]. left. by eapply (chain_meets_stack _ _ _ v Hc); [done|left|]. }
  - apply elem_of_cons in Hz as [->|Hz]; [right|left; by exists z].
    destruct Hy as [(before & after & ->)%list_elem_of_split| ->].
    + exists before, (after ++ [v]), v. rewrite <- app_assoc. split_and!; [done|set_solver|done].
    + exists order, [], v. split_and!; [done|by left|done].
  - right. exists before, (after ++ [v]), z. rewrite <- app_assoc. split_and!; [done| |done]. set_solver.
Qed.
End Search.

(** * The first pass *)

Section FirstPass.
Context (graph : adjacency) (Hgraph : closed_graph graph).

Record searching (st : finish_state) : Prop := {
  searching_length : length (finish_seen st) = length graph;
  searching_marks : forall v, marked (finish_seen st) v <->
    v ∈ finish_order_list st \/ v ∈ map fst (finish_stack st);
  searching_nodup : NoDup (map fst (finish_stack st) ++ finish_order_list st);
  searching_chain : chain graph (finish_order_list st) (finish_stack st);
  searching_latest : latest graph (finish_order_list st) (map fst (finish_stack st))
}.

Definition frames_left (stack : list (nat * nat)) : nat :=
  sum_list (map (fun f => S (degree graph (fst f) - snd f)) stack).
Definition finish_measure (st : finish_state) : nat :=
  unseen (fun v => 2 + degree graph v) (finish_seen st) + frames_left (finish_stack st).

Lemma finish_step_ok st next :
  searching st -> finish_step graph st = Some next ->
  exists st', next = Ok st' /\ (searching st' /\ forall v, marked (finish_seen st) v -> marked (finish_seen st') v) /\
    finish_measure st' < finish_measure st.
Proof.
  intros [Hlen Hmarks Hnd Hchain Hlatest]. unfold finish_step.
  destruct st as [stack seen order]. cbn in *. destruct stack as [|[v i] rest]; [done|]. intros [= <-].
  assert (v < length graph) as Hv by (rewrite <- Hlen; apply marked_lt, Hmarks; right; left).
  destruct (lookup_lt_is_Some_2 graph v Hv) as [ns Hns]. rewrite (at_index_Ok _ _ _ Hns), bind_of_Ok.
  assert (degree graph v = length ns) as Hdeg by (unfold degree; by rewrite Hns).
  destruct (ns !! i) as [t|] eqn:Ht.
  - assert (neighbor graph v i t) as Hn by by exists ns.
    assert (i < length ns) as Hi by by eapply lookup_lt_Some.
    assert (t < length graph) as Htl by by eapply Hgraph, neighbor_edge.
    destruct (lookup_lt_is_Some_2 seen t) as [b Hb]; [by rewrite Hlen|].
    rewrite (at_index_Ok _ _ _ Hb), bind_of_Ok. destruct b.
    + eexists. split; [done|]. split; [split; [|done]|].
      * split; cbn; try done. eapply chain_advance; [done|done|].
        apply Hmarks in Hb. cbn in Hb. rewrite elem_of_app. tauto.
      * unfold finish_measure, frames_left. cbn. rewrite Hdeg. lia.
    + rewrite set_index_Ok, bind_of_Ok by by rewrite Hlen. eexists. split; [done|].
      assert (~ marked seen t) as Hnew by (unfold marked; by rewrite Hb).
      rewrite Hmarks in Hnew. cbn in Hnew. split; [split|].
      * split; cbn.
        -- by rewrite length_insert.
        -- intros u. rewrite marked_insert, Hmarks by by rewrite Hlen. cbn. set_solver.
        -- constructor; [|done]. rewrite elem_of_cons in Hnew. rewrite elem_of_cons, elem_of_app. tauto.
        -- eapply chain_open; [done|done|tauto].
        -- by apply latest_open.
      * intros u Hu. cbn. apply marked_insert; [by rewrite Hlen|by right].
      * unfold finish_measure, frames_left. cbn. rewrite (unseen_mark _ seen t Hb). rewrite Hdeg. lia.
  - eexists. split; [done|]. apply lookup_ge_None in Ht.
    assert (forall u, edge graph v u -> exists k, k < i /\ neighbor graph v k u) as Hall.
    { intros u [k (ns' & Hns' & Hk)]%edge_neighbor. simplify_eq. exists k. split; [|by exists ns].
      apply lookup_lt_Some in Hk. lia. }
    split; [split; [|done]|].
    + split; cbn.
      * done.
      * intros u. rewrite Hmarks. cbn. set_solver.
      * cbn in Hnd. by rewrite app_assoc, (comm (++) _ [v]).
      * by eapply chain_close.
      * by eapply latest_close.
    + unfold finish_measure, frames_left. cbn. rewrite Hdeg. lia.
Qed.

(** Between two searches no frame is open. *)
Record between (st : list bool * list nat) : Prop := {
  between_length : length (fst st) = length graph;
  between_marks : forall v, marked (fst st) v <-> v ∈ snd st;
  between_nodup : NoDup (snd st);
  between_closed : closed graph (snd st);
  between_latest : latest graph (snd st) []
}.

Lemma finish_from_ok st start :
  between st -> start < length graph ->
  exists st', finish_from graph st start = Ok st' /\ between st' /\ start ∈ snd st' /\
    forall v, v ∈ snd st -> v ∈ snd st'.
Proof.
  intros [Hlen Hmarks Hnd Hcl Hlatest] Hstart. destruct st as [seen order]. cbn in *. unfold finish_from. cbn.
  destruct (lookup_lt_is_Some_2 seen start) as [b Hb]; [by rewrite Hlen|].
  rewrite (at_index_Ok _ _ _ Hb), bind_of_Ok. destruct b.
  { exists (seen, order). split; [done|]. split; [by split|]. split; [by apply Hmarks|done]. }
  unfold finish_order. rewrite set_index_Ok, bind_of_Ok by by rewrite Hlen.
  match goal with |- context [loop _ _ ?s] => set (st0 := s) end.
  assert (start ∉ order) as Hnew by (rewrite <- Hmarks; unfold marked; by rewrite Hb).
  destruct (loop_ends (fun st => searching st /\ forall v, v = start \/ marked seen v -> marked (finish_seen st) v)
    finish_measure (finish_step graph) (finish_fuel graph) st0)
    as ([stack seen' order'] & Hloop & [Hsearch Hgrows] & Hend).
  - intros st next [Hs Hg] Hstep. destruct (finish_step_ok st next Hs Hstep) as (st' & -> & [Hs' Hg'] & Hm).
    exists st'. split_and!; try done. intros v Hv. by apply Hg', Hg.
  - subst st0. split; [|intros v Hv; by apply marked_insert; [rewrite Hlen|]]. split; cbn.
    + by rewrite length_insert.
    + intros u. rewrite marked_insert, Hmarks by by rewrite Hlen. set_solver.
    + by constructor.
    + rewrite <- (app_nil_r order). apply chain_root; [done|].
      split; [done|..]; try by intros ? ?%not_elem_of_nil || (intros; lia).
      all: intros ? ? Hx; try (by apply not_elem_of_nil in Hx); lia.
    + by apply latest_open.
  - subst st0. unfold finish_measure, frames_left. cbn -[finish_fuel].
    pose proof (unseen_degree_le 2 graph seen Hlen) as Hle. rewrite (unseen_mark _ _ _ Hb) in Hle. unfold finish_fuel. cbn in *. lia.
  - rewrite Hloop, bind_of_Ok. cbn. exists (seen', order'). unfold finish_step in Hend. cbn in Hend.
    destruct stack as [|[v i] rest]; [|done]. destruct Hsearch as [Hlen' Hmarks' Hnd' Hchain' Hlatest']. cbn in *.
    split; [done|]. split.
    + split; cbn; [done| |done| |done].
      * intros v. rewrite Hmarks'. rewrite elem_of_nil. tauto.
      * by inversion Hchain'.
    + cbn in Hgrows. assert (forall v, v = start \/ v ∈ order -> v ∈ order') as Hin.
      { intros v Hv. rewrite <- Hmarks in Hv. apply Hgrows, Hmarks' in Hv as [?|Hv]; [done|].
        by apply not_elem_of_nil in Hv. }
      split; [apply Hin; by left|]. intros v Hv. apply Hin. by right.
Qed.
End FirstPass.

(** * The second pass *)

Section SecondPass.
Context (graph incoming : adjacency) (Hgraph : closed_graph graph).
Context (Hincoming : length incoming = length graph) (Hedges : forall u v, edge incoming v u <-> edge graph u v).

Section Collect.
Context (seen0 : list bool) (start : nat).
Context (Hlen0 : length seen0 = length graph) (Hstart : start < length graph) (Hnew : ~ marked seen0 start).

(** The nodes found so far are new and reach [start]. *)
Record collecting (done : list nat) (st : list nat * list bool) : Prop := {
  collecting_length : length (snd st) = length graph;
  collecting_marks : forall v, marked (snd st) v <-> marked seen0 v \/ v ∈ done ++ fst st;
  collecting_nodup : NoDup (done ++ fst st);
  collecting_new : forall v, v ∈ done ++ fst st -> ~ marked seen0 v;
  collecting_reach : forall v, v ∈ done ++ fst st -> reach graph v start
}.
(** All that leads to a collected node is marked. *)
Definition absorbed (done : list nat) (seen : list bool) : Prop :=
  forall v u, v ∈ done -> edge graph u v -> marked seen u.

Lemma push_unseen_ok done st t :
  collecting done st -> t < length graph -> reach graph t start ->
  exists st', push_unseen st t = Ok st' /\ collecting done st' /\ marked (snd st') t /\
    (forall v, marked (snd st) v -> marked (snd st') v) /\
    length (fst st') + unseen (fun _ => 1) (snd st') = length (fst st) + unseen (fun _ => 1) (snd st).
Proof.
  intros [Hlen Hmarks Hnd Hfresh Hreach] Ht Hts. destruct st as [stack seen]. cbn in *. unfold push_unseen. cbn.
  destruct (lookup_lt_is_Some_2 seen t) as [b Hb]; [by rewrite Hlen|].
  rewrite (at_index_Ok _ _ _ Hb), bind_of_Ok. destruct b.
  { exists (stack, seen). split_and!; try done. }
  rewrite set_index_Ok, bind_of_Ok by by rewrite Hlen. eexists. split; [done|].
  assert (~ marked seen t) as Hunmarked by (unfold marked; by rewrite Hb).
  rewrite Hmarks in Hunmarked. cbn. split.
  - split; cbn.
    + by rewrite length_insert.
    + intros v. rewrite marked_insert, Hmarks, !elem_of_app, elem_of_cons by by rewrite Hlen. tauto.
    + rewrite <- Permutation_middle. constructor; [tauto|done].
    + intros v. rewrite !elem_of_app, elem_of_cons. intros Hv ?. destruct (decide (v = t)) as [->|]; [tauto|].
      apply (Hfresh v); [rewrite elem_of_app; tauto|done].
    + intros v. rewrite !elem_of_app, elem_of_cons. intros Hv. destruct (decide (v = t)) as [->|]; [done|].
      apply Hreach. rewrite elem_of_app. tauto.
  - split_and!.
    + apply marked_insert; [by rewrite Hlen|by left].
    + intros v Hv. apply marked_insert; [by rewrite Hlen|by right].
    + rewrite (unseen_mark _ seen t Hb). lia.
Qed.

Definition collect_inv (st : collect_state) : Prop :=
  collecting (component st) (collect_stack st, collect_seen st) /\ absorbed (component st) (collect_seen st) /\
  start ∈ component st ++ collect_stack st.
Definition collect_measure (st : collect_state) : nat :=
  length (collect_stack st) + unseen (fun _ => 1) (collect_seen st).

Lemma collect_step_ok st next :
  collect_inv st -> collect_step incoming st = Some next ->
  exists st', next = Ok st' /\ collect_inv st' /\ collect_measure st' < collect_measure st.
Proof.
  destruct st as [stack seen comp]. unfold collect_inv, collect_step. cbn. intros (Hc & Habs & Hin).
  destruct stack as [|v rest]; [done|]. intros [= <-].
  pose proof Hc as [Hlen Hmarks Hnd Hfresh Hreach]. cbn in *.
  assert (v < length graph) as Hv.
  { rewrite <- Hlen. apply marked_lt, Hmarks. right. apply elem_of_app. right. left. }
  destruct (lookup_lt_is_Some_2 incoming v) as [ns Hns]; [by rewrite Hincoming|].
  rewrite (at_index_Ok _ _ _ Hns), bind_of_Ok.
  assert (forall u, u ∈ ns <-> edge graph u v) as Hns_edges.
  { intros u. rewrite <- Hedges. split; [intros Hu; by exists ns|]. intros (ns' & ? & ?). by simplify_eq. }
  assert (collecting (comp ++ [v]) (rest, seen)) as Hc'.
  { split; cbn; rewrite <- ?app_assoc; try done; by setoid_rewrite <- app_assoc. }
  destruct (for_each_progress (fun pre st' => collecting (comp ++ [v]) st' /\
      (forall u, u ∈ pre -> marked (snd st') u) /\ (forall u, marked seen u -> marked (snd st') u) /\
      length (fst st') + unseen (fun _ => 1) (snd st') = length rest + unseen (fun _ => 1) seen)
    push_unseen (rest, seen) (reverse ns)) as ([stack' seen'] & -> & Hp & Hall & Hmono & Hm).
  - split_and!; try done. by intros u ?%not_elem_of_nil.
  - intros pre t suf st Hsplit (Hcs & Hpre & Hmono & Hm).
    assert (edge graph t v) as Ht.
    { apply Hns_edges. rewrite <- (elem_of_reverse t ns), Hsplit. set_solver. }
    assert (t < length graph) as Htl.
    { destruct Ht as (ts & Hts & _). by eapply lookup_lt_Some. }
    assert (reach graph t start) as Hts.
    { etrans; [by apply edge_reach|]. apply Hreach. set_solver. }
    destruct (push_unseen_ok _ _ t Hcs Htl Hts) as (st' & -> & Hcs' & Hmt & Hmono' & Hm').
    exists st'. split; [done|]. split_and!; [done| |auto|lia].
    intros u [Hu|Hu%list_elem_of_singleton]%elem_of_app; [by apply Hmono', Hpre|by subst].
  - rewrite bind_of_Ok. cbn in *. eexists. split; [done|]. cbn. split_and!.
    + done.
    + intros w u [Hw|Hw%list_elem_of_singleton]%elem_of_app Hu.
      * apply Hmono. by eapply Habs.
      * subst w. apply Hall. by apply elem_of_reverse, Hns_edges.
    + apply elem_of_app. apply elem_of_app in Hin as [Hin|Hin]; [left; apply elem_of_app; by left|].
      apply elem_of_cons in Hin as [->|Hin]; [left; apply elem_of_app; right; by left|].
      assert (marked seen' start) as Hms by (apply Hmono, Hmarks; set_solver).
      apply (collecting_marks _ _ Hp) in Hms as [?|Hms]; [done|]. by apply elem_of_app in Hms.
    + unfold collect_measure. cbn. lia.
Qed.
End Collect.

(** Components found: whole, and marked. *)
Record components_ok (st : list bool * list (list nat)) : Prop := {
  components_length : length (fst st) = length graph;
  components_marks : forall v, marked (fst st) v <-> v ∈ concat (snd st);
  components_nodup : NoDup (concat (snd st));
  components_strong : forall c u w, c ∈ snd st -> u ∈ c -> w ∈ c <-> mutual graph u w;
  components_shape : Forall (fun c => c <> [] /\ StronglySorted Nat.lt c) (snd st)
}.
Lemma marked_mutual st u w : components_ok st -> marked (fst st) u -> mutual graph u w -> marked (fst st) w.
Proof.
  intros Hok Hu Hm. apply (components_marks _ Hok) in Hu as (c & Huc & Hc)%elem_of_concat.
  apply (components_marks _ Hok), elem_of_concat. exists c. split; [|done].
  by apply (components_strong _ Hok c u w).
Qed.

(** A node all of whose successors in the order are marked. *)
Lemma collected_mutual st order start suf v :
  components_ok st -> latest graph (order ++ start :: suf) [] -> NoDup (order ++ start :: suf) ->
  (forall u, u ∈ suf -> marked (fst st) u) -> v ∈ order ++ start :: suf ->
  ~ marked (fst st) v -> reach graph v start -> mutual graph v start.
Proof.
  intros Hok Hlatest Hnd Hsuf Hv Hnew Hreach.
  destruct (Hlatest v start Hv ltac:(set_solver) Hreach) as [(z & Hz & _)|(before & after & z & Heq & Hz & Hm)].
  { by apply not_elem_of_nil in Hz. }
  assert (after = suf) as ->.
  { apply NoDup_app in Hnd as (_ & Hdis & [Hs _]%NoDup_cons).
    assert (start ∉ order) as Ho by (intros Hin; by apply (Hdis start Hin); left).
    clear -Heq Hs Ho. revert before Heq. induction order as [|x order IH]; intros [|y before]; cbn; intros [=]; subst.
    - done.
    - exfalso. apply Hs. set_solver.
    - exfalso. apply Ho. by left.
    - apply (IH ltac:(set_solver) before). done. }
  apply elem_of_cons in Hz as [->|Hz]; [by apply mutual_sym|].
  exfalso. apply Hnew. eapply marked_mutual; [done|by apply Hsuf|done].
Qed.

Lemma collect_from_ok st order start suf :
  components_ok st -> latest graph (order ++ start :: suf) [] -> NoDup (order ++ start :: suf) ->
  (forall v, v ∈ order ++ start :: suf <-> v < length graph) -> (forall u, u ∈ suf -> marked (fst st) u) ->
  exists st', collect_from incoming st start = Ok st' /\ components_ok st' /\
    (forall u, u ∈ start :: suf -> marked (fst st') u).
Proof.
  intros Hok Hlatest Hnd Hall Hsuf. pose proof Hok as [Hlen Hmarks Hnodup Hstrong Hshape].
  destruct st as [seen comps]. cbn in *. unfold collect_from. cbn.
  assert (start < length graph) as Hstart by (apply Hall; set_solver).
  destruct (lookup_lt_is_Some_2 seen start) as [b Hb]; [by rewrite Hlen|].
  rewrite (at_index_Ok _ _ _ Hb), bind_of_Ok. destruct b.
  { exists (seen, comps). split; [done|]. split; [done|]. intros u [->|Hu]%elem_of_cons; [done|by apply Hsuf]. }
  rewrite set_index_Ok, bind_of_Ok by by rewrite Hlen.
  assert (~ marked seen start) as Hnew by (unfold marked; by rewrite Hb).
  match goal with |- context [loop _ _ ?s] => set (st0 := s) end.
  destruct (loop_ends (collect_inv seen start) collect_measure (collect_step incoming) (length incoming) st0)
    as ([stack seen' comp] & -> & (Hc & Habs & Hin) & Hend).
  - by apply collect_step_ok.
  - subst st0. unfold collect_inv. cbn. split_and!.
    + split; cbn.
      * by rewrite length_insert.
      * intros v. rewrite marked_insert, list_elem_of_singleton by by rewrite Hlen. tauto.
      * apply NoDup_singleton.
      * by intros v ->%list_elem_of_singleton.
      * by intros v ->%list_elem_of_singleton.
    + by intros v u ?%not_elem_of_nil.
    + by left.
  - subst st0. unfold collect_measure. cbn. rewrite Hincoming, <- Hlen.
    pose proof (unseen_le_length seen) as Hle. rewrite (unseen_mark _ _ _ Hb) in Hle. lia.
  - rewrite bind_of_Ok. cbn in *. unfold collect_step in Hend. cbn in Hend. destruct stack as [|]; [|done].
    rewrite app_nil_r in Hin. destruct Hc as [Hlen' Hmarks' Hnd' Hfresh Hreach]. cbn in *.
    rewrite app_nil_r in *.
    assert (forall v, v ∈ comp -> mutual graph v start) as Hmut.
    { intros v Hv. assert (v < length graph) as Hvl by (rewrite <- Hlen'; apply marked_lt, Hmarks'; tauto).
      eapply (collected_mutual (seen, comps) order start suf v); try done; [by apply Hall|by apply Hfresh|by apply Hreach]. }
    assert (forall v, v ∈ comp <-> mutual graph v start) as Hcomp.
    { intros v. split; [by apply Hmut|]. intros [Hvs Hsv].
      revert Hsv. revert v Hvs. refine (rtc_ind_l _ start _ _); [done|].
      intros v u Hvu Hus IH Hsv. assert (u ∈ comp) as Hu by (apply IH; etrans; [exact Hsv|by apply edge_reach]).
      pose proof (Habs u v Hu Hvu) as [Hv|?]%Hmarks'; [|done]. exfalso. apply Hnew.
      apply (marked_mutual (seen, comps) v start Hok Hv). split; [|done]. etrans; [by apply edge_reach|done]. }
    eexists. split; [done|]. split.
    + split; cbn.
      * done.
      * intros v. rewrite Hmarks', concat_app, elem_of_app, Hmarks. cbn. rewrite app_nil_r. unfold sort.
        by rewrite elem_of_sort_by.
      * rewrite concat_app. cbn. rewrite app_nil_r. apply NoDup_app. split_and!; [done| |].
        -- intros v Hv%Hmarks. unfold sort. rewrite elem_of_sort_by. intros Hv'. by apply (Hfresh v).
        -- unfold sort. by rewrite sort_by_perm.
      * intros c u w [Hc|Hc%list_elem_of_singleton]%elem_of_app Hu; [by apply (Hstrong c)|]. subst c.
        unfold sort in *. rewrite elem_of_sort_by in *. rewrite Hcomp. apply Hcomp in Hu. split; intros Hw.
        -- eapply mutual_trans; [done|by apply mutual_sym].
        -- eapply mutual_trans; [by apply mutual_sym|done].
      * apply Forall_app. split; [done|]. apply Forall_singleton. split.
        -- intros Hnil. apply (not_elem_of_nil start). rewrite <- Hnil. by apply elem_of_sort_by.
        -- by apply sort_nat_sorted.
    + cbn. intros u [->|Hu]%elem_of_cons; apply Hmarks'; [by right|left; by apply Hsuf].
Qed.
End SecondPass.

Lemma first_pass_ok (graph : adjacency) (Hgraph : closed_graph graph) :
  exists seen order,
    for_each (finish_from graph) (replicate (length graph) false, []) (seq 0 (length graph)) = Ok (seen, order) /\
    between graph (seen, order) /\ forall v, v ∈ order <-> v < length graph.
Proof.
  destruct (for_each_progress (fun pre st => between graph st /\ forall v, v ∈ pre -> v ∈ snd st)
    (finish_from graph) (replicate (length graph) false, []) (seq 0 (length graph)))
    as ([seen order] & Hrun & Hbetween & Hall).
  - split; [|by intros v ?%not_elem_of_nil]. split; cbn.
    + apply length_replicate.
    + intros v. split; [by intros ?%marked_replicate|by intros ?%not_elem_of_nil].
    + constructor.
    + by intros x u ?%not_elem_of_nil.
    + by intros x y ?%not_elem_of_nil.
  - intros pre start suf st Hsplit [Hb Hpre].
    assert (start ∈ seq 0 (length graph)) as Hs by (rewrite Hsplit; set_solver). apply elem_of_seq in Hs as [_ Hs].
    destruct (finish_from_ok graph Hgraph st start Hb Hs) as (st' & -> & Hb' & Hin & Hgrow).
    exists st'. split_and!; [done..|].
    intros v [Hv|Hv%list_elem_of_singleton]%elem_of_app; [by apply Hgrow, Hpre|by subst].
  - exists seen, order. split_and!; [done..|]. destruct Hbetween as [Hlen Hmarks _ _ _]. cbn in *. intros v. split.
    + intros Hv%Hmarks%marked_lt. by rewrite <- Hlen.
    + intros Hv. apply Hall, elem_of_seq. lia.
Qed.
Lemma second_pass_ok (graph incoming : adjacency) seen order :
  closed_graph graph -> length incoming = length graph -> (forall u v, edge incoming v u <-> edge graph u v) ->
  between graph (seen, order) -> (forall v, v ∈ order <-> v < length graph) ->
  exists seen' components,
    for_each (collect_from incoming) (replicate (length graph) false, []) (reverse order) = Ok (seen', components) /\
    components_ok graph (seen', components) /\ forall v, v < length graph -> marked seen' v.
Proof.
  intros Hgraph Hincoming Hedges [Hlen Hmarks Hnd Hcl Hlatest] Horder. cbn in *.
  destruct (for_each_progress (fun pre st => components_ok graph st /\ forall v, v ∈ pre -> marked (fst st) v)
    (collect_from incoming) (replicate (length graph) false, []) (reverse order))
    as ([seen' comps] & Hrun & Hok & Hall).
  - split; [|by intros v ?%not_elem_of_nil]. split; cbn.
    + apply length_replicate.
    + intros v. split; [by intros ?%marked_replicate|by intros ?%not_elem_of_nil].
    + constructor.
    + by intros c u w ?%not_elem_of_nil.
    + constructor.
  - intros pre start suf st Hsplit [Hok Hpre].
    assert (order = reverse suf ++ start :: reverse pre) as Ho.
    { rewrite <- (reverse_involutive order), Hsplit, reverse_app, reverse_cons, <- app_assoc. done. }
    destruct (collect_from_ok graph incoming Hgraph Hincoming Hedges st (reverse suf) start (reverse pre))
      as (st' & -> & Hok' & Hin); [done|by rewrite <- Ho|by rewrite <- Ho|by rewrite <- Ho| |].
    + intros u. rewrite elem_of_reverse. apply Hpre.
    + exists st'. split_and!; [done..|]. intros v Hv. apply Hin.
      rewrite elem_of_app, list_elem_of_singleton in Hv. rewrite elem_of_cons, elem_of_reverse. tauto.
  - exists seen', comps. split_and!; [done..|]. intros v Hv. by apply Hall, elem_of_reverse, Horder.
Qed.

Record partition_ok (graph : adjacency) (components : list (list nat)) : Prop := {
  partition_all : concat components ≡ₚ seq 0 (length graph);
  partition_shape : Forall (fun c => c <> [] /\ StronglySorted Nat.lt c) components;
  partition_strong : forall c u w, c ∈ components -> u ∈ c -> w ∈ c <-> mutual graph u w
}.
Lemma strongly_connected_components_ok (graph incoming : adjacency) :
  closed_graph graph -> length incoming = length graph -> (forall u v, edge incoming v u <-> edge graph u v) ->
  exists components, strongly_connected_components graph incoming = Ok components /\ partition_ok graph components.
Proof.
  intros Hgraph Hincoming Hedges. unfold strongly_connected_components.
  destruct (first_pass_ok graph Hgraph) as (seen & order & -> & Hbetween & Horder). rewrite bind_of_Ok.
  destruct (second_pass_ok graph incoming seen order) as (seen' & components & Hrun & [Hlen Hmarks Hnd Hstrong Hshape] & Hall);
    [done..|].
  cbn [fst snd] in *. rewrite Hrun, bind_of_Ok. exists components. split; [done|]. split; [|done|done].
  apply NoDup_Permutation; [done|apply NoDup_seq|]. intros v. rewrite <- Hmarks, elem_of_seq.
  split; [intros Hv%marked_lt; lia|]. intros Hv. apply Hall. lia.
Qed.

(** The components are exactly the strongly connected components.  On every
    graph whose edge indices are nodes, with the reversed edges as [incoming],
    the two searches end without an index out of bounds and return a partition
    of the nodes into non-empty sorted lists in which two nodes share a list
    exactly when each reaches the other. *)
Theorem strongly_connected_components_exact (graph incoming : adjacency)
    (Hgraph : closed_graph graph) (Hincoming : length incoming = length graph)
    (Hedges : forall u v, edge incoming v u <-> edge graph u v) :
  exists components, strongly_connected_components graph incoming = Ok components /\
    concat components ≡ₚ seq 0 (length graph) /\
    Forall (fun c => c <> [] /\ StronglySorted Nat.lt c) components /\
    forall c u w, c ∈ components -> u ∈ c -> w ∈ c <-> mutual graph u w.
Proof.
  destruct (strongly_connected_components_ok graph incoming) as (components & Hrun & [Hall Hshape Hstrong]); [done..|].
  by exists components.
Qed.

(** One goal for each edge of a concrete graph. *)
Ltac each_edge Hn Hin tac :=
  pose proof (lookup_lt_Some _ _ _ Hn) as Hlt; cbn in Hlt;
  match type of Hn with _ !! ?u = _ =>
    do 6 (destruct u; [injection Hn as <-; repeat (apply elem_of_cons in Hin as [->|Hin]; [tac|]);
                       by apply not_elem_of_nil in Hin|]); lia
  end.
Lemma ex_graph_ok :
  closed_graph ex_outgoing /\ (forall u v, edge ex_incoming v u <-> edge ex_outgoing u v).
Proof.
  split; [intros u v (ns & Hn & Hin)|intros u v; split; intros (ns & Hn & Hin)].
  - each_edge Hn Hin ltac:(cbn; lia).
  - each_edge Hn Hin ltac:(eexists; split; [reflexivity|set_solver]).
  - each_edge Hn Hin ltac:(eexists; split; [reflexivity|set_solver]).
Qed.
Lemma strongly_connected_components_exact_witness :
  mutual ex_outgoing 0 2 /\ ~ mutual ex_outgoing 2 3.
Proof.
  destruct (strongly_connected_components_exact ex_outgoing ex_incoming (proj1 ex_graph_ok) eq_refl (proj2 ex_graph_ok))
    as (components & Hrun & _ & _ & Hstrong).
  rewrite ex_components in Hrun. injection Hrun as <-. split.
  - apply (Hstrong [0; 1; 2]); set_solver.
  - intros H. apply (Hstrong [0; 1; 2]) in H; set_solver.
Defined.
