(* ===== verification/FlowProps.v ===== *)
(** Theorems about the searches of [GraphAlgorithms] over execution edges: the
    reachable set is exact, and the bounded flows are the first hundred of a
    recursive enumeration of all maximal simple paths within the depth. *)
From S2P Require Import Prelude Ordering GraphTypes GraphAlgorithms Digraph.
Local Open Scope nat_scope.

(** The graph of the execution edges. *)
Definition targets_of (execution : labelled) : adjacency := map (map fst) execution.

Lemma targets_of_lookup execution u ns :
  targets_of execution !! u = Some ns <-> exists ts, execution !! u = Some ts /\ ns = map fst ts.
Proof.
  unfold targets_of. change (map (map fst) execution) with (map fst <$> execution). rewrite list_lookup_fmap.
  destruct (execution !! u); cbn; naive_solver.
Qed.
Lemma targets_of_length execution : length (targets_of execution) = length execution.
Proof. apply length_map. Qed.
Lemma degree_targets execution u ts : execution !! u = Some ts -> degree (targets_of execution) u = length ts.
Proof.
  intros Hu. unfold degree. rewrite (proj2 (targets_of_lookup execution u (map fst ts))) by by exists ts.
  apply length_map.
Qed.
Lemma targets_of_edge execution u ts t :
  execution !! u = Some ts -> edge (targets_of execution) u t <-> t ∈ map fst ts.
Proof.
  intros Hu. split.
  - intros (ns & (ts' & ? & ->)%targets_of_lookup & Hin). by simplify_eq.
  - intros Hin. exists (map fst ts). split; [|done]. apply targets_of_lookup. by exists ts.
Qed.

(** * The reachable set *)

Section Reachable.
Context (execution : labelled) (entrypoints : list nat).
Context (Hgraph : closed_graph (targets_of execution)) (Hentry : Forall (fun e => e < length execution) entrypoints).

Definition from_entry (v : nat) : Prop := exists e, e ∈ entrypoints /\ reach (targets_of execution) e v.

Record reaching (st : reach_state) : Prop := {
  reaching_length : length (reachable st) = length execution;
  reaching_pending : forall v, v ∈ reach_pending st -> from_entry v /\ v < length execution;
  reaching_sound : forall v, marked (reachable st) v -> from_entry v;
  reaching_next : forall v u, marked (reachable st) v -> edge (targets_of execution) v u ->
    marked (reachable st) u \/ u ∈ reach_pending st;
  reaching_entry : forall e, e ∈ entrypoints -> marked (reachable st) e \/ e ∈ reach_pending st
}.
Definition reach_measure (st : reach_state) : nat :=
  length (reach_pending st) + unseen (fun v => 1 + degree (targets_of execution) v) (reachable st).

Lemma reach_step_ok st next :
  reaching st -> reach_step execution st = Some next ->
  exists st', next = Ok st' /\ reaching st' /\ reach_measure st' < reach_measure st.
Proof.
  destruct st as [pending seen]. unfold reach_step. cbn. intros [Hlen Hpend Hsound Hnext Hent].
  destruct pending as [|v rest]; [done|]. intros [= <-]. cbn in *.
  destruct (Hpend v ltac:(left)) as [Hv Hvl].
  destruct (lookup_lt_is_Some_2 seen v) as [b Hb]; [by rewrite Hlen|].
  rewrite (at_index_Ok _ _ _ Hb), bind_of_Ok. destruct b.
  { eexists. split; [done|]. split; [|unfold reach_measure; cbn; lia]. split; cbn; try done.
    - intros u Hu. apply Hpend. by right.
    - intros w u Hw Hwu. destruct (Hnext w u Hw Hwu) as [?|[->|?]%elem_of_cons]; [by left|by left|by right].
    - intros e He. destruct (Hent e He) as [?|[->|?]%elem_of_cons]; [by left|by left|by right]. }
  rewrite set_index_Ok, bind_of_Ok by by rewrite Hlen.
  destruct (lookup_lt_is_Some_2 execution v Hvl) as [ts Hts]. rewrite (at_index_Ok _ _ _ Hts), bind_of_Ok.
  assert (forall u, u ∈ reverse (map fst ts) <-> edge (targets_of execution) v u) as Hts_edges.
  { intros u. by rewrite elem_of_reverse, (targets_of_edge _ _ _ _ Hts). }
  eexists. split; [done|]. split.
  - split; cbn.
    + by rewrite length_insert.
    + intros u [Hu%Hts_edges|Hu]%elem_of_app; [|apply Hpend; by right]. split.
      * destruct Hv as (e & He & Hev). exists e. split; [done|]. etrans; [exact Hev|by apply edge_reach].
      * rewrite <- targets_of_length. by eapply Hgraph.
    + intros u [->|Hu]%marked_insert; [done|by apply Hsound|by rewrite Hlen].
    + intros w u Hw Hwu. rewrite marked_insert, elem_of_app by by rewrite Hlen.
      apply marked_insert in Hw as [->|Hw]; [|destruct (Hnext w u Hw Hwu) as [?|[->|?]%elem_of_cons]; tauto|by rewrite Hlen].
      right. left. by apply Hts_edges.
    + intros e He. rewrite marked_insert, elem_of_app by by rewrite Hlen.
      destruct (Hent e He) as [?|[->|?]%elem_of_cons]; tauto.
  - unfold reach_measure. cbn. rewrite (unseen_mark _ seen v Hb), (degree_targets _ _ _ Hts), length_app, length_reverse,
      length_map. lia.
Qed.

Lemma reachable_from_ok :
  exists marks, reachable_from execution entrypoints = Ok marks /\ length marks = length execution /\
    forall v, marked marks v <-> from_entry v.
Proof.
  unfold reachable_from. set (st0 := {| reach_pending := _; reachable := _ |}).
  destruct (loop_ends reaching reach_measure (reach_step execution) (reach_fuel execution entrypoints) st0)
    as ([pending marks] & -> & [Hlen Hpend Hsound Hnext Hent] & Hend).
  - apply reach_step_ok.
  - subst st0. split; cbn.
    + apply length_replicate.
    + intros v Hv. rewrite elem_of_reverse in Hv. rewrite Forall_forall in Hentry. split; [|by apply Hentry].
      exists v. split; [done|reflexivity].
    + by intros v ?%marked_replicate.
    + by intros v u ?%marked_replicate.
    + intros e He. right. by apply elem_of_reverse.
  - subst st0. unfold reach_measure, reach_fuel. cbn -[unseen]. rewrite length_reverse.
    pose proof (unseen_degree_le 1 (targets_of execution) (replicate (length execution) false)) as Hle.
    rewrite length_replicate, targets_of_length in Hle. specialize (Hle eq_refl).
    unfold degree_sum, targets_of in Hle. rewrite map_map in Hle.
    rewrite (map_ext (fun x => length (map fst x)) length) in Hle by (intros; apply length_map).
    fold (targets_of execution) in Hle. cbn -[unseen] in *. lia.
  - rewrite bind_of_Ok. unfold reach_step in Hend. cbn in *. destruct pending; [|done].
    exists marks. split_and!; [done..|]. intros v. split; [apply Hsound|]. intros (e & He & Hev).
    destruct (Hent e He) as [Hm|?%not_elem_of_nil]; [|done].
    clear He. induction Hev as [|x y z Hxy Hyz IH]; [done|].
    destruct (Hnext x y Hm Hxy) as [?|?%not_elem_of_nil]; [by apply IH|done].
Qed.
End Reachable.

(** The reachable set is exact: on execution edges whose targets are nodes,
    the search from the entry points ends and marks precisely the nodes some
    entry point leads to. *)
Theorem reachable_from_exact (execution : labelled) (entrypoints : list nat)
    (Hgraph : closed_graph (targets_of execution)) (Hentry : Forall (fun e => e < length execution) entrypoints) :
  exists marks, reachable_from execution entrypoints = Ok marks /\ length marks = length execution /\
    forall v, marks !! v = Some true <-> exists e, e ∈ entrypoints /\ reach (targets_of execution) e v.
Proof. by apply reachable_from_ok. Qed.

(** * Execution flows *)

#[local] Opaque MAX_EXECUTION_FLOWS MAX_EXECUTION_FLOW_DEPTH.

Section Flows.
Context (nodes : list StructuralGraphNode) (execution : labelled).

(** All maximal simple paths that extend [path] by at most [depth] edges, in
    depth-first order, with why each ends. *)
Fixpoint maximal (depth : nat) (path : path_so_far) : list (path_so_far * string) :=
  let targets := default [] (execution !! default 0 (last (fst path))) in
  match depth, open_targets targets (fst path) with
  | O, _ => [(path, "depth_limit"%string)]
  | S _, [] => [(path, if is_nil targets then "terminal"%string else "cycle_avoided"%string)]
  | S depth, next => concat (map (fun t => maximal depth (extend_path path t)) next)
  end.
Definition name_at (i : nat) : string := match nodes !! i with Some node => node_id node | None => "" end.
Definition flow_of (entrypoint : nat) (end_ : path_so_far * string) : StructuralGraphExecutionFlow := {|
  entrypoint_node_id := name_at entrypoint; flow_node_ids := map name_at (fst (fst end_));
  flow_edge_ids := snd (fst end_); terminal_reason := snd end_ |}.
Definition flows_below (entrypoint : nat) (path : path_so_far) : list StructuralGraphExecutionFlow :=
  map (flow_of entrypoint) (maximal (MAX_EXECUTION_FLOW_DEPTH - length (snd path)) path).
Definition flows_of (entrypoint : nat) : list StructuralGraphExecutionFlow :=
  flows_below entrypoint ([entrypoint], []).
Definition all_flows (entrypoints : list nat) : list StructuralGraphExecutionFlow :=
  concat (map flows_of entrypoints).

Context (Hgraph : closed_graph (targets_of execution)) (Hnodes : length nodes = length execution).

Record path_ok (path : path_so_far) : Prop := {
  path_nonempty : fst path <> [];
  path_indices : Forall (fun v => v < length execution) (fst path);
  path_depth : length (snd path) <= MAX_EXECUTION_FLOW_DEPTH
}.

Lemma maximal_nonempty depth path : maximal depth path <> [].
Proof.
  revert path. induction depth as [|depth IH]; intros path; cbn [maximal]; [done|].
  destruct (open_targets _ _) as [|t next]; [done|]. cbn. intros [H _]%app_eq_nil. by apply IH in H.
Qed.

Lemma build_flow_Ok entrypoint path reason :
  entrypoint < length execution -> path_ok path ->
  build_flow nodes entrypoint path reason = Ok (flow_of entrypoint (path, reason)).
Proof.
  intros He [_ Hind _]. unfold build_flow, flow_of, name_at. cbn.
  destruct (lookup_lt_is_Some_2 nodes entrypoint) as [entry Hentry]; [by rewrite Hnodes|].
  rewrite (at_index_Ok _ _ _ Hentry), bind_of_Ok, Hentry.
  assert (collect (fun index => node ← at_index nodes index; Ok (node_id node)) (fst path) =
    Ok (map (fun i => match nodes !! i with Some node => node_id node | None => ""%string end) (fst path))) as ->; [|done].
  induction Hind as [|v l Hv _ IH]; cbn; [done|].
  destruct (lookup_lt_is_Some_2 nodes v) as [node Hn]; [by rewrite Hnodes|].
  rewrite (at_index_Ok _ _ _ Hn). cbn. rewrite IH. cbn. by rewrite Hn.
Qed.

(** The flows still to come, and a measure of the work. *)
Definition flows_left (entrypoint : nat) (pending : list path_so_far) : list StructuralGraphExecutionFlow :=
  concat (map (flows_below entrypoint) pending).
#[local] Arguments flows_left : simpl never.
#[local] Arguments flows_below : simpl never.
Lemma flows_left_cons entrypoint path rest :
  flows_left entrypoint (path :: rest) = flows_below entrypoint path ++ flows_left entrypoint rest.
Proof. done. Qed.
Record flowing (entrypoint : nat) (total : list StructuralGraphExecutionFlow) (st : flow_state) : Prop := {
  flowing_paths : Forall path_ok (flow_pending st);
  flowing_total : if truncated st
    then flows st = take MAX_EXECUTION_FLOWS total /\ MAX_EXECUTION_FLOWS < length total
    else flows st ++ flows_left entrypoint (flow_pending st) = total /\
         length (flows st) <= MAX_EXECUTION_FLOWS
}.
Definition flow_measure (st : flow_state) : nat :=
  if truncated st then 0 else
  (S MAX_EXECUTION_FLOWS - length (flows st)) * (MAX_EXECUTION_FLOW_DEPTH + 2) +
  match flow_pending st with
  | [] => 0
  | path :: _ => S MAX_EXECUTION_FLOW_DEPTH - length (snd path)
  end.

Lemma flow_measure_pos path rest found :
  length (snd path) <= MAX_EXECUTION_FLOW_DEPTH ->
  0 < flow_measure {| flow_pending := path :: rest; flows := found; truncated := false |}.
Proof.
  intros Hdepth. unfold flow_measure. cbn -[Nat.mul]. apply Nat.add_pos_r. lia.
Qed.
Lemma extend_paths path next rest :
  foldl (fun pending t => extend_path path t :: pending) rest (reverse next) = map (extend_path path) next ++ rest.
Proof.
  revert rest. induction next as [|t next IH] using rev_ind; intros rest; [done|].
  rewrite reverse_snoc. cbn. rewrite IH, map_app, <- app_assoc. done.
Qed.
Lemma extend_path_ok path t targets :
  path_ok path -> last (fst path) = Some (default 0 (last (fst path))) ->
  execution !! default 0 (last (fst path)) = Some targets -> t ∈ open_targets targets (fst path) ->
  length (snd path) < MAX_EXECUTION_FLOW_DEPTH -> path_ok (extend_path path t).
Proof.
  intros [_ Hind _] _ Hts Ht%list_elem_of_In%filter_In Hd. destruct Ht as [Ht%list_elem_of_In _]. split; cbn.
  - by intros [_ ?]%app_eq_nil.
  - apply Forall_app. split; [done|]. apply Forall_singleton. rewrite <- targets_of_length. eapply Hgraph.
    apply (targets_of_edge _ _ _ _ Hts). by apply list_elem_of_fmap_2.
  - rewrite length_app. cbn. lia.
Qed.

Lemma flow_step_ok entrypoint total st next :
  entrypoint < length execution -> flowing entrypoint total st ->
  flow_step nodes execution entrypoint st = Some next ->
  exists st', next = Ok st' /\ flowing entrypoint total st' /\ flow_measure st' < flow_measure st.
Proof.
  intros He [Hpaths Htotal]. destruct st as [pending found cut]. unfold flow_step. cbn in *.
  destruct cut; [done|]. destruct pending as [|path rest]; [done|]. intros [= <-].
  destruct Htotal as [Htotal Hbound]. apply Forall_cons in Hpaths as [Hpath Hrest].
  destruct (Nat.leb_spec MAX_EXECUTION_FLOWS (length found)) as [Hfull|Hroom].
  { eexists. split; [done|]. split; [|apply flow_measure_pos, path_depth, Hpath].
    split; cbn; [done|].
    assert (length found = MAX_EXECUTION_FLOWS) as Hlen by lia.
    assert (flows_left entrypoint (path :: rest) <> []) as Hleft.
    { rewrite flows_left_cons. intros [H _]%app_eq_nil. by apply map_eq_nil, maximal_nonempty in H. }
    rewrite <- Htotal, <- Hlen, take_app_length, length_app. split; [done|].
    destruct (flows_left _ _); [done|cbn; lia]. }
  pose proof Hpath as [Hne Hind Hdepth]. destruct (last (fst path)) as [current|] eqn:Hlast;
    [|by apply last_None in Hlast].
  cbn [index_or_panic]. rewrite bind_of_Ok.
  assert (current < length execution) as Hcur.
  { rewrite Forall_forall in Hind. apply Hind. by apply last_Some_elem_of. }
  destruct (lookup_lt_is_Some_2 execution current Hcur) as [targets Hts].
  rewrite (at_index_Ok _ _ _ Hts), bind_of_Ok.
  assert (flows_below entrypoint path =
    (if (MAX_EXECUTION_FLOW_DEPTH <=? length (snd path)) || is_nil (open_targets targets (fst path))
     then [flow_of entrypoint (path, if MAX_EXECUTION_FLOW_DEPTH <=? length (snd path) then "depth_limit"%string
             else if is_nil targets then "terminal"%string else "cycle_avoided"%string)]
     else flows_left entrypoint (map (extend_path path) (open_targets targets (fst path))))) as Hbelow.
  { unfold flows_below, flows_left. destruct (Nat.leb_spec MAX_EXECUTION_FLOW_DEPTH (length (snd path))) as [Hd|Hd].
    - replace (_ - _) with 0 by lia. done.
    - destruct (MAX_EXECUTION_FLOW_DEPTH - length (snd path)) as [|depth] eqn:Hdep; [lia|].
      cbn [maximal]. rewrite Hlast. cbn [default]. unfold id. rewrite Hts. cbn [default]. unfold id.
      destruct (open_targets targets (fst path)) as [|t next] eqn:Hnext; [by destruct (is_nil targets)|].
      cbn [orb is_nil]. rewrite concat_map, !map_map. f_equal. apply map_ext. intros t'. unfold flows_below. do 2 f_equal.
      cbn. rewrite length_app. cbn. lia. }
  destruct (_ || _) eqn:Hstop.
  - rewrite (build_flow_Ok _ _ _ He Hpath), bind_of_Ok. eexists. split; [done|]. split.
    + split; cbn; [done|]. rewrite <- Htotal, flows_left_cons, Hbelow, <- app_assoc, length_app. cbn. split; [done|lia].
    + unfold flow_measure. cbn. rewrite length_app. cbn.
      destruct rest; cbn; nia.
  - apply orb_false_iff in Hstop as [Hd%Nat.leb_gt Hopen%is_nil_false]. eexists. split; [done|].
    rewrite extend_paths. split.
    + split; cbn.
      * apply Forall_app. split; [|done]. apply Forall_map, Forall_forall. intros t Ht.
        eapply (extend_path_ok path t targets); [done| | |exact Ht|exact Hd]; by rewrite Hlast.
      * rewrite <- Htotal, flows_left_cons, Hbelow. unfold flows_left. rewrite map_app, concat_app. split; [done|lia].
    + unfold flow_measure. cbn. destruct (open_targets targets (fst path)) as [|t next]; [done|]. cbn.
      rewrite length_app. cbn. lia.
Qed.

Lemma flows_from_ok before entrypoint :
  entrypoint < length execution ->
  flows_from nodes execution (take MAX_EXECUTION_FLOWS before, MAX_EXECUTION_FLOWS <? length before) entrypoint =
  Ok (take MAX_EXECUTION_FLOWS (before ++ flows_of entrypoint),
      MAX_EXECUTION_FLOWS <? length (before ++ flows_of entrypoint)).
Proof.
  intros He. unfold flows_from. cbn [fst snd]. destruct (Nat.ltb_spec MAX_EXECUTION_FLOWS (length before)) as [Hcut|Hroom].
  { rewrite take_app_le, length_app by lia. by rewrite (proj2 (Nat.ltb_lt MAX_EXECUTION_FLOWS _)) by lia. }
  set (st0 := {| flow_pending := _; flows := _; truncated := _ |}).
  destruct (loop_ends (flowing entrypoint (before ++ flows_of entrypoint)) flow_measure
    (flow_step nodes execution entrypoint) flow_fuel st0) as ([pending found cut] & -> & [Hpaths Htotal] & Hend).
  - intros st next. by apply flow_step_ok.
  - subst st0. split; cbn.
    + apply Forall_singleton. split; cbn; [done|by apply Forall_singleton|lia].
    + rewrite take_ge by done. unfold flows_left, flows_of. cbn. by rewrite app_nil_r.
  - subst st0. unfold flow_measure, flow_fuel. cbn. nia.
  - rewrite bind_of_Ok. unfold flow_step in Hend. cbn [flow_pending flows truncated] in *. destruct cut.
    + destruct Htotal as [-> Hlt]. by rewrite (proj2 (Nat.ltb_lt _ _) Hlt).
    + destruct pending; [|done]. destruct Htotal as [Htotal Hle]. unfold flows_left in Htotal. cbn in Htotal. rewrite app_nil_r in Htotal.
      rewrite <- Htotal. rewrite take_ge by done. by rewrite (proj2 (Nat.ltb_ge _ _) Hle).
Qed.

Lemma bounded_execution_flows_ok entrypoints :
  Forall (fun e => e < length execution) entrypoints ->
  bounded_execution_flows nodes execution entrypoints =
  Ok (take MAX_EXECUTION_FLOWS (all_flows entrypoints), MAX_EXECUTION_FLOWS <? length (all_flows entrypoints)).
Proof.
  intros Hentry. unfold bounded_execution_flows.
  destruct (for_each_progress (fun pre st =>
    st = (take MAX_EXECUTION_FLOWS (all_flows pre), MAX_EXECUTION_FLOWS <? length (all_flows pre)))
    (flows_from nodes execution) ([], false) entrypoints) as (st & -> & ->); [done| |done].
  intros pre e suf st Hsplit ->. eexists. split.
  - apply flows_from_ok. rewrite Forall_forall in Hentry. apply Hentry. rewrite Hsplit. set_solver.
  - unfold all_flows. rewrite map_app, concat_app. cbn. by rewrite app_nil_r.
Qed.

(** ** What the enumeration contains *)

(** One more edge, to a node not yet on the path. *)
Definition path_step (p q : path_so_far) : Prop :=
  exists v ts t, last (fst p) = Some v /\ execution !! v = Some ts /\ t ∈ ts /\ fst t ∉ fst p /\ q = extend_path p t.
(** A simple path of execution edges from [e]. *)
Definition execution_path (e : nat) : path_so_far -> Prop := rtc path_step ([e], []).
(** Why a flow ends where it does. *)
Definition path_ends (p : path_so_far) (reason : string) : Prop :=
  exists v ts, last (fst p) = Some v /\ execution !! v = Some ts /\
  if MAX_EXECUTION_FLOW_DEPTH <=? length (snd p) then reason = "depth_limit"%string
  else match ts with
       | [] => reason = "terminal"%string
       | _ => reason = "cycle_avoided"%string /\ Forall (fun t => fst t ∈ fst p) ts
       end.

Lemma elem_of_open_targets t ts path : t ∈ open_targets ts path <-> t ∈ ts /\ fst t ∉ path.
Proof.
  unfold open_targets. rewrite list_elem_of_In, filter_In, <- list_elem_of_In, negb_true_iff.
  by rewrite <- not_true_iff_false, elemb_true.
Qed.
Lemma path_step_depth p q : rtc path_step p q -> p = q \/ length (snd p) < length (snd q).
Proof.
  induction 1 as [p|p p' q (v & ts & t & _ & _ & _ & _ & ->) _ IH]; [by left|]. right.
  destruct IH as [<-|IH]; revert IH || idtac; cbn; rewrite length_app; cbn; lia.
Qed.
Lemma path_ok_last p : path_ok p -> exists v ts, last (fst p) = Some v /\ execution !! v = Some ts.
Proof.
  intros [Hne Hind _]. destruct (last (fst p)) as [v|] eqn:Hl; [|by apply last_None in Hl].
  rewrite Forall_forall in Hind.
  destruct (lookup_lt_is_Some_2 execution v) as [ts Hts]; [by apply Hind, last_Some_elem_of|]. by exists v, ts.
Qed.

Lemma path_step_open p q v ts :
  last (fst p) = Some v -> execution !! v = Some ts ->
  rtc path_step p q <-> p = q \/ exists t, t ∈ open_targets ts (fst p) /\ rtc path_step (extend_path p t) q.
Proof.
  intros Hl Hts. split.
  - intros [<-|(p' & (v' & ts' & t & ? & ? & ? & ? & ->) & Hrest)]%rtc_inv; [by left|right]. simplify_eq.
    exists t. by rewrite elem_of_open_targets.
  - intros [<-|(t & [Ht Hout]%elem_of_open_targets & Hrest)]; [done|].
    eapply rtc_l; [|exact Hrest]. by exists v, ts, t.
Qed.
Lemma path_ends_below p v ts reason :
  last (fst p) = Some v -> execution !! v = Some ts -> length (snd p) < MAX_EXECUTION_FLOW_DEPTH ->
  path_ends p reason <->
  open_targets ts (fst p) = [] /\ reason = if is_nil ts then "terminal"%string else "cycle_avoided"%string.
Proof.
  intros Hl Hts Hroom%Nat.leb_gt. unfold path_ends.
  assert (open_targets ts (fst p) = [] <-> Forall (fun t => fst t ∈ fst p) ts) as Hopen.
  { rewrite Forall_forall. split.
    - intros Hopen t Ht. destruct (decide (fst t ∈ fst p)) as [?|Hout]; [done|exfalso].
      apply (not_elem_of_nil t). rewrite <- Hopen. by apply elem_of_open_targets.
    - intros Hall. destruct (open_targets ts (fst p)) as [|t next] eqn:E; [done|exfalso].
      assert (t ∈ open_targets ts (fst p)) as [Ht Hout]%elem_of_open_targets by (rewrite E; left).
      by apply Hout, Hall. }
  rewrite Hopen. split.
  - intros (v' & ts' & ? & ? & Hr). simplify_eq. rewrite Hroom in Hr. destruct ts; naive_solver.
  - intros [Hall ->]. exists v, ts. rewrite Hroom. by destruct ts.
Qed.

Lemma elem_of_maximal depth p q reason :
  path_ok p -> depth = MAX_EXECUTION_FLOW_DEPTH - length (snd p) ->
  (q, reason) ∈ maximal depth p <->
  rtc path_step p q /\ length (snd q) <= MAX_EXECUTION_FLOW_DEPTH /\ path_ends q reason.
Proof.
  revert p. induction depth as [|depth IH]; intros p Hok Hdep; pose proof (path_depth _ Hok) as Hle;
    destruct (path_ok_last _ Hok) as (v & ts & Hl & Hts); cbn [maximal].
  { rewrite list_elem_of_singleton. split.
    - intros [= -> ->]. split_and!; [done|done|]. exists v, ts. by rewrite (proj2 (Nat.leb_le _ _)) by lia.
    - intros ([<-|Hlt]%path_step_depth & Hq & v' & ts' & _ & _ & Hr); [|lia].
      rewrite (proj2 (Nat.leb_le _ _)) in Hr by lia. by subst. }
  rewrite Hl. cbn [default]. unfold id. rewrite Hts. cbn [default]. unfold id.
  rewrite (path_step_open p q v ts Hl Hts).
  assert (forall t, t ∈ open_targets ts (fst p) -> (q, reason) ∈ maximal depth (extend_path p t) <->
    rtc path_step (extend_path p t) q /\ length (snd q) <= MAX_EXECUTION_FLOW_DEPTH /\ path_ends q reason) as Hext.
  { intros t Ht. apply IH; [|cbn; rewrite length_app; cbn; lia].
    eapply (extend_path_ok p t ts); [done|by rewrite Hl|by rewrite Hl|done|lia]. }
  pose proof (path_ends_below p v ts reason Hl Hts ltac:(lia)) as Hends.
  destruct (open_targets ts (fst p)) as [|t0 next].
  - rewrite list_elem_of_singleton. split.
    + intros [= -> ->]. split_and!; [by left|done|by apply Hends].
    + intros ([<-|(? & []%not_elem_of_nil & _)] & _ & [_ ->]%Hends). done.
  - rewrite elem_of_concat. split.
    + intros (l & Hin & (t & -> & Ht)%list_elem_of_fmap). apply (Hext t Ht) in Hin as (Hq & ? & ?).
      split_and!; [right; by exists t|done..].
    + intros ([<-|(t & Ht & Hrest)] & Hq & Hr); [by apply Hends in Hr as [? _]|].
      eexists. split; [by apply (Hext t Ht)|]. by apply (list_elem_of_fmap_2 (fun t => maximal depth (extend_path p t))).
Qed.
Lemma elem_of_all_flows entrypoints flow :
  Forall (fun e => e < length execution) entrypoints ->
  flow ∈ all_flows entrypoints <->
  exists e path reason, e ∈ entrypoints /\ execution_path e path /\
    length (snd path) <= MAX_EXECUTION_FLOW_DEPTH /\ path_ends path reason /\ flow = flow_of e (path, reason).
Proof.
  intros Hentry. rewrite Forall_forall in Hentry.
  assert (forall e, e ∈ entrypoints -> path_ok ([e], [])) as Hok.
  { intros e He. split; cbn; [done|by apply Forall_singleton, Hentry|lia]. }
  unfold all_flows, flows_of, flows_below. rewrite elem_of_concat. split.
  - intros (l & Hin & (e & -> & He)%list_elem_of_fmap). apply list_elem_of_fmap in Hin as ([path reason] & -> & Hin).
    apply elem_of_maximal in Hin; [|by apply Hok|done]. exists e, path, reason. tauto.
  - intros (e & path & reason & He & Hpath & Hle & Hends & ->).
    eexists. split; [|apply list_elem_of_fmap_2; exact He]. apply list_elem_of_fmap_2.
    apply elem_of_maximal; [by apply Hok|done|done].
Qed.
End Flows.

(** The bounded execution flows are exact: on execution edges whose
    targets are nodes, the search ends without a panic, and it returns the first
    hundred of a list that contains precisely the simple paths of at most
    eight execution edges from an entry point that end at the depth limit, at a
    node without execution edges or at one whose execution edges all return to
    the path, each with the reason it ends; the result is marked truncated
    precisely when that list is longer. *)
Theorem bounded_execution_flows_exact (nodes : list StructuralGraphNode) (execution : labelled)
    (entrypoints : list nat) (Hgraph : closed_graph (targets_of execution))
    (Hnodes : length nodes = length execution) (Hentry : Forall (fun e => e < length execution) entrypoints) :
  exists found, bounded_execution_flows nodes execution entrypoints =
      Ok (take MAX_EXECUTION_FLOWS found, MAX_EXECUTION_FLOWS <? length found) /\
    forall flow, flow ∈ found <->
      exists e path reason, e ∈ entrypoints /\ execution_path execution e path /\
        length (snd path) <= MAX_EXECUTION_FLOW_DEPTH /\ path_ends execution path reason /\
        flow = flow_of nodes e (path, reason).
Proof.
  exists (all_flows nodes execution entrypoints). split; [by apply bounded_execution_flows_ok|].
  intros flow. by apply elem_of_all_flows.
Qed.

(** * The example graph *)

(** Whether every index of a graph is one of a node. *)
Definition closedb (graph : adjacency) : bool := forallb (forallb (fun v => v <? length graph)) graph.
Lemma closedb_spec graph : closedb graph = true -> closed_graph graph.
Proof.
  intros Hc u v (ns & Hu & Hin). unfold closedb in Hc. rewrite forallb_forall in Hc.
  apply list_elem_of_lookup_2, list_elem_of_In, Hc in Hu. rewrite forallb_forall in Hu.
  by apply list_elem_of_In, Hu, Nat.ltb_lt in Hin.
Qed.

Lemma reachable_from_exact_witness :
  closed_graph (targets_of ex_execution) /\
  exists marks, reachable_from ex_execution [2] = Ok marks /\ length marks = 4 /\
    forall v, marks !! v = Some true <-> exists e, e ∈ [2] /\ reach (targets_of ex_execution) e v.
Proof.
  split; [by apply closedb_spec|].
  apply (reachable_from_exact ex_execution [2]); [by apply closedb_spec|repeat constructor].
Defined.
Lemma bounded_execution_flows_exact_witness :
  closed_graph (targets_of ex_execution) /\
  exists found, bounded_execution_flows ex_nodes ex_execution [0] = Ok (take 100 found, 100 <? length found) /\
    forall flow, flow ∈ found <->
      exists e path reason, e ∈ [0] /\ execution_path ex_execution e path /\
        length (snd path) <= 8 /\ path_ends ex_execution path reason /\ flow = flow_of ex_nodes e (path, reason).
Proof.
  split; [by apply closedb_spec|].
  apply (bounded_execution_flows_exact ex_nodes ex_execution [0]); [by apply closedb_spec|done|repeat constructor].
Defined.
