(* ===== verification/ArticulationProps.v ===== *)
(** [GraphAlgorithms.articulation_points] ends within its fuel and reads no
    vector out of bounds: its answer is a list of nodes. *)
From S2P Require Import Prelude Ordering GraphAlgorithms Digraph SccProps.
Local Open Scope nat_scope.

Section Lowlink.
Context (graph : adjacency) (Hgraph : closed_graph graph).

Definition found_marks (discovered : list nat) : list bool := map (fun d => negb (d =? 0)) discovered.

Record sized (st : lowlink_state) : Prop := {
  sized_discovered : length (discovered st) = length graph;
  sized_low : length (low st) = length graph;
  sized_parent : length (parent st) = length graph;
  sized_children : length (child_count st) = length graph;
  sized_points : length (articulation st) = length graph;
  sized_stack : Forall (fun f => fst f < length graph) (low_stack st);
  sized_parents : forall v p, parent st !! v = Some (Some p) -> p < length graph
}.
Definition lowlink_measure (st : lowlink_state) : nat :=
  unseen (fun v => 2 + degree graph v) (found_marks (discovered st)) + frames_left graph (low_stack st).

Lemma read_ok {A} (l : list A) v : length l = length graph -> v < length graph -> exists a, l !! v = Some a /\ at_index l v = Ok a.
Proof.
  intros Hlen Hv. destruct (lookup_lt_is_Some_2 l v) as [a Ha]; [by rewrite Hlen|]. exists a. split; [done|].
  by apply at_index_Ok.
Qed.
Lemma lower_ok low' v value :
  length low' = length graph -> v < length graph ->
  exists low'', lower low' v value = Ok low'' /\ length low'' = length graph.
Proof.
  intros Hlen Hv. unfold lower. destruct (read_ok low' v Hlen Hv) as (a & _ & ->).
  rewrite bind_of_Ok, set_index_Ok by by rewrite Hlen. eexists. split; [done|]. by rewrite length_insert.
Qed.
Lemma mark_ok points (b : bool) v :
  length points = length graph -> v < length graph ->
  exists points', (if b then set_index points v true else Ok points) = Ok points' /\ length points' = length graph.
Proof.
  intros Hlen Hv. destruct b; [|by eexists]. rewrite set_index_Ok by by rewrite Hlen. eexists. split; [done|].
  by rewrite length_insert.
Qed.
Lemma with_low_ok st stack low' points :
  sized st -> length low' = length graph -> length points = length graph ->
  Forall (fun f => fst f < length graph) stack -> frames_left graph stack < frames_left graph (low_stack st) ->
  exists st', Ok (with_low st stack low' points) = Ok st' /\ sized st' /\ lowlink_measure st' < lowlink_measure st.
Proof.
  intros [] ??? Hless. eexists. split; [done|]. split; [by split|].
  unfold lowlink_measure, with_low. cbn [discovered low_stack]. lia.
Qed.

(** A discovered node pays for its frame. *)
Lemma discover_ok st v stack parents children :
  sized st -> discovered st !! v = Some 0 -> length parents = length graph -> length children = length graph ->
  Forall (fun f => fst f < length graph) stack -> (forall u p, parents !! u = Some (Some p) -> p < length graph) ->
  exists st', discover st v stack parents children = Ok st' /\ sized st' /\
    lowlink_measure st' + 1 = unseen (fun v => 2 + degree graph v) (found_marks (discovered st)) + frames_left graph stack.
Proof.
  intros [Hd Hl Hp Hc Ha Hs Hpar] Hv Hparents Hchildren Hstack Hpar'.
  assert (v < length graph) as Hvl by (rewrite <- Hd; by eapply lookup_lt_Some). unfold discover.
  rewrite !set_index_Ok, !bind_of_Ok by by rewrite ?Hd, ?Hl. eexists. split; [done|]. split.
  - split; cbn; rewrite ?length_insert; try done. by constructor.
  - unfold lowlink_measure. cbn [discovered low_stack].
    assert (found_marks (discovered st) !! v = Some false) as Hmark.
    { unfold found_marks. change (map ?f ?l) with (f <$> l). by rewrite list_lookup_fmap, Hv. }
    rewrite (unseen_mark _ _ _ Hmark).
    assert (found_marks (<[v := S (time st)]> (discovered st)) = <[v := true]> (found_marks (discovered st))) as ->.
    { unfold found_marks. change (map ?f ?l) with (f <$> l). by rewrite list_fmap_insert. }
    unfold frames_left. cbn -[unseen]. lia.
Qed.

Lemma lowlink_step_ok st next :
  sized st -> lowlink_step graph st = Some next ->
  exists st', next = Ok st' /\ sized st' /\ lowlink_measure st' < lowlink_measure st.
Proof.
  intros Hsized. pose proof Hsized as [Hd Hl Hp Hc Ha Hs Hpar]. unfold lowlink_step.
  destruct (low_stack st) as [|[v i] rest] eqn:Hstack; [done|]. intros [= <-].
  apply Forall_cons in Hs as [Hv Hrest]. cbn in Hv.
  destruct (read_ok graph v eq_refl Hv) as (ns & Hns & ->). rewrite bind_of_Ok.
  assert (degree graph v = length ns) as Hdeg by (unfold degree; by rewrite Hns).
  assert (Forall (fun f => fst f < length graph) ((v, S i) :: rest)) as Hnext by by constructor.
  destruct (ns !! i) as [t|] eqn:Ht.
  - assert (i < length ns) as Hi by by eapply lookup_lt_Some.
    assert (frames_left graph ((v, S i) :: rest) < frames_left graph (low_stack st)) as Hless.
    { rewrite Hstack. unfold frames_left. cbn. rewrite Hdeg. lia. }
    assert (t < length graph) as Htl by (eapply Hgraph, neighbor_edge; by exists ns).
    destruct (read_ok (discovered st) t Hd Htl) as (d & Hdt & ->). rewrite bind_of_Ok.
    destruct (Nat.eqb_spec d 0) as [->|Hfound].
    + rewrite set_index_Ok, bind_of_Ok by by rewrite Hp.
      destruct (read_ok (child_count st) v Hc Hv) as (n & _ & ->). rewrite bind_of_Ok.
      rewrite set_index_Ok, bind_of_Ok by by rewrite Hc.
      edestruct (discover_ok st t ((v, S i) :: rest)) as (st' & -> & Hst' & Hm); [done..| | | | |].
      * by rewrite length_insert.
      * by rewrite length_insert.
      * done.
      * intros u p. rewrite list_lookup_insert. case_decide; [intros [= ->]; done|apply Hpar].
      * exists st'. split_and!; [done..|]. unfold lowlink_measure in *. lia.
    + destruct (read_ok (parent st) v Hp Hv) as (above & _ & ->). rewrite bind_of_Ok.
      case_bool_decide.
      * by apply with_low_ok.
      * destruct (lower_ok (low st) v d Hl Hv) as (low' & -> & Hlow). rewrite bind_of_Ok. by apply with_low_ok.
  - assert (frames_left graph rest < frames_left graph (low_stack st)) as Hless.
    { rewrite Hstack. unfold frames_left. cbn. lia. }
    destruct (read_ok (parent st) v Hp Hv) as (above & Habove & ->). rewrite bind_of_Ok. destruct above as [p|].
    + apply Hpar in Habove as Hpl. destruct (read_ok (low st) v Hl Hv) as (l & _ & ->). rewrite bind_of_Ok.
      destruct (lower_ok (low st) p l Hl Hpl) as (low' & -> & Hlow). rewrite bind_of_Ok.
      destruct (read_ok (parent st) p Hp Hpl) as (grand & _ & ->). rewrite bind_of_Ok.
      destruct (read_ok low' v Hlow Hv) as (l' & _ & ->). rewrite bind_of_Ok.
      destruct (read_ok (discovered st) p Hd Hpl) as (d & _ & ->). rewrite bind_of_Ok.
      destruct (mark_ok (articulation st) (is_some grand && (d <=? l')) p Ha Hpl) as (points & -> & Hpoints).
      rewrite bind_of_Ok. by apply with_low_ok.
    + destruct (read_ok (child_count st) v Hc Hv) as (n & _ & ->). rewrite bind_of_Ok.
      destruct (mark_ok (articulation st) (1 <? n) v Ha Hv) as (points & -> & Hpoints).
      rewrite bind_of_Ok. by apply with_low_ok.
Qed.

Lemma lowlink_from_ok st root :
  sized st -> root < length graph -> exists st', lowlink_from graph st root = Ok st' /\ sized st'.
Proof.
  intros Hsized Hroot. pose proof Hsized as [Hd Hl Hp Hc Ha Hs Hpar]. unfold lowlink_from.
  destruct (read_ok (discovered st) root Hd Hroot) as (d & Hdr & ->). rewrite bind_of_Ok.
  destruct (Nat.eqb_spec d 0) as [->|]; cbn [negb]; [|by eexists].
  destruct (discover_ok st root [] (parent st) (child_count st)) as (st1 & -> & Hst1 & Hm); [done..|by constructor|done|].
  rewrite bind_of_Ok.
  destruct (loop_ends sized lowlink_measure (lowlink_step graph) (finish_fuel graph) st1) as (st' & -> & Hst' & _).
  - apply lowlink_step_ok.
  - done.
  - assert (length (found_marks (discovered st)) = length graph) as Hmarks by (unfold found_marks; by rewrite length_map).
    pose proof (unseen_degree_le 2 graph _ Hmarks). unfold finish_fuel. unfold frames_left in Hm. cbn -[unseen] in Hm.
    unfold lowlink_measure in *. cbn -[unseen] in *. lia.
  - by exists st'.
Qed.

Lemma true_indices_lt i l v : v ∈ true_indices i l -> v < i + length l.
Proof.
  revert i. induction l as [|b l IH]; intros i; [by intros ?%not_elem_of_nil|]. cbn.
  destruct b; [intros [->|Hv%IH]%elem_of_cons|intros Hv%IH]; lia.
Qed.
Lemma articulation_points_ok :
  exists points, articulation_points graph = Ok points /\ Forall (fun v => v < length graph) points.
Proof.
  unfold articulation_points.
  destruct (for_each_progress (fun _ st => sized st) (lowlink_from graph)
    {| low_stack := []; discovered := replicate (length graph) 0; low := replicate (length graph) 0;
       parent := replicate (length graph) None; child_count := replicate (length graph) 0;
       articulation := replicate (length graph) false; time := 0 |} (seq 0 (length graph))) as (st & -> & Hst).
  - split; cbn; rewrite ?length_replicate; try done. by intros v p [? _]%lookup_replicate.
  - intros pre root suf st Hsplit Hst. apply lowlink_from_ok; [done|].
    assert (root ∈ seq 0 (length graph)) as Hr by (rewrite Hsplit; set_solver). apply elem_of_seq in Hr. lia.
  - rewrite bind_of_Ok. eexists. split; [done|]. apply Forall_forall. intros v Hv%true_indices_lt.
    by rewrite (sized_points st Hst) in Hv.
Qed.
End Lowlink.
