(* ===== verification/Analysis.v ===== *)
(** [src/crates/codevetter-core/src/commands/structural_graph/analysis.rs]: the
    analysis of a snapshot's trusted edges.  The algorithms on neighbour indices
    are in [GraphAlgorithms]; here are the construction of the index graph from
    nodes and edges, PageRank, the node metrics, the components with their
    edges, the split of the nodes by reachability, and the coverage record that
    says what the results may be trusted for.

    [usize] counts of list elements are [nat]; counts read from the snapshot's
    coverage are [N], summed modulo 2^64. *)
From S2P Require Import Prelude Ordering Entries RustText GraphTypes F64 GraphAlgorithms.
From stdpp Require Import pretty.
Local Open Scope nat_scope.

Definition STRUCTURAL_GRAPH_ANALYSIS_VERSION : string := "2".
Definition MAX_RANKED_METRICS : nat := 500.
Definition MAX_COMPONENTS : nat := 500.

(** ** Data *)

(** [types.rs] *)
Record LanguageCoverage : Type := {
  coverage_language : string;
  supported : bool;
  language_discovered_files : N;
  language_indexed_files : N;
  language_skipped_files : N;
  language_error_files : N
}.
Record StructuralGraphCoverage : Type := {
  discovered_files : N;
  indexed_files : N;
  skipped_files : N;
  error_files : N;
  generated_files : N;
  sensitive_files : N;
  binary_files : N;
  languages : list LanguageCoverage
}.
Definition default_coverage : StructuralGraphCoverage := {|
  discovered_files := 0; indexed_files := 0; skipped_files := 0; error_files := 0; generated_files := 0;
  sensitive_files := 0; binary_files := 0; languages := [] |}%N.

Record StructuralGraphAnalysisPolicy : Type := {
  algorithm_version : string;
  included_edge_kinds : list string;
  execution_edge_kinds : list string;
  included_trust : list GraphTrust;
  direction : string;
  max_ranked_metrics : nat;
  max_components : nat;
  max_execution_flows : nat;
  max_execution_flow_depth : nat
}.
Record StructuralGraphAnalysisCoverage : Type := {
  complete : bool;
  reachability_complete : bool;
  trusted_edge_count : nat;
  excluded_edge_count : nat;
  unresolved_endpoint_count : nat;
  gaps : list string;
  output_truncated : bool
}.
Record StructuralGraphNodeMetric : Type := {
  metric_node_id : string;
  in_degree : nat;
  out_degree : nat;
  total_degree : nat;
  degree_centrality : f64;
  pagerank : f64
}.
Record StructuralGraphComponent : Type := {
  component_id : string;
  component_node_ids : list string;
  component_edge_ids : list string;
  cyclic : bool
}.
Record StructuralGraphAlgorithmResults : Type := {
  node_metrics : list StructuralGraphNodeMetric;
  component_results : list StructuralGraphComponent;
  cycles : list StructuralGraphComponent;
  articulation_node_ids : list string;
  entrypoint_node_ids : list string;
  reachable_node_ids : list string;
  unreachable_node_ids : list string;
  execution_flows : list StructuralGraphExecutionFlow
}.

Definition default_analysis_policy : StructuralGraphAnalysisPolicy := {|
  algorithm_version := STRUCTURAL_GRAPH_ANALYSIS_VERSION; included_edge_kinds := [];
  execution_edge_kinds := []; included_trust := [Extracted; Inferred]; direction := "from_to";
  max_ranked_metrics := MAX_RANKED_METRICS; max_components := MAX_COMPONENTS;
  max_execution_flows := MAX_EXECUTION_FLOWS; max_execution_flow_depth := MAX_EXECUTION_FLOW_DEPTH |}.

(** ** Classification of edges and nodes *)

Definition is_algorithm_trusted (trust : GraphTrust) : bool :=
  match trust with Extracted | Inferred => true | Ambiguous | Legacy => false end.
Definition is_execution_edge_kind (kind : string) : bool :=
  elemb kind ["calls"; "invokes"; "invokes_command"; "routes_to"; "handles"; "dispatches"; "emits";
    "subscribes"; "schedules"; "executes"; "queries"; "reads"; "reads_from"; "writes"; "writes_to";
    "implemented_by"; "binds_to"; "depends_on"; "test_covers"]%string.
Definition is_entrypoint (node : StructuralGraphNode) : bool :=
  if elemb (node_kind node) ["entrypoint"; "route"; "command"; "tauri_command"; "job"; "event";
    "event_subscription"; "test"; "resolver"; "openapi_operation"; "graphql_operation"; "protobuf_rpc"]%string
  then true
  else if elemb (label node) ["main"; "__main__"]%string then true
  else match node_path node with
  | None => false
  | Some path =>
      let normalized := to_ascii_lowercase (replace_byte 92 47 path) in
      let file_name := last_piece (N.eqb 47) normalized in
      seqb (node_kind node) "file"
      && (elemb file_name ["main.rs"; "main.go"; "main.py"; "__main__.py"; "program.cs"]%string
          || str_contains "/bin/" normalized)
  end.

(** ** PageRank *)

Definition PAGERANK_ITERATIONS : nat := 40.
Definition PAGERANK_DAMPING : f64 := f64_literal 85 100.

(** What the nodes without targets hold, spread over all nodes. *)
Definition dangling_rank (outgoing : adjacency) (ranks : list f64) : outcome f64 :=
  held ← collect (fun p => at_index ranks (fst p))
           (List.filter (fun p => is_nil (snd p)) (enumerate_nat 0 outgoing));
  Ok (f64_div (f64_sum held) (f64_of_nat (length outgoing))).
Definition incoming_rank (outgoing : adjacency) (ranks : list f64) (sources : list nat) : outcome f64 :=
  shares ← collect (fun source =>
    rank ← at_index ranks source;
    targets ← at_index outgoing source;
    Ok (f64_div rank (f64_of_nat (length targets)))) sources;
  Ok (f64_sum shares).
Definition pagerank_round (outgoing incoming : adjacency) (ranks : list f64) : outcome (list f64) :=
  let count := length outgoing in
  let base := f64_div (f64_sub f64_one PAGERANK_DAMPING) (f64_of_nat count) in
  dangling ← dangling_rank outgoing ranks;
  for_each (fun next p =>
      share ← incoming_rank outgoing ranks (snd p);
      before ← at_index next (fst p);
      set_index next (fst p) (f64_add before (f64_mul PAGERANK_DAMPING share)))
    (replicate count (f64_add base (f64_mul PAGERANK_DAMPING dangling))) (enumerate_nat 0 incoming).
Fixpoint pagerank_rounds (rounds : nat) (outgoing incoming : adjacency) (ranks : list f64) : outcome (list f64) :=
  match rounds with
  | O => Ok ranks
  | S rounds =>
      next ← pagerank_round outgoing incoming ranks;
      let delta := f64_sum (zip_with (fun before after => f64_abs (f64_sub before after)) ranks next) in
      if f64_ltb delta (f64_literal 1 10000000000) then Ok next
      else pagerank_rounds rounds outgoing incoming next
  end.
Definition calculate_pagerank (outgoing incoming : adjacency) : outcome (list f64) :=
  let count := length outgoing in
  if count =? 0 then Ok [] else
  pagerank_rounds PAGERANK_ITERATIONS outgoing incoming (replicate count (f64_div f64_one (f64_of_nat count))).

(** ** The index graph *)

(** The position of the last node with each id, in the order of ids. *)
Definition order_nodes (nodes : list StructuralGraphNode) : list StructuralGraphNode :=
  sort_by (fun left right => cmp (node_id left) (node_id right)) nodes.
Definition index_nodes (ordered_nodes : list StructuralGraphNode) : BTreeMap string nat :=
  map_of_list (map (fun p => (node_id (snd p), fst p)) (enumerate_nat 0 ordered_nodes)).

(** A trusted edge with the indices of its endpoints. *)
Abbreviation indexed_edge := (nat * nat * StructuralGraphEdge)%type.
Record edge_selection : Type := {
  included_kinds : BTreeSet string;
  execution_kinds : BTreeSet string;
  trusted_edges : list indexed_edge;
  excluded_edges : nat;
  unresolved_endpoints : nat
}.
Definition select_edge (node_index : BTreeMap string nat) (st : edge_selection) (edge : StructuralGraphEdge)
    : edge_selection :=
  if negb (is_algorithm_trusted (edge_trust edge)) then
    {| included_kinds := included_kinds st; execution_kinds := execution_kinds st;
       trusted_edges := trusted_edges st; excluded_edges := S (excluded_edges st);
       unresolved_endpoints := unresolved_endpoints st |}
  else match map_get (from edge) node_index, map_get (to edge) node_index with
  | Some from_index, Some to_index =>
      {| included_kinds := set_insert (edge_kind edge) (included_kinds st);
         execution_kinds := if is_execution_edge_kind (edge_kind edge)
           then set_insert (edge_kind edge) (execution_kinds st) else execution_kinds st;
         trusted_edges := trusted_edges st ++ [(from_index, to_index, edge)];
         excluded_edges := excluded_edges st; unresolved_endpoints := unresolved_endpoints st |}
  | _, _ =>
      {| included_kinds := included_kinds st; execution_kinds := execution_kinds st;
         trusted_edges := trusted_edges st; excluded_edges := excluded_edges st;
         unresolved_endpoints := S (unresolved_endpoints st) |}
  end.
Definition select_edges (node_index : BTreeMap string nat) (edges : list StructuralGraphEdge) : edge_selection :=
  foldl (select_edge node_index)
    {| included_kinds := []; execution_kinds := []; trusted_edges := []; excluded_edges := 0;
       unresolved_endpoints := 0 |} edges.

(** [v[i].push(x)] *)
Definition push_at {A} (l : list (list A)) (i : nat) (x : A) : outcome (list (list A)) :=
  old ← at_index l i; set_index l i (old ++ [x]).

Record index_graph : Type := {
  outgoing : adjacency;
  incoming : adjacency;
  undirected : adjacency;
  execution : labelled
}.
Definition add_edge (g : index_graph) (e : indexed_edge) : outcome index_graph :=
  let '(from_index, to_index, edge) := e in
  outgoing' ← push_at (outgoing g) from_index to_index;
  incoming' ← push_at (incoming g) to_index from_index;
  undirected' ← push_at (undirected g) from_index to_index;
  undirected' ← push_at undirected' to_index from_index;
  execution' ← (if is_execution_edge_kind (edge_kind edge)
                then push_at (execution g) from_index (to_index, edge_id edge) else Ok (execution g));
  Ok {| outgoing := outgoing'; incoming := incoming'; undirected := undirected'; execution := execution' |}.
Definition sort_neighbors (graph : adjacency) : adjacency := map (fun neighbors => dedup (sort neighbors)) graph.
(** [sort_by] on the id of the target, then of the edge; the comparison reads
    the target's node. *)
Definition sort_targets (ordered_nodes : list StructuralGraphNode) (targets : list (nat * string))
    : outcome (list (nat * string)) :=
  keyed ← collect (fun t => node ← at_index ordered_nodes (fst t); Ok (node_id node, t)) targets;
  Ok (map snd (sort_by (fun left right => then_with (cmp (fst left) (fst right))
                                            (cmp (snd (snd left)) (snd (snd right)))) keyed)).
Definition build_index_graph (ordered_nodes : list StructuralGraphNode) (edges : list indexed_edge)
    : outcome index_graph :=
  let node_count := length ordered_nodes in
  g ← for_each add_edge
        {| outgoing := replicate node_count []; incoming := replicate node_count [];
           undirected := replicate node_count []; execution := replicate node_count [] |} edges;
  execution' ← collect (sort_targets ordered_nodes) (execution g);
  Ok {| outgoing := sort_neighbors (outgoing g); incoming := sort_neighbors (incoming g);
        undirected := sort_neighbors (undirected g); execution := execution' |}.

(** ** Results *)

(** [node_count.saturating_sub(1).saturating_mul(2).max(1)] *)
Definition degree_denominator (node_count : N) : N := N.max (N.min ((node_count - 1) * 2) usize_max) 1.
Definition node_metric (g : index_graph) (ranks : list f64) (denominator : f64)
    (p : nat * StructuralGraphNode) : outcome StructuralGraphNodeMetric :=
  incoming' ← at_index (incoming g) (fst p);
  outgoing' ← at_index (outgoing g) (fst p);
  let total := length incoming' + length outgoing' in
  Ok {| metric_node_id := node_id (snd p); in_degree := length incoming'; out_degree := length outgoing';
        total_degree := total; degree_centrality := f64_div (f64_of_nat total) denominator;
        pagerank := default f64_zero (ranks !! fst p) |}.
Definition compare_metrics (left right : StructuralGraphNodeMetric) : comparison :=
  then_with (f64_total_cmp (pagerank right) (pagerank left))
    (then_with (Nat.compare (total_degree right) (total_degree left))
      (cmp (metric_node_id left) (metric_node_id right))).
Definition rank_nodes (ordered_nodes : list StructuralGraphNode) (g : index_graph)
    : outcome (list StructuralGraphNodeMetric) :=
  ranks ← calculate_pagerank (outgoing g) (incoming g);
  let denominator := f64_of_Z (Z.of_N (degree_denominator (len ordered_nodes))) in
  metrics ← collect (node_metric g ranks denominator) (enumerate_nat 0 ordered_nodes);
  Ok (sort_by compare_metrics metrics).

(** [nodes[index].id.clone()] for each index *)
Definition ids_at (nodes : list StructuralGraphNode) (indices : list nat) : outcome (list string) :=
  collect (fun index => node ← at_index nodes index; Ok (node_id node)) indices.
Definition UNIT_SEPARATOR : string := String (char_of 31) EmptyString.
Definition build_component (nodes : list StructuralGraphNode) (p : list nat * list string)
    : outcome StructuralGraphComponent :=
  node_ids ← ids_at nodes (fst p);
  Ok {| component_id := stable_graph_id "scc" (String.concat UNIT_SEPARATOR node_ids);
        component_node_ids := node_ids; component_edge_ids := snd p;
        cyclic := (1 <? length node_ids) || negb (is_nil (snd p)) |}.
(** [component_by_node]: the position of each node's component. *)
Definition component_of_nodes (node_count : nat) (components : list (list nat)) : outcome (list nat) :=
  for_each (fun owner p => for_each (fun owner node_index => set_index owner node_index (fst p)) owner (snd p))
    (replicate node_count 0) (enumerate_nat 0 components).
Definition add_component_edge (owner : list nat) (edge_ids : list (list string)) (e : indexed_edge)
    : outcome (list (list string)) :=
  let '(from_index, to_index, edge) := e in
  component_index ← at_index owner from_index;
  other ← at_index owner to_index;
  if component_index =? other then push_at edge_ids component_index (edge_id edge) else Ok edge_ids.
(** The components in the order of their first node's id, which the sort reads. *)
Definition collect_components (ordered_nodes : list StructuralGraphNode) (edges : list indexed_edge)
    (g : index_graph) : outcome (list StructuralGraphComponent) :=
  component_indices ← strongly_connected_components (outgoing g) (incoming g);
  owner ← component_of_nodes (length ordered_nodes) component_indices;
  edge_ids ← for_each (add_component_edge owner) (replicate (length component_indices) []) edges;
  components ← collect (build_component ordered_nodes) (zip component_indices (map sort edge_ids));
  keyed ← collect (fun c => first ← at_index (component_node_ids c) 0; Ok (first, c)) components;
  Ok (map snd (sort_by (fun left right => cmp (fst left) (fst right)) keyed)).

Definition entrypoint_indices (ordered_nodes : list StructuralGraphNode) : list nat :=
  map fst (List.filter (fun p => is_entrypoint (snd p)) (enumerate_nat 0 ordered_nodes)).
(** The ids of the nodes the marks hold for, and of the others. *)
Definition split_by_marks (ordered_nodes : list StructuralGraphNode) (reachable : list bool)
    : outcome (list string * list string) :=
  for_each (fun st p =>
      mark ← at_index reachable (fst p);
      Ok (if (mark : bool) then (fst st ++ [node_id (snd p)], snd st)
          else (fst st, snd st ++ [node_id (snd p)])))
    ([], []) (enumerate_nat 0 ordered_nodes).

(** ** Gaps *)

Definition wrapping_sum (l : list N) : N := foldl (fun a b => (a + b) mod (u64_max + 1))%N 0%N l.
Definition unsupported_files (coverage : StructuralGraphCoverage) : N :=
  wrapping_sum (map language_discovered_files (List.filter (fun l => negb (supported l)) (languages coverage))).
(** [format!] of a name and a count *)
Definition counted (name : string) (count : N) : string := (name ++ ":" ++ pretty count)%string.
Definition snapshot_gaps (coverage : StructuralGraphCoverage) (snapshot_truncated : bool) : list string :=
  when snapshot_truncated "snapshot_truncated"%string
  ++ when (indexed_files coverage <? discovered_files coverage)%N
       (counted "files_not_indexed" (discovered_files coverage - indexed_files coverage))
  ++ when (0 <? skipped_files coverage)%N (counted "skipped_files" (skipped_files coverage))
  ++ when (0 <? error_files coverage)%N (counted "error_files" (error_files coverage))
  ++ when (0 <? unsupported_files coverage)%N (counted "unsupported_language_files" (unsupported_files coverage)).
Definition dynamic_references (nodes : list StructuralGraphNode) : nat :=
  length (List.filter (fun node => seqb (node_kind node) "dynamic_reference") nodes).
Definition graph_gaps (nodes : list StructuralGraphNode) (selection : edge_selection) (entrypoints : list nat)
    : list string :=
  when (0 <? unresolved_endpoints selection)
    (counted "unresolved_endpoints" (N.of_nat (unresolved_endpoints selection)))
  ++ when (0 <? excluded_edges selection)
       (counted "untrusted_edges_excluded" (N.of_nat (excluded_edges selection)))
  ++ when (0 <? dynamic_references nodes) (counted "dynamic_references" (N.of_nat (dynamic_references nodes)))
  ++ when (is_nil entrypoints) "no_qualified_entrypoints"%string.

(** ** The analysis *)

(** What the algorithms found, before it is limited. *)
Record analysis_findings : Type := {
  all_metrics : list StructuralGraphNodeMetric;
  all_components : list StructuralGraphComponent;
  cut_ids : list string;
  entrypoints : list nat;
  entry_ids : list string;
  divided : list string * list string;
  found_flows : list StructuralGraphExecutionFlow * bool
}.
Definition cyclic_components (found : analysis_findings) : list StructuralGraphComponent :=
  List.filter cyclic (all_components found).
Definition is_output_truncated (found : analysis_findings) : bool :=
  (MAX_RANKED_METRICS <? length (all_metrics found)) || (MAX_COMPONENTS <? length (all_components found))
  || (MAX_COMPONENTS <? length (cyclic_components found)) || (MAX_RANKED_METRICS <? length (fst (divided found)))
  || (MAX_RANKED_METRICS <? length (snd (divided found))) || snd (found_flows found).
Definition analysis_gaps (nodes : list StructuralGraphNode) (selection : edge_selection)
    (found : analysis_findings) (snapshot_coverage : StructuralGraphCoverage) (snapshot_truncated : bool)
    : list string :=
  dedup (sort (snapshot_gaps snapshot_coverage snapshot_truncated
    ++ graph_gaps nodes selection (entrypoints found)
    ++ when (is_output_truncated found) "analysis_output_limited"%string)).
Definition limit_results (nodes : list StructuralGraphNode) (selection : edge_selection)
    (found : analysis_findings) (snapshot_coverage : StructuralGraphCoverage) (snapshot_truncated : bool)
    : StructuralGraphAnalysisPolicy * StructuralGraphAnalysisCoverage * StructuralGraphAlgorithmResults :=
  let all_gaps := analysis_gaps nodes selection found snapshot_coverage snapshot_truncated in
  ({| algorithm_version := algorithm_version default_analysis_policy;
      included_edge_kinds := included_kinds selection; execution_edge_kinds := execution_kinds selection;
      included_trust := included_trust default_analysis_policy; direction := direction default_analysis_policy;
      max_ranked_metrics := max_ranked_metrics default_analysis_policy;
      max_components := max_components default_analysis_policy;
      max_execution_flows := max_execution_flows default_analysis_policy;
      max_execution_flow_depth := max_execution_flow_depth default_analysis_policy |},
   {| complete := is_nil all_gaps; reachability_complete := is_nil all_gaps;
      trusted_edge_count := length (trusted_edges selection); excluded_edge_count := excluded_edges selection;
      unresolved_endpoint_count := unresolved_endpoints selection; gaps := all_gaps;
      output_truncated := is_output_truncated found |},
   {| node_metrics := take MAX_RANKED_METRICS (all_metrics found);
      component_results := take MAX_COMPONENTS (all_components found);
      cycles := take MAX_COMPONENTS (cyclic_components found);
      articulation_node_ids := cut_ids found; entrypoint_node_ids := entry_ids found;
      reachable_node_ids := take MAX_RANKED_METRICS (fst (divided found));
      unreachable_node_ids := take MAX_RANKED_METRICS (snd (divided found));
      execution_flows := fst (found_flows found) |}).
Definition run_algorithms (ordered_nodes : list StructuralGraphNode) (trusted : list indexed_edge)
    : outcome analysis_findings :=
  g ← build_index_graph ordered_nodes trusted;
  metrics ← rank_nodes ordered_nodes g;
  components ← collect_components ordered_nodes trusted g;
  cut_points ← articulation_points (undirected g);
  cut_ids ← ids_at ordered_nodes cut_points;
  let entrypoints := entrypoint_indices ordered_nodes in
  marks ← reachable_from (execution g) entrypoints;
  divided ← split_by_marks ordered_nodes marks;
  found ← bounded_execution_flows ordered_nodes (execution g) entrypoints;
  entry_ids ← ids_at ordered_nodes entrypoints;
  Ok {| all_metrics := metrics; all_components := components; cut_ids := cut_ids; entrypoints := entrypoints;
        entry_ids := entry_ids; divided := divided; found_flows := found |}.
Definition sort_edges (edges : list indexed_edge) : list indexed_edge :=
  sort_by (fun left right => cmp (edge_id (snd left)) (edge_id (snd right))) edges.

Definition analyze_trusted_algorithms (nodes : list StructuralGraphNode) (edges : list StructuralGraphEdge)
    (snapshot_coverage : StructuralGraphCoverage) (snapshot_truncated : bool)
    : outcome (StructuralGraphAnalysisPolicy * StructuralGraphAnalysisCoverage * StructuralGraphAlgorithmResults) :=
  let ordered_nodes := order_nodes nodes in
  let selection := select_edges (index_nodes ordered_nodes) edges in
  found ← run_algorithms ordered_nodes (sort_edges (trusted_edges selection));
  Ok (limit_results nodes selection found snapshot_coverage snapshot_truncated).

(** The graph of the first unit test of [analysis.rs]. *)
Definition ex_kind_node (id kind : string) : StructuralGraphNode := {|
  node_id := id; node_kind := kind; label := id; qualified_name := None; node_path := Some ("apps/" ++ id)%string;
  detail := None; language := None; community_id := None; node_trust := Extracted; node_origin := OSyntax;
  node_sources := [] |}.
Definition ex_edge (from to : string) : StructuralGraphEdge := {|
  edge_id := (from ++ ":" ++ to)%string; from := from; to := to; edge_kind := "calls"; evidence := "fixture";
  edge_trust := Inferred; edge_origin := OResolution; edge_sources := []; candidates := [] |}.
Definition ex_graph_nodes : list StructuralGraphNode :=
  [ex_kind_node "entry" "route"; ex_kind_node "a" "function"; ex_kind_node "b" "function";
   ex_kind_node "c" "function"; ex_kind_node "isolated" "function"]%string.
Definition ex_graph_edges : list StructuralGraphEdge :=
  [ex_edge "entry" "a"; ex_edge "a" "b"; ex_edge "b" "c"; ex_edge "c" "a"]%string.
Definition ex_coverage : StructuralGraphCoverage := {|
  discovered_files := 5; indexed_files := 5; skipped_files := 0; error_files := 0; generated_files := 0;
  sensitive_files := 0; binary_files := 0; languages := [] |}%N.
Example ex_analysis :
  (r ← analyze_trusted_algorithms ex_graph_nodes ex_graph_edges ex_coverage false;
   let '(policy, coverage, algorithms) := r in
   Ok (included_edge_kinds policy, complete coverage, map component_node_ids (cycles algorithms),
       articulation_node_ids algorithms, reachable_node_ids algorithms, unreachable_node_ids algorithms,
       map metric_node_id (node_metrics algorithms))) =
  Ok (["calls"], true, [["a"; "b"; "c"]], ["a"], ["a"; "b"; "c"; "entry"], ["isolated"],
      ["a"; "b"; "c"; "entry"; "isolated"])%string.
Proof. vm_compute. reflexivity. Qed.
Example ex_analysis_gaps :
  (r ← analyze_trusted_algorithms ex_graph_nodes (ex_edge "a" "missing" :: ex_graph_edges)%string
         default_coverage true;
   Ok (gaps (snd (fst r)))) = Ok ["snapshot_truncated"; "unresolved_endpoints:1"]%string.
Proof. vm_compute. reflexivity. Qed.
