(* ===== verification/AnalysisGraph.v ===== *)
(** The index graph of [Analysis]: what its vectors hold, in terms of the nodes
    and the trusted edges it is built from, and that building it never
    indexes out of bounds. *)
From S2P Require Import Prelude Ordering RustText GraphTypes GraphAlgorithms Digraph FlowProps Analysis.
Local Open Scope nat_scope.

(** * Lists *)

(** A collecting loop whose body succeeds collects the results. *)
Lemma collect_map {A B} (f : A -> outcome B) (g : A -> B) l :
  (forall x, x ∈ l -> f x = Ok (g x)) -> collect f l = Ok (map g l).
Proof.
  induction l as [|x l IH]; intros Hf; [done|]. cbn. rewrite (Hf x), bind_of_Ok by left.
  rewrite IH; [done|]. intros y Hy. apply Hf. by right.
Qed.
Lemma collect_total {A B} (f : A -> outcome B) l :
  (forall x, x ∈ l -> exists y, f x = Ok y) -> exists k, collect f l = Ok k /\ Forall2 (fun x y => f x = Ok y) l k.
Proof.
  intros Hf. assert (exists k, Forall2 (fun x y => f x = Ok y) l k) as [k Hk].
  { induction l as [|x l IH]; [by exists []|]. destruct (Hf x ltac:(left)) as [y Hy].
    destruct IH as [k Hk]; [intros z Hz; apply Hf; by right|]. exists (y :: k). by constructor. }
  exists k. split; [|done]. by apply collect_Ok.
Qed.

(** * Rows of a vector of vectors *)

Definition in_row {A} (rows : list (list A)) (i : nat) (x : A) : Prop := exists row, rows !! i = Some row /\ x ∈ row.
Lemma in_row_edge (graph : adjacency) u v : edge graph u v <-> in_row graph u v.
Proof. done. Qed.
Lemma not_in_row_empty {A} n i (x : A) : ~ in_row (replicate n []) i x.
Proof. intros (row & [-> _]%lookup_replicate & Hx). by apply not_elem_of_nil in Hx. Qed.

Lemma push_at_ok {A} (rows : list (list A)) i x :
  i < length rows -> exists rows', push_at rows i x = Ok rows' /\ length rows' = length rows /\
    forall j y, in_row rows' j y <-> in_row rows j y \/ (j = i /\ y = x).
Proof.
  intros Hi. destruct (lookup_lt_is_Some_2 rows i Hi) as [row Hrow]. unfold push_at.
  rewrite (at_index_Ok _ _ _ Hrow), bind_of_Ok, set_index_Ok by done. eexists. split; [done|].
  split; [by rewrite length_insert|]. intros j y. unfold in_row.
  setoid_rewrite list_lookup_insert. split.
  - intros (row' & Hj & Hy). case_decide as Hc.
    + destruct Hc as [<- _]. injection Hj as <-. apply elem_of_app in Hy as [Hy|Hy%list_elem_of_singleton].
      * left. by exists row.
      * by right.
    + left. by exists row'.
  - intros [(row' & Hj & Hy)|[-> ->]].
    + case_decide as Hc; [|by exists row']. destruct Hc as [<- _]. simplify_eq. eexists. split; [done|].
      apply elem_of_app. by left.
    + eexists. rewrite decide_True by done. split; [done|]. apply elem_of_app. right. by left.
Qed.

(** * Building the index graph *)

Section Build.
Context (ordered_nodes : list StructuralGraphNode) (edges : list indexed_edge).
Notation n := (length ordered_nodes).
Context (Hedges : forall u v e, (u, v, e) ∈ edges -> u < n /\ v < n).

(** Some of the edges goes from [u] to [v]. *)
Definition joins (es : list indexed_edge) (u v : nat) : Prop := exists e, (u, v, e) ∈ es.
Definition executes (es : list indexed_edge) (u : nat) (t : nat * string) : Prop :=
  exists e, (u, fst t, e) ∈ es /\ is_execution_edge_kind (edge_kind e) = true /\ snd t = edge_id e.

Record holds (es : list indexed_edge) (g : index_graph) : Prop := {
  holds_outgoing_length : length (outgoing g) = n;
  holds_incoming_length : length (incoming g) = n;
  holds_undirected_length : length (undirected g) = n;
  holds_execution_length : length (execution g) = n;
  holds_outgoing : forall u v, in_row (outgoing g) u v <-> joins es u v;
  holds_incoming : forall u v, in_row (incoming g) v u <-> joins es u v;
  holds_undirected : forall u v, in_row (undirected g) u v <-> joins es u v \/ joins es v u;
  holds_execution : forall u t, in_row (execution g) u t <-> executes es u t
}.

Lemma joins_snoc es u v e u' v' : joins (es ++ [(u, v, e)]) u' v' <-> joins es u' v' \/ (u' = u /\ v' = v).
Proof.
  unfold joins. setoid_rewrite elem_of_app. setoid_rewrite list_elem_of_singleton. split.
  - intros (e' & [He|[= -> -> ->]]); [left; by exists e'|by right].
  - intros [(e' & He)|[-> ->]]; [exists e'; by left|exists e; by right].
Qed.
Lemma executes_snoc es u v e u' t :
  executes (es ++ [(u, v, e)]) u' t <->
  executes es u' t \/ (is_execution_edge_kind (edge_kind e) = true /\ u' = u /\ t = (v, edge_id e)).
Proof.
  unfold executes. setoid_rewrite elem_of_app. setoid_rewrite list_elem_of_singleton. destruct t as [t id]. cbn. split.
  - intros (e' & [He|[= -> -> ->]] & Hk & ->); [left; by exists e'|right; by split_and!].
  - intros [(e' & He & Hk & ->)|(Hk & -> & [= -> ->])]; [exists e'; split_and!; [by left|done..]|].
    exists e. split_and!; [by right|done..].
Qed.

Lemma add_edge_ok es g u v e :
  holds es g -> u < n -> v < n -> exists g', add_edge g (u, v, e) = Ok g' /\ holds (es ++ [(u, v, e)]) g'.
Proof.
  intros [Ho Hi Hd Hx Hout Hin Hund Hexec] Hu Hv. unfold add_edge.
  destruct (push_at_ok (outgoing g) u v) as (out' & -> & Ho' & Hout'); [by rewrite Ho|]. rewrite bind_of_Ok.
  destruct (push_at_ok (incoming g) v u) as (in' & -> & Hi' & Hin'); [by rewrite Hi|]. rewrite bind_of_Ok.
  destruct (push_at_ok (undirected g) u v) as (und1 & -> & Hd1 & Hund1); [by rewrite Hd|]. rewrite bind_of_Ok.
  destruct (push_at_ok und1 v u) as (und2 & -> & Hd2 & Hund2); [by rewrite Hd1, Hd|]. rewrite bind_of_Ok.
  assert (exists x', (if is_execution_edge_kind (edge_kind e) then push_at (execution g) u (v, edge_id e)
      else Ok (execution g)) = Ok x' /\ length x' = n /\
    forall j t, in_row x' j t <-> executes (es ++ [(u, v, e)]) j t) as (x' & -> & Hx' & Hexec').
  { setoid_rewrite executes_snoc. setoid_rewrite <- Hexec.
    destruct (is_execution_edge_kind (edge_kind e)).
    - destruct (push_at_ok (execution g) u (v, edge_id e)) as (x' & -> & Hlen & Hrow); [by rewrite Hx|].
      exists x'. split_and!; [done|by rewrite Hlen|]. intros j t. rewrite Hrow. naive_solver.
    - exists (execution g). split_and!; [done..|]. intros j t. naive_solver. }
  rewrite bind_of_Ok. eexists. split; [done|].
  split; cbn; try congruence; intros u' v'; rewrite ?joins_snoc.
  - by rewrite Hout', Hout.
  - rewrite Hin', Hin. tauto.
  - rewrite Hund2, Hund1, Hund. tauto.
  - apply Hexec'.
Qed.

Lemma in_row_sort_neighbors graph u v : in_row (sort_neighbors graph) u v <-> in_row graph u v.
Proof.
  unfold in_row, sort_neighbors. change (map ?f ?l) with (f <$> l). setoid_rewrite list_lookup_fmap.
  destruct (graph !! u) as [row|]; cbn; [|naive_solver]. split.
  - intros (row' & [= <-] & Hv). exists row. split; [done|]. by apply elem_of_sort_dedup.
  - intros (row' & [= <-] & Hv). eexists. split; [done|]. by apply elem_of_sort_dedup.
Qed.
Lemma sort_targets_ok targets :
  (forall t, t ∈ targets -> fst t < n) ->
  exists targets', sort_targets ordered_nodes targets = Ok targets' /\ targets' ≡ₚ targets.
Proof.
  intros Ht. unfold sort_targets.
  rewrite (collect_map _ (fun t => (default ""%string (node_id <$> ordered_nodes !! fst t), t))).
  - rewrite bind_of_Ok. eexists. split; [done|]. rewrite sort_by_perm, map_map. cbn. by rewrite map_id.
  - intros t Hin. destruct (lookup_lt_is_Some_2 ordered_nodes (fst t)) as [node Hnode]; [by apply Ht|].
    by rewrite (at_index_Ok _ _ _ Hnode), Hnode.
Qed.

Lemma sort_neighbors_length graph : length (sort_neighbors graph) = length graph.
Proof. apply length_map. Qed.
Lemma sort_rows_ok rows :
  (forall u t, in_row rows u t -> fst t < n) ->
  exists rows', collect (sort_targets ordered_nodes) rows = Ok rows' /\ length rows' = length rows /\
    forall u t, in_row rows' u t <-> in_row rows u t.
Proof.
  intros Hrows. destruct (collect_total (sort_targets ordered_nodes) rows) as (rows' & Hrun & Hall).
  { intros targets [u Hrow]%list_elem_of_lookup.
    destruct (sort_targets_ok targets) as (targets' & Ht & _); [|by exists targets'].
    intros t Ht. apply (Hrows u t). by exists targets. }
  assert (forall u row row', rows !! u = Some row -> sort_targets ordered_nodes row = Ok row' -> row' ≡ₚ row) as Hperm.
  { intros u row row' Hrow Hsort. destruct (sort_targets_ok row) as (row2 & Heq & Hp); [|congruence].
    intros t Ht. apply (Hrows u t). by exists row. }
  exists rows'. split_and!; [done|by rewrite (Forall2_length _ _ _ Hall)|]. intros u t. split.
  - intros (row' & Hr' & Ht). destruct (Forall2_lookup_r _ _ _ _ _ Hall Hr') as (row & Hr & Hsort).
    exists row. split; [done|]. by rewrite <- (Hperm u row row').
  - intros (row & Hr & Ht). destruct (Forall2_lookup_l _ _ _ _ _ Hall Hr) as (row' & Hr' & Hsort).
    exists row'. split; [done|]. by rewrite (Hperm u row row').
Qed.

Lemma build_index_graph_ok : exists g, build_index_graph ordered_nodes edges = Ok g /\ holds edges g.
Proof.
  unfold build_index_graph.
  destruct (for_each_progress holds add_edge {| outgoing := replicate n []; incoming := replicate n [];
    undirected := replicate n []; execution := replicate n [] |} edges) as (g & -> & [Ho Hi Hd Hx Hout Hin Hund Hexec]).
  - assert (forall u v, ~ joins [] u v) as Hnone by by intros u v (e & ?%not_elem_of_nil).
    split; cbn; rewrite ?length_replicate; try done; intros u v.
    all: split; [by intros ?%not_in_row_empty|].
    + by intros ?%Hnone.
    + by intros ?%Hnone.
    + by intros [?%Hnone|?%Hnone].
    + by intros (e & ?%not_elem_of_nil & _).
  - intros pre [[u v] e] suf g Hsplit Hg. destruct (Hedges u v e) as [Hu Hv]; [rewrite Hsplit; set_solver|].
    by apply add_edge_ok.
  - rewrite bind_of_Ok. destruct (sort_rows_ok (execution g)) as (x' & -> & Hlen & Hrow).
    { intros u t (e & He & _)%Hexec. by destruct (Hedges _ _ _ He). }
    rewrite bind_of_Ok. eexists. split; [done|].
    split; cbn; rewrite ?sort_neighbors_length; try congruence; intros u v;
      rewrite ?in_row_sort_neighbors, ?Hrow; done.
Qed.
End Build.
