(* ===== verification/AnalysisProps.v ===== *)
(** The analysis of [Analysis] in terms of node ids: which edges it selects,
    that PageRank and the metrics read no vector out of bounds, and what its
    components and its reachable set are. *)
From S2P Require Import Prelude Ordering Entries RustText GraphTypes F64 GraphAlgorithms Digraph SccProps FlowProps Analysis AnalysisGraph.
Local Open Scope nat_scope.

(** * The selected edges *)

Definition resolve_edge (node_index : BTreeMap string nat) (e : StructuralGraphEdge) : option indexed_edge :=
  if is_algorithm_trusted (edge_trust e) then
    match map_get (from e) node_index, map_get (to e) node_index with
    | Some i, Some j => Some (i, j, e)
    | _, _ => None
    end
  else None.
Definition kind_of (e : indexed_edge) : string := edge_kind (snd e).
Definition excluded_edge (e : StructuralGraphEdge) : bool := negb (is_algorithm_trusted (edge_trust e)).
Definition unresolved_edge (node_index : BTreeMap string nat) (e : StructuralGraphEdge) : bool :=
  is_algorithm_trusted (edge_trust e) && negb (is_some (resolve_edge node_index e)).

Lemma select_edges_ok node_index edges :
  select_edges node_index edges = {|
    included_kinds := set_of_list (map kind_of (omap (resolve_edge node_index) edges));
    execution_kinds := set_of_list (List.filter is_execution_edge_kind
                         (map kind_of (omap (resolve_edge node_index) edges)));
    trusted_edges := omap (resolve_edge node_index) edges;
    excluded_edges := length (List.filter excluded_edge edges);
    unresolved_endpoints := length (List.filter (unresolved_edge node_index) edges) |}.
Proof.
  induction edges as [|e edges IH] using rev_ind; [done|].
  unfold select_edges in *. rewrite foldl_app, IH, omap_app, !List.filter_app, !length_app.
  assert (omap (resolve_edge node_index) [e] = match resolve_edge node_index e with Some r => [r] | None => [] end) as ->
    by (cbn; by destruct (resolve_edge node_index e)).
  assert (length (List.filter excluded_edge [e]) = if is_algorithm_trusted (edge_trust e) then 0 else 1) as ->
    by (cbn; unfold excluded_edge; by destruct (is_algorithm_trusted _)).
  assert (length (List.filter (unresolved_edge node_index) [e]) =
    if is_algorithm_trusted (edge_trust e) then if is_some (resolve_edge node_index e) then 0 else 1 else 0) as ->
    by (cbn; unfold unresolved_edge; destruct (is_algorithm_trusted _), (is_some _); done).
  cbn [foldl]. unfold select_edge. cbn [trusted_edges included_kinds execution_kinds excluded_edges unresolved_endpoints].
  remember (resolve_edge node_index e) as r eqn:Hr. unfold resolve_edge in Hr.
  destruct (is_algorithm_trusted (edge_trust e)); cbn [negb].
  - destruct (map_get (from e) node_index) as [i|]; [destruct (map_get (to e) node_index) as [j|]|]; subst r; cbn [is_some];
      rewrite ?app_nil_r, ?Nat.add_0_r, ?Nat.add_1_r; try done.
    rewrite !map_app, List.filter_app. cbn [map List.filter]. change (kind_of (i, j, e)) with (edge_kind e).
    rewrite set_of_list_snoc. destruct (is_execution_edge_kind (edge_kind e)); [by rewrite set_of_list_snoc|].
    by rewrite app_nil_r.
  - subst r. by rewrite !app_nil_r, !Nat.add_0_r, Nat.add_1_r.
Qed.

(** * Node ids and their indices *)

Lemma order_nodes_perm nodes : order_nodes nodes ≡ₚ nodes.
Proof. apply sort_by_perm. Qed.
Lemma elem_of_node_ids id nodes : id ∈ map node_id nodes <-> exists i node, order_nodes nodes !! i = Some node /\ node_id node = id.
Proof.
  rewrite <- (order_nodes_perm nodes) at 1. split.
  - intros (node & -> & [i Hi]%list_elem_of_lookup)%list_elem_of_fmap. by exists i, node.
  - intros (i & node & Hi & <-). apply list_elem_of_fmap_2. by eapply list_elem_of_lookup_2.
Qed.

Lemma index_nodes_sound ordered id i :
  map_get id (index_nodes ordered) = Some i -> exists node, ordered !! i = Some node /\ node_id node = id.
Proof.
  intros ([k node] & [= -> ->] & Hin%elem_of_enumerate)%map_of_list_elem%list_elem_of_fmap. by exists node.
Qed.
Lemma index_nodes_is_Some ordered i node :
  ordered !! i = Some node -> is_Some (map_get (node_id node) (index_nodes ordered)).
Proof.
  intros Hi. apply map_get_is_Some, map_of_list_keys. rewrite map_map. apply list_elem_of_fmap.
  exists (i, node). split; [done|]. by apply elem_of_enumerate.
Qed.
Lemma index_nodes_complete ordered i node :
  NoDup (map node_id ordered) -> ordered !! i = Some node -> map_get (node_id node) (index_nodes ordered) = Some i.
Proof.
  intros Hnd Hi. destruct (index_nodes_is_Some ordered i node Hi) as [j Hj]. rewrite Hj. f_equal.
  apply index_nodes_sound in Hj as (node' & Hj & Heq).
  apply (NoDup_lookup (map node_id ordered) j i (node_id node) Hnd); change (map ?f ?l) with (f <$> l);
    rewrite list_lookup_fmap; [by rewrite Hj; cbn; f_equal|by rewrite Hi].
Qed.

Section Selected.
Context (nodes : list StructuralGraphNode) (edges : list StructuralGraphEdge).
Definition ordered : list StructuralGraphNode := order_nodes nodes.
Definition selected : list indexed_edge := omap (resolve_edge (index_nodes ordered)) edges.

Lemma elem_of_selected u v e :
  (u, v, e) ∈ selected <-> e ∈ edges /\ is_algorithm_trusted (edge_trust e) = true /\
    map_get (from e) (index_nodes ordered) = Some u /\ map_get (to e) (index_nodes ordered) = Some v.
Proof.
  unfold selected. rewrite list_elem_of_omap. unfold resolve_edge. split.
  - intros (e' & He & Hr). destruct (is_algorithm_trusted _) eqn:Ht; [|done].
    destruct (map_get (from e') (index_nodes ordered)) eqn:Hf, (map_get (to e') (index_nodes ordered)) eqn:Hto;
      try done. injection Hr as <- <- <-.
    by split_and!.
  - intros (He & Ht & Hf & Hto). exists e. by rewrite Ht, Hf, Hto.
Qed.
Lemma selected_bounds u v e : (u, v, e) ∈ selected -> u < length ordered /\ v < length ordered.
Proof.
  intros (_ & _ & (a & Ha & _)%index_nodes_sound & (b & Hb & _)%index_nodes_sound)%elem_of_selected.
  by split; eapply lookup_lt_Some.
Qed.

(** A trusted edge leads from one node id to another. *)
Definition trusted_link (u v : string) : Prop :=
  exists e, e ∈ edges /\ is_algorithm_trusted (edge_trust e) = true /\ from e = u /\ to e = v /\
    u ∈ map node_id nodes /\ v ∈ map node_id nodes.
Definition execution_link (u v : string) : Prop :=
  exists e, e ∈ edges /\ is_algorithm_trusted (edge_trust e) = true /\
    is_execution_edge_kind (edge_kind e) = true /\ from e = u /\ to e = v /\
    u ∈ map node_id nodes /\ v ∈ map node_id nodes.

Context (Hids : NoDup (map node_id nodes)).

Lemma ordered_NoDup : NoDup (map node_id ordered).
Proof. unfold ordered. by rewrite order_nodes_perm. Qed.
Lemma elem_of_selected_ids i j a b e :
  ordered !! i = Some a -> ordered !! j = Some b ->
  (i, j, e) ∈ selected <-> e ∈ edges /\ is_algorithm_trusted (edge_trust e) = true /\ from e = node_id a /\ to e = node_id b.
Proof.
  intros Hi Hj. rewrite elem_of_selected. split.
  - intros (? & ? & (a' & ? & <-)%index_nodes_sound & (b' & ? & <-)%index_nodes_sound). by simplify_eq.
  - intros (? & ? & -> & ->). split_and!; [done..| |]; apply index_nodes_complete; auto using ordered_NoDup.
Qed.
Lemma ordered_ids i a : ordered !! i = Some a -> node_id a ∈ map node_id nodes.
Proof. intros Hi. apply elem_of_node_ids. by exists i, a. Qed.

Lemma joins_link i j a b :
  ordered !! i = Some a -> ordered !! j = Some b ->
  joins selected i j <-> trusted_link (node_id a) (node_id b).
Proof.
  intros Hi Hj. unfold joins, trusted_link. setoid_rewrite (elem_of_selected_ids i j a b); [|done..].
  pose proof (ordered_ids i a Hi). pose proof (ordered_ids j b Hj). naive_solver.
Qed.
Lemma executes_link i j a b :
  ordered !! i = Some a -> ordered !! j = Some b ->
  (exists id, executes selected i (j, id)) <-> execution_link (node_id a) (node_id b).
Proof.
  intros Hi Hj. unfold executes, execution_link. cbn. setoid_rewrite (elem_of_selected_ids i j a b); [|done..].
  pose proof (ordered_ids i a Hi). pose proof (ordered_ids j b Hj). naive_solver.
Qed.
End Selected.

(** ** Paths between ids and paths between indices *)

Section Naming.
Context (nodes : list StructuralGraphNode) (Hnd : NoDup (map node_id nodes)).
Context (R : nat -> nat -> Prop) (L : string -> string -> Prop).
Context (Hbound : forall i j, R i j -> i < length nodes /\ j < length nodes).
Context (Hlink : forall i j a b, nodes !! i = Some a -> nodes !! j = Some b -> R i j <-> L (node_id a) (node_id b)).
Context (Hids : forall u v, L u v -> u ∈ map node_id nodes /\ v ∈ map node_id nodes).

Lemma same_index i j a b : nodes !! i = Some a -> nodes !! j = Some b -> node_id a = node_id b -> i = j.
Proof.
  intros Hi Hj Heq. apply (NoDup_lookup (map node_id nodes) i j (node_id a) Hnd); change (map ?f ?l) with (f <$> l);
    rewrite list_lookup_fmap; [by rewrite Hi|rewrite Hj; cbn; by f_equal].
Qed.
Lemma node_at_id v : v ∈ map node_id nodes -> exists j b, nodes !! j = Some b /\ node_id b = v.
Proof. intros (b & -> & [j Hj]%list_elem_of_lookup)%list_elem_of_fmap. by exists j, b. Qed.

Lemma path_names i j a b :
  nodes !! i = Some a -> nodes !! j = Some b -> rtc R i j <-> rtc L (node_id a) (node_id b).
Proof.
  intros Hi Hj. split.
  - intros Hpath. revert a Hi. induction Hpath as [i|i k j Hik Hkj IH]; intros a Hi; [by simplify_eq|].
    destruct (lookup_lt_is_Some_2 nodes k) as [c Hk]; [by destruct (Hbound _ _ Hik)|].
    eapply rtc_l; [by eapply Hlink|by apply IH].
  - intros Hpath. remember (node_id a) as u eqn:Hu. remember (node_id b) as v eqn:Hv.
    revert i a Hi Hu. induction Hpath as [u|u w v Huw Hwv IH]; intros i a Hi ->.
    + by rewrite (same_index i j a b).
    + destruct (node_at_id w) as (k & c & Hk & <-); [by apply Hids in Huw as [_ ?]|].
      eapply rtc_l; [by eapply Hlink|by eapply IH].
Qed.
Lemma cycle_names i a : nodes !! i = Some a -> tc R i i <-> tc L (node_id a) (node_id a).
Proof.
  intros Hi. rewrite !tc_split. split.
  - intros (k & Hik & Hki). destruct (lookup_lt_is_Some_2 nodes k) as [c Hk]; [by destruct (Hbound _ _ Hik)|].
    exists (node_id c). split; [by eapply Hlink|by eapply path_names].
  - intros (w & Hw & Hrest). destruct (node_at_id w) as (k & c & Hk & <-); [by apply Hids in Hw as [_ ?]|].
    exists k. split; [by eapply Hlink|by eapply path_names].
Qed.
End Naming.
