(* ===== verification/AnalysisResults.v ===== *)
(** The results of [Analysis] on an index graph: PageRank and the metrics, the
    components with their edges, and the nodes divided by reachability. *)
From S2P Require Import Prelude Ordering Entries RustText GraphTypes F64 GraphAlgorithms Digraph SccProps FlowProps Analysis AnalysisGraph.
Local Open Scope nat_scope.

(** * PageRank and the metrics *)

Section Ranks.
Context (outgoing incoming : adjacency).
Context (Hlength : length incoming = length outgoing) (Hincoming : closed_graph incoming).

Lemma incoming_rank_ok ranks sources :
  length ranks = length outgoing -> Forall (fun v => v < length outgoing) sources ->
  exists share, incoming_rank outgoing ranks sources = Ok share.
Proof.
  intros Hlen Hs. rewrite Forall_forall in Hs. unfold incoming_rank.
  match goal with |- context [collect ?g sources] => destruct (collect_total g sources) as (shares & -> & _) end.
  - intros v Hv. destruct (lookup_lt_is_Some_2 ranks v) as [r Hr]; [rewrite Hlen; auto|].
    destruct (lookup_lt_is_Some_2 outgoing v) as [ts Ht]; [auto|].
    rewrite (at_index_Ok _ _ _ Hr), bind_of_Ok, (at_index_Ok _ _ _ Ht). by eexists.
  - by eexists.
Qed.
Lemma pagerank_round_ok ranks :
  length ranks = length outgoing ->
  exists next, pagerank_round outgoing incoming ranks = Ok next /\ length next = length outgoing.
Proof.
  intros Hlen. unfold pagerank_round, dangling_rank.
  match goal with |- context [collect ?g ?l] => destruct (collect_total g l) as (held & -> & _) end.
  { intros [i row] Hin%list_elem_of_In%filter_In. destruct Hin as [Hin%list_elem_of_In%elem_of_enumerate _]. cbn.
    destruct (lookup_lt_is_Some_2 ranks i) as [r Hr]; [rewrite Hlen; by eapply lookup_lt_Some|].
    exists r. by apply at_index_Ok. }
  rewrite !bind_of_Ok. apply (for_each_progress (fun _ next => length next = length outgoing)).
  - apply length_replicate.
  - intros pre [i sources] suf next Hsplit Hnext.
    assert (incoming !! i = Some sources) as Hi by (apply elem_of_enumerate; rewrite Hsplit; set_solver).
    cbn [fst snd]. assert (i < length outgoing) as Hil by (rewrite <- Hlength; by eapply lookup_lt_Some).
    destruct (incoming_rank_ok ranks sources Hlen) as [share ->].
    { apply Forall_forall. intros v Hv. rewrite <- Hlength. apply (Hincoming i v). by exists sources. }
    destruct (lookup_lt_is_Some_2 next i) as [b Hb]; [by rewrite Hnext|].
    rewrite bind_of_Ok, (at_index_Ok _ _ _ Hb), bind_of_Ok, set_index_Ok by by rewrite Hnext.
    eexists. split; [done|]. by rewrite length_insert.
Qed.
Lemma calculate_pagerank_ok :
  exists ranks, calculate_pagerank outgoing incoming = Ok ranks /\ length ranks = length outgoing.
Proof.
  unfold calculate_pagerank. destruct (Nat.eqb_spec (length outgoing) 0) as [->|_]; [by exists []|].
  assert (forall rounds ranks, length ranks = length outgoing -> exists next,
    pagerank_rounds rounds outgoing incoming ranks = Ok next /\ length next = length outgoing) as Hrounds.
  { intros rounds. induction rounds as [|rounds IH]; intros ranks Hlen; cbn -[f64_ltb f64_literal]; [by exists ranks|].
    destruct (pagerank_round_ok ranks Hlen) as (next & -> & Hnext). rewrite bind_of_Ok.
    destruct (f64_ltb _ _); [by exists next|by apply IH]. }
  apply Hrounds, length_replicate.
Qed.
End Ranks.

Section Results.
Context (ordered_nodes : list StructuralGraphNode) (edges : list indexed_edge) (g : index_graph).
Notation n := (length ordered_nodes).
Context (Hholds : holds ordered_nodes edges g).
Context (Hedges : forall u v e, (u, v, e) ∈ edges -> u < n /\ v < n).

Definition name_of (i : nat) : string := default ""%string (node_id <$> ordered_nodes !! i).
Lemma read_name i : i < n -> (node ← at_index ordered_nodes i; Ok (node_id node)) = Ok (name_of i).
Proof.
  intros [node Hi]%lookup_lt_is_Some. rewrite (at_index_Ok _ _ _ Hi). unfold name_of. by rewrite Hi.
Qed.
Lemma read_names l :
  Forall (fun i => i < n) l ->
  ids_at ordered_nodes l = Ok (map name_of l).
Proof. unfold ids_at. intros Hl. rewrite Forall_forall in Hl. apply collect_map. intros i Hi. by apply read_name, Hl. Qed.
Lemma names_seq : map name_of (seq 0 n) = map node_id ordered_nodes.
Proof.
  apply list_eq. intros i. change (map ?f ?l) with (f <$> l). rewrite !list_lookup_fmap.
  destruct (decide (i < n)) as [Hi|Hi].
  - rewrite lookup_seq_lt by done. cbn. unfold name_of. destruct (lookup_lt_is_Some_2 _ _ Hi) as [node ->]. done.
  - rewrite lookup_seq_ge by lia. by rewrite lookup_ge_None_2 by lia.
Qed.

Lemma outgoing_closed : closed_graph (outgoing g).
Proof.
  intros u v (e & He)%(holds_outgoing _ _ _ Hholds). rewrite (holds_outgoing_length _ _ _ Hholds).
  by destruct (Hedges _ _ _ He).
Qed.
Lemma incoming_closed : closed_graph (incoming g).
Proof.
  intros u v (e & He)%(holds_incoming _ _ _ Hholds). rewrite (holds_incoming_length _ _ _ Hholds).
  by destruct (Hedges _ _ _ He).
Qed.
Lemma undirected_closed : closed_graph (undirected g).
Proof.
  intros u v [(e & He)|(e & He)]%(holds_undirected _ _ _ Hholds); rewrite (holds_undirected_length _ _ _ Hholds);
    by destruct (Hedges _ _ _ He).
Qed.
Lemma execution_edge u v : edge (targets_of (execution g)) u v <-> exists id, executes edges u (v, id).
Proof.
  setoid_rewrite <- (holds_execution _ _ _ Hholds). split.
  - intros (ns & (row & Hu & ->)%targets_of_lookup & ([v' id] & -> & Hin)%list_elem_of_fmap). by exists id, row.
  - intros (id & row & Hu & Hin). exists (map fst row). split; [apply targets_of_lookup; by exists row|].
    by apply (list_elem_of_fmap_2 fst _ (v, id)).
Qed.
Lemma execution_closed : closed_graph (targets_of (execution g)).
Proof.
  intros u v (id & e & He & _)%execution_edge. rewrite targets_of_length, (holds_execution_length _ _ _ Hholds).
  by destruct (Hedges _ _ _ He).
Qed.

Definition metric_of (ranks : list f64) (p : nat * StructuralGraphNode) : StructuralGraphNodeMetric :=
  let total := degree (incoming g) (fst p) + degree (outgoing g) (fst p) in {|
  metric_node_id := node_id (snd p); in_degree := degree (incoming g) (fst p);
  out_degree := degree (outgoing g) (fst p); total_degree := total;
  degree_centrality := f64_div (f64_of_nat total) (f64_of_Z (Z.of_N (degree_denominator (len ordered_nodes))));
  pagerank := default f64_zero (ranks !! fst p) |}.
Lemma rank_nodes_ok :
  exists ranks, calculate_pagerank (outgoing g) (incoming g) = Ok ranks /\ length ranks = n /\
    rank_nodes ordered_nodes g = Ok (sort_by compare_metrics (map (metric_of ranks) (enumerate_nat 0 ordered_nodes))).
Proof.
  pose proof (holds_outgoing_length _ _ _ Hholds) as Hout. pose proof (holds_incoming_length _ _ _ Hholds) as Hin.
  unfold rank_nodes. destruct (calculate_pagerank_ok (outgoing g) (incoming g)) as (ranks & -> & Hlen);
    [by rewrite Hin|apply incoming_closed|]. exists ranks. split_and!; [done|congruence|].
  rewrite bind_of_Ok, (collect_map _ (metric_of ranks)); [done|].
  intros [i node] Hi%elem_of_enumerate%lookup_lt_Some. unfold node_metric, metric_of, degree, at_index. cbn [fst snd].
  destruct (lookup_lt_is_Some_2 (incoming g) i) as [a ->]; [by rewrite Hin|].
  by destruct (lookup_lt_is_Some_2 (outgoing g) i) as [b ->]; [rewrite Hout|].
Qed.
Lemma metric_of_ids ranks :
  map metric_node_id (sort_by compare_metrics (map (metric_of ranks) (enumerate_nat 0 ordered_nodes))) ≡ₚ
  map node_id ordered_nodes.
Proof.
  rewrite sort_by_perm, map_map. rewrite <- (map_snd_enumerate 0 ordered_nodes) at 2. by rewrite map_map.
Qed.

(** * Components *)

Lemma NoDup_concat_lookup {A} (ll : list (list A)) k k' c c' x :
  NoDup (concat ll) -> ll !! k = Some c -> ll !! k' = Some c' -> x ∈ c -> x ∈ c' -> k = k'.
Proof.
  revert k k'. induction ll as [|l ll IH]; intros k k'; [done|]. cbn. intros (_ & Hdis & Hnd)%NoDup_app Hk Hk' Hx Hx'.
  assert (forall j d, ll !! j = Some d -> x ∈ d -> x ∉ l) as Hout.
  { intros j d Hj Hd Hin. apply (Hdis x Hin), elem_of_concat. exists d. split; [done|by eapply list_elem_of_lookup_2]. }
  destruct k as [|k], k' as [|k']; cbn in *; simplify_eq; [done| | |by rewrite (IH k k')].
  - by destruct (Hout k' c').
  - by destruct (Hout k c).
Qed.

Lemma own_component_ok k component (owner : list nat) :
  length owner = n -> Forall (fun v => v < n) component ->
  exists owner' : list nat, for_each (fun owner v => set_index owner v k) owner component = Ok owner' /\ length owner' = n /\
    forall v, owner' !! v = if decide (v ∈ component) then Some k else owner !! v.
Proof.
  intros Hlen Hc. destruct (for_each_progress (fun pre (owner' : list nat) => length owner' = n /\
      forall v, owner' !! v = if decide (v ∈ pre) then Some k else owner !! v)
    (fun owner v => set_index owner v k) owner component) as (owner' & -> & ? & ?); [..|by exists owner'].
  - split; [done|]. intros v. by rewrite decide_False by apply not_elem_of_nil.
  - intros pre v suf owner' Hsplit [Hlen' Hpre]. rewrite Forall_forall in Hc.
    assert (v < n) as Hv by (apply Hc; rewrite Hsplit; set_solver).
    rewrite set_index_Ok by by rewrite Hlen'. eexists. split; [done|]. split; [by rewrite length_insert|].
    intros u. rewrite list_lookup_insert, Hpre. destruct (decide (v = u)) as [->|Hne].
    + rewrite decide_True by by rewrite Hlen'. by rewrite decide_True by set_solver.
    + rewrite decide_False by tauto. destruct (decide (u ∈ pre)) as [Hu|Hu].
      * by rewrite decide_True by set_solver.
      * by rewrite decide_False by set_solver.
Qed.
Lemma component_of_nodes_ok components :
  concat components ≡ₚ seq 0 n ->
  exists owner, component_of_nodes n components = Ok owner /\ length owner = n /\
    forall k c v, components !! k = Some c -> v ∈ c -> owner !! v = Some k.
Proof.
  intros Hall. assert (NoDup (concat components)) as Hnd by (rewrite Hall; apply NoDup_seq).
  assert (forall k c, components !! k = Some c -> Forall (fun v => v < n) c) as Hbound.
  { intros k c Hk. apply Forall_forall. intros v Hv. assert (v ∈ seq 0 n) as Hs.
    { rewrite <- Hall. apply elem_of_concat. exists c. split; [done|by eapply list_elem_of_lookup_2]. }
    apply elem_of_seq in Hs. lia. }
  unfold component_of_nodes.
  destruct (for_each_progress (fun pre (owner : list nat) => length owner = n /\ forall k c v, (k, c) ∈ pre -> v ∈ c -> owner !! v = Some k)
    (fun owner p => for_each (fun owner v => set_index owner v (fst p)) owner (snd p))
    (replicate n 0) (enumerate_nat 0 components)) as (owner & -> & Hlen & Hown).
  - split; [apply length_replicate|]. by intros k c v ?%not_elem_of_nil.
  - intros pre [k c] suf owner Hsplit [Hlen Hpre].
    assert (components !! k = Some c) as Hk by (apply elem_of_enumerate; rewrite Hsplit; set_solver).
    destruct (own_component_ok k c owner Hlen (Hbound k c Hk)) as (owner' & Hrun & Hlen' & Hown).
    cbn [fst snd]. rewrite Hrun. exists owner'.
    split_and!; [done..|]. intros k' c' v Hin Hv. rewrite Hown. case_decide as Hvc.
    + f_equal. assert (components !! k' = Some c') as Hk'.
      { apply elem_of_enumerate. rewrite Hsplit. set_solver. }
      by eapply NoDup_concat_lookup.
    + apply elem_of_app in Hin as [Hin|[= -> ->]%list_elem_of_singleton]; [by eapply Hpre|done].
  - exists owner. split_and!; [done..|]. intros k c v Hk. apply Hown. by apply elem_of_enumerate.
Qed.

(** The edges inside a component. *)
Definition inside (component : list nat) (id : string) : Prop :=
  exists u v e, (u, v, e) ∈ edges /\ u ∈ component /\ v ∈ component /\ id = edge_id e.

Definition owned (owner : list nat) (es : list indexed_edge) (k : nat) (id : string) : Prop :=
  exists u v e, (u, v, e) ∈ es /\ owner !! u = Some k /\ owner !! v = Some k /\ id = edge_id e.
Lemma owned_snoc owner es u v e k id :
  owned owner (es ++ [(u, v, e)]) k id <->
  owned owner es k id \/ (owner !! u = Some k /\ owner !! v = Some k /\ id = edge_id e).
Proof.
  unfold owned. setoid_rewrite elem_of_app. setoid_rewrite list_elem_of_singleton. split.
  - intros (u' & v' & e' & [He|[= -> -> ->]] & ? & ? & ?); [left; by exists u', v', e'|by right].
  - intros [(u' & v' & e' & He & ? & ? & ?)|(? & ? & ?)]; [exists u', v', e'; eauto|exists u, v, e; eauto].
Qed.
Lemma component_edges_ok (components : list (list nat)) (owner : list nat) :
  concat components ≡ₚ seq 0 n -> length owner = n ->
  (forall k c v, components !! k = Some c -> v ∈ c -> owner !! v = Some k) ->
  exists rows, for_each (add_component_edge owner) (replicate (length components) []) edges = Ok rows /\
    length rows = length components /\
    forall k c id, components !! k = Some c -> in_row rows k id <-> inside c id.
Proof.
  intros Hall Hlen Hown.
  assert (forall v, v < n -> exists k c, components !! k = Some c /\ v ∈ c /\ owner !! v = Some k) as Hcover.
  { intros v Hv. assert (v ∈ concat components) as (c & Hvc & [k Hk]%list_elem_of_lookup)%elem_of_concat
      by (rewrite Hall; apply elem_of_seq; lia). exists k, c. split_and!; [done..|]. by eapply Hown. }
  assert (forall k c v, components !! k = Some c -> v < n -> owner !! v = Some k -> v ∈ c) as Hback.
  { intros k c v Hk Hv Ho. destruct (Hcover v Hv) as (k' & c' & ? & ? & ?). by simplify_eq. }
  destruct (for_each_progress (fun pre rows => length rows = length components /\
      forall k id, in_row rows k id <-> owned owner pre k id)
    (add_component_edge owner) (replicate (length components) []) edges) as (rows & -> & Hrows & Hin).
  - split; [apply length_replicate|]. intros k id. split; [by intros ?%not_in_row_empty|].
    by intros (u & v & e & ?%not_elem_of_nil & _).
  - intros pre [[u v] e] suf rows Hsplit [Hrows Hin]. destruct (Hedges u v e) as [Hu Hv]; [rewrite Hsplit; set_solver|].
    destruct (Hcover u Hu) as (ku & cu & Hku & _ & Hou). destruct (Hcover v Hv) as (kv & cv & Hkv & _ & Hov).
    unfold add_component_edge. rewrite (at_index_Ok _ _ _ Hou), bind_of_Ok, (at_index_Ok _ _ _ Hov), bind_of_Ok.
    destruct (Nat.eqb_spec ku kv) as [<-|Hne].
    + destruct (push_at_ok rows ku (edge_id e)) as (rows' & -> & Hrows' & Hin'); [rewrite Hrows; by eapply lookup_lt_Some|].
      exists rows'. split_and!; [done|congruence|]. intros k id. rewrite Hin', Hin, owned_snoc, Hou, Hov.
      naive_solver.
    + eexists. split_and!; [done..|]. intros k id. rewrite Hin, owned_snoc, Hou, Hov. naive_solver.
  - exists rows. split_and!; [done..|]. intros k c id Hk. rewrite Hin. unfold inside, owned. split.
    + intros (u & v & e & He & Hu & Hv & ->). destruct (Hedges _ _ _ He). exists u, v, e.
      split_and!; by eauto.
    + intros (u & v & e & He & Hu & Hv & ->). exists u, v, e. split_and!; by eauto.
Qed.

(** A component of indices as the result shows it. *)
Definition shows (c : list nat) (r : StructuralGraphComponent) : Prop :=
  component_node_ids r = map name_of c /\ (forall id, id ∈ component_edge_ids r <-> inside c id) /\
  component_id r = stable_graph_id "scc" (String.concat UNIT_SEPARATOR (map name_of c)) /\
  cyclic r = (1 <? length c) || negb (is_nil (component_edge_ids r)).

Lemma shows_zip (build : list nat * list string -> StructuralGraphComponent) indices rows :
  Forall2 (fun c ids => shows c (build (c, ids))) indices rows -> Forall2 shows indices (map build (zip indices rows)).
Proof. induction 1; cbn; by constructor. Qed.
Lemma collect_components_ok :
  exists indices components built, collect_components ordered_nodes edges g = Ok components /\
    partition_ok (outgoing g) indices /\ Forall2 shows indices built /\ components ≡ₚ built.
Proof.
  pose proof (holds_outgoing_length _ _ _ Hholds) as Hout. unfold collect_components.
  destruct (strongly_connected_components_ok (outgoing g) (incoming g)) as (indices & -> & Hpart).
  { apply outgoing_closed. }
  { by rewrite Hout, (holds_incoming_length _ _ _ Hholds). }
  { intros u v. rewrite !in_row_edge, (holds_incoming _ _ _ Hholds), (holds_outgoing _ _ _ Hholds). done. }
  pose proof (partition_all _ _ Hpart) as Hall. rewrite Hout in Hall. rewrite bind_of_Ok.
  destruct (component_of_nodes_ok indices Hall) as (owner & -> & Hlen & Hown). rewrite bind_of_Ok.
  destruct (component_edges_ok indices owner Hall Hlen Hown) as (rows & -> & Hrows & Hin). rewrite bind_of_Ok.
  set (build := fun p : list nat * list string => {|
    component_id := stable_graph_id "scc" (String.concat UNIT_SEPARATOR (map name_of (fst p)));
    component_node_ids := map name_of (fst p); component_edge_ids := snd p;
    cyclic := (1 <? length (map name_of (fst p))) || negb (is_nil (snd p)) |}).
  assert (forall c, c ∈ indices -> Forall (fun v => v < n) c) as Hbound.
  { intros c Hc. apply Forall_forall. intros v Hv. assert (v ∈ seq 0 n) as ?%elem_of_seq; [|lia].
    rewrite <- Hall. apply elem_of_concat. by exists c. }
  rewrite (collect_map _ build), bind_of_Ok.
  2: { intros [c ids] Hc%elem_of_zip_l. unfold build_component. cbn [fst snd].
       by rewrite read_names, bind_of_Ok by by apply Hbound. }
  rewrite (collect_map _ (fun r => (default ""%string (component_node_ids r !! 0), r))), bind_of_Ok.
  2: { intros r ([c ids] & -> & Hc%elem_of_zip_l)%list_elem_of_fmap. pose proof (partition_shape _ _ Hpart) as Hshape.
       rewrite Forall_forall in Hshape. destruct (Hshape c Hc) as [Hne _]. destruct c; done. }
  exists indices. eexists. exists (map build (zip indices (map sort rows))). split_and!; [done|done| |].
  - apply shows_zip. apply Forall2_same_length_lookup_2; [by rewrite length_map, Hrows|].
    change (map ?f ?l) with (f <$> l). intros k c ids Hk. rewrite list_lookup_fmap, fmap_Some. intros (row & Hrow & ->).
    unfold shows. cbn. rewrite length_map. split_and!; [done| |done..]. intros id. rewrite <- (Hin k c id Hk). unfold in_row, sort.
    rewrite elem_of_sort_by. naive_solver.
  - rewrite sort_by_perm, map_map. cbn. by rewrite map_id.
Qed.
End Results.

(** * Reachability *)

Section Divided.
Context (ordered_nodes : list StructuralGraphNode).
Notation n := (length ordered_nodes).

Definition marked_ids (marks : list bool) (b : bool) : list string :=
  map (fun p => node_id (snd p))
    (List.filter (fun p => Bool.eqb (default false (marks !! fst p)) b) (enumerate_nat 0 ordered_nodes)).
Lemma split_by_marks_ok marks :
  length marks = n -> split_by_marks ordered_nodes marks = Ok (marked_ids marks true, marked_ids marks false).
Proof.
  intros Hlen. unfold split_by_marks, marked_ids.
  match goal with |- for_each ?f _ _ = _ =>
    destruct (for_each_progress (fun pre (st : list string * list string) => st =
      (map (fun p => node_id (snd p)) (List.filter (fun p : nat * StructuralGraphNode => Bool.eqb (default false (marks !! fst p)) true) pre),
       map (fun p => node_id (snd p)) (List.filter (fun p : nat * StructuralGraphNode => Bool.eqb (default false (marks !! fst p)) false) pre)))
      f ([], []) (enumerate_nat 0 ordered_nodes)) as (st & -> & ->); [done| |done]
  end.
  intros pre [i node] suf st Hsplit ->.
  assert (i < length marks) as [b Hb]%lookup_lt_is_Some.
  { rewrite Hlen. apply (lookup_lt_Some _ _ node), elem_of_enumerate. rewrite Hsplit. set_solver. }
  cbn [fst snd]. rewrite (at_index_Ok _ _ _ Hb), bind_of_Ok. eexists. split; [done|].
  rewrite !List.filter_app, !map_app. cbn. rewrite Hb. by destruct b; cbn; rewrite ?app_nil_r.
Qed.
Lemma elem_of_marked_ids marks b id :
  length marks = n ->
  id ∈ marked_ids marks b <-> exists i node, ordered_nodes !! i = Some node /\ node_id node = id /\ marks !! i = Some b.
Proof.
  intros Hlen. unfold marked_ids. rewrite list_elem_of_fmap. setoid_rewrite list_elem_of_In.
  setoid_rewrite filter_In. setoid_rewrite <- list_elem_of_In. split.
  - intros ([i node] & -> & Hi%elem_of_enumerate & Hm). exists i, node. split_and!; [done..|]. cbn in Hm.
    destruct (lookup_lt_is_Some_2 marks i) as [b' Hb]; [rewrite Hlen; by eapply lookup_lt_Some|].
    rewrite Hb in *. cbn in Hm. by apply eqb_prop in Hm as ->.
  - intros (i & node & Hi & <- & Hb). exists (i, node). split; [done|]. split; [by apply elem_of_enumerate|]. cbn.
    rewrite Hb. apply Bool.eqb_reflx.
Qed.
Lemma marked_ids_split marks : marked_ids marks true ++ marked_ids marks false ≡ₚ map node_id ordered_nodes.
Proof.
  unfold marked_ids. rewrite <- (map_snd_enumerate 0 ordered_nodes) at 3. rewrite map_map, <- map_app.
  apply Permutation_map. induction (enumerate_nat 0 ordered_nodes) as [|[i node] l IH]; [done|]. cbn.
  destruct (default false (marks !! i)); cbn; [by f_equiv|]. by rewrite <- Permutation_middle, IH.
Qed.

Lemma entrypoint_indices_bound : Forall (fun e => e < n) (entrypoint_indices ordered_nodes).
Proof.
  apply Forall_forall. intros e ([i node] & -> & Hin)%list_elem_of_fmap.
  apply list_elem_of_In, filter_In in Hin as [Hin%list_elem_of_In%elem_of_enumerate _]. by eapply lookup_lt_Some.
Qed.
Lemma elem_of_entrypoint_indices e :
  e ∈ entrypoint_indices ordered_nodes <-> exists node, ordered_nodes !! e = Some node /\ is_entrypoint node = true.
Proof.
  unfold entrypoint_indices. rewrite list_elem_of_fmap. setoid_rewrite list_elem_of_In. setoid_rewrite filter_In.
  setoid_rewrite <- list_elem_of_In. split.
  - intros ([i node] & -> & Hi%elem_of_enumerate & He). by exists node.
  - intros (node & Hi & He). exists (e, node). split; [done|]. split; [by apply elem_of_enumerate|done].
Qed.
End Divided.
