(* ===== verification/AnalysisTheorems.v ===== *)
(** Theorems about [Analysis.analyze_trusted_algorithms]: it returns on every
    input, its components and reachable nodes are exact on node ids, its
    coverage record claims completeness only where nothing was left out, and
    its answer does not depend on the order of nodes and edges. *)
From S2P Require Import Prelude Ordering Entries RustText GraphTypes F64 GraphAlgorithms Digraph SccProps FlowProps ArticulationProps Analysis AnalysisGraph AnalysisProps AnalysisResults.
Local Open Scope nat_scope.

(** * The run *)

Record run_facts (ordered : list StructuralGraphNode) (edges : list indexed_edge) (found : analysis_findings)
    : Prop := {
  facts_metrics : map metric_node_id (all_metrics found) ≡ₚ map node_id ordered;
  facts_components : exists g indices built, holds ordered edges g /\ partition_ok (outgoing g) indices /\
    Forall2 (shows ordered edges) indices built /\ all_components found ≡ₚ built;
  facts_entrypoints : entrypoints found = entrypoint_indices ordered;
  facts_entry_ids : entry_ids found = map (name_of ordered) (entrypoint_indices ordered);
  facts_divided : exists g marks, holds ordered edges g /\ length marks = length ordered /\
    divided found = (marked_ids ordered marks true, marked_ids ordered marks false) /\
    forall v, marks !! v = Some true <-> from_entry (execution g) (entrypoint_indices ordered) v
}.

Lemma run_algorithms_ok ordered edges :
  (forall u v e, (u, v, e) ∈ edges -> u < length ordered /\ v < length ordered) ->
  exists found, run_algorithms ordered edges = Ok found /\ run_facts ordered edges found.
Proof.
  intros Hedges. unfold run_algorithms.
  destruct (build_index_graph_ok ordered edges Hedges) as (g & -> & Hholds). rewrite bind_of_Ok.
  destruct (rank_nodes_ok ordered edges g Hholds Hedges) as (ranks & _ & _ & ->). rewrite bind_of_Ok.
  destruct (collect_components_ok ordered edges g Hholds Hedges) as (indices & components & built & -> & Hpart & Hshow & Hperm).
  rewrite bind_of_Ok.
  destruct (articulation_points_ok (undirected g)) as (cuts & -> & Hcuts); [by eapply undirected_closed|].
  rewrite (holds_undirected_length _ _ _ Hholds) in Hcuts. rewrite bind_of_Ok, (read_names ordered cuts), bind_of_Ok by done.
  pose proof (holds_execution_length _ _ _ Hholds) as Hlen.
  pose proof (entrypoint_indices_bound ordered) as Hentry.
  destruct (reachable_from_ok (execution g) (entrypoint_indices ordered)) as (marks & -> & Hmarks & Hreach);
    [by eapply execution_closed|by rewrite Hlen|].
  rewrite bind_of_Ok, split_by_marks_ok, bind_of_Ok by congruence.
  rewrite bounded_execution_flows_ok, bind_of_Ok, read_names, bind_of_Ok;
    [|done|by eapply execution_closed|done|by rewrite Hlen].
  eexists. split; [done|]. split; cbn [all_metrics all_components cut_ids entrypoints entry_ids divided].
  - apply metric_of_ids.
  - by exists g, indices, built.
  - done.
  - done.
  - exists g, marks. split_and!; [done|congruence|done..].
Qed.

(** The edges the algorithms run on. *)
Definition sorted_selection (nodes : list StructuralGraphNode) (edges : list StructuralGraphEdge) : list indexed_edge :=
  sort_edges (selected nodes edges).
Lemma sorted_selection_perm nodes edges : sorted_selection nodes edges ≡ₚ selected nodes edges.
Proof. apply sort_by_perm. Qed.
Lemma analyze_ok nodes edges coverage truncated :
  exists found, run_facts (ordered nodes) (sorted_selection nodes edges) found /\
    analyze_trusted_algorithms nodes edges coverage truncated =
    Ok (limit_results nodes (select_edges (index_nodes (ordered nodes)) edges) found coverage truncated).
Proof.
  destruct (run_algorithms_ok (ordered nodes) (sorted_selection nodes edges)) as (found & Hrun & Hfacts).
  { intros u v e. rewrite sorted_selection_perm. apply selected_bounds. }
  exists found. split; [done|]. unfold analyze_trusted_algorithms. fold (ordered nodes).
  assert (trusted_edges (select_edges (index_nodes (ordered nodes)) edges) = selected nodes edges) as ->
    by by rewrite select_edges_ok.
  fold (sorted_selection nodes edges). by rewrite Hrun, bind_of_Ok.
Qed.

(** The analysis returns on every input: whatever the nodes and the
    edges are (repeated ids, edges to missing nodes, cycles, self loops), no
    vector is indexed out of bounds, no comparison reads a missing node, every
    loop ends, and there is no error. *)
Theorem analysis_never_panics (nodes : list StructuralGraphNode) (edges : list StructuralGraphEdge)
    (coverage : StructuralGraphCoverage) (truncated : bool) :
  is_Ok (analyze_trusted_algorithms nodes edges coverage truncated).
Proof. destruct (analyze_ok nodes edges coverage truncated) as (found & _ & ->). by eexists. Qed.

(** * Components by node id *)

Section ById.
Context (nodes : list StructuralGraphNode) (edges : list StructuralGraphEdge).
Context (Hids : NoDup (map node_id nodes)).
Notation link := (trusted_link nodes edges).
Notation elink := (execution_link nodes edges).

Lemma joins_sorted u v : joins (sorted_selection nodes edges) u v <-> joins (selected nodes edges) u v.
Proof. unfold joins. by setoid_rewrite sorted_selection_perm. Qed.
Lemma executes_sorted u t : executes (sorted_selection nodes edges) u t <-> executes (selected nodes edges) u t.
Proof. unfold executes. by setoid_rewrite sorted_selection_perm. Qed.

Context (g : index_graph) (Hholds : holds (ordered nodes) (sorted_selection nodes edges) g).

Lemma outgoing_bound i j : edge (outgoing g) i j -> i < length (ordered nodes) /\ j < length (ordered nodes).
Proof. intros (e & He)%(holds_outgoing _ _ _ Hholds)%joins_sorted. by eapply selected_bounds. Qed.
Lemma outgoing_link i j a b :
  ordered nodes !! i = Some a -> ordered nodes !! j = Some b -> edge (outgoing g) i j <-> link (node_id a) (node_id b).
Proof.
  intros Hi Hj. rewrite in_row_edge, (holds_outgoing _ _ _ Hholds), joins_sorted. by apply joins_link.
Qed.
Lemma link_ids u v : link u v -> u ∈ map node_id (ordered nodes) /\ v ∈ map node_id (ordered nodes).
Proof. intros (e & _ & _ & _ & _ & Hu & Hv). unfold ordered. by rewrite order_nodes_perm. Qed.
Lemma execution_bound i j : edge (targets_of (execution g)) i j -> i < length (ordered nodes) /\ j < length (ordered nodes).
Proof.
  intros (id & Hx)%(execution_edge _ _ _ Hholds). apply executes_sorted in Hx as (e & He & _). cbn in He.
  by eapply selected_bounds.
Qed.
Lemma execution_link_edge i j a b :
  ordered nodes !! i = Some a -> ordered nodes !! j = Some b ->
  edge (targets_of (execution g)) i j <-> elink (node_id a) (node_id b).
Proof.
  intros Hi Hj. rewrite (execution_edge _ _ _ Hholds). setoid_rewrite executes_sorted. by apply executes_link.
Qed.
Lemma execution_link_ids u v : elink u v -> u ∈ map node_id (ordered nodes) /\ v ∈ map node_id (ordered nodes).
Proof. intros (e & _ & _ & _ & _ & _ & Hu & Hv). unfold ordered. by rewrite order_nodes_perm. Qed.

Lemma reach_ids i j a b :
  ordered nodes !! i = Some a -> ordered nodes !! j = Some b ->
  reach (outgoing g) i j <-> rtc link (node_id a) (node_id b).
Proof.
  apply path_names; auto using outgoing_bound, outgoing_link, link_ids. by apply ordered_NoDup.
Qed.
Lemma cycle_ids i a :
  ordered nodes !! i = Some a -> tc (edge (outgoing g)) i i <-> tc link (node_id a) (node_id a).
Proof.
  apply cycle_names; auto using outgoing_bound, outgoing_link, link_ids. by apply ordered_NoDup.
Qed.
Lemma execution_reach_ids i j a b :
  ordered nodes !! i = Some a -> ordered nodes !! j = Some b ->
  reach (targets_of (execution g)) i j <-> rtc elink (node_id a) (node_id b).
Proof.
  apply path_names; auto using execution_bound, execution_link_edge, execution_link_ids. by apply ordered_NoDup.
Qed.

Context (indices : list (list nat)) (Hpart : partition_ok (outgoing g) indices).

Lemma another_member (c : list nat) u :
  StronglySorted Nat.lt c -> 1 < length c -> exists w, w ∈ c /\ w <> u.
Proof.
  intros Hsorted Hlen. destruct c as [|x [|y c]]; cbn in Hlen; [lia|lia|].
  apply StronglySorted_inv in Hsorted as [_ Hx]. rewrite Forall_forall in Hx.
  assert (Nat.lt x y) as Hxy by (apply Hx; left). destruct (decide (x = u)) as [->|Hne].
  - exists y. split; [right; left|lia].
  - exists x. split; [left|done].
Qed.
(** A component is shown as cyclic exactly where its nodes lie on cycles. *)
Lemma shown_cyclic c r u :
  c ∈ indices -> shows (ordered nodes) (sorted_selection nodes edges) c r -> u ∈ c ->
  cyclic r = true <-> tc (edge (outgoing g)) u u.
Proof.
  intros Hc (_ & Hinside & _ & ->) Hu. pose proof (partition_strong _ _ Hpart c) as Hstrong.
  rewrite orb_true_iff, Nat.ltb_lt, negb_true_iff, is_nil_false. split.
  - intros [Hmany|Hedge].
    + pose proof (partition_shape _ _ Hpart) as Hshape. rewrite Forall_forall in Hshape.
      destruct (Hshape c Hc) as [_ Hsorted]. destruct (another_member c u Hsorted Hmany) as (w & Hw & Hne).
      apply (Hstrong u w Hc Hu) in Hw as [Huw%rtc_tc Hwu]. destruct Huw as [->|Huw]; [done|].
      by eapply tc_rtc_r.
    + destruct (component_edge_ids r) as [|id ids] eqn:E; [done|].
      assert (inside (sorted_selection nodes edges) c id) as (x & y & e & He & Hx & Hy & _) by (apply Hinside; left).
      apply (Hstrong u x Hc Hu) in Hx as [Hux _]. apply (Hstrong u y Hc Hu) in Hy as [_ Hyu].
      eapply tc_rtc_l; [exact Hux|]. eapply tc_rtc_r; [|exact Hyu]. apply tc_once.
      apply in_row_edge, (holds_outgoing _ _ _ Hholds). by exists e.
  - intros (w & Huw & Hwu)%tc_split. right.
    assert (w ∈ c) as Hw by (apply (Hstrong u w Hc Hu); split; [by apply edge_reach|done]).
    apply in_row_edge, (holds_outgoing _ _ _ Hholds) in Huw as (e & He).
    assert (edge_id e ∈ component_edge_ids r) as Hin by (apply Hinside; by exists u, w, e).
    intros Hnil. rewrite Hnil in Hin. by apply not_elem_of_nil in Hin.
Qed.
Lemma elem_of_names c id :
  id ∈ map (name_of (ordered nodes)) c -> Forall (fun v => v < length (ordered nodes)) c ->
  exists i a, ordered nodes !! i = Some a /\ node_id a = id /\ i ∈ c.
Proof.
  intros (i & -> & Hi)%list_elem_of_fmap Hc. rewrite Forall_forall in Hc.
  destruct (lookup_lt_is_Some_2 _ _ (Hc i Hi)) as [a Ha]. exists i, a. unfold name_of. by rewrite Ha.
Qed.
Lemma indices_bound c : c ∈ indices -> Forall (fun v => v < length (ordered nodes)) c.
Proof.
  intros Hc. apply Forall_forall. intros v Hv. assert (v ∈ seq 0 (length (outgoing g))) as Hin%elem_of_seq.
  { rewrite <- (partition_all _ _ Hpart). apply elem_of_concat. by exists c. }
  rewrite (holds_outgoing_length _ _ _ Hholds) in Hin. lia.
Qed.
Lemma in_names c i a :
  c ∈ indices -> ordered nodes !! i = Some a -> node_id a ∈ map (name_of (ordered nodes)) c <-> i ∈ c.
Proof.
  intros Hc Hi. split.
  - intros (j & b & Hj & Heq & Hin)%elem_of_names; [|by apply indices_bound].
    by rewrite (same_index (ordered nodes) (ordered_NoDup nodes Hids) i j a b).
  - intros Hin. apply list_elem_of_fmap. exists i. split; [|done]. unfold name_of. by rewrite Hi.
Qed.

Lemma shown_component c r u v :
  c ∈ indices -> shows (ordered nodes) (sorted_selection nodes edges) c r -> u ∈ component_node_ids r ->
  (v ∈ component_node_ids r <-> rtc link u v /\ rtc link v u) /\ (cyclic r = true <-> tc link u u).
Proof.
  intros Hc Hshow Hu. pose proof Hshow as (Hnames & _). rewrite Hnames in *.
  apply elem_of_names in Hu as (i & a & Hi & <- & Hic); [|by apply indices_bound].
  split; [|rewrite <- cycle_ids by done; by eapply shown_cyclic].
  destruct (decide (v ∈ map node_id (ordered nodes))) as [(j & b & Hj & <-)%node_at_id|Hout].
  - rewrite <- (reach_ids i j a b), <- (reach_ids j i b a), (in_names c j b) by done.
    by apply (partition_strong _ _ Hpart c).
  - split.
    + intros (j & b & Hj & <- & _)%elem_of_names; [|by apply indices_bound]. exfalso. apply Hout.
      apply list_elem_of_fmap_2. by eapply list_elem_of_lookup_2.
    + intros [Huv _]. exfalso. apply Hout. apply rtc_inv_r in Huv as [<-|(w & _ & Hw)].
      * apply list_elem_of_fmap_2. by eapply list_elem_of_lookup_2.
      * by apply link_ids in Hw as [_ ?].
Qed.
End ById.
Lemma map_concat_names (ordered : list StructuralGraphNode) (edges : list indexed_edge) indices built :
  Forall2 (shows ordered edges) indices built ->
  concat (map component_node_ids built) = map (name_of ordered) (concat indices).
Proof. induction 1 as [|c r indices built (Hn & _) _ IH]; cbn; [done|]. by rewrite map_app, Hn, IH. Qed.

(** C32: the components of the analysis are the strongly connected components
    of the trusted edges, on ids: where node ids are distinct, the results
    show the first five hundred of a list of components that hold every
    node id once, in which two ids share a component exactly when trusted
    edges lead from each to the other, and whose cyclic ones are exactly those whose
    nodes lie on a cycle of trusted edges; the cycles shown are the first five
    hundred of the cyclic ones. *)
Theorem analysis_components_exact (nodes : list StructuralGraphNode) (edges : list StructuralGraphEdge)
    (coverage : StructuralGraphCoverage) (truncated : bool) (Hids : NoDup (map node_id nodes)) :
  exists policy cover algorithms components,
    analyze_trusted_algorithms nodes edges coverage truncated = Ok (policy, cover, algorithms) /\
    component_results algorithms = take MAX_COMPONENTS components /\
    cycles algorithms = take MAX_COMPONENTS (List.filter cyclic components) /\
    concat (map component_node_ids components) ≡ₚ map node_id nodes /\
    forall c u v, c ∈ components -> u ∈ component_node_ids c ->
      (v ∈ component_node_ids c <->
        rtc (trusted_link nodes edges) u v /\ rtc (trusted_link nodes edges) v u) /\
      (cyclic c = true <-> tc (trusted_link nodes edges) u u).
Proof.
  destruct (analyze_ok nodes edges coverage truncated)
    as (found & [_ (g & indices & built & Hholds & Hpart & Hshow & Hperm) _ _ _] & ->).
  eexists _, _, _, (all_components found). split; [reflexivity|]. split_and!; [done|done| |].
  - rewrite Hperm, (map_concat_names _ _ _ _ Hshow), (partition_all _ _ Hpart), (holds_outgoing_length _ _ _ Hholds).
    rewrite names_seq. unfold ordered. by rewrite order_nodes_perm.
  - intros r u v Hr Hu. rewrite Hperm in Hr. apply list_elem_of_lookup in Hr as [k Hr].
    destruct (Forall2_lookup_r _ _ _ _ _ Hshow Hr) as (c & Hc & Hs). apply list_elem_of_lookup_2 in Hc.
    by eapply shown_component.
Qed.
Lemma ex_graph_ids : NoDup (map node_id ex_graph_nodes).
Proof. by apply (bool_decide_unpack _). Qed.
Lemma analysis_components_exact_witness :
  exists policy cover algorithms components,
    analyze_trusted_algorithms ex_graph_nodes ex_graph_edges ex_coverage false = Ok (policy, cover, algorithms) /\
    component_results algorithms = take MAX_COMPONENTS components /\
    cycles algorithms = take MAX_COMPONENTS (List.filter cyclic components) /\
    concat (map component_node_ids components) ≡ₚ map node_id ex_graph_nodes /\
    forall c u v, c ∈ components -> u ∈ component_node_ids c ->
      (v ∈ component_node_ids c <-> rtc (trusted_link ex_graph_nodes ex_graph_edges) u v /\
        rtc (trusted_link ex_graph_nodes ex_graph_edges) v u) /\
      (cyclic c = true <-> tc (trusted_link ex_graph_nodes ex_graph_edges) u u).
Proof. apply (analysis_components_exact ex_graph_nodes ex_graph_edges ex_coverage false), ex_graph_ids. Defined.

(** * Reachability by node id *)

Lemma divided_ids nodes edges found :
  NoDup (map node_id nodes) -> run_facts (ordered nodes) (sorted_selection nodes edges) found ->
  fst (divided found) ++ snd (divided found) ≡ₚ map node_id nodes /\
  forall id, id ∈ fst (divided found) <->
    exists node, node ∈ nodes /\ is_entrypoint node = true /\ rtc (execution_link nodes edges) (node_id node) id.
Proof.
  intros Hids [_ _ _ _ (g & marks & Hholds & Hlen & -> & Hmarks)]. cbn [fst snd]. split.
  { rewrite marked_ids_split. unfold ordered. by rewrite order_nodes_perm. }
  intros id. rewrite elem_of_marked_ids by done. setoid_rewrite Hmarks. split.
  - intros (i & b & Hi & <- & e & (a & He & Hentry)%elem_of_entrypoint_indices & Hreach).
    exists a. split_and!; [|done|by eapply execution_reach_ids].
    rewrite <- (order_nodes_perm nodes). by eapply list_elem_of_lookup_2.
  - intros (a & Ha & Hentry & Hpath). rewrite <- (order_nodes_perm nodes) in Ha.
    apply list_elem_of_lookup in Ha as [e He].
    assert (id ∈ map node_id (ordered nodes)) as (i & b & Hi & <-)%node_at_id.
    { apply rtc_inv_r in Hpath as [<-|(w & _ & Hw)]; [|by eapply execution_link_ids].
      apply list_elem_of_fmap_2. by eapply list_elem_of_lookup_2. }
    exists i, b. split_and!; [done..|]. exists e. split; [apply elem_of_entrypoint_indices; by exists a|].
    by eapply execution_reach_ids.
Qed.

(** The reachable nodes of the analysis are exactly those that trusted
    execution edges lead to from an entry point, on ids: where node ids are
    distinct, the results show the first five hundred reachable ids and the first
    five hundred of the others, which together are all node ids. *)
Theorem analysis_reachability_exact (nodes : list StructuralGraphNode) (edges : list StructuralGraphEdge)
    (coverage : StructuralGraphCoverage) (truncated : bool) (Hids : NoDup (map node_id nodes)) :
  exists policy cover algorithms reached others,
    analyze_trusted_algorithms nodes edges coverage truncated = Ok (policy, cover, algorithms) /\
    reachable_node_ids algorithms = take MAX_RANKED_METRICS reached /\
    unreachable_node_ids algorithms = take MAX_RANKED_METRICS others /\
    reached ++ others ≡ₚ map node_id nodes /\
    forall id, id ∈ reached <-> exists node, node ∈ nodes /\ is_entrypoint node = true /\
      rtc (execution_link nodes edges) (node_id node) id.
Proof.
  destruct (analyze_ok nodes edges coverage truncated) as (found & Hfacts & ->).
  destruct (divided_ids nodes edges found Hids Hfacts) as [Hsplit Hreach].
  eexists _, _, _, (fst (divided found)), (snd (divided found)). split; [reflexivity|]. by split_and!.
Qed.
Lemma analysis_reachability_exact_witness :
  exists policy cover algorithms reached others,
    analyze_trusted_algorithms ex_graph_nodes ex_graph_edges ex_coverage false = Ok (policy, cover, algorithms) /\
    reachable_node_ids algorithms = take MAX_RANKED_METRICS reached /\
    unreachable_node_ids algorithms = take MAX_RANKED_METRICS others /\
    reached ++ others ≡ₚ map node_id ex_graph_nodes /\
    forall id, id ∈ reached <-> exists node, node ∈ ex_graph_nodes /\ is_entrypoint node = true /\
      rtc (execution_link ex_graph_nodes ex_graph_edges) (node_id node) id.
Proof. apply (analysis_reachability_exact ex_graph_nodes ex_graph_edges ex_coverage false), ex_graph_ids. Defined.

(** * Coverage *)

Lemma when_nil {A} b (x : A) : when b x = [] <-> b = false.
Proof. by destruct b. Qed.
Lemma dedup_sort_nil (l : list string) : dedup (sort l) = [] <-> l = [].
Proof.
  split; [|by intros ->]. intros Hnil. destruct l as [|x l]; [done|].
  assert (x ∈ dedup (sort (x :: l))) as Hx by (apply elem_of_sort_dedup; left).
  rewrite Hnil in Hx. by apply not_elem_of_nil in Hx.
Qed.
Lemma no_filtered {A} (p : A -> bool) l :
  0 <? length (List.filter p l) = false <-> forall x, x ∈ l -> p x = false.
Proof. rewrite Nat.ltb_ge, Nat.le_0_r, length_zero_iff_nil. apply filter_bool_nil. Qed.

Lemma no_excluded edges :
  0 <? length (List.filter excluded_edge edges) = false <->
  forall e, e ∈ edges -> is_algorithm_trusted (edge_trust e) = true.
Proof. rewrite no_filtered. unfold excluded_edge. by setoid_rewrite negb_false_iff. Qed.
Lemma resolved_edge nodes e :
  is_algorithm_trusted (edge_trust e) = true ->
  is_some (resolve_edge (index_nodes (ordered nodes)) e) = true <->
  from e ∈ map node_id nodes /\ to e ∈ map node_id nodes.
Proof.
  intros Ht. assert (forall id, id ∈ map node_id nodes <-> is_Some (map_get id (index_nodes (ordered nodes)))) as Hkey.
  { intros id. rewrite elem_of_node_ids. split.
    - intros (i & node & Hi & <-). by eapply index_nodes_is_Some.
    - intros [i (node & Hi & Hid)%index_nodes_sound]. by exists i, node. }
  rewrite !Hkey. unfold resolve_edge. rewrite Ht.
  destruct (map_get (from e) (index_nodes (ordered nodes))) as [i|], (map_get (to e) (index_nodes (ordered nodes))) as [j|]; cbn.
  all: split; try done; by intros [[? ?] [? ?]].
Qed.
Lemma no_unresolved nodes edges :
  (forall e, e ∈ edges -> is_algorithm_trusted (edge_trust e) = true) ->
  0 <? length (List.filter (unresolved_edge (index_nodes (ordered nodes))) edges) = false <->
  forall e, e ∈ edges -> from e ∈ map node_id nodes /\ to e ∈ map node_id nodes.
Proof.
  intros Ht. rewrite no_filtered. unfold unresolved_edge. split; intros Hall e He.
  - specialize (Hall e He). rewrite (Ht e He) in Hall. cbn in Hall. apply negb_false_iff in Hall.
    by apply resolved_edge, Hall; auto.
  - rewrite (Ht e He). cbn. apply negb_false_iff, resolved_edge; auto.
Qed.
Lemma no_entrypoints nodes :
  is_nil (entrypoint_indices (ordered nodes)) = false <-> exists node, node ∈ nodes /\ is_entrypoint node = true.
Proof.
  rewrite is_nil_false. split.
  - intros Hne. destruct (entrypoint_indices (ordered nodes)) as [|i l] eqn:E; [done|].
    assert (i ∈ entrypoint_indices (ordered nodes)) as (node & Hi & He)%elem_of_entrypoint_indices by (rewrite E; left).
    exists node. split; [|done]. rewrite <- (order_nodes_perm nodes). by eapply list_elem_of_lookup_2.
  - intros (node & Hin & He). rewrite <- (order_nodes_perm nodes) in Hin. apply list_elem_of_lookup in Hin as [i Hi].
    intros Hnil. assert (i ∈ entrypoint_indices (ordered nodes)) as Hi' by (apply elem_of_entrypoint_indices; by exists node).
    rewrite Hnil in Hi'. by apply not_elem_of_nil in Hi'.
Qed.

Lemma no_dynamic nodes :
  0 <? dynamic_references nodes = false <-> forall node, node ∈ nodes -> node_kind node <> "dynamic_reference"%string.
Proof. unfold dynamic_references. rewrite no_filtered. by setoid_rewrite seqb_false. Qed.

(** What the analysis must have seen to call itself complete. *)
Record nothing_left_out (nodes : list StructuralGraphNode) (edges : list StructuralGraphEdge)
    (coverage : StructuralGraphCoverage) (truncated limited : bool) : Prop := {
  not_truncated : truncated = false;
  all_indexed : (discovered_files coverage <= indexed_files coverage)%N;
  none_skipped : skipped_files coverage = 0%N;
  no_errors : error_files coverage = 0%N;
  all_supported : unsupported_files coverage = 0%N;
  all_trusted : forall e, e ∈ edges -> is_algorithm_trusted (edge_trust e) = true;
  all_resolved : forall e, e ∈ edges -> from e ∈ map node_id nodes /\ to e ∈ map node_id nodes;
  none_dynamic : forall node, node ∈ nodes -> node_kind node <> "dynamic_reference"%string;
  some_entrypoint : exists node, node ∈ nodes /\ is_entrypoint node = true;
  not_limited : limited = false
}.
Lemma analysis_gaps_nil nodes edges found coverage truncated :
  run_facts (ordered nodes) (sorted_selection nodes edges) found ->
  analysis_gaps nodes (select_edges (index_nodes (ordered nodes)) edges) found coverage truncated = [] <->
  nothing_left_out nodes edges coverage truncated (is_output_truncated found).
Proof.
  intros [_ _ Hentry _ _]. unfold analysis_gaps, snapshot_gaps, graph_gaps.
  rewrite select_edges_ok, Hentry, dedup_sort_nil. cbn [excluded_edges unresolved_endpoints].
  rewrite !app_nil, !when_nil, no_excluded, no_entrypoints, no_dynamic, !N.ltb_ge, !N.le_0_r. split.
  - intros ((? & ? & ? & ? & ?) & (Hres & Ht & ? & ?) & ?). rewrite no_unresolved in Hres by done. by split.
  - intros [? ? ? ? ? Ht Hres ? ? ?]. apply no_unresolved in Hres; [|done]. by split_and!.
Qed.

(** The coverage record is honest.  The analysis calls itself and its
    reachability complete exactly where the snapshot was whole (not truncated, no file
    unindexed, skipped, failed or of an unsupported language), every edge was
    trusted and joins two known nodes, no node is a dynamic reference, there is
    an entry point, and no list of the results was cut; and where no list
    was cut, the metrics, the components and the two halves of the reachability
    answer each account for every node. *)
Theorem analysis_coverage_honest (nodes : list StructuralGraphNode) (edges : list StructuralGraphEdge)
    (coverage : StructuralGraphCoverage) (truncated : bool) :
  exists policy cover algorithms,
    analyze_trusted_algorithms nodes edges coverage truncated = Ok (policy, cover, algorithms) /\
    (complete cover = true <-> nothing_left_out nodes edges coverage truncated (output_truncated cover)) /\
    reachability_complete cover = complete cover /\ complete cover = is_nil (gaps cover) /\
    (output_truncated cover = false ->
       map metric_node_id (node_metrics algorithms) ≡ₚ map node_id nodes /\
       concat (map component_node_ids (component_results algorithms)) ≡ₚ map node_id nodes /\
       reachable_node_ids algorithms ++ unreachable_node_ids algorithms ≡ₚ map node_id nodes).
Proof.
  destruct (analyze_ok nodes edges coverage truncated) as (found & Hfacts & ->).
  eexists _, _, _. split; [reflexivity|]. cbn -[take]. split_and!; [|done|done|].
  - rewrite is_nil_true. by apply analysis_gaps_nil.
  - unfold is_output_truncated. rewrite !orb_false_iff, !Nat.ltb_ge.
    intros (((((Hm & Hc) & _) & Hr) & Hu) & _). rewrite !take_ge by done.
    destruct Hfacts as [Hmetrics (g & indices & built & Hholds & Hpart & Hshow & Hperm) _ _ (g' & marks & _ & _ & Hdiv & _)].
    unfold ordered in *. rewrite Hmetrics, Hperm, (map_concat_names _ _ _ _ Hshow), (partition_all _ _ Hpart),
      (holds_outgoing_length _ _ _ Hholds), names_seq, Hdiv. cbn [fst snd].
    rewrite marked_ids_split, order_nodes_perm. done.
Qed.

(** * Order *)

Lemma order_nodes_ext nodes nodes' :
  nodes ≡ₚ nodes' -> NoDup (map node_id nodes) -> order_nodes nodes = order_nodes nodes'.
Proof. intros Hperm Hids. apply (sort_by_key_ext node_id); [done|]. by apply key_identifies. Qed.
Lemma selected_ids nodes edges : NoDup (map edge_id edges) -> NoDup (map (fun e => edge_id (snd e)) (selected nodes edges)).
Proof.
  unfold selected. induction edges as [|e edges IH]; [constructor|]. cbn. intros [Hnew Hnd]%NoDup_cons.
  destruct (resolve_edge (index_nodes (ordered nodes)) e) as [[[u v] e']|] eqn:He; cbn; [|by apply IH].
  assert (e' = e) as ->.
  { unfold resolve_edge in He. destruct (is_algorithm_trusted _); [|done].
    destruct (map_get (from e) (index_nodes (ordered nodes))), (map_get (to e) (index_nodes (ordered nodes))); congruence. }
  constructor; [|by apply IH]. intros ([[u' v'] e'] & Heq & Hin%elem_of_selected)%list_elem_of_fmap.
  apply Hnew. cbn in Heq. rewrite Heq. apply list_elem_of_fmap_2. tauto.
Qed.
Lemma limit_results_ext nodes nodes' selection selection' found coverage truncated :
  nodes ≡ₚ nodes' -> included_kinds selection = included_kinds selection' ->
  execution_kinds selection = execution_kinds selection' ->
  length (trusted_edges selection) = length (trusted_edges selection') ->
  excluded_edges selection = excluded_edges selection' ->
  unresolved_endpoints selection = unresolved_endpoints selection' ->
  limit_results nodes selection found coverage truncated = limit_results nodes' selection' found coverage truncated.
Proof.
  intros Hperm Hk Hx Ht He Hu. unfold limit_results.
  assert (analysis_gaps nodes selection found coverage truncated =
    analysis_gaps nodes' selection' found coverage truncated) as ->; [|by rewrite Hk, Hx, Ht, He, Hu].
  unfold analysis_gaps, graph_gaps, dynamic_references. by rewrite He, Hu, (filter_perm_length _ _ _ Hperm).
Qed.

(** The analysis is a function of the sets of nodes and edges: where node
    ids and edge ids are distinct, listing the nodes and the edges in another
    order changes nothing in the policy, the coverage record or the results. *)
Theorem analysis_order_independent (nodes nodes' : list StructuralGraphNode) (edges edges' : list StructuralGraphEdge)
    (coverage : StructuralGraphCoverage) (truncated : bool)
    (Hnodes : nodes ≡ₚ nodes') (Hedges : edges ≡ₚ edges')
    (Hids : NoDup (map node_id nodes)) (Hedge_ids : NoDup (map edge_id edges)) :
  analyze_trusted_algorithms nodes edges coverage truncated =
  analyze_trusted_algorithms nodes' edges' coverage truncated.
Proof.
  unfold analyze_trusted_algorithms. rewrite <- (order_nodes_ext nodes nodes') by done. fold (ordered nodes).
  assert (omap (resolve_edge (index_nodes (ordered nodes))) edges' ≡ₚ selected nodes edges) as Hsel.
  { unfold selected. by rewrite Hedges. }
  assert (sort_edges (trusted_edges (select_edges (index_nodes (ordered nodes)) edges)) =
    sort_edges (trusted_edges (select_edges (index_nodes (ordered nodes)) edges'))) as ->.
  { rewrite !select_edges_ok. cbn [trusted_edges].
    apply (sort_by_key_ext (fun e : indexed_edge => edge_id (snd e))); [by rewrite Hsel|].
    apply key_identifies. by apply selected_ids. }
  destruct (run_algorithms _ _) as [found| |]; cbn [mbind outcome_bind]; [|done..]. f_equal.
  rewrite !select_edges_ok. apply limit_results_ext; cbn; [done| | | | |].
  - apply set_of_list_perm. by rewrite Hsel.
  - apply set_of_list_perm, filter_perm. by rewrite Hsel.
  - by rewrite Hsel.
  - by apply filter_perm_length.
  - by apply filter_perm_length.
Qed.
Lemma analysis_order_independent_witness :
  ex_graph_nodes <> reverse ex_graph_nodes /\
  analyze_trusted_algorithms ex_graph_nodes ex_graph_edges ex_coverage true =
  analyze_trusted_algorithms (reverse ex_graph_nodes) (reverse ex_graph_edges) ex_coverage true.
Proof.
  split; [done|].
  apply (analysis_order_independent ex_graph_nodes (reverse ex_graph_nodes) ex_graph_edges (reverse ex_graph_edges));
    [by rewrite reverse_Permutation|by rewrite reverse_Permutation|apply ex_graph_ids|].
  by apply (bool_decide_unpack _).
Defined.
