(* ===== verification/Communities.v ===== *)
(** The communities and the summary of
    [src/crates/codevetter-core/src/commands/structural_graph/analysis.rs]: label
    propagation from the path of each node, the communities with their hubs and
    bridges, and the summary that ranks nodes and connections.

    A [HashMap] that is only looked up, or iterated for a maximum that does not
    depend on the order, is a [BTreeMap]; a [HashSet] that is sorted or only
    asked for members is a [BTreeSet]. *)
From S2P Require Import Prelude Ordering Entries RustText GraphTypes F64 GraphAlgorithms Analysis.
Local Open Scope nat_scope.

Record StructuralGraphCommunity : Type := {
  community_entry_id : string;
  community_label : string;
  member_count : nat;
  hub_node_ids : list string;
  bridge_node_ids : list string;
  community_score : f64
}.
Record StructuralGraphNodeRank : Type := {
  rank_node_id : string;
  rank_label : string;
  rank_kind : string;
  rank_path : option string;
  rank_degree : nat;
  rank_score : f64;
  rank_reason : string
}.
Record StructuralGraphConnectionInsight : Type := {
  insight_edge_id : string;
  from_community_id : string;
  to_community_id : string;
  insight_score : f64;
  insight_reason : string
}.
Record StructuralGraphSuggestedQuestion : Type := {
  question : string;
  question_node_ids : list string;
  source_paths : list string
}.

(** ** Community keys *)

(** [Path::new(s).components()] on Unix, without the [.] components, each as a
    string. *)
Definition path_components (s : string) : list string :=
  when (starts_with "/" s) "/"%string
  ++ List.filter (fun c => negb (is_empty c) && negb (seqb c ".")) (split (N.eqb 47) s).
Definition community_key (node : StructuralGraphNode) : string :=
  match node_path node with
  | None => node_kind node
  | Some path =>
      match take 2 (path_components path) with
      | [] => "root"
      | [first] => first
      | first :: second :: _ =>
          if elemb first ["src"; "lib"; "app"; "pages"; "tests"]%string then first
          else (first ++ "/" ++ second)%string
      end
  end.

(** The neighbours of each node along the edges between known nodes. *)
Definition add_neighbors (node_ids : BTreeSet string) (m : BTreeMap string (list string)) (edge : StructuralGraphEdge)
    : BTreeMap string (list string) :=
  if negb (set_contains (from edge) node_ids) || negb (set_contains (to edge) node_ids) then m
  else push_entry (to edge) (from edge) (push_entry (from edge) (to edge) m).
Definition neighbor_lists (nodes : list StructuralGraphNode) (edges : list StructuralGraphEdge)
    : BTreeMap string (list string) :=
  let node_ids := set_of_list (map node_id nodes) in
  map (fun p => (fst p, dedup (sort (snd p)))) (foldl (add_neighbors node_ids) [] edges).

(** The best score; between equal scores the smaller label. *)
Definition better (best candidate : string * nat) : string * nat :=
  match then_with (Nat.compare (snd best) (snd candidate)) (cmp (fst candidate) (fst best)) with
  | Gt => best
  | _ => candidate
  end.
Definition max_score (scores : BTreeMap string nat) : option (string * nat) :=
  match scores with [] => None | s :: rest => Some (foldl better s rest) end.
Definition select_label (path_seed labels : BTreeMap string string) (neighbors : BTreeMap string (list string))
    (id : string) : option (string * string) :=
  match map_get id labels with
  | None => None
  | Some current =>
      let scores := add_count current 2 [] in
      let scores := match map_get id path_seed with Some seed => add_count seed 1 scores | None => scores end in
      let scores := foldl (fun scores neighbor =>
        match map_get neighbor labels with Some label => add_count label 1 scores | None => scores end)
        scores (default [] (map_get id neighbors)) in
      let selected := match max_score scores with Some s => fst s | None => current end in
      if seqb selected current then None else Some (id, selected)
  end.
(** At most [rounds] rounds; every node chooses before any label changes. *)
Fixpoint propagate (rounds : nat) (path_seed : BTreeMap string string) (neighbors : BTreeMap string (list string))
    (ordered_ids : list string) (labels : BTreeMap string string) : BTreeMap string string :=
  match rounds with
  | O => labels
  | S rounds =>
      let selections := omap (select_label path_seed labels neighbors) ordered_ids in
      if is_nil selections then labels
      else propagate rounds path_seed neighbors ordered_ids
             (foldl (fun labels s => map_insert (fst s) (snd s) labels) labels selections)
  end.
Definition assign_community_keys (nodes : list StructuralGraphNode) (edges : list StructuralGraphEdge)
    : BTreeMap string string :=
  let path_seed := map_of_list (map (fun node => (node_id node, community_key node)) nodes) in
  propagate 8 path_seed (neighbor_lists nodes edges) (sort (map node_id nodes)) path_seed.

(** ** Communities *)

Definition trusted_only (edges : list StructuralGraphEdge) : list StructuralGraphEdge :=
  List.filter (fun e => is_algorithm_trusted (edge_trust e)) edges.
Definition count_degrees (edges : list StructuralGraphEdge) : BTreeMap string nat :=
  foldl (fun degree e => add_count (to e) 1 (add_count (from e) 1 degree)) [] edges.
Definition add_bridge (keys : BTreeMap string string) (bridges : BTreeMap string (BTreeSet string))
    (e : StructuralGraphEdge) : BTreeMap string (BTreeSet string) :=
  match map_get (from e) keys, map_get (to e) keys with
  | Some from_community, Some to_community =>
      if seqb from_community to_community then bridges
      else insert_entry to_community (to e) (insert_entry from_community (from e) bridges)
  | _, _ => bridges
  end.
(** [community_key_by_node.get(id).cloned().unwrap_or("root")] *)
Definition key_of (keys : BTreeMap string string) (id : string) : string := default "root"%string (map_get id keys).
Definition set_community (keys : BTreeMap string string) (node : StructuralGraphNode) : StructuralGraphNode := {|
  node_id := node_id node; node_kind := node_kind node; label := label node; qualified_name := qualified_name node;
  node_path := node_path node; detail := detail node; language := language node;
  community_id := Some (stable_graph_id "community" (key_of keys (node_id node)));
  node_trust := node_trust node; node_origin := node_origin node; node_sources := node_sources node |}.
Definition build_community (degree : BTreeMap string nat) (bridges : BTreeMap string (BTreeSet string))
    (entry : string * list string) : StructuralGraphCommunity :=
  let member_ids := sort (snd entry) in
  let ranked := sort_by (fun left right => then_with (Nat.compare (count_of degree right) (count_of degree left))
                                             (cmp left right)) member_ids in {|
  community_entry_id := stable_graph_id "community" (fst entry);
  community_label := fst entry;
  member_count := length member_ids;
  hub_node_ids := take 5 (List.filter (fun id => 0 <? count_of degree id) ranked);
  bridge_node_ids := sort (default [] (map_get (fst entry) bridges));
  community_score := f64_of_nat (sum_list (map (count_of degree) member_ids)) |}.
(** The nodes with their communities, and the communities in the order of keys. *)
Definition analyze_graph (nodes : list StructuralGraphNode) (edges : list StructuralGraphEdge)
    : list StructuralGraphNode * list StructuralGraphCommunity :=
  let keys := assign_community_keys nodes (trusted_only edges) in
  let degree := count_degrees (trusted_only edges) in
  let bridges := foldl (add_bridge keys) [] (trusted_only edges) in
  let members := foldl (fun members node => push_entry (key_of keys (node_id node)) (node_id node) members) [] nodes in
  (map (set_community keys) nodes, map (build_community degree bridges) members).

(** ** The summary *)

Record StructuralGraphAnalysisSummary : Type := {
  summary_policy : StructuralGraphAnalysisPolicy;
  summary_coverage : StructuralGraphAnalysisCoverage;
  summary_algorithms : StructuralGraphAlgorithmResults;
  summary_communities : list StructuralGraphCommunity;
  hubs : list StructuralGraphNodeRank;
  super_hubs : list StructuralGraphNodeRank;
  bridges : list StructuralGraphNodeRank;
  cross_community_edges : list StructuralGraphConnectionInsight;
  surprising_connections : list StructuralGraphConnectionInsight;
  suggested_questions : list StructuralGraphSuggestedQuestion
}.

Definition index_by_id (nodes : list StructuralGraphNode) : BTreeMap string StructuralGraphNode :=
  map_of_list (map (fun node => (node_id node, node)) nodes).
Definition community_by_node (nodes : list StructuralGraphNode) : BTreeMap string string :=
  map_of_list (omap (fun node => match community_id node with
    | Some community => Some (node_id node, community) | None => None end) nodes).
Definition summary_edges (nodes : list StructuralGraphNode) (edges : list StructuralGraphEdge)
    : list StructuralGraphEdge :=
  let node_by_id := index_by_id nodes in
  List.filter (fun e => is_algorithm_trusted (edge_trust e) && map_contains_key (from e) node_by_id
                        && map_contains_key (to e) node_by_id) edges.
Definition super_hub_threshold (edge_count : nat) : N :=
  N.max (f64_ceil_usize (f64_sqrt (f64_of_nat edge_count))) 12.

Definition rank_node (degree : BTreeMap string nat) (node : StructuralGraphNode) : option StructuralGraphNodeRank :=
  let node_degree := count_of degree (node_id node) in
  if 0 <? node_degree then Some {|
    rank_node_id := node_id node; rank_label := label node; rank_kind := node_kind node;
    rank_path := node_path node; rank_degree := node_degree; rank_score := f64_of_nat node_degree;
    rank_reason := "deterministic total degree" |}
  else None.
Definition rank_by_degree (degree : BTreeMap string nat) (nodes : list StructuralGraphNode)
    : list StructuralGraphNodeRank :=
  sort_by (fun left right => then_with (Nat.compare (rank_degree right) (rank_degree left))
                               (cmp (rank_node_id left) (rank_node_id right))) (omap (rank_node degree) nodes).
Definition select_super_hubs (threshold : N) (ranked : list StructuralGraphNodeRank) : list StructuralGraphNodeRank :=
  take 20 (List.filter (fun rank => (threshold <=? N.of_nat (rank_degree rank))%N) ranked).
Definition select_hubs (super : list StructuralGraphNodeRank) (ranked : list StructuralGraphNodeRank)
    : list StructuralGraphNodeRank :=
  let super_hub_ids := set_of_list (map rank_node_id super) in
  take 20 (List.filter (fun rank => negb (set_contains (rank_node_id rank) super_hub_ids)) ranked).
Definition with_reason (reason : string) (rank : StructuralGraphNodeRank) : StructuralGraphNodeRank := {|
  rank_node_id := rank_node_id rank; rank_label := rank_label rank; rank_kind := rank_kind rank;
  rank_path := rank_path rank; rank_degree := rank_degree rank; rank_score := rank_score rank;
  rank_reason := reason |}.
Definition select_bridges (communities : list StructuralGraphCommunity) (ranked : list StructuralGraphNodeRank)
    : list StructuralGraphNodeRank :=
  let bridge_ids := set_of_list (concat (map bridge_node_ids communities)) in
  take 30 (map (with_reason "connects nodes assigned to different navigation communities")
    (List.filter (fun rank => set_contains (rank_node_id rank) bridge_ids) ranked)).

Definition cross_edge (communities : BTreeMap string string) (degree : BTreeMap string nat)
    (e : StructuralGraphEdge) : option StructuralGraphConnectionInsight :=
  match map_get (from e) communities, map_get (to e) communities with
  | Some from_community, Some to_community =>
      if seqb from_community to_community then None else
      let endpoint_degree := count_of degree (from e) + count_of degree (to e) in
      Some {| insight_edge_id := edge_id e; from_community_id := from_community; to_community_id := to_community;
              insight_score := f64_div f64_one (f64_of_nat (Nat.max endpoint_degree 1));
              insight_reason := (edge_kind e ++ " crosses navigation communities")%string |}
  | _, _ => None
  end.
Definition find_cross_edges (communities : BTreeMap string string) (degree : BTreeMap string nat)
    (edges : list StructuralGraphEdge) : list StructuralGraphConnectionInsight :=
  sort_by (fun left right => cmp (insight_edge_id left) (insight_edge_id right))
    (omap (cross_edge communities degree) edges).
Definition select_surprising (cross : list StructuralGraphConnectionInsight) : list StructuralGraphConnectionInsight :=
  take 20 (sort_by (fun left right => then_with (f64_total_cmp (insight_score right) (insight_score left))
                                        (cmp (insight_edge_id left) (insight_edge_id right))) cross).

Definition ask (node_by_id : BTreeMap string StructuralGraphNode) (before after : string)
    (rank : StructuralGraphNodeRank) : option StructuralGraphSuggestedQuestion :=
  match map_get (rank_node_id rank) node_by_id with
  | Some node => Some {| question := (before ++ label node ++ after)%string; question_node_ids := [node_id node];
                         source_paths := map path (node_sources node) |}
  | None => None
  end.
(** Up to five questions, about bridges first. *)
Definition suggest_questions (node_by_id : BTreeMap string StructuralGraphNode)
    (bridges hubs : list StructuralGraphNodeRank) : list StructuralGraphSuggestedQuestion :=
  let questions := omap (ask node_by_id "Why does " " connect multiple repository communities?") (take 5 bridges) in
  questions ++ omap (ask node_by_id "What depends on " ", and how is it verified?")
                 (take (5 - length questions) hubs).

Definition summarize_graph_analysis_with_context (nodes : list StructuralGraphNode)
    (edges : list StructuralGraphEdge) (communities : list StructuralGraphCommunity)
    (snapshot_coverage : StructuralGraphCoverage) (snapshot_truncated : bool)
    : outcome StructuralGraphAnalysisSummary :=
  let trusted := summary_edges nodes edges in
  let degree := count_degrees trusted in
  let ranked := rank_by_degree degree nodes in
  let super := select_super_hubs (super_hub_threshold (length trusted)) ranked in
  let hubs := select_hubs super ranked in
  let bridges := select_bridges communities ranked in
  let cross := find_cross_edges (community_by_node nodes) degree trusted in
  let questions := suggest_questions (index_by_id nodes) bridges hubs in
  analyzed ← analyze_trusted_algorithms nodes edges snapshot_coverage snapshot_truncated;
  Ok {| summary_policy := fst (fst analyzed); summary_coverage := snd (fst analyzed);
        summary_algorithms := snd analyzed; summary_communities := communities; hubs := hubs;
        super_hubs := super; bridges := bridges; cross_community_edges := take 100 cross;
        surprising_connections := select_surprising cross; suggested_questions := questions |}.
Definition summarize_graph_analysis (nodes : list StructuralGraphNode) (edges : list StructuralGraphEdge)
    (communities : list StructuralGraphCommunity) : outcome StructuralGraphAnalysisSummary :=
  summarize_graph_analysis_with_context nodes edges communities default_coverage false.

(** The graph of the unit test on communities: one bridge between two
    directories. *)
Definition ex_path_node (id path : string) : StructuralGraphNode := {|
  node_id := id; node_kind := "function"; label := id; qualified_name := None; node_path := Some path;
  detail := None; language := None; community_id := None; node_trust := Extracted; node_origin := OSyntax;
  node_sources := [] |}.
Definition ex_community_nodes : list StructuralGraphNode :=
  [ex_path_node "a" "apps/api/a.rs"; ex_path_node "b" "apps/api/b.rs"; ex_path_node "c" "apps/web/c.ts"]%string.
Definition ex_community_edges : list StructuralGraphEdge := [ex_edge "a" "b"; ex_edge "b" "c"]%string.
Example ex_communities :
  map (fun c => (community_label c, member_count c, hub_node_ids c, bridge_node_ids c))
    (snd (analyze_graph ex_community_nodes ex_community_edges)) =
  [("apps/api", 2, ["b"; "a"], ["b"]); ("apps/web", 1, ["c"], ["c"])]%string.
Proof. vm_compute. reflexivity. Qed.
Example ex_summary :
  (let '(nodes, communities) := analyze_graph ex_community_nodes ex_community_edges in
   s ← summarize_graph_analysis nodes ex_community_edges communities;
   Ok (map rank_node_id (hubs s), map rank_node_id (bridges s), map insight_edge_id (cross_community_edges s),
       map question (suggested_questions s))) =
  Ok (["b"; "a"; "c"], ["b"; "c"], ["b:c"],
      ["Why does b connect multiple repository communities?"; "Why does c connect multiple repository communities?";
       "What depends on b, and how is it verified?"; "What depends on a, and how is it verified?";
       "What depends on c, and how is it verified?"])%string.
Proof. vm_compute. reflexivity. Qed.
