(* ===== verification/CommunityProps.v ===== *)
(** Theorems about the communities of [Communities]: they partition the nodes,
    their labels come from the nodes' paths, their bridges are exactly the ends of
    the trusted edges between communities, and none of it depends on the order of
    nodes and edges. *)
From S2P Require Import Prelude Ordering Entries RustText GraphTypes F64 GraphAlgorithms Analysis Communities.
Local Open Scope nat_scope.

Lemma foldl_inv {S X} (P : S -> Prop) (f : S -> X -> S) s l : P s -> (forall s x, P s -> P (f s x)) -> P (foldl f s l).
Proof. intros Hs Hf. revert s Hs. induction l as [|x l IH]; intros s Hs; cbn; auto. Qed.
(** Folding a permuted list, up to an equivalence the steps respect and
    under which they commute. *)
Lemma foldl_perm {S X} (R : S -> S -> Prop) `{!Equivalence R} (P : S -> Prop) (f : S -> X -> S) l l' :
  (forall s x, P s -> P (f s x)) -> (forall s s' x, P s -> P s' -> R s s' -> R (f s x) (f s' x)) ->
  (forall s x y, P s -> R (f (f s x) y) (f (f s y) x)) -> l ≡ₚ l' ->
  forall s, P s -> R (foldl f s l) (foldl f s l').
Proof.
  intros HP Hf Hswap Hperm.
  assert (forall l s s', P s -> P s' -> R s s' -> R (foldl f s l) (foldl f s' l)) as Hfold.
  { clear Hperm. intros k. induction k as [|x k IH]; intros s s' Hs Hs' HR; cbn; auto. }
  induction Hperm as [|x l l' _ IH|x y l|l1 l2 l3 _ IH1 _ IH2]; intros s Hs; cbn; [done|auto| |by etrans; auto].
  apply Hfold; auto.
Qed.

(** Maps with the same keys and permuted entries. *)
Definition same_entries {A} (m1 m2 : BTreeMap string (list A)) : Prop :=
  forall k, (map_get k m1 = None <-> map_get k m2 = None) /\ default [] (map_get k m1) ≡ₚ default [] (map_get k m2).
#[export] Instance same_entries_equivalence {A} : Equivalence (@same_entries A).
Proof.
  split.
  - intros m k. done.
  - intros m1 m2 Hm k. destruct (Hm k). done.
  - intros m1 m2 m3 H12 H23 k. destruct (H12 k) as [E12 P12], (H23 k) as [E23 P23].
    split; [by rewrite E12|by rewrite P12].
Qed.
Lemma push_entry_same {A} key (x : A) m m' :
  map_wf m -> map_wf m' -> same_entries m m' -> same_entries (push_entry key x m) (push_entry key x m').
Proof.
  intros Hwf Hwf' Hm k. rewrite !map_get_push by done. destruct (Hm k) as [Hnone Hperm].
  case_decide; cbn; [|done]. split; [done|]. by rewrite Hperm.
Qed.
Lemma push_entry_swap {A} k1 (x1 : A) k2 x2 m :
  map_wf m -> same_entries (push_entry k1 x1 (push_entry k2 x2 m)) (push_entry k2 x2 (push_entry k1 x1 m)).
Proof.
  intros Hwf k. rewrite !map_get_push by auto with entries.
  repeat case_decide; subst; cbn; try done. split; [done|]. by rewrite <- !app_assoc, (Permutation_app_comm [x2]).
Qed.
(** Sorting the entries forgets their order. *)
Lemma same_entries_keys {A} (m1 m2 : BTreeMap string (list A)) :
  map_wf m1 -> map_wf m2 -> same_entries m1 m2 -> map_keys m1 = map_keys m2.
Proof.
  intros H1 H2 Hm. apply sorted_ext; [done..|]. intros k. rewrite <- !map_get_is_Some, <- !not_eq_None_Some.
  by destruct (Hm k) as [-> _].
Qed.
Lemma same_entries_map {A C} (f : string * list A -> C) (m1 m2 : BTreeMap string (list A)) :
  map_wf m1 -> map_wf m2 -> same_entries m1 m2 -> (forall k l l', l ≡ₚ l' -> f (k, l) = f (k, l')) ->
  map f m1 = map f m2.
Proof.
  intros H1 H2 Hm Hf. pose proof (same_entries_keys m1 m2 H1 H2 Hm) as Hkeys. unfold map_keys in Hkeys.
  apply list_eq. intros i. change (map ?f ?l) with (f <$> l) in *. rewrite !list_lookup_fmap.
  assert (fst <$> m1 !! i = fst <$> m2 !! i) as Hi by by rewrite <- !list_lookup_fmap, Hkeys.
  destruct (m1 !! i) as [[k l]|] eqn:E1, (m2 !! i) as [[k' l']|] eqn:E2; cbn in *; try done. injection Hi as <-.
  f_equal. apply Hf. destruct (Hm k) as [_ Hperm].
  rewrite (proj2 (map_get_Some k l m1 H1)), (proj2 (map_get_Some k l' m2 H2)) in Hperm; [done|..];
    by eapply list_elem_of_lookup_2.
Qed.

(** * Labels *)

Lemma max_score_elem scores s : max_score scores = Some s -> s ∈ scores.
Proof.
  destruct scores as [|s0 rest]; [done|]. cbn. intros [= <-]. revert s0.
  induction rest as [|s1 rest IH]; intros s0; cbn; [by left|].
  specialize (IH (better s0 s1)). assert (better s0 s1 = s0 \/ better s0 s1 = s1) as [E|E];
    [|rewrite E, !elem_of_cons in *; tauto..].
  unfold better. destruct (then_with _ _); auto.
Qed.

Section Labels.
Context (universe : string -> Prop).
Definition labels_in (m : BTreeMap string string) : Prop := map_wf m /\ forall id key, map_get id m = Some key -> universe key.
Definition scores_in (m : BTreeMap string nat) : Prop := map_wf m /\ forall key, key ∈ map_keys m -> universe key.

Lemma add_count_in key n m : universe key -> scores_in m -> scores_in (add_count key n m).
Proof.
  intros Hkey [Hwf Hm]. split; [auto with entries|]. intros k [->|Hk]%elem_of_map_keys_insert; auto.
Qed.
Lemma select_label_in path_seed labels neighbors id r :
  labels_in path_seed -> labels_in labels -> select_label path_seed labels neighbors id = Some r ->
  fst r = id /\ is_Some (map_get id labels) /\ universe (snd r).
Proof.
  intros [Hps Hseed] [Hls Hlabels]. unfold select_label. destruct (map_get id labels) as [current|] eqn:Hcur; [|done].
  match goal with |- context [max_score ?s] => set (scores := s) end.
  assert (scores_in scores) as [_ Hscores].
  { unfold scores. apply foldl_inv.
    - assert (scores_in (add_count current 2 [])) as H0.
      { apply add_count_in; [by eapply Hlabels|]. split; [constructor|]. by intros k ?%not_elem_of_nil. }
      destruct (map_get id path_seed) as [seed|] eqn:Hs; [|done]. apply add_count_in; [by eapply Hseed|done].
    - intros s x Hs. destruct (map_get x labels) as [l|] eqn:Hl; [|done]. apply add_count_in; [by eapply Hlabels|done]. }
  assert (universe (match max_score scores with Some s => fst s | None => current end)) as Hsel.
  { destruct (max_score scores) as [s|] eqn:Hmax; [|by eapply Hlabels].
    apply Hscores, list_elem_of_fmap_2. by apply max_score_elem. }
  destruct (seqb _ _); [done|]. intros [= <-]. by split_and!; [|eexists|].
Qed.
Lemma propagate_in rounds path_seed neighbors ids labels :
  labels_in path_seed -> labels_in labels ->
  labels_in (propagate rounds path_seed neighbors ids labels) /\
  forall id, is_Some (map_get id (propagate rounds path_seed neighbors ids labels)) <-> is_Some (map_get id labels).
Proof.
  intros Hseed. revert labels. induction rounds as [|rounds IH]; intros labels Hlabels; cbn; [done|].
  destruct (is_nil _); [done|]. set (selections := omap _ _).
  assert (forall r, r ∈ selections -> is_Some (map_get (fst r) labels) /\ universe (snd r)) as Hsel.
  { intros r (id & _ & Hr)%list_elem_of_omap. by apply select_label_in in Hr as (-> & ? & ?). }
  clearbody selections.
  assert (labels_in (foldl (fun labels s => map_insert (fst s) (snd s) labels) labels selections) /\
    forall id, is_Some (map_get id (foldl (fun labels s => map_insert (fst s) (snd s) labels) labels selections)) <->
      is_Some (map_get id labels)) as [Hin Hdom].
  { clear IH. revert labels Hlabels Hsel. induction selections as [|[id key] l IH]; intros labels [Hwf Hl] Hsel; cbn; [done|].
    destruct (Hsel (id, key) ltac:(left)) as [Hid Hkey]. cbn in *.
    assert (forall k, is_Some (map_get k (map_insert id key labels)) <-> is_Some (map_get k labels)) as Hsame.
    { intros k. rewrite !map_get_is_Some, elem_of_map_keys_insert. apply map_get_is_Some in Hid. naive_solver. }
    destruct (IH (map_insert id key labels)) as [Hin Hdom].
    - split; [auto with ordered|]. intros k key'. rewrite map_get_insert by done.
      destruct (cmp k id); [by intros [= <-]|apply Hl..].
    - intros r Hr. rewrite Hsame. apply Hsel. by right.
    - split; [done|]. intros k. by rewrite Hdom. }
  destruct (IH _ Hin) as [Hp Hd]. split; [done|]. intros id. by rewrite Hd.
Qed.
End Labels.

(** Every known node has a label, and labels are keys of nodes. *)
Lemma assign_community_keys_ok nodes edges :
  map_wf (assign_community_keys nodes edges) /\
  (forall id, is_Some (map_get id (assign_community_keys nodes edges)) <-> id ∈ map node_id nodes) /\
  (forall id key, map_get id (assign_community_keys nodes edges) = Some key -> key ∈ map community_key nodes).
Proof.
  unfold assign_community_keys. set (seed := map_of_list _).
  assert (labels_in (fun key => key ∈ map community_key nodes) seed) as Hseed.
  { split; [apply map_of_list_wf|]. intros id key (node & [= _ ->] & Hn)%map_of_list_elem%list_elem_of_fmap.
    by apply list_elem_of_fmap_2. }
  destruct (propagate_in _ 8 seed (neighbor_lists nodes edges) (sort (map node_id nodes)) seed Hseed Hseed)
    as [[Hwf Hin] Hdom].
  split_and!; [done| |done]. intros id. rewrite Hdom, map_get_is_Some. unfold seed. rewrite map_of_list_keys, map_map. done.
Qed.

(** * Members and bridges *)

Definition collect_members (keys : BTreeMap string string) (nodes : list StructuralGraphNode) : BTreeMap string (list string) :=
  foldl (fun members node => push_entry (key_of keys (node_id node)) (node_id node) members) [] nodes.
Definition members_of (keys : BTreeMap string string) (nodes : list StructuralGraphNode) (key : string) : list string :=
  List.filter (fun id => seqb (key_of keys id) key) (map node_id nodes).
Lemma collect_members_wf keys nodes : map_wf (collect_members keys nodes).
Proof. unfold collect_members. apply foldl_inv; [constructor|auto with entries]. Qed.
Lemma map_get_members keys nodes key :
  map_get key (collect_members keys nodes) =
  if is_nil (members_of keys nodes key) then None else Some (members_of keys nodes key).
Proof.
  induction nodes as [|node nodes IH] using rev_ind; [done|].
  unfold collect_members, members_of in *. rewrite foldl_app, map_app, List.filter_app. cbn [foldl map].
  rewrite map_get_push, IH by apply collect_members_wf. cbn [List.filter].
  destruct (decide (key = key_of keys (node_id node))) as [->|Hne].
  - rewrite (proj2 (seqb_true _ _)) by done.
    destruct (List.filter _ (map node_id nodes)); done.
  - rewrite (proj2 (seqb_false _ _)) by done. by rewrite app_nil_r.
Qed.

(** A trusted edge that joins two communities, [key] being the one of [id]. *)
Definition bridged (keys : BTreeMap string string) (edges : list StructuralGraphEdge) (key id : string) : Prop :=
  exists e from_key to_key, e ∈ edges /\ map_get (from e) keys = Some from_key /\ map_get (to e) keys = Some to_key /\
    from_key <> to_key /\ ((key = from_key /\ id = from e) \/ (key = to_key /\ id = to e)).
Definition collect_bridges (keys : BTreeMap string string) (edges : list StructuralGraphEdge) : BTreeMap string (BTreeSet string) :=
  foldl (add_bridge keys) [] edges.
Lemma collect_bridges_ok keys edges :
  map_wf (collect_bridges keys edges) /\
  forall key, StronglySorted lt (default [] (map_get key (collect_bridges keys edges))) /\
    forall id, id ∈ default [] (map_get key (collect_bridges keys edges)) <-> bridged keys edges key id.
Proof.
  unfold collect_bridges. induction edges as [|e edges [Hwf IH]] using rev_ind.
  { split; [constructor|]. intros key. split; [constructor|]. intros id. cbn. split; [by intros ?%not_elem_of_nil|].
    by intros (e & ? & ? & ?%not_elem_of_nil & _). }
  rewrite foldl_app. cbn [foldl]. set (before := foldl (add_bridge keys) [] edges) in *.
  assert (forall key id, bridged keys (edges ++ [e]) key id <-> bridged keys edges key id \/ bridged keys [e] key id) as Hsnoc.
  { intros key id. unfold bridged. setoid_rewrite elem_of_app. naive_solver. }
  assert (forall kf kt, map_get (from e) keys = Some kf -> map_get (to e) keys = Some kt -> forall key id,
    bridged keys [e] key id <-> kf <> kt /\ ((key = kf /\ id = from e) \/ (key = kt /\ id = to e))) as Hone.
  { intros kf kt Hf Ht key id. unfold bridged. setoid_rewrite list_elem_of_singleton. split.
    - intros (? & ? & ? & -> & ? & ? & ? & ?). by simplify_eq.
    - intros [? ?]. by exists e, kf, kt. }
  unfold add_bridge. destruct (map_get (from e) keys) as [kf|] eqn:Hf, (map_get (to e) keys) as [kt|] eqn:Ht.
  2-4: split; [done|]; intros key; destruct (IH key) as [Hs Hin]; split; [done|]; intros id; rewrite Hsnoc, Hin;
    unfold bridged; setoid_rewrite list_elem_of_singleton; naive_solver.
  destruct (seqb kf kt) eqn:Hk.
  - apply seqb_true in Hk. split; [done|]. intros key. destruct (IH key) as [Hs Hin]. split; [done|].
    intros id. rewrite Hsnoc, Hin, (Hone kf kt) by done. tauto.
  - apply seqb_false in Hk. split; [auto with entries|]. intros key. destruct (IH key) as [Hs Hin].
    rewrite !map_get_insert_entry by auto with entries. split.
    + repeat case_decide; cbn; auto using set_insert_sorted.
    + intros id. rewrite Hsnoc, <- Hin, (Hone kf kt) by done.
      repeat case_decide; cbn; rewrite ?elem_of_set_insert; naive_solver.
Qed.

Lemma collect_members_concat keys nodes : concat (map snd (collect_members keys nodes)) ≡ₚ map node_id nodes.
Proof.
  induction nodes as [|node nodes IH] using rev_ind; [done|]. unfold collect_members in *.
  rewrite foldl_app, map_app. cbn [foldl map]. rewrite push_entry_concat by apply (collect_members_wf keys nodes).
  rewrite IH. by rewrite Permutation_app_comm.
Qed.

(** The ends of the edges, counted. *)
Definition ends (edges : list StructuralGraphEdge) : list string := concat (map (fun e => [from e; to e]) edges).
Lemma count_degrees_ok edges id : 0 < count_of (count_degrees edges) id -> exists e, e ∈ edges /\ (id = from e \/ id = to e).
Proof.
  unfold count_degrees. enough (map_wf (foldl (fun degree e => add_count (to e) 1 (add_count (from e) 1 degree)) [] edges) /\
    (0 < count_of (foldl (fun degree e => add_count (to e) 1 (add_count (from e) 1 degree)) [] edges) id ->
     exists e, e ∈ edges /\ (id = from e \/ id = to e))) as [_ ?] by done.
  induction edges as [|e edges [Hwf IH]] using rev_ind; [split; [constructor|cbn; lia]|].
  rewrite foldl_app. cbn [foldl]. split; [auto with entries|]. unfold count_of at 1.
  rewrite !map_get_add by auto with entries. setoid_rewrite elem_of_app.
  destruct (decide (id = to e)) as [->|]; [intros _; exists e; split; [right; left|by right]|].
  destruct (decide (id = from e)) as [->|]; [intros _; exists e; split; [right; left|by left]|].
  intros Hpos. destruct (IH Hpos) as (e' & ? & ?). exists e'. auto.
Qed.

(** What the communities say about the nodes they were built from. *)
Record community_ok (keys : BTreeMap string string) (nodes : list StructuralGraphNode) (edges : list StructuralGraphEdge)
    (c : StructuralGraphCommunity) : Prop := {
  community_identity : community_entry_id c = stable_graph_id "community" (community_label c);
  community_from_path : community_label c ∈ map community_key nodes;
  community_members : member_count c = length (members_of keys nodes (community_label c)) /\ 0 < member_count c;
  community_hubs : length (hub_node_ids c) <= 5 /\ forall id, id ∈ hub_node_ids c ->
    id ∈ members_of keys nodes (community_label c) /\ exists e, e ∈ edges /\ (id = from e \/ id = to e);
  community_bridges : StronglySorted (fun x y => cmp x y <> Gt) (bridge_node_ids c) /\
    forall id, id ∈ bridge_node_ids c <-> bridged keys edges (community_label c) id
}.

Lemma key_of_known nodes edges id :
  id ∈ map node_id nodes -> key_of (assign_community_keys nodes edges) id ∈ map community_key nodes.
Proof.
  destruct (assign_community_keys_ok nodes edges) as (_ & Hdom & Hkey). intros [key Hget]%Hdom.
  unfold key_of. rewrite Hget. by eapply Hkey.
Qed.
Lemma build_community_ok nodes edges entry :
  let keys := assign_community_keys nodes edges in
  entry ∈ collect_members keys nodes ->
  community_ok keys nodes edges (build_community (count_degrees edges) (collect_bridges keys edges) entry).
Proof.
  intros keys Hentry. destruct entry as [key ids]. pose proof (collect_members_wf keys nodes) as Hwf.
  apply map_get_Some in Hentry; [|done]. rewrite map_get_members in Hentry.
  destruct (members_of keys nodes key) as [|id0 rest] eqn:Hm; [done|]. cbn in Hentry. injection Hentry as <-.
  assert (forall id, id ∈ members_of keys nodes key -> id ∈ map node_id nodes /\ key_of keys id = key) as Hmember.
  { intros id [Hin Hk]%list_elem_of_In%filter_In. by rewrite list_elem_of_In, <- seqb_true. }
  destruct (collect_bridges_ok keys edges) as [_ Hbridges]. destruct (Hbridges key) as [Hsorted Hin].
  split; cbn [community_entry_id community_label member_count hub_node_ids bridge_node_ids build_community fst snd].
  - done.
  - destruct (Hmember id0) as [Hid <-]; [rewrite Hm; left|]. by apply key_of_known.
  - unfold sort. rewrite sort_by_length, Hm. cbn. lia.
  - split; [rewrite length_take; lia|]. intros id Hid%elem_of_take. destruct Hid as (i & Hid & _).
    apply list_elem_of_lookup_2, list_elem_of_In, filter_In in Hid as [Hid Hpos%Nat.ltb_lt].
    unfold sort in Hid. apply list_elem_of_In in Hid. rewrite !elem_of_sort_by, <- Hm in Hid. split; [done|]. by apply count_degrees_ok.
  - split; [apply (sort_by_key_sorted (fun x : string => x))|]. intros id. unfold sort. by rewrite elem_of_sort_by.
Qed.

(** C33: the communities partition the nodes.  Analysing a graph changes nothing
    of a node but its community; the communities come in strictly increasing order
    of their labels, each label is the community key of some node, together
    they count every node once, and every node names one of them.  A community's
    hubs are at most five of its members, each the end of a trusted edge, and its
    bridges are exactly the ends in it of trusted edges to other communities. *)
Theorem communities_partition (nodes : list StructuralGraphNode) (edges : list StructuralGraphEdge) :
  exists keys nodes' communities, analyze_graph nodes edges = (nodes', communities) /\
    map node_id nodes' = map node_id nodes /\ map node_sources nodes' = map node_sources nodes /\
    StronglySorted lt (map community_label communities) /\
    sum_list (map member_count communities) = length nodes /\
    (forall c, c ∈ communities -> community_ok keys nodes (trusted_only edges) c) /\
    (forall node, node ∈ nodes' -> exists c, c ∈ communities /\ community_label c = key_of keys (node_id node) /\
       community_id node = Some (community_entry_id c)).
Proof.
  set (keys := assign_community_keys nodes (trusted_only edges)).
  exists keys. eexists _, _. split; [reflexivity|]. cbv zeta. fold keys (collect_members keys nodes) (collect_bridges keys (trusted_only edges)).
  rewrite !map_map. cbn [node_id node_sources set_community community_label build_community member_count].
  split_and!; [done|done| | | |].
  - apply (collect_members_wf keys nodes).
  - rewrite <- (length_map node_id nodes), <- (collect_members_concat keys nodes).
    induction (collect_members keys nodes) as [|[k l] m IH]; [done|]. cbn. unfold sort in *. by rewrite sort_by_length, length_app, IH.
  - intros c (entry & -> & Hentry)%list_elem_of_fmap. by apply build_community_ok.
  - intros node' (node & -> & Hnode)%list_elem_of_fmap. cbn [node_id set_community community_id].
    assert (is_Some (map_get (key_of keys (node_id node)) (collect_members keys nodes))) as [l Hl].
    { rewrite map_get_members. destruct (members_of keys nodes (key_of keys (node_id node))) as [|x l] eqn:Hm; [exfalso|by eexists].
      apply (not_elem_of_nil (node_id node)). rewrite <- Hm. apply list_elem_of_In, filter_In.
      split; [by apply list_elem_of_In, list_elem_of_fmap_2|by apply seqb_true]. }
    apply map_get_Some in Hl; [|apply collect_members_wf].
    eexists. split; [by apply list_elem_of_fmap_2|]. done.
Qed.

(** * Order *)

Section Order.
Context (nodes nodes' : list StructuralGraphNode) (edges edges' : list StructuralGraphEdge).
Context (Hnodes : nodes ≡ₚ nodes') (Hedges : edges ≡ₚ edges') (Hids : NoDup (map node_id nodes)).

Lemma map_of_list_perm {V} (l l' : list (string * V)) : l ≡ₚ l' -> NoDup (map fst l) -> map_of_list l = map_of_list l'.
Proof.
  intros Hperm Hnd. apply map_ext_get; [apply map_of_list_wf..|]. intros k. apply option_eq. intros v.
  rewrite !map_of_list_get; [by rewrite Hperm| |done]. by rewrite <- Hperm.
Qed.

Lemma pushes_equiv {A} m (l l' : list (string * A)) :
  map_wf m -> l ≡ₚ l' ->
  same_entries (foldl (fun m p => push_entry (fst p) (snd p) m) m l) (foldl (fun m p => push_entry (fst p) (snd p) m) m l').
Proof.
  intros Hm Hperm. apply (foldl_perm same_entries map_wf); auto using push_entry_same, push_entry_swap with entries.
Qed.
Lemma neighbor_lists_perm : neighbor_lists nodes edges = neighbor_lists nodes' edges'.
Proof.
  unfold neighbor_lists. rewrite (set_of_list_perm (map node_id nodes) (map node_id nodes')) by by rewrite Hnodes.
  set (ids := set_of_list _).
  assert (forall es, map_wf (foldl (add_neighbors ids) [] es)) as Hwf.
  { intros es. apply foldl_inv; [constructor|]. intros m e Hm. unfold add_neighbors.
    destruct (_ || _); auto with entries. }
  apply same_entries_map; [done|done| |].
  - apply (foldl_perm same_entries map_wf); [| | |done|constructor].
    + intros m e Hm. unfold add_neighbors. destruct (_ || _); auto with entries.
    + intros m m' e Hm Hm' Hsame. unfold add_neighbors. destruct (_ || _); [done|].
      apply push_entry_same; auto using push_entry_same with entries.
    + intros m e1 e2 Hm. unfold add_neighbors.
      destruct (negb (set_contains (from e1) ids) || _), (negb (set_contains (from e2) ids) || _); try done.
      apply (pushes_equiv m [(from e1, to e1); (to e1, from e1); (from e2, to e2); (to e2, from e2)]
        [(from e2, to e2); (to e2, from e2); (from e1, to e1); (to e1, from e1)]); [done|].
      apply (Permutation_app_comm [_; _] [_; _]).
  - intros k l l' Hl. cbn [fst snd]. by rewrite (sort_perm_eq l l' Hl).
Qed.
Lemma assign_community_keys_perm : assign_community_keys nodes edges = assign_community_keys nodes' edges'.
Proof.
  unfold assign_community_keys. rewrite neighbor_lists_perm.
  rewrite (sort_perm_eq (map node_id nodes) (map node_id nodes')) by by rewrite Hnodes.
  rewrite (map_of_list_perm (map (fun node => (node_id node, community_key node)) nodes)
    (map (fun node => (node_id node, community_key node)) nodes')); [done|by rewrite Hnodes|].
  by rewrite map_map.
Qed.
Lemma add_count_swap k1 n1 k2 n2 m : map_wf m -> add_count k1 n1 (add_count k2 n2 m) = add_count k2 n2 (add_count k1 n1 m).
Proof.
  intros Hm. apply map_ext_get; [auto with entries..|]. intros k. rewrite !map_get_add by auto with entries.
  unfold count_of. rewrite !map_get_add by auto with entries. unfold count_of.
  repeat case_decide; subst; cbn; try done. f_equal. lia.
Qed.
Lemma count_degrees_perm : count_degrees edges = count_degrees edges'.
Proof.
  unfold count_degrees. apply (foldl_perm eq map_wf); [|by intros m m' e _ _ ->| |done|constructor].
  - intros m e Hm. auto with entries.
  - intros m e1 e2 Hm. rewrite (add_count_swap (from e2)), (add_count_swap (from e2) 1 (from e1)) by auto with entries.
    rewrite (add_count_swap (to e2)) by auto with entries. f_equal.
    by rewrite (add_count_swap (to e2)) by auto with entries.
Qed.
Lemma collect_bridges_perm keys key :
  default [] (map_get key (collect_bridges keys edges)) = default [] (map_get key (collect_bridges keys edges')).
Proof.
  destruct (collect_bridges_ok keys edges) as [_ H1], (collect_bridges_ok keys edges') as [_ H2].
  destruct (H1 key) as [Hs1 Hin1], (H2 key) as [Hs2 Hin2]. apply sorted_ext; [done..|].
  intros id. rewrite Hin1, Hin2. unfold bridged. by setoid_rewrite Hedges.
Qed.
Lemma collect_members_perm keys : same_entries (collect_members keys nodes) (collect_members keys nodes').
Proof.
  unfold collect_members. apply (foldl_perm same_entries map_wf); [| | |done|constructor].
  - auto with entries.
  - intros m m' node Hm Hm' Hsame. by apply push_entry_same.
  - intros m n1 n2 Hm. by apply push_entry_swap.
Qed.
End Order.

(** The communities do not depend on the order of the input: where
    node ids are distinct, listing the nodes and the edges in another order gives
    the same communities, with the same hubs, bridges and scores, and assigns
    every node the same community. *)
Theorem communities_order_independent (nodes nodes' : list StructuralGraphNode) (edges edges' : list StructuralGraphEdge)
    (Hnodes : nodes ≡ₚ nodes') (Hedges : edges ≡ₚ edges') (Hids : NoDup (map node_id nodes)) :
  snd (analyze_graph nodes edges) = snd (analyze_graph nodes' edges') /\
  fst (analyze_graph nodes edges) ≡ₚ fst (analyze_graph nodes' edges').
Proof.
  assert (trusted_only edges ≡ₚ trusted_only edges') as Htrusted by by apply filter_perm.
  unfold analyze_graph. cbn [fst snd].
  rewrite <- (assign_community_keys_perm nodes nodes' (trusted_only edges) (trusted_only edges')) by done.
  set (keys := assign_community_keys nodes (trusted_only edges)). split; [|by rewrite Hnodes].
  fold (collect_members keys nodes) (collect_members keys nodes').
  fold (collect_bridges keys (trusted_only edges)) (collect_bridges keys (trusted_only edges')).
  rewrite <- (count_degrees_perm (trusted_only edges) (trusted_only edges')) by done.
  etrans.
  - apply same_entries_map; [apply collect_members_wf..|by apply (collect_members_perm nodes nodes')|].
    intros k l l' Hl. unfold build_community. cbn [fst snd]. by rewrite (sort_perm_eq l l' Hl).
  - apply map_ext. intros [k l]. unfold build_community. cbn [fst snd].
    by rewrite (collect_bridges_perm (trusted_only edges) (trusted_only edges') Htrusted keys k).
Qed.
Lemma communities_order_independent_witness :
  NoDup (map node_id ex_community_nodes) /\
  snd (analyze_graph ex_community_nodes ex_community_edges) =
  snd (analyze_graph (reverse ex_community_nodes) (reverse ex_community_edges)).
Proof.
  split; [by apply (bool_decide_unpack _)|].
  apply (communities_order_independent ex_community_nodes (reverse ex_community_nodes) ex_community_edges
    (reverse ex_community_edges)); [by rewrite reverse_Permutation..|]. by apply (bool_decide_unpack _).
Defined.
