(* ===== verification/SummaryProps.v ===== *)
(** The summary of [Communities]: it always returns, its lists are bounded, and
    what they show are ranked nodes and trusted edges between communities. *)
From S2P Require Import Prelude Ordering Entries RustText GraphTypes F64 GraphAlgorithms Analysis AnalysisTheorems Communities CommunityProps.
Local Open Scope nat_scope.

Lemma elem_of_take_filter {A} (p : A -> bool) k (l : list A) x : x ∈ take k (List.filter p l) -> x ∈ l /\ p x = true.
Proof.
  intros (i & Hi & _)%elem_of_take. apply list_elem_of_lookup_2, list_elem_of_In, filter_In in Hi as [Hi Hp].
  split; [by apply list_elem_of_In|done].
Qed.
Lemma length_take_le {A} k (l : list A) : length (take k l) <= k.
Proof. rewrite length_take. lia. Qed.
Lemma length_omap {A B} (f : A -> option B) l : length (omap f l) <= length l.
Proof. induction l as [|x l IH]; cbn; [done|]. destruct (f x); cbn; lia. Qed.

Section Summary.
Context (nodes : list StructuralGraphNode) (edges : list StructuralGraphEdge).
Definition summary_degree : BTreeMap string nat := count_degrees (summary_edges nodes edges).
Definition summary_ranked : list StructuralGraphNodeRank := rank_by_degree summary_degree nodes.

(** A rank tells of a node that some trusted edge between known nodes touches. *)
Definition ranks_node (rank : StructuralGraphNodeRank) : Prop :=
  0 < rank_degree rank /\ exists node, node ∈ nodes /\ node_id node = rank_node_id rank /\
    rank_degree rank = count_of summary_degree (node_id node).
Lemma ranked_ok rank : rank ∈ summary_ranked -> ranks_node rank.
Proof.
  unfold summary_ranked, rank_by_degree. rewrite elem_of_sort_by, list_elem_of_omap. intros (node & Hn & Hr).
  unfold rank_node in Hr. destruct (Nat.ltb_spec 0 (count_of summary_degree (node_id node))); [|done].
  injection Hr as <-. split; [done|]. by exists node.
Qed.
(** An insight tells of a trusted edge between known nodes of two communities. *)
Definition joins_communities (insight : StructuralGraphConnectionInsight) : Prop :=
  from_community_id insight <> to_community_id insight /\
  exists e a b, e ∈ edges /\ edge_id e = insight_edge_id insight /\ is_algorithm_trusted (edge_trust e) = true /\
    a ∈ nodes /\ node_id a = from e /\ community_id a = Some (from_community_id insight) /\
    b ∈ nodes /\ node_id b = to e /\ community_id b = Some (to_community_id insight).
Lemma community_by_node_sound id community :
  map_get id (community_by_node nodes) = Some community ->
  exists node, node ∈ nodes /\ node_id node = id /\ community_id node = Some community.
Proof.
  intros (node & Hn & Hc)%map_of_list_elem%list_elem_of_omap. exists node.
  destruct (community_id node); [|done]. by injection Hc as -> ->.
Qed.
Lemma cross_edges_ok insight :
  insight ∈ find_cross_edges (community_by_node nodes) summary_degree (summary_edges nodes edges) ->
  joins_communities insight.
Proof.
  unfold find_cross_edges. rewrite elem_of_sort_by, list_elem_of_omap. intros (e & He & Hc).
  apply list_elem_of_In, filter_In in He as [He%list_elem_of_In Htrust]. rewrite !andb_true_iff in Htrust.
  unfold cross_edge in Hc. destruct (map_get (from e) (community_by_node nodes)) as [cf|] eqn:Hf; [|done].
  destruct (map_get (to e) (community_by_node nodes)) as [ct|] eqn:Ht; [|done].
  destruct (seqb cf ct) eqn:Hk; [done|]. apply seqb_false in Hk. injection Hc as <-. split; [done|].
  apply community_by_node_sound in Hf as (a & ? & ? & ?), Ht as (b & ? & ? & ?). exists e, a, b. tauto.
Qed.
End Summary.

(** The summary returns on every input, within its limits, and shows only
    what the graph holds: at most 20 hubs and 20 super hubs, no node both, at most 30
    bridges, 100 connections, 20 surprising ones and five questions; each ranked
    node is one some trusted edge touches, each super hub reaches the
    threshold, each bridge is a bridge of a given community, and each connection
    is a trusted edge between nodes of two different communities. *)
Theorem summary_bounded (nodes : list StructuralGraphNode) (edges : list StructuralGraphEdge)
    (communities : list StructuralGraphCommunity) (coverage : StructuralGraphCoverage) (truncated : bool) :
  exists s, summarize_graph_analysis_with_context nodes edges communities coverage truncated = Ok s /\
    (length (hubs s) <= 20 /\ length (super_hubs s) <= 20 /\ length (bridges s) <= 30 /\
     length (cross_community_edges s) <= 100 /\ length (surprising_connections s) <= 20 /\
     length (suggested_questions s) <= 5) /\
    (forall rank, rank ∈ hubs s \/ rank ∈ super_hubs s \/ rank ∈ bridges s -> ranks_node nodes edges rank) /\
    (forall rank, rank ∈ super_hubs s ->
       (super_hub_threshold (length (summary_edges nodes edges)) <= N.of_nat (rank_degree rank))%N /\
       forall other, other ∈ hubs s -> rank_node_id other <> rank_node_id rank) /\
    (forall rank, rank ∈ bridges s -> exists c, c ∈ communities /\ rank_node_id rank ∈ bridge_node_ids c) /\
    (forall insight, insight ∈ cross_community_edges s \/ insight ∈ surprising_connections s ->
       joins_communities nodes edges insight).
Proof.
  unfold summarize_graph_analysis_with_context.
  destruct (analyze_ok nodes edges coverage truncated) as (found & _ & ->). rewrite bind_of_Ok.
  fold (summary_degree nodes edges). fold (summary_ranked nodes edges).
  eexists. split; [reflexivity|]. cbn [hubs super_hubs bridges cross_community_edges surprising_connections suggested_questions].
  split_and!; try apply length_take_le.
  - unfold suggest_questions. set (bs := select_bridges _ _). rewrite length_app.
    pose proof (length_omap (ask (index_by_id nodes) "Why does " " connect multiple repository communities?") (take 5 bs)).
    pose proof (length_take_le 5 bs). set (questions := omap _ (take 5 bs)) in *.
    etrans; [apply Nat.add_le_mono_l, length_omap|]. etrans; [apply Nat.add_le_mono_l, length_take_le|]. lia.
  - intros rank [Hr|[Hr|Hr]].
    + apply elem_of_take_filter in Hr as [Hr _]. by apply ranked_ok.
    + apply elem_of_take_filter in Hr as [Hr _]. by apply ranked_ok.
    + apply elem_of_take in Hr as (i & Hr & _). apply list_elem_of_lookup_2, list_elem_of_fmap in Hr as (r & -> & Hr).
      apply list_elem_of_In, filter_In in Hr as [Hr%list_elem_of_In _]. by apply ranked_ok in Hr.
  - intros rank Hr. split; [apply elem_of_take_filter in Hr as [_ Hr]; by apply N.leb_le|].
    intros other Ho Heq. apply elem_of_take_filter in Ho as [_ Ho]. apply negb_true_iff, set_contains_false in Ho.
    apply Ho, elem_of_set_of_list. rewrite Heq. by apply list_elem_of_fmap_2.
  - intros rank (i & Hr & _)%elem_of_take. apply list_elem_of_lookup_2, list_elem_of_fmap in Hr as (r & -> & Hr).
    apply list_elem_of_In, filter_In in Hr as [_ Hr]. apply set_contains_true in Hr.
    rewrite elem_of_set_of_list in Hr.
    apply elem_of_concat in Hr as (l & Hin & (c & -> & Hc)%list_elem_of_fmap). by exists c.
  - intros insight [Hi|Hi]; apply elem_of_take in Hi as (i & Hi & _); apply list_elem_of_lookup_2 in Hi;
      [|rewrite elem_of_sort_by in Hi]; by apply cross_edges_ok.
Qed.
