(* ===== verification/F64Props.v ===== *)
(** Rounding of [F64] is monotone: on values that are not negative, addition
    and multiplication preserve the order, and a sum is at least its terms.

    A float is compared through the integer [units], its value in units of
    2^-2148, so that products of two floats are integers too; infinity counts
    as 2^1024.  [rounded] is the rounding of such an integer to 53 bits, to
    nearest even. *)
From S2P Require Import Prelude F64.
From Stdlib Require Import SpecFloat.
Local Open Scope Z_scope.

(** * Rounding of integers *)

(** [M / 2^j] to the nearest, ties to even. *)
Definition rne (M j : Z) : Z :=
  let q := M / 2 ^ j in
  match Z.compare (2 * (M mod 2 ^ j)) (2 ^ j) with
  | Lt => q
  | Gt => q + 1
  | Eq => if Z.even q then q else q + 1
  end.

Lemma rne_near M j : 0 <= j -> - 2 ^ j <= 2 * (rne M j * 2 ^ j) - 2 * M <= 2 ^ j.
Proof.
  intros Hj. unfold rne. assert (0 < 2 ^ j) as Hpos by (apply Z.pow_pos_nonneg; lia).
  pose proof (Z.div_mod M (2 ^ j) ltac:(lia)) as Hdm. pose proof (Z.mod_pos_bound M (2 ^ j) Hpos) as Hb.
  destruct (Z.compare_spec (2 * (M mod 2 ^ j)) (2 ^ j)); [destruct (Z.even _)| |]; nia.
Qed.
Lemma rne_mono M M' j : 0 <= j -> M <= M' -> rne M j <= rne M' j.
Proof.
  intros Hj HM. destruct (Z.le_gt_cases (rne M j) (rne M' j)) as [?|Hgt]; [done|exfalso].
  assert (0 < 2 ^ j) as Hpos by (apply Z.pow_pos_nonneg; lia).
  pose proof (rne_near M j Hj). pose proof (rne_near M' j Hj).
  assert (M = M') as -> by nia. lia.
Qed.
Lemma rne_exact m j : 0 <= j -> rne (m * 2 ^ j) j = m.
Proof.
  intros Hj. assert (0 < 2 ^ j) as Hpos by (apply Z.pow_pos_nonneg; lia).
  unfold rne. rewrite Z.mod_mul, Z.div_mul by lia. by destruct (Z.compare_spec (2 * 0) (2 ^ j)); try lia.
Qed.
Lemma compare_mul a b c : 0 < c -> Z.compare (a * c) (b * c) = Z.compare a b.
Proof.
  intros Hc. destruct (Z.compare_spec a b) as [->|?|?].
  - apply Z.compare_refl.
  - by apply Z.compare_lt_iff, Z.mul_lt_mono_pos_r.
  - by apply Z.compare_gt_iff, Z.mul_lt_mono_pos_r.
Qed.
Lemma rne_shift M k j : 0 <= k -> 0 <= j -> rne (M * 2 ^ k) (j + k) = rne M j.
Proof.
  intros Hk Hj. assert (0 < 2 ^ j) by (apply Z.pow_pos_nonneg; lia). assert (0 < 2 ^ k) by (apply Z.pow_pos_nonneg; lia).
  unfold rne. rewrite Z.pow_add_r by done. rewrite Z.div_mul_cancel_r, Z.mul_mod_distr_r by lia.
  replace (2 * (M mod 2 ^ j * 2 ^ k)) with (2 * (M mod 2 ^ j) * 2 ^ k) by lia.
  by rewrite compare_mul.
Qed.

(** * Digits *)

Lemma digits2_bounds p : 2 ^ (Zpos (digits2_pos p) - 1) <= Zpos p < 2 ^ Zpos (digits2_pos p).
Proof.
  induction p as [p IH|p IH|]; cbn [digits2_pos]; rewrite ?Pos2Z.inj_succ.
  - replace (Z.succ (Zpos (digits2_pos p)) - 1) with (Z.succ (Zpos (digits2_pos p) - 1)) by lia.
    rewrite !Z.pow_succ_r by lia. lia.
  - replace (Z.succ (Zpos (digits2_pos p)) - 1) with (Z.succ (Zpos (digits2_pos p) - 1)) by lia.
    rewrite !Z.pow_succ_r by lia. lia.
  - done.
Qed.
Definition digits (V : Z) : Z := Zdigits2 V.
Lemma digits_bounds V : 0 < V -> 2 ^ (digits V - 1) <= V < 2 ^ digits V.
Proof. destruct V as [|p|p]; [lia| |lia]. intros _. apply digits2_bounds. Qed.
Lemma digits_pos V : 0 < V -> 1 <= digits V.
Proof. destruct V as [|p|p]; cbn; lia. Qed.
Lemma digits_lt V d : 0 < V -> 0 <= d -> V < 2 ^ d -> digits V <= d.
Proof.
  intros HV Hd Hlt. destruct (Z.le_gt_cases (digits V) d) as [?|Hgt]; [done|exfalso].
  pose proof (digits_bounds V HV). assert (2 ^ d <= 2 ^ (digits V - 1)) by (apply Z.pow_le_mono_r; lia). lia.
Qed.
Lemma digits_ge V d : 0 < V -> 0 <= d -> 2 ^ (d - 1) <= V -> d <= digits V.
Proof.
  intros HV Hd Hle. destruct (Z.le_gt_cases d (digits V)) as [?|Hgt]; [done|exfalso].
  pose proof (digits_bounds V HV). pose proof (digits_pos V HV).
  assert (2 ^ digits V <= 2 ^ (d - 1)) by (apply Z.pow_le_mono_r; lia). lia.
Qed.
Lemma digits_mul_pow V k : 0 < V -> 0 <= k -> digits (V * 2 ^ k) = digits V + k.
Proof.
  intros HV Hk. pose proof (digits_bounds V HV) as [Hlo Hhi]. pose proof (digits_pos V HV).
  assert (0 < 2 ^ k) by (apply Z.pow_pos_nonneg; lia). apply Z.le_antisymm.
  - apply digits_lt; [nia|lia|]. rewrite Z.pow_add_r by lia. nia.
  - apply digits_ge; [nia|lia|]. replace (digits V + k - 1) with (digits V - 1 + k) by lia.
    rewrite Z.pow_add_r by lia. nia.
Qed.
Lemma digits_mono V W : 0 < V -> V <= W -> digits V <= digits W.
Proof. intros HV HW. apply digits_lt; [done|pose proof (digits_pos W); lia|]. pose proof (digits_bounds W). lia. Qed.

(** * Rounding to 53 bits *)

(** The exponents of [units]: values are multiples of 2^-[UNIT], those of floats
    of 2^-1074. *)
Definition UNIT : Z := 2148.
Definition MIN_QUANTUM : Z := UNIT - 1074.
Definition INFINITY : Z := 2 ^ (1024 + UNIT).
Lemma INFINITY_eq : INFINITY = 2 ^ (1024 + UNIT).
Proof. done. Qed.
Lemma INFINITY_pos : 0 < INFINITY.
Proof. by apply Z.pow_pos_nonneg. Qed.
#[global] Opaque INFINITY.
Definition quantum (V : Z) : Z := Z.max (digits V - 53) MIN_QUANTUM.
Definition rounded (V : Z) : Z := rne V (quantum V) * 2 ^ quantum V.

Lemma quantum_pos V : 0 <= quantum V.
Proof. unfold quantum, MIN_QUANTUM, UNIT. lia. Qed.
Lemma rne_le_53 V : 0 < V -> rne V (quantum V) <= 2 ^ 53.
Proof.
  intros HV. pose proof (quantum_pos V) as Hq. rewrite <- (rne_exact (2 ^ 53) (quantum V)) by done. apply rne_mono; [done|].
  pose proof (digits_bounds V HV) as [_ Hhi]. rewrite <- Z.pow_add_r by lia.
  etrans; [apply Z.lt_le_incl, Hhi|]. apply Z.pow_le_mono_r; [done|]. unfold quantum. lia.
Qed.
Lemma rne_ge_52 V : 0 < V -> MIN_QUANTUM < quantum V -> 2 ^ 52 <= rne V (quantum V).
Proof.
  intros HV Hnormal. pose proof (quantum_pos V) as Hq. rewrite <- (rne_exact (2 ^ 52) (quantum V)) at 1 by done.
  apply rne_mono; [done|]. pose proof (digits_bounds V HV) as [Hlo _]. rewrite <- Z.pow_add_r by lia.
  replace (52 + quantum V) with (digits V - 1) by (unfold quantum in *; lia). done.
Qed.
Theorem rounded_mono V W : 0 < V -> V <= W -> rounded V <= rounded W.
Proof.
  intros HV HW. pose proof (digits_mono V W HV HW) as Hd. unfold rounded.
  assert (quantum V <= quantum W) as Hq by (unfold quantum; lia). pose proof (quantum_pos V).
  destruct (Z.eq_dec (quantum V) (quantum W)) as [E|Hne].
  - rewrite <- E. apply Z.mul_le_mono_nonneg_r; [by apply Z.pow_nonneg|]. by apply rne_mono.
  - assert (MIN_QUANTUM < quantum W) as Hnormal by (unfold quantum in *; lia).
    trans (2 ^ (53 + quantum V)).
    + rewrite Z.pow_add_r by lia. apply Z.mul_le_mono_nonneg_r; [by apply Z.pow_nonneg|]. by apply rne_le_53.
    + trans (2 ^ (52 + quantum W)); [apply Z.pow_le_mono_r; lia|]. rewrite Z.pow_add_r by lia.
      apply Z.mul_le_mono_nonneg_r; [by apply Z.pow_nonneg|]. apply rne_ge_52; [lia|done].
Qed.

(** * The shifts of [SpecFloat] *)

Lemma iter_pos_nat {A} (f : A -> A) p x : iter_pos f p x = Nat.iter (Pos.to_nat p) f x.
Proof.
  revert x. induction p as [p IH|p IH|]; intros x; cbn [iter_pos].
  - rewrite !IH, Pos2Nat.inj_xI. cbn [Nat.mul]. rewrite Nat.add_0_r, Nat.iter_succ_r, Nat.iter_add. done.
  - rewrite !IH, Pos2Nat.inj_xO. cbn [Nat.mul]. rewrite Nat.add_0_r, Nat.iter_add. done.
  - done.
Qed.

(** [mrs] is [M] shifted by [j] bits. *)
Record shifted (M j : Z) (mrs : shr_record) (rem : Z) : Prop := {
  shifted_value : M = shr_m mrs * 2 ^ j + rem;
  shifted_m : 0 <= shr_m mrs;
  shifted_rem : 0 <= rem < 2 ^ j;
  shifted_half : if shr_r mrs then 2 ^ j <= 2 * rem else 2 * rem < 2 ^ j;
  shifted_rest : shr_s mrs = false <-> 2 * rem = if shr_r mrs then 2 ^ j else 0
}.
Lemma shr_1_shifted M j mrs rem :
  0 <= j -> shifted M j mrs rem -> exists rem', shifted M (j + 1) (shr_1 mrs) rem'.
Proof.
  intros Hj [Hv Hm Hrem Hhalf Hrest]. destruct mrs as [m r s]. cbn [shr_m shr_r shr_s] in *.
  assert (2 ^ (j + 1) = 2 * 2 ^ j) as Hpow by (rewrite Z.pow_add_r by lia; lia).
  assert ((r || s)%bool = false <-> rem = 0) as Hzero.
  { rewrite orb_false_iff. destruct r, s; naive_solver lia. }
  assert (exists b m', shr_1 {| shr_m := m; shr_r := r; shr_s := s |} = {| shr_m := m'; shr_r := b; shr_s := r || s |} /\
    m = 2 * m' + Z.b2z b /\ 0 <= m') as (b & m' & -> & -> & Hm').
  { destruct m as [|[p|p|]|]; cbn [shr_1]; [exists false, 0|exists true, (Zpos p)|exists false, (Zpos p)|exists true, 0|lia];
      split_and!; cbn [Z.b2z]; (reflexivity || lia). }
  exists (Z.b2z b * 2 ^ j + rem). constructor; cbn [shr_m shr_r shr_s].
  - rewrite Hpow. destruct b; cbn [Z.b2z] in *; lia.
  - done.
  - destruct b; cbn [Z.b2z]; lia.
  - destruct b; cbn [Z.b2z]; lia.
  - rewrite Hzero. destruct b; cbn [Z.b2z]; lia.
Qed.
Lemma shifted_rne M j mrs rem :
  0 <= j -> shifted M j mrs rem -> round_nearest_even (shr_m mrs) (loc_of_shr_record mrs) = rne M j.
Proof.
  intros Hj [Hv Hm Hrem Hhalf Hrest]. unfold rne.
  assert (M / 2 ^ j = shr_m mrs) as -> by (symmetry; apply (Z.div_unique M (2 ^ j) (shr_m mrs) rem); lia).
  assert (M mod 2 ^ j = rem) as -> by (symmetry; apply (Z.mod_unique M (2 ^ j) (shr_m mrs) rem); lia).
  destruct mrs as [m r s]. cbn [shr_m shr_r shr_s] in *.
  destruct (Z.compare_spec (2 * rem) (2 ^ j)), r, s; cbn [loc_of_shr_record round_nearest_even]; try done; exfalso; naive_solver lia.
Qed.
Lemma shr_shifted M e n :
  0 <= M -> 0 <= n -> exists mrs rem,
    shr {| shr_m := M; shr_r := false; shr_s := false |} e n = (mrs, e + n) /\ shifted M n mrs rem.
Proof.
  intros HM Hn. destruct n as [|p|p]; [| |lia]; cbn [shr].
  - exists {| shr_m := M; shr_r := false; shr_s := false |}, 0. split; [by rewrite Z.add_0_r|].
    constructor; cbn; lia.
  - rewrite iter_pos_nat. eexists. enough (forall k, exists rem, shifted M (Z.of_nat k) (Nat.iter k shr_1
      {| shr_m := M; shr_r := false; shr_s := false |}) rem) as Hall.
    { destruct (Hall (Pos.to_nat p)) as [rem Hs]. exists rem. split; [done|].
      by rewrite positive_nat_Z in Hs. }
    induction k as [|k [rem IH]]; cbn [Nat.iter].
    + exists 0. constructor; cbn; lia.
    + rewrite Nat2Z.inj_succ. unfold Z.succ. by eapply shr_1_shifted; [lia|].
Qed.

(** * Rounding of floats *)

Definition units (x : f64) : Z :=
  match x with
  | S754_finite _ m e => Zpos m * 2 ^ (e + UNIT)
  | S754_infinity _ => INFINITY
  | S754_zero _ | S754_nan => 0
  end.
(** A value that is not negative (nor the negative zero), represented as IEEE 754 requires. *)
Definition nonnegative (x : f64) : Prop :=
  valid_binary 53 1024 x = true /\
  match x with S754_zero false | S754_infinity false | S754_finite false _ _ => True | _ => False end.

(** The float of a number of units, rounded. *)
Definition rounds_to (out : f64) (V : Z) : Prop := nonnegative out /\ units out = Z.min V INFINITY.

Lemma fexp_eq e : fexp 53 1024 e = Z.max (e - 53) (-1074).
Proof. done. Qed.
Lemma shr_none mrs e n : n <= 0 -> shr mrs e n = (mrs, e).
Proof. intros Hn. by destruct n; [|lia|]. Qed.
Lemma bounded_finite m e :
  fexp 53 1024 (digits (Zpos m) + e) = e -> e <= 971 -> valid_binary 53 1024 (S754_finite false m e) = true.
Proof.
  intros Hc He. cbn. unfold bounded, canonical_mantissa. apply andb_true_iff. split; [by apply Z.eqb_eq|].
  apply Z.leb_le. lia.
Qed.

Lemma round_parts M e :
  0 < M -> - UNIT <= e -> 0 <= fexp 53 1024 (digits M + e) - e ->
  let V := M * 2 ^ (e + UNIT) in let f := fexp 53 1024 (digits M + e) in
  0 < V /\ quantum V = f + UNIT /\ rne V (quantum V) = rne M (f - e) /\ rounded V = rne M (f - e) * 2 ^ (f + UNIT).
Proof.
  intros HM He Hn V f. subst f. rewrite fexp_eq in *.
  assert (0 < 2 ^ (e + UNIT)) by (apply Z.pow_pos_nonneg; lia).
  assert (0 < V) as HV by (unfold V; nia).
  assert (quantum V = Z.max (digits M + e - 53) (-1074) + UNIT) as Hq.
  { unfold quantum, V. rewrite digits_mul_pow by lia. unfold MIN_QUANTUM. lia. }
  assert (rne V (quantum V) = rne M (Z.max (digits M + e - 53) (-1074) - e)) as Hr.
  { rewrite Hq. replace (Z.max (digits M + e - 53) (-1074) + UNIT) with ((Z.max (digits M + e - 53) (-1074) - e) + (e + UNIT)) by lia.
    by apply rne_shift; lia. }
  split_and!; [done|done|done|]. unfold rounded. by rewrite Hr, Hq.
Qed.

(** A finite result, or infinity past the largest float. *)
Lemma finish_round q f :
  0 < q -> -1074 <= f -> (q < 2 ^ 53) -> fexp 53 1024 (digits q + f) = f -> (972 <= f -> 2 ^ 52 <= q) ->
  rounds_to match q with
    | Z0 => S754_zero false
    | Zpos m => if f <=? 1024 - 53 then S754_finite false m f else S754_infinity false
    | Zneg _ => S754_nan
    end (q * 2 ^ (f + UNIT)).
Proof.
  intros Hq Hf Hlt Hc Hge. destruct q as [|m|m]; [lia| |lia]. destruct (Z.leb_spec f (1024 - 53)) as [Hle|Hgt].
  - split; [split; [apply bounded_finite; [done|lia]|done]|]. cbn [units]. rewrite Z.min_l; [done|].
    assert (0 < 2 ^ (f + UNIT)) by (apply Z.pow_pos_nonneg; unfold UNIT; lia).
    trans (2 ^ 53 * 2 ^ (f + UNIT)); [nia|]. rewrite INFINITY_eq, <- Z.pow_add_r by (unfold UNIT; lia).
    apply Z.pow_le_mono_r; unfold UNIT; lia.
  - split; [done|]. cbn [units]. rewrite Z.min_r; [done|]. specialize (Hge ltac:(lia)). rewrite INFINITY_eq.
    trans (2 ^ 52 * 2 ^ (f + UNIT)).
    + rewrite <- Z.pow_add_r by (unfold UNIT; lia). apply Z.pow_le_mono_r; unfold UNIT; lia.
    + apply Z.mul_le_mono_nonneg_r; [by apply Z.pow_nonneg|done].
Qed.
Lemma binary_round_aux_rounds M e :
  0 < M -> - UNIT <= e -> 0 <= fexp 53 1024 (digits M + e) - e ->
  rounds_to (binary_round_aux 53 1024 false M e loc_Exact) (rounded (M * 2 ^ (e + UNIT))).
Proof.
  intros HM He Hn. destruct (round_parts M e HM He Hn) as (HV & Hquantum & Hrne & ->).
  unfold binary_round_aux, shr_fexp at 1. cbn [shr_record_of_loc].
  destruct (shr_shifted M e (fexp 53 1024 (digits M + e) - e) ltac:(lia) Hn) as (mrs & rem & Hshr & Hs).
  unfold digits in Hshr. rewrite Hshr. fold (digits M) in *. rewrite (shifted_rne _ _ _ _ Hn Hs).
  replace (e + (fexp 53 1024 (digits M + e) - e)) with (fexp 53 1024 (digits M + e)) by lia.
  set (f := fexp 53 1024 (digits M + e)) in *. assert (-1074 <= f) as Hf by (unfold f; rewrite fexp_eq; lia).
  set (V := M * 2 ^ (e + UNIT)) in *. pose proof (rne_le_53 V HV) as Hhi.
  assert (-1074 < f -> 2 ^ 52 <= rne M (f - e)) as Hlo.
  { intros Hnormal. rewrite <- Hrne. apply rne_ge_52; [done|]. rewrite Hquantum. unfold MIN_QUANTUM. lia. }
  rewrite Hrne in Hhi. clear Hrne Hs Hshr. set (q := rne M (f - e)) in *. unfold shr_fexp. cbn [shr_record_of_loc].
  fold (digits q). rewrite fexp_eq.
  assert (0 <= q) as Hq0.
  { unfold q. rewrite <- (rne_exact 0 (f - e)) by lia. apply rne_mono; lia. }
  destruct (Z.eq_dec q 0) as [->|Hqne]; [|destruct (Z.eq_dec q (2 ^ 53)) as [->|Hq53]].
  - rewrite shr_none by (change (digits 0) with 0; lia). cbn [shr_m]. split; [done|].
    cbn [units]. rewrite Z.mul_0_l, Z.min_l; [done|apply Z.lt_le_incl, INFINITY_pos].
  - change (digits (2 ^ 53)) with 54. replace (Z.max (54 + f - 53) (-1074) - f) with 1 by lia.
    change (shr _ f 1) with ({| shr_m := 2 ^ 52; shr_r := false; shr_s := false |}, f + 1). cbn [shr_m].
    replace (2 ^ 53 * 2 ^ (f + UNIT)) with (2 ^ 52 * 2 ^ ((f + 1) + UNIT)).
    2: { replace (f + 1 + UNIT) with (1 + (f + UNIT)) by lia. rewrite (Z.pow_add_r 2 1) by (unfold UNIT; lia). lia. }
    apply (finish_round (2 ^ 52) (f + 1)); [lia|lia|lia| |lia].
    rewrite fexp_eq. change (digits (2 ^ 52)) with 53. lia.
  - assert (digits q <= 53) by (apply digits_lt; lia).
    rewrite shr_none by lia. cbn [shr_m]. apply (finish_round q f); [lia|lia|lia| |intros; apply Hlo; lia].
    rewrite fexp_eq. destruct (Z.eq_dec f (-1074)) as [->|Hne]; [lia|].
    assert (53 <= digits q) by (apply digits_ge; [lia|lia|apply Hlo; lia]). lia.
Qed.

(** * The operations *)

Lemma canonical_parts m e :
  valid_binary 53 1024 (S754_finite false m e) = true ->
  -1074 <= e <= 971 /\ digits (Zpos m) <= 53 /\ Z.max (digits (Zpos m) + e - 53) (-1074) = e.
Proof.
  cbn. unfold bounded, canonical_mantissa. rewrite andb_true_iff, Z.eqb_eq, Z.leb_le.
  change (Zpos (digits2_pos m)) with (digits (Zpos m)). rewrite fexp_eq. lia.
Qed.
Lemma finite_units_pos m e : -1074 <= e -> 0 < Zpos m * 2 ^ (e + UNIT).
Proof. intros He. assert (0 < 2 ^ (e + UNIT)) by (apply Z.pow_pos_nonneg; unfold UNIT; lia). lia. Qed.
Lemma units_range x : nonnegative x -> 0 <= units x <= INFINITY.
Proof.
  pose proof INFINITY_pos. intros [Hv Hs]. destruct x as [s|s| |s m e]; cbn [units]; [lia|lia|done|].
  - destruct s; [done|]. apply canonical_parts in Hv as (He & Hd & _). pose proof (digits_bounds (Zpos m) ltac:(lia)) as [_ Hhi].
    pose proof (finite_units_pos m e ltac:(lia)). split; [lia|].
    assert (0 < 2 ^ (e + UNIT)) by (apply Z.pow_pos_nonneg; unfold UNIT; lia).
    assert (2 ^ digits (Zpos m) <= 2 ^ 53) by (apply Z.pow_le_mono_r; lia).
    rewrite INFINITY_eq. trans (2 ^ 53 * 2 ^ (e + UNIT)); [nia|]. rewrite <- Z.pow_add_r by (unfold UNIT; lia).
    apply Z.pow_le_mono_r; unfold UNIT; lia.
Qed.
Lemma rounded_0 : rounded 0 = 0.
Proof. done. Qed.
Lemma rounded_exact m j :
  0 < m -> MIN_QUANTUM <= j -> Z.max (digits m + j - 53) MIN_QUANTUM = j -> rounded (m * 2 ^ j) = m * 2 ^ j.
Proof.
  intros Hm Hj Hq. unfold MIN_QUANTUM, UNIT in *. unfold rounded, quantum. rewrite digits_mul_pow by lia.
  replace (Z.max _ _) with j by (unfold MIN_QUANTUM, UNIT; lia). by rewrite rne_exact by lia.
Qed.
Lemma rounded_infinity : rounded INFINITY = INFINITY.
Proof.
  rewrite INFINITY_eq. replace (1024 + UNIT) with (52 + (972 + UNIT)) by lia.
  rewrite Z.pow_add_r by (unfold UNIT; lia). apply rounded_exact; [done|unfold MIN_QUANTUM; lia|].
  change (digits (2 ^ 52)) with 53. unfold MIN_QUANTUM, UNIT. lia.
Qed.
Lemma rounded_nonneg V : 0 <= V -> 0 <= rounded V.
Proof.
  intros HV. pose proof (quantum_pos V). unfold rounded. apply Z.mul_nonneg_nonneg; [|by apply Z.pow_nonneg].
  rewrite <- (rne_exact 0 (quantum V)) by done. apply rne_mono; lia.
Qed.
Lemma rounded_le V W : 0 <= V -> V <= W -> rounded V <= rounded W.
Proof.
  intros HV HW. destruct (Z.eq_dec V 0) as [->|]; [rewrite rounded_0; by apply rounded_nonneg|]. apply rounded_mono; lia.
Qed.
(** A float is its own rounding. *)
Lemma rounded_units x : nonnegative x -> rounded (units x) = units x.
Proof.
  intros [Hv Hs]. destruct x as [s|s| |s m e]; cbn [units]; [done|apply rounded_infinity|done|].
  destruct s; [done|]. apply canonical_parts in Hv as (He & Hd & Hc).
  apply rounded_exact; [lia|unfold MIN_QUANTUM; lia|]. unfold MIN_QUANTUM. lia.
Qed.

#[local] Opaque rounded.
Lemma shift_left_value m d : Zpos (Pos.iter xO m d) = Zpos m * 2 ^ Zpos d.
Proof.
  induction d as [|d IH] using Pos.peano_ind; [cbn; lia|].
  rewrite Pos.iter_succ, Pos2Z.inj_succ, Z.pow_succ_r by lia. change (Zpos (Pos.iter xO m d)~0) with (2 * Zpos (Pos.iter xO m d)). lia.
Qed.
Lemma shl_align_value m e e' :
  let '(m', e'') := shl_align m e e' in Zpos m' = Zpos m * 2 ^ (e - e'') /\ e'' = Z.min e e'.
Proof.
  unfold shl_align. destruct (e' - e) as [|d|d] eqn:E.
  - rewrite Z.sub_diag. split; [cbn|]; lia.
  - rewrite Z.sub_diag. split; [cbn|]; lia.
  - rewrite shift_left_value. replace (e - e') with (Zpos d) by lia. split; [done|lia].
Qed.
Lemma binary_round_rounds m e :
  -1074 <= e -> rounds_to (binary_round 53 1024 false m e) (rounded (Zpos m * 2 ^ (e + UNIT))).
Proof.
  intros He. unfold binary_round. change (Zpos (digits2_pos m)) with (digits (Zpos m)).
  pose proof (shl_align_value m e (fexp 53 1024 (digits (Zpos m) + e))) as Hal.
  destruct (shl_align m e (fexp 53 1024 (digits (Zpos m) + e))) as [m' e'] eqn:E. destruct Hal as [Hm' He'].
  rewrite fexp_eq in He'.
  assert (digits (Zpos m') = digits (Zpos m) + (e - e')) as Hd by (rewrite Hm', digits_mul_pow by lia; done).
  replace (Zpos m * 2 ^ (e + UNIT)) with (Zpos m' * 2 ^ (e' + UNIT)).
  2: { rewrite Hm', <- Z.mul_assoc, <- Z.pow_add_r by (unfold UNIT; lia). do 2 f_equal. lia. }
  apply binary_round_aux_rounds; [lia|unfold UNIT; lia|]. rewrite Hd, fexp_eq. lia.
Qed.
Lemma f64_of_nat_nonnegative n : nonnegative (f64_of_nat n).
Proof.
  unfold f64_of_nat, f64_of_Z. destruct (Z.of_nat n) as [|m|m] eqn:E; cbn [binary_normalize]; [done| |lia].
  apply binary_round_rounds. lia.
Qed.

Theorem f64_add_rounds x y :
  nonnegative x -> nonnegative y -> rounds_to (f64_add x y) (rounded (units x + units y)).
Proof.
  intros Hx Hy. pose proof (units_range x Hx). pose proof (units_range y Hy).
  pose proof (rounded_units x Hx) as Rx. pose proof (rounded_units y Hy) as Ry.
  assert (forall V, INFINITY <= V -> Z.min (rounded V) INFINITY = INFINITY) as Hinf.
  { intros V HV. apply Z.min_r. rewrite <- rounded_infinity at 1. apply rounded_mono; [apply INFINITY_pos|done]. }
  destruct Hx as [Hvx Hsx], Hy as [Hvy Hsy].
  destruct x as [[]|[]| |[] mx ex]; try (exfalso; assumption); destruct y as [[]|[]| |[] my ey]; try (exfalso; assumption);
    unfold rounds_to, f64_add, SFadd; cbn [units] in *; rewrite ?Z.add_0_l, ?Z.add_0_r.
  - split; [by split|]. rewrite rounded_0. cbn [units]. lia.
  - split; [by split|]. cbn [units]. rewrite Hinf; [reflexivity|lia].
  - split; [by split|]. cbn [units]. rewrite Ry, Z.min_l; [reflexivity|lia].
  - split; [by split|]. cbn [units]. rewrite Hinf; [reflexivity|lia].
  - split; [by split|]. cbn [units]. rewrite Hinf; [reflexivity|lia].
  - split; [by split|]. cbn [units]. rewrite Hinf; [reflexivity|lia].
  - split; [by split|]. cbn [units]. rewrite Rx, Z.min_l; [reflexivity|lia].
  - split; [by split|]. cbn [units]. rewrite Hinf; [reflexivity|lia].
  - apply canonical_parts in Hvx as (Hex & _ & _), Hvy as (Hey & _ & _).
    cbn [cond_Zopp].
    pose proof (shl_align_value mx ex (Z.min ex ey)) as Hax. pose proof (shl_align_value my ey (Z.min ex ey)) as Hay.
    destruct (shl_align mx ex _) as [mx' ex'], (shl_align my ey _) as [my' ey']. cbn [fst].
    destruct Hax as [Hmx Hex'], Hay as [Hmy Hey'].
    change (Zpos mx' + Zpos my') with (Zpos (mx' + my')). cbn [binary_normalize].
    replace (Zpos mx * 2 ^ (ex + UNIT) + Zpos my * 2 ^ (ey + UNIT)) with (Zpos (mx' + my') * 2 ^ (Z.min ex ey + UNIT));
      [by apply binary_round_rounds; lia|].
    rewrite Pos2Z.inj_add, Hmx, Hmy, Z.mul_add_distr_r, <- !Z.mul_assoc, <- !Z.pow_add_r by (unfold UNIT; lia).
    f_equal; f_equal; f_equal; lia.
Qed.
Lemma f64_add_nonnegative x y : nonnegative x -> nonnegative y -> nonnegative (f64_add x y).
Proof. intros Hx Hy. by apply f64_add_rounds. Qed.
Lemma f64_add_le x y : nonnegative x -> nonnegative y -> units x <= units (f64_add x y).
Proof.
  intros Hx Hy. rewrite (proj2 (f64_add_rounds x y Hx Hy)). pose proof (units_range x Hx). pose proof (units_range y Hy).
  apply Z.min_glb; [|lia]. rewrite <- (rounded_units x Hx) at 1. apply rounded_le; lia.
Qed.
Lemma f64_add_mono x x' y :
  nonnegative x -> nonnegative x' -> nonnegative y -> units x <= units x' -> units (f64_add x y) <= units (f64_add x' y).
Proof.
  intros Hx Hx' Hy Hle. rewrite (proj2 (f64_add_rounds x y Hx Hy)), (proj2 (f64_add_rounds x' y Hx' Hy)).
  pose proof (units_range x Hx). pose proof (units_range y Hy).
  apply Z.min_le_compat_r, rounded_le; lia.
Qed.

(** * Comparison *)

Lemma units_lt_infinity m e :
  valid_binary 53 1024 (S754_finite false m e) = true -> units (S754_finite false m e) < INFINITY.
Proof.
  intros Hv. apply canonical_parts in Hv as (He & Hd & _). pose proof (digits_bounds (Zpos m) ltac:(lia)) as [_ Hhi].
  cbn [units]. assert (0 < 2 ^ (e + UNIT)) by (apply Z.pow_pos_nonneg; unfold UNIT; lia).
  assert (2 ^ digits (Zpos m) <= 2 ^ 53) by (apply Z.pow_le_mono_r; lia). rewrite INFINITY_eq.
  assert (2 ^ 53 * 2 ^ (e + UNIT) <= 2 ^ (1024 + UNIT)); [|nia].
  rewrite <- Z.pow_add_r by (unfold UNIT; lia). apply Z.pow_le_mono_r; unfold UNIT; lia.
Qed.
Lemma finite_exponent_lt m1 e1 m2 e2 :
  valid_binary 53 1024 (S754_finite false m1 e1) = true -> valid_binary 53 1024 (S754_finite false m2 e2) = true ->
  e1 < e2 -> units (S754_finite false m1 e1) < units (S754_finite false m2 e2).
Proof.
  intros (He1 & Hd1 & Hc1)%canonical_parts (He2 & Hd2 & Hc2)%canonical_parts Hlt. cbn [units].
  pose proof (digits_bounds (Zpos m1) ltac:(lia)) as [_ Hhi]. pose proof (digits_bounds (Zpos m2) ltac:(lia)) as [Hlo _].
  assert (digits (Zpos m2) = 53) as Hd by lia. rewrite Hd in Hlo.
  assert (2 ^ digits (Zpos m1) <= 2 ^ 53) by (apply Z.pow_le_mono_r; lia).
  assert (0 < 2 ^ (e1 + UNIT)) by (apply Z.pow_pos_nonneg; unfold UNIT; lia).
  assert (2 * 2 ^ (e1 + UNIT) <= 2 ^ (e2 + UNIT)).
  { rewrite <- Z.pow_succ_r by (unfold UNIT; lia). apply Z.pow_le_mono_r; lia. }
  change (2 ^ 53) with (2 * 2 ^ (53 - 1)) in *. nia.
Qed.
Lemma SFcompare_units x y : nonnegative x -> nonnegative y -> SFcompare x y = Some (Z.compare (units x) (units y)).
Proof.
  intros [Hvx Hsx] [Hvy Hsy]. pose proof INFINITY_pos as Hinf. symmetry.
  destruct x as [[]|[]| |[] mx ex]; try (exfalso; assumption); destruct y as [[]|[]| |[] my ey]; try (exfalso; assumption);
    cbn [SFcompare]; apply (f_equal Some).
  - done.
  - by apply Z.compare_lt_iff.
  - apply Z.compare_lt_iff. apply canonical_parts in Hvy as (? & _ & _). cbn [units]. apply finite_units_pos. lia.
  - by apply Z.compare_gt_iff.
  - apply Z.compare_refl.
  - by apply Z.compare_gt_iff, units_lt_infinity.
  - apply Z.compare_gt_iff. apply canonical_parts in Hvx as (? & _ & _). cbn [units]. apply finite_units_pos. lia.
  - by apply Z.compare_lt_iff, units_lt_infinity.
  - destruct (Z.compare_spec ex ey) as [->|Hlt|Hgt].
    + cbn [units]. apply canonical_parts in Hvy as (? & _ & _). rewrite compare_mul; [done|].
      apply Z.pow_pos_nonneg; unfold UNIT; lia.
    + apply Z.compare_lt_iff. by apply finite_exponent_lt.
    + apply Z.compare_gt_iff. by apply finite_exponent_lt.
Qed.
Lemma units_inj x y : nonnegative x -> nonnegative y -> units x = units y -> x = y.
Proof.
  intros Hx Hy E. pose proof (SFcompare_units x y Hx Hy) as Hcmp. rewrite E, Z.compare_refl in Hcmp.
  destruct Hx as [_ Hsx], Hy as [_ Hsy].
  destruct x as [[]|[]| |[] mx ex]; try (exfalso; assumption); destruct y as [[]|[]| |[] my ey]; try (exfalso; assumption);
    cbn [SFcompare] in Hcmp; try discriminate; try reflexivity.
  injection Hcmp as Hcmp. destruct (Z.compare_spec ex ey) as [->|?|?]; [|discriminate..].
  change (Pos.compare mx my = Eq) in Hcmp. by apply Pos.compare_eq in Hcmp as ->.
Qed.
Lemma f64_ltb_units x y : nonnegative x -> nonnegative y -> f64_ltb x y = (units x <? units y).
Proof. intros Hx Hy. unfold f64_ltb, SFltb. by rewrite SFcompare_units. Qed.
Lemma f64_leb_units x y : nonnegative x -> nonnegative y -> f64_leb x y = (units x <=? units y).
Proof. intros Hx Hy. unfold f64_leb, SFleb. rewrite SFcompare_units by done. unfold Z.leb. by destruct (_ ?= _). Qed.

(** * Products *)

Lemma f64_mul_nonnegative x y : nonnegative x -> nonnegative y -> units x < INFINITY -> units y < INFINITY ->
  exists V, rounds_to (f64_mul x y) (rounded V) /\ V * 2 ^ UNIT = units x * units y /\ 0 <= V.
Proof.
  intros [Hvx Hsx] [Hvy Hsy] Hfx Hfy. pose proof INFINITY_pos.
  destruct x as [[]|[]| |[] mx ex]; try (exfalso; assumption); destruct y as [[]|[]| |[] my ey]; try (exfalso; assumption);
    cbn [units] in *; try (exfalso; lia); unfold f64_mul, SFmul.
  1-3: exists 0; rewrite rounded_0; split; [split; [by split|cbn [units]; lia]|lia].
  apply canonical_parts in Hvx as (Hex & Hdx & Hcx), Hvy as (Hey & Hdy & Hcy). cbn [xorb].
  assert (0 < 2 ^ (ex + ey + UNIT)) by (apply Z.pow_pos_nonneg; unfold UNIT; lia).
  exists (Zpos (mx * my) * 2 ^ (ex + ey + UNIT)). split; [|split; [|lia]].
  - apply binary_round_aux_rounds; [lia|unfold UNIT; lia|]. rewrite fexp_eq, Pos2Z.inj_mul.
    pose proof (digits_bounds (Zpos mx) ltac:(lia)) as [Hlx _]. pose proof (digits_bounds (Zpos my) ltac:(lia)) as [Hly _].
    pose proof (digits_pos (Zpos mx) ltac:(lia)). pose proof (digits_pos (Zpos my) ltac:(lia)).
    assert (digits (Zpos mx) + digits (Zpos my) - 1 <= digits (Zpos mx * Zpos my)); [|lia].
    apply digits_ge; [lia|lia|].
    replace (digits (Zpos mx) + digits (Zpos my) - 1 - 1) with (digits (Zpos mx) - 1 + (digits (Zpos my) - 1)) by lia.
    rewrite Z.pow_add_r by lia. assert (0 < 2 ^ (digits (Zpos mx) - 1)) by (apply Z.pow_pos_nonneg; lia). nia.
  - rewrite Pos2Z.inj_mul. replace (Zpos mx * 2 ^ (ex + UNIT) * (Zpos my * 2 ^ (ey + UNIT)))
      with (Zpos mx * Zpos my * (2 ^ (ex + UNIT) * 2 ^ (ey + UNIT))) by lia.
    rewrite <- !Z.mul_assoc, <- !Z.pow_add_r by (unfold UNIT; lia). do 3 f_equal. lia.
Qed.
