(* ===== verification/Snapshot.v ===== *)
(** The snapshot of [src/crates/codevetter-core/src/commands/structural_graph/types.rs]
    and the records it holds.  Fields of [usize] and [u64] are [N], of [i64] [Z]. *)
From S2P Require Import Prelude Ordering Entries RustText GraphTypes F64 Analysis Communities.
Local Open Scope N_scope.

Record StructuralGraphDiagnostic : Type := {
  severity : string;
  code : string;
  message : string;
  diagnostic_path : option string;
  diagnostic_language : option string
}.
Record StructuralGraphEngineInfo : Type := {
  engine_info_id : string;
  version : string;
  bundled : bool;
  syntax_aware : bool;
  supported_languages : list string
}.
Record StructuralGraphFileRecord : Type := {
  file_path : string;
  file_language : option string;
  content_hash : option string;
  disposition : string;
  byte_size : N;
  file_node_count : N;
  file_edge_count : N
}.
Record StructuralControlFlowFact : Type := {
  flow_id : string;
  flow_kind : string;
  parent_id : option string;
  nesting : N;
  flow_source : GraphSourceAnchor
}.
Record StructuralBoundaryFact : Type := {
  boundary_kind : string;
  target : string;
  boundary_source : GraphSourceAnchor
}.
Record StructuralCodeMetrics : Type := {
  line_count : N;
  statement_count : N;
  parameter_count : N;
  cyclomatic_complexity : N;
  cognitive_complexity : N;
  max_nesting : N;
  fan_in : N;
  fan_out : N;
  cohesion : option f64
}.
Record StructuralGraphMetricFact : Type := {
  metric_schema_version : Z;
  metric_id : string;
  metric_fact_node_id : string;
  metric_path : string;
  scope_kind : string;
  metric_language : string;
  public_surface : bool;
  public_surface_reason : option string;
  syntax_fingerprint : string;
  normalized_token_count : N;
  normalization_method : string;
  metric_values : StructuralCodeMetrics;
  control_flow : list StructuralControlFlowFact;
  definitions : list string;
  uses : list string;
  boundaries : list StructuralBoundaryFact;
  metric_sources : list GraphSourceAnchor;
  limitations : list string
}.
Record StructuralCloneRegion : Type := {
  region_metric_id : string;
  region_node_id : string;
  region_path : string;
  region_source : GraphSourceAnchor
}.
Record StructuralCloneGroup : Type := {
  clone_id : string;
  clone_fingerprint : string;
  clone_normalization_method : string;
  clone_token_count : N;
  similarity : f64;
  regions : list StructuralCloneRegion;
  exclusions : list string
}.
Record StructuralGraphSnapshot : Type := {
  schema_version : Z;
  snapshot_id : string;
  repo_path : string;
  repo_head : option string;
  created_at : string;
  engine : StructuralGraphEngineInfo;
  cursor : option string;
  ignore_fingerprint : option string;
  coverage : StructuralGraphCoverage;
  diagnostics : list StructuralGraphDiagnostic;
  communities : list StructuralGraphCommunity;
  files : list StructuralGraphFileRecord;
  nodes : list StructuralGraphNode;
  edges : list StructuralGraphEdge;
  metrics : list StructuralGraphMetricFact;
  clone_groups : list StructuralCloneGroup;
  truncated : bool
}.

#[export] Instance GraphSourceAnchor_eq_dec : EqDecision GraphSourceAnchor.
Proof. solve_decision. Defined.
#[export] Instance StructuralGraphNode_eq_dec : EqDecision StructuralGraphNode.
Proof. solve_decision. Defined.
#[export] Instance StructuralGraphEdge_eq_dec : EqDecision StructuralGraphEdge.
Proof. solve_decision. Defined.
