(* ===== verification/QueryIndex.v ===== *)
(** The search index of [src/crates/codevetter-core/src/commands/structural_graph/query]:
    [index.rs] (normalization, the tiers of whole-value matches, tokens, lexical
    relevance, the index and its cache) and the records of [mod.rs].

    Rust's Unicode tables are the class [Unicode], the natural logarithm of
    [f64] the parameter [ln]: every theorem holds for all of them.  The
    process-wide [QUERY_INDEXES] is a state passed along. *)
From S2P Require Import Prelude Ordering Entries RustText GraphTypes F64 Analysis Communities Snapshot.
Local Open Scope N_scope.

Class Unicode : Type := {
  to_lowercase : string -> string;
  is_alphanumeric : N -> bool;
  is_numeric : N -> bool;
  is_uppercase : N -> bool;
  is_lowercase : N -> bool
}.

Definition MAX_QUERY_INDEXES : nat := 16.
Definition MAX_SCORE : N := 999999.
Definition TIER_ID : N := 900000.
Definition TIER_QUALIFIED : N := 800000.
Definition TIER_PATH : N := 700000.
Definition TIER_LABEL : N := 600000.
Definition TIER_QUALIFIED_CONTAINS : N := 500000.
Definition TIER_PATH_CONTAINS : N := 400000.
Definition TIER_LABEL_CONTAINS : N := 300000.
Definition TIER_LEXICAL : N := 0.
Definition TIER_SPAN : f64 := f64_of_Z 99999.
Definition WEIGHT_LABEL : f64 := f64_one.
Definition WEIGHT_QUALIFIED : f64 := f64_literal 75 100.
Definition WEIGHT_PATH : f64 := f64_literal 6 10.
Definition WEIGHT_KIND : f64 := f64_literal 25 100.
Definition WEIGHT_DETAIL : f64 := f64_literal 4 10.

Record GraphQueryFilter : Type := {
  node_kinds : list string;
  edge_kinds : list string;
  filter_trust : list GraphTrust
}.
Definition default_filter : GraphQueryFilter := {| node_kinds := []; edge_kinds := []; filter_trust := [] |}.
Record StructuralGraphQueryIndex : Type := {
  exact : BTreeMap string (list nat);
  tokens : BTreeMap string (list nat);
  node_count : nat
}.

Definition node_matches_filter (node : StructuralGraphNode) (filter : GraphQueryFilter) : bool :=
  (is_nil (node_kinds filter) || any (fun kind => seqb kind (node_kind node)) (node_kinds filter))
  && (is_nil (filter_trust filter) || elemb (node_trust node) (filter_trust filter)).
Definition edge_matches_filter (edge : StructuralGraphEdge) (filter : GraphQueryFilter) : bool :=
  (is_nil (edge_kinds filter) || any (fun kind => seqb kind (edge_kind edge)) (edge_kinds filter))
  && (is_nil (filter_trust filter) || elemb (edge_trust edge) (filter_trust filter)).

(** [QUERY_INDEXES], its lock not poisoned. *)
Abbreviation query_cache := (BTreeMap string StructuralGraphQueryIndex).

Section Index.
Context `{Unicode} (ln : f64 -> f64).

Definition normalize (value : string) : string :=
  to_lowercase (replace_byte 92 47 (trim_matches is_whitespace value)).

(** [option.as_deref() == Some(needle)] and [is_some_and(|v| v.contains(needle))] *)
Definition equals (value : option string) (needle : string) : bool :=
  match value with Some v => seqb v needle | None => false end.
Definition contains (value : option string) (needle : string) : bool :=
  match value with Some v => str_contains needle v | None => false end.
Definition rank_node (node : StructuralGraphNode) (needle : string) : option (N * string) :=
  let id := normalize (node_id node) in
  let qualified := option_map normalize (qualified_name node) in
  let path := option_map normalize (node_path node) in
  let label := normalize (label node) in
  if seqb id needle then Some (TIER_ID, "id"%string)
  else if equals qualified needle then Some (TIER_QUALIFIED, "qualified_name"%string)
  else if equals path needle then Some (TIER_PATH, "path"%string)
  else if seqb label needle then Some (TIER_LABEL, "label"%string)
  else if contains qualified needle then Some (TIER_QUALIFIED_CONTAINS, "qualified_name_contains"%string)
  else if contains path needle then Some (TIER_PATH_CONTAINS, "path_contains"%string)
  else if str_contains needle label then Some (TIER_LABEL_CONTAINS, "label_contains"%string)
  else None.

(** ** Tokens *)

Definition STOP_WORDS : list string :=
  ["a"; "an"; "and"; "are"; "does"; "for"; "from"; "how"; "in"; "is"; "of"; "on"; "or"; "the"; "to"; "what";
   "when"; "where"; "which"; "why"; "with"]%string.
(** [_ - . / : \ ] *)
Definition is_separator (c : N) : bool := elemb c [95; 45; 46; 47; 58; 92].
Definition is_token_char (c : N) : bool := is_alphanumeric c || is_separator c.

(** The words of a segment, cut where the case or the kind of character changes. *)
Fixpoint split_words (previous : option N) (current : string) (l : list (N * string)) : list string :=
  match l with
  | [] => if is_empty current then [] else [current]
  | (c, e) :: rest =>
      let boundary := match previous with
        | None => false
        | Some p =>
            (is_uppercase c && is_lowercase p) || xorb (is_numeric c) (is_numeric p)
            || (is_uppercase c && is_uppercase p
                && match rest with (n, _) :: _ => is_lowercase n | [] => false end)
        end in
      if boundary && negb (is_empty current) then current :: split_words (Some c) e rest
      else split_words (Some c) (current ++ e)%string rest
  end.
Definition case_words (segment : string) : list string :=
  let words := split_words None EmptyString (char_indices segment) in
  if (length words <? 2)%nat then []
  else List.filter (fun word => 2 <=? blen word) (map to_lowercase words).

Definition push_key (keys : list string) (value : string) : list string :=
  if (2 <=? blen value) && negb (elemb value STOP_WORDS) && negb (elemb value keys) then keys ++ [value] else keys.
Definition token_keys (raw : string) : list string :=
  let keys := push_key [] (to_lowercase raw) in
  let segments := List.filter (fun s => negb (is_empty s)) (split is_separator raw) in
  foldl (fun keys segment =>
      let keys := if (1 <? length segments)%nat then push_key keys (to_lowercase segment) else keys in
      foldl push_key keys (case_words segment))
    keys segments.
(** The trimmed pieces of a text between characters that are in no token. *)
Definition raw_tokens (text : string) : list string :=
  List.filter (fun raw => negb (is_empty raw))
    (map (trim_matches is_whitespace) (split (fun c => negb (is_token_char c)) text)).
Definition index_keys (text : string) : list string :=
  dedup (sort (concat (map token_keys (raw_tokens text)))).

(** ** Lexical relevance *)

Record LexicalTerm : Type := { term_text : string; weight : f64 }.
Record LexicalQuery : Type := { terms : list LexicalTerm; total_weight : f64 }.

Definition postings (index : StructuralGraphQueryIndex) (text : string) : list nat :=
  default [] (map_get text (tokens index)).
Definition add_term (index : StructuralGraphQueryIndex) (terms : list LexicalTerm) (text : string) : list LexicalTerm :=
  if any (fun term => seqb (term_text term) text) terms then terms else
  let frequency := length (postings index text) in
  if (frequency =? 0)%nat then terms else
  let weight := ln (f64_add f64_one (f64_div (f64_of_nat (Nat.max (node_count index) 1))
                                       (f64_add f64_one (f64_of_nat frequency)))) in
  terms ++ [{| term_text := text; weight := weight |}].
Definition lexical_query (query : string) (index : StructuralGraphQueryIndex) : LexicalQuery :=
  let found := foldl (fun terms raw => foldl (add_term index) terms (token_keys raw)) [] (raw_tokens query) in
  let sorted := sort_by (fun left right => then_with (f64_total_cmp (weight right) (weight left))
                                             (cmp (term_text left) (term_text right))) found in
  {| terms := sorted; total_weight := f64_sum (map weight sorted) |}.

(** The byte offset of the first occurrence: [s.find(needle)]. *)
Definition find_offset (needle s : string) : option nat :=
  match find_after needle s with
  | Some after => Some (String.length s - String.length needle - String.length after)%nat
  | None => None
  end.
Definition alphanumeric_at (field : string) (i : nat) : bool :=
  match String.get i field with Some c => is_ascii_alphanumeric (byte_of c) | None => false end.
Fixpoint scan_field (fuel : nat) (field term : string) (from : nat) (best : f64) : f64 :=
  match fuel with
  | O => best
  | S fuel =>
      match find_offset term (str_drop from field) with
      | None => best
      | Some offset =>
          let start := (from + offset)%nat in
          let stop := (start + String.length term)%nat in
          let boundary_before := (start =? 0)%nat || negb (alphanumeric_at field (start - 1)) in
          let boundary_after := (stop =? String.length field)%nat || negb (alphanumeric_at field stop) in
          let quality := if boundary_before && boundary_after then f64_literal 9 10
                         else if boundary_before then f64_literal 65 100 else f64_literal 4 10 in
          let best := f64_max best quality in
          if f64_leb (f64_literal 9 10) best then best else
          let from := (start + Nat.max (String.length term) 1)%nat in
          if (String.length field <=? from)%nat then best else scan_field fuel field term from best
      end
  end.
Definition field_hit (field term : string) : f64 :=
  if is_empty field then f64_zero
  else if seqb field term then f64_one
  else scan_field (S (String.length field)) field term 0 f64_zero.

Definition best_field (node : StructuralGraphNode) (term : string) : f64 :=
  let best := f64_mul WEIGHT_LABEL (field_hit (normalize (label node)) term) in
  let best := foldl (fun best wf => match snd wf with
      | Some field => f64_max best (f64_mul (fst wf) (field_hit (normalize field) term))
      | None => best
      end) best [(WEIGHT_QUALIFIED, qualified_name node); (WEIGHT_PATH, node_path node); (WEIGHT_DETAIL, detail node)] in
  f64_max best (f64_mul WEIGHT_KIND (field_hit (normalize (node_kind node)) term)).
Definition lexical_relevance (node : StructuralGraphNode) (query : LexicalQuery) : f64 :=
  if f64_leb (total_weight query) f64_zero then f64_zero else
  let earned := foldl (fun earned term => f64_add earned (f64_mul (weight term) (best_field node (term_text term))))
                  f64_zero (terms query) in
  f64_clamp (f64_div earned (total_weight query)) f64_zero f64_one.
Definition tiered_score (tier : N) (relevance : f64) : N :=
  N.min (N.min (tier + f64_round_u32 (f64_mul (f64_clamp relevance f64_zero f64_one) TIER_SPAN)) u32_max) MAX_SCORE.
Definition rank_question_tokens (node : StructuralGraphNode) (query : LexicalQuery) : option (N * string) :=
  if is_nil (terms query) then None else
  let relevance := lexical_relevance node query in
  if f64_ltb f64_zero relevance then Some (tiered_score TIER_LEXICAL relevance, "lexical_question"%string) else None.

(** ** The index and its cache *)

(** [map.entry(key).or_default().push(ordinal)] *)
Definition push_ordinal (ordinal : nat) (m : BTreeMap string (list nat)) (key : string) : BTreeMap string (list nat) :=
  push_entry key ordinal m.
Definition exact_values (node : StructuralGraphNode) : list string :=
  map normalize (omap id [Some (node_id node); node_path node; qualified_name node; Some (label node)]).
Definition searchable (node : StructuralGraphNode) : string :=
  (label node ++ " " ++ default "" (qualified_name node) ++ " " ++ default "" (node_path node) ++ " "
   ++ node_kind node ++ " " ++ default "" (detail node))%string.
Definition index_node (index : StructuralGraphQueryIndex) (p : nat * StructuralGraphNode) : StructuralGraphQueryIndex := {|
  exact := foldl (push_ordinal (fst p)) (exact index) (exact_values (snd p));
  tokens := foldl (push_ordinal (fst p)) (tokens index) (index_keys (searchable (snd p)));
  node_count := node_count index |}.
Definition build_index (snapshot : StructuralGraphSnapshot) : StructuralGraphQueryIndex :=
  let index := foldl index_node {| exact := []; tokens := []; node_count := length (nodes snapshot) |}
                 (enumerate_nat 0 (nodes snapshot)) in
  {| exact := exact index; tokens := map (fun p => (fst p, dedup (sort (snd p)))) (tokens index);
     node_count := node_count index |}.

Definition query_index (snapshot : StructuralGraphSnapshot) (cache : query_cache) : StructuralGraphQueryIndex * query_cache :=
  match map_get (snapshot_id snapshot) cache with
  | Some index => (index, cache)
  | None =>
      let index := build_index snapshot in
      let cache := if (MAX_QUERY_INDEXES <=? length cache)%nat then [] else cache in
      (index, map_insert (snapshot_id snapshot) index cache)
  end.

(** The work of the first query, done early. *)
Definition prepare_search_index (snapshot : StructuralGraphSnapshot) (cache : query_cache) : query_cache :=
  snd (query_index snapshot cache).

Definition candidate_ordinals (index : StructuralGraphQueryIndex) (needle : string) (query : LexicalQuery) : list nat :=
  let candidates := set_of_list (default [] (map_get needle (exact index))) in
  sort (foldl (fun candidates term => foldl (fun s i => set_insert i s) candidates (postings index (term_text term)))
          candidates (terms query)).
End Index.

Definition trust_cost (trust : GraphTrust) : f64 :=
  match trust with
  | Extracted => f64_one
  | Inferred => f64_literal 16 10
  | Ambiguous => f64_literal 35 10
  | Legacy => f64_of_Z 4
  end.

(** ASCII tables, for the examples. *)
Definition ascii : Unicode := {|
  to_lowercase := to_ascii_lowercase; is_alphanumeric := is_ascii_alphanumeric; is_numeric := is_ascii_digit;
  is_uppercase := is_ascii_uppercase; is_lowercase := is_ascii_lowercase |}.
Example ex_token_keys :
  @token_keys ascii "src/parseURLQuery" =
  ["src/parseurlquery"; "src"; "parseurlquery"; "parse"; "url"; "query"]%string /\
  @token_keys ascii "context.go" = ["context.go"; "context"; "go"]%string.
Proof. vm_compute. done. Qed.
Example ex_field_hits :
  map (fun field => field_hit field "path") ["path"; "full path here"; "pathfinder"; "fullpath"; "unrelated"]%string =
  [f64_one; f64_literal 9 10; f64_literal 65 100; f64_literal 4 10; f64_zero].
Proof. vm_compute. done. Qed.
