(* ===== verification/GraphQuery.v ===== *)
(** The queries of [src/crates/codevetter-core/src/commands/structural_graph/query]:
    the response limits ([limits.rs]), search, resolution, explanation and
    neighbours ([search.rs]), and the projections and differences
    ([projection.rs]), with the records of [mod.rs] they return.

    [serde_json::to_vec] is the class [Serialize]: the length of the bytes it
    writes, or none where it fails.  The index cache is threaded through the
    queries that use it. *)
From S2P Require Import Prelude Ordering Entries RustText GraphTypes F64 GraphAlgorithms Analysis Communities Snapshot QueryIndex.
From stdpp Require Import pretty.
Local Open Scope N_scope.

Definition DEFAULT_LIMIT : N := 50.
Definition MAX_LIMIT : N := 500.
Definition MAX_EDGE_LIMIT : nat := 2000.
Definition MAX_RESPONSE_BYTES : N := 1048576.
Definition MAX_PATH_HOPS : nat := 32.
Definition MAX_PATH_VISITS : N := 25000.
Definition MAX_DIFF_IDS : nat := 500.

(** ** Results *)

Inductive GraphDirection : Type := Incoming | Outgoing | Both.
Record GraphTrustSummary : Type := { extracted : nat; inferred : nat; ambiguous : nat; legacy : nat }.
Record GraphFreshness : Type := {
  indexed_head : option string;
  current_head : option string;
  stale : option bool
}.
Record GraphQueryContext : Type := {
  context_snapshot_id : string;
  context_schema_version : Z;
  context_engine_id : string;
  context_engine_version : string;
  context_created_at : string;
  freshness : GraphFreshness;
  context_coverage : StructuralGraphCoverage;
  context_trust : GraphTrustSummary;
  max_results : N;
  max_edges : N;
  max_hops : N;
  max_bytes : N
}.
Record GraphSearchHit : Type := { hit_node : StructuralGraphNode; score : N; matched_by : string }.
Record GraphSearchResult : Type := {
  hits : list GraphSearchHit;
  search_truncated : bool;
  search_next_cursor : option string;
  search_context : GraphQueryContext
}.
Record GraphExplanation : Type := {
  explained_node : StructuralGraphNode;
  incoming_count : nat;
  outgoing_count : nat;
  incoming_kinds : list string;
  outgoing_kinds : list string;
  explanation_truncated : bool;
  explanation_context : GraphQueryContext
}.
Record GraphProjection : Type := {
  projected_nodes : list StructuralGraphNode;
  projected_edges : list StructuralGraphEdge;
  projection_truncated : bool;
  next_cursor : option string;
  projection_context : GraphQueryContext
}.
Record GraphSnapshotDiff : Type := {
  before_snapshot_id : string;
  after_snapshot_id : string;
  added_node_ids : list string;
  removed_node_ids : list string;
  changed_node_ids : list string;
  added_edge_ids : list string;
  removed_edge_ids : list string;
  changed_edge_ids : list string;
  diff_truncated : bool;
  diff_context : GraphQueryContext
}.
Record GraphAnalysisResult : Type := {
  analysis_result : StructuralGraphAnalysisSummary;
  analysis_truncated : bool;
  analysis_context : GraphQueryContext
}.
Record StructuralGraphMetadata : Type := {
  meta_snapshot_id : string;
  meta_schema_version : Z;
  meta_repo_path : string;
  meta_repo_head : option string;
  meta_created_at : string;
  meta_engine_id : string;
  meta_engine_version : string;
  meta_indexed_files : N;
  meta_node_count : nat;
  meta_edge_count : nat;
  meta_diagnostic_count : nat;
  meta_coverage : StructuralGraphCoverage;
  meta_trust : option GraphTrustSummary;
  meta_freshness : GraphFreshness;
  meta_truncated : bool
}.

Definition observe_current_head (context : GraphQueryContext) (head : option string) : GraphQueryContext := {|
  context_snapshot_id := context_snapshot_id context; context_schema_version := context_schema_version context;
  context_engine_id := context_engine_id context; context_engine_version := context_engine_version context;
  context_created_at := context_created_at context;
  freshness := {|
    indexed_head := indexed_head (freshness context); current_head := head;
    stale := option_map (fun h => negb (bool_decide (indexed_head (freshness context) = Some h))) head |};
  context_coverage := context_coverage context; context_trust := context_trust context;
  max_results := max_results context; max_edges := max_edges context; max_hops := max_hops context;
  max_bytes := max_bytes context |}.

Definition count_trust (summary : GraphTrustSummary) (trust : GraphTrust) : GraphTrustSummary :=
  match trust with
  | Extracted => {| extracted := S (extracted summary); inferred := inferred summary;
                    ambiguous := ambiguous summary; legacy := legacy summary |}
  | Inferred => {| extracted := extracted summary; inferred := S (inferred summary);
                   ambiguous := ambiguous summary; legacy := legacy summary |}
  | Ambiguous => {| extracted := extracted summary; inferred := inferred summary;
                    ambiguous := S (ambiguous summary); legacy := legacy summary |}
  | Legacy => {| extracted := extracted summary; inferred := inferred summary;
                 ambiguous := ambiguous summary; legacy := S (legacy summary) |}
  end.
Definition trust_summary (snapshot : StructuralGraphSnapshot) : GraphTrustSummary :=
  foldl count_trust {| extracted := 0; inferred := 0; ambiguous := 0; legacy := 0 |}
    (map node_trust (nodes snapshot) ++ map edge_trust (edges snapshot)).
Definition snapshot_freshness (snapshot : StructuralGraphSnapshot) : GraphFreshness :=
  {| indexed_head := repo_head snapshot; current_head := None; stale := None |}.
Definition query_context (snapshot : StructuralGraphSnapshot) : GraphQueryContext := {|
  context_snapshot_id := snapshot_id snapshot; context_schema_version := schema_version snapshot;
  context_engine_id := engine_info_id (engine snapshot); context_engine_version := version (engine snapshot);
  context_created_at := created_at snapshot; freshness := snapshot_freshness snapshot;
  context_coverage := coverage snapshot; context_trust := trust_summary snapshot; max_results := MAX_LIMIT;
  max_edges := N.of_nat MAX_EDGE_LIMIT; max_hops := N.of_nat MAX_PATH_HOPS; max_bytes := MAX_RESPONSE_BYTES |}.
Definition metadata (snapshot : StructuralGraphSnapshot) : StructuralGraphMetadata := {|
  meta_snapshot_id := snapshot_id snapshot; meta_schema_version := schema_version snapshot;
  meta_repo_path := repo_path snapshot; meta_repo_head := repo_head snapshot;
  meta_created_at := created_at snapshot; meta_engine_id := engine_info_id (engine snapshot);
  meta_engine_version := version (engine snapshot); meta_indexed_files := indexed_files (coverage snapshot);
  meta_node_count := length (nodes snapshot); meta_edge_count := length (edges snapshot);
  meta_diagnostic_count := length (diagnostics snapshot); meta_coverage := coverage snapshot;
  meta_trust := Some (trust_summary snapshot); meta_freshness := snapshot_freshness snapshot;
  meta_truncated := truncated snapshot |}.

(** ** Limits *)

Definition bounded_limit (limit : option N) : nat :=
  N.to_nat (N.min (N.max (default DEFAULT_LIMIT limit) 1) MAX_LIMIT).

(** [str::parse::<usize>]: an optional plus sign and decimal digits, without overflow. *)
Fixpoint parse_digits (acc : N) (s : string) : option N :=
  match s with
  | EmptyString => Some acc
  | String c s =>
      if is_ascii_digit (byte_of c) then
        let acc := acc * 10 + (byte_of c - 48) in
        if acc <=? usize_max then parse_digits acc s else None
      else None
  end.
Definition parse_usize (s : string) : option N :=
  let digits := match s with String c rest => if byte_of c =? 43 then rest else s | EmptyString => s end in
  if is_empty digits then None else parse_digits 0 digits.
Definition INVALID_CURSOR : string := "Graph cursor is invalid or expired".
Definition parse_cursor (cursor : option string) : outcome N :=
  ok_or (parse_usize (default "0"%string cursor)) INVALID_CURSOR.

Class Serialize (A : Type) : Type := to_vec_len : A -> option N.
Definition serialized_bytes `{Serialize A} (value : A) : N := default usize_max (to_vec_len value).

Definition strip_source (source : GraphSourceAnchor) : GraphSourceAnchor := {|
  path := path source; start_line := start_line source; start_column := start_column source;
  end_line := end_line source; end_column := end_column source; excerpt := None |}.
Definition strip_node_excerpts (node : StructuralGraphNode) : StructuralGraphNode := {|
  node_id := node_id node; node_kind := node_kind node; label := label node; qualified_name := qualified_name node;
  node_path := node_path node; detail := detail node; language := language node;
  community_id := community_id node; node_trust := node_trust node; node_origin := node_origin node;
  node_sources := map strip_source (node_sources node) |}.
Definition strip_edge_excerpts (edge : StructuralGraphEdge) : StructuralGraphEdge := {|
  edge_id := edge_id edge; from := from edge; to := to edge; edge_kind := edge_kind edge;
  evidence := evidence edge; edge_trust := edge_trust edge; edge_origin := edge_origin edge;
  edge_sources := map strip_source (edge_sources edge); candidates := candidates edge |}.
Definition strip_hit (hit : GraphSearchHit) : GraphSearchHit := {|
  hit_node := strip_node_excerpts (hit_node hit); score := score hit; matched_by := matched_by hit |}.

(** [while too_large(items) && !items.is_empty() { items.pop(); }] *)
Fixpoint pop_while {A} (fuel : nat) (too_large : list A -> bool) (items : list A) : list A :=
  match fuel with
  | O => items
  | S fuel => if too_large items && negb (is_nil items) then pop_while fuel too_large (removelast items) else items
  end.
Definition pop_while_large {A} (too_large : list A -> bool) (items : list A) : list A :=
  pop_while (length items) too_large items.
(** The list without its last element that is not protected, if there is one. *)
Fixpoint remove_last_unprotected (protected : StructuralGraphNode -> bool) (l : list StructuralGraphNode)
    : option (list StructuralGraphNode) :=
  match l with
  | [] => None
  | x :: l =>
      match remove_last_unprotected protected l with
      | Some l' => Some (x :: l')
      | None => if protected x then None else Some l
      end
  end.
Fixpoint shrink_nodes (fuel : nat) (too_large : list StructuralGraphNode -> bool)
    (protected : StructuralGraphNode -> bool) (l : list StructuralGraphNode) : list StructuralGraphNode :=
  match fuel with
  | O => l
  | S fuel =>
      if too_large l then
        match remove_last_unprotected protected l with
        | Some l' => shrink_nodes fuel too_large protected l'
        | None => l
        end
      else l
  end.
(** [retain] the edges whose two ends are among the ids. *)
Definition edges_among (ids : BTreeSet string) (edges : list StructuralGraphEdge) : list StructuralGraphEdge :=
  List.filter (fun e => set_contains (from e) ids && set_contains (to e) ids) edges.

Definition with_graph (projection : GraphProjection) (nodes : list StructuralGraphNode)
    (edges : list StructuralGraphEdge) (truncated : bool) : GraphProjection := {|
  projected_nodes := nodes; projected_edges := edges; projection_truncated := truncated;
  next_cursor := next_cursor projection; projection_context := projection_context projection |}.
Definition enforce_projection_bytes `{Serialize GraphProjection} (protected_node_ids : BTreeSet string)
    (projection : GraphProjection) : GraphProjection :=
  if serialized_bytes projection <=? MAX_RESPONSE_BYTES then projection else
  let nodes := map strip_node_excerpts (projected_nodes projection) in
  let edges := map strip_edge_excerpts (projected_edges projection) in
  let too_large nodes edges := MAX_RESPONSE_BYTES <? serialized_bytes (with_graph projection nodes edges true) in
  let edges := pop_while_large (too_large nodes) edges in
  let nodes := shrink_nodes (S (length nodes)) (fun nodes => too_large nodes edges)
                 (fun node => set_contains (node_id node) protected_node_ids) nodes in
  with_graph projection nodes (edges_among (set_of_list (map node_id nodes)) edges) true.

(** Previews are kept on the hits of the first default page. *)
Definition trim_search_previews (result : GraphSearchResult) : GraphSearchResult := {|
  hits := take (N.to_nat DEFAULT_LIMIT) (hits result) ++ map strip_hit (drop (N.to_nat DEFAULT_LIMIT) (hits result));
  search_truncated := search_truncated result; search_next_cursor := search_next_cursor result;
  search_context := search_context result |}.
Definition with_hits (result : GraphSearchResult) (hits : list GraphSearchHit) : GraphSearchResult := {|
  hits := hits; search_truncated := true; search_next_cursor := search_next_cursor result;
  search_context := search_context result |}.
(** [(offset < total).then(|| offset.to_string())] *)
Definition cursor_below (offset total : N) : option string := if offset <? total then Some (pretty offset) else None.
Definition enforce_search_bytes `{Serialize GraphSearchResult} (offset total : N) (result : GraphSearchResult)
    : GraphSearchResult :=
  if serialized_bytes result <=? MAX_RESPONSE_BYTES then result else
  let hits := pop_while_large (fun hits => MAX_RESPONSE_BYTES <? serialized_bytes (with_hits result hits))
                (map strip_hit (hits result)) in {|
  hits := hits; search_truncated := true; search_next_cursor := cursor_below (offset + len hits) total;
  search_context := search_context result |}.

(** ** Search *)

Section Queries.
Context `{Unicode} (ln : f64 -> f64).
Context `{Serialize GraphSearchResult} `{Serialize GraphProjection}.

Definition score_node (needle : string) (lexical : LexicalQuery) (node : StructuralGraphNode)
    : option (StructuralGraphNode * N * string) :=
  match rank_node node needle with
  | Some (tier, matched_by) => Some (node, tiered_score tier (lexical_relevance node lexical), matched_by)
  | None => match rank_question_tokens node lexical with
            | Some (score, matched_by) => Some (node, score, matched_by)
            | None => None
            end
  end.
Definition compare_hits (left right : StructuralGraphNode * N * string) : comparison :=
  then_with (N.compare (snd (fst right)) (snd (fst left)))
    (then_with (cmp (label (fst (fst left))) (label (fst (fst right))))
      (cmp (node_id (fst (fst left))) (node_id (fst (fst right))))).
Definition rank_hits (snapshot : StructuralGraphSnapshot) (index : StructuralGraphQueryIndex) (query : string)
    (filter : GraphQueryFilter) : list (StructuralGraphNode * N * string) :=
  let needle := normalize query in
  let lexical := lexical_query ln query index in
  let ordinals := candidate_ordinals index needle lexical in
  let candidates := if is_nil ordinals then seq 0 (length (nodes snapshot)) else ordinals in
  sort_by compare_hits
    (omap (score_node needle lexical)
      (List.filter (fun node => node_matches_filter node filter) (omap (fun i => nodes snapshot !! i) candidates))).
Definition search_page (snapshot : StructuralGraphSnapshot) (query : string) (filter : GraphQueryFilter)
    (limit : option N) (cursor : option string) (cache : query_cache) : outcome GraphSearchResult * query_cache :=
  if is_empty (normalize query) then
    (Ok {| hits := []; search_truncated := false; search_next_cursor := None;
           search_context := query_context snapshot |}, cache)
  else
  let '(index, cache) := query_index snapshot cache in
  let ranked := rank_hits snapshot index query filter in
  let result :=
    offset ← parse_cursor cursor;
    if len ranked <? offset then Err INVALID_CURSOR else
    let page := take (bounded_limit limit) (drop (N.to_nat offset) ranked) in
    let next_offset := offset + len page in
    let result := {|
      hits := map (fun h => {| hit_node := fst (fst h); score := snd (fst h); matched_by := snd h |}) page;
      search_truncated := next_offset <? len ranked;
      search_next_cursor := cursor_below next_offset (len ranked);
      search_context := query_context snapshot |} in
    Ok (enforce_search_bytes offset (len ranked) (trim_search_previews result)) in
  (result, cache).
(** [.expect("default graph cursor is valid")] *)
Definition search (snapshot : StructuralGraphSnapshot) (query : string) (filter : GraphQueryFilter)
    (limit : option N) (cache : query_cache) : outcome GraphSearchResult * query_cache :=
  let '(result, cache) := search_page snapshot query filter limit None cache in
  (match result with Err _ => Crash "default graph cursor is valid" | r => r end, cache).

(** ** Resolution *)

Definition matches_tier (needle tier : string) (node : StructuralGraphNode) : bool :=
  match rank_node node needle with Some (_, matched_by) => seqb matched_by tier | None => false end.
Fixpoint resolve_tiers (tiers : list string) (needle reference : string) (candidates : list StructuralGraphNode)
    : outcome StructuralGraphNode :=
  match tiers with
  | [] => Err ("No graph node matches '" ++ reference ++ "'")
  | tier :: tiers =>
      match List.filter (matches_tier needle tier) candidates with
      | [] => resolve_tiers tiers needle reference candidates
      | [node] => Ok node
      | matches => Err ("Node reference is ambiguous (" ++ pretty (len matches)
                        ++ " matches); use the stable node id")
      end
  end.
Definition resolve_node (snapshot : StructuralGraphSnapshot) (reference : string) (cache : query_cache)
    : outcome StructuralGraphNode * query_cache :=
  let needle := normalize reference in
  if is_empty needle then (Err "A node id, qualified name, path, or label is required", cache) else
  let '(index, cache) := query_index snapshot cache in
  let candidates := default (seq 0 (length (nodes snapshot))) (map_get needle (exact index)) in
  (resolve_tiers ["id"; "qualified_name"; "path"; "label"]%string needle reference
     (omap (fun i => nodes snapshot !! i) candidates), cache).

Definition explain_node (snapshot : StructuralGraphSnapshot) (node : StructuralGraphNode) : GraphExplanation :=
  let incoming := List.filter (fun e => seqb (to e) (node_id node)) (edges snapshot) in
  let outgoing := List.filter (fun e => seqb (from e) (node_id node)) (edges snapshot) in {|
  explained_node := node; incoming_count := length incoming; outgoing_count := length outgoing;
  incoming_kinds := set_of_list (map edge_kind incoming); outgoing_kinds := set_of_list (map edge_kind outgoing);
  explanation_truncated := false; explanation_context := query_context snapshot |}.
Definition explain (snapshot : StructuralGraphSnapshot) (reference : string) (cache : query_cache)
    : outcome GraphExplanation * query_cache :=
  let '(resolved, cache) := resolve_node snapshot reference cache in
  (node ← resolved; Ok (explain_node snapshot node), cache).

Definition touches (direction : GraphDirection) (id : string) (edge : StructuralGraphEdge) : bool :=
  match direction with
  | Incoming => seqb (to edge) id
  | Outgoing => seqb (from edge) id
  | Both => seqb (from edge) id || seqb (to edge) id
  end.
Definition neighbors_of (snapshot : StructuralGraphSnapshot) (root : StructuralGraphNode)
    (direction : GraphDirection) (filter : GraphQueryFilter) (limit : option N) (cursor : option string)
    : outcome GraphProjection :=
  let node_by_id := index_by_id (nodes snapshot) in
  let found := sort_by (fun left right => then_with (cmp (edge_kind left) (edge_kind right))
                                            (cmp (edge_id left) (edge_id right)))
    (List.filter (touches direction (node_id root))
      (List.filter (fun e => edge_matches_filter e filter) (edges snapshot))) in
  offset ← parse_cursor cursor;
  let limit := bounded_limit limit in
  let page := take limit (drop (N.to_nat offset) found) in
  let truncated := offset + len page <? len found in
  let node_ids := set_of_list (node_id root :: concat (map (fun e => [from e; to e]) page)) in
  let shown := List.filter (fun node => node_matches_filter node filter || seqb (node_id node) (node_id root))
                 (omap (fun id => map_get id node_by_id) node_ids) in
  Ok (enforce_projection_bytes (set_of_list [node_id root]) {|
    projected_nodes := order_nodes shown; projected_edges := page; projection_truncated := truncated;
    next_cursor := if truncated then Some (pretty (offset + N.of_nat limit)) else None;
    projection_context := query_context snapshot |}).
Definition neighbors (snapshot : StructuralGraphSnapshot) (reference : string) (direction : GraphDirection)
    (filter : GraphQueryFilter) (limit : option N) (cursor : option string) (cache : query_cache)
    : outcome GraphProjection * query_cache :=
  let '(resolved, cache) := resolve_node snapshot reference cache in
  (root ← resolved; neighbors_of snapshot root direction filter limit cursor, cache).

(** ** Projections *)

(** The page of an order of nodes, with the edges between its nodes: the
    common part of [overview_page] and [community_page]. *)
Definition by_degree (degree : BTreeMap string nat) (l : list StructuralGraphNode) : list StructuralGraphNode :=
  sort_by (fun left right => then_with (Nat.compare (count_of degree (node_id right)) (count_of degree (node_id left)))
                               (cmp (node_id left) (node_id right))) l.
Definition sort_edges_by_id (l : list StructuralGraphEdge) : list StructuralGraphEdge :=
  sort_by (fun left right => cmp (edge_id left) (edge_id right)) l.
Definition project_page (snapshot : StructuralGraphSnapshot) (ranked : list StructuralGraphNode) (limit : nat)
    (offset : N) : outcome GraphProjection :=
  if len ranked <? offset then Err INVALID_CURSOR else
  let page := take limit (drop (N.to_nat offset) ranked) in
  let next_offset := offset + len page in
  let among := edges_among (set_of_list (map node_id page)) (edges snapshot) in
  let shown := take MAX_EDGE_LIMIT among in
  Ok (enforce_projection_bytes [] {|
    projected_nodes := order_nodes page; projected_edges := sort_edges_by_id shown;
    projection_truncated := (next_offset <? len ranked) || (length shown <? length among)%nat;
    next_cursor := cursor_below next_offset (len ranked);
    projection_context := query_context snapshot |}).
Definition overview_page (snapshot : StructuralGraphSnapshot) (limit : option N) (cursor : option string)
    : outcome GraphProjection :=
  offset ← parse_cursor cursor;
  project_page snapshot (by_degree (count_degrees (edges snapshot)) (nodes snapshot)) (bounded_limit limit) offset.
Definition overview (snapshot : StructuralGraphSnapshot) (limit : option N) : outcome GraphProjection :=
  match overview_page snapshot limit None with Err _ => Crash "default graph cursor is valid" | r => r end.
Definition community_members (snapshot : StructuralGraphSnapshot) (id : string) : list StructuralGraphNode :=
  by_degree (count_degrees (edges snapshot))
    (List.filter (fun node => bool_decide (community_id node = Some id)) (nodes snapshot)).
Definition community_page (snapshot : StructuralGraphSnapshot) (id : string) (limit : option N)
    (cursor : option string) : outcome GraphProjection :=
  if negb (any (fun c => seqb (community_entry_id c) id) (communities snapshot))
  then Err ("No graph community matches '" ++ id ++ "'") else
  offset ← parse_cursor cursor;
  project_page snapshot (community_members snapshot id) (bounded_limit limit) offset.
Definition community (snapshot : StructuralGraphSnapshot) (id : string) (limit : option N) : outcome GraphProjection :=
  community_page snapshot id limit None.

Definition analysis_summary (snapshot : StructuralGraphSnapshot) : outcome StructuralGraphAnalysisSummary :=
  summarize_graph_analysis_with_context (nodes snapshot) (edges snapshot) (communities snapshot)
    (coverage snapshot) (truncated snapshot).
Definition analysis (snapshot : StructuralGraphSnapshot) : outcome GraphAnalysisResult :=
  summary ← analysis_summary snapshot;
  Ok {| analysis_result := summary; analysis_truncated := truncated snapshot;
        analysis_context := query_context snapshot |}.
End Queries.

(** ** Differences *)

(** [map(|value| (value.id, value)).collect::<HashMap>()] *)
Definition index_edges_by_id (edges : list StructuralGraphEdge) : BTreeMap string StructuralGraphEdge :=
  map_of_list (map (fun e => (edge_id e, e)) edges).
Definition diff_identity_maps {T} `{EqDecision T} (before after : BTreeMap string T)
    : list string * list string * list string :=
  let added := List.filter (fun id => negb (map_contains_key id before)) (map_keys after) in
  let removed := List.filter (fun id => negb (map_contains_key id after)) (map_keys before) in
  let changed := map fst (List.filter (fun p => match map_get (fst p) before with
    | Some value => negb (bool_decide (value = snd p)) | None => false end) after) in
  (sort added, sort removed, sort changed).
Definition diff_snapshots (before after : StructuralGraphSnapshot) : GraphSnapshotDiff :=
  let '(added_nodes, removed_nodes, changed_nodes) :=
    diff_identity_maps (index_by_id (nodes before)) (index_by_id (nodes after)) in
  let '(added_edges, removed_edges, changed_edges) :=
    diff_identity_maps (index_edges_by_id (edges before)) (index_edges_by_id (edges after)) in {|
  before_snapshot_id := snapshot_id before; after_snapshot_id := snapshot_id after;
  added_node_ids := take MAX_DIFF_IDS added_nodes; removed_node_ids := take MAX_DIFF_IDS removed_nodes;
  changed_node_ids := take MAX_DIFF_IDS changed_nodes; added_edge_ids := take MAX_DIFF_IDS added_edges;
  removed_edge_ids := take MAX_DIFF_IDS removed_edges; changed_edge_ids := take MAX_DIFF_IDS changed_edges;
  diff_truncated := any (fun count => MAX_DIFF_IDS <? count)%nat
    (map length [added_nodes; removed_nodes; changed_nodes; added_edges; removed_edges; changed_edges]);
  diff_context := query_context after |}.
