(* ===== verification/Traversal.v ===== *)
(** The queries of [src/crates/codevetter-core/src/commands/structural_graph/query]
    that walk the graph: [subgraph] ([projection.rs]), [impact] and
    [shortest_path] ([traversal.rs]) with its queue of visits ([path_visit.rs]),
    and the limits of their responses ([limits.rs]).

    The variables a walk mutates are the fields of [walk] and [path_search]; a
    [while let Some(..) = queue.pop_front()] loop is [Prelude.loop] over its
    body. *)
From S2P Require Import Prelude Ordering Entries RustText GraphTypes F64 GraphAlgorithms Analysis Communities Snapshot QueryIndex GraphQuery.
Local Open Scope nat_scope.

Record GraphPathResult : Type := {
  path_nodes : list StructuralGraphNode;
  path_edges : list StructuralGraphEdge;
  total_cost : f64;
  visited : N;
  path_truncated : bool;
  path_context : GraphQueryContext
}.
Record GraphImpactResult : Type := {
  root : StructuralGraphNode;
  affected : list StructuralGraphNode;
  impact_edges : list StructuralGraphEdge;
  depth_reached : nat;
  impact_truncated : bool;
  impact_context : GraphQueryContext
}.

(** ** Breadth-first walks *)

Record walk : Type := {
  queue : list (string * nat);
  seen : BTreeSet string;
  seen_edges : BTreeSet string;
  reached : nat;
  cut : bool
}.
Abbreviation edge_lists := (BTreeMap string (list StructuralGraphEdge)).

(** The other end of an edge. *)
Definition neighbor_of (node_id : string) (edge : StructuralGraphEdge) : string :=
  if seqb (from edge) node_id then to edge else from edge.
Definition start_walk (roots : list string) : walk := {|
  queue := map (fun id => (id, 0)) roots; seen := set_of_list roots; seen_edges := []; reached := 0; cut := false |}.
Definition edges_at (adjacency : edge_lists) (node_id : string) : list StructuralGraphEdge :=
  default [] (map_get node_id adjacency).
(** [for edges in adjacency.values_mut() { edges.sort_by(..) }] *)
Definition sort_lists (compare : string -> StructuralGraphEdge -> StructuralGraphEdge -> comparison)
    (adjacency : edge_lists) : edge_lists :=
  map (fun p => (fst p, sort_by (compare (fst p)) (snd p))) adjacency.
Definition compare_edge_ids (node_id : string) (left right : StructuralGraphEdge) : comparison :=
  cmp (edge_id left) (edge_id right).
(** More turns than a walk takes: one for each root and each end of an edge. *)
Definition walk_fuel (roots : list string) (edges : list StructuralGraphEdge) : nat :=
  length roots + 2 * length edges.

(** *** [subgraph] *)

Definition subgraph_adjacency (filter : GraphQueryFilter) (edges : list StructuralGraphEdge) : edge_lists :=
  sort_lists compare_edge_ids
    (foldl (fun m e => push_entry (to e) e (push_entry (from e) e m)) []
       (List.filter (fun e => edge_matches_filter e filter) edges)).
Definition subgraph_edge (limit : nat) (node_id : string) (current_depth : nat) (st : walk)
    (edge : StructuralGraphEdge) : walk :=
  let neighbor := neighbor_of node_id edge in
  let known := set_contains neighbor (seen st) in
  if (limit <=? length (seen st)) && negb known then
    {| queue := queue st; seen := seen st; seen_edges := seen_edges st; reached := reached st; cut := true |}
  else {|
    queue := if known then queue st else queue st ++ [(neighbor, S current_depth)];
    seen := set_insert neighbor (seen st);
    seen_edges := set_insert (edge_id edge) (seen_edges st); reached := reached st; cut := cut st |}.
Definition subgraph_step (adjacency : edge_lists) (limit max_depth : nat) (st : walk) : option (outcome walk) :=
  match queue st with
  | [] => None
  | (node_id, current_depth) :: rest =>
      let st := {| queue := rest; seen := seen st; seen_edges := seen_edges st; reached := reached st;
                   cut := cut st |} in
      Some (Ok (if max_depth <=? current_depth then st
                else foldl (subgraph_edge limit node_id current_depth) st (edges_at adjacency node_id)))
  end.

(** *** [impact] *)

Definition impact_adjacency (direction : GraphDirection) (m : edge_lists) (edge : StructuralGraphEdge) : edge_lists :=
  match direction with
  | Incoming => push_entry (to edge) edge m
  | Outgoing => push_entry (from edge) edge m
  | Both => push_entry (from edge) edge (push_entry (to edge) edge m)
  end.
Definition compare_neighbors (degree : BTreeMap string nat) (node_id : string) (left right : StructuralGraphEdge)
    : comparison :=
  then_with (Nat.compare (count_of degree (neighbor_of node_id left)) (count_of degree (neighbor_of node_id right)))
    (cmp (edge_id left) (edge_id right)).
Definition impact_lists (direction : GraphDirection) (filter : GraphQueryFilter) (edges : list StructuralGraphEdge)
    : edge_lists :=
  let edges := List.filter (fun e => edge_matches_filter e filter) edges in
  sort_lists (compare_neighbors (count_degrees edges)) (foldl (impact_adjacency direction) [] edges).
(** One edge; the loop is left once [cut] is set. *)
Definition impact_edge (limit : nat) (node_id : string) (current_depth : nat) (st : walk)
    (edge : StructuralGraphEdge) : walk :=
  if cut st then st else
  let neighbor := neighbor_of node_id edge in
  let edge_ids := set_insert (edge_id edge) (seen_edges st) in
  if set_contains neighbor (seen st) then
    {| queue := queue st; seen := seen st; seen_edges := edge_ids; reached := reached st; cut := false |}
  else
    let seen := set_insert neighbor (seen st) in
    if S limit <? length seen then
      {| queue := queue st; seen := seen; seen_edges := edge_ids; reached := reached st; cut := true |}
    else {|
      queue := queue st ++ [(neighbor, S current_depth)]; seen := seen; seen_edges := edge_ids;
      reached := reached st; cut := false |}.
Definition impact_step (adjacency : edge_lists) (limit max_depth : nat) (st : walk) : option (outcome walk) :=
  if cut st then None else
  match queue st with
  | [] => None
  | (node_id, current_depth) :: rest =>
      let st := {| queue := rest; seen := seen st; seen_edges := seen_edges st;
                   reached := Nat.max (reached st) current_depth; cut := false |} in
      Some (Ok (if max_depth <=? current_depth then st
                else foldl (impact_edge limit node_id current_depth) st (edges_at adjacency node_id)))
  end.

Definition with_impact (result : GraphImpactResult) (affected : list StructuralGraphNode)
    (edges : list StructuralGraphEdge) : GraphImpactResult := {|
  root := strip_node_excerpts (root result); affected := affected; impact_edges := edges;
  depth_reached := depth_reached result; impact_truncated := true; impact_context := impact_context result |}.
Definition enforce_impact_bytes `{Serialize GraphImpactResult} (result : GraphImpactResult) : GraphImpactResult :=
  if (serialized_bytes result <=? MAX_RESPONSE_BYTES)%N then result else
  let nodes := map strip_node_excerpts (affected result) in
  let edges := map strip_edge_excerpts (impact_edges result) in
  let too_large nodes edges := (MAX_RESPONSE_BYTES <? serialized_bytes (with_impact result nodes edges))%N in
  let edges := pop_while_large (too_large nodes) edges in
  let nodes := pop_while_large (fun nodes => too_large nodes edges) nodes in
  with_impact result nodes
    (edges_among (set_of_list (map node_id nodes ++ [node_id (root result)])) edges).

(** The edges of a walk between retained nodes, at most [MAX_EDGE_LIMIT], in the snapshot's order. *)
Definition walked_edges (snapshot : StructuralGraphSnapshot) (edge_ids retained : BTreeSet string)
    : list StructuralGraphEdge :=
  take MAX_EDGE_LIMIT
    (edges_among retained (List.filter (fun e => set_contains (edge_id e) edge_ids) (edges snapshot))).

Section Walks.
Context `{Unicode} `{Serialize GraphProjection} `{Serialize GraphImpactResult} `{Serialize GraphPathResult}.

Fixpoint resolve_all (snapshot : StructuralGraphSnapshot) (seeds : list string) (cache : query_cache)
    : outcome (list StructuralGraphNode) * query_cache :=
  match seeds with
  | [] => (Ok [], cache)
  | seed :: seeds =>
      let '(resolved, cache) := resolve_node snapshot seed cache in
      match resolved with
      | Ok node =>
          let '(roots, cache) := resolve_all snapshot seeds cache in
          (nodes ← roots; Ok (node :: nodes), cache)
      | Err e => (Err e, cache)
      | Crash why => (Crash why, cache)
      end
  end.
(** What [subgraph] shows of a walk. *)
Definition subgraph_answer (snapshot : StructuralGraphSnapshot) (root_ids : list string) (filter : GraphQueryFilter)
    (st : walk) : GraphProjection :=
  let shown := List.filter (fun node => node_matches_filter node filter || elemb (node_id node) root_ids)
                 (List.filter (fun node => set_contains (node_id node) (seen st)) (nodes snapshot)) in
  let shown_edges := walked_edges snapshot (seen_edges st) (set_of_list (map node_id shown)) in {|
  projected_nodes := order_nodes shown; projected_edges := sort_edges_by_id shown_edges;
  projection_truncated := cut st || (length shown_edges <? length (seen_edges st));
  next_cursor := None; projection_context := query_context snapshot |}.
Definition subgraph_of (snapshot : StructuralGraphSnapshot) (roots : list StructuralGraphNode) (max_depth : nat)
    (filter : GraphQueryFilter) (limit : nat) : outcome GraphProjection :=
  let root_ids := map node_id roots in
  st ← loop (walk_fuel root_ids (edges snapshot))
         (subgraph_step (subgraph_adjacency filter (edges snapshot)) limit max_depth) (start_walk root_ids);
  Ok (enforce_projection_bytes (set_of_list root_ids) (subgraph_answer snapshot root_ids filter st)).
Definition subgraph (snapshot : StructuralGraphSnapshot) (seeds : list string) (depth : option N)
    (filter : GraphQueryFilter) (limit : option N) (cache : query_cache) : outcome GraphProjection * query_cache :=
  if is_nil seeds then (Err "At least one graph seed is required", cache) else
  let max_depth := N.to_nat (N.min (default 2%N depth) 8) in
  let '(resolved, cache) := resolve_all snapshot seeds cache in
  (roots ← resolved; subgraph_of snapshot roots max_depth filter (bounded_limit limit), cache).

(** What [impact] shows of a walk. *)
Definition impact_answer (snapshot : StructuralGraphSnapshot) (root : StructuralGraphNode) (limit : nat) (st : walk)
    : GraphImpactResult :=
  let node_by_id := index_by_id (nodes snapshot) in
  let affected := take limit (order_nodes (omap (fun id => map_get id node_by_id)
                    (List.filter (fun id => negb (seqb id (node_id root))) (seen st)))) in
  let shown_edges := walked_edges snapshot (seen_edges st)
                       (set_of_list (map node_id affected ++ [node_id root])) in {|
  root := root; affected := affected; impact_edges := sort_edges_by_id shown_edges; depth_reached := reached st;
  impact_truncated := cut st || (length shown_edges <? length (seen_edges st));
  impact_context := query_context snapshot |}.
Definition impact_of (snapshot : StructuralGraphSnapshot) (root : StructuralGraphNode) (direction : GraphDirection)
    (max_depth : nat) (filter : GraphQueryFilter) (limit : nat) : outcome GraphImpactResult :=
  st ← loop (walk_fuel [node_id root] (edges snapshot))
         (impact_step (impact_lists direction filter (edges snapshot)) limit max_depth) (start_walk [node_id root]);
  Ok (enforce_impact_bytes (impact_answer snapshot root limit st)).
Definition impact (snapshot : StructuralGraphSnapshot) (reference : string) (direction : GraphDirection)
    (depth : option N) (filter : GraphQueryFilter) (limit : option N) (cache : query_cache)
    : outcome GraphImpactResult * query_cache :=
  let '(resolved, cache) := resolve_node snapshot reference cache in
  (root ← resolved;
   impact_of snapshot root direction (N.to_nat (N.min (N.max (default 3%N depth) 1) 12)) filter (bounded_limit limit),
   cache).

(** ** The shortest path *)

Record PathVisit : Type := { visit_node_id : string; cost : f64 }.
(** [Ord for PathVisit]: the greatest visit is the cheapest, then the first by id. *)
Definition PathVisit_cmp (self other : PathVisit) : comparison :=
  then_with (f64_total_cmp (cost other) (cost self)) (cmp (visit_node_id other) (visit_node_id self)).
(** A [BinaryHeap] as the list of its elements, greatest first. *)
Definition heap_push (visit : PathVisit) (heap : list PathVisit) : list PathVisit :=
  sort_insert (fun x y => PathVisit_cmp y x) visit heap.

Definition f64_infinity : f64 := SpecFloat.S754_infinity false.
Definition HUB_PENALTY : f64 := f64_literal 2 1000.
Record path_search : Type := {
  heap : list PathVisit;
  distance : BTreeMap string f64;
  previous : BTreeMap string (string * string);
  visits : N;
  finished : bool
}.
Definition distance_of (st : path_search) (id : string) : f64 := default f64_infinity (map_get id (distance st)).
Definition edge_cost (degree : BTreeMap string nat) (base : f64) (edge : StructuralGraphEdge) : f64 :=
  f64_add (f64_add base (trust_cost (edge_trust edge))) (f64_mul (f64_of_nat (count_of degree (to edge))) HUB_PENALTY).
Definition relax (degree : BTreeMap string nat) (current : PathVisit) (st : path_search) (edge : StructuralGraphEdge)
    : path_search :=
  let next_cost := edge_cost degree (cost current) edge in
  if f64_ltb next_cost (distance_of st (to edge)) then {|
    heap := heap_push {| visit_node_id := to edge; cost := next_cost |} (heap st);
    distance := map_insert (to edge) next_cost (distance st);
    previous := map_insert (to edge) (visit_node_id current, edge_id edge) (previous st);
    visits := visits st; finished := finished st |}
  else st.
(** The body of the loop; [finished] is set where it breaks. *)
Definition path_step (adjacency : edge_lists) (degree : BTreeMap string nat) (target : string) (st : path_search)
    : option (outcome path_search) :=
  if finished st then None else
  match heap st with
  | [] => None
  | current :: rest =>
      let next visits finished := {| heap := rest; distance := distance st; previous := previous st;
                                     visits := visits; finished := finished |} in
      Some (Ok (
        if (MAX_PATH_VISITS <=? visits st)%N then next (visits st) true
        else if seqb (visit_node_id current) target then next (visits st + 1)%N true
        else if f64_ltb (distance_of st (visit_node_id current)) (cost current) then next (visits st + 1)%N false
        else foldl (relax degree current) (next (visits st + 1)%N false)
               (edges_at adjacency (visit_node_id current))))
  end.
Definition path_fuel : nat := N.to_nat MAX_PATH_VISITS + 1.
Definition path_adjacency (filter : GraphQueryFilter) (edges : list StructuralGraphEdge) : edge_lists :=
  sort_lists compare_edge_ids (foldl (fun m e => push_entry (from e) e m) []
    (List.filter (fun e => edge_matches_filter e filter) edges)).

(** The walk back from the target; the two lists are built in their final order. *)
Fixpoint reconstruct (fuel : nat) (previous : BTreeMap string (string * string)) (start cursor : string)
    (node_ids edge_ids : list string) : outcome (list string * list string) :=
  if seqb cursor start then Ok (node_ids, edge_ids) else
  match fuel with
  | O => Crash "out of fuel"
  | S fuel =>
      step ← ok_or (map_get cursor previous) "Path reconstruction failed";
      reconstruct fuel previous start (fst step) (fst step :: node_ids) (snd step :: edge_ids)
  end.

Definition enforce_path_bytes (result : GraphPathResult) : outcome GraphPathResult :=
  if (serialized_bytes result <=? MAX_RESPONSE_BYTES)%N then Ok result else
  let stripped truncated := {|
    path_nodes := map strip_node_excerpts (path_nodes result);
    path_edges := map strip_edge_excerpts (path_edges result); total_cost := total_cost result;
    visited := visited result; path_truncated := truncated; path_context := path_context result |} in
  if (MAX_RESPONSE_BYTES <? serialized_bytes (stripped (path_truncated result)))%N
  then Err "Graph path exceeds the 1048576-byte response limit" else Ok (stripped true).

Definition shortest_path_of (snapshot : StructuralGraphSnapshot) (start target : StructuralGraphNode)
    (filter : GraphQueryFilter) : outcome GraphPathResult :=
  if seqb (node_id start) (node_id target) then Ok {|
    path_nodes := [start]; path_edges := []; total_cost := f64_zero; visited := 1; path_truncated := false;
    path_context := query_context snapshot |}
  else
  let degree := count_degrees (List.filter (fun e => edge_matches_filter e filter) (edges snapshot)) in
  st ← loop path_fuel (path_step (path_adjacency filter (edges snapshot)) degree (node_id target)) {|
    heap := [{| visit_node_id := node_id start; cost := f64_zero |}];
    distance := map_insert (node_id start) f64_zero []; previous := []; visits := 0; finished := false |};
  total_cost ← ok_or (map_get (node_id target) (distance st))
    ("No directed graph path connects '" ++ label start ++ "' to '" ++ label target ++ "'");
  '(node_ids, edge_ids) ← reconstruct (length (previous st)) (previous st) (node_id start) (node_id target)
                            [node_id target] [];
  if MAX_PATH_HOPS <? length edge_ids then
    Err ("No directed graph path within the 32-hop limit connects '" ++ label start ++ "' to '"
         ++ label target ++ "'")
  else
  let edge_by_id := index_edges_by_id (edges snapshot) in
  let node_by_id := index_by_id (nodes snapshot) in
  enforce_path_bytes {|
    path_nodes := omap (fun id => map_get id node_by_id) node_ids;
    path_edges := omap (fun id => map_get id edge_by_id) edge_ids; total_cost := total_cost; visited := visits st;
    path_truncated := (MAX_PATH_VISITS <=? visits st)%N; path_context := query_context snapshot |}.
Definition shortest_path (snapshot : StructuralGraphSnapshot) (from to : string) (filter : GraphQueryFilter)
    (cache : query_cache) : outcome GraphPathResult * query_cache :=
  let '(start, cache) := resolve_node snapshot from cache in
  match start with
  | Ok start =>
      let '(target, cache) := resolve_node snapshot to cache in
      (target ← target; shortest_path_of snapshot start target filter, cache)
  | Err e => (Err e, cache)
  | Crash why => (Crash why, cache)
  end.
End Walks.
