(* ===== verification/QueryExamples.v ===== *)
(** The snapshot of [structural_graph/query/tests.rs] and its tests, run on the
    model: ASCII tables for characters, responses of no bytes. *)
From S2P Require Import Prelude Ordering Entries RustText GraphTypes F64 Analysis Communities Snapshot QueryIndex GraphQuery Traversal.
Local Open Scope string_scope.

Definition ex_node (id label path : string) : StructuralGraphNode := {|
  node_id := id; node_kind := "function"; GraphTypes.label := label; qualified_name := Some (path ++ "::" ++ label);
  node_path := Some path; detail := None; language := Some "rust"; community_id := None; node_trust := Extracted;
  node_origin := OSyntax; node_sources := [] |}.
Definition ex_edge (id from to : string) (trust : GraphTrust) : StructuralGraphEdge := {|
  edge_id := id; GraphTypes.from := from; GraphTypes.to := to; edge_kind := "calls"; evidence := "test";
  edge_trust := trust; edge_origin := OSyntax; edge_sources := []; candidates := [] |}.
Definition ex_engine : StructuralGraphEngineInfo := {|
  engine_info_id := "engine"; version := "1"; bundled := true; syntax_aware := true; supported_languages := [] |}.
Definition ex_graph (id : string) (nodes : list StructuralGraphNode) (edges : list StructuralGraphEdge)
    : StructuralGraphSnapshot := {|
  schema_version := 3; snapshot_id := id; repo_path := "/repo"; repo_head := Some "head"; created_at := "now";
  engine := ex_engine; cursor := None; ignore_fingerprint := None; coverage := default_coverage; diagnostics := [];
  communities := []; files := []; Snapshot.nodes := nodes; Snapshot.edges := edges; metrics := []; clone_groups := [];
  truncated := false |}.
Definition ex_nodes : list StructuralGraphNode :=
  [ex_node "node:a" "start" "src/a.rs"; ex_node "node:b" "middle" "src/b.rs"; ex_node "node:c" "finish" "src/c.rs";
   ex_node "node:d" "start" "tests/a.rs"].
Definition ex_edges : list StructuralGraphEdge :=
  [ex_edge "edge:ab" "node:a" "node:b" Extracted; ex_edge "edge:bc" "node:b" "node:c" Extracted;
   ex_edge "edge:ac" "node:a" "node:c" Ambiguous].
Definition ex_snapshot : StructuralGraphSnapshot := ex_graph "snapshot" ex_nodes ex_edges.
#[local] Existing Instance ascii.
Definition no_bytes {A} : Serialize A := fun _ => Some 0%N.
#[local] Existing Instance no_bytes.
Definition ex_ids (projection : GraphProjection) : list string * list string :=
  (map node_id (projected_nodes projection), map edge_id (projected_edges projection)).
(** Any increasing function serves as the logarithm here. *)
Definition ex_search (snapshot : StructuralGraphSnapshot) (query : string) (limit : option N) (cursor : option string)
    : outcome (list (string * string) * option string) :=
  result ← fst (search_page (fun x => x) snapshot query default_filter limit cursor []);
  Ok (map (fun hit => (node_id (hit_node hit), matched_by hit)) (hits result), search_next_cursor result).

Example ex_search_exact : ex_search ex_snapshot "node:a" (Some 1%N) None = Ok ([("node:a", "id")], None).
Proof. vm_compute. done. Qed.
Example ex_search_question :
  ex_search ex_snapshot "where is the finish function?" (Some 1%N) None =
  Ok ([("node:c", "lexical_question")], Some "1").
Proof. vm_compute. done. Qed.
Example ex_overview :
  (result ← overview ex_snapshot (Some 2%N); Ok (map node_id (projected_nodes result), next_cursor result)) =
  Ok (["node:a"; "node:b"], Some "2").
Proof. vm_compute. done. Qed.
Example ex_ambiguous_label : is_Err (fst (resolve_node ex_snapshot "start" [])).
Proof. vm_compute. eauto. Qed.
Example ex_subgraph :
  (ex_ids <$> fst (subgraph ex_snapshot ["node:a"; "node:c"] (Some 1%N)
     {| node_kinds := []; edge_kinds := []; filter_trust := [Extracted] |} (Some 10%N) [])) =
  Ok (["node:a"; "node:b"; "node:c"], ["edge:ab"; "edge:bc"]).
Proof. vm_compute. done. Qed.
Example ex_path :
  (result ← fst (shortest_path ex_snapshot "node:a" "node:c" default_filter []);
   Ok (map edge_id (path_edges result), map node_id (path_nodes result))) =
  Ok (["edge:ab"; "edge:bc"], ["node:a"; "node:b"; "node:c"]).
Proof. vm_compute. done. Qed.
Example ex_impact :
  (result ← fst (impact ex_snapshot "node:c" Incoming (Some 3%N) default_filter (Some 1%N) []);
   Ok (length (affected result), impact_truncated result)) = Ok (1, true).
Proof. vm_compute. done. Qed.
Example ex_diff :
  let after := ex_graph "after" (ex_node "node:new" "new" "src/new.rs" ::
    {| node_id := "node:a"; node_kind := "function"; GraphTypes.label := "start"; qualified_name := None;
       node_path := None; detail := Some "changed"; language := None; community_id := None;
       node_trust := Extracted; node_origin := OSyntax; node_sources := [] |} ::
    take 2 (drop 1 ex_nodes)) (take 2 ex_edges) in
  let diff := diff_snapshots ex_snapshot after in
  (added_node_ids diff, removed_node_ids diff, changed_node_ids diff, removed_edge_ids diff) =
  (["node:new"], ["node:d"], ["node:a"], ["edge:ac"]).
Proof. vm_compute. done. Qed.

Definition ex_limited : GraphQueryFilter := {| node_kinds := []; edge_kinds := []; filter_trust := [Extracted] |}.

(** * Where the code falls short of its comments and messages *)

(** The node of a file has its path as label, path and qualified name
    ([extract/files.rs]); the index lists it three times, and its path is ambiguous. *)
Example ex_file_node_ambiguous :
  fst (resolve_node (ex_graph "files" [{| node_id := "file:1"; node_kind := "file"; GraphTypes.label := "src/a.rs";
    qualified_name := Some "src/a.rs"; node_path := Some "src/a.rs"; detail := None; language := None;
    community_id := None; node_trust := Extracted; node_origin := OSyntax; node_sources := [] |}] []) "src/a.rs" []) =
  Err "Node reference is ambiguous (3 matches); use the stable node id".
Proof. vm_compute. done. Qed.
(** Retrieval is narrower than ranking, and a further term can shrink the result:
    the search for [go] does not reach [cargo], which the ranker would score, and
    the search for [ana] reaches [banana], which that for [ana go] does not. *)
Definition ex_fruit : StructuralGraphSnapshot :=
  ex_graph "fruit" [ex_node "node:1" "banana" "x.rs"; ex_node "node:2" "cargo" "y.rs"; ex_node "node:3" "go" "z.rs"] [].
Example ex_retrieval_gap :
  ex_search ex_fruit "ana" None None = Ok ([("node:1", "qualified_name_contains")], None) /\
  ex_search ex_fruit "go" None None = Ok ([("node:3", "label")], None) /\
  is_Some (rank_node (ex_node "node:2" "cargo" "y.rs") "go") /\
  ex_search ex_fruit "ana go" None None = Ok ([("node:3", "lexical_question")], None).
Proof. vm_compute. eauto 10. Qed.
(** The byte limit drops nodes from a page, but the cursor moves past them. *)
Definition too_large {A} : Serialize A := fun _ => Some (2 * MAX_RESPONSE_BYTES)%N.
Example ex_dropped_nodes :
  match @overview_page too_large ex_snapshot (Some 2%N) None with
  | Ok p => projected_nodes p = [] /\ next_cursor p = Some "2"
  | _ => False
  end.
Proof. vm_compute. done. Qed.
(** A cheap path of 33 edges hides one of 32 edges that costs more: the answer is
    that there is no path within 32 edges. *)
Fixpoint ex_chain (prefix : string) (n : nat) (from : string) (trust : GraphTrust) : list StructuralGraphEdge :=
  match n with
  | O => []
  | S O => [ex_edge (prefix ++ "0") from "node:end" trust]
  | S n => let next := prefix ++ pretty.pretty (N.of_nat n) in ex_edge next from next trust :: ex_chain prefix n next trust
  end.
Definition ex_two_paths : StructuralGraphSnapshot :=
  ex_graph "paths" [ex_node "node:start" "a" "a"; ex_node "node:end" "b" "b"]
    (ex_chain "long:" 33 "node:start" Extracted ++ ex_chain "short:" 32 "node:start" Legacy).
Example ex_hidden_path :
  fst (shortest_path ex_two_paths "node:start" "node:end" default_filter []) =
    Err "No directed graph path within the 32-hop limit connects 'a' to 'b'" /\
  (let filter := {| node_kinds := []; edge_kinds := []; filter_trust := [Legacy] |} in
   (result ← fst (shortest_path ex_two_paths "node:start" "node:end" filter []); Ok (length (path_edges result))) = Ok 32).
Proof. vm_compute. done. Qed.
