(* ===== verification/QueryProps.v ===== *)
(** Theorems about the index and the queries of [QueryIndex] and [GraphQuery]:
    the cache is transparent and bounded, a reference resolves exactly when one
    node has its strongest match under one of its names, cursors parse back, a
    page is the stretch of the ranking its cursor names, projections are closed,
    and a difference is exact. *)
From S2P Require Import Prelude Ordering Entries RustText GraphTypes F64 Analysis AnalysisGraph AnalysisProps Communities CommunityProps Snapshot QueryIndex GraphQuery QueryExamples.
From stdpp Require Import pretty.
Local Open Scope nat_scope.

(** * Cursors *)

Section Cursors.
Local Open Scope N_scope.

Lemma pretty_char_digit d : d < 10 -> byte_of (pretty_N_char d) = 48 + d /\ is_ascii_digit (byte_of (pretty_N_char d)) = true.
Proof.
  intros Hd. assert (d = 0 \/ d = 1 \/ d = 2 \/ d = 3 \/ d = 4 \/ d = 5 \/ d = 6 \/ d = 7 \/ d = 8 \/ d = 9) as Hcases by lia.
  repeat destruct Hcases as [->|Hcases]; try subst; by vm_compute.
Qed.
Lemma parse_digits_go n s : n <= usize_max -> parse_digits 0 (pretty_N_go n s) = parse_digits n s.
Proof.
  revert s. induction (N.lt_wf_0 n) as [n _ IH]. intros s Hn.
  destruct (N.eq_dec n 0) as [->|Hpos]; [by rewrite pretty_N_go_0|].
  rewrite pretty_N_go_step by lia. assert (n / 10 < n) by (apply N.div_lt; lia).
  rewrite IH by lia. cbn [parse_digits].
  destruct (pretty_char_digit (n mod 10)) as [Hbyte Hdigit]; [by apply N.mod_lt|]. rewrite Hdigit, Hbyte.
  pose proof (N.div_mod n 10 ltac:(done)) as Hdm.
  replace (n / 10 * 10 + (48 + n mod 10 - 48)) with n
    by (revert Hdm; generalize (n / 10), (n mod 10); clear; intros; lia).
  destruct (N.leb_spec n usize_max); [done|lia].
Qed.
Lemma pretty_go_head n s : 0 < n -> exists d rest, d < 10 /\ pretty_N_go n s = String (pretty_N_char d) rest.
Proof.
  revert s. induction (N.lt_wf_0 n) as [n _ IH]. intros s Hn.
  rewrite pretty_N_go_step by done. destruct (N.eq_dec (n / 10) 0) as [E|Hne].
  - rewrite E, pretty_N_go_0. eexists _, _. split; [|done]. by apply N.mod_lt.
  - apply IH; [by apply N.div_lt|by apply N.neq_0_lt_0].
Qed.
Lemma parse_pretty n : n <= usize_max -> parse_usize (pretty n) = Some n.
Proof.
  intros Hn. unfold pretty, pretty_N. destruct (decide (n = 0)) as [->|Hne]; [done|].
  unfold parse_usize. destruct (pretty_go_head n "" ltac:(lia)) as (d & rest & Hd & E).
  rewrite E. destruct (pretty_char_digit d Hd) as [Hbyte _]. rewrite Hbyte.
  destruct (N.eqb_spec (48 + d) 43); [lia|]. cbn [is_empty]. rewrite <- E. by rewrite parse_digits_go.
Qed.
Lemma cursor_below_Some offset total c :
  cursor_below offset total = Some c <-> offset < total /\ c = pretty offset.
Proof. unfold cursor_below. destruct (N.ltb_spec offset total); naive_solver lia. Qed.
Lemma parse_cursor_pretty n : n <= usize_max -> parse_cursor (Some (pretty n)) = Ok n.
Proof. intros Hn. unfold parse_cursor. cbn. by rewrite parse_pretty. Qed.
Lemma bounded_limit_range limit : (1 <= bounded_limit limit <= 500)%nat.
Proof. unfold bounded_limit, MAX_LIMIT. lia. Qed.
End Cursors.

(** * The cache *)

Section Index.
Context `{Unicode} (ln : f64 -> f64).

(** Whatever the cache holds for the snapshot is its index. *)
Definition consistent (snapshot : StructuralGraphSnapshot) (cache : query_cache) : Prop :=
  forall index, map_get (snapshot_id snapshot) cache = Some index -> index = build_index snapshot.
(** A cache of the indexes of snapshots whose ids identify them. *)
Record cache_ok (family : StructuralGraphSnapshot -> Prop) (cache : query_cache) : Prop := {
  cache_wf : map_wf cache;
  cache_bounded : length cache <= MAX_QUERY_INDEXES;
  cache_consistent : forall snapshot, family snapshot -> consistent snapshot cache
}.

Lemma query_index_consistent snapshot cache :
  consistent snapshot cache -> fst (query_index snapshot cache) = build_index snapshot.
Proof. intros Hc. unfold query_index. by destruct (map_get _ _) as [index|] eqn:E; [apply Hc|]. Qed.
Lemma map_insert_length {V} key (v : V) (m : BTreeMap string V) : length (map_insert key v m) <= S (length m).
Proof. induction m as [|[k w] m IH]; cbn [map_insert length]; [done|]. destruct (cmp key k); cbn [length]; lia. Qed.
Lemma query_index_ok family snapshot cache :
  (forall s1 s2, family s1 -> family s2 -> snapshot_id s1 = snapshot_id s2 -> s1 = s2) ->
  family snapshot -> cache_ok family cache -> cache_ok family (snd (query_index snapshot cache)).
Proof.
  intros Hids Hin [Hwf Hbound Hcons]. unfold query_index. destruct (map_get _ cache) eqn:E; [by constructor|].
  cbn [snd]. set (kept := if MAX_QUERY_INDEXES <=? length cache then [] else cache).
  assert (map_wf kept) as Hkept by (unfold kept; case_match; [constructor|done]).
  constructor.
  - by apply map_insert_wf.
  - etrans; [apply map_insert_length|]. unfold kept. destruct (Nat.leb_spec MAX_QUERY_INDEXES (length cache)); cbn.
    + unfold MAX_QUERY_INDEXES. lia.
    + lia.
  - intros other Hother index. destruct (decide (snapshot_id other = snapshot_id snapshot)) as [Heq|Hne].
    + rewrite Heq, map_get_insert_eq by done. intros [= <-]. by rewrite (Hids other snapshot).
    + rewrite map_get_insert_ne by done. unfold kept. case_match; [done|]. by apply Hcons.
Qed.

(** * The exact index *)

(** How many of a node's names normalize to the text. *)
Definition names (needle : string) (node : StructuralGraphNode) : nat :=
  length (List.filter (fun value => seqb value needle) (exact_values node)).
(** The nodes so named, once for each of those names. *)
Definition all_named (needle : string) (nodes : list StructuralGraphNode) : list StructuralGraphNode :=
  concat (map (fun node => replicate (names needle node) node) nodes).

Lemma build_index_exact snapshot :
  exact (build_index snapshot) =
  pushes (concat (map (fun p => map (fun value => (value, fst p)) (exact_values (snd p)))
                    (enumerate_nat 0 (nodes snapshot)))).
Proof.
  unfold build_index, pushes. cbn [exact]. rewrite foldl_concat, foldl_map.
  generalize (enumerate_nat 0 (nodes snapshot)) as l. intros l.
  match goal with |- exact (foldl _ ?i _) = foldl ?f _ _ => change (exact (foldl index_node i l) = foldl f (exact i) l); generalize i end.
  induction l as [|p l IH]; intros index; cbn [foldl]; [done|]. rewrite IH. f_equal. cbn [exact index_node].
  by rewrite foldl_map.
Qed.

Lemma omap_lookup_enumerate (g : StructuralGraphNode -> nat) nodes :
  omap (fun i => nodes !! i) (concat (map (fun p => replicate (g (snd p)) (fst p)) (enumerate_nat 0 nodes))) =
  concat (map (fun node => replicate (g node) node) nodes).
Proof.
  enough (forall k l, (forall p, p ∈ enumerate_nat k l -> nodes !! fst p = Some (snd p)) ->
    omap (fun i => nodes !! i) (concat (map (fun p => replicate (g (snd p)) (fst p)) (enumerate_nat k l))) =
    concat (map (fun node => replicate (g node) node) l)) as Hgen.
  { apply Hgen. intros [i node] Hin. by apply elem_of_enumerate. }
  intros k l. revert k. induction l as [|node l IH]; intros k Hl; cbn [enumerate_nat map concat]; [done|].
  rewrite omap_app, IH by (intros p Hp; apply Hl; by right). f_equal. cbn [fst snd].
  assert (nodes !! k = Some node) as Hk by (apply (Hl (k, node)); by left).
  induction (g node) as [|n IHn]; cbn; [done|]. by rewrite Hk, IHn.
Qed.
Lemma exact_candidates snapshot needle :
  match map_get needle (exact (build_index snapshot)) with
  | Some ordinals => omap (fun i => nodes snapshot !! i) ordinals = all_named needle (nodes snapshot)
  | None => all_named needle (nodes snapshot) = []
  end.
Proof.
  rewrite build_index_exact, (proj2 (pushes_get _ needle)).
  set (l := concat _). assert (omap (fun i => nodes snapshot !! i) (entries_of l needle) = all_named needle (nodes snapshot)) as Heq.
  { unfold all_named. rewrite <- omap_lookup_enumerate. f_equal. unfold entries_of, l.
    generalize (enumerate_nat 0 (nodes snapshot)) as ps. intros ps.
    induction ps as [|[i node] ps IH]; cbn [map concat]; [done|].
    rewrite List.filter_app, map_app, IH. f_equal. unfold names. cbn [fst snd].
    induction (exact_values node) as [|value values IHv]; cbn; [done|].
    unfold seqb. destruct (decide (value = needle)) as [Hv|Hv].
    - rewrite !bool_decide_eq_true_2 by done. cbn. by f_equal.
    - by rewrite !bool_decide_eq_false_2 by done. }
  destruct (entries_of l needle); [by rewrite <- Heq|done].
Qed.

(** * Resolution *)

Definition exact_tiers : list string := ["id"; "qualified_name"; "path"; "label"]%string.

Lemma equals_true value needle : equals value needle = true <-> value = Some needle.
Proof. destruct value as [v|]; cbn; [|naive_solver]. unfold seqb. rewrite bool_decide_eq_true. naive_solver. Qed.
(** A match of a whole value is a name. *)
Lemma exact_tier_named needle tier node :
  tier ∈ exact_tiers -> matches_tier needle tier node = true -> 0 < names needle node.
Proof.
  intros Htier Hmatch. enough (needle ∈ exact_values node) as Hin.
  { unfold names. destruct (List.filter _ _) eqn:E; [|cbn; lia].
    assert (needle ∈ List.filter (fun value => seqb value needle) (exact_values node)) as Hf.
    { apply elem_of_filter_bool. split; [done|]. unfold seqb. by rewrite bool_decide_eq_true_2. }
    rewrite E in Hf. by apply not_elem_of_nil in Hf. }
  unfold exact_values. apply list_elem_of_fmap. unfold matches_tier, rank_node in Hmatch.
  destruct (seqb (normalize (node_id node)) needle) eqn:Eid.
  { apply bool_decide_eq_true_1 in Eid. exists (node_id node). split; [done|]. apply list_elem_of_omap.
    exists (Some (node_id node)). split; [left|done]. }
  destruct (equals (option_map normalize (qualified_name node)) needle) eqn:Eq.
  { apply equals_true in Eq. destruct (qualified_name node) as [v|] eqn:Ev; [|done]. injection Eq as <-.
    exists v. split; [done|]. apply list_elem_of_omap. exists (Some v). split; [|done]. do 2 right. left. }
  destruct (equals (option_map normalize (node_path node)) needle) eqn:Ep.
  { apply equals_true in Ep. destruct (node_path node) as [v|] eqn:Ev; [|done]. injection Ep as <-.
    exists v. split; [done|]. apply list_elem_of_omap. exists (Some v). split; [|done]. right. left. }
  destruct (seqb (normalize (label node)) needle) eqn:El.
  { apply bool_decide_eq_true_1 in El. exists (label node). split; [done|]. apply list_elem_of_omap.
    exists (Some (label node)). split; [|done]. do 3 right. left. }
  exfalso. unfold exact_tiers in Htier. rewrite !elem_of_cons, elem_of_nil in Htier.
  repeat case_match; try done; simplify_eq; destruct Htier as [->|[->|[->|[->|[]]]]]; done.
Qed.

Lemma all_named_cons needle node nodes :
  all_named needle (node :: nodes) = replicate (names needle node) node ++ all_named needle nodes.
Proof. done. Qed.
Lemma filter_all_named needle p nodes :
  List.filter p (all_named needle nodes) = all_named needle (List.filter p nodes).
Proof.
  induction nodes as [|node nodes IH]; [done|]. cbn [List.filter]. rewrite all_named_cons, List.filter_app, IH.
  assert (List.filter p (replicate (names needle node) node) = if p node then replicate (names needle node) node else []) as ->.
  { induction (names needle node) as [|n IHn]; cbn; [by destruct (p node)|]. rewrite IHn. by destruct (p node). }
  destruct (p node); [|done]. by rewrite all_named_cons.
Qed.
Lemma all_named_nil needle nodes :
  (forall node, node ∈ nodes -> 0 < names needle node) -> all_named needle nodes = [] <-> nodes = [].
Proof.
  intros Hnamed. split; [|by intros ->]. destruct nodes as [|node nodes]; [done|]. rewrite all_named_cons.
  assert (0 < names needle node) as Hn by (apply Hnamed; left). by destruct (names needle node); [lia|].
Qed.
Lemma all_named_single needle nodes node :
  (forall node, node ∈ nodes -> 0 < names needle node) ->
  all_named needle nodes = [node] <-> nodes = [node] /\ names needle node = 1.
Proof.
  intros Hnamed. split.
  - intros E. destruct nodes as [|n ns]; [done|]. rewrite all_named_cons in E.
    assert (0 < names needle n) as Hn by (apply Hnamed; left).
    destruct (names needle n) as [|[|k]] eqn:Ek; [lia| |done]. cbn [replicate app] in E. injection E as -> E.
    apply (all_named_nil needle ns) in E as ->; [done|]. intros m Hm. apply Hnamed. by right.
  - intros [-> Hn]. by rewrite all_named_cons, Hn.
Qed.

Lemma resolve_tiers_Ok tiers needle reference candidates node :
  resolve_tiers tiers needle reference candidates = Ok node <->
  exists stronger tier weaker, tiers = stronger ++ tier :: weaker /\
    (forall t, t ∈ stronger -> List.filter (matches_tier needle t) candidates = []) /\
    List.filter (matches_tier needle tier) candidates = [node].
Proof.
  induction tiers as [|tier tiers IH]; cbn [resolve_tiers].
  { split; [done|]. intros ([|t stronger] & ? & ? & ? & _); done. }
  destruct (List.filter (matches_tier needle tier) candidates) as [|m [|m' ms]] eqn:E.
  - rewrite IH. split.
    + intros (stronger & t & weaker & -> & Hs & Ht). exists (tier :: stronger), t, weaker. split_and!; [done| |done].
      intros t' [->|Hin]%elem_of_cons; auto.
    + intros ([|t0 stronger] & t & weaker & [= -> ->] & Hs & Ht); [by rewrite E in Ht|].
      exists stronger, t, weaker. split_and!; [done| |done]. intros t' Hin. apply Hs. by right.
  - split.
    + intros [= ->]. exists [], tier, tiers. split_and!; [done| |done]. by intros t ?%not_elem_of_nil.
    + intros ([|t0 stronger] & t & weaker & [= -> ->] & Hs & Ht); [by rewrite E in Ht; injection Ht as ->|].
      assert (List.filter (matches_tier needle t0) candidates = []) as Hnil by (apply Hs; left). by rewrite E in Hnil.
  - split; [done|].
    intros ([|t0 stronger] & t & weaker & [= -> ->] & Hs & Ht); [by rewrite E in Ht|].
    assert (List.filter (matches_tier needle t0) candidates = []) as Hnil by (apply Hs; left). by rewrite E in Hnil.
Qed.

(** The index plays no part: the candidates are the nodes by their names. *)
Lemma resolve_tiers_none tiers needle reference nodes :
  (forall tier, tier ∈ tiers -> List.filter (matches_tier needle tier) nodes = []) ->
  resolve_tiers tiers needle reference nodes = resolve_tiers tiers needle reference [].
Proof.
  intros Hnone. induction tiers as [|tier tiers IH]; cbn [resolve_tiers]; [done|].
  rewrite (Hnone tier) by left. apply IH. intros t Ht. apply Hnone. by right.
Qed.
Lemma resolve_node_named snapshot reference cache :
  consistent snapshot cache -> normalize reference <> ""%string ->
  fst (resolve_node snapshot reference cache) =
  resolve_tiers exact_tiers (normalize reference) reference (all_named (normalize reference) (nodes snapshot)).
Proof.
  intros Hc Hne. unfold resolve_node. destruct (is_empty (normalize reference)) eqn:Eempty; [by destruct (normalize reference)|].
  pose proof (query_index_consistent snapshot cache Hc) as Hindex.
  destruct (query_index snapshot cache) as [index cache']. cbn [fst] in *. subst index.
  pose proof (exact_candidates snapshot (normalize reference)) as Hcand.
  destruct (map_get (normalize reference) (exact (build_index snapshot))) as [ordinals|]; cbn [default]; [by rewrite <- Hcand|].
  rewrite Hcand. apply resolve_tiers_none. intros tier Htier.
  apply filter_bool_nil. intros node Hin. apply not_true_is_false. intros Hmatch.
  apply exact_tier_named in Hmatch; [|done].
  apply list_elem_of_omap in Hin as (i & _ & Hi). apply list_elem_of_lookup_2 in Hi.
  assert (node ∈ all_named (normalize reference) (nodes snapshot)) as Hnamed.
  { apply elem_of_concat. exists (replicate (names (normalize reference) node) node).
    split; [apply elem_of_replicate; split; [done|lia]|]. apply list_elem_of_fmap. eauto. }
  rewrite Hcand in Hnamed. by apply not_elem_of_nil in Hnamed.
Qed.

(** C16: A reference resolves to a node exactly when, of the tiers id, qualified name,
    path and label, the first that any node matches is matched by that node
    alone, and only one of its names is the reference: the index lists a node
    once for each name, so a node with the same text as two names is reported
    ambiguous. *)
Theorem resolve_node_exact snapshot reference cache node :
  consistent snapshot cache ->
  fst (resolve_node snapshot reference cache) = Ok node <->
  normalize reference <> ""%string /\ names (normalize reference) node = 1 /\
  exists stronger tier weaker, exact_tiers = stronger ++ tier :: weaker /\
    (forall t n, t ∈ stronger -> n ∈ nodes snapshot -> matches_tier (normalize reference) t n = false) /\
    List.filter (matches_tier (normalize reference) tier) (nodes snapshot) = [node].
Proof.
  intros Hc. destruct (decide (normalize reference = ""%string)) as [Hempty|Hne].
  { unfold resolve_node. rewrite Hempty. cbn. split; [done|]. by intros []. }
  rewrite resolve_node_named, resolve_tiers_Ok by done. set (needle := normalize reference).
  assert (forall tier, tier ∈ exact_tiers -> forall n, n ∈ List.filter (matches_tier needle tier) (nodes snapshot) -> 0 < names needle n) as Hpos.
  { intros tier Htier n [_ Hmatch]%elem_of_filter_bool. by eapply exact_tier_named. }
  split.
  - intros (stronger & tier & weaker & E & Hs & Ht). rewrite filter_all_named in Ht.
    apply all_named_single in Ht as [Ht Hone]; [|apply Hpos; rewrite E; set_solver].
    split_and!; [done|done|]. exists stronger, tier, weaker. split_and!; [done| |done]. intros t n Hin Hn.
    specialize (Hs t Hin). rewrite filter_all_named in Hs. apply all_named_nil in Hs; [|apply Hpos; rewrite E; set_solver].
    exact (proj1 (filter_bool_nil _ _) Hs n Hn).
  - intros (_ & Hone & stronger & tier & weaker & E & Hs & Ht). exists stronger, tier, weaker. split_and!; [done| |].
    + intros t Hin. rewrite filter_all_named. apply all_named_nil; [apply Hpos; rewrite E; set_solver|].
      apply filter_bool_nil. eauto.
    + rewrite filter_all_named. apply all_named_single; [apply Hpos; rewrite E; set_solver|done].
Qed.
End Index.

(** A cache of at most 16 indexes of snapshots that their ids identify changes no
    answer, and every query keeps it one. *)
Theorem cache_transparent `{Unicode} `{Serialize GraphSearchResult} ln family snapshot query filter limit cursor cache :
  (forall s1 s2, family s1 -> family s2 -> snapshot_id s1 = snapshot_id s2 -> s1 = s2) ->
  family snapshot -> cache_ok family cache ->
  fst (search_page ln snapshot query filter limit cursor cache) = fst (search_page ln snapshot query filter limit cursor []) /\
  cache_ok family (snd (search_page ln snapshot query filter limit cursor cache)) /\
  fst (resolve_node snapshot query cache) = fst (resolve_node snapshot query []) /\
  cache_ok family (snd (resolve_node snapshot query cache)).
Proof.
  intros Hids Hin Hok. pose proof (query_index_ok family snapshot cache Hids Hin Hok) as Hok'.
  assert (consistent snapshot cache) as Hc by by apply (cache_consistent family).
  assert (consistent snapshot []) as Hc0 by done.
  pose proof (query_index_consistent snapshot cache Hc) as Hi.
  pose proof (query_index_consistent snapshot [] Hc0) as Hi0.
  unfold search_page, resolve_node. destruct (query_index snapshot cache) as [index cache1], (query_index snapshot []) as [index0 cache0].
  cbn [fst snd] in *. subst index index0. destruct (is_empty (normalize query)); by split_and!.
Qed.

(** * Pages of a search *)

Section Pages.
Context `{Unicode} (ln : f64 -> f64) `{Serialize GraphSearchResult}.
Local Open Scope N_scope.

(** What a hit says, without the source excerpts a large response drops. *)
Definition hit_of (h : StructuralGraphNode * N * string) : GraphSearchHit := {|
  hit_node := strip_node_excerpts (fst (fst h)); score := snd (fst h); matched_by := snd h |}.

Lemma strip_source_idemp source : strip_source (strip_source source) = strip_source source.
Proof. done. Qed.
Lemma strip_hit_idemp hit : strip_hit (strip_hit hit) = strip_hit hit.
Proof. destruct hit as [[] s m]. unfold strip_hit, strip_node_excerpts. cbn. f_equal. f_equal. by rewrite map_map. Qed.
Lemma map_strip_idemp l : map strip_hit (map strip_hit l) = map strip_hit l.
Proof. rewrite map_map. apply map_ext, strip_hit_idemp. Qed.

Lemma pop_while_prefix {A} (large : list A -> bool) fuel items :
  exists n, pop_while fuel large items = take n items /\ (n <= length items)%nat.
Proof.
  revert items. induction fuel as [|fuel IH]; intros items; cbn [pop_while].
  { exists (length items). by rewrite firstn_all. }
  destruct (large items && negb (is_nil items)) eqn:E; [|exists (length items); by rewrite firstn_all].
  destruct (IH (removelast items)) as (n & -> & Hn). exists n.
  rewrite removelast_firstn_len, length_take in *. rewrite take_take. split; [f_equal|]; lia.
Qed.
(** What remains is empty or small. *)
Lemma pop_while_small {A} (large : list A -> bool) items :
  large (pop_while_large large items) = false \/ pop_while_large large items = [].
Proof.
  unfold pop_while_large. remember (length items) as n eqn:Hn. symmetry in Hn.
  assert (length items <= n)%nat as Hle by lia. clear Hn. revert items Hle.
  induction n as [|n IH]; intros items Hle; cbn [pop_while]; [right; by destruct items; [|cbn in Hle; lia]|].
  destruct (large items) eqn:E; cbn; [|by left]. destruct items as [|x items]; [by right|]. cbn [negb is_nil].
  apply IH. rewrite removelast_firstn_len, length_take. cbn in *. lia.
Qed.

Definition page_ranking (snapshot : StructuralGraphSnapshot) (query : string) (filter : GraphQueryFilter) :=
  rank_hits ln snapshot (build_index snapshot) query filter.

Lemma trim_search_previews_hits result : map strip_hit (hits (trim_search_previews result)) = map strip_hit (hits result).
Proof. cbn. rewrite map_app, map_strip_idemp, <- map_app. by rewrite take_drop. Qed.
Lemma enforce_search_bytes_ok offset total result :
  search_next_cursor result = cursor_below (offset + len (hits result)) total ->
  (search_truncated result = false -> total <= offset + len (hits result)) ->
  let out := enforce_search_bytes offset total result in
  map strip_hit (hits out) = take (length (hits out)) (map strip_hit (hits result)) /\
  search_next_cursor out = cursor_below (offset + len (hits out)) total /\
  (search_truncated out = false -> total <= offset + len (hits out)) /\
  search_context out = search_context result.
Proof.
  intros Hcursor Htrunc. unfold enforce_search_bytes. destruct (_ <=? _) eqn:E; cbn [hits search_next_cursor search_truncated search_context].
  - split_and!; [|done..]. by rewrite <- (length_map strip_hit), firstn_all.
  - unfold pop_while_large. set (large := fun hits0 => _). clearbody large.
    destruct (pop_while_prefix large (length (map strip_hit (hits result))) (map strip_hit (hits result))) as (n & -> & Hn).
    split_and!; [|done..]. rewrite <- firstn_map, map_strip_idemp, length_take. rewrite Nat.min_l by done. done.
Qed.

Lemma take_drop_length {A} (limit offset : nat) (l : list A) :
  length (take limit (drop offset l)) = Nat.min limit (length l - offset).
Proof. by rewrite length_take, length_drop. Qed.

(** C17: A page of a search is a stretch of the ranking: from the offset its cursor
    names, at most the limit (clamped to 1 to 500) long, cut short only for its
    size in bytes.  It carries a cursor exactly when hits remain, and that cursor
    names the first of them; a page that is not marked truncated is the last. *)
Theorem search_page_exact snapshot query filter limit cursor cache result :
  consistent snapshot cache -> normalize query <> ""%string ->
  let ranking := map hit_of (page_ranking snapshot query filter) in
  len ranking <= usize_max ->
  fst (search_page ln snapshot query filter limit cursor cache) = Ok result ->
  exists offset, parse_cursor cursor = Ok offset /\ offset <= len ranking /\
    (length (hits result) <= bounded_limit limit)%nat /\
    map strip_hit (hits result) = take (length (hits result)) (drop (N.to_nat offset) ranking) /\
    (search_truncated result = false -> offset + len (hits result) = len ranking) /\
    match search_next_cursor result with
    | Some next => parse_cursor (Some next) = Ok (offset + len (hits result)) /\ offset + len (hits result) < len ranking
    | None => offset + len (hits result) = len ranking
    end.
Proof.
  intros Hc Hne ranking Hmem. unfold search_page. destruct (is_empty (normalize query)) eqn:Eempty; [by destruct (normalize query)|].
  pose proof (query_index_consistent snapshot cache Hc) as Hindex.
  destruct (query_index snapshot cache) as [index cache']. cbn [fst] in *. subst index.
  fold (page_ranking snapshot query filter). set (R := page_ranking snapshot query filter) in *.
  assert (len ranking = len R) as Hlen by (unfold ranking, len; by rewrite length_map).
  intros (offset & Hoffset & Hr)%bind_Ok. destruct (N.ltb_spec (len R) offset) as [|Hle]; [done|].
  set (page := take (bounded_limit limit) (drop (N.to_nat offset) R)) in *. injection Hr as Hr.
  match type of Hr with enforce_search_bytes _ _ (trim_search_previews ?x) = _ => set (first := x) in * end.
  assert (map strip_hit (hits first) = map hit_of page) as Hfirst by (unfold first; cbn [hits]; by rewrite map_map).
  assert (length (hits first) = length page) as Hpage by (unfold first; cbn [hits]; by rewrite length_map).
  assert (length (hits (trim_search_previews first)) = length page) as Htrim.
  { by rewrite <- (length_map strip_hit), trim_search_previews_hits, length_map. }
  destruct (enforce_search_bytes_ok offset (len R) (trim_search_previews first)) as (Hhits & Hcursor & Htrunc & _).
  { by replace (len (hits (trim_search_previews first))) with (len page) by (unfold len; by rewrite Htrim). }
  { replace (len (hits (trim_search_previews first))) with (len page) by (unfold len; by rewrite Htrim). cbn [trim_search_previews search_truncated]. intros Ht%N.ltb_ge. done. }
  rewrite Hr in Hhits, Hcursor, Htrunc. rewrite trim_search_previews_hits, Hfirst in Hhits.
  pose proof (take_drop_length (bounded_limit limit) (N.to_nat offset) R) as Hplen. fold page in Hplen.
  assert (length (hits result) <= length page)%nat as Hshort.
  { apply (f_equal length) in Hhits. rewrite length_map, length_take, length_map in Hhits. lia. }
  assert (offset + len (hits result) <= len R) as Hin by (unfold len in *; lia).
  exists offset. rewrite Hlen in *. split_and!; [done|done|lia| | |].
  - rewrite Hhits. unfold page, ranking. rewrite <- firstn_map, <- skipn_map, take_take. f_equal. lia.
  - intros Ht. specialize (Htrunc Ht). lia.
  - rewrite Hcursor. unfold cursor_below. destruct (N.ltb_spec (offset + len (hits result)) (len R)).
    + split; [|done]. apply parse_cursor_pretty. lia.
    + lia.
Qed.

(** [search] starts at the first hit and cannot panic. *)
Theorem search_never_panics snapshot query filter limit cache :
  returns (fst (search ln snapshot query filter limit cache)).
Proof.
  unfold search, search_page. destruct (is_empty _); [done|]. destruct (query_index snapshot cache) as [index cache'].
  cbn [fst]. change (parse_cursor None) with (Ok 0). cbn [mbind outcome_bind]. by destruct (N.ltb_spec (len (rank_hits ln snapshot index query filter)) 0); [lia|].
Qed.
End Pages.

(** * The ranking *)

(** Sorting by a comparison that is total and transitive. *)
Lemma sort_by_sorted {A} (c : A -> A -> comparison) l :
  (forall x y, c x y = Gt -> c y x <> Gt) -> (forall x y z, c x y <> Gt -> c y z <> Gt -> c x z <> Gt) ->
  StronglySorted (fun x y => c x y <> Gt) (sort_by c l).
Proof.
  intros Htotal Htrans. induction l as [|x l IH]; cbn [sort_by]; [constructor|].
  induction IH as [|y k Hk IHk Hy]; cbn [sort_insert]; [repeat constructor|].
  assert (c x y <> Gt -> StronglySorted (fun x y => c x y <> Gt) (x :: y :: k)) as Hfront.
  { intros Hxy. constructor; [by constructor|]. constructor; [done|]. eapply Forall_impl; [exact Hy|]. intros z Hz. by eapply Htrans. }
  destruct (c x y) eqn:E; [by apply Hfront|by apply Hfront|].
  constructor; [done|]. rewrite sort_insert_perm. constructor; [by apply Htotal|done].
Qed.
Lemma cmp_not_gt_trans {A} `{RustOrd A} (x y z : A) : cmp x y <> Gt -> cmp y z <> Gt -> cmp x z <> Gt.
Proof. apply (by_key_le_trans id). Qed.
(** A lexicographic comparison of two total, transitive ones. *)
Record preorder {A} (c : A -> A -> comparison) : Prop := {
  pre_flip : forall x y, c y x = CompOpp (c x y);
  pre_trans : forall x y z, c x y <> Gt -> c y z <> Gt -> c x z <> Gt
}.
Lemma preorder_then {A} (c1 c2 : A -> A -> comparison) :
  preorder c1 -> preorder c2 -> preorder (fun x y => then_with (c1 x y) (c2 x y)).
Proof.
  intros [F1 T1] [F2 T2]. constructor.
  - intros x y. rewrite (F1 x y), (F2 x y). by destruct (c1 x y).
  - assert (forall x y z, c1 x z = Eq -> c1 x y <> Gt -> c1 y z <> Gt -> c1 x y = Eq /\ c1 y z = Eq) as Heq.
    { intros x y z Hxz Hxy Hyz. split.
      - destruct (c1 x y) eqn:E; [done| |done]. exfalso. apply (T1 y z x Hyz); [by rewrite F1, Hxz|]. by rewrite F1, E.
      - destruct (c1 y z) eqn:E; [done| |done]. exfalso. apply (T1 z x y); [by rewrite F1, Hxz|done|]. by rewrite F1, E. }
    intros x y z. destruct (c1 x z) eqn:Exz; cbn [then_with]; [|done|].
    + intros Hxy Hyz. destruct (Heq x y z Exz) as [E1 E2]; [by intros E; rewrite E in Hxy|by intros E; rewrite E in Hyz|].
      rewrite E1 in Hxy. rewrite E2 in Hyz. cbn in *. by eapply T2.
    + intros Hxy Hyz. exfalso. apply (T1 x y z); [by intros E; rewrite E in Hxy|by intros E; rewrite E in Hyz|done].
Qed.
Lemma preorder_key {A B} `{RustOrd B} (f : A -> B) : preorder (fun x y => cmp (f x) (f y)).
Proof. constructor; [intros; apply cmp_antisym|intros x y z; apply cmp_not_gt_trans]. Qed.
Lemma compare_hits_preorder : preorder compare_hits.
Proof.
  apply preorder_then; [|apply preorder_then; apply preorder_key].
  constructor; [intros; apply N.compare_antisym|]. intros x y z. rewrite !N.compare_ngt_iff. lia.
Qed.

Section Ranking.
Context `{Unicode} (ln : f64 -> f64).

(** A node one of whose names is the text is a candidate. *)
Lemma exact_candidate snapshot needle lexical node :
  node ∈ nodes snapshot -> 0 < names needle node ->
  exists i, i ∈ candidate_ordinals (build_index snapshot) needle lexical /\ nodes snapshot !! i = Some node.
Proof.
  intros Hin Hname. assert (node ∈ all_named needle (nodes snapshot)) as Hnamed.
  { unfold all_named. apply elem_of_concat. exists (replicate (names needle node) node).
    split; [apply elem_of_replicate; split; [done|lia]|]. apply list_elem_of_fmap. eauto. }
  pose proof (exact_candidates snapshot needle) as Hexact. unfold candidate_ordinals.
  destruct (map_get needle (exact (build_index snapshot))) as [ordinals|]; [|rewrite Hexact in Hnamed; by apply not_elem_of_nil in Hnamed].
  rewrite <- Hexact in Hnamed. apply list_elem_of_omap in Hnamed as (i & Hi & Hget). exists i. split; [|done].
  unfold sort. rewrite elem_of_sort_by. apply (foldl_inv (fun s => i ∈ s)).
  - by apply elem_of_set_of_list.
  - intros s term Hs. apply (foldl_inv (fun s => i ∈ s)); [done|]. intros s' j Hs'. apply elem_of_set_insert. by right.
Qed.
Lemma named_ranks needle node : 0 < names needle node -> is_Some (rank_node node needle).
Proof.
  unfold names. intros Hpos. destruct (List.filter _ _) as [|v l] eqn:E; [cbn in Hpos; lia|].
  assert (v ∈ List.filter (fun value => seqb value needle) (exact_values node)) as Hv by (rewrite E; left).
  apply elem_of_filter_bool in Hv as [Hv Heq]. apply bool_decide_eq_true_1 in Heq as ->.
  unfold exact_values in Hv. apply list_elem_of_fmap in Hv as (raw & Hraw & Hin).
  apply list_elem_of_omap in Hin as (o & Ho & Hid). unfold id in Hid. subst o.
  unfold rank_node. repeat case_match; try by eexists. exfalso.
  rewrite !elem_of_cons, elem_of_nil in Ho. destruct Ho as [Ho|[Ho|[Ho|[Ho|[]]]]].
  - assert (seqb (normalize (node_id node)) needle = true) by (apply bool_decide_eq_true_2; congruence). congruence.
  - assert (equals (option_map normalize (node_path node)) needle = true)
      by (apply equals_true; rewrite <- Ho; cbn; congruence). congruence.
  - assert (equals (option_map normalize (qualified_name node)) needle = true)
      by (apply equals_true; rewrite <- Ho; cbn; congruence). congruence.
  - assert (seqb (normalize (label node)) needle = true) by (apply bool_decide_eq_true_2; congruence). congruence.
Qed.

(** The ranking of a search holds nodes of the snapshot that match the filter, each
    with the score the ranker gives it, at most 999,999, by descending score, then
    label, then id; and no node named exactly by the query is missed. *)
Theorem search_ranking snapshot query filter :
  let ranking := page_ranking ln snapshot query filter in
  let score := score_node (normalize query) (lexical_query ln query (build_index snapshot)) in
  StronglySorted (fun x y => compare_hits x y <> Gt) ranking /\
  (forall h, h ∈ ranking -> fst (fst h) ∈ nodes snapshot /\ node_matches_filter (fst (fst h)) filter = true /\
    score (fst (fst h)) = Some h /\ (snd (fst h) <= MAX_SCORE)%N) /\
  (forall node, node ∈ nodes snapshot -> node_matches_filter node filter = true -> 0 < names (normalize query) node ->
    exists h, h ∈ ranking /\ fst (fst h) = node).
Proof.
  cbn zeta. unfold page_ranking, rank_hits. set (lexical := lexical_query ln query (build_index snapshot)). set (needle := normalize query).
  destruct compare_hits_preorder as [Hflip Htrans].
  assert (forall node h, score_node needle lexical node = Some h -> fst (fst h) = node /\ (snd (fst h) <= MAX_SCORE)%N) as Hscore.
  { intros node h. unfold score_node. destruct (rank_node node needle) as [[tier by_]|].
    - intros [= <-]. cbn. split; [done|]. unfold tiered_score. lia.
    - unfold rank_question_tokens. repeat case_match; simplify_eq/=; intros; simplify_eq/=. split; [done|]. unfold tiered_score. lia. }
  split_and!.
  - apply sort_by_sorted; [|done]. intros x y E. rewrite Hflip, E. done.
  - intros h. rewrite elem_of_sort_by. intros (node & Hin & Hh)%list_elem_of_omap.
    apply elem_of_filter_bool in Hin as [Hin Hfilter]. apply list_elem_of_omap in Hin as (i & _ & Hi).
    destruct (Hscore _ _ Hh) as [-> ?]. split_and!; try done. by eapply list_elem_of_lookup_2.
  - intros node Hin Hfilter Hname. destruct (exact_candidate snapshot needle lexical node Hin Hname) as (i & Hi & Hget).
    destruct (named_ranks needle node Hname) as [[tier by_] Hrank].
    exists (node, tiered_score tier (lexical_relevance node lexical), by_). split; [|done].
    rewrite elem_of_sort_by. apply list_elem_of_omap. exists node. split; [|unfold score_node; by rewrite Hrank].
    apply elem_of_filter_bool. split; [|done]. apply list_elem_of_omap. exists i. split; [|done].
    by destruct (candidate_ordinals _ needle lexical); [apply not_elem_of_nil in Hi|].
Qed.
End Ranking.

(** * Witnesses *)

Lemma no_cache_consistent `{Unicode} snapshot : consistent snapshot [].
Proof. done. Qed.
Lemma resolve_node_exact_witness :
  names (H := ascii) "node:a" (ex_node "node:a" "start" "src/a.rs") = 1.
Proof.
  exact (proj1 (proj2 (proj1 (@resolve_node_exact ascii ex_snapshot "node:a" [] (ex_node "node:a" "start" "src/a.rs")
    (@no_cache_consistent ascii _)) eq_refl))).
Defined.
Lemma cache_transparent_witness :
  let cache := snd (@query_index ascii ex_snapshot []) in
  length cache = 1 /\
  fst (@resolve_node ascii ex_snapshot "node:b" cache) = fst (@resolve_node ascii ex_snapshot "node:b" []).
Proof.
  cbn zeta. split; [reflexivity|].
  apply (@cache_transparent ascii no_bytes (fun x => x) (fun s => s = ex_snapshot) ex_snapshot "node:b" default_filter None None).
  - by intros s1 s2 -> ->.
  - done.
  - apply query_index_ok; [by intros s1 s2 -> ->|done|]. by constructor; [constructor|cbn; lia|intros s _ index].
Defined.
Lemma search_page_exact_witness :
  exists offset, parse_cursor (Some "1"%string) = Ok offset /\ (offset <= 3)%N.
Proof.
  destruct (fst (@search_page ascii (fun x => x) no_bytes ex_snapshot "src" default_filter (Some 1%N) (Some "1"%string) []))
    as [result| |] eqn:E; [|vm_compute in E; discriminate..].
  destruct (@search_page_exact ascii (fun x => x) no_bytes ex_snapshot "src" default_filter (Some 1%N) (Some "1"%string) [] result)
    as (offset & Hoffset & Hle & _).
  - apply no_cache_consistent.
  - vm_compute. discriminate.
  - vm_compute. discriminate.
  - exact E.
  - exists offset. split; [exact Hoffset|]. etrans; [exact Hle|]. vm_compute. discriminate.
Defined.
