(* ===== verification/TraversalProps.v ===== *)
(** Theorems about the walks of [Traversal]: a walk that is not cut reaches
    exactly the nodes within its depth, and what an answer shows is closed,
    bounded and reached by the walk. *)
From stdpp Require Import relations.
From S2P Require Import Prelude Ordering Entries RustText GraphTypes F64 GraphAlgorithms Analysis AnalysisGraph AnalysisProps Communities CommunityProps Snapshot QueryIndex GraphQuery Traversal QueryExamples QueryProps.
Local Open Scope nat_scope.

(** * The edges at a node *)

Lemma edges_at_sorted compare m id : edges_at (sort_lists compare m) id = sort_by (compare id) (edges_at m id).
Proof.
  unfold edges_at, sort_lists. rewrite (map_get_map (fun k l => sort_by (compare k) l)). by destruct (map_get id m).
Qed.

Section Adjacency.
Context (filter : GraphQueryFilter) (all : list StructuralGraphEdge).
Definition filtered : list StructuralGraphEdge := List.filter (fun e => edge_matches_filter e filter) all.

(** The entries one edge adds. *)
Definition both_ends (e : StructuralGraphEdge) := [(from e, e); (to e, e)].
Definition directed_ends (direction : GraphDirection) (e : StructuralGraphEdge) :=
  match direction with
  | Incoming => [(to e, e)]
  | Outgoing => [(from e, e)]
  | Both => [(to e, e); (from e, e)]
  end.
Lemma foldl_pushes {A} (f : A -> list (string * StructuralGraphEdge)) (step : edge_lists -> A -> edge_lists) l :
  (forall m x, step m x = foldl (fun m p => push_entry (fst p) (snd p) m) m (f x)) ->
  foldl step [] l = pushes (concat (map f l)).
Proof. intros Hstep. unfold pushes. rewrite foldl_concat, foldl_map. by apply foldl_ext_in. Qed.

Lemma subgraph_edges_at id e :
  e ∈ edges_at (subgraph_adjacency filter all) id <-> e ∈ filtered /\ (from e = id \/ to e = id).
Proof.
  unfold subgraph_adjacency. rewrite edges_at_sorted, elem_of_sort_by.
  rewrite (foldl_pushes both_ends) by done. unfold edges_at. rewrite pushes_default, elem_of_entries, elem_of_concat.
  split.
  - intros (l & Hin & (e' & -> & He')%list_elem_of_fmap). unfold both_ends in Hin.
    rewrite !elem_of_cons, elem_of_nil in Hin. naive_solver.
  - intros [He Hid]. exists (both_ends e). split; [|by apply list_elem_of_fmap; exists e].
    unfold both_ends. rewrite !elem_of_cons. naive_solver.
Qed.
Lemma impact_edges_at direction id e :
  e ∈ edges_at (impact_lists direction filter all) id <-> e ∈ filtered /\ (id, e) ∈ directed_ends direction e.
Proof.
  unfold impact_lists. rewrite edges_at_sorted, elem_of_sort_by.
  rewrite (foldl_pushes (directed_ends direction)) by by intros; destruct direction.
  unfold edges_at. rewrite pushes_default, elem_of_entries, elem_of_concat. split.
  - intros (l & Hin & (e' & -> & He')%list_elem_of_fmap).
    assert (e' = e) as ->; [|done]. destruct direction; cbn in Hin; rewrite !elem_of_cons, elem_of_nil in Hin; naive_solver.
  - intros [He Hin]. exists (directed_ends direction e). split; [done|]. by apply list_elem_of_fmap; exists e.
Qed.
Lemma path_edges_at id e : e ∈ edges_at (path_adjacency filter all) id <-> e ∈ filtered /\ from e = id.
Proof.
  unfold path_adjacency. rewrite edges_at_sorted, elem_of_sort_by.
  rewrite (foldl_pushes (fun e => [(from e, e)])) by done. unfold edges_at. rewrite pushes_default, elem_of_entries, elem_of_concat.
  split.
  - intros (l & Hin & (e' & -> & He')%list_elem_of_fmap). rewrite list_elem_of_singleton in Hin. naive_solver.
  - intros [He <-]. exists [(from e, e)]. rewrite list_elem_of_singleton. split; [done|].
    apply list_elem_of_fmap. by exists e.
Qed.
End Adjacency.

(** * Breadth-first walks *)

(** What expanding a node at depth [d] with neighbours [ns] does to a walk. *)
Record expands (ns : list string) (d : nat) (st st' : walk) (new : list string) : Prop := {
  exp_queue : queue st' = queue st ++ map (fun y => (y, S d)) new;
  exp_new : forall y, y ∈ new -> y ∈ ns /\ y ∈ seen st';
  exp_keeps : forall y, y ∈ seen st -> y ∈ seen st';
  exp_from : forall y, y ∈ seen st' -> y ∈ seen st \/ y ∈ ns;
  exp_exact : cut st' = false -> forall y, y ∈ seen st' -> y ∈ seen st \/ y ∈ new;
  exp_all : cut st' = false -> forall y, y ∈ ns -> y ∈ seen st';
  exp_cut : cut st' = false -> cut st = false;
  exp_length : length (seen st) + length new <= length (seen st');
  exp_sorted : StronglySorted lt (seen st) -> StronglySorted lt (seen st');
  exp_reached : reached st' = reached st
}.

Lemma set_insert_length_le (x : string) s : length s <= length (set_insert x s).
Proof.
  induction s as [|y s IH]; cbn [set_insert length]; [lia|]. destruct (cmp x y); cbn [length]; lia.
Qed.
Lemma expands_nil d st : expands [] d st st [].
Proof.
  constructor; try done; try (by intros y ?%not_elem_of_nil); try by left.
  - by rewrite app_nil_r.
  - by intros _ y ?%not_elem_of_nil.
  - cbn. lia.
Qed.
Lemma expands_trans ns1 ns2 d st1 st2 st3 new1 new2 :
  expands ns1 d st1 st2 new1 -> expands ns2 d st2 st3 new2 -> expands (ns1 ++ ns2) d st1 st3 (new1 ++ new2).
Proof.
  intros [Q1 N1 K1 F1 X1 A1 C1 L1 S1 R1] [Q2 N2 K2 F2 X2 A2 C2 L2 S2 R2]. constructor.
  - by rewrite Q2, Q1, map_app, app_assoc.
  - intros y [Hy|Hy]%elem_of_app; rewrite elem_of_app.
    + destruct (N1 y Hy). auto.
    + destruct (N2 y Hy). auto.
  - auto.
  - intros y Hy. rewrite elem_of_app. destruct (F2 y Hy) as [Hy2|]; [|auto]. destruct (F1 y Hy2); auto.
  - intros Hc y Hy. rewrite elem_of_app. destruct (X2 Hc y Hy) as [Hy2|]; [|auto]. destruct (X1 (C2 Hc) y Hy2); auto.
  - intros Hc y [Hy|Hy]%elem_of_app; auto.
  - auto.
  - rewrite length_app. lia.
  - auto.
  - by rewrite R2.
Qed.
Lemma expands_fold (f : walk -> StructuralGraphEdge -> walk) (g : StructuralGraphEdge -> string) d es st :
  (forall st e, exists new, expands [g e] d st (f st e) new) -> exists new, expands (map g es) d st (foldl f st es) new.
Proof.
  intros Hf. revert st. induction es as [|e es IH]; intros st; cbn [foldl map]; [exists []; apply expands_nil|].
  destruct (Hf st e) as [new1 H1], (IH (f st e)) as [new2 H2]. exists (new1 ++ new2).
  exact (expands_trans [g e] (map g es) _ _ _ _ _ _ H1 H2).
Qed.
Lemma subgraph_edge_expands limit id d st e :
  exists new, expands [neighbor_of id e] d st (subgraph_edge limit id d st e) new.
Proof.
  unfold subgraph_edge. set (y := neighbor_of id e). destruct (set_contains y (seen st)) eqn:Ek.
  - rewrite andb_false_r. exists []. apply set_contains_true in Ek.
    constructor; cbn; try done; try (by intros z ?%not_elem_of_nil).
    + by rewrite app_nil_r.
    + intros z Hz. apply elem_of_set_insert. by right.
    + intros z [->|Hz]%elem_of_set_insert; by left.
    + intros _ z [->|Hz]%elem_of_set_insert; by left.
    + intros _ z ->%list_elem_of_singleton. apply elem_of_set_insert. by left.
    + rewrite Nat.add_0_r. apply set_insert_length_le.
    + apply set_insert_sorted.
  - rewrite andb_true_r. apply set_contains_false in Ek. destruct (limit <=? length (seen st)).
    + exists []. constructor; cbn; try done; try (by intros z ?%not_elem_of_nil); try by left.
      * by rewrite app_nil_r.
      * lia.
    + exists [y]. constructor; cbn; try done.
      * intros z ->%list_elem_of_singleton. split; [left|]. apply elem_of_set_insert. by left.
      * intros z Hz. apply elem_of_set_insert. by right.
      * intros z [->|Hz]%elem_of_set_insert; [right; left|by left].
      * intros _ z [->|Hz]%elem_of_set_insert; [right; left|by left].
      * intros _ z ->%list_elem_of_singleton. apply elem_of_set_insert. by left.
      * rewrite set_insert_length_new by done. lia.
      * apply set_insert_sorted.
Qed.
Lemma impact_edge_expands limit id d st e :
  exists new, expands [neighbor_of id e] d st (impact_edge limit id d st e) new.
Proof.
  unfold impact_edge. set (y := neighbor_of id e). destruct (cut st) eqn:Ecut.
  { exists []. constructor; try done; try (by intros z ?%not_elem_of_nil); try by left.
    - by rewrite app_nil_r.
    - by rewrite Ecut.
    - cbn. lia. }
  destruct (set_contains y (seen st)) eqn:Ek.
  - apply set_contains_true in Ek. exists []. constructor; cbn; try done; try (by intros z ?%not_elem_of_nil); try by left.
    + by rewrite app_nil_r.
    + by intros _ z ->%list_elem_of_singleton.
    + lia.
  - apply set_contains_false in Ek.
    assert (forall z, z ∈ set_insert y (seen st) -> z ∈ seen st \/ z ∈ [y]) as Hins.
    { intros z [->|Hz]%elem_of_set_insert; [right; left|by left]. }
    assert (forall z, z ∈ seen st -> z ∈ set_insert y (seen st)) as Hkeep by (intros; apply elem_of_set_insert; by right).
    assert (y ∈ set_insert y (seen st)) as Hy by (apply elem_of_set_insert; by left).
    destruct (S limit <? _).
    + exists []. constructor; cbn; try done; try (by intros z ?%not_elem_of_nil).
      * by rewrite app_nil_r.
      * rewrite Nat.add_0_r. apply set_insert_length_le.
      * apply set_insert_sorted.
    + exists [y]. constructor; cbn; try done.
      * intros z ->%list_elem_of_singleton. split; [left|done].
      * by intros _ z ->%list_elem_of_singleton.
      * rewrite set_insert_length_new by done. lia.
      * apply set_insert_sorted.
Qed.

(** The walk, its queue replaced. *)
Definition with_queue (st : walk) (rest : list (string * nat)) (deepest : nat) : walk := {|
  queue := rest; seen := seen st; seen_edges := seen_edges st; reached := deepest; cut := cut st |}.

Lemma bsteps_0 {A} (R : relation A) x y : bsteps R 0 x y -> x = y.
Proof. by inversion 1. Qed.
Lemma bsteps_inv_S {A} (R : relation A) n x y :
  bsteps R (S n) x y -> bsteps R n x y \/ exists z, bsteps R n x z /\ R z y.
Proof.
  rewrite !bsteps_nsteps. intros (k & Hk & Hxy). destruct (decide (k = S n)) as [->|Hne].
  - right. apply nsteps_inv_r in Hxy as (z & Hz & Hzy). exists z. split; [|done]. rewrite bsteps_nsteps. by exists n.
  - left. exists k. split; [lia|done].
Qed.

Section Walk.
Context (roots universe : list string) (nbrs : string -> list string) (max_depth : nat).
Context (step : walk -> option (outcome walk)) (deepest : walk -> nat -> nat).
Hypothesis step_none : forall st, step st = None -> queue st = [] \/ cut st = true.
Hypothesis step_some : forall st next, step st = Some next -> exists x d rest st',
  queue st = (x, d) :: rest /\ next = Ok st' /\
  let popped := with_queue st rest (deepest st d) in
  if max_depth <=? d then st' = popped else exists new, expands (nbrs x) d popped st' new.
Hypothesis roots_in : forall x, x ∈ roots -> x ∈ universe.
Hypothesis nbrs_in : forall x y, y ∈ nbrs x -> y ∈ universe.

Definition linked (x y : string) : Prop := y ∈ nbrs x.
(** [x] is at most [n] steps from a root. *)
Definition within (n : nat) (x : string) : Prop := exists r, r ∈ roots /\ bsteps linked n r x.

Lemma within_mono n m x : n <= m -> within n x -> within m x.
Proof. intros Hle (r & Hr & Hx). exists r. split; [done|]. by eapply bsteps_weaken. Qed.
Lemma within_step n x y : within n x -> y ∈ nbrs x -> within (S n) y.
Proof. intros (r & Hr & Hx) Hy. exists r. split; [done|]. by eapply bsteps_r. Qed.
Lemma within_S n x : within (S n) x -> within n x \/ exists y, within n y /\ x ∈ nbrs y.
Proof.
  intros (r & Hr & Hx). apply bsteps_inv_S in Hx as [Hx|(y & Hy & Hxy)].
  - left. by exists r.
  - right. exists y. split; [by exists r|done].
Qed.

(** The queue holds the nodes of one depth, then those of the next. *)
Record level (st : walk) (d : nat) (here next : list string) : Prop := {
  level_queue : queue st = map (fun x => (x, d)) here ++ map (fun x => (x, S d)) next;
  level_depth : d <= max_depth;
  level_next : d < max_depth \/ next = [];
  level_here : forall x, x ∈ here -> within d x;
  level_seen : forall x, x ∈ seen st <-> within d x \/ x ∈ next;
  level_within : forall x, x ∈ next -> within (S d) x;
  level_done : d < max_depth -> forall x, within d x -> x ∈ here \/ forall y, y ∈ nbrs x -> y ∈ seen st
}.
Lemma level_down st d b next : level st d [] (b :: next) -> level st (S d) (b :: next) [].
Proof.
  intros [Hq Hd Hn Hh Hs Hw Hdone]. destruct Hn as [Hn|]; [|done]. constructor; cbn in *; [by rewrite app_nil_r|lia|by right|done| |by intros x ?%not_elem_of_nil|].
  - intros x. split.
    + intros [Hx|Hx]%Hs; left; [by apply (within_mono d); [lia|]|auto].
    + intros [[Hx|(y & Hy & Hxy)]%within_S|Hx%not_elem_of_nil]; [|..]; [|destruct (Hdone Hn y Hy) as [?%not_elem_of_nil|Hall]; auto; done|done].
      apply Hs. by left.
  - intros Hlt x Hx. destruct (decide (x ∈ b :: next)) as [|Hnin]; [by left|right].
    assert (within d x) as Hxd.
    { destruct (within_S d x Hx) as [|(y & Hy & Hxy)]; [done|].
      destruct (Hdone Hn y Hy) as [?%not_elem_of_nil|Hall]; [done|]. by destruct (proj1 (Hs x) (Hall x Hxy)). }
    by destruct (Hdone Hn x Hxd) as [?%not_elem_of_nil|].
Qed.
Lemma level_step st d x here next st' deepest' :
  level st d (x :: here) next ->
  (let popped := with_queue st (map (fun x => (x, d)) here ++ map (fun x => (x, S d)) next) deepest' in
   if max_depth <=? d then st' = popped else exists new, expands (nbrs x) d popped st' new) ->
  cut st' = false -> exists next', level st' d here next'.
Proof.
  intros [Hq Hd Hn Hh Hs Hw Hdone] Hstep Hcut. cbn in Hstep. destruct (Nat.leb_spec max_depth d) as [Hle|Hlt].
  - subst st'. exists next. constructor; cbn; try done; [set_solver|intros; lia].
  - destruct Hstep as (new & [Q N K F X A C L Ss R]). cbn in *. exists (next ++ new). constructor.
    + by rewrite Q, map_app, app_assoc.
    + done.
    + by left.
    + set_solver.
    + intros y. rewrite elem_of_app. split.
      * intros Hy. destruct (X Hcut y Hy) as [[|]%Hs|]; auto.
      * intros [Hy|[Hy|Hy]]; [apply K, Hs; auto..|by apply N].
    + intros y [Hy|Hy]%elem_of_app; [auto|]. apply (within_step d x); [|by apply N]. apply Hh. left.
    + intros _ y Hy. destruct (Hdone Hlt y Hy) as [[->|]%elem_of_cons|Hall]; [right; auto|by left|right; auto].
Qed.

Record walk_ok (st : walk) : Prop := {
  walk_sorted : StronglySorted lt (seen st);
  walk_universe : forall x, x ∈ seen st -> x ∈ universe;
  walk_queue : forall x d, (x, d) ∈ queue st -> d <= max_depth /\ within d x;
  walk_seen : forall x, x ∈ seen st -> within max_depth x;
  walk_roots : forall x, x ∈ roots -> x ∈ seen st;
  walk_level : cut st = false -> exists d here next, level st d here next
}.
Lemma walk_start : walk_ok (start_walk roots).
Proof.
  assert (forall x, x ∈ roots -> forall n, within n x) as Hroot.
  { intros x Hx n. exists x. split; [done|]. apply bsteps_refl. }
  constructor; cbn.
  - apply set_of_list_sorted.
  - intros x. rewrite elem_of_set_of_list. auto.
  - intros x d (r & [= -> ->] & Hr)%list_elem_of_fmap. split; [lia|auto].
  - intros x. rewrite elem_of_set_of_list. auto.
  - intros x Hx. by apply elem_of_set_of_list.
  - intros _. exists 0, roots, []. constructor; cbn; try done; [by rewrite app_nil_r|lia|by right|auto| |by intros x ?%not_elem_of_nil|].
    + intros x. rewrite elem_of_set_of_list. split; [auto|].
      intros [(r & Hr & Hx)|?%not_elem_of_nil]; [|done]. by apply bsteps_0 in Hx as <-.
    + intros _ x (r & Hr & Hx). left. by apply bsteps_0 in Hx as <-.
Qed.
Lemma walk_step st next :
  walk_ok st -> step st = Some next -> exists st', next = Ok st' /\ walk_ok st' /\
    length (queue st') + (length universe - length (seen st')) < length (queue st) + (length universe - length (seen st)).
Proof.
  intros [Hsort Huni Hqueue Hseen Hroots Hlevel] Hsome.
  destruct (step_some st next Hsome) as (x & d & rest & st' & Hq & -> & Hst'). cbn in Hst'.
  exists st'. split; [done|].
  assert (forall s, StronglySorted lt s -> (forall y : string, y ∈ s -> y ∈ universe) -> length s <= length universe) as Hlen.
  { intros s Hs Hin. apply submseteq_length, NoDup_submseteq; [by apply sorted_NoDup|done]. }
  assert (d <= max_depth /\ within d x) as [Hd Hx] by (apply Hqueue; rewrite Hq; left).
  assert (forall y k, (y, k) ∈ rest -> k <= max_depth /\ within k y) as Hrest by (intros; apply Hqueue; rewrite Hq; by right).
  assert (cut st' = false -> exists d here next', level st' d here next') as Hlevel'.
  { intros Hcut. assert (cut st = false) as Hcut0.
    { destruct (max_depth <=? d); [by subst st'|]. destruct Hst' as (new & Hexp). exact (exp_cut _ _ _ _ _ Hexp Hcut). }
    destruct (Hlevel Hcut0) as (k & here & nxt & Hlev).
    assert (exists k here nxt, level st k (x :: here) nxt /\ k = d) as (k' & here' & nxt' & Hlev' & ->).
    { pose proof (level_queue _ _ _ _ Hlev) as E. rewrite Hq in E. destruct here as [|x' here].
      - destruct nxt as [|x' nxt]; [done|]. cbn in E. injection E as <- -> _. exists (S k), nxt, []. split; [by apply level_down|done].
      - cbn in E. injection E as <- -> _. by exists k, here, nxt. }
    pose proof (level_queue _ _ _ _ Hlev') as E. rewrite Hq in E. cbn in E. injection E as ->.
    destruct (level_step _ _ _ _ _ _ _ Hlev' Hst' Hcut) as [nxt2 H2]. eauto. }
  destruct (Nat.leb_spec max_depth d) as [Hle|Hlt].
  - subst st'. split; [by constructor|]. cbn. rewrite Hq. cbn. lia.
  - destruct Hst' as (new & [Q N K F X A C L Ss R]). cbn in *. assert (forall y, y ∈ seen st' -> y ∈ universe) as Huni'.
    { intros y Hy. destruct (F y Hy); eauto. }
    split; [constructor|].
    + auto.
    + done.
    + intros y k. rewrite Q. intros [Hy|(z & [= -> ->] & Hz)%list_elem_of_fmap]%elem_of_app; [auto|].
      split; [lia|]. apply (within_step d x); [done|]. by apply N.
    + intros y Hy. destruct (F y Hy) as [|Hn]; [auto|]. apply (within_mono (S d)); [lia|]. by eapply within_step.
    + auto.
    + done.
    + rewrite Q, Hq, length_app, length_map. cbn. specialize (Hlen (seen st') (Ss Hsort) Huni'). lia.
Qed.

(** The walk ends, and unless it was cut it has seen exactly the nodes in reach. *)
Lemma walk_ends fuel :
  length roots + (length universe - length (set_of_list roots)) <= fuel ->
  exists st, loop fuel step (start_walk roots) = Ok st /\ walk_ok st /\
    (cut st = false -> forall x, x ∈ seen st <-> within max_depth x).
Proof.
  intros Hfuel. destruct (loop_ends walk_ok (fun st => length (queue st) + (length universe - length (seen st))) step fuel (start_walk roots))
    as (st & Hloop & Hok & Hnone).
  - intros st next Hok Hsome. exact (walk_step st next Hok Hsome).
  - apply walk_start.
  - cbn. by rewrite length_map.
  - exists st. split_and!; [done|done|]. intros Hcut x. split; [apply (walk_seen _ Hok)|].
    destruct (step_none st Hnone) as [Hq|]; [|congruence]. destruct (walk_level _ Hok Hcut) as (d & here & nxt & [Hq' Hd Hn Hh Hs Hw Hdone]).
    rewrite Hq in Hq'. symmetry in Hq'. apply app_eq_nil in Hq' as [->%map_eq_nil ->%map_eq_nil].
    assert (forall n y, d <= n -> n <= max_depth -> within n y -> within d y) as Hstay.
    { intros n y Hdn. induction Hdn as [|n Hdn IH] in y |- *; [done|]. intros Hle [Hy|(z & Hz & Hzy)]%within_S; [apply IH; [lia|done]|].
      apply IH in Hz; [|lia]. destruct (Hdone ltac:(lia) z Hz) as [?%not_elem_of_nil|Hall]; [done|].
      by destruct (proj1 (Hs y) (Hall y Hzy)) as [|?%not_elem_of_nil]. }
    intros Hx. apply Hs. left. by apply (Hstay max_depth).
Qed.
End Walk.

Lemma loop_inv {S} (P : S -> Prop) fuel (step : S -> option (outcome S)) s s' :
  (forall s s', P s -> step s = Some (Ok s') -> P s') -> P s -> loop fuel step s = Ok s' -> P s'.
Proof.
  intros Hstep. revert s. induction fuel as [|fuel IH]; intros s Hs; cbn; destruct (step s) as [[t|e|w]|] eqn:E; try done; cbn;
    try (by intros [= <-]). intros Hloop. apply (IH t); [by eapply Hstep|done].
Qed.

(** * The graph a walk follows *)

Definition follows (direction : GraphDirection) (filter : GraphQueryFilter) (edges : list StructuralGraphEdge)
    (x y : string) : Prop :=
  exists e, e ∈ edges /\ edge_matches_filter e filter = true /\
    match direction with
    | Incoming => to e = x /\ from e = y
    | Outgoing => from e = x /\ to e = y
    | Both => from e = x /\ to e = y \/ to e = x /\ from e = y
    end.

Lemma elem_of_filtered filter edges e : e ∈ filtered filter edges <-> e ∈ edges /\ edge_matches_filter e filter = true.
Proof. unfold filtered. by rewrite elem_of_filter_bool. Qed.
Lemma neighbor_of_from e : neighbor_of (from e) e = to e.
Proof. unfold neighbor_of, seqb. by rewrite bool_decide_eq_true_2. Qed.
Lemma neighbor_of_to e : neighbor_of (to e) e = from e.
Proof. unfold neighbor_of, seqb. by case_bool_decide. Qed.
Definition neighbors_at (adjacency : edge_lists) (x : string) : list string := map (neighbor_of x) (edges_at adjacency x).
Lemma impact_neighbors direction filter edges x y :
  y ∈ neighbors_at (impact_lists direction filter edges) x <-> follows direction filter edges x y.
Proof.
  unfold neighbors_at, follows. rewrite list_elem_of_fmap. setoid_rewrite impact_edges_at. setoid_rewrite elem_of_filtered.
  split.
  - intros (e & -> & [He Hf] & Hin). exists e. split_and!; [done|done|]. destruct direction; cbn in Hin;
      rewrite ?elem_of_cons, elem_of_nil in Hin; repeat (destruct Hin as [E|Hin]; [injection E as ->; rewrite ?neighbor_of_from, ?neighbor_of_to; auto|]); done.
  - intros (e & He & Hf & Hxy). exists e. destruct direction; cbn; rewrite ?elem_of_cons;
      repeat match goal with H : _ \/ _ |- _ => destruct H end; destruct_and?; subst;
      rewrite ?neighbor_of_from, ?neighbor_of_to; auto.
Qed.
Lemma subgraph_neighbors filter edges x y :
  y ∈ neighbors_at (subgraph_adjacency filter edges) x <-> follows Both filter edges x y.
Proof.
  unfold neighbors_at, follows. rewrite list_elem_of_fmap. setoid_rewrite subgraph_edges_at. setoid_rewrite elem_of_filtered.
  split.
  - intros (e & -> & [He Hf] & [<-|<-]); exists e; rewrite ?neighbor_of_from, ?neighbor_of_to; auto.
  - intros (e & He & Hf & [[<- <-]|[<- <-]]); exists e; rewrite ?neighbor_of_from, ?neighbor_of_to; auto.
Qed.
Lemma follows_ends direction filter edges x y : follows direction filter edges x y -> y ∈ ends edges.
Proof.
  intros (e & He & _ & Hxy). unfold ends. apply elem_of_concat. exists [from e; to e].
  split; [|apply list_elem_of_fmap; by exists e]. rewrite !elem_of_cons. destruct direction; naive_solver.
Qed.
Lemma ends_length edges : length (ends edges) = 2 * length edges.
Proof. unfold ends. induction edges as [|e edges IH]; cbn [map concat length app]; [done|]. rewrite IH. lia. Qed.

(** What a walk over the snapshot's edges from some roots sees. *)
Definition walk_result (direction : GraphDirection) (filter : GraphQueryFilter) (edges : list StructuralGraphEdge)
    (roots : list string) (max_depth : nat) (st : walk) : Prop :=
  StronglySorted lt (seen st) /\ (forall x, x ∈ roots -> x ∈ seen st) /\
  (forall x, x ∈ seen st -> exists r, r ∈ roots /\ bsteps (follows direction filter edges) max_depth r x) /\
  (cut st = false -> forall x, x ∈ seen st <-> exists r, r ∈ roots /\ bsteps (follows direction filter edges) max_depth r x).

Lemma bsteps_iff {A} (R R' : relation A) n x y : (forall x y, R x y <-> R' x y) -> bsteps R n x y <-> bsteps R' n x y.
Proof. intros HR. split; apply (bsteps_congruence id); intros ? ?; apply HR. Qed.
Lemma walk_runs direction filter edges roots nbrs max_depth step deepest :
  (forall x y, y ∈ nbrs x <-> follows direction filter edges x y) ->
  (forall st, step st = None -> queue st = [] \/ cut st = true) ->
  (forall st next, step st = Some next -> exists x d rest st',
    queue st = (x, d) :: rest /\ next = Ok st' /\
    let popped := with_queue st rest (deepest st d) in
    if max_depth <=? d then st' = popped else exists new, expands (nbrs x) d popped st' new) ->
  exists st, loop (walk_fuel roots edges) step (start_walk roots) = Ok st /\
    walk_result direction filter edges roots max_depth st.
Proof.
  intros Hnbrs Hnone Hsome.
  destruct (walk_ends roots (set_of_list roots ++ ends edges) nbrs max_depth step deepest Hnone Hsome) with (fuel := walk_fuel roots edges)
    as (st & Hloop & [Hsort Huni Hq Hs Hr Hl] & Hexact).
  - intros x Hx. apply elem_of_app. left. by apply elem_of_set_of_list.
  - intros x y Hy. apply elem_of_app. right. apply Hnbrs in Hy. by eapply follows_ends.
  - unfold walk_fuel. rewrite length_app, ends_length. lia.
  - assert (forall x, within roots nbrs max_depth x <-> exists r, r ∈ roots /\ bsteps (follows direction filter edges) max_depth r x) as Heq.
    { intros x. unfold within. split; intros (r & Hr' & Hx); exists r; (split; [done|]);
        (eapply bsteps_iff; [|exact Hx]); intros; [symmetry|]; apply Hnbrs. }
    exists st. split; [done|]. split_and!; [done|done|by intros x Hx%Hs%Heq|].
    intros Hcut x. by rewrite <- Heq, Hexact.
Qed.
Lemma impact_walk direction filter edges roots limit max_depth :
  exists st, loop (walk_fuel roots edges) (impact_step (impact_lists direction filter edges) limit max_depth) (start_walk roots) = Ok st /\
    walk_result direction filter edges roots max_depth st.
Proof.
  apply (walk_runs _ _ _ _ (neighbors_at (impact_lists direction filter edges)) _ _ (fun st d => Nat.max (reached st) d)).
  - intros x y. apply impact_neighbors.
  - intros st. unfold impact_step. destruct (cut st) eqn:E; [by right|]. destruct (queue st) as [|[x d] rest]; [by left|done].
  - intros st next. unfold impact_step. destruct (cut st) eqn:E; [done|]. destruct (queue st) as [|[x d] rest] eqn:Eq; [done|].
    intros [= <-]. exists x, d, rest. eexists. split_and!; [done|done|]. unfold with_queue. rewrite E. cbn zeta.
    destruct (max_depth <=? d); [done|]. apply expands_fold. intros. apply impact_edge_expands.
Qed.
Lemma subgraph_walk filter edges roots limit max_depth :
  exists st, loop (walk_fuel roots edges) (subgraph_step (subgraph_adjacency filter edges) limit max_depth) (start_walk roots) = Ok st /\
    walk_result Both filter edges roots max_depth st.
Proof.
  apply (walk_runs _ _ _ _ (neighbors_at (subgraph_adjacency filter edges)) _ _ (fun st d => reached st)).
  - intros x y. apply subgraph_neighbors.
  - intros st. unfold subgraph_step. destruct (queue st) as [|[x d] rest]; [by left|done].
  - intros st next. unfold subgraph_step. destruct (queue st) as [|[x d] rest] eqn:Eq; [done|].
    intros [= <-]. exists x, d, rest. eexists. split_and!; [done|done|]. cbn zeta.
    destruct (max_depth <=? d); [done|]. apply expands_fold. intros. apply subgraph_edge_expands.
Qed.

(** * Answers *)

Lemma index_by_id_get nodes id node : map_get id (index_by_id nodes) = Some node -> node ∈ nodes /\ node_id node = id.
Proof.
  unfold index_by_id. intros Hget%map_of_list_elem. apply list_elem_of_fmap in Hget as (n & [= -> ->] & Hn). done.
Qed.
Lemma index_by_id_keys nodes id : is_Some (map_get id (index_by_id nodes)) <-> id ∈ map node_id nodes.
Proof.
  rewrite map_get_is_Some. unfold index_by_id. rewrite map_of_list_keys, map_map. done.
Qed.
(** Known ids, looked up, are the ids again. *)
Lemma lookup_ids nodes ids :
  map node_id (omap (fun id => map_get id (index_by_id nodes)) ids) =
  List.filter (fun id => is_some (map_get id (index_by_id nodes))) ids.
Proof.
  induction ids as [|id ids IH]; cbn [omap list_omap List.filter]; [done|].
  destruct (map_get id (index_by_id nodes)) as [node|] eqn:E; cbn [map is_some]; [|done].
  apply index_by_id_get in E as [_ ->]. by f_equal.
Qed.
Lemma order_nodes_ids nodes id : id ∈ map node_id (order_nodes nodes) <-> id ∈ map node_id nodes.
Proof. by rewrite order_nodes_perm. Qed.
Lemma strip_node_ids l : map node_id (map strip_node_excerpts l) = map node_id l.
Proof. by rewrite map_map. Qed.
Lemma elem_of_edges_among ids l e : e ∈ edges_among ids l <-> e ∈ l /\ from e ∈ ids /\ to e ∈ ids.
Proof. unfold edges_among. by rewrite elem_of_filter_bool, andb_true_iff, !set_contains_true. Qed.
Lemma elem_of_take_incl {A} n (x : A) l : x ∈ take n l -> x ∈ l.
Proof. intros (i & Hi & _)%elem_of_take. by eapply list_elem_of_lookup_2. Qed.
Lemma walked_edges_ok snapshot ids retained e :
  e ∈ walked_edges snapshot ids retained -> e ∈ edges snapshot /\ edge_id e ∈ ids /\ from e ∈ retained /\ to e ∈ retained.
Proof.
  unfold walked_edges. intros Hin%elem_of_take_incl. rewrite elem_of_edges_among, elem_of_filter_bool, set_contains_true in Hin.
  tauto.
Qed.

Definition impact_closed (r : GraphImpactResult) : Prop :=
  forall e, e ∈ impact_edges r ->
    from e ∈ map node_id (affected r) ++ [node_id (root r)] /\ to e ∈ map node_id (affected r) ++ [node_id (root r)].
Lemma enforce_impact_bytes_ok `{Serialize GraphImpactResult} r :
  impact_closed r -> let out := enforce_impact_bytes r in
  impact_closed out /\ node_id (root out) = node_id (root r) /\
  (exists n, map node_id (affected out) = take n (map node_id (affected r))) /\
  length (impact_edges out) <= length (impact_edges r) /\ depth_reached out = depth_reached r /\
  (impact_truncated out = false -> out = r).
Proof.
  intros Hclosed. unfold enforce_impact_bytes. destruct (_ <=? _)%N; [split_and!; try done; exists (length (map node_id (affected r))); by rewrite firstn_all|].
  set (kept_edges := pop_while_large _ (map strip_edge_excerpts _)). set (kept := pop_while_large _ (map strip_node_excerpts _)).
  assert (exists n, kept_edges = take n (map strip_edge_excerpts (impact_edges r))) as [n Hn].
  { unfold kept_edges, pop_while_large. edestruct @pop_while_prefix as (n & -> & _). by exists n. }
  assert (exists n, kept = take n (map strip_node_excerpts (affected r))) as [k Hk].
  { unfold kept, pop_while_large. edestruct @pop_while_prefix as (k & -> & _). by exists k. }
  unfold with_impact. cbn [impact_edges affected root depth_reached impact_truncated]. split_and!; [|done| |..|done|done].
  - intros e. cbn [impact_edges affected root node_id]. rewrite elem_of_edges_among, !elem_of_set_of_list. tauto.
  - exists k. by rewrite Hk, <- firstn_map, strip_node_ids.
  - unfold edges_among. etrans; [apply List.filter_length_le|]. rewrite Hn, length_take, length_map. lia.
Qed.


(** ** [impact] *)

Section Impact.
Context `{Serialize GraphImpactResult} (snapshot : StructuralGraphSnapshot).

Lemma impact_edge_bounded limit id d st e :
  (cut st = false -> length (seen st) <= S limit) ->
  cut (impact_edge limit id d st e) = false -> length (seen (impact_edge limit id d st e)) <= S limit.
Proof.
  intros Hst. unfold impact_edge. destruct (cut st) eqn:E; [congruence|].
  destruct (set_contains _ _); cbn [cut seen]; [by auto|]. destruct (Nat.ltb_spec (S limit) (length (set_insert (neighbor_of id e) (seen st))));
    cbn [cut seen]; [done|by intros _].
Qed.
Lemma impact_walk_bounded adjacency limit max_depth fuel root st :
  loop fuel (impact_step adjacency limit max_depth) (start_walk [root]) = Ok st -> cut st = false -> length (seen st) <= S limit.
Proof.
  apply (loop_inv (fun st => cut st = false -> length (seen st) <= S limit)); [|cbn; lia].
  intros s s' Hs. unfold impact_step. destruct (cut s) eqn:E; [done|]. specialize (Hs eq_refl).
  destruct (queue s) as [|[x d] rest]; [done|]. intros [= <-]. destruct (max_depth <=? d); [by intros _|].
  apply (foldl_inv (fun st => cut st = false -> length (seen st) <= S limit)); [by intros _|].
  intros t e. apply impact_edge_bounded.
Qed.
Lemma impact_of_Ok root direction max_depth filter limit :
  exists st, impact_of snapshot root direction max_depth filter limit = Ok (enforce_impact_bytes (impact_answer snapshot root limit st)) /\
    walk_result direction filter (edges snapshot) [node_id root] max_depth st /\
    (cut st = false -> length (seen st) <= S limit).
Proof.
  destruct (impact_walk direction filter (edges snapshot) [node_id root] limit max_depth) as (st & Hloop & Hst).
  exists st. unfold impact_of. rewrite Hloop. split_and!; [done|done|]. by eapply impact_walk_bounded.
Qed.

Lemma impact_answer_closed start limit st : impact_closed (impact_answer snapshot start limit st).
Proof.
  intros e. unfold impact_answer. cbn [impact_edges affected root]. unfold sort_edges_by_id. rewrite elem_of_sort_by.
  intros (_ & _ & Hends)%walked_edges_ok. by rewrite !elem_of_set_of_list in Hends.
Qed.
Lemma impact_answer_affected start limit st id :
  id ∈ map node_id (affected (impact_answer snapshot start limit st)) ->
  id ∈ seen st /\ id <> node_id start /\ id ∈ map node_id (nodes snapshot).
Proof.
  unfold impact_answer. cbn [affected]. rewrite <- firstn_map. intros Hin%elem_of_take_incl.
  rewrite order_nodes_ids, lookup_ids, !elem_of_filter_bool in Hin. destruct Hin as [[Hs Hne] Hk].
  apply negb_true_iff, bool_decide_eq_false_1 in Hne. split_and!; [done|done|].
  apply index_by_id_keys. destruct (map_get id _); [by eexists|done].
Qed.
(** Within the limit nothing is left out. *)
Lemma impact_answer_all start limit st id :
  StronglySorted lt (seen st) -> node_id start ∈ seen st -> length (seen st) <= S limit ->
  id ∈ seen st -> id <> node_id start -> id ∈ map node_id (nodes snapshot) ->
  id ∈ map node_id (affected (impact_answer snapshot start limit st)).
Proof.
  intros Hsort Hroot Hlen Hs Hne Hk. unfold impact_answer. cbn [affected]. rewrite take_ge.
  - rewrite order_nodes_ids, lookup_ids, !elem_of_filter_bool. split_and!; [done| |].
    + apply negb_true_iff. unfold seqb. by rewrite bool_decide_eq_false_2.
    + apply index_by_id_keys in Hk as [node ->]. done.
  - rewrite order_nodes_perm, <- (length_map node_id), lookup_ids.
    etrans; [apply List.filter_length_le|].
    assert (seen st ≡ₚ node_id start :: List.filter (fun id => negb (seqb id (node_id start))) (seen st)) as Hperm.
    { apply NoDup_Permutation.
      - by apply sorted_NoDup.
      - constructor; [|apply filter_bool_NoDup; by apply sorted_NoDup]. rewrite elem_of_filter_bool. unfold seqb.
        rewrite bool_decide_eq_true_2 by done. by intros [_ ?].
      - intros x. rewrite elem_of_cons, elem_of_filter_bool. unfold seqb. destruct (decide (x = node_id start)) as [->|Hx].
        + tauto.
        + rewrite bool_decide_eq_false_2 by done. cbn. tauto. }
    apply Permutation_length in Hperm. cbn in Hperm. lia.
Qed.
End Impact.

Lemma resolve_node_returns `{Unicode} snapshot reference cache : returns (fst (resolve_node snapshot reference cache)).
Proof.
  unfold resolve_node. destruct (is_empty _); [done|]. destruct (query_index snapshot cache) as [index cache']. cbn [fst].
  generalize (omap (fun i => nodes snapshot !! i) (default (seq 0 (length (nodes snapshot))) (map_get (normalize reference) (exact index)))).
  generalize ["id"; "qualified_name"; "path"; "label"]%string. intros tiers candidates.
  induction tiers as [|tier tiers IH]; cbn [resolve_tiers]; [done|]. by destruct (List.filter _ candidates) as [|? [|? ?]].
Qed.

Section ImpactTheorems.
Context `{Unicode} `{Serialize GraphImpactResult}.

Definition impact_depth (depth : option N) : nat := N.to_nat (N.min (N.max (default 3%N depth) 1) 12).
Lemma impact_Ok snapshot reference direction depth filter limit cache r :
  fst (impact snapshot reference direction depth filter limit cache) = Ok r ->
  exists start, fst (resolve_node snapshot reference cache) = Ok start /\
    impact_of snapshot start direction (impact_depth depth) filter (bounded_limit limit) = Ok r.
Proof.
  unfold impact. destruct (resolve_node snapshot reference cache) as [resolved cache']. cbn [fst].
  intros (start & -> & Hr)%bind_Ok. eauto.
Qed.

(** What an impact answer lists is there: nodes of the snapshot other than the
    root, reached from it by at most the depth asked for (clamped to 1 to 12)
    along edges that match the filter, no more than the limit; the edges listed,
    at most 2,000, run between the nodes listed. *)
Theorem impact_sound snapshot reference direction depth filter limit cache r :
  fst (impact snapshot reference direction depth filter limit cache) = Ok r ->
  exists start, fst (resolve_node snapshot reference cache) = Ok start /\ node_id (root r) = node_id start /\
    impact_closed r /\ length (affected r) <= bounded_limit limit /\ length (impact_edges r) <= MAX_EDGE_LIMIT /\
    forall id, id ∈ map node_id (affected r) -> id ∈ map node_id (nodes snapshot) /\ id <> node_id start /\
      bsteps (follows direction filter (edges snapshot)) (impact_depth depth) (node_id start) id.
Proof.
  intros (start & Hstart & Hr)%impact_Ok. exists start. split; [done|].
  destruct (impact_of_Ok snapshot start direction (impact_depth depth) filter (bounded_limit limit)) as (st & E & (Hsort & Hroots & Hsound & _) & _).
  rewrite E in Hr. injection Hr as <-.
  destruct (enforce_impact_bytes_ok _ (impact_answer_closed snapshot start (bounded_limit limit) st)) as (Hc & Hroot & [n Haff] & Hle & _ & _).
  split_and!; [done|done| | |].
  - rewrite <- (length_map node_id), Haff, length_take, length_map. unfold impact_answer. cbn [affected].
    rewrite length_take. lia.
  - etrans; [exact Hle|]. unfold impact_answer, walked_edges, sort_edges_by_id. cbn [impact_edges].
    rewrite sort_by_length, length_take. lia.
  - intros id. rewrite Haff. intros Hid%elem_of_take_incl%impact_answer_affected. destruct Hid as (Hs & Hne & Hk).
    split_and!; [done|done|]. by destruct (Hsound id Hs) as (x & ->%list_elem_of_singleton & Hx).
Qed.

(** C15: An impact answer that is not marked truncated is complete: the nodes it lists
    are exactly the known ones within the depth. *)
Theorem impact_complete snapshot reference direction depth filter limit cache r :
  fst (impact snapshot reference direction depth filter limit cache) = Ok r -> impact_truncated r = false ->
  exists start, fst (resolve_node snapshot reference cache) = Ok start /\ root r = start /\
    forall id, id ∈ map node_id (affected r) <-> id ∈ map node_id (nodes snapshot) /\ id <> node_id start /\
      bsteps (follows direction filter (edges snapshot)) (impact_depth depth) (node_id start) id.
Proof.
  intros (start & Hstart & Hr)%impact_Ok Htrunc. exists start. split; [done|].
  destruct (impact_of_Ok snapshot start direction (impact_depth depth) filter (bounded_limit limit)) as (st & E & (Hsort & Hroots & Hsound & Hexact) & Hlen).
  rewrite E in Hr. injection Hr as <-.
  destruct (enforce_impact_bytes_ok _ (impact_answer_closed snapshot start (bounded_limit limit) st)) as (_ & _ & _ & _ & _ & Hsame).
  pose proof (Hsame Htrunc) as Heq. rewrite Heq in Htrunc |- *. cbn [impact_truncated impact_answer] in Htrunc. apply orb_false_iff in Htrunc as [Hcut _].
  split; [done|]. intros id. split.
  - intros (Hs & Hne & Hk)%impact_answer_affected. split_and!; [done|done|].
    by destruct (Hsound id Hs) as (x & ->%list_elem_of_singleton & Hx).
  - intros (Hk & Hne & Hx). apply impact_answer_all; [done|apply Hroots; left|by apply Hlen| |done|done].
    apply (Hexact Hcut). exists (node_id start). split; [left|done].
Qed.
End ImpactTheorems.

(** * Witnesses *)

Lemma impact_sound_witness :
  exists r, fst (@impact ascii no_bytes ex_snapshot "node:c" Incoming (Some 3%N) default_filter (Some 1%N) []) = Ok r /\
    impact_closed r /\ length (affected r) <= 1.
Proof.
  eexists. split; [vm_compute; reflexivity|].
  edestruct (@impact_sound ascii no_bytes ex_snapshot "node:c" Incoming (Some 3%N) default_filter (Some 1%N) [])
    as (start & _ & _ & Hclosed & Hlen & _); [vm_compute; reflexivity|]. by split.
Defined.
Lemma impact_complete_witness :
  exists r, fst (@impact ascii no_bytes ex_snapshot "node:c" Incoming (Some 3%N) ex_limited None []) = Ok r /\
    impact_truncated r = false /\ bsteps (follows Incoming ex_limited (edges ex_snapshot)) 3 "node:c" "node:a".
Proof.
  eexists. split; [vm_compute; reflexivity|]. split; [reflexivity|].
  edestruct (@impact_complete ascii no_bytes ex_snapshot "node:c" Incoming (Some 3%N) ex_limited None [])
    as (start & Hstart & _ & Hall); [vm_compute; reflexivity|reflexivity|].
  vm_compute in Hstart. injection Hstart as <-. apply (Hall "node:a"%string). cbn. left.
Defined.
