(* ===== verification/ProjectionProps.v ===== *)
(** Theorems about the projections and differences of [GraphQuery] and
    [Traversal]: what a projection shows is closed under its edges, a subgraph
    that is not truncated is exact, pages follow the order of degrees, and a
    difference names exactly the ids that changed. *)
From stdpp Require Import relations pretty.
From S2P Require Import Prelude Ordering Entries RustText GraphTypes F64 GraphAlgorithms Analysis AnalysisGraph AnalysisProps Communities CommunityProps Snapshot QueryIndex GraphQuery Traversal QueryExamples QueryProps TraversalProps.
Local Open Scope nat_scope.

(** * The byte limit of a projection *)

Definition projection_closed (p : GraphProjection) : Prop :=
  forall e, e ∈ projected_edges p -> from e ∈ map node_id (projected_nodes p) /\ to e ∈ map node_id (projected_nodes p).

Lemma remove_last_split protected l l' :
  remove_last_unprotected protected l = Some l' ->
  exists l1 x l2, l = l1 ++ x :: l2 /\ l' = l1 ++ l2 /\ protected x = false.
Proof.
  revert l'. induction l as [|y l IH]; intros l'; cbn [remove_last_unprotected]; [done|].
  destruct (remove_last_unprotected protected l) as [k|].
  - intros [= <-]. destruct (IH k eq_refl) as (l1 & x & l2 & -> & -> & Hx). by exists (y :: l1), x, l2.
  - destruct (protected y) eqn:E; [done|]. intros [= <-]. by exists [], y, l.
Qed.
(** Only nodes that are not protected are removed. *)
Lemma shrink_nodes_ok fuel too_large protected l :
  shrink_nodes fuel too_large protected l `sublist_of` l /\
  (forall x, x ∈ l -> protected x = true -> x ∈ shrink_nodes fuel too_large protected l).
Proof.
  revert l. induction fuel as [|fuel IH]; intros l; cbn [shrink_nodes]; [by split|].
  destruct (too_large l); [|by split]. destruct (remove_last_unprotected protected l) as [k|] eqn:E; [|by split].
  apply remove_last_split in E as (l1 & x & l2 & -> & -> & Hx). destruct (IH (l1 ++ l2)) as [Hsub Hprot]. split.
  - etrans; [done|]. apply sublist_app; [done|]. by apply sublist_cons.
  - intros y [Hy|[->|Hy]%elem_of_cons]%elem_of_app Hp; [|congruence|]; apply Hprot; try done; apply elem_of_app; auto.
Qed.

Lemma map_sublist {A B} (f : A -> B) l k : l `sublist_of` k -> map f l `sublist_of` map f k.
Proof. induction 1; cbn; by constructor. Qed.
Lemma enforce_projection_bytes_ok `{Serialize GraphProjection} protected p :
  let out := enforce_projection_bytes protected p in
  (projection_closed p -> projection_closed out) /\
  map node_id (projected_nodes out) `sublist_of` map node_id (projected_nodes p) /\
  (forall id, id ∈ map node_id (projected_nodes p) -> id ∈ protected -> id ∈ map node_id (projected_nodes out)) /\
  length (projected_edges out) <= length (projected_edges p) /\
  next_cursor out = next_cursor p /\ projection_context out = projection_context p /\
  (projection_truncated out = false -> out = p).
Proof.
  unfold enforce_projection_bytes. destruct (_ <=? _)%N; [by split_and!|].
  set (kept_edges := pop_while_large _ (map strip_edge_excerpts _)). set (kept := shrink_nodes _ _ _ _).
  assert (kept `sublist_of` map strip_node_excerpts (projected_nodes p) /\
    forall x, x ∈ map strip_node_excerpts (projected_nodes p) -> set_contains (node_id x) protected = true -> x ∈ kept) as [Hsub Hprot]
    by apply shrink_nodes_ok.
  assert (exists n, kept_edges = take n (map strip_edge_excerpts (projected_edges p))) as [n Hn].
  { unfold kept_edges, pop_while_large. edestruct @pop_while_prefix as (n & -> & _). by exists n. }
  unfold with_graph. cbn [projected_nodes projected_edges next_cursor projection_context projection_truncated].
  split_and!; [| | | |done|done|done].
  - intros _ e. cbn [projected_nodes projected_edges]. rewrite elem_of_edges_among, !elem_of_set_of_list. tauto.
  - rewrite <- (strip_node_ids (projected_nodes p)). by apply map_sublist.
  - intros id Hid Hp. rewrite <- strip_node_ids in Hid. apply list_elem_of_fmap in Hid as (x & -> & Hx).
    apply list_elem_of_fmap. exists x. split; [done|]. apply Hprot; [done|]. by apply set_contains_true.
  - unfold edges_among. etrans; [apply List.filter_length_le|]. rewrite Hn, length_take, length_map. lia.
Qed.

(** * Subgraphs *)

Section Subgraph.
Context `{Unicode} `{Serialize GraphProjection}.

Definition subgraph_depth (depth : option N) : nat := N.to_nat (N.min (default 2%N depth) 8).
Lemma resolve_all_length snapshot seeds cache roots :
  fst (resolve_all snapshot seeds cache) = Ok roots -> length roots = length seeds.
Proof.
  revert cache roots. induction seeds as [|seed seeds IH]; intros cache roots; cbn [resolve_all]; [by intros [= <-]|].
  destruct (resolve_node snapshot seed cache) as [[node|e|w] cache1]; [|done|done].
  destruct (resolve_all snapshot seeds cache1) as [rest cache2] eqn:E. cbn [fst].
  intros (nodes & -> & [= <-])%bind_Ok. cbn. f_equal. apply (IH cache1). by rewrite E.
Qed.
Lemma resolve_all_returns snapshot seeds cache : returns (fst (resolve_all snapshot seeds cache)).
Proof.
  revert cache. induction seeds as [|seed seeds IH]; intros cache; cbn [resolve_all]; [done|].
  pose proof (resolve_node_returns snapshot seed cache) as Hret.
  destruct (resolve_node snapshot seed cache) as [[node|e|w] cache1]; [|done|done].
  specialize (IH cache1). destruct (resolve_all snapshot seeds cache1) as [rest cache2]. cbn [fst] in *.
  apply returns_bind; [done|]. by intros.
Qed.
Lemma subgraph_Ok snapshot seeds depth filter limit cache r :
  fst (subgraph snapshot seeds depth filter limit cache) = Ok r ->
  exists roots, fst (resolve_all snapshot seeds cache) = Ok roots /\
    subgraph_of snapshot roots (subgraph_depth depth) filter (bounded_limit limit) = Ok r.
Proof.
  unfold subgraph. destruct (is_nil seeds); [done|]. destruct (resolve_all snapshot seeds cache) as [resolved cache'].
  cbn [fst]. intros (roots & -> & Hr)%bind_Ok. eauto.
Qed.

Lemma subgraph_answer_nodes snapshot root_ids filter st node :
  node ∈ projected_nodes (subgraph_answer snapshot root_ids filter st) <->
  node ∈ nodes snapshot /\ node_id node ∈ seen st /\ (node_matches_filter node filter = true \/ node_id node ∈ root_ids).
Proof.
  unfold subgraph_answer. cbn [projected_nodes]. rewrite order_nodes_perm, !elem_of_filter_bool, set_contains_true, orb_true_iff.
  unfold elemb. rewrite bool_decide_eq_true. tauto.
Qed.
Lemma subgraph_answer_closed snapshot root_ids filter st : projection_closed (subgraph_answer snapshot root_ids filter st).
Proof.
  intros e. unfold subgraph_answer. cbn [projected_nodes projected_edges]. unfold sort_edges_by_id. rewrite elem_of_sort_by.
  intros (_ & _ & Hends)%walked_edges_ok. rewrite !elem_of_set_of_list in Hends. by rewrite !order_nodes_ids.
Qed.

(** A subgraph shows nodes within the depth asked for (at most 8) of the seeds,
    ignoring the direction of edges; its edges, at most 2,000, run between nodes
    it shows, whatever the byte limit drops; and if it is not marked truncated, it
    shows every known node within the depth that matches the filter or is a seed. *)
Theorem subgraph_exact snapshot seeds depth filter limit cache r :
  fst (subgraph snapshot seeds depth filter limit cache) = Ok r ->
  exists roots, fst (resolve_all snapshot seeds cache) = Ok roots /\
    projection_closed r /\ length (projected_edges r) <= MAX_EDGE_LIMIT /\
    let in_reach id := exists root, root ∈ map node_id roots /\
      bsteps (follows Both filter (edges snapshot)) (subgraph_depth depth) root id in
    (forall id, id ∈ map node_id (projected_nodes r) -> in_reach id) /\
    (projection_truncated r = false -> forall node, node ∈ projected_nodes r <->
      node ∈ nodes snapshot /\ in_reach (node_id node) /\
      (node_matches_filter node filter = true \/ node_id node ∈ map node_id roots)).
Proof.
  intros (roots & Hroots & Hr)%subgraph_Ok. exists roots. split; [done|]. unfold subgraph_of in Hr.
  destruct (subgraph_walk filter (edges snapshot) (map node_id roots) (bounded_limit limit) (subgraph_depth depth))
    as (st & Hloop & (Hsort & Hseen & Hsound & Hexact)).
  rewrite Hloop in Hr. injection Hr as Hr.
  destruct (enforce_projection_bytes_ok (set_of_list (map node_id roots)) (subgraph_answer snapshot (map node_id roots) filter st))
    as (Hclosed & Hsub & _ & Hle & _ & _ & Hsame).
  rewrite Hr in Hclosed, Hsub, Hle, Hsame. split_and!.
  - apply Hclosed, subgraph_answer_closed.
  - etrans; [exact Hle|]. unfold subgraph_answer, walked_edges, sort_edges_by_id. cbn [projected_edges].
    rewrite sort_by_length, length_take. lia.
  - intros in_reach. split.
    { intros id Hid. apply (elem_of_sublist _ _ _ Hid) in Hsub.
      apply list_elem_of_fmap in Hsub as (node & -> & (_ & Hs & _)%subgraph_answer_nodes). by apply Hsound. }
    intros Htrunc. pose proof (Hsame Htrunc) as ->. cbn [projection_truncated subgraph_answer] in Htrunc.
    apply orb_false_iff in Htrunc as [Hcut _]. intros node. rewrite subgraph_answer_nodes, (Hexact Hcut). done.
Qed.
End Subgraph.

(** * Pages of the graph *)

Section PagesOfNodes.
Context `{Serialize GraphProjection}.
Local Open Scope N_scope.

Definition page_of (ranked : list StructuralGraphNode) (limit : nat) (offset : N) : list StructuralGraphNode :=
  take limit (drop (N.to_nat offset) ranked).
Lemma project_page_ok snapshot ranked limit offset p :
  project_page snapshot ranked limit offset = Ok p ->
  let page := page_of ranked limit offset in
  offset <= len ranked /\ projection_closed p /\ (length (projected_edges p) <= MAX_EDGE_LIMIT)%nat /\
  (forall id, id ∈ map node_id (projected_nodes p) -> id ∈ map node_id page) /\
  next_cursor p = cursor_below (offset + len page) (len ranked) /\
  (projection_truncated p = false -> projected_nodes p = order_nodes page /\ offset + len page = len ranked /\
    forall e, e ∈ projected_edges p <-> e ∈ edges snapshot /\ from e ∈ map node_id page /\ to e ∈ map node_id page).
Proof.
  unfold project_page. destruct (N.ltb_spec (len ranked) offset) as [|Hle]; [done|]. fold (page_of ranked limit offset).
  set (page := page_of ranked limit offset). intros [= Hp]. cbn zeta.
  match type of Hp with enforce_projection_bytes _ ?q = _ => set (first := q) in * end.
  destruct (enforce_projection_bytes_ok [] first) as (Hclosed & Hsub & _ & Hlen & Hnext & _ & Hsame).
  rewrite Hp in Hclosed, Hsub, Hlen, Hnext, Hsame.
  assert (forall e, e ∈ projected_edges first -> e ∈ edges_among (set_of_list (map node_id page)) (edges snapshot)) as Hedges.
  { intros e. unfold first. cbn [projected_edges]. unfold sort_edges_by_id. rewrite elem_of_sort_by. apply elem_of_take_incl. }
  split_and!; [done| | | |done|].
  - apply Hclosed. intros e He%Hedges. rewrite elem_of_edges_among, !elem_of_set_of_list in He.
    unfold first. cbn [projected_nodes]. rewrite !order_nodes_ids. tauto.
  - etrans; [exact Hlen|]. unfold first, sort_edges_by_id. cbn [projected_edges]. rewrite sort_by_length, length_take. lia.
  - intros id Hid. apply (elem_of_sublist _ _ _ Hid) in Hsub. by apply order_nodes_ids.
  - intros Htrunc. pose proof (Hsame Htrunc) as ->. unfold first in *. cbn [projection_truncated projected_nodes projected_edges] in *.
    apply orb_false_iff in Htrunc as [Hmore%N.ltb_ge Hcut%Nat.ltb_ge]. split_and!; [done| |].
    + assert (len page <= len ranked - offset); [|lia]. unfold page, page_of, len. rewrite take_drop_length. lia.
    + intros e. unfold sort_edges_by_id. rewrite elem_of_sort_by, take_ge by (rewrite length_take in Hcut; lia).
      by rewrite elem_of_edges_among, !elem_of_set_of_list.
Qed.

(** An overview page shows, of the nodes in the order of their degrees, those from
    the offset its cursor names; its next cursor names the node after them, whether
    or not the byte limit dropped some; a page not marked truncated is the last
    one, with every node and every edge between them. *)
Theorem overview_page_exact snapshot limit cursor p :
  len (nodes snapshot) <= usize_max -> overview_page snapshot limit cursor = Ok p ->
  exists offset, parse_cursor cursor = Ok offset /\ offset <= len (nodes snapshot) /\
    let page := page_of (by_degree (count_degrees (edges snapshot)) (nodes snapshot)) (bounded_limit limit) offset in
    projection_closed p /\ (length (projected_edges p) <= MAX_EDGE_LIMIT)%nat /\
    (forall id, id ∈ map node_id (projected_nodes p) -> id ∈ map node_id page) /\
    match next_cursor p with
    | Some next => parse_cursor (Some next) = Ok (offset + len page) /\ offset + len page < len (nodes snapshot)
    | None => len (nodes snapshot) <= offset + len page
    end /\
    (projection_truncated p = false -> projected_nodes p = order_nodes page /\ offset + len page = len (nodes snapshot) /\
      forall e, e ∈ projected_edges p <-> e ∈ edges snapshot /\ from e ∈ map node_id page /\ to e ∈ map node_id page).
Proof.
  intros Hmem. unfold overview_page. intros (offset & Hoffset & Hp)%bind_Ok.
  set (ranked := by_degree (count_degrees (edges snapshot)) (nodes snapshot)) in *.
  assert (len ranked = len (nodes snapshot)) as Hranked by (unfold len, ranked, by_degree; by rewrite sort_by_length).
  apply project_page_ok in Hp as (Hle & Hclosed & Hedges & Hids & Hnext & Hfull). rewrite Hranked in *.
  exists offset. cbn zeta. split_and!; [done|done|done|done|done| |done].
  rewrite Hnext. unfold cursor_below. destruct (N.ltb_spec (offset + len (page_of ranked (bounded_limit limit) offset)) (len (nodes snapshot))).
  - split; [|done]. apply parse_cursor_pretty. lia.
  - done.
Qed.
End PagesOfNodes.

(** * Differences *)

Definition node_at (snapshot : StructuralGraphSnapshot) (id : string) : option StructuralGraphNode :=
  map_get id (index_by_id (nodes snapshot)).
Definition edge_at (snapshot : StructuralGraphSnapshot) (id : string) : option StructuralGraphEdge :=
  map_get id (index_edges_by_id (edges snapshot)).

Lemma map_contains_key_false {T} (m : BTreeMap string T) id : map_contains_key id m = false <-> map_get id m = None.
Proof. unfold map_contains_key. by destruct (map_get id m). Qed.

Section Diff.
Context {T : Type} `{EqDecision T} (before after : BTreeMap string T).

Lemma diff_added id :
  id ∈ fst (fst (diff_identity_maps before after)) <-> map_get id before = None /\ is_Some (map_get id after).
Proof.
  unfold diff_identity_maps, sort. cbn [fst]. rewrite elem_of_sort_by, elem_of_filter_bool, negb_true_iff, map_get_is_Some.
  rewrite map_contains_key_false. tauto.
Qed.
Lemma diff_removed id :
  id ∈ snd (fst (diff_identity_maps before after)) <-> is_Some (map_get id before) /\ map_get id after = None.
Proof.
  unfold diff_identity_maps, sort. cbn [fst snd]. rewrite elem_of_sort_by, elem_of_filter_bool, negb_true_iff, map_get_is_Some.
  rewrite map_contains_key_false. tauto.
Qed.
Lemma diff_changed id :
  map_wf after ->
  id ∈ snd (diff_identity_maps before after) <->
  exists x y, map_get id before = Some x /\ map_get id after = Some y /\ x <> y.
Proof.
  intros Hwf. unfold diff_identity_maps, sort. cbn [snd]. rewrite elem_of_sort_by, list_elem_of_fmap.
  setoid_rewrite elem_of_filter_bool. split.
  - intros ([k y] & -> & Hin & Hne). cbn [fst snd] in *. destruct (map_get k before) as [x|]; [|done].
    apply negb_true_iff, bool_decide_eq_false_1 in Hne. exists x, y. split_and!; [done| |done]. by apply map_get_Some.
  - intros (x & y & Hx & Hy & Hne). exists (id, y). cbn [fst snd]. rewrite Hx. split_and!; [done|by apply map_get_Some|].
    apply negb_true_iff. by apply bool_decide_eq_false_2.
Qed.
End Diff.

(** Every list of a difference is bounded; and one that is not marked truncated
    lists exactly the ids that only the later snapshot has, those that only the
    earlier one has, and those of both whose nodes or edges differ. *)
Theorem diff_exact before after :
  let d := diff_snapshots before after in
  Forall (fun l => length l <= MAX_DIFF_IDS) [added_node_ids d; removed_node_ids d; changed_node_ids d;
    added_edge_ids d; removed_edge_ids d; changed_edge_ids d] /\
  (diff_truncated d = false -> forall id,
    (id ∈ added_node_ids d <-> node_at before id = None /\ is_Some (node_at after id)) /\
    (id ∈ removed_node_ids d <-> is_Some (node_at before id) /\ node_at after id = None) /\
    (id ∈ changed_node_ids d <-> exists x y, node_at before id = Some x /\ node_at after id = Some y /\ x <> y) /\
    (id ∈ added_edge_ids d <-> edge_at before id = None /\ is_Some (edge_at after id)) /\
    (id ∈ removed_edge_ids d <-> is_Some (edge_at before id) /\ edge_at after id = None) /\
    (id ∈ changed_edge_ids d <-> exists x y, edge_at before id = Some x /\ edge_at after id = Some y /\ x <> y)).
Proof.
  unfold diff_snapshots.
  destruct (diff_identity_maps (index_by_id (nodes before)) (index_by_id (nodes after))) as [[added removed] changed] eqn:En.
  destruct (diff_identity_maps (index_edges_by_id (edges before)) (index_edges_by_id (edges after))) as [[eadded eremoved] echanged] eqn:Ee.
  cbn zeta. cbn [added_node_ids removed_node_ids changed_node_ids added_edge_ids removed_edge_ids changed_edge_ids diff_truncated].
  split; [rewrite !Forall_cons, Forall_nil, !length_take; lia|]. cbn [any existsb map length]. rewrite !orb_false_iff, !Nat.ltb_ge.
  intros (H1 & H2 & H3 & H4 & H5 & H6 & _) id. rewrite !take_ge by done.
  pose proof (diff_added (index_by_id (nodes before)) (index_by_id (nodes after)) id) as A1.
  pose proof (diff_removed (index_by_id (nodes before)) (index_by_id (nodes after)) id) as R1.
  pose proof (diff_changed (index_by_id (nodes before)) (index_by_id (nodes after)) id (map_of_list_wf _)) as C1.
  pose proof (diff_added (index_edges_by_id (edges before)) (index_edges_by_id (edges after)) id) as A2.
  pose proof (diff_removed (index_edges_by_id (edges before)) (index_edges_by_id (edges after)) id) as R2.
  pose proof (diff_changed (index_edges_by_id (edges before)) (index_edges_by_id (edges after)) id (map_of_list_wf _)) as C2.
  rewrite En in A1, R1, C1. rewrite Ee in A2, R2, C2. by split_and!.
Qed.

(** * Witnesses *)

Lemma subgraph_exact_witness :
  exists r, fst (@subgraph ascii no_bytes ex_snapshot ["node:a"; "node:c"]%string (Some 1%N) ex_limited None []) = Ok r /\
    projection_truncated r = false /\ projection_closed r.
Proof.
  eexists. split; [vm_compute; reflexivity|]. split; [reflexivity|].
  edestruct (@subgraph_exact ascii no_bytes ex_snapshot ["node:a"; "node:c"]%string (Some 1%N) ex_limited None [])
    as (roots & _ & Hclosed & _); [vm_compute; reflexivity|]. exact Hclosed.
Defined.
Lemma overview_page_exact_witness :
  exists p, @overview_page no_bytes ex_snapshot (Some 2%N) (Some "2"%string) = Ok p /\ projection_closed p.
Proof.
  eexists. split; [vm_compute; reflexivity|].
  edestruct (@overview_page_exact no_bytes ex_snapshot (Some 2%N) (Some "2"%string)) as (offset & _ & _ & Hclosed & _);
    [vm_compute; discriminate|vm_compute; reflexivity|]. exact Hclosed.
Defined.
