(* ===== verification/PathProps.v ===== *)
(** Theorems about [shortest_path]: it returns, what it returns is a path, and
    unless it gave up after its bound of visits, no other path costs less.  Costs
    are sums in [f64]; that rounding keeps their order is [F64Props]. *)
From S2P Require Import Prelude Ordering Entries RustText GraphTypes F64 F64Props GraphAlgorithms Analysis AnalysisGraph AnalysisProps Communities CommunityProps Snapshot QueryIndex GraphQuery Traversal QueryExamples QueryProps TraversalProps ProjectionProps.
Local Open Scope nat_scope.

(** * Costs *)

Lemma trust_cost_nonnegative trust : nonnegative (trust_cost trust).
Proof. destruct trust; by vm_compute. Qed.
Lemma zero_nonnegative : nonnegative f64_zero.
Proof. done. Qed.
Lemma infinity_nonnegative : nonnegative f64_infinity.
Proof. done. Qed.
Lemma units_infinity : units f64_infinity = INFINITY.
Proof. done. Qed.
Lemma hub_penalty_nonnegative n : nonnegative (f64_mul (f64_of_nat n) HUB_PENALTY).
Proof.
  pose proof (f64_of_nat_nonnegative n) as Hn. pose proof (units_range _ Hn) as Hr.
  assert (nonnegative HUB_PENALTY) as Hp by by vm_compute.
  assert (exists m e, HUB_PENALTY = SpecFloat.S754_finite false m e) as (m & e & E) by by vm_compute; eauto.
  assert (units HUB_PENALTY < INFINITY)%Z as Hfinite by (rewrite E in *; by apply units_lt_infinity; destruct Hp).
  destruct (Z.eq_dec (units (f64_of_nat n)) INFINITY) as [Einf|Hne].
  - rewrite <- units_infinity in Einf. apply units_inj in Einf as ->; [|done|apply infinity_nonnegative]. by rewrite E.
  - destruct (f64_mul_nonnegative (f64_of_nat n) HUB_PENALTY Hn Hp ltac:(lia) Hfinite) as (V & [? _] & _). done.
Qed.
Lemma total_cmp_units x y : nonnegative x -> nonnegative y -> f64_total_cmp x y = Z.compare (units x) (units y).
Proof.
  intros Hx Hy. unfold f64_total_cmp. rewrite SFcompare_units by done. destruct (Z.compare_spec (f64_rank x) (f64_rank y)) as [_|Hlt|Hgt]; [done|..];
    symmetry; pose proof (SFcompare_units x y Hx Hy) as Hc; destruct Hx as [Hvx Hsx], Hy as [Hvy Hsy];
    destruct x as [[]|[]| |[] mx ex]; try (exfalso; assumption); destruct y as [[]|[]| |[] my ey]; try (exfalso; assumption);
    cbn [f64_rank] in *; try lia; cbn [SpecFloat.SFcompare] in Hc; try (exfalso; lia); congruence.
Qed.

Section Costs.
Context (degree : BTreeMap string nat).

Lemma edge_cost_nonnegative c e : nonnegative c -> nonnegative (edge_cost degree c e).
Proof.
  intros Hc. unfold edge_cost. apply f64_add_nonnegative; [|apply hub_penalty_nonnegative].
  apply f64_add_nonnegative; [done|apply trust_cost_nonnegative].
Qed.
Lemma edge_cost_le c e : nonnegative c -> (units c <= units (edge_cost degree c e))%Z.
Proof.
  intros Hc. unfold edge_cost. etrans; [apply (f64_add_le c (trust_cost (edge_trust e)) Hc), trust_cost_nonnegative|].
  apply f64_add_le; [|apply hub_penalty_nonnegative]. apply f64_add_nonnegative; [done|apply trust_cost_nonnegative].
Qed.
Lemma edge_cost_mono c c' e :
  nonnegative c -> nonnegative c' -> (units c <= units c')%Z -> (units (edge_cost degree c e) <= units (edge_cost degree c' e))%Z.
Proof.
  intros Hc Hc' Hle. unfold edge_cost.
  apply f64_add_mono; [apply f64_add_nonnegative; [done|apply trust_cost_nonnegative]..|apply hub_penalty_nonnegative|].
  by apply f64_add_mono; [done|done|apply trust_cost_nonnegative|].
Qed.
(** The cost of a path, added edge by edge as the search does. *)
Definition path_cost (p : list StructuralGraphEdge) : f64 := foldl (edge_cost degree) f64_zero p.
Lemma path_cost_snoc p e : path_cost (p ++ [e]) = edge_cost degree (path_cost p) e.
Proof. unfold path_cost. by rewrite foldl_app. Qed.
Lemma path_cost_nonnegative p : nonnegative (path_cost p).
Proof. induction p as [|e p IH] using rev_ind; [done|]. rewrite path_cost_snoc. by apply edge_cost_nonnegative. Qed.
End Costs.
Create HintDb costs.
#[export] Hint Resolve path_cost_nonnegative edge_cost_nonnegative zero_nonnegative infinity_nonnegative : costs.


(** A directed path along the edges that match the filter. *)
Inductive chain (filter : GraphQueryFilter) (edges : list StructuralGraphEdge) (u : string)
    : list StructuralGraphEdge -> string -> Prop :=
  | chain_nil : chain filter edges u [] u
  | chain_snoc p e : chain filter edges u p (from e) -> e ∈ filtered filter edges -> chain filter edges u (p ++ [e]) (to e).

(** * Settled nodes *)

(** The nodes settled before [v], in a list with the latest first. *)
Fixpoint older (v : string) (settled : list string) : list string :=
  match settled with
  | [] => []
  | w :: rest => if decide (v = w) then rest else if decide (v ∈ rest) then older v rest else settled
  end.
Lemma older_sub v settled x : x ∈ older v settled -> x ∈ settled.
Proof. induction settled as [|w rest IH]; cbn [older]; [done|]. repeat case_decide; rewrite ?elem_of_cons; auto. Qed.
Lemma older_new v settled : v ∉ settled -> older v settled = settled.
Proof. destruct settled as [|w rest]; cbn [older]; [done|]. rewrite not_elem_of_cons. intros [? ?]. by rewrite !decide_False. Qed.
Lemma older_cons v w settled x : w ∉ settled -> x ∈ older v settled -> x ∈ older v (w :: settled).
Proof.
  intros Hw Hx. cbn [older]. destruct (decide (v = w)) as [->|]; [by rewrite older_new in Hx|].
  case_decide; [done|]. right. by apply older_sub in Hx.
Qed.

Section Search.
Context (filter : GraphQueryFilter) (edges : list StructuralGraphEdge) (start target : string).
Abbreviation degree := (count_degrees (filtered filter edges)).
Abbreviation cost_of := (path_cost degree).
Abbreviation path := (chain filter edges start).

(** The distances and the tree of [previous]. *)
Record tree (settled : list string) (st : path_search) : Prop := {
  tree_distance : map_wf (distance st);
  tree_previous : map_wf (previous st);
  tree_nodup : NoDup settled;
  tree_start : map_get start (distance st) = Some f64_zero;
  tree_settled : forall v, v ∈ settled -> is_Some (map_get v (distance st));
  tree_path : forall v c, map_get v (distance st) = Some c -> exists p, path p v /\ cost_of p = c;
  tree_prev : forall v c, v <> start -> map_get v (distance st) = Some c -> exists e d,
    e ∈ filtered filter edges /\ to e = v /\ map_get v (previous st) = Some (from e, edge_id e) /\
    map_get (from e) (distance st) = Some d /\ c = edge_cost degree d e /\ from e ∈ older v settled
}.
(** The heap against the settled nodes and the edges already relaxed. *)
Record frontier (settled : list string) (relaxed : list StructuralGraphEdge) (bound : Z) (st : path_search) : Prop := {
  frontier_sorted : StronglySorted (fun x y => units (cost x) <= units (cost y))%Z (heap st);
  frontier_heap : forall h, h ∈ heap st -> nonnegative (cost h) /\ (bound <= units (cost h))%Z /\
    exists c, map_get (visit_node_id h) (distance st) = Some c /\ (units c <= units (cost h))%Z;
  frontier_open : forall v c, map_get v (distance st) = Some c ->
    v ∈ settled \/ exists h, h ∈ heap st /\ visit_node_id h = v /\ cost h = c;
  frontier_bound : forall v c, v ∈ settled -> map_get v (distance st) = Some c -> (units c <= bound)%Z;
  frontier_relaxed : forall e, e ∈ relaxed -> exists c, map_get (from e) (distance st) = Some c /\ from e ∈ settled /\
    (units (distance_of st (to e)) <= units (edge_cost degree c e))%Z
}.
Lemma tree_nonnegative settled st v c : tree settled st -> map_get v (distance st) = Some c -> nonnegative c.
Proof. intros Ht Hc. destruct (tree_path _ _ Ht v c Hc) as (p & _ & <-). apply path_cost_nonnegative. Qed.
Lemma distance_nonnegative settled st v : tree settled st -> nonnegative (distance_of st v).
Proof.
  intros Ht. unfold distance_of. destruct (map_get v (distance st)) as [c|] eqn:E; cbn [default]; [|apply infinity_nonnegative].
  by eapply tree_nonnegative.
Qed.

Lemma visit_cmp_units x y : nonnegative (cost x) -> nonnegative (cost y) ->
  match PathVisit_cmp y x with Gt => units (cost y) <= units (cost x) | _ => units (cost x) <= units (cost y) end%Z.
Proof.
  intros Hx Hy. unfold PathVisit_cmp. rewrite total_cmp_units by done.
  destruct (Z.compare_spec (units (cost x)) (units (cost y))); cbn [then_with]; [destruct (cmp _ _)| |]; lia.
Qed.
Lemma heap_push_sorted h l :
  nonnegative (cost h) -> (forall x, x ∈ l -> nonnegative (cost x)) ->
  StronglySorted (fun x y => units (cost x) <= units (cost y))%Z l ->
  StronglySorted (fun x y => units (cost x) <= units (cost y))%Z (heap_push h l).
Proof.
  intros Hh Hl Hsort. unfold heap_push. induction Hsort as [|x l Hsort IH Hx]; cbn [sort_insert]; [repeat constructor|].
  pose proof (visit_cmp_units h x Hh (Hl x ltac:(left))) as Hcmp. destruct (PathVisit_cmp x h).
  - constructor; [by constructor|]. constructor; [done|]. eapply Forall_impl; [exact Hx|]. cbn. lia.
  - constructor; [by constructor|]. constructor; [done|]. eapply Forall_impl; [exact Hx|]. cbn. lia.
  - constructor; [apply IH; intros; apply Hl; by right|]. rewrite sort_insert_perm. by constructor.
Qed.
Lemma elem_of_heap_push x h l : x ∈ heap_push h l <-> x = h \/ x ∈ l.
Proof. unfold heap_push. by rewrite sort_insert_perm, elem_of_cons. Qed.

(** Relaxing an edge of the node settled last. *)
Lemma relax_ok settled relaxed st current e :
  tree settled st -> frontier settled relaxed (units (cost current)) st ->
  visit_node_id current ∈ settled -> map_get (visit_node_id current) (distance st) = Some (cost current) ->
  e ∈ filtered filter edges -> from e = visit_node_id current ->
  let st' := relax degree current st e in
  tree settled st' /\ frontier settled (e :: relaxed) (units (cost current)) st' /\
  map_get (visit_node_id current) (distance st') = Some (cost current) /\ visits st' = visits st /\ finished st' = finished st.
Proof.
  intros Ht Hf Hcur Hdist He Hfrom. unfold relax. set (next := edge_cost degree (cost current) e).
  assert (nonnegative (cost current)) as Hnn by by eapply tree_nonnegative.
  assert (nonnegative next) as Hnext by by apply edge_cost_nonnegative.
  assert (units (cost current) <= units next)%Z as Hle by by apply edge_cost_le.
  rewrite f64_ltb_units by eauto using distance_nonnegative.
  destruct (Z.ltb_spec (units next) (units (distance_of st (to e)))) as [Hlt|Hge].
  2: { split_and!; [done| |done|done|done]. destruct Hf as [F1 F2 F3 F4 F5]. constructor; [done..|].
    intros e' [->|He']%elem_of_cons; [|by apply F5]. exists (cost current). rewrite Hfrom. by split_and!. }
  destruct Ht as [T1 T2 T3 T4 T5 T6 T7], Hf as [F1 F2 F3 F4 F5].
  assert (to e ∉ settled) as Hnew.
  { intros Hin. destruct (T5 _ Hin) as [c Hc]. unfold distance_of in Hlt. rewrite Hc in Hlt. cbn [default] in Hlt.
    specialize (F4 _ _ Hin Hc). unfold id in Hlt. lia. }
  assert (to e <> start) as Hstart.
  { intros E. unfold distance_of in Hlt. rewrite E, T4 in Hlt. cbn in Hlt. pose proof (units_range next Hnext). lia. }
  assert (forall v, v ∈ settled -> map_get v (map_insert (to e) next (distance st)) = map_get v (distance st)) as Hsame.
  { intros v Hv. apply map_get_insert_ne; [done|]. by intros ->. }
  assert (forall v, (units (default f64_infinity (map_get v (map_insert (to e) next (distance st)))) <= units (distance_of st v))%Z) as Hless.
  { intros v. destruct (decide (v = to e)) as [->|Hne].
    - rewrite map_get_insert_eq by done. change (units next <= units (distance_of st (to e)))%Z. lia.
    - by rewrite map_get_insert_ne. }
  split_and!; [| |by rewrite Hsame|done|done].
  - constructor; cbn [distance previous].
    + by apply map_insert_wf.
    + by apply map_insert_wf.
    + done.
    + by rewrite map_get_insert_ne.
    + intros v Hv. rewrite Hsame by done. by apply T5.
    + intros v c Hv. destruct (decide (v = to e)) as [->|Hne].
      * rewrite map_get_insert_eq in Hv by done. injection Hv as <-. destruct (T6 _ _ Hdist) as (p & Hp & Ec).
        exists (p ++ [e]). split; [apply chain_snoc; [by rewrite Hfrom|done]|]. by rewrite path_cost_snoc, Ec.
      * rewrite map_get_insert_ne in Hv by done. by apply T6.
    + intros v c Hv Hc. destruct (decide (v = to e)) as [->|Hne].
      * rewrite map_get_insert_eq in Hc by done. injection Hc as <-. exists e, (cost current).
        rewrite map_get_insert_eq, Hfrom, Hsame, older_new by done. by split_and!.
      * rewrite map_get_insert_ne in Hc by done. destruct (T7 v c Hv Hc) as (e' & d & He' & Hto & Hprev & Hd & Ec & Hold).
        exists e', d. rewrite map_get_insert_ne, Hsame by (done || by apply older_sub in Hold). by split_and!.
  - constructor; cbn [distance heap].
    + apply heap_push_sorted; [done| |done]. intros x Hx. by apply F2.
    + intros h [->|Hh]%elem_of_heap_push; cbn [visit_node_id cost].
      * split_and!; [done|done|]. exists next. by rewrite map_get_insert_eq.
      * destruct (F2 h Hh) as (Hnn' & Hb & c & Hc & Hcc). split_and!; [done|done|].
        specialize (Hless (visit_node_id h)). unfold distance_of in Hless. rewrite Hc in Hless. cbn [default] in Hless.
        destruct (decide (visit_node_id h = to e)) as [E|Hne].
        -- exists next. rewrite E in *. rewrite map_get_insert_eq in * by done. cbn [default] in Hless. unfold id in Hless.
           split; [done|lia].
        -- exists c. by rewrite map_get_insert_ne.
    + intros v c Hv. destruct (decide (v = to e)) as [->|Hne].
      * rewrite map_get_insert_eq in Hv by done. injection Hv as <-. right.
        exists {| visit_node_id := to e; cost := next |}. by rewrite elem_of_heap_push; auto.
      * rewrite map_get_insert_ne in Hv by done. destruct (F3 v c Hv) as [|(h & Hh & Hid & Hc)]; [by left|right].
        exists h. rewrite elem_of_heap_push. by auto.
    + intros v c Hv. rewrite Hsame by done. by apply F4.
    + intros e' [->|He']%elem_of_cons.
      * exists (cost current). rewrite Hfrom, Hsame by done. split_and!; [done|done|]. unfold distance_of. cbn [distance].
        rewrite map_get_insert_eq by done. done.
      * destruct (F5 e' He') as (c & Hc & Hin & Hcc). exists c. rewrite Hsame by done. split_and!; [done|done|].
        specialize (Hless (to e')). unfold distance_of at 1. cbn [distance]. lia.
Qed.
Lemma relax_all_ok settled relaxed st current es :
  tree settled st -> frontier settled relaxed (units (cost current)) st ->
  visit_node_id current ∈ settled -> map_get (visit_node_id current) (distance st) = Some (cost current) ->
  (forall e, e ∈ es -> e ∈ filtered filter edges /\ from e = visit_node_id current) ->
  let st' := foldl (relax degree current) st es in
  tree settled st' /\ frontier settled (reverse es ++ relaxed) (units (cost current)) st' /\
  visits st' = visits st /\ finished st' = finished st.
Proof.
  revert relaxed st. induction es as [|e es IH]; intros relaxed st Ht Hf Hcur Hdist Hes; cbn [foldl]; [done|].
  destruct (Hes e ltac:(left)) as [He Hfrom].
  destruct (relax_ok settled relaxed st current e Ht Hf Hcur Hdist He Hfrom) as (Ht' & Hf' & Hdist' & Hv & Hfin).
  destruct (IH (e :: relaxed) _ Ht' Hf' Hcur Hdist') as (? & ? & Hv' & Hfin'); [intros; apply Hes; by right|].
  rewrite reverse_cons, <- app_assoc. cbn [app]. split_and!; [done|done|congruence|congruence].
Qed.

(** * The loop *)

Record searching (settled : list string) (st : path_search) : Prop := {
  search_tree : tree settled st;
  search_frontier : exists relaxed bound, frontier settled relaxed bound st /\
    forall e, e ∈ filtered filter edges -> from e ∈ settled -> e ∈ relaxed
}.
(** No path to the target costs less than the distance found. *)
Definition optimal (st : path_search) : Prop :=
  forall p, path p target -> (units (distance_of st target) <= units (cost_of p))%Z.
Definition search_ok (st : path_search) : Prop := exists settled,
  tree settled st /\ (finished st = false -> searching settled st) /\
  (finished st = true -> (visits st < MAX_PATH_VISITS)%N -> optimal st).

(** A path ends at a settled node, or what is still queued costs no more. *)
Lemma frontier_covers settled st p x :
  searching settled st -> path p x ->
  (units (cost_of p) = INFINITY \/ (x ∈ settled /\ units (distance_of st x) <= units (cost_of p)) \/
   exists h, h ∈ heap st /\ units (cost h) <= units (cost_of p))%Z.
Proof.
  intros [Ht (relaxed & bound & Hf & Hall)] Hp. destruct Hf as [F1 F2 F3 F4 F5].
  induction Hp as [|p e Hp IH He].
  { destruct (F3 _ _ (tree_start _ _ Ht)) as [Hs|(h & Hh & _ & Hc)]; right.
    - left. split; [done|]. unfold distance_of. by rewrite (tree_start _ _ Ht).
    - right. exists h. by rewrite Hc. }
  rewrite path_cost_snoc. assert (nonnegative (cost_of p)) as Hnn by apply path_cost_nonnegative.
  pose proof (edge_cost_le degree (cost_of p) e Hnn) as Hle. pose proof (units_range _ (edge_cost_nonnegative degree (cost_of p) e Hnn)) as Hrange.
  destruct IH as [IH|[[Hin IH]|(h & Hh & IH)]].
  - left. lia.
  - destruct (F5 e (Hall e He Hin)) as (c & Hc & _ & Hcc). unfold distance_of in IH. rewrite Hc in IH. cbn in IH.
    assert (units (edge_cost degree c e) <= units (edge_cost degree (cost_of p) e))%Z as Hmono
      by (apply edge_cost_mono; [by eapply tree_nonnegative|done|done]).
    unfold distance_of in *. destruct (map_get (to e) (distance st)) as [d|] eqn:Hd; cbn [default] in *; unfold id in *.
    + destruct (F3 _ _ Hd) as [|(h & Hh & _ & Eh)]; right; [left; split; [done|lia]|right].
      exists h. split; [done|]. rewrite Eh. lia.
    + left. rewrite units_infinity in Hcc. lia.
  - right. right. exists h. split; [done|lia].
Qed.

(** Taking the cheapest visit off the heap. *)
Definition popped (st : path_search) (rest : list PathVisit) (visits : N) (finished : bool) : path_search := {|
  heap := rest; distance := distance st; previous := previous st; visits := visits; finished := finished |}.
Lemma popped_tree settled st rest n b : tree settled st -> tree settled (popped st rest n b).
Proof. by intros []. Qed.
Lemma pop_stale settled relaxed bound st current rest n b :
  heap st = current :: rest -> frontier settled relaxed bound st ->
  (forall c, map_get (visit_node_id current) (distance st) = Some c -> c <> cost current) ->
  frontier settled relaxed bound (popped st rest n b).
Proof.
  intros Hheap [F1 F2 F3 F4 F5] Hstale. rewrite Hheap in *. constructor; cbn [heap distance popped]; [|..|done|done].
  - by apply StronglySorted_inv in F1 as [? _].
  - intros h Hh. apply F2. by right.
  - intros v c Hc. destruct (F3 v c Hc) as [|(h & [->|Hh]%elem_of_cons & <- & <-)]; [by left| |right; eauto].
    by destruct (Hstale (cost current) Hc).
Qed.
Lemma pop_settled settled relaxed bound st current rest n b :
  heap st = current :: rest -> tree settled st -> frontier settled relaxed bound st ->
  map_get (visit_node_id current) (distance st) = Some (cost current) ->
  exists settled', (forall v, v ∈ settled' <-> v = visit_node_id current \/ v ∈ settled) /\
    tree settled' (popped st rest n b) /\ frontier settled' relaxed (units (cost current)) (popped st rest n b).
Proof.
  intros Hheap Ht [F1 F2 F3 F4 F5] Hdist. rewrite Hheap in *.
  exists (if decide (visit_node_id current ∈ settled) then settled else visit_node_id current :: settled).
  set (settled' := if decide _ then _ else _).
  assert (forall v, v ∈ settled' <-> v = visit_node_id current \/ v ∈ settled) as Hin.
  { intros v. unfold settled'. case_decide; [|by rewrite elem_of_cons]. split; [by right|]. by intros [->|]. }
  destruct (F2 current ltac:(left)) as (Hnn & Hb & _). split_and!; [done| |].
  - destruct Ht as [T1 T2 T3 T4 T5 T6 T7]. constructor; cbn [distance previous popped]; [done|done| |done| |done|].
    + unfold settled'. case_decide; [done|]. by constructor.
    + intros v [->|Hv]%Hin; [by eexists|auto].
    + intros v c Hv Hc. destruct (T7 v c Hv Hc) as (e & d & ? & ? & ? & ? & ? & Hold). exists e, d. split_and!; try done.
      unfold settled'. case_decide; [done|]. by apply older_cons.
  - apply StronglySorted_inv in F1 as [F1 Hmin]. rewrite Forall_forall in Hmin. constructor; cbn [distance heap popped].
    + done.
    + intros h Hh. destruct (F2 h ltac:(by right)) as (? & _ & ?). split_and!; [done|by apply Hmin|done].
    + intros v c Hc. rewrite Hin. destruct (F3 v c Hc) as [|(h & [->|Hh]%elem_of_cons & <- & <-)]; [auto..|right; eauto].
    + intros v c [->|Hv]%Hin Hc; [rewrite Hdist in Hc; by injection Hc as <-|]. specialize (F4 v c Hv Hc). lia.
    + intros e He. destruct (F5 e He) as (c & Hc & Hs & Hcc). exists c. rewrite Hin. auto.
Qed.

Lemma search_step st next :
  search_ok st -> path_step (path_adjacency filter edges) degree target st = Some next ->
  exists st', next = Ok st' /\ search_ok st' /\
    N.to_nat (if finished st' then 0 else 1 + (MAX_PATH_VISITS - visits st')) <
    N.to_nat (if finished st then 0 else 1 + (MAX_PATH_VISITS - visits st)).
Proof.
  intros (settled & Ht & Hsearch & _). unfold path_step. destruct (finished st) eqn:Efin; [done|]. specialize (Hsearch eq_refl).
  destruct (heap st) as [|current rest] eqn:Hheap; [done|]. intros [= <-]. eexists. split; [reflexivity|].
  fold (popped st rest (visits st) true) (popped st rest (visits st + 1) true) (popped st rest (visits st + 1) false).
  destruct Hsearch as [_ (relaxed & bound & Hf & Hall)].
  destruct (frontier_heap _ _ _ _ Hf current ltac:(rewrite Hheap; left)) as (Hnn & Hb & c & Hc & Hle).
  destruct (N.leb_spec MAX_PATH_VISITS (visits st)) as [Hmax|Hmax].
  { split; [|cbn [finished popped]; lia]. exists settled. split_and!; [by apply popped_tree|done|]. cbn [visits popped]. lia. }
  destruct (seqb (visit_node_id current) target) eqn:Etarget.
  { split; [|cbn [finished popped]; lia]. apply bool_decide_eq_true_1 in Etarget.
    exists settled. split_and!; [by apply popped_tree|done|]. intros _ _ p Hp. unfold distance_of. cbn [distance popped].
    destruct (frontier_covers settled st p target) as [Hinf|[[_ Hin]|(h & Hh & Hcost)]]; [by constructor; eauto|done| | |].
    - rewrite Hinf. apply units_range. by eapply distance_nonnegative.
    - done.
    - rewrite <- Etarget, Hc. cbn. etrans; [exact Hle|]. etrans; [|exact Hcost]. rewrite Hheap in Hh.
      apply elem_of_cons in Hh as [->|Hh]; [done|]. pose proof (frontier_sorted _ _ _ _ Hf) as Hsort. rewrite Hheap in Hsort.
      apply StronglySorted_inv in Hsort as [_ Hmin]. rewrite Forall_forall in Hmin. by apply Hmin. }
  destruct (f64_ltb (distance_of st (visit_node_id current)) (cost current)) eqn:Estale.
  { split; [|cbn [finished visits popped]; lia]. exists settled. split_and!; [by apply popped_tree| |done].
    intros _. constructor; [by apply popped_tree|]. exists relaxed, bound. split; [|done]. apply (pop_stale _ _ _ _ current); [done..|].
    intros c' Hc' ->. rewrite f64_ltb_units in Estale by eauto using distance_nonnegative.
    unfold distance_of in Estale. rewrite Hc' in Estale. cbn in Estale. lia. }
  assert (c = cost current) as ->.
  { rewrite f64_ltb_units in Estale by eauto using distance_nonnegative. unfold distance_of in Estale. rewrite Hc in Estale.
    apply Z.ltb_ge in Estale. apply units_inj; [by eapply tree_nonnegative|done|]. cbn in Estale. lia. }
  destruct (pop_settled settled relaxed bound st current rest (visits st + 1) false Hheap Ht Hf Hc) as (settled' & Hin & Ht' & Hf').
  destruct (relax_all_ok settled' relaxed _ current (edges_at (path_adjacency filter edges) (visit_node_id current)) Ht' Hf')
    as (Ht2 & Hf2 & Hvisits & Hfin); [apply Hin; by left|done|by intros e He%path_edges_at|].
  split; [|rewrite Hfin, Hvisits; cbn [finished visits popped]; lia].
  exists settled'. split_and!; [done| |rewrite Hfin; done]. intros _. constructor; [done|]. eexists _, _. split; [exact Hf2|].
  intros e He [Hfrom|Hold]%Hin; apply elem_of_app; [left|right; auto]. apply elem_of_reverse, path_edges_at. done.
Qed.

Definition first_search : path_search := {|
  heap := [{| visit_node_id := start; cost := f64_zero |}]; distance := map_insert start f64_zero [];
  previous := []; visits := 0; finished := false |}.
Lemma first_search_ok : search_ok first_search.
Proof.
  assert (forall v c, map_get v (distance first_search) = Some c -> v = start /\ c = f64_zero) as Hone.
  { intros v c. unfold first_search. cbn [distance]. destruct (decide (v = start)) as [->|Hne].
    - rewrite map_get_insert_eq by constructor. by intros [= <-].
    - by rewrite map_get_insert_ne by (done || constructor). }
  assert (tree [] first_search) as Ht.
  { constructor; [by apply map_insert_wf; constructor|constructor|constructor| | | |].
    - unfold first_search. cbn [distance]. rewrite map_get_insert_eq by constructor. done.
    - by intros v ?%not_elem_of_nil.
    - intros v c [-> ->]%Hone. exists []. split; [constructor|done].
    - intros v c Hv [-> _]%Hone. done. }
  exists []. split_and!; [done| |done]. intros _. constructor; [done|]. exists [], 0%Z. split; [|by intros e _ ?%not_elem_of_nil].
  constructor; cbn [heap first_search].
  - repeat constructor.
  - intros h ->%list_elem_of_singleton. cbn [cost visit_node_id]. split_and!; [done|done|]. exists f64_zero. split; [|done].
    apply (tree_start _ _ Ht).
  - intros v c [-> ->]%Hone. right. exists {| visit_node_id := start; cost := f64_zero |}. split; [left|done].
  - by intros v c ?%not_elem_of_nil.
  - by intros e ?%not_elem_of_nil.
Qed.
(** The search ends; its tree stands, and within the visits its distance is the least. *)
Lemma search_ends :
  exists st settled, loop path_fuel (path_step (path_adjacency filter edges) degree target) first_search = Ok st /\
    tree settled st /\ ((visits st < MAX_PATH_VISITS)%N -> optimal st).
Proof.
  destruct (loop_ends search_ok (fun st => N.to_nat (if finished st then 0 else 1 + (MAX_PATH_VISITS - visits st)))
    (path_step (path_adjacency filter edges) degree target) path_fuel first_search) as (st & Hloop & (settled & Ht & Hsearch & Hdone) & Hnone).
  - intros s next Hs. by apply search_step.
  - apply first_search_ok.
  - cbn [finished first_search visits]. unfold path_fuel. lia.
  - exists st, settled. split_and!; [done|done|]. destruct (finished st) eqn:Efin; [auto|]. intros _ p Hp.
    unfold path_step in Hnone. rewrite Efin in Hnone. destruct (heap st) as [|current rest] eqn:Hheap; [|done].
    destruct (frontier_covers settled st p target (Hsearch eq_refl) Hp) as [Hinf|[[_ Hin]|(h & Hh & _)]]; [|done|].
    + rewrite Hinf. apply units_range. by eapply distance_nonnegative.
    + rewrite Hheap in Hh. by apply not_elem_of_nil in Hh.
Qed.
End Search.

(** * Reading the path back *)

Lemma older_bounds v settled : NoDup settled -> v ∉ older v settled /\ NoDup (older v settled).
Proof.
  induction settled as [|w rest IH]; cbn [older]; [split; [apply not_elem_of_nil|constructor]|].
  rewrite NoDup_cons. intros [Hw Hnd]. repeat case_decide; subst; [done|auto|].
  split; [by rewrite elem_of_cons; intros [|]|by constructor].
Qed.
Lemma older_older u v settled : NoDup settled -> u ∈ older v settled -> forall x, x ∈ older u settled -> x ∈ older v settled.
Proof.
  induction settled as [|w rest IH]; cbn [older]; [done|]. rewrite NoDup_cons. intros [Hw Hnd] Hu x.
  destruct (decide (v = w)) as [->|Hvw].
  - rewrite (decide_False (P := u = w)) by (by intros ->). rewrite decide_True by done. apply older_sub.
  - destruct (decide (v ∈ rest)) as [Hv|Hv].
    + pose proof (older_sub _ _ _ Hu). rewrite (decide_False (P := u = w)) by (by intros ->). rewrite decide_True by done. by apply IH.
    + apply elem_of_cons in Hu as [->|Hu].
      * rewrite decide_True by done. intros; by right.
      * rewrite (decide_False (P := u = w)) by (by intros ->). rewrite decide_True by done.
        intros Hx%older_sub. by right.
Qed.

Section Reconstruct.
Context (filter : GraphQueryFilter) (edges : list StructuralGraphEdge) (start : string).
Context (settled : list string) (st : path_search) (Htree : tree filter edges start settled st).

(** The turns the walk back from [v] takes at most. *)
Definition turns (v : string) : nat :=
  if decide (v = start) then 0 else S (length (List.filter (fun u => negb (seqb u start)) (older v settled))).
Lemma not_start u l : u ∈ List.filter (fun u => negb (seqb u start)) l <-> u ∈ l /\ u <> start.
Proof. rewrite elem_of_filter_bool, negb_true_iff. unfold seqb. by rewrite bool_decide_eq_false. Qed.
Lemma turns_decrease u v : v <> start -> u ∈ older v settled -> turns u < turns v.
Proof.
  intros Hv Hu. unfold turns at 2. rewrite decide_False by done. unfold turns. case_decide as Hus; [lia|].
  pose proof (tree_nodup _ _ _ _ _ Htree) as Hnd. destruct (older_bounds u settled Hnd) as [Hnin Hndu].
  apply le_n_S. change (length (u :: List.filter (fun u => negb (seqb u start)) (older u settled)) <=
    length (List.filter (fun u => negb (seqb u start)) (older v settled))).
  apply submseteq_length, NoDup_submseteq.
  - constructor; [rewrite not_start; tauto|by apply filter_bool_NoDup].
  - intros x [->|[Hx Hne]%not_start]%elem_of_cons; apply not_start; [done|]. split; [|done].
    by eapply older_older.
Qed.
Lemma turns_bound v c : map_get v (distance st) = Some c -> turns v <= length (previous st).
Proof.
  intros Hc. unfold turns. case_decide as Hv; [lia|]. destruct Htree as [T1 T2 T3 T4 T5 T6 T7].
  assert (forall u c, u <> start -> map_get u (distance st) = Some c -> u ∈ map_keys (previous st)) as Hkeys.
  { intros u c' Hu Hc'. apply map_get_is_Some. destruct (T7 u c' Hu Hc') as (e & d & _ & _ & -> & _). done. }
  replace (length (previous st)) with (length (map_keys (previous st))) by (unfold map_keys; apply length_map).
  destruct (older_bounds v settled T3) as [Hnin Hnd].
  change (length (v :: List.filter (fun u => negb (seqb u start)) (older v settled)) <= length (map_keys (previous st))).
  apply submseteq_length, NoDup_submseteq.
  - constructor; [rewrite not_start; tauto|by apply filter_bool_NoDup].
  - intros x [->|[Hx Hne]%not_start]%elem_of_cons; [by eapply Hkeys|].
    destruct (T5 x (older_sub _ _ _ Hx)) as [c' Hc']. by eapply Hkeys.
Qed.
Lemma reconstruct_ok fuel v c ns es :
  map_get v (distance st) = Some c -> turns v <= fuel ->
  exists p, chain filter edges start p v /\ path_cost (count_degrees (filtered filter edges)) p = c /\
    reconstruct fuel (previous st) start v (v :: ns) es = Ok ((start :: map to p) ++ ns, map edge_id p ++ es).
Proof.
  revert v c ns es. induction fuel as [|fuel IH]; intros v c ns es Hc Hfuel; cbn [reconstruct]; unfold seqb.
  - assert (v = start) as ->. { unfold turns in Hfuel. case_decide; [done|lia]. }
    rewrite (tree_start _ _ _ _ _ Htree) in Hc. injection Hc as <-. exists []. rewrite bool_decide_eq_true_2 by done.
    split_and!; [constructor|done|done].
  - case_bool_decide as Hv.
    + subst v. rewrite (tree_start _ _ _ _ _ Htree) in Hc. injection Hc as <-. exists []. split_and!; [constructor|done|done].
    + destruct (tree_prev _ _ _ _ _ Htree v c Hv Hc) as (e & d & He & Hto & -> & Hd & -> & Hold). cbn [ok_or mbind outcome_bind fst snd].
      destruct (IH (from e) d (v :: ns) (edge_id e :: es) Hd) as (p & Hp & <- & ->); [pose proof (turns_decrease _ _ Hv Hold); lia|].
      exists (p ++ [e]). rewrite path_cost_snoc, !map_app, <- Hto. cbn [map app].
      rewrite <- !app_assoc. cbn [app]. split_and!; [by constructor|done|done].
Qed.
End Reconstruct.

(** * [shortest_path] *)




Section ShortestPath.
Context `{Unicode} `{Serialize GraphPathResult}.
Abbreviation costs snapshot filter := (path_cost (count_degrees (filtered filter (edges snapshot)))).





(** C18: The queries that walk the graph return: no loop runs on, nothing panics. *)
Theorem walks_return `{Serialize GraphProjection} `{Serialize GraphImpactResult} snapshot seeds from to direction depth filter limit cache :
  returns (fst (shortest_path snapshot from to filter cache)) /\
  returns (fst (impact snapshot from direction depth filter limit cache)) /\
  returns (fst (subgraph snapshot seeds depth filter limit cache)).
Proof.
  split_and!.
  - unfold shortest_path. pose proof (resolve_node_returns snapshot from cache) as Hret.
    destruct (resolve_node snapshot from cache) as [[start|e|w] cache1]; [|done|done].
    pose proof (resolve_node_returns snapshot to cache1) as Hret2. destruct (resolve_node snapshot to cache1) as [target cache2].
    cbn [fst] in *. apply returns_bind; [done|]. intros t _. unfold shortest_path_of, seqb. case_bool_decide; [done|].
    fold (first_search (node_id start)). fold (filtered filter (edges snapshot)).
    destruct (search_ends filter (edges snapshot) (node_id start) (node_id t)) as (st & settled & -> & Ht & _).
    cbn [mbind outcome_bind]. destruct (map_get (node_id t) (distance st)) as [c|] eqn:Hc; [|done]. cbn [ok_or mbind outcome_bind].
    destruct (reconstruct_ok _ _ _ _ _ Ht (length (previous st)) (node_id t) c [] [] Hc (turns_bound _ _ _ _ _ Ht _ _ Hc)) as (p & _ & _ & ->).
    cbn [mbind outcome_bind]. unfold enforce_path_bytes. by repeat case_match.
  - unfold impact. pose proof (resolve_node_returns snapshot from cache) as Hret.
    destruct (resolve_node snapshot from cache) as [start cache1]. cbn [fst] in *. apply returns_bind; [done|]. intros node _.
    edestruct impact_of_Ok as (st & -> & _). done.
  - unfold subgraph. destruct (is_nil seeds); [done|]. pose proof (resolve_all_returns snapshot seeds cache) as Hret.
    destruct (resolve_all snapshot seeds cache) as [roots cache1]. cbn [fst] in *. apply returns_bind; [done|]. intros nodes _.
    unfold subgraph_of. edestruct subgraph_walk as (st & -> & _). done.
Qed.
End ShortestPath.

(** * Witnesses *)

