(* ===== verification/Paths.v ===== *)
(** Rust's [std::path] on Unix, as the graph uses it.

    A [Path] is the list of its [components], which is what its equality
    compares; [parent], [join] and [file_stem] are the methods of those names.
    [normalize_path] is the function of that name in
    [src/crates/codevetter-core/src/commands/structural_graph/resolve.rs]: it
    resolves [.] and [..] in the text.  Its result is the normal form of a
    relative path, and normalizing it again changes nothing. *)
From S2P Require Import Prelude Ordering RustText Utf8.
Local Open Scope N_scope.

Inductive Component : Type := RootDir | CurDir | ParentDir | Normal (name : string).
#[export] Instance Component_eq_dec : EqDecision Component.
Proof. solve_decision. Defined.
Definition Path : Type := list Component.

Definition component_of (piece : string) : option Component :=
  if is_empty piece || seqb piece "." then None
  else Some (if seqb piece ".." then ParentDir else Normal piece).
(** [Path::new(s).components()] *)
Definition components (s : string) : Path :=
  let pieces := split (N.eqb 47) s in
  (if is_absolute_path s then [RootDir]
   else match pieces with first :: _ => when (seqb first ".") CurDir | [] => [] end)
  ++ omap component_of pieces.
Definition parent (p : Path) : option Path :=
  match last p with
  | None | Some RootDir => None
  | Some _ => Some (removelast p)
  end.
Definition drop_cur_dir (p : Path) : Path := match p with CurDir :: p => p | _ => p end.
(** [dir.join(target)] *)
Definition join (dir : Path) (target : string) : Path :=
  if is_absolute_path target then components target
  else match dir with
  | [] => components target
  | _ => dir ++ drop_cur_dir (components target)
  end.
(** The stem of a file name: the text before its last dot, unless nothing is
    before it. *)
Definition stem_of (name : string) : string :=
  match reverse (split (N.eqb 46) name) with
  | _ :: before => let stem := String.concat "." (reverse before) in if is_empty stem then name else stem
  | [] => name
  end.
Definition file_name (p : Path) : option string :=
  match last p with Some (Normal name) => Some name | _ => None end.
Definition file_stem (p : Path) : option string := stem_of <$> file_name p.

Definition normalize_component (names : list string) (c : Component) : list string :=
  match c with
  | ParentDir => removelast names
  | Normal name => names ++ [name]
  | CurDir | RootDir => names
  end.
Definition normalize_path (p : Path) : string := String.concat "/" (foldl normalize_component [] p).

Example ex_paths :
  map components ["/a//b/"; "./a/./.."; "a/../b"; ""]%string =
    [[RootDir; Normal "a"; Normal "b"]; [CurDir; Normal "a"; ParentDir];
     [Normal "a"; ParentDir; Normal "b"]; []]%string /\
  map (fun s => file_stem (components s)) ["src/user.test.ts"; ".bashrc"; "src/.."; "a."; "Makefile"]%string =
    [Some "user.test"; Some ".bashrc"; None; Some "a"; Some "Makefile"]%string /\
  normalize_path (join (components "src/lib") "../util/./x.ts") = "src/util/x.ts"%string /\
  normalize_path (join (components "docs") "/guide.md") = "guide.md"%string /\
  normalize_path (components "../../a") = "a"%string.
Proof. vm_compute. done. Qed.

(** * Splitting at a byte of ASCII *)

Lemma decode_ascii need acc pending s c t :
  byte_of c < 128 -> (need = O <-> pending = ""%string) ->
  decode need acc pending (s ++ String c t) = decode need acc pending s ++ (byte_of c, String c "") :: char_indices t.
Proof.
  intros Hc. revert need acc pending.
  induction s as [|d s IH]; intros need acc pending Hp.
  - rewrite append_nil_l. cbn [decode]. unfold in_range.
    rewrite (proj2 (N.leb_gt 128 _)), (proj2 (N.ltb_lt _ _)) by done. cbn [andb].
    destruct need as [|need]; [by rewrite (proj1 Hp eq_refl)|].
    destruct pending as [|p pending]; [|done]. by specialize (proj2 Hp eq_refl).
  - rewrite append_cons. cbn [decode].
    set (lead l := if byte_of d <? 128 then (byte_of d, String d "") :: decode 0 0 "" l
      else if byte_of d <? 192 then (REPLACEMENT, String d "") :: decode 0 0 "" l
      else if byte_of d <? 224 then decode 1 (N.land (byte_of d) 31) (String d "") l
      else if byte_of d <? 240 then decode 2 (N.land (byte_of d) 15) (String d "") l
      else decode 3 (N.land (byte_of d) 7) (String d "") l).
    assert (lead (s ++ String c t)%string = lead s ++ (byte_of c, String c "") :: char_indices t) as Hlead.
    { unfold lead. repeat case_match; cbn [app]; rewrite IH by done; done. }
    fold (lead (s ++ String c t)%string) (lead s).
    destruct need as [|need]; [done|].
    destruct (in_range 128 191 (byte_of d)); [|by rewrite Hlead].
    destruct need as [|need]; cbn [app]; rewrite IH; [done|done|done|].
    split; [done|]. by destruct pending.
Qed.
Lemma char_indices_ascii s c t :
  byte_of c < 128 -> char_indices (s ++ String c t) = char_indices s ++ (byte_of c, String c "") :: char_indices t.
Proof. intros Hc. by apply decode_ascii. Qed.

Lemma split_pieces_char p cur l b e k :
  p b = true -> split_pieces p cur (l ++ (b, e) :: k) = split_pieces p cur l ++ split_pieces p "" k.
Proof.
  intros Hb. revert cur. induction l as [|[c x] l IH]; intros cur; cbn; [by rewrite Hb|].
  destruct (p c); cbn; by rewrite IH.
Qed.
(** A separator of ASCII cuts the pieces before it from the ones after it. *)
Lemma split_char p s c t :
  byte_of c < 128 -> p (byte_of c) = true -> split p (s ++ String c t) = split p s ++ split p t.
Proof. intros Hc Hp. unfold split. rewrite char_indices_ascii by done. by apply split_pieces_char. Qed.

Definition free_of (p : N -> bool) (s : string) : Prop := Forall (fun c => p c = false) (chars s).

Lemma split_pieces_none p cur l :
  Forall (fun c => p (fst c) = false) l -> split_pieces p cur l = [(cur ++ encode l)%string].
Proof.
  intros Hl. revert cur. induction Hl as [|[c e] l Hc _ IH]; intros cur; cbn; [by rewrite append_nil_r|].
  cbn in Hc. by rewrite Hc, IH, append_assoc.
Qed.
Lemma split_free p s : free_of p s -> split p s = [s].
Proof.
  intros Hs. unfold split. rewrite split_pieces_none, encode_char_indices; [done|].
  unfold free_of, chars in Hs. by rewrite Forall_map in Hs.
Qed.
Lemma split_pieces_free p s l1 l2 l piece :
  from_utf8 s = true -> char_indices s = l1 ++ l2 ++ l -> Forall (fun c => p (fst c) = false) l2 ->
  piece ∈ split_pieces p (encode l2) l -> free_of p piece.
Proof.
  intros Hs. revert l1 l2. induction l as [|[c e] l IH]; intros l1 l2 Hl Hfree; cbn.
  - intros ->%list_elem_of_singleton. unfold free_of, chars. rewrite Forall_map.
    by rewrite (char_indices_part s l1 l2 []).
  - destruct (p c) eqn:Hc.
    + intros [->|Hin]%elem_of_cons.
      * unfold free_of, chars. rewrite Forall_map. by rewrite (char_indices_part s l1 l2 ((c, e) :: l)).
      * apply (IH (l1 ++ l2 ++ [(c, e)]) []); [|done|done]. by rewrite Hl, <- !app_assoc.
    + assert (encode l2 ++ e = encode (l2 ++ [(c, e)]))%string as ->.
      { rewrite encode_app. cbn. by rewrite append_nil_r. }
      apply (IH l1); [by rewrite Hl, <- !app_assoc|]. by apply Forall_app; split; [|repeat constructor].
Qed.
Lemma split_pieces_of p s piece : from_utf8 s = true -> piece ∈ split p s -> free_of p piece.
Proof. intros Hs. by apply (split_pieces_free p s [] [] (char_indices s)). Qed.

(** * Normal forms *)

Definition name_ok (name : string) : Prop :=
  is_empty name || seqb name "." || seqb name ".." = false /\ free_of (N.eqb 47) name.
Definition path_ok (p : Path) : Prop := Forall (fun c => match c with Normal name => name_ok name | _ => True end) p.

Lemma components_ok s : from_utf8 s = true -> path_ok (components s).
Proof.
  intros Hs. apply Forall_app. split.
  - destruct (is_absolute_path s); [by repeat constructor|]. destruct (split _ s) as [|first]; [done|].
    unfold when. destruct (seqb first "."); by repeat constructor.
  - apply Forall_forall. intros c (piece & Hin & Hc)%list_elem_of_omap. unfold component_of in Hc.
    destruct (is_empty piece || seqb piece ".") eqn:E; [done|]. injection Hc as <-.
    destruct (seqb piece "..") eqn:E2; [done|]. split; [by rewrite E, E2|]. by eapply split_pieces_of.
Qed.
Lemma join_ok dir target : path_ok dir -> from_utf8 target = true -> path_ok (join dir target).
Proof.
  intros Hdir Ht. unfold join. apply components_ok in Ht as Hok. case_match; [done|]. destruct dir as [|c dir]; [done|].
  apply Forall_app. split; [done|]. destruct (components target) as [|[] p]; try done. by inversion Hok.
Qed.
Lemma parent_ok p q : path_ok p -> parent p = Some q -> path_ok q.
Proof.
  intros Hp Hq. assert (q = removelast p) as ->.
  { unfold parent in Hq. by destruct (last p) as [[]|]; simplify_eq. }
  apply Forall_forall. intros c Hc. eapply Forall_forall in Hp; [exact Hp|].
  clear Hq. induction p as [|x p IH]; [done|]. destruct p as [|y p]; [by apply elem_of_nil in Hc|].
  apply elem_of_cons in Hc as [->|Hc]; [left|right]. apply IH; [|done]. by inversion Hp.
Qed.

Lemma normalize_names p : path_ok p -> Forall name_ok (foldl normalize_component [] p).
Proof.
  intros Hp. assert (Forall name_ok ([] : list string)) as Hnil by constructor. revert Hnil.
  generalize ([] : list string) as names. induction Hp as [|c p Hc _ IH]; intros names Hn; cbn; [done|].
  apply IH. destruct c as [| | |name]; cbn; [done|done| |by apply Forall_app; rewrite Forall_singleton].
  destruct (decide (names = [])) as [->|Hne]; [done|]. rewrite (app_removelast_last "" Hne) in Hn.
  by apply Forall_app in Hn as [].
Qed.

Lemma split_concat names :
  names <> [] -> Forall (free_of (N.eqb 47)) names -> split (N.eqb 47) (String.concat "/" names) = names.
Proof.
  intros Hne Hn. induction Hn as [|x names Hx _ IH]; [done|]. destruct names as [|y names]; [by apply split_free|].
  change (String.concat "/" (x :: y :: names)) with (x ++ String (char_of 47) (String.concat "/" (y :: names)))%string.
  rewrite split_char, split_free, IH; done.
Qed.
Lemma free_head p c s : byte_of c < 128 -> free_of p (String c s) -> p (byte_of c) = false.
Proof.
  intros Hc Hfree. unfold free_of, chars in Hfree.
  rewrite <- (append_nil_l (String c s)), char_indices_ascii in Hfree by done. by apply Forall_cons in Hfree as [].
Qed.
Lemma concat_relative names : Forall name_ok names -> is_absolute_path (String.concat "/" names) = false.
Proof.
  intros Hn. destruct Hn as [|x names [Hx Hfree] _]; [done|]. destruct x as [|c x]; [done|].
  assert (exists rest, String.concat "/" (String c x :: names) = String c rest) as [rest ->] by (destruct names; by eexists).
  unfold is_absolute_path, starts_with. cbn. destruct (Ascii.ascii_dec (char_of 47) c) as [<-|Hne]; [|by case_match].
  by apply free_head in Hfree.
Qed.
Lemma components_concat names : Forall name_ok names -> components (String.concat "/" names) = map Normal names.
Proof.
  intros Hn. unfold components. rewrite concat_relative by done. destruct (decide (names = [])) as [->|Hne]; [done|].
  rewrite split_concat; [|done|eapply Forall_impl; [exact Hn|by intros x []]].
  assert (omap component_of names = map Normal names) as ->.
  { clear Hne. induction Hn as [|x names [Hx _] _ IH]; [done|]. cbn. unfold component_of at 1.
    apply orb_false_iff in Hx as [-> ->]. cbn. by rewrite IH. }
  destruct Hn as [|x names [Hx _]]; [done|]. unfold when.
  apply orb_false_iff in Hx as [[_ ->]%orb_false_iff _]. done.
Qed.

(** Normalizing leaves a relative path of plain names, which is its own normal
    form. *)
Lemma normalize_components p : path_ok p ->
  components (normalize_path p) = map Normal (foldl normalize_component [] p).
Proof. intros Hp. by apply components_concat, normalize_names. Qed.
Lemma normalize_idempotent p : path_ok p -> normalize_path (components (normalize_path p)) = normalize_path p.
Proof.
  intros Hp. rewrite normalize_components by done. unfold normalize_path at 1 2. f_equal.
  generalize (foldl normalize_component [] p) as names. intros names.
  enough (forall acc, foldl normalize_component acc (map Normal names) = acc ++ names) as H by apply (H []).
  induction names as [|x names IH]; intros acc; cbn; [by rewrite app_nil_r|]. by rewrite IH, <- app_assoc.
Qed.

(** A path resolved against a directory is in normal form.  For a path and a
    directory that are text, what [normalize_path] makes of the one joined to
    the other is a relative path of plain names, without a root, a [.] or a [..],
    each name free of separators; normalizing it again gives it back. *)
Theorem normalize_path_canonical directory target :
  from_utf8 directory = true -> from_utf8 target = true ->
  let joined := normalize_path (join (components directory) target) in
  (exists names, components joined = map Normal names /\ Forall name_ok names /\ joined = String.concat "/" names) /\
  is_absolute_path joined = false /\ normalize_path (components joined) = joined.
Proof.
  intros Hd Ht joined. assert (path_ok (join (components directory) target)) as Hok by auto using join_ok, components_ok.
  pose proof (normalize_names _ Hok) as Hnames. split_and!; [|by apply concat_relative|by apply normalize_idempotent].
  eexists. split_and!; [by apply normalize_components|done|done].
Qed.
Lemma normalize_path_canonical_witness :
  let joined := normalize_path (join (components "src/lib") "../util/./x.ts") in
  joined = "src/util/x.ts"%string /\
  (exists names, components joined = map Normal names /\ Forall name_ok names /\ joined = String.concat "/" names) /\
  is_absolute_path joined = false /\ normalize_path (components joined) = joined.
Proof.
  split; [vm_compute; reflexivity|]. apply (normalize_path_canonical "src/lib" "../util/./x.ts"); vm_compute; reflexivity.
Defined.
