(* ===== verification/Resolve.v ===== *)
(** [src/crates/codevetter-core/src/commands/structural_graph/resolve.rs]:
    cross-file resolution, every function of the file.

    A reference (a call, an import, a runtime lookup) gets an edge to the one
    node it can mean, or an ambiguous edge that lists every node it may mean.
    The same for links between documents, tests and the files they test, and
    analytics events of one name.

    The order in which a [HashMap] or [HashSet] is walked is the class
    [HashOrder], an arbitrary permutation; a map only read by key is a
    [BTreeMap]. *)
From stdpp Require Import pretty.
From S2P Require Import Prelude Ordering Entries RustText GraphTypes F64 Communities Snapshot QueryIndex Paths.
Local Open Scope N_scope.

Class HashOrder : Type := {
  iteration : forall {A : Type}, list A -> list A;
  iteration_perm : forall {A : Type} (l : list A), iteration l ≡ₚ l
}.

Record ImportContext : Type := {
  candidate_paths : BTreeSet string;
  bindings : BTreeMap string string
}.
Record FileIndex : Type := {
  by_normalized_path : BTreeMap string (list StructuralGraphNode);
  by_stem : BTreeMap string (list StructuralGraphNode)
}.

(** [l.sort_by(|left, right| left.id.cmp(&right.id))], over the values of a map,
    and [l.dedup_by(|left, right| left.id == right.id)] *)
Definition sort_by_id (l : list StructuralGraphNode) : list StructuralGraphNode := sort_by_key node_id l.
Definition sort_values (m : BTreeMap string (list StructuralGraphNode)) : BTreeMap string (list StructuralGraphNode) :=
  map (fun p => (fst p, sort_by_id (snd p))) m.
Definition dedup_by_id (l : list StructuralGraphNode) : list StructuralGraphNode := dedup_by_key node_id l.

(** ** Names in references *)

(** Quotes; the wrappers of a module name; the separators of a qualified name;
    what may follow a name; the punctuation of an import statement. *)
Definition is_quote (c : N) : bool := elemb c [39; 34; 96].
Definition is_module_wrapper (c : N) : bool := elemb c [34; 39; 96; 60; 62; 123; 125].
Definition is_name_separator (c : N) : bool := elemb c [46; 58; 47; 92].
Definition is_name_suffix (c : N) : bool := elemb c [40; 41; 33; 63].
Definition is_import_punctuation (c : N) : bool := elemb c [123; 125; 40; 41; 59; 44].

Definition clean_module_reference (value : string) : string :=
  let value := trim (trim_end_matches (N.eqb 59) (trim value)) in
  let value := trim (match strip_prefix "use " value with Some rest => rest | None =>
                     match strip_prefix "import " value with Some rest => rest | None =>
                     match strip_prefix "from " value with Some rest => rest | None =>
                     default value (strip_prefix "#include" value) end end end) in
  trim_matches is_module_wrapper (default value (last (split_whitespace value))).
Definition terminal_reference_name (value : string) : string :=
  trim_end_matches is_name_suffix
    (default value (List.find (fun part => negb (is_empty part))
       (reverse (split is_name_separator (clean_module_reference value))))).

Definition BINDING_KEYWORDS : list string :=
  ["import"; "from"; "use"; "export"; "type"; "pub"; "crate"; "self"; "super"]%string.
Definition is_binding_identifier `{Unicode} (value : string) : bool :=
  negb (is_empty value) && negb (elemb (to_ascii_lowercase value) BINDING_KEYWORDS)
  && forallb (fun c => is_alphanumeric c || (c =? 95) || (c =? 36)) (chars value).

(** [a as b] binds [b] to [a]. *)
Fixpoint alias_bindings `{Unicode} (m : BTreeMap string string) (words : list string) : BTreeMap string string :=
  match words with
  | name :: ((keyword :: alias :: _) as words) =>
      alias_bindings
        (if eq_ignore_ascii_case keyword "as" && is_binding_identifier name && is_binding_identifier alias
         then map_insert alias name m else m) words
  | _ => m
  end.
(** The words after [import], up to [from] or [as], bind themselves. *)
Fixpoint word_bindings `{Unicode} (m : BTreeMap string string) (words : list string) : BTreeMap string string :=
  match words with
  | [] => m
  | word :: words =>
      if eq_ignore_ascii_case word "from" || eq_ignore_ascii_case word "as" then m else
      word_bindings (if is_binding_identifier word && negb (map_contains_key word m)
                     then map_insert word word m else m) words
  end.
Fixpoint after_import (words : list string) : list string :=
  match words with
  | [] => []
  | word :: words => if eq_ignore_ascii_case word "import" then words else after_import words
  end.
Definition parse_import_bindings `{Unicode} (statement : string) : BTreeMap string string :=
  let normalized := replace_byte 46 32 (replace_str "::" " " (replace_chars is_import_punctuation " " statement)) in
  let words := map (trim_matches is_quote) (split_whitespace normalized) in
  word_bindings (alias_bindings [] words) (after_import words).

(** ** Files by path and by stem *)

Definition add_file (index : FileIndex) (file : StructuralGraphNode) : FileIndex :=
  match node_path file with
  | None => index
  | Some path =>
      let normalized := normalize_path (components path) in {|
      by_normalized_path := push_entry (trim_matches (N.eqb 47) normalized) file (by_normalized_path index);
      by_stem := match file_stem (components normalized) with
        | Some stem => push_entry stem file (by_stem index)
        | None => by_stem index
        end |}
  end.
Definition FileIndex_new (files : list StructuralGraphNode) : FileIndex :=
  let index := foldl add_file {| by_normalized_path := []; by_stem := [] |} files in {|
  by_normalized_path := sort_values (by_normalized_path index);
  by_stem := sort_values (by_stem index) |}.

Definition MODULE_EXTENSIONS : list string :=
  ["ts"; "tsx"; "js"; "jsx"; "rs"; "py"; "go"; "java"; "c"; "h"; "cpp"; "hpp"; "cs"; "rb"; "php"; "kt"; "swift"]%string.
(** [s.rsplit_once('/')] *)
Definition rsplit_once_slash (s : string) : option (string * string) :=
  match reverse (split (N.eqb 47) s) with
  | last :: ((_ :: _) as before) => Some (String.concat "/" (reverse before), last)
  | _ => None
  end.
(** The texts a module may have as its path, before an extension. *)
Definition module_bases (source_directory : Path) (target : string) : list string :=
  let relative_target :=
    if starts_with "." target then normalize_path (join source_directory target)
    else replace_byte 46 47 (replace_str "::" "/" target) in
  let trimmed := trim_matches (N.eqb 47) relative_target in
  let source_of (path : string) := match strip_prefix "crate/" path with Some rest => [("src/" ++ rest)%string] | None => [] end in
  dedup (sort (
    [trimmed] ++ source_of trimmed
    ++ match strip_prefix "self/" trimmed with
       | Some rest => [normalize_path (join source_directory rest)] | None => [] end
    ++ match rsplit_once_slash trimmed with
       | Some (parent, _) => if is_empty parent then [] else parent :: source_of parent
       | None => [] end)).
Definition base_paths (base : string) : list string :=
  base :: concat (map (fun extension => [base ++ "." ++ extension; base ++ "/index." ++ extension;
                                        base ++ "/mod." ++ extension]%string) MODULE_EXTENSIONS).
Definition expected_paths (source_directory : Path) (target : string) : BTreeSet string :=
  set_of_list (concat (map base_paths (module_bases source_directory target))).

(** [Path::new(path).parent().unwrap_or_else(|| Path::new(""))] *)
Definition directory_of (path : string) : Path := default [] (parent (components path)).
Definition entries_at (m : BTreeMap string (list StructuralGraphNode)) (key : string) : list StructuralGraphNode :=
  default [] (map_get key m).
Definition resolve_module_candidates `{HashOrder} (reference : StructuralGraphNode) (files : FileIndex)
    : list StructuralGraphNode :=
  let target := clean_module_reference (label reference) in
  if is_empty target then [] else
  let expected := expected_paths (directory_of (default ""%string (node_path reference))) target in
  dedup_by_id (sort_by_id (concat (map (entries_at (by_normalized_path files)) (iteration expected))
    ++ entries_at (by_stem files) (terminal_reference_name target))).

(** ** Candidates of a symbol *)

Fixpoint find_map {A B} (f : A -> option B) (l : list A) : option B :=
  match l with
  | [] => None
  | x :: l => match f x with Some y => Some y | None => find_map f l end
  end.
(** [option.as_deref() == Some(text)], and the directory of an optional path. *)
Definition path_is (node : StructuralGraphNode) (path : string) : bool :=
  match node_path node with Some p => seqb p path | None => false end.
Definition parent_of (node : StructuralGraphNode) : option Path :=
  match node_path node with Some p => parent (components p) | None => None end.
(** An import of the file brings [lookup] into scope from the node's file. *)
Definition imported_by (terminal lookup : string) (node : StructuralGraphNode) (context : ImportContext) : bool :=
  match node_path node with
  | None => false
  | Some path =>
      set_contains path (candidate_paths context)
      && (is_nil (bindings context)
          || match map_get terminal (bindings context) with Some name => seqb name lookup | None => false end
          || any (fun name => seqb name lookup) (map_values (bindings context)))
  end.
Definition resolve_symbol_candidates (reference : StructuralGraphNode)
    (symbols_by_label : BTreeMap string (list StructuralGraphNode))
    (imports_by_source_path : BTreeMap string (list ImportContext)) : list StructuralGraphNode :=
  let terminal := terminal_reference_name (label reference) in
  let source_path := default ""%string (node_path reference) in
  let import_contexts := default [] (map_get source_path imports_by_source_path) in
  let lookup := default terminal (find_map (fun context => map_get terminal (bindings context)) import_contexts) in
  match map_get lookup symbols_by_label with
  | None => []
  | Some all =>
      if (length all <=? 1)%nat then all else
      let same_file := List.filter (fun candidate => path_is candidate source_path) all in
      if (length same_file =? 1)%nat then same_file else
      let imported := List.filter (fun candidate => any (imported_by terminal lookup candidate) import_contexts) all in
      if (length imported =? 1)%nat then imported else
      let same_directory := List.filter (fun candidate =>
        bool_decide (parent_of candidate = parent (components source_path))) all in
      if (length same_directory =? 1)%nat then same_directory else all
  end.

(** ** Edges of references *)

Definition is_reference (node : StructuralGraphNode) : bool := ends_with "_reference" (node_kind node).
Definition is_file (node : StructuralGraphNode) : bool := seqb (node_kind node) "file".
Definition from_source (edge : StructuralGraphEdge) : bool :=
  match edge_origin edge with OSyntax | OMetadata => true | _ => false end.
Definition edge_identity (parts : list string) : string := stable_graph_id "edge" (String.concat NUL parts).

(** The tables [resolve_cross_file] builds before its loop. *)
Record resolution_tables : Type := {
  node_by_id : BTreeMap string StructuralGraphNode;
  symbols_by_label : BTreeMap string (list StructuralGraphNode);
  file_index : FileIndex;
  imports_by_source_path : BTreeMap string (list ImportContext)
}.

Definition files_of (nodes : list StructuralGraphNode) : list StructuralGraphNode :=
  sort_by_id (List.filter is_file nodes).
Definition index_symbols (nodes : list StructuralGraphNode) : BTreeMap string (list StructuralGraphNode) :=
  sort_values (foldl (fun m node => if is_file node || is_reference node then m else push_entry (label node) node m)
    [] nodes).
Definition add_import `{Unicode} `{HashOrder} (nodes : BTreeMap string StructuralGraphNode) (files : FileIndex)
    (imports : BTreeMap string (list ImportContext)) (edge : StructuralGraphEdge)
    : BTreeMap string (list ImportContext) :=
  match map_get (to edge) nodes with
  | None => imports
  | Some reference =>
      match node_path reference with
      | None => imports
      | Some source_path => push_entry source_path {|
          candidate_paths := set_of_list (omap node_path (resolve_module_candidates reference files));
          bindings := parse_import_bindings (default ""%string (detail reference)) |} imports
      end
  end.
Definition build_tables `{Unicode} `{HashOrder} (nodes : list StructuralGraphNode)
    (reference_edges : list StructuralGraphEdge) : resolution_tables :=
  let node_by_id := index_by_id nodes in
  let file_index := FileIndex_new (files_of nodes) in {|
  node_by_id := node_by_id; symbols_by_label := index_symbols nodes; file_index := file_index;
  imports_by_source_path := foldl (add_import node_by_id file_index) []
    (List.filter (fun edge => seqb (edge_kind edge) "imports") reference_edges) |}.

Definition candidates_of `{HashOrder} (t : resolution_tables) (reference : StructuralGraphNode)
    : list StructuralGraphNode :=
  dedup_by_id (sort_by_id (
    if seqb (node_kind reference) "module_reference" then resolve_module_candidates reference (file_index t)
    else resolve_symbol_candidates reference (symbols_by_label t) (imports_by_source_path t))).

Definition resolved_to (edge : StructuralGraphEdge) (reference target : StructuralGraphNode) : StructuralGraphEdge := {|
  edge_id := edge_identity [edge_kind edge; from edge; node_id target];
  from := from edge; to := node_id target; edge_kind := edge_kind edge;
  evidence := "Resolved `" ++ label reference ++ "` to `" ++ default (label target) (qualified_name target)
    ++ "` using deterministic path/name and source-context rules";
  edge_trust := Inferred; edge_origin := OResolution; edge_sources := edge_sources edge; candidates := [] |}.
Definition candidate_edge (identity evidence : string) (edge : StructuralGraphEdge) (reference : StructuralGraphNode)
    (found : list StructuralGraphNode) : StructuralGraphEdge := {|
  edge_id := edge_identity [identity; from edge; node_id reference];
  from := from edge; to := node_id reference; edge_kind := "candidate_for"; evidence := evidence;
  edge_trust := Ambiguous; edge_origin := OResolution; edge_sources := edge_sources edge;
  candidates := map node_id found |}.
Definition dynamic_candidates (edge : StructuralGraphEdge) (reference : StructuralGraphNode)
    (found : list StructuralGraphNode) : StructuralGraphEdge :=
  candidate_edge "dynamic_candidate_for"
    ("Runtime lookup `" ++ label reference ++ "` may resolve to " ++ pretty (len found)
     ++ " source-backed candidate(s); none was promoted to a verified edge") edge reference found.
Definition plausible_candidates (edge : StructuralGraphEdge) (reference : StructuralGraphNode)
    (found : list StructuralGraphNode) : StructuralGraphEdge :=
  candidate_edge "candidate_for"
    ("`" ++ label reference ++ "` has " ++ pretty (len found) ++ " plausible targets; no target was selected silently")
    edge reference found.
(** The body of the loop over the edges of references. *)
Definition resolve_reference `{HashOrder} (t : resolution_tables) (edge : StructuralGraphEdge)
    : option StructuralGraphEdge :=
  match map_get (to edge) (node_by_id t) with
  | None => None
  | Some reference =>
      if negb (is_reference reference) then None else
      let found := candidates_of t reference in
      if seqb (node_kind reference) "dynamic_reference" && negb (is_nil found)
      then Some (dynamic_candidates edge reference found)
      else match found with
      | [] => None
      | [target] => Some (resolved_to edge reference target)
      | _ => Some (plausible_candidates edge reference found)
      end
  end.

(** ** Documents, tests and events *)

Definition document_edge (files_by_path : BTreeMap string StructuralGraphNode) (link : StructuralGraphNode)
    : option StructuralGraphEdge :=
  match node_path link with
  | None => None
  | Some source_path =>
      let target := first_piece (N.eqb 35) (label link) in
      if starts_with "http://" target || starts_with "https://" target || is_empty target then None else
      let resolved := normalize_path (join (directory_of source_path) target) in
      match map_get resolved files_by_path with
      | None => None
      | Some target_file =>
          let source_file_id := stable_graph_id "file" source_path in
          Some {| edge_id := edge_identity ["documents"%string; source_file_id; node_id target_file];
            from := source_file_id; to := node_id target_file; edge_kind := "documents";
            evidence := "Documentation link resolves `" ++ label link ++ "` to `" ++ resolved ++ "`";
            edge_trust := Inferred; edge_origin := OResolution; edge_sources := node_sources link; candidates := [] |}
      end
  end.
Definition resolve_document_links (nodes files : list StructuralGraphNode) : list StructuralGraphEdge :=
  let files_by_path := map_of_list (omap (fun file =>
    match node_path file with Some path => Some (normalize_path (components path), file) | None => None end) files) in
  omap (document_edge files_by_path) (List.filter (fun node => seqb (node_kind node) "documentation_link") nodes).

Definition normalized_test_stem (path : string) : string :=
  let stem := to_ascii_lowercase (default ""%string (file_stem (components path))) in
  trim_end_str "_test" (trim_end_str ".spec" (trim_end_str ".test" (trim_start_str "test_" stem))).
Definition index_test_stems (files : list StructuralGraphNode) : BTreeMap string (list StructuralGraphNode) :=
  sort_values (foldl (fun m file =>
    match node_path file with
    | None => m
    | Some path =>
        let stem := normalized_test_stem path in
        if is_empty stem then m else push_entry stem file m
    end) [] files).
Definition test_target (test target : StructuralGraphNode) : StructuralGraphEdge := {|
  edge_id := edge_identity ["tests"%string; node_id test; node_id target];
  from := node_id test; to := node_id target; edge_kind := "tests";
  evidence := "Unique production file matched by conventional test filename";
  edge_trust := Inferred; edge_origin := OResolution; edge_sources := node_sources test; candidates := [] |}.
Definition test_candidates (test : StructuralGraphNode) (found : list StructuralGraphNode) : StructuralGraphEdge := {|
  edge_id := edge_identity ["candidate_test_target"%string; node_id test];
  from := node_id test; to := node_id test; edge_kind := "candidate_for";
  evidence := "Test filename matches multiple possible production files";
  edge_trust := Ambiguous; edge_origin := OResolution; edge_sources := node_sources test;
  candidates := map node_id found |}.
Definition test_edge (files_by_test_stem : BTreeMap string (list StructuralGraphNode)) (test : StructuralGraphNode)
    : option StructuralGraphEdge :=
  match node_path test with
  | None => None
  | Some test_path =>
      let test_stem := normalized_test_stem test_path in
      if is_empty test_stem then None else
      match List.filter (fun file => negb (path_is file test_path)) (entries_at files_by_test_stem test_stem) with
      | [] => None
      | [target] => Some (test_target test target)
      | found => Some (test_candidates test found)
      end
  end.
Definition resolve_test_targets (nodes files : list StructuralGraphNode) : list StructuralGraphEdge :=
  omap (test_edge (index_test_stems files)) (List.filter (fun node => seqb (node_kind node) "test") nodes).

Definition same_event (a b : StructuralGraphNode) : StructuralGraphEdge := {|
  edge_id := edge_identity ["same_event"%string; node_id a; node_id b];
  from := node_id a; to := node_id b; edge_kind := "same_event";
  evidence := "Source-backed analytics callsites share exact event label `" ++ label a ++ "`";
  edge_trust := Inferred; edge_origin := OResolution; edge_sources := node_sources a ++ node_sources b;
  candidates := [] |}.
(** [occurrences.windows(2)] *)
Fixpoint chain (occurrences : list StructuralGraphNode) : list StructuralGraphEdge :=
  match occurrences with
  | a :: ((b :: _) as rest) => same_event a b :: chain rest
  | _ => []
  end.
Definition is_event (node : StructuralGraphNode) : bool := seqb (node_kind node) "analytics_event".
Definition relate_analytics_events `{HashOrder} (nodes : list StructuralGraphNode) : list StructuralGraphEdge :=
  let by_label := foldl (fun m node => push_entry (label node) node m) [] (List.filter is_event nodes) in
  concat (map (fun occurrences => chain (sort_by_id occurrences)) (iteration (map_values by_label))).

(** ** The whole pass *)

Definition additions `{Unicode} `{HashOrder} (nodes : list StructuralGraphNode) (edges : list StructuralGraphEdge)
    : list StructuralGraphEdge :=
  let reference_edges := List.filter from_source edges in
  let files := files_of nodes in
  omap (resolve_reference (build_tables nodes reference_edges)) reference_edges
  ++ resolve_document_links nodes files ++ resolve_test_targets nodes files ++ relate_analytics_events nodes.
Definition resolve_cross_file `{Unicode} `{HashOrder} (nodes : list StructuralGraphNode)
    (edges : list StructuralGraphEdge) : list StructuralGraphEdge := edges ++ additions nodes edges.

(** ** The source's tests *)

#[export] Instance in_order : HashOrder := {| iteration := fun A l => l; iteration_perm := fun A l => reflexivity l |}.
#[export] Instance in_reverse : HashOrder :=
  {| iteration := fun A l => reverse l; iteration_perm := fun A l => reverse_Permutation l |}.
Definition ex_anchor (path : string) : GraphSourceAnchor :=
  {| path := path; start_line := None; start_column := None; end_line := None; end_column := None; excerpt := None |}.
Definition ex_node (id kind label path : string) : StructuralGraphNode := {|
  node_id := id; node_kind := kind; label := label; qualified_name := Some (path ++ "::" ++ label)%string;
  node_path := Some path; detail := None; language := Some "typescript"%string; community_id := None;
  node_trust := Extracted; node_origin := OSyntax; node_sources := [ex_anchor path] |}.
Definition ex_edge (id from to kind path : string) : StructuralGraphEdge := {|
  edge_id := id; from := from; to := to; edge_kind := kind; evidence := kind; edge_trust := Extracted;
  edge_origin := OSyntax; edge_sources := [ex_anchor path]; candidates := [] |}.
(** What an added edge says. *)
Definition ex_summary (e : StructuralGraphEdge) : string * string * string * GraphTrust * list string :=
  (edge_kind e, from e, to e, edge_trust e, candidates e).
Definition ex_additions `{HashOrder} (nodes : list StructuralGraphNode) (edges : list StructuralGraphEdge) :=
  map ex_summary (@additions ascii _ nodes edges).

Example unique_same_file_symbol_is_preferred :
  ex_additions (H := in_order)
    [ex_node "file:a" "file" "a.ts" "a.ts"; ex_node "function:local" "function" "run" "a.ts";
     ex_node "function:other" "function" "run" "b.ts"; ex_node "ref:run" "symbol_reference" "run" "a.ts"]%string
    [ex_edge "syntax" "function:local" "ref:run" "calls" "a.ts"]%string =
  [("calls", "function:local", "function:local", Inferred, [])]%string.
Proof. vm_compute. done. Qed.
Example ambiguous_symbols_retain_all_candidates :
  ex_additions (H := in_order)
    [ex_node "function:b" "function" "run" "b.ts"; ex_node "function:a" "function" "run" "a.ts";
     ex_node "ref:run" "symbol_reference" "run" "c.ts"]%string
    [ex_edge "syntax" "file:c" "ref:run" "calls" "c.ts"]%string =
  [("candidate_for", "file:c", "ref:run", Ambiguous, ["function:a"; "function:b"])]%string.
Proof. vm_compute. done. Qed.
Definition ex_module : StructuralGraphNode := {|
  node_id := "ref:module"; node_kind := "module_reference"; label := "./a"; qualified_name := None;
  node_path := Some "src/caller.ts"%string; detail := Some "import { run as importedRun } from './a';"%string;
  language := None; community_id := None; node_trust := Extracted; node_origin := OSyntax; node_sources := [] |}.
Definition ex_import_nodes : list StructuralGraphNode :=
  [ex_node "file:a" "file" "src/a.ts" "src/a.ts"; ex_node "file:b" "file" "src/b.ts" "src/b.ts";
   ex_node "file:caller" "file" "src/caller.ts" "src/caller.ts"; ex_node "function:a" "function" "run" "src/a.ts";
   ex_node "function:b" "function" "run" "src/b.ts"; ex_module;
   ex_node "ref:call" "symbol_reference" "importedRun" "src/caller.ts"]%string.
Definition ex_import_edges : list StructuralGraphEdge :=
  [ex_edge "import" "file:caller" "ref:module" "imports" "src/caller.ts";
   ex_edge "call" "file:caller" "ref:call" "calls" "src/caller.ts"]%string.
Example import_alias_and_module_path_disambiguate_cross_file_calls :
  ex_additions (H := in_order) ex_import_nodes ex_import_edges =
  [("imports", "file:caller", "file:a", Inferred, []); ("calls", "file:caller", "function:a", Inferred, [])]%string.
Proof. vm_compute. done. Qed.
Example docs_tests_and_events_gain_qualified_cross_file_relationships :
  ex_additions (H := in_order)
    [ex_node "file:readme" "file" "README.md" "README.md"; ex_node "file:guide" "file" "guide.md" "docs/guide.md";
     ex_node "file:user" "file" "user.ts" "src/user.ts";
     ex_node "file:user-test" "file" "user.test.ts" "tests/user.test.ts";
     ex_node "doc:guide" "documentation_link" "docs/guide.md" "README.md";
     ex_node "test:user" "test" "loads user" "tests/user.test.ts";
     ex_node "event:a" "analytics_event" "user_loaded" "src/user.ts";
     ex_node "event:b" "analytics_event" "user_loaded" "tests/user.test.ts"]%string [] =
  [("documents", stable_graph_id "file" "README.md", "file:guide", Inferred, []);
   ("tests", "test:user", "file:user", Inferred, []);
   ("same_event", "event:a", "event:b", Inferred, [])]%string.
Proof. vm_compute. done. Qed.
Example multi_language_cycles_cross_packages_and_unresolved_calls_remain_honest :
  ex_additions (H := in_reverse)
    [ex_node "function:rust" "function" "rust_entry" "crates/core/src/lib.rs";
     ex_node "function:python" "function" "python_entry" "packages/api/main.py";
     ex_node "ref:rust" "symbol_reference" "rust_entry" "packages/api/main.py";
     ex_node "ref:python" "symbol_reference" "python_entry" "crates/core/src/lib.rs";
     ex_node "ref:missing" "symbol_reference" "not_declared" "packages/api/main.py";
     ex_node "function:dup-a" "function" "duplicate" "packages/a/mod.ts";
     ex_node "function:dup-b" "function" "duplicate" "packages/b/mod.ts";
     ex_node "ref:duplicate" "symbol_reference" "duplicate" "packages/c/mod.ts"]%string
    [ex_edge "call:rust" "function:python" "ref:rust" "calls" "";
     ex_edge "call:python" "function:rust" "ref:python" "calls" "";
     ex_edge "call:missing" "function:python" "ref:missing" "calls" "";
     ex_edge "call:ambiguous" "function:python" "ref:duplicate" "calls" ""]%string =
  [("calls", "function:python", "function:rust", Inferred, []);
   ("calls", "function:rust", "function:python", Inferred, []);
   ("candidate_for", "function:python", "ref:duplicate", Ambiguous, ["function:dup-a"; "function:dup-b"])]%string.
Proof. vm_compute. done. Qed.
(** A test file without a production file is taken to test another test file. *)
Example ex_test_of_a_test :
  map evidence (@additions ascii in_order
    [ex_node "file:unit" "file" "user.test.ts" "tests/user.test.ts";
     ex_node "file:e2e" "file" "user.spec.ts" "e2e/user.spec.ts";
     ex_node "test:user" "test" "loads user" "tests/user.test.ts"]%string []) =
  ["Unique production file matched by conventional test filename"]%string.
Proof. vm_compute. done. Qed.
(** A relative import of [./a] may also mean the index file of its own directory. *)
Example ex_index_of_own_directory :
  ex_additions (H := in_order)
    [ex_node "file:a" "file" "src/a.ts" "src/a.ts"; ex_node "file:index" "file" "src/index.ts" "src/index.ts"; ex_module]%string
    [ex_edge "import" "file:caller" "ref:module" "imports" "src/caller.ts"]%string =
  [("candidate_for", "file:caller", "ref:module", Ambiguous, ["file:a"; "file:index"])]%string.
Proof. vm_compute. done. Qed.
