(* ===== verification/ResolveProps.v ===== *)
(** Theorems about cross-file resolution: a reference gets exactly the nodes it
    may mean under the scoping rules, stated without the tables the code builds;
    nothing is added that is trusted like source text or that hides a choice; and
    the result does not depend on the order of the nodes or of hash tables. *)
From S2P Require Import Prelude Ordering Entries RustText GraphTypes F64 AnalysisGraph AnalysisProps Communities CommunityProps Snapshot QueryIndex QueryProps TraversalProps Paths Resolve.
Local Open Scope nat_scope.

(** * Lists of nodes under a key *)

Lemma sort_values_wf m : map_wf m -> map_wf (sort_values m).
Proof. unfold map_wf, map_keys, sort_values. by rewrite map_map. Qed.
Lemma sort_values_get k m : map_get k (sort_values m) = option_map sort_by_id (map_get k m).
Proof. apply (map_get_map (fun _ => sort_by_id)). Qed.

Lemma entries_at_sorted key l k :
  entries_at (sort_values (foldl (push_keyed key) [] l)) k = sort_by_id (filed key l k).
Proof.
  unfold entries_at. rewrite sort_values_get, (proj2 (push_keyed_get _ _ _)). by destruct (filed key l k).
Qed.
Lemma elem_of_entries_at key l k x :
  x ∈ entries_at (sort_values (foldl (push_keyed key) [] l)) k <-> x ∈ l /\ key x = Some k.
Proof. rewrite entries_at_sorted. unfold sort_by_id. by rewrite elem_of_sort_by_key, elem_of_filed. Qed.

Lemma candidates_incl x l : x ∈ dedup_by_id (sort_by_id l) -> x ∈ l.
Proof. apply sort_dedup_by_key_incl. Qed.

(** * What a reference may mean *)

(** A file is named by a base path, with an extension or as the index of it. *)
Definition module_path (base path : string) : Prop :=
  path = base \/ exists extension, extension ∈ MODULE_EXTENSIONS /\
    (path = base ++ "." ++ extension \/ path = base ++ "/index." ++ extension \/ path = base ++ "/mod." ++ extension)%string.
(** The path and the stem a file is filed under. *)
Definition file_path (node : StructuralGraphNode) : option string :=
  path ← node_path node; Some (trim_matches (N.eqb 47) (normalize_path (components path))).
Definition stem_of_file (node : StructuralGraphNode) : option string :=
  path ← node_path node; file_stem (components (normalize_path (components path))).
Definition source_path (reference : StructuralGraphNode) : string := default ""%string (node_path reference).

(** A module reference may mean the files at the paths its name stands for, and
    the files whose stem is its last name. *)
Definition means_module (nodes : list StructuralGraphNode) (reference node : StructuralGraphNode) : Prop :=
  let target := clean_module_reference (label reference) in
  node ∈ nodes /\ is_file node = true /\ target <> ""%string /\
  ((exists base path, base ∈ module_bases (directory_of (source_path reference)) target /\
      module_path base path /\ file_path node = Some path) \/
   stem_of_file node = Some (terminal_reference_name target)).

Lemma elem_of_base_paths base path : path ∈ base_paths base <-> module_path base path.
Proof.
  unfold base_paths, module_path. rewrite elem_of_cons, elem_of_concat. apply or_iff_compat_l. split.
  - intros (l & Hpath & (extension & -> & Hin)%list_elem_of_fmap). exists extension. split; [done|].
    by rewrite !elem_of_cons, elem_of_nil in Hpath; destruct Hpath as [|[|[|[]]]]; auto.
  - intros (extension & Hin & Hpath). eexists. split; [|by apply list_elem_of_fmap_2].
    rewrite !elem_of_cons. naive_solver.
Qed.
Lemma elem_of_expected_paths dir target path :
  path ∈ expected_paths dir target <-> exists base, base ∈ module_bases dir target /\ module_path base path.
Proof.
  unfold expected_paths. rewrite elem_of_set_of_list, elem_of_concat. split.
  - intros (l & Hpath & (base & -> & Hin)%list_elem_of_fmap). exists base. by rewrite <- elem_of_base_paths.
  - intros (base & Hin & Hpath). exists (base_paths base). rewrite elem_of_base_paths. split; [done|].
    by apply list_elem_of_fmap_2.
Qed.

Lemma file_index_paths files :
  by_normalized_path (FileIndex_new files) = sort_values (foldl (push_keyed file_path) [] files) /\
  by_stem (FileIndex_new files) = sort_values (foldl (push_keyed stem_of_file) [] files).
Proof.
  unfold FileIndex_new. cbn [by_normalized_path by_stem].
  enough (forall index, by_normalized_path (foldl add_file index files) = foldl (push_keyed file_path) (by_normalized_path index) files
    /\ by_stem (foldl add_file index files) = foldl (push_keyed stem_of_file) (by_stem index) files) as Hall.
  { by rewrite !(proj1 (Hall _)), !(proj2 (Hall _)). }
  induction files as [|file files IH]; intros index; [done|]. cbn [foldl].
  rewrite (proj1 (IH _)), (proj2 (IH _)). unfold add_file, push_keyed, file_path, stem_of_file.
  destruct (node_path file) as [path|]; [|done]. cbn. by destruct (file_stem _).
Qed.

(** * Narrowing a name by scopes *)

(** The same over a list, the way the code does it. *)
Fixpoint narrow (scopes : list (StructuralGraphNode -> bool)) (all : list StructuralGraphNode) : list StructuralGraphNode :=
  match scopes with
  | [] => all
  | scope :: scopes => let inside := List.filter scope all in if length inside =? 1 then inside else narrow scopes all
  end.

(** A name that has at most one node needs no scope. *)
Lemma narrow_short ps all : length all <= 1 -> narrow ps all = all.
Proof.
  intros Hlen. induction ps as [|p ps IH]; [done|]. cbn [narrow]. rewrite IH.
  destruct all as [|x [|]]; [done|cbn; by destruct (p x)|cbn in Hlen; lia].
Qed.

Lemma narrow_incl ps all node : node ∈ narrow ps all -> node ∈ all.
Proof.
  induction ps as [|p ps IH]; [done|]. cbn [narrow]. case_match; [|done]. by intros [? _]%elem_of_filter_bool.
Qed.

(** ** Symbols *)

(** The nodes the imports of a file refer to, in the order of the edges. *)
Definition is_import (edge : StructuralGraphEdge) : bool := from_source edge && seqb (edge_kind edge) "imports".
Definition imports_of (nodes : list StructuralGraphNode) (edges : list StructuralGraphEdge) (path : string)
    : list StructuralGraphNode :=
  filed node_path (omap (fun edge => map_get (to edge) (index_by_id nodes)) (List.filter is_import edges)) path.
Definition import_bindings `{Unicode} (reference : StructuralGraphNode) : BTreeMap string string :=
  parse_import_bindings (default ""%string (detail reference)).
(** A name is looked up under the name the first import that renames it has for it. *)
Definition looked_up `{Unicode} nodes edges (reference : StructuralGraphNode) : string :=
  let terminal := terminal_reference_name (label reference) in
  default terminal (find_map (fun i => map_get terminal (import_bindings i)) (imports_of nodes edges (source_path reference))).

Definition named_symbol (nodes : list StructuralGraphNode) (name : string) (node : StructuralGraphNode) : Prop :=
  node ∈ nodes /\ is_file node = false /\ is_reference node = false /\ label node = name.


Section Resolution.
Context `{Unicode} `{HashOrder} (nodes : list StructuralGraphNode).
Notation files := (FileIndex_new (files_of nodes)).

Lemma elem_of_files node : node ∈ files_of nodes <-> node ∈ nodes /\ is_file node = true.
Proof. unfold files_of, sort_by_id. by rewrite elem_of_sort_by_key, elem_of_filter_bool. Qed.

Lemma elem_of_file_entries key j node :
  node ∈ entries_at (sort_values (foldl (push_keyed key) [] (files_of nodes))) j <->
  (node ∈ nodes /\ is_file node = true) /\ key node = Some j.
Proof. by rewrite elem_of_entries_at, elem_of_files. Qed.

(** The list [resolve_module_candidates] sorts. *)
Definition module_matches (reference : StructuralGraphNode) : list StructuralGraphNode :=
  let target := clean_module_reference (label reference) in
  if is_empty target then [] else
  concat (map (entries_at (by_normalized_path files)) (iteration (expected_paths (directory_of (source_path reference)) target)))
  ++ entries_at (by_stem files) (terminal_reference_name target).
Lemma module_candidates_eq reference :
  resolve_module_candidates reference files = dedup_by_id (sort_by_id (module_matches reference)).
Proof. unfold resolve_module_candidates, module_matches. fold (source_path reference). by case_match. Qed.
Lemma elem_of_module_matches reference node : node ∈ module_matches reference <-> means_module nodes reference node.
Proof.
  unfold module_matches, means_module.
  destruct (is_empty (clean_module_reference (label reference))) eqn:E.
  { apply is_empty_true in E. rewrite elem_of_nil. naive_solver. }
  apply is_empty_false in E. destruct (file_index_paths (files_of nodes)) as [-> ->].
  rewrite elem_of_app, elem_of_concat, elem_of_file_entries. split.
  - intros [(l & Hnode & (path & -> & Hpath)%list_elem_of_fmap)|[[Hn Hf] Hs]]; [|by split_and!; [..|right]].
    apply elem_of_file_entries in Hnode as [[Hn Hf] Hp]. rewrite iteration_perm in Hpath.
    apply elem_of_expected_paths in Hpath as (base & Hbase & Hpath). split_and!; [done..|left]. eauto.
  - intros (Hn & Hf & _ & [(base & path & Hbase & Hpath & Hp)|Hs]); [left|by right].
    eexists. split; [by apply (elem_of_file_entries file_path path)|]. apply list_elem_of_fmap_2.
    rewrite iteration_perm. apply elem_of_expected_paths. eauto.
Qed.

Context (unique_ids : NoDup (map node_id nodes)).


(** ** The tables *)

Context (edges : list StructuralGraphEdge).
Notation tables := (build_tables nodes (List.filter from_source edges)).

Definition context_of (i : StructuralGraphNode) : ImportContext := {|
  candidate_paths := set_of_list (omap node_path (resolve_module_candidates i files));
  bindings := import_bindings i |}.
Definition import_entry (edge : StructuralGraphEdge) : option (string * ImportContext) :=
  reference ← map_get (to edge) (index_by_id nodes);
  path ← node_path reference; Some (path, context_of reference).

Lemma add_imports_pushes es m :
  foldl (add_import (index_by_id nodes) files) m es =
  foldl (fun m p => push_entry (fst p) (snd p) m) m (omap import_entry es).
Proof.
  revert m. induction es as [|edge es IH]; intros m; [done|]. cbn [foldl omap list_omap]. rewrite IH.
  unfold add_import, import_entry. destruct (map_get _ _) as [reference|]; [|done]. cbn. by destruct (node_path reference).
Qed.
Lemma import_contexts path :
  default [] (map_get path (imports_by_source_path tables)) = map context_of (imports_of nodes edges path).
Proof.
  unfold build_tables. cbn [imports_by_source_path]. rewrite add_imports_pushes. fold (pushes (omap import_entry
    (List.filter (fun edge => seqb (edge_kind edge) "imports") (List.filter from_source edges)))).
  rewrite pushes_default. unfold imports_of, is_import, filed, entries_of.
  induction edges as [|edge es IH]; [done|]. cbn [List.filter]. destruct (from_source edge); cbn [andb]; [|exact IH].
  cbn [List.filter]. destruct (seqb (edge_kind edge) "imports"); [|exact IH]. cbn [omap list_omap].
  unfold import_entry at 1. destruct (map_get (to edge) (index_by_id nodes)) as [reference|]; cbn [mbind option_bind]; [|exact IH].
  cbn [List.filter]. destruct (node_path reference) as [p|]; cbn [mbind option_bind]; [|by rewrite bool_decide_eq_false_2].
  cbn [List.filter fst]. unfold seqb at 1. destruct (decide (p = path)) as [->|Hne].
  - rewrite !bool_decide_eq_true_2 by done. cbn [map snd]. f_equal. exact IH.
  - rewrite !bool_decide_eq_false_2 by naive_solver. exact IH.
Qed.
Lemma looked_up_eq reference :
  let terminal := terminal_reference_name (label reference) in
  default terminal (find_map (fun context => map_get terminal (bindings context))
    (default [] (map_get (source_path reference) (imports_by_source_path tables)))) = looked_up nodes edges reference.
Proof.
  cbn zeta. rewrite import_contexts. unfold looked_up. f_equal.
  induction (imports_of nodes edges (source_path reference)) as [|i l IH]; [done|]. cbn. by rewrite IH.
Qed.

Definition symbol_key (node : StructuralGraphNode) : option string :=
  if is_file node || is_reference node then None else Some (label node).
Lemma elem_of_symbols name node : node ∈ sort_by_id (filed symbol_key nodes name) <-> named_symbol nodes name node.
Proof.
  unfold sort_by_id, named_symbol. rewrite elem_of_sort_by_key, elem_of_filed. unfold symbol_key.
  destruct (is_file node), (is_reference node); cbn; naive_solver.
Qed.
Lemma symbols_at name :
  map_get name (index_symbols nodes) =
  let l := sort_by_id (filed symbol_key nodes name) in if is_nil l then None else Some l.
Proof.
  assert (index_symbols nodes = sort_values (foldl (push_keyed symbol_key) [] nodes)) as ->.
  { unfold index_symbols. f_equal. apply foldl_ext_in. intros m node. unfold push_keyed, symbol_key. by case_match. }
  rewrite sort_values_get, (proj2 (push_keyed_get _ _ _)). cbn zeta.
  pose proof (Permutation_length (sort_by_key_Permutation node_id (filed symbol_key nodes name))) as Hlen.
  fold (sort_by_id (filed symbol_key nodes name)) in Hlen.
  destruct (filed symbol_key nodes name) as [|x l]; [done|]. cbn [is_nil option_map].
  by destruct (sort_by_id (x :: l)).
Qed.


Lemma symbol_candidates_narrow reference :
  resolve_symbol_candidates reference (index_symbols nodes) (imports_by_source_path tables) =
  narrow [fun node => path_is node (source_path reference);
          fun node => any (imported_by (terminal_reference_name (label reference)) (looked_up nodes edges reference) node)
                        (map context_of (imports_of nodes edges (source_path reference)));
          fun node => bool_decide (parent_of node = parent (components (source_path reference)))]
    (sort_by_id (filed symbol_key nodes (looked_up nodes edges reference))).
Proof.
  unfold resolve_symbol_candidates. fold (source_path reference). rewrite looked_up_eq, import_contexts, symbols_at. cbn zeta.
  set (l := sort_by_id _). destruct (is_nil l) eqn:Hnil; [by apply is_nil_true in Hnil as ->|].
  destruct (Nat.leb_spec (length l) 1) as [Hle|Hgt]; [by rewrite narrow_short|done].
Qed.

(** * Edges of references *)


Lemma candidates_known reference node : node ∈ candidates_of tables reference -> node ∈ nodes.
Proof.
  unfold candidates_of. intros Hin%candidates_incl. cbn [file_index build_tables symbols_by_label] in Hin.
  destruct (seqb _ _).
  { rewrite module_candidates_eq in Hin. apply candidates_incl, elem_of_module_matches in Hin. apply Hin. }
  rewrite symbol_candidates_narrow in Hin. apply narrow_incl in Hin. apply elem_of_symbols in Hin. apply Hin.
Qed.

Lemma additions_of_reference edge e :
  edge ∈ edges -> from_source edge = true -> resolve_reference tables edge = Some e -> e ∈ additions nodes edges.
Proof.
  intros Hedge Hs He. unfold additions. rewrite elem_of_app. left. apply list_elem_of_omap. exists edge.
  by rewrite elem_of_filter_bool.
Qed.



End Resolution.

(** * What is added *)

Definition known (nodes : list StructuralGraphNode) (id : string) : Prop := id ∈ map node_id nodes.
(** An added edge claims no more than it can: its origin is resolution, it ends
    at a node, and unless it has one target it names them all. *)
Definition honest (nodes : list StructuralGraphNode) (e : StructuralGraphEdge) : Prop :=
  edge_origin e = OResolution /\ known nodes (to e) /\
  (edge_trust e = Inferred /\ candidates e = [] \/
   edge_trust e = Ambiguous /\ edge_kind e = "candidate_for"%string /\ candidates e <> [] /\
   Forall (known nodes) (candidates e)).
Definition cited (nodes : list StructuralGraphNode) (edges : list StructuralGraphEdge) (s : GraphSourceAnchor) : Prop :=
  (exists edge, edge ∈ edges /\ s ∈ edge_sources edge) \/ (exists node, node ∈ nodes /\ s ∈ node_sources node).

(** The edges that are not added for a reference: a documentation link and its
    file; a test and the file it tests, or the test itself, which lists the files
    it may test; two analytics events of one name. *)
Inductive beside (nodes : list StructuralGraphNode) (e : StructuralGraphEdge) : Prop :=
  | beside_document link file : link ∈ nodes -> node_kind link = "documentation_link"%string -> file ∈ nodes -> is_file file = true ->
      edge_kind e = "documents"%string -> to e = node_id file -> edge_sources e = node_sources link -> beside nodes e
  | beside_test test file : test ∈ nodes -> node_kind test = "test"%string -> file ∈ nodes -> is_file file = true ->
      edge_kind e = "tests"%string -> from e = node_id test -> to e = node_id file -> beside nodes e
  | beside_tests test : test ∈ nodes -> node_kind test = "test"%string -> edge_kind e = "candidate_for"%string ->
      from e = node_id test -> to e = node_id test -> edge_trust e = Ambiguous -> beside nodes e
  | beside_event a b : a ∈ nodes -> b ∈ nodes -> is_event a = true -> is_event b = true -> label a = label b ->
      edge_kind e = "same_event"%string -> from e = node_id a -> to e = node_id b -> beside nodes e.

Lemma known_node nodes node : node ∈ nodes -> known nodes (node_id node).
Proof. by apply (list_elem_of_fmap_2 node_id). Qed.
Lemma known_nodes nodes l : (forall node, node ∈ l -> node ∈ nodes) -> Forall (known nodes) (map node_id l).
Proof. intros Hl. apply Forall_map, Forall_forall. intros node Hin. by apply known_node, Hl. Qed.

Lemma resolve_reference_honest `{Unicode} `{HashOrder} nodes edges edge e :
  resolve_reference (build_tables nodes (List.filter from_source edges)) edge = Some e ->
  honest nodes e /\ edge_sources e = edge_sources edge.
Proof.
  unfold resolve_reference. cbn [node_by_id build_tables].
  destruct (map_get (to edge) (index_by_id nodes)) as [reference|] eqn:Hget; [|done].
  apply index_by_id_get in Hget as [Hr _]. destruct (negb (is_reference reference)); [done|].
  pose proof (candidates_known nodes edges reference) as Hknown.
  set (found := candidates_of _ reference) in *.
  assert (forall identity evidence, found <> [] -> honest nodes (candidate_edge identity evidence edge reference found)) as Hc.
  { intros identity evidence Hne. split_and!; [done|by apply known_node|right]. cbn.
    split_and!; [done..|by destruct found|by apply known_nodes]. }
  assert (found <> [] -> honest nodes (dynamic_candidates edge reference found)) as Hd by apply Hc.
  assert (found <> [] -> honest nodes (plausible_candidates edge reference found)) as Hp by apply Hc.
  clearbody found. clear Hc. intros Hsome.
  destruct (seqb (node_kind reference) "dynamic_reference" && negb (is_nil found)) eqn:E.
  - apply (inj Some) in Hsome as <-. split; [|done]. apply Hd. apply andb_true_iff in E as [_ E]. by destruct found.
  - destruct found as [|x [|y l]]; [done| |]; apply (inj Some) in Hsome as <-; [|by split; [apply Hp|]].
    split; [|done]. split_and!; [done|apply known_node, Hknown; left|by left].
Qed.
Lemma document_edge_honest nodes link e :
  link ∈ nodes -> e ∈ resolve_document_links [link] (files_of nodes) ->
  honest nodes e /\ edge_sources e = node_sources link /\ beside nodes e.
Proof.
  unfold resolve_document_links. set (files := map_of_list _). intros Hlink. cbn [List.filter].
  destruct (seqb (node_kind link) "documentation_link") eqn:Hk; [apply seqb_true in Hk|by intros ?%elem_of_nil].
  intros (l & ->%list_elem_of_singleton & He)%list_elem_of_omap. unfold document_edge in He.
  destruct (node_path link) as [source|]; [|done]. case_match; [done|].
  destruct (map_get _ files) as [file|] eqn:Hget; [|done]. injection He as <-.
  apply map_of_list_elem in Hget. apply list_elem_of_omap in Hget as (f & [Hf Hfile]%elem_of_files & Heq).
  destruct (node_path f); [|done]. injection Heq as _ ->.
  split; [split; [done|]; split; [by apply known_node|by left]|]. split; [done|]. by apply (beside_document _ _ link file).
Qed.
Definition test_key (file : StructuralGraphNode) : option string :=
  path ← node_path file; if is_empty (normalized_test_stem path) then None else Some (normalized_test_stem path).
Lemma index_test_stems_eq files : index_test_stems files = sort_values (foldl (push_keyed test_key) [] files).
Proof.
  unfold index_test_stems. f_equal. apply foldl_ext_in. intros m f. unfold push_keyed, test_key.
  destruct (node_path f); [|done]. cbn. by case_match.
Qed.
Lemma test_edge_honest nodes test e :
  test ∈ nodes -> node_kind test = "test"%string -> test_edge (index_test_stems (files_of nodes)) test = Some e ->
  honest nodes e /\ edge_sources e = node_sources test /\ beside nodes e.
Proof.
  intros Htest Hk. unfold test_edge. destruct (node_path test) as [path|]; [|done]. case_match; [done|].
  pose proof (elem_of_filter_bool (fun file => negb (path_is file path))) as Hin.
  specialize (fun f => Hin f (entries_at (index_test_stems (files_of nodes)) (normalized_test_stem path))).
  set (found := List.filter _ _) in *.
  assert (forall f, f ∈ found -> f ∈ nodes /\ is_file f = true) as Hfound.
  { intros f [Hf _]%Hin. rewrite index_test_stems_eq in Hf. by apply elem_of_entries_at in Hf as [Hf%elem_of_files _]. }
  clearbody found. intros Hsome. destruct found as [|x [|y l]]; [done| |]; apply (inj Some) in Hsome as <-; split.
  - split_and!; [done|apply known_node, Hfound; left|by left].
  - split; [done|]. destruct (Hfound x); [left|]. by apply (beside_test _ _ test x).
  - split_and!; [done|by apply known_node|right]. split_and!; [done..|apply known_nodes]. intros f Hf. by apply Hfound.
  - split; [done|]. by apply (beside_tests _ _ test).
Qed.

Lemma elem_of_chain e l : e ∈ chain l -> exists a b, a ∈ l /\ b ∈ l /\ e = same_event a b.
Proof.
  induction l as [|a [|b l] IH]; [by intros ?%elem_of_nil..|]. intros [->|He]%elem_of_cons.
  - exists a, b. split_and!; [left|right; left|done].
  - destruct (IH He) as (x & y & Hx & Hy & ->). exists x, y. split_and!; [by right|by right|done].
Qed.
(** The map of events holds the events of each label. *)
Definition events_by_label (nodes : list StructuralGraphNode) : BTreeMap string (list StructuralGraphNode) :=
  foldl (fun m node => push_entry (label node) node m) [] (List.filter is_event nodes).
Lemma events_keyed nodes :
  events_by_label nodes = foldl (push_keyed (fun node => Some (label node))) [] (List.filter is_event nodes).
Proof. done. Qed.
Lemma events_chains `{HashOrder} nodes :
  relate_analytics_events nodes ≡ₚ concat (map chain (map_values (sort_values (events_by_label nodes)))).
Proof.
  unfold relate_analytics_events. fold (events_by_label nodes). rewrite iteration_perm.
  unfold map_values, sort_values. by rewrite !map_map.
Qed.
Lemma event_edge `{HashOrder} nodes e :
  e ∈ relate_analytics_events nodes ->
  exists a b, a ∈ nodes /\ b ∈ nodes /\ is_event a = true /\ is_event b = true /\ label a = label b /\ e = same_event a b.
Proof.
  rewrite events_chains, elem_of_concat. intros (es & He & (occurrences & -> & ([k l] & -> & Hin)%list_elem_of_fmap)%list_elem_of_fmap).
  apply elem_of_chain in He as (a & b & Ha & Hb & ->). rewrite events_keyed in Hin. cbn [snd] in *.
  apply map_get_Some in Hin; [|apply sort_values_wf, (push_keyed_get _ _ "")].
  assert (l = entries_at (sort_values (foldl (push_keyed (fun node => Some (label node))) [] (List.filter is_event nodes))) k) as ->
    by by unfold entries_at; rewrite Hin.
  apply elem_of_entries_at in Ha as [[? ?]%elem_of_filter_bool [= ?]], Hb as [[? ?]%elem_of_filter_bool [= ?]].
  exists a, b. split_and!; congruence || done.
Qed.

(** Resolution is honest, on every graph.  The edges there were stay as they
    are; each edge added has resolution as its origin, is inferred or ambiguous,
    never extracted, and ends at a node of the graph.  An inferred edge has no
    other candidates; an ambiguous one is a [candidate_for] edge that lists
    candidates of the graph.  The source it cites is cited by an edge or a node
    already there. *)
Theorem resolution_honest `{Unicode} `{HashOrder} nodes edges :
  exists added, resolve_cross_file nodes edges = edges ++ added /\
    Forall (fun e => honest nodes e /\ Forall (cited nodes edges) (edge_sources e)) added.
Proof.
  exists (additions nodes edges). split; [done|]. apply Forall_forall. intros e.
  assert (forall node, node ∈ nodes -> Forall (cited nodes edges) (node_sources node)) as Hcited.
  { intros node Hn. apply Forall_forall. intros s Hs. right. eauto. }
  unfold additions. rewrite !elem_of_app. intros [He|[He|[He|He]]].
  - apply list_elem_of_omap in He as (edge & [Hedge _]%elem_of_filter_bool & He).
    apply resolve_reference_honest in He as [? ->]. split; [done|]. apply Forall_forall. intros s Hs. left. eauto.
  - apply list_elem_of_omap in He as (link & [Hl Hk]%elem_of_filter_bool & He).
    destruct (document_edge_honest nodes link e Hl) as (? & -> & _); [|auto].
    unfold resolve_document_links. cbn [List.filter]. rewrite Hk. cbn. rewrite He. left.
  - apply list_elem_of_omap in He as (test & [Ht Hk%seqb_true]%elem_of_filter_bool & He).
    apply test_edge_honest in He as (? & -> & _); auto.
  - apply event_edge in He as (a & b & Ha & Hb & _ & _ & _ & ->). split.
    + split_and!; [done|by apply known_node|by left].
    + cbn. apply Forall_app. auto.
Qed.

(** * What references become *)





(** * Order *)

(** * Order *)

Section Order.
Context `{Unicode} (nodes nodes' : list StructuralGraphNode) (Hnodes : nodes ≡ₚ nodes') (Hids : NoDup (map node_id nodes)).
Context (order order' : HashOrder).

Lemma sort_by_id_ext l k : l ≡ₚ k -> (forall x, x ∈ l -> x ∈ nodes) -> sort_by_id l = sort_by_id k.
Proof.
  intros Hlk Hl. apply (sort_by_key_ext node_id); [done|]. intros x y Hx Hy.
  apply (key_identifies node_id nodes Hids); by apply Hl.
Qed.
Lemma files_of_ext : files_of nodes = files_of nodes'.
Proof. apply sort_by_id_ext; [by apply filter_perm|]. by intros x [? _]%elem_of_filter_bool. Qed.
Lemma sorted_entries_ext key l k : l ≡ₚ k -> (forall x, x ∈ l -> x ∈ nodes) ->
  sort_values (foldl (push_keyed key) [] l) = sort_values (foldl (push_keyed key) [] k).
Proof.
  intros Hlk Hl. apply map_ext_get; [apply sort_values_wf, (push_keyed_get _ _ "")..|]. intros j.
  rewrite !sort_values_get, !(proj2 (push_keyed_get _ _ _)).
  assert (filed key l j ≡ₚ filed key k j) as Hperm by by apply filter_perm.
  assert (sort_by_id (filed key l j) = sort_by_id (filed key k j)) as Heq.
  { apply sort_by_id_ext; [done|]. intros x [Hx _]%elem_of_filed. by apply Hl. }
  destruct (filed key l j) as [|x l']; [by apply Permutation_nil_l in Hperm as ->|].
  destruct (filed key k j); [by apply Permutation_nil_r in Hperm|]. cbn [is_nil option_map]. by rewrite Heq.
Qed.
Lemma index_symbols_ext : index_symbols nodes = index_symbols nodes'.
Proof.
  assert (forall l, index_symbols l = sort_values (foldl (push_keyed symbol_key) [] l)) as Heq.
  { intros l. unfold index_symbols. f_equal. apply foldl_ext_in. intros m node. unfold push_keyed, symbol_key. by case_match. }
  rewrite !Heq. by apply sorted_entries_ext.
Qed.
Lemma index_by_id_ext : index_by_id nodes = index_by_id nodes'.
Proof. unfold index_by_id. apply map_of_list_perm; [by rewrite Hnodes|]. by rewrite map_map. Qed.

Lemma module_candidates_ext reference :
  @resolve_module_candidates order reference (FileIndex_new (files_of nodes)) =
  @resolve_module_candidates order' reference (FileIndex_new (files_of nodes)).
Proof.
  rewrite !module_candidates_eq. f_equal. apply sort_by_id_ext; [|by intros x [Hx _]%elem_of_module_matches].
  unfold module_matches. case_match; [done|]. by rewrite (iteration_perm (HashOrder := order)), (iteration_perm (HashOrder := order')).
Qed.
Lemma build_tables_ext edges : @build_tables _ order nodes edges = @build_tables _ order' nodes' edges.
Proof.
  unfold build_tables. rewrite <- index_by_id_ext, <- index_symbols_ext, <- files_of_ext. f_equal.
  apply foldl_ext_in. intros m edge. unfold add_import.
  destruct (map_get _ _) as [reference|]; [|done]. by rewrite module_candidates_ext.
Qed.
Lemma candidates_of_ext reference edges :
  @candidates_of order (@build_tables _ order nodes edges) reference =
  @candidates_of order' (@build_tables _ order' nodes' edges) reference.
Proof.
  rewrite <- build_tables_ext. unfold candidates_of. cbn [file_index build_tables]. by rewrite module_candidates_ext.
Qed.
Lemma additions_ext edges : @additions _ order nodes edges ≡ₚ @additions _ order' nodes' edges.
Proof.
  unfold additions. rewrite <- files_of_ext. f_equiv; [|f_equiv; [|f_equiv]].
  - apply Permutation_refl'. apply list_omap_ext, Forall2_same_length_lookup_2; [done|].
    intros i edge edge2 H1 H2. simplify_eq. unfold resolve_reference. rewrite build_tables_ext.
    destruct (map_get _ _) as [reference|]; [|done]. by rewrite <- candidates_of_ext, build_tables_ext.
  - unfold resolve_document_links. by rewrite (filter_perm _ _ _ Hnodes).
  - unfold resolve_test_targets. by rewrite (filter_perm _ _ _ Hnodes).
  - rewrite !events_chains, !events_keyed. rewrite (sorted_entries_ext _ (List.filter is_event nodes)
      (List.filter is_event nodes')); [done|by apply filter_perm|]. by intros x [? _]%elem_of_filter_bool.
Qed.
End Order.

(** C20: Neither the order of the nodes nor the order in which hash tables are
    walked changes what resolution finds: on graphs whose node identities are
    distinct the result has the same edges, the references' ones in the same
    order. *)
Theorem resolution_order_independent `{Unicode} nodes nodes' edges order order' :
  nodes ≡ₚ nodes' -> NoDup (map node_id nodes) ->
  @resolve_cross_file _ order nodes edges ≡ₚ @resolve_cross_file _ order' nodes' edges.
Proof. intros Hnodes Hids. unfold resolve_cross_file. by rewrite (additions_ext nodes nodes' Hnodes Hids order order'). Qed.
Lemma ex_import_ids : NoDup (map node_id ex_import_nodes).
Proof. apply (bool_decide_unpack (NoDup (map node_id ex_import_nodes))). vm_compute. done. Qed.
Lemma resolution_order_independent_witness :
  ex_import_nodes ≡ₚ reverse ex_import_nodes /\ NoDup (map node_id ex_import_nodes) /\
  @resolve_cross_file ascii in_order ex_import_nodes ex_import_edges ≡ₚ
  @resolve_cross_file ascii in_reverse (reverse ex_import_nodes) ex_import_edges.
Proof.
  assert (ex_import_nodes ≡ₚ reverse ex_import_nodes) as Hnodes by (symmetry; apply reverse_Permutation).
  split_and!; [exact Hnodes|exact ex_import_ids|].
  exact (@resolution_order_independent ascii _ _ _ in_order in_reverse Hnodes ex_import_ids).
Defined.

