(* ===== verification/Contracts.v ===== *)
(** [src/crates/codevetter-core/src/commands/business_rule_archaeology/contracts.rs]:
    the vocabulary every archaeology component shares, and the validators a
    source span, a rule clause and a rule packet pass before they are trusted.
    The theorems characterise each validator: what a value it accepts is known
    to satisfy, and that it rejects nothing else. *)
From S2P Require Import Prelude Ordering RustText.
Local Open Scope N_scope.

Definition ARCHAEOLOGY_SCHEMA_VERSION : N := 1.

Inductive ArchaeologyCoverageState : Type :=
  | CoverageComplete | CoveragePartial | CoverageUnavailable.
Inductive ArchaeologyTrust : Type :=
  | TrustExtracted | TrustDeterministic | TrustModelSynthesized | TrustHumanConfirmed | TrustUnknown.
Inductive ArchaeologyConfidence : Type :=
  | ConfidenceHigh | ConfidenceMedium | ConfidenceLow | ConfidenceUnavailable.
Inductive ArchaeologyRuleLifecycle : Type :=
  | LifecycleCandidate | LifecycleReviewNeeded | LifecycleAccepted | LifecycleRejected
  | LifecycleSuperseded | LifecycleConflicted | LifecycleUnavailable.
Inductive ArchaeologyFactKind : Type :=
  | FactDeclaration | FactDataField | FactConstant | FactPredicate | FactDecision
  | FactCalculation | FactMutation | FactCall | FactInputOutput | FactTransaction
  | FactControlFlow | FactEntryPoint | FactInclude | FactUnresolved.
Inductive ArchaeologyFactEdgeKind : Type :=
  | EdgeDefines | EdgeReads | EdgeWrites | EdgeCalls | EdgeIncludes | EdgeControls
  | EdgeBranchesTo | EdgeCalculates | EdgeBeginsTransaction | EdgeCommitsTransaction
  | EdgeRollsBackTransaction | EdgeSupports | EdgeContradicts | EdgeAliases | EdgeUnresolved.
Inductive ArchaeologyRuleKind : Type :=
  | RuleValidation | RuleCalculation | RuleEligibility | RuleEntitlement | RuleRouting
  | RuleMutation | RuleException | RuleLifecycle | RuleTransaction | RuleOther.
Inductive ArchaeologySourceClassification : Type :=
  | ClassSource | ClassGenerated | ClassVendor | ClassProtected | ClassOpaque | ClassUnavailable.

#[export] Instance coverage_state_eq_dec : EqDecision ArchaeologyCoverageState.
Proof. solve_decision. Defined.
#[export] Instance trust_eq_dec : EqDecision ArchaeologyTrust.
Proof. solve_decision. Defined.
#[export] Instance confidence_eq_dec : EqDecision ArchaeologyConfidence.
Proof. solve_decision. Defined.
#[export] Instance lifecycle_eq_dec : EqDecision ArchaeologyRuleLifecycle.
Proof. solve_decision. Defined.
#[export] Instance fact_kind_eq_dec : EqDecision ArchaeologyFactKind.
Proof. solve_decision. Defined.
#[export] Instance fact_edge_kind_eq_dec : EqDecision ArchaeologyFactEdgeKind.
Proof. solve_decision. Defined.
#[export] Instance rule_kind_eq_dec : EqDecision ArchaeologyRuleKind.
Proof. solve_decision. Defined.
#[export] Instance classification_eq_dec : EqDecision ArchaeologySourceClassification.
Proof. solve_decision. Defined.

Record ArchaeologySourceUnitIdentity : Type := {
  unit_source_unit_id : string;
  unit_repository_id : string;
  unit_revision_sha : string;
  unit_path_identity : string;
  unit_relative_path : option string;
  unit_content_hash : option string;
  unit_hash_algorithm : option string;
  unit_change_identity : option string
}.

Record ArchaeologyPosition : Type := { byte : N; line : N; column : N }.

Record ArchaeologySourceSpan : Type := {
  span_id : string;
  span_source_unit_id : string;
  span_revision_sha : string;
  span_start : ArchaeologyPosition;
  span_end : ArchaeologyPosition
}.

Record ArchaeologyParserCapability : Type := {
  parser_id : string;
  parser_version : string;
  capability_language : string;
  dialects : list string;
  constructs : list ArchaeologyFactKind;
  exact_spans : bool;
  preprocessing : bool;
  recovery : bool
}.

Record ArchaeologyCoverage : Type := {
  coverage_state : ArchaeologyCoverageState;
  parser_coverage : ArchaeologyCoverageState;
  repository_coverage : ArchaeologyCoverageState;
  temporal_coverage : ArchaeologyCoverageState;
  discovered_source_units : N;
  indexed_source_units : N;
  discovered_bytes : N;
  indexed_bytes : N;
  reasons : list string
}.

#[export] Instance coverage_eq_dec : EqDecision ArchaeologyCoverage.
Proof. solve_decision. Defined.

Record ArchaeologyAttribute : Type := { attribute_key : string; attribute_value : string }.

Record ArchaeologyFact : Type := {
  fact_id : string;
  fact_kind : ArchaeologyFactKind;
  fact_label : string;
  fact_span_ids : list string;
  fact_parser_id : string;
  fact_trust : ArchaeologyTrust;
  fact_confidence : ArchaeologyConfidence;
  fact_attributes : list ArchaeologyAttribute
}.

Record ArchaeologyFactEdge : Type := {
  fact_edge_id : string;
  from_fact_id : string;
  to_fact_id : string;
  fact_edge_kind : ArchaeologyFactEdgeKind;
  fact_edge_trust : ArchaeologyTrust;
  fact_edge_evidence_span_ids : list string;
  unresolved_reason : option string
}.

Record ArchaeologyRuleClause : Type := {
  clause_id : string;
  clause_text : string;
  clause_trust : ArchaeologyTrust;
  clause_confidence : ArchaeologyConfidence;
  supporting_fact_ids : list string;
  contradicting_fact_ids : list string;
  evidence_span_ids : list string;
  caveats : list string
}.

Record ArchaeologyRulePacket : Type := {
  rule_id : string;
  rule_repository_id : string;
  rule_generation_id : string;
  rule_revision_sha : string;
  rule_kind : ArchaeologyRuleKind;
  rule_title : string;
  domain_ids : list string;
  rule_lifecycle : ArchaeologyRuleLifecycle;
  rule_trust : ArchaeologyTrust;
  rule_confidence : ArchaeologyConfidence;
  clauses : list ArchaeologyRuleClause;
  dependency_rule_ids : list string;
  conflict_rule_ids : list string;
  alias_rule_ids : list string;
  rule_coverage : ArchaeologyCoverage;
  rule_parser_identity : string;
  rule_algorithm_identity : string;
  rule_synthesis_identity : option string
}.

(** What a rule is derived from: an anchor fact with the facts and
    relationships around it, and every span they cite. *)
Record ArchaeologyEvidencePacket : Type := {
  packet_id : string;
  packet_kind : ArchaeologyRuleKind;
  anchor_fact_id : string;
  packet_supporting_fact_ids : list string;
  packet_contradicting_fact_ids : list string;
  relationship_ids : list string;
  packet_evidence_span_ids : list string;
  unresolved_fact_ids : list string;
  unresolved_reasons : list string;
  packet_confidence : ArchaeologyConfidence;
  packet_caveats : list string
}.

(** Where a fact comes from (deterministic_rules.rs). *)
Record ArchaeologyFactOrigin : Type := {
  origin_fact_id : string;
  origin_source_unit_id : string;
  origin_path_identity : string;
  origin_ranking_path_identity : string;
  origin_classification : ArchaeologySourceClassification
}.

(** [format!("{kind:?}")] *)
Definition edge_kind_debug (kind : ArchaeologyFactEdgeKind) : string :=
  match kind with
  | EdgeDefines => "Defines" | EdgeReads => "Reads" | EdgeWrites => "Writes" | EdgeCalls => "Calls"
  | EdgeIncludes => "Includes" | EdgeControls => "Controls" | EdgeBranchesTo => "BranchesTo"
  | EdgeCalculates => "Calculates" | EdgeBeginsTransaction => "BeginsTransaction"
  | EdgeCommitsTransaction => "CommitsTransaction" | EdgeRollsBackTransaction => "RollsBackTransaction"
  | EdgeSupports => "Supports" | EdgeContradicts => "Contradicts" | EdgeAliases => "Aliases"
  | EdgeUnresolved => "Unresolved"
  end.

(** ** Validators *)

Definition validate_revision_sha (value : string) : outcome unit :=
  if ((blen value =? 40) || (blen value =? 64))
     && forallb (fun b => is_ascii_hexdigit b && negb (is_ascii_uppercase b)) (bytes value)
  then Ok tt
  else Err "An exact lowercase full revision SHA is required".

Definition ArchaeologySourceSpan_validate (self : ArchaeologySourceSpan) : outcome unit :=
  if is_empty (span_id self) || is_empty (span_source_unit_id self)
  then Err "Source span identity is required" else
  _ ← validate_revision_sha (span_revision_sha self);
  if (line (span_start self) =? 0) || (column (span_start self) =? 0)
     || (line (span_end self) =? 0) || (column (span_end self) =? 0)
  then Err "Source span lines and columns are one-based" else
  if (byte (span_end self) <? byte (span_start self))
     || (line (span_end self) <? line (span_start self))
     || (line (span_end self) =? line (span_start self))
        && (column (span_end self) <? column (span_start self))
  then Err "Source span end precedes its start" else
  Ok tt.

Definition ArchaeologyRuleClause_validate (self : ArchaeologyRuleClause) : outcome unit :=
  if is_empty (clause_id self) || trim_is_empty (clause_text self)
  then Err "Rule clause identity and text are required" else
  if is_nil (supporting_fact_ids self) || is_nil (evidence_span_ids self)
  then Err "Every rule clause requires supporting facts and source spans" else
  Ok tt.

Definition ArchaeologyRulePacket_validate (self : ArchaeologyRulePacket) : outcome unit :=
  if is_empty (rule_id self) || is_empty (rule_repository_id self)
     || is_empty (rule_generation_id self)
  then Err "Rule, repository, and generation identities are required" else
  _ ← validate_revision_sha (rule_revision_sha self);
  if is_nil (clauses self) then Err "A published rule requires at least one clause" else
  for_all ArchaeologyRuleClause_validate (clauses self).

(** * What the validators accept *)

(** A lowercase hexadecimal digit. *)
Definition lower_hex_digit (b : N) : Prop := 48 <= b <= 57 \/ 97 <= b <= 102.
Definition full_sha (value : string) : Prop :=
  (blen value = 40 \/ blen value = 64) /\ Forall lower_hex_digit (bytes value).

Lemma in_range_true lo hi b : in_range lo hi b = true <-> lo <= b <= hi.
Proof. unfold in_range. rewrite andb_true_iff, !N.leb_le. done. Qed.
Lemma in_range_false lo hi b : in_range lo hi b = false <-> ~ (lo <= b <= hi).
Proof. rewrite <- in_range_true. by destruct (in_range lo hi b). Qed.

Lemma lower_hex_byte b :
  is_ascii_hexdigit b && negb (is_ascii_uppercase b) = true <-> lower_hex_digit b.
Proof.
  unfold is_ascii_hexdigit, is_ascii_digit, is_ascii_uppercase, lower_hex_digit.
  rewrite andb_true_iff, negb_true_iff, !orb_true_iff, !in_range_true, in_range_false. lia.
Qed.

Lemma forallb_Forall {A} (p : A -> bool) (P : A -> Prop) l :
  (forall x, p x = true <-> P x) -> forallb p l = true <-> Forall P l.
Proof.
  intros Hp. induction l as [|x l IH]; cbn; [split; [constructor|done]|].
  by rewrite andb_true_iff, Forall_cons, IH, Hp.
Qed.

Lemma validate_revision_sha_cases value :
  validate_revision_sha value = Ok tt \/
  validate_revision_sha value = Err "An exact lowercase full revision SHA is required".
Proof. unfold validate_revision_sha. case_match; auto. Qed.

Lemma validate_revision_sha_Ok value : validate_revision_sha value = Ok tt <-> full_sha value.
Proof.
  unfold validate_revision_sha, full_sha. rewrite if_Ok_Err, andb_true_iff, orb_true_iff, !N.eqb_eq.
  rewrite (forallb_Forall _ _ _ lower_hex_byte). tauto.
Qed.

(** A revision is accepted exactly when it is 40 or 64 lowercase
    hexadecimal digits, and every rejection carries the same message. *)
Theorem validate_revision_sha_spec (value : string) :
  (validate_revision_sha value = Ok tt <-> full_sha value) /\
  (validate_revision_sha value = Err "An exact lowercase full revision SHA is required"
     <-> ~ full_sha value).
Proof.
  rewrite <- validate_revision_sha_Ok. split; [done|].
  destruct (validate_revision_sha_cases value) as [-> | ->]; naive_solver.
Qed.

Definition position_le (p q : ArchaeologyPosition) : Prop :=
  byte p <= byte q /\ (line p < line q \/ line p = line q /\ column p <= column q).
Definition span_wf (s : ArchaeologySourceSpan) : Prop :=
  span_id s <> ""%string /\ span_source_unit_id s <> ""%string /\ full_sha (span_revision_sha s) /\
  1 <= line (span_start s) /\ 1 <= column (span_start s) /\
  1 <= line (span_end s) /\ 1 <= column (span_end s) /\
  position_le (span_start s) (span_end s).

Lemma span_validate_Ok (s : ArchaeologySourceSpan) :
  ArchaeologySourceSpan_validate s = Ok tt <-> span_wf s.
Proof.
  unfold ArchaeologySourceSpan_validate, span_wf, position_le.
  rewrite if_Err_Ok, then_Ok, !if_Err_Ok, validate_revision_sha_Ok.
  rewrite !orb_false_iff, andb_false_iff, !is_empty_false, !N.eqb_neq, !N.ltb_ge.
  split.
  - intros ((? & ?) & ? & ? & ? & _). split_and!; (done || lia).
  - intros (? & ? & ? & ? & ? & ? & ? & ? & ?). split_and!; (done || lia).
Qed.

(** A source span is accepted exactly when it is identified, names a full
    revision, has one-based positions, and does not end before it starts, in
    bytes and in line-column order both. *)
Theorem source_span_validate_spec (s : ArchaeologySourceSpan) :
  ArchaeologySourceSpan_validate s = Ok tt <-> span_wf s.
Proof. apply span_validate_Ok. Qed.

Definition clause_wf (c : ArchaeologyRuleClause) : Prop :=
  clause_id c <> ""%string /\ trim_is_empty (clause_text c) = false /\
  supporting_fact_ids c <> [] /\ evidence_span_ids c <> [].
Definition rule_wf (r : ArchaeologyRulePacket) : Prop :=
  rule_id r <> ""%string /\ rule_repository_id r <> ""%string /\
  rule_generation_id r <> ""%string /\ full_sha (rule_revision_sha r) /\
  clauses r <> [] /\ Forall clause_wf (clauses r).

Lemma clause_validate_Ok c : ArchaeologyRuleClause_validate c = Ok tt <-> clause_wf c.
Proof.
  unfold ArchaeologyRuleClause_validate, clause_wf.
  rewrite !if_Err_Ok, !orb_false_iff, is_empty_false, !is_nil_false. tauto.
Qed.

(** A rule packet is accepted exactly when it is identified, names a full
    revision, and has at least one clause, every clause carrying text, a
    supporting fact and a source span: no published rule lacks evidence. *)
Theorem rule_packet_validate_spec (r : ArchaeologyRulePacket) :
  ArchaeologyRulePacket_validate r = Ok tt <-> rule_wf r.
Proof.
  unfold ArchaeologyRulePacket_validate, rule_wf.
  rewrite if_Err_Ok, then_Ok, if_Err_Ok, !orb_false_iff, !is_empty_false, is_nil_false, for_all_Ok.
  rewrite (Forall_iff _ _ _ clause_validate_Ok), validate_revision_sha_Ok. tauto.
Qed.
