(* ===== verification/Inventory.v ===== *)
(** The source unit of
    [src/crates/codevetter-core/src/commands/business_rule_archaeology/inventory.rs]
    that the language adapters read and the trusted graph publishes.  Walking the
    repository to find the units is not modelled. *)
From S2P Require Import Prelude Contracts.
Local Open Scope N_scope.

Record ArchaeologyIncludeCandidate : Type := {
  include_kind : string; include_target : string; include_line : N
}.
Record ArchaeologyInventoryUnit : Type := {
  inv_identity : ArchaeologySourceUnitIdentity;
  inv_classification : ArchaeologySourceClassification;
  inv_language : string;
  inv_dialect : option string;
  inv_byte_count : N;
  inv_line_count : N;
  inv_include_candidates : list ArchaeologyIncludeCandidate;
  inv_coverage_reasons : list string
}.
