(* ===== verification/Positions.v ===== *)
(** The source position index of
    [src/crates/codevetter-core/src/commands/business_rule_archaeology/adapter.rs].

    Spans are trusted by byte; the line and column they show are recomputed from
    the source.  [SourcePositionIndex] keeps a checkpoint every [POSITION_STRIDE]
    bytes so that a position costs one short scan.  [at_prefix] is the reference:
    the position after a prefix of the characters, computed from the start.  The
    theorems say the index gives the reference position at every character
    boundary, and that [byte_at] finds a byte by line and column exactly when
    the line has it.

    A [str] is at most [isize::MAX] bytes long, which keeps the line, column and
    stride arithmetic from saturating. *)
From S2P Require Import Prelude RustText Utf8 Contracts.
Local Open Scope N_scope.

Definition isize_max : N := 9223372036854775807.
Definition POSITION_STRIDE : N := 256.
Definition NEWLINE : N := 10.

Record PositionCheckpoint : Type := { cp_byte : N; cp_line : N; cp_column : N }.
Record SourcePositionIndex : Type := { checkpoints : list PositionCheckpoint }.

(** Line and column after one character. *)
Definition advance (p : PositionCheckpoint) (character : N) : PositionCheckpoint :=
  if character =? NEWLINE
  then {| cp_byte := cp_byte p; cp_line := saturating_add (cp_line p) 1; cp_column := 1 |}
  else {| cp_byte := cp_byte p; cp_line := cp_line p; cp_column := saturating_add (cp_column p) 1 |}.
Definition at_byte (p : PositionCheckpoint) (b : N) : PositionCheckpoint :=
  {| cp_byte := b; cp_line := cp_line p; cp_column := cp_column p |}.
Definition source_start : PositionCheckpoint := {| cp_byte := 0; cp_line := 1; cp_column := 1 |}.

(** [s.char_indices()]: the byte each character starts at, and the character. *)
Fixpoint offsets (i : N) (l : list (N * string)) : list (N * N) :=
  match l with
  | [] => []
  | (c, e) :: l => (i, c) :: offsets (i + blen e) l
  end.

(** The [while next <= limit] loop. *)
Fixpoint fill (fuel : nat) (limit : N) (current previous : PositionCheckpoint)
    (found : list PositionCheckpoint) (next : N) : outcome (list PositionCheckpoint * N) :=
  if next <=? limit then
    match fuel with
    | O => Crash "out of fuel"
    | S fuel =>
        fill fuel limit current previous (found ++ [if next =? limit then current else previous])
          (saturating_add next POSITION_STRIDE)
    end
  else Ok (found, next).
Definition fill_fuel (limit : N) : nat := S (N.to_nat (limit / POSITION_STRIDE)).

Record index_state : Type := {
  is_found : list PositionCheckpoint; is_next : N;
  is_current : PositionCheckpoint; is_previous : PositionCheckpoint
}.
Definition index_char (st : index_state) (entry : N * N) : outcome index_state :=
  let current := at_byte (is_current st) (fst entry) in
  filled ← fill (fill_fuel (fst entry)) (fst entry) current (is_previous st) (is_found st) (is_next st);
  Ok {| is_found := fst filled; is_next := snd filled;
        is_current := advance current (snd entry); is_previous := current |}.

Definition SourcePositionIndex_new (source : string) : outcome SourcePositionIndex :=
  st ← for_each index_char
         {| is_found := []; is_next := 0; is_current := source_start; is_previous := source_start |}
         (offsets 0 (char_indices source));
  filled ← fill (fill_fuel (blen source)) (blen source) (at_byte (is_current st) (blen source))
             (is_previous st) (is_found st) (is_next st);
  Ok {| checkpoints := fst filled |}.

Definition position (self : SourcePositionIndex) (source : string) (b : N)
    : outcome (option ArchaeologyPosition) :=
  if (blen source <? b) || negb (is_char_boundary source b) then Ok None else
  checkpoint ← index_or_panic (checkpoints self !! N.to_nat (b / POSITION_STRIDE));
  text ← slice source (cp_byte checkpoint) b;
  let p := foldl advance checkpoint (chars text) in
  Ok (Some {| byte := b; line := cp_line p; column := cp_column p |}).

#[export] Instance position_eq_dec : EqDecision ArchaeologyPosition.
Proof. solve_decision. Defined.

Definition matches (self : SourcePositionIndex) (source : string) (p : ArchaeologyPosition)
    : outcome bool :=
  found ← position self source (byte p); Ok (bool_decide (found = Some p)).

(** [slice::partition_point] on a partitioned slice. *)
Fixpoint partition_point {A} (p : A -> bool) (l : list A) : nat :=
  match l with
  | [] => O
  | x :: l => if p x then S (partition_point p l) else O
  end.

(** The search for the start of a line, from the text at a byte. *)
Fixpoint find_line (target start current_line line_start : N) (l : list (N * N)) : N * N :=
  match l with
  | [] => (current_line, line_start)
  | (offset, character) :: l =>
      if character =? NEWLINE then
        let current_line := saturating_add current_line 1 in
        let line_start := start + offset + 1 in
        if current_line =? target then (current_line, line_start)
        else find_line target start current_line line_start l
      else find_line target start current_line line_start l
  end.

Definition byte_at (self : SourcePositionIndex) (source : string) (target byte_column : N)
    : outcome (option N) :=
  if (target =? 0) || (byte_column =? 0) then Ok None else
  checkpoint ← index_or_panic
    (checkpoints self !! (partition_point (fun c => cp_line c <? target)%N (checkpoints self) - 1)%nat);
  found ← (if cp_line checkpoint <? target then
             text ← slice source (cp_byte checkpoint) (blen source);
             Ok (find_line target (cp_byte checkpoint) (cp_line checkpoint) (cp_byte checkpoint)
                   (offsets 0 (char_indices text)))
           else Ok (cp_line checkpoint, cp_byte checkpoint));
  if negb (fst found =? target) then Ok None else
  match checked_add (snd found) (byte_column - 1) with
  | None => Ok None
  | Some b =>
      p ← position self source b;
      Ok (match p with Some p => if line p =? target then Some b else None | None => None end)
  end.

(** ** Examples *)

Definition ex_source : string :=
  ("ab" ++ String (char_of 10) ("c" ++ encode_utf8 233 ++ "d" ++ String (char_of 10) ""))%string.
Example ex_source_utf8 : from_utf8 ex_source = true.
Proof. vm_compute. reflexivity. Qed.
Example ex_position :
  (idx ← SourcePositionIndex_new ex_source; position idx ex_source 6) =
  Ok (Some {| byte := 6; line := 2; column := 3 |}).
Proof. vm_compute. reflexivity. Qed.
Example ex_position_inside_char :
  (idx ← SourcePositionIndex_new ex_source; position idx ex_source 5) = Ok None.
Proof. vm_compute. reflexivity. Qed.
Example ex_byte_at :
  (idx ← SourcePositionIndex_new ex_source; byte_at idx ex_source 2 4) = Ok (Some 6).
Proof. vm_compute. reflexivity. Qed.
Example ex_byte_at_off_line :
  (idx ← SourcePositionIndex_new ex_source; byte_at idx ex_source 1 4) = Ok None.
Proof. vm_compute. reflexivity. Qed.

(** * The reference: one scan from the start *)

Fixpoint locate (p : PositionCheckpoint) (l : list (N * string)) (b : N) : option PositionCheckpoint :=
  if b =? 0 then Some p else
  match l with
  | [] => None
  | (c, e) :: l => if blen e <=? b then locate (advance p c) l (b - blen e) else None
  end.
Definition reference_position (source : string) (b : N) : option ArchaeologyPosition :=
  (fun p => {| byte := b; line := cp_line p; column := cp_column p |})
    <$> locate source_start (char_indices source) b.

Definition scan (p : PositionCheckpoint) (l : list (N * string)) : PositionCheckpoint :=
  foldl advance p (map fst l).
Definition at_prefix (l : list (N * string)) : PositionCheckpoint := at_byte (scan source_start l) (size l).

Lemma scan_app p l k : scan p (l ++ k) = scan (scan p l) k.
Proof. unfold scan. by rewrite map_app, foldl_app. Qed.
Lemma scan_snoc p l c e : scan p (l ++ [(c, e)]) = advance (scan p l) c.
Proof. by rewrite scan_app. Qed.
Lemma at_byte_scan p b l : at_byte (scan (at_byte p b) l) (cp_byte p) = scan (at_byte p (cp_byte p)) l.
Proof.
  revert p. induction l as [|[c e] l IH] using rev_ind; intros p; [by destruct p|].
  rewrite !scan_snoc. unfold advance. rewrite <- IH. by case_match.
Qed.
Lemma scan_at_byte p b l :
  cp_line (scan (at_byte p b) l) = cp_line (scan p l) /\ cp_column (scan (at_byte p b) l) = cp_column (scan p l).
Proof.
  induction l as [|[c e] l [IHl IHc]] using rev_ind; [done|]. rewrite !scan_snoc. unfold advance.
  case_match; cbn; by rewrite ?IHl, ?IHc.
Qed.

Lemma locate_prefix p l1 l2 :
  (forall ce, ce ∈ l1 -> 1 <= blen (snd ce)) -> locate p (l1 ++ l2) (size l1) = Some (scan p l1).
Proof.
  revert p. induction l1 as [|[c e] l1 IH]; intros p Hpos; cbn.
  - by destruct l2 as [|[] ?].
  - pose proof (Hpos (c, e) ltac:(left)) as He. cbn in He.
    rewrite (proj2 (N.eqb_neq _ _)), (proj2 (N.leb_le _ _)) by lia.
    replace (blen e + size l1 - blen e) with (size l1) by lia. apply IH. intros ce Hce. apply Hpos. by right.
Qed.
Lemma locate_boundary p l b x : locate p l b = Some x -> boundary_at l b = true.
Proof.
  revert p b. induction l as [|[c e] l IH]; intros p b; cbn; destruct (b =? 0); cbn; try done.
  destruct (blen e <=? b); [cbn; apply IH|done].
Qed.

(** * The index *)

Definition checkpoint_at (l : list (N * string)) (bound : N) (cp : PositionCheckpoint) : Prop :=
  exists l1 l2, l = l1 ++ l2 /\ cp = at_prefix l1 /\ size l1 <= bound.

(** Every checkpoint is the reference position of a prefix that ends at or
    before its stride, and checkpoints advance. *)
Record index_wf (l : list (N * string)) (found : list PositionCheckpoint) : Prop := {
  iw_at : forall k cp, found !! k = Some cp -> checkpoint_at l (POSITION_STRIDE * N.of_nat k) cp;
  iw_sorted : StronglySorted (fun a b => cp_byte a <= cp_byte b) found
}.

Lemma index_wf_snoc l found cp :
  index_wf l found -> checkpoint_at l (POSITION_STRIDE * len found) cp ->
  Forall (fun a => cp_byte a <= cp_byte cp) found -> index_wf l (found ++ [cp]).
Proof.
  intros [Hat Hsort] Hcp Hle. split.
  - intros k x Hk. apply lookup_app_Some in Hk as [Hk|[Hge Hk]]; [by apply Hat|].
    apply list_lookup_singleton_Some in Hk as [Hk ->]. unfold len in Hcp.
    by replace k with (length found) by lia.
  - apply StronglySorted_app. split_and!; [|done|repeat constructor].
    intros a b Ha ->%list_elem_of_singleton. rewrite Forall_forall in Hle. by apply Hle.
Qed.

Lemma checkpoint_at_le l b1 b2 cp : b1 <= b2 -> checkpoint_at l b1 cp -> checkpoint_at l b2 cp.
Proof. intros Hle (l1 & l2 & Hl & Hcp & Hs). exists l1, l2. split_and!; [done|done|lia]. Qed.

(** Filling up to a limit leaves the checkpoints of all strides up to it. *)
Lemma fill_Ok fuel limit l cur prev found next :
  limit <= isize_max -> next = POSITION_STRIDE * len found ->
  limit / POSITION_STRIDE < N.of_nat fuel + len found ->
  checkpoint_at l limit cur -> cp_byte cur = limit ->
  checkpoint_at l (cp_byte prev) prev -> cp_byte prev <= next -> cp_byte prev <= limit ->
  index_wf l found -> Forall (fun a => cp_byte a <= cp_byte prev) found ->
  exists found' next', fill fuel limit cur prev found next = Ok (found', next') /\
    next' = POSITION_STRIDE * len found' /\ limit < next' /\ index_wf l found' /\
    Forall (fun a => cp_byte a <= limit) found'.
Proof.
  intros Hlimit Hnext Hfuel Hcur Hcb Hprev Hpn Hpl. revert found next Hnext Hfuel Hpn.
  induction fuel as [|fuel IH]; intros found next -> Hfuel Hpn Hwf Hall; cbn [fill];
    destruct (N.leb_spec (POSITION_STRIDE * len found) limit) as [Hle|Hgt].
  - exfalso. apply (N.Div0.div_le_mono _ _ POSITION_STRIDE) in Hle. unfold POSITION_STRIDE in *.
    rewrite N.mul_comm, N.div_mul in Hle by done. lia.
  - eexists _, _. split_and!; [done|done|lia|done|].
    eapply Forall_impl; [exact Hall|]. intros a Ha. cbn in Ha. lia.
  - set (cp := if _ =? limit then cur else prev).
    assert (saturating_add (POSITION_STRIDE * len found) POSITION_STRIDE = POSITION_STRIDE * len (found ++ [cp])) as ->.
    { rewrite len_snoc. unfold saturating_add, POSITION_STRIDE, usize_max, u64_max, isize_max in *. lia. }
    destruct (N.eqb_spec (POSITION_STRIDE * len found) limit) as [Heq|Hne].
    + assert (index_wf l (found ++ [cp])) as Hwf'.
      { apply index_wf_snoc; [done|by rewrite Heq|]. eapply Forall_impl; [exact Hall|]. intros a Ha. cbn in *.
        subst cp. lia. }
      assert (limit < POSITION_STRIDE * len (found ++ [cp])) as Hgt
        by (rewrite len_snoc; unfold POSITION_STRIDE in *; lia).
      assert (fill fuel limit cur prev (found ++ [cp]) (POSITION_STRIDE * len (found ++ [cp])) =
        Ok (found ++ [cp], POSITION_STRIDE * len (found ++ [cp]))) as ->.
      { destruct fuel; cbn [fill]; by rewrite (proj2 (N.leb_gt _ _) Hgt). }
      eexists _, _. split_and!; [done|done|done|done|]. apply Forall_app. split; [|repeat constructor; subst cp; lia].
      eapply Forall_impl; [exact Hall|]. intros a Ha. cbn in Ha. lia.
    + apply IH; [done| | | |].
      * rewrite len_snoc. lia.
      * rewrite len_snoc. unfold POSITION_STRIDE in *. lia.
      * apply index_wf_snoc; [done| |done]. by eapply checkpoint_at_le.
      * apply Forall_app. split; [done|]. by repeat constructor.
  - eexists _, _. split_and!; [done|done|lia|done|].
    eapply Forall_impl; [exact Hall|]. intros a Ha. cbn in Ha. lia.
Qed.

Lemma offsets_app i l k : offsets i (l ++ k) = offsets i l ++ offsets (i + size l) k.
Proof.
  revert i. induction l as [|[c e] l IH]; intros i; cbn; [by rewrite N.add_0_r|].
  by rewrite IH, N.add_assoc.
Qed.

Section Index.
Context (source : string) (Hutf8 : from_utf8 source = true) (Hlen : blen source <= isize_max).
Abbreviation l := (char_indices source).

Record indexed (l1 : list (N * string)) (st : index_state) : Prop := {
  ix_current : cp_line (is_current st) = cp_line (scan source_start l1) /\
               cp_column (is_current st) = cp_column (scan source_start l1);
  ix_next : is_next st = POSITION_STRIDE * len (is_found st);
  ix_previous : checkpoint_at l (cp_byte (is_previous st)) (is_previous st);
  ix_previous_le : cp_byte (is_previous st) <= is_next st /\ cp_byte (is_previous st) <= size l1;
  ix_found : index_wf l (is_found st);
  ix_behind : Forall (fun a => cp_byte a <= cp_byte (is_previous st)) (is_found st)
}.

Lemma size_prefix l1 l2 : l = l1 ++ l2 -> size l1 <= isize_max.
Proof. intros Hl. pose proof (size_char_indices source) as Hs. rewrite Hl, size_app in Hs. lia. Qed.

(** One fill, at the end of a prefix. *)
Lemma fill_indexed l1 l2 st :
  l = l1 ++ l2 -> indexed l1 st ->
  exists found next, fill (fill_fuel (size l1)) (size l1) (at_byte (is_current st) (size l1))
      (is_previous st) (is_found st) (is_next st) = Ok (found, next) /\
    next = POSITION_STRIDE * len found /\ size l1 < next /\ index_wf l found /\
    Forall (fun a => cp_byte a <= size l1) found.
Proof.
  intros Hl [[Hline Hcol] Hnext Hprev [Hp1 Hp2] Hfound Hall].
  assert (at_byte (is_current st) (size l1) = at_prefix l1) as Hcur.
  { unfold at_prefix, at_byte. by rewrite Hline, Hcol. }
  apply (fill_Ok _ _ l); try done.
  - by eapply size_prefix.
  - unfold fill_fuel. lia.
  - exists l1, l2. by rewrite Hcur.
Qed.

Lemma index_chars :
  exists st, for_each index_char
      {| is_found := []; is_next := 0; is_current := source_start; is_previous := source_start |}
      (offsets 0 l) = Ok st /\ indexed l st.
Proof.
  destruct (for_each_progress (fun pre st => exists l1 l2, l = l1 ++ l2 /\ pre = offsets 0 l1 /\ indexed l1 st)
    index_char {| is_found := []; is_next := 0; is_current := source_start; is_previous := source_start |}
    (offsets 0 l)) as (st & Hst & l1 & l2 & Hl & Hpre & Hix).
  - exists [], l. split; [done|]. split; [done|]. constructor; cbn; [done|done| |lia| |constructor].
    + by exists [], l.
    + split; [done|constructor].
  - intros pre x suf st Hoff (l1 & l2 & Hl & -> & Hix).
    rewrite Hl, offsets_app, N.add_0_l in Hoff. apply app_inv_head in Hoff.
    destruct l2 as [|[c e] l2]; [done|]. cbn in Hoff. injection Hoff as <- _.
    destruct (fill_indexed l1 _ st Hl Hix) as (found & next & Hfill & Hnext & Hlt & Hwf & Hall).
    unfold index_char. cbn [fst snd]. rewrite Hfill. cbn. eexists. split; [done|].
    exists (l1 ++ [(c, e)]), l2. rewrite <- app_assoc, offsets_app. split_and!; [done|done|].
    destruct (ix_current _ _ Hix) as [Hline Hcol].
    assert (at_byte (is_current st) (size l1) = at_prefix l1) as Hcur.
    { unfold at_prefix, at_byte. by rewrite Hline, Hcol. }
    constructor; cbn; [|done| |split; [lia|rewrite size_app; lia]|done|done].
    + rewrite scan_snoc. unfold advance. case_match; cbn; by rewrite ?Hline, ?Hcol.
    + exists l1, ((c, e) :: l2). by rewrite Hcur.
  - exists st. split; [done|]. assert (l2 = []) as ->; [|by rewrite Hl, app_nil_r].
    rewrite Hl, offsets_app in Hpre. rewrite <- (app_nil_r (offsets 0 l1)) in Hpre at 2.
    apply app_inv_head in Hpre. by destruct l2 as [|[]].
Qed.

(** Building the index succeeds, with a checkpoint for every stride. *)
Lemma SourcePositionIndex_new_Ok :
  exists idx, SourcePositionIndex_new source = Ok idx /\ index_wf l (checkpoints idx) /\
    blen source / POSITION_STRIDE < len (checkpoints idx).
Proof.
  unfold SourcePositionIndex_new. destruct index_chars as (st & -> & Hix). cbn [mbind outcome_bind].
  destruct (fill_indexed l [] st) as (found & next & Hfill & Hnext & Hlt & Hwf & _); [by rewrite app_nil_r|done|].
  rewrite size_char_indices in Hfill, Hlt. rewrite Hfill. cbn. eexists. split; [done|]. split; [done|]. cbn.
  apply N.Div0.div_lt_upper_bound. lia.
Qed.

Context (idx : SourcePositionIndex) (Hwf : index_wf l (checkpoints idx)).
Context (Hall : blen source / POSITION_STRIDE < len (checkpoints idx)).

Lemma checkpoint_ok b : b <= blen source ->
  exists cp, checkpoints idx !! N.to_nat (b / POSITION_STRIDE) = Some cp /\ checkpoint_at l b cp.
Proof.
  intros Hb. assert (is_Some (checkpoints idx !! N.to_nat (b / POSITION_STRIDE))) as [cp Hcp].
  { apply lookup_lt_is_Some. apply (N.Div0.div_le_mono _ _ POSITION_STRIDE) in Hb. unfold len in Hall. lia. }
  exists cp. split; [done|]. eapply checkpoint_at_le; [|by apply (iw_at _ _ Hwf)].
  rewrite N2Nat.id. apply N.Div0.mul_div_le.
Qed.

(** Scanning on from a checkpoint before a boundary. *)
Lemma scan_from l1 l2 l3 cp :
  l = l1 ++ l2 ++ l3 -> cp = at_prefix l1 ->
  exists text, slice source (cp_byte cp) (size (l1 ++ l2)) = Ok text /\
    char_indices text = l2 /\
    cp_line (foldl advance cp (chars text)) = cp_line (scan source_start (l1 ++ l2)) /\
    cp_column (foldl advance cp (chars text)) = cp_column (scan source_start (l1 ++ l2)).
Proof.
  intros Hl ->. exists (encode l2). split; [by eapply slice_split|].
  assert (char_indices (encode l2) = l2) as Hpart by (by eapply char_indices_part).
  split; [done|]. unfold chars. rewrite Hpart, scan_app. apply scan_at_byte.
Qed.

(** A checkpoint before a boundary splits the text before it. *)
Lemma checkpoint_split cp b :
  checkpoint_at l b cp -> is_char_boundary source b = true ->
  exists l1 l2 l3, l = l1 ++ l2 ++ l3 /\ cp = at_prefix l1 /\ b = size (l1 ++ l2).
Proof.
  intros (l1 & k & Hl & -> & Hle) (m1 & m2 & Hm & ->)%boundary_at_true.
  rewrite Hl in Hm. apply app_eq_app in Hm as (d & [[-> ->]|[-> ->]]).
  - (* the checkpoint's prefix reaches the boundary *)
    rewrite size_app in Hle. assert (d = []) as ->.
    { destruct d as [|[c e] d]; [done|].
      assert ((c, e) ∈ l) as Hc by (rewrite Hl, !elem_of_app; left; right; left).
      apply (char_nonempty _ _ Hutf8) in Hc. cbn in *. lia. }
    exists m1, [], k. by rewrite !app_nil_r in *.
  - exists l1, d, m2. done.
Qed.

Lemma position_reference b : position idx source b = Ok (reference_position source b).
Proof.
  unfold position, reference_position.
  destruct (blen source <? b) eqn:Hb; cbn [orb].
  { apply N.ltb_lt in Hb. destruct (locate _ _ b) eqn:E; [|done].
    apply locate_boundary, boundary_at_true in E as (l1 & l2 & Hl & ->).
    pose proof (size_char_indices source) as Hs. rewrite Hl, size_app in Hs. lia. }
  apply N.ltb_ge in Hb. destruct (is_char_boundary source b) eqn:Hbd; cbn [negb].
  - destruct (checkpoint_ok b Hb) as (cp & -> & Hcp). cbn.
    destruct (checkpoint_split cp b Hcp Hbd) as (l1 & l2 & l3 & Hl & Hcp' & ->).
    destruct (scan_from l1 l2 l3 cp Hl Hcp') as (text & -> & _ & Hline & Hcol). cbn.
    rewrite Hline, Hcol, Hl, app_assoc, locate_prefix; [done|].
    intros ce Hce. apply (char_nonempty source ce Hutf8). rewrite Hl, app_assoc. apply elem_of_app. by left.
  - destruct (locate _ _ b) eqn:E; [|done]. apply locate_boundary in E.
    unfold is_char_boundary in Hbd. congruence.
Qed.
End Index.

(** * Lines *)

Fixpoint newlines (l : list (N * string)) : N :=
  match l with
  | [] => 0
  | (c, _) :: l => (if c =? NEWLINE then 1 else 0) + newlines l
  end.
(** A prefix that ends where a line starts. *)
Definition line_start (l : list (N * string)) : Prop := l = [] \/ exists l0 e, l = l0 ++ [(NEWLINE, e)].
(** The byte of a line and byte column, when the line has that column. *)
Definition on_line (l : list (N * string)) (target byte_column b : N) : Prop :=
  exists l1 l2 l3, l = l1 ++ l2 ++ l3 /\ line_start l1 /\ newlines l1 + 1 = target /\
    newlines l2 = 0 /\ size l2 + 1 = byte_column /\ b = size l1 + size l2.

Lemma newlines_app l k : newlines (l ++ k) = newlines l + newlines k.
Proof. induction l as [|[c e] l IH]; cbn; [done|]. rewrite IH. lia. Qed.

Lemma line_start_unique l1 l2 k1 k2 :
  l1 ++ k1 = l2 ++ k2 -> line_start l1 -> line_start l2 -> newlines l1 = newlines l2 -> l1 = l2 /\ k1 = k2.
Proof.
  intros Heq H1 H2 Hn.
  assert (forall l d, line_start (l ++ d) -> newlines (l ++ d) = newlines l -> d = []) as Hend.
  { clear. intros l d H Hn. destruct d as [|x d _] using rev_ind; [done|]. exfalso.
    destruct H as [H|(l0 & e & H)].
    - rewrite app_assoc in H. by apply app_eq_nil in H as [_ H].
    - rewrite app_assoc in H. apply app_inj_tail in H as [_ ->].
      rewrite !newlines_app in Hn. cbn in Hn. lia. }
  apply app_eq_app in Heq as (d & [[-> ->]|[-> ->]]).
  - assert (d = []) as -> by (by eapply Hend). by rewrite app_nil_r.
  - assert (d = []) as -> by (by eapply Hend). by rewrite app_nil_r.
Qed.

Section Lines.
Context (source : string) (Hutf8 : from_utf8 source = true) (Hlen : blen source <= isize_max).
Abbreviation l := (char_indices source).
Context (idx : SourcePositionIndex) (Hwf : index_wf l (checkpoints idx)).
Context (Hall : blen source / POSITION_STRIDE < len (checkpoints idx)).

Lemma prefix_extends l1 l2 k1 k2 :
  l = l1 ++ l2 -> l = k1 ++ k2 -> size l1 <= size k1 -> exists d, k1 = l1 ++ d.
Proof.
  intros Hl Hk Hle. rewrite Hl in Hk. apply app_eq_app in Hk as (d & [[-> ->]|[-> ->]]); [|by eexists].
  rewrite size_app in Hle. destruct d as [|[c e] d]; [exists []; by rewrite !app_nil_r|].
  assert ((c, e) ∈ l) as Hc by (rewrite Hl, !elem_of_app; left; right; left).
  apply (char_nonempty _ _ Hutf8) in Hc. cbn in *. lia.
Qed.

Lemma newlines_size l1 l2 : l = l1 ++ l2 -> newlines l1 <= size l1.
Proof.
  intros Hl. assert (forall ce, ce ∈ l1 -> 1 <= blen (snd ce)) as Hpos.
  { intros ce Hce. apply (char_nonempty _ _ Hutf8). rewrite Hl. apply elem_of_app. by left. }
  clear Hl. induction l1 as [|[c e] l1 IH]; cbn; [done|].
  pose proof (Hpos (c, e) ltac:(left)) as He. cbn in He.
  assert (newlines l1 <= size l1) by (apply IH; intros ce Hce; apply Hpos; by right).
  case_match; lia.
Qed.

(** The scanned line is one more than the newlines, short of saturation. *)
Lemma scan_line l1 l2 : l = l1 ++ l2 -> cp_line (scan source_start l1) = newlines l1 + 1.
Proof.
  revert l2. induction l1 as [|[c e] l1 IH] using rev_ind; intros l2 Hl; [done|].
  pose proof (newlines_size _ _ Hl) as Hn. pose proof (size_prefix source Hlen _ _ Hl) as Hs.
  rewrite <- app_assoc in Hl. pose proof (IH _ Hl) as Hline.
  rewrite scan_snoc. unfold advance. rewrite newlines_app in *. cbn in *. rewrite N.add_0_r in *.
  destruct (c =? NEWLINE); cbn; rewrite Hline; [|lia].
  unfold saturating_add, usize_max, u64_max, isize_max in *. lia.
Qed.

Lemma find_line_spec target start o cl ls l1 l2 :
  l = l1 ++ l2 -> start + o = size l1 -> cl = newlines l1 + 1 -> cl < target ->
  let '(cl', ls') := find_line target start cl ls (offsets o l2) in
  (cl' = target /\ exists m1 m2, l2 = m1 ++ m2 /\ line_start (l1 ++ m1) /\
     newlines (l1 ++ m1) + 1 = target /\ ls' = size (l1 ++ m1)) \/
  (cl' <> target /\ newlines l + 1 < target).
Proof.
  revert o cl ls l1. induction l2 as [|[c e] l2 IH]; intros o cl ls l1 Hl Ho -> Hlt; cbn [offsets find_line].
  - right. rewrite Hl, app_nil_r. lia.
  - assert (l = (l1 ++ [(c, e)]) ++ l2) as Hl' by by rewrite <- app_assoc.
    assert (start + (o + blen e) = size (l1 ++ [(c, e)])) as Ho' by (rewrite size_app; cbn; lia).
    assert (newlines (l1 ++ [(c, e)]) = newlines l1 + if c =? NEWLINE then 1 else 0) as Hn
      by (rewrite newlines_app; cbn; lia).
    pose proof (scan_line _ _ Hl') as Hs. pose proof (size_prefix source Hlen _ _ Hl') as Hsz.
    pose proof (newlines_size _ _ Hl') as Hns.
    destruct (N.eqb_spec c NEWLINE) as [->|Hc].
    + assert (saturating_add (newlines l1 + 1) 1 = newlines (l1 ++ [(NEWLINE, e)]) + 1) as ->.
      { unfold saturating_add, usize_max, u64_max, isize_max in *. lia. }
      assert (e = String (char_of NEWLINE) "") as ->.
      { pose proof (proj1 (from_utf8_true source)) as Hu. destruct (Hu Hutf8) as (k & Hk & Hsrc).
        assert ((NEWLINE, e) ∈ l) as Hin by (rewrite Hl; apply elem_of_app; right; left).
        rewrite Hsrc, <- (append_nil_r (str_of k)), char_indices_str_of in Hin by done.
        cbn in Hin. rewrite app_nil_r in Hin. by apply list_elem_of_fmap in Hin as (c & [= <- ->] & _). }
      assert (blen (String (char_of NEWLINE) "") = 1) as Hone by done.
      destruct (N.eqb_spec (newlines (l1 ++ [(NEWLINE, String (char_of NEWLINE) "")]) + 1) target) as [Heq|Hne].
      * left. split; [done|]. exists [(NEWLINE, String (char_of NEWLINE) "")], l2. split_and!; try done.
        -- right. by eexists _, _.
        -- rewrite <- Ho', Hone. lia.
      * rewrite Hone in *.
        assert (newlines (l1 ++ [(NEWLINE, String (char_of NEWLINE) "")]) + 1 < target) as Hlt' by lia.
        specialize (IH (o + 1) _ (start + o + 1) _ Hl' Ho' eq_refl Hlt').
        destruct (find_line _ _ _ _ _) as [cl' ls'].
        destruct IH as [(-> & m1 & m2 & -> & Hm)|IH]; [left|by right]. split; [done|].
        exists ((NEWLINE, String (char_of NEWLINE) "") :: m1), m2. rewrite <- app_assoc in Hm. done.
    + assert (newlines l1 + 1 = newlines (l1 ++ [(c, e)]) + 1) as Hcl by lia.
      specialize (IH (o + blen e) _ ls _ Hl' Ho' Hcl Hlt).
      destruct (find_line _ _ _ _ _) as [cl' ls'].
      destruct IH as [(-> & m1 & m2 & -> & Hm)|IH]; [left|by right]. split; [done|].
      exists ((c, e) :: m1), m2. rewrite <- app_assoc in Hm. done.
Qed.

Lemma partition_point_before {A} (p : A -> bool) (xs : list A) k x :
  (k < partition_point p xs)%nat -> xs !! k = Some x -> p x = true.
Proof.
  revert k. induction xs as [|y xs IH]; intros k; cbn; [lia|]. destruct (p y) eqn:E; [|lia].
  destruct k as [|k]; cbn; [by intros _ [= <-]|]. intros Hk. apply IH. lia.
Qed.
Lemma partition_point_le {A} (p : A -> bool) (xs : list A) : (partition_point p xs <= length xs)%nat.
Proof. induction xs as [|y xs IH]; cbn; [lia|]. destruct (p y); lia. Qed.

(** The checkpoint the search starts from is on an earlier line, or is the
    start of the source. *)
Lemma search_checkpoint target : 1 <= target ->
  exists cp l1 l2, checkpoints idx !!
      (partition_point (fun c => cp_line c <? target)%N (checkpoints idx) - 1)%nat = Some cp /\
    l = l1 ++ l2 /\ cp = at_prefix l1 /\ (cp_line cp < target \/ l1 = [] /\ target = 1).
Proof.
  intros Ht. pose proof (partition_point_le (fun c => cp_line c <? target)%N (checkpoints idx)) as Hle.
  set (k := partition_point _ _) in *.
  assert (is_Some (checkpoints idx !! (k - 1)%nat)) as [cp Hcp].
  { apply lookup_lt_is_Some. pose proof (N.le_lt_trans _ _ _ (N.le_0_l _) Hall) as Hpos. unfold len in Hpos. lia. }
  destruct (iw_at _ _ Hwf _ _ Hcp) as (l1 & l2 & Hl & -> & Hb). exists (at_prefix l1), l1, l2.
  split_and!; [done..|]. destruct (decide (k = 0%nat)) as [Hk|Hk].
  - rewrite Hk in Hb. cbn in Hb. assert (l1 = []) as ->.
    { destruct l1 as [|[c e] l1]; [done|]. assert ((c, e) ∈ l) as Hc by (rewrite Hl; left).
      apply (char_nonempty _ _ Hutf8) in Hc. cbn in *. lia. }
    cbn. destruct (N.lt_ge_cases 1 target); [by left|right; split; [done|lia]].
  - left. apply N.ltb_lt. eapply (partition_point_before (fun c => cp_line c <? target)%N); [|exact Hcp].
    fold k. lia.
Qed.

Lemma scan_at_prefix_line l1 l2 : l = l1 ++ l2 -> cp_line (at_prefix l1) = newlines l1 + 1.
Proof. intros Hl. by rewrite <- (scan_line _ _ Hl). Qed.

(** The start of a line, as the search returns it. *)
Definition line_found (target : N) (found : N * N) : Prop :=
  (fst found = target /\ exists l1 l2, l = l1 ++ l2 /\ line_start l1 /\ newlines l1 + 1 = target /\
     snd found = size l1) \/
  (fst found <> target /\ newlines l + 1 < target).

Lemma search_line target cp l1 l2 :
  l = l1 ++ l2 -> cp = at_prefix l1 -> (cp_line cp < target \/ l1 = [] /\ target = 1) ->
  exists found, (if cp_line cp <? target then
      text ← slice source (cp_byte cp) (blen source);
      Ok (find_line target (cp_byte cp) (cp_line cp) (cp_byte cp) (offsets 0 (char_indices text)))
    else Ok (cp_line cp, cp_byte cp)) = Ok found /\ line_found target found.
Proof.
  intros Hl -> Hor. destruct (N.ltb_spec (cp_line (at_prefix l1)) target) as [Hlt|Hge].
  - destruct (scan_from source Hutf8 l1 l2 [] (at_prefix l1)) as (text & Hs & Ht & _); [by rewrite app_nil_r|done|].
    rewrite <- Hl, size_char_indices in Hs. rewrite Hs. cbn [mbind outcome_bind]. rewrite Ht. eexists. split; [done|].
    rewrite (scan_at_prefix_line _ _ Hl) in *.
    pose proof (find_line_spec target (size l1) 0 _ (size l1) l1 l2 Hl (N.add_0_r _) eq_refl Hlt) as Hf.
    cbn [cp_byte at_prefix at_byte]. destruct (find_line _ _ _ _ _) as [cl ls]. unfold line_found. cbn [fst snd].
    destruct Hf as [(Hcl & m1 & m2 & -> & Hm & Hn & Hls)|Hf]; [left|by right]. split; [done|].
    exists (l1 ++ m1), m2. by rewrite <- app_assoc.
  - destruct Hor as [?|[-> ->]]; [lia|]. eexists. split; [done|]. left. split; [done|]. exists [], l.
    split_and!; [done|by left|done|done].
Qed.

Lemma reference_position_prefix l1 l2 :
  l = l1 ++ l2 -> exists p, reference_position source (size l1) = Some p /\ line p = newlines l1 + 1.
Proof.
  intros Hl. unfold reference_position. rewrite Hl, locate_prefix; cbn.
  - eexists. split; [done|]. cbn. by apply (scan_line _ l2).
  - intros ce Hce. apply (char_nonempty _ _ Hutf8). rewrite Hl. apply elem_of_app. by left.
Qed.

Lemma byte_at_Ok target byte_column :
  exists r, byte_at idx source target byte_column = Ok r /\
    forall b, r = Some b <-> on_line l target byte_column b.
Proof.
  unfold byte_at. destruct ((target =? 0) || (byte_column =? 0)) eqn:Hz.
  { exists None. split; [done|]. intros b. split; [done|]. intros (l1 & l2 & l3 & _ & _ & Ht & _ & Hc & _).
    apply orb_true_iff in Hz as [?%N.eqb_eq|?%N.eqb_eq]; lia. }
  apply orb_false_iff in Hz as [Hz1%N.eqb_neq Hz2%N.eqb_neq].
  destruct (search_checkpoint target ltac:(lia)) as (cp & l1 & l2 & -> & Hl & Hcp & Hor).
  cbn [index_or_panic]. rewrite bind_of_Ok.
  destruct (search_line target cp l1 l2 Hl Hcp Hor) as ([cl ls] & -> & Hfound). rewrite bind_of_Ok.
  clear l1 l2 Hl Hcp Hor.
  destruct Hfound as [(Hcl & l1 & l2 & Hl & Hstart & Hn & Hls)|[Hcl Hn]]; cbn [fst snd] in *.
  2: { rewrite (proj2 (N.eqb_neq _ _) Hcl). cbn. exists None. split; [done|]. intros b. split; [done|].
       intros (l1 & l2 & l3 & Hl & _ & Ht & _). rewrite Hl, newlines_app in Hn. lia. }
  rewrite (proj2 (N.eqb_eq _ _) Hcl). cbn [negb]. subst cl ls.
  assert (forall m1 m2 m3, l = m1 ++ m2 ++ m3 -> line_start m1 -> newlines m1 + 1 = target -> m1 = l1)
    as Huniq.
  { intros m1 m2 m3 Hm Hms Hmn. rewrite Hl in Hm.
    by destruct (line_start_unique _ _ _ _ Hm Hstart Hms ltac:(lia)) as [<- _]. }
  unfold checked_add. destruct (N.leb_spec (size l1 + (byte_column - 1)) usize_max) as [Hle|Hgt].
  2: { exists None. split; [done|]. intros b. split; [done|]. intros (m1 & m2 & m3 & Hm & Hms & Hmn & _ & Hmc & _).
       pose proof (Huniq _ _ _ Hm Hms Hmn) as ->. rewrite app_assoc in Hm. apply size_prefix in Hm; [|done].
       rewrite size_app in Hm. unfold usize_max, u64_max, isize_max in *. lia. }
  rewrite (position_reference source Hutf8 Hlen idx Hwf Hall), bind_of_Ok. eexists. split; [done|]. intros b. split.
  - destruct (reference_position source _) as [p|] eqn:E; [|done].
    destruct (N.eqb_spec (line p) target) as [Hp|]; [|done]. intros [= <-].
    pose proof E as Hb. unfold reference_position in Hb. apply fmap_Some in Hb as (x & Hx & _).
    apply locate_boundary, boundary_at_true in Hx as (k1 & k2 & Hk & Hsize).
    destruct (reference_position_prefix _ _ Hk) as (p' & Hp' & Hline'). rewrite <- Hsize, E in Hp'.
    injection Hp' as <-. destruct (prefix_extends l1 l2 k1 k2 Hl Hk) as [d ->]; [lia|].
    rewrite size_app in Hsize. rewrite newlines_app in Hline'.
    exists l1, d, k2. rewrite <- app_assoc in Hk. split_and!; [done|done|done|lia|lia|lia].
  - intros (m1 & m2 & m3 & Hm & Hms & Hmn & Hm0 & Hmc & ->). pose proof (Huniq _ _ _ Hm Hms Hmn) as ->.
    replace (size l1 + (byte_column - 1)) with (size (l1 ++ m2)) by (rewrite size_app; lia).
    rewrite app_assoc in Hm. destruct (reference_position_prefix _ _ Hm) as (p & -> & Hp).
    rewrite newlines_app in Hp. rewrite (proj2 (N.eqb_eq _ _)) by lia. by rewrite size_app.
Qed.
End Lines.

Lemma position_index_ok (source : string) :
  from_utf8 source = true -> blen source <= isize_max ->
  exists idx, SourcePositionIndex_new source = Ok idx /\
    (forall b, position idx source b = Ok (reference_position source b)) /\
    (forall p, matches idx source p = Ok (bool_decide (reference_position source (byte p) = Some p))).
Proof.
  intros Hutf8 Hlen. destruct (SourcePositionIndex_new_Ok source Hlen) as (idx & Hnew & Hwf & Hall).
  exists idx. split; [done|]. assert (forall b, position idx source b = Ok (reference_position source b)) as H
    by (intros b; by apply position_reference).
  split; [done|]. intros p. unfold matches. by rewrite H.
Qed.

(** C13: the position index is the plain scan. For every source text it is built,
    and the position it gives for a byte, from the nearest checkpoint, is the
    one a scan from the start of the text gives; bytes inside a character or
    past the end have none; no lookup or slice panics. *)
Theorem position_exact (source : string) (Hutf8 : from_utf8 source = true)
    (Hlen : blen source <= isize_max) :
  exists idx, SourcePositionIndex_new source = Ok idx /\
    (forall b, position idx source b = Ok (reference_position source b)) /\
    (forall p, matches idx source p = Ok (bool_decide (reference_position source (byte p) = Some p))).
Proof. by apply position_index_ok. Qed.

Lemma position_exact_witness :
  exists idx, SourcePositionIndex_new ex_source = Ok idx /\
    position idx ex_source 6 = Ok (Some {| byte := 6; line := 2; column := 3 |}).
Proof.
  destruct (position_exact ex_source eq_refl ltac:(vm_compute; discriminate)) as (idx & Hnew & Hpos & _).
  exists idx. split; [exact Hnew|]. rewrite Hpos. vm_compute. reflexivity.
Defined.

(** A byte is found by line and byte column exactly when the line has it: the
    text splits into whole lines up to that line, then as many bytes of it as
    the column says, none of them past its end nor inside a character. *)
Theorem byte_at_exact (source : string) (Hutf8 : from_utf8 source = true)
    (Hlen : blen source <= isize_max) (target byte_column : N) :
  exists idx r, SourcePositionIndex_new source = Ok idx /\ byte_at idx source target byte_column = Ok r /\
    forall b, r = Some b <-> on_line (char_indices source) target byte_column b.
Proof.
  destruct (SourcePositionIndex_new_Ok source Hlen) as (idx & Hnew & Hwf & Hall).
  destruct (byte_at_Ok source Hutf8 Hlen idx Hwf Hall target byte_column) as (r & Hr & Hspec).
  by exists idx, r.
Qed.

Lemma byte_at_exact_witness :
  on_line (char_indices ex_source) 2 4 6 /\ ~ on_line (char_indices ex_source) 1 4 3.
Proof.
  destruct (byte_at_exact ex_source eq_refl ltac:(vm_compute; discriminate) 2 4) as (idx & r & Hn & Hr & H).
  destruct (byte_at_exact ex_source eq_refl ltac:(vm_compute; discriminate) 1 4) as (idx' & r' & Hn' & Hr' & H').
  vm_compute in Hn, Hn'. injection Hn as <-. injection Hn' as <-. vm_compute in Hr, Hr'.
  injection Hr as <-. injection Hr' as <-. split; [by apply H|]. intros Ho. by apply H' in Ho.
Defined.
