(* ===== verification/Adapter.v ===== *)
(** [src/crates/codevetter-core/src/commands/business_rule_archaeology/adapter.rs]:
    the boundary between a language adapter and the store.

    An adapter is untrusted code: it may emit anything, ignore errors, panic.
    [ValidatingOutput] stands between it and the store and passes on only spans,
    facts and edges that are within bounds, cite what was already emitted and
    carry no secrets; [run_archaeology_adapter] drives one unit through
    begin, emissions and exactly one of commit and abort.

    The store is the interface [ArchaeologyAdapterOutput], a class over a state;
    an adapter's [parse] is a [parse_program], the sequence of calls it makes on
    the events interface, depending on what they return.  JSON serialization and
    SHA-256 are parameters. *)
From S2P Require Import Prelude Ordering RustText Utf8 SecretPolicy GraphTypes Contracts Inventory Positions.
Local Open Scope N_scope.

Record ArchaeologyAdapterLimits : Type := {
  max_source_bytes : N;
  max_spans : N;
  max_facts : N;
  max_edges : N;
  max_metadata_entries : N;
  max_output_bytes : N
}.
Definition default_adapter_limits : ArchaeologyAdapterLimits := {|
  max_source_bytes := 16 * 1024 * 1024; max_spans := 100000; max_facts := 50000;
  max_edges := 100000; max_metadata_entries := 4096; max_output_bytes := 64 * 1024 * 1024 |}.

Record ArchaeologyAdapterInput : Type := {
  input_unit : ArchaeologyInventoryUnit;
  input_source : string
}.

Inductive ArchaeologyLineageKind : Type :=
  | LineagePreprocessed | LineageInclude | LineageCopybook | LineageMacro.
#[export] Instance lineage_kind_eq_dec : EqDecision ArchaeologyLineageKind.
Proof. solve_decision. Defined.

Record ArchaeologyAdapterLineage : Type := {
  lineage_kind : ArchaeologyLineageKind;
  lineage_source_unit_id : string;
  target_source_unit_id : option string;
  lineage_evidence_span_id : string;
  lineage_detail : string
}.

Definition has_honest_target (self : ArchaeologyAdapterLineage) : bool :=
  let unresolved := str_contains "unresolved" (to_ascii_lowercase (lineage_detail self)) in
  match lineage_kind self, target_source_unit_id self with
  | LineagePreprocessed, None => true
  | (LineageInclude | LineageCopybook | LineageMacro), None => unresolved
  | _, Some target => negb (trim_is_empty target) && negb unresolved
  end.

Inductive ArchaeologyAdapterRegionKind : Type := RegionRecovered | RegionError | RegionUnsupported.
#[export] Instance region_kind_eq_dec : EqDecision ArchaeologyAdapterRegionKind.
Proof. solve_decision. Defined.

Record ArchaeologyAdapterRegion : Type := {
  region_kind : ArchaeologyAdapterRegionKind;
  region_span_id : string;
  region_reason : string
}.
Record ArchaeologyDialectEvidence : Type := {
  dialect_signal : string;
  dialect_value : string;
  dialect_span_ids : list string
}.
Record ArchaeologyAdapterMetadata : Type := {
  metadata_dialect : option string;
  dialect_evidence : list ArchaeologyDialectEvidence;
  lineage : list ArchaeologyAdapterLineage;
  regions : list ArchaeologyAdapterRegion;
  coverage_reasons : list string
}.
Record ArchaeologyAdapterOutcome : Type := {
  outcome_parser_identity : string;
  outcome_metadata : ArchaeologyAdapterMetadata;
  span_count : N;
  fact_count : N;
  edge_count : N;
  outcome_output_bytes : N
}.

(** ** The two sides of the boundary *)

(** The trait [ArchaeologyAdapterOutput]: each method returns its result, a
    panic among them, with the store's state after it. *)
Class ArchaeologyAdapterOutput (O : Type) : Type := {
  begin_unit : O -> string -> outcome unit * O;
  emit_span : O -> ArchaeologySourceSpan -> outcome unit * O;
  emit_fact : O -> ArchaeologyFact -> outcome unit * O;
  emit_edge : O -> ArchaeologyFactEdge -> outcome unit * O;
  commit_unit : O -> ArchaeologyAdapterOutcome -> outcome unit * O;
  abort_unit : O -> outcome unit * O
}.

(** What a [parse] does: emit, knowing the error if the call failed; look at the
    cancellation flag; return or panic. *)
Inductive parse_program : Type :=
  | Return (result : outcome ArchaeologyAdapterMetadata)
  | EmitSpan (span : ArchaeologySourceSpan) (continue : option string -> parse_program)
  | EmitFact (fact : ArchaeologyFact) (continue : option string -> parse_program)
  | EmitEdge (edge : ArchaeologyFactEdge) (continue : option string -> parse_program)
  | IsCancelled (continue : bool -> parse_program).

(** The trait [ArchaeologyLanguageAdapter]. *)
Record ArchaeologyLanguageAdapter : Type := {
  capability : ArchaeologyParserCapability;
  parse : ArchaeologyAdapterInput -> SourcePositionIndex -> parse_program
}.

(** ** Checks on values *)

(** [format!("{kind:?}")] *)
Definition fact_kind_debug (kind : ArchaeologyFactKind) : string :=
  match kind with
  | FactDeclaration => "Declaration" | FactDataField => "DataField" | FactConstant => "Constant"
  | FactPredicate => "Predicate" | FactDecision => "Decision" | FactCalculation => "Calculation"
  | FactMutation => "Mutation" | FactCall => "Call" | FactInputOutput => "InputOutput"
  | FactTransaction => "Transaction" | FactControlFlow => "ControlFlow"
  | FactEntryPoint => "EntryPoint" | FactInclude => "Include" | FactUnresolved => "Unresolved"
  end.

Fixpoint attributes_secret_shape (attributes : list ArchaeologyAttribute) : option string :=
  match attributes with
  | [] => None
  | attribute :: rest =>
      if looks_like_secret (attribute_key attribute) then Some "attribute_key"%string else
      if looks_like_secret (attribute_value attribute) then Some "attribute_value"%string else
      if looks_like_secret (attribute_key attribute ++ "=" ++ attribute_value attribute)
      then Some "attribute_pair"%string else
      attributes_secret_shape rest
  end.
Definition fact_secret_shape (fact : ArchaeologyFact) : option string :=
  if looks_like_secret (fact_label fact) then Some "label"%string
  else attributes_secret_shape (fact_attributes fact).

Definition normalized_attribute_key (value : string) : bool :=
  (blen value <=? 64) &&
  match bytes value with
  | [] => false
  | first :: rest =>
      is_ascii_lowercase first &&
      forallb (fun byte => is_ascii_lowercase byte || is_ascii_digit byte || (byte =? 95)) rest
  end.

Definition canonical_semantic_digest (value : string) : bool :=
  starts_with "v1:sha256:" value &&
  (let digest := str_drop 10 value in
   (blen digest =? 64) &&
   forallb (fun byte => is_ascii_digit byte || in_range 97 102 byte) (bytes digest)).

Definition valid_semantic_expression_attributes (fact : ArchaeologyFact) : bool :=
  match List.filter (fun a => seqb (attribute_key a) "semantic_expr") (fact_attributes fact) with
  | [] => true
  | [attribute] => canonical_semantic_digest (attribute_value attribute)
  | _ => false
  end.

Fixpoint empty_or_duplicate (seen : BTreeSet string) (values : list string) : bool :=
  match values with
  | [] => false
  | value :: rest =>
      trim_is_empty value || set_contains value seen || empty_or_duplicate (set_insert value seen) rest
  end.
Definition has_empty_or_duplicate (values : list string) : bool := empty_or_duplicate [] values.

Definition validate_capability (self : ArchaeologyParserCapability) : outcome unit :=
  if trim_is_empty (parser_id self) || trim_is_empty (parser_version self)
     || trim_is_empty (capability_language self) || negb (exact_spans self)
     || is_nil (constructs self) || has_empty_or_duplicate (dialects self)
  then Err "Archaeology adapter capability is incomplete or invalid" else
  if has_empty_or_duplicate (map fact_kind_debug (constructs self))
  then Err "Archaeology adapter capability has duplicate constructs" else Ok tt.

(** ** Counting serialized bytes *)

Record LimitedCounter : Type := { written : N; counter_limit : N; exceeded : bool }.
(** One [write]; [None] is the error that stops the serializer. *)
Definition LimitedCounter_write (self : LimitedCounter) (bytes_len : N) : LimitedCounter * bool :=
  if counter_limit self - written self <? bytes_len
  then ({| written := written self; counter_limit := counter_limit self; exceeded := true |}, false)
  else ({| written := written self + bytes_len; counter_limit := counter_limit self;
           exceeded := exceeded self |}, true).
(** [serde_json::to_writer]: the buffers in turn, then the serializer's own
    error if it has one. *)
Fixpoint to_writer (self : LimitedCounter) (chunks : list N) : LimitedCounter * bool :=
  match chunks with
  | [] => (self, true)
  | chunk :: chunks =>
      let '(self, ok) := LimitedCounter_write self chunk in
      if ok then to_writer self chunks else (self, false)
  end.

(** The buffers a serializer writes for a value, and its error if it fails. *)
Definition serialized : Type := (list N * option string)%type.

Definition next_output_bytes (limits : ArchaeologyAdapterLimits) (output_bytes : N) (value : serialized)
    : outcome N :=
  let counter := {| written := 0; counter_limit := max_output_bytes limits - output_bytes;
                    exceeded := false |} in
  let '(counter, ok) := to_writer counter (fst value) in
  match (if ok then snd value else Some "archaeology output byte bound"%string) with
  | Some error =>
      if exceeded counter then Err "Archaeology adapter output exceeds its byte bound"
      else Err ("Measure archaeology adapter output: " ++ error)
  | None =>
      next ← ok_or (checked_add output_bytes (written counter)) "Archaeology adapter output bytes overflowed";
      if max_output_bytes limits <? next
      then Err "Archaeology adapter output exceeds its byte bound" else Ok next
  end.

(** ** The validating output *)

Record ValidatingOutput (O : Type) : Type := {
  output : O;
  polls : nat;
  spans : BTreeSet string;
  facts : BTreeSet string;
  edges : BTreeSet string;
  output_bytes : N;
  first_error : option string
}.
Arguments output {O}. Arguments polls {O}. Arguments spans {O}. Arguments facts {O}.
Arguments edges {O}. Arguments output_bytes {O}. Arguments first_error {O}.

(** A method on the validating output: its result and the state it leaves, on
    errors too. *)
Definition method (O A : Type) : Type := ValidatingOutput O -> outcome A * ValidatingOutput O.
#[export] Instance method_ret {O} : MRet (method O) := fun A a st => (Ok a, st).
#[export] Instance method_bind {O} : MBind (method O) := fun A B f m st =>
  match m st with
  | (Ok a, st) => f a st
  | (Err e, st) => (Err e, st)
  | (Crash w, st) => (Crash w, st)
  end.

Section Validating.
Context {O : Type} `{ArchaeologyAdapterOutput O}.
(** serde_json's buffers for each type written. *)
Context (json_span : ArchaeologySourceSpan -> serialized) (json_fact : ArchaeologyFact -> serialized)
  (json_edge : ArchaeologyFactEdge -> serialized) (json_metadata : ArchaeologyAdapterMetadata -> serialized).
Context (token : StructuralGraphCancellation) (limits : ArchaeologyAdapterLimits).
Context (cap : ArchaeologyParserCapability) (unit : ArchaeologyInventoryUnit) (source : string).
Context (positions : SourcePositionIndex).

Definition from {A} (m : outcome A) : method O A := fun st => (m, st).
Definition self : method O (ValidatingOutput O) := fun st => (Ok st, st).
Definition reject_if (c : bool) (e : string) : method O () := from (if c then Err e else Ok tt).

Definition is_cancelled : method O bool := fun st =>
  (Ok (observed token (polls st)),
   {| output := output st; polls := S (polls st); spans := spans st; facts := facts st; edges := edges st;
      output_bytes := output_bytes st; first_error := first_error st |}).
Definition check_cancelled : method O () :=
  cancelled ← is_cancelled; reject_if cancelled "Archaeology adapter cancelled".

(** A call on the store behind. *)
Definition forward (call : O -> outcome () * O) : method O () := fun st =>
  let '(r, o) := call (output st) in
  (r, {| output := o; polls := polls st; spans := spans st; facts := facts st; edges := edges st;
         output_bytes := output_bytes st; first_error := first_error st |}).

(** Records the first error. *)
Definition remember {A} (m : method O A) : method O A := fun st =>
  match m st with
  | (Err e, st) =>
      (Err e,
       {| output := output st; polls := polls st; spans := spans st; facts := facts st; edges := edges st;
          output_bytes := output_bytes st;
          first_error := match first_error st with Some e0 => Some e0 | None => Some e end |})
  | r => r
  end.
Definition unless_failed (m : method O ()) : method O () :=
  st ← self;
  match first_error st with Some e => from (Err e) | None => remember m end.

(** What a successful emission records. *)
Definition record_span (id : string) (next : N) : method O () := fun st =>
  (Ok tt, {| output := output st; polls := polls st; spans := set_insert id (spans st);
             facts := facts st; edges := edges st; output_bytes := next; first_error := first_error st |}).
Definition record_fact (id : string) (next : N) : method O () := fun st =>
  (Ok tt, {| output := output st; polls := polls st; spans := spans st;
             facts := set_insert id (facts st); edges := edges st; output_bytes := next;
             first_error := first_error st |}).
Definition record_edge (id : string) (next : N) : method O () := fun st =>
  (Ok tt, {| output := output st; polls := polls st; spans := spans st; facts := facts st;
             edges := set_insert id (edges st); output_bytes := next; first_error := first_error st |}).

(** Whether a span is refused; positions are looked up only when the cheaper
    checks pass. *)
Definition span_refused (st : ValidatingOutput O) (span : ArchaeologySourceSpan) : outcome bool :=
  if negb (seqb (span_source_unit_id span) (unit_source_unit_id (inv_identity unit)))
     || negb (seqb (span_revision_sha span) (unit_revision_sha (inv_identity unit)))
     || (blen source <? byte (span_end span)) || (byte (span_end span) =? byte (span_start span))
  then Ok true else
  start ← matches positions source (span_start span);
  if negb start then Ok true else
  stop ← matches positions source (span_end span);
  if negb stop then Ok true else
  Ok (set_contains (span_id span) (spans st)).

Definition checked_emit_span (span : ArchaeologySourceSpan) : method O () :=
  unless_failed (
    _ ← check_cancelled;
    st ← self;
    _ ← reject_if (len (spans st) =? max_spans limits) "Archaeology adapter span count exceeds its bound";
    _ ← from (ArchaeologySourceSpan_validate span);
    refused ← from (span_refused st span);
    _ ← reject_if refused "Archaeology adapter emitted an invalid or duplicate span";
    next ← from (next_output_bytes limits (output_bytes st) (json_span span));
    _ ← forward (fun o => emit_span o span);
    record_span (span_id span) next).

Definition fact_refused (st : ValidatingOutput O) (fact : ArchaeologyFact) : bool :=
  is_empty (fact_id fact) || trim_is_empty (fact_label fact)
  || negb (seqb (fact_parser_id fact) (parser_id cap))
  || negb (bool_decide (fact_trust fact = TrustExtracted))
  || negb (elemb (fact_kind fact) (constructs cap))
  || is_nil (fact_span_ids fact)
  || any (fun span => negb (set_contains span (spans st))) (fact_span_ids fact)
  || any (fun a => negb (normalized_attribute_key (attribute_key a)) || trim_is_empty (attribute_value a))
       (fact_attributes fact)
  || negb (valid_semantic_expression_attributes fact)
  || set_contains (fact_id fact) (facts st).

Definition checked_emit_fact (fact : ArchaeologyFact) : method O () :=
  unless_failed (
    _ ← check_cancelled;
    st ← self;
    _ ← reject_if (len (facts st) =? max_facts limits) "Archaeology adapter fact count exceeds its bound";
    _ ← from (match fact_secret_shape fact with
              | Some channel => Err ("Archaeology adapter emitted secret-shaped fact content ("
                                      ++ fact_kind_debug (fact_kind fact) ++ ", " ++ channel ++ ")")
              | None => Ok tt
              end);
    _ ← reject_if (fact_refused st fact) "Archaeology adapter emitted an invalid or duplicate fact";
    next ← from (next_output_bytes limits (output_bytes st) (json_fact fact));
    _ ← forward (fun o => emit_fact o fact);
    record_fact (fact_id fact) next).

Definition edge_refused (st : ValidatingOutput O) (edge : ArchaeologyFactEdge) : bool :=
  let unresolved := bool_decide (fact_edge_kind edge = EdgeUnresolved) in
  is_empty (fact_edge_id edge)
  || negb (set_contains (from_fact_id edge) (facts st))
  || negb (set_contains (to_fact_id edge) (facts st))
  || negb (bool_decide (fact_edge_trust edge = TrustExtracted))
  || any (fun span => negb (set_contains span (spans st))) (fact_edge_evidence_span_ids edge)
  || is_nil (fact_edge_evidence_span_ids edge)
  || negb (eqb unresolved (is_some (unresolved_reason edge)))
  || is_some_and (unresolved_reason edge) trim_is_empty
  || set_contains (fact_edge_id edge) (edges st).

Definition checked_emit_edge (edge : ArchaeologyFactEdge) : method O () :=
  unless_failed (
    _ ← check_cancelled;
    st ← self;
    _ ← reject_if (len (edges st) =? max_edges limits) "Archaeology adapter edge count exceeds its bound";
    _ ← reject_if (edge_refused st edge)
          "Archaeology adapter emitted an invalid, duplicate, or dangling edge";
    next ← from (next_output_bytes limits (output_bytes st) (json_edge edge));
    _ ← forward (fun o => emit_edge o edge);
    record_edge (fact_edge_id edge) next).

(** ** Finishing *)

Definition cites (st : ValidatingOutput O) (span : string) : bool := set_contains span (spans st).

Definition metadata_empty (st : ValidatingOutput O) (metadata : ArchaeologyAdapterMetadata) : bool :=
  any (fun item => trim_is_empty (dialect_signal item) || trim_is_empty (dialect_value item)
         || is_nil (dialect_span_ids item) || any (fun span => negb (cites st span)) (dialect_span_ids item))
    (dialect_evidence metadata)
  || any trim_is_empty (coverage_reasons metadata).

Definition validate_metadata (st : ValidatingOutput O) (metadata : ArchaeologyAdapterMetadata)
    : outcome () :=
  if metadata_empty st metadata then Err "Archaeology adapter metadata contains an empty value" else
  _ ← match metadata_dialect metadata with
      | None => Ok tt
      | Some dialect =>
          if trim_is_empty dialect || negb (elemb dialect (dialects cap))
          then Err "Archaeology adapter reported an unsupported dialect" else
          if is_nil (dialect_evidence metadata)
          then Err "Archaeology adapter dialect requires evidence" else Ok tt
      end;
  if negb (preprocessing cap)
     && any (fun item => bool_decide (lineage_kind item = LineagePreprocessed)) (lineage metadata)
  then Err "Archaeology adapter reported undeclared preprocessing" else
  if negb (recovery cap)
     && any (fun item => bool_decide (region_kind item = RegionRecovered)) (regions metadata)
  then Err "Archaeology adapter reported undeclared recovery" else
  if negb (is_nil (regions metadata)) && is_nil (coverage_reasons metadata)
  then Err "Archaeology adapter regions require explicit coverage reasons" else
  _ ← for_all (fun item =>
        if negb (seqb (lineage_source_unit_id item) (unit_source_unit_id (inv_identity unit)))
           || trim_is_empty (lineage_detail item) || negb (cites st (lineage_evidence_span_id item))
           || negb (has_honest_target item)
        then Err "Archaeology adapter lineage is invalid or uncited" else Ok tt) (lineage metadata);
  for_all (fun region =>
    if trim_is_empty (region_reason region) || negb (cites st (region_span_id region))
    then Err "Archaeology adapter region is invalid or uncited" else Ok tt) (regions metadata).

Definition finish (metadata : ArchaeologyAdapterMetadata) : method O ArchaeologyAdapterOutcome :=
  _ ← check_cancelled;
  st ← self;
  _ ← from (match first_error st with Some error => Err error | None => Ok tt end);
  let metadata_entries := len (dialect_evidence metadata) + len (lineage metadata)
                          + len (regions metadata) + len (coverage_reasons metadata) in
  _ ← reject_if (max_metadata_entries limits <? metadata_entries)
        "Archaeology adapter metadata exceeds its bound";
  next ← from (next_output_bytes limits (output_bytes st) (json_metadata metadata));
  _ ← from (validate_metadata st metadata);
  mret {| outcome_parser_identity := parser_id cap ++ "@" ++ parser_version cap;
          outcome_metadata := metadata;
          span_count := len (spans st); fact_count := len (facts st); edge_count := len (edges st);
          outcome_output_bytes := next |}.

Definition answered {A} (m : method O ()) (continue : option string -> method O A) : method O A := fun st =>
  match m st with
  | (Ok _, st) => continue None st
  | (Err e, st) => continue (Some e) st
  | (Crash w, st) => (Crash w, st)
  end.
(** The adapter's calls, answered by the validating output. *)
Fixpoint run_program (p : parse_program) : method O ArchaeologyAdapterMetadata :=
  match p with
  | Return result => from result
  | EmitSpan span continue => answered (checked_emit_span span) (fun r => run_program (continue r))
  | EmitFact fact continue => answered (checked_emit_fact fact) (fun r => run_program (continue r))
  | EmitEdge edge continue => answered (checked_emit_edge edge) (fun r => run_program (continue r))
  | IsCancelled continue => cancelled ← is_cancelled; run_program (continue cancelled)
  end.
End Validating.

(** ** Running an adapter on one unit *)

Definition with_abort_error {A} (error : string) (abort : outcome unit) : outcome A :=
  match abort with
  | Ok _ => Err error
  | Err abort_error => Err (error ++ "; archaeology output abort failed: " ++ abort_error)
  | Crash w => Crash w
  end.

Section Running.
Context {O : Type} `{ArchaeologyAdapterOutput O}.
Context (sha256 : string -> string).
Context (json_span : ArchaeologySourceSpan -> serialized) (json_fact : ArchaeologyFact -> serialized)
  (json_edge : ArchaeologyFactEdge -> serialized) (json_metadata : ArchaeologyAdapterMetadata -> serialized).
Context (adapter : ArchaeologyLanguageAdapter) (input : ArchaeologyAdapterInput).
Context (token : StructuralGraphCancellation) (limits : ArchaeologyAdapterLimits).

(** Everything that is checked before the store hears of the unit. *)
Definition check_input : outcome unit :=
  let unit := input_unit input in
  let source := input_source input in
  _ ← validate_capability (capability adapter);
  if bool_decide (inv_classification unit = ClassProtected)
  then Err "Archaeology adapter refused protected source content" else
  relative_path ← ok_or (unit_relative_path (inv_identity unit))
    "Archaeology adapter requires a repository-relative path for protection checks";
  if is_sensitive_path relative_path then Err "Archaeology adapter refused a protected source path" else
  if (max_source_bytes limits <? blen source) || negb (blen source =? inv_byte_count unit)
  then Err "Archaeology adapter source violates its byte contract" else
  expected_hash ← ok_or (unit_content_hash (inv_identity unit))
    "Archaeology adapter requires an inventoried content identity";
  if negb (bool_decide (unit_hash_algorithm (inv_identity unit) = Some "sha256"%string))
     || negb (seqb (hex (sha256 source)) expected_hash)
  then Err "Archaeology adapter source does not match its inventoried hash" else
  if negb (from_utf8 source) then Err "Archaeology adapter requires UTF-8 source text" else
  if negb (seqb (inv_language unit) (capability_language (capability adapter)))
  then Err "Archaeology adapter language does not match inventory" else Ok tt.

Definition aborted {A} (error : string) (o : O) (n : nat) : outcome A * (O * nat) :=
  let '(abort, o) := abort_unit o in (with_abort_error error abort, (o, n)).

(** Parsing and finishing a unit that was begun; a panic of the adapter is
    caught. *)
Definition parse_unit (positions : SourcePositionIndex) (o : O) (n : nat)
    : outcome ArchaeologyAdapterOutcome * ValidatingOutput O :=
  let cap := capability adapter in
  let unit := input_unit input in
  let source := input_source input in
  let checked := {| output := o; polls := n; spans := []; facts := []; edges := []; output_bytes := 0;
                    first_error := None |} in
  let '(result, checked) :=
    run_program json_span json_fact json_edge token limits cap unit source positions
      (parse adapter input positions) checked in
  match result with
  | Ok metadata => finish json_metadata token limits cap unit metadata checked
  | Err e => (Err e, checked)
  | Crash _ => (Err "Archaeology adapter panicked", checked)
  end.

Definition commit_or_abort (result : outcome ArchaeologyAdapterOutcome) (checked : ValidatingOutput O)
    : outcome ArchaeologyAdapterOutcome * (O * nat) :=
  match result with
  | Ok outcome =>
      if observed token (polls checked)
      then aborted "Archaeology adapter cancelled before commit" (output checked) (S (polls checked)) else
      match commit_unit (output checked) outcome with
      | (Ok _, o) => (Ok outcome, (o, S (polls checked)))
      | (Err error, o) => aborted error o (S (polls checked))
      | (Crash w, o) => (Crash w, (o, S (polls checked)))
      end
  | Err error => aborted error (output checked) (polls checked)
  | Crash w => (Crash w, (output checked, polls checked))
  end.

(** From a state of the store and the number of polls made. *)
Definition run_archaeology_adapter (o : O) (n : nat) : outcome ArchaeologyAdapterOutcome * (O * nat) :=
  if observed token n then (Err "Archaeology adapter cancelled", (o, S n)) else
  match check_input with
  | Err e => (Err e, (o, S n))
  | Crash w => (Crash w, (o, S n))
  | Ok _ =>
      match begin_unit o (unit_source_unit_id (inv_identity (input_unit input))) with
      | (Err error, o) => aborted error o (S n)
      | (Crash w, o) => (Crash w, (o, S n))
      | (Ok _, o) =>
          match SourcePositionIndex_new (input_source input) with
          | Ok positions =>
              let '(result, checked) := parse_unit positions o (S n) in commit_or_abort result checked
          | Err e => (Err e, (o, S n))
          | Crash w => (Crash w, (o, S n))
          end
      end
  end.
End Running.
