(* ===== verification/AdapterProps.v ===== *)
(** Theorems about [Adapter]: what reaches the store.

    The store is watched through [traced], which logs every call made on it with
    its result, so the theorems hold for every store.  [session] is the
    specification of the order of calls for one unit, [evidence] that of what
    the emitted spans, facts and edges may be; both are relations on the log.
    They are proved for every adapter, by induction on the calls it makes. *)
From S2P Require Import Prelude Ordering RustText Utf8 SecretPolicy GraphTypes Contracts Inventory Positions Adapter.
Local Open Scope N_scope.

(** * The log *)

Inductive Call : Type :=
  | CBegin (id : string) (r : outcome unit)
  | CSpan (span : ArchaeologySourceSpan) (r : outcome unit)
  | CFact (fact : ArchaeologyFact) (r : outcome unit)
  | CEdge (edge : ArchaeologyFactEdge) (r : outcome unit)
  | CCommit (result : ArchaeologyAdapterOutcome) (r : outcome unit)
  | CAbort (r : outcome unit).

Definition logged {O} (c : outcome unit -> Call) (call : O -> outcome unit * O) (s : O * list Call)
    : outcome unit * (O * list Call) :=
  let '(r, o) := call (fst s) in (r, (o, snd s ++ [c r])).
#[export] Instance traced {O} `{ArchaeologyAdapterOutput O} : ArchaeologyAdapterOutput (O * list Call) := {|
  begin_unit s id := logged (CBegin id) (fun o => begin_unit o id) s;
  emit_span s span := logged (CSpan span) (fun o => emit_span o span) s;
  emit_fact s fact := logged (CFact fact) (fun o => emit_fact o fact) s;
  emit_edge s edge := logged (CEdge edge) (fun o => emit_edge o edge) s;
  commit_unit s outcome := logged (CCommit outcome) (fun o => commit_unit o outcome) s;
  abort_unit s := logged CAbort (fun o => abort_unit o) s |}.

(** ** One unit's calls, in order *)

Definition emission (c : Call) : option (outcome unit) :=
  match c with CSpan _ r | CFact _ r | CEdge _ r => Some r | _ => None end.
Definition accepted (c : Call) : Prop := emission c = Some (Ok tt).
(** At most one emission that the store did not accept. *)
Definition last_emission (failed : list Call) : Prop :=
  failed = [] \/ exists c, failed = [c] /\ is_Some (emission c).

(** [Begin (emissions (failed emission)?)* (Commit | Abort | Commit Abort)], with
    the result the run returns. *)
Inductive session (id : string) : list Call -> outcome ArchaeologyAdapterOutcome -> Prop :=
  | session_refused e : session id [] (Err e)
  | session_not_begun e abort : session id [CBegin id (Err e); CAbort abort] (with_abort_error e abort)
  | session_begin_panicked w : session id [CBegin id (Crash w)] (Crash w)
  | session_aborted emissions failed e abort :
      Forall accepted emissions -> last_emission failed ->
      session id (CBegin id (Ok tt) :: emissions ++ failed ++ [CAbort abort]) (with_abort_error e abort)
  | session_committed emissions outcome :
      Forall accepted emissions ->
      session id (CBegin id (Ok tt) :: emissions ++ [CCommit outcome (Ok tt)]) (Ok outcome)
  | session_not_committed emissions outcome e abort :
      Forall accepted emissions ->
      session id (CBegin id (Ok tt) :: emissions ++ [CCommit outcome (Err e); CAbort abort])
        (with_abort_error e abort)
  | session_commit_panicked emissions outcome w :
      Forall accepted emissions ->
      session id (CBegin id (Ok tt) :: emissions ++ [CCommit outcome (Crash w)]) (Crash w).

(** ** What is emitted *)

Definition spans_of (log : list Call) : list ArchaeologySourceSpan :=
  omap (fun c => match c with CSpan s _ => Some s | _ => None end) log.
Definition facts_of (log : list Call) : list ArchaeologyFact :=
  omap (fun c => match c with CFact f _ => Some f | _ => None end) log.
Definition edges_of (log : list Call) : list ArchaeologyFactEdge :=
  omap (fun c => match c with CEdge e _ => Some e | _ => None end) log.

Section Evidence.
Context (cap : ArchaeologyParserCapability) (unit : ArchaeologyInventoryUnit) (source : string).

(** A span is of this unit and revision, covers text, and states the line and
    column its bytes have. *)
Definition span_ok (s : ArchaeologySourceSpan) : Prop :=
  ArchaeologySourceSpan_validate s = Ok tt /\
  span_source_unit_id s = unit_source_unit_id (inv_identity unit) /\
  span_revision_sha s = unit_revision_sha (inv_identity unit) /\
  byte (span_start s) < byte (span_end s) <= blen source /\
  reference_position source (byte (span_start s)) = Some (span_start s) /\
  reference_position source (byte (span_end s)) = Some (span_end s).

Definition fact_ok (f : ArchaeologyFact) : Prop :=
  fact_id f <> ""%string /\ trim_is_empty (fact_label f) = false /\
  fact_parser_id f = parser_id cap /\ fact_trust f = TrustExtracted /\ fact_kind f ∈ constructs cap /\
  fact_secret_shape f = None /\ valid_semantic_expression_attributes f = true /\
  Forall (fun a => normalized_attribute_key (attribute_key a) = true /\
                   trim_is_empty (attribute_value a) = false) (fact_attributes f).

Definition edge_ok (e : ArchaeologyFactEdge) : Prop :=
  fact_edge_id e <> ""%string /\ fact_edge_trust e = TrustExtracted /\
  (fact_edge_kind e = EdgeUnresolved <-> is_Some (unresolved_reason e)) /\
  (forall reason, unresolved_reason e = Some reason -> trim_is_empty reason = false).

(** Everything cites what was emitted before it, and nothing is emitted twice. *)
Inductive evidence : list Call -> Prop :=
  | evidence_nil : evidence []
  | evidence_span log s r :
      evidence log -> span_ok s -> span_id s ∉ map span_id (spans_of log) -> evidence (log ++ [CSpan s r])
  | evidence_fact log f r :
      evidence log -> fact_ok f -> fact_id f ∉ map fact_id (facts_of log) ->
      fact_span_ids f <> [] -> (forall id, id ∈ fact_span_ids f -> id ∈ map span_id (spans_of log)) ->
      evidence (log ++ [CFact f r])
  | evidence_edge log e r :
      evidence log -> edge_ok e -> fact_edge_id e ∉ map fact_edge_id (edges_of log) ->
      from_fact_id e ∈ map fact_id (facts_of log) -> to_fact_id e ∈ map fact_id (facts_of log) ->
      fact_edge_evidence_span_ids e <> [] ->
      (forall id, id ∈ fact_edge_evidence_span_ids e -> id ∈ map span_id (spans_of log)) ->
      evidence (log ++ [CEdge e r]).
End Evidence.

(** * Counting bytes *)

Definition serialized_size (v : serialized) : N := total id (fst v).

Lemma to_writer_spec chunks c :
  written c <= counter_limit c ->
  let '(c', ok) := to_writer c chunks in
  if ok then written c' = written c + total id chunks /\ written c' <= counter_limit c
  else counter_limit c < written c + total id chunks.
Proof.
  revert c. induction chunks as [|n chunks IH]; intros c Hc; cbn [to_writer total]; [split; lia|].
  unfold LimitedCounter_write. destruct (N.ltb_spec (counter_limit c - written c) n); cbn; [unfold id; lia|].
  specialize (IH {| written := written c + n; counter_limit := counter_limit c; exceeded := exceeded c |}).
  cbn in IH. destruct (to_writer _ _) as [c' []]; unfold id in *; lia.
Qed.

Lemma next_output_bytes_Ok limits b v next :
  next_output_bytes limits b v = Ok next ->
  snd v = None /\ next = b + serialized_size v /\ next <= max_output_bytes limits.
Proof.
  unfold next_output_bytes.
  pose proof (to_writer_spec (fst v)
    {| written := 0; counter_limit := max_output_bytes limits - b; exceeded := false |} (N.le_0_l _)) as H.
  destruct (to_writer _ _) as [c' []]; cbn in H; [|by case_match].
  destruct (snd v) as [e|]; [by case_match|]. destruct H as [Hw _]. rewrite Hw.
  intros (n & Hn & Hr)%bind_Ok. apply ok_or_Ok in Hn. unfold checked_add in Hn.
  destruct (_ <=? _); [|done]. injection Hn as <-. apply if_Err_Ok in Hr as [Hle%N.ltb_ge [= <-]].
  split_and!; [done| |done]. unfold serialized_size. lia.
Qed.

(** * One emission *)

Section Emission.
Context {O : Type} `{ArchaeologyAdapterOutput O}.
Context (json_span : ArchaeologySourceSpan -> serialized) (json_fact : ArchaeologyFact -> serialized)
  (json_edge : ArchaeologyFactEdge -> serialized).
Context (token : StructuralGraphCancellation) (limits : ArchaeologyAdapterLimits).
Context (cap : ArchaeologyParserCapability) (unit : ArchaeologyInventoryUnit) (source : string).
Context (positions : SourcePositionIndex).
Context (Hpos : forall p, matches positions source p =
  Ok (bool_decide (reference_position source (byte p) = Some p))).

(** What the three emissions have in common: a check that gives the new byte
    account, the call, and the record of it. *)
Definition emission_step (check : ValidatingOutput O -> outcome N) (call : O -> outcome () * O)
    (record : N -> method O ()) : method O () :=
  unless_failed (
    _ ← check_cancelled token; st ← self; next ← from (check st); _ ← forward call; record next).

Definition span_check (s : ArchaeologySourceSpan) (st : ValidatingOutput O) : outcome N :=
  if len (spans st) =? max_spans limits then Err "Archaeology adapter span count exceeds its bound" else
  _ ← ArchaeologySourceSpan_validate s;
  refused ← span_refused unit source positions st s;
  if (refused : bool) then Err "Archaeology adapter emitted an invalid or duplicate span"
  else next_output_bytes limits (output_bytes st) (json_span s).
Definition fact_check (f : ArchaeologyFact) (st : ValidatingOutput O) : outcome N :=
  if len (facts st) =? max_facts limits then Err "Archaeology adapter fact count exceeds its bound" else
  _ ← (match fact_secret_shape f with
       | Some channel => Err ("Archaeology adapter emitted secret-shaped fact content ("
                               ++ fact_kind_debug (fact_kind f) ++ ", " ++ channel ++ ")")
       | None => Ok tt
       end);
  if fact_refused cap st f then Err "Archaeology adapter emitted an invalid or duplicate fact"
  else next_output_bytes limits (output_bytes st) (json_fact f).
Definition edge_check (e : ArchaeologyFactEdge) (st : ValidatingOutput O) : outcome N :=
  if len (edges st) =? max_edges limits then Err "Archaeology adapter edge count exceeds its bound" else
  if edge_refused st e then Err "Archaeology adapter emitted an invalid, duplicate, or dangling edge"
  else next_output_bytes limits (output_bytes st) (json_edge e).

Ltac steps :=
  unfold emission_step, unless_failed, check_cancelled, is_cancelled, reject_if, from, self, forward, remember,
    mbind, method_bind; cbn;
  repeat (case_match; cbn in *; simplify_eq; try done).

Lemma emit_span_step s st :
  checked_emit_span json_span token limits unit source positions s st =
  emission_step (span_check s) (fun o => emit_span o s) (record_span (span_id s)) st.
Proof. unfold checked_emit_span, span_check. steps. Qed.
Lemma emit_fact_step f st :
  checked_emit_fact json_fact token limits cap f st =
  emission_step (fact_check f) (fun o => emit_fact o f) (record_fact (fact_id f)) st.
Proof. unfold checked_emit_fact, fact_check. steps. Qed.
Lemma emit_edge_step e st :
  checked_emit_edge json_edge token limits e st =
  emission_step (edge_check e) (fun o => emit_edge o e) (record_edge (fact_edge_id e)) st.
Proof. unfold checked_emit_edge, edge_check. steps. Qed.

Definition tick (st : ValidatingOutput O) : ValidatingOutput O := snd (is_cancelled token st).

(** How an emission can end: refused before the store is called, or with the
    store's answer. *)
Definition emission_end (check : ValidatingOutput O -> outcome N) (call : O -> outcome () * O)
    (record : N -> method O ()) (st : ValidatingOutput O) (r : outcome ()) (st' : ValidatingOutput O) : Prop :=
  (exists e, r = Err e /\ output st' = output st /\ is_Some (first_error st') /\
     (first_error st = None \/ st' = st)) \/
  (first_error st = None /\ observed token (polls st) = false /\ exists next rc o',
     check (tick st) = Ok next /\ call (output st) = (rc, o') /\
     match rc with
     | Ok _ => r = Ok tt /\ exists st0, record next st0 = (Ok tt, st') /\ output st0 = o' /\
         polls st0 = S (polls st) /\ spans st0 = spans st /\ facts st0 = facts st /\ edges st0 = edges st /\
         first_error st0 = None
     | Err e => r = Err e /\ output st' = o' /\ is_Some (first_error st')
     | Crash w => r = Crash w /\ output st' = o'
     end).

Lemma emission_step_end check call record st r st' :
  (forall st, returns (check st)) -> (forall n st, fst (record n st) = Ok tt) ->
  emission_step check call record st = (r, st') -> emission_end check call record st r st'.
Proof.
  intros Hcheck Hrec. unfold emission_step, unless_failed, check_cancelled, is_cancelled, reject_if, from, self,
    forward, remember, mbind, method_bind. cbn.
  destruct (first_error st) as [e|] eqn:Hfirst; cbn.
  { intros [= <- <-]. left. exists e. rewrite Hfirst. eauto. }
  destruct (observed token (polls st)) eqn:Hobs; cbn.
  { rewrite Hfirst. intros [= <- <-]. left. eexists. cbn. eauto. }
  fold (tick st). pose proof (Hcheck (tick st)) as Hr. unfold tick, is_cancelled in Hr. cbn in Hr.
  destruct (check _) as [next|e|w] eqn:Hc; cbn; [|rewrite Hfirst|done].
  2: { intros [= <- <-]. left. eexists. cbn. eauto. }
  destruct (call (output st)) as [[[]|e|w] o'] eqn:Hcall; cbn.
  - match goal with |- context [record next ?s] => set (st0 := s) end.
    pose proof (Hrec next st0) as Hok. destruct (record next st0) as [r0 st1] eqn:Hr0. cbn in Hok. subst r0. cbn.
    intros [= <- <-]. right. split_and!; [done|done|]. exists next, (Ok tt), o'. split_and!; [done|done|done|].
    exists st0. by rewrite Hr0.
  - rewrite Hfirst. intros [= <- <-]. right. split_and!; [done|done|]. exists next, (Err e), o'. cbn. eauto 10.
  - intros [= <- <-]. right. split_and!; [done|done|]. by exists next, (Crash w), o'.
Qed.

Lemma span_refused_Ok (st : ValidatingOutput O) s : span_refused unit source positions st s =
  Ok (negb (seqb (span_source_unit_id s) (unit_source_unit_id (inv_identity unit)))
      || negb (seqb (span_revision_sha s) (unit_revision_sha (inv_identity unit)))
      || (blen source <? byte (span_end s)) || (byte (span_end s) =? byte (span_start s))
      || negb (bool_decide (reference_position source (byte (span_start s)) = Some (span_start s)))
      || negb (bool_decide (reference_position source (byte (span_end s)) = Some (span_end s)))
      || set_contains (span_id s) (spans st)).
Proof.
  unfold span_refused. case_match; [done|]. cbn [orb]. rewrite (Hpos (span_start s)), bind_of_Ok.
  destruct (bool_decide (_ = Some (span_start s))); cbn [negb orb]; [|done].
  rewrite (Hpos (span_end s)), bind_of_Ok. by destruct (bool_decide _).
Qed.

Lemma next_output_bytes_returns b v : returns (next_output_bytes limits b v).
Proof.
  unfold next_output_bytes. destruct (to_writer _ _). case_match; [by apply returns_if|].
  apply returns_bind; [auto with outcomes|]. intros; by apply returns_if.
Qed.
Lemma span_check_returns s (st : ValidatingOutput O) : returns (span_check s st).
Proof.
  unfold span_check. apply returns_if; [done|]. intros _. apply returns_bind.
  - unfold ArchaeologySourceSpan_validate, validate_revision_sha.
    apply returns_if; [done|]. intros _. apply returns_bind; [by apply returns_if|]. intros _ _.
    apply returns_if; [done|]. intros _. by apply returns_if.
  - intros _ _. rewrite span_refused_Ok, bind_of_Ok. apply returns_if; [done|].
    intros _. apply next_output_bytes_returns.
Qed.
Lemma fact_check_returns f (st : ValidatingOutput O) : returns (fact_check f st).
Proof.
  unfold fact_check. apply returns_if; [done|]. intros _. apply returns_bind; [by case_match|]. intros _ _.
  apply returns_if; [done|]. intros _. apply next_output_bytes_returns.
Qed.
Lemma edge_check_returns e (st : ValidatingOutput O) : returns (edge_check e st).
Proof.
  unfold edge_check. apply returns_if; [done|]. intros _. apply returns_if; [done|].
  intros _. apply next_output_bytes_returns.
Qed.
End Emission.

(** * Metadata *)

Definition metadata_entries (m : ArchaeologyAdapterMetadata) : N :=
  len (dialect_evidence m) + len (lineage m) + len (regions m) + len (coverage_reasons m).

Lemma elem_negb_any (p : string -> bool) l : any (fun x => negb (p x)) l = false <-> forall x, x ∈ l -> p x = true.
Proof. rewrite any_false. by setoid_rewrite negb_false_iff. Qed.

Section Metadata.
Context (cap : ArchaeologyParserCapability) (unit : ArchaeologyInventoryUnit).

(** What the metadata of a unit that emitted the spans [cited] may say. *)
Record metadata_ok (cited : list string) (m : ArchaeologyAdapterMetadata) : Prop := {
  metadata_evidence : Forall (fun item =>
    trim_is_empty (dialect_signal item) = false /\ trim_is_empty (dialect_value item) = false /\
    dialect_span_ids item <> [] /\ forall id, id ∈ dialect_span_ids item -> id ∈ cited) (dialect_evidence m);
  metadata_reasons : Forall (fun reason => trim_is_empty reason = false) (coverage_reasons m);
  metadata_dialect_known : forall d, metadata_dialect m = Some d ->
    trim_is_empty d = false /\ d ∈ dialects cap /\ dialect_evidence m <> [];
  metadata_preprocessing : preprocessing cap = false ->
    Forall (fun item => lineage_kind item <> LineagePreprocessed) (lineage m);
  metadata_recovery : recovery cap = false ->
    Forall (fun item => region_kind item <> RegionRecovered) (regions m);
  metadata_explained : regions m <> [] -> coverage_reasons m <> [];
  metadata_lineage : Forall (fun item =>
    lineage_source_unit_id item = unit_source_unit_id (inv_identity unit) /\
    trim_is_empty (lineage_detail item) = false /\ lineage_evidence_span_id item ∈ cited /\
    has_honest_target item = true) (lineage m);
  metadata_regions : Forall (fun region =>
    trim_is_empty (region_reason region) = false /\ region_span_id region ∈ cited) (regions m)
}.

Lemma validate_metadata_returns {O} (st : ValidatingOutput O) m : returns (validate_metadata cap unit st m).
Proof.
  unfold validate_metadata. apply returns_if; [done|]. intros _. apply returns_bind.
  { destruct (metadata_dialect m); [|done]. apply returns_if; [done|]. intros _. by apply returns_if. }
  intros _ _. repeat (apply returns_if; [done|]; intros _). apply returns_bind.
  - apply for_all_returns. intros. by apply returns_if.
  - intros _ _. apply for_all_returns. intros. by apply returns_if.
Qed.

Lemma validate_metadata_ok {O} (st : ValidatingOutput O) m cited :
  spans st = set_of_list cited -> validate_metadata cap unit st m = Ok tt <-> metadata_ok cited m.
Proof.
  intros Hspans.
  assert (forall id, cites st id = true <-> id ∈ cited) as Hcites.
  { intros id. unfold cites. by rewrite set_contains_true, Hspans, elem_of_set_of_list. }
  unfold validate_metadata, metadata_empty.
  rewrite if_Err_Ok, then_Ok, !if_Err_Ok, then_Ok, !for_all_Ok, orb_false_iff, !any_false.
  assert (forall c b : bool, c && b = false <-> (c = true -> b = false)) as Hand by (clear; intros [] []; naive_solver).
  rewrite !Hand, !negb_true_iff, !any_false, !is_nil_false.
  split.
  - intros ((Hev & Hreasons) & Hdialect & Hpre & Hrec & Hexp & Hlin & Hreg). constructor.
    + apply Forall_forall. intros item Hitem. specialize (Hev item Hitem). rewrite !orb_false_iff in Hev.
      destruct Hev as (((? & ?) & ?%is_nil_false) & Hc).
      pose proof (proj1 (elem_negb_any (cites st) _) Hc). split_and!; try done. naive_solver.
    + by apply Forall_forall.
    + intros d Hd. rewrite Hd, if_Err_Ok, if_Err_Ok, orb_false_iff, negb_false_iff, elemb_true, is_nil_false in Hdialect.
      naive_solver.
    + intros Hp. apply Forall_forall. intros item Hitem. by specialize (Hpre Hp item Hitem) as ?%bool_decide_eq_false.
    + intros Hp. apply Forall_forall. intros item Hitem. by specialize (Hrec Hp item Hitem) as ?%bool_decide_eq_false.
    + done.
    + eapply Forall_impl; [exact Hlin|]. intros item Hl. cbn in Hl.
      rewrite if_Err_Ok, !orb_false_iff, !negb_false_iff, seqb_true, Hcites in Hl. naive_solver.
    + eapply Forall_impl; [exact Hreg|]. intros region Hl. cbn in Hl.
      rewrite if_Err_Ok, !orb_false_iff, !negb_false_iff, Hcites in Hl. naive_solver.
  - intros [Hev Hreasons Hdialect Hpre Hrec Hexp Hlin Hreg]. rewrite Forall_forall in Hev. pose proof (proj1 (Forall_forall _ _) Hreasons). split_and!.
    + intros item Hitem. destruct (Hev item Hitem) as (-> & -> & Hne%is_nil_false & Hc). rewrite Hne. cbn.
      apply (elem_negb_any (cites st)). naive_solver.
    + done.
    + destruct (metadata_dialect m) as [d|]; [|done]. destruct (Hdialect d eq_refl) as (-> & ->%elemb_true & Hne%is_nil_false).
      by rewrite Hne.
    + intros Hp item Hitem. apply bool_decide_eq_false. by apply (proj1 (Forall_forall _ _) (Hpre Hp)).
    + intros Hp item Hitem. apply bool_decide_eq_false. by apply (proj1 (Forall_forall _ _) (Hrec Hp)).
    + done.
    + eapply Forall_impl; [exact Hlin|]. intros item (-> & -> & ->%Hcites & ->). cbn.
      by rewrite (proj2 (seqb_true _ _) eq_refl).
    + eapply Forall_impl; [exact Hreg|]. by intros region (-> & ->%Hcites).
Qed.
End Metadata.

(** * The invariant of a begun unit *)

Section Invariant.
Context {O : Type} `{ArchaeologyAdapterOutput O}.
Context (json_span : ArchaeologySourceSpan -> serialized) (json_fact : ArchaeologyFact -> serialized)
  (json_edge : ArchaeologyFactEdge -> serialized).
Context (token : StructuralGraphCancellation) (limits : ArchaeologyAdapterLimits).
Context (cap : ArchaeologyParserCapability) (unit : ArchaeologyInventoryUnit) (source : string).
Context (positions : SourcePositionIndex).
Context (Hpos : forall p, matches positions source p =
  Ok (bool_decide (reference_position source (byte p) = Some p))).
Context (id : string).

Definition emission_size (c : Call) : N :=
  match c with
  | CSpan s _ => serialized_size (json_span s)
  | CFact f _ => serialized_size (json_fact f)
  | CEdge e _ => serialized_size (json_edge e)
  | _ => 0
  end.

(** Nothing has gone wrong: the store accepted well-cited evidence, and the
    tables are those of it. *)
Record live (emissions : list Call) (st : ValidatingOutput (O * list Call)) : Prop := {
  live_error : first_error st = None;
  live_log : snd (output st) = CBegin id (Ok tt) :: emissions;
  live_accepted : Forall accepted emissions;
  live_evidence : evidence cap unit source emissions;
  live_spans : spans st = set_of_list (map span_id (spans_of emissions));
  live_facts : facts st = set_of_list (map fact_id (facts_of emissions));
  live_edges : edges st = set_of_list (map fact_edge_id (edges_of emissions));
  live_counts : len (spans_of emissions) <= max_spans limits /\ len (facts_of emissions) <= max_facts limits /\
    len (edges_of emissions) <= max_edges limits;
  live_bytes : output_bytes st = total emission_size emissions /\ output_bytes st <= max_output_bytes limits
}.
(** The log of a unit that can only be aborted. *)
Definition stopped (log : list Call) : Prop :=
  exists emissions failed, log = CBegin id (Ok tt) :: emissions ++ failed /\
    Forall accepted emissions /\ last_emission failed.
Definition failing (st : ValidatingOutput (O * list Call)) : Prop :=
  is_Some (first_error st) /\ stopped (snd (output st)).

Lemma live_stopped emissions st : live emissions st -> stopped (snd (output st)).
Proof.
  intros Hl. exists emissions, []. rewrite app_nil_r. split_and!; [apply Hl|apply Hl|by left].
Qed.

Lemma evidence_NoDup log : evidence cap unit source log ->
  NoDup (map span_id (spans_of log)) /\ NoDup (map fact_id (facts_of log)) /\
  NoDup (map fact_edge_id (edges_of log)).
Proof.
  induction 1 as [|log s r _ (IHs & IHf & IHe) _ Hin|log f r _ (IHs & IHf & IHe) _ Hin _ _
    |log e r _ (IHs & IHf & IHe) _ Hin _ _ _ _]; [repeat split; constructor|..];
    unfold spans_of, facts_of, edges_of in *; rewrite !omap_app; cbn; rewrite ?app_nil_r, ?map_app; cbn;
    split_and!; try done; by apply NoDup_snoc.
Qed.

(** The tables count what was emitted. *)
Lemma live_len emissions st : live emissions st ->
  len (spans st) = len (spans_of emissions) /\ len (facts st) = len (facts_of emissions) /\
  len (edges st) = len (edges_of emissions).
Proof.
  intros Hl. destruct (evidence_NoDup _ (live_evidence _ _ Hl)) as (Hs & Hf & He).
  assert (forall l : list string, NoDup l -> len (set_of_list l) = len l) as Hlen.
  { intros l Hnd. unfold len. f_equal. apply Permutation_length, NoDup_Permutation; [|done|].
    - apply sorted_NoDup, set_of_list_sorted.
    - intros x. apply elem_of_set_of_list. }
  rewrite (live_spans _ _ Hl), (live_facts _ _ Hl), (live_edges _ _ Hl), !Hlen by done.
  unfold len. by rewrite !length_map.
Qed.

(** An emission on a live unit extends its log, or ends it. *)
Definition emission_effect (c : outcome () -> Call) (emissions : list Call)
    (r : outcome ()) (st' : ValidatingOutput (O * list Call)) : Prop :=
  match r with
  | Ok _ => live (emissions ++ [c (Ok tt)]) st'
  | Err _ => failing st'
  | Crash _ => stopped (snd (output st'))
  end.

Lemma emission_step_effect check call record c emissions st r st' :
  live emissions st -> (forall r, emission (c r) = Some r) ->
  (forall st, returns (check st)) -> (forall n st, fst (record n st) = Ok tt) ->
  (forall s, snd (snd (call s)) = snd s ++ [c (fst (call s))]) ->
  (forall next st0 st1, check (tick token st) = Ok next -> record next st0 = (Ok tt, st1) ->
     snd (output st0) = CBegin id (Ok tt) :: emissions ++ [c (Ok tt)] ->
     spans st0 = spans st -> facts st0 = facts st -> edges st0 = edges st -> first_error st0 = None ->
     live (emissions ++ [c (Ok tt)]) st1) ->
  emission_step token check call record st = (r, st') -> emission_effect c emissions r st'.
Proof.
  intros Hl Hc Hcheck Hrec Hlog Hlive Hstep. pose proof (live_stopped _ _ Hl) as Hstop.
  assert (forall o' rc, call (output st) = (rc, o') ->
    snd o' = CBegin id (Ok tt) :: emissions ++ [c rc]) as Hlog'.
  { intros o' rc Hcall. specialize (Hlog (output st)). rewrite Hcall, (live_log _ _ Hl) in Hlog. exact Hlog. }
  assert (forall rc, stopped (CBegin id (Ok tt) :: emissions ++ [c rc])) as Hend.
  { intros rc. exists emissions, [c rc]. split; [done|]. split; [apply Hl|]. right. exists (c rc).
    split; [done|]. rewrite Hc. by eexists. }
  destruct (emission_step_end _ _ _ _ _ _ _ Hcheck Hrec Hstep)
    as [(e & -> & Hout & Herr & _)|(_ & _ & next & rc & o' & Hchk & Hcall & Hres)].
  - split; [done|]. by rewrite Hout.
  - apply Hlog' in Hcall. destruct rc as [[]|e|w].
    + destruct Hres as (-> & st0 & Hr & Ho & _ & Hs & Hf & He & Herr). eapply Hlive; [exact Hchk|exact Hr| | | | |]; try done.
      by rewrite Ho.
    + destruct Hres as (-> & Ho & Herr). split; [done|]. rewrite Ho, Hcall. apply Hend.
    + destruct Hres as (-> & Ho). cbn. rewrite Ho, Hcall. apply Hend.
Qed.

(** A unit that is failing stays so: the store is not called again. *)
Lemma emission_step_failing check call record (st : ValidatingOutput (O * list Call)) r st' :
  is_Some (first_error st) -> emission_step token check call record st = (r, st') ->
  is_Err r /\ st' = st.
Proof.
  intros [e He]. unfold emission_step, unless_failed, self, mbind, method_bind. cbn. rewrite He.
  intros [= <- <-]. split; [by eexists|done].
Qed.

Lemma emitted_span_effect s emissions st r st' :
  live emissions st -> checked_emit_span json_span token limits unit source positions s st = (r, st') ->
  emission_effect (CSpan s) emissions r st'.
Proof.
  intros Hl. rewrite emit_span_step. apply emission_step_effect; try done.
  - intros st0. by apply span_check_returns.
  - intros [o log]. cbn. unfold logged. cbn. by destruct (emit_span o s).
  - intros next st0 st1 Hchk Hr Hlog Hs Hf He Herr. unfold record_span in Hr. injection Hr as <-.
    unfold span_check in Hchk. apply if_Err_Ok in Hchk as [Hcount%N.eqb_neq Hchk].
    apply then_Ok in Hchk as [Hvalid Hchk]. rewrite span_refused_Ok, bind_of_Ok in Hchk by done.
    apply if_Err_Ok in Hchk as [Href Hbytes]. rewrite !orb_false_iff in Href.
    destruct Href as ((((((Hu%negb_false_iff%seqb_true & Hrev%negb_false_iff%seqb_true) & Hend%N.ltb_ge)
      & Hne%N.eqb_neq) & Hp1%negb_false_iff%bool_decide_eq_true) & Hp2%negb_false_iff%bool_decide_eq_true)
      & Hnew%set_contains_false).
    unfold tick, is_cancelled in Hcount, Hnew, Hbytes. cbn in Hcount, Hnew, Hbytes.
    apply next_output_bytes_Ok in Hbytes as (_ & Hnext & Hmax).
    destruct (live_len _ _ Hl) as (Hls & _). destruct (live_counts _ _ Hl) as (Hcs & Hcf & Hce).
    assert (spans_of (emissions ++ [CSpan s (Ok tt)]) = spans_of emissions ++ [s]) as Hso
      by (unfold spans_of; by rewrite omap_app).
    assert (facts_of (emissions ++ [CSpan s (Ok tt)]) = facts_of emissions) as Hfo
      by (unfold facts_of; rewrite omap_app; apply app_nil_r).
    assert (edges_of (emissions ++ [CSpan s (Ok tt)]) = edges_of emissions) as Heo
      by (unfold edges_of; rewrite omap_app; apply app_nil_r).
    constructor; cbn; rewrite ?Hso, ?Hfo, ?Heo, ?map_app, ?total_snoc; cbn [map].
    + done.
    + done.
    + apply Forall_app. split; [apply Hl|by repeat constructor].
    + constructor; [apply Hl| |].
      * split_and!; try done. apply span_validate_Ok in Hvalid as (_ & _ & _ & _ & _ & _ & _ & Hle & _). lia.
      * by rewrite (live_spans _ _ Hl), elem_of_set_of_list in Hnew.
    + rewrite Hs, (live_spans _ _ Hl). by rewrite set_of_list_snoc.
    + rewrite Hf. apply Hl.
    + rewrite He. apply Hl.
    + rewrite len_snoc. split_and!; [lia|done|done].
    + rewrite (proj1 (live_bytes _ _ Hl)) in Hnext. split; [|done]. cbn. lia.
Qed.

Lemma emitted_fact_effect f emissions st r st' :
  live emissions st -> checked_emit_fact json_fact token limits cap f st = (r, st') ->
  emission_effect (CFact f) emissions r st'.
Proof.
  intros Hl. rewrite emit_fact_step. apply emission_step_effect; try done.
  - intros st0. by apply fact_check_returns.
  - intros [o log]. cbn. unfold logged. cbn. by destruct (emit_fact o f).
  - intros next st0 st1 Hchk Hr Hlog Hs Hf He Herr. unfold record_fact in Hr. injection Hr as <-.
    unfold fact_check in Hchk. apply if_Err_Ok in Hchk as [Hcount%N.eqb_neq Hchk].
    apply then_Ok in Hchk as [Hsecret Hchk]. destruct (fact_secret_shape f) eqn:Hshape; [done|].
    apply if_Err_Ok in Hchk as [Href Hbytes]. unfold fact_refused in Href. rewrite !orb_false_iff in Href.
    destruct Href as (((((((((Hid%is_empty_false & Hlabel) & Hparser%negb_false_iff%seqb_true)
      & Htrust%negb_false_iff%bool_decide_eq_true) & Hkind%negb_false_iff%elemb_true) & Hnil%is_nil_false)
      & Hcite) & Hattr) & Hsem%negb_false_iff) & Hnew%set_contains_false).
    unfold tick, is_cancelled in Hcount, Hnew, Hbytes, Hcite. cbn in Hcount, Hnew, Hbytes, Hcite.
    rewrite elem_negb_any in Hcite. rewrite any_false in Hattr.
    apply next_output_bytes_Ok in Hbytes as (_ & Hnext & Hmax).
    destruct (live_len _ _ Hl) as (_ & Hlf & _). destruct (live_counts _ _ Hl) as (Hcs & Hcf & Hce).
    assert (spans_of (emissions ++ [CFact f (Ok tt)]) = spans_of emissions) as Hso
      by (unfold spans_of; rewrite omap_app; apply app_nil_r).
    assert (facts_of (emissions ++ [CFact f (Ok tt)]) = facts_of emissions ++ [f]) as Hfo
      by (unfold facts_of; by rewrite omap_app).
    assert (edges_of (emissions ++ [CFact f (Ok tt)]) = edges_of emissions) as Heo
      by (unfold edges_of; rewrite omap_app; apply app_nil_r).
    constructor; cbn; rewrite ?Hso, ?Hfo, ?Heo, ?map_app, ?total_snoc; cbn [map].
    + done.
    + done.
    + apply Forall_app. split; [apply Hl|by repeat constructor].
    + constructor; [apply Hl| | |done|].
      * split_and!; try done. apply Forall_forall. intros a Ha. specialize (Hattr a Ha).
        apply orb_false_iff in Hattr as [Hk%negb_false_iff Hv]. done.
      * by rewrite (live_facts _ _ Hl), elem_of_set_of_list in Hnew.
      * intros x Hx%Hcite. apply set_contains_true in Hx.
        by rewrite (live_spans _ _ Hl), elem_of_set_of_list in Hx.
    + rewrite Hs. apply Hl.
    + rewrite Hf, (live_facts _ _ Hl). by rewrite set_of_list_snoc.
    + rewrite He. apply Hl.
    + rewrite len_snoc. split_and!; [done|lia|done].
    + rewrite (proj1 (live_bytes _ _ Hl)) in Hnext. split; [|done]. cbn. lia.
Qed.

Lemma emitted_edge_effect e emissions st r st' :
  live emissions st -> checked_emit_edge json_edge token limits e st = (r, st') ->
  emission_effect (CEdge e) emissions r st'.
Proof.
  intros Hl. rewrite emit_edge_step. apply emission_step_effect; try done.
  - intros st0. by apply edge_check_returns.
  - intros [o log]. cbn. unfold logged. cbn. by destruct (emit_edge o e).
  - intros next st0 st1 Hchk Hr Hlog Hs Hf He Herr. unfold record_edge in Hr. injection Hr as <-.
    unfold edge_check in Hchk. apply if_Err_Ok in Hchk as [Hcount%N.eqb_neq Hchk].
    apply if_Err_Ok in Hchk as [Href Hbytes]. unfold edge_refused in Href. rewrite !orb_false_iff in Href.
    destruct Href as ((((((((Hid%is_empty_false & Hfrom%negb_false_iff%set_contains_true)
      & Hto%negb_false_iff%set_contains_true) & Htrust%negb_false_iff%bool_decide_eq_true) & Hcite)
      & Hnil%is_nil_false) & Hun%negb_false_iff%eqb_prop) & Hblank) & Hnew%set_contains_false).
    unfold tick, is_cancelled in Hcount, Hnew, Hbytes, Hcite, Hfrom, Hto.
    cbn in Hcount, Hnew, Hbytes, Hcite, Hfrom, Hto.
    rewrite elem_negb_any in Hcite.
    apply next_output_bytes_Ok in Hbytes as (_ & Hnext & Hmax).
    destruct (live_len _ _ Hl) as (_ & _ & Hle). destruct (live_counts _ _ Hl) as (Hcs & Hcf & Hce).
    assert (spans_of (emissions ++ [CEdge e (Ok tt)]) = spans_of emissions) as Hso
      by (unfold spans_of; rewrite omap_app; apply app_nil_r).
    assert (facts_of (emissions ++ [CEdge e (Ok tt)]) = facts_of emissions) as Hfo
      by (unfold facts_of; rewrite omap_app; apply app_nil_r).
    assert (edges_of (emissions ++ [CEdge e (Ok tt)]) = edges_of emissions ++ [e]) as Heo
      by (unfold edges_of; by rewrite omap_app).
    rewrite (live_facts _ _ Hl), elem_of_set_of_list in Hfrom, Hto.
    constructor; cbn; rewrite ?Hso, ?Hfo, ?Heo, ?map_app, ?total_snoc; cbn [map].
    + done.
    + done.
    + apply Forall_app. split; [apply Hl|by repeat constructor].
    + constructor; [apply Hl| | |done|done|done|].
      * split_and!; try done.
        -- rewrite <- is_some_true, <- Hun. apply symmetry, bool_decide_eq_true.
        -- intros reason Hreason. by rewrite Hreason in Hblank.
      * by rewrite (live_edges _ _ Hl), elem_of_set_of_list in Hnew.
      * intros x Hx%Hcite. apply set_contains_true in Hx.
        by rewrite (live_spans _ _ Hl), elem_of_set_of_list in Hx.
    + rewrite Hs. apply Hl.
    + rewrite Hf. apply Hl.
    + rewrite He, (live_edges _ _ Hl). by rewrite set_of_list_snoc.
    + rewrite len_snoc. split_and!; [done|done|lia].
    + rewrite (proj1 (live_bytes _ _ Hl)) in Hnext. split; [|done]. cbn. lia.
Qed.

(** ** The adapter's calls *)

Definition begun (st : ValidatingOutput (O * list Call)) : Prop :=
  (exists emissions, live emissions st) \/ failing st.
Definition parsed_effect {A} (r : outcome A) (st' : ValidatingOutput (O * list Call)) : Prop :=
  match r with Crash _ => stopped (snd (output st')) | _ => begun st' end.

Lemma begun_stopped st : begun st -> stopped (snd (output st)).
Proof. intros [[emissions Hl]|[_ Hs]]; [by eapply live_stopped|done]. Qed.
Lemma live_tick emissions st : live emissions st -> live emissions (tick token st).
Proof. intros [? ? ? ? ? ? ? ? ?]. by constructor. Qed.
Lemma begun_tick st : begun st -> begun (tick token st).
Proof. intros [[emissions Hl]|Hf]; [left; exists emissions; by apply live_tick|by right]. Qed.

(** Whatever is emitted, the unit stays begun. *)
Definition keeps_begun {A} (m : method (O * list Call) A) : Prop :=
  forall st r st', begun st -> m st = (r, st') -> parsed_effect r st'.

Lemma emission_keeps_begun (m : method (O * list Call) ()) c :
  (forall emissions st r st', live emissions st -> m st = (r, st') -> emission_effect c emissions r st') ->
  (forall st r st', is_Some (first_error st) -> m st = (r, st') -> is_Err r /\ st' = st) ->
  keeps_begun m.
Proof.
  intros Hlive Hfail st r st' [[emissions Hl]|Hf] Hm.
  - specialize (Hlive _ _ _ _ Hl Hm). destruct r; cbn in *; [left; eauto|by right|done].
  - destruct (Hfail _ _ _ (proj1 Hf) Hm) as [[e ->] ->]. by right.
Qed.

Lemma answered_keeps_begun {A} (m : method (O * list Call) ()) (k : option string -> method (O * list Call) A) :
  keeps_begun m -> (forall r, keeps_begun (k r)) -> keeps_begun (answered m k).
Proof.
  intros Hm Hk st r st' Hb. unfold answered. destruct (m st) as [[[]|e|w] st1] eqn:E.
  - apply Hk. by apply (Hm _ _ _ Hb E).
  - apply Hk. by apply (Hm _ _ _ Hb E).
  - intros [= <- <-]. by apply (Hm _ _ _ Hb E).
Qed.

Lemma run_program_keeps_begun p :
  keeps_begun (run_program json_span json_fact json_edge token limits cap unit source positions p).
Proof.
  induction p as [result|s k IH|f k IH|e k IH|k IH]; cbn [run_program].
  - intros st r st' Hb [= <- <-]. destruct result; cbn; [done|done|by apply begun_stopped].
  - apply answered_keeps_begun; [|done]. apply (emission_keeps_begun _ (CSpan s)).
    + intros. by eapply emitted_span_effect.
    + intros st r st'. rewrite emit_span_step. apply emission_step_failing.
  - apply answered_keeps_begun; [|done]. apply (emission_keeps_begun _ (CFact f)).
    + intros. by eapply emitted_fact_effect.
    + intros st r st'. rewrite emit_fact_step. apply emission_step_failing.
  - apply answered_keeps_begun; [|done]. apply (emission_keeps_begun _ (CEdge e)).
    + intros. by eapply emitted_edge_effect.
    + intros st r st'. rewrite emit_edge_step. apply emission_step_failing.
  - intros st r st' Hb Hr. apply begun_tick in Hb. by apply (IH (observed token (polls st)) (tick token st)).
Qed.
(** ** Finishing *)

(** What the outcome of a finished unit says of its emissions. *)
Record accounted (json_metadata : ArchaeologyAdapterMetadata -> serialized) (emissions : list Call)
    (outcome : ArchaeologyAdapterOutcome) : Prop := {
  accounted_spans : span_count outcome = len (spans_of emissions) /\ span_count outcome <= max_spans limits;
  accounted_facts : fact_count outcome = len (facts_of emissions) /\ fact_count outcome <= max_facts limits;
  accounted_edges : edge_count outcome = len (edges_of emissions) /\ edge_count outcome <= max_edges limits;
  accounted_bytes : outcome_output_bytes outcome =
      total emission_size emissions + serialized_size (json_metadata (outcome_metadata outcome)) /\
    outcome_output_bytes outcome <= max_output_bytes limits;
  accounted_identity : outcome_parser_identity outcome = (parser_id cap ++ "@" ++ parser_version cap)%string;
  accounted_metadata : metadata_ok cap unit (map span_id (spans_of emissions)) (outcome_metadata outcome);
  accounted_entries : metadata_entries (outcome_metadata outcome) <= max_metadata_entries limits
}.

Lemma finish_returns {O'} json_metadata metadata (st : ValidatingOutput O') :
  returns (fst (finish json_metadata token limits cap unit metadata st)).
Proof.
  unfold finish, check_cancelled, is_cancelled, reject_if, from, self, mbind, method_bind, mret, method_ret.
  cbn. destruct (observed token (polls st)); [done|]. cbn. destruct (first_error st); [done|]. cbn.
  destruct (_ <? _); [done|]. cbn.
  pose proof (next_output_bytes_returns limits (output_bytes st) (json_metadata metadata)) as Hr.
  destruct (next_output_bytes _ _ _); cbn; [|done|done].
  match goal with |- context [validate_metadata _ _ ?st0 _] =>
    pose proof (validate_metadata_returns cap unit st0 metadata) as Hr0; by destruct (validate_metadata cap unit st0 metadata) end.
Qed.
Lemma finish_effect json_metadata metadata st r st' :
  begun st -> finish json_metadata token limits cap unit metadata st = (r, st') ->
  output st' = output st /\ polls st' = S (polls st) /\ returns r /\
  forall outcome, r = Ok outcome -> observed token (polls st) = false /\
    exists emissions, live emissions st /\ accounted json_metadata emissions outcome.
Proof.
  intros Hb Hf. pose proof (finish_returns json_metadata metadata st) as Hr. rewrite Hf in Hr. revert Hf.
  unfold finish, check_cancelled, is_cancelled, reject_if, from, self, mbind, method_bind, mret, method_ret.
  cbn. destruct (observed token (polls st)) eqn:Hobs; cbn; [by intros [= <- <-]|].
  destruct (first_error st) as [e|] eqn:Hfirst; cbn; [by intros [= <- <-]|].
  destruct (_ <? _) eqn:Hentries; cbn; [by intros [= <- <-]|]. apply N.ltb_ge in Hentries.
  destruct (next_output_bytes _ _ _) as [next|e|w] eqn:Hnext; cbn; [|by intros [= <- <-]..].
  destruct (validate_metadata _ _ _ _) as [[]|e|w] eqn:Hmeta; cbn; [|by intros [= <- <-]..].
  intros [= <- <-]. split_and!; [done|done|done|]. intros outcome [= <-]. split; [done|].
  destruct Hb as [[emissions Hl]|[[e He] _]]; [|by rewrite Hfirst in He].
  exists emissions. split; [done|]. apply live_tick in Hl as Ht. unfold tick, is_cancelled in Ht. cbn in Ht.
  destruct (live_len _ _ Hl) as (Hls & Hlf & Hle). destruct (live_counts _ _ Hl) as (Hcs & Hcf & Hce).
  apply next_output_bytes_Ok in Hnext as (_ & -> & Hmax). destruct (live_bytes _ _ Hl) as [Hbytes _].
  constructor; cbn; [lia..| | |done].
  - by rewrite Hbytes in *.
  - eapply validate_metadata_ok; [|exact Hmeta]. apply Hl.
Qed.
End Invariant.
