(* ===== verification/AdapterRun.v ===== *)
(** Theorems about [Adapter.run_archaeology_adapter], one unit's whole run:
    what must hold before the store hears of the unit, the order of the calls
    made on the store, what a committed unit consists of, cancellation, and that
    a panic of the adapter never escapes. *)
From S2P Require Import Prelude Ordering RustText Utf8 SecretPolicy GraphTypes Contracts Inventory Positions.
From S2P Require Import Adapter AdapterProps.
Local Open Scope N_scope.

(** ** Examples *)

(** A store that counts the calls it takes and accepts them all. *)
#[local] Instance ex_store : ArchaeologyAdapterOutput N := {|
  begin_unit o _ := (Ok tt, o + 1); emit_span o _ := (Ok tt, o + 1); emit_fact o _ := (Ok tt, o + 1);
  emit_edge o _ := (Ok tt, o + 1); commit_unit o _ := (Ok tt, o + 1); abort_unit o := (Ok tt, o + 1) |}.
Definition ex_json {A} (value : A) : serialized := ([2; 30; 2], None).
Definition ex_text : string := "RATE = 5".
Definition ex_unit : ArchaeologyInventoryUnit := {|
  inv_identity := {| unit_source_unit_id := "u"; unit_repository_id := "r";
    unit_revision_sha := "0000000000000000000000000000000000000000"; unit_path_identity := "p";
    unit_relative_path := Some "src/rate.cob"%string; unit_content_hash := Some (hex ex_text);
    unit_hash_algorithm := Some "sha256"%string; unit_change_identity := None |};
  inv_classification := ClassSource; inv_language := "cobol"; inv_dialect := None; inv_byte_count := 8;
  inv_line_count := 1; inv_include_candidates := []; inv_coverage_reasons := [] |}.
Definition ex_input : ArchaeologyAdapterInput := {| input_unit := ex_unit; input_source := ex_text |}.
Definition ex_capability : ArchaeologyParserCapability := {|
  parser_id := "cobol"; parser_version := "1"; capability_language := "cobol"; dialects := ["ibm"%string];
  constructs := [FactConstant; FactDataField]; exact_spans := true; preprocessing := false; recovery := true |}.
Definition ex_span : ArchaeologySourceSpan := {|
  span_id := "s"; span_source_unit_id := "u"; span_revision_sha := "0000000000000000000000000000000000000000";
  span_start := {| byte := 0; line := 1; column := 1 |}; span_end := {| byte := 4; line := 1; column := 5 |} |}.
Definition ex_fact (spans : list string) : ArchaeologyFact := {|
  fact_id := "f"; fact_kind := FactDataField; fact_label := "rate"; fact_span_ids := spans;
  fact_parser_id := "cobol"; fact_trust := TrustExtracted; fact_confidence := ConfidenceHigh;
  fact_attributes := [{| attribute_key := "level"; attribute_value := "01" |}] |}.
Definition ex_metadata : ArchaeologyAdapterMetadata := {|
  metadata_dialect := None; dialect_evidence := []; lineage := [];
  regions := [{| region_kind := RegionRecovered; region_span_id := "s"; region_reason := "no period" |}];
  coverage_reasons := ["recovered"%string] |}.
(** Emits a span and a fact citing [spans], heeding no error. *)
Definition ex_adapter (spans : list string) (result : outcome ArchaeologyAdapterMetadata)
    : ArchaeologyLanguageAdapter := {|
  capability := ex_capability;
  parse _ _ := EmitSpan ex_span (fun _ => EmitFact (ex_fact spans) (fun _ => Return result)) |}.
Definition ex_run (adapter : ArchaeologyLanguageAdapter) (o : N * list Call)
    : outcome ArchaeologyAdapterOutcome * (N * list Call * nat) :=
  run_archaeology_adapter (fun s => s) ex_json ex_json ex_json ex_json adapter ex_input never_cancelled
    default_adapter_limits o 0.
Definition ex_outcome : ArchaeologyAdapterOutcome := {|
  outcome_parser_identity := "cobol@1"; outcome_metadata := ex_metadata; span_count := 1; fact_count := 1;
  edge_count := 0; outcome_output_bytes := 102 |}.

Example ex_run_committed :
  ex_run (ex_adapter ["s"%string] (Ok ex_metadata)) (0, []) =
  (Ok ex_outcome,
   ((4, [CBegin "u" (Ok tt); CSpan ex_span (Ok tt); CFact (ex_fact ["s"%string]) (Ok tt);
         CCommit ex_outcome (Ok tt)]), 5%nat)).
Proof. vm_compute. reflexivity. Qed.
(** The error the adapter did not heed aborts the unit. *)
Example ex_run_uncited :
  ex_run (ex_adapter ["t"%string] (Ok ex_metadata)) (0, []) =
  (Err "Archaeology adapter emitted an invalid or duplicate fact",
   ((3, [CBegin "u" (Ok tt); CSpan ex_span (Ok tt); CAbort (Ok tt)]), 4%nat)).
Proof. vm_compute. reflexivity. Qed.
Example ex_run_panicked :
  fst (ex_run (ex_adapter ["s"%string] (Crash "index out of bounds")) (0, [])) =
  Err "Archaeology adapter panicked".
Proof. vm_compute. reflexivity. Qed.

(** * The gate *)

Lemma empty_or_duplicate_false (seen : BTreeSet string) values :
  empty_or_duplicate seen values = false <->
  Forall (fun v => trim_is_empty v = false) values /\ NoDup values /\ forall v, v ∈ values -> v ∉ seen.
Proof.
  revert seen. induction values as [|v values IH]; intros seen; cbn [empty_or_duplicate].
  { split; [|done]. intros _. split_and!; [done|constructor|]. intros v Hv. by apply not_elem_of_nil in Hv. }
  rewrite !orb_false_iff, set_contains_false, IH.
  rewrite Forall_cons, NoDup_cons. setoid_rewrite elem_of_set_insert. setoid_rewrite elem_of_cons.
  clear IH. split; [intros ((? & ?) & ? & ? & Hd)|intros ((? & ?) & (? & ?) & Hd)]; split_and!; naive_solver.
Qed.
Lemma has_empty_or_duplicate_false values :
  has_empty_or_duplicate values = false <-> Forall (fun v => trim_is_empty v = false) values /\ NoDup values.
Proof.
  unfold has_empty_or_duplicate. rewrite empty_or_duplicate_false.
  split; [naive_solver|]. intros [? ?]. split_and!; [done|done|]. intros v _. apply not_elem_of_nil.
Qed.

Lemma fact_kind_debug_named kind :
  trim_is_empty (fact_kind_debug kind) = false.
Proof. by destruct kind. Qed.
#[export] Instance fact_kind_debug_inj : Inj (=) (=) fact_kind_debug.
Proof. by intros [] [] [=]. Qed.

Record capability_ok (cap : ArchaeologyParserCapability) : Prop := {
  capability_named : trim_is_empty (parser_id cap) = false /\ trim_is_empty (parser_version cap) = false /\
    trim_is_empty (capability_language cap) = false;
  capability_exact : exact_spans cap = true;
  capability_constructs : constructs cap <> [] /\ NoDup (constructs cap);
  capability_dialects : Forall (fun d => trim_is_empty d = false) (dialects cap) /\ NoDup (dialects cap)
}.
Lemma validate_capability_Ok cap : validate_capability cap = Ok tt <-> capability_ok cap.
Proof.
  unfold validate_capability. rewrite !if_Err_Ok, !orb_false_iff, negb_false_iff, is_nil_false,
    !has_empty_or_duplicate_false.
  split.
  - intros ((((((? & ?) & ?) & ?) & ?) & ?) & (_ & Hnd) & _). split; [done|done|split; [done|]|done].
    by apply NoDup_fmap in Hnd; [|apply fact_kind_debug_inj].
  - intros [(? & ? & ?) ? (? & ?) (? & ?)]. split_and!; try done; [|by apply (NoDup_fmap_2 fact_kind_debug)].
    apply Forall_map, Forall_true. intros. apply fact_kind_debug_named.
Qed.

Section Gate.
Context (sha256 : string -> string) (adapter : ArchaeologyLanguageAdapter) (input : ArchaeologyAdapterInput)
  (limits : ArchaeologyAdapterLimits).

(** The units an adapter may be shown. *)
Record admissible : Prop := {
  admissible_capability : capability_ok (capability adapter);
  admissible_unprotected : inv_classification (input_unit input) <> ClassProtected;
  admissible_path : exists path, unit_relative_path (inv_identity (input_unit input)) = Some path /\
    is_sensitive_path path = false;
  admissible_bytes : blen (input_source input) <= max_source_bytes limits /\
    blen (input_source input) = inv_byte_count (input_unit input);
  admissible_hash : unit_hash_algorithm (inv_identity (input_unit input)) = Some "sha256"%string /\
    unit_content_hash (inv_identity (input_unit input)) = Some (hex (sha256 (input_source input)));
  admissible_text : from_utf8 (input_source input) = true;
  admissible_language : inv_language (input_unit input) = capability_language (capability adapter)
}.
Lemma check_input_Ok : check_input sha256 adapter input limits = Ok tt <-> admissible.
Proof.
  unfold check_input. rewrite then_Ok, validate_capability_Ok, if_Err_Ok, bind_Ok, bool_decide_eq_false. split.
  - intros (Hcap & Hprot & path & Hpath%ok_or_Ok & H). apply if_Err_Ok in H as [Hsens H].
    apply if_Err_Ok in H as [Hbytes H]. apply bind_Ok in H as (hash & Hhash%ok_or_Ok & H).
    apply if_Err_Ok in H as [Hsha H]. apply if_Err_Ok in H as [Htext H]. apply if_Err_Ok in H as [Hlang _].
    rewrite orb_false_iff, negb_false_iff, N.ltb_ge, N.eqb_eq in Hbytes.
    rewrite orb_false_iff, !negb_false_iff, bool_decide_eq_true, seqb_true in Hsha.
    apply negb_false_iff in Htext. apply negb_false_iff, seqb_true in Hlang. destruct Hsha as [? <-].
    split; try done. by exists path.
  - intros [Hcap Hprot (path & Hpath & Hsens) [Hmax Hcount] [Halg Hhash] Htext Hlang].
    split_and!; [done|done|]. exists path. rewrite Hpath, Hsens, Hhash, Htext, Hlang, Halg, Hcount.
    apply N.ltb_ge in Hmax. rewrite Hcount in Hmax. cbn [ok_or]. rewrite bind_of_Ok, Hmax, N.eqb_refl.
    by rewrite bool_decide_true, !(proj2 (seqb_true _ _) eq_refl).
Qed.
Lemma check_input_returns : returns (check_input sha256 adapter input limits).
Proof.
  unfold check_input. apply returns_bind.
  { unfold validate_capability. apply returns_if; [done|]. intros _. by apply returns_if. }
  intros _ _. apply returns_if; [done|]. intros _. apply returns_bind; [auto with outcomes|]. intros path _.
  repeat (apply returns_if; [done|]; intros _). apply returns_bind; [auto with outcomes|]. intros hash _.
  repeat (apply returns_if; [done|]; intros _). done.
Qed.
End Gate.

(** * Watching the store changes nothing *)

Section Erase.
Context {O : Type} `{ArchaeologyAdapterOutput O}.

Definition erase (st : ValidatingOutput (O * list Call)) : ValidatingOutput O := {|
  output := fst (output st); polls := polls st; spans := spans st; facts := facts st; edges := edges st;
  output_bytes := output_bytes st; first_error := first_error st |}.
(** The same method with the log and without it. *)
Definition erases {A} (watched : method (O * list Call) A) (m : method O A) : Prop :=
  forall st, m (erase st) = (fst (watched st), erase (snd (watched st))).

Lemma erases_bind {A B} m1 m2 (f1 : A -> method (O * list Call) B) f2 :
  erases m1 m2 -> (forall a, erases (f1 a) (f2 a)) -> erases (m1 ≫= f1) (m2 ≫= f2).
Proof.
  intros Hm Hf st. unfold mbind, method_bind. rewrite Hm. destruct (m1 st) as [[a|e|w] st']; cbn; [apply Hf|done..].
Qed.
Lemma erases_self {B} (f1 : ValidatingOutput (O * list Call) -> method (O * list Call) B) f2 :
  (forall st, erases (f1 st) (f2 (erase st))) -> erases (self ≫= f1) (self ≫= f2).
Proof. intros Hf st. apply Hf. Qed.
Lemma erases_from {A} (r : outcome A) : erases (from r) (from r).
Proof. done. Qed.
Lemma erases_is_cancelled token : erases (is_cancelled token) (is_cancelled token).
Proof. done. Qed.
Lemma erases_check_cancelled token : erases (check_cancelled token) (check_cancelled token).
Proof. apply erases_bind; [apply erases_is_cancelled|intros; apply erases_from]. Qed.
Lemma erases_forward call1 call2 :
  (forall s, call2 (fst s) = (fst (call1 s), fst (snd (call1 s)))) -> erases (forward call1) (forward call2).
Proof.
  intros Hc st. unfold forward. cbn. rewrite Hc. by destruct (call1 (output st)) as [r [o l]].
Qed.
Lemma erases_unless_failed m1 m2 : erases m1 m2 -> erases (unless_failed m1) (unless_failed m2).
Proof.
  intros Hm. apply erases_self. intros st0. cbn. destruct (first_error st0); [apply erases_from|].
  intros st. unfold remember. rewrite Hm. by destruct (m1 st) as [[]  st1].
Qed.
Lemma erases_answered {A} m1 m2 (k1 : option string -> method (O * list Call) A) k2 :
  erases m1 m2 -> (forall r, erases (k1 r) (k2 r)) -> erases (answered m1 k1) (answered m2 k2).
Proof.
  intros Hm Hk st. unfold answered. rewrite Hm. destruct (m1 st) as [[a|e|w] st']; cbn; [apply Hk..|done].
Qed.
Lemma erases_logged c (call : O -> outcome unit * O) : erases (forward (logged c call)) (forward call).
Proof. apply erases_forward. intros s. unfold logged. by destruct (call (fst s)). Qed.

Section Methods.
Context (json_span : ArchaeologySourceSpan -> serialized) (json_fact : ArchaeologyFact -> serialized)
  (json_edge : ArchaeologyFactEdge -> serialized) (json_metadata : ArchaeologyAdapterMetadata -> serialized).
Context (token : StructuralGraphCancellation) (limits : ArchaeologyAdapterLimits).
Context (cap : ArchaeologyParserCapability) (unit : ArchaeologyInventoryUnit) (source : string).
Context (positions : SourcePositionIndex).

Ltac erasing :=
  repeat first [ apply erases_unless_failed | apply erases_self; intros ?
               | apply erases_bind; [|intros ?] | apply erases_from | apply erases_is_cancelled
               | apply erases_check_cancelled | done ].

Lemma erases_emit_span s :
  erases (checked_emit_span json_span token limits unit source positions s)
         (checked_emit_span json_span token limits unit source positions s).
Proof. unfold checked_emit_span. erasing. apply (erases_logged (CSpan s) (fun o => emit_span o s)). Qed.
Lemma erases_emit_fact f :
  erases (checked_emit_fact json_fact token limits cap f) (checked_emit_fact json_fact token limits cap f).
Proof. unfold checked_emit_fact. erasing. apply (erases_logged (CFact f) (fun o => emit_fact o f)). Qed.
Lemma erases_emit_edge e :
  erases (checked_emit_edge json_edge token limits e) (checked_emit_edge json_edge token limits e).
Proof. unfold checked_emit_edge. erasing. apply (erases_logged (CEdge e) (fun o => emit_edge o e)). Qed.
Lemma erases_finish m :
  erases (finish json_metadata token limits cap unit m) (finish json_metadata token limits cap unit m).
Proof. unfold finish. erasing. Qed.
Lemma erases_run_program p :
  erases (run_program json_span json_fact json_edge token limits cap unit source positions p)
         (run_program json_span json_fact json_edge token limits cap unit source positions p).
Proof.
  induction p as [result|s k IH|f k IH|e k IH|k IH]; cbn [run_program]; [done|..].
  - apply erases_answered; [apply erases_emit_span|done].
  - apply erases_answered; [apply erases_emit_fact|done].
  - apply erases_answered; [apply erases_emit_edge|done].
  - apply erases_bind; [apply erases_is_cancelled|done].
Qed.
End Methods.
End Erase.

(** * The run *)

Section Run.
Context {O : Type} `{ArchaeologyAdapterOutput O}.
Context (sha256 : string -> string).
Context (json_span : ArchaeologySourceSpan -> serialized) (json_fact : ArchaeologyFact -> serialized)
  (json_edge : ArchaeologyFactEdge -> serialized) (json_metadata : ArchaeologyAdapterMetadata -> serialized).
Context (adapter : ArchaeologyLanguageAdapter) (input : ArchaeologyAdapterInput).
Context (token : StructuralGraphCancellation) (limits : ArchaeologyAdapterLimits).

Definition unit_id : string := unit_source_unit_id (inv_identity (input_unit input)).

(** What the store holds of a unit whose run returned [outcome]. *)
Record committed (log : list Call) (outcome : ArchaeologyAdapterOutcome) (emissions : list Call) : Prop := {
  committed_log : log = CBegin unit_id (Ok tt) :: emissions ++ [CCommit outcome (Ok tt)];
  committed_accepted : Forall accepted emissions;
  committed_evidence : evidence (capability adapter) (input_unit input) (input_source input) emissions;
  committed_account :
    accounted json_span json_fact json_edge limits (capability adapter) (input_unit input) json_metadata
      emissions outcome
}.

Definition open_log (log : list Call) (r : outcome ArchaeologyAdapterOutcome) : Prop :=
  stopped unit_id log /\ returns r /\ forall outcome, r = Ok outcome ->
    exists emissions, log = CBegin unit_id (Ok tt) :: emissions /\
      committed (log ++ [CCommit outcome (Ok tt)]) outcome emissions.

Lemma parse_unit_effect positions (o : O * list Call) n r st :
  (forall p, matches positions (input_source input) p =
    Ok (bool_decide (reference_position (input_source input) (byte p) = Some p))) ->
  snd o = [CBegin unit_id (Ok tt)] ->
  parse_unit json_span json_fact json_edge json_metadata adapter input token limits positions o n = (r, st) ->
  open_log (snd (output st)) r.
Proof.
  intros Hpos Ho. unfold parse_unit.
  match goal with |- context [run_program _ _ _ _ _ _ _ _ _ _ ?s] => set (st0 := s) end.
  assert (live json_span json_fact json_edge limits (capability adapter) (input_unit input) (input_source input)
    unit_id [] st0) as Hl.
  { subst st0. constructor; cbn; try done; [constructor|split_and!; apply N.le_0_l|].
    split; [done|apply N.le_0_l]. }
  destruct (run_program _ _ _ _ _ _ _ _ _ _ st0) as [rp stp] eqn:Hrun.
  apply (run_program_keeps_begun _ _ _ _ _ _ _ _ _ Hpos unit_id) in Hrun; [|left; by exists []].
  destruct rp as [metadata|e|w]; cbn in Hrun.
  - intros Hf. destruct (finish_effect _ _ _ _ _ _ _ _ _ _ _ _ _ _ Hrun Hf) as (Hout & _ & Hr & Hok).
    split; [|split; [done|]]; rewrite Hout; [by eapply begun_stopped|]. intros outcome Hoc.
    destruct (Hok outcome Hoc) as (_ & emissions & Hle & Hacc). exists emissions.
    split; [apply Hle|]. split; [by rewrite (live_log _ _ _ _ _ _ _ _ _ _ Hle)|apply Hle|apply Hle|done].
  - intros [= <- <-]. split_and!; [by eapply begun_stopped|done|done].
  - intros [= <- <-]. by split_and!.
Qed.

Lemma stopped_session log e abort :
  stopped unit_id log -> session unit_id (log ++ [CAbort abort]) (with_abort_error e abort).
Proof.
  intros (emissions & failed & -> & Ha & Hf). rewrite <- app_comm_cons, <- app_assoc. by apply session_aborted.
Qed.

Lemma aborted_session {A} e (o : O * list Call) n (r : outcome A) o' n' :
  aborted e o n = (r, (o', n')) ->
  exists abort, r = with_abort_error e abort /\ snd o' = snd o ++ [CAbort abort].
Proof.
  destruct o as [o log]. unfold aborted. cbn. unfold logged. cbn.
  destruct (abort_unit o) as [abort o1]. intros [= <- <- _]. by exists abort.
Qed.

Lemma commit_or_abort_effect r (st : ValidatingOutput (O * list Call)) r' o' n' :
  open_log (snd (output st)) r -> commit_or_abort token r st = (r', (o', n')) ->
  session unit_id (snd o') r' /\ snd o' <> [] /\
  forall outcome, r' = Ok outcome ->
    (exists emissions, committed (snd o') outcome emissions) /\
    exists k, n' = S k /\ observed token k = false.
Proof.
  intros (Hstop & Hr & Hok). unfold commit_or_abort.
  assert (forall l c, l ++ [c] <> ([] : list Call)) as Hne by (intros l c ?%app_eq_nil; naive_solver).
  assert (forall e o n, snd o = snd (output st) -> aborted e o n = (r', (o', n')) ->
    session unit_id (snd o') r' /\ snd o' <> [] /\ forall outcome, r' <> Ok outcome) as Habort.
  { intros e o n Ho Ha. apply aborted_session in Ha as (abort & -> & ->). rewrite Ho.
    split_and!; [by apply stopped_session|apply Hne|]. intros outcome. by destruct abort. }
  destruct r as [outcome|e|w]; [| |done].
  2: { intros Ha. destruct (Habort _ _ _ eq_refl Ha) as (Hs & Hn & Hno). split_and!; [done|done|].
       intros outcome Ho. by destruct (Hno outcome). }
  destruct (observed token (polls st)) eqn:Hobs.
  { intros Ha. destruct (Habort _ _ _ eq_refl Ha) as (Hs & Hn & Hno). split_and!; [done|done|].
    intros outcome0 Ho. by destruct (Hno outcome0). }
  destruct (Hok outcome eq_refl) as (emissions & Hlog & Hcom). destruct (output st) as [o log]. cbn in *.
  unfold logged. cbn. destruct (commit_unit o outcome) as [[[]|e|w] o1]; cbn.
  - intros [= <- <- <-]. cbn. split_and!; [|apply Hne|].
    + rewrite Hlog, <- app_comm_cons. apply session_committed, Hcom.
    + intros outcome0 [= <-]. split; [by exists emissions|]. by exists (polls st).
  - intros Ha. apply aborted_session in Ha as (abort & -> & ->). cbn.
    split_and!; [|apply Hne|by destruct abort].
    rewrite Hlog, <- !app_comm_cons, <- !app_assoc. apply session_not_committed, Hcom.
  - intros [= <- <- <-]. cbn. split_and!; [|apply Hne|done]. rewrite Hlog, <- app_comm_cons.
    apply session_commit_panicked, Hcom.
Qed.

(** The log of the whole run. *)
Lemma run_effect (Hlen : blen (input_source input) <= isize_max) (o : O) n r o' log n' :
  run_archaeology_adapter sha256 json_span json_fact json_edge json_metadata adapter input token limits (o, []) n
    = (r, ((o', log), n')) ->
  session unit_id log r /\
  (observed token n = false -> admissible sha256 adapter input limits -> log <> []) /\
  forall outcome, r = Ok outcome ->
    admissible sha256 adapter input limits /\ (exists emissions, committed log outcome emissions) /\
    exists k, n' = S k /\ observed token k = false.
Proof.
  unfold run_archaeology_adapter. destruct (observed token n).
  { intros [= <- _ <- _]. split_and!; [apply session_refused|done|done]. }
  rewrite <- check_input_Ok. destruct (check_input _ _ _ _) as [[]|e|w] eqn:Hcheck.
  2: { intros [= <- _ <- _]. split_and!; [apply session_refused|done|done]. }
  2: { pose proof (check_input_returns sha256 adapter input limits) as Hr. by rewrite Hcheck in Hr. }
  apply check_input_Ok in Hcheck as Hadm. cbn [begin_unit traced]. unfold logged. fold unit_id. cbn [fst snd app].
  destruct (begin_unit o unit_id) as [[[]|e|w] o1].
  - destruct (position_index_ok (input_source input) (admissible_text _ _ _ _ Hadm) Hlen)
      as (positions & -> & _ & Hpos).
    destruct (parse_unit _ _ _ _ _ _ _ _ _ _ _) as [rp st] eqn:Hparse.
    apply parse_unit_effect in Hparse; [|done|done]. intros Hc.
    destruct (commit_or_abort_effect _ _ _ _ _ Hparse Hc) as (Hs & Hne & Hok). split_and!; [done|done|].
    intros outcome Ho. destruct (Hok outcome Ho) as [Hcom Hk]. done.
  - intros Ha. apply aborted_session in Ha as (abort & -> & Hl). cbn in Hl. subst log.
    split_and!; [apply session_not_begun|done|by destruct abort].
  - intros [= <- <- <- <-]. split_and!; [apply session_begin_panicked|done|done].
Qed.

(** The log is the one of the store that is run. *)
Lemma aborted_erased {A} e (o : O * list Call) n :
  @aborted O _ A e (fst o) n =
  let '(r, (o', n')) := aborted e o n in (r, (fst o', n')).
Proof. destruct o as [o l]. unfold aborted. cbn. unfold logged. cbn. by destruct (abort_unit o). Qed.
Lemma commit_or_abort_erased r (st : ValidatingOutput (O * list Call)) :
  commit_or_abort token r (erase st) =
  let '(r', (o', n')) := commit_or_abort token r st in (r', (fst o', n')).
Proof.
  unfold commit_or_abort. cbn. destruct r as [outcome|e|w]; [|apply aborted_erased|done].
  destruct (observed token (polls st)); [apply aborted_erased|]. destruct (output st) as [o l]. cbn.
  unfold logged. cbn. destruct (commit_unit o outcome) as [[[]|e|w] o1]; [done| |done].
  apply (aborted_erased e (o1, l ++ [CCommit outcome (Err e)])).
Qed.
Lemma parse_unit_erased positions (o : O * list Call) n :
  parse_unit json_span json_fact json_edge json_metadata adapter input token limits positions (fst o) n =
  let '(r, st) :=
    parse_unit json_span json_fact json_edge json_metadata adapter input token limits positions o n in
  (r, erase st).
Proof.
  unfold parse_unit.
  match goal with |- _ = let '(r, st) := let '(_, _) := run_program _ _ _ _ _ _ _ _ _ _ ?s in _ in _ =>
    pose proof (erases_run_program json_span json_fact json_edge token limits (capability adapter)
      (input_unit input) (input_source input) positions (parse adapter input positions) s) as He;
    unfold erase in He at 1; cbn in He; rewrite He; clear He;
    destruct (run_program _ _ _ _ _ _ _ _ _ _ s) as [[m|e|w] st] end; cbn; [|done|done].
  rewrite (erases_finish json_metadata). by destruct (finish _ _ _ _ _ _ st).
Qed.
Lemma run_erased (o : O) l n :
  run_archaeology_adapter sha256 json_span json_fact json_edge json_metadata adapter input token limits o n =
  let '(r, (o', n')) := run_archaeology_adapter sha256 json_span json_fact json_edge json_metadata adapter input
    token limits (o, l) n in
  (r, (fst o', n')).
Proof.
  unfold run_archaeology_adapter. destruct (observed token n); [done|].
  destruct (check_input _ _ _ _); [|done|done]. cbn. unfold logged. cbn.
  destruct (begin_unit o _) as [[[]|e|w] o1]; [|apply (aborted_erased e (o1, _))|done].
  destruct (SourcePositionIndex_new _) as [positions|e|w]; [|done|done].
  match goal with |- context [(o1, ?l)] => rewrite (parse_unit_erased positions (o1, l)) end.
  destruct (parse_unit _ _ _ _ _ _ _ _ _ _ _) as [r st]. apply commit_or_abort_erased.
Qed.

(** ** The order of the calls *)

(** C3: for every adapter and every store, the calls one unit's run makes on the
    store are a session: it begins the unit once, then emits, and unless a call
    itself panics ends it with exactly one of a successful commit and an abort;
    after the first refused emission nothing more is emitted, a failed begin or
    commit is followed by an abort, and the result returned is [Ok] exactly when
    the store committed. *)
Theorem adapter_session (Hlen : blen (input_source input) <= isize_max) (o : O) n r o' n' :
  run_archaeology_adapter sha256 json_span json_fact json_edge json_metadata adapter input token limits o n
    = (r, (o', n')) ->
  exists log,
    run_archaeology_adapter sha256 json_span json_fact json_edge json_metadata adapter input token limits (o, []) n
      = (r, ((o', log), n')) /\
    session unit_id log r.
Proof.
  rewrite (run_erased o [] n). destruct (run_archaeology_adapter _ _ _ _ _ _ _ _ _ _ n) as [r1 [[o1 log] n1]] eqn:Hrun.
  intros [= -> -> ->]. exists log. split; [done|]. by apply run_effect in Hrun as [Hs _].
Qed.

(** C2: what a committed unit holds, whatever the adapter did: the unit was
    admissible, every call was accepted, and the emissions are evidence: each
    span is of this unit and revision and has the line and column of its bytes,
    each fact is of a declared kind, free of secrets and cites spans emitted
    before it, each edge joins facts emitted before it, and no identity is
    repeated.  The outcome's counts are those of the emissions, its bytes their
    serialized total, both within the limits, and its metadata cites only
    emitted spans. *)
Theorem committed_unit_evidence (Hlen : blen (input_source input) <= isize_max) (o : O) n outcome o' log n' :
  run_archaeology_adapter sha256 json_span json_fact json_edge json_metadata adapter input token limits (o, []) n
    = (Ok outcome, ((o', log), n')) ->
  admissible sha256 adapter input limits /\ exists emissions, committed log outcome emissions.
Proof.
  intros Hrun. apply run_effect in Hrun as (_ & _ & Hok); [|done]. by destruct (Hok outcome eq_refl) as (? & ? & _).
Qed.

(** ** What the store is never told *)

(** C12: a unit is refused, with an error and without a single call on the store,
    when the flag is already raised or the unit is not admissible: an incomplete
    capability, protected content, no path or a sensitive one, a source over the
    byte bound or not of the inventoried size, one whose SHA-256 is not the
    inventoried one, not UTF-8, or in another language; any other unit is
    begun. *)
Theorem adapter_gate (Hlen : blen (input_source input) <= isize_max) (o : O) n :
  let '(r, ((o', log), n')) := run_archaeology_adapter sha256 json_span json_fact json_edge json_metadata adapter
    input token limits (o, []) n in
  (observed token n = true \/ ~ admissible sha256 adapter input limits -> is_Err r /\ o' = o /\ log = []) /\
  (observed token n = false -> admissible sha256 adapter input limits ->
   exists begun calls, log = CBegin unit_id begun :: calls).
Proof.
  destruct (run_archaeology_adapter _ _ _ _ _ _ _ _ _ _ n) as [r [[o' log] n']] eqn:Hrun.
  pose proof Hrun as Heffect. apply run_effect in Heffect as (Hs & Hne & _); [|done].
  unfold run_archaeology_adapter in Hrun. split.
  - intros Hno. destruct (observed token n); [injection Hrun as <- <- <- _; split_and!; [by eexists|done..]|].
    destruct Hno as [?|Hno]; [done|]. rewrite <- check_input_Ok in Hno.
    pose proof (check_input_returns sha256 adapter input limits) as Hr.
    destruct (check_input _ _ _ _) as [[]|e|w]; [done| |done].
    injection Hrun as <- <- <- _. split_and!; [by eexists|done..].
  - intros Hobs Hadm. specialize (Hne Hobs Hadm). destruct Hs; [done|eexists _, _; reflexivity..].
Qed.

(** ** Panics and cancellation *)

(** An adapter's panic is contained: if the store's own methods return, so
    does the run, with a result or an error. *)
Theorem adapter_panic_contained (Hlen : blen (input_source input) <= isize_max)
    (Hbegin : forall o id, returns (fst (begin_unit (O := O) o id)))
    (Hcommit : forall o outcome, returns (fst (commit_unit (O := O) o outcome)))
    (Habort : forall o, returns (fst (abort_unit (O := O) o))) (o : O) n :
  returns (fst (run_archaeology_adapter sha256 json_span json_fact json_edge json_metadata adapter input token
    limits o n)).
Proof.
  assert (forall A e (o : O) n, returns (fst (@aborted O _ A e o n))) as Haborted.
  { intros A e o1 n1. unfold aborted. pose proof (Habort o1) as Hr. by destruct (abort_unit o1) as [[[]|?|?] ?]. }
  unfold run_archaeology_adapter. destruct (observed token n); [done|].
  pose proof (check_input_returns sha256 adapter input limits) as Hr.
  destruct (check_input _ _ _ _) as [[]|e|w] eqn:Hcheck; [|done|done]. apply check_input_Ok in Hcheck as Hadm.
  pose proof (Hbegin o (unit_source_unit_id (inv_identity (input_unit input)))) as Hb.
  destruct (begin_unit o _) as [[[]|e|w] o1]; [|apply Haborted|done].
  destruct (position_index_ok (input_source input) (admissible_text _ _ _ _ Hadm) Hlen)
    as (positions & -> & _ & _).
  unfold parse_unit. destruct (run_program _ _ _ _ _ _ _ _ _ _ _) as [[m|e|w] st]; [|apply Haborted..].
  pose proof (finish_returns token limits (capability adapter) (input_unit input) json_metadata m st) as Hf.
  destruct (finish _ _ _ _ _ _ st) as [[outcome|e|w] st1]; [|apply Haborted|done]. unfold commit_or_abort.
  destruct (observed token (polls st1)); [apply Haborted|].
  pose proof (Hcommit (output st1) outcome) as Hc.
  by destruct (commit_unit (output st1) outcome) as [[[]|?|?] o2]; [|apply Haborted|].
Qed.

(** With a flag that once raised stays raised, a unit is committed only if the
    flag was down at every look at it, the last one just before the commit. *)
Theorem adapter_cancellation (Hlen : blen (input_source input) <= isize_max)
    (Hraised : forall j k, (j <= k)%nat -> observed token j = true -> observed token k = true)
    (o : O) n outcome o' n' :
  run_archaeology_adapter sha256 json_span json_fact json_edge json_metadata adapter input token limits o n
    = (Ok outcome, (o', n')) ->
  forall k, (k < n')%nat -> observed token k = false.
Proof.
  rewrite (run_erased o [] n). destruct (run_archaeology_adapter _ _ _ _ _ _ _ _ _ _ n) as [r [[o1 log] n1]] eqn:Hrun.
  intros [= -> -> ->] k Hk. apply run_effect in Hrun as (_ & _ & Hok); [|done].
  destruct (Hok outcome eq_refl) as (_ & _ & last & -> & Hlast).
  destruct (observed token k) eqn:Hobs; [|done]. rewrite (Hraised k last) in Hlast; [done|lia|done].
Qed.
End Run.

Lemma ex_admissible spans result : admissible (fun s => s) (ex_adapter spans result) ex_input default_adapter_limits.
Proof. apply check_input_Ok. vm_compute. reflexivity. Qed.
Lemma ex_text_short : blen (input_source ex_input) <= isize_max.
Proof. vm_compute. discriminate. Qed.

Lemma adapter_session_witness :
  exists log,
    ex_run (ex_adapter ["t"%string] (Ok ex_metadata)) (0, []) =
      (Err "Archaeology adapter emitted an invalid or duplicate fact", ((3, log), 4%nat)) /\
    session "u" log (Err "Archaeology adapter emitted an invalid or duplicate fact").
Proof.
  apply (adapter_session (fun s => s) ex_json ex_json ex_json ex_json (ex_adapter ["t"%string] (Ok ex_metadata))
    ex_input never_cancelled default_adapter_limits ex_text_short 0 0%nat).
  vm_compute. reflexivity.
Defined.

Lemma committed_unit_evidence_witness :
  exists emissions, committed ex_json ex_json ex_json ex_json (ex_adapter ["s"%string] (Ok ex_metadata)) ex_input
    default_adapter_limits
    [CBegin "u" (Ok tt); CSpan ex_span (Ok tt); CFact (ex_fact ["s"%string]) (Ok tt); CCommit ex_outcome (Ok tt)]
    ex_outcome emissions.
Proof.
  refine (proj2 (committed_unit_evidence (fun s => s) ex_json ex_json ex_json ex_json
    (ex_adapter ["s"%string] (Ok ex_metadata)) ex_input never_cancelled default_adapter_limits ex_text_short
    0 0%nat _ 4 _ 5%nat _)).
  vm_compute. reflexivity.
Defined.

Lemma adapter_gate_witness :
  exists o' n' begun calls, ex_run (ex_adapter ["t"%string] (Ok ex_metadata)) (0, []) =
    (Err "Archaeology adapter emitted an invalid or duplicate fact", ((o', CBegin "u" begun :: calls), n')).
Proof.
  pose proof (adapter_gate (fun s => s) ex_json ex_json ex_json ex_json (ex_adapter ["t"%string] (Ok ex_metadata))
    ex_input never_cancelled default_adapter_limits ex_text_short 0 0%nat) as Hgate.
  unfold ex_run.
  assert (run_archaeology_adapter (fun s => s) ex_json ex_json ex_json ex_json
    (ex_adapter ["t"%string] (Ok ex_metadata)) ex_input never_cancelled default_adapter_limits (0, []) 0
    = (Err "Archaeology adapter emitted an invalid or duplicate fact",
      ((3, [CBegin "u" (Ok tt); CSpan ex_span (Ok tt); CAbort (Ok tt)]), 4%nat))) as Hrun
    by (vm_compute; reflexivity).
  rewrite Hrun in *. destruct Hgate as [_ Hbegun].
  destruct (Hbegun eq_refl (ex_admissible _ _)) as (begun & calls & Hlog). exists 3, 4%nat, begun, calls.
  change (unit_id ex_input) with "u"%string in Hlog. by rewrite <- Hlog.
Defined.

Lemma adapter_panic_contained_witness :
  returns (fst (run_archaeology_adapter (fun s => s) ex_json ex_json ex_json ex_json
    (ex_adapter ["s"%string] (Crash "index out of bounds")) ex_input never_cancelled default_adapter_limits 0 0)).
Proof. apply adapter_panic_contained; [exact ex_text_short|intros; exact I..]. Defined.

Lemma adapter_cancellation_witness : observed never_cancelled 4 = false.
Proof.
  refine (adapter_cancellation (fun s => s) ex_json ex_json ex_json ex_json (ex_adapter ["s"%string] (Ok ex_metadata))
    ex_input never_cancelled default_adapter_limits ex_text_short _ 0 0%nat ex_outcome 4 5%nat _ 4%nat _).
  - intros j k _ Hj. discriminate Hj.
  - vm_compute. reflexivity.
  - lia.
Defined.
