(* ===== verification/AdapterComplete.v ===== *)
(** The converse of [AdapterRun.committed_unit_evidence]: the validating output
    refuses nothing it should pass.  An adapter that emits evidence within the
    limits and returns proper metadata has its unit committed, with exactly what
    it emitted. *)
From S2P Require Import Prelude Ordering RustText Utf8 SecretPolicy GraphTypes Contracts Inventory Positions.
From S2P Require Import Adapter AdapterProps AdapterRun.
Local Open Scope N_scope.

(** * A plain adapter *)

Inductive Item : Type :=
  | ItemSpan (span : ArchaeologySourceSpan)
  | ItemFact (fact : ArchaeologyFact)
  | ItemEdge (edge : ArchaeologyFactEdge).
(** The call that passes the item on. *)
Definition item_call (i : Item) : Call :=
  match i with ItemSpan s => CSpan s (Ok tt) | ItemFact f => CFact f (Ok tt) | ItemEdge e => CEdge e (Ok tt) end.

(** Emits the items in order, each error ending the parse ([?] on every call),
    then returns the metadata. *)
Fixpoint emit_all (items : list Item) (metadata : ArchaeologyAdapterMetadata) : parse_program :=
  match items with
  | [] => Return (Ok metadata)
  | item :: items =>
      let continue error :=
        match error with None => emit_all items metadata | Some e => Return (Err e) end in
      match item with
      | ItemSpan span => EmitSpan span continue
      | ItemFact fact => EmitFact fact continue
      | ItemEdge edge => EmitEdge edge continue
      end
  end.

(** * Counting bytes *)

Lemma to_writer_fits chunks c :
  written c + total id chunks <= counter_limit c ->
  to_writer c chunks =
  ({| written := written c + total id chunks; counter_limit := counter_limit c; exceeded := exceeded c |}, true).
Proof.
  revert c. induction chunks as [|n chunks IH]; intros c Hc; cbn [to_writer total] in *.
  { rewrite N.add_0_r. by destruct c. }
  unfold id in Hc at 1. unfold LimitedCounter_write. rewrite (proj2 (N.ltb_ge _ _)) by lia.
  rewrite IH; cbn; [|lia]. unfold id at 2. by rewrite N.add_assoc.
Qed.

Lemma next_output_bytes_fits limits b v :
  snd v = None -> b + serialized_size v <= max_output_bytes limits -> max_output_bytes limits <= usize_max ->
  next_output_bytes limits b v = Ok (b + serialized_size v).
Proof.
  unfold serialized_size. intros Hv Hfit Hmax. unfold next_output_bytes. rewrite to_writer_fits; cbn; [|lia].
  rewrite Hv. unfold checked_add. rewrite (proj2 (N.leb_le _ _)) by lia. cbn.
  by rewrite (proj2 (N.ltb_ge _ _)).
Qed.

(** * Evidence *)

Lemma evidence_snoc cap unit source log c : evidence cap unit source (log ++ [c]) ->
  evidence cap unit source log /\
  match c with
  | CSpan s _ => span_ok unit source s /\ span_id s ∉ map span_id (spans_of log)
  | CFact f _ => fact_ok cap f /\ fact_id f ∉ map fact_id (facts_of log) /\ fact_span_ids f <> [] /\
      forall id, id ∈ fact_span_ids f -> id ∈ map span_id (spans_of log)
  | CEdge e _ => edge_ok e /\ fact_edge_id e ∉ map fact_edge_id (edges_of log) /\
      from_fact_id e ∈ map fact_id (facts_of log) /\ to_fact_id e ∈ map fact_id (facts_of log) /\
      fact_edge_evidence_span_ids e <> [] /\
      forall id, id ∈ fact_edge_evidence_span_ids e -> id ∈ map span_id (spans_of log)
  | _ => False
  end.
Proof.
  intros He. remember (log ++ [c]) as l eqn:Hl.
  destruct He as [|log' s r ? ? ?|log' f r ? ? ? ? ?|log' e r ? ? ? ? ? ? ?];
    [symmetry in Hl; by apply app_nil in Hl as [_ ?]|apply app_inj_tail in Hl as [<- <-]..]; done.
Qed.
Lemma evidence_prefix cap unit source log rest :
  evidence cap unit source (log ++ rest) -> evidence cap unit source log.
Proof.
  induction rest as [|c rest IH] using rev_ind; [by rewrite app_nil_r|].
  rewrite app_assoc. intros [He _]%evidence_snoc. by apply IH.
Qed.

Lemma spans_of_app l k : spans_of (l ++ k) = spans_of l ++ spans_of k.
Proof. apply omap_app. Qed.
Lemma facts_of_app l k : facts_of (l ++ k) = facts_of l ++ facts_of k.
Proof. apply omap_app. Qed.
Lemma edges_of_app l k : edges_of (l ++ k) = edges_of l ++ edges_of k.
Proof. apply omap_app. Qed.

(** * Accepting an item *)

Section Complete.
Context {O : Type} `{ArchaeologyAdapterOutput O}.
Context (json_span : ArchaeologySourceSpan -> serialized) (json_fact : ArchaeologyFact -> serialized)
  (json_edge : ArchaeologyFactEdge -> serialized) (json_metadata : ArchaeologyAdapterMetadata -> serialized).
Context (token : StructuralGraphCancellation) (limits : ArchaeologyAdapterLimits).
Context (cap : ArchaeologyParserCapability) (unit : ArchaeologyInventoryUnit) (source : string).
(** The store accepts everything, the serializer everything, and nobody cancels. *)
Context (Hspan : forall o s, fst (emit_span (O := O) o s) = Ok tt)
  (Hfact : forall o f, fst (emit_fact (O := O) o f) = Ok tt)
  (Hedge : forall o e, fst (emit_edge (O := O) o e) = Ok tt).
Context (Hjson : forall s, snd (json_span s) = None) (Hjson_fact : forall f, snd (json_fact f) = None)
  (Hjson_edge : forall e, snd (json_edge e) = None).
Context (Hquiet : forall k, observed token k = false) (Husize : max_output_bytes limits <= usize_max).
Context (positions : SourcePositionIndex).
Context (Hpos : forall p, matches positions source p =
  Ok (bool_decide (reference_position source (byte p) = Some p))).
Context (id : string).

(** The emissions [log] fit the limits. *)
Record fits (log : list Call) : Prop := {
  fits_spans : len (spans_of log) <= max_spans limits;
  fits_facts : len (facts_of log) <= max_facts limits;
  fits_edges : len (edges_of log) <= max_edges limits;
  fits_bytes : total (emission_size json_span json_fact json_edge) log <= max_output_bytes limits
}.
Lemma fits_prefix log rest : fits (log ++ rest) -> fits log.
Proof.
  intros [Hs Hf He Hb]. rewrite spans_of_app, len_app in Hs. rewrite facts_of_app, len_app in Hf.
  rewrite edges_of_app, len_app in He. rewrite total_app in Hb. split; lia.
Qed.

Abbreviation live := (live (O := O) json_span json_fact json_edge limits cap unit source id).

Lemma emission_step_Ok check call record (st : ValidatingOutput (O * list Call)) :
  first_error st = None -> is_Ok (check (tick token st)) -> (forall s, fst (call s) = Ok tt) ->
  (forall n st, fst (record n st) = Ok tt) ->
  fst (emission_step token check call record st) = Ok tt.
Proof.
  clear Hspan Hfact Hedge. intros Herr [next Hcheck] Hcall Hrec. unfold emission_step, unless_failed, check_cancelled, is_cancelled,
    reject_if, from, self, forward, remember, mbind, method_bind. cbn. rewrite Herr, Hquiet. cbn.
  unfold tick, is_cancelled in Hcheck. cbn in Hcheck. rewrite Hcheck. cbn.
  pose proof (Hcall (output st)) as Hc. destruct (call (output st)) as [r o]. cbn in Hc. subst r.
  match goal with |- context [record next ?s] => pose proof (Hrec next s) as Hr; destruct (record next s) end.
  cbn in Hr. by subst.
Qed.

Lemma span_accepted s emissions st :
  live emissions st -> evidence cap unit source (emissions ++ [CSpan s (Ok tt)]) ->
  fits (emissions ++ [CSpan s (Ok tt)]) -> is_Ok (span_check json_span limits unit source positions s (tick token st)).
Proof.
  intros Hl [_ [Hok Hnew]]%evidence_snoc [Hfit _ _ Hbytes]. destruct (live_len _ _ _ _ _ _ _ _ _ _ Hl) as (Hls & _).
  destruct Hok as (Hvalid & Hu & Hrev & Hrange & Hp1 & Hp2).
  rewrite spans_of_app, len_app in Hfit. change (len (spans_of [CSpan s (Ok tt)])) with 1 in Hfit.
  rewrite total_snoc in Hbytes. cbn in Hbytes. unfold span_check, tick, is_cancelled. cbn.
  rewrite (proj2 (N.eqb_neq _ _)) by lia. rewrite Hvalid, bind_of_Ok, span_refused_Ok, bind_of_Ok by done. cbn.
  rewrite Hu, Hrev, !(proj2 (seqb_true _ _) eq_refl), (proj2 (N.ltb_ge _ _)), (proj2 (N.eqb_neq _ _)) by lia.
  rewrite !bool_decide_true by done. rewrite (live_spans _ _ _ _ _ _ _ _ _ _ Hl).
  rewrite (proj2 (set_contains_false _ _)) by by rewrite elem_of_set_of_list. cbn.
  rewrite (proj1 (live_bytes _ _ _ _ _ _ _ _ _ _ Hl)), next_output_bytes_fits; [by eexists|done..].
Qed.

Lemma fact_accepted f emissions st :
  live emissions st -> evidence cap unit source (emissions ++ [CFact f (Ok tt)]) ->
  fits (emissions ++ [CFact f (Ok tt)]) -> is_Ok (fact_check json_fact limits cap f (tick token st)).
Proof.
  intros Hl [_ (Hok & Hnew & Hne & Hcite)]%evidence_snoc [_ Hfit _ Hbytes].
  destruct (live_len _ _ _ _ _ _ _ _ _ _ Hl) as (_ & Hlf & _).
  destruct Hok as (Hid & Hlabel & Hparser & Htrust & Hkind & Hshape & Hsem & Hattr).
  rewrite facts_of_app, len_app in Hfit. change (len (facts_of [CFact f (Ok tt)])) with 1 in Hfit.
  rewrite total_snoc in Hbytes. cbn in Hbytes. unfold fact_check, tick, is_cancelled. cbn.
  rewrite (proj2 (N.eqb_neq _ _)) by lia. rewrite Hshape, bind_of_Ok.
  assert (fact_refused cap (snd (is_cancelled token st)) f = false) as Href.
  { unfold fact_refused, is_cancelled. cbn. rewrite Hlabel, Hparser, Htrust, (proj2 (seqb_true _ _) eq_refl), Hsem.
    rewrite (proj2 (is_empty_false _) Hid), (proj2 (elemb_true _ _) Hkind), (proj2 (is_nil_false _) Hne).
    rewrite (live_spans _ _ _ _ _ _ _ _ _ _ Hl), (live_facts _ _ _ _ _ _ _ _ _ _ Hl).
    rewrite (proj2 (set_contains_false (fact_id f) _)) by by rewrite elem_of_set_of_list. cbn.
    rewrite !orb_false_r. apply orb_false_iff. split.
    - apply elem_negb_any. intros x Hx. by apply set_contains_true, elem_of_set_of_list, Hcite.
    - apply any_false. rewrite Forall_forall in Hattr. intros a Ha. by destruct (Hattr a Ha) as [-> ->]. }
  unfold is_cancelled in Href. cbn in Href. rewrite Href.
  rewrite (proj1 (live_bytes _ _ _ _ _ _ _ _ _ _ Hl)), next_output_bytes_fits; [by eexists|done..].
Qed.

Lemma edge_accepted e emissions st :
  live emissions st -> evidence cap unit source (emissions ++ [CEdge e (Ok tt)]) ->
  fits (emissions ++ [CEdge e (Ok tt)]) -> is_Ok (edge_check json_edge limits e (tick token st)).
Proof.
  intros Hl [_ (Hok & Hnew & Hfrom & Hto & Hne & Hcite)]%evidence_snoc [_ _ Hfit Hbytes].
  destruct (live_len _ _ _ _ _ _ _ _ _ _ Hl) as (_ & _ & Hle).
  destruct Hok as (Hid & Htrust & Hun & Hreason).
  rewrite edges_of_app, len_app in Hfit. change (len (edges_of [CEdge e (Ok tt)])) with 1 in Hfit.
  rewrite total_snoc in Hbytes. cbn in Hbytes. unfold edge_check, tick, is_cancelled. cbn.
  rewrite (proj2 (N.eqb_neq _ _)) by lia.
  assert (edge_refused (snd (is_cancelled token st)) e = false) as Href.
  { unfold edge_refused, is_cancelled. cbn. rewrite Htrust.
    rewrite (proj2 (is_empty_false _) Hid), (proj2 (is_nil_false _) Hne).
    rewrite (live_spans _ _ _ _ _ _ _ _ _ _ Hl), (live_facts _ _ _ _ _ _ _ _ _ _ Hl),
      (live_edges _ _ _ _ _ _ _ _ _ _ Hl).
    rewrite !(proj2 (set_contains_true _ _)) by by rewrite elem_of_set_of_list.
    rewrite (proj2 (set_contains_false (fact_edge_id e) _)) by by rewrite elem_of_set_of_list.
    rewrite (proj2 (elem_negb_any _ _)) by (intros x Hx; by apply set_contains_true, elem_of_set_of_list, Hcite).
    cbn. rewrite !orb_false_r. apply orb_false_iff. split.
    - apply negb_false_iff, eqb_true_iff, eq_true_iff_eq. by rewrite bool_decide_eq_true, is_some_true.
    - destruct (unresolved_reason e) as [reason|]; [by apply Hreason|done]. }
  unfold is_cancelled in Href. cbn in Href. rewrite Href.
  rewrite (proj1 (live_bytes _ _ _ _ _ _ _ _ _ _ Hl)), next_output_bytes_fits; [by eexists|done..].
Qed.

(** * Accepting the items in order *)

Lemma emission_accepted check call record c (m : method (O * list Call) ()) emissions st :
  live emissions st ->
  m st = emission_step token check call record st ->
  (forall r st', m st = (r, st') ->
     emission_effect json_span json_fact json_edge limits cap unit source id c emissions r st') ->
  is_Ok (check (tick token st)) -> (forall s, fst (call s) = Ok tt) -> (forall n st, fst (record n st) = Ok tt) ->
  exists st', m st = (Ok tt, st') /\ live (emissions ++ [c (Ok tt)]) st'.
Proof.
  intros Hl Hm Heffect Hcheck Hcall Hrec. rewrite Hm in *.
  pose proof (emission_step_Ok _ _ _ _ (live_error _ _ _ _ _ _ _ _ _ _ Hl) Hcheck Hcall Hrec) as Hok.
  destruct (emission_step _ _ _ _ st) as [r st']. cbn in Hok. subst r. exists st'. split; [done|].
  apply (Heffect _ _ eq_refl).
Qed.

Lemma logged_answer c (call : O -> outcome () * O) s : fst (logged c call s) = fst (call (fst s)).
Proof. unfold logged. by destruct (call (fst s)). Qed.

Abbreviation run p := (run_program json_span json_fact json_edge token limits cap unit source positions p).

Lemma items_accepted items metadata emissions st :
  live emissions st -> evidence cap unit source (emissions ++ map item_call items) ->
  fits (emissions ++ map item_call items) ->
  exists st', run (emit_all items metadata) st = (Ok metadata, st') /\ live (emissions ++ map item_call items) st'.
Proof.
  revert emissions st. induction items as [|item items IH]; intros emissions st Hl He Hf; cbn [emit_all map].
  { exists st. by rewrite app_nil_r. }
  cbn [map] in He, Hf. rewrite cons_middle, app_assoc in He, Hf. rewrite cons_middle, app_assoc.
  pose proof (evidence_prefix _ _ _ _ _ He) as He1. pose proof (fits_prefix _ _ Hf) as Hf1.
  destruct item as [s|f|e]; cbn [run_program item_call] in *; unfold answered.
  - destruct (emission_accepted _ _ _ (CSpan s) (checked_emit_span json_span token limits unit source positions s) emissions st Hl
      ltac:(apply emit_span_step)) as (st1 & -> & Hl1); [| | |done|by apply IH].
    + intros r st'. by apply emitted_span_effect.
    + by apply (span_accepted s emissions).
    + intros o. rewrite <- (Hspan (fst o) s). apply (logged_answer (CSpan s) (fun o => emit_span o s)).
  - destruct (emission_accepted _ _ _ (CFact f) (checked_emit_fact json_fact token limits cap f) emissions st Hl
      ltac:(apply emit_fact_step)) as (st1 & -> & Hl1); [| | |done|by apply IH].
    + intros r st'. by apply emitted_fact_effect.
    + by apply (fact_accepted f emissions).
    + intros o. rewrite <- (Hfact (fst o) f). apply (logged_answer (CFact f) (fun o => emit_fact o f)).
  - destruct (emission_accepted _ _ _ (CEdge e) (checked_emit_edge json_edge token limits e) emissions st Hl
      ltac:(apply emit_edge_step)) as (st1 & -> & Hl1); [| | |done|by apply IH].
    + intros r st'. by apply emitted_edge_effect.
    + by apply (edge_accepted e emissions).
    + intros o. rewrite <- (Hedge (fst o) e). apply (logged_answer (CEdge e) (fun o => emit_edge o e)).
Qed.

(** * Finishing *)

Lemma finish_accepted emissions metadata st :
  live emissions st -> metadata_ok cap unit (map span_id (spans_of emissions)) metadata ->
  metadata_entries metadata <= max_metadata_entries limits -> snd (json_metadata metadata) = None ->
  total (emission_size json_span json_fact json_edge) emissions + serialized_size (json_metadata metadata)
    <= max_output_bytes limits ->
  exists st', finish json_metadata token limits cap unit metadata st =
    (Ok {| outcome_parser_identity := parser_id cap ++ "@" ++ parser_version cap; outcome_metadata := metadata;
           span_count := len (spans_of emissions); fact_count := len (facts_of emissions);
           edge_count := len (edges_of emissions);
           outcome_output_bytes := total (emission_size json_span json_fact json_edge) emissions
                                   + serialized_size (json_metadata metadata) |}, st') /\ output st' = output st.
Proof.
  intros Hl Hmeta Hentries Hser Hbytes. unfold finish, check_cancelled, is_cancelled, reject_if, from, self, mbind,
    method_bind, mret, method_ret. cbn. rewrite Hquiet. cbn. rewrite (live_error _ _ _ _ _ _ _ _ _ _ Hl). cbn.
  unfold metadata_entries in Hentries. rewrite (proj2 (N.ltb_ge _ _)) by done. cbn.
  rewrite (proj1 (live_bytes _ _ _ _ _ _ _ _ _ _ Hl)), next_output_bytes_fits by done. cbn.
  match goal with |- context [validate_metadata _ _ ?s _] => rewrite (proj2 (validate_metadata_ok cap unit s metadata
    (map span_id (spans_of emissions)) (live_spans _ _ _ _ _ _ _ _ _ _ Hl)) Hmeta) end. cbn.
  destruct (live_len _ _ _ _ _ _ _ _ _ _ Hl) as (-> & -> & ->). eexists. done.
Qed.
End Complete.

(** * The run *)

(** C11: the boundary refuses nothing sound.  On an admissible unit, with a store
    and a serializer that accept everything and a flag never raised, an adapter
    that emits evidence within the limits and returns proper metadata has its
    unit committed: the store hears the begin, the emissions as they were made
    and the commit, and the run returns the outcome that accounts for them. *)
Theorem evidence_committed {O : Type} `{ArchaeologyAdapterOutput O} sha256
    (json_span : ArchaeologySourceSpan -> serialized) (json_fact : ArchaeologyFact -> serialized)
    (json_edge : ArchaeologyFactEdge -> serialized) (json_metadata : ArchaeologyAdapterMetadata -> serialized)
    (cap : ArchaeologyParserCapability) (input : ArchaeologyAdapterInput) (token : StructuralGraphCancellation)
    (limits : ArchaeologyAdapterLimits) (items : list Item) (metadata : ArchaeologyAdapterMetadata) (o : O) n
    (adapter := {| capability := cap; parse _ _ := emit_all items metadata |})
    (emissions := map item_call items)
    (Haccepts : (forall o id, fst (begin_unit (O := O) o id) = Ok tt) /\
       (forall o s, fst (emit_span (O := O) o s) = Ok tt) /\ (forall o f, fst (emit_fact (O := O) o f) = Ok tt) /\
       (forall o e, fst (emit_edge (O := O) o e) = Ok tt) /\ (forall o r, fst (commit_unit (O := O) o r) = Ok tt))
    (Hjson : (forall s, snd (json_span s) = None) /\ (forall f, snd (json_fact f) = None) /\
       (forall e, snd (json_edge e) = None) /\ snd (json_metadata metadata) = None)
    (Hquiet : forall k, observed token k = false) (Husize : max_output_bytes limits <= usize_max)
    (Hlen : blen (input_source input) <= isize_max)
    (Hadmissible : admissible sha256 adapter input limits)
    (Hevidence : evidence cap (input_unit input) (input_source input) emissions)
    (Hfits : fits json_span json_fact json_edge limits emissions)
    (Hmetadata : metadata_ok cap (input_unit input) (map span_id (spans_of emissions)) metadata)
    (Hentries : metadata_entries metadata <= max_metadata_entries limits)
    (Hbytes : total (emission_size json_span json_fact json_edge) emissions
              + serialized_size (json_metadata metadata) <= max_output_bytes limits) :
  let outcome := {|
    outcome_parser_identity := parser_id cap ++ "@" ++ parser_version cap; outcome_metadata := metadata;
    span_count := len (spans_of emissions); fact_count := len (facts_of emissions);
    edge_count := len (edges_of emissions);
    outcome_output_bytes := total (emission_size json_span json_fact json_edge) emissions
                            + serialized_size (json_metadata metadata) |} in
  exists o' n',
    run_archaeology_adapter sha256 json_span json_fact json_edge json_metadata adapter input token limits (o, []) n =
    (Ok outcome, ((o', CBegin (unit_id input) (Ok tt) :: emissions ++ [CCommit outcome (Ok tt)]), n')).
Proof.
  intros outcome. destruct Haccepts as (Hbegin & Hspan & Hfact & Hedge & Hcommit).
  destruct Hjson as (Hj1 & Hj2 & Hj3 & Hj4). unfold run_archaeology_adapter. rewrite Hquiet.
  rewrite (proj2 (check_input_Ok _ _ _ _) Hadmissible). cbn [begin_unit traced]. unfold logged at 1. cbn [fst snd app].
  fold (unit_id input). pose proof (Hbegin o (unit_id input)) as Hb.
  destruct (begin_unit o (unit_id input)) as [r o1]. cbn in Hb. subst r.
  destruct (position_index_ok (input_source input) (admissible_text _ _ _ _ Hadmissible) Hlen)
    as (positions & -> & _ & Hpos).
  unfold parse_unit. cbn [capability parse adapter].
  match goal with |- context [run_program _ _ _ _ _ _ _ _ _ _ ?s] => set (st0 := s) end.
  destruct (items_accepted json_span json_fact json_edge token limits cap (input_unit input) (input_source input)
    Hspan Hfact Hedge Hj1 Hj2 Hj3 Hquiet Husize positions Hpos (unit_id input) items metadata [] st0)
    as (st1 & -> & Hl); [|done|done|].
  { subst st0. constructor; cbn; try done; [constructor|split_and!; apply N.le_0_l|].
    split; [done|apply N.le_0_l]. }
  cbn [app] in Hl. fold emissions in Hl.
  destruct (finish_accepted json_span json_fact json_edge json_metadata token limits cap (input_unit input)
    (input_source input) Hquiet Husize (unit_id input) _ metadata st1 Hl Hmetadata Hentries Hj4 Hbytes)
    as (st2 & -> & Hout).
  unfold commit_or_abort. rewrite Hquiet, Hout. pose proof (live_log _ _ _ _ _ _ _ _ _ _ Hl) as Hlog.
  destruct (output st1) as [o2 log]. cbn in Hlog. subst log. cbn [commit_unit traced]. unfold logged. cbn [fst snd].
  fold emissions outcome. pose proof (Hcommit o2 outcome) as Hc. destruct (commit_unit o2 outcome) as [r o3].
  cbn in Hc. subst r. by eexists _, _.
Qed.

(** ** An example *)

#[local] Existing Instance ex_store.
Definition ex_items : list Item := [ItemSpan ex_span; ItemFact (ex_fact ["s"%string])].
Lemma ex_evidence : evidence ex_capability ex_unit ex_text (map item_call ex_items).
Proof.
  apply (evidence_fact _ _ _ [CSpan ex_span (Ok tt)]).
  - apply (evidence_span _ _ _ []); [constructor| |by apply not_elem_of_nil].
    split_and!; try (vm_compute; reflexivity). vm_compute. discriminate.
  - split_and!; try (vm_compute; reflexivity); [done|by do 2 constructor|]. by repeat constructor.
  - by apply not_elem_of_nil.
  - done.
  - intros id Hid. exact Hid.
Qed.
Lemma ex_metadata_ok : metadata_ok ex_capability ex_unit ["s"%string] ex_metadata.
Proof.
  split; try done; intros; cbn in *; try done; repeat constructor.
Qed.

Lemma evidence_committed_witness :
  exists o' n',
    run_archaeology_adapter (fun s => s) ex_json ex_json ex_json ex_json
      {| capability := ex_capability; parse _ _ := emit_all ex_items ex_metadata |}
      ex_input never_cancelled default_adapter_limits (0, []) 0 =
    (Ok ex_outcome,
     ((o', [CBegin "u" (Ok tt); CSpan ex_span (Ok tt); CFact (ex_fact ["s"%string]) (Ok tt);
            CCommit ex_outcome (Ok tt)]), n')).
Proof.
  refine (evidence_committed (fun s => s) ex_json ex_json ex_json ex_json ex_capability ex_input never_cancelled
    default_adapter_limits ex_items ex_metadata 0 0%nat _ _ _ _ ex_text_short _ ex_evidence _ ex_metadata_ok _ _).
  - done.
  - done.
  - done.
  - vm_compute. discriminate.
  - apply check_input_Ok. vm_compute. reflexivity.
  - split; vm_compute; discriminate.
  - vm_compute. discriminate.
  - vm_compute. discriminate.
Defined.
