(* ===== verification/Lifecycle.v ===== *)
(** [src/crates/codevetter-core/src/commands/business_rule_archaeology/lifecycle.rs]:
    the review life of a rule.  An append-only stream of events is projected to
    the rule's state; an append is a compare-and-swap on the stream's length;
    snapshots of a rule are compared without guessing; aliases form stars.

    [Run] is the loop as a step relation on prefixes of the stream, on which the
    invariants are proved by rule induction.  [reviewed] is the specification of
    the projection, read off the whole stream without the loop's steps, and
    [project_lifecycle_refines] shows that projecting implements it. *)
From S2P Require Import Prelude Ordering RustText Contracts.
Local Open Scope N_scope.

Definition MAX_LIFECYCLE_EVENTS_PER_RULE : N := 10000.
Definition MAX_LIFECYCLE_ID_BYTES : N := 256.
Definition MAX_LIFECYCLE_REASON_BYTES : N := 1024.
Definition MAX_LIFECYCLE_ANNOTATION_BYTES : N := 4096.
Definition MAX_ALIASES_PER_REPOSITORY : N := 100000.

Definition validate_text (label value : string) (max_bytes : N) : outcome unit :=
  if trim_is_empty value then Err (label ++ " is required") else
  if max_bytes <? blen value then Err (label ++ " exceeds its byte bound") else
  if any (fun c => (c =? 0)
            || is_control c && negb (c =? 10) && negb (c =? 13) && negb (c =? 9)) (chars value)
  then Err (label ++ " contains unsupported control characters") else
  Ok tt.
Definition validate_id (label value : string) : outcome unit :=
  validate_text label value MAX_LIFECYCLE_ID_BYTES.

(** ** Provenance and events *)

Inductive ArchaeologyReviewerKind : Type := Human | DeterministicPolicy | Model.
#[export] Instance reviewer_kind_eq_dec : EqDecision ArchaeologyReviewerKind.
Proof. solve_decision. Defined.

Record ArchaeologyReviewerProvenance : Type := {
  kind : ArchaeologyReviewerKind;
  actor_id : string;
  authority_id : option string
}.
#[export] Instance provenance_eq_dec : EqDecision ArchaeologyReviewerProvenance.
Proof. solve_decision. Defined.

Definition ArchaeologyReviewerProvenance_validate (self : ArchaeologyReviewerProvenance)
    : outcome unit :=
  _ ← validate_id "reviewer actor" (actor_id self);
  match kind self with
  | Human =>
      if is_some (authority_id self)
      then Err "Human reviewer provenance cannot name a policy authority" else Ok tt
  | DeterministicPolicy | Model =>
      validate_id "reviewer authority"
        (match authority_id self with Some a => a | None => ""%string end)
  end.

Definition can_decide (self : ArchaeologyReviewerProvenance) : bool :=
  match kind self with Human | DeterministicPolicy => true | Model => false end.

Inductive ArchaeologyLifecycleAction : Type :=
  | Candidate
  | ReviewNeeded (reason : string)
  | Accept
  | Reject (reason : string)
  | Conflict (reason : string)
  | Supersede (successor_rule_id : string)
  | Annotate (annotation : string).
#[export] Instance action_eq_dec : EqDecision ArchaeologyLifecycleAction.
Proof. solve_decision. Defined.

Definition is_decision (a : ArchaeologyLifecycleAction) : bool :=
  match a with Accept | Reject _ => true | _ => false end.
Definition is_supersede (a : ArchaeologyLifecycleAction) : bool :=
  match a with Supersede _ => true | _ => false end.

Definition ArchaeologyLifecycleAction_validate (self : ArchaeologyLifecycleAction)
    (rule_id : string) (provenance : ArchaeologyReviewerProvenance) : outcome unit :=
  _ ← match self with
      | Candidate | Accept => Ok tt
      | ReviewNeeded reason | Reject reason | Conflict reason =>
          validate_text "lifecycle reason" reason MAX_LIFECYCLE_REASON_BYTES
      | Supersede successor_rule_id =>
          _ ← validate_id "successor rule" successor_rule_id;
          if seqb successor_rule_id rule_id then Err "A rule cannot supersede itself" else Ok tt
      | Annotate annotation =>
          validate_text "lifecycle annotation" annotation MAX_LIFECYCLE_ANNOTATION_BYTES
      end;
  if is_decision self && negb (can_decide provenance)
  then Err "Only a human or deterministic policy may accept or reject a rule" else
  if is_supersede self && bool_decide (kind provenance = Model)
  then Err "A model cannot supersede a rule" else
  Ok tt.

Record ArchaeologyLifecycleEvent : Type := {
  event_id : string;
  repository_id : string;
  rule_id : string;
  sequence : N;
  expected_previous_sequence : N;
  provenance : ArchaeologyReviewerProvenance;
  action : ArchaeologyLifecycleAction
}.

Definition ArchaeologyLifecycleEvent_validate_shape (self : ArchaeologyLifecycleEvent)
    : outcome unit :=
  _ ← validate_id "lifecycle event" (event_id self);
  _ ← validate_id "repository" (repository_id self);
  _ ← validate_id "rule" (rule_id self);
  if sequence self =? 0 then Err "Lifecycle event sequence is one-based" else
  if negb (expected_previous_sequence self =? sequence self - 1)
  then Err "Lifecycle event compare-and-swap sequence is inconsistent" else
  _ ← ArchaeologyReviewerProvenance_validate (provenance self);
  ArchaeologyLifecycleAction_validate (action self) (rule_id self) (provenance self).

(** ** Projection *)

Record ArchaeologyProjectedAnnotation : Type := {
  annotation_event_id : string;
  annotation_sequence : N;
  annotation_text : string;
  annotation_provenance : ArchaeologyReviewerProvenance
}.

Record ArchaeologyLifecycleProjection : Type := {
  projected_repository_id : string;
  projected_rule_id : string;
  lifecycle : ArchaeologyRuleLifecycle;
  last_sequence : N;
  last_state_event_id : string;
  decision_provenance : option ArchaeologyReviewerProvenance;
  successor_rule_id : option string;
  annotations : list ArchaeologyProjectedAnnotation
}.

Definition transition (current : ArchaeologyRuleLifecycle) (a : ArchaeologyLifecycleAction)
    : outcome ArchaeologyRuleLifecycle :=
  match current, a with
  | LifecycleUnavailable, Candidate => Ok LifecycleCandidate
  | LifecycleUnavailable, _ => Err "The first lifecycle event must create a candidate"
  | _, Candidate => Err "A candidate event may only start a lifecycle"
  | LifecycleSuperseded, _ => Err "A superseded rule cannot receive another state transition"
  | LifecycleReviewNeeded, ReviewNeeded _
  | LifecycleAccepted, Accept
  | LifecycleRejected, Reject _
  | LifecycleConflicted, Conflict _ => Err "Lifecycle transition would not change state"
  | _, ReviewNeeded _ => Ok LifecycleReviewNeeded
  | _, Accept => Ok LifecycleAccepted
  | _, Reject _ => Ok LifecycleRejected
  | _, Conflict _ => Ok LifecycleConflicted
  | _, Supersede _ => Ok LifecycleSuperseded
  | _, Annotate _ => Crash "annotations are projected separately"
  end.

(** The loop's local variables. *)
Record projection_state : Type := {
  seen_ids : BTreeSet string;
  st_lifecycle : ArchaeologyRuleLifecycle;
  st_last_state_event_id : string;
  st_decision : option ArchaeologyReviewerProvenance;
  st_successor : option string;
  st_annotations : list ArchaeologyProjectedAnnotation
}.
Definition initial_state : projection_state := {|
  seen_ids := []; st_lifecycle := LifecycleUnavailable; st_last_state_event_id := "";
  st_decision := None; st_successor := None; st_annotations := [] |}.

Definition annotated (st : projection_state) (event : ArchaeologyLifecycleEvent) (text : string)
    : projection_state := {|
  seen_ids := set_insert (event_id event) (seen_ids st);
  st_lifecycle := st_lifecycle st;
  st_last_state_event_id := st_last_state_event_id st;
  st_decision := st_decision st;
  st_successor := st_successor st;
  st_annotations := st_annotations st ++
    [{| annotation_event_id := event_id event; annotation_sequence := sequence event;
        annotation_text := text; annotation_provenance := provenance event |}] |}.
Definition moved (st : projection_state) (event : ArchaeologyLifecycleEvent)
    (next : ArchaeologyRuleLifecycle) : projection_state := {|
  seen_ids := set_insert (event_id event) (seen_ids st);
  st_lifecycle := next;
  st_last_state_event_id := event_id event;
  st_decision := if is_decision (action event) then Some (provenance event) else None;
  st_successor := match action event with Supersede s => Some s | _ => None end;
  st_annotations := st_annotations st |}.

(** One iteration, for the event at an offset of the ordered stream. *)
Definition project_step (repo rule : string) (st : projection_state)
    (item : N * ArchaeologyLifecycleEvent) : outcome projection_state :=
  let '(offset, event) := item in
  _ ← ArchaeologyLifecycleEvent_validate_shape event;
  if negb (seqb (repository_id event) repo) || negb (seqb (rule_id event) rule)
  then Err "Lifecycle stream crosses repository or rule scope" else
  if negb (sequence event =? offset + 1)
  then Err "Lifecycle event sequence is duplicated or has a gap" else
  if set_contains (event_id event) (seen_ids st)
  then Err "Lifecycle event identity is duplicated" else
  match action event with
  | Annotate annotation =>
      if bool_decide (st_lifecycle st = LifecycleUnavailable)
      then Err "A lifecycle annotation cannot precede the candidate event"
      else Ok (annotated st event annotation)
  | a => next ← transition (st_lifecycle st) a; Ok (moved st event next)
  end.

Fixpoint enumerate_from {A} (n : N) (l : list A) : list (N * A) :=
  match l with
  | [] => []
  | x :: l => (n, x) :: enumerate_from (n + 1) l
  end.

Definition event_order (left right : ArchaeologyLifecycleEvent) : comparison :=
  then_with (cmp (sequence left) (sequence right)) (cmp (event_id left) (event_id right)).

Definition finish_projection (repo rule : string) (count : N) (st : projection_state)
    : ArchaeologyLifecycleProjection := {|
  projected_repository_id := repo;
  projected_rule_id := rule;
  lifecycle := st_lifecycle st;
  last_sequence := count;
  last_state_event_id := st_last_state_event_id st;
  decision_provenance := st_decision st;
  successor_rule_id := st_successor st;
  annotations := st_annotations st |}.

Definition project_lifecycle (events : list ArchaeologyLifecycleEvent)
    : outcome ArchaeologyLifecycleProjection :=
  if is_nil events then Err "A lifecycle stream requires an initial candidate event" else
  if MAX_LIFECYCLE_EVENTS_PER_RULE <? len events then Err "Lifecycle event bound exceeded" else
  let ordered := sort_by event_order events in
  match ordered with
  | [] => Crash "index out of bounds"
  | first :: _ =>
      let repo := repository_id first in
      let rule := rule_id first in
      st ← for_each (project_step repo rule) initial_state (enumerate_from 0 ordered);
      Ok (finish_projection repo rule (len events) st)
  end.

Definition validate_lifecycle_append (existing : list ArchaeologyLifecycleEvent)
    (candidate : ArchaeologyLifecycleEvent) : outcome ArchaeologyLifecycleProjection :=
  if MAX_LIFECYCLE_EVENTS_PER_RULE <=? len existing then Err "Lifecycle event bound exceeded" else
  _ ← ArchaeologyLifecycleEvent_validate_shape candidate;
  expected_previous ← (if is_nil existing then Ok 0
                       else p ← project_lifecycle existing; Ok (last_sequence p));
  if negb (expected_previous_sequence candidate =? expected_previous)
     || negb (sequence candidate =? expected_previous + 1)
  then Err "Lifecycle append compare-and-swap failed" else
  if is_some_and (head existing) (fun first =>
       negb (seqb (repository_id candidate) (repository_id first))
       || negb (seqb (rule_id candidate) (rule_id first)))
  then Err "Lifecycle append crosses repository or rule scope" else
  project_lifecycle (existing ++ [candidate]).

(** ** Snapshot compatibility *)

Record ArchaeologyRuleSnapshotIdentity : Type := {
  snapshot_repository_id : string;
  snapshot_rule_id : string;
  rule_kind_identity : string;
  continuity_identity : string;
  evidence_identity : string;
  parser_compatibility_identity : string;
  contradiction_identity : string;
  description_identity : string
}.

Definition ArchaeologyRuleSnapshotIdentity_validate (self : ArchaeologyRuleSnapshotIdentity)
    : outcome unit :=
  for_all (fun '(label, value) => validate_id label value)
    [("repository", snapshot_repository_id self);
     ("rule", snapshot_rule_id self);
     ("rule kind", rule_kind_identity self);
     ("rule continuity", continuity_identity self);
     ("rule evidence", evidence_identity self);
     ("parser compatibility", parser_compatibility_identity self);
     ("rule contradiction", contradiction_identity self);
     ("rule description", description_identity self)].

Inductive ArchaeologyCompatibilityMismatch : Type := Evidence | Parser | Contradiction.
#[export] Instance mismatch_eq_dec : EqDecision ArchaeologyCompatibilityMismatch.
Proof. solve_decision. Defined.
Definition mismatch_index (m : ArchaeologyCompatibilityMismatch) : N :=
  match m with Evidence => 0 | Parser => 1 | Contradiction => 2 end.
#[export] Instance ord_mismatch : RustOrd ArchaeologyCompatibilityMismatch.
Proof. apply (ord_by mismatch_index). by intros [] []. Defined.

Inductive ArchaeologyCompatibilityOutcome : Type :=
  | Compatible (compatible_lifecycle : ArchaeologyRuleLifecycle) (description_changed : bool)
  | NeedsReview (reasons : list ArchaeologyCompatibilityMismatch)
  | Conflicted (reasons : list ArchaeologyCompatibilityMismatch)
  | Superseded (predecessor_rule_id successor_rule_id : string)
      (predecessor_lifecycle successor_lifecycle : ArchaeologyRuleLifecycle).

Definition evaluate_snapshot_compatibility (previous current : ArchaeologyRuleSnapshotIdentity)
    (previous_lifecycle : ArchaeologyRuleLifecycle) (explicit_successor_rule_id : option string)
    : outcome ArchaeologyCompatibilityOutcome :=
  _ ← ArchaeologyRuleSnapshotIdentity_validate previous;
  _ ← ArchaeologyRuleSnapshotIdentity_validate current;
  if negb (seqb (snapshot_repository_id previous) (snapshot_repository_id current))
  then Err "Rule compatibility cannot cross repository scope" else
  if negb (seqb (rule_kind_identity previous) (rule_kind_identity current))
  then Err "Rule compatibility kind changed; continuity is ambiguous" else
  match explicit_successor_rule_id with
  | Some successor =>
      _ ← validate_id "explicit successor rule" successor;
      if seqb (snapshot_rule_id previous) (snapshot_rule_id current)
         || negb (seqb successor (snapshot_rule_id current))
      then Err "Explicit successor must name a distinct current rule"
      else Ok (Superseded (snapshot_rule_id previous) (snapshot_rule_id current)
                 LifecycleSuperseded LifecycleReviewNeeded)
  | None =>
      if negb (seqb (continuity_identity previous) (continuity_identity current))
      then Err "Rule compatibility identity changed; continuity is ambiguous" else
      if negb (seqb (snapshot_rule_id previous) (snapshot_rule_id current))
      then Err "Changed rule identity requires an explicit successor link" else
      let m0 : BTreeSet ArchaeologyCompatibilityMismatch := [] in
      let m1 := if negb (seqb (evidence_identity previous) (evidence_identity current))
                then set_insert Evidence m0 else m0 in
      let m2 := if negb (seqb (parser_compatibility_identity previous)
                              (parser_compatibility_identity current))
                then set_insert Parser m1 else m1 in
      let reasons := if negb (seqb (contradiction_identity previous) (contradiction_identity current))
                     then set_insert Contradiction m2 else m2 in
      if is_nil reasons then
        Ok (Compatible previous_lifecycle
              (negb (seqb (description_identity previous) (description_identity current))))
      else if bool_decide (previous_lifecycle = LifecycleAccepted) && elemb Contradiction reasons
      then Ok (Conflicted reasons)
      else Ok (NeedsReview reasons)
  end.

(** ** Aliases *)

Record ArchaeologyRuleAlias : Type := {
  alias_event_id : string;
  alias_repository_id : string;
  alias_rule_id : string;
  canonical_repository_id : string;
  canonical_rule_id : string;
  alias_provenance : ArchaeologyReviewerProvenance
}.

Definition ArchaeologyRuleAlias_validate_shape (self : ArchaeologyRuleAlias) : outcome unit :=
  _ ← for_all (fun '(label, value) => validate_id label value)
        [("alias event", alias_event_id self);
         ("alias repository", alias_repository_id self);
         ("alias rule", alias_rule_id self);
         ("canonical repository", canonical_repository_id self);
         ("canonical rule", canonical_rule_id self)];
  _ ← ArchaeologyReviewerProvenance_validate (alias_provenance self);
  if bool_decide (kind (alias_provenance self) = Model)
  then Err "A model cannot create a rule alias" else
  if negb (seqb (alias_repository_id self) (canonical_repository_id self))
  then Err "A rule alias cannot cross repository scope" else
  if seqb (alias_rule_id self) (canonical_rule_id self)
  then Err "A rule cannot alias itself" else
  Ok tt.

Definition alias_key (a : ArchaeologyRuleAlias) : string * string :=
  (alias_repository_id a, alias_rule_id a).
Definition alias_target (a : ArchaeologyRuleAlias) : string * string :=
  (canonical_repository_id a, canonical_rule_id a).

Abbreviation alias_map := (BTreeMap (string * string) (string * string)).

Definition add_alias (state : BTreeSet string * alias_map) (alias : ArchaeologyRuleAlias)
    : outcome (BTreeSet string * alias_map) :=
  let '(event_ids, targets) := state in
  _ ← ArchaeologyRuleAlias_validate_shape alias;
  if set_contains (alias_event_id alias) event_ids
  then Err "Rule alias event identity is duplicated" else
  if map_contains_key (alias_key alias) targets
  then Err "A rule may have only one canonical alias target" else
  Ok (set_insert (alias_event_id alias) event_ids,
      map_insert (alias_key alias) (alias_target alias) targets).

(** [while let Some(next) = targets.get(&cursor)] *)
Fixpoint follow_aliases (fuel : nat) (targets : alias_map) (cursor : string * string)
    (visited : BTreeSet (string * string)) : outcome unit :=
  match map_get cursor targets with
  | None => Ok tt
  | Some next =>
      match fuel with
      | O => Crash "out of fuel"
      | S fuel =>
          let inserted := negb (set_contains cursor visited) in
          let visited := set_insert cursor visited in
          if negb inserted || set_contains next visited then Err "Rule alias cycle detected"
          else follow_aliases fuel targets next visited
      end
  end.

Definition validate_rule_aliases (aliases : list ArchaeologyRuleAlias) : outcome unit :=
  if MAX_ALIASES_PER_REPOSITORY <? len aliases then Err "Rule alias bound exceeded" else
  state ← for_each add_alias ([], []) aliases;
  let targets := snd state in
  _ ← for_all (fun alias => follow_aliases (S (length targets)) targets alias [])
        (map_keys targets);
  if any (fun target => map_contains_key target targets) (map_values targets)
  then Err "A canonical rule cannot itself be an alias" else
  Ok tt.

Definition validate_rule_alias_append (existing : list ArchaeologyRuleAlias)
    (candidate : ArchaeologyRuleAlias) : outcome unit :=
  if MAX_ALIASES_PER_REPOSITORY <=? len existing then Err "Rule alias bound exceeded" else
  validate_rule_aliases (existing ++ [candidate]).

(** ** The code's own cases *)

Section Examples.
Definition human : ArchaeologyReviewerProvenance :=
  {| kind := Human; actor_id := "owner"; authority_id := None |}.
Definition model : ArchaeologyReviewerProvenance :=
  {| kind := Model; actor_id := "agent"; authority_id := Some "gpt"%string |}.
Definition ex_event (id : string) (n : N) (p : ArchaeologyReviewerProvenance)
    (a : ArchaeologyLifecycleAction) : ArchaeologyLifecycleEvent :=
  {| event_id := id; repository_id := "repo"; rule_id := "rule"; sequence := n;
     expected_previous_sequence := n - 1; provenance := p; action := a |}.
Definition ex_stream : list ArchaeologyLifecycleEvent :=
  [ex_event "e2" 2 human Accept; ex_event "e1" 1 model Candidate;
   ex_event "e3" 3 model (Annotate "looks right")].
Example ex_project :
  (p ← project_lifecycle ex_stream; Ok (lifecycle p, last_sequence p, last_state_event_id p))
  = Ok (LifecycleAccepted, 3, "e2"%string).
Proof. reflexivity. Qed.
Example ex_model_accept :
  project_lifecycle [ex_event "e1" 1 model Candidate; ex_event "e2" 2 model Accept]
  = Err "Only a human or deterministic policy may accept or reject a rule".
Proof. reflexivity. Qed.
Example ex_gap :
  project_lifecycle [ex_event "e1" 1 human Candidate; ex_event "e3" 3 human Accept]
  = Err "Lifecycle event sequence is duplicated or has a gap".
Proof. reflexivity. Qed.
Definition ex_alias (id alias canonical : string) : ArchaeologyRuleAlias :=
  {| alias_event_id := id; alias_repository_id := "repo"; alias_rule_id := alias;
     canonical_repository_id := "repo"; canonical_rule_id := canonical;
     alias_provenance := human |}.
Example ex_aliases : validate_rule_aliases [ex_alias "1" "a" "c"; ex_alias "2" "b" "c"] = Ok tt.
Proof. reflexivity. Qed.
Example ex_alias_cycle :
  validate_rule_aliases [ex_alias "1" "a" "b"; ex_alias "2" "b" "a"]
  = Err "Rule alias cycle detected".
Proof. reflexivity. Qed.
Example ex_alias_chain :
  validate_rule_aliases [ex_alias "1" "a" "b"; ex_alias "2" "b" "c"]
  = Err "A canonical rule cannot itself be an alias".
Proof. reflexivity. Qed.
End Examples.

(** * The specification: a step relation on prefixes of a stream *)

(** The state moves a lifecycle may make. *)
Inductive legal : ArchaeologyRuleLifecycle -> ArchaeologyLifecycleAction -> ArchaeologyRuleLifecycle -> Prop :=
  | legal_create : legal LifecycleUnavailable Candidate LifecycleCandidate
  | legal_review s r : open s -> s <> LifecycleReviewNeeded -> legal s (ReviewNeeded r) LifecycleReviewNeeded
  | legal_accept s : open s -> s <> LifecycleAccepted -> legal s Accept LifecycleAccepted
  | legal_reject s r : open s -> s <> LifecycleRejected -> legal s (Reject r) LifecycleRejected
  | legal_conflict s r : open s -> s <> LifecycleConflicted -> legal s (Conflict r) LifecycleConflicted
  | legal_supersede s r : open s -> legal s (Supersede r) LifecycleSuperseded
(** A rule that exists and has not been superseded. *)
with open : ArchaeologyRuleLifecycle -> Prop :=
  | open_intro s : s <> LifecycleUnavailable -> s <> LifecycleSuperseded -> open s.

Definition is_annotation (a : ArchaeologyLifecycleAction) : bool :=
  match a with Annotate _ => true | _ => false end.

Section RunSpec.
Context (repo rule : string).

(** What every event of the stream satisfies at its place. *)
Definition admissible (pre : list ArchaeologyLifecycleEvent) (e : ArchaeologyLifecycleEvent) : Prop :=
  ArchaeologyLifecycleEvent_validate_shape e = Ok tt /\
  repository_id e = repo /\ rule_id e = rule /\
  sequence e = len pre + 1 /\ event_id e ∉ map event_id pre.

Inductive Run : list ArchaeologyLifecycleEvent -> projection_state -> Prop :=
  | Run_nil : Run [] initial_state
  | Run_move pre st e next :
      Run pre st -> admissible pre e -> is_annotation (action e) = false ->
      legal (st_lifecycle st) (action e) next -> Run (pre ++ [e]) (moved st e next)
  | Run_annotate pre st e text :
      Run pre st -> admissible pre e -> action e = Annotate text ->
      st_lifecycle st <> LifecycleUnavailable -> Run (pre ++ [e]) (annotated st e text).
End RunSpec.

Lemma transition_legal s a next :
  is_annotation a = false -> transition s a = Ok next <-> legal s a next.
Proof.
  intros Ha. split.
  - destruct s, a; cbn in *; intros [= <-] || intros [=]; try done;
      repeat constructor; done.
  - inversion 1; subst; try reflexivity;
      match goal with H : open ?s |- _ => inversion H; subst end; destruct s; done.
Qed.

Lemma Run_seen repo rule pre st :
  Run repo rule pre st -> forall id, id ∈ seen_ids st <-> id ∈ map event_id pre.
Proof.
  induction 1; intros id; cbn; [done|..];
    rewrite elem_of_set_insert, map_app, elem_of_app, IHRun; cbn;
    rewrite list_elem_of_singleton; tauto.
Qed.

(** One iteration of the loop is one step of the specification. *)
Lemma project_step_Run repo rule pre st e st' :
  Run repo rule pre st ->
  project_step repo rule st (len pre, e) = Ok st' <->
  admissible repo rule pre e /\
  ((exists next, is_annotation (action e) = false /\ legal (st_lifecycle st) (action e) next
      /\ st' = moved st e next) \/
   (exists text, action e = Annotate text /\ st_lifecycle st <> LifecycleUnavailable
      /\ st' = annotated st e text)).
Proof.
  intros Hrun. pose proof (Run_seen _ _ _ _ Hrun (event_id e)) as Hseen.
  unfold project_step, admissible.
  rewrite then_Ok, !if_Err_Ok, orb_false_iff, !negb_false_iff, !seqb_true, N.eqb_eq,
    set_contains_false, Hseen.
  assert (forall P Q R S T U V : Prop, (U <-> V) ->
    (P /\ (Q /\ R) /\ S /\ T /\ U) <-> (P /\ Q /\ R /\ S /\ T) /\ V) as Hshape by tauto.
  apply Hshape. clear Hshape.
  destruct (is_annotation (action e)) eqn:Ha.
  - destruct (action e) as [| | | | | |text]; try done. rewrite if_Err_Ok, bool_decide_eq_false.
    split; [intros [? [= <-]]; right; eauto|].
    intros [(? & ? & _)|(? & [= <-] & ? & ->)]; done.
  - assert ((next ← transition (st_lifecycle st) (action e); Ok (moved st e next)) = Ok st' <->
      exists next, legal (st_lifecycle st) (action e) next /\ st' = moved st e next) as Hmove.
    { rewrite bind_Ok. setoid_rewrite (transition_legal _ _ _ Ha). naive_solver. }
    destruct (action e) eqn:Hact; try done; rewrite Hmove; naive_solver.
Qed.

Lemma enumerate_snoc {A} n (l : list A) x :
  enumerate_from n (l ++ [x]) = enumerate_from n l ++ [(n + len l, x)].
Proof.
  revert n; induction l as [|y l IH]; intros n; cbn.
  - unfold len. cbn. by rewrite N.add_0_r.
  - rewrite IH. unfold len. cbn [length]. do 2 f_equal. f_equal. f_equal. lia.
Qed.

(** The loop computes exactly the states the specification reaches. *)
Lemma project_loop_Run repo rule l st :
  for_each (project_step repo rule) initial_state (enumerate_from 0 l) = Ok st <-> Run repo rule l st.
Proof.
  revert st. induction l as [|e l IH] using rev_ind; intros st.
  - cbn. split; [intros [= <-]; constructor|].
    inversion 1; subst; [done|by destruct pre..].
  - rewrite enumerate_snoc, for_each_app, bind_Ok, N.add_0_l. split.
    + intros (st0 & Hrun%IH & Hstep). cbn in Hstep. apply bind_Ok in Hstep as (st1 & Hstep & [= <-]).
      apply (project_step_Run _ _ _ _ _ _ Hrun) in Hstep
        as [Hadm [(next & ? & ? & ->)|(text & ? & ? & ->)]]; econstructor; eauto.
    + inversion 1 as [|pre st0 e' next Hrun Hadm Ha Hlegal|pre st0 e' text Hrun Hadm Ha Hst]; subst;
        [by destruct l|..];
        match goal with K : _ ++ [_] = _ ++ [_] |- _ => apply app_inj_tail in K as [-> ->] end;
        (exists st0; split; [by apply IH|]; cbn; apply bind_Ok; eexists; split; [|done];
         apply (project_step_Run _ _ _ _ _ _ Hrun); split; [done|]; eauto).
Qed.

(** ** Invariants of reachable states, by rule induction *)

Definition run_invariant (pre : list ArchaeologyLifecycleEvent) (st : projection_state) : Prop :=
  (pre = [] <-> st_lifecycle st = LifecycleUnavailable) /\
  (is_Some (st_decision st) <-> st_lifecycle st = LifecycleAccepted \/ st_lifecycle st = LifecycleRejected) /\
  (forall p, st_decision st = Some p -> kind p <> Model) /\
  (is_Some (st_successor st) <-> st_lifecycle st = LifecycleSuperseded).

Lemma action_validate_decides a rule p :
  ArchaeologyLifecycleAction_validate a rule p = Ok tt ->
  (is_decision a = true -> kind p <> Model) /\ (is_supersede a = true -> kind p <> Model) /\
  (forall s, a = Supersede s -> s <> rule).
Proof.
  unfold ArchaeologyLifecycleAction_validate. rewrite then_Ok, !if_Err_Ok.
  intros (Hshape & Hdecide & Hsup & _). split_and!.
  - intros Ha. rewrite Ha in Hdecide. unfold can_decide in Hdecide. by destruct (kind p).
  - intros Ha. rewrite Ha in Hsup. cbn in Hsup. by apply bool_decide_eq_false in Hsup.
  - intros s ->. rewrite then_Ok, if_Err_Ok, seqb_false in Hshape. tauto.
Qed.
Lemma event_shape_action e :
  ArchaeologyLifecycleEvent_validate_shape e = Ok tt ->
  ArchaeologyLifecycleAction_validate (action e) (rule_id e) (provenance e) = Ok tt.
Proof. unfold ArchaeologyLifecycleEvent_validate_shape. rewrite !then_Ok, !if_Err_Ok, then_Ok. tauto. Qed.

Lemma Run_invariant repo rule pre st : Run repo rule pre st -> run_invariant pre st.
Proof.
  induction 1 as [|pre st e next _ (H1 & H2 & H3 & H4) Hadm Ha Hlegal
    |pre st e text _ (H1 & H2 & H3 & H4) Hadm Ha Hst]; unfold run_invariant; cbn.
  - split_and!; try done; split; try done; try (intros [? [=]]); naive_solver.
  - destruct Hadm as (Hshape%event_shape_action & _).
    apply action_validate_decides in Hshape as (Hd & Hs & _).
    assert (pre ++ [e] <> []) by by destruct pre.
    inversion Hlegal; subst; destruct (action e); cbn in *; simplify_eq;
      split_and!; try (split; [done|]); try (split; intros); try naive_solver; try done; eauto.
  - assert (pre ++ [e] <> []) by by destruct pre. split_and!; try done; intros; congruence.
Qed.

Lemma Run_sequences repo rule pre st :
  Run repo rule pre st -> map sequence pre = map (fun n => N.of_nat n + 1) (seq 0 (length pre)).
Proof.
  assert (forall pre e, admissible repo rule pre e ->
    map sequence pre = map (fun n => N.of_nat n + 1) (seq 0 (length pre)) ->
    map sequence (pre ++ [e]) = map (fun n => N.of_nat n + 1) (seq 0 (length (pre ++ [e])))) as Hsnoc.
  { intros pre' e (_ & _ & _ & Hseq & _) IH. rewrite length_app, Nat.add_1_r, seq_S, !map_app, IH.
    cbn. by rewrite Hseq. }
  induction 1; [done|by apply Hsnoc..].
Qed.

Lemma Run_scope repo rule pre st :
  Run repo rule pre st -> Forall (fun e => repository_id e = repo /\ rule_id e = rule) pre.
Proof.
  induction 1; [constructor|..]; (apply Forall_app; split; [done|]);
    (constructor; [unfold admissible in *; tauto|constructor]).
Qed.

(** The order of [sort_by] as an order on keys. *)
Definition event_key (e : ArchaeologyLifecycleEvent) : N * string := (sequence e, event_id e).
Lemma event_order_key : event_order = fun x y => cmp (event_key x) (event_key y).
Proof. reflexivity. Qed.

Lemma Run_NoDup repo rule pre st : Run repo rule pre st -> NoDup (map sequence pre).
Proof.
  intros Hrun. rewrite (Run_sequences _ _ _ _ Hrun).
  apply NoDup_fmap_2; [intros ? ?; lia|apply NoDup_seq].
Qed.
Lemma Run_StronglySorted repo rule pre st :
  Run repo rule pre st -> StronglySorted (fun x y => sequence x < sequence y) pre.
Proof.
  intros Hseq%Run_sequences. revert Hseq. generalize 0%nat as n.
  induction pre as [|e pre IH]; intros n Hseq; [constructor|].
  cbn in Hseq. injection Hseq as He Hrest. constructor; [by apply (IH (S n))|].
  rewrite Forall_forall. intros x Hx.
  assert (sequence x ∈ map sequence pre) as Hin by (apply list_elem_of_fmap; eauto).
  rewrite Hrest in Hin. apply list_elem_of_fmap in Hin as (k & -> & Hk).
  apply elem_of_seq in Hk. lia.
Qed.
Lemma Run_sequence_inj repo rule pre st e1 e2 :
  Run repo rule pre st -> e1 ∈ pre -> e2 ∈ pre -> sequence e1 = sequence e2 -> e1 = e2.
Proof.
  intros Hrun. assert (NoDup (map sequence pre)) as Hnd by eauto using Run_NoDup. clear Hrun.
  induction pre as [|e pre IH]; [by intros ?%elem_of_nil|]. cbn in Hnd.
  apply NoDup_cons in Hnd as [He Hnd]. intros [->|H1]%elem_of_cons [->|H2]%elem_of_cons Heq; auto;
    exfalso; apply He; apply list_elem_of_fmap; eauto.
Qed.

(** A stream the specification accepts is already in its ordered form. *)
Lemma Run_sorted repo rule pre st :
  Run repo rule pre st -> forall events, events ≡ₚ pre -> sort_by event_order events = pre.
Proof.
  intros Hrun events Hperm.
  assert (forall x y, sequence x < sequence y -> cmp (event_key x) (event_key y) = Lt) as Hpair.
  { intros x y Hxy. cbn. by apply N.compare_lt_iff in Hxy as ->. }
  apply (StronglySorted_unique_strong (fun x y => cmp (event_key x) (event_key y) <> Gt)).
  - intros x y Hx Hy H1 H2. rewrite elem_of_sort_by, Hperm in Hx.
    apply (Run_sequence_inj _ _ _ _ _ _ Hrun); [done..|].
    destruct (N.lt_trichotomy (sequence x) (sequence y)) as [Hlt|[?|Hlt]]; [|done|].
    + rewrite cmp_antisym, (Hpair x y Hlt) in H2. done.
    + rewrite cmp_antisym, (Hpair y x Hlt) in H1. done.
  - rewrite event_order_key. apply sort_by_key_sorted.
  - apply Run_StronglySorted in Hrun. clear Hperm.
    induction Hrun as [|e pre Hpre IH He]; constructor; [done|].
    eapply Forall_impl; [done|]. intros x Hx. by rewrite (Hpair _ _ Hx).
  - by rewrite sort_by_perm.
Qed.

(** * Properties of the projection *)

Definition accepted_stream (events : list ArchaeologyLifecycleEvent)
    (p : ArchaeologyLifecycleProjection) : Prop :=
  1 <= len events <= MAX_LIFECYCLE_EVENTS_PER_RULE /\
  exists ordered first st, ordered ≡ₚ events /\ head ordered = Some first /\
    Run (repository_id first) (rule_id first) ordered st /\
    p = finish_projection (repository_id first) (rule_id first) (len events) st.

(** Projecting implements the specification. *)
Lemma project_lifecycle_Ok events p : project_lifecycle events = Ok p <-> accepted_stream events p.
Proof.
  unfold project_lifecycle, accepted_stream. rewrite !if_Err_Ok, is_nil_false, N.ltb_ge. split.
  - intros (Hne & Hmax & H). destruct (sort_by event_order events) as [|first rest] eqn:E; [done|].
    apply bind_Ok in H as (st & Hloop & [= <-]). apply project_loop_Run in Hloop.
    split; [split; [|done]; destruct events; [done|]; rewrite len_cons; lia|].
    exists (first :: rest), first, st. split_and!; try done. by rewrite <- E, sort_by_perm.
  - intros (Hlen & ordered & first & st & Hperm & Hhead & Hrun & ->). split_and!; [|lia|].
    { intros ->. unfold len in Hlen. cbn in Hlen. lia. }
    rewrite (Run_sorted _ _ _ _ Hrun events) by done. destruct ordered as [|first' rest]; [done|].
    cbn in Hhead. injection Hhead as ->. apply bind_Ok. exists st. split; [|done].
    by apply project_loop_Run.
Qed.

(** ** What a projection says of its stream

    The specification does not follow the loop: it reads the projection off the
    ordered events, the decision and the successor from the last of them that is
    not an annotation. *)

(** Text that says something, within a bound, without control characters other
    than tab, line feed and carriage return. *)
Definition readable (max : N) (text : string) : Prop :=
  (exists c, c ∈ chars text /\ is_whitespace c = false) /\ blen text <= max /\
  forall c, c ∈ chars text -> c <> 0 /\ (is_control c = true -> c = 9 \/ c = 10 \/ c = 13).
(** A reviewer has a name; a policy or a model an authority as well, a human none. *)
Definition named (p : ArchaeologyReviewerProvenance) : Prop :=
  readable 256 (actor_id p) /\
  match kind p with
  | Human => authority_id p = None
  | DeterministicPolicy | Model => exists authority, authority_id p = Some authority /\ readable 256 authority
  end.
(** Who may say what: a model neither decides nor supersedes, and a rule is not
    its own successor. *)
Definition may_say (rule : string) (p : ArchaeologyReviewerProvenance) (a : ArchaeologyLifecycleAction) : Prop :=
  match a with
  | Candidate => True
  | Accept => kind p <> Model
  | ReviewNeeded reason | Conflict reason => readable 1024 reason
  | Reject reason => readable 1024 reason /\ kind p <> Model
  | Supersede successor => readable 256 successor /\ successor <> rule /\ kind p <> Model
  | Annotate text => readable 4096 text
  end.
Definition well_formed (e : ArchaeologyLifecycleEvent) : Prop :=
  readable 256 (event_id e) /\ readable 256 (repository_id e) /\ readable 256 (rule_id e) /\
  1 <= sequence e /\ expected_previous_sequence e + 1 = sequence e /\
  named (provenance e) /\ may_say (rule_id e) (provenance e) (action e).

(** The state the legal moves of the events lead to; an annotation leaves it. *)
Inductive life : list ArchaeologyLifecycleEvent -> ArchaeologyRuleLifecycle -> Prop :=
  | life_unborn : life [] LifecycleUnavailable
  | life_move pre s e next : life pre s -> is_annotation (action e) = false -> legal s (action e) next -> life (pre ++ [e]) next
  | life_note pre s e : life pre s -> is_annotation (action e) = true -> s <> LifecycleUnavailable -> life (pre ++ [e]) s.
Definition moves (events : list ArchaeologyLifecycleEvent) : list ArchaeologyLifecycleEvent :=
  List.filter (fun e => negb (is_annotation (action e))) events.
Definition note (e : ArchaeologyLifecycleEvent) : option ArchaeologyProjectedAnnotation :=
  match action e with
  | Annotate text => Some {| annotation_event_id := event_id e; annotation_sequence := sequence e;
      annotation_text := text; annotation_provenance := provenance e |}
  | _ => None
  end.
(** The decision an event stands for, if it is the last that is no annotation. *)
Definition decided (e : ArchaeologyLifecycleEvent) : option ArchaeologyReviewerProvenance :=
  match action e with Accept | Reject _ => Some (provenance e) | _ => None end.
Definition succeeded (e : ArchaeologyLifecycleEvent) : option string :=
  match action e with Supersede successor => Some successor | _ => None end.

Record reviewed (events : list ArchaeologyLifecycleEvent) (p : ArchaeologyLifecycleProjection)
    (ordered : list ArchaeologyLifecycleEvent) : Prop := {
  reviewed_bound : 1 <= len events <= 10000;
  reviewed_order : ordered ≡ₚ events;
  reviewed_events : Forall (fun e => well_formed e /\ repository_id e = projected_repository_id p /\
    rule_id e = projected_rule_id p) ordered;
  reviewed_sequence : forall i e, ordered !! i = Some e -> sequence e = N.of_nat i + 1;
  reviewed_distinct : NoDup (map event_id ordered);
  reviewed_life : life ordered (lifecycle p);
  reviewed_last : exists e, last (moves ordered) = Some e /\ last_state_event_id p = event_id e /\
    decision_provenance p = decided e /\ successor_rule_id p = succeeded e;
  reviewed_count : last_sequence p = len events;
  reviewed_notes : annotations p = omap note ordered
}.

Lemma validate_text_Ok label text max : validate_text label text max = Ok tt <-> readable max text.
Proof.
  unfold validate_text, readable. rewrite !if_Err_Ok, N.ltb_ge, any_false.
  assert (trim_is_empty text = false <-> exists c, c ∈ chars text /\ is_whitespace c = false) as ->.
  { unfold trim_is_empty. rewrite <- not_true_iff_false, forallb_forall. split.
    - intros H. destruct (any (fun c => negb (is_whitespace c)) (chars text)) eqn:E.
      + apply any_true in E as (c & ? & Hc%negb_true_iff). eauto.
      + destruct H. intros c Hc%list_elem_of_In. rewrite any_false in E. by apply negb_false_iff, E.
    - intros (c & Hc%list_elem_of_In & Hf) H. rewrite (H c Hc) in Hf. done. }
  split.
  - intros (H1 & H2 & H3 & _). split_and!; [done..|]. intros c Hc. specialize (H3 c Hc).
    apply orb_false_iff in H3 as [?%N.eqb_neq H3]. split; [done|]. intros Hcontrol. rewrite Hcontrol in H3.
    destruct (N.eqb_spec c 9), (N.eqb_spec c 10), (N.eqb_spec c 13); auto; done.
  - intros (H1 & H2 & H3). split_and!; [done..| |done]. intros c Hc. destruct (H3 c Hc) as [? Hcontrol].
    apply orb_false_iff. split; [by apply N.eqb_neq|]. destruct (is_control c); [|done]. by destruct (Hcontrol eq_refl) as [-> | [-> | ->]].
Qed.
Lemma validate_id_Ok label text : validate_id label text = Ok tt <-> readable 256 text.
Proof. apply validate_text_Ok. Qed.
Lemma provenance_validate_Ok p : ArchaeologyReviewerProvenance_validate p = Ok tt <-> named p.
Proof.
  unfold ArchaeologyReviewerProvenance_validate, named. rewrite then_Ok, validate_id_Ok. apply and_iff_compat_l.
  assert (~ readable 256 "") as Hempty by (intros ((c & Hc & _) & _); by apply elem_of_nil in Hc).
  destruct (kind p), (authority_id p) as [a|]; cbn; rewrite ?validate_id_Ok; naive_solver.
Qed.
Lemma action_validate_Ok a rule p : ArchaeologyLifecycleAction_validate a rule p = Ok tt <-> may_say rule p a.
Proof.
  unfold ArchaeologyLifecycleAction_validate, may_say, can_decide. rewrite then_Ok, !if_Err_Ok.
  destruct a; cbn; rewrite ?then_Ok, ?if_Err_Ok, ?validate_id_Ok, ?validate_text_Ok, ?seqb_false, ?bool_decide_eq_false;
    destruct (kind p); naive_solver.
Qed.
Lemma event_validate_Ok e : ArchaeologyLifecycleEvent_validate_shape e = Ok tt <-> well_formed e.
Proof.
  unfold ArchaeologyLifecycleEvent_validate_shape, well_formed.
  rewrite !then_Ok, !if_Err_Ok, then_Ok, !validate_id_Ok, provenance_validate_Ok, action_validate_Ok, negb_false_iff, N.eqb_eq, N.eqb_neq.
  split; intros (? & ? & ? & ? & ? & ?); split_and!; (done || lia || tauto).
Qed.

Lemma moves_snoc pre e : moves (pre ++ [e]) = if is_annotation (action e) then moves pre else moves pre ++ [e].
Proof. unfold moves. rewrite List.filter_app. cbn.
  destruct (is_annotation (action e)); cbn; [apply app_nil_r|done].
Qed.
Lemma note_none e : is_annotation (action e) = false -> note e = None.
Proof. unfold note. by destruct (action e). Qed.

(** The states of a run are what the specification reads off its events. *)
Lemma Run_reads repo rule pre st : Run repo rule pre st ->
  life pre (st_lifecycle st) /\ st_annotations st = omap note pre /\
  (pre <> [] -> exists e, last (moves pre) = Some e /\ st_last_state_event_id st = event_id e /\
    st_decision st = decided e /\ st_successor st = succeeded e).
Proof.
  induction 1 as [|pre st e next _ (Hlife & Hnotes & _) _ Ha Hlegal|pre st e text Hrun (Hlife & Hnotes & Hlast) _ Ha Hborn].
  - by repeat constructor.
  - split_and!; cbn.
    + by eapply life_move.
    + rewrite omap_app. cbn. by rewrite note_none, app_nil_r.
    + intros _. exists e. rewrite moves_snoc, Ha, last_snoc. split; [done|]. split; [done|].
      unfold decided, succeeded. by destruct (action e).
  - split_and!; cbn.
    + apply life_note; [done|by rewrite Ha|done].
    + rewrite omap_app, Hnotes. cbn. unfold note. by rewrite Ha.
    + intros _. rewrite moves_snoc, Ha. cbn. apply Hlast. intros ->. apply Run_invariant in Hrun as [Hrun _]. by apply Hborn, Hrun.
Qed.
Lemma Run_events repo rule pre st : Run repo rule pre st ->
  Forall (fun e => well_formed e /\ repository_id e = repo /\ rule_id e = rule) pre /\
  (forall i e, pre !! i = Some e -> sequence e = N.of_nat i + 1) /\ NoDup (map event_id pre).
Proof.
  assert (forall pre e, admissible repo rule pre e ->
    Forall (fun e => well_formed e /\ repository_id e = repo /\ rule_id e = rule) pre /\
      (forall i e, pre !! i = Some e -> sequence e = N.of_nat i + 1) /\ NoDup (map event_id pre) ->
    Forall (fun e => well_formed e /\ repository_id e = repo /\ rule_id e = rule) (pre ++ [e]) /\
      (forall i e', (pre ++ [e]) !! i = Some e' -> sequence e' = N.of_nat i + 1) /\ NoDup (map event_id (pre ++ [e]))) as Hsnoc.
  { intros pre' e (Hwf%event_validate_Ok & Hrepo & Hrule & Hseq & Hfresh) (Hall & Hseqs & Hnd). split_and!.
    - apply Forall_app. auto.
    - intros i e' [Hi|[-> <-]]%lookup_snoc_Some; [by apply Hseqs, Hi|done].
    - rewrite map_app, NoDup_app. split_and!; [done| |apply NoDup_singleton].
      intros id Hid ->%list_elem_of_singleton. done. }
  induction 1; [|by apply Hsnoc..]. split_and!; [constructor|done|constructor].
Qed.
Lemma life_Run repo rule pre s : life pre s ->
  Forall (fun e => well_formed e /\ repository_id e = repo /\ rule_id e = rule) pre ->
  (forall i e, pre !! i = Some e -> sequence e = N.of_nat i + 1) -> NoDup (map event_id pre) ->
  exists st, Run repo rule pre st /\ st_lifecycle st = s.
Proof.
  assert (forall pre e, Forall (fun e => well_formed e /\ repository_id e = repo /\ rule_id e = rule) (pre ++ [e]) ->
    (forall i e', (pre ++ [e]) !! i = Some e' -> sequence e' = N.of_nat i + 1) -> NoDup (map event_id (pre ++ [e])) ->
    admissible repo rule pre e /\ Forall (fun e => well_formed e /\ repository_id e = repo /\ rule_id e = rule) pre /\
    (forall i e, pre !! i = Some e -> sequence e = N.of_nat i + 1) /\ NoDup (map event_id pre)) as Hinit.
  { intros pre' e [Hall (Hwf & ? & ?)%Forall_singleton]%Forall_app Hseq Hnd. rewrite map_app, NoDup_app in Hnd.
    destruct Hnd as (Hnd & Hfresh & _). unfold admissible. split_and!; try done.
    - by apply event_validate_Ok.
    - apply Hseq. by apply lookup_snoc_Some; right.
    - intros Hid. apply (Hfresh _ Hid). by left.
    - intros i e' Hi. apply Hseq. apply lookup_snoc_Some. left. split; [|done]. by apply lookup_lt_Some in Hi. }
  induction 1 as [|pre s e next _ IH Ha Hlegal|pre s e _ IH Ha Hborn]; intros Hall Hseq Hnd;
    [exists initial_state; by split; [constructor|]|apply Hinit in Hnd as (Hadm & Hall' & Hseq' & Hnd'); [|done..]..];
    destruct (IH Hall' Hseq' Hnd') as (st & Hrun & <-).
  - exists (moved st e next). by split; [apply Run_move|].
  - destruct (action e) as [| | | | | |text] eqn:E; try done. exists (annotated st e text). by split; [apply Run_annotate|].
Qed.

Lemma accepted_reviewed events p : accepted_stream events p <-> exists ordered, reviewed events p ordered.
Proof.
  split.
  - intros (Hbound & ordered & first & st & Hperm & Hhead & Hrun & ->). exists ordered.
    destruct (Run_events _ _ _ _ Hrun) as (Hall & Hseq & Hnd). destruct (Run_reads _ _ _ _ Hrun) as (Hlife & Hnotes & Hlast).
    constructor; try done. apply Hlast. by intros ->.
  - intros (ordered & [Hbound Hperm Hall Hseq Hnd Hlife (e & Hlast & Hid & Hdec & Hsucc) Hcount Hnotes]). split; [done|].
    destruct (life_Run _ _ _ _ Hlife Hall Hseq Hnd) as (st & Hrun & Hst).
    destruct ordered as [|first rest]; [done|]. exists (first :: rest), first, st.
    apply Forall_cons in Hall as [(_ & Hrepo & Hrule) _]. rewrite Hrepo, Hrule. split_and!; [done..|].
    destruct (Run_reads _ _ _ _ Hrun) as (_ & Hnotes' & Hlast'). destruct (Hlast' ltac:(done)) as (e' & He' & ? & ? & ?).
    rewrite Hlast in He'. injection He' as <-. destruct p. cbn in *. unfold finish_projection. congruence.
Qed.

(** C37: projecting a stream succeeds with a projection exactly when the events
    have an ordering the specification [reviewed] accepts and reads this
    projection off: well-formed events of one rule, numbered from one without gap
    or repeat, with distinct identities, at most ten thousand, whose states are
    the legal moves from nothing; the state is the last one; the last event that
    is no annotation gives the event of the state, the decision if it accepts or
    rejects and none otherwise, and the successor if it supersedes; and the
    annotations are those of the stream, in order. *)
Theorem project_lifecycle_refines (events : list ArchaeologyLifecycleEvent)
    (p : ArchaeologyLifecycleProjection) :
  project_lifecycle events = Ok p <-> exists ordered, reviewed events p ordered.
Proof. rewrite project_lifecycle_Ok. apply accepted_reviewed. Qed.

Lemma projection_last_sequence events p :
  project_lifecycle events = Ok p -> last_sequence p = len events.
Proof. by intros (_ & ? & ? & ? & _ & _ & _ & ->)%project_lifecycle_Ok. Qed.

(** The order in which a stream's rows are supplied does not matter: two
    orderings are accepted together, with the same projection. *)
Theorem project_lifecycle_order_independent (events1 events2 : list ArchaeologyLifecycleEvent)
    (Hperm : events1 ≡ₚ events2) (p : ArchaeologyLifecycleProjection) :
  project_lifecycle events1 = Ok p <-> project_lifecycle events2 = Ok p.
Proof.
  rewrite !project_lifecycle_Ok. unfold accepted_stream.
  assert (len events1 = len events2) as -> by (unfold len; by rewrite Hperm).
  split; intros (? & ordered & first & st & Ho & ?); (split; [done|]); exists ordered, first, st;
    (split; [by etrans|done]).
Qed.

Lemma project_lifecycle_order_independent_witness :
  is_Ok (project_lifecycle ex_stream) /\
  forall p, project_lifecycle ex_stream = Ok p <-> project_lifecycle (reverse ex_stream) = Ok p.
Proof.
  split; [eexists; reflexivity|]. intros p. apply project_lifecycle_order_independent.
  symmetry. apply reverse_Permutation.
Defined.

(** In every projection the rule has left its initial state, its last
    sequence counts the events, a recorded decision belongs to an accepted or
    rejected rule and was not made by a model, and a recorded successor belongs
    to a superseded rule. *)
Theorem projection_invariant (events : list ArchaeologyLifecycleEvent)
    (p : ArchaeologyLifecycleProjection) (H : project_lifecycle events = Ok p) :
  lifecycle p <> LifecycleUnavailable /\
  last_sequence p = len events /\
  (is_Some (decision_provenance p) <->
     lifecycle p = LifecycleAccepted \/ lifecycle p = LifecycleRejected) /\
  (forall prov, decision_provenance p = Some prov -> kind prov <> Model) /\
  (is_Some (successor_rule_id p) <-> lifecycle p = LifecycleSuperseded).
Proof.
  apply project_lifecycle_Ok in H as (Hlen & ordered & first & st & Hperm & Hhead & Hrun & ->).
  apply Run_invariant in Hrun as (H1 & H2 & H3 & H4). cbn.
  split; [|split; [done|exact (conj H2 (conj H3 H4))]].
  intros Hun. apply H1 in Hun as ->. done.
Qed.

Lemma projection_invariant_witness :
  exists p, project_lifecycle ex_stream = Ok p /\ lifecycle p = LifecycleAccepted /\
    is_Some (decision_provenance p).
Proof.
  destruct (project_lifecycle ex_stream) as [p| |] eqn:E; [|discriminate E|discriminate E].
  exists p. split; [done|]. assert (lifecycle p = LifecycleAccepted) as Hl.
  { vm_compute in E. injection E as <-. done. }
  split; [done|]. apply (projection_invariant ex_stream p E). by left.
Defined.

Lemma validate_text_returns label value m : returns (validate_text label value m).
Proof. unfold validate_text. repeat case_match; done. Qed.
Lemma validate_id_returns label value : returns (validate_id label value).
Proof. apply validate_text_returns. Qed.
#[export] Hint Resolve validate_text_returns validate_id_returns : outcomes.

Lemma provenance_validate_returns p : returns (ArchaeologyReviewerProvenance_validate p).
Proof.
  apply returns_bind; [auto with outcomes|]. intros _ _. repeat case_match; auto with outcomes.
Qed.
Lemma action_validate_returns a rule p : returns (ArchaeologyLifecycleAction_validate a rule p).
Proof.
  apply returns_bind.
  - destruct a; auto with outcomes. apply returns_bind; [auto with outcomes|]. intros. by case_match.
  - intros _ _. repeat case_match; done.
Qed.
#[export] Hint Resolve provenance_validate_returns action_validate_returns : outcomes.
Lemma event_validate_returns e : returns (ArchaeologyLifecycleEvent_validate_shape e).
Proof.
  do 3 (apply returns_bind; [auto with outcomes|]; intros _ _).
  repeat (apply returns_if; intros _); auto with outcomes.
  apply returns_bind; auto with outcomes.
Qed.
Lemma project_step_returns repo rule st item : returns (project_step repo rule st item).
Proof.
  destruct item as [offset e]. apply returns_bind; [apply event_validate_returns|]. intros _ _.
  repeat (apply returns_if; intros _; [auto with outcomes|]).
  destruct (action e) eqn:Ea; try (by apply returns_if);
    (apply returns_bind; [destruct (st_lifecycle st); done|done]).
Qed.
Lemma project_lifecycle_returns events : returns (project_lifecycle events).
Proof.
  unfold project_lifecycle. apply returns_if; [done|]. intros Hne%is_nil_false.
  apply returns_if; [done|]. intros _. destruct (sort_by event_order events) as [|first rest] eqn:E.
  - pose proof (sort_by_perm event_order events) as Hp. rewrite E in Hp.
    apply Permutation_nil_l in Hp. by subst.
  - apply returns_bind; [|done].
    apply (for_each_returns (fun _ => True)); auto using project_step_returns.
Qed.

(** Projecting a stream and validating an append return on every input:
    neither the [unreachable!] arm nor an out-of-bounds index is reached. *)
Theorem lifecycle_never_panics (events : list ArchaeologyLifecycleEvent)
    (candidate : ArchaeologyLifecycleEvent) :
  returns (project_lifecycle events) /\ returns (validate_lifecycle_append events candidate).
Proof.
  split; [apply project_lifecycle_returns|]. unfold validate_lifecycle_append.
  apply returns_if; [done|]. intros _. apply returns_bind; [apply event_validate_returns|]. intros _ _.
  apply returns_bind.
  - apply returns_if; [done|]. intros _. apply returns_bind; [apply project_lifecycle_returns|done].
  - intros n _. do 2 (apply returns_if; [done|]; intros _). apply project_lifecycle_returns.
Qed.

(** ** Appending *)

Lemma append_Ok existing candidate p :
  validate_lifecycle_append existing candidate = Ok p ->
  project_lifecycle (existing ++ [candidate]) = Ok p /\
  expected_previous_sequence candidate = len existing /\
  sequence candidate = len existing + 1 /\
  (existing = [] \/ exists q, project_lifecycle existing = Ok q).
Proof.
  unfold validate_lifecycle_append. rewrite if_Err_Ok, then_Ok, bind_Ok.
  intros (_ & _ & n & Hn & H). rewrite !if_Err_Ok, orb_false_iff, !negb_false_iff, !N.eqb_eq in H.
  destruct H as ((Hprev & Hseq) & _ & Hproj). split; [done|].
  destruct existing as [|e l] eqn:E; cbn [is_nil] in Hn.
  - injection Hn as <-. split_and!; [done|done|by left].
  - apply bind_Ok in Hn as (q & Hq & [= <-]). rewrite (projection_last_sequence _ _ Hq) in *. eauto.
Qed.

(** C39: appending is a compare-and-swap. An accepted event extends the stream
    to one that projects to the returned state, one sequence further; and once
    it is in, no event prepared against the same predecessor is accepted. *)
Theorem append_compare_and_swap (existing : list ArchaeologyLifecycleEvent)
    (first second : ArchaeologyLifecycleEvent) (p : ArchaeologyLifecycleProjection)
    (H : validate_lifecycle_append existing first = Ok p) :
  project_lifecycle (existing ++ [first]) = Ok p /\
  last_sequence p = len existing + 1 /\
  (expected_previous_sequence second = expected_previous_sequence first ->
   forall q, validate_lifecycle_append (existing ++ [first]) second <> Ok q).
Proof.
  apply append_Ok in H as (Hp & Hprev & _). split; [done|]. split.
  - rewrite (projection_last_sequence _ _ Hp). apply len_snoc.
  - intros Heq q (_ & Hq & _)%append_Ok. rewrite len_snoc in Hq. lia.
Qed.

Lemma append_compare_and_swap_witness :
  let first := ex_event "e4" 4 human (Reject "broken") in
  let second := ex_event "e5" 4 human (ReviewNeeded "unsure") in
  exists p, validate_lifecycle_append ex_stream first = Ok p /\ last_sequence p = 4 /\
    forall q, validate_lifecycle_append (ex_stream ++ [first]) second <> Ok q.
Proof.
  intros first second.
  destruct (validate_lifecycle_append ex_stream first) as [p| |] eqn:E; [|discriminate E|discriminate E].
  destruct (append_compare_and_swap ex_stream first second p E) as (_ & Hl & Hcas).
  exists p. split_and!; [done|by rewrite Hl|by apply Hcas].
Defined.

(** Appending one event to a run is one step. *)
Lemma Run_snoc_inv repo rule pre e st :
  Run repo rule (pre ++ [e]) st ->
  exists st0, Run repo rule pre st0 /\ admissible repo rule pre e /\
    ((exists next, is_annotation (action e) = false /\ legal (st_lifecycle st0) (action e) next
        /\ st = moved st0 e next) \/
     (exists text, action e = Annotate text /\ st_lifecycle st0 <> LifecycleUnavailable
        /\ st = annotated st0 e text)).
Proof.
  inversion 1 as [Hnil|pre' st0 e' next Hrun Hadm Ha Hlegal|pre' st0 e' text Hrun Hadm Ha Hst]; subst;
    [by destruct pre|..];
    match goal with K : _ ++ [_] = _ ++ [_] |- _ => apply app_inj_tail in K as [-> ->] end;
    exists st0; eauto 10.
Qed.

Lemma Run_functional repo rule pre st1 st2 :
  Run repo rule pre st1 -> Run repo rule pre st2 -> st1 = st2.
Proof. rewrite <- !project_loop_Run. congruence. Qed.

(** An accepted append is one step of the specification from the stream's state. *)
Lemma append_step existing candidate p q :
  validate_lifecycle_append existing candidate = Ok p -> project_lifecycle existing = Ok q ->
  exists repo rule pre st0 st, pre ≡ₚ existing /\ Run repo rule pre st0 /\
    q = finish_projection repo rule (len existing) st0 /\
    Run repo rule (pre ++ [candidate]) st /\
    p = finish_projection repo rule (len existing + 1) st.
Proof.
  intros (Hp & Hprev & Hseq & _)%append_Ok Hq.
  apply project_lifecycle_Ok in Hp as (_ & ord1 & f1 & st1 & Ho1 & Hh1 & Hr1 & ->).
  apply project_lifecycle_Ok in Hq as (Hlenq & ord2 & f2 & st2 & Ho2 & Hh2 & Hr2 & ->).
  destruct ord1 as [|e pre _] using rev_ind; [done|].
  pose proof (Run_snoc_inv _ _ _ _ _ Hr1) as (st0 & Hr0 & (_ & _ & _ & He & _) & _).
  assert (len pre = len existing) as Hlen.
  { assert (len (pre ++ [e]) = len (existing ++ [candidate])) as Hl by (unfold len; by rewrite Ho1).
    rewrite !len_snoc in Hl. lia. }
  assert (e = candidate) as ->.
  { apply (Run_sequence_inj _ _ _ _ e candidate Hr1); [set_solver|rewrite Ho1; set_solver|].
    by rewrite He, Hlen. }
  apply Permutation_app_inv_r in Ho1 as Hpre.
  assert (pre = ord2) as <-.
  { rewrite <- (Run_sorted _ _ _ _ Hr0 existing) by done. by apply (Run_sorted _ _ _ _ Hr2). }
  destruct pre as [|f pre]; [done|]. injection Hh1 as <-. injection Hh2 as <-.
  exists (repository_id f), (rule_id f), (f :: pre), st2, st1. rewrite len_snoc. split_and!; auto.
Qed.

(** An accepted append makes exactly one legal move of the rule's
    lifecycle, or records one annotation and leaves the state as it was. In
    particular a superseded rule only ever receives annotations. *)
Theorem append_moves_legally (existing : list ArchaeologyLifecycleEvent)
    (candidate : ArchaeologyLifecycleEvent) (p q : ArchaeologyLifecycleProjection)
    (Hq : project_lifecycle existing = Ok q)
    (Hp : validate_lifecycle_append existing candidate = Ok p) :
  projected_rule_id p = projected_rule_id q /\
  ((is_annotation (action candidate) = false /\
      legal (lifecycle q) (action candidate) (lifecycle p) /\
      last_state_event_id p = event_id candidate /\ annotations p = annotations q) \/
   (is_annotation (action candidate) = true /\ lifecycle p = lifecycle q /\
      last_state_event_id p = last_state_event_id q /\
      decision_provenance p = decision_provenance q /\
      exists a, annotations p = annotations q ++ [a] /\ action candidate = Annotate (annotation_text a))) /\
  (lifecycle q = LifecycleSuperseded -> is_annotation (action candidate) = true).
Proof.
  destruct (append_step _ _ _ _ Hp Hq) as (repo & rule & pre & st0 & st & _ & Hr0 & -> & Hr & ->).
  cbn. split; [done|].
  apply Run_snoc_inv in Hr as (st0' & Hr0' & _ & Hstep).
  rewrite (Run_functional _ _ _ _ _ Hr0' Hr0) in Hstep. clear Hr0 Hr0' Hp Hq.
  destruct Hstep as [(next & Ha & Hlegal & ->)|(text & Ha & _ & ->)]; cbn; rewrite ?Ha.
  - split; [by left|]. intros Hs. exfalso. rewrite Hs in Hlegal.
    inversion Hlegal; subst; by match goal with H : open _ |- _ => inversion H end.
  - split; [right; eauto 10|done].
Qed.

Lemma append_moves_legally_witness :
  exists q p, project_lifecycle ex_stream = Ok q /\
    validate_lifecycle_append ex_stream (ex_event "e4" 4 human (Reject "broken")) = Ok p /\
    legal (lifecycle q) (Reject "broken") (lifecycle p).
Proof.
  destruct (project_lifecycle ex_stream) as [q| |] eqn:Eq; [|discriminate Eq|discriminate Eq].
  destruct (validate_lifecycle_append ex_stream (ex_event "e4" 4 human (Reject "broken")))
    as [p| |] eqn:Ep; [|discriminate Ep|discriminate Ep].
  exists q, p. split; [done|]. split; [done|].
  destruct (append_moves_legally _ _ p q Eq Ep) as (_ & [(_ & H & _)|(H & _)] & _); [exact H|discriminate H].
Defined.

(** * Properties of rule aliases *)

(** What an alias table guarantees: bounded, every alias well shaped, event
    identities and aliased rules distinct, and a star: no canonical rule is
    itself an alias. *)
Definition alias_table_wf (aliases : list ArchaeologyRuleAlias) : Prop :=
  len aliases <= MAX_ALIASES_PER_REPOSITORY /\
  Forall (fun a => ArchaeologyRuleAlias_validate_shape a = Ok tt) aliases /\
  NoDup (map alias_event_id aliases) /\ NoDup (map alias_key aliases) /\
  (forall a b, a ∈ aliases -> b ∈ aliases -> alias_target a <> alias_key b).

(** The tables built from a prefix of the aliases. *)
Definition alias_state_of (pre : list ArchaeologyRuleAlias)
    (state : BTreeSet string * alias_map) : Prop :=
  (forall id, id ∈ fst state <-> id ∈ map alias_event_id pre) /\
  map_wf (snd state) /\
  (forall k t, (k, t) ∈ snd state <-> (k, t) ∈ map (fun a => (alias_key a, alias_target a)) pre).

Lemma alias_state_keys pre state k :
  alias_state_of pre state -> k ∈ map_keys (snd state) <-> k ∈ map alias_key pre.
Proof.
  intros (_ & _ & H). unfold map_keys. rewrite !list_elem_of_fmap. split.
  - intros ([k' t] & -> & Hin). apply H, list_elem_of_fmap in Hin as (a & [= -> ->] & Ha). eauto.
  - intros (a & -> & Ha). exists (alias_key a, alias_target a). split; [done|].
    apply H, list_elem_of_fmap. eauto.
Qed.
Lemma alias_state_values pre state t :
  alias_state_of pre state -> t ∈ map_values (snd state) <-> t ∈ map alias_target pre.
Proof.
  intros (_ & _ & H). unfold map_values. rewrite !list_elem_of_fmap. split.
  - intros ([k t'] & -> & Hin). apply H, list_elem_of_fmap in Hin as (a & [= -> ->] & Ha). eauto.
  - intros (a & -> & Ha). exists (alias_key a, alias_target a). split; [done|].
    apply H, list_elem_of_fmap. eauto.
Qed.

Lemma add_alias_Ok pre state a state' :
  alias_state_of pre state ->
  add_alias state a = Ok state' <->
  ArchaeologyRuleAlias_validate_shape a = Ok tt /\ alias_event_id a ∉ map alias_event_id pre /\
  alias_key a ∉ map alias_key pre /\
  state' = (set_insert (alias_event_id a) (fst state),
            map_insert (alias_key a) (alias_target a) (snd state)).
Proof.
  intros Hst. pose proof (alias_state_keys _ _ (alias_key a) Hst) as Hk.
  destruct Hst as (Hids & _). destruct state as [ids targets]. unfold add_alias. cbn [fst snd] in *.
  rewrite then_Ok, !if_Err_Ok, set_contains_false, Hids, Ok_inj_iff.
  rewrite <- Hk, <- map_contains_key_true. rewrite not_true_iff_false.
  split; intros (? & ? & ? & <-) || intros (? & ? & ? & ->); auto.
Qed.

Lemma add_alias_state pre state a :
  alias_state_of pre state -> alias_key a ∉ map alias_key pre ->
  alias_state_of (pre ++ [a]) (set_insert (alias_event_id a) (fst state),
                               map_insert (alias_key a) (alias_target a) (snd state)).
Proof.
  intros Hst Hk. rewrite <- (alias_state_keys _ _ _ Hst) in Hk.
  destruct Hst as (Hids & Hwf & Hmap). unfold alias_state_of. cbn. split; [|split].
  - intros id. rewrite elem_of_set_insert, Hids, map_app. set_solver.
  - by apply map_insert_wf.
  - intros k t. rewrite (map_insert_perm _ _ _ (proj2 (map_get_None _ _) Hk)), elem_of_cons, Hmap, map_app.
    set_solver.
Qed.

Lemma add_aliases_state aliases state :
  for_each add_alias ([], []) aliases = Ok state -> alias_state_of aliases state.
Proof.
  apply (for_each_inv alias_state_of); [by repeat constructor|].
  intros pre' x suf s1 s2 _ H1 Hx. apply (add_alias_Ok _ _ _ _ H1) in Hx as (_ & _ & Hk & ->).
  by apply add_alias_state.
Qed.

(** Filling the tables succeeds exactly on well-shaped aliases with distinct
    identities and keys. *)
Lemma add_aliases_Ok aliases :
  (exists state, for_each add_alias ([], []) aliases = Ok state /\ alias_state_of aliases state) <->
  Forall (fun a => ArchaeologyRuleAlias_validate_shape a = Ok tt) aliases /\
  NoDup (map alias_event_id aliases) /\ NoDup (map alias_key aliases).
Proof.
  induction aliases as [|a pre IH] using rev_ind.
  { split; [intros _; repeat constructor|]. intros _. eexists. split; [reflexivity|].
    split; [done|]. split; [constructor|done]. }
  rewrite !map_app, Forall_app, !NoDup_app, Forall_singleton. split.
  - intros (state & H & _). rewrite for_each_app, bind_Ok in H. destruct H as (st0 & Hpre & Hstep).
    pose proof (add_aliases_state _ _ Hpre) as H0.
    cbn [for_each] in Hstep. apply bind_Ok in Hstep as (st1 & Hstep & _).
    apply (add_alias_Ok _ _ _ _ H0) in Hstep as (? & ? & ? & _).
    destruct (proj1 IH (ex_intro _ st0 (conj Hpre H0))) as (? & ? & ?).
    split; [by split|]. split; (split; [done|split; [|apply NoDup_singleton]]);
      intros x Hx Hxa; apply list_elem_of_singleton in Hxa; by subst.
  - intros ((Hs & Ha) & (Hn1 & Hd1 & _) & (Hn2 & Hd2 & _)).
    destruct (proj2 IH (conj Hs (conj Hn1 Hn2))) as (st0 & Hpre & H0).
    assert (alias_event_id a ∉ map alias_event_id pre) by (intros ?; eapply Hd1; [done|left]).
    assert (alias_key a ∉ map alias_key pre) by (intros ?; eapply Hd2; [done|left]).
    eexists. split; [|by apply add_alias_state].
    rewrite for_each_app, bind_Ok. exists st0. split; [done|].
    cbn [for_each]. apply bind_Ok. eexists. split; [|reflexivity].
    by apply (add_alias_Ok _ _ _ _ H0).
Qed.

(** In a star every walk stops after one link. *)
Lemma follow_star fuel (targets : alias_map) alias :
  map_wf targets -> (forall t, t ∈ map_values targets -> t ∉ map_keys targets) ->
  follow_aliases (S fuel) targets alias [] = Ok tt.
Proof.
  intros Hwf Hstar. cbn [follow_aliases].
  destruct (map_get alias targets) as [next|] eqn:E; [|done].
  assert (next ∉ map_keys targets) as Hn.
  { apply Hstar, list_elem_of_fmap. exists (alias, next). split; [done|]. by apply map_get_Some. }
  assert (alias ∈ map_keys targets) as Ha by (apply map_get_is_Some; eauto).
  assert (set_contains next (set_insert alias []) = false) as ->.
  { apply set_contains_false. rewrite elem_of_set_insert, elem_of_nil. naive_solver. }
  cbn. destruct fuel; cbn; by apply map_get_None in Hn as ->.
Qed.

(** The cycle walk ends: the rules it has visited are distinct aliases. *)
Lemma follow_aliases_returns (targets : alias_map) fuel cursor visited :
  NoDup visited -> visited ⊆ map_keys targets -> (length targets < fuel + length visited)%nat ->
  returns (follow_aliases fuel targets cursor visited).
Proof.
  revert cursor visited. induction fuel as [|fuel IH]; intros cursor visited Hnd Hsub Hfuel.
  - assert (length visited <= length (map_keys targets))%nat as Hle.
    { by apply submseteq_length, NoDup_submseteq. }
    unfold map_keys in Hle. rewrite length_map in Hle. lia.
  - cbn [follow_aliases]. destruct (map_get cursor targets) as [next|] eqn:E; [|done].
    apply returns_if; [done|]. intros [Hc%negb_false_iff%negb_true_iff _]%orb_false_iff.
    apply set_contains_false in Hc. apply IH.
    + by apply set_insert_NoDup.
    + intros x [->|Hx]%elem_of_set_insert; [apply map_get_is_Some; eauto|by apply Hsub].
    + rewrite set_insert_length_new by done. lia.
Qed.

Lemma alias_shape_returns a : returns (ArchaeologyRuleAlias_validate_shape a).
Proof.
  apply returns_bind; [apply for_all_returns; intros [] ?; auto with outcomes|]. intros _ _.
  apply returns_bind; [auto with outcomes|]. intros _ _. repeat case_match; done.
Qed.

Lemma validate_rule_aliases_Ok aliases :
  validate_rule_aliases aliases = Ok tt <-> alias_table_wf aliases.
Proof.
  unfold validate_rule_aliases, alias_table_wf. rewrite if_Err_Ok, N.ltb_ge, bind_Ok.
  apply and_iff_compat_l.
  assert (forall A B C D : Prop, (A /\ B /\ C /\ D) <-> ((A /\ B /\ C) /\ D)) as -> by tauto.
  rewrite <- add_aliases_Ok. split.
  - intros (state & Hadd & H). pose proof (add_aliases_state _ _ Hadd) as Hst.
    split; [eauto|]. rewrite then_Ok, if_Err_Ok, any_false in H. destruct H as (_ & Hstar & _).
    intros a b Ha Hb Heq. specialize (Hstar (alias_target a)).
    rewrite (alias_state_values _ _ _ Hst) in Hstar.
    apply not_true_iff_false in Hstar; [|apply list_elem_of_fmap; eauto]. apply Hstar.
    rewrite map_contains_key_true, (alias_state_keys _ _ _ Hst). apply list_elem_of_fmap. eauto.
  - intros [(state & Hadd & Hst) Hstar].
    assert (forall t, t ∈ map_values (snd state) -> t ∉ map_keys (snd state)) as Hkeys.
    { intros t. rewrite (alias_state_values _ _ _ Hst), (alias_state_keys _ _ _ Hst), !list_elem_of_fmap.
      intros (a & -> & Ha) (b & Heq & Hb). by apply (Hstar a b). }
    exists state. split; [done|]. rewrite then_Ok, if_Err_Ok, any_false, for_all_Ok, Forall_forall.
    split_and!; [intros k _; by apply follow_star; [apply Hst|]| |done].
    intros t Ht. rewrite <- not_true_iff_false, map_contains_key_true. by apply Hkeys.
Qed.

(** An alias table is accepted exactly when it is within its bound, its
    aliases are well shaped with distinct event identities and distinct aliased
    rules, and no canonical rule is itself an alias. The walk that looks for
    cycles rejects nothing this condition admits. *)
Theorem validate_rule_aliases_spec (aliases : list ArchaeologyRuleAlias) :
  validate_rule_aliases aliases = Ok tt <-> alias_table_wf aliases.
Proof. apply validate_rule_aliases_Ok. Qed.

(** Validating an alias table, and an append to one, returns on every
    input: the walk that looks for cycles ends. *)
Theorem alias_validation_returns (aliases : list ArchaeologyRuleAlias)
    (candidate : ArchaeologyRuleAlias) :
  returns (validate_rule_aliases aliases) /\
  returns (validate_rule_alias_append aliases candidate).
Proof.
  assert (forall l, returns (validate_rule_aliases l)) as H.
  { intros l. unfold validate_rule_aliases. apply returns_if; [done|]. intros _.
    apply returns_bind.
    - apply (for_each_returns (fun _ => True)); [done| |done].
      intros a [ids targets] _ _. apply returns_bind; [apply alias_shape_returns|].
      intros _ _. repeat (apply returns_if; intros _); done.
    - intros state _. apply returns_bind.
      + apply for_all_returns. intros k _. apply follow_aliases_returns; [constructor|set_solver|].
        cbn. lia.
      + intros _ _. by apply returns_if. }
  split; [apply H|]. unfold validate_rule_alias_append. apply returns_if; [done|]. intros _. apply H.
Qed.

(** * Properties of snapshot compatibility *)

Definition snapshot_wf (s : ArchaeologyRuleSnapshotIdentity) : Prop :=
  ArchaeologyRuleSnapshotIdentity_validate s = Ok tt.

(** The evidence that differs between two snapshots. *)
Definition differs (previous current : ArchaeologyRuleSnapshotIdentity)
    (m : ArchaeologyCompatibilityMismatch) : Prop :=
  match m with
  | Evidence => evidence_identity previous <> evidence_identity current
  | Parser => parser_compatibility_identity previous <> parser_compatibility_identity current
  | Contradiction => contradiction_identity previous <> contradiction_identity current
  end.

(** When an outcome is the right one. *)
Definition compatible_outcome (previous current : ArchaeologyRuleSnapshotIdentity)
    (previous_lifecycle : ArchaeologyRuleLifecycle) (successor : option string)
    (o : ArchaeologyCompatibilityOutcome) : Prop :=
  match o with
  | Superseded pre cur pl cl =>
      successor = Some cur /\ validate_id "explicit successor rule" cur = Ok tt /\
      pre = snapshot_rule_id previous /\ cur = snapshot_rule_id current /\ pre <> cur /\
      pl = LifecycleSuperseded /\ cl = LifecycleReviewNeeded
  | _ =>
      successor = None /\ continuity_identity previous = continuity_identity current /\
      snapshot_rule_id previous = snapshot_rule_id current /\
      match o with
      | Compatible l changed =>
          (forall m, ~ differs previous current m) /\ l = previous_lifecycle /\
          (changed = true <-> description_identity previous <> description_identity current)
      | NeedsReview reasons =>
          reasons <> [] /\ StronglySorted lt reasons /\
          (forall m, m ∈ reasons <-> differs previous current m) /\
          ~ (previous_lifecycle = LifecycleAccepted /\ differs previous current Contradiction)
      | Conflicted reasons =>
          StronglySorted lt reasons /\
          (forall m, m ∈ reasons <-> differs previous current m) /\
          previous_lifecycle = LifecycleAccepted /\ differs previous current Contradiction
      | _ => True
      end
  end.

(** The mismatches the code collects. *)
Lemma reasons_spec (e p c : bool) :
  let m1 := if e then set_insert Evidence [] else [] in
  let m2 := if p then set_insert Parser m1 else m1 in
  let reasons := if c then set_insert Contradiction m2 else m2 in
  StronglySorted lt reasons /\
  (Evidence ∈ reasons <-> e = true) /\ (Parser ∈ reasons <-> p = true) /\
  (Contradiction ∈ reasons <-> c = true).
Proof.
  destruct e, p, c; cbn; (split; [repeat constructor|]); set_solver.
Qed.

Lemma evaluate_snapshot_sound previous current l successor o :
  evaluate_snapshot_compatibility previous current l successor = Ok o ->
  compatible_outcome previous current l successor o.
Proof.
  unfold evaluate_snapshot_compatibility. rewrite !then_Ok, !if_Err_Ok. intros (_ & _ & _ & _ & H).
  destruct successor as [s|].
  - rewrite then_Ok, if_Err_Ok, orb_false_iff, negb_false_iff, seqb_true, seqb_false in H.
    destruct H as (Hs & (Hne & ->) & [= <-]). cbn. auto 10.
  - rewrite !if_Err_Ok, !negb_false_iff, !seqb_true in H. destruct H as (Hc & Hid & H).
    pose proof (reasons_spec (negb (seqb (evidence_identity previous) (evidence_identity current)))
      (negb (seqb (parser_compatibility_identity previous) (parser_compatibility_identity current)))
      (negb (seqb (contradiction_identity previous) (contradiction_identity current)))) as Hr.
    cbn zeta in Hr. revert H Hr.
    match goal with |- context [is_nil ?r] => generalize r end. intros reasons H (Hsort & He & Hp & Hx).
    rewrite negb_true_iff, seqb_false in He, Hp, Hx.
    assert (forall m, m ∈ reasons <-> differs previous current m) as Hm by by intros [].
    destruct (is_nil reasons) eqn:En.
    + apply is_nil_true in En as ->. injection H as <-. cbn. do 3 (split; [done|]).
      rewrite negb_true_iff, seqb_false. split; [|done]. intros m Hd. apply Hm in Hd. by apply elem_of_nil in Hd.
    + apply is_nil_false in En. destruct (_ && _) eqn:Ec.
      * apply andb_true_iff in Ec as [->%bool_decide_eq_true Ec%elemb_true].
        injection H as <-. cbn. by rewrite <- Hx.
      * apply andb_false_iff in Ec. rewrite bool_decide_eq_false, elemb_false, Hx in Ec.
        injection H as <-. cbn. split_and!; try done; try apply Hm. cbn in *. tauto.
Qed.

(** The comparison of two snapshots of a rule never guesses. It succeeds
    exactly when both snapshots are well formed, in one repository, of one rule
    kind, and either an explicit successor names the distinct current rule or
    rule and continuity identities agree; and the outcome lists exactly the
    identities that differ: an accepted rule whose contradictions changed is
    conflicted, any other difference needs review, and only a rule with no
    difference keeps its lifecycle. *)
Theorem snapshot_compatibility_spec (previous current : ArchaeologyRuleSnapshotIdentity)
    (l : ArchaeologyRuleLifecycle) (successor : option string) :
  (forall o, evaluate_snapshot_compatibility previous current l successor = Ok o ->
     compatible_outcome previous current l successor o) /\
  (is_Ok (evaluate_snapshot_compatibility previous current l successor) <->
     snapshot_wf previous /\ snapshot_wf current /\
     snapshot_repository_id previous = snapshot_repository_id current /\
     rule_kind_identity previous = rule_kind_identity current /\
     match successor with
     | Some s => validate_id "explicit successor rule" s = Ok tt /\
         snapshot_rule_id previous <> snapshot_rule_id current /\ s = snapshot_rule_id current
     | None => continuity_identity previous = continuity_identity current /\
         snapshot_rule_id previous = snapshot_rule_id current
     end).
Proof.
  split; [apply evaluate_snapshot_sound|]. unfold evaluate_snapshot_compatibility, snapshot_wf.
  rewrite !is_Ok_then, !is_Ok_if_Err, !negb_false_iff, !seqb_true. repeat apply and_iff_compat_l.
  destruct successor as [s|].
  - rewrite is_Ok_then, is_Ok_if_Err, orb_false_iff, negb_false_iff, seqb_false, seqb_true.
    apply and_iff_compat_l. split; [tauto|]. eauto using is_Ok_Ok.
  - rewrite !is_Ok_if_Err, !negb_false_iff, !seqb_true. split; [tauto|]. intros [? ?].
    split_and!; [done..|]. cbv zeta. repeat case_match; apply is_Ok_Ok.
Qed.
