(* ===== verification/Identity.v ===== *)
(** [src/crates/codevetter-core/src/commands/business_rule_archaeology/identity.rs]:
    the identities of a rule.  Each is a hash of a list of length-prefixed parts
    under a domain tag; which facts take part, normalised how, is what tells a
    rule apart from another one or from its own earlier state.

    SHA-256 is code of the [sha2] crate and is a parameter, a function from the
    bytes fed to the digest.  The theorems need no property of it: they say that
    equal identities come from equal parts or from two byte streams, both given,
    on which the function collides. *)
From S2P Require Import Prelude Ordering RustText Contracts.
Local Open Scope N_scope.

Definition IDENTITY_SCHEMA : string := "codevetter.archaeology-rule-identities.v1".
Definition HASH_ALGORITHM : string := "sha256".
Definition STABLE_RULE_TAG : string := "archaeology-stable-rule:v1".
Definition EVIDENCE_TAG : string := "archaeology-rule-evidence:v1".
Definition CONTRADICTION_TAG : string := "archaeology-rule-contradictions:v1".
Definition DESCRIPTION_TAG : string := "archaeology-rule-description:v1".
Definition CONTINUITY_TAG : string := "archaeology-rule-continuity:v1".
Definition PARSER_COMPATIBILITY_TAG : string := "archaeology-rule-parser-compatibility:v1".

Record ArchaeologyIdentityLimits : Type := {
  max_facts : N;
  max_spans_per_fact : N;
  max_clauses : N;
  max_identity_bytes : N;
  max_text_bytes : N
}.
Definition default_identity_limits : ArchaeologyIdentityLimits := {|
  max_facts := 256; max_spans_per_fact := 256; max_clauses := 256;
  max_identity_bytes := 2 * 1024 * 1024; max_text_bytes := 4 * 1024 |}.

Record ArchaeologyIdentitySpan : Type := {
  path_identity : string; content_hash : string; start_byte : N; end_byte : N
}.
Record ArchaeologyIdentityFact : Type := {
  kind : ArchaeologyFactKind;
  semantic_expression : string;
  parser_identity : string;
  spans : list ArchaeologyIdentitySpan
}.

Record ArchaeologyIdentityProvenance : Type := {
  schema : string;
  hash_algorithm : string;
  stable_rule_version : string;
  evidence_version : string;
  contradiction_version : string;
  description_version : string;
  continuity_version : string;
  parser_compatibility_version : string
}.
Record ArchaeologyRuleIdentities : Type := {
  ids_stable_rule_identity : string;
  ids_evidence_identity : string;
  ids_contradiction_identity : string;
  ids_description_identity : string;
  ids_continuity_identity : string;
  ids_provenance : ArchaeologyIdentityProvenance
}.
Record ArchaeologyRuleIdentityInput : Type := {
  input_repository_id : string;
  input_kind : ArchaeologyRuleKind;
  input_anchor : ArchaeologyIdentityFact;
  input_supporting_facts : list ArchaeologyIdentityFact;
  input_contradicting_facts : list ArchaeologyIdentityFact;
  input_title : string;
  input_clauses : list string;
  input_description_source_identity : string
}.

Definition identity_provenance : ArchaeologyIdentityProvenance := {|
  schema := IDENTITY_SCHEMA;
  hash_algorithm := HASH_ALGORITHM;
  stable_rule_version := STABLE_RULE_TAG;
  evidence_version := EVIDENCE_TAG;
  contradiction_version := CONTRADICTION_TAG;
  description_version := DESCRIPTION_TAG;
  continuity_version := CONTINUITY_TAG;
  parser_compatibility_version := PARSER_COMPATIBILITY_TAG |}.

Definition fact_kind_name (k : ArchaeologyFactKind) : string :=
  match k with
  | FactDeclaration => "declaration"
  | FactDataField => "data_field"
  | FactConstant => "constant"
  | FactPredicate => "predicate"
  | FactDecision => "decision"
  | FactCalculation => "calculation"
  | FactMutation => "mutation"
  | FactCall => "call"
  | FactInputOutput => "input_output"
  | FactTransaction => "transaction"
  | FactControlFlow => "control_flow"
  | FactEntryPoint => "entry_point"
  | FactInclude => "include"
  | FactUnresolved => "unresolved"
  end.
Definition rule_kind_name (k : ArchaeologyRuleKind) : string :=
  match k with
  | RuleValidation => "validation"
  | RuleCalculation => "calculation"
  | RuleEligibility => "eligibility"
  | RuleEntitlement => "entitlement"
  | RuleRouting => "routing"
  | RuleMutation => "mutation"
  | RuleException => "exception"
  | RuleLifecycle => "lifecycle"
  | RuleTransaction => "transaction"
  | RuleOther => "other"
  end.

(** ** Validators *)

Definition lower_hex (value : string) (length : N) : bool :=
  (blen value =? length)
  && forallb (fun b => is_ascii_hexdigit b && negb (is_ascii_uppercase b)) (bytes value).

Definition validate_component (value name : string) : outcome unit :=
  if is_empty value || (256 <? blen value)
     || any (fun character => (character =? 0) || is_control character) (chars value)
  then Err ("Archaeology " ++ name ++ " is invalid") else Ok tt.

Definition validate_repository (value : string) : outcome unit :=
  _ ← validate_component value "repository identity";
  if any (fun c => (c =? 47) || (c =? 92)) (chars value)
  then Err "Archaeology repository identity is invalid" else Ok tt.

(** [&value[10..]] cannot panic: the prefix test has passed. *)
Definition validate_semantic_fact (fact : ArchaeologyIdentityFact) : outcome unit :=
  if negb (starts_with "v1:sha256:" (semantic_expression fact))
     || negb (lower_hex (str_drop 10 (semantic_expression fact)) 64)
  then Err "Archaeology semantic expression identity is invalid" else Ok tt.

Definition validate_fact_count (facts : list ArchaeologyIdentityFact)
    (limits : ArchaeologyIdentityLimits) (allow_empty : bool) : outcome unit :=
  if (negb allow_empty && is_nil facts) || (max_facts limits <? len facts)
  then Err "Archaeology identity fact bound is invalid" else Ok tt.

Definition validate_digest_identity (value : string) : outcome unit :=
  if negb (starts_with "sha256:" value) || negb (lower_hex (str_drop 7 value) 64)
  then Err "Archaeology stable rule identity is invalid" else Ok tt.

Definition canonical_text (value : string) (max_bytes : N) : outcome string :=
  if is_empty value || (max_bytes <? blen value)
     || any (fun character => (character =? 0)
               || is_control character && negb (is_whitespace character)) (chars value)
  then Err "Archaeology description text is invalid" else
  let canonical := String.concat " " (split_whitespace value) in
  if is_empty canonical || (max_bytes <? blen canonical)
  then Err "Archaeology description text is invalid" else
  Ok canonical.

(** ** Normalised facts *)

Definition semantic_key : Type := (string * string)%type.
Definition semantic_fact_key (fact : ArchaeologyIdentityFact) : semantic_key :=
  (fact_kind_name (kind fact), semantic_expression fact).

Record NormalizedSpan : Type := {
  n_path_identity : string; n_content_hash : string; n_start_byte : N; n_end_byte : N
}.
Definition span_tuple (s : NormalizedSpan) : string * (string * (N * N)) :=
  (n_path_identity s, (n_content_hash s, (n_start_byte s, n_end_byte s))).
#[export] Instance ord_normalized_span : RustOrd NormalizedSpan.
Proof. apply (ord_by span_tuple). intros [] [] [=]. by subst. Defined.

Record NormalizedEvidenceFact : Type := {
  n_kind : string;
  n_semantic_expression : string;
  n_parser_identity : string;
  n_spans : list NormalizedSpan
}.
Definition evidence_tuple (f : NormalizedEvidenceFact) : string * (string * (string * list NormalizedSpan)) :=
  (n_kind f, (n_semantic_expression f, (n_parser_identity f, n_spans f))).
#[export] Instance ord_normalized_evidence_fact : RustOrd NormalizedEvidenceFact.
Proof. apply (ord_by evidence_tuple). intros [] [] [=]. by subst. Defined.

Definition normalized_semantic_facts (facts : list ArchaeologyIdentityFact)
    : outcome (BTreeSet semantic_key) :=
  for_each (fun normalized fact =>
      _ ← validate_semantic_fact fact;
      Ok (set_insert (semantic_fact_key fact) normalized)) [] facts.

(** [set.insert(x)], an error where [x] was already there. *)
Definition insert_new {A} `{RustOrd A} (e : string) (s : BTreeSet A) (x : A)
    : outcome (BTreeSet A) :=
  if set_contains x s then Err e else Ok (set_insert x s).

Definition normalized_span (span : ArchaeologyIdentitySpan) : NormalizedSpan := {|
  n_path_identity := path_identity span; n_content_hash := content_hash span;
  n_start_byte := start_byte span; n_end_byte := end_byte span |}.
Definition add_span (spans : BTreeSet NormalizedSpan) (span : ArchaeologyIdentitySpan)
    : outcome (BTreeSet NormalizedSpan) :=
  _ ← validate_component (path_identity span) "path identity";
  if negb (lower_hex (content_hash span) 64)
  then Err "Archaeology evidence content hash is invalid" else
  if end_byte span <? start_byte span
  then Err "Archaeology evidence span end precedes start" else
  insert_new "Archaeology evidence contains a duplicate exact span" spans (normalized_span span).

Definition add_evidence_fact (limits : ArchaeologyIdentityLimits)
    (normalized : BTreeSet NormalizedEvidenceFact) (fact : ArchaeologyIdentityFact)
    : outcome (BTreeSet NormalizedEvidenceFact) :=
  _ ← validate_semantic_fact fact;
  _ ← validate_component (parser_identity fact) "parser identity";
  if is_nil (spans fact) || (max_spans_per_fact limits <? len (spans fact))
  then Err "Archaeology evidence span bound is invalid" else
  normalized_spans ← for_each add_span [] (spans fact);
  insert_new "Archaeology evidence contains a duplicate exact fact" normalized
    {| n_kind := fact_kind_name (kind fact);
       n_semantic_expression := semantic_expression fact;
       n_parser_identity := parser_identity fact;
       n_spans := normalized_spans |}.

Definition normalized_evidence_facts (facts : list ArchaeologyIdentityFact)
    (limits : ArchaeologyIdentityLimits) : outcome (BTreeSet NormalizedEvidenceFact) :=
  for_each (add_evidence_fact limits) [] facts.

(** ** The bounded digest *)

(** [digest] is the hasher's state: the bytes it has been fed. *)
Record IdentityDigest : Type := { digest : string; digest_bytes : N; max_bytes : N }.

Definition write (self : IdentityDigest) (value : string) : outcome IdentityDigest :=
  next ← ok_or (bytes ← checked_add (digest_bytes self) 8; checked_add bytes (blen value))
           "Archaeology identity byte count overflowed";
  if max_bytes self <? next then Err "Archaeology identity byte bound exceeded" else
  Ok {| digest := (digest self ++ to_be_bytes (blen value)) ++ value;
        digest_bytes := next; max_bytes := max_bytes self |}.
Definition field (self : IdentityDigest) (value : string) : outcome IdentityDigest :=
  write self value.
Definition number (self : IdentityDigest) (value : N) : outcome IdentityDigest :=
  write self (to_be_bytes value).
(** A [usize] is a [u64]: the conversion does not fail. *)
Definition count (self : IdentityDigest) (value : N) : outcome IdentityDigest :=
  number self value.
Definition IdentityDigest_new (tag : string) (max_bytes : N) : outcome IdentityDigest :=
  if max_bytes =? 0 then Err "Archaeology identity byte bound is invalid" else
  field {| digest := ""; digest_bytes := 0; max_bytes := max_bytes |} tag.

Definition write_key (d : IdentityDigest) (key : semantic_key) : outcome IdentityDigest :=
  d ← field d (fst key); d ← field d (snd key); Ok d.
Definition write_span (d : IdentityDigest) (span : NormalizedSpan) : outcome IdentityDigest :=
  d ← field d (n_path_identity span);
  d ← field d (n_content_hash span);
  d ← number d (n_start_byte span);
  d ← number d (n_end_byte span);
  Ok d.
Definition write_evidence_fact (d : IdentityDigest) (fact : NormalizedEvidenceFact)
    : outcome IdentityDigest :=
  d ← field d (n_kind fact);
  d ← field d (n_semantic_expression fact);
  d ← field d (n_parser_identity fact);
  d ← count d (len (n_spans fact));
  for_each write_span d (n_spans fact).

(** ** The identities *)

Section Identities.
(** [Sha256::new], [update] and [finalize] of the sha2 crate. *)
Context (sha256 : string -> string).

Definition finish (self : IdentityDigest) : string :=
  "sha256:" ++ hex (sha256 (digest self)).

Definition stable_rule_identity (repository_id : string) (kind : ArchaeologyRuleKind)
    (anchor : ArchaeologyIdentityFact) (supporting_facts : list ArchaeologyIdentityFact)
    (limits : ArchaeologyIdentityLimits) : outcome string :=
  _ ← validate_repository repository_id;
  _ ← validate_fact_count supporting_facts limits false;
  _ ← validate_semantic_fact anchor;
  let anchor_key := semantic_fact_key anchor in
  supporting ← normalized_semantic_facts supporting_facts;
  if negb (set_contains anchor_key supporting)
  then Err "Archaeology stable identity anchor is not supporting evidence" else
  d ← IdentityDigest_new STABLE_RULE_TAG (max_identity_bytes limits);
  d ← field d repository_id;
  d ← field d (rule_kind_name kind);
  d ← field d (fst anchor_key);
  d ← field d (snd anchor_key);
  d ← count d (len supporting);
  d ← for_each write_key d supporting;
  Ok (finish d).

Definition evidence_identity (repository_id : string)
    (supporting_facts : list ArchaeologyIdentityFact) (limits : ArchaeologyIdentityLimits)
    : outcome string :=
  _ ← validate_repository repository_id;
  _ ← validate_fact_count supporting_facts limits false;
  facts ← normalized_evidence_facts supporting_facts limits;
  d ← IdentityDigest_new EVIDENCE_TAG (max_identity_bytes limits);
  d ← field d repository_id;
  d ← count d (len facts);
  d ← for_each write_evidence_fact d facts;
  Ok (finish d).

Definition contradiction_identity (repository_id : string)
    (contradicting_facts : list ArchaeologyIdentityFact) (limits : ArchaeologyIdentityLimits)
    : outcome string :=
  _ ← validate_repository repository_id;
  _ ← validate_fact_count contradicting_facts limits true;
  facts ← normalized_semantic_facts contradicting_facts;
  d ← IdentityDigest_new CONTRADICTION_TAG (max_identity_bytes limits);
  d ← field d repository_id;
  d ← field d (if is_nil facts then "empty-set:v1" else "facts:v1");
  d ← count d (len facts);
  d ← for_each write_key d facts;
  Ok (finish d).

Definition description_identity (repository_id title : string) (clauses : list string)
    (description_source_identity : string) (limits : ArchaeologyIdentityLimits)
    : outcome string :=
  _ ← validate_repository repository_id;
  if is_nil clauses || (max_clauses limits <? len clauses)
  then Err "Archaeology description clause bound is invalid" else
  _ ← validate_component description_source_identity "description source identity";
  title ← canonical_text title (max_text_bytes limits);
  clauses ← collect (fun clause => canonical_text clause (max_text_bytes limits)) clauses;
  let clauses := sort clauses in
  d ← IdentityDigest_new DESCRIPTION_TAG (max_identity_bytes limits);
  d ← field d repository_id;
  d ← field d description_source_identity;
  d ← field d title;
  d ← count d (len clauses);
  d ← for_each field d clauses;
  Ok (finish d).

Definition continuity_identity (repository_id stable_rule_identity : string)
    (limits : ArchaeologyIdentityLimits) : outcome string :=
  _ ← validate_repository repository_id;
  _ ← validate_digest_identity stable_rule_identity;
  d ← IdentityDigest_new CONTINUITY_TAG (max_identity_bytes limits);
  d ← field d repository_id;
  d ← field d stable_rule_identity;
  Ok (finish d).

Definition build_rule_identities (input : ArchaeologyRuleIdentityInput)
    (limits : ArchaeologyIdentityLimits) : outcome ArchaeologyRuleIdentities :=
  stable ← stable_rule_identity (input_repository_id input) (input_kind input)
             (input_anchor input) (input_supporting_facts input) limits;
  evidence ← evidence_identity (input_repository_id input) (input_supporting_facts input) limits;
  contradiction ← contradiction_identity (input_repository_id input)
                    (input_contradicting_facts input) limits;
  description ← description_identity (input_repository_id input) (input_title input)
                  (input_clauses input) (input_description_source_identity input) limits;
  continuity ← continuity_identity (input_repository_id input) stable limits;
  Ok {| ids_evidence_identity := evidence;
        ids_contradiction_identity := contradiction;
        ids_description_identity := description;
        ids_continuity_identity := continuity;
        ids_stable_rule_identity := stable;
        ids_provenance := identity_provenance |}.
End Identities.

(** ** A concrete input *)

Section Examples.
(** A stand-in hash of the right width. *)
Definition ex_sha (s : string) : string := String.concat "" (replicate 32 (be_bytes 1 (blen s))).
Definition ex_digest : string := String.concat "" (replicate 32 "0a").
Definition ex_fact (k : ArchaeologyFactKind) (digit parser : string) (at_byte : N)
    : ArchaeologyIdentityFact := {|
  kind := k;
  semantic_expression := "v1:sha256:" ++ String.concat "" (replicate 64 digit);
  parser_identity := parser;
  spans := [{| path_identity := "p1"; content_hash := ex_digest;
               start_byte := at_byte; end_byte := at_byte + 4 |};
            {| path_identity := "p0"; content_hash := ex_digest;
               start_byte := at_byte; end_byte := at_byte + 4 |}] |}.
Definition ex_anchor : ArchaeologyIdentityFact := ex_fact FactPredicate "1" "cobol" 10.
Definition ex_other : ArchaeologyIdentityFact := ex_fact FactCall "2" "cobol" 20.
Example ex_stable :
  is_Ok (stable_rule_identity ex_sha "repo" RuleEligibility ex_anchor [ex_anchor; ex_other]
           default_identity_limits).
Proof. eexists. vm_compute. reflexivity. Qed.
Example ex_not_supporting :
  stable_rule_identity ex_sha "repo" RuleEligibility ex_anchor [ex_other] default_identity_limits
  = Err "Archaeology stable identity anchor is not supporting evidence".
Proof. vm_compute. reflexivity. Qed.
Example ex_duplicate :
  evidence_identity ex_sha "repo" [ex_anchor; ex_anchor] default_identity_limits
  = Err "Archaeology evidence contains a duplicate exact fact".
Proof. vm_compute. reflexivity. Qed.
Example ex_canonical : canonical_text "  an  order	is valid " 64 = Ok "an order is valid"%string.
Proof. vm_compute. reflexivity. Qed.
End Examples.

(** * The digest's framing *)

Definition frame (v : string) : string := to_be_bytes (blen v) ++ v.
Definition frames (parts : list string) : string :=
  foldr (fun v s => (frame v ++ s)%string) "" parts.
(** The bytes the digest accounts for. *)
Definition frames_size (parts : list string) : N := foldr (fun v n => 8 + blen v + n) 0 parts.

Lemma frames_cons v parts : frames (v :: parts) = (frame v ++ frames parts)%string.
Proof. reflexivity. Qed.
Lemma blen_frame v : blen (frame v) = 8 + blen v.
Proof. unfold frame. rewrite blen_append. unfold blen at 1. rewrite to_be_bytes_length. lia. Qed.
Lemma frames_size_blen parts : blen (frames parts) = frames_size parts.
Proof. induction parts as [|v parts IH]; [done|]. by rewrite frames_cons, blen_append, blen_frame, IH. Qed.
Lemma frames_size_cons v l : frames_size (v :: l) = 8 + blen v + frames_size l.
Proof. reflexivity. Qed.
Lemma frames_size_app l k : frames_size (l ++ k) = frames_size l + frames_size k.
Proof. induction l as [|v l IH]; [done|]. rewrite <- app_comm_cons, !frames_size_cons, IH. lia. Qed.
Lemma frames_size_len l : 8 * len l <= frames_size l.
Proof. induction l as [|v l IH]; [done|]. rewrite len_cons, frames_size_cons. lia. Qed.

(** Length prefixes make the stream of parts readable back. *)
Lemma frames_inj l k :
  frames_size l <= u64_max -> frames_size k <= u64_max -> frames l = frames k -> l = k.
Proof.
  revert k; induction l as [|v l IH]; intros k Hl Hk Heq.
  { destruct k as [|w k]; [done|]. apply (f_equal blen) in Heq.
    rewrite !frames_size_blen in Heq. cbn in Heq. lia. }
  destruct k as [|w k].
  { apply (f_equal blen) in Heq. rewrite !frames_size_blen in Heq. cbn in Heq. lia. }
  rewrite frames_size_cons in Hl, Hk.
  rewrite !frames_cons in Heq. unfold frame in Heq. rewrite !append_assoc in Heq.
  apply append_inj_length in Heq as [Hlen Heq]; [|by rewrite !to_be_bytes_length].
  apply to_be_bytes_inj in Hlen; [|lia..].
  apply append_inj_length in Heq as [-> Heq]; [|by apply Nat2N.inj].
  f_equal. apply IH; [lia..|done].
Qed.

Lemma write_Ok d v d' :
  write d v = Ok d' <->
  digest_bytes d + 8 + blen v <= N.min (max_bytes d) usize_max /\
  d' = {| digest := (digest d ++ frame v)%string; digest_bytes := digest_bytes d + 8 + blen v;
          max_bytes := max_bytes d |}.
Proof.
  unfold write, checked_add, frame. rewrite bind_Ok. setoid_rewrite ok_or_Ok.
  rewrite append_assoc. destruct (N.leb_spec (digest_bytes d + 8) usize_max) as [H|H]; cbn.
  - destruct (N.leb_spec (digest_bytes d + 8 + blen v) usize_max) as [H'|H']; cbn.
    + split.
      * intros (next & [= <-] & Hd). rewrite if_Err_Ok, N.ltb_ge in Hd. destruct Hd as [? [= <-]].
        split; [lia|done].
      * intros [Hmax ->]. eexists. split; [done|]. rewrite if_Err_Ok, N.ltb_ge. split; [lia|done].
    + split; [by intros (? & ? & _)|lia].
  - split; [by intros (? & ? & _)|lia].
Qed.

Lemma write_all_Ok d parts d' :
  digest_bytes d <= N.min (max_bytes d) usize_max ->
  for_each write d parts = Ok d' <->
  digest_bytes d + frames_size parts <= N.min (max_bytes d) usize_max /\
  d' = {| digest := (digest d ++ frames parts)%string;
          digest_bytes := digest_bytes d + frames_size parts; max_bytes := max_bytes d |}.
Proof.
  revert d; induction parts as [|v parts IH]; intros d Hd; cbn [for_each].
  - cbn. rewrite append_nil_r, N.add_0_r, Ok_inj_iff. destruct d. cbn in *. naive_solver.
  - rewrite bind_Ok. setoid_rewrite write_Ok. rewrite frames_cons, frames_size_cons. split.
    + intros (d1 & (Hb & ->) & Hrest). apply IH in Hrest as (Hb' & ->); [|done]. cbn in *.
      split; [lia|]. rewrite append_assoc. f_equal. lia.
    + intros (Hb & ->). eexists. split; [split; [lia|reflexivity]|]. apply IH; cbn; [lia|].
      split; [lia|]. rewrite append_assoc. f_equal. lia.
Qed.

Definition digest_of (tag : string) (parts : list string) (max : N) : outcome IdentityDigest :=
  d ← IdentityDigest_new tag max; for_each write d parts.
Definition digest_fits (tag : string) (parts : list string) (max : N) : Prop :=
  0 < max /\ frames_size (tag :: parts) <= N.min max usize_max.

Lemma digest_fits_size tag parts max : digest_fits tag parts max -> frames_size (tag :: parts) <= u64_max.
Proof. intros [_ H]. etrans; [exact H|apply N.le_min_r]. Qed.

Lemma digest_of_Ok tag parts max d :
  digest_of tag parts max = Ok d <->
  digest_fits tag parts max /\
  d = {| digest := frames (tag :: parts); digest_bytes := frames_size (tag :: parts); max_bytes := max |}.
Proof.
  unfold digest_of, IdentityDigest_new, digest_fits, field. destruct (N.eqb_spec max 0) as [->|Hmax].
  - cbn. split; [done|lia].
  - change (d0 ← write {| digest := ""; digest_bytes := 0; max_bytes := max |} tag;
      for_each write d0 parts) with
      (for_each write {| digest := ""; digest_bytes := 0; max_bytes := max |} (tag :: parts)).
    rewrite write_all_Ok by (cbn; lia). cbn [digest digest_bytes max_bytes]. rewrite N.add_0_l, append_nil_l.
    split; intros (? & ->); repeat split; tauto || lia.
Qed.

(** The digest of a tag and parts is built exactly when its accounted
    bytes are within the bound (and 64 bits); the account is the length of what
    was hashed; and the stream determines the tag and every part. *)
Theorem identity_digest_framing (tag tag' : string) (parts parts' : list string) (max max' : N)
    (d d' : IdentityDigest) (H : digest_of tag parts max = Ok d)
    (H' : digest_of tag' parts' max' = Ok d') :
  digest_bytes d = blen (digest d) /\ digest_bytes d <= max /\
  (digest d = digest d' <-> tag = tag' /\ parts = parts').
Proof.
  apply digest_of_Ok in H as [[_ H] ->], H' as [[_ H'] ->]. cbn [digest digest_bytes].
  rewrite frames_size_blen. split; [done|]. split; [lia|]. split; [|by intros [-> ->]].
  unfold usize_max in *. intros [= -> ->]%frames_inj; [done|lia..].
Qed.

Lemma identity_digest_framing_witness :
  exists d d', digest_of "t" ["ab"; "c"] 64 = Ok d /\ digest_of "t" ["a"; "bc"] 64 = Ok d' /\
    digest d <> digest d'.
Proof.
  destruct (digest_of "t" ["ab"; "c"] 64) as [d| |] eqn:E; [|discriminate E|discriminate E].
  destruct (digest_of "t" ["a"; "bc"] 64) as [d'| |] eqn:E'; [|discriminate E'|discriminate E'].
  exists d, d'. split_and!; [done..|]. intros Heq.
  apply (identity_digest_framing "t" "t" _ _ 64 64 d d' E E') in Heq as [_ [=]].
Defined.

(** Loops that write a list of parts per element. *)
Lemma write_flat {A} (parts : A -> list string) d l :
  for_each (fun d x => for_each write d (parts x)) d l = for_each write d (flat_map parts l).
Proof.
  revert d; induction l as [|x l IH]; intros d; cbn [for_each flat_map]; [done|].
  rewrite for_each_app. by destruct (for_each write d (parts x)); cbn; [apply IH|..].
Qed.

(** A list of self-delimiting encodings is read back. *)
Lemma flat_map_inj {A B} (parts : A -> list B) l k :
  (forall x y r1 r2, x ∈ l -> y ∈ k -> parts x ++ r1 = parts y ++ r2 -> x = y /\ r1 = r2) ->
  (forall x, parts x <> []) -> flat_map parts l = flat_map parts k -> l = k.
Proof.
  intros Hx Hne. revert k Hx; induction l as [|x l IH]; intros [|y k] Hx; cbn; [done|..].
  - intros [H _]%eq_sym%app_eq_nil. by apply Hne in H.
  - intros [H _]%app_eq_nil. by apply Hne in H.
  - intros H. apply Hx in H as [-> H]; [|left..]. f_equal. apply IH; [|done].
    intros x' y' r1 r2 ? ?. apply Hx; by right.
Qed.

(** * The parts of each identity *)

Definition key_parts (k : semantic_key) : list string := [fst k; snd k].
Definition span_parts (s : NormalizedSpan) : list string :=
  [n_path_identity s; n_content_hash s; to_be_bytes (n_start_byte s); to_be_bytes (n_end_byte s)].
Definition evidence_parts (f : NormalizedEvidenceFact) : list string :=
  [n_kind f; n_semantic_expression f; n_parser_identity f; to_be_bytes (len (n_spans f))]
  ++ flat_map span_parts (n_spans f).

Definition stable_parts (repo : string) (kind : ArchaeologyRuleKind) (anchor : semantic_key)
    (supporting : list semantic_key) : list string :=
  [repo; rule_kind_name kind; fst anchor; snd anchor; to_be_bytes (len supporting)]
  ++ flat_map key_parts supporting.
Definition evidence_identity_parts (repo : string) (facts : list NormalizedEvidenceFact) : list string :=
  [repo; to_be_bytes (len facts)] ++ flat_map evidence_parts facts.
Definition contradiction_parts (repo : string) (facts : list semantic_key) : list string :=
  [repo; (if is_nil facts then "empty-set:v1" else "facts:v1"); to_be_bytes (len facts)]
  ++ flat_map key_parts facts.
Definition description_parts (repo source title : string) (clauses : list string) : list string :=
  [repo; source; title; to_be_bytes (len clauses)] ++ clauses.
Definition continuity_parts (repo stable : string) : list string := [repo; stable].

Lemma write_keys d l : for_each write_key d l = for_each write d (flat_map key_parts l).
Proof. apply (write_flat key_parts). Qed.
Lemma write_evidence_facts d l :
  for_each write_evidence_fact d l = for_each write d (flat_map evidence_parts l).
Proof.
  rewrite <- write_flat. revert d; induction l as [|f l IH]; intros d; cbn [for_each]; [done|].
  assert (write_evidence_fact d f = for_each write d (evidence_parts f)) as ->.
  { unfold write_evidence_fact, evidence_parts, field, count, number. rewrite for_each_app.
    cbn [for_each]. destruct (write d (n_kind f)) as [d1| |]; cbn; [|done..].
    destruct (write d1 _) as [d2| |]; cbn; [|done..]. destruct (write d2 _) as [d3| |]; cbn; [|done..].
    destruct (write d3 _) as [d4| |]; cbn; [|done..]. apply (write_flat span_parts). }
  by destruct (for_each write d (evidence_parts f)); cbn; [apply IH|..].
Qed.

Lemma key_parts_inj l k : flat_map key_parts l = flat_map key_parts k -> l = k.
Proof. apply flat_map_inj; [|done]. intros [] [] r1 r2 _ _ [=]. by subst. Qed.

(** Rust's [u64] offsets. *)
Definition span_u64 (s : NormalizedSpan) : Prop := n_start_byte s <= u64_max /\ n_end_byte s <= u64_max.

Lemma span_parts_inj l k :
  Forall span_u64 l -> Forall span_u64 k -> flat_map span_parts l = flat_map span_parts k -> l = k.
Proof.
  intros Hl Hk. apply flat_map_inj; [|done]. rewrite Forall_forall in Hl, Hk.
  intros [p h s e] [p' h' s' e'] r1 r2 [Hs He]%Hl [Hs' He']%Hk H. cbn in Hs, He, Hs', He'.
  apply cons_eq_inj in H as [Hp [Hh [Hss [Hee ->]%cons_eq_inj]%cons_eq_inj]%cons_eq_inj].
  cbn in *. apply to_be_bytes_inj in Hss, Hee; [|done..]. by subst.
Qed.

Lemma flat_map_fixed_length {A B} (parts : A -> list B) n l :
  (forall x, length (parts x) = n) -> length (flat_map parts l) = (n * length l)%nat.
Proof. intros Hn. induction l as [|x l IH]; cbn; [lia|]. rewrite length_app, Hn, IH. lia. Qed.

Definition evidence_u64 (f : NormalizedEvidenceFact) : Prop :=
  Forall span_u64 (n_spans f) /\ len (n_spans f) <= u64_max.

Lemma evidence_parts_inj l k :
  Forall evidence_u64 l -> Forall evidence_u64 k ->
  flat_map evidence_parts l = flat_map evidence_parts k -> l = k.
Proof.
  intros Hl Hk. apply flat_map_inj; [|by intros []]. rewrite Forall_forall in Hl, Hk.
  intros [n x p s] [n' x' p' s'] r1 r2 [Hs Hn]%Hl [Hs' Hn']%Hk. intros H. cbn in Hs, Hn, Hs', Hn'.
  apply cons_eq_inj in H as [Hk1 [Hx1 [Hp1 [Hlen H]%cons_eq_inj]%cons_eq_inj]%cons_eq_inj].
  cbn in *. subst. apply to_be_bytes_inj in Hlen; [|done..].
  apply app_inj_1 in H as [H ->].
  - by apply span_parts_inj in H as ->.
  - rewrite !(flat_map_fixed_length span_parts 4) by done. unfold len in Hlen. lia.
Qed.

(** * Normalisation *)

Definition semantic_valid (f : ArchaeologyIdentityFact) : bool :=
  starts_with "v1:sha256:" (semantic_expression f)
  && lower_hex (str_drop 10 (semantic_expression f)) 64.
Lemma validate_semantic_fact_if f :
  validate_semantic_fact f =
    if semantic_valid f then Ok tt else Err "Archaeology semantic expression identity is invalid".
Proof.
  unfold validate_semantic_fact, semantic_valid. rewrite <- negb_andb. by destruct (_ && _).
Qed.

Definition semantic_set (facts : list ArchaeologyIdentityFact) : list semantic_key :=
  set_of_list (map semantic_fact_key facts).

Lemma normalized_semantic_facts_if facts :
  normalized_semantic_facts facts =
    if forallb semantic_valid facts then Ok (semantic_set facts)
    else Err "Archaeology semantic expression identity is invalid".
Proof.
  unfold normalized_semantic_facts, semantic_set, set_of_list.
  generalize (@nil semantic_key) as s. induction facts as [|f facts IH]; intros s; [done|].
  cbn [for_each forallb map foldl]. rewrite validate_semantic_fact_if.
  destruct (semantic_valid f); [cbn; apply IH|done].
Qed.
Lemma normalized_semantic_facts_Ok facts s :
  normalized_semantic_facts facts = Ok s <-> forallb semantic_valid facts = true /\ s = semantic_set facts.
Proof. rewrite normalized_semantic_facts_if. destruct (forallb _ _); naive_solver. Qed.

(** [semantic_valid] looks at the key only. *)
Lemma semantic_valid_key f g : semantic_fact_key f = semantic_fact_key g -> semantic_valid f = semantic_valid g.
Proof. unfold semantic_fact_key, semantic_valid. by intros [= _ ->]. Qed.
Definition same_keys (l k : list ArchaeologyIdentityFact) : Prop :=
  forall key, key ∈ map semantic_fact_key l <-> key ∈ map semantic_fact_key k.

Lemma same_keys_valid l k : same_keys l k -> forallb semantic_valid l = forallb semantic_valid k.
Proof.
  assert (forall l k, same_keys l k -> forallb semantic_valid l = true -> forallb semantic_valid k = true)
    as H.
  { clear l k. intros l k Hlk Hl. rewrite forallb_forall in *. intros g Hg.
    rewrite <- list_elem_of_In in Hg.
    assert (semantic_fact_key g ∈ map semantic_fact_key l) as (f & Hfg & Hf)%list_elem_of_fmap.
    { apply Hlk, list_elem_of_fmap. eauto. }
    rewrite (semantic_valid_key _ _ Hfg). by apply Hl, list_elem_of_In. }
  intros Hlk. destruct (forallb semantic_valid l) eqn:E.
  - symmetry. by apply (H l).
  - destruct (forallb semantic_valid k) eqn:E'; [|done]. rewrite (H k l) in E; [done| |done].
    intros key. symmetry. apply Hlk.
Qed.
Lemma same_keys_nil l k : same_keys l k -> is_nil l = is_nil k.
Proof.
  intros Hlk. destruct l as [|f l], k as [|g k]; try done.
  - assert (semantic_fact_key g ∈ map semantic_fact_key []) as H by (apply Hlk; left).
    by apply elem_of_nil in H.
  - assert (semantic_fact_key f ∈ map semantic_fact_key []) as H by (apply Hlk; left).
    by apply elem_of_nil in H.
Qed.
Lemma same_keys_set l k : same_keys l k <-> semantic_set l = semantic_set k.
Proof.
  unfold same_keys, semantic_set. split; [apply set_of_list_ext|].
  intros H key. by rewrite <- (elem_of_set_of_list key (map _ l)), H, elem_of_set_of_list.
Qed.

Lemma fact_kind_name_inj k1 k2 : fact_kind_name k1 = fact_kind_name k2 -> k1 = k2.
Proof. by destruct k1, k2. Qed.
Lemma rule_kind_name_inj k1 k2 : rule_kind_name k1 = rule_kind_name k2 -> k1 = k2.
Proof. by destruct k1, k2. Qed.

(** * The identities as hashes of parts *)

(** One write after another is a loop of writes. *)
Ltac through_writes :=
  unfold field, count, number; cbn [app for_each mbind outcome_bind];
  repeat match goal with
  | |- context [write ?d ?v] => destruct (write d v) as [?| |]; cbn [mbind outcome_bind]; [|done..]
  end.

Section Spec.
Context (sha256 : string -> string).

Definition rendered (tag : string) (parts : list string) : string :=
  "sha256:" ++ hex (sha256 (frames (tag :: parts))).

(** Two inputs of the hash on which it collides. *)
Definition collision (s t : string) : Prop := s <> t /\ sha256 s = sha256 t.

Lemma digest_finish_Ok tag parts max id :
  (d ← digest_of tag parts max; Ok (finish sha256 d)) = Ok id <->
  digest_fits tag parts max /\ id = rendered tag parts.
Proof.
  rewrite bind_Ok. setoid_rewrite digest_of_Ok. unfold finish, rendered. split.
  - intros (d & (Hfits & ->) & [= <-]). done.
  - intros (Hfits & ->). by eexists.
Qed.

Lemma rendered_inj tag parts tag' parts' max max' :
  digest_fits tag parts max -> digest_fits tag' parts' max' ->
  rendered tag parts = rendered tag' parts' <->
  (tag = tag' /\ parts = parts') \/ collision (frames (tag :: parts)) (frames (tag' :: parts')).
Proof.
  intros Hf%digest_fits_size Hf'%digest_fits_size. unfold rendered, collision. split.
  - intros H%append_inj_l%hex_inj.
    destruct (decide (frames (tag :: parts) = frames (tag' :: parts'))) as [Heq|]; [left|by right].
    apply (frames_inj _ _ Hf Hf') in Heq. by apply cons_eq_inj.
  - intros [[-> ->]|[_ ->]]; done.
Qed.

Lemma digest_of_bind {A} tag parts max (k : IdentityDigest -> outcome A) :
  (d ← digest_of tag parts max; k d) =
  (d ← IdentityDigest_new tag max; d ← for_each write d parts; k d).
Proof. unfold digest_of. by destruct (IdentityDigest_new tag max). Qed.

Lemma stable_rule_identity_if repo kind anchor facts limits :
  stable_rule_identity sha256 repo kind anchor facts limits =
  (_ ← validate_repository repo;
   _ ← validate_fact_count facts limits false;
   _ ← validate_semantic_fact anchor;
   s ← normalized_semantic_facts facts;
   if negb (set_contains (semantic_fact_key anchor) s)
   then Err "Archaeology stable identity anchor is not supporting evidence" else
   d ← digest_of STABLE_RULE_TAG (stable_parts repo kind (semantic_fact_key anchor) s)
         (max_identity_bytes limits);
   Ok (finish sha256 d)).
Proof.
  unfold stable_rule_identity, stable_parts.
  destruct (validate_repository repo); [cbn|done..]. destruct (validate_fact_count _ _ _); [cbn|done..].
  destruct (validate_semantic_fact anchor); [cbn|done..].
  destruct (normalized_semantic_facts facts) as [s| |]; [cbn|done..].
  destruct (negb _); [done|]. rewrite digest_of_bind.
  destruct (IdentityDigest_new _ _) as [d| |]; [|done..]. by through_writes; rewrite write_keys.
Qed.

Lemma stable_rule_identity_Ok repo kind anchor facts limits id :
  stable_rule_identity sha256 repo kind anchor facts limits = Ok id ->
  validate_repository repo = Ok tt /\ semantic_fact_key anchor ∈ semantic_set facts /\
  let parts := stable_parts repo kind (semantic_fact_key anchor) (semantic_set facts) in
  digest_fits STABLE_RULE_TAG parts (max_identity_bytes limits) /\ id = rendered STABLE_RULE_TAG parts.
Proof.
  rewrite stable_rule_identity_if, !then_Ok, bind_Ok.
  intros (Hr & _ & _ & s & [_ ->]%normalized_semantic_facts_Ok & H).
  rewrite if_Err_Ok, negb_false_iff, set_contains_true in H. destruct H as (Ha & H%digest_finish_Ok).
  done.
Qed.
End Spec.

Lemma stable_parts_inj r1 k1 a1 s1 r2 k2 a2 s2 :
  stable_parts r1 k1 a1 s1 = stable_parts r2 k2 a2 s2 <-> r1 = r2 /\ k1 = k2 /\ a1 = a2 /\ s1 = s2.
Proof.
  split; [|by intros (-> & -> & -> & ->)]. unfold stable_parts. intros H. cbn [app] in H.
  apply cons_eq_inj in H as [-> [Hk [Ha1 [Ha2 [_ Hs%key_parts_inj]%cons_eq_inj]%cons_eq_inj]%cons_eq_inj]%cons_eq_inj].
  apply rule_kind_name_inj in Hk. destruct a1, a2. cbn in *. by subst.
Qed.

(** A stable rule identity is a function of the rule's semantics. Facts
    with the same semantic keys, in any order, with repetitions, whatever their
    parsers and source spans, give the same result, error or identity. *)
Theorem stable_rule_identity_semantic (sha256 : string -> string) (repo : string)
    (kind : ArchaeologyRuleKind) (anchor1 anchor2 : ArchaeologyIdentityFact)
    (facts1 facts2 : list ArchaeologyIdentityFact) (limits : ArchaeologyIdentityLimits)
    (Hanchor : semantic_fact_key anchor1 = semantic_fact_key anchor2)
    (Hfacts : same_keys facts1 facts2)
    (H1 : len facts1 <= max_facts limits) (H2 : len facts2 <= max_facts limits) :
  stable_rule_identity sha256 repo kind anchor1 facts1 limits =
  stable_rule_identity sha256 repo kind anchor2 facts2 limits.
Proof.
  rewrite !stable_rule_identity_if, !normalized_semantic_facts_if, !validate_semantic_fact_if.
  unfold validate_fact_count. apply N.ltb_ge in H1 as ->, H2 as ->.
  rewrite (same_keys_nil _ _ Hfacts), (same_keys_valid _ _ Hfacts), (semantic_valid_key _ _ Hanchor).
  by rewrite (proj1 (same_keys_set _ _) Hfacts), Hanchor.
Qed.

Lemma stable_rule_identity_semantic_witness :
  let moved := ex_fact FactPredicate "1" "other-parser" 99 in
  is_Ok (stable_rule_identity ex_sha "repo" RuleEligibility ex_anchor [ex_anchor; ex_other]
           default_identity_limits) /\
  stable_rule_identity ex_sha "repo" RuleEligibility ex_anchor [ex_anchor; ex_other]
    default_identity_limits =
  stable_rule_identity ex_sha "repo" RuleEligibility moved [ex_other; moved; moved]
    default_identity_limits.
Proof.
  intros moved. split; [eexists; vm_compute; reflexivity|].
  apply (stable_rule_identity_semantic ex_sha "repo" RuleEligibility ex_anchor moved);
    [reflexivity| |done|done].
  intros key. cbn [map]. change (semantic_fact_key moved) with (semantic_fact_key ex_anchor).
  rewrite !elem_of_cons, !elem_of_nil. tauto.
Defined.

(** C40: two stable rule identities are equal exactly when repository,
    rule kind, anchor key and set of supporting keys are, unless the hash
    collides on the two streams that were fed to it. *)
Theorem stable_rule_identity_distinguishes (sha256 : string -> string)
    (repo1 repo2 : string) (kind1 kind2 : ArchaeologyRuleKind)
    (anchor1 anchor2 : ArchaeologyIdentityFact) (facts1 facts2 : list ArchaeologyIdentityFact)
    (limits1 limits2 : ArchaeologyIdentityLimits) (id1 id2 : string)
    (H1 : stable_rule_identity sha256 repo1 kind1 anchor1 facts1 limits1 = Ok id1)
    (H2 : stable_rule_identity sha256 repo2 kind2 anchor2 facts2 limits2 = Ok id2) :
  let stream repo kind anchor facts :=
    frames (STABLE_RULE_TAG :: stable_parts repo kind (semantic_fact_key anchor) (semantic_set facts)) in
  id1 = id2 <->
  (repo1 = repo2 /\ kind1 = kind2 /\ semantic_fact_key anchor1 = semantic_fact_key anchor2 /\
   same_keys facts1 facts2) \/
  collision sha256 (stream repo1 kind1 anchor1 facts1) (stream repo2 kind2 anchor2 facts2).
Proof.
  intros stream. apply stable_rule_identity_Ok in H1 as (_ & _ & Hf1 & ->), H2 as (_ & _ & Hf2 & ->).
  rewrite (rendered_inj _ _ _ _ _ _ _ Hf1 Hf2), stable_parts_inj, same_keys_set. tauto.
Qed.

Lemma stable_rule_identity_distinguishes_witness :
  exists id1 id2,
    stable_rule_identity id "repo" RuleEligibility ex_anchor [ex_anchor] default_identity_limits = Ok id1 /\
    stable_rule_identity id "repo" RuleEligibility ex_anchor [ex_anchor; ex_other] default_identity_limits
      = Ok id2 /\ id1 <> id2.
Proof.
  destruct (stable_rule_identity id "repo" RuleEligibility ex_anchor [ex_anchor]
    default_identity_limits) as [id1| |] eqn:E1; [|discriminate E1|discriminate E1].
  destruct (stable_rule_identity id "repo" RuleEligibility ex_anchor [ex_anchor; ex_other]
    default_identity_limits) as [id2| |] eqn:E2; [|discriminate E2|discriminate E2].
  exists id1, id2. split_and!; [done..|]. intros Heq.
  apply (stable_rule_identity_distinguishes id _ _ _ _ _ _ _ _ _ _ _ _ E1 E2) in Heq
    as [(_ & _ & _ & Hs)|[Hne Heq]]; [|by apply Hne].
  assert (semantic_fact_key ex_other ∈ map semantic_fact_key [ex_anchor]) as Hin
    by (apply Hs; right; left).
  apply list_elem_of_singleton in Hin. discriminate Hin.
Defined.

(** * Evidence: exact facts *)

(** The normal form of a fact, its spans as a set. *)
Definition normalized_fact (f : ArchaeologyIdentityFact) : NormalizedEvidenceFact := {|
  n_kind := fact_kind_name (kind f);
  n_semantic_expression := semantic_expression f;
  n_parser_identity := parser_identity f;
  n_spans := set_of_list (map normalized_span (spans f)) |}.

Definition span_ok (s : ArchaeologyIdentitySpan) : Prop :=
  validate_component (path_identity s) "path identity" = Ok tt /\
  lower_hex (content_hash s) 64 = true /\ start_byte s <= end_byte s.
Definition fact_ok (limits : ArchaeologyIdentityLimits) (f : ArchaeologyIdentityFact) : Prop :=
  semantic_valid f = true /\ validate_component (parser_identity f) "parser identity" = Ok tt /\
  spans f <> [] /\ len (spans f) <= max_spans_per_fact limits /\
  Forall span_ok (spans f) /\ NoDup (map normalized_span (spans f)).

Lemma insert_new_Ok {A} `{RustOrd A} e s (x : A) s' :
  insert_new e s x = Ok s' <-> x ∉ s /\ s' = set_insert x s.
Proof. unfold insert_new. rewrite if_Err_Ok, set_contains_false. naive_solver. Qed.

Lemma add_spans_Ok l s :
  for_each add_span [] l = Ok s <->
  Forall span_ok l /\ NoDup (map normalized_span l) /\ s = set_of_list (map normalized_span l).
Proof.
  apply insert_loop_Ok. intros s0 x s'. unfold add_span, span_ok.
  rewrite then_Ok, !if_Err_Ok, insert_new_Ok, negb_false_iff, N.ltb_ge. tauto.
Qed.

Lemma normalized_evidence_facts_Ok limits l s :
  normalized_evidence_facts l limits = Ok s <->
  Forall (fact_ok limits) l /\ NoDup (map normalized_fact l) /\ s = set_of_list (map normalized_fact l).
Proof.
  apply insert_loop_Ok. intros s0 f s'. unfold add_evidence_fact, fact_ok.
  rewrite validate_semantic_fact_if, then_Ok, then_Ok, if_Err_Ok, bind_Ok, orb_false_iff,
    is_nil_false, N.ltb_ge.
  setoid_rewrite add_spans_Ok. setoid_rewrite insert_new_Ok. unfold normalized_fact.
  destruct (semantic_valid f); naive_solver.
Qed.

Section EvidenceSpec.
Context (sha256 : string -> string).

Lemma evidence_identity_if repo facts limits :
  evidence_identity sha256 repo facts limits =
  (_ ← validate_repository repo;
   _ ← validate_fact_count facts limits false;
   s ← normalized_evidence_facts facts limits;
   d ← digest_of EVIDENCE_TAG (evidence_identity_parts repo s) (max_identity_bytes limits);
   Ok (finish sha256 d)).
Proof.
  unfold evidence_identity, evidence_identity_parts.
  destruct (validate_repository repo); [cbn|done..]. destruct (validate_fact_count _ _ _); [cbn|done..].
  destruct (normalized_evidence_facts _ _) as [s| |]; [cbn|done..]. rewrite digest_of_bind.
  destruct (IdentityDigest_new _ _) as [d| |]; [|done..]. by through_writes; rewrite write_evidence_facts.
Qed.

Definition evidence_set (facts : list ArchaeologyIdentityFact) : list NormalizedEvidenceFact :=
  set_of_list (map normalized_fact facts).

Lemma evidence_identity_Ok repo facts limits id :
  evidence_identity sha256 repo facts limits = Ok id <->
  validate_repository repo = Ok tt /\ validate_fact_count facts limits false = Ok tt /\
  (Forall (fact_ok limits) facts /\ NoDup (map normalized_fact facts)) /\
  let parts := evidence_identity_parts repo (evidence_set facts) in
  digest_fits EVIDENCE_TAG parts (max_identity_bytes limits) /\
  id = rendered sha256 EVIDENCE_TAG parts.
Proof.
  rewrite evidence_identity_if, !then_Ok, bind_Ok. setoid_rewrite normalized_evidence_facts_Ok.
  setoid_rewrite digest_finish_Ok. cbv zeta. naive_solver.
Qed.
End EvidenceSpec.

(** The same fact, its spans listed in another order. *)
Definition same_fact (f g : ArchaeologyIdentityFact) : Prop :=
  kind f = kind g /\ semantic_expression f = semantic_expression g /\
  parser_identity f = parser_identity g /\ spans f ≡ₚ spans g.

Lemma same_fact_normalized f g : same_fact f g -> normalized_fact f = normalized_fact g.
Proof.
  intros (Hk & Hs & Hp & Hsp). unfold normalized_fact. rewrite Hk, Hs, Hp.
  f_equal. apply set_of_list_perm. by rewrite Hsp.
Qed.
Lemma same_fact_ok limits f g : same_fact f g -> fact_ok limits f <-> fact_ok limits g.
Proof.
  intros (Hk & Hs & Hp & Hsp). unfold fact_ok, semantic_valid. rewrite Hs, Hp.
  assert (len (spans f) = len (spans g)) as -> by (unfold len; by rewrite Hsp).
  assert (spans f = [] <-> spans g = []) as Hnil.
  { split; intros H; rewrite H in Hsp; [by apply Permutation_nil_l in Hsp|by apply Permutation_nil_r in Hsp]. }
  by rewrite Hnil, Hsp.
Qed.

Lemma normalized_fact_perm facts1 facts' facts2 limits :
  facts1 ≡ₚ facts' -> Forall2 same_fact facts' facts2 ->
  map normalized_fact facts1 ≡ₚ map normalized_fact facts2 /\
  (Forall (fact_ok limits) facts1 <-> Forall (fact_ok limits) facts2).
Proof.
  intros -> H. induction H as [|f g l k Hfg _ [IH1 IH2]]; [done|]. cbn.
  rewrite !Forall_cons, IH1, IH2, (same_fact_normalized _ _ Hfg), (same_fact_ok _ _ _ Hfg). done.
Qed.

(** The evidence identity does not depend on the order of the
    facts nor on the order of the spans inside each fact. *)
Theorem evidence_identity_order_independent (sha256 : string -> string) (repo : string)
    (facts1 facts' facts2 : list ArchaeologyIdentityFact) (limits : ArchaeologyIdentityLimits)
    (Hperm : facts1 ≡ₚ facts') (Hsame : Forall2 same_fact facts' facts2) (id : string) :
  evidence_identity sha256 repo facts1 limits = Ok id <->
  evidence_identity sha256 repo facts2 limits = Ok id.
Proof.
  destruct (normalized_fact_perm _ _ _ limits Hperm Hsame) as [Hn Hok].
  assert (length facts1 = length facts2) as Hlen by (by rewrite Hperm, Hsame).
  rewrite !evidence_identity_Ok. unfold evidence_set. rewrite Hok, (set_of_list_perm _ _ Hn), Hn.
  unfold validate_fact_count, len. rewrite Hlen.
  assert (is_nil facts1 = is_nil facts2) as -> by (by destruct facts1, facts2). done.
Qed.

Definition swap_spans (f : ArchaeologyIdentityFact) : ArchaeologyIdentityFact := {|
  kind := kind f; semantic_expression := semantic_expression f;
  parser_identity := parser_identity f; spans := reverse (spans f) |}.
Lemma evidence_identity_order_independent_witness :
  is_Ok (evidence_identity ex_sha "repo" [ex_anchor; ex_other] default_identity_limits) /\
  forall id,
    evidence_identity ex_sha "repo" [ex_anchor; ex_other] default_identity_limits = Ok id <->
    evidence_identity ex_sha "repo" [swap_spans ex_other; swap_spans ex_anchor] default_identity_limits = Ok id.
Proof.
  split; [eexists; vm_compute; reflexivity|]. intros id.
  apply (evidence_identity_order_independent ex_sha "repo" _ [ex_other; ex_anchor]); [constructor|].
  repeat constructor; symmetry; apply reverse_Permutation.
Defined.

(** The offsets of a fact are [u64]s. *)
Definition fact_u64 (f : ArchaeologyIdentityFact) : Prop :=
  Forall (fun s => start_byte s <= u64_max /\ end_byte s <= u64_max) (spans f).

Lemma frames_size_flat {A} (parts : A -> list string) x l :
  x ∈ l -> frames_size (parts x) <= frames_size (flat_map parts l).
Proof.
  induction 1 as [x l|x y l _ IH]; cbn [flat_map]; rewrite frames_size_app; lia.
Qed.
Lemma evidence_parts_len f : len (n_spans f) <= frames_size (evidence_parts f).
Proof.
  etrans; [|apply frames_size_len]. unfold evidence_parts, len.
  rewrite length_app, (flat_map_fixed_length span_parts 4) by done. cbn [length]. lia.
Qed.

Lemma evidence_set_u64 repo facts max :
  Forall fact_u64 facts -> digest_fits EVIDENCE_TAG (evidence_identity_parts repo (evidence_set facts)) max ->
  Forall evidence_u64 (evidence_set facts).
Proof.
  intros Hu Hsize%digest_fits_size. rewrite (Forall_forall fact_u64) in Hu.
  apply Forall_forall. intros n Hn. split.
  - apply elem_of_set_of_list, list_elem_of_fmap in Hn as (f & -> & Hf%Hu). cbn.
    rewrite Forall_forall. intros s Hs.
    apply elem_of_set_of_list, list_elem_of_fmap in Hs as (s' & -> & Hs').
    unfold fact_u64 in Hf. rewrite Forall_forall in Hf. by apply Hf.
  - etrans; [apply evidence_parts_len|]. etrans; [by apply (frames_size_flat evidence_parts)|].
    unfold evidence_identity_parts in Hsize. rewrite frames_size_cons, frames_size_app in Hsize. lia.
Qed.

(** Two evidence identities are equal exactly when the repository
    and the exact facts are, each with its parser and the set of its spans,
    unless the hash collides on the two streams that were fed to it. *)
Theorem evidence_identity_distinguishes (sha256 : string -> string) (repo1 repo2 : string)
    (facts1 facts2 : list ArchaeologyIdentityFact) (limits1 limits2 : ArchaeologyIdentityLimits)
    (id1 id2 : string) (Hu1 : Forall fact_u64 facts1) (Hu2 : Forall fact_u64 facts2)
    (H1 : evidence_identity sha256 repo1 facts1 limits1 = Ok id1)
    (H2 : evidence_identity sha256 repo2 facts2 limits2 = Ok id2) :
  let stream repo facts := frames (EVIDENCE_TAG :: evidence_identity_parts repo (evidence_set facts)) in
  id1 = id2 <->
  (repo1 = repo2 /\ map normalized_fact facts1 ≡ₚ map normalized_fact facts2) \/
  collision sha256 (stream repo1 facts1) (stream repo2 facts2).
Proof.
  intros stream. apply evidence_identity_Ok in H1 as (_ & _ & [_ Hn1] & Hf1 & ->).
  apply evidence_identity_Ok in H2 as (_ & _ & [_ Hn2] & Hf2 & ->).
  rewrite (rendered_inj _ _ _ _ _ _ _ Hf1 Hf2). apply or_iff_compat_r.
  pose proof (evidence_set_u64 _ _ _ Hu1 Hf1) as Hs1. pose proof (evidence_set_u64 _ _ _ Hu2 Hf2) as Hs2.
  split.
  - intros [_ H]. cbn [evidence_identity_parts app] in H.
    apply cons_eq_inj in H as [-> [_ H%evidence_parts_inj]%cons_eq_inj]; [|done..].
    split; [done|]. by apply set_of_list_NoDup_perm.
  - intros [-> H]. unfold evidence_set. by rewrite (set_of_list_perm _ _ H).
Qed.

Lemma evidence_identity_distinguishes_witness :
  exists id1 id2,
    evidence_identity id "repo" [ex_anchor] default_identity_limits = Ok id1 /\
    evidence_identity id "repo" [ex_fact FactPredicate "1" "cobol" 11] default_identity_limits = Ok id2 /\
    id1 <> id2.
Proof.
  assert (is_Ok (evidence_identity id "repo" [ex_anchor] default_identity_limits))
    as [id1 E1] by (eexists; vm_compute; reflexivity).
  assert (is_Ok (evidence_identity id "repo" [ex_fact FactPredicate "1" "cobol" 11] default_identity_limits))
    as [id2 E2] by (eexists; vm_compute; reflexivity).
  assert (forall n, n < 1000 -> Forall fact_u64 [ex_fact FactPredicate "1" "cobol" n]) as Hu.
  { intros n Hn. unfold fact_u64, u64_max. repeat constructor; cbn; lia. }
  exists id1, id2. split; [exact E1|]. split; [exact E2|]. intros Heq.
  apply (evidence_identity_distinguishes id _ _ _ _ _ _ _ _ (Hu 10 eq_refl) (Hu 11 eq_refl) E1 E2)
    in Heq as [[_ Hp]|[Hne Heq]]; [|by apply Hne].
  apply Permutation_singleton_r in Hp. vm_compute in Hp. discriminate Hp.
Defined.

(** * Contradictions, descriptions, and the whole set *)

Section OtherSpecs.
Context (sha256 : string -> string).

Lemma contradiction_identity_if repo facts limits :
  contradiction_identity sha256 repo facts limits =
  (_ ← validate_repository repo;
   _ ← validate_fact_count facts limits true;
   s ← normalized_semantic_facts facts;
   d ← digest_of CONTRADICTION_TAG (contradiction_parts repo s) (max_identity_bytes limits);
   Ok (finish sha256 d)).
Proof.
  unfold contradiction_identity, contradiction_parts.
  destruct (validate_repository repo); [cbn|done..]. destruct (validate_fact_count _ _ _); [cbn|done..].
  destruct (normalized_semantic_facts _) as [s| |]; [cbn|done..]. rewrite digest_of_bind.
  destruct (IdentityDigest_new _ _) as [d| |]; [|done..]. by through_writes; rewrite write_keys.
Qed.
Lemma contradiction_identity_Ok repo facts limits id :
  contradiction_identity sha256 repo facts limits = Ok id ->
  let parts := contradiction_parts repo (semantic_set facts) in
  digest_fits CONTRADICTION_TAG parts (max_identity_bytes limits) /\
  id = rendered sha256 CONTRADICTION_TAG parts.
Proof.
  rewrite contradiction_identity_if, !then_Ok, bind_Ok.
  by intros (_ & _ & s & [_ ->]%normalized_semantic_facts_Ok & ?%digest_finish_Ok).
Qed.

Lemma description_identity_if repo title clauses source limits :
  description_identity sha256 repo title clauses source limits =
  (_ ← validate_repository repo;
   if is_nil clauses || (max_clauses limits <? len clauses)
   then Err "Archaeology description clause bound is invalid" else
   _ ← validate_component source "description source identity";
   title ← canonical_text title (max_text_bytes limits);
   clauses ← collect (fun clause => canonical_text clause (max_text_bytes limits)) clauses;
   d ← digest_of DESCRIPTION_TAG (description_parts repo source title (sort clauses))
         (max_identity_bytes limits);
   Ok (finish sha256 d)).
Proof.
  unfold description_identity, description_parts.
  destruct (validate_repository repo); [cbn|done..]. destruct (_ || _); [done|].
  destruct (validate_component _ _); [cbn|done..]. destruct (canonical_text _ _); [cbn|done..].
  destruct (collect _ _) as [l| |]; [cbn|done..]. rewrite digest_of_bind.
  destruct (IdentityDigest_new _ _) as [d| |]; [|done..]. by through_writes.
Qed.

Lemma continuity_identity_if repo stable limits :
  continuity_identity sha256 repo stable limits =
  (_ ← validate_repository repo;
   _ ← validate_digest_identity stable;
   d ← digest_of CONTINUITY_TAG (continuity_parts repo stable) (max_identity_bytes limits);
   Ok (finish sha256 d)).
Proof.
  unfold continuity_identity, continuity_parts.
  destruct (validate_repository repo); [cbn|done..]. destruct (validate_digest_identity _); [cbn|done..].
  rewrite digest_of_bind. destruct (IdentityDigest_new _ _) as [d| |]; [|done..]. by through_writes.
Qed.
End OtherSpecs.

(** Two contradiction identities are equal exactly when the
    repository and the set of contradicting semantic keys are, unless the hash
    collides on the two streams; no contradictions is a set like any other. *)
Theorem contradiction_identity_distinguishes (sha256 : string -> string) (repo1 repo2 : string)
    (facts1 facts2 : list ArchaeologyIdentityFact) (limits1 limits2 : ArchaeologyIdentityLimits)
    (id1 id2 : string)
    (H1 : contradiction_identity sha256 repo1 facts1 limits1 = Ok id1)
    (H2 : contradiction_identity sha256 repo2 facts2 limits2 = Ok id2) :
  let stream repo facts := frames (CONTRADICTION_TAG :: contradiction_parts repo (semantic_set facts)) in
  id1 = id2 <->
  (repo1 = repo2 /\ same_keys facts1 facts2) \/
  collision sha256 (stream repo1 facts1) (stream repo2 facts2).
Proof.
  intros stream. apply contradiction_identity_Ok in H1 as (Hf1 & ->), H2 as (Hf2 & ->).
  rewrite (rendered_inj _ _ _ _ _ _ _ Hf1 Hf2), same_keys_set. apply or_iff_compat_r. split.
  - intros [_ H]. cbn [contradiction_parts app] in H.
    by apply cons_eq_inj in H as [-> [_ [_ ->%key_parts_inj]%cons_eq_inj]%cons_eq_inj].
  - by intros [-> ->].
Qed.

Lemma contradiction_identity_distinguishes_witness :
  exists id1 id2,
    contradiction_identity id "repo" [] default_identity_limits = Ok id1 /\
    contradiction_identity id "repo" [ex_other] default_identity_limits = Ok id2 /\ id1 <> id2.
Proof.
  assert (is_Ok (contradiction_identity id "repo" [] default_identity_limits))
    as [id1 E1] by (eexists; vm_compute; reflexivity).
  assert (is_Ok (contradiction_identity id "repo" [ex_other] default_identity_limits))
    as [id2 E2] by (eexists; vm_compute; reflexivity).
  exists id1, id2. split; [exact E1|]. split; [exact E2|]. intros Heq.
  apply (contradiction_identity_distinguishes id _ _ _ _ _ _ _ _ E1 E2) in Heq as [[_ Hs]|[Hne Heq]];
    [|by apply Hne].
  assert (semantic_fact_key ex_other ∈ map semantic_fact_key []) as Hin by (apply Hs; left).
  by apply elem_of_nil in Hin.
Defined.

Lemma canonical_text_cases v m :
  is_Ok (canonical_text v m) \/ canonical_text v m = Err "Archaeology description text is invalid".
Proof. unfold canonical_text. repeat case_match; auto using is_Ok_Ok. Qed.

(** The description identity does not depend on the order in which the
    clauses are listed: every result, errors included, is the same. *)
Theorem description_identity_order_independent (sha256 : string -> string)
    (repo title source : string) (clauses1 clauses2 : list string)
    (limits : ArchaeologyIdentityLimits) (Hperm : clauses1 ≡ₚ clauses2) :
  description_identity sha256 repo title clauses1 source limits =
  description_identity sha256 repo title clauses2 source limits.
Proof.
  rewrite !description_identity_if.
  assert (len clauses1 = len clauses2) as -> by (unfold len; by rewrite Hperm).
  assert (is_nil clauses1 = is_nil clauses2) as ->.
  { pose proof (Permutation_length Hperm). by destruct clauses1, clauses2. }
  destruct (validate_repository repo); [cbn|done..]. destruct (_ || _); [done|].
  destruct (validate_component _ _); [cbn|done..]. destruct (canonical_text title _); [cbn|done..].
  destruct (collect_perm (fun c => canonical_text c (max_text_bytes limits)) _ clauses1 clauses2
    (fun c => canonical_text_cases c _) Hperm) as [(k1 & k2 & -> & -> & Hk)|[-> ->]]; [|done].
  cbn. by rewrite (sort_perm_eq _ _ Hk).
Qed.

Lemma description_identity_order_independent_witness :
  is_Ok (description_identity ex_sha "repo" "Orders" ["a rule"; "b rule"] "template" default_identity_limits) /\
  description_identity ex_sha "repo" "Orders" ["a rule"; "b rule"] "template" default_identity_limits =
  description_identity ex_sha "repo" "Orders" ["b rule"; "a rule"] "template" default_identity_limits.
Proof.
  split; [eexists; vm_compute; reflexivity|].
  apply description_identity_order_independent. constructor.
Defined.

Definition identity_tags : list string :=
  [STABLE_RULE_TAG; EVIDENCE_TAG; CONTRADICTION_TAG; DESCRIPTION_TAG; CONTINUITY_TAG].
Definition identity_list (ids : ArchaeologyRuleIdentities) : list string :=
  [ids_stable_rule_identity ids; ids_evidence_identity ids; ids_contradiction_identity ids;
   ids_description_identity ids; ids_continuity_identity ids].

Lemma description_identity_parts sha256 repo title clauses source limits id :
  description_identity sha256 repo title clauses source limits = Ok id ->
  exists parts, digest_fits DESCRIPTION_TAG parts (max_identity_bytes limits) /\
    id = rendered sha256 DESCRIPTION_TAG parts.
Proof.
  rewrite description_identity_if, then_Ok, if_Err_Ok, then_Ok, bind_Ok.
  setoid_rewrite bind_Ok. intros (_ & _ & _ & t & _ & l & _ & H%digest_finish_Ok). eauto.
Qed.
Lemma continuity_identity_Ok sha256 repo stable limits id :
  continuity_identity sha256 repo stable limits = Ok id ->
  let parts := continuity_parts repo stable in
  digest_fits CONTINUITY_TAG parts (max_identity_bytes limits) /\
  id = rendered sha256 CONTINUITY_TAG parts.
Proof. rewrite continuity_identity_if, !then_Ok. by intros (_ & _ & H%digest_finish_Ok). Qed.

(** Streams under different tags differ. *)
Lemma frames_tags_differ t1 p1 t2 p2 m1 m2 :
  t1 <> t2 -> digest_fits t1 p1 m1 -> digest_fits t2 p2 m2 -> frames (t1 :: p1) <> frames (t2 :: p2).
Proof.
  intros Ht H1%digest_fits_size H2%digest_fits_size Heq. apply (frames_inj _ _ H1 H2) in Heq.
  by apply cons_eq_inj in Heq as [? _].
Qed.

Lemma tagged_streams_NoDup tags parts max :
  NoDup tags -> Forall2 (fun t p => digest_fits t p max) tags parts ->
  NoDup (zip_with (fun t p => frames (t :: p)) tags parts).
Proof.
  intros Hnd H. induction H as [|t p tags parts Htp Hrest IH]; cbn; [constructor|].
  apply NoDup_cons in Hnd as [Ht Hnd]. constructor; [|by apply IH].
  intros Hin. apply elem_of_lookup_zip_with in Hin as (i & t' & p' & Heq & Ht' & Hp').
  apply (Forall2_lookup_lr _ _ _ _ _ _ Hrest Ht') in Hp'.
  revert Heq. eapply frames_tags_differ; [|done|done]. intros ->.
  by apply Ht, (list_elem_of_lookup_2 _ i).
Qed.

(** When the identities of a rule are built, each is the rendered hash
    of a stream under its own domain tag, and the five streams differ, so that
    no identity of one domain can stand for one of another but by a collision of
    the hash; and the continuity identity hashes the stable one. *)
Theorem build_rule_identities_domains (sha256 : string -> string)
    (input : ArchaeologyRuleIdentityInput) (limits : ArchaeologyIdentityLimits)
    (ids : ArchaeologyRuleIdentities) (H : build_rule_identities sha256 input limits = Ok ids) :
  exists parts, length parts = 5%nat /\
    let streams := zip_with (fun tag p => frames (tag :: p)) identity_tags parts in
    NoDup streams /\
    identity_list ids = map (fun s => "sha256:" ++ hex (sha256 s))%string streams /\
    last parts = Some [input_repository_id input; ids_stable_rule_identity ids] /\
    ids_provenance ids = identity_provenance.
Proof.
  unfold build_rule_identities in H. repeat (apply bind_Ok in H as (? & ? & H)). injection H as <-.
  cbn [ids_stable_rule_identity ids_provenance identity_list].
  repeat match goal with
  | K : stable_rule_identity _ _ _ _ _ _ = Ok _ |- _ => apply stable_rule_identity_Ok in K as (_ & _ & ? & ->)
  | K : evidence_identity _ _ _ _ = Ok _ |- _ => apply evidence_identity_Ok in K as (_ & _ & _ & ? & ->)
  | K : contradiction_identity _ _ _ _ = Ok _ |- _ => apply contradiction_identity_Ok in K as (? & ->)
  | K : description_identity _ _ _ _ _ _ = Ok _ |- _ => apply description_identity_parts in K as (? & ? & ->)
  | K : continuity_identity _ _ _ _ = Ok _ |- _ => apply continuity_identity_Ok in K as (? & ->)
  end.
  eexists [_; _; _; _; _]. cbn [identity_list]. split; [done|]. cbv zeta.
  split; [|split; [|split]]; [|reflexivity..].
  apply (tagged_streams_NoDup _ _ (max_identity_bytes limits)).
  - apply (bool_decide_unpack _). reflexivity.
  - do 5 (constructor; [eassumption|]). constructor.
Qed.

Definition ex_input : ArchaeologyRuleIdentityInput := {|
  input_repository_id := "repo"; input_kind := RuleEligibility; input_anchor := ex_anchor;
  input_supporting_facts := [ex_anchor; ex_other]; input_contradicting_facts := [];
  input_title := "Orders"; input_clauses := ["an order is valid"];
  input_description_source_identity := "template" |}.
Lemma build_rule_identities_domains_witness :
  exists ids parts, build_rule_identities ex_sha ex_input default_identity_limits = Ok ids /\
    NoDup (zip_with (fun tag p => frames (tag :: p)) identity_tags parts) /\ length parts = 5%nat.
Proof.
  assert (is_Ok (build_rule_identities ex_sha ex_input default_identity_limits)) as [ids E]
    by (eexists; vm_compute; reflexivity).
  destruct (build_rule_identities_domains ex_sha ex_input default_identity_limits ids E)
    as (parts & Hlen & Hnd & _).
  exists ids, parts. exact (conj E (conj Hnd Hlen)).
Defined.

(** ** The stable identity feeds the continuity identity *)

Lemma hex_digit_lower d : d < 16 -> lower_hex_digit (byte_of (hex_digit d)).
Proof.
  intros Hd. unfold hex_digit, lower_hex_digit.
  destruct (N.ltb_spec d 10); rewrite byte_of_char by lia; lia.
Qed.
Lemma hex_padded_lower w v : Forall lower_hex_digit (bytes (hex_padded w v)).
Proof.
  revert v; induction w as [|w IH]; intros v; [constructor|]. cbn [hex_padded].
  rewrite bytes_app, Forall_app. split; [apply IH|]. constructor; [|constructor].
  apply hex_digit_lower, N.mod_lt. lia.
Qed.
Lemma hex_lower s : Forall lower_hex_digit (bytes (hex s)).
Proof.
  induction s as [|c s IH]; [constructor|]. cbn [hex]. rewrite bytes_app, Forall_app.
  split; [apply hex_padded_lower|apply IH].
Qed.
Lemma hex_length s : String.length (hex s) = (2 * String.length s)%nat.
Proof. induction s as [|c s IH]; [done|]. cbn [hex]. rewrite length_append, hex_padded_length, IH. cbn. lia. Qed.

Lemma lower_hex_true v n : lower_hex v n = true <-> blen v = n /\ Forall lower_hex_digit (bytes v).
Proof.
  unfold lower_hex. by rewrite andb_true_iff, N.eqb_eq, (forallb_Forall _ _ _ lower_hex_byte).
Qed.

(** With a 32-byte hash, every stable rule identity is one the
    continuity builder accepts: building continuity fails on it only by the
    bound on hashed bytes. *)
Theorem stable_identity_continues (sha256 : string -> string)
    (Hsha : forall m, String.length (sha256 m) = 32%nat)
    (repo : string) (kind : ArchaeologyRuleKind) (anchor : ArchaeologyIdentityFact)
    (facts : list ArchaeologyIdentityFact) (limits limits' : ArchaeologyIdentityLimits) (id : string)
    (H : stable_rule_identity sha256 repo kind anchor facts limits = Ok id) :
  blen id = 71 /\
  (is_Ok (continuity_identity sha256 repo id limits') <->
     digest_fits CONTINUITY_TAG [repo; id] (max_identity_bytes limits')).
Proof.
  apply stable_rule_identity_Ok in H as (Hrepo & _ & _ & ->).
  unfold rendered. set (m := frames _). clearbody m. split.
  - rewrite blen_append. unfold blen at 2. rewrite hex_length, Hsha. reflexivity.
  - rewrite continuity_identity_if, !is_Ok_then. unfold is_Ok. setoid_rewrite digest_finish_Ok.
    unfold continuity_parts.
    assert (validate_digest_identity ("sha256:" ++ hex (sha256 m)) = Ok tt) as Hv.
    { unfold validate_digest_identity. rewrite starts_with_append, (str_drop_append "sha256:").
      rewrite (proj2 (lower_hex_true _ 64)); [done|]. split; [|apply hex_lower].
      unfold blen. by rewrite hex_length, Hsha. }
    split; [naive_solver|]. intros Hfits. split; [exact Hrepo|]. split; [exact Hv|]. by eexists.
Qed.

Lemma ex_sha_length m : String.length (ex_sha m) = 32%nat.
Proof.
  unfold ex_sha. generalize (blen m) as n. intros n. cbn [replicate String.concat].
  rewrite !length_append, !be_bytes_length. reflexivity.
Qed.
Lemma stable_identity_continues_witness :
  exists id, stable_rule_identity ex_sha "repo" RuleEligibility ex_anchor [ex_anchor]
      default_identity_limits = Ok id /\ blen id = 71 /\
    is_Ok (continuity_identity ex_sha "repo" id default_identity_limits).
Proof.
  assert (is_Ok (stable_rule_identity ex_sha "repo" RuleEligibility ex_anchor [ex_anchor]
    default_identity_limits)) as [id E] by (eexists; vm_compute; reflexivity).
  destruct (stable_identity_continues ex_sha ex_sha_length "repo" _ _ _ _ default_identity_limits id E)
    as [Hlen Hc]. exists id. split; [exact E|]. split; [exact Hlen|]. apply Hc.
  split; [done|]. rewrite !frames_size_cons, Hlen. vm_compute. discriminate.
Defined.
