(* ===== verification/Invalidation.v ===== *)
(** [src/crates/codevetter-core/src/commands/business_rule_archaeology/invalidation.rs]:
    which source paths an incremental refresh must read again.  A breadth-first
    walk of the reverse dependency graph from the changed paths, under bounds and
    cancellation, and the classification of changed generation inputs.

    The walk's [while let] loop carries fuel; running out of it is [Crash].
    [hops] is the specification: the paths a number of reverse dependencies away
    from a seed. *)
From S2P Require Import Prelude Ordering RustText GraphTypes Contracts.
Local Open Scope N_scope.

Inductive ArchaeologySourceDependencyKind : Type :=
  | Include | Copybook | Macro | Symbol | Call | Data | Rule.
Definition dependency_kind_index (k : ArchaeologySourceDependencyKind) : N :=
  match k with
  | Include => 0 | Copybook => 1 | Macro => 2 | Symbol => 3 | Call => 4 | Data => 5 | Rule => 6
  end.
#[export] Instance ord_dependency_kind : RustOrd ArchaeologySourceDependencyKind.
Proof. apply (ord_by dependency_kind_index). by intros [] []. Defined.

Record ArchaeologySourceDependency : Type := {
  dependent_path_identity : string;
  prerequisite_path_identity : string;
  dependency_kind : ArchaeologySourceDependencyKind
}.

Record ArchaeologyInvalidationLimits : Type := {
  max_seed_paths : N;
  max_dependencies : N;
  max_invalidated_paths : N;
  max_depth : N;
  max_identity_bytes : N;
  max_input_bytes : N;
  max_output_bytes : N
}.
Definition default_invalidation_limits : ArchaeologyInvalidationLimits := {|
  max_seed_paths := 250000; max_dependencies := 1000000; max_invalidated_paths := 250000;
  max_depth := 256; max_identity_bytes := 256;
  max_input_bytes := 256 * 1024 * 1024; max_output_bytes := 64 * 1024 * 1024 |}.

Record ArchaeologyInvalidatedPath : Type := {
  invalidated_path_identity : string;
  depth : N;
  via : list ArchaeologySourceDependencyKind
}.

(** ** Validation and bounds *)

Definition is_exact_revision (value : string) : bool :=
  ((blen value =? 40) || (blen value =? 64))
  && forallb (fun byte => is_ascii_digit byte || in_range 97 102 byte) (bytes value).

Definition validate_limits (limits : ArchaeologyInvalidationLimits) : outcome unit :=
  if (max_seed_paths limits =? 0) || (max_dependencies limits =? 0)
     || (max_invalidated_paths limits =? 0) || (max_identity_bytes limits =? 0)
     || (max_input_bytes limits =? 0) || (max_output_bytes limits =? 0)
  then Err "Archaeology invalidation limits are invalid" else Ok tt.

Definition validate_identity (value : string) (max_bytes : N) (label : string) : outcome unit :=
  if is_empty value || (max_bytes <? blen value)
     || any (fun byte => is_ascii_control byte || is_ascii_whitespace byte) (bytes value)
  then Err ("Archaeology " ++ label ++ " identity is invalid") else Ok tt.

(** The new total. *)
Definition add_bounded (total value limit : N) : outcome N :=
  let total := saturating_add total value in
  if limit <? total then Err "Archaeology invalidation byte bound exceeded" else Ok total.

Definition CANCELLED : string := "Archaeology invalidation cancelled".

(** ** The closure's input *)

Definition add_seed (limits : ArchaeologyInvalidationLimits) (st : N * BTreeSet string) (path : string)
    : outcome (N * BTreeSet string) :=
  let '(input_bytes, seeds) := st in
  _ ← validate_identity path (max_identity_bytes limits) "seed path";
  input_bytes ← add_bounded input_bytes (blen path) (max_input_bytes limits);
  if set_contains path seeds
  then Err "Archaeology invalidation seed identity is duplicated" else
  Ok (input_bytes, set_insert path seeds).

Abbreviation reverse_map := (BTreeMap string (list ArchaeologySourceDependency)).
Definition edge_key : Type := (string * (string * ArchaeologySourceDependencyKind))%type.
Record input_state : Type := {
  input_bytes : N; reverse_edges : reverse_map; unique_edges : BTreeSet edge_key
}.
(** [reverse.get(&p).into_iter().flatten()] *)
Definition edges_of (reverse : reverse_map) (p : string) : list ArchaeologySourceDependency :=
  match map_get p reverse with Some edges => edges | None => [] end.

Definition add_dependency (limits : ArchaeologyInvalidationLimits) (st : input_state)
    (dependency : ArchaeologySourceDependency) : outcome input_state :=
  let dependent := dependent_path_identity dependency in
  let prerequisite := prerequisite_path_identity dependency in
  _ ← validate_identity dependent (max_identity_bytes limits) "dependent path";
  _ ← validate_identity prerequisite (max_identity_bytes limits) "prerequisite path";
  if seqb dependent prerequisite
  then Err "Archaeology invalidation self dependency is invalid" else
  total ← add_bounded (input_bytes st)
            (saturating_add (saturating_add (blen dependent) (blen prerequisite)) 16)
            (max_input_bytes limits);
  let key := (dependent, (prerequisite, dependency_kind dependency)) in
  if set_contains key (unique_edges st)
  then Err "Archaeology invalidation dependency is duplicated" else
  Ok {| input_bytes := total;
        unique_edges := set_insert key (unique_edges st);
        reverse_edges := map_insert prerequisite
          (edges_of (reverse_edges st) prerequisite ++ [dependency]) (reverse_edges st) |}.

Definition edge_order (left right : ArchaeologySourceDependency) : comparison :=
  let key e := (dependent_path_identity e, (dependency_kind e, prerequisite_path_identity e)) in
  cmp (key left) (key right).
Definition sort_edges (reverse : reverse_map) : reverse_map :=
  map (fun '(p, edges) => (p, sort_by edge_order edges)) reverse.

(** ** The walk *)

Abbreviation discovered_map := (BTreeMap string (N * BTreeSet ArchaeologySourceDependencyKind)).
Record walk_state : Type := {
  discovered : discovered_map; queue : list string; output_bytes : N
}.

Definition add_root (limits : ArchaeologyInvalidationLimits) (st : walk_state) (seed : string)
    : outcome walk_state :=
  total ← add_bounded (output_bytes st) (blen seed + 16) (max_output_bytes limits);
  Ok {| discovered := map_insert seed (0, []) (discovered st);
        queue := queue st ++ [seed]; output_bytes := total |}.

(** The body of the inner loop, for a dependency of a path at a depth. *)
Definition visit (limits : ArchaeologyInvalidationLimits) (depth : N) (st : walk_state)
    (dependency : ArchaeologySourceDependency) : outcome walk_state :=
  let dependent := dependent_path_identity dependency in
  let kind := dependency_kind dependency in
  next_depth ← ok_or (checked_add depth 1) "Archaeology invalidation depth overflowed";
  if (max_depth limits <? next_depth) && negb (map_contains_key dependent (discovered st))
  then Err "Archaeology invalidation depth bound exceeded" else
  match map_get dependent (discovered st) with
  | Some (known_depth, kinds) =>
      '(kinds, total) ←
        (if negb (known_depth =? 0) && negb (set_contains kind kinds) then
           total ← add_bounded (output_bytes st) 16 (max_output_bytes limits);
           Ok (set_insert kind kinds, total)
         else Ok (kinds, output_bytes st));
      if next_depth <? known_depth then
        Ok {| discovered := map_insert dependent (next_depth, kinds) (discovered st);
              queue := queue st ++ [dependent]; output_bytes := total |}
      else
        Ok {| discovered := map_insert dependent (known_depth, kinds) (discovered st);
              queue := queue st; output_bytes := total |}
  | None =>
      if len (discovered st) =? max_invalidated_paths limits
      then Err "Archaeology invalidation path bound exceeded" else
      total ← add_bounded (output_bytes st) (blen dependent + 24) (max_output_bytes limits);
      Ok {| discovered := map_insert dependent (next_depth, [kind]) (discovered st);
            queue := queue st ++ [dependent]; output_bytes := total |}
  end.

Section Walk.
Context (token : StructuralGraphCancellation) (limits : ArchaeologyInvalidationLimits).
Context (reverse : reverse_map).

(** One turn of the outer loop, after [prerequisite] was popped. *)
Definition expand (st : walk_state) (prerequisite : string) : polling walk_state :=
  _ ← poll token CANCELLED;
  entry ← lift (ok_or (map_get prerequisite (discovered st))
            "Archaeology invalidation queue became inconsistent");
  for_each_polling (fun st dependency =>
      _ ← poll token CANCELLED;
      lift (visit limits (fst entry) st dependency))
    st (edges_of reverse prerequisite).

Fixpoint walk (fuel : nat) (st : walk_state) : polling walk_state :=
  match queue st with
  | [] => mret st
  | prerequisite :: rest =>
      match fuel with
      | O => lift (Crash "out of fuel")
      | S fuel =>
          st ← expand {| discovered := discovered st; queue := rest;
                         output_bytes := output_bytes st |} prerequisite;
          walk fuel st
      end
  end.
End Walk.

Definition invalidated (entry : string * (N * BTreeSet ArchaeologySourceDependencyKind))
    : ArchaeologyInvalidatedPath :=
  {| invalidated_path_identity := fst entry; depth := fst (snd entry); via := snd (snd entry) |}.

(** The validated input: the reverse edges, and the walk's first state. *)
Definition prepare_closure (seed_paths : list string)
    (dependencies : list ArchaeologySourceDependency) (limits : ArchaeologyInvalidationLimits)
    (token : StructuralGraphCancellation) : polling (reverse_map * walk_state) :=
  _ ← poll token CANCELLED;
  _ ← lift (validate_limits limits);
  _ ← lift (if max_seed_paths limits <? len seed_paths
            then Err "Archaeology invalidation seed bound exceeded" else Ok tt);
  _ ← lift (if max_dependencies limits <? len dependencies
            then Err "Archaeology invalidation dependency bound exceeded" else Ok tt);
  seeded ← for_each_polling (fun st path =>
      _ ← poll token CANCELLED; lift (add_seed limits st path)) (0, []) seed_paths;
  input ← for_each_polling (fun st dependency =>
      _ ← poll token CANCELLED; lift (add_dependency limits st dependency))
    {| input_bytes := fst seeded; reverse_edges := []; unique_edges := [] |} dependencies;
  let reverse := sort_edges (reverse_edges input) in
  let seeds := snd seeded in
  _ ← lift (if max_invalidated_paths limits <? len seeds
            then Err "Archaeology invalidation path bound exceeded" else Ok tt);
  start ← lift (for_each (add_root limits) {| discovered := []; queue := []; output_bytes := 0 |} seeds);
  mret (reverse, start).

Definition reverse_dependency_closure (seed_paths : list string)
    (dependencies : list ArchaeologySourceDependency) (limits : ArchaeologyInvalidationLimits)
    (token : StructuralGraphCancellation) : polling (list ArchaeologyInvalidatedPath) :=
  prepared ← prepare_closure seed_paths dependencies limits token;
  st ← walk token limits (fst prepared) (S (length seed_paths + length dependencies)) (snd prepared);
  _ ← poll token CANCELLED;
  mret (map invalidated (discovered st)).

(** ** Generation inputs *)

Inductive ArchaeologyGenerationInputKind : Type :=
  | Head | Ignore | Config | Parser | Schema | Algorithm | SynthesisPolicy.
Definition input_kind_index (k : ArchaeologyGenerationInputKind) : N :=
  match k with
  | Head => 0 | Ignore => 1 | Config => 2 | Parser => 3 | Schema => 4 | Algorithm => 5
  | SynthesisPolicy => 6
  end.
#[export] Instance ord_input_kind : RustOrd ArchaeologyGenerationInputKind.
Proof. apply (ord_by input_kind_index). by intros [] []. Defined.

Record ArchaeologyGenerationInput : Type := {
  kind : ArchaeologyGenerationInputKind; scope : option string; identity : string
}.
Inductive ArchaeologyInputInvalidationMode : Type := NoOp | SynthesisOnly | Scoped | GlobalRebuild.
Record ArchaeologyInputDecision : Type := {
  mode : ArchaeologyInputInvalidationMode;
  changed_kinds : list ArchaeologyGenerationInputKind;
  parser_scopes : list string;
  synthesis_policy_scopes : list string
}.

Abbreviation input_key := (ArchaeologyGenerationInputKind * option string)%type.
Abbreviation input_table := (BTreeMap input_key string).

Definition needs_scope (k : ArchaeologyGenerationInputKind) : bool :=
  match k with Parser | SynthesisPolicy => true | _ => false end.

Definition add_input (result : input_table) (input : ArchaeologyGenerationInput) : outcome input_table :=
  _ ← validate_identity (identity input) 256 "generation input";
  if bool_decide (kind input = Head) && negb (is_exact_revision (identity input))
  then Err "Archaeology HEAD input identity is invalid" else
  if negb (Bool.eqb (needs_scope (kind input)) (is_some (scope input)))
  then Err "Archaeology generation input scope is invalid" else
  _ ← match scope input with
      | Some scope => validate_identity scope 256 "generation input scope"
      | None => Ok tt
      end;
  let key := (kind input, scope input) in
  if is_some (map_get key result)
  then Err "Archaeology generation input is duplicated" else
  Ok (map_insert key (identity input) result).
Definition input_map (inputs : list ArchaeologyGenerationInput) : outcome input_table :=
  for_each add_input [] inputs.

Record drift : Type := {
  d_changed_kinds : BTreeSet ArchaeologyGenerationInputKind;
  d_parser_scopes : BTreeSet string;
  d_synthesis_scopes : BTreeSet string;
  global : bool; scoped : bool; synthesis_only : bool
}.
Definition no_drift : drift := {|
  d_changed_kinds := []; d_parser_scopes := []; d_synthesis_scopes := [];
  global := false; scoped := false; synthesis_only := false |}.

(** The [match kind] of a changed key. *)
Definition record_change (d : drift) (key : input_key) : outcome drift :=
  let '(kind, scope) := key in
  let changed := set_insert kind (d_changed_kinds d) in
  match kind with
  | Ignore | Config | Schema | Algorithm =>
      Ok {| d_changed_kinds := changed; d_parser_scopes := d_parser_scopes d;
            d_synthesis_scopes := d_synthesis_scopes d;
            global := true; scoped := scoped d; synthesis_only := synthesis_only d |}
  | Head =>
      Ok {| d_changed_kinds := changed; d_parser_scopes := d_parser_scopes d;
            d_synthesis_scopes := d_synthesis_scopes d;
            global := global d; scoped := true; synthesis_only := synthesis_only d |}
  | Parser =>
      scope ← ok_or scope "Archaeology parser input lost its scope";
      let is_global := seqb scope "global" in
      Ok {| d_changed_kinds := changed; d_parser_scopes := set_insert scope (d_parser_scopes d);
            d_synthesis_scopes := d_synthesis_scopes d;
            global := is_global || global d; scoped := negb is_global || scoped d;
            synthesis_only := synthesis_only d |}
  | SynthesisPolicy =>
      scope ← ok_or scope "Archaeology synthesis policy input lost its scope";
      Ok {| d_changed_kinds := changed; d_parser_scopes := d_parser_scopes d;
            d_synthesis_scopes := set_insert scope (d_synthesis_scopes d);
            global := global d; scoped := scoped d; synthesis_only := true |}
  end.
Definition classify_key (previous current : input_table) (d : drift) (key : input_key) : outcome drift :=
  if bool_decide (map_get key previous = map_get key current) then Ok d else record_change d key.

Definition mode_of (d : drift) : ArchaeologyInputInvalidationMode :=
  if global d then GlobalRebuild else if scoped d then Scoped
  else if synthesis_only d then SynthesisOnly else NoOp.

Definition classify_generation_input_changes (previous current : list ArchaeologyGenerationInput)
    : outcome ArchaeologyInputDecision :=
  previous ← input_map previous;
  current ← input_map current;
  let keys := set_of_list (map_keys previous ++ map_keys current) in
  d ← for_each (classify_key previous current) no_drift keys;
  Ok {| mode := mode_of d;
        changed_kinds := d_changed_kinds d;
        parser_scopes := d_parser_scopes d;
        synthesis_policy_scopes := d_synthesis_scopes d |}.

(** ** Concrete runs *)

Section Examples.
Definition dep (prerequisite dependent : string) (k : ArchaeologySourceDependencyKind)
    : ArchaeologySourceDependency :=
  {| dependent_path_identity := dependent; prerequisite_path_identity := prerequisite;
     dependency_kind := k |}.
(** A cycle [b -> c -> b] behind [a], and a second edge into [c]. *)
Definition ex_deps : list ArchaeologySourceDependency :=
  [dep "a" "b" Copybook; dep "b" "c" Call; dep "c" "b" Macro; dep "a" "c" Data;
   dep "c" "d" Rule; dep "y" "z" Rule].
Definition ex_closure : outcome (list (string * N * list ArchaeologySourceDependencyKind)) :=
  r ← reverse_dependency_closure ["a"] ex_deps default_invalidation_limits never_cancelled 0%nat;
  Ok (map (fun p => (invalidated_path_identity p, depth p, via p)) (fst r)).
Example ex_closure_ok :
  ex_closure = Ok [("a"%string, 0, []); ("b"%string, 1, [Copybook; Macro]);
                   ("c"%string, 1, [Call; Data]); ("d"%string, 2, [Rule])].
Proof. vm_compute. reflexivity. Qed.
Example ex_cancel :
  reverse_dependency_closure ["a"] ex_deps default_invalidation_limits (cancelled_from 9) 0%nat
  = Err CANCELLED.
Proof. vm_compute. reflexivity. Qed.
Definition ex_input (k : ArchaeologyGenerationInputKind) (s : option string) (i : string)
    : ArchaeologyGenerationInput := {| kind := k; scope := s; identity := i |}.
Example ex_classify :
  (d ← classify_generation_input_changes
         [ex_input Parser (Some "cobol"%string) "1"; ex_input Config None "c"]
         [ex_input Parser (Some "cobol"%string) "2"; ex_input Config None "c"];
   Ok (mode d, parser_scopes d)) = Ok (Scoped, ["cobol"%string]).
Proof. vm_compute. reflexivity. Qed.
End Examples.

(** * The specification of the closure *)

Section Closure.
Context (seeds : list string) (deps : list ArchaeologySourceDependency).

(** A path that many reverse dependencies away from a changed path. *)
Inductive hops : N -> string -> Prop :=
  | hops_seed s : s ∈ seeds -> hops 0 s
  | hops_step n d :
      d ∈ deps -> hops n (prerequisite_path_identity d) -> hops (n + 1) (dependent_path_identity d).

Definition affected (v : string) : Prop := exists n, hops n v.

Definition closure_spec (out : list ArchaeologyInvalidatedPath) : Prop :=
  StronglySorted lt (map invalidated_path_identity out) /\
  (forall v, v ∈ map invalidated_path_identity out <-> affected v) /\
  (forall e, e ∈ out ->
     hops (depth e) (invalidated_path_identity e) /\
     (forall n, hops n (invalidated_path_identity e) -> depth e <= n) /\
     StronglySorted lt (via e) /\
     (forall k, k ∈ via e <-> depth e <> 0 /\ exists d, d ∈ deps /\
        dependent_path_identity d = invalidated_path_identity e /\ dependency_kind d = k /\
        affected (prerequisite_path_identity d))).

Lemma hops_zero v : hops 0 v -> v ∈ seeds.
Proof. inversion 1 as [|n d ? ? Hn]; subst; [done|lia]. Qed.
Lemma hops_elem n v : hops n v -> v ∈ seeds ++ map dependent_path_identity deps.
Proof.
  intros H. apply elem_of_app. inversion H; subst; [by left|right].
  apply list_elem_of_fmap. eauto.
Qed.

(** The specification leaves one list. *)
Lemma closure_spec_unique out1 out2 : closure_spec out1 -> closure_spec out2 -> out1 = out2.
Proof.
  intros (Hs1 & Hv1 & He1) (Hs2 & Hv2 & He2).
  assert (map invalidated_path_identity out1 = map invalidated_path_identity out2) as Heq.
  { apply sorted_ext; [done..|]. intros v. by rewrite Hv1, Hv2. }
  clear Hs1 Hs2 Hv1 Hv2. revert out2 Heq He2.
  induction out1 as [|e1 out1 IH]; intros [|e2 out2] Heq He2; try done.
  cbn in Heq. apply cons_eq_inj in Heq as [Hp Heq].
  destruct (He1 e1 ltac:(left)) as (Hh1 & Hm1 & Hsv1 & Hk1).
  destruct (He2 e2 ltac:(left)) as (Hh2 & Hm2 & Hsv2 & Hk2).
  rewrite <- Hp in Hh2, Hm2, Hk2.
  assert (depth e1 = depth e2) as Hd by (apply N.le_antisymm; auto).
  assert (via e1 = via e2) as Hvia.
  { apply sorted_ext; [done..|]. intros k. by rewrite Hk1, Hk2, Hd. }
  f_equal; [destruct e1, e2; cbn in *; congruence|].
  apply IH; [|done|]; intros e He; [apply He1|apply He2]; by right.
Qed.
End Closure.

(** * The input tables *)

Lemma edges_of_insert m p q edges :
  map_wf m -> edges_of (map_insert p edges m) q = if decide (q = p) then edges else edges_of m q.
Proof.
  intros Hm. unfold edges_of. destruct (decide (q = p)) as [->|Hne].
  - by rewrite map_get_insert_eq.
  - by rewrite map_get_insert_ne.
Qed.

Definition reverse_of (deps : list ArchaeologySourceDependency) (reverse : reverse_map) : Prop :=
  map_wf reverse /\
  forall p d, d ∈ edges_of reverse p <-> d ∈ deps /\ prerequisite_path_identity d = p.

Lemma add_dependency_Ok limits pre st d st' :
  reverse_of pre (reverse_edges st) -> add_dependency limits st d = Ok st' ->
  reverse_of (pre ++ [d]) (reverse_edges st').
Proof.
  intros [Hwf Hrev] H. unfold add_dependency in H. rewrite !then_Ok, if_Err_Ok, bind_Ok in H.
  destruct H as (_ & _ & _ & total & _ & H). apply if_Err_Ok in H as [_ [= <-]]. cbn.
  split; [by apply map_insert_wf|]. intros p e. rewrite edges_of_insert by done.
  rewrite elem_of_app, list_elem_of_singleton. case_decide as Hp.
  - subst p. rewrite elem_of_app, list_elem_of_singleton, Hrev. naive_solver.
  - rewrite Hrev. naive_solver.
Qed.

Lemma map_get_sort_edges reverse p : map_get p (sort_edges reverse) = sort_by edge_order <$> map_get p reverse.
Proof.
  induction reverse as [|[q edges] reverse IH]; [done|]. cbn [sort_edges map map_get].
  by destruct (cmp p q).
Qed.
Lemma map_keys_sort_edges reverse : map_keys (sort_edges reverse) = map_keys reverse.
Proof. unfold map_keys, sort_edges. rewrite map_map. by apply map_ext; intros []. Qed.
Lemma sort_edges_of deps reverse : reverse_of deps reverse -> reverse_of deps (sort_edges reverse).
Proof.
  intros [Hwf Hrev]. split; [unfold map_wf; by rewrite map_keys_sort_edges|].
  intros p d. rewrite <- Hrev. unfold edges_of. rewrite map_get_sort_edges.
  destruct (map_get p reverse); cbn; [apply elem_of_sort_by|done].
Qed.

Lemma add_seed_Ok limits st path st' :
  add_seed limits st path = Ok st' -> path ∉ snd st /\ snd st' = set_insert path (snd st).
Proof.
  destruct st as [b s]. unfold add_seed. rewrite then_Ok, bind_Ok.
  intros (_ & total & _ & H). apply if_Err_Ok in H as [H%set_contains_false [= <-]]. done.
Qed.

(** A loop that polls before each element. *)
Lemma polled_step_Ok {A S} token message (f : S -> A -> outcome S) s x n r :
  (_ ← poll token message; lift (f s x)) n = Ok r ->
  exists s', f s x = Ok s' /\ r = (s', Datatypes.S n).
Proof.
  intros (u & n1 & [_ [= -> ->]]%poll_Ok & (s' & ? & ->)%lift_Ok)%polling_bind_Ok. eauto.
Qed.

(** * The walk's invariant *)

Section WalkInvariant.
Context (seeds : list string) (deps : list ArchaeologySourceDependency).
Context (limits : ArchaeologyInvalidationLimits).
Notation hops := (hops seeds deps).

Definition depth_in (disc : discovered_map) (v : string) : N :=
  match map_get v disc with Some (n, _) => n | None => 0 end.

(** [seen] are the dependencies examined so far, [processed] the paths popped,
    [level] the depth of the last one. *)
Record walk_inv (seen : list ArchaeologySourceDependency) (processed : list string) (level : N)
    (st : walk_state) : Prop := {
  wi_wf : map_wf (discovered st);
  wi_keys : map_keys (discovered st) ≡ₚ processed ++ queue st;
  wi_seeds : forall v, v ∈ seeds -> exists ks, map_get v (discovered st) = Some (0, ks);
  wi_hops : forall v n ks, map_get v (discovered st) = Some (n, ks) -> hops n v;
  wi_seen : forall d, d ∈ seen -> d ∈ deps /\ exists m ks,
    map_get (dependent_path_identity d) (discovered st) = Some (m, ks) /\
    m <= depth_in (discovered st) (prerequisite_path_identity d) + 1;
  wi_via : forall v n ks, map_get v (discovered st) = Some (n, ks) ->
    StronglySorted lt ks /\
    forall k, k ∈ ks <-> n <> 0 /\ exists d, d ∈ seen /\ dependent_path_identity d = v /\
      dependency_kind d = k;
  wi_level : forall v n ks, map_get v (discovered st) = Some (n, ks) -> n <= level + 1;
  wi_queue : StronglySorted (fun u v => depth_in (discovered st) u <= depth_in (discovered st) v) (queue st);
  wi_ahead : forall v, v ∈ queue st -> level <= depth_in (discovered st) v;
  wi_bounds : len (discovered st) <= max_invalidated_paths limits /\
    output_bytes st <= max_output_bytes limits /\
    forall v n ks, map_get v (discovered st) = Some (n, ks) -> n <= max_depth limits
}.

Lemma add_bounded_Ok total value limit t : add_bounded total value limit = Ok t -> t <= limit.
Proof. unfold add_bounded. intros [H%N.ltb_ge [= <-]]%if_Err_Ok. done. Qed.

(** What examining one dependency does: a known path may gain a kind, its
    depth stays; an unknown one is found one level further. *)
Lemma visit_Ok seen processed level st d st' :
  walk_inv seen processed level st -> visit limits level st d = Ok st' ->
  let v := dependent_path_identity d in
  output_bytes st' <= max_output_bytes limits /\
  ((exists m ks, map_get v (discovered st) = Some (m, ks) /\ queue st' = queue st /\
      discovered st' = map_insert v (m, if m =? 0 then ks else set_insert (dependency_kind d) ks)
                         (discovered st)) \/
   (map_get v (discovered st) = None /\ queue st' = queue st ++ [v] /\
      discovered st' = map_insert v (level + 1, [dependency_kind d]) (discovered st) /\
      level + 1 <= max_depth limits /\ len (discovered st) <> max_invalidated_paths limits)).
Proof.
  intros Hinv H. cbv zeta. unfold visit in H. apply bind_Ok in H as (next & Hn & H).
  apply ok_or_Ok in Hn. unfold checked_add in Hn. destruct (_ <=? _); [|done]. injection Hn as <-.
  apply if_Err_Ok in H as [Hdepth H].
  destruct (map_get (dependent_path_identity d) (discovered st)) as [[m ks]|] eqn:E.
  - pose proof (wi_level _ _ _ _ Hinv _ _ _ E) as Hm.
    destruct (wi_via _ _ _ _ Hinv _ _ _ E) as [Hsort _].
    apply bind_Ok in H as ([ks' total] & Hks & H).
    assert (level + 1 <? m = false) as Hlt by (apply N.ltb_ge; lia). rewrite Hlt in H.
    injection H as <-. cbn.
    assert (total <= max_output_bytes limits /\
      ks' = if m =? 0 then ks else set_insert (dependency_kind d) ks) as [? ->].
    { destruct (m =? 0); cbn in Hks; [injection Hks as <- <-; split; [apply Hinv|done]|].
      destruct (set_contains (dependency_kind d) ks) eqn:Ec; cbn in Hks.
      - injection Hks as <- <-. split; [apply Hinv|]. symmetry. apply set_insert_id; [done|].
        by apply set_contains_true.
      - apply bind_Ok in Hks as (t & Ht%add_bounded_Ok & [= <- <-]). done. }
    split; [done|]. left. eauto.
  - apply if_Err_Ok in H as [Hlen%N.eqb_neq H]. apply bind_Ok in H as (t & Ht%add_bounded_Ok & [= <-]).
    cbn. split; [done|]. right. apply andb_false_iff in Hdepth as [Hdepth%N.ltb_ge|Hdepth]; [auto|].
    apply negb_false_iff, map_contains_key_true, map_get_is_Some in Hdepth as [? Hd]. congruence.
Qed.

Lemma get_insert (disc : discovered_map) v x u :
  map_wf disc -> map_get u (map_insert v x disc) = if decide (u = v) then Some x else map_get u disc.
Proof.
  intros Hwf. destruct (decide (u = v)) as [->|Hne]; [by rewrite map_get_insert_eq|].
  by rewrite map_get_insert_ne.
Qed.
Lemma depth_in_insert disc v n ks u :
  map_wf disc -> depth_in (map_insert v (n, ks) disc) u = if decide (u = v) then n else depth_in disc u.
Proof. intros Hwf. unfold depth_in. rewrite get_insert by done. by case_decide. Qed.
Lemma depth_in_get (disc : discovered_map) v n ks : map_get v disc = Some (n, ks) -> depth_in disc v = n.
Proof. unfold depth_in. by intros ->. Qed.

Lemma queue_sorted_ext (disc disc' : discovered_map) q :
  (forall u, u ∈ q -> depth_in disc' u = depth_in disc u) ->
  StronglySorted (fun u v => depth_in disc u <= depth_in disc v) q ->
  StronglySorted (fun u v => depth_in disc' u <= depth_in disc' v) q.
Proof.
  intros Heq. induction 1 as [|u q Hss IH Hall]; constructor.
  - apply IH. intros w Hw. apply Heq. by right.
  - rewrite Forall_forall in *. intros w Hw. rewrite !Heq by ((by left) || by right). by apply Hall.
Qed.

(** A path that was known keeps its depth and gains the dependency's kind. *)
Lemma revisit_inv seen processed level st st' d m ks :
  walk_inv seen processed level st -> d ∈ deps ->
  depth_in (discovered st) (prerequisite_path_identity d) = level ->
  map_get (dependent_path_identity d) (discovered st) = Some (m, ks) ->
  queue st' = queue st -> output_bytes st' <= max_output_bytes limits ->
  discovered st' = map_insert (dependent_path_identity d)
    (m, if m =? 0 then ks else set_insert (dependency_kind d) ks) (discovered st) ->
  walk_inv (seen ++ [d]) processed level st'.
Proof.
  intros [Hwf Hkeys Hseeds Hhops Hseen Hvia Hlevel Hqueue Hahead (Hlen & _ & Hmax)] Hd Hp Hv Hq Hout Hdisc.
  set (v := dependent_path_identity d) in *. set (ks' := if m =? 0 then ks else _) in *.
  assert (forall u, depth_in (discovered st') u = depth_in (discovered st) u) as Hdep.
  { intros u. rewrite Hdisc, depth_in_insert by done. case_decide as Hu; [subst u|done].
    by rewrite (depth_in_get _ _ _ _ Hv). }
  assert (forall u n us, map_get u (discovered st') = Some (n, us) ->
    exists us0, map_get u (discovered st) = Some (n, us0)) as Hold.
  { intros u n us. rewrite Hdisc, get_insert by done. case_decide as Hu; [subst u|eauto].
    intros [= <- <-]. eauto. }
  assert (forall u n us, map_get u (discovered st) = Some (n, us) ->
    exists us1, map_get u (discovered st') = Some (n, us1)) as Hnew.
  { intros u n us Hu. rewrite Hdisc, get_insert by done. case_decide as Heq; [subst u|eauto].
    rewrite Hv in Hu. injection Hu as <- <-. eauto. }
  constructor.
  - rewrite Hdisc. by apply map_insert_wf.
  - rewrite Hq, Hdisc, (map_keys_insert_old _ _ _ _ Hwf Hv). done.
  - intros u [us Hu]%Hseeds. eauto.
  - intros u n us (? & ?)%Hold. eauto.
  - intros e [He| ->%list_elem_of_singleton]%elem_of_app.
    + destruct (Hseen e He) as (Hin & n & us & Hn & Hle). split; [done|].
      destruct (Hnew _ _ _ Hn) as [us1 Hn1]. exists n, us1. by rewrite Hdep.
    + split; [done|]. destruct (Hnew _ _ _ Hv) as [us1 Hn1]. exists m, us1. split; [done|].
      rewrite Hdep, Hp. eauto.
  - intros u n us. rewrite Hdisc, get_insert by done. destruct (Hvia _ _ _ Hv) as [Hs Hk].
    case_decide as Hu.
    + subst u. intros [= <- <-]. unfold ks'. destruct (N.eqb_spec m 0) as [->|Hm].
      * split; [done|]. intros k. rewrite Hk. naive_solver.
      * split; [by apply set_insert_sorted|]. intros k. rewrite elem_of_set_insert, Hk.
        setoid_rewrite elem_of_app. setoid_rewrite list_elem_of_singleton. naive_solver.
    + intros Hg. destruct (Hvia _ _ _ Hg) as [Hs' Hk']. split; [done|]. intros k. rewrite Hk'.
      setoid_rewrite elem_of_app. setoid_rewrite list_elem_of_singleton. naive_solver.
  - intros u n us (? & ?)%Hold. eauto.
  - rewrite Hq. eapply queue_sorted_ext; [intros u _; apply Hdep|done].
  - rewrite Hq. intros u Hu. rewrite Hdep. by apply Hahead.
  - split_and!; [|done|].
    + rewrite Hdisc. unfold len in *. rewrite <- (length_map fst (map_insert _ _ _)).
      fold (map_keys (map_insert v (m, ks') (discovered st))).
      rewrite (map_keys_insert_old _ _ _ _ Hwf Hv). unfold map_keys. by rewrite length_map.
    + intros u n us (? & ?)%Hold. eauto.
Qed.

(** A path found for the first time is one level further. *)
Lemma find_inv seen processed level st st' d :
  walk_inv seen processed level st -> d ∈ deps ->
  (exists ks, map_get (prerequisite_path_identity d) (discovered st) = Some (level, ks)) ->
  map_get (dependent_path_identity d) (discovered st) = None ->
  queue st' = queue st ++ [dependent_path_identity d] -> output_bytes st' <= max_output_bytes limits ->
  discovered st' = map_insert (dependent_path_identity d) (level + 1, [dependency_kind d]) (discovered st) ->
  level + 1 <= max_depth limits -> len (discovered st) <> max_invalidated_paths limits ->
  walk_inv (seen ++ [d]) processed level st'.
Proof.
  intros [Hwf Hkeys Hseeds Hhops Hseen Hvia Hlevel Hqueue Hahead (Hlen & _ & Hmax)] Hd [pks Hp] Hv Hq
    Hout Hdisc Hdepth Hfull.
  set (v := dependent_path_identity d) in *.
  assert (forall u x, map_get u (discovered st) = Some x -> u <> v) as Hne by (intros u x Hu ->; congruence).
  assert (forall u, depth_in (discovered st') u = if decide (u = v) then level + 1 else depth_in (discovered st) u)
    as Hdep by (intros u; rewrite Hdisc; by apply depth_in_insert).
  assert (forall u, map_get u (discovered st') =
    if decide (u = v) then Some (level + 1, [dependency_kind d]) else map_get u (discovered st)) as Hget
    by (intros u; rewrite Hdisc; by apply get_insert).
  assert (forall u x, map_get u (discovered st) = Some x -> map_get u (discovered st') = Some x) as Hnew.
  { intros u x Hu. rewrite Hget, decide_False; [done|]. by eapply Hne. }
  assert (forall u, u ∈ queue st -> u <> v) as Hqv.
  { intros u Hu ->. apply map_get_None in Hv. apply Hv. rewrite Hkeys. apply elem_of_app. by right. }
  constructor.
  - rewrite Hdisc. by apply map_insert_wf.
  - rewrite Hq, app_assoc, <- Hkeys, Hdisc. unfold map_keys.
    rewrite (map_insert_perm _ _ _ Hv). cbn [map fst]. apply Permutation_cons_append.
  - intros u [us Hu]%Hseeds. eauto.
  - intros u n us. rewrite Hget. case_decide; [subst u; intros [= <- <-]|eauto].
    apply hops_step; [done|]. eauto.
  - intros e [He| ->%list_elem_of_singleton]%elem_of_app.
    + destruct (Hseen e He) as (Hin & n & us & Hn & Hle). split; [done|].
      exists n, us. split; [by apply Hnew|]. rewrite Hdep. case_decide as Heq; [|done].
      apply Hlevel in Hn. lia.
    + split; [done|]. exists (level + 1), [dependency_kind d]. rewrite Hget, decide_True by done.
      split; [done|]. rewrite Hdep, decide_False by eauto. by rewrite (depth_in_get _ _ _ _ Hp).
  - intros u n us. rewrite Hget. case_decide as Hu.
    + subst u. intros [= <- <-]. split; [repeat constructor|]. intros k. rewrite list_elem_of_singleton.
      split; [intros ->; split; [lia|]; exists d; split; [apply elem_of_app; right; left|done]|].
      intros (_ & e & He & Hev & <-).
      apply elem_of_app in He as [He| ->%list_elem_of_singleton]; [exfalso|done].
      destruct (Hseen e He) as (_ & m & ks & Hm & _). rewrite Hev in Hm. congruence.
    + intros Hg. destruct (Hvia _ _ _ Hg) as [Hs' Hk']. split; [done|]. intros k. rewrite Hk'.
      setoid_rewrite elem_of_app. setoid_rewrite list_elem_of_singleton. naive_solver.
  - intros u n us. rewrite Hget. case_decide; [intros [= <- <-]; lia|eauto].
  - rewrite Hq. apply StronglySorted_app. split_and!.
    + intros x1 x2 Hx1 ->%list_elem_of_singleton. rewrite !Hdep, decide_False, decide_True by auto.
      unfold depth_in. destruct (map_get x1 (discovered st)) as [[n ks]|] eqn:E; [eauto|lia].
    + eapply queue_sorted_ext; [|done]. intros u Hu. rewrite Hdep, decide_False by auto. done.
    + repeat constructor.
  - rewrite Hq. intros u [Hu| ->%list_elem_of_singleton]%elem_of_app; rewrite Hdep.
    + rewrite decide_False by auto. by apply Hahead.
    + rewrite decide_True by done. lia.
  - split_and!; [|done|].
    + rewrite Hdisc. unfold len in *. rewrite (map_insert_length_new _ _ _ Hv). lia.
    + intros u n us. rewrite Hget. case_decide; [intros [= <- <-]; done|eauto].
Qed.

Lemma visit_inv seen processed level st d st' :
  walk_inv seen processed level st -> d ∈ deps ->
  (exists ks, map_get (prerequisite_path_identity d) (discovered st) = Some (level, ks)) ->
  visit limits level st d = Ok st' ->
  walk_inv (seen ++ [d]) processed level st' /\
  exists ks, map_get (prerequisite_path_identity d) (discovered st') = Some (level, ks).
Proof.
  intros Hinv Hd [pks Hp] H. pose proof (wi_wf _ _ _ _ Hinv) as Hwf.
  destruct (visit_Ok _ _ _ _ _ _ Hinv H) as (Hout & [(m & ks & Hv & Hq & Hdisc)|(Hv & Hq & Hdisc & Hdep & Hlen)]).
  - split; [eapply revisit_inv; eauto; by apply depth_in_get in Hp|].
    rewrite Hdisc, get_insert by done. case_decide as Heq; [|eauto].
    rewrite <- Heq, Hp in Hv. injection Hv as <- <-. eauto.
  - split; [eapply find_inv; eauto|].
    rewrite Hdisc, get_insert by done. case_decide as Heq; [congruence|eauto].
Qed.

(** Popping the head makes its depth the level. *)
Lemma pop_inv seen processed level st p rest :
  walk_inv seen processed level st -> queue st = p :: rest ->
  walk_inv seen (processed ++ [p]) (depth_in (discovered st) p)
    {| discovered := discovered st; queue := rest; output_bytes := output_bytes st |}.
Proof.
  intros [Hwf Hkeys Hseeds Hhops Hseen Hvia Hlevel Hqueue Hahead Hb] Hq. rewrite Hq in *.
  assert (level <= depth_in (discovered st) p) as Hp by (apply Hahead; left).
  apply StronglySorted_inv in Hqueue as [Hrest Hhead]. constructor; cbn; auto.
  - by rewrite <- app_assoc.
  - intros v n ks Hv%Hlevel. lia.
  - intros v Hv. rewrite Forall_forall in Hhead. by apply Hhead.
Qed.

Section Loops.
Context (token : StructuralGraphCancellation) (reverse : reverse_map).
Context (Hrev : reverse_of deps reverse).

Lemma expand_inv seen processed level st p n st' n' :
  walk_inv seen processed level st -> depth_in (discovered st) p = level ->
  expand token limits reverse st p n = Ok (st', n') ->
  walk_inv (seen ++ edges_of reverse p) processed level st'.
Proof.
  intros Hinv Hp H. unfold expand in H. apply polling_bind_Ok in H as (_ & n1 & _ & H).
  apply polling_bind_Ok in H as ([m ks] & n2 & Hget & H). apply lift_Ok in Hget as (? & Hget & [= <- <-]).
  apply ok_or_Ok in Hget. cbn [fst] in H.
  assert (m = level) as -> by (rewrite (depth_in_get _ _ _ _ Hget) in Hp; done).
  enough (walk_inv (seen ++ edges_of reverse p) processed level st' /\
    exists ks, map_get p (discovered st') = Some (level, ks)) by tauto.
  revert H. apply (for_each_polling_inv (fun pre st => walk_inv (seen ++ pre) processed level st /\
    exists ks, map_get p (discovered st) = Some (level, ks))).
  - rewrite app_nil_r. eauto.
  - intros pre d suf s1 s2 k k' Hl [Hs1 Hp1] (s & Hv & [= -> ->])%polled_step_Ok.
    assert (d ∈ edges_of reverse p) as [Hd Hdp]%Hrev by (rewrite Hl; apply elem_of_app; right; left).
    rewrite app_assoc, <- Hdp. eapply visit_inv; eauto. by rewrite Hdp.
Qed.

(** All dependencies of the processed paths, and no others, are examined. *)
Definition examined (seen : list ArchaeologySourceDependency) (processed : list string) : Prop :=
  forall d, d ∈ seen <-> d ∈ deps /\ prerequisite_path_identity d ∈ processed.

Lemma examined_expand seen processed p :
  examined seen processed -> examined (seen ++ edges_of reverse p) (processed ++ [p]).
Proof.
  destruct Hrev as [_ Hr]. intros Hex d. rewrite !elem_of_app, list_elem_of_singleton, Hr, (Hex d). tauto.
Qed.

Lemma walk_finishes fuel seen processed level st n st' n' :
  walk_inv seen processed level st -> examined seen processed ->
  walk token limits reverse fuel st n = Ok (st', n') ->
  exists seen' processed' level',
    walk_inv seen' processed' level' st' /\ examined seen' processed' /\ queue st' = [].
Proof.
  revert seen processed level st n. induction fuel as [|fuel IH]; intros seen processed level st n Hinv Hex;
    cbn [walk]; destruct (queue st) as [|p rest] eqn:Hq.
  - intros [= <- <-]. eauto 10.
  - done.
  - intros [= <- <-]. eauto 10.
  - intros (st1 & n1 & He & Hw)%polling_bind_Ok.
    pose proof (pop_inv _ _ _ _ _ _ Hinv Hq) as Hpop.
    eapply expand_inv in He; [|exact Hpop|done].
    eapply IH; [exact He|by apply examined_expand|exact Hw].
Qed.

(** ** The walk ends *)

Definition universe : list string := seeds ++ map dependent_path_identity deps.

Lemma walk_inv_length seen processed level st :
  walk_inv seen processed level st -> (length processed + length (queue st) <= length universe)%nat.
Proof.
  intros Hinv. rewrite <- length_app.
  rewrite <- (Permutation_length (wi_keys _ _ _ _ Hinv)).
  apply submseteq_length, NoDup_submseteq; [apply map_keys_NoDup, Hinv|].
  intros v [[n ks] Hv]%map_get_is_Some. by eapply hops_elem, wi_hops.
Qed.

Lemma visit_returns level st d : returns (visit limits level st d).
Proof.
  unfold visit. apply returns_bind; [auto with outcomes|]. intros next _.
  apply returns_if; [done|]. intros _. unfold add_bounded. repeat (case_match || done).
Qed.

Lemma expand_returns st p n : returns (expand token limits reverse st p n).
Proof.
  unfold expand, poll, lift, mbind, polling_bind. destruct (observed token n); [done|]. cbn.
  destruct (ok_or _ _) as [[m ks]| |] eqn:E; cbn; [| |by destruct (map_get p (discovered st))]; [|done].
  apply (for_each_polling_returns (fun _ => True)); [done| |done].
  intros d s k _ _. cbn. destruct (observed token k); [done|]. cbn.
  apply returns_bind; [apply visit_returns|done].
Qed.

Lemma walk_returns fuel seen processed level st n :
  walk_inv seen processed level st -> (length universe < fuel + length processed)%nat ->
  returns (walk token limits reverse fuel st n).
Proof.
  revert seen processed level st n. induction fuel as [|fuel IH]; intros seen processed level st n Hinv Hfuel;
    cbn [walk]; destruct (queue st) as [|p rest] eqn:Hq; [done| |done|].
  - apply walk_inv_length in Hinv. rewrite Hq in Hinv. cbn in Hinv. lia.
  - unfold mbind, polling_bind. apply returns_bind; [apply expand_returns|]. intros [st1 n1] He.
    pose proof (pop_inv _ _ _ _ _ _ Hinv Hq) as Hpop.
    eapply expand_inv in He; [|exact Hpop|done].
    eapply IH; [exact He|]. rewrite length_app. cbn. lia.
Qed.
End Loops.

(** What the walk leaves is the specified closure. *)
Lemma walk_closure seen processed level st :
  walk_inv seen processed level st -> examined seen processed -> queue st = [] ->
  closure_spec seeds deps (map invalidated (discovered st)).
Proof.
  intros [Hwf Hkeys Hseeds Hhops Hseen Hvia Hlevel _ _ _] Hex Hq.
  rewrite Hq, app_nil_r in Hkeys.
  assert (map invalidated_path_identity (map invalidated (discovered st)) = map_keys (discovered st)) as Hpaths.
  { rewrite map_map. reflexivity. }
  assert (forall n v, hops n v -> exists m ks, map_get v (discovered st) = Some (m, ks) /\ m <= n) as Hmin.
  { induction 1 as [s Hs|n d Hd _ (m & ks & Hm & Hle)].
    - destruct (Hseeds s Hs) as [ks Hks]. exists 0, ks. split; [done|lia].
    - assert (d ∈ seen) as [_ (m' & ks' & Hm' & Hle')]%Hseen.
      { apply Hex. split; [done|]. rewrite <- Hkeys. apply map_get_is_Some. eauto. }
      exists m', ks'. split; [done|]. rewrite (depth_in_get _ _ _ _ Hm) in Hle'. lia. }
  assert (forall v, v ∈ map_keys (discovered st) <-> affected seeds deps v) as Hall.
  { intros v. rewrite <- map_get_is_Some. split.
    - intros [[m ks] Hv]. exists m. eauto.
    - intros (n & (m & ks & Hv & _)%Hmin). eauto. }
  split; [|split].
  - by rewrite Hpaths.
  - by rewrite Hpaths.
  - intros e ([v [n ks]] & -> & Hin)%list_elem_of_fmap. cbn.
    apply map_get_Some in Hin; [|done]. destruct (Hvia _ _ _ Hin) as [Hs Hk]. split_and!; [eauto| |done|].
    + intros n' (m & ks' & Hv & Hle)%Hmin. rewrite Hin in Hv. by injection Hv as <- <-.
    + intros k. rewrite Hk. apply and_iff_compat_l. split; intros (d & Hd); exists d.
      * destruct Hd as ([Hin' Hp]%Hex & Hv & Hkd). rewrite <- Hkeys in Hp. by rewrite <- Hall.
      * destruct Hd as (Hin' & Hv & Hkd & Hp). rewrite <- Hall, Hkeys in Hp. rewrite (Hex d). done.
Qed.
End WalkInvariant.

(** * The whole operation *)

Section Top.
Context (seed_paths : list string) (deps : list ArchaeologySourceDependency).
Context (limits : ArchaeologyInvalidationLimits).

Definition roots_of (pre : list string) (st : walk_state) : Prop :=
  map_wf (discovered st) /\ queue st = pre /\ output_bytes st <= max_output_bytes limits /\
  length (discovered st) = length pre /\
  forall v x, map_get v (discovered st) = Some x <-> v ∈ pre /\ x = (0, []).

Lemma add_roots_Ok seeds st :
  NoDup seeds ->
  for_each (add_root limits) {| discovered := []; queue := []; output_bytes := 0 |} seeds = Ok st ->
  roots_of seeds st.
Proof.
  intros Hnd. apply (for_each_inv roots_of).
  - unfold roots_of, map_wf. cbn. split; [apply SSorted_nil|].
    split; [done|]. split; [apply N.le_0_l|]. split; [done|]. intros v x. rewrite elem_of_nil. naive_solver.
  - intros pre s suf s1 s2 Hl (Hwf & Hq & Hb & Hlen & Hget) H. unfold add_root in H.
    apply bind_Ok in H as (t & Ht%add_bounded_Ok & [= <-]).
    assert (s ∉ pre) as Hs.
    { rewrite Hl in Hnd. apply NoDup_app in Hnd as (_ & Hd & _). intros Hin. apply (Hd s Hin). left. }
    assert (map_get s (discovered s1) = None) as Hnone.
    { destruct (map_get s (discovered s1)) eqn:E; [|done]. by apply Hget in E as [? _]. }
    split_and!; cbn; [by apply map_insert_wf|by rewrite Hq|done| |].
    + rewrite (map_insert_length_new _ _ _ Hnone), length_app, Hlen. cbn. lia.
    + intros v x. rewrite get_insert, elem_of_app, list_elem_of_singleton by done.
      case_decide as Hv; [naive_solver|]. rewrite Hget. naive_solver.
Qed.

Lemma roots_inv seeds st :
  NoDup seeds -> len seeds <= max_invalidated_paths limits -> roots_of seeds st ->
  walk_inv seeds deps limits [] [] 0 st.
Proof.
  intros Hnd Hlen (Hwf & Hq & Hb & Hl & Hget).
  assert (forall v n ks, map_get v (discovered st) = Some (n, ks) -> v ∈ seeds /\ n = 0 /\ ks = [])
    as Hzero by (intros v n ks [Hv [= -> ->]]%Hget; done).
  assert (forall v, depth_in (discovered st) v = 0) as Hdep.
  { intros v. unfold depth_in. destruct (map_get v _) as [[n ks]|] eqn:E; [|done].
    by apply Hzero in E as (_ & -> & _). }
  constructor.
  - done.
  - cbn. rewrite Hq. apply NoDup_Permutation; [by apply map_keys_NoDup|done|].
    intros v. rewrite <- map_get_is_Some. split; [intros [x [? _]%Hget]; done|].
    intros Hv. exists (0, []). by apply Hget.
  - intros v Hv. exists []. by apply Hget.
  - intros v n ks (Hv & -> & _)%Hzero. by constructor.
  - by intros d ?%elem_of_nil.
  - intros v n ks (_ & -> & ->)%Hzero. split; [constructor|]. intros k. rewrite elem_of_nil. naive_solver.
  - intros v n ks (_ & -> & _)%Hzero. lia.
  - generalize (queue st) as q. induction q as [|v q IH]; constructor; [done|].
    apply Forall_forall. intros w _. by rewrite !Hdep.
  - intros v _. lia.
  - split_and!; [unfold len in *; by rewrite Hl|done|]. intros v n ks (_ & -> & _)%Hzero. lia.
Qed.

Lemma closure_spec_seeds seeds out :
  (forall v, v ∈ seeds <-> v ∈ seed_paths) -> closure_spec seeds deps out -> closure_spec seed_paths deps out.
Proof.
  intros Hs. assert (forall n v, hops seeds deps n v <-> hops seed_paths deps n v) as Hh.
  { intros n v. split; induction 1; constructor; auto; by apply Hs. }
  assert (forall v, affected seeds deps v <-> affected seed_paths deps v) as Ha.
  { intros v. unfold affected. by setoid_rewrite Hh. }
  intros (H1 & H2 & H3). split; [done|]. split; [intros v; by rewrite H2, Ha|].
  intros e He. destruct (H3 e He) as (Hd & Hm & Hv & Hk). rewrite <- Hh. split_and!; [done| |done|].
  - intros n. rewrite <- Hh. apply Hm.
  - intros k. rewrite Hk. by setoid_rewrite Ha.
Qed.

Lemma closure_spec_deps deps' out :
  (forall d, d ∈ deps' <-> d ∈ deps) -> closure_spec seed_paths deps' out -> closure_spec seed_paths deps out.
Proof.
  intros Hd. assert (forall n v, hops seed_paths deps' n v <-> hops seed_paths deps n v) as Hh.
  { intros n v. split; induction 1; constructor; auto; by apply Hd. }
  assert (forall v, affected seed_paths deps' v <-> affected seed_paths deps v) as Ha.
  { intros v. unfold affected. by setoid_rewrite Hh. }
  intros (H1 & H2 & H3). split; [done|]. split; [intros v; by rewrite H2, Ha|].
  intros e He. destruct (H3 e He) as (Hdp & Hm & Hv & Hk). rewrite <- Hh. split_and!; [done| |done|].
  - intros n. rewrite <- Hh. apply Hm.
  - intros k. rewrite Hk. setoid_rewrite Ha. by setoid_rewrite Hd.
Qed.

(** Everything before the walk. *)
Definition prepared (reverse : reverse_map) (start : walk_state) : Prop :=
  exists seeds, NoDup seeds /\ (forall v, v ∈ seeds <-> v ∈ seed_paths) /\
    (length seeds <= length seed_paths)%nat /\
    reverse_of deps reverse /\ walk_inv seeds deps limits [] [] 0 start.

Lemma seeds_loop_Ok token n b s n' :
  for_each_polling (fun st path => _ ← poll token CANCELLED; lift (add_seed limits st path))
    (0, []) seed_paths n = Ok ((b, s), n') ->
  NoDup s /\ (forall v, v ∈ s <-> v ∈ seed_paths) /\ (length s <= length seed_paths)%nat.
Proof.
  intros H. apply (for_each_polling_inv (fun pre st => NoDup (snd st) /\
    (forall v, v ∈ snd st <-> v ∈ pre) /\ (length (snd st) <= length pre)%nat)) in H; [done| |].
  - split; [constructor|done].
  - intros pre x suf s1 s2 k k' _ (Hnd & Hel & Hlen) (s3 & Ha & [= -> ->])%polled_step_Ok.
    apply add_seed_Ok in Ha as [Hx ->]. split_and!.
    + by apply set_insert_NoDup.
    + intros v. rewrite elem_of_set_insert, Hel, elem_of_app, list_elem_of_singleton. tauto.
    + rewrite set_insert_length_new, length_app by done. cbn. lia.
Qed.

Lemma deps_loop_Ok token n b st n' :
  for_each_polling (fun st d => _ ← poll token CANCELLED; lift (add_dependency limits st d))
    {| input_bytes := b; reverse_edges := []; unique_edges := [] |} deps n = Ok (st, n') ->
  reverse_of deps (sort_edges (reverse_edges st)).
Proof.
  intros H. apply sort_edges_of. revert H.
  apply (for_each_polling_inv (fun pre st => reverse_of pre (reverse_edges st))).
  - split; [constructor|]. intros p d. cbn. rewrite !elem_of_nil. naive_solver.
  - intros pre x suf s1 s2 k k' _ Hs (s3 & Ha & [= -> ->])%polled_step_Ok.
    by eapply add_dependency_Ok.
Qed.
End Top.

Lemma prepare_closure_Ok seed_paths deps limits token n reverse start n' :
  prepare_closure seed_paths deps limits token n = Ok ((reverse, start), n') ->
  prepared seed_paths deps limits reverse start.
Proof.
  intros H. unfold prepare_closure in H. do 4 (apply polling_bind_Ok in H as (_ & ? & _ & H)).
  apply polling_bind_Ok in H as ([b seeds] & n1 & Hs & H). apply seeds_loop_Ok in Hs as (Hnd & Hel & Hlen).
  apply polling_bind_Ok in H as (input & n2 & Hd & H). apply deps_loop_Ok in Hd. cbn [fst snd] in H.
  apply polling_bind_Ok in H as (? & n3 & Hmax & H). apply lift_Ok in Hmax as (u & Hmax & _).
  apply if_Err_Ok in Hmax as [Hmax%N.ltb_ge _].
  apply polling_bind_Ok in H as (st & n4 & Hr & H). apply lift_Ok in Hr as (st' & Hr & [= <- <-]).
  injection H as <- <- <-. exists seeds. split_and!; try done.
  eapply roots_inv; [done|done|]. by apply add_roots_Ok.
Qed.

Lemma closure_Ok seed_paths deps limits token n out n' :
  reverse_dependency_closure seed_paths deps limits token n = Ok (out, n') ->
  closure_spec seed_paths deps out /\ len out <= max_invalidated_paths limits /\
  Forall (fun e => depth e <= max_depth limits) out.
Proof.
  intros H. unfold reverse_dependency_closure in H.
  apply polling_bind_Ok in H as ([reverse start] & n1 & Hp & H).
  apply prepare_closure_Ok in Hp as (seeds & Hnd & Hel & Hlen & Hrev & Hinv).
  apply polling_bind_Ok in H as (st & n2 & Hw & H). apply polling_bind_Ok in H as (? & ? & _ & [= <- _]).
  cbn [fst snd] in Hw.
  destruct (walk_finishes seeds deps limits token reverse Hrev _ _ _ _ _ _ _ _ Hinv
    ltac:(intros d; rewrite !elem_of_nil; tauto) Hw) as (seen & processed & level & Hfin & Hex & Hq).
  split; [eapply closure_spec_seeds, walk_closure; eauto|].
  destruct Hfin as [Hwf _ _ _ _ _ _ _ _ (Hsize & _ & Hdep)].
  split; [unfold len in *; by rewrite length_map|].
  apply Forall_forall. intros e ([v [m ks]] & -> & Hin)%list_elem_of_fmap. cbn.
  apply map_get_Some in Hin; eauto.
Qed.

(** A closure that is returned is exactly the set of paths a changed
    path reaches over reverse dependencies, sorted, each with the least number
    of hops to it and the kinds of all the dependencies that bring it in; and it
    keeps the bounds on paths and depth. Nothing partial is ever returned. *)
Theorem reverse_dependency_closure_spec (seed_paths : list string)
    (deps : list ArchaeologySourceDependency) (limits : ArchaeologyInvalidationLimits)
    (token : StructuralGraphCancellation) (n n' : nat) (out : list ArchaeologyInvalidatedPath)
    (H : reverse_dependency_closure seed_paths deps limits token n = Ok (out, n')) :
  closure_spec seed_paths deps out /\ len out <= max_invalidated_paths limits /\
  Forall (fun e => depth e <= max_depth limits) out.
Proof. by eapply closure_Ok. Qed.

Lemma reverse_dependency_closure_spec_witness :
  exists out n', reverse_dependency_closure ["a"] ex_deps default_invalidation_limits never_cancelled 0%nat
      = Ok (out, n') /\ closure_spec ["a"] ex_deps out /\ length out = 4%nat.
Proof.
  assert (is_Ok (reverse_dependency_closure ["a"] ex_deps default_invalidation_limits never_cancelled 0%nat))
    as [[out n'] E] by (eexists; vm_compute; reflexivity).
  exists out, n'. split; [exact E|].
  destruct (reverse_dependency_closure_spec ["a"] ex_deps default_invalidation_limits never_cancelled
    0%nat n' out E) as [Hspec _].
  split; [exact Hspec|]. vm_compute in E. by injection E as <- _.
Defined.

(** The order in which seeds and dependencies are supplied does
    not matter: two closures that are returned are the same list. *)
Theorem reverse_dependency_closure_order (seeds1 seeds2 : list string)
    (deps1 deps2 : list ArchaeologySourceDependency) (limits1 limits2 : ArchaeologyInvalidationLimits)
    (token1 token2 : StructuralGraphCancellation) (n1 n2 n1' n2' : nat)
    (out1 out2 : list ArchaeologyInvalidatedPath)
    (Hseeds : seeds1 ≡ₚ seeds2) (Hdeps : deps1 ≡ₚ deps2)
    (H1 : reverse_dependency_closure seeds1 deps1 limits1 token1 n1 = Ok (out1, n1'))
    (H2 : reverse_dependency_closure seeds2 deps2 limits2 token2 n2 = Ok (out2, n2')) :
  out1 = out2.
Proof.
  apply closure_Ok in H1 as [H1 _], H2 as [H2 _].
  apply (closure_spec_unique seeds1 deps1); [done|].
  apply (closure_spec_seeds seeds1 _ seeds2) in H2; [|intros v; by rewrite Hseeds].
  by apply (closure_spec_deps seeds1 deps1 deps2); [intros d; rewrite Hdeps|].
Qed.

Lemma reverse_dependency_closure_order_witness :
  exists out1 out2 n1 n2,
    reverse_dependency_closure ["y"; "a"] ex_deps default_invalidation_limits never_cancelled 0%nat
      = Ok (out1, n1) /\
    reverse_dependency_closure ["a"; "y"] (reverse ex_deps) default_invalidation_limits never_cancelled 0%nat
      = Ok (out2, n2) /\ out1 = out2.
Proof.
  assert (is_Ok (reverse_dependency_closure ["y"; "a"] ex_deps default_invalidation_limits never_cancelled 0%nat))
    as [[out1 n1] E1] by (eexists; vm_compute; reflexivity).
  assert (is_Ok (reverse_dependency_closure ["a"; "y"] (reverse ex_deps) default_invalidation_limits
    never_cancelled 0%nat))
    as [[out2 n2] E2] by (eexists; vm_compute; reflexivity).
  exists out1, out2, n1, n2. split; [exact E1|]. split; [exact E2|].
  eapply (reverse_dependency_closure_order ["y"; "a"] ["a"; "y"] ex_deps (reverse ex_deps));
    [constructor|symmetry; apply reverse_Permutation|exact E1|exact E2].
Defined.

Lemma add_bounded_returns total value limit : returns (add_bounded total value limit).
Proof. by apply returns_if. Qed.
Lemma validate_identity_returns v m label : returns (validate_identity v m label).
Proof. by apply returns_if. Qed.
#[local] Hint Resolve add_bounded_returns validate_identity_returns : outcomes.

Lemma polled_step_returns {A S} token message (f : S -> A -> outcome S) s x n :
  returns (f s x) -> returns ((_ ← poll token message; lift (f s x)) n).
Proof.
  intros Hf. unfold poll, lift, mbind, polling_bind. destruct (observed token n); [done|]. cbn.
  by apply returns_bind.
Qed.

Lemma prepare_closure_returns seed_paths deps limits token n :
  returns (prepare_closure seed_paths deps limits token n).
Proof.
  assert (forall A B (m : polling A) (f : A -> polling B) n,
    returns (m n) -> (forall a k, returns (f a k)) -> returns ((m ≫= f) n)) as Hbind.
  { intros A B m f k Hm Hf. apply returns_bind; [done|]. by intros [a k'] _. }
  assert (forall A (m : outcome A) k, returns m -> returns (lift m k)) as Hlift
    by (intros; by apply returns_bind).
  unfold prepare_closure. apply Hbind; [unfold poll; by case_match|intros _ ?].
  apply Hbind; [by apply Hlift, returns_if|intros _ ?].
  do 2 (apply Hbind; [by apply Hlift, returns_if|intros _ ?]).
  apply Hbind; [|intros [b seeds] ?].
  { apply (for_each_polling_returns (fun _ => True)); [done| |done]. intros x [b s] k' _ _.
    apply polled_step_returns. apply returns_bind; [auto with outcomes|]. intros _ _.
    apply returns_bind; [auto with outcomes|]. intros t _. by apply returns_if. }
  apply Hbind; [|intros input ?].
  { apply (for_each_polling_returns (fun _ => True)); [done| |done]. intros d s k' _ _.
    apply polled_step_returns. do 2 (apply returns_bind; [auto with outcomes|intros _ _]).
    apply returns_if; [done|]. intros _. apply returns_bind; [auto with outcomes|]. intros t _.
    by apply returns_if. }
  apply Hbind; [by apply Hlift, returns_if|intros _ ?]. apply Hbind; [|done]. apply Hlift.
  apply (for_each_returns (fun _ => True)); [done| |done]. intros s st _ _.
  apply returns_bind; [auto with outcomes|done].
Qed.

(** The closure returns on every input, cyclic graphs included:
    the loop over the queue ends, whatever the token observes. *)
Theorem reverse_dependency_closure_returns (seed_paths : list string)
    (deps : list ArchaeologySourceDependency) (limits : ArchaeologyInvalidationLimits)
    (token : StructuralGraphCancellation) (n : nat) :
  returns (reverse_dependency_closure seed_paths deps limits token n).
Proof.
  unfold reverse_dependency_closure, mbind, polling_bind.
  apply returns_bind; [apply prepare_closure_returns|]. intros [[reverse start] n1] Hp.
  apply prepare_closure_Ok in Hp as (seeds & Hnd & Hel & Hlen & Hrev & Hinv).
  apply returns_bind.
  - eapply walk_returns; [exact Hrev|exact Hinv|]. unfold universe. rewrite length_app, length_map.
    cbn. lia.
  - intros [st n2] _. apply returns_bind; [unfold poll; by case_match|]. by intros [] _.
Qed.

(** Cancellation can only replace the result by its own error:
    a cancelled run that returns a closure returns the one it would have
    returned undisturbed. *)
Theorem reverse_dependency_closure_cancellable (seed_paths : list string)
    (deps : list ArchaeologySourceDependency) (limits : ArchaeologyInvalidationLimits) :
  cancellable CANCELLED (reverse_dependency_closure seed_paths deps limits).
Proof.
  assert (forall A S (f : S -> A -> outcome S) s x,
    cancellable CANCELLED (fun token => _ ← poll token CANCELLED; lift (f s x))) as Hstep.
  { intros. apply cancellable_bind; auto with cancel. }
  assert (forall reverse st p, cancellable CANCELLED (fun token => expand token limits reverse st p)) as Hexp.
  { intros. unfold expand. apply cancellable_bind; [auto with cancel|]. intros _.
    apply cancellable_bind; [auto with cancel|]. intros entry.
    apply (cancellable_for_each _ (fun token st d => _ ← poll token CANCELLED; lift (visit limits (fst entry) st d))).
    intros. apply (Hstep _ _ (visit limits (fst entry))). }
  assert (forall reverse fuel st, cancellable CANCELLED (fun token => walk token limits reverse fuel st)) as Hwalk.
  { intros reverse fuel. induction fuel as [|fuel IH]; intros st; cbn [walk];
      destruct (queue st); auto with cancel. }
  unfold reverse_dependency_closure.
  apply (cancellable_bind _ (prepare_closure seed_paths deps limits) (fun token prepared =>
    st ← walk token limits (fst prepared) _ (snd prepared); _ ← poll token CANCELLED; mret _)).
  - unfold prepare_closure. repeat (apply cancellable_bind; [auto with cancel|intros _]).
    apply cancellable_bind; [|intros seeded; apply cancellable_bind; [|auto with cancel]].
    + apply (cancellable_for_each _ (fun token st path => _ ← poll token CANCELLED; lift (add_seed limits st path))).
      intros. apply (Hstep _ _ (add_seed limits)).
    + apply (cancellable_for_each _ (fun token st d => _ ← poll token CANCELLED; lift (add_dependency limits st d))).
      intros. apply (Hstep _ _ (add_dependency limits)).
  - intros prepared. apply (cancellable_bind _ (fun token => walk token limits _ _ _)); [apply Hwalk|].
    intros st. apply cancellable_bind; auto with cancel.
Qed.

(** * Classifying generation inputs *)

Definition input_key_of (x : ArchaeologyGenerationInput) : input_key := (kind x, scope x).
Definition entries (l : list ArchaeologyGenerationInput) : list (input_key * string) :=
  map (fun x => (input_key_of x, identity x)) l.
(** An input whose identity was added, removed or replaced. *)
Definition drifted (previous current : list ArchaeologyGenerationInput) (key : input_key) : Prop :=
  ~ (forall i, (key, i) ∈ entries previous <-> (key, i) ∈ entries current).

Definition global_key (key : input_key) : bool :=
  match key with
  | (Ignore, _) | (Config, _) | (Schema, _) | (Algorithm, _) => true
  | (Parser, Some s) => seqb s "global"
  | _ => false
  end.
Definition scoped_key (key : input_key) : bool :=
  match key with
  | (Head, _) => true
  | (Parser, Some s) => negb (seqb s "global")
  | _ => false
  end.
Definition synthesis_key (key : input_key) : bool := bool_decide (fst key = SynthesisPolicy).
Definition scope_ok (key : input_key) : Prop := needs_scope (fst key) = is_some (snd key).

(** The table of a list of inputs. *)
Definition table_of (l : list ArchaeologyGenerationInput) (m : input_table) : Prop :=
  map_wf m /\ (forall key i, map_get key m = Some i <-> (key, i) ∈ entries l) /\
  (forall key, key ∈ map_keys m -> scope_ok key).

Lemma input_map_Ok l m : input_map l = Ok m -> table_of l m.
Proof.
  apply (for_each_inv table_of).
  { split; [apply SSorted_nil|]. split; [|by intros key ?%elem_of_nil].
    intros key i. cbn. by rewrite elem_of_nil. }
  intros pre x suf s1 s2 _ (Hwf & Hget & Hscope) H. unfold add_input in H.
  rewrite then_Ok, !if_Err_Ok, then_Ok in H. destruct H as (_ & _ & Hsc%negb_false_iff%eqb_prop & _ & H).
  apply if_Err_Ok in H as [Hnew [= <-]].
  assert (map_get (kind x, scope x) s1 = None) as Hnone by (by destruct (map_get _ s1)).
  split; [by apply map_insert_wf|]. split.
  - intros key i. unfold entries in *. rewrite map_app, elem_of_app. cbn [map].
    rewrite list_elem_of_singleton, <- Hget. unfold input_key_of. destruct (decide (key = (kind x, scope x))) as [->|Hk].
    + rewrite map_get_insert_eq, Hnone by done. naive_solver.
    + rewrite map_get_insert_ne by done. naive_solver.
  - intros key [->|Hin]%elem_of_map_keys_insert; [done|auto].
Qed.

Lemma table_drifted p c pm cm key :
  table_of p pm -> table_of c cm -> map_get key pm <> map_get key cm <-> drifted p c key.
Proof.
  intros (_ & Hp & _) (_ & Hc & _). unfold drifted. setoid_rewrite <- Hp. setoid_rewrite <- Hc.
  apply not_iff_compat. split; [by intros ->|]. intros H. apply option_eq. apply H.
Qed.

(** What a changed key does, its scope being as validated. *)
Definition apply_change (d : drift) (key : input_key) : drift := {|
  d_changed_kinds := set_insert (fst key) (d_changed_kinds d);
  d_parser_scopes := match key with (Parser, Some s) => set_insert s (d_parser_scopes d)
                                  | _ => d_parser_scopes d end;
  d_synthesis_scopes := match key with (SynthesisPolicy, Some s) => set_insert s (d_synthesis_scopes d)
                                     | _ => d_synthesis_scopes d end;
  global := global_key key || global d;
  scoped := scoped_key key || scoped d;
  synthesis_only := synthesis_key key || synthesis_only d |}.

Lemma record_change_apply d key : scope_ok key -> record_change d key = Ok (apply_change d key).
Proof. destruct key as [[] [s|]]; cbn; intros [=]; done. Qed.

Definition changed_keys (pm cm : input_table) (keys : list input_key) : list input_key :=
  List.filter (fun key => negb (bool_decide (map_get key pm = map_get key cm))) keys.

Lemma classify_loop pm cm keys d :
  Forall scope_ok keys ->
  for_each (classify_key pm cm) d keys = Ok (foldl apply_change d (changed_keys pm cm keys)).
Proof.
  intros H. revert d. induction H as [|key keys Hk _ IH]; intros d; [done|].
  assert (classify_key pm cm d key =
    if bool_decide (map_get key pm = map_get key cm) then Ok d else Ok (apply_change d key)) as Hkey.
  { unfold classify_key. by rewrite record_change_apply. }
  cbn [for_each]. rewrite Hkey. unfold changed_keys. cbn [List.filter].
  destruct (bool_decide _); apply IH.
Qed.

(** What a list of changes adds up to. *)
Definition drift_of (l : list input_key) (d : drift) : Prop :=
  StronglySorted lt (d_changed_kinds d) /\ StronglySorted lt (d_parser_scopes d) /\
  StronglySorted lt (d_synthesis_scopes d) /\
  (forall k, k ∈ d_changed_kinds d <-> exists s, (k, s) ∈ l) /\
  (forall s, s ∈ d_parser_scopes d <-> (Parser, Some s) ∈ l) /\
  (forall s, s ∈ d_synthesis_scopes d <-> (SynthesisPolicy, Some s) ∈ l) /\
  global d = any global_key l /\ scoped d = any scoped_key l /\ synthesis_only d = any synthesis_key l.

Lemma any_app {A} (p : A -> bool) l k : any p (l ++ k) = any p l || any p k.
Proof. apply existsb_app. Qed.

Lemma foldl_drift l : drift_of l (foldl apply_change no_drift l).
Proof.
  induction l as [|key l IH] using rev_ind.
  { unfold drift_of. cbn. setoid_rewrite elem_of_nil.
    do 3 (split; [apply SSorted_nil|]). split; [naive_solver|done]. }
  rewrite foldl_app. cbn [foldl]. destruct IH as (Hs1 & Hs2 & Hs3 & Hk & Hp & Hs & Hg & Hsc & Hsy).
  unfold drift_of. setoid_rewrite elem_of_app. setoid_rewrite list_elem_of_singleton.
  rewrite !any_app. unfold any at 2 4 6. cbn [existsb]. rewrite !orb_false_r.
  rewrite <- Hg, <- Hsc, <- Hsy, (orb_comm (global _)), (orb_comm (scoped _)), (orb_comm (synthesis_only _)).
  destruct key as [k s]. cbn [apply_change d_changed_kinds d_parser_scopes d_synthesis_scopes global scoped
    synthesis_only fst].
  split; [by apply set_insert_sorted|].
  split; [destruct k, s; try done; by apply set_insert_sorted|].
  split; [destruct k, s; try done; by apply set_insert_sorted|].
  split; [intros k'; rewrite elem_of_set_insert, Hk; naive_solver|].
  split; [|split; [|done]].
  - intros s'. rewrite <- Hp. destruct k, s; rewrite ?elem_of_set_insert; naive_solver.
  - intros s'. rewrite <- Hs. destruct k, s; rewrite ?elem_of_set_insert; naive_solver.
Qed.

Lemma classify_Ok p c :
  (is_Ok (classify_generation_input_changes p c) <-> is_Ok (input_map p) /\ is_Ok (input_map c)) /\
  forall r, classify_generation_input_changes p c = Ok r ->
    exists l d, drift_of l d /\ (forall key, key ∈ l <-> drifted p c key /\ scope_ok key) /\
      (forall key, drifted p c key -> scope_ok key) /\
      r = {| mode := mode_of d; changed_kinds := d_changed_kinds d; parser_scopes := d_parser_scopes d;
             synthesis_policy_scopes := d_synthesis_scopes d |}.
Proof.
  unfold classify_generation_input_changes.
  destruct (input_map p) as [pm|e|e] eqn:Ep; [|split; [split; [by intros [? ?]|by intros [[? ?] _]]|done]..].
  destruct (input_map c) as [cm|e|e] eqn:Ec; [|split; [split; [by intros [? ?]|by intros [_ [? ?]]]|done]..].
  apply input_map_Ok in Ep as Hp, Ec as Hc. cbn.
  set (keys := set_of_list (map_keys pm ++ map_keys cm)).
  assert (forall key, key ∈ keys <-> key ∈ map_keys pm \/ key ∈ map_keys cm) as Hkeys
    by (intros key; unfold keys; rewrite elem_of_set_of_list, elem_of_app; done).
  assert (Forall scope_ok keys) as Hscope.
  { apply Forall_forall. intros key [Hin|Hin]%Hkeys; [by apply Hp|by apply Hc]. }
  rewrite (classify_loop _ _ _ _ Hscope). cbn. split; [split; [intros _|intros _; apply is_Ok_Ok]|].
  { split; apply is_Ok_Ok. }
  intros r [= <-]. exists (changed_keys pm cm keys), (foldl apply_change no_drift (changed_keys pm cm keys)).
  assert (forall key, drifted p c key -> key ∈ keys) as Hin.
  { intros key Hd. apply (table_drifted _ _ _ _ _ Hp Hc) in Hd. apply Hkeys. rewrite <- !map_get_is_Some.
    destruct (map_get key pm) eqn:E1; [left; eauto|]. destruct (map_get key cm) eqn:E2; [right; eauto|done]. }
  rewrite Forall_forall in Hscope.
  split; [apply foldl_drift|]. split; [|split; [|done]].
  - intros key. unfold changed_keys. rewrite list_elem_of_In, filter_In, <- list_elem_of_In.
    rewrite negb_true_iff, bool_decide_eq_false, (table_drifted _ _ _ _ _ Hp Hc). split; [|naive_solver].
    intros [Hk Hd]. auto.
  - auto.
Qed.

(** Two sets of generation inputs are classified exactly when both are
    valid; the decision names exactly the kinds and scopes whose identity was
    added, removed or replaced; and its mode is a global rebuild when an
    ignore, configuration, schema, algorithm or global parser input drifted,
    else scoped when the head or a scoped parser did, else synthesis only when
    a synthesis policy did, and nothing to do only when nothing drifted. *)
Theorem classify_generation_input_changes_spec (p c : list ArchaeologyGenerationInput) :
  (is_Ok (classify_generation_input_changes p c) <-> is_Ok (input_map p) /\ is_Ok (input_map c)) /\
  forall r, classify_generation_input_changes p c = Ok r ->
    (forall k, k ∈ changed_kinds r <-> exists s, drifted p c (k, s)) /\
    (forall s, s ∈ parser_scopes r <-> drifted p c (Parser, Some s)) /\
    (forall s, s ∈ synthesis_policy_scopes r <-> drifted p c (SynthesisPolicy, Some s)) /\
    let some (q : input_key -> bool) := exists key, drifted p c key /\ q key = true in
    match mode r with
    | GlobalRebuild => some global_key
    | Scoped => some scoped_key /\ ~ some global_key
    | SynthesisOnly => some synthesis_key /\ ~ some scoped_key /\ ~ some global_key
    | NoOp => forall key, ~ drifted p c key
    end.
Proof.
  destruct (classify_Ok p c) as [Hok Hr]. split; [done|]. intros r H.
  destruct (Hr r H) as (l & d & (_ & _ & _ & Hk & Hp & Hs & Hg & Hsc & Hsy) & Hl & Hall & ->). clear Hr H.
  assert (forall key, key ∈ l <-> drifted p c key) as Hl' by (intros key; rewrite Hl; naive_solver).
  cbn [changed_kinds parser_scopes synthesis_policy_scopes mode].
  split; [intros k; rewrite Hk; by setoid_rewrite Hl'|].
  split; [intros s; by rewrite Hp, Hl'|]. split; [intros s; by rewrite Hs, Hl'|].
  assert (forall q, any q l = true <-> exists key, drifted p c key /\ q key = true) as Hany.
  { intros q. rewrite any_true. by setoid_rewrite Hl'. }
  unfold mode_of. rewrite Hg, Hsc, Hsy. cbv zeta.
  destruct (any global_key l) eqn:Eg; [by apply Hany|].
  destruct (any scoped_key l) eqn:Es; [split; [by apply Hany|rewrite <- Hany; congruence]|].
  destruct (any synthesis_key l) eqn:Ey;
    [split; [by apply Hany|split; rewrite <- Hany; congruence]|].
  intros key Hd.
  pose proof (Hall key Hd) as Hsok. apply Hl' in Hd.
  rewrite any_false in Eg, Es, Ey. specialize (Eg key Hd). specialize (Es key Hd). specialize (Ey key Hd).
  destruct key as [[] [s|]]; cbn in *; try done. by rewrite Eg in Es.
Qed.
