(* ===== verification/InvalidationComplete.v ===== *)
(** When the reverse dependency closure of [Invalidation] is returned.

    [Invalidation] shows that a returned closure is the specified one and that
    the walk ends.  Here the bounds are shown to be exact: undisturbed, a
    list is returned if and only if the input is valid and it is the specified
    closure and fits the limits on paths, depth and bytes.  The byte account the
    walk keeps is the size of what it has found, and what it has found is at
    each point part of the specified closure. *)
From S2P Require Import Prelude Ordering RustText GraphTypes Contracts Invalidation.
Local Open Scope N_scope.

(** * Accounts *)

(** The saturated account of a growing total. *)
Lemma add_bounded_total t value limit r :
  add_bounded (N.min t usize_max) value limit = Ok r <->
  r = N.min (t + value) usize_max /\ r <= limit.
Proof.
  unfold add_bounded, saturating_add. rewrite if_Err_Ok, N.ltb_ge, Ok_inj_iff.
  replace (N.min (N.min t usize_max + value) usize_max) with (N.min (t + value) usize_max) by lia.
  naive_solver.
Qed.

Lemma map_insert_old_perm {K V} `{RustOrd K} (m : BTreeMap K V) k v' :
  map_wf m -> map_get k m = Some v' ->
  exists rest, m ≡ₚ (k, v') :: rest /\ forall v, map_insert k v m ≡ₚ (k, v) :: rest.
Proof.
  unfold map_wf. induction m as [|[k1 v1] m IH]; cbn; [done|]. intros [Hm Hk1]%StronglySorted_inv.
  destruct (cmp k k1) eqn:E; intros Hg.
  - apply cmp_eq_iff in E as ->. injection Hg as ->. exists m. split; [done|]. intros v. done.
  - assert (k ∈ map_keys m) as Hin by (apply map_get_is_Some; eauto).
    rewrite Forall_forall in Hk1. apply Hk1 in Hin. destruct (lt_asym k1 k Hin E).
  - destruct (IH Hm Hg) as (rest & Hr & Hins). exists ((k1, v1) :: rest). split.
    + rewrite Hr. constructor.
    + intros v. rewrite Hins. constructor.
Qed.

(** * An undisturbed loop *)

Section Quiet.
Context (token : StructuralGraphCancellation) (Hquiet : forall k, observed token k = false).

Lemma poll_quiet {B} message (m : polling B) n :
  (_ ← poll token message; m) n = m (S n).
Proof. unfold mbind, polling_bind, poll. by rewrite Hquiet. Qed.

Lemma for_each_quiet {A S} message (f : S -> A -> outcome S) s l n :
  for_each_polling (fun s x => _ ← poll token message; lift (f s x)) s l n =
  (s' ← for_each f s l; Ok (s', (n + length l)%nat)).
Proof.
  revert s n. induction l as [|x l IH]; intros s n; cbn [for_each_polling for_each length].
  - cbn. by rewrite Nat.add_0_r.
  - unfold mbind at 1, polling_bind. rewrite poll_quiet. unfold lift.
    destruct (f s x) as [s'| |]; cbn; [|done|done]. rewrite IH. by rewrite Nat.add_succ_r.
Qed.
End Quiet.

(** * Which inputs are valid *)

Section Input.
Context (limits : ArchaeologyInvalidationLimits).

Definition identity_ok (v : string) : Prop :=
  v <> ""%string /\ blen v <= max_identity_bytes limits /\
  Forall (fun b => is_ascii_control b = false /\ is_ascii_whitespace b = false) (bytes v).

Lemma validate_identity_Ok v label :
  validate_identity v (max_identity_bytes limits) label = Ok tt <-> identity_ok v.
Proof.
  unfold validate_identity, identity_ok. rewrite if_Err_Ok, !orb_false_iff, N.ltb_ge, any_false, Forall_forall.
  assert (is_empty v = false <-> v <> ""%string) as -> by (by destruct v).
  split; [intros ([[Hv Hl] Hb] & _)|intros (Hv & Hl & Hb)]; split_and!; try done.
  - intros b Hin. by apply orb_false_iff, Hb.
  - intros b Hin. by apply orb_false_iff, Hb.
Qed.

Definition dependency_ok (d : ArchaeologySourceDependency) : Prop :=
  identity_ok (dependent_path_identity d) /\ identity_ok (prerequisite_path_identity d) /\
  dependent_path_identity d <> prerequisite_path_identity d.
Definition dependency_size (d : ArchaeologySourceDependency) : N :=
  blen (dependent_path_identity d) + blen (prerequisite_path_identity d) + 16.
Definition dependency_key (d : ArchaeologySourceDependency) : edge_key :=
  (dependent_path_identity d, (prerequisite_path_identity d, dependency_kind d)).

(** What a request must satisfy before anything is walked. *)
Definition closure_input_ok (seed_paths : list string) (deps : list ArchaeologySourceDependency) : Prop :=
  validate_limits limits = Ok tt /\
  len seed_paths <= max_seed_paths limits /\ len deps <= max_dependencies limits /\
  Forall identity_ok seed_paths /\ NoDup seed_paths /\
  Forall dependency_ok deps /\ NoDup deps /\
  N.min (total blen seed_paths + total dependency_size deps) usize_max <= max_input_bytes limits.

Lemma add_seed_iff t s x st' :
  add_seed limits (N.min t usize_max, s) x = Ok st' <->
  identity_ok x /\ x ∉ s /\ N.min (t + blen x) usize_max <= max_input_bytes limits /\
  st' = (N.min (t + blen x) usize_max, set_insert x s).
Proof.
  unfold add_seed. rewrite then_Ok, validate_identity_Ok, bind_Ok. setoid_rewrite add_bounded_total.
  setoid_rewrite if_Err_Ok. setoid_rewrite set_contains_false. setoid_rewrite Ok_inj_iff. split.
  - intros (Hx & r & (-> & Hr) & Hin & <-). done.
  - intros (Hx & Hin & Hr & ->). eauto 10.
Qed.

Lemma seeds_loop l st :
  for_each (add_seed limits) (0, []) l = Ok st <->
  Forall identity_ok l /\ NoDup l /\ (l = [] \/ N.min (total blen l) usize_max <= max_input_bytes limits) /\
  st = (N.min (total blen l) usize_max, set_of_list l).
Proof.
  revert st. induction l as [|x l IH] using rev_ind; intros st.
  { cbn. rewrite Ok_inj_iff. split; [intros <-; repeat constructor|by intros (_ & _ & _ & ->)]. }
  rewrite for_each_app, bind_Ok, Forall_app, Forall_singleton, NoDup_snoc, total_snoc, set_of_list_snoc.
  setoid_rewrite IH. cbn [for_each].
  assert (forall m : outcome (N * BTreeSet string), (s' ← m; Ok s') = m) as Hret by (by intros []).
  setoid_rewrite Hret. split.
  - intros (s & (Hl & Hnd & Hb & ->) & (Hx & Hin & Hb' & ->)%add_seed_iff).
    rewrite elem_of_set_of_list in Hin. naive_solver.
  - intros ((Hl & Hx) & (Hin & Hnd) & Hb & ->). eexists. split; [split_and!; try done|].
    + destruct Hb as [Hb|Hb]; [by destruct l|]. right. lia.
    + apply add_seed_iff. rewrite elem_of_set_of_list. destruct Hb as [Hb|Hb]; [by destruct l|done].
Qed.

Lemma add_dependency_iff t st d st' :
  input_bytes st = N.min t usize_max -> add_dependency limits st d = Ok st' <->
  dependency_ok d /\ dependency_key d ∉ unique_edges st /\
  N.min (t + dependency_size d) usize_max <= max_input_bytes limits /\
  st' = {| input_bytes := N.min (t + dependency_size d) usize_max;
           unique_edges := set_insert (dependency_key d) (unique_edges st);
           reverse_edges := map_insert (prerequisite_path_identity d)
             (edges_of (reverse_edges st) (prerequisite_path_identity d) ++ [d]) (reverse_edges st) |}.
Proof.
  intros Ht. unfold add_dependency, dependency_ok. rewrite !then_Ok, !validate_identity_Ok, if_Err_Ok, bind_Ok, Ht.
  setoid_rewrite add_bounded_total. setoid_rewrite if_Err_Ok. setoid_rewrite set_contains_false.
  setoid_rewrite Ok_inj_iff. rewrite seqb_false. fold (dependency_key d).
  assert (N.min (t + saturating_add (saturating_add (blen (dependent_path_identity d))
    (blen (prerequisite_path_identity d))) 16) usize_max = N.min (t + dependency_size d) usize_max) as Hs.
  { unfold saturating_add, dependency_size. lia. }
  rewrite Hs. split.
  - intros (Hd & Hp & Hne & r & (-> & Hr) & Hin & <-). done.
  - intros ((Hd & Hp & Hne) & Hin & Hr & ->). eauto 10.
Qed.

Lemma dependencies_loop_Ok t st0 l st :
  input_bytes st0 = N.min t usize_max -> unique_edges st0 = [] ->
  for_each (add_dependency limits) st0 l = Ok st ->
  Forall dependency_ok l /\ NoDup (map dependency_key l) /\
  (l = [] \/ N.min (t + total dependency_size l) usize_max <= max_input_bytes limits) /\
  input_bytes st = N.min (t + total dependency_size l) usize_max /\
  unique_edges st = set_of_list (map dependency_key l).
Proof.
  intros Ht Hu. apply (for_each_inv (fun l st => Forall dependency_ok l /\ NoDup (map dependency_key l) /\
    (l = [] \/ N.min (t + total dependency_size l) usize_max <= max_input_bytes limits) /\
    input_bytes st = N.min (t + total dependency_size l) usize_max /\
    unique_edges st = set_of_list (map dependency_key l))).
  - cbn. rewrite N.add_0_r. split_and!; [constructor|constructor|by left|done|done].
  - intros pre d suf s1 s2 _ (Hok & Hnd & _ & Hb & Hun) H.
    apply (add_dependency_iff _ _ _ _ Hb) in H as (Hd & Hin & Hr & ->). cbn.
    rewrite map_app, total_snoc, N.add_assoc. cbn [map]. rewrite set_of_list_snoc, <- Hun.
    rewrite Forall_app, Forall_singleton, NoDup_snoc.
    rewrite Hun, elem_of_set_of_list in Hin. rewrite Hun. split_and!; auto.
Qed.

Lemma dependencies_loop_progress t st0 l :
  input_bytes st0 = N.min t usize_max -> unique_edges st0 = [] ->
  Forall dependency_ok l -> NoDup (map dependency_key l) ->
  N.min (t + total dependency_size l) usize_max <= max_input_bytes limits ->
  exists st, for_each (add_dependency limits) st0 l = Ok st.
Proof.
  intros Ht Hu Hok Hnd Hb.
  destruct (for_each_progress (fun pre st => input_bytes st = N.min (t + total dependency_size pre) usize_max /\
    unique_edges st = set_of_list (map dependency_key pre)) (add_dependency limits) st0 l) as (st & Hst & _);
    [|clear Ht Hu|by eauto].
  - cbn. by rewrite N.add_0_r.
  - intros pre d suf st -> (Hbs & Hus). eexists. split.
    + apply (add_dependency_iff _ _ _ _ Hbs). rewrite Forall_app, Forall_cons in Hok.
      rewrite map_app in Hnd. cbn in Hnd. apply NoDup_app in Hnd as (_ & Hdis & _).
      rewrite total_app in Hb. cbn in Hb. split_and!; [apply Hok| |lia|reflexivity].
      rewrite Hus, elem_of_set_of_list. intros Hin. apply (Hdis _ Hin). left.
    + cbn. rewrite total_snoc, map_app, N.add_assoc. cbn [map]. by rewrite set_of_list_snoc, Hus.
Qed.

Lemma dependency_key_NoDup l : NoDup (map dependency_key l) <-> NoDup l.
Proof.
  assert (Inj (=) (=) dependency_key) as Hinj.
  { intros [a b k] [a' b' k']. unfold dependency_key. cbn. by intros [= -> -> ->]. }
  split; [apply NoDup_fmap_1|apply (NoDup_fmap_2 dependency_key)].
Qed.

Definition root_size (s : string) : N := blen s + 16.
Lemma roots_loop l :
  N.min (total root_size l) usize_max <= max_output_bytes limits ->
  exists st, for_each (add_root limits) {| discovered := []; queue := []; output_bytes := 0 |} l = Ok st.
Proof.
  intros Hb.
  destruct (for_each_progress (fun pre st => output_bytes st = N.min (total root_size pre) usize_max)
    (add_root limits) {| discovered := []; queue := []; output_bytes := 0 |} l) as (st & Hst & _);
    [done| |by eauto].
  intros pre s suf st -> Hst. unfold add_root. rewrite total_app in Hb. cbn in Hb. fold (root_size s).
  assert (add_bounded (output_bytes st) (root_size s) (max_output_bytes limits) =
    Ok (N.min (total root_size pre + root_size s) usize_max)) as ->.
  { rewrite Hst. apply add_bounded_total. split; [done|lia]. }
  cbn. eexists. split; [done|]. cbn. by rewrite total_snoc.
Qed.
End Input.

(** * What the walk has found is part of the closure *)

Definition entry_size (e : ArchaeologyInvalidatedPath) : N :=
  blen (invalidated_path_identity e) + (if depth e =? 0 then 16 else 8 + 16 * len (via e)).
Definition found (st : walk_state) : list ArchaeologyInvalidatedPath := map invalidated (discovered st).
(** The walk's byte account is the size of what it has found. *)
Definition accounted (st : walk_state) : Prop :=
  output_bytes st = N.min (total entry_size (found st)) usize_max.

Lemma entry_size_invalidated v m ks :
  entry_size (invalidated (v, (m, ks))) = blen v + (if m =? 0 then 16 else 8 + 16 * len ks).
Proof. done. Qed.

Lemma found_insert_new disc v m ks :
  map_get v disc = None ->
  total entry_size (map invalidated (map_insert v (m, ks) disc)) =
  total entry_size (map invalidated disc) + entry_size (invalidated (v, (m, ks))).
Proof. intros Hv. rewrite (map_insert_perm _ _ _ Hv). cbn [map total]. lia. Qed.

Lemma found_insert_old disc v m ks m' ks' :
  map_wf disc -> map_get v disc = Some (m, ks) ->
  total entry_size (map invalidated (map_insert v (m', ks') disc)) + entry_size (invalidated (v, (m, ks))) =
  total entry_size (map invalidated disc) + entry_size (invalidated (v, (m', ks'))).
Proof.
  intros Hwf Hv. destruct (map_insert_old_perm _ _ _ Hwf Hv) as (rest & Hr & Hins).
  rewrite Hins, Hr. cbn [map total]. lia.
Qed.

Section Progress.
Context (seeds : list string) (deps : list ArchaeologySourceDependency).
Context (limits : ArchaeologyInvalidationLimits).
Notation walk_inv := (walk_inv seeds deps limits).

(** The state an examined dependency leads to, as far as the bounds allow. *)
Definition visited (level : N) (st : walk_state) (d : ArchaeologySourceDependency) : walk_state :=
  let v := dependent_path_identity d in
  let k := dependency_kind d in
  match map_get v (discovered st) with
  | Some (m, ks) =>
      let more := negb (m =? 0) && negb (set_contains k ks) in
      {| discovered := map_insert v (m, if more then set_insert k ks else ks) (discovered st);
         queue := queue st;
         output_bytes := if more then N.min (output_bytes st + 16) usize_max else output_bytes st |}
  | None =>
      {| discovered := map_insert v (level + 1, [k]) (discovered st); queue := queue st ++ [v];
         output_bytes := N.min (output_bytes st + (blen v + 24)) usize_max |}
  end.

Lemma visit_visited seen processed level st d :
  walk_inv seen processed level st -> level < usize_max ->
  (map_get (dependent_path_identity d) (discovered st) = None ->
     level + 1 <= max_depth limits /\ len (discovered st) <> max_invalidated_paths limits) ->
  output_bytes (visited level st d) <= max_output_bytes limits ->
  visit limits level st d = Ok (visited level st d).
Proof.
  intros Hinv Hlevel Hnew Hout. unfold visit, visited in *.
  assert (checked_add level 1 = Some (level + 1)) as ->.
  { unfold checked_add. rewrite (proj2 (N.leb_le _ _)); [done|]. unfold usize_max in *. lia. }
  cbn. destruct (map_get _ _) as [[m ks]|] eqn:E.
  - assert (map_contains_key (dependent_path_identity d) (discovered st) = true) as ->.
    { apply map_contains_key_true, map_get_is_Some. eauto. }
    rewrite andb_false_r. apply (wi_level _ _ _ _ _ _ _ Hinv) in E.
    assert (level + 1 <? m = false) as -> by (apply N.ltb_ge; lia).
    destruct (negb (m =? 0) && negb (set_contains (dependency_kind d) ks)); [|done].
    unfold add_bounded, saturating_add. cbn in Hout. by rewrite (proj2 (N.ltb_ge _ _)).
  - destruct (Hnew eq_refl) as [Hdepth Hlen]. rewrite (proj2 (N.ltb_ge _ _) Hdepth). cbn.
    rewrite (proj2 (N.eqb_neq _ _) Hlen). unfold add_bounded, saturating_add. cbn in Hout.
    by rewrite (proj2 (N.ltb_ge _ _)).
Qed.

Lemma visited_accounted seen processed level st d :
  walk_inv seen processed level st -> accounted st -> accounted (visited level st d).
Proof.
  intros Hinv Hacc. unfold accounted, visited, found in *. destruct (map_get _ _) as [[m ks]|] eqn:E; cbn.
  - pose proof (found_insert_old _ _ _ _ m
      (if negb (m =? 0) && negb (set_contains (dependency_kind d) ks)
       then set_insert (dependency_kind d) ks else ks) (wi_wf _ _ _ _ _ _ _ Hinv) E) as Hsum.
    rewrite !entry_size_invalidated in Hsum. rewrite Hacc.
    destruct (m =? 0); cbn [negb andb] in *; [lia|].
    destruct (set_contains (dependency_kind d) ks) eqn:Ek; cbn [negb] in *; [lia|].
    apply set_contains_false in Ek. unfold len in Hsum. rewrite set_insert_length_new in Hsum by done. lia.
  - rewrite (found_insert_new _ _ _ _ E), Hacc, entry_size_invalidated.
    destruct (level + 1 =? 0) eqn:Em; [apply N.eqb_eq in Em; lia|]. unfold len. cbn. lia.
Qed.
Lemma visit_is_visited seen processed level st d st' :
  walk_inv seen processed level st -> visit limits level st d = Ok st' -> st' = visited level st d.
Proof.
  intros Hinv H. unfold visit in H. apply bind_Ok in H as (next & Hn & H). apply ok_or_Ok in Hn.
  unfold checked_add in Hn. destruct (_ <=? _); [|done]. injection Hn as <-.
  apply if_Err_Ok in H as [_ H]. unfold visited. destruct (map_get _ _) as [[m ks]|] eqn:E.
  - apply (wi_level _ _ _ _ _ _ _ Hinv) in E. apply bind_Ok in H as ([ks' t] & Hks & H).
    assert (level + 1 <? m = false) as Hlt by (apply N.ltb_ge; lia). rewrite Hlt in H. injection H as <-.
    destruct (negb (m =? 0) && negb (set_contains (dependency_kind d) ks)).
    + apply bind_Ok in Hks as (t' & Ht & [= <- <-]). apply if_Err_Ok in Ht as [_ [= <-]]. done.
    + by injection Hks as <- <-.
  - apply if_Err_Ok in H as [_ H]. apply bind_Ok in H as (t & Ht & [= <-]).
    apply if_Err_Ok in Ht as [_ [= <-]]. done.
Qed.

(** ** Bounded by a closure that fits *)

Context (out : list ArchaeologyInvalidatedPath) (Hspec : closure_spec seeds deps out).

Definition entry_within (v : string) (m : N) (ks : list ArchaeologySourceDependencyKind) : Prop :=
  exists e, e ∈ out /\ invalidated_path_identity e = v /\ (depth e =? 0) = (m =? 0) /\
    NoDup ks /\ forall k, k ∈ ks -> k ∈ via e.
Definition state_within (disc : list (string * (N * list ArchaeologySourceDependencyKind))) : Prop :=
  map_wf disc /\ forall v m ks, map_get v disc = Some (m, ks) -> entry_within v m ks.

Lemma within_bounded disc :
  state_within disc ->
  len disc <= len out /\ total entry_size (map invalidated disc) <= total entry_size out.
Proof.
  intros [Hwf Hin].
  destruct (total_dominated invalidated_path_identity entry_size (map invalidated disc) out) as [Hl Ht].
  - rewrite map_map. apply (map_keys_NoDup _ Hwf).
  - intros x ([v [m ks]] & -> & Hx)%list_elem_of_fmap. apply map_get_Some in Hx; [|done].
    destruct (Hin _ _ _ Hx) as (e & He & Hv & Hd & Hnd & Hks). exists e. split_and!; [done|done|].
    rewrite entry_size_invalidated. unfold entry_size. rewrite Hv, Hd.
    assert (len ks <= len (via e)); [|case_match; lia].
    assert (length ks <= length (via e))%nat; [|unfold len; lia].
    by apply submseteq_length, NoDup_submseteq.
  - rewrite length_map in Hl. unfold len. lia.
Qed.

Lemma within_insert disc v m ks :
  state_within disc -> entry_within v m ks -> state_within (map_insert v (m, ks) disc).
Proof.
  intros [Hwf Hin] Hv. split; [by apply map_insert_wf|]. intros u n us.
  rewrite get_insert by done. case_decide as Hu; [|apply Hin]. subst u. by intros [= <- <-].
Qed.

(** The dependencies seen are those of the processed paths, but perhaps not yet
    all of the one being expanded. *)
Definition frontier (seen : list ArchaeologySourceDependency) (processed : list string) (p : string) : Prop :=
  (forall d, d ∈ seen -> prerequisite_path_identity d ∈ processed) /\
  (forall d, d ∈ deps -> prerequisite_path_identity d ∈ processed ->
     prerequisite_path_identity d <> p -> d ∈ seen).

Lemma inv_affected seen processed level st v :
  walk_inv seen processed level st -> v ∈ map_keys (discovered st) -> affected seeds deps v.
Proof.
  intros Hinv [[m ks] Hv]%map_get_is_Some. exists m. by eapply wi_hops.
Qed.

Lemma inv_within seen processed level st p :
  walk_inv seen processed level st -> frontier seen processed p -> state_within (discovered st).
Proof.
  intros Hinv [Hfront _]. split; [apply Hinv|]. intros v m ks Hv. destruct Hspec as (_ & Hpaths & Hent).
  assert (v ∈ map invalidated_path_identity out) as (e & -> & He)%list_elem_of_fmap.
  { apply Hpaths. eapply inv_affected; [done|]. apply map_get_is_Some. eauto. }
  destruct (Hent e He) as (Hh & Hmin & _ & Hvia). exists e. split; [done|]. split; [done|].
  assert (hops seeds deps m (invalidated_path_identity e)) as Hm by (by eapply wi_hops).
  destruct (wi_via _ _ _ _ _ _ _ Hinv _ _ _ Hv) as [Hsort Hks].
  assert ((depth e =? 0) = (m =? 0)) as Hzero.
  { apply Hmin in Hm. destruct (N.eqb_spec (depth e) 0) as [E|E], (N.eqb_spec m 0); try done; [|lia].
    rewrite E in Hh. apply hops_zero in Hh. apply (wi_seeds _ _ _ _ _ _ _ Hinv) in Hh as [us Hus].
    rewrite Hv in Hus. by injection Hus. }
  split_and!; [done|by apply sorted_NoDup|]. intros k (Hne & d & Hd & Hdv & Hdk)%Hks. apply Hvia. split.
  - apply N.eqb_neq. rewrite Hzero. by apply N.eqb_neq.
  - exists d. split_and!; [by apply (wi_seen _ _ _ _ _ _ _ Hinv)|done|done|].
    eapply inv_affected; [done|]. rewrite (wi_keys _ _ _ _ _ _ _ Hinv). apply elem_of_app. left. by apply Hfront.
Qed.

(** Every path nearer than the level has been found. *)
Lemma undiscovered_far seen processed level st p v n :
  walk_inv seen processed level st -> frontier seen processed p -> depth_in (discovered st) p = level ->
  map_get v (discovered st) = None -> hops seeds deps n v -> level < n.
Proof.
  intros Hinv [_ Hfront] Hp Hv Hh.
  enough (forall n v, hops seeds deps n v -> n <= level ->
    exists m ks, map_get v (discovered st) = Some (m, ks) /\ m <= n) as Hfound.
  { destruct (N.lt_ge_cases level n) as [Hlt|Hge]; [done|].
    destruct (Hfound n v Hh Hge) as (m & ks & Hm & _). congruence. }
  clear v n Hv Hh. induction 1 as [s Hs|n d Hd _ IH]; intros Hle.
  - apply (wi_seeds _ _ _ _ _ _ _ Hinv) in Hs as [ks Hks]. exists 0, ks. split; [done|lia].
  - destruct IH as (m & ks & Hm & Hmn); [lia|].
    assert (depth_in (discovered st) (prerequisite_path_identity d) = m) as Hdm by (by eapply depth_in_get).
    assert (prerequisite_path_identity d ∈ processed) as Hproc.
    { assert (prerequisite_path_identity d ∈ map_keys (discovered st)) as Hk
        by (apply map_get_is_Some; eauto).
      rewrite (wi_keys _ _ _ _ _ _ _ Hinv) in Hk. apply elem_of_app in Hk as [Hk|Hk]; [done|].
      apply (wi_ahead _ _ _ _ _ _ _ Hinv) in Hk. lia. }
    assert (d ∈ seen) as Hseen by (apply Hfront; [done|done|]; intros Heq; rewrite Heq in Hdm; lia).
    apply (wi_seen _ _ _ _ _ _ _ Hinv) in Hseen as (_ & m' & ks' & Hm' & Hle'). exists m', ks'.
    split; [done|]. lia.
Qed.
Lemma visited_within seen processed level st p d :
  walk_inv seen processed level st -> frontier seen processed p -> d ∈ deps ->
  prerequisite_path_identity d ∈ map_keys (discovered st) ->
  hops seeds deps level (prerequisite_path_identity d) ->
  state_within (discovered (visited level st d)).
Proof.
  intros Hinv Hfront Hd Hp Hh. pose proof (inv_within _ _ _ _ _ Hinv Hfront) as Hw.
  assert (forall e, e ∈ out -> invalidated_path_identity e = dependent_path_identity d -> depth e <> 0 ->
    dependency_kind d ∈ via e) as Hkind.
  { intros e He Hv Hne. destruct Hspec as (_ & _ & Hent). apply (Hent e He). split; [done|].
    exists d. split_and!; [done|done|done|]. by eapply inv_affected. }
  unfold visited. destruct (map_get _ _) as [[m ks]|] eqn:E; cbn; apply within_insert; try done.
  - destruct (proj2 Hw _ _ _ E) as (e & He & Hv & Hz & Hnd & Hks). exists e. split_and!; try done.
    + destruct (m =? 0), (set_contains _ ks) eqn:Ek; cbn; try done.
      apply set_insert_NoDup; [by apply set_contains_false|done].
    + intros k. destruct (m =? 0) eqn:Em; cbn; [apply Hks|]. case_match; [|apply Hks].
      intros [->|Hk]%elem_of_set_insert; [|by apply Hks]. apply Hkind; [done|done|]. by apply N.eqb_neq.
  - destruct Hspec as (_ & Hpaths & Hent).
    assert (dependent_path_identity d ∈ map invalidated_path_identity out) as (e & Hv & He)%list_elem_of_fmap.
    { apply Hpaths. exists (level + 1). by constructor. }
    assert (depth e <> 0) as Hne.
    { intros Hz. destruct (Hent e He) as (He0 & _). rewrite Hz, <- Hv in He0. apply hops_zero in He0.
      apply (wi_seeds _ _ _ _ _ _ _ Hinv) in He0 as [us Hus]. congruence. }
    exists e. split_and!; [done|done| |apply NoDup_singleton|].
    + rewrite (proj2 (N.eqb_neq _ _) Hne). symmetry. apply N.eqb_neq. lia.
    + intros k ->%list_elem_of_singleton. by apply Hkind.
Qed.

Context (Hpaths : len out <= max_invalidated_paths limits).
Context (Hdepths : Forall (fun e => depth e <= max_depth limits) out).
Context (Hbytes : N.min (total entry_size out) usize_max <= max_output_bytes limits).
Context (Hmax : max_depth limits < usize_max).

Lemma visit_progress seen processed level st p d :
  walk_inv seen processed level st -> frontier seen processed p -> d ∈ deps ->
  prerequisite_path_identity d = p -> (exists ks, map_get p (discovered st) = Some (level, ks)) ->
  accounted st -> visit limits level st d = Ok (visited level st d).
Proof.
  intros Hinv Hfront Hd Hdp [ks Hp] Hacc.
  assert (hops seeds deps level p) as Hh by (by eapply wi_hops).
  assert (level <= max_depth limits) as Hlevel by (by eapply (wi_bounds _ _ _ _ _ _ _ Hinv)).
  assert (state_within (discovered (visited level st d))) as Hw.
  { eapply visited_within; [done|done|done| |]; rewrite Hdp; [|done]. apply map_get_is_Some. eauto. }
  destruct (within_bounded _ Hw) as [Hlen Hsize].
  eapply visit_visited; [done|lia| |].
  - intros Hnone. destruct Hspec as (_ & Hp' & Hent).
    assert (dependent_path_identity d ∈ map invalidated_path_identity out) as (e & Hv & He)%list_elem_of_fmap.
    { apply Hp'. exists (level + 1). constructor; [done|]. by rewrite Hdp. }
    rewrite Hv in Hnone.
    assert (level < depth e) as Hfar.
    { eapply undiscovered_far; [done|done|by eapply depth_in_get|exact Hnone|]. by apply Hent. }
    rewrite Forall_forall in Hdepths. pose proof (Hdepths e He). split; [lia|].
    unfold visited in Hlen. rewrite Hv, Hnone in Hlen. cbn in Hlen. unfold len in *.
    rewrite (map_insert_length_new _ _ _ Hnone) in Hlen. lia.
  - rewrite (visited_accounted _ _ _ _ d Hinv Hacc). unfold found. lia.
Qed.

Section Run.
Context (token : StructuralGraphCancellation) (Hquiet : forall k, observed token k = false).
Context (reverse : list (string * list ArchaeologySourceDependency)).
Context (Hrev : reverse_of deps reverse).

Lemma expand_progress seen processed level st p n :
  walk_inv seen processed level st -> frontier seen processed p -> p ∈ processed ->
  depth_in (discovered st) p = level -> accounted st ->
  exists st' n', expand token limits reverse st p n = Ok (st', n') /\ accounted st'.
Proof.
  intros Hinv [Hf1 Hf2] Hproc Hp Hacc.
  assert (exists ks, map_get p (discovered st) = Some (level, ks)) as [ks Hget].
  { assert (p ∈ map_keys (discovered st)) as [[m ks] Hm]%map_get_is_Some.
    { rewrite (wi_keys _ _ _ _ _ _ _ Hinv). apply elem_of_app. by left. }
    exists ks. by rewrite (depth_in_get _ _ _ _ Hm) in Hp; subst. }
  unfold expand. rewrite poll_quiet by done. rewrite Hget. unfold mbind at 1, polling_bind. cbn.
  rewrite for_each_quiet by done.
  destruct (for_each_progress (fun pre st => walk_inv (seen ++ pre) processed level st /\ accounted st /\
    exists ks, map_get p (discovered st) = Some (level, ks)) (visit limits level) st (edges_of reverse p))
    as (st' & -> & _ & Hacc' & _); [| |cbn; eauto].
  - rewrite app_nil_r. eauto.
  - intros pre d suf s Hl (Hs & Ha & Hk).
    assert (forall e, e ∈ pre ++ d :: suf -> e ∈ deps /\ prerequisite_path_identity e = p) as Hall
      by (intros e; rewrite <- Hl; apply (proj2 Hrev)).
    destruct (Hall d ltac:(apply elem_of_app; right; left)) as [Hd Hdp].
    assert (frontier (seen ++ pre) processed p) as Hfront.
    { split.
      - intros e [He|He]%elem_of_app; [by apply Hf1|].
        destruct (Hall e ltac:(apply elem_of_app; by left)) as [_ ->]. done.
      - intros e He Hep Hne. apply elem_of_app. left. by apply Hf2. }
    exists (visited level s d). assert (visit limits level s d = Ok (visited level s d)) as Hv
      by (by eapply visit_progress).
    split; [done|]. rewrite app_assoc. rewrite <- Hdp in Hk. rewrite <- Hdp.
    destruct (visit_inv _ _ _ _ _ _ _ _ _ Hs Hd Hk Hv). split_and!; [done|by eapply visited_accounted|done].
Qed.

Lemma walk_progress fuel seen processed level st n :
  walk_inv seen processed level st -> examined deps seen processed -> accounted st ->
  (length (universe seeds deps) < fuel + length processed)%nat ->
  is_Ok (walk token limits reverse fuel st n).
Proof.
  revert seen processed level st n. induction fuel as [|fuel IH]; intros seen processed level st n Hinv Hex Hacc Hfuel;
    cbn [walk]; destruct (queue st) as [|p rest] eqn:Hq; [by eexists| |by eexists|].
  - apply walk_inv_length in Hinv. rewrite Hq in Hinv. cbn in Hinv. lia.
  - pose proof (pop_inv _ _ _ _ _ _ _ _ _ Hinv Hq) as Hpop.
    set (st0 := {| discovered := discovered st; queue := rest; output_bytes := output_bytes st |}) in *.
    destruct (expand_progress _ _ _ _ p n Hpop) as (st1 & n1 & He & Hacc1); [|by apply elem_of_app; right; left|done|done|].
    { split.
      - intros d [_ Hd]%Hex. apply elem_of_app. by left.
      - intros d Hd [Hp| ->%list_elem_of_singleton]%elem_of_app Hne; [by apply Hex|done]. }
    unfold mbind, polling_bind. rewrite He. cbn.
    eapply expand_inv in He; [|exact Hrev|exact Hpop|done].
    eapply IH; [exact He|by apply examined_expand|done|]. rewrite length_app. cbn. lia.
Qed.
End Run.
End Progress.

(** * The account holds to the end *)

Section Account.
Context (seeds : list string) (deps : list ArchaeologySourceDependency).
Context (limits : ArchaeologyInvalidationLimits) (token : StructuralGraphCancellation).
Context (reverse : list (string * list ArchaeologySourceDependency)) (Hrev : reverse_of deps reverse).

Lemma expand_accounted seen processed level st p n st' n' :
  walk_inv seeds deps limits seen processed level st -> depth_in (discovered st) p = level -> accounted st ->
  expand token limits reverse st p n = Ok (st', n') -> accounted st'.
Proof.
  intros Hinv Hp Hacc H. unfold expand in H. apply polling_bind_Ok in H as (_ & n1 & _ & H).
  apply polling_bind_Ok in H as ([m ks] & n2 & Hget & H). apply lift_Ok in Hget as (? & Hget & [= <- <-]).
  apply ok_or_Ok in Hget. cbn [fst] in H.
  assert (m = level) as -> by (rewrite (depth_in_get _ _ _ _ Hget) in Hp; done).
  enough (accounted st' /\ walk_inv seeds deps limits (seen ++ edges_of reverse p) processed level st' /\
    exists ks, map_get p (discovered st') = Some (level, ks)) by tauto.
  revert H. apply (for_each_polling_inv (fun pre st => accounted st /\
    walk_inv seeds deps limits (seen ++ pre) processed level st /\
    exists ks, map_get p (discovered st) = Some (level, ks))).
  - rewrite app_nil_r. eauto.
  - intros pre d suf s1 s2 k k' Hl (Ha & Hs1 & Hp1) (s & Hv & [= -> ->])%polled_step_Ok.
    assert (d ∈ edges_of reverse p) as [Hd Hdp]%Hrev by (rewrite Hl; apply elem_of_app; right; left).
    rewrite app_assoc, <- Hdp. rewrite <- Hdp in Hp1.
    destruct (visit_inv _ _ _ _ _ _ _ _ _ Hs1 Hd Hp1 Hv). split_and!; [|done|done].
    apply (visit_is_visited seeds deps limits (seen ++ pre) processed) in Hv as ->; [|done].
    by eapply visited_accounted.
Qed.

Lemma walk_accounted fuel seen processed level st n st' n' :
  walk_inv seeds deps limits seen processed level st -> accounted st ->
  walk token limits reverse fuel st n = Ok (st', n') -> accounted st'.
Proof.
  revert seen processed level st n. induction fuel as [|fuel IH]; intros seen processed level st n Hinv Hacc;
    cbn [walk]; destruct (queue st) as [|p rest] eqn:Hq; [by intros [= <- <-]|done|by intros [= <- <-]|].
  intros (st1 & n1 & He & Hw)%polling_bind_Ok.
  pose proof (pop_inv _ _ _ _ _ _ _ _ _ Hinv Hq) as Hpop.
  pose proof (expand_accounted _ _ _ _ _ _ _ _ Hpop eq_refl Hacc He) as Hacc1.
  eapply expand_inv in He; [|exact Hrev|exact Hpop|done]. by eapply IH.
Qed.
End Account.

Lemma roots_accounted limits l st :
  NoDup l -> for_each (add_root limits) {| discovered := []; queue := []; output_bytes := 0 |} l = Ok st ->
  accounted st.
Proof.
  intros Hnd H. enough (accounted st /\ map_keys (discovered st) ≡ₚ l) by tauto. revert H.
  apply (for_each_inv (fun pre st => accounted st /\ map_keys (discovered st) ≡ₚ pre)); [done|].
  intros pre s suf s1 s2 Hl (Hacc & Hkeys) H. unfold add_root in H. apply bind_Ok in H as (t & Ht & [= <-]).
  assert (map_get s (discovered s1) = None) as Hnone.
  { apply map_get_None. rewrite Hkeys. rewrite Hl in Hnd. apply NoDup_app in Hnd as (_ & Hd & _).
    intros Hin. apply (Hd s Hin). left. }
  rewrite Hacc in Ht. apply add_bounded_total in Ht as [-> _]. split.
  - unfold accounted, found. cbn. rewrite (found_insert_new _ _ _ _ Hnone), entry_size_invalidated. done.
  - cbn. unfold map_keys. rewrite (map_insert_perm _ _ _ Hnone). cbn. fold (map_keys (discovered s1)).
    rewrite Hkeys. apply Permutation_cons_append.
Qed.

(** * The whole operation *)

Section Complete.
Context (seed_paths : list string) (deps : list ArchaeologySourceDependency).
Context (limits : ArchaeologyInvalidationLimits) (token : StructuralGraphCancellation).
Context (Hquiet : forall k, observed token k = false).

(** Preparing, undisturbed, is the sequence of its validations. *)
Lemma prepare_closure_quiet n r :
  prepare_closure seed_paths deps limits token n = Ok r <->
  validate_limits limits = Ok tt /\ len seed_paths <= max_seed_paths limits /\
  len deps <= max_dependencies limits /\
  exists seeded input start,
    for_each (add_seed limits) (0, []) seed_paths = Ok seeded /\
    for_each (add_dependency limits)
      {| input_bytes := fst seeded; reverse_edges := []; unique_edges := [] |} deps = Ok input /\
    len (snd seeded) <= max_invalidated_paths limits /\
    for_each (add_root limits) {| discovered := []; queue := []; output_bytes := 0 |} (snd seeded) = Ok start /\
    r = (sort_edges (reverse_edges input), start, (S n + length seed_paths + length deps)%nat).
Proof.
  unfold prepare_closure. rewrite poll_quiet by done. split.
  - intros H. apply polling_bind_Ok in H as ([] & n1 & Hu & H). apply lift_Ok in Hu as ([] & Hu & [= ->]).
    apply polling_bind_Ok in H as ([] & n2 & H1 & H).
    apply lift_Ok in H1 as ([] & H1 & [= ->]). apply if_Err_Ok in H1 as [H1%N.ltb_ge _].
    apply polling_bind_Ok in H as ([] & n3 & H2 & H). apply lift_Ok in H2 as ([] & H2 & [= ->]).
    apply if_Err_Ok in H2 as [H2%N.ltb_ge _].
    apply polling_bind_Ok in H as (seeded & n4 & Hs & H). rewrite for_each_quiet in Hs by done.
    apply bind_Ok in Hs as (seeded' & Hs & [= <- <-]).
    apply polling_bind_Ok in H as (input & n5 & Hd & H). rewrite for_each_quiet in Hd by done.
    apply bind_Ok in Hd as (input' & Hd & [= <- <-]).
    apply polling_bind_Ok in H as ([] & n6 & H3 & H). apply lift_Ok in H3 as ([] & H3 & [= ->]).
    apply if_Err_Ok in H3 as [H3%N.ltb_ge _].
    apply polling_bind_Ok in H as (start & n7 & Hr & [= <-]). apply lift_Ok in Hr as (start' & Hr & [= -> ->]).
    split_and!; [done..|]. by exists seeded', input', start'.
  - intros (Hl & H1 & H2 & seeded & input & start & Hs & Hd & H3 & Hr & ->).
    apply polling_bind_Ok. exists tt, (S n). split; [apply lift_Ok; by exists tt|].
    apply polling_bind_Ok. exists tt, (S n). split; [apply lift_Ok; exists tt; by rewrite (proj2 (N.ltb_ge _ _))|].
    apply polling_bind_Ok. exists tt, (S n). split; [apply lift_Ok; exists tt; by rewrite (proj2 (N.ltb_ge _ _))|].
    apply polling_bind_Ok. eexists _, _. rewrite for_each_quiet, Hs by done. split; [done|].
    apply polling_bind_Ok. eexists _, _. rewrite for_each_quiet, Hd by done. split; [done|].
    apply polling_bind_Ok. eexists tt, _. split; [apply lift_Ok; exists tt; by rewrite (proj2 (N.ltb_ge _ _))|].
    apply polling_bind_Ok. eexists _, _. split; [apply lift_Ok; eauto|done].
Qed.
(** The specified closure, within the limits. *)
Definition fits (out : list ArchaeologyInvalidatedPath) : Prop :=
  len out <= max_invalidated_paths limits /\ Forall (fun e => depth e <= max_depth limits) out /\
  N.min (total entry_size out) usize_max <= max_output_bytes limits.

Lemma closure_Ok_input n out n' :
  reverse_dependency_closure seed_paths deps limits token n = Ok (out, n') ->
  closure_input_ok limits seed_paths deps.
Proof.
  intros H. unfold reverse_dependency_closure in H. apply polling_bind_Ok in H as (prep & n1 & Hp & _).
  apply prepare_closure_quiet in Hp as (Hl & H1 & H2 & seeded & input & start & Hs & Hd & _).
  apply seeds_loop in Hs as (Hok & Hnd & Hb & ->).
  apply (dependencies_loop_Ok _ (total blen seed_paths)) in Hd as (Hdok & Hdnd & Hdb & _); [|done|done].
  split_and!; try done; [by apply dependency_key_NoDup|].
  destruct Hdb as [->|Hdb]; [|done]. cbn. rewrite N.add_0_r. destruct Hb as [->|Hb]; [cbn; lia|done].
Qed.

Lemma closure_Ok_fits n out n' :
  reverse_dependency_closure seed_paths deps limits token n = Ok (out, n') -> fits out.
Proof.
  intros H. pose proof (closure_Ok _ _ _ _ _ _ _ H) as (_ & Hlen & Hdepth). split; [done|]. split; [done|].
  unfold reverse_dependency_closure in H. apply polling_bind_Ok in H as ([reverse start] & n1 & Hp & H).
  assert (accounted start) as Hacc.
  { apply prepare_closure_quiet in Hp as (_ & _ & _ & seeded & input & start' & Hs & _ & _ & Hr & [= -> -> ->]).
    apply seeds_loop in Hs as (_ & _ & _ & ->). eapply roots_accounted; [|exact Hr]. cbn.
    apply sorted_NoDup, set_of_list_sorted. }
  apply prepare_closure_Ok in Hp as (seeds & Hnd & Hel & _ & Hrev & Hinv).
  apply polling_bind_Ok in H as (st & n2 & Hw & H). apply polling_bind_Ok in H as (? & ? & _ & [= <- _]).
  cbn [fst snd] in Hw. pose proof (walk_accounted _ _ _ _ _ Hrev _ _ _ _ _ _ _ _ Hinv Hacc Hw) as Hfin.
  destruct (walk_finishes seeds deps limits token reverse Hrev _ _ _ _ _ _ _ _ Hinv
    ltac:(intros d; rewrite !elem_of_nil; tauto) Hw) as (seen & processed & level & Hinv' & _).
  fold (found st). rewrite <- Hfin. apply (wi_bounds _ _ _ _ _ _ _ Hinv').
Qed.

(** The changed paths are part of the closure, so their account fits too. *)
Lemma roots_fit out :
  closure_spec seed_paths deps out -> fits out ->
  len (set_of_list seed_paths) <= max_invalidated_paths limits /\
  N.min (total root_size (set_of_list seed_paths)) usize_max <= max_output_bytes limits.
Proof.
  intros (_ & Hpaths & Hent) (Hlen & _ & Hbytes).
  pose (root := fun s => {| invalidated_path_identity := s; depth := 0; via := [] |}).
  destruct (total_dominated invalidated_path_identity entry_size (map root (set_of_list seed_paths)) out)
    as [Hl Ht].
  - rewrite map_map. cbn. rewrite map_id. apply sorted_NoDup, set_of_list_sorted.
  - intros x (s & -> & Hs)%list_elem_of_fmap. rewrite elem_of_set_of_list in Hs.
    assert (s ∈ map invalidated_path_identity out) as (e & -> & He)%list_elem_of_fmap.
    { apply Hpaths. exists 0. by constructor. }
    exists e. split_and!; [done|done|]. destruct (Hent e He) as (_ & Hmin & _).
    specialize (Hmin 0 ltac:(by constructor)). unfold entry_size. cbn.
    by rewrite (proj2 (N.eqb_eq (depth e) 0)) by lia.
  - rewrite length_map in Hl.
    assert (total entry_size (map root (set_of_list seed_paths)) = total root_size (set_of_list seed_paths)) as Htot.
    { subst root. clear. generalize (set_of_list seed_paths) as l.
      induction l as [|s l IH]; cbn [map total]; [done|]. by rewrite IH. }
    rewrite Htot in Ht. unfold len in *. lia.
Qed.

Lemma closure_progress out n :
  max_depth limits < usize_max -> closure_input_ok limits seed_paths deps ->
  closure_spec seed_paths deps out -> fits out ->
  is_Ok (reverse_dependency_closure seed_paths deps limits token n).
Proof.
  intros Hmax (Hl & H1 & H2 & Hok & Hnd & Hdok & Hdnd & Hb) Hspec Hfits.
  destruct (roots_fit out Hspec Hfits) as [Hroots Hrb].
  assert (for_each (add_seed limits) (0, []) seed_paths =
    Ok (N.min (total blen seed_paths) usize_max, set_of_list seed_paths)) as Hs.
  { apply seeds_loop. split; [done|]. split; [done|]. split; [right; lia|done]. }
  destruct (dependencies_loop_progress limits (total blen seed_paths)
    {| input_bytes := N.min (total blen seed_paths) usize_max; reverse_edges := []; unique_edges := [] |} deps)
    as (input & Hd); [done|done|done|by apply dependency_key_NoDup|done|].
  destruct (roots_loop limits (set_of_list seed_paths) Hrb) as (start & Hr).
  assert (prepare_closure seed_paths deps limits token n =
    Ok (sort_edges (reverse_edges input), start, (S n + length seed_paths + length deps)%nat)) as Hp.
  { apply prepare_closure_quiet. split_and!; [done..|]. by eexists _, input, start. }
  assert (accounted start) as Hacc
    by (eapply roots_accounted, Hr; apply sorted_NoDup, set_of_list_sorted).
  pose proof (prepare_closure_Ok _ _ _ _ _ _ _ _ Hp) as (seeds & _ & Hel & Hlen & Hrev & Hinv).
  destruct Hfits as (Hpaths & Hdepths & Hbytes).
  assert (closure_spec seeds deps out) as Hspec'.
  { eapply closure_spec_seeds, Hspec. intros v. by rewrite Hel. }
  destruct (walk_progress seeds deps limits out Hspec' Hpaths Hdepths Hbytes Hmax token Hquiet _ Hrev
    (S (length seed_paths + length deps)) [] [] 0 start (S n + length seed_paths + length deps)%nat Hinv)
    as [[st n2] Hw].
  - intros d. rewrite !elem_of_nil. tauto.
  - done.
  - unfold universe. rewrite length_app, length_map. cbn. lia.
  - unfold reverse_dependency_closure, mbind at 1, polling_bind. rewrite Hp.
    cbn [mbind outcome_bind]. unfold mbind at 1, polling_bind. cbn [fst snd]. rewrite Hw.
    cbn [mbind outcome_bind]. rewrite poll_quiet by done. by eexists.
Qed.
End Complete.

(** C38: the closure is exact and so are its bounds. When nothing cancels, and the
    limit on depth is below the greatest machine integer, the answer is a list if
    and only if the input is valid (limits, counts, identities, no self or repeated
    dependency, input bytes), the list is the specified closure (the paths reached
    over reverse dependencies, in order, each with its least distance and the
    kinds that bring it in), and it keeps the limits on paths, depth and bytes. So
    no input whose closure fits is refused, and nothing else is ever returned. *)
Theorem reverse_dependency_closure_exact (seed_paths : list string)
    (deps : list ArchaeologySourceDependency) (limits : ArchaeologyInvalidationLimits)
    (token : StructuralGraphCancellation) (n : nat) (out : list ArchaeologyInvalidatedPath)
    (Hquiet : forall k, observed token k = false) (Hmax : max_depth limits < usize_max) :
  (exists n', reverse_dependency_closure seed_paths deps limits token n = Ok (out, n')) <->
  closure_input_ok limits seed_paths deps /\ closure_spec seed_paths deps out /\ fits limits out.
Proof.
  split.
  - intros [n' H]. split; [by eapply closure_Ok_input|]. split; [by eapply closure_Ok|by eapply closure_Ok_fits].
  - intros (Hin & Hspec & Hfits). edestruct closure_progress as [[out' n'] H]; [exact Hquiet|exact Hmax|exact Hin|exact Hspec|exact Hfits|].
    exists n'. rewrite H. pose proof (closure_Ok _ _ _ _ _ _ _ H) as (Hspec' & _ & _).
    by rewrite (closure_spec_unique _ _ _ _ Hspec' Hspec).
Qed.

Lemma reverse_dependency_closure_exact_witness :
  exists out n',
    reverse_dependency_closure ["a"] ex_deps default_invalidation_limits never_cancelled 0%nat = Ok (out, n') /\
    length out = 4%nat /\ closure_spec ["a"] ex_deps out.
Proof.
  assert (is_Ok (reverse_dependency_closure ["a"] ex_deps default_invalidation_limits never_cancelled 0%nat))
    as [[out n'] H] by (eexists; vm_compute; reflexivity).
  exists out, n'. split; [exact H|]. split.
  - vm_compute in H. injection H as <- _. reflexivity.
  - exact (proj1 (proj2 (proj1 (reverse_dependency_closure_exact ["a"] ex_deps default_invalidation_limits
      never_cancelled 0%nat out (fun k => eq_refl) eq_refl) (ex_intro _ n' H)))).
Defined.
