(* ===== verification/Linker.v ===== *)
(** [mod linker] of
    [src/crates/codevetter-core/src/commands/business_rule_archaeology/mod.rs]:
    cross-unit linking of parsed facts, every function of the module, and the
    statements of [persist_link_patch] ([jobs.rs]) that apply its patch to the rows
    of facts and edges.

    The linker reads the facts and edges adapters committed and answers with a
    patch: edges for references that have one target, unresolved placeholder
    facts for those that have none or several, contradictions between
    complementary predicates, the lineage of includes, and the placeholders that
    became obsolete.  JSON serialization is the parameter [json_patch]. *)
From stdpp Require Import pretty.
From S2P Require Import Prelude Ordering Entries RustText GraphTypes Contracts Adapter Paths.
Local Open Scope N_scope.

Record ArchaeologyLinkLimits : Type := {
  max_units : N; link_max_facts : N; link_max_edges : N; max_references : N;
  max_candidates_per_reference : N; max_output_edges : N;
  max_input_bytes : N; max_output_items : N; link_max_output_bytes : N
}.
Definition default_link_limits : ArchaeologyLinkLimits := {|
  max_units := 250000; link_max_facts := 100000; link_max_edges := 100000; max_references := 50000;
  max_candidates_per_reference := 64; max_output_edges := 100000; max_output_items := 500000;
  max_input_bytes := 256 * 1024 * 1024; link_max_output_bytes := 64 * 1024 * 1024 |}.

Record ArchaeologyLinkUnit : Type := {
  link_unit_id : string;
  link_language : string;
  link_dialect : option string;
  link_path : option string;
  link_lineage : list ArchaeologyAdapterLineage
}.
Record ArchaeologyLinkFact : Type := {
  link_fact_unit : string;
  link_fact : ArchaeologyFact;
  link_spans : list ArchaeologySourceSpan
}.
Record ArchaeologyLinkPatch : Type := {
  remove_fact_ids : list string;
  remove_edge_ids : list string;
  upsert_facts : list ArchaeologyFact;
  upsert_edges : list ArchaeologyFactEdge;
  patch_evidence : list (string * string * string);
  patch_lineage : list ArchaeologyAdapterLineage
}.
Definition empty_patch : ArchaeologyLinkPatch := {|
  remove_fact_ids := []; remove_edge_ids := []; upsert_facts := []; upsert_edges := [];
  patch_evidence := []; patch_lineage := [] |}.

(** ** Keys *)

Definition exact_key (value : string) : string :=
  trim_end_matches (fun c => elemb c [46; 58]) (trim_matches (fun c => elemb c [39; 34]) (trim value)).
Definition folded_key (value : string) : string := to_ascii_lowercase (exact_key value).
Definition case_insensitive (language : string) (dialect : option string) : bool :=
  seqb language "cobol" || seqb language "assembly" && bool_decide (dialect = Some "hlasm"%string).
Definition reference_key (language : string) (dialect : option string) (value : string) : string :=
  if case_insensitive language dialect then folded_key value else exact_key value.
Definition lineage_key (language : string) (dialect : option string) (target : string) : string * (string * string) :=
  (language, (if seqb language "cobol" then "*" else default "" dialect, reference_key language dialect target))%string.

Definition link_id (kind repository revision local : string) : string :=
  stable_graph_id ("archaeology-link-" ++ kind) (String.concat NUL [repository; revision; local]).

(** ** References of a fact *)

Definition is_key (key : string) (attribute : ArchaeologyAttribute) : bool := seqb (attribute_key attribute) key.
Definition attribute (fact : ArchaeologyFact) (key : string) : option string :=
  attribute_value <$> List.find (is_key key) (fact_attributes fact).
Definition attribute_is (fact : ArchaeologyFact) (key value : string) : bool :=
  bool_decide (attribute fact key = Some value).
Definition unique_attribute (fact : ArchaeologyFact) (key : string) : option string :=
  match List.filter (is_key key) (fact_attributes fact) with [a] => Some (attribute_value a) | _ => None end.

Definition access_kind (a : ArchaeologyAttribute) : option (ArchaeologyFactEdgeKind * string) :=
  if is_key "reads" a then Some (EdgeReads, attribute_value a)
  else if is_key "writes" a then Some (EdgeWrites, attribute_value a)
  else if is_key "controls" a then Some (EdgeControls, attribute_value a)
  else None.
Definition transaction_kind (fact : ArchaeologyFact) : option ArchaeologyFactEdgeKind :=
  if attribute_is fact "operation" "begin" then Some EdgeBeginsTransaction
  else if attribute_is fact "operation" "commit" then Some EdgeCommitsTransaction
  else if attribute_is fact "operation" "rollback" then Some EdgeRollsBackTransaction
  else None.
Definition target_reference (fact : ArchaeologyFact) : option (ArchaeologyFactEdgeKind * string) :=
  let implicit_transaction :=
    if bool_decide (fact_kind fact = FactTransaction) && is_some (transaction_kind fact)
    then Some "implicit transaction scope"%string else None in
  target ← match attribute fact "target" with Some target => Some target | None => implicit_transaction end;
  kind ← match fact_kind fact with
    | FactCall => Some EdgeCalls
    | FactControlFlow => Some EdgeBranchesTo
    | FactTransaction => transaction_kind fact
    | _ => None
    end;
  Some (kind, target).
Definition references (fact : ArchaeologyFact) : list (ArchaeologyFactEdgeKind * string) :=
  omap access_kind (fact_attributes fact) ++ match target_reference fact with Some r => [r] | None => [] end.

Definition candidate_kind (kind : ArchaeologyFactKind) : bool :=
  match kind with
  | FactDeclaration | FactDataField | FactConstant | FactPredicate | FactDecision | FactTransaction
  | FactControlFlow | FactEntryPoint => true
  | _ => false
  end.
Definition target_kind (edge : ArchaeologyFactEdgeKind) (fact : ArchaeologyFactKind) : bool :=
  match edge, fact with
  | (EdgeCalls | EdgeBranchesTo), (FactEntryPoint | FactDeclaration) => true
  | (EdgeReads | EdgeWrites), (FactDataField | FactConstant) => true
  | EdgeControls, (FactPredicate | FactDecision | FactControlFlow) => true
  | (EdgeBeginsTransaction | EdgeCommitsTransaction | EdgeRollsBackTransaction), FactTransaction => true
  | _, _ => false
  end.

Definition comparison_operator (value : string) : bool := elemb value [">"; "<"; "="; ">="; "<="]%string.
Definition complementary_operators (left right : string) : bool :=
  elemb (left, right) [(">", "<="); ("<=", ">"); ("<", ">="); (">=", "<")]%string.
Definition ordered_pair (left right : string) : string * string :=
  match cmp left right with Gt => (right, left) | _ => (left, right) end.

(** [ids.sort(); ids.dedup();] of the spans of the two ends. *)
Definition exact_evidence (source : ArchaeologyLinkFact) (target : option ArchaeologyLinkFact) : list string :=
  dedup (sort (fact_span_ids (link_fact source)
    ++ match target with Some target => fact_span_ids (link_fact target) | None => [] end)).

(** ** Sizes *)

Definition saturating_total (sizes : list N) : N := foldl saturating_add 0 sizes.
Definition optional_size (value : option string) : list N := match value with Some s => [blen s] | None => [] end.
Definition unit_sizes (unit : ArchaeologyLinkUnit) : list N :=
  [blen (link_unit_id unit); blen (link_language unit)] ++ optional_size (link_dialect unit)
  ++ optional_size (link_path unit)
  ++ concat (map (fun item => blen (lineage_source_unit_id item) :: optional_size (target_source_unit_id item)
       ++ [blen (lineage_evidence_span_id item); blen (lineage_detail item); 32]) (link_lineage unit)).
Definition fact_sizes (item : ArchaeologyLinkFact) : list N :=
  let fact := link_fact item in
  [blen (link_fact_unit item); blen (fact_id fact); blen (fact_label fact); blen (fact_parser_id fact)]
  ++ map blen (fact_span_ids fact)
  ++ concat (map (fun a => [blen (attribute_key a); blen (attribute_value a)]) (fact_attributes fact))
  ++ concat (map (fun span => [blen (span_id span); blen (span_source_unit_id span); blen (span_revision_sha span); 64])
       (link_spans item)) ++ [32].
Definition edge_sizes (edge : ArchaeologyFactEdge) : list N :=
  [blen (fact_edge_id edge); blen (from_fact_id edge); blen (to_fact_id edge)]
  ++ map blen (fact_edge_evidence_span_ids edge) ++ optional_size (unresolved_reason edge) ++ [32].
Definition link_input_bytes (units : list ArchaeologyLinkUnit) (facts : list ArchaeologyLinkFact)
    (edges : list ArchaeologyFactEdge) : N :=
  saturating_total (concat (map unit_sizes units) ++ concat (map fact_sizes facts) ++ concat (map edge_sizes edges)).
Definition output_items (patch : ArchaeologyLinkPatch) : N :=
  len (remove_fact_ids patch) + len (remove_edge_ids patch) + len (upsert_facts patch) + len (upsert_edges patch)
  + len (patch_evidence patch) + len (patch_lineage patch).

(** ** Obsolete placeholders *)

(** The maps [link_archaeology_facts] builds from its input. *)
Record link_tables : Type := {
  unit_languages : BTreeMap string (string * option string);
  unit_paths : BTreeMap string string;
  by_id : BTreeMap string ArchaeologyLinkFact;
  unresolved_by_source : BTreeMap string (list ArchaeologyFactEdge);
  incidents : BTreeMap string nat;
  includes : BTreeMap (string * string) ArchaeologyFact;
  target_units : BTreeMap (string * (string * string)) (list ArchaeologyLinkUnit);
  symbols : BTreeMap string (list ArchaeologyLinkFact)
}.
(** What the loops change. *)
Record link_state : Type := {
  patch : ArchaeologyLinkPatch;
  removed_edges : BTreeSet string;
  removed_incidents : BTreeMap string nat;
  placeholder_candidates : BTreeSet string;
  reference_count : N
}.
Definition start_state : link_state := {|
  patch := empty_patch; removed_edges := []; removed_incidents := []; placeholder_candidates := [];
  reference_count := 0 |}.
Definition with_patch (st : link_state) (patch : ArchaeologyLinkPatch) : link_state := {|
  patch := patch; removed_edges := removed_edges st; removed_incidents := removed_incidents st;
  placeholder_candidates := placeholder_candidates st; reference_count := reference_count st |}.
Definition with_count (st : link_state) (count : N) : link_state := {|
  patch := patch st; removed_edges := removed_edges st; removed_incidents := removed_incidents st;
  placeholder_candidates := placeholder_candidates st; reference_count := count |}.

Definition add_incidents (edge : ArchaeologyFactEdge) (counts : BTreeMap string nat) : BTreeMap string nat :=
  add_count (to_fact_id edge) 1 (add_count (from_fact_id edge) 1 counts).
(** The edge leads to an unresolved fact that is not the one to keep. *)
Definition is_placeholder_edge (t : link_tables) (keep : string) (edge : ArchaeologyFactEdge) : bool :=
  negb (seqb (to_fact_id edge) keep)
  && match map_get (to_fact_id edge) (by_id t) with
     | Some item => bool_decide (fact_kind (link_fact item) = FactUnresolved)
     | None => false
     end.
Definition clear_placeholder (st : link_state) (edge : ArchaeologyFactEdge) : link_state := {|
  patch := patch st;
  removed_edges := set_insert (fact_edge_id edge) (removed_edges st);
  removed_incidents := if set_contains (fact_edge_id edge) (removed_edges st) then removed_incidents st
                       else add_incidents edge (removed_incidents st);
  placeholder_candidates := set_insert (to_fact_id edge) (placeholder_candidates st);
  reference_count := reference_count st |}.
Definition clear_placeholders (t : link_tables) (source : ArchaeologyFact) (keep : string) (st : link_state)
    : link_state :=
  foldl clear_placeholder st
    (List.filter (is_placeholder_edge t keep) (default [] (map_get (fact_id source) (unresolved_by_source t)))).

(** ** Includes *)

Section Linker.
Context (token : StructuralGraphCancellation) (json_patch : ArchaeologyLinkPatch -> option N).

Definition cancelled : polling unit := poll token "Archaeology linker cancelled".

Definition is_included (item : ArchaeologyAdapterLineage) : bool :=
  negb (bool_decide (lineage_kind item = LineagePreprocessed)).
Definition lineage_items (units : list ArchaeologyLinkUnit) : list (ArchaeologyLinkUnit * ArchaeologyAdapterLineage) :=
  concat (map (fun unit => map (fun item => (unit, item)) (List.filter is_included (link_lineage unit))) units).
Definition lineage_matches (t : link_tables) (unit : ArchaeologyLinkUnit) (include : option ArchaeologyFact)
    : list ArchaeologyLinkUnit :=
  match include with
  | None => []
  | Some fact =>
      let target := default (fact_label fact) (attribute fact "target") in
      List.filter (fun candidate => negb (seqb (link_unit_id candidate) (link_unit_id unit)))
        (default [] (map_get (lineage_key (link_language unit) (link_dialect unit) target) (target_units t)))
  end.
Definition push_lineage (item : ArchaeologyAdapterLineage) (p : ArchaeologyLinkPatch) : ArchaeologyLinkPatch := {|
  remove_fact_ids := remove_fact_ids p; remove_edge_ids := remove_edge_ids p; upsert_facts := upsert_facts p;
  upsert_edges := upsert_edges p; patch_evidence := patch_evidence p; patch_lineage := patch_lineage p ++ [item] |}.
Definition lineage_result (unit : ArchaeologyLinkUnit) (item : ArchaeologyAdapterLineage)
    (matches : list ArchaeologyLinkUnit) : ArchaeologyAdapterLineage := {|
  lineage_kind := lineage_kind item; lineage_source_unit_id := link_unit_id unit;
  target_source_unit_id := match matches with [target] => Some (link_unit_id target) | _ => None end;
  lineage_evidence_span_id := lineage_evidence_span_id item;
  lineage_detail := match matches with
    | [_] => "resolved include target"
    | [] => "unresolved include target is unavailable"
    | _ => "unresolved include target is ambiguous"
    end |}.
Definition apply_lineage (t : link_tables) (unit : ArchaeologyLinkUnit) (item : ArchaeologyAdapterLineage)
    (include : option ArchaeologyFact) (matches : list ArchaeologyLinkUnit) (st : link_state) : link_state :=
  let st := match include, matches with
    | Some fact, [_] => clear_placeholders t fact "" st
    | _, _ => st
    end in
  with_patch st (push_lineage (lineage_result unit item matches) (patch st)).
Definition link_lineage_item (t : link_tables) (limits : ArchaeologyLinkLimits) (st : link_state)
    (entry : ArchaeologyLinkUnit * ArchaeologyAdapterLineage) : polling link_state :=
  let '(unit, item) := entry in
  _ ← cancelled;
  if output_items (patch st) =? max_output_items limits
  then lift (Err "Archaeology linker output item bound exceeded") else
  let include := map_get (link_unit_id unit, lineage_evidence_span_id item) (includes t) in
  let matches := lineage_matches t unit include in
  if max_candidates_per_reference limits <? len matches
  then lift (Err "Archaeology linker lineage candidate bound exceeded") else
  mret (apply_lineage t unit item include matches st).

Definition lineage_pair (item : ArchaeologyAdapterLineage) : option (string * string) :=
  target ← target_source_unit_id item; Some (lineage_source_unit_id item, target).
Definition mark_cycle (pairs : BTreeSet (string * string)) (item : ArchaeologyAdapterLineage)
    : ArchaeologyAdapterLineage :=
  match lineage_pair item with
  | Some (source, target) =>
      if set_contains (target, source) pairs then {|
        lineage_kind := lineage_kind item; lineage_source_unit_id := lineage_source_unit_id item;
        target_source_unit_id := target_source_unit_id item;
        lineage_evidence_span_id := lineage_evidence_span_id item;
        lineage_detail := "resolved include target with direct cycle" |}
      else item
  | None => item
  end.
Definition mark_cycles (p : ArchaeologyLinkPatch) : ArchaeologyLinkPatch :=
  let pairs := set_of_list (omap lineage_pair (patch_lineage p)) in {|
  remove_fact_ids := remove_fact_ids p; remove_edge_ids := remove_edge_ids p; upsert_facts := upsert_facts p;
  upsert_edges := upsert_edges p; patch_evidence := patch_evidence p;
  patch_lineage := map (mark_cycle pairs) (patch_lineage p) |}.
Definition link_lineages (t : link_tables) (limits : ArchaeologyLinkLimits) (units : list ArchaeologyLinkUnit)
    (st : link_state) : polling link_state :=
  st ← for_each_polling (link_lineage_item t limits) st (lineage_items units);
  mret (with_patch st (mark_cycles (patch st))).

(** ** References *)

Definition same_name (target : string) (candidate : ArchaeologyFact) : bool :=
  seqb (exact_key (fact_label candidate)) (exact_key target)
  || match attribute candidate "symbol" with Some value => seqb (exact_key value) (exact_key target) | None => false end.
(** What [candidates.retain] keeps. *)
Definition is_candidate (t : link_tables) (source : ArchaeologyLinkFact) (kind : ArchaeologyFactEdgeKind)
    (target : string) (candidate : ArchaeologyLinkFact) : bool :=
  let '(source_language, source_dialect) := default (""%string, None) (map_get (link_fact_unit source) (unit_languages t)) in
  negb (seqb (fact_id (link_fact candidate)) (fact_id (link_fact source)))
  && target_kind kind (fact_kind (link_fact candidate))
  && match map_get (link_fact_unit candidate) (unit_languages t) with
     | None => false
     | Some (language, dialect) =>
         (if seqb language source_language
          then case_insensitive source_language source_dialect || same_name target (link_fact candidate)
          else attribute_is (link_fact candidate) "exported" "true" && same_name target (link_fact candidate))
         && (negb (seqb language "assembly") || negb (seqb source_language "assembly")
             || bool_decide (dialect = source_dialect))
     end.
Definition link_candidates (t : link_tables) (source : ArchaeologyLinkFact) (kind : ArchaeologyFactEdgeKind)
    (target : string) : list ArchaeologyLinkFact :=
  dedup_by_key (fun item => fact_id (link_fact item)) (sort_by_key (fun item => fact_id (link_fact item))
    (List.filter (is_candidate t source kind target) (default [] (map_get (folded_key target) (symbols t))))).

Definition push_link_edge (edge : ArchaeologyFactEdge) (p : ArchaeologyLinkPatch) : ArchaeologyLinkPatch := {|
  remove_fact_ids := remove_fact_ids p; remove_edge_ids := remove_edge_ids p; upsert_facts := upsert_facts p;
  upsert_edges := upsert_edges p ++ [edge];
  patch_evidence := patch_evidence p
    ++ map (fun span => ("fact_edge"%string, fact_edge_id edge, span)) (fact_edge_evidence_span_ids edge);
  patch_lineage := patch_lineage p |}.
Definition push_link_fact (fact : ArchaeologyFact) (p : ArchaeologyLinkPatch) : ArchaeologyLinkPatch := {|
  remove_fact_ids := remove_fact_ids p; remove_edge_ids := remove_edge_ids p;
  upsert_facts := upsert_facts p ++ [fact]; upsert_edges := upsert_edges p;
  patch_evidence := patch_evidence p ++ map (fun span => ("fact"%string, fact_id fact, span)) (fact_span_ids fact);
  patch_lineage := patch_lineage p |}.

Definition unresolved_fact (repository_id revision_sha : string) (t : link_tables) (source : ArchaeologyLinkFact)
    (kind : ArchaeologyFactEdgeKind) (target : string) (candidates : list ArchaeologyLinkFact) : ArchaeologyFact :=
  let '(source_language, source_dialect) := default (""%string, None) (map_get (link_fact_unit source) (unit_languages t)) in {|
  fact_id := link_id "fact" repository_id revision_sha (String.concat NUL
    [edge_kind_debug kind; fact_id (link_fact source); reference_key source_language source_dialect target]);
  fact_kind := FactUnresolved; fact_label := "unresolved reference";
  fact_span_ids := fact_span_ids (link_fact source); fact_parser_id := fact_parser_id (link_fact source);
  fact_trust := TrustDeterministic; fact_confidence := ConfidenceLow;
  fact_attributes := [{| attribute_key := "candidate_count"; attribute_value := pretty (len candidates) |}] |}.
Definition link_edge (repository_id revision_sha : string) (kind : ArchaeologyFactEdgeKind) (from_id to_id : string)
    (evidence : list string) (reason : option string) : ArchaeologyFactEdge := {|
  fact_edge_id := link_id "edge" repository_id revision_sha (String.concat NUL [edge_kind_debug kind; from_id; to_id]);
  from_fact_id := from_id; to_fact_id := to_id; fact_edge_kind := kind; fact_edge_trust := TrustDeterministic;
  fact_edge_evidence_span_ids := evidence; unresolved_reason := reason |}.
Definition unresolved_edge_kind (source : ArchaeologyFact) (kind : ArchaeologyFactEdgeKind) : ArchaeologyFactEdgeKind :=
  if bool_decide (fact_kind source = FactTransaction) then kind else EdgeUnresolved.

(** The items a reference adds to the patch, bounded before they are added. *)
Definition added_items (source : ArchaeologyLinkFact) (candidates : list ArchaeologyLinkFact) : N :=
  match candidates with
  | [target] => saturating_add 1 (len (fact_span_ids (link_fact source)) + len (fact_span_ids (link_fact target)))
  | _ => saturating_add 2 (N.min (2 * len (fact_span_ids (link_fact source))) usize_max)
  end.
Definition apply_reference (repository_id revision_sha : string) (t : link_tables) (source : ArchaeologyLinkFact)
    (kind : ArchaeologyFactEdgeKind) (target : string) (candidates : list ArchaeologyLinkFact) (st : link_state)
    : link_state :=
  let source_id := fact_id (link_fact source) in
  match candidates with
  | [found] =>
      let to_id := fact_id (link_fact found) in
      let st := clear_placeholders t (link_fact source) to_id st in
      with_patch st (push_link_edge (link_edge repository_id revision_sha kind source_id to_id
        (exact_evidence source (Some found)) None) (patch st))
  | _ =>
      let fact := unresolved_fact repository_id revision_sha t source kind target candidates in
      let reason := match candidates with
        | [] => "reference target is unavailable" | _ => "reference target is ambiguous" end%string in
      let st := with_patch st (push_link_fact fact (patch st)) in
      let st := clear_placeholders t (link_fact source) (fact_id fact) st in
      with_patch st (push_link_edge (link_edge repository_id revision_sha (unresolved_edge_kind (link_fact source) kind)
        source_id (fact_id fact) (exact_evidence source None) (Some reason)) (patch st))
  end.
Definition link_reference (repository_id revision_sha : string) (t : link_tables) (limits : ArchaeologyLinkLimits)
    (source : ArchaeologyLinkFact) (st : link_state) (reference : ArchaeologyFactEdgeKind * string)
    : polling link_state :=
  let '(kind, target) := reference in
  _ ← cancelled;
  let st := with_count st (reference_count st + 1) in
  if max_references limits <? reference_count st then lift (Err "Archaeology linker reference bound exceeded") else
  let candidates := link_candidates t source kind target in
  if max_candidates_per_reference limits <? len candidates
  then lift (Err "Archaeology linker candidate bound exceeded") else
  if max_output_items limits <? saturating_add (output_items (patch st)) (added_items source candidates)
  then lift (Err "Archaeology linker output item bound exceeded") else
  mret (apply_reference repository_id revision_sha t source kind target candidates st).
Definition link_references (repository_id revision_sha : string) (t : link_tables) (limits : ArchaeologyLinkLimits)
    (facts : list ArchaeologyLinkFact) (st : link_state) : polling link_state :=
  for_each_polling (fun st source =>
      for_each_polling (link_reference repository_id revision_sha t limits source) st (references (link_fact source)))
    st facts.

(** ** Complementary predicates *)

Definition predicate_key : Type := string * (string * (string * string)).
Definition predicate_entry : Type := ArchaeologyLinkFact * string.
(** The group a predicate belongs to and its operator, when it compares one
    subject with one expression. *)
Definition predicate_parts (fact : ArchaeologyFact) : option (string * string * string) :=
  operator ← unique_attribute fact "operator";
  rhs ← unique_attribute fact "comparison_rhs_expr";
  subject ← unique_attribute fact "reads";
  if comparison_operator operator && canonical_semantic_digest rhs then Some (operator, rhs, subject) else None.
Definition add_predicate (t : link_tables) (groups : BTreeMap predicate_key (list predicate_entry))
    (item : ArchaeologyLinkFact) : polling (BTreeMap predicate_key (list predicate_entry)) :=
  _ ← cancelled;
  match predicate_parts (link_fact item) with
  | None => mret groups
  | Some (operator, rhs, subject) =>
      match map_get (link_fact_unit item) (unit_languages t) with
      | None => lift (Err "Archaeology linker predicate has no source unit")
      | Some (language, dialect) =>
          mret (push_entry (language, (default ""%string dialect, (folded_key subject, rhs))) (item, operator) groups)
      end
  end.

(** The place of a predicate: its file, the first of its spans, its label. *)
Definition span_place (span : ArchaeologySourceSpan) : N * N := (byte (span_start span), byte (span_end span)).
Definition min_span (best span : ArchaeologySourceSpan) : ArchaeologySourceSpan :=
  match cmp (span_place span) (span_place best) with Lt => span | _ => best end.
Definition first_span (item : ArchaeologyLinkFact) : option ArchaeologySourceSpan :=
  match List.filter (fun span => elemb (span_id span) (fact_span_ids (link_fact item))) (link_spans item) with
  | [] => None
  | span :: rest => Some (foldl min_span span rest)
  end.
Definition place_key : Type := string * (N * (N * string)).
Definition predicate_place (t : link_tables) (entry : predicate_entry) : outcome (place_key * predicate_entry) :=
  path ← index_or_panic (map_get (link_fact_unit (fst entry)) (unit_paths t));
  let '(first, last) := match first_span (fst entry) with Some span => span_place span | None => (u64_max, u64_max) end in
  Ok ((path, (first, (last, fact_label (link_fact (fst entry))))), entry).
(** [group.sort_by_key(..)]: the key of an element alone is not computed. *)
Definition sort_group (t : link_tables) (group : list predicate_entry) : outcome (list predicate_entry) :=
  if (length group <? 2)%nat then Ok group else
  placed ← collect (predicate_place t) group;
  Ok (map snd (sort_by_key (fst (B := predicate_entry)) placed)).
(** [for left in 0..n { for right in left + 1..n { .. } }] *)
Fixpoint pairs_of {A} (l : list A) : list (A * A) :=
  match l with
  | [] => []
  | x :: l => map (fun y => (x, y)) l ++ pairs_of l
  end.

(** The patch and the pairs already known, with the number of references. *)
Record contradiction_state : Type := {
  contradiction_link : link_state;
  known_contradictions : BTreeSet (string * string)
}.
Definition contradiction (repository_id revision_sha : string) (first second : ArchaeologyLinkFact) : ArchaeologyFactEdge :=
  link_edge repository_id revision_sha EdgeContradicts (fact_id (link_fact first)) (fact_id (link_fact second))
    (exact_evidence first (Some second)) None.
Definition link_pair (repository_id revision_sha : string) (limits : ArchaeologyLinkLimits) (st : contradiction_state)
    (pair : predicate_entry * predicate_entry) : polling contradiction_state :=
  let '((first, first_operator), (second, second_operator)) := pair in
  _ ← cancelled;
  if negb (complementary_operators first_operator second_operator) then mret st else
  let link := contradiction_link st in
  let link := with_count link (saturating_add (reference_count link) 1) in
  if max_references limits <? reference_count link then lift (Err "Archaeology linker reference bound exceeded") else
  let first_id := fact_id (link_fact first) in
  let second_id := fact_id (link_fact second) in
  let identity_pair := ordered_pair first_id second_id in
  if set_contains identity_pair (known_contradictions st)
  then mret {| contradiction_link := link; known_contradictions := known_contradictions st |} else
  let evidence := exact_evidence first (Some second) in
  if max_output_items limits <? saturating_add (output_items (patch link)) (1 + len evidence)
  then lift (Err "Archaeology linker output item bound exceeded") else
  mret {|
    contradiction_link := with_patch link (push_link_edge (contradiction repository_id revision_sha first second) (patch link));
    known_contradictions := set_insert identity_pair (known_contradictions st) |}.
Definition link_group (repository_id revision_sha : string) (t : link_tables) (limits : ArchaeologyLinkLimits)
    (st : contradiction_state) (group : list predicate_entry) : polling contradiction_state :=
  group ← lift (sort_group t group);
  if max_candidates_per_reference limits <? len group
  then lift (Err "Archaeology linker complementary predicate candidate bound exceeded") else
  for_each_polling (link_pair repository_id revision_sha limits) st (pairs_of group).
Definition stored_contradictions (edges : list ArchaeologyFactEdge) : BTreeSet (string * string) :=
  set_of_list (map (fun edge => ordered_pair (from_fact_id edge) (to_fact_id edge))
    (List.filter (fun edge => bool_decide (fact_edge_kind edge = EdgeContradicts)) edges)).
Definition is_predicate (item : ArchaeologyLinkFact) : bool :=
  bool_decide (fact_kind (link_fact item) = FactPredicate).
Definition link_contradictions (repository_id revision_sha : string) (t : link_tables) (limits : ArchaeologyLinkLimits)
    (facts : list ArchaeologyLinkFact) (edges : list ArchaeologyFactEdge) (st : link_state) : polling link_state :=
  groups ← for_each_polling (add_predicate t) [] (List.filter is_predicate facts);
  st ← for_each_polling (link_group repository_id revision_sha t limits)
         {| contradiction_link := st; known_contradictions := stored_contradictions edges |} (map_values groups);
  mret (contradiction_link st).

(** ** Tables *)

Definition is_unresolved_edge (edge : ArchaeologyFactEdge) : bool :=
  bool_decide (fact_edge_kind edge = EdgeUnresolved) || is_some (unresolved_reason edge).
Definition index_unresolved (edges : list ArchaeologyFactEdge) : BTreeMap string (list ArchaeologyFactEdge) :=
  foldl (fun m edge => if is_unresolved_edge edge then push_entry (from_fact_id edge) edge m else m) [] edges.
Definition index_incidents (edges : list ArchaeologyFactEdge) : BTreeMap string nat :=
  foldl (fun counts edge => add_incidents edge counts) [] edges.
Definition cites (revision_sha : string) (item : ArchaeologyLinkFact) (id : string) : bool :=
  any (fun span => seqb (span_id span) id && seqb (span_source_unit_id span) (link_fact_unit item)
                   && seqb (span_revision_sha span) revision_sha) (link_spans item).
Definition check_fact (revision_sha : string) (unit_languages : BTreeMap string (string * option string))
    (item : ArchaeologyLinkFact) : outcome unit :=
  if negb (map_contains_key (link_fact_unit item) unit_languages)
  then Err "Archaeology linker fact has no source unit" else
  if any (fun id => negb (cites revision_sha item id)) (fact_span_ids (link_fact item))
  then Err "Archaeology linker requires exact scoped evidence spans" else
  Ok tt.
Definition add_include (item : ArchaeologyLinkFact) (m : BTreeMap (string * string) ArchaeologyFact) (span : string)
    : outcome (BTreeMap (string * string) ArchaeologyFact) :=
  let key := (link_fact_unit item, span) in
  if map_contains_key key m then Err "Archaeology linker duplicate include evidence" else
  Ok (map_insert key (link_fact item) m).
Definition index_includes (facts : list ArchaeologyLinkFact) : outcome (BTreeMap (string * string) ArchaeologyFact) :=
  for_each (fun m item => for_each (add_include item) m (fact_span_ids (link_fact item))) []
    (List.filter (fun item => bool_decide (fact_kind (link_fact item) = FactInclude)) facts).
Definition unit_targets (unit : ArchaeologyLinkUnit) : list ((string * (string * string)) * ArchaeologyLinkUnit) :=
  match link_path unit with
  | None => []
  | Some path =>
      map (fun target => (lineage_key (link_language unit) (link_dialect unit) target, unit))
        (omap id [file_name (components path); file_stem (components path)])
  end.
Definition index_targets (units : list ArchaeologyLinkUnit)
    : BTreeMap (string * (string * string)) (list ArchaeologyLinkUnit) :=
  map (fun p => (fst p, dedup_by_key link_unit_id (sort_by_key link_unit_id (snd p))))
    (foldl (fun m p => push_entry (fst p) (snd p) m) [] (concat (map unit_targets units))).
Definition symbol_keys (fact : ArchaeologyFact) : list string :=
  map folded_key (fact_label fact :: map attribute_value (List.filter (is_key "symbol") (fact_attributes fact))).
Definition add_symbols (m : BTreeMap string (list ArchaeologyLinkFact)) (item : ArchaeologyLinkFact)
    : polling (BTreeMap string (list ArchaeologyLinkFact)) :=
  _ ← cancelled;
  mret (if candidate_kind (fact_kind (link_fact item))
        then foldl (fun m key => push_entry key item m) m (symbol_keys (link_fact item)) else m).

Definition build_link_tables (revision_sha : string) (units : list ArchaeologyLinkUnit)
    (facts : list ArchaeologyLinkFact) (edges : list ArchaeologyFactEdge) : polling link_tables :=
  let unit_languages := map_of_list (map (fun unit => (link_unit_id unit, (link_language unit, link_dialect unit))) units) in
  if negb (length unit_languages =? length units)%nat
  then lift (Err "Archaeology linker duplicate unit identity") else
  let unit_paths := map_of_list (map (fun unit => (link_unit_id unit, default (link_unit_id unit) (link_path unit))) units) in
  let by_id := map_of_list (map (fun item => (fact_id (link_fact item), item)) facts) in
  if negb (length by_id =? length facts)%nat then lift (Err "Archaeology linker duplicate fact identity") else
  _ ← lift (for_all (check_fact revision_sha unit_languages) facts);
  includes ← lift (index_includes facts);
  symbols ← for_each_polling add_symbols [] facts;
  mret {| unit_languages := unit_languages; unit_paths := unit_paths; by_id := by_id;
          unresolved_by_source := index_unresolved edges; incidents := index_incidents edges;
          includes := includes; target_units := index_targets units; symbols := symbols |}.

(** ** The linker *)

(** The patch with its removals, in the order it is returned in. *)
Definition finish_patch (t : link_tables) (st : link_state) : ArchaeologyLinkPatch := {|
  remove_fact_ids := List.filter (fun id => bool_decide (map_get id (incidents t) = map_get id (removed_incidents st)))
                       (placeholder_candidates st);
  remove_edge_ids := removed_edges st;
  upsert_facts := dedup_by_key fact_id (sort_by_key fact_id (upsert_facts (patch st)));
  upsert_edges := dedup_by_key fact_edge_id (sort_by_key fact_edge_id (upsert_edges (patch st)));
  patch_evidence := dedup (sort (patch_evidence (patch st)));
  patch_lineage := sort_by_key (fun item => (lineage_source_unit_id item, lineage_evidence_span_id item))
                     (patch_lineage (patch st)) |}.
Definition check_output (limits : ArchaeologyLinkLimits) (p : ArchaeologyLinkPatch) : outcome unit :=
  if (max_output_edges limits <? len (upsert_edges p)) || (max_output_items limits <? output_items p)
  then Err "Archaeology linker output bound exceeded" else
  length ← ok_or (json_patch p) "Archaeology linker output is not serializable";
  if link_max_output_bytes limits <? length then Err "Archaeology linker output bound exceeded" else Ok tt.

Definition link_archaeology_facts (repository_id revision_sha : string) (units : list ArchaeologyLinkUnit)
    (facts : list ArchaeologyLinkFact) (extracted_edges : list ArchaeologyFactEdge) (limits : ArchaeologyLinkLimits)
    : polling ArchaeologyLinkPatch :=
  _ ← cancelled;
  if (max_units limits <? len units) || (link_max_facts limits <? len facts)
     || (link_max_edges limits <? len extracted_edges)
  then lift (Err "Archaeology linker input bound exceeded") else
  if max_input_bytes limits <? link_input_bytes units facts extracted_edges
  then lift (Err "Archaeology linker input byte bound exceeded") else
  t ← build_link_tables revision_sha units facts extracted_edges;
  let lineage_count := len (lineage_items units) in
  if (max_references limits <? lineage_count) || (max_output_items limits <? lineage_count)
  then lift (Err "Archaeology linker lineage bound exceeded") else
  st ← link_lineages t limits units start_state;
  st ← link_references repository_id revision_sha t limits facts (with_count st lineage_count);
  st ← link_contradictions repository_id revision_sha t limits facts extracted_edges st;
  let patch := finish_patch t st in
  _ ← lift (check_output limits patch);
  _ ← cancelled;
  mret patch.
End Linker.

(** ** Applying the patch: four statements of [persist_link_patch] of [jobs.rs]

    The rows of [archaeology_facts] and [archaeology_fact_edges] of one
    generation, under their primary keys.  The spans that support a fact or an
    edge are rows of the evidence tables. *)
Record fact_row : Type := {
  row_kind : ArchaeologyFactKind; row_label : string; row_parser_id : string; row_trust : ArchaeologyTrust;
  row_confidence : ArchaeologyConfidence; row_attributes : list ArchaeologyAttribute
}.
Record edge_row : Type := {
  row_from : string; row_to : string; row_edge_kind : ArchaeologyFactEdgeKind; row_edge_trust : ArchaeologyTrust;
  row_reason : option string
}.
Record linked_store : Type := {
  stored_facts : BTreeMap string fact_row;
  stored_edges : BTreeMap string edge_row
}.
Definition row_of_fact (fact : ArchaeologyFact) : fact_row := {|
  row_kind := fact_kind fact; row_label := fact_label fact; row_parser_id := fact_parser_id fact;
  row_trust := fact_trust fact; row_confidence := fact_confidence fact; row_attributes := fact_attributes fact |}.
Definition row_of_edge (edge : ArchaeologyFactEdge) : edge_row := {|
  row_from := from_fact_id edge; row_to := to_fact_id edge; row_edge_kind := fact_edge_kind edge;
  row_edge_trust := fact_edge_trust edge; row_reason := unresolved_reason edge |}.
(** [DELETE .. WHERE id IN (..)] and [INSERT .. ON CONFLICT DO UPDATE]. *)
Definition delete_rows {A} (ids : list string) (rows : BTreeMap string A) : BTreeMap string A :=
  List.filter (fun row => negb (elemb (fst row) ids)) rows.
Definition upsert_rows {A} (values : list (string * A)) (rows : BTreeMap string A) : BTreeMap string A :=
  foldl (fun rows value => map_insert (fst value) (snd value) rows) rows values.
Definition link_patch_rows (patch : ArchaeologyLinkPatch) (store : linked_store) : linked_store := {|
  stored_facts := upsert_rows (map (fun fact => (fact_id fact, row_of_fact fact)) (upsert_facts patch))
                    (delete_rows (remove_fact_ids patch) (stored_facts store));
  stored_edges := upsert_rows (map (fun edge => (fact_edge_id edge, row_of_edge edge)) (upsert_edges patch))
                    (delete_rows (remove_edge_ids patch) (stored_edges store)) |}.
Definition store_of (facts : list ArchaeologyLinkFact) (edges : list ArchaeologyFactEdge) : linked_store := {|
  stored_facts := map_of_list (map (fun item => (fact_id (link_fact item), row_of_fact (link_fact item))) facts);
  stored_edges := map_of_list (map (fun edge => (fact_edge_id edge, row_of_edge edge)) edges) |}.

(** ** Examples *)

Definition ex_link_revision : string := "0123456789012345678901234567890123456789".
Definition ex_link_unit (id path : string) (lineage : list ArchaeologyAdapterLineage) : ArchaeologyLinkUnit := {|
  link_unit_id := id; link_language := "cobol"; link_dialect := None; link_path := Some path; link_lineage := lineage |}.
Definition ex_link_span (unit id : string) (at_byte : N) : ArchaeologySourceSpan := {|
  span_id := id; span_source_unit_id := unit; span_revision_sha := ex_link_revision;
  span_start := {| byte := at_byte; line := 1; column := 1 |};
  span_end := {| byte := at_byte + 1; line := 1; column := 2 |} |}.
Definition ex_link_fact (unit id : string) (kind : ArchaeologyFactKind) (label : string) (at_byte : N)
    (attributes : list (string * string)) : ArchaeologyLinkFact := {|
  link_fact_unit := unit;
  link_fact := {| fact_id := id; fact_kind := kind; fact_label := label; fact_span_ids := ["span:" ++ id]%string;
    fact_parser_id := "cobol"; fact_trust := TrustExtracted; fact_confidence := ConfidenceHigh;
    fact_attributes := map (fun a => {| attribute_key := fst a; attribute_value := snd a |}) attributes |};
  link_spans := [ex_link_span unit ("span:" ++ id) at_byte] |}.
Definition ex_placeholder_edge : ArchaeologyFactEdge := {|
  fact_edge_id := "edge:old"; from_fact_id := "call"; to_fact_id := "missing"; fact_edge_kind := EdgeUnresolved;
  fact_edge_trust := TrustExtracted; fact_edge_evidence_span_ids := ["span:call"%string];
  unresolved_reason := Some "target is outside the unit"%string |}.
Definition ex_digest_expr : string := ("v1:sha256:" ++ String.concat "" (replicate 32 "0a"))%string.
Definition ex_compare (id operator : string) (at_byte : N) : ArchaeologyLinkFact :=
  ex_link_fact "unit:a" id FactPredicate id at_byte
    [("operator", operator); ("comparison_rhs_expr", ex_digest_expr); ("reads", "LIMIT-X")]%string.
(** A call whose target is in another unit, an include, a read of a field nobody
    declares, and two predicates that exclude each other. *)
Definition ex_link_units : list ArchaeologyLinkUnit :=
  [ex_link_unit "unit:a" "src/main.cbl" [{| lineage_kind := LineageCopybook; lineage_source_unit_id := "unit:a";
     target_source_unit_id := None; lineage_evidence_span_id := "span:copy"; lineage_detail := "unresolved" |}];
   ex_link_unit "unit:b" "copy/RATES.cpy" []]%string.
Definition ex_link_facts : list ArchaeologyLinkFact :=
  [ex_link_fact "unit:a" "call" FactCall "CALL PAY" 0 [("target", "'PAY'")];
   ex_link_fact "unit:a" "missing" FactUnresolved "PAY" 5 [("target", "PAY")];
   ex_link_fact "unit:b" "entry" FactEntryPoint "pay" 0 [];
   ex_link_fact "unit:a" "copy" FactInclude "COPY RATES" 10 [("target", "rates")];
   ex_compare "p1" ">" 20; ex_compare "p2" "<=" 30]%string.
Definition ex_link (token : StructuralGraphCancellation) : outcome (ArchaeologyLinkPatch * nat) :=
  link_archaeology_facts token (fun _ => Some 100) "repo" ex_link_revision ex_link_units ex_link_facts
    [ex_placeholder_edge] default_link_limits 0%nat.
Definition ex_link_summary (p : ArchaeologyLinkPatch) :=
  (remove_fact_ids p, remove_edge_ids p,
   map (fun edge => (fact_edge_kind edge, from_fact_id edge, unresolved_reason edge)) (upsert_edges p),
   length (upsert_facts p), map (fun item => (target_source_unit_id item, lineage_detail item)) (patch_lineage p)).
Example ex_linked :
  (fun r => ex_link_summary (fst r)) <$> ex_link never_cancelled =
  Ok (["missing"], ["edge:old"],
      [(EdgeUnresolved, "p1", Some "reference target is unavailable");
       (EdgeUnresolved, "p2", Some "reference target is unavailable");
       (EdgeCalls, "call", None); (EdgeContradicts, "p1", None)], 2,
      [(Some "unit:b", "resolved include target")])%string%nat.
Proof. vm_compute. reflexivity. Qed.
Example ex_link_cancelled : ex_link (cancelled_from 3) = Err "Archaeology linker cancelled".
Proof. vm_compute. reflexivity. Qed.
(** An unresolved fact with a reference of its own, which no adapter of the
    repository emits, would be removed as a placeholder while the edge of its
    reference is added. *)
Example ex_dangling :
  (fun r => let p := fst r in
     (remove_fact_ids p, elemb "missing"%string (map from_fact_id (upsert_edges p)))) <$>
  link_archaeology_facts never_cancelled (fun _ => Some 100) "repo" ex_link_revision ex_link_units
    [ex_link_fact "unit:a" "call" FactCall "CALL PAY" 0 [("target", "'PAY'")];
     ex_link_fact "unit:a" "missing" FactUnresolved "PAY" 5 [("reads", "X")];
     ex_link_fact "unit:b" "entry" FactEntryPoint "pay" 0 []]%string
    [ex_placeholder_edge] default_link_limits 0%nat =
  Ok (["missing"]%string, true).
Proof. vm_compute. reflexivity. Qed.
