(* ===== verification/LinkerProps.v ===== *)
(** Theorems about the linker of [Linker]: what its patch holds, stated over the
    facts and edges it was given; that applying it leaves no edge without its
    facts; that it returns, within its bounds, and that cancellation changes
    nothing but the error. *)
From S2P Require Import Prelude Ordering Entries RustText GraphTypes Contracts Adapter Paths Linker.
Local Open Scope nat_scope.

Lemma foldl_inv_in {S A} (P : S -> Prop) (g : S -> A -> S) l s :
  P s -> (forall s x, x ∈ l -> P s -> P (g s x)) -> P (foldl g s l).
Proof.
  revert s. induction l as [|x l IH]; intros s Hs Hg; cbn; [done|].
  apply IH; [apply Hg; [left|done]|]. intros s' y Hy. apply Hg. by right.
Qed.

(** * Incident counts *)

(** How often an edge touches a fact. *)
Definition touches (edge : ArchaeologyFactEdge) (id : string) : nat :=
  (if decide (from_fact_id edge = id) then 1 else 0) + (if decide (to_fact_id edge = id) then 1 else 0).
Definition incidence (edges : list ArchaeologyFactEdge) (id : string) : nat :=
  sum_list_with (fun edge => touches edge id) edges.

Lemma add_incidents_wf edge m : map_wf m -> map_wf (add_incidents edge m).
Proof. intros Hm. unfold add_incidents. auto with entries. Qed.
Lemma count_add_incidents edge m id :
  map_wf m -> count_of (add_incidents edge m) id = count_of m id + touches edge id.
Proof.
  intros Hm. unfold add_incidents, touches. rewrite !count_add by auto with entries.
  repeat case_decide; subst; try lia; congruence.
Qed.
Lemma index_incidents_count edges id :
  map_wf (index_incidents edges) /\ count_of (index_incidents edges) id = incidence edges id.
Proof.
  unfold index_incidents, incidence.
  enough (forall m, map_wf m -> map_wf (foldl (fun counts edge => add_incidents edge counts) m edges) /\
    count_of (foldl (fun counts edge => add_incidents edge counts) m edges) id
    = count_of m id + sum_list_with (fun edge => touches edge id) edges) as H by (apply (H []); constructor).
  induction edges as [|edge edges IH]; intros m Hm; cbn [foldl sum_list_with]; [by rewrite Nat.add_0_r|].
  destruct (IH (add_incidents edge m)) as [Hwf ->]; [by apply add_incidents_wf|]. split; [done|].
  rewrite count_add_incidents by done. lia.
Qed.

(** The edges that were removed. *)
Definition removed_among (removed : BTreeSet string) (edges : list ArchaeologyFactEdge) : list ArchaeologyFactEdge :=
  List.filter (fun edge => elemb (fact_edge_id edge) removed) edges.
Lemma incidence_app l k id : incidence (l ++ k) id = incidence l id + incidence k id.
Proof. apply sum_list_with_app. Qed.
Lemma incidence_cons edge l id : incidence (edge :: l) id = touches edge id + incidence l id.
Proof. done. Qed.
Lemma removed_cons removed edge l :
  removed_among removed (edge :: l) =
  if elemb (fact_edge_id edge) removed then edge :: removed_among removed l else removed_among removed l.
Proof. done. Qed.
Lemma incidence_insert removed edges edge id :
  NoDup (map fact_edge_id edges) -> edge ∈ edges -> fact_edge_id edge ∉ removed ->
  incidence (removed_among (set_insert (fact_edge_id edge) removed) edges) id
  = incidence (removed_among removed edges) id + touches edge id.
Proof.
  intros Hnd (l1 & l2 & ->)%list_elem_of_split Hnew. rewrite map_app in Hnd. cbn in Hnd.
  apply NoDup_app in Hnd as (_ & H1 & [H2 _]%NoDup_cons).
  assert (forall l, fact_edge_id edge ∉ map fact_edge_id l ->
    removed_among (set_insert (fact_edge_id edge) removed) l = removed_among removed l) as Hsame.
  { clear. intros l Hl. unfold removed_among. apply filter_ext_in. intros e He%list_elem_of_In.
    assert (fact_edge_id e <> fact_edge_id edge) as Hne.
    { intros Heq. apply Hl. rewrite <- Heq. by apply list_elem_of_fmap_2. }
    unfold elemb. apply bool_decide_ext. rewrite elem_of_set_insert. naive_solver. }
  unfold removed_among in *. rewrite !List.filter_app. cbn [List.filter].
  rewrite (proj2 (elemb_true (fact_edge_id edge) (set_insert _ removed))) by (rewrite elem_of_set_insert; by left).
  rewrite (proj2 (elemb_false (fact_edge_id edge) removed)) by done. rewrite !Hsame; [|done|].
  - rewrite !incidence_app. cbn. unfold incidence. lia.
  - intros Hin. apply (H1 _ Hin). left.
Qed.
(** Where as many incidences were removed as there are, every edge was. *)
Lemma incidence_all removed edges id :
  incidence edges id = incidence (removed_among removed edges) id ->
  forall edge, edge ∈ edges -> touches edge id <> 0 -> fact_edge_id edge ∈ removed.
Proof.
  assert (forall l, incidence (removed_among removed l) id <= incidence l id) as Hle.
  { induction l as [|e l IH]; [done|]. rewrite removed_cons, incidence_cons. case_match; rewrite ?incidence_cons; lia. }
  induction edges as [|e edges IH]; [by intros _ edge ?%not_elem_of_nil|].
  rewrite removed_cons, incidence_cons. intros Heq edge. pose proof (Hle edges) as Hle'.
  destruct (elemb (fact_edge_id e) removed) eqn:E; rewrite ?incidence_cons in Heq.
  - intros [->|Hin]%elem_of_cons Ht; [by apply elemb_true|]. apply IH; [lia|done..].
  - intros [->|Hin]%elem_of_cons Ht; [lia|apply IH; [lia|done..]].
Qed.

(** * Removals *)

(** The language and dialect of a unit. *)
Definition speaks (units : list ArchaeologyLinkUnit) (id : string) (language : string * option string) : Prop :=
  exists unit, unit ∈ units /\ link_unit_id unit = id /\ language = (link_language unit, link_dialect unit).
(** The tables agree with the input they are built from. *)
Record include_of (facts : list ArchaeologyLinkFact) (key : string * string) (fact : ArchaeologyFact) : Prop := {
  io_fact : exists item, item ∈ facts /\ link_fact_unit item = fst key /\ link_fact item = fact;
  io_kind : fact_kind fact = FactInclude;
  io_span : snd key ∈ fact_span_ids fact
}.
(** A unit can be named by its file's name, with or without the extension. *)
Definition named_by (unit : ArchaeologyLinkUnit) (key : string * (string * string)) : Prop :=
  exists path name, link_path unit = Some path /\
    (file_name (components path) = Some name \/ file_stem (components path) = Some name) /\
    lineage_key (link_language unit) (link_dialect unit) name = key.
Record tables_ok (revision_sha : string) (units : list ArchaeologyLinkUnit) (facts : list ArchaeologyLinkFact)
    (edges : list ArchaeologyFactEdge) (t : link_tables) : Prop := {
  ok_languages : forall id language, map_get id (unit_languages t) = Some language <-> speaks units id language;
  ok_paths : forall id, is_Some (map_get id (unit_languages t)) -> is_Some (map_get id (unit_paths t));
  ok_facts : NoDup (map (fun item => fact_id (link_fact item)) facts);
  ok_units : forall item, item ∈ facts -> is_Some (map_get (link_fact_unit item) (unit_languages t));
  ok_cited : forall item id, item ∈ facts -> id ∈ fact_span_ids (link_fact item) -> cites revision_sha item id = true;
  ok_by_id : forall id item, map_get id (by_id t) = Some item <-> item ∈ facts /\ fact_id (link_fact item) = id;
  ok_distinct : NoDup (map link_unit_id units);
  ok_includes : forall key fact, map_get key (includes t) = Some fact <-> include_of facts key fact;
  ok_targets : forall key unit, unit ∈ default [] (map_get key (target_units t)) <->
    unit ∈ units /\ named_by unit key;
  ok_targets_once : forall key, NoDup (map link_unit_id (default [] (map_get key (target_units t))));
  ok_unresolved : unresolved_by_source t = index_unresolved edges;
  ok_incidents : incidents t = index_incidents edges;
  ok_symbols : forall key item, item ∈ default [] (map_get key (symbols t)) <->
    item ∈ facts /\ candidate_kind (fact_kind (link_fact item)) = true /\ key ∈ symbol_keys (link_fact item)
}.
Lemma check_fact_Ok revision_sha languages item :
  check_fact revision_sha languages item = Ok tt ->
  is_Some (map_get (link_fact_unit item) languages) /\
  forall id, id ∈ fact_span_ids (link_fact item) -> cites revision_sha item id = true.
Proof.
  intros [Hunit [Hcited _]%if_Err_Ok]%if_Err_Ok. apply negb_false_iff, map_contains_key_true in Hunit.
  split; [by apply map_get_is_Some|]. intros id Hid.
  apply negb_false_iff. by apply (proj1 (any_false _ _) Hcited).
Qed.
Lemma add_symbols_effect token m item n m' n' :
  add_symbols token m item n = Ok (m', n') ->
  m' = foldl (fun m key => push_entry key item m) m
         (if candidate_kind (fact_kind (link_fact item)) then symbol_keys (link_fact item) else []).
Proof.
  intros (u & n1 & _ & ->%mret_Ok)%polling_bind_Ok. by destruct (candidate_kind _).
Qed.
Lemma symbols_exact token facts n m n' key item :
  for_each_polling (add_symbols token) [] facts n = Ok (m, n') ->
  item ∈ default [] (map_get key m) <->
  item ∈ facts /\ candidate_kind (fact_kind (link_fact item)) = true /\ key ∈ symbol_keys (link_fact item).
Proof.
  intros ->%(for_each_polling_effect _ _ (add_symbols_effect token)).
  rewrite (pushes_concat (fun item => if candidate_kind (fact_kind (link_fact item))
    then symbol_keys (link_fact item) else []) id), pushes_default, elem_of_entries, elem_of_concat_map.
  split.
  - intros (x & (k & [= <- <-] & Hk)%list_elem_of_fmap & Hx). destruct (candidate_kind _); [done|].
    by apply not_elem_of_nil in Hk.
  - intros (Hin & Hc & Hk). exists item. split; [|done]. rewrite Hc.
    by apply (list_elem_of_fmap_2 (fun key => (key, id item))).
Qed.

Lemma index_includes_exact facts m :
  index_includes facts = Ok m -> forall key fact, map_get key m = Some fact <-> include_of facts key fact.
Proof.
  unfold index_includes. rewrite (for_each_concat_map (fun item => add_include item)).
  intros [_ H]%(insert_absent_Ok (fun p => (link_fact_unit (fst p), snd p)) (fun p => link_fact (fst p))) key fact.
  rewrite H. split.
  - intros ([item span] & (x & (s & [= <- <-] & Hs)%list_elem_of_fmap & [Hx Hk%bool_decide_eq_true_1]%elem_of_filter_bool)%elem_of_concat_map
      & <- & <-). split; [by exists item|done|done].
  - intros [(item & Hi & Hu & <-) Hk Hs]. exists (item, snd key). split_and!; [|by destruct key; cbn in *; subst|done].
    apply elem_of_concat_map. exists item. split; [by apply list_elem_of_fmap_2|]. apply elem_of_filter_bool.
    split; [done|]. by apply bool_decide_eq_true_2.
Qed.
Lemma index_targets_exact units key :
  NoDup (map link_unit_id units) ->
  NoDup (map link_unit_id (default [] (map_get key (index_targets units)))) /\
  forall unit, unit ∈ default [] (map_get key (index_targets units)) <-> unit ∈ units /\ named_by unit key.
Proof.
  intros Hnd. unfold index_targets. change (foldl _ [] (concat (map unit_targets units))) with (pushes (concat (map unit_targets units))).
  rewrite (map_get_map (fun _ l => dedup_by_key link_unit_id (sort_by_key link_unit_id l))).
  assert (default [] (option_map (fun l => dedup_by_key link_unit_id (sort_by_key link_unit_id l))
    (map_get key (pushes (concat (map unit_targets units)))))
    = dedup_by_key link_unit_id (sort_by_key link_unit_id (entries_of (concat (map unit_targets units)) key))) as ->.
  { rewrite <- pushes_default. by destruct (map_get _ _). }
  assert (forall unit, unit ∈ entries_of (concat (map unit_targets units)) key <-> unit ∈ units /\ named_by unit key) as Hent.
  { intros unit. rewrite elem_of_entries, elem_of_concat_map. unfold unit_targets, named_by. split.
    - intros (u & Hk & Hu). destruct (link_path u) as [path|] eqn:Hp; [|by apply not_elem_of_nil in Hk].
      apply list_elem_of_fmap in Hk as (name & [= Hkey <-] & (o & Ho & Hname)%list_elem_of_omap).
      change (o = Some name) in Hname. subst o.
      split; [done|]. exists path, name. rewrite !elem_of_cons in Ho. split_and!; [done| |done].
      destruct Ho as [Ho|[Ho|Ho%not_elem_of_nil]]; [by left|by right|done].
    - intros (Hu & path & name & Hp & Hn & <-). exists unit. split; [|done]. rewrite Hp. apply list_elem_of_fmap.
      exists name. split; [done|]. apply list_elem_of_omap. exists (Some name). split; [|done].
      destruct Hn as [<-|<-]; [left|right; left]. }
  split.
  - rewrite map_sort_dedup_by_key. apply sorted_NoDup, set_of_list_sorted.
  - intros unit. rewrite elem_of_sort_dedup_by_key; [apply Hent|].
    intros y z [Hy _]%Hent [Hz _]%Hent. by apply (key_identifies _ _ Hnd).
Qed.

Lemma build_link_tables_ok token revision_sha units facts edges n t n' :
  build_link_tables token revision_sha units facts edges n = Ok (t, n') -> tables_ok revision_sha units facts edges t.
Proof.
  unfold build_link_tables. intros H. case_match eqn:Hunits; [done|]. case_match eqn:Hfacts; [done|].
  apply negb_false_iff, Nat.eqb_eq in Hunits, Hfacts.
  rewrite <- (length_map (fun unit => (link_unit_id unit, (link_language unit, link_dialect unit))) units) in Hunits.
  rewrite <- (length_map (fun item => (fact_id (link_fact item), item)) facts) in Hfacts.
  apply map_of_list_length_NoDup in Hunits, Hfacts.
  apply polling_bind_Ok in H as ([] & n1 & ([] & Hchecks & _)%lift_Ok & H).
  apply polling_bind_Ok in H as (includes & n2 & (m & Hincludes & [= -> _])%lift_Ok & H).
  apply polling_bind_Ok in H as (symbols & n3 & Hsymbols & ->%mret_Ok).
  assert (forall item, item ∈ facts -> check_fact revision_sha (map_of_list
    (map (fun unit => (link_unit_id unit, (link_language unit, link_dialect unit))) units)) item = Ok tt) as Hcheck.
  { intros item Hin. apply for_all_Ok in Hchecks. by eapply Forall_forall in Hchecks. }
  split; cbn [unit_languages unit_paths by_id unresolved_by_source incidents Linker.includes
    target_units Linker.symbols]; try done.
  - intros id language. rewrite map_of_list_get by done. rewrite list_elem_of_fmap. unfold speaks. naive_solver.
  - intros id. rewrite !map_get_is_Some, !map_of_list_keys, !map_map. done.
  - by rewrite map_map in Hfacts.
  - intros item Hin. by apply (check_fact_Ok _ _ _ (Hcheck _ Hin)).
  - intros item id Hin. by apply (check_fact_Ok _ _ _ (Hcheck _ Hin)).
  - intros id item. rewrite map_of_list_get by done. rewrite list_elem_of_fmap. naive_solver.
  - by rewrite map_map in Hunits.
  - by apply index_includes_exact.
  - intros key. apply index_targets_exact. by rewrite map_map in Hunits.
  - intros key. apply index_targets_exact. by rewrite map_map in Hunits.
  - intros key item. by eapply symbols_exact.
Qed.

Definition unresolved (facts : list ArchaeologyLinkFact) (id : string) : Prop :=
  exists item, item ∈ facts /\ fact_id (link_fact item) = id /\ fact_kind (link_fact item) = FactUnresolved.
(** What has been removed so far: unresolved edges to placeholders, with their
    incidences counted. *)
Record removals_ok (facts : list ArchaeologyLinkFact) (edges : list ArchaeologyFactEdge) (st : link_state) : Prop := {
  ok_counts_wf : map_wf (removed_incidents st);
  ok_counts : forall id, count_of (removed_incidents st) id = incidence (removed_among (removed_edges st) edges) id;
  ok_removed : forall id, id ∈ removed_edges st -> exists edge, edge ∈ edges /\ fact_edge_id edge = id /\
    is_unresolved_edge edge = true /\ unresolved facts (to_fact_id edge);
  ok_placeholders : forall id, id ∈ placeholder_candidates st -> unresolved facts id
}.

Lemma unresolved_edges_of edges source edge :
  edge ∈ default [] (map_get source (index_unresolved edges)) <->
  edge ∈ edges /\ from_fact_id edge = source /\ is_unresolved_edge edge = true.
Proof.
  set (key := fun edge => if is_unresolved_edge edge then Some (from_fact_id edge) else None).
  assert (index_unresolved edges = foldl (push_keyed key) [] edges) as ->.
  { unfold index_unresolved. apply foldl_ext_in. intros m e. unfold push_keyed, key. by case_match. }
  rewrite (proj2 (push_keyed_get _ _ _)).
  trans (edge ∈ filed key edges source); [by destruct (filed key edges source)|].
  rewrite elem_of_filed. unfold key. destruct (is_unresolved_edge edge); naive_solver.
Qed.

Section Removals.
Context (revision_sha : string) (units : list ArchaeologyLinkUnit) (facts : list ArchaeologyLinkFact).
Context (edges : list ArchaeologyFactEdge) (t : link_tables) (Ht : tables_ok revision_sha units facts edges t).
Context (Hids : NoDup (map fact_edge_id edges)).
Notation removals_ok := (removals_ok facts edges).

Lemma removals_start : removals_ok start_state.
Proof.
  split; cbn; [constructor| |by intros id ?%not_elem_of_nil..].
  intros id. unfold removed_among. rewrite (proj2 (filter_bool_nil _ edges)); [done|].
  intros e _. by apply elemb_false, not_elem_of_nil.
Qed.
Lemma removals_same st st' :
  removed_edges st' = removed_edges st -> removed_incidents st' = removed_incidents st ->
  placeholder_candidates st' = placeholder_candidates st -> removals_ok st -> removals_ok st'.
Proof. intros H1 H2 H3 []. split; rewrite ?H1, ?H2, ?H3; done. Qed.
Lemma clear_placeholder_ok st edge :
  edge ∈ edges -> is_unresolved_edge edge = true -> unresolved facts (to_fact_id edge) ->
  removals_ok st -> removals_ok (clear_placeholder st edge).
Proof.
  intros Hedge Hun Hto [Hwf Hcount Hremoved Hcand].
  split; cbn [clear_placeholder removed_edges removed_incidents placeholder_candidates].
  - case_match; [done|]. by apply add_incidents_wf.
  - intros id. destruct (set_contains (fact_edge_id edge) (removed_edges st)) eqn:E.
    + apply set_contains_true in E. rewrite Hcount. f_equal. unfold removed_among. apply filter_ext_in.
      intros e _. unfold elemb. apply bool_decide_ext. rewrite elem_of_set_insert.
      split; [by right|intros [->|He]; done].
    + apply set_contains_false in E. by rewrite count_add_incidents, Hcount, incidence_insert.
  - intros id [->|Hid]%elem_of_set_insert; [by exists edge|by apply Hremoved].
  - intros id [->|Hid]%elem_of_set_insert; [done|by apply Hcand].
Qed.
Lemma clear_placeholders_ok source keep st :
  removals_ok st -> removals_ok (clear_placeholders t source keep st).
Proof.
  intros Hst. unfold clear_placeholders. apply foldl_inv_in; [done|].
  intros s edge [Hin Hp]%elem_of_filter_bool Hs. rewrite (ok_unresolved _ _ _ _ _ Ht) in Hin.
  apply unresolved_edges_of in Hin as (Hin & _ & Hun). apply clear_placeholder_ok; [done..| |done].
  unfold is_placeholder_edge in Hp. apply andb_true_iff in Hp as [_ Hp].
  destruct (map_get _ _) as [item|] eqn:E; [|done]. apply (ok_by_id _ _ _ _ _ Ht) in E as [Hi Hid].
  exists item. by apply bool_decide_eq_true_1 in Hp.
Qed.
Lemma clear_placeholders_patch source keep st : patch (clear_placeholders t source keep st) = patch st.
Proof. unfold clear_placeholders. generalize (List.filter (is_placeholder_edge t keep) (default [] (map_get (fact_id source) (unresolved_by_source t)))) as l.
  intros l. revert st. induction l as [|e l IH]; intros st; cbn; [done|]. by rewrite IH.
Qed.

(** A placeholder whose incidences were all removed has no edge left. *)
Lemma removed_fact_isolated st id edge :
  removals_ok st -> map_get id (incidents t) = map_get id (removed_incidents st) ->
  edge ∈ edges -> from_fact_id edge = id \/ to_fact_id edge = id -> fact_edge_id edge ∈ removed_edges st.
Proof.
  intros Hst Hcount Hedge Htouch. apply (incidence_all _ edges id); [|done|].
  - rewrite <- (ok_counts _ _ _ Hst). rewrite <- (proj2 (index_incidents_count edges id)), <- (ok_incidents _ _ _ _ _ Ht).
    unfold count_of. by rewrite Hcount.
  - unfold touches. destruct Htouch; repeat case_decide; done || lia.
Qed.
End Removals.

(** * What the loops do *)

Section Steps.
Context (token : StructuralGraphCancellation) (repository_id revision_sha : string).
Context (t : link_tables) (limits : ArchaeologyLinkLimits).

Definition lineage_step (st : link_state) (entry : ArchaeologyLinkUnit * ArchaeologyAdapterLineage) : link_state :=
  let include := map_get (link_unit_id (fst entry), lineage_evidence_span_id (snd entry)) (includes t) in
  apply_lineage t (fst entry) (snd entry) include (lineage_matches t (fst entry) include) st.
Definition reference_step (source : ArchaeologyLinkFact) (st : link_state)
    (reference : ArchaeologyFactEdgeKind * string) : link_state :=
  apply_reference repository_id revision_sha t source (fst reference) (snd reference)
    (link_candidates t source (fst reference) (snd reference)) (with_count st (reference_count st + 1)).
Definition pair_key (pair : predicate_entry * predicate_entry) : string * string :=
  ordered_pair (fact_id (link_fact (fst (fst pair)))) (fact_id (link_fact (fst (snd pair)))).
Definition excluded (pair : predicate_entry * predicate_entry) : bool :=
  complementary_operators (snd (fst pair)) (snd (snd pair)).
Definition pair_edge (pair : predicate_entry * predicate_entry) : ArchaeologyFactEdge :=
  contradiction repository_id revision_sha (fst (fst pair)) (fst (snd pair)).
Definition pair_step (st : contradiction_state) (pair : predicate_entry * predicate_entry) : contradiction_state :=
  if negb (excluded pair) then st else
  let link := contradiction_link st in
  let link := with_count link (saturating_add (reference_count link) 1) in
  if set_contains (pair_key pair) (known_contradictions st)
  then {| contradiction_link := link; known_contradictions := known_contradictions st |} else {|
    contradiction_link := with_patch link (push_link_edge (pair_edge pair) (patch link));
    known_contradictions := set_insert (pair_key pair) (known_contradictions st) |}.
Definition sorted_group (group : list predicate_entry) : list predicate_entry :=
  match sort_group t group with Ok group => group | _ => [] end.

Lemma link_lineage_item_effect st entry n st' n' :
  link_lineage_item token t limits st entry n = Ok (st', n') -> st' = lineage_step st entry.
Proof.
  destruct entry as [unit item]. cbn [link_lineage_item]. intros (u & n1 & _ & H)%polling_bind_Ok.
  case_match; [done|]. case_match; [done|]. by apply mret_Ok in H.
Qed.
Lemma link_reference_effect source st reference n st' n' :
  link_reference token repository_id revision_sha t limits source st reference n = Ok (st', n') ->
  st' = reference_step source st reference.
Proof.
  destruct reference as [kind target]. cbn [link_reference]. intros (u & n1 & _ & H)%polling_bind_Ok.
  repeat (case_match; [done|]). by apply mret_Ok in H.
Qed.
Lemma link_pair_effect st pair n st' n' :
  link_pair token repository_id revision_sha limits st pair n = Ok (st', n') -> st' = pair_step st pair.
Proof.
  destruct pair as [[first first_op] [second second_op]]. cbn [link_pair].
  intros (u & n1 & _ & H)%polling_bind_Ok. unfold pair_step, excluded, pair_key, pair_edge. cbn [fst snd].
  case_match; [by apply mret_Ok in H|]. case_match; [done|].
  case_match; [by apply mret_Ok in H|]. case_match; [done|]. by apply mret_Ok in H.
Qed.
Lemma link_group_effect st group n st' n' :
  link_group token repository_id revision_sha t limits st group n = Ok (st', n') ->
  st' = foldl pair_step st (pairs_of (sorted_group group)).
Proof.
  unfold link_group, sorted_group. intros (g & n1 & (? & Hg & [= -> ->])%lift_Ok & H)%polling_bind_Ok.
  rewrite Hg. case_match; [done|]. by apply (for_each_polling_effect _ _ link_pair_effect) in H.
Qed.
Lemma link_references_effect facts st n st' n' :
  link_references token repository_id revision_sha t limits facts st n = Ok (st', n') ->
  st' = foldl (fun st source => foldl (reference_step source) st (references (link_fact source))) st facts.
Proof.
  apply for_each_polling_effect. intros s x k s' k' H.
  by apply (for_each_polling_effect _ _ (link_reference_effect x)) in H.
Qed.

(** A predicate under the key of its group. *)
Definition predicate_filed (item : ArchaeologyLinkFact) : option (predicate_key * predicate_entry) :=
  '(operator, rhs, subject) ← predicate_parts (link_fact item);
  '(language, dialect) ← map_get (link_fact_unit item) (unit_languages t);
  Some ((language, (default ""%string dialect, (folded_key subject, rhs))), (item, operator)).
Lemma add_predicate_effect m item n m' n' :
  add_predicate token t m item n = Ok (m', n') ->
  m' = match predicate_filed item with Some p => push_entry (fst p) (snd p) m | None => m end.
Proof.
  unfold add_predicate, predicate_filed. intros (u & n1 & _ & H)%polling_bind_Ok.
  destruct (predicate_parts (link_fact item)) as [[[operator rhs] subject]|]; cbn; [|by apply mret_Ok in H].
  destruct (map_get _ _) as [[language dialect]|]; cbn; [|done]. by apply mret_Ok in H.
Qed.
(** The pairs of predicates compared, in the order they are. *)
Definition compared_pairs (facts : list ArchaeologyLinkFact) : list (predicate_entry * predicate_entry) :=
  concat (map (fun group => pairs_of (sorted_group group))
    (map_values (pushes (omap predicate_filed (List.filter is_predicate facts))))).
Lemma link_contradictions_effect facts edges st n st' n' :
  link_contradictions token repository_id revision_sha t limits facts edges st n = Ok (st', n') ->
  st' = contradiction_link (foldl pair_step
    {| contradiction_link := st; known_contradictions := stored_contradictions edges |} (compared_pairs facts)).
Proof.
  intros (groups & n1 & Hgroups & (c & n2 & Hc & ->%mret_Ok)%polling_bind_Ok)%polling_bind_Ok.
  apply (for_each_polling_effect _ _ add_predicate_effect) in Hgroups as ->. rewrite pushes_omap in Hc.
  apply (for_each_polling_effect _ _ link_group_effect) in Hc as ->. unfold compared_pairs.
  by rewrite foldl_concat, foldl_map.
Qed.
End Steps.

(** * What the patch holds *)

Section Patch.
Context (repository_id revision_sha : string) (t : link_tables).
Notation reference_step := (reference_step repository_id revision_sha t).
Notation pair_step := (pair_step repository_id revision_sha).

(** The references of the facts, and the edge and placeholder of each. *)
Definition link_reference_of : Type := ArchaeologyLinkFact * (ArchaeologyFactEdgeKind * string).
Definition all_references (facts : list ArchaeologyLinkFact) : list link_reference_of :=
  concat (map (fun source => map (fun reference => (source, reference)) (references (link_fact source))) facts).
Definition placeholder (r : link_reference_of) : ArchaeologyFact :=
  unresolved_fact repository_id revision_sha t (fst r) (fst (snd r)) (snd (snd r))
    (link_candidates t (fst r) (fst (snd r)) (snd (snd r))).
Definition reference_edge (r : link_reference_of) : ArchaeologyFactEdge :=
  let source := link_fact (fst r) in
  match link_candidates t (fst r) (fst (snd r)) (snd (snd r)) with
  | [found] => link_edge repository_id revision_sha (fst (snd r)) (fact_id source) (fact_id (link_fact found))
                 (exact_evidence (fst r) (Some found)) None
  | candidates => link_edge repository_id revision_sha (unresolved_edge_kind source (fst (snd r))) (fact_id source)
                 (fact_id (placeholder r)) (exact_evidence (fst r) None)
                 (Some match candidates with
                       | [] => "reference target is unavailable" | _ => "reference target is ambiguous" end%string)
  end.
Definition reference_facts (r : link_reference_of) : list ArchaeologyFact :=
  match link_candidates t (fst r) (fst (snd r)) (snd (snd r)) with [_] => [] | _ => [placeholder r] end.

Lemma reference_step_patch source st reference :
  upsert_edges (patch (reference_step source st reference))
    = upsert_edges (patch st) ++ [reference_edge (source, reference)] /\
  upsert_facts (patch (reference_step source st reference))
    = upsert_facts (patch st) ++ reference_facts (source, reference) /\
  patch_lineage (patch (reference_step source st reference)) = patch_lineage (patch st).
Proof.
  destruct reference as [kind target]. unfold LinkerProps.reference_step, apply_reference, reference_edge, reference_facts.
  unfold placeholder. cbn [fst snd].
  destruct (link_candidates t source kind target) as [|x [|y l]]; cbn [patch with_patch push_link_edge
    push_link_fact upsert_edges upsert_facts patch_lineage with_count]; rewrite !clear_placeholders_patch;
    cbn; by rewrite ?app_nil_r.
Qed.
Lemma references_patch facts st :
  let st' := foldl (fun st source => foldl (reference_step source) st (references (link_fact source))) st facts in
  upsert_edges (patch st') = upsert_edges (patch st) ++ map reference_edge (all_references facts) /\
  upsert_facts (patch st') = upsert_facts (patch st) ++ concat (map reference_facts (all_references facts)) /\
  patch_lineage (patch st') = patch_lineage (patch st).
Proof.
  cbn zeta. assert (forall st, foldl (fun st source => foldl (reference_step source) st (references (link_fact source))) st facts
    = foldl (fun st r => reference_step (fst r) st (snd r)) st (all_references facts)) as ->.
  { clear st. intros st. unfold all_references. rewrite foldl_concat, foldl_map. apply foldl_ext_in.
    intros s x. by rewrite foldl_map. }
  revert st. induction (all_references facts) as [|[source r] l IH]; intros st; cbn [foldl map concat fst snd];
    [by rewrite !app_nil_r|].
  destruct (IH (reference_step source st r)) as (-> & -> & ->).
  destruct (reference_step_patch source st r) as (-> & -> & ->). by rewrite <- !app_assoc.
Qed.
Lemma elem_of_all_references facts r :
  r ∈ all_references facts <-> fst r ∈ facts /\ snd r ∈ references (link_fact (fst r)).
Proof.
  unfold all_references. rewrite elem_of_concat_map. split.
  - intros (x & (y & -> & Hy)%list_elem_of_fmap & Hx). done.
  - intros [H1 H2]. exists (fst r). split; [|done]. destruct r. by apply (list_elem_of_fmap_2 (pair _)).
Qed.

(** ** Contradictions *)

(** What the pairs looked at so far added. *)
Record pairs_ok (stored : BTreeSet (string * string)) (base : link_state)
    (pairs new : list (predicate_entry * predicate_entry)) (st : contradiction_state) : Prop := {
  ok_pushed : upsert_edges (patch (contradiction_link st))
    = upsert_edges (patch base) ++ map (pair_edge repository_id revision_sha) new;
  ok_rest : upsert_facts (patch (contradiction_link st)) = upsert_facts (patch base) /\
    patch_lineage (patch (contradiction_link st)) = patch_lineage (patch base) /\
    removed_edges (contradiction_link st) = removed_edges base /\
    removed_incidents (contradiction_link st) = removed_incidents base /\
    placeholder_candidates (contradiction_link st) = placeholder_candidates base;
  ok_new : forall pair, pair ∈ new -> pair ∈ pairs /\ excluded pair = true /\ pair_key pair ∉ stored;
  ok_known : forall key, key ∈ known_contradictions st <-> key ∈ stored \/ key ∈ map pair_key new;
  ok_once : NoDup (map pair_key new);
  ok_all : forall pair, pair ∈ pairs -> excluded pair = true -> pair_key pair ∈ known_contradictions st
}.
Lemma pairs_step stored base pairs new st pair :
  pairs_ok stored base pairs new st -> exists new', pairs_ok stored base (pairs ++ [pair]) new' (pair_step st pair).
Proof.
  intros [Hpushed Hrest Hnew Hknown Honce Hall]. unfold LinkerProps.pair_step.
  destruct (excluded pair) eqn:Hex; cbn [negb].
  - destruct (set_contains _ _) eqn:Hin.
    + apply set_contains_true in Hin. exists new. split; cbn [contradiction_link with_count patch known_contradictions];
        [done|done| |done|done|].
      * intros q Hq. destruct (Hnew q Hq). rewrite elem_of_app. auto.
      * intros q [Hq| ->%list_elem_of_singleton]%elem_of_app; [by apply Hall|done].
    + apply set_contains_false in Hin. exists (new ++ [pair]).
      split; cbn [contradiction_link with_count with_patch patch push_link_edge upsert_edges known_contradictions].
      * by rewrite Hpushed, map_app, <- app_assoc.
      * done.
      * intros q [Hq| ->%list_elem_of_singleton]%elem_of_app.
        { destruct (Hnew q Hq). rewrite elem_of_app. auto. }
        rewrite Hknown in Hin. split_and!; [rewrite elem_of_app; right; by apply list_elem_of_singleton|done|naive_solver].
      * intros key. rewrite elem_of_set_insert, Hknown, map_app, elem_of_app. cbn [map]. rewrite list_elem_of_singleton.
        naive_solver.
      * rewrite map_app. apply NoDup_app. split_and!; [done| |apply NoDup_singleton].
        intros k Hk ->%list_elem_of_singleton. apply Hin, Hknown. by right.
      * intros q [Hq| ->%list_elem_of_singleton]%elem_of_app Hq'; rewrite elem_of_set_insert; [right; by apply Hall|by left].
  - exists new. split; [done|done| |done|done|].
    + intros q Hq. destruct (Hnew q Hq). rewrite elem_of_app. auto.
    + intros q [Hq| ->%list_elem_of_singleton]%elem_of_app; [by apply Hall|congruence].
Qed.
Lemma pairs_all stored base pairs :
  exists new, pairs_ok stored base pairs new
    (foldl pair_step {| contradiction_link := base; known_contradictions := stored |} pairs).
Proof.
  induction pairs as [|pair pairs [new IH]] using rev_ind.
  - exists []. split; cbn; [by rewrite app_nil_r|done| | |constructor|]; set_solver.
  - rewrite foldl_app. cbn [foldl]. by eapply pairs_step.
Qed.
End Patch.

(** ** The whole run *)

(** The lineage item as the linker answers it, before cycles are marked. *)
Definition lineage_answer (t : link_tables) (entry : ArchaeologyLinkUnit * ArchaeologyAdapterLineage)
    : ArchaeologyAdapterLineage :=
  lineage_result (fst entry) (snd entry) (lineage_matches t (fst entry)
    (map_get (link_unit_id (fst entry), lineage_evidence_span_id (snd entry)) (includes t))).
Definition marked (items : list ArchaeologyAdapterLineage) : list ArchaeologyAdapterLineage :=
  map (mark_cycle (set_of_list (omap lineage_pair items))) items.

(** What a returned patch is made of. *)
Record linked (json_patch : ArchaeologyLinkPatch -> option N) (repository_id revision_sha : string)
    (units : list ArchaeologyLinkUnit) (facts : list ArchaeologyLinkFact) (edges : list ArchaeologyFactEdge)
    (limits : ArchaeologyLinkLimits) (p : ArchaeologyLinkPatch) (t : link_tables) (st : link_state)
    (new : list (predicate_entry * predicate_entry)) : Prop := {
  ln_tables : tables_ok revision_sha units facts edges t;
  ln_patch : p = finish_patch t st;
  ln_removals : NoDup (map fact_edge_id edges) -> removals_ok facts edges st;
  ln_edges : upsert_edges (patch st) = map (reference_edge repository_id revision_sha t) (all_references facts)
    ++ map (pair_edge repository_id revision_sha) new;
  ln_facts : upsert_facts (patch st)
    = concat (map (reference_facts repository_id revision_sha t) (all_references facts));
  ln_pairs : exists base c, pairs_ok repository_id revision_sha (stored_contradictions edges) base (compared_pairs t facts) new c;
  ln_lineage : patch_lineage (patch st) = marked (map (lineage_answer t) (lineage_items units));
  ln_output : check_output json_patch limits p = Ok tt
}.

Lemma lineages_patch t units st :
  let st' := foldl (lineage_step t) st (lineage_items units) in
  upsert_edges (patch st') = upsert_edges (patch st) /\ upsert_facts (patch st') = upsert_facts (patch st) /\
  patch_lineage (patch st') = patch_lineage (patch st) ++ map (lineage_answer t) (lineage_items units).
Proof.
  cbn zeta. revert st. induction (lineage_items units) as [|entry l IH]; intros st; cbn [foldl map];
    [by rewrite app_nil_r|].
  assert (patch (lineage_step t st entry) = push_lineage (lineage_answer t entry) (patch st)) as Hstep.
  { unfold lineage_step, apply_lineage. cbn [patch with_patch]. f_equal.
    repeat case_match; by rewrite ?clear_placeholders_patch. }
  destruct (IH (lineage_step t st entry)) as (-> & -> & ->). rewrite Hstep. cbn [upsert_edges upsert_facts patch_lineage push_lineage].
  by rewrite <- app_assoc.
Qed.

Section Removed.
Context (repository_id revision_sha : string) (units : list ArchaeologyLinkUnit) (facts : list ArchaeologyLinkFact).
Context (edges : list ArchaeologyFactEdge) (t : link_tables) (Ht : tables_ok revision_sha units facts edges t).
Context (Hids : NoDup (map fact_edge_id edges)).
Notation removals_ok := (removals_ok facts edges).

Lemma lineage_step_ok st entry : removals_ok st -> removals_ok (lineage_step t st entry).
Proof.
  intros Hst. unfold lineage_step, apply_lineage.
  eapply (removals_same _ _ (match _, _ with Some _, [_] => _ | _, _ => _ end)); [done..|].
  repeat case_match; try done; by eapply clear_placeholders_ok.
Qed.
Lemma reference_step_ok source st reference :
  removals_ok st -> removals_ok (reference_step repository_id revision_sha t source st reference).
Proof.
  intros Hst. assert (forall l, removals_ok (clear_placeholders t (link_fact source) l (with_count st (reference_count st + 1)%N))) as Hcount.
  { intros l. eapply clear_placeholders_ok; [done..|]. by apply (removals_same _ _ st). }
  unfold reference_step, apply_reference. destruct (link_candidates _ _ _ _) as [|x [|y l]].
  - eapply (removals_same _ _ (clear_placeholders t _ _ _)); [done..|].
    eapply clear_placeholders_ok; [done..|]. by apply (removals_same _ _ st).
  - by eapply (removals_same _ _ (clear_placeholders t _ _ _)).
  - eapply (removals_same _ _ (clear_placeholders t _ _ _)); [done..|].
    eapply clear_placeholders_ok; [done..|]. by apply (removals_same _ _ st).
Qed.
End Removed.

Lemma link_archaeology_facts_linked token json_patch repository_id revision_sha units facts edges limits n p n' :
  link_archaeology_facts token json_patch repository_id revision_sha units facts edges limits n = Ok (p, n') ->
  exists t st new, linked json_patch repository_id revision_sha units facts edges limits p t st new.
Proof.
  intros (u1 & n1 & _ & H)%polling_bind_Ok. case_match; [done|]. case_match; [done|].
  apply polling_bind_Ok in H as (t & n2 & Ht%build_link_tables_ok & H). cbn zeta in H.
  case_match; [done|].
  apply polling_bind_Ok in H as (st1 & n3 & (st0 & n4 & Hlineage & ->%mret_Ok)%polling_bind_Ok & H).
  apply (for_each_polling_effect _ _ (link_lineage_item_effect _ _ _)) in Hlineage.
  apply polling_bind_Ok in H as (st2 & n5 & Href%link_references_effect & H).
  apply polling_bind_Ok in H as (st3 & n6 & Hcon%link_contradictions_effect & H).
  apply polling_bind_Ok in H as ([] & n7 & ([] & Hout & _)%lift_Ok & H).
  apply polling_bind_Ok in H as (u2 & n8 & _ & ->%mret_Ok).
  destruct (lineages_patch t units start_state) as (E0 & F0 & L0). rewrite <- Hlineage in E0, F0, L0.
  destruct (references_patch repository_id revision_sha t facts
    (with_count (with_patch st0 (mark_cycles (patch st0))) (len (lineage_items units)))) as (E2 & F2 & L2).
  rewrite <- Href in E2, F2, L2.
  destruct (pairs_all repository_id revision_sha (stored_contradictions edges) st2 (compared_pairs t facts)) as [new Hpairs].
  pose proof Hpairs as [E3 (F3 & L3 & R3) _ _ _ _]. rewrite <- Hcon in E3, F3, L3, R3.
  exists t, st3, new. split; [done|done| | | |by eexists _, _| |done].
  - intros Hids. destruct R3 as (R1 & R2 & R4). apply (removals_same _ _ st2); [done..|]. subst st2.
    apply foldl_inv_in; [|intros s x _ Hs; apply foldl_inv_in; [done|intros; by eapply reference_step_ok]].
    apply (removals_same _ _ st0); [done..|]. subst st0.
    apply foldl_inv_in; [by apply removals_start|intros; by eapply lineage_step_ok].
  - rewrite E3, E2. cbn [with_count with_patch patch mark_cycles upsert_edges]. by rewrite E0.
  - rewrite F3, F2. cbn [with_count with_patch patch mark_cycles upsert_facts]. by rewrite F0.
  - rewrite L3, L2. cbn [with_count with_patch patch mark_cycles patch_lineage]. by rewrite L0.
Qed.
