(* ===== verification/LinkerTheorems.v ===== *)
(** What the linker of [Linker] guarantees: the patch it returns, applied to the
    stored facts and edges, leaves no edge without its facts; every reference is
    linked to the one fact it can mean or to a placeholder that says why it has
    none; the contradictions are those between complementary predicates; it
    returns, within its bounds, whatever its input. *)
From S2P Require Import Prelude Ordering Entries RustText GraphTypes Contracts Adapter Paths Linker LinkerProps.
Local Open Scope nat_scope.

(** * What a reference may mean *)

(** A fact a reference of [source] may mean: another fact, of a kind the
    reference can lead to, of the name asked for, in a unit of the same language
    or exported by one of another. *)
Record may_mean (units : list ArchaeologyLinkUnit) (facts : list ArchaeologyLinkFact) (source : ArchaeologyLinkFact)
    (kind : ArchaeologyFactEdgeKind) (target : string) (x : ArchaeologyLinkFact) : Prop := {
  mm_fact : x ∈ facts;
  mm_other : fact_id (link_fact x) <> fact_id (link_fact source);
  mm_kind : target_kind kind (fact_kind (link_fact x)) = true;
  mm_named : folded_key target ∈ symbol_keys (link_fact x);
  mm_language : exists source_language source_dialect language dialect,
    speaks units (link_fact_unit source) (source_language, source_dialect) /\
    speaks units (link_fact_unit x) (language, dialect) /\
    (language = source_language ->
       case_insensitive source_language source_dialect = true \/ same_name target (link_fact x) = true) /\
    (language <> source_language ->
       attribute_is (link_fact x) "exported" "true" = true /\ same_name target (link_fact x) = true) /\
    (language = "assembly"%string -> source_language = "assembly"%string -> dialect = source_dialect)
}.

Section Candidates.
Context (revision_sha : string) (units : list ArchaeologyLinkUnit) (facts : list ArchaeologyLinkFact).
Context (edges : list ArchaeologyFactEdge) (t : link_tables) (Ht : tables_ok revision_sha units facts edges t).

Lemma target_kind_candidate edge kind : target_kind edge kind = true -> candidate_kind kind = true.
Proof. by destruct edge, kind. Qed.
Lemma is_candidate_spec source kind target x :
  source ∈ facts -> x ∈ facts ->
  is_candidate t source kind target x = true /\ folded_key target ∈ symbol_keys (link_fact x) <->
  may_mean units facts source kind target x.
Proof.
  intros Hsource Hx. destruct (ok_units _ _ _ _ _ Ht _ Hsource) as [[sl sd] Hsl].
  destruct (ok_units _ _ _ _ _ Ht _ Hx) as [[l d] Hl]. unfold is_candidate. rewrite Hsl, Hl. cbn [default from_option id].
  assert (forall unit l1 l2, speaks units unit l1 -> speaks units unit l2 -> l1 = l2) as Hone.
  { intros unit l1 l2 H1%(ok_languages _ _ _ _ _ Ht) H2%(ok_languages _ _ _ _ _ Ht). congruence. }
  apply (ok_languages _ _ _ _ _ Ht) in Hsl, Hl.
  rewrite !andb_true_iff, negb_true_iff, seqb_false, !orb_true_iff, !negb_true_iff, !seqb_false, bool_decide_eq_true.
  split.
  - intros (((Hne & Hk) & Hlang & Hd) & Hname). split; [done..|]. exists sl, sd, l, d. split_and!; [done..| | |].
    + intros ->. unfold seqb in Hlang. rewrite bool_decide_eq_true_2 in Hlang by done. by apply orb_true_iff in Hlang.
    + intros Hll. unfold seqb at 1 in Hlang. rewrite bool_decide_eq_false_2 in Hlang by done. by apply andb_true_iff in Hlang.
    + intros -> ->. by destruct Hd as [[]|].
  - intros [_ Hne Hk Hname (sl' & sd' & l' & d' & [= <- <-]%(Hone _ _ _ Hsl) & [= <- <-]%(Hone _ _ _ Hl) & H1 & H2 & H3)].
    split; [split_and!|]; try done.
    + unfold seqb at 1. case_bool_decide as Hll; [apply orb_true_iff|apply andb_true_iff]; auto.
    + destruct (decide (l = "assembly"%string)); [|by left; left].
      destruct (decide (sl = "assembly"%string)); [|by left; right]. right. auto.
Qed.
Lemma elem_of_link_candidates source kind target x :
  source ∈ facts -> x ∈ link_candidates t source kind target <-> may_mean units facts source kind target x.
Proof.
  intros Hsource. unfold link_candidates. rewrite elem_of_sort_dedup_by_key.
  - rewrite elem_of_filter_bool, (ok_symbols _ _ _ _ _ Ht). split.
    + intros ((Hx & _ & Hname) & Hc). by apply is_candidate_spec.
    + intros Hm. pose proof (mm_fact _ _ _ _ _ _ Hm) as Hx. pose proof Hm as [Hc Hname]%(is_candidate_spec _ _ _ _ Hsource Hx).
      split_and!; try done. eapply target_kind_candidate, mm_kind, Hm.
  - intros y z [Hy _]%elem_of_filter_bool [Hz _]%elem_of_filter_bool.
    apply (ok_symbols _ _ _ _ _ Ht) in Hy as [Hy _], Hz as [Hz _].
    by apply (key_identifies _ _ (ok_facts _ _ _ _ _ Ht)).
Qed.
Lemma link_candidates_NoDup source kind target : NoDup (link_candidates t source kind target).
Proof.
  apply (NoDup_fmap_1 (fun item => fact_id (link_fact item))).
  change (NoDup (map (fun item => fact_id (link_fact item)) (link_candidates t source kind target))). unfold link_candidates. rewrite map_sort_dedup_by_key. apply sorted_NoDup, set_of_list_sorted.
Qed.
End Candidates.

(** * References *)

Definition placeholder_id (repository_id revision_sha : string) (language : string * option string)
    (source : ArchaeologyFact) (kind : ArchaeologyFactEdgeKind) (target : string) : string :=
  link_id "fact" repository_id revision_sha (String.concat NUL
    [edge_kind_debug kind; fact_id source; reference_key (fst language) (snd language) target]).
(** The placeholder of a reference without a single target: an unresolved fact
    of low confidence that cites what its source cites. *)
Record stands_for (repository_id revision_sha : string) (units : list ArchaeologyLinkUnit) (source : ArchaeologyLinkFact)
    (kind : ArchaeologyFactEdgeKind) (target : string) (f : ArchaeologyFact) : Prop := {
  sf_id : exists language, speaks units (link_fact_unit source) language /\
    fact_id f = placeholder_id repository_id revision_sha language (link_fact source) kind target;
  sf_kind : fact_kind f = FactUnresolved;
  sf_spans : fact_span_ids f = fact_span_ids (link_fact source);
  sf_confidence : fact_confidence f = ConfidenceLow
}.
(** The edge a reference gets. *)
Inductive links (repository_id revision_sha : string) (units : list ArchaeologyLinkUnit)
    (facts : list ArchaeologyLinkFact) (p : ArchaeologyLinkPatch) (source : ArchaeologyLinkFact)
    (kind : ArchaeologyFactEdgeKind) (target : string) : ArchaeologyFactEdge -> Prop :=
| links_resolved x :
    (forall y, may_mean units facts source kind target y <-> y = x) ->
    links repository_id revision_sha units facts p source kind target
      (link_edge repository_id revision_sha kind (fact_id (link_fact source)) (fact_id (link_fact x))
        (exact_evidence source (Some x)) None)
| links_unavailable f :
    (forall y, ~ may_mean units facts source kind target y) ->
    stands_for repository_id revision_sha units source kind target f -> fact_id f ∈ map fact_id (upsert_facts p) ->
    links repository_id revision_sha units facts p source kind target
      (link_edge repository_id revision_sha (unresolved_edge_kind (link_fact source) kind)
        (fact_id (link_fact source)) (fact_id f) (exact_evidence source None)
        (Some "reference target is unavailable"%string))
| links_ambiguous f y z :
    may_mean units facts source kind target y -> may_mean units facts source kind target z -> y <> z ->
    stands_for repository_id revision_sha units source kind target f -> fact_id f ∈ map fact_id (upsert_facts p) ->
    links repository_id revision_sha units facts p source kind target
      (link_edge repository_id revision_sha (unresolved_edge_kind (link_fact source) kind)
        (fact_id (link_fact source)) (fact_id f) (exact_evidence source None)
        (Some "reference target is ambiguous"%string)).

Section References.
Context {json_patch : ArchaeologyLinkPatch -> option N} {repository_id revision_sha : string}.
Context {units : list ArchaeologyLinkUnit} {facts : list ArchaeologyLinkFact} {edges : list ArchaeologyFactEdge}.
Context {limits : ArchaeologyLinkLimits} {p : ArchaeologyLinkPatch} {t : link_tables} {st : link_state}.
Context {new : list (predicate_entry * predicate_entry)}.
Context (Hl : linked json_patch repository_id revision_sha units facts edges limits p t st new).
Notation reference_edge := (reference_edge repository_id revision_sha t).
Notation reference_facts := (reference_facts repository_id revision_sha t).
Notation links := (links repository_id revision_sha units facts p).

Lemma upserted_edge_ids id : id ∈ map fact_edge_id (upsert_edges p) <->
  id ∈ map fact_edge_id (map reference_edge (all_references facts) ++ map (pair_edge repository_id revision_sha) new).
Proof.
  rewrite (ln_patch _ _ _ _ _ _ _ _ _ _ _ Hl). cbn [finish_patch upsert_edges].
  rewrite map_sort_dedup_by_key, elem_of_set_of_list. by rewrite (ln_edges _ _ _ _ _ _ _ _ _ _ _ Hl).
Qed.
Lemma upserted_edge e : e ∈ upsert_edges p ->
  (exists r, r ∈ all_references facts /\ e = reference_edge r) \/
  (exists pair, pair ∈ new /\ e = pair_edge repository_id revision_sha pair).
Proof.
  rewrite (ln_patch _ _ _ _ _ _ _ _ _ _ _ Hl). cbn [finish_patch upsert_edges].
  intros He%sort_dedup_by_key_incl. rewrite (ln_edges _ _ _ _ _ _ _ _ _ _ _ Hl) in He.
  apply elem_of_app in He as [(r & -> & Hr)%list_elem_of_fmap|(q & -> & Hq)%list_elem_of_fmap]; eauto.
Qed.
Lemma upserted_fact_ids r f : r ∈ all_references facts -> f ∈ reference_facts r ->
  fact_id f ∈ map fact_id (upsert_facts p).
Proof.
  intros Hr Hf. rewrite (ln_patch _ _ _ _ _ _ _ _ _ _ _ Hl). cbn [finish_patch upsert_facts].
  rewrite map_sort_dedup_by_key, elem_of_set_of_list, (ln_facts _ _ _ _ _ _ _ _ _ _ _ Hl).
  apply list_elem_of_fmap_2, elem_of_concat_map. eauto.
Qed.
Lemma upserted_fact f : f ∈ upsert_facts p -> exists r, r ∈ all_references facts /\ f ∈ reference_facts r.
Proof.
  rewrite (ln_patch _ _ _ _ _ _ _ _ _ _ _ Hl). cbn [finish_patch upsert_facts].
  intros Hf%sort_dedup_by_key_incl. rewrite (ln_facts _ _ _ _ _ _ _ _ _ _ _ Hl) in Hf.
  apply elem_of_concat_map in Hf as (r & Hf & Hr). eauto.
Qed.

Lemma placeholder_stands_for source kind target : source ∈ facts ->
  stands_for repository_id revision_sha units source kind target (placeholder repository_id revision_sha t (source, (kind, target))).
Proof.
  intros Hs. pose proof (ln_tables _ _ _ _ _ _ _ _ _ _ _ Hl) as Ht.
  destruct (ok_units _ _ _ _ _ Ht _ Hs) as [[language dialect] Hlang].
  unfold placeholder, unresolved_fact. cbn [fst snd]. rewrite Hlang. split; try done.
  exists (language, dialect). split; [|done]. by apply (ok_languages _ _ _ _ _ Ht).
Qed.
Lemma reference_edge_links source kind target : source ∈ facts -> (kind, target) ∈ references (link_fact source) ->
  links source kind target (reference_edge (source, (kind, target))).
Proof.
  intros Hs Href. pose proof (ln_tables _ _ _ _ _ _ _ _ _ _ _ Hl) as Ht.
  assert ((source, (kind, target)) ∈ all_references facts) as Hr by by apply elem_of_all_references.
  pose proof (fun x => elem_of_link_candidates _ _ _ _ _ Ht source kind target x Hs) as Hc.
  pose proof (link_candidates_NoDup t source kind target) as Hnd.
  pose proof (fun f => upserted_fact_ids _ f Hr) as Hids. unfold LinkerProps.reference_edge, LinkerProps.reference_facts in *.
  cbn [fst snd] in *. pose proof (placeholder_stands_for source kind target Hs) as Hsf.
  destruct (link_candidates t source kind target) as [|x [|y l]].
  - apply links_unavailable; [|done|apply Hids; left]. intros y Hy%Hc. by apply not_elem_of_nil in Hy.
  - apply links_resolved. intros y. by rewrite <- Hc, list_elem_of_singleton.
  - apply NoDup_cons in Hnd as [Hnd _].
    eapply (links_ambiguous _ _ _ _ _ _ _ _ _ x y); [apply Hc; left|apply Hc; right; left| |done|apply Hids; left].
    intros ->. apply Hnd. left.
Qed.
Lemma reference_facts_stand source kind target f :
  source ∈ facts -> f ∈ reference_facts (source, (kind, target)) ->
  stands_for repository_id revision_sha units source kind target f /\
  ~ exists x, forall y, may_mean units facts source kind target y <-> y = x.
Proof.
  intros Hs. pose proof (ln_tables _ _ _ _ _ _ _ _ _ _ _ Hl) as Ht.
  pose proof (fun x => elem_of_link_candidates _ _ _ _ _ Ht source kind target x Hs) as Hc.
  pose proof (link_candidates_NoDup t source kind target) as Hnd.
  pose proof (placeholder_stands_for source kind target Hs) as Hsf.
  unfold LinkerProps.reference_facts. cbn [fst snd]. intros Hf.
  destruct (link_candidates t source kind target) as [|x [|y l]]; [|by apply not_elem_of_nil in Hf|].
  - apply list_elem_of_singleton in Hf as ->. split; [done|]. intros [x Hx].
    assert (x ∈ []) as ?%not_elem_of_nil; [|done]. by apply Hc, Hx.
  - apply list_elem_of_singleton in Hf as ->. split; [done|]. intros [z Hz].
    apply NoDup_cons in Hnd as [Hnd _]. apply Hnd. assert (x = z) as -> by (apply Hz, Hc; left).
    assert (y = z) as -> by (apply Hz, Hc; right; left). left.
Qed.
End References.

(** The example's run. *)
Lemma ex_link_unfold token : ex_link token =
  link_archaeology_facts token (fun _ => Some 100%N) "repo" ex_link_revision ex_link_units ex_link_facts
    [ex_placeholder_edge] default_link_limits 0.
Proof. reflexivity. Qed.
Lemma ex_link_run : exists p n',
  link_archaeology_facts never_cancelled (fun _ => Some 100%N) "repo" ex_link_revision ex_link_units ex_link_facts
    [ex_placeholder_edge] default_link_limits 0 = Ok (p, n').
Proof.
  rewrite <- ex_link_unfold.
  pose proof ex_linked as H. destruct (ex_link never_cancelled) as [[p n']|e|w]; [eauto|discriminate H..].
Qed.

(** C22: every reference is linked, and only references are: each reference of a
    fact gets an edge to the one fact it can mean, or, where it can mean none or
    several, to a placeholder of the patch with the reason; every edge of the
    patch that is not a contradiction is the edge of a reference, and every fact
    of the patch the placeholder of a reference without a single target. *)
Theorem link_references_exact token json_patch repository_id revision_sha units facts edges limits n p n' :
  link_archaeology_facts token json_patch repository_id revision_sha units facts edges limits n = Ok (p, n') ->
  (forall source kind target, source ∈ facts -> (kind, target) ∈ references (link_fact source) ->
    exists e, links repository_id revision_sha units facts p source kind target e /\
      fact_edge_id e ∈ map fact_edge_id (upsert_edges p)) /\
  (forall e, e ∈ upsert_edges p -> fact_edge_kind e <> EdgeContradicts ->
    exists source kind target, source ∈ facts /\ (kind, target) ∈ references (link_fact source) /\
      links repository_id revision_sha units facts p source kind target e) /\
  (forall f, f ∈ upsert_facts p -> exists source kind target, source ∈ facts /\
    (kind, target) ∈ references (link_fact source) /\
    stands_for repository_id revision_sha units source kind target f /\
    ~ exists x, forall y, may_mean units facts source kind target y <-> y = x).
Proof.
  intros (t & st & new & Hl)%link_archaeology_facts_linked. split_and!.
  - intros source kind target Hs Hr. eexists. split; [by apply (reference_edge_links Hl)|].
    apply (upserted_edge_ids Hl). rewrite map_app, elem_of_app. left.
    apply list_elem_of_fmap_2, list_elem_of_fmap_2. by apply elem_of_all_references.
  - intros e [([source [kind target]] & [Hs Hr]%elem_of_all_references & ->)|(pair & _ & ->)]%(upserted_edge Hl) Hk; [|done].
    exists source, kind, target. split_and!; [done..|]. by apply (reference_edge_links Hl).
  - intros f ([source [kind target]] & [Hs Hr]%elem_of_all_references & Hf)%(upserted_fact Hl).
    exists source, kind, target. split_and!; [done..| |]; by apply (reference_facts_stand Hl _ kind target f).
Qed.
Lemma link_references_exact_witness : exists p n' e,
  link_archaeology_facts never_cancelled (fun _ => Some 100%N) "repo" ex_link_revision ex_link_units ex_link_facts
    [ex_placeholder_edge] default_link_limits 0 = Ok (p, n') /\ fact_edge_id e ∈ map fact_edge_id (upsert_edges p) /\
  exists source, links "repo" ex_link_revision ex_link_units ex_link_facts p source EdgeCalls "'PAY'" e.
Proof.
  destruct ex_link_run as (p & n' & Hrun). exists p, n'. destruct (link_references_exact _ _ _ _ _ _ _ _ _ _ _ Hrun) as [H _].
  destruct (H (ex_link_fact "unit:a" "call" FactCall "CALL PAY" 0 [("target", "'PAY'")]%string) EdgeCalls "'PAY'"%string)
    as (e & He & Hin); [left|vm_compute; left|]. exists e.
  split; [exact Hrun|split; [exact Hin|eexists; exact He]].
Defined.

(** * Contradictions *)

Lemma elem_of_pairs_of {A} (l : list A) x y : (x, y) ∈ pairs_of l -> x ∈ l /\ y ∈ l.
Proof.
  induction l as [|z l IH]; cbn; [by intros ?%not_elem_of_nil|].
  rewrite !elem_of_cons.
  intros [(y' & [= -> ->] & Hy)%list_elem_of_fmap|[Hx Hy]%IH]%elem_of_app; auto.
Qed.
Lemma pairs_of_all {A} (l : list A) x y :
  x ∈ l -> y ∈ l -> x <> y -> (x, y) ∈ pairs_of l \/ (y, x) ∈ pairs_of l.
Proof.
  induction l as [|z l IH]; [by intros ?%not_elem_of_nil|]. cbn. rewrite !elem_of_app, !elem_of_cons.
  intros [->|Hx] [->|Hy] Hne; [done| | |].
  - left. left. by apply (list_elem_of_fmap_2 (pair z)).
  - right. left. by apply (list_elem_of_fmap_2 (pair z)).
  - destruct (IH Hx Hy Hne); auto.
Qed.

Lemma complementary_cases a b : complementary_operators a b = true ->
  a <> b /\ complementary_operators b a = true.
Proof.
  unfold complementary_operators. rewrite elemb_true.
  repeat (intros [[= -> ->]|H]%elem_of_cons; [by vm_compute|revert H]). by intros ?%not_elem_of_nil.
Qed.

Lemma ordered_pair_comm a b : ordered_pair a b = ordered_pair b a.
Proof.
  unfold ordered_pair. destruct (cmp a b) eqn:E.
  - apply cmp_eq_iff in E as ->. by rewrite cmp_refl.
  - by rewrite (proj2 (cmp_gt_iff b a) E).
  - by rewrite (proj1 (cmp_gt_iff a b) E).
Qed.
Lemma ordered_pair_inj a b c d : ordered_pair a b = ordered_pair c d -> a = c /\ b = d \/ a = d /\ b = c.
Proof. unfold ordered_pair. destruct (cmp a b), (cmp c d); intros [= -> ->]; auto. Qed.
Lemma references_kind fact kind target : (kind, target) ∈ references fact -> kind <> EdgeContradicts.
Proof.
  intros [(a & _ & Ha)%list_elem_of_omap|Ht]%elem_of_app.
  - unfold access_kind in Ha. repeat (case_match; [by inversion Ha|]). done.
  - destruct (target_reference fact) as [r|] eqn:E; [|by apply not_elem_of_nil in Ht].
    apply list_elem_of_singleton in Ht as <-. unfold target_reference in E.
    apply bind_Some in E as (name & _ & (k & Hk & [= -> ->])%bind_Some).
    destruct (fact_kind fact); inversion Hk as [Hk']; try done.
    unfold transaction_kind in Hk'. repeat (case_match; [by inversion Hk'|]). done.
Qed.
Lemma reference_edge_kind repository_id revision_sha t r :
  fst (snd r) <> EdgeContradicts -> fact_edge_kind (reference_edge repository_id revision_sha t r) <> EdgeContradicts.
Proof.
  unfold reference_edge, unresolved_edge_kind. intros Hk. repeat case_match; cbn; try done; by case_match.
Qed.

(** Two predicates that cannot hold together: the same subject of the same
    language and dialect compared with the same expression, by complementary
    operators. *)
Record opposed (units : list ArchaeologyLinkUnit) (first second : ArchaeologyLinkFact) : Prop := {
  op_kinds : fact_kind (link_fact first) = FactPredicate /\ fact_kind (link_fact second) = FactPredicate;
  op_places : exists language dialect1 dialect2,
    speaks units (link_fact_unit first) (language, dialect1) /\
    speaks units (link_fact_unit second) (language, dialect2) /\ default ""%string dialect1 = default ""%string dialect2;
  op_parts : exists operator1 operator2 rhs subject1 subject2,
    predicate_parts (link_fact first) = Some (operator1, rhs, subject1) /\
    predicate_parts (link_fact second) = Some (operator2, rhs, subject2) /\
    folded_key subject1 = folded_key subject2 /\ complementary_operators operator1 operator2 = true
}.

Section Pairs.
Context (revision_sha : string) (units : list ArchaeologyLinkUnit) (facts : list ArchaeologyLinkFact).
Context (edges : list ArchaeologyFactEdge) (t : link_tables) (Ht : tables_ok revision_sha units facts edges t).

Lemma predicate_filed_Some item key entry :
  predicate_filed t item = Some (key, entry) <-> fst entry = item /\ exists rhs subject language dialect,
    predicate_parts (link_fact item) = Some (snd entry, rhs, subject) /\
    map_get (link_fact_unit item) (unit_languages t) = Some (language, dialect) /\
    key = (language, (default ""%string dialect, (folded_key subject, rhs))).
Proof.
  unfold predicate_filed. destruct (predicate_parts _) as [[[operator rhs] subject]|]; cbn; [|naive_solver].
  destruct (map_get _ _) as [[language dialect]|]; cbn; [|naive_solver]. destruct entry. naive_solver.
Qed.
(** Each group is sorted whole, since every unit has a path. *)
Lemma sorted_group_perm group :
  (forall entry, entry ∈ group -> fst entry ∈ facts) ->
  exists l, sort_group t group = Ok l /\ l ≡ₚ group.
Proof.
  intros Hin. unfold sort_group. case_match; [by eexists|].
  assert (exists placed, collect (predicate_place t) group = Ok placed /\ map snd placed = group) as (placed & -> & Hsnd).
  { clear -Hin Ht. induction group as [|entry group IH]; [by exists []|].
    destruct IH as (placed & Hplaced & Hsnd); [intros; apply Hin; by right|].
    destruct (ok_paths _ _ _ _ _ Ht (link_fact_unit (fst entry))) as [path Hpath].
    { apply (ok_units _ _ _ _ _ Ht). apply Hin. left. }
    assert (exists place, predicate_place t entry = Ok (place, entry)) as [place Hplace].
    { unfold predicate_place. rewrite Hpath. cbn. by case_match; eexists. }
    exists ((place, entry) :: placed). cbn [collect map snd]. by rewrite Hplace, Hplaced, Hsnd. }
  eexists. split; [done|]. change (snd <$> sort_by_key (fst (B := predicate_entry)) placed ≡ₚ group).
  rewrite sort_by_key_Permutation. by rewrite <- Hsnd.
Qed.
Lemma filed_facts l key entry :
  entry ∈ entries_of (omap (predicate_filed t) (List.filter is_predicate l)) key ->
  predicate_filed t (fst entry) = Some (key, entry) /\ fst entry ∈ l /\ fact_kind (link_fact (fst entry)) = FactPredicate.
Proof.
  intros (item & [Hitem Hp]%elem_of_filter_bool & Hf)%elem_of_entries%list_elem_of_omap.
  pose proof Hf as [<- _]%predicate_filed_Some. by apply bool_decide_eq_true_1 in Hp.
Qed.
Lemma compared_pairs_opposed pair :
  pair ∈ compared_pairs t facts -> excluded pair = true ->
  fst (fst pair) ∈ facts /\ fst (snd pair) ∈ facts /\ opposed units (fst (fst pair)) (fst (snd pair)).
Proof.
  unfold compared_pairs. intros (group & Hpair & [key ->]%elem_of_push_groups)%elem_of_concat_map Hex.
  destruct pair as [x y]. apply elem_of_pairs_of in Hpair as [Hx Hy]. unfold sorted_group in Hx, Hy.
  destruct (sorted_group_perm (entries_of (omap (predicate_filed t) (List.filter is_predicate facts)) key))
    as (l & Hsort & Hperm); [by intros entry (_ & ? & _)%filed_facts|].
  rewrite Hsort, Hperm in Hx, Hy.
  apply filed_facts in Hx as (Hfx & Hx & Hkx), Hy as (Hfy & Hy & Hky). split_and!; [done..|].
  apply predicate_filed_Some in Hfx as (_ & rx & sx & lx & dx & Hpx & Hlx & Hkey).
  apply predicate_filed_Some in Hfy as (_ & ry & sy & ly & dy & Hpy & Hly & Hkey').
  rewrite Hkey in Hkey'. injection Hkey' as <- Hdialect Hsubject <-.
  split; [done| |].
  - exists lx, dx, dy. by rewrite <- !(ok_languages _ _ _ _ _ Ht).
  - by exists (snd x), (snd y), rx, sx, sy.
Qed.
Lemma opposed_compared first second :
  first ∈ facts -> second ∈ facts -> opposed units first second ->
  exists pair, pair ∈ compared_pairs t facts /\ excluded pair = true /\
    (fst (fst pair) = first /\ fst (snd pair) = second \/ fst (fst pair) = second /\ fst (snd pair) = first).
Proof.
  intros Hfirst Hsecond [[Hk1 Hk2] (l & d1 & d2 & Hl1 & Hl2 & Hd) (o1 & o2 & rhs & s1 & s2 & Hp1 & Hp2 & Hs & Hop)].
  set (key := (l, (default ""%string d1, (folded_key s1, rhs)))).
  set (entries := omap (predicate_filed t) (List.filter is_predicate facts)).
  assert (forall x o, x ∈ facts -> fact_kind (link_fact x) = FactPredicate ->
    predicate_filed t x = Some (key, (x, o)) -> (key, (x, o)) ∈ entries) as Hentry.
  { intros x o Hx Hk Hf. apply list_elem_of_omap. exists x. split; [|done]. apply elem_of_filter_bool.
    split; [done|]. by apply bool_decide_eq_true_2. }
  assert ((key, (first, o1)) ∈ entries) as H1.
  { apply Hentry; [done..|]. apply predicate_filed_Some. split; [done|]. exists rhs, s1, l, d1.
    by rewrite (ok_languages _ _ _ _ _ Ht). }
  assert ((key, (second, o2)) ∈ entries) as H2.
  { apply Hentry; [done..|]. apply predicate_filed_Some. split; [done|]. exists rhs, s2, l, d2.
    rewrite (ok_languages _ _ _ _ _ Ht). unfold key. by rewrite Hd, Hs. }
  destruct (sorted_group_perm (entries_of entries key)) as (g & Hsort & Hperm);
    [by intros entry (_ & ? & _)%filed_facts|].
  apply complementary_cases in Hop as Hop'. destruct Hop' as [Hne Hop'].
  assert (forall pair, pair ∈ pairs_of g -> pair ∈ compared_pairs t facts) as Hcompared.
  { intros pair Hpair. apply elem_of_concat_map. exists (entries_of entries key).
    split; [unfold sorted_group; by rewrite Hsort|by eapply push_groups_elem]. }
  destruct (pairs_of_all g (first, o1) (second, o2)) as [Hin|Hin];
    [by rewrite Hperm; apply elem_of_entries..|congruence| |].
  - exists ((first, o1), (second, o2)). split_and!; [by apply Hcompared|done|by left].
  - exists ((second, o2), (first, o1)). split_and!; [by apply Hcompared|done|by right].
Qed.
End Pairs.

(** The contradictions are exactly the opposed predicates: any two facts
    that are opposed end up joined by a contradiction, stored before or added,
    and one added joins two opposed facts no stored contradiction joins. *)
Theorem link_contradictions_exact token json_patch repository_id revision_sha units facts edges limits n p n' :
  link_archaeology_facts token json_patch repository_id revision_sha units facts edges limits n = Ok (p, n') ->
  let stored := fun first second => exists e, e ∈ edges /\ fact_edge_kind e = EdgeContradicts /\
    ordered_pair (from_fact_id e) (to_fact_id e) = ordered_pair (fact_id (link_fact first)) (fact_id (link_fact second)) in
  (forall first second, first ∈ facts -> second ∈ facts -> opposed units first second ->
    stored first second \/
    fact_edge_id (contradiction repository_id revision_sha first second) ∈ map fact_edge_id (upsert_edges p) \/
    fact_edge_id (contradiction repository_id revision_sha second first) ∈ map fact_edge_id (upsert_edges p)) /\
  (forall e, e ∈ upsert_edges p -> fact_edge_kind e = EdgeContradicts ->
    exists first second, first ∈ facts /\ second ∈ facts /\ opposed units first second /\
      e = contradiction repository_id revision_sha first second /\ ~ stored first second).
Proof.
  intros (t & st & new & Hl)%link_archaeology_facts_linked stored.
  pose proof (ln_tables _ _ _ _ _ _ _ _ _ _ _ Hl) as Ht.
  destruct (ln_pairs _ _ _ _ _ _ _ _ _ _ _ Hl) as (base & c & [_ _ Hnew Hknown _ Hall]).
  assert (forall first second, ordered_pair (fact_id (link_fact first)) (fact_id (link_fact second))
    ∈ stored_contradictions edges <-> stored first second) as Hstored.
  { intros first second. unfold stored_contradictions, stored. rewrite elem_of_set_of_list, list_elem_of_fmap.
    setoid_rewrite elem_of_filter_bool. setoid_rewrite bool_decide_eq_true. naive_solver. }
  split.
  - intros first second Hfirst Hsecond Hop.
    destruct (opposed_compared _ _ _ _ _ Ht _ _ Hfirst Hsecond Hop) as (pair & Hpair & Hex & Hends).
    assert (pair_key pair = ordered_pair (fact_id (link_fact first)) (fact_id (link_fact second))) as Hkey.
    { unfold pair_key. destruct Hends as [[-> ->]|[-> ->]]; [done|apply ordered_pair_comm]. }
    specialize (Hall _ Hpair Hex). rewrite Hkey, Hknown, Hstored in Hall.
    destruct Hall as [Hall|(q & Hq & Hin)%list_elem_of_fmap]; [by left|right].
    assert (fact_edge_id (pair_edge repository_id revision_sha q) ∈ map fact_edge_id (upsert_edges p)) as Hup.
    { apply (upserted_edge_ids Hl). rewrite map_app, elem_of_app. right.
      by apply list_elem_of_fmap_2, list_elem_of_fmap_2. }
    unfold contradiction, link_edge. cbn [fact_edge_id]. symmetry in Hq.
    apply ordered_pair_inj in Hq as [[<- <-]|[<- <-]]; [by left|by right].
  - intros e [(r & Hr & ->)|(pair & Hpair & ->)]%(upserted_edge Hl) Hk.
    + exfalso. destruct r as [source [kind target]]. apply elem_of_all_references in Hr as [_ Hr].
      revert Hk. by apply reference_edge_kind, (references_kind _ _ _ Hr).
    + destruct (Hnew pair Hpair) as (Hin & Hex & Hns).
      destruct (compared_pairs_opposed _ _ _ _ _ Ht _ Hin Hex) as (H1 & H2 & Hop).
      exists (fst (fst pair)), (fst (snd pair)). split_and!; [done..|]. by rewrite <- Hstored.
Qed.
Lemma ex_opposed : opposed ex_link_units (ex_compare "p1" ">" 20) (ex_compare "p2" "<=" 30).
Proof.
  split; [done| |].
  - exists "cobol"%string, None, None. split_and!; [exists (ex_link_unit "unit:a" "src/main.cbl"
      [{| lineage_kind := LineageCopybook; lineage_source_unit_id := "unit:a"; target_source_unit_id := None;
          lineage_evidence_span_id := "span:copy"; lineage_detail := "unresolved" |}])%string..|done];
      (split_and!; [left|done..]).
  - exists ">"%string, "<="%string, ex_digest_expr, "LIMIT-X"%string, "LIMIT-X"%string.
    split_and!; vm_compute; reflexivity.
Qed.
Lemma link_contradictions_exact_witness : exists p n',
  link_archaeology_facts never_cancelled (fun _ => Some 100%N) "repo" ex_link_revision ex_link_units ex_link_facts
    [ex_placeholder_edge] default_link_limits 0 = Ok (p, n') /\
  (fact_edge_id (contradiction "repo" ex_link_revision (ex_compare "p1" ">" 20) (ex_compare "p2" "<=" 30))
     ∈ map fact_edge_id (upsert_edges p) \/
   fact_edge_id (contradiction "repo" ex_link_revision (ex_compare "p2" "<=" 30) (ex_compare "p1" ">" 20))
     ∈ map fact_edge_id (upsert_edges p)).
Proof.
  destruct ex_link_run as (p & n' & Hrun). exists p, n'.
  destruct (link_contradictions_exact _ _ _ _ _ _ _ _ _ _ _ Hrun) as [H _]. split; [exact Hrun|].
  destruct (H (ex_compare "p1" ">" 20) (ex_compare "p2" "<=" 30)) as [(e & He & Hk & _)|Hadded];
    [do 4 right; left|do 5 right; left| | |exact Hadded].
  - exact ex_opposed.
  - exfalso. apply list_elem_of_singleton in He as ->. discriminate Hk.
Defined.

(** * The stored facts and edges *)

Section Stores.
Context {A : Type}.
Lemma delete_rows_wf ids (rows : BTreeMap string A) : map_wf rows -> map_wf (delete_rows ids rows).
Proof.
  unfold map_wf, map_keys, delete_rows. induction rows as [|[k v] rows IH]; cbn; [constructor|].
  intros [Hwf Hall]%StronglySorted_inv. case_match; [|by apply IH].
  cbn. constructor; [by apply IH|]. apply Forall_forall. intros k' (r & -> & Hr)%list_elem_of_fmap.
  apply elem_of_filter_bool in Hr as [Hr _]. eapply Forall_forall in Hall; [exact Hall|].
  by apply list_elem_of_fmap_2.
Qed.
Lemma delete_rows_get ids (rows : BTreeMap string A) key row :
  map_wf rows -> map_get key (delete_rows ids rows) = Some row <-> map_get key rows = Some row /\ key ∉ ids.
Proof.
  intros Hwf. rewrite !map_get_Some by auto using delete_rows_wf. unfold delete_rows.
  by rewrite elem_of_filter_bool, negb_true_iff, elemb_false.
Qed.
Lemma upsert_rows_get values (rows : BTreeMap string A) key :
  map_wf rows -> map_wf (upsert_rows values rows) /\
  (key ∈ map_keys (upsert_rows values rows) <-> key ∈ map fst values \/ key ∈ map_keys rows) /\
  forall row, map_get key (upsert_rows values rows) = Some row ->
    (key, row) ∈ values \/ map_get key rows = Some row.
Proof.
  unfold upsert_rows. revert rows. induction values as [|[k v] values IH]; intros rows Hwf; cbn [foldl map fst snd].
  - split_and!; [done| |by right]. split; [by right|intros [?%not_elem_of_nil|?]; done].
  - destruct (IH (map_insert k v rows)) as (Hwf' & Hkeys & Hget); [by apply map_insert_wf|]. split_and!; [done| |].
    + rewrite Hkeys, elem_of_map_keys_insert, elem_of_cons. naive_solver.
    + intros row [Hin|Hin]%Hget; [left; by right|]. rewrite map_get_insert in Hin by done.
      destruct (cmp key k) eqn:E; [|by right..]. apply cmp_eq_iff in E as ->. injection Hin as ->. left. left.
Qed.
End Stores.

(** Every stored edge joins stored facts. *)
Definition consistent (store : linked_store) : Prop :=
  forall id row, map_get id (stored_edges store) = Some row ->
    row_from row ∈ map_keys (stored_facts store) /\ row_to row ∈ map_keys (stored_facts store).

Section Consistent.
Context {json_patch : ArchaeologyLinkPatch -> option N} {repository_id revision_sha : string}.
Context {units : list ArchaeologyLinkUnit} {facts : list ArchaeologyLinkFact} {edges : list ArchaeologyFactEdge}.
Context {limits : ArchaeologyLinkLimits} {p : ArchaeologyLinkPatch} {t : link_tables} {st : link_state}.
Context {new : list (predicate_entry * predicate_entry)}.
Context (Hl : linked json_patch repository_id revision_sha units facts edges limits p t st new).
Context (Hids : NoDup (map fact_edge_id edges)).

Lemma removed_facts id : id ∈ remove_fact_ids p -> unresolved facts id /\
  forall e, e ∈ edges -> from_fact_id e = id \/ to_fact_id e = id -> fact_edge_id e ∈ remove_edge_ids p.
Proof.
  rewrite (ln_patch _ _ _ _ _ _ _ _ _ _ _ Hl). cbn [finish_patch remove_fact_ids remove_edge_ids].
  intros [Hin Hcount%bool_decide_eq_true_1]%elem_of_filter_bool.
  pose proof (ln_removals _ _ _ _ _ _ _ _ _ _ _ Hl Hids) as Hrem. split; [by apply (ok_placeholders _ _ _ Hrem)|].
  intros e He Htouch. eapply removed_fact_isolated; [apply (ln_tables _ _ _ _ _ _ _ _ _ _ _ Hl)|done..].
Qed.
Lemma removed_edge id : id ∈ remove_edge_ids p -> exists e, e ∈ edges /\ fact_edge_id e = id /\
  is_unresolved_edge e = true /\ unresolved facts (to_fact_id e).
Proof.
  rewrite (ln_patch _ _ _ _ _ _ _ _ _ _ _ Hl). cbn [finish_patch remove_edge_ids].
  apply (ok_removed _ _ _ (ln_removals _ _ _ _ _ _ _ _ _ _ _ Hl Hids)).
Qed.
Lemma unresolved_kind item : item ∈ facts -> unresolved facts (fact_id (link_fact item)) ->
  fact_kind (link_fact item) = FactUnresolved.
Proof.
  intros Hin (x & Hx & Hid & Hk). pose proof (ln_tables _ _ _ _ _ _ _ _ _ _ _ Hl) as Ht.
  by rewrite (key_identifies _ _ (ok_facts _ _ _ _ _ Ht) _ _ Hx Hin Hid) in Hk.
Qed.
Lemma kept_fact item : item ∈ facts -> fact_kind (link_fact item) <> FactUnresolved ->
  fact_id (link_fact item) ∉ remove_fact_ids p.
Proof. intros Hin Hk [Hun _]%removed_facts. by apply Hk, unresolved_kind. Qed.

Lemma stored_fact_keys id : id ∈ map_keys (stored_facts (link_patch_rows p (store_of facts edges))) <->
  id ∈ map fact_id (upsert_facts p) \/
  (exists item, item ∈ facts /\ fact_id (link_fact item) = id) /\ id ∉ remove_fact_ids p.
Proof.
  cbn [link_patch_rows stored_facts store_of].
  set (rows := map_of_list _). assert (map_wf rows) as Hwf by apply map_of_list_wf.
  assert (forall id, id ∈ map_keys (delete_rows (remove_fact_ids p) rows) <->
    (exists item, item ∈ facts /\ fact_id (link_fact item) = id) /\ id ∉ remove_fact_ids p) as Hdel.
  { intros k. rewrite <- map_get_is_Some. unfold is_Some.
    setoid_rewrite (fun row => delete_rows_get (remove_fact_ids p) rows k row Hwf).
    assert (k ∈ map_keys rows <-> exists item, item ∈ facts /\ fact_id (link_fact item) = k) as <-.
    { unfold rows. rewrite map_of_list_keys, map_map. cbn [fst]. rewrite list_elem_of_fmap. naive_solver. }
    rewrite <- map_get_is_Some. unfold is_Some. naive_solver. }
  destruct (upsert_rows_get (map (fun fact => (fact_id fact, row_of_fact fact)) (upsert_facts p))
    (delete_rows (remove_fact_ids p) rows) id) as (_ & -> & _); [by apply delete_rows_wf|].
  rewrite Hdel, map_map. done.
Qed.

Lemma stored_fact item : item ∈ facts -> fact_kind (link_fact item) <> FactUnresolved ->
  fact_id (link_fact item) ∈ map_keys (stored_facts (link_patch_rows p (store_of facts edges))).
Proof. intros Hin Hk. apply stored_fact_keys. right. split; [by exists item|by apply kept_fact]. Qed.
Lemma upserted_edge_ends e :
  (forall item, item ∈ facts -> fact_kind (link_fact item) = FactUnresolved -> references (link_fact item) = []) ->
  e ∈ upsert_edges p ->
  from_fact_id e ∈ map_keys (stored_facts (link_patch_rows p (store_of facts edges))) /\
  to_fact_id e ∈ map_keys (stored_facts (link_patch_rows p (store_of facts edges))).
Proof.
  intros Hunres [([source [kind target]] & [Hs Hr]%elem_of_all_references & ->)|(pair & Hpair & ->)]%(upserted_edge Hl).
  - cbn [fst snd] in Hs, Hr. pose proof (reference_edge_links Hl _ _ _ Hs Hr) as Hlinks.
    assert (fact_id (link_fact source) ∈ map_keys (stored_facts (link_patch_rows p (store_of facts edges)))) as Hfrom.
    { apply stored_fact; [done|]. intros Hk. rewrite (Hunres _ Hs Hk) in Hr. by apply not_elem_of_nil in Hr. }
    inversion Hlinks as [x Hx Heq|f _ _ Hf Heq|f y z _ _ _ _ Hf Heq]; cbn [from_fact_id to_fact_id link_edge].
    + split; [done|]. destruct (proj2 (Hx x) eq_refl) as [Hin _ Htk _ _]. apply stored_fact; [done|].
      intros Hk. rewrite Hk in Htk. by destruct kind.
    + split; [done|]. apply stored_fact_keys. by left.
    + split; [done|]. apply stored_fact_keys. by left.
  - destruct (ln_pairs _ _ _ _ _ _ _ _ _ _ _ Hl) as (base & c & Hpairs).
    destruct (ok_new _ _ _ _ _ _ _ Hpairs pair Hpair) as (Hin & Hex & _).
    destruct (compared_pairs_opposed _ _ _ _ _ (ln_tables _ _ _ _ _ _ _ _ _ _ _ Hl) _ Hin Hex) as (H1 & H2 & [[Hk1 Hk2] _ _]).
    split; (apply stored_fact; [done|congruence]).
Qed.
Lemma kept_edge_ends e : consistent (store_of facts edges) -> e ∈ edges -> fact_edge_id e ∉ remove_edge_ids p ->
  from_fact_id e ∈ map_keys (stored_facts (link_patch_rows p (store_of facts edges))) /\
  to_fact_id e ∈ map_keys (stored_facts (link_patch_rows p (store_of facts edges))).
Proof.
  intros Hcon He Hkept. destruct (Hcon (fact_edge_id e) (row_of_edge e)) as [Hfrom Hto].
  { cbn [store_of stored_edges]. apply map_of_list_get; [by rewrite map_map|].
    by apply (list_elem_of_fmap_2 (fun e => (fact_edge_id e, row_of_edge e))). }
  assert (forall id, id ∈ map_keys (stored_facts (store_of facts edges)) -> from_fact_id e = id \/ to_fact_id e = id ->
    id ∈ map_keys (stored_facts (link_patch_rows p (store_of facts edges)))) as Hends; [|split; apply Hends; auto].
  intros id Hid Htouch. apply stored_fact_keys. right. split.
  - cbn [store_of stored_facts] in Hid. rewrite map_of_list_keys, map_map in Hid.
    apply list_elem_of_fmap in Hid as (item & -> & Hin). by exists item.
  - intros [_ Hall]%removed_facts. by apply Hkept, Hall.
Qed.
End Consistent.

(** C21: applying the patch leaves no edge without its facts, under three conditions:
    the stored edges join stored facts, their identities are distinct, and no
    unresolved fact has references of its own ([Linker.ex_dangling] shows the need
    of the last).  Then every stored edge joins stored facts again once the patch is
    applied; what the patch removes are unresolved facts and unresolved edges that
    lead to them, and a removed fact's edges are all removed. *)
Theorem linked_store_consistent token json_patch repository_id revision_sha units facts edges limits n p n' :
  NoDup (map fact_edge_id edges) -> consistent (store_of facts edges) ->
  (forall item, item ∈ facts -> fact_kind (link_fact item) = FactUnresolved -> references (link_fact item) = []) ->
  link_archaeology_facts token json_patch repository_id revision_sha units facts edges limits n = Ok (p, n') ->
  consistent (link_patch_rows p (store_of facts edges)) /\
  (forall id, id ∈ remove_fact_ids p -> unresolved facts id /\
    forall e, e ∈ edges -> from_fact_id e = id \/ to_fact_id e = id -> fact_edge_id e ∈ remove_edge_ids p) /\
  (forall id, id ∈ remove_edge_ids p -> exists e, e ∈ edges /\ fact_edge_id e = id /\
    is_unresolved_edge e = true /\ unresolved facts (to_fact_id e)).
Proof.
  intros Hids Hcon Hunres (t & st & new & Hl)%link_archaeology_facts_linked.
  split_and!; [|by apply (removed_facts Hl)|by apply (removed_edge Hl)].
  intros id row Hrow. cbn [link_patch_rows stored_edges] in Hrow.
  apply (proj2 (proj2 (upsert_rows_get _ _ _ (delete_rows_wf _ _ (map_of_list_wf _))))) in Hrow as [Hrow|Hrow].
  - apply list_elem_of_fmap in Hrow as (e & [= -> ->] & He). by apply (upserted_edge_ends Hl Hids).
  - apply delete_rows_get in Hrow as [Hrow Hkept]; [|apply map_of_list_wf].
    apply map_of_list_elem, list_elem_of_fmap in Hrow as (e & [= -> ->] & He). by apply (kept_edge_ends Hl Hids).
Qed.
Lemma linked_store_consistent_witness : exists p n',
  link_archaeology_facts never_cancelled (fun _ => Some 100%N) "repo" ex_link_revision ex_link_units ex_link_facts
    [ex_placeholder_edge] default_link_limits 0 = Ok (p, n') /\
  consistent (link_patch_rows p (store_of ex_link_facts [ex_placeholder_edge])).
Proof.
  destruct ex_link_run as (p & n' & Hrun). exists p, n'. split; [exact Hrun|].
  refine (proj1 (linked_store_consistent _ _ _ _ _ _ _ _ _ _ _ _ _ _ Hrun)).
  - apply NoDup_singleton.
  - intros id row Hrow. apply map_of_list_elem, list_elem_of_singleton in Hrow. injection Hrow as -> ->.
    split; apply elemb_true; vm_compute; reflexivity.
  - clear Hrun. intros item Hitem Hk. unfold ex_link_facts in Hitem.
    repeat (apply elem_of_cons in Hitem as [->|Hitem]; [first [discriminate Hk|vm_compute; reflexivity]|]).
    by apply not_elem_of_nil in Hitem.
Defined.

(** * Termination, bounds and cancellation *)


Section Returns.
Context (token : StructuralGraphCancellation) (json_patch : ArchaeologyLinkPatch -> option N).
Context (repository_id revision_sha : string) (units : list ArchaeologyLinkUnit) (facts : list ArchaeologyLinkFact).
Context (edges : list ArchaeologyFactEdge) (limits : ArchaeologyLinkLimits).

Lemma index_includes_returns : returns (index_includes facts).
Proof.
  unfold index_includes. apply (for_each_returns (fun _ => True)); [done| |done]. intros x m _ _.
  apply (for_each_returns (fun _ => True)); [done| |done]. intros y m' _ _. unfold add_include. by case_match.
Qed.
Lemma build_link_tables_returns n : returns (build_link_tables token revision_sha units facts edges n).
Proof.
  unfold build_link_tables. returning.
  - apply returns_lift, for_all_returns. intros x _. unfold check_fact. by repeat case_match.
  - apply returns_lift, index_includes_returns.
  - apply for_each_polling_all. intros m x k _. unfold add_symbols. returning.
Qed.

Section Loops.
Context (t : link_tables) (Ht : tables_ok revision_sha units facts edges t).

Lemma link_lineages_returns st n : returns (link_lineages token t limits units st n).
Proof.
  unfold link_lineages. returning. apply for_each_polling_all. intros s [unit item] k _.
  cbn [link_lineage_item]. returning.
Qed.
Lemma link_references_returns st n : returns (link_references token repository_id revision_sha t limits facts st n).
Proof.
  unfold link_references. apply for_each_polling_all. intros s source k _.
  apply for_each_polling_all. intros s' [kind target] k' _. cbn [link_reference]. returning.
Qed.
Lemma add_predicate_returns m item n : item ∈ facts -> returns (add_predicate token t m item n).
Proof.
  intros Hitem. unfold add_predicate. returning. destruct (predicate_parts _) as [[[operator rhs] subject]|]; [|done].
  destruct (map_get _ _) as [[language dialect]|]; done.
Qed.
Lemma link_group_returns st group n :
  (forall entry, entry ∈ group -> fst entry ∈ facts) ->
  returns (link_group token repository_id revision_sha t limits st group n).
Proof.
  intros Hin. destruct (sorted_group_perm _ _ _ _ _ Ht group Hin) as (l & Hl & _).
  unfold link_group. returning; [apply returns_lift; by rewrite Hl|].
  apply for_each_polling_all. intros s [[x o] [y o']] k _. cbn [link_pair]. returning.
Qed.
Lemma link_contradictions_returns st n :
  returns (link_contradictions token repository_id revision_sha t limits facts edges st n).
Proof.
  unfold link_contradictions. apply returns_polling_bind.
  - apply for_each_polling_all. intros m item k [Hitem _]%elem_of_filter_bool. by apply add_predicate_returns.
  - intros groups n1 Hgroups. apply (for_each_polling_effect _ _ (add_predicate_effect _ _)) in Hgroups as ->.
    returning. apply for_each_polling_all. intros s group k Hgroup. rewrite pushes_omap in Hgroup.
    apply elem_of_push_groups in Hgroup as [key ->]. apply link_group_returns. by intros entry (_ & ? & _)%filed_facts.
Qed.
End Loops.

Lemma link_archaeology_facts_returns n :
  returns (link_archaeology_facts token json_patch repository_id revision_sha units facts edges limits n).
Proof.
  unfold link_archaeology_facts. apply returns_polling_bind; [apply returns_poll|intros _ n1 _].
  case_match; [done|]. case_match; [done|].
  apply returns_polling_bind; [apply build_link_tables_returns|intros t n2 Ht%build_link_tables_ok].
  cbn zeta. case_match; [done|].
  apply returns_polling_bind; [apply link_lineages_returns|intros st1 n3 _].
  apply returns_polling_bind; [apply link_references_returns|intros st2 n4 _].
  apply returns_polling_bind; [by apply link_contradictions_returns|intros st3 n5 _].
  apply returns_polling_bind; [apply returns_lift|intros _ n6 _; returning].
  unfold check_output. case_match; [done|]. apply returns_bind; [apply returns_ok_or|]. intros. by case_match.
Qed.
End Returns.

Lemma link_archaeology_facts_cancellable json_patch repository_id revision_sha units facts edges limits :
  cancellable "Archaeology linker cancelled" (fun token =>
    link_archaeology_facts token json_patch repository_id revision_sha units facts edges limits).
Proof.
  unfold link_archaeology_facts, cancelled. apply cancellable_bind; [apply cancellable_poll|intros _].
  case_match; [apply cancellable_const|]. case_match; [apply cancellable_const|].
  apply cancellable_bind; [|intros t].
  { unfold build_link_tables, add_symbols, cancelled. cancelling. }
  cbn zeta. case_match; [apply cancellable_const|]. apply cancellable_bind; [|intros st1].
  { unfold link_lineages, link_lineage_item, cancelled. cancelling. }
  apply cancellable_bind; [|intros st2].
  { unfold link_references, link_reference, cancelled. cancelling. }
  apply cancellable_bind; [|intros st3].
  { unfold link_contradictions, add_predicate, link_group, link_pair, cancelled. cancelling. }
  cancelling.
Qed.

(** C23: the linker returns, within its bounds, whatever its input: no table is
    indexed at an absent key, a returned patch keeps the three output bounds, and
    a raised flag changes nothing but turns the answer into the cancellation. *)
Theorem linker_returns_within_bounds json_patch repository_id revision_sha units facts edges limits :
  (forall token n, returns (link_archaeology_facts token json_patch repository_id revision_sha units facts edges limits n)) /\
  (forall token n p n',
    link_archaeology_facts token json_patch repository_id revision_sha units facts edges limits n = Ok (p, n') ->
    (len (upsert_edges p) <= max_output_edges limits)%N /\ (output_items p <= max_output_items limits)%N /\
    exists bytes, json_patch p = Some bytes /\ (bytes <= link_max_output_bytes limits)%N) /\
  cancellable "Archaeology linker cancelled" (fun token =>
    link_archaeology_facts token json_patch repository_id revision_sha units facts edges limits).
Proof.
  split_and!; [intros; apply link_archaeology_facts_returns| |apply link_archaeology_facts_cancellable].
  intros token n p n' (t & st & new & Hl)%link_archaeology_facts_linked.
  pose proof (ln_output _ _ _ _ _ _ _ _ _ _ _ Hl) as [Hb (bytes & Hbytes%ok_or_Ok & [Hlen _]%if_Err_Ok)%bind_Ok]%if_Err_Ok.
  apply orb_false_iff in Hb as [?%N.ltb_ge ?%N.ltb_ge]. apply N.ltb_ge in Hlen. eauto.
Qed.

(** * Includes *)

(** A unit the include at [span] of [unit] may mean: another one, of the
    language, named as the include fact there asks. *)
Record may_include (units : list ArchaeologyLinkUnit) (facts : list ArchaeologyLinkFact) (unit : ArchaeologyLinkUnit)
    (span : string) (u : ArchaeologyLinkUnit) : Prop := {
  mi_unit : u ∈ units;
  mi_other : link_unit_id u <> link_unit_id unit;
  mi_named : exists fact, include_of facts (link_unit_id unit, span) fact /\
    named_by u (lineage_key (link_language unit) (link_dialect unit) (default (fact_label fact) (attribute fact "target")))
}.
Definition answer (unit : ArchaeologyLinkUnit) (item : ArchaeologyAdapterLineage) (target : option string)
    (detail : string) : ArchaeologyAdapterLineage := {|
  lineage_kind := lineage_kind item; lineage_source_unit_id := link_unit_id unit; target_source_unit_id := target;
  lineage_evidence_span_id := lineage_evidence_span_id item; lineage_detail := detail |}.
Inductive answers (units : list ArchaeologyLinkUnit) (facts : list ArchaeologyLinkFact) (p : ArchaeologyLinkPatch)
    (unit : ArchaeologyLinkUnit) (item : ArchaeologyAdapterLineage) : ArchaeologyAdapterLineage -> Prop :=
| answers_resolved u detail :
    (forall v, may_include units facts unit (lineage_evidence_span_id item) v <-> v = u) ->
    (detail = "resolved include target with direct cycle"%string /\
      (exists b, b ∈ patch_lineage p /\ lineage_pair b = Some (link_unit_id u, link_unit_id unit)) \/
     detail = "resolved include target"%string /\
      ~ exists b, b ∈ patch_lineage p /\ lineage_pair b = Some (link_unit_id u, link_unit_id unit)) ->
    answers units facts p unit item (answer unit item (Some (link_unit_id u)) detail)
| answers_unavailable :
    (forall v, ~ may_include units facts unit (lineage_evidence_span_id item) v) ->
    answers units facts p unit item (answer unit item None "unresolved include target is unavailable")
| answers_ambiguous u v :
    may_include units facts unit (lineage_evidence_span_id item) u ->
    may_include units facts unit (lineage_evidence_span_id item) v -> u <> v ->
    answers units facts p unit item (answer unit item None "unresolved include target is ambiguous").

Section Lineage.
Context {json_patch : ArchaeologyLinkPatch -> option N} {repository_id revision_sha : string}.
Context {units : list ArchaeologyLinkUnit} {facts : list ArchaeologyLinkFact} {edges : list ArchaeologyFactEdge}.
Context {limits : ArchaeologyLinkLimits} {p : ArchaeologyLinkPatch} {t : link_tables} {st : link_state}.
Context {new : list (predicate_entry * predicate_entry)}.
Context (Hl : linked json_patch repository_id revision_sha units facts edges limits p t st new).

Definition matched (unit : ArchaeologyLinkUnit) (span : string) : list ArchaeologyLinkUnit :=
  lineage_matches t unit (map_get (link_unit_id unit, span) (includes t)).
Lemma elem_of_matched unit span u : u ∈ matched unit span <-> may_include units facts unit span u.
Proof.
  pose proof (ln_tables _ _ _ _ _ _ _ _ _ _ _ Hl) as Ht. unfold matched, lineage_matches.
  destruct (map_get (link_unit_id unit, span) (includes t)) as [fact|] eqn:E.
  - apply (ok_includes _ _ _ _ _ Ht) in E as Hfact.
    rewrite elem_of_filter_bool, (ok_targets _ _ _ _ _ Ht), negb_true_iff, seqb_false. split.
    + intros [[Hu Hnamed] Hne]. split; eauto.
    + intros [Hu Hne (f & Hf%(ok_includes _ _ _ _ _ Ht) & Hnamed)]. rewrite E in Hf. by injection Hf as <-.
  - split; [by intros ?%not_elem_of_nil|]. intros [_ _ (f & Hf%(ok_includes _ _ _ _ _ Ht) & _)]. congruence.
Qed.
Lemma matched_NoDup unit span : NoDup (matched unit span).
Proof.
  pose proof (ln_tables _ _ _ _ _ _ _ _ _ _ _ Hl) as Ht. unfold matched, lineage_matches.
  destruct (map_get _ (includes t)) as [fact|]; [|constructor]. apply filter_bool_NoDup.
  apply (NoDup_fmap_1 link_unit_id), (ok_targets_once _ _ _ _ _ Ht).
Qed.

Lemma mark_cycle_pair pairs item : lineage_pair (mark_cycle pairs item) = lineage_pair item.
Proof. unfold mark_cycle. destruct (lineage_pair item) as [[source target]|] eqn:E; [|done]. by case_match. Qed.
Lemma patch_lineage_pairs key : (exists b, b ∈ patch_lineage p /\ lineage_pair b = Some key) <->
  key ∈ set_of_list (omap lineage_pair (map (lineage_answer t) (lineage_items units))).
Proof.
  rewrite (ln_patch _ _ _ _ _ _ _ _ _ _ _ Hl). cbn [finish_patch patch_lineage].
  rewrite elem_of_set_of_list, list_elem_of_omap. setoid_rewrite elem_of_sort_by_key.
  rewrite (ln_lineage _ _ _ _ _ _ _ _ _ _ _ Hl). unfold marked. split.
  - intros (b & (a & -> & Ha)%list_elem_of_fmap & Hb). rewrite mark_cycle_pair in Hb. eauto.
  - intros (a & Ha & Hk). eexists. split; [by apply list_elem_of_fmap_2|]. by rewrite mark_cycle_pair.
Qed.
Lemma marked_answers unit item :
  answers units facts p unit item
    (mark_cycle (set_of_list (omap lineage_pair (map (lineage_answer t) (lineage_items units)))) (lineage_answer t (unit, item))).
Proof.
  pose proof (elem_of_matched unit (lineage_evidence_span_id item)) as Hm.
  pose proof (matched_NoDup unit (lineage_evidence_span_id item)) as Hnd. unfold matched in *.
  unfold lineage_answer. cbn [fst snd]. destruct (lineage_matches _ _ _) as [|u [|v l]].
  - apply answers_unavailable. intros v Hv%Hm. by apply not_elem_of_nil in Hv.
  - unfold mark_cycle. cbn [lineage_pair lineage_result target_source_unit_id mbind option_bind lineage_source_unit_id].
    assert (forall v, may_include units facts unit (lineage_evidence_span_id item) v <-> v = u) as Hu.
    { intros v. by rewrite <- Hm, list_elem_of_singleton. }
    destruct (set_contains _ _) eqn:E; apply (answers_resolved _ _ _ _ _ _ _ Hu).
    + left. split; [done|]. apply patch_lineage_pairs. by apply set_contains_true.
    + right. split; [done|]. rewrite patch_lineage_pairs. by apply set_contains_false.
  - apply NoDup_cons in Hnd as [Hnd _]. eapply (answers_ambiguous _ _ _ _ _ u v); [apply Hm; left|apply Hm; right; left|].
    intros ->. apply Hnd. left.
Qed.
End Lineage.

(** Every include is answered once: the patch has one lineage item per
    include of a unit, naming the one unit it can mean, or saying that it can
    mean none or several; an answer is marked as a direct cycle exactly where
    another answer leads back. *)
Theorem link_lineage_exact token json_patch repository_id revision_sha units facts edges limits n p n' :
  link_archaeology_facts token json_patch repository_id revision_sha units facts edges limits n = Ok (p, n') ->
  exists answered, patch_lineage p ≡ₚ answered /\ Forall2 (fun entry a => answers units facts p (fst entry) (snd entry) a)
    (concat (map (fun unit => map (pair unit) (List.filter is_included (link_lineage unit))) units)) answered.
Proof.
  intros (t & st & new & Hl)%link_archaeology_facts_linked. exists (patch_lineage (patch st)). split.
  - rewrite (ln_patch _ _ _ _ _ _ _ _ _ _ _ Hl) at 1. cbn [finish_patch patch_lineage]. apply sort_by_key_Permutation.
  - rewrite (ln_lineage _ _ _ _ _ _ _ _ _ _ _ Hl). unfold marked. rewrite map_map. apply Forall2_fmap_r, Forall_Forall2_diag.
    apply Forall_forall. intros [unit item] _. by apply (marked_answers Hl).
Qed.
Lemma link_lineage_exact_witness : exists p n' a,
  link_archaeology_facts never_cancelled (fun _ => Some 100%N) "repo" ex_link_revision ex_link_units ex_link_facts
    [ex_placeholder_edge] default_link_limits 0 = Ok (p, n') /\ patch_lineage p ≡ₚ [a].
Proof.
  destruct ex_link_run as (p & n' & Hrun).
  destruct (link_lineage_exact _ _ _ _ _ _ _ _ _ _ _ Hrun) as (answered & Hperm & Hall).
  cbv [concat map ex_link_units link_lineage ex_link_unit List.filter is_included lineage_kind] in Hall.
  apply Forall2_cons_inv_l in Hall as (a & rest & _ & Hrest & ->). apply Forall2_nil_inv_l in Hrest as ->.
  exists p, n', a. split; [exact Hrun|exact Hperm].
Defined.
