(* ===== verification/Packets.v ===== *)
(** The first half of
    [src/crates/codevetter-core/src/commands/business_rule_archaeology/deterministic_rules.rs]:
    evidence packets.  Each anchor fact (a predicate, a calculation, ..) gets the
    facts and relationships within two steps of it, with every span they cite,
    the kind of rule they suggest and the caveats that lower its confidence.
    JSON serialization is the parameter [json_packet]. *)
From S2P Require Import Prelude Ordering Entries RustText GraphTypes SecretPolicy Contracts Adapter.
Local Open Scope N_scope.

Record ArchaeologyDeterministicLimits : Type := {
  det_max_facts : N; det_max_edges : N; max_packets : N;
  max_facts_per_packet : N; max_edges_per_packet : N; max_examined_edges_per_packet : N;
  max_spans_per_packet : N; det_max_input_bytes : N; det_max_output_bytes : N;
  max_clauses_per_rule : N; max_clause_text_bytes : N; max_rule_output_bytes : N;
  max_cluster_members : N; max_cluster_relations : N; max_cluster_domains : N; max_cluster_output_bytes : N
}.
Definition default_deterministic_limits : ArchaeologyDeterministicLimits := {|
  det_max_facts := 100000; det_max_edges := 100000; max_packets := 100000;
  max_facts_per_packet := 64; max_edges_per_packet := 128; max_examined_edges_per_packet := 512;
  max_spans_per_packet := 256; det_max_input_bytes := 256 * 1024 * 1024; det_max_output_bytes := 64 * 1024 * 1024;
  max_clauses_per_rule := 256; max_clause_text_bytes := 1024; max_rule_output_bytes := 64 * 1024 * 1024;
  max_cluster_members := 1024; max_cluster_relations := 200000; max_cluster_domains := 100000;
  max_cluster_output_bytes := 64 * 1024 * 1024 |}.

(** ** Text *)

Definition has_separator (value : string) : bool := str_contains "/" value || str_contains "\" value.
Definition is_drive_path (value : string) : bool :=
  match bytes value with first :: colon :: _ => is_ascii_alphabetic first && (colon =? 58) | _ => false end.
Definition unsafe_text (value : string) : bool :=
  looks_like_secret value || contains_sensitive_path value
  || starts_with "/" value || starts_with "\" value || is_drive_path value
  || is_some_and (str_get_to 5 value) (fun prefix => eq_ignore_ascii_case prefix "file:").
Definition safe_id (value : string) : bool :=
  negb (is_empty value) && (blen value <=? 256) && negb (str_contains NUL value).
Definition safe_scope_id (value : string) : bool :=
  safe_id value && negb (unsafe_text value) && negb (has_separator value).

Definition char_str (c : N) : string := String (char_of c) EmptyString.
(** The operators, and those that make one token with the character after. *)
Definition is_operator (c : N) : bool := elemb c [60; 62; 61; 33; 43; 45; 42; 47; 37; 38; 124; 94; 126].
Definition joins (c next : N) : bool := elemb c [60; 62; 61; 33] && (next =? 61) || elemb c [38; 124] && (next =? c).
Fixpoint semantic_tokens (word : string) (l : list N) : list string :=
  match l with
  | [] => when (negb (is_empty word)) word
  | c :: rest =>
      if is_ascii_alphanumeric c then semantic_tokens (word ++ char_str (ascii_lower c)) rest else
      when (negb (is_empty word)) word ++
      (if is_operator c then
         match rest with
         | next :: rest' =>
             if joins c next then (char_str c ++ char_str next)%string :: semantic_tokens "" rest'
             else char_str c :: semantic_tokens "" rest
         | [] => [char_str c]
         end
       else semantic_tokens "" rest)
  end.
Definition normalized_semantic_text (value : string) : string := String.concat "_" (semantic_tokens "" (chars value)).
Definition identifier_tokens (value : string) : list string :=
  map to_ascii_lowercase (List.filter (fun token => negb (is_empty token))
    (split (fun c => negb (is_ascii_alphanumeric c)) value)).
Definition categorical_unresolved_reason (value : string) : string :=
  if str_contains "ambiguous" value then "ambiguous_reference"
  else if str_contains "unavailable" value || str_contains "not defined" value then "unavailable_reference"
  else "unresolved_reference".

(** ** Facts and edges *)

Definition has_key (keys : list string) (attribute : ArchaeologyAttribute) : bool := elemb (attribute_key attribute) keys.
Definition fact_fingerprint (fact : ArchaeologyFact) : string :=
  let attributes := sort (map (fun a => attribute_key a ++ "=" ++ normalized_semantic_text (attribute_value a))%string
    (List.filter (has_key ["symbol"; "target"; "operation"; "reads"; "writes"; "controls"; "semantic_expr"]%string)
       (fact_attributes fact))) in
  String.concat NUL [fact_kind_debug (fact_kind fact); normalized_semantic_text (fact_label fact);
    String.concat NUL attributes].
Definition valid_fact_semantic_expression (fact : ArchaeologyFact) : bool :=
  match List.filter (has_key ["semantic_expr"%string]) (fact_attributes fact) with
  | [] => bool_decide (fact_kind fact = FactUnresolved)
  | [attribute] => canonical_semantic_digest (attribute_value attribute)
  | _ => false
  end.
Definition deterministic_source_trust (trust : ArchaeologyTrust) : bool :=
  match trust with TrustExtracted | TrustDeterministic => true | _ => false end.
(** The edge cites exactly what its two facts cite. *)
Definition edge_evidence_matches_endpoints (edge : ArchaeologyFactEdge) (facts : BTreeMap string ArchaeologyFact) : bool :=
  match map_get (from_fact_id edge) facts, map_get (to_fact_id edge) facts with
  | Some from, Some to =>
      bool_decide (set_of_list (fact_edge_evidence_span_ids edge) = set_of_list (fact_span_ids from ++ fact_span_ids to))
  | _, _ => false
  end.
Definition is_anchor (fact : ArchaeologyFact) : bool :=
  match fact_kind fact with
  | FactPredicate | FactDecision | FactCalculation | FactMutation | FactTransaction | FactControlFlow => true
  | _ => false
  end.
Definition reverse_at_anchor (kind : ArchaeologyFactEdgeKind) : bool :=
  match kind with EdgeControls | EdgeCalculates | EdgeBranchesTo => true | _ => false end.
Definition is_contradiction (edge : ArchaeologyFactEdge) : bool := bool_decide (fact_edge_kind edge = EdgeContradicts).
Definition leads_out (edge : ArchaeologyFactEdge) : bool :=
  match fact_edge_kind edge with EdgeContradicts | EdgeAliases | EdgeSupports => false | _ => true end.

Definition classify (anchor : ArchaeologyFact) (selected : list ArchaeologyFact) : ArchaeologyRuleKind * bool :=
  let identifiers := set_of_list (concat (map identifier_tokens (concat (map (fun fact => fact_label fact
    :: map attribute_value (List.filter (has_key ["writes"; "target"; "symbol"]%string) (fact_attributes fact)))
    selected)))) in
  let tagged := any (fun name => set_contains name identifiers) in
  if bool_decide (fact_kind anchor = FactTransaction) then (RuleTransaction, false) else
  if bool_decide (fact_kind anchor = FactCalculation) then (RuleCalculation, false) else
  if tagged ["eligible"; "eligibility"]%string then (RuleEligibility, true) else
  if tagged ["entitle"; "entitled"; "entitlement"]%string then (RuleEntitlement, true) else
  if tagged ["state"; "status"; "stage"; "lifecycle"; "phase"]%string then (RuleLifecycle, true) else
  if bool_decide (fact_kind anchor = FactControlFlow)
     && tagged ["deny"; "error"; "exception"; "fail"; "failed"; "invalid"; "reject"]%string
  then (RuleException, true) else
  match fact_kind anchor with
  | FactDecision | FactControlFlow => (RuleRouting, false)
  | FactPredicate => (RuleValidation, false)
  | FactMutation => (RuleMutation, false)
  | _ => (RuleOther, false)
  end.

(** ** Identities *)

(** [format!("{:?}")] *)
Definition rule_kind_debug (kind : ArchaeologyRuleKind) : string :=
  match kind with
  | RuleValidation => "Validation" | RuleCalculation => "Calculation" | RuleEligibility => "Eligibility"
  | RuleEntitlement => "Entitlement" | RuleRouting => "Routing" | RuleMutation => "Mutation"
  | RuleException => "Exception" | RuleLifecycle => "Lifecycle" | RuleTransaction => "Transaction"
  | RuleOther => "Other"
  end.
Definition confidence_debug (confidence : ArchaeologyConfidence) : string :=
  match confidence with
  | ConfidenceHigh => "High" | ConfidenceMedium => "Medium" | ConfidenceLow => "Low"
  | ConfidenceUnavailable => "Unavailable"
  end.
Definition sorted_join (values : list string) : string := String.concat NUL (sort values).
Definition expected_packet_id (repository_id revision_sha : string) (packet : ArchaeologyEvidencePacket) : string :=
  let local_identity := String.concat NUL
    [rule_kind_debug (packet_kind packet); confidence_debug (packet_confidence packet); anchor_fact_id packet;
     sorted_join (packet_supporting_fact_ids packet); sorted_join (packet_contradicting_fact_ids packet);
     sorted_join (unresolved_fact_ids packet); sorted_join (unresolved_reasons packet);
     sorted_join (relationship_ids packet); sorted_join (packet_evidence_span_ids packet);
     sorted_join (packet_caveats packet)] in
  stable_graph_id "archaeology-packet" (String.concat NUL [repository_id; revision_sha; local_identity]).
Definition expected_rule_id (packet : ArchaeologyEvidencePacket) : string :=
  stable_graph_id "archaeology-rule" (packet_id packet ++ NUL ++ "template-v1").
Definition with_packet_id (packet : ArchaeologyEvidencePacket) (id : string) : ArchaeologyEvidencePacket := {|
  packet_id := id; packet_kind := packet_kind packet; anchor_fact_id := anchor_fact_id packet;
  packet_supporting_fact_ids := packet_supporting_fact_ids packet;
  packet_contradicting_fact_ids := packet_contradicting_fact_ids packet;
  relationship_ids := relationship_ids packet; packet_evidence_span_ids := packet_evidence_span_ids packet;
  unresolved_fact_ids := unresolved_fact_ids packet; unresolved_reasons := unresolved_reasons packet;
  packet_confidence := packet_confidence packet; packet_caveats := packet_caveats packet |}.

Definition extend_evidence (limit : N) (evidence : BTreeSet string) (span_ids : list string) : outcome (BTreeSet string) :=
  for_each (fun evidence span_id =>
      if negb (set_contains span_id evidence) && (len evidence =? limit)
      then Err "Archaeology packet evidence span bound exceeded"
      else Ok (set_insert span_id evidence))
    evidence span_ids.

(** ** The walk around an anchor *)

(** Edges by one of their ends, in the order of their ids. *)
Record adjacency : Type := {
  outgoing : BTreeMap string (list ArchaeologyFactEdge);
  outgoing_contradiction : BTreeMap string (list ArchaeologyFactEdge);
  reverse_control : BTreeMap string (list ArchaeologyFactEdge);
  reverse_contradiction : BTreeMap string (list ArchaeologyFactEdge)
}.
Definition index_edges (ordered_edges : list ArchaeologyFactEdge) : adjacency := {|
  outgoing := foldl (push_keyed (fun edge => if leads_out edge then Some (from_fact_id edge) else None)) [] ordered_edges;
  outgoing_contradiction :=
    foldl (push_keyed (fun edge => if is_contradiction edge then Some (from_fact_id edge) else None)) [] ordered_edges;
  reverse_control :=
    foldl (push_keyed (fun edge => if reverse_at_anchor (fact_edge_kind edge) then Some (to_fact_id edge) else None))
      [] ordered_edges;
  reverse_contradiction :=
    foldl (push_keyed (fun edge => if is_contradiction edge then Some (to_fact_id edge) else None)) [] ordered_edges |}.

(** The variables of the loops.  [truncated] is set where the code leaves them
    all, so nothing is done once it is. *)
Record packet_walk : Type := {
  selected_facts : BTreeSet string;
  selected_depth : BTreeMap string N;
  contradiction_ids : BTreeSet string;
  contradiction_terminal_ids : BTreeSet string;
  selected_edges : BTreeSet string;
  next_facts : BTreeSet string;
  examined_edges : N;
  truncated : bool
}.
Definition start_walk (anchor : string) : packet_walk := {|
  selected_facts := [anchor]; selected_depth := [(anchor, 0)]; contradiction_ids := [];
  contradiction_terminal_ids := []; selected_edges := []; next_facts := []; examined_edges := 0; truncated := false |}.
Definition cut (st : packet_walk) : packet_walk := {|
  selected_facts := selected_facts st; selected_depth := selected_depth st; contradiction_ids := contradiction_ids st;
  contradiction_terminal_ids := contradiction_terminal_ids st; selected_edges := selected_edges st;
  next_facts := next_facts st; examined_edges := examined_edges st; truncated := true |}.
Definition examine (st : packet_walk) : packet_walk := {|
  selected_facts := selected_facts st; selected_depth := selected_depth st; contradiction_ids := contradiction_ids st;
  contradiction_terminal_ids := contradiction_terminal_ids st; selected_edges := selected_edges st;
  next_facts := next_facts st; examined_edges := examined_edges st + 1; truncated := truncated st |}.
Definition new_depth (st : packet_walk) : packet_walk := {|
  selected_facts := selected_facts st; selected_depth := selected_depth st; contradiction_ids := contradiction_ids st;
  contradiction_terminal_ids := contradiction_terminal_ids st; selected_edges := selected_edges st;
  next_facts := []; examined_edges := examined_edges st; truncated := truncated st |}.
(** A contradiction is selected: its ends but the anchor are terminal, and the
    one that contradicts leaves the selection. *)
Definition select_contradiction (anchor contradicting : string) (edge : ArchaeologyFactEdge) (st : packet_walk)
    : packet_walk := {|
  selected_facts := if seqb contradicting anchor then selected_facts st
                    else List.filter (fun id => negb (seqb id contradicting)) (selected_facts st);
  selected_depth := selected_depth st;
  contradiction_ids := if seqb contradicting anchor then contradiction_ids st
                       else set_insert contradicting (contradiction_ids st);
  contradiction_terminal_ids := foldl (fun ids endpoint => if seqb endpoint anchor then ids else set_insert endpoint ids)
    (contradiction_terminal_ids st) [from_fact_id edge; to_fact_id edge];
  selected_edges := set_insert (fact_edge_id edge) (selected_edges st);
  next_facts := next_facts st; examined_edges := examined_edges st; truncated := truncated st |}.
(** A relationship is selected, with the fact it leads to unless that is known. *)
Definition select_relation (depth : N) (other : string) (edge : ArchaeologyFactEdge) (st : packet_walk) : packet_walk :=
  let is_new := negb (set_contains other (contradiction_ids st)) && negb (set_contains other (selected_facts st)) in {|
  selected_facts := if is_new then set_insert other (selected_facts st) else selected_facts st;
  selected_depth := if is_new then map_insert other (depth + 1) (selected_depth st) else selected_depth st;
  contradiction_ids := contradiction_ids st; contradiction_terminal_ids := contradiction_terminal_ids st;
  selected_edges := set_insert (fact_edge_id edge) (selected_edges st);
  next_facts := if is_new then set_insert other (next_facts st) else next_facts st;
  examined_edges := examined_edges st; truncated := truncated st |}.

Section Walk.
Context (limits : ArchaeologyDeterministicLimits) (facts : BTreeMap string ArchaeologyFact) (edges : adjacency).
Context (anchor : string).

Definition depth_of (st : packet_walk) (id : string) : N := default usize_max (map_get id (selected_depth st)).
(** The end of a contradiction that contradicts what was selected. *)
Definition contradicting_end (selected_at_depth : BTreeSet string) (st : packet_walk) (edge : ArchaeologyFactEdge)
    : outcome string :=
  if set_contains (from_fact_id edge) selected_at_depth then
    if set_contains (to_fact_id edge) selected_at_depth then
      let from_depth := depth_of st (from_fact_id edge) in
      let to_depth := depth_of st (to_fact_id edge) in
      if negb (from_depth =? to_depth)
      then Ok (if to_depth <? from_depth then from_fact_id edge else to_fact_id edge) else
      from ← index_or_panic (map_get (from_fact_id edge) facts);
      to ← index_or_panic (map_get (to_fact_id edge) facts);
      Ok (match cmp (fact_fingerprint from) (fact_fingerprint to) with
          | Gt => from_fact_id edge | _ => to_fact_id edge end)
    else Ok (to_fact_id edge)
  else Ok (from_fact_id edge).
Definition contradiction_step (selected_at_depth : BTreeSet string) (st : packet_walk) (edge : ArchaeologyFactEdge)
    : outcome packet_walk :=
  if truncated st then Ok st else
  if examined_edges st =? max_examined_edges_per_packet limits then Ok (cut st) else
  let st := examine st in
  if set_contains (fact_edge_id edge) (selected_edges st) then Ok st else
  if len (selected_edges st) =? max_edges_per_packet limits then Ok (cut st) else
  contradicting ← contradicting_end selected_at_depth st edge;
  Ok (select_contradiction anchor contradicting edge st).
Definition edges_of (edges : BTreeMap string (list ArchaeologyFactEdge)) (id : string) : list ArchaeologyFactEdge :=
  default [] (map_get id edges).
Definition contradictions_at (selected_at_depth : BTreeSet string) (st : packet_walk) (current : string)
    : outcome packet_walk :=
  if set_contains current (contradiction_ids st) then Ok st else
  for_each (contradiction_step selected_at_depth) st
    (edges_of (outgoing_contradiction edges) current ++ edges_of (reverse_contradiction edges) current).

Definition relation_step (depth : N) (reverse : bool) (st : packet_walk) (edge : ArchaeologyFactEdge) : packet_walk :=
  if truncated st then st else
  if examined_edges st =? max_examined_edges_per_packet limits then cut st else
  let st := examine st in
  if set_contains (fact_edge_id edge) (selected_edges st) then st else
  let other := if reverse then from_fact_id edge else to_fact_id edge in
  if (len (selected_edges st) =? max_edges_per_packet limits)
     || negb (set_contains other (selected_facts st)) && (len (selected_facts st) =? max_facts_per_packet limits)
  then cut st else
  select_relation depth other edge st.
Definition relations_at (depth : N) (st : packet_walk) (current : string) : packet_walk :=
  if set_contains current (contradiction_terminal_ids st) then st else
  let st := foldl (relation_step depth false) st (edges_of (outgoing edges) current) in
  if depth =? 0 then foldl (relation_step depth true) st (edges_of (reverse_control edges) current) else st.

Definition walk_depth (depth : N) (frontier : list string) (st : packet_walk) : outcome packet_walk :=
  let st := new_depth st in
  st ← for_each (contradictions_at (selected_facts st)) st frontier;
  Ok (foldl (relations_at depth) st frontier).
Definition walk : outcome packet_walk :=
  st ← walk_depth 0 [anchor] (start_walk anchor);
  walk_depth 1 (next_facts st) st.
End Walk.

(** ** The packet of an anchor *)

Definition is_unresolved (fact : ArchaeologyFact) : bool := bool_decide (fact_kind fact = FactUnresolved).
Definition touches_fact (id : string) (edge : ArchaeologyFactEdge) : bool :=
  seqb (from_fact_id edge) id || seqb (to_fact_id edge) id.
(** What classification may read: the anchor and the facts no contradiction
    touches. *)
Definition is_uncontradicted (anchor : string) (selected_edges : list ArchaeologyFactEdge) (fact : ArchaeologyFact) : bool :=
  seqb (fact_id fact) anchor
  || negb (any (fun edge => is_contradiction edge && touches_fact (fact_id fact) edge) selected_edges).
Definition packet_caveats_of (identifier_derived has_unresolved has_contradicting truncated : bool) : list string :=
  when identifier_derived "kind is identifier-derived and requires review"%string
  ++ when has_unresolved "packet has unresolved relationships"%string
  ++ when has_contradicting "packet has contradicting evidence"%string
  ++ when truncated "packet relationship bound was truncated"%string.
Definition packet_confidence_of (identifier_derived has_unresolved has_contradicting truncated : bool)
    : ArchaeologyConfidence :=
  if truncated || has_unresolved || has_contradicting then ConfidenceLow
  else if identifier_derived then ConfidenceMedium else ConfidenceHigh.

Definition packet_for_anchor (repository_id revision_sha : string) (anchor : ArchaeologyFact)
    (facts : BTreeMap string ArchaeologyFact) (edges_by_id : BTreeMap string ArchaeologyFactEdge) (edges : adjacency)
    (limits : ArchaeologyDeterministicLimits) : outcome ArchaeologyEvidencePacket :=
  st ← walk limits facts edges (fact_id anchor);
  let lookup := omap (fun id => map_get id facts) in
  let walked_edges := omap (fun id => map_get id edges_by_id) (selected_edges st) in
  let unresolved_ids := List.filter (fun id => is_some_and (map_get id facts) is_unresolved) (selected_facts st) in
  let reasons := set_of_list (map categorical_unresolved_reason (omap unresolved_reason walked_edges)) in
  let reasons := if negb (is_nil unresolved_ids) && is_nil reasons then ["unresolved_reference"%string] else reasons in
  let supporting := List.filter (fun id => negb (set_contains id (contradiction_ids st))
    && negb (elemb id unresolved_ids)) (selected_facts st) in
  let selected := List.filter (is_uncontradicted (fact_id anchor) walked_edges) (lookup supporting) in
  evidence ← for_each (extend_evidence (max_spans_per_packet limits)) []
    (map fact_span_ids (lookup (selected_facts st) ++ lookup (contradiction_ids st))
     ++ map fact_edge_evidence_span_ids walked_edges);
  let '(kind, identifier_derived) := classify anchor selected in
  let has_unresolved := negb (is_nil unresolved_ids) in
  let has_contradicting := negb (is_nil (contradiction_ids st)) in
  let packet := {|
    packet_id := ""; packet_kind := kind; anchor_fact_id := fact_id anchor;
    packet_supporting_fact_ids := supporting; packet_contradicting_fact_ids := contradiction_ids st;
    relationship_ids := selected_edges st; packet_evidence_span_ids := evidence;
    unresolved_fact_ids := unresolved_ids; unresolved_reasons := reasons;
    packet_confidence := packet_confidence_of identifier_derived has_unresolved has_contradicting (truncated st);
    packet_caveats := packet_caveats_of identifier_derived has_unresolved has_contradicting (truncated st) |} in
  Ok (with_packet_id packet (expected_packet_id repository_id revision_sha packet)).

(** ** All packets *)

Definition CANCELLED : string := "Archaeology packet derivation cancelled".
Definition fact_bytes (fact : ArchaeologyFact) : list N :=
  map blen ([fact_id fact; fact_label fact; fact_parser_id fact] ++ fact_span_ids fact
    ++ concat (map (fun a => [attribute_key a; attribute_value a]) (fact_attributes fact))) ++ [32].
Definition edge_bytes (edge : ArchaeologyFactEdge) : list N :=
  map blen ([fact_edge_id edge; from_fact_id edge; to_fact_id edge] ++ fact_edge_evidence_span_ids edge
    ++ match unresolved_reason edge with Some reason => [reason] | None => [] end) ++ [32].

Section Derive.
Context (token : StructuralGraphCancellation) (json_packet : ArchaeologyEvidencePacket -> option N).

(** A loop that adds up lengths. *)
Definition sum_bytes {A} (sizes : A -> list N) (total : N) (entry : nat * A) : polling N :=
  _ ← poll_every token CANCELLED 1024 (fst entry);
  mret (foldl saturating_add total (sizes (snd entry))).
Definition packet_input_bytes (facts : list ArchaeologyFact) (edges : list ArchaeologyFactEdge) : polling N :=
  total ← for_each_polling (sum_bytes fact_bytes) 0 (enumerate_nat 0 facts);
  for_each_polling (sum_bytes edge_bytes) total (enumerate_nat 0 edges).

Definition is_cited_fact (fact : ArchaeologyFact) : bool :=
  safe_id (fact_id fact) && safe_id (fact_parser_id fact) && deterministic_source_trust (fact_trust fact)
  && negb (is_nil (fact_span_ids fact)) && forallb safe_id (fact_span_ids fact).
Definition is_cited_edge (edge : ArchaeologyFactEdge) : bool :=
  safe_id (fact_edge_id edge) && deterministic_source_trust (fact_edge_trust edge)
  && negb (is_nil (fact_edge_evidence_span_ids edge)) && forallb safe_id (fact_edge_evidence_span_ids edge).
Definition index_fact (by_id : BTreeMap string ArchaeologyFact) (entry : nat * ArchaeologyFact)
    : polling (BTreeMap string ArchaeologyFact) :=
  let '(index, fact) := entry in
  _ ← poll_every token CANCELLED 1024 index;
  if negb (is_cited_fact fact && valid_fact_semantic_expression fact) || map_contains_key (fact_id fact) by_id
  then lift (Err "Archaeology packets require unique cited facts") else
  mret (map_insert (fact_id fact) fact by_id).
Definition is_dangling (by_id : BTreeMap string ArchaeologyFact) (edge : ArchaeologyFactEdge) : bool :=
  negb (map_contains_key (from_fact_id edge) by_id) || negb (map_contains_key (to_fact_id edge) by_id)
  || is_contradiction edge && seqb (from_fact_id edge) (to_fact_id edge).
Definition index_edge (by_id : BTreeMap string ArchaeologyFact) (edges_by_id : BTreeMap string ArchaeologyFactEdge)
    (entry : nat * ArchaeologyFactEdge) : polling (BTreeMap string ArchaeologyFactEdge) :=
  let '(index, edge) := entry in
  _ ← poll_every token CANCELLED 1024 index;
  if negb (is_cited_edge edge) || is_dangling by_id edge || negb (edge_evidence_matches_endpoints edge by_id)
     || map_contains_key (fact_edge_id edge) edges_by_id
  then lift (Err "Archaeology packets require unique cited relationships") else
  mret (map_insert (fact_edge_id edge) edge edges_by_id).

Definition derive_packet (repository_id revision_sha : string) (by_id : BTreeMap string ArchaeologyFact)
    (edges_by_id : BTreeMap string ArchaeologyFactEdge) (edges : adjacency) (limits : ArchaeologyDeterministicLimits)
    (st : list ArchaeologyEvidencePacket * N) (anchor : ArchaeologyFact)
    : polling (list ArchaeologyEvidencePacket * N) :=
  _ ← poll token CANCELLED;
  packet ← lift (packet_for_anchor repository_id revision_sha anchor by_id edges_by_id edges limits);
  length ← lift (ok_or (json_packet packet) "Archaeology packet is not serializable");
  let output_bytes := saturating_add (saturating_add (snd st) length) 1 in
  if det_max_output_bytes limits <? output_bytes
  then lift (Err "Archaeology packet output byte bound exceeded") else
  mret (fst st ++ [packet], output_bytes).

Definition derive_evidence_packets (repository_id revision_sha : string) (facts : list ArchaeologyFact)
    (edges : list ArchaeologyFactEdge) (limits : ArchaeologyDeterministicLimits)
    : polling (list ArchaeologyEvidencePacket) :=
  _ ← poll token CANCELLED;
  if negb (safe_scope_id repository_id) || negb (bool_decide (validate_revision_sha revision_sha = Ok tt))
     || (max_facts_per_packet limits =? 0) || (max_examined_edges_per_packet limits =? 0)
  then lift (Err "Archaeology packet scope is invalid") else
  if (det_max_facts limits <? len facts) || (det_max_edges limits <? len edges)
  then lift (Err "Archaeology packet input bound exceeded") else
  input ← packet_input_bytes facts edges;
  if det_max_input_bytes limits <? input then lift (Err "Archaeology packet input byte bound exceeded") else
  by_id ← for_each_polling index_fact [] (enumerate_nat 0 facts);
  let ordered_edges := sort_by_key fact_edge_id edges in
  edges_by_id ← for_each_polling (index_edge by_id) [] (enumerate_nat 0 ordered_edges);
  let anchors := List.filter is_anchor facts in
  if max_packets limits <? len anchors then lift (Err "Archaeology packet count bound exceeded") else
  st ← for_each_polling (derive_packet repository_id revision_sha by_id edges_by_id (index_edges ordered_edges) limits)
    ([], 2) anchors;
  _ ← poll token CANCELLED;
  mret (sort_by_key packet_id (fst st)).
End Derive.
