(* ===== verification/TemplateRules.v ===== *)
(** The second half of
    [src/crates/codevetter-core/src/commands/business_rule_archaeology/deterministic_rules.rs]
    up to the clustering: the check of an evidence packet and the rule rendered
    from it by templates, one clause per claim.  JSON serialization is the
    parameter [json_rule]. *)
From S2P Require Import Prelude Ordering Entries RustText GraphTypes SecretPolicy Contracts Adapter Packets.
Local Open Scope N_scope.

(** ** Wording *)

Definition fact_kind_name (kind : ArchaeologyFactKind) : string :=
  match kind with
  | FactDeclaration => "declaration" | FactDataField => "data field" | FactConstant => "constant"
  | FactPredicate => "predicate" | FactDecision => "decision" | FactCalculation => "calculation"
  | FactMutation => "mutation" | FactCall => "call" | FactInputOutput => "I/O operation"
  | FactTransaction => "transaction" | FactControlFlow => "control-flow operation"
  | FactEntryPoint => "entry point" | FactInclude => "include" | FactUnresolved => "unresolved reference"
  end.
Definition rule_kind_name (kind : ArchaeologyRuleKind) : string :=
  match kind with
  | RuleValidation => "validation" | RuleCalculation => "calculation" | RuleEligibility => "eligibility"
  | RuleEntitlement => "entitlement" | RuleRouting => "routing" | RuleMutation => "mutation"
  | RuleException => "exception" | RuleLifecycle => "lifecycle" | RuleTransaction => "transaction"
  | RuleOther => "other"
  end.
Definition relationship_verb (kind : ArchaeologyFactEdgeKind) : string :=
  match kind with
  | EdgeDefines => "defines" | EdgeReads => "reads" | EdgeWrites => "writes" | EdgeCalls => "calls"
  | EdgeIncludes => "includes" | EdgeControls => "controls" | EdgeBranchesTo => "branches to"
  | EdgeCalculates => "calculates" | EdgeBeginsTransaction => "begins" | EdgeCommitsTransaction => "commits"
  | EdgeRollsBackTransaction => "rolls back" | EdgeSupports => "supports" | EdgeContradicts => "contradicts"
  | EdgeAliases => "aliases" | EdgeUnresolved => "has an unresolved link to"
  end.
Definition relationship_name (kind : ArchaeologyFactEdgeKind) : string :=
  match kind with
  | EdgeBeginsTransaction | EdgeCommitsTransaction | EdgeRollsBackTransaction => "transaction"
  | EdgeCalls => "call" | EdgeReads | EdgeWrites => "data" | EdgeControls | EdgeBranchesTo => "control-flow"
  | EdgeIncludes => "include" | _ => "source"
  end.

(** [while end > 0 && !value.is_char_boundary(end) { end -= 1; }] *)
Fixpoint boundary_below (s : string) (n : nat) : nat :=
  match n with O => O | S m => if is_char_boundary n s then n else boundary_below s m end.
Definition truncate_utf8 (value : string) (limit : nat) : string :=
  if (String.length value <=? limit)%nat then value else
  str_take (boundary_below value (Nat.min (limit - 3) (String.length value))) value ++ "...".
Definition double_quote : string := char_str 34.
Definition display_fact (fact : ArchaeologyFact) : string :=
  let kind := fact_kind_name (fact_kind fact) in
  if unsafe_text (fact_label fact) || has_separator (fact_label fact) then "the cited " ++ kind else
  let normalized := String.concat " " (split_whitespace (fact_label fact)) in
  if is_empty normalized then "the cited " ++ kind else
  "the cited " ++ kind ++ " " ++ double_quote ++ truncate_utf8 normalized 160 ++ double_quote.
Definition bounded_text (value : string) (limit : N) : outcome string :=
  if trim_is_empty value || (limit <? blen value) || unsafe_text value
  then Err "Archaeology template text violates privacy or byte bounds" else Ok value.

(** ** Clauses *)

Definition clause_id_of (rule_id : string) (parts : list string) : string :=
  stable_graph_id "archaeology-clause" (String.concat NUL (rule_id :: parts)).
Definition anchor_clause (rule_id : string) (packet : ArchaeologyEvidencePacket) (anchor : ArchaeologyFact)
    (limits : ArchaeologyDeterministicLimits) : outcome ArchaeologyRuleClause :=
  text ← bounded_text ("This " ++ rule_kind_name (packet_kind packet) ++ " candidate is anchored by "
                       ++ display_fact anchor ++ ".") (max_clause_text_bytes limits);
  Ok {| clause_id := clause_id_of rule_id ["anchor"%string]; clause_text := text; clause_trust := TrustDeterministic;
        clause_confidence := packet_confidence packet; supporting_fact_ids := [fact_id anchor];
        contradicting_fact_ids := []; evidence_span_ids := set_of_list (fact_span_ids anchor);
        caveats := sort (packet_caveats packet) |}.
(** The supported and the contradicting end, when the packet has both. *)
Definition contradiction_ends (packet : ArchaeologyEvidencePacket) (edge : ArchaeologyFactEdge) : option (string * string) :=
  if elemb (from_fact_id edge) (packet_supporting_fact_ids packet)
     && elemb (to_fact_id edge) (packet_contradicting_fact_ids packet)
  then Some (from_fact_id edge, to_fact_id edge) else
  if elemb (to_fact_id edge) (packet_supporting_fact_ids packet)
     && elemb (from_fact_id edge) (packet_contradicting_fact_ids packet)
  then Some (to_fact_id edge, from_fact_id edge) else
  None.
Definition contradiction_clause (rule_id : string) (packet : ArchaeologyEvidencePacket) (edge : ArchaeologyFactEdge)
    (facts : BTreeMap string ArchaeologyFact) (limits : ArchaeologyDeterministicLimits)
    : outcome (option ArchaeologyRuleClause) :=
  match contradiction_ends packet edge with
  | None => Ok None
  | Some (supporting, contradicting) =>
      supporting_fact ← index_or_panic (map_get supporting facts);
      contradicting_fact ← index_or_panic (map_get contradicting facts);
      let evidence := set_of_list (fact_span_ids supporting_fact ++ fact_span_ids contradicting_fact) in
      if max_spans_per_packet limits <? len evidence
      then Err "Archaeology contradiction clause evidence bound exceeded" else
      text ← bounded_text (display_fact supporting_fact ++ " contradicts " ++ display_fact contradicting_fact ++ ".")
               (max_clause_text_bytes limits);
      Ok (Some {| clause_id := clause_id_of rule_id ["contradiction"%string; fact_edge_id edge]; clause_text := text;
        clause_trust := TrustDeterministic; clause_confidence := ConfidenceLow;
        supporting_fact_ids := [supporting]; contradicting_fact_ids := [contradicting];
        evidence_span_ids := evidence; caveats := ["packet has contradicting evidence"%string] |})
  end.
Definition relationship_text (edge : ArchaeologyFactEdge) (from to : ArchaeologyFact) (unresolved : bool) : string :=
  if unresolved
  then display_fact from ++ " has an unresolved " ++ relationship_name (fact_edge_kind edge) ++ " relationship."
  else display_fact from ++ " " ++ relationship_verb (fact_edge_kind edge) ++ " " ++ display_fact to ++ ".".
Definition relationship_clause (rule_id : string) (packet : ArchaeologyEvidencePacket) (edge : ArchaeologyFactEdge)
    (facts : BTreeMap string ArchaeologyFact) (limits : ArchaeologyDeterministicLimits)
    : outcome (option ArchaeologyRuleClause) :=
  let ends := [from_fact_id edge; to_fact_id edge] in
  let supporting := List.filter (fun id => elemb id (packet_supporting_fact_ids packet)) ends in
  if is_nil supporting then Ok None else
  let contradicting := List.filter (fun id => elemb id (packet_contradicting_fact_ids packet)) ends in
  let unresolved := any (fun id => elemb id (unresolved_fact_ids packet)) ends in
  from ← index_or_panic (map_get (from_fact_id edge) facts);
  to ← index_or_panic (map_get (to_fact_id edge) facts);
  text ← bounded_text (relationship_text edge from to unresolved) (max_clause_text_bytes limits);
  Ok (Some {| clause_id := clause_id_of rule_id ["relationship"%string; fact_edge_id edge]; clause_text := text;
    clause_trust := TrustDeterministic;
    clause_confidence := if unresolved then ConfidenceLow else packet_confidence packet;
    supporting_fact_ids := supporting; contradicting_fact_ids := contradicting;
    evidence_span_ids := set_of_list (fact_edge_evidence_span_ids edge);
    caveats := when unresolved "relationship target is unresolved"%string |}).

Definition conservative_confidence (left right : ArchaeologyConfidence) : ArchaeologyConfidence :=
  match left, right with
  | ConfidenceUnavailable, _ | _, ConfidenceUnavailable => ConfidenceUnavailable
  | ConfidenceLow, _ | _, ConfidenceLow => ConfidenceLow
  | ConfidenceMedium, _ | _, ConfidenceMedium => ConfidenceMedium
  | ConfidenceHigh, ConfidenceHigh => ConfidenceHigh
  end.
Definition merged_ids (existing incoming : list string) : list string := dedup (sort (existing ++ incoming)).
Definition merge_clause (existing incoming : ArchaeologyRuleClause) : outcome ArchaeologyRuleClause :=
  if negb (bool_decide (clause_trust existing = clause_trust incoming))
  then Err "Archaeology duplicate rendered clauses have incompatible trust" else
  let merged := {|
    clause_id := clause_id existing; clause_text := clause_text existing; clause_trust := clause_trust existing;
    clause_confidence := conservative_confidence (clause_confidence existing) (clause_confidence incoming);
    supporting_fact_ids := merged_ids (supporting_fact_ids existing) (supporting_fact_ids incoming);
    contradicting_fact_ids := merged_ids (contradicting_fact_ids existing) (contradicting_fact_ids incoming);
    evidence_span_ids := merged_ids (evidence_span_ids existing) (evidence_span_ids incoming);
    caveats := merged_ids (caveats existing) (caveats incoming) |} in
  if any (fun id => elemb id (contradicting_fact_ids merged)) (supporting_fact_ids merged)
  then Err "Archaeology duplicate rendered clauses have conflicting evidence" else
  Ok merged.
(** The clause of the same text is merged with, the first there is. *)
Fixpoint merge_rendered_clause (clauses : list ArchaeologyRuleClause) (incoming : ArchaeologyRuleClause)
    : outcome (list ArchaeologyRuleClause) :=
  match clauses with
  | [] => Ok [incoming]
  | existing :: rest =>
      if seqb (clause_text existing) (clause_text incoming)
      then merged ← merge_clause existing incoming; Ok (merged :: rest)
      else rest ← merge_rendered_clause rest incoming; Ok (existing :: rest)
  end.

(** ** The check of a packet *)

Definition disjoint_ids (left right : list string) : bool := forallb (fun id => negb (elemb id right)) left.
Definition has_caveat (packet : ArchaeologyEvidencePacket) (caveat : string) : bool := elemb caveat (packet_caveats packet).
Definition is_distinct (values : list string) : bool := (length (set_of_list values) =? length values)%nat.
Definition is_unresolved_edge (edge : ArchaeologyFactEdge) : bool :=
  bool_decide (fact_edge_kind edge = EdgeUnresolved) || is_some (unresolved_reason edge).
Definition packet_ids_are_known (packet : ArchaeologyEvidencePacket) (facts : BTreeMap string ArchaeologyFact)
    (edges : BTreeMap string ArchaeologyFactEdge) (spans : BTreeSet string) : bool :=
  let supporting := set_of_list (packet_supporting_fact_ids packet) in
  let contradicting := set_of_list (packet_contradicting_fact_ids packet) in
  let unresolved := set_of_list (unresolved_fact_ids packet) in
  let relationships := set_of_list (relationship_ids packet) in
  let evidence := set_of_list (packet_evidence_span_ids packet) in
  let all_packet_facts := set_of_list (supporting ++ contradicting ++ unresolved) in
  let selected_edges := omap (fun id => map_get id edges) relationships in
  let expected_evidence := set_of_list
    (concat (map fact_span_ids (omap (fun id => map_get id facts) all_packet_facts))
     ++ concat (map fact_edge_evidence_span_ids selected_edges)) in
  let selected_support := List.filter (is_uncontradicted (anchor_fact_id packet) selected_edges)
    (omap (fun id => map_get id facts) supporting) in
  match map_get (anchor_fact_id packet) facts with
  | None => false
  | Some anchor =>
      let '(classified_kind, identifier_derived) := classify anchor selected_support in
      let is_truncated := has_caveat packet "packet relationship bound was truncated" in
      is_distinct (packet_supporting_fact_ids packet) && is_distinct (packet_contradicting_fact_ids packet)
      && is_distinct (unresolved_fact_ids packet) && is_distinct (relationship_ids packet)
      && is_distinct (packet_evidence_span_ids packet)
      && disjoint_ids supporting contradicting && disjoint_ids supporting unresolved
      && disjoint_ids contradicting unresolved
      && forallb (fun id => map_contains_key id facts) supporting
      && forallb (fun id => map_contains_key id facts) contradicting
      && forallb (fun id => is_some_and (map_get id facts) is_unresolved) unresolved
      && forallb (fun id => map_contains_key id edges) (relationship_ids packet)
      && forallb (fun id => set_contains id spans) (packet_evidence_span_ids packet)
      && forallb (fun edge => set_contains (from_fact_id edge) all_packet_facts
                              && set_contains (to_fact_id edge) all_packet_facts) selected_edges
      && forallb (fun id => seqb id (anchor_fact_id packet) || any (touches_fact id) selected_edges) supporting
      && forallb (fun id => any (fun edge => is_contradiction edge && touches_fact id edge) selected_edges) contradicting
      && forallb (fun id => any (fun edge => is_unresolved_edge edge && touches_fact id edge) selected_edges) unresolved
      && bool_decide (expected_evidence = evidence)
      && bool_decide (classified_kind = packet_kind packet)
      && Bool.eqb identifier_derived (has_caveat packet "kind is identifier-derived and requires review")
      && negb (Bool.eqb (is_nil unresolved) (has_caveat packet "packet has unresolved relationships"))
      && negb (Bool.eqb (is_nil contradicting) (has_caveat packet "packet has contradicting evidence"))
      && Bool.eqb (is_nil (unresolved_reasons packet)) (is_nil unresolved)
      && bool_decide (packet_confidence packet =
           packet_confidence_of identifier_derived (negb (is_nil unresolved)) (negb (is_nil contradicting)) is_truncated)
  end.
Definition packet_metadata_is_categorical (packet : ArchaeologyEvidencePacket) : bool :=
  is_distinct (packet_caveats packet) && is_distinct (unresolved_reasons packet)
  && forallb (fun value => elemb value
       ["kind is identifier-derived and requires review"; "packet has unresolved relationships";
        "packet has contradicting evidence"; "packet relationship bound was truncated"]%string) (packet_caveats packet)
  && forallb (fun value => elemb value ["ambiguous_reference"; "unavailable_reference"; "unresolved_reference"]%string)
       (unresolved_reasons packet).

(** ** All rules *)

Definition packet_bytes (packet : ArchaeologyEvidencePacket) : list N :=
  64 :: map blen ([packet_id packet; anchor_fact_id packet] ++ packet_supporting_fact_ids packet
    ++ packet_contradicting_fact_ids packet ++ relationship_ids packet ++ packet_evidence_span_ids packet
    ++ unresolved_fact_ids packet ++ unresolved_reasons packet ++ packet_caveats packet).
Definition packet_is_valid (repository_id revision_sha : string) (facts : BTreeMap string ArchaeologyFact)
    (edges : BTreeMap string ArchaeologyFactEdge) (spans : BTreeSet string) (limits : ArchaeologyDeterministicLimits)
    (packet : ArchaeologyEvidencePacket) : bool :=
  seqb (packet_id packet) (expected_packet_id repository_id revision_sha packet)
  && negb (is_nil (packet_supporting_fact_ids packet))
  && elemb (anchor_fact_id packet) (packet_supporting_fact_ids packet)
  && (len (packet_supporting_fact_ids packet) <=? max_facts_per_packet limits)
  && (len (relationship_ids packet) <=? max_edges_per_packet limits)
  && (len (packet_evidence_span_ids packet) <=? max_spans_per_packet limits)
  && packet_ids_are_known packet facts edges spans
  && packet_metadata_is_categorical packet.

Section Render.
Context (token : StructuralGraphCancellation) (json_rule : ArchaeologyRulePacket -> option N).
Context (repository_id generation_id revision_sha : string) (coverage : ArchaeologyCoverage).
Context (parser_identity algorithm_identity : string) (limits : ArchaeologyDeterministicLimits).

Definition evidence_packet_input_bytes (packets : list ArchaeologyEvidencePacket) : polling N :=
  for_each_polling (sum_bytes token packet_bytes) (foldl saturating_add 32 (map blen (reasons coverage)))
    (enumerate_nat 0 packets).

Definition index_template_fact (st : BTreeMap string ArchaeologyFact * BTreeSet string) (entry : nat * ArchaeologyFact)
    : polling (BTreeMap string ArchaeologyFact * BTreeSet string) :=
  let '(index, fact) := entry in
  _ ← poll_every token CANCELLED 1024 index;
  if negb (is_cited_fact fact) || map_contains_key (fact_id fact) (fst st)
  then lift (Err "Archaeology template rules require unique cited facts") else
  mret (map_insert (fact_id fact) fact (fst st), foldl (fun spans id => set_insert id spans) (snd st) (fact_span_ids fact)).
Definition index_template_edge (facts : BTreeMap string ArchaeologyFact) (edges : BTreeMap string ArchaeologyFactEdge)
    (entry : nat * ArchaeologyFactEdge) : polling (BTreeMap string ArchaeologyFactEdge) :=
  let '(index, edge) := entry in
  _ ← poll_every token CANCELLED 1024 index;
  if negb (is_cited_edge edge) || negb (edge_evidence_matches_endpoints edge facts)
     || map_contains_key (fact_edge_id edge) edges
  then lift (Err "Archaeology template rules require exact cited relationships") else
  mret (map_insert (fact_edge_id edge) edge edges).

Definition merge_optional (clauses : list ArchaeologyRuleClause) (clause : option ArchaeologyRuleClause)
    : outcome (list ArchaeologyRuleClause) :=
  match clause with Some clause => merge_rendered_clause clauses clause | None => Ok clauses end.
(** A relationship's clause; a contradiction goes on to the next one before the
    count of clauses is looked at. *)
Definition render_relationship (rule_id : string) (packet : ArchaeologyEvidencePacket)
    (facts : BTreeMap string ArchaeologyFact) (edges : BTreeMap string ArchaeologyFactEdge)
    (clauses : list ArchaeologyRuleClause) (entry : nat * string) : polling (list ArchaeologyRuleClause) :=
  let '(index, relationship_id) := entry in
  _ ← poll_every token CANCELLED 128 index;
  edge ← lift (index_or_panic (map_get relationship_id edges));
  if is_contradiction edge then
    clause ← lift (contradiction_clause rule_id packet edge facts limits);
    lift (merge_optional clauses clause)
  else
    clause ← lift (relationship_clause rule_id packet edge facts limits);
    clauses ← lift (merge_optional clauses clause);
    if max_clauses_per_rule limits <? len clauses
    then lift (Err "Archaeology template clause count bound exceeded") else
    mret clauses.
Definition rule_of (packet : ArchaeologyEvidencePacket) (title : string) (clauses : list ArchaeologyRuleClause)
    : ArchaeologyRulePacket := {|
  rule_id := expected_rule_id packet; rule_repository_id := repository_id; rule_generation_id := generation_id;
  rule_revision_sha := revision_sha; rule_kind := packet_kind packet; rule_title := title; domain_ids := [];
  rule_lifecycle := LifecycleCandidate; rule_trust := TrustDeterministic; rule_confidence := packet_confidence packet;
  Contracts.clauses := clauses; dependency_rule_ids := []; conflict_rule_ids := []; alias_rule_ids := [];
  rule_coverage := coverage; rule_parser_identity := parser_identity; rule_algorithm_identity := algorithm_identity;
  rule_synthesis_identity := None |}.
(** The rule of a packet that is valid. *)
Definition render_rule (packet : ArchaeologyEvidencePacket) (facts : BTreeMap string ArchaeologyFact)
    (edges : BTreeMap string ArchaeologyFactEdge) : polling ArchaeologyRulePacket :=
  anchor ← lift (index_or_panic (map_get (anchor_fact_id packet) facts));
  let rule_id := expected_rule_id packet in
  first ← lift (anchor_clause rule_id packet anchor limits);
  clauses ← for_each_polling (render_relationship rule_id packet facts edges) [first]
    (enumerate_nat 0 (sort (relationship_ids packet)));
  title ← lift (bounded_text (rule_kind_name (packet_kind packet) ++ " candidate: " ++ display_fact anchor)
    (max_clause_text_bytes limits));
  let rule := rule_of packet title clauses in
  _ ← lift (ArchaeologyRulePacket_validate rule);
  mret rule.

Record render_state : Type := {
  packet_ids : BTreeSet string;
  rules : list ArchaeologyRulePacket;
  rendered_bytes : N
}.
Definition render_packet (facts : BTreeMap string ArchaeologyFact) (edges : BTreeMap string ArchaeologyFactEdge)
    (spans : BTreeSet string) (st : render_state) (packet : ArchaeologyEvidencePacket) : polling render_state :=
  _ ← poll token CANCELLED;
  if negb (packet_is_valid repository_id revision_sha facts edges spans limits packet)
     || set_contains (packet_id packet) (packet_ids st)
  then lift (Err "Archaeology template packet is invalid") else
  rule ← render_rule packet facts edges;
  length ← lift (ok_or (json_rule rule) "Archaeology template rule is not serializable");
  let output_bytes := saturating_add (saturating_add (rendered_bytes st) length) 1 in
  if max_rule_output_bytes limits <? output_bytes
  then lift (Err "Archaeology template rule output byte bound exceeded") else
  mret {| packet_ids := set_insert (packet_id packet) (packet_ids st); rules := rules st ++ [rule];
          rendered_bytes := output_bytes |}.

Definition is_render_scope (packets : list ArchaeologyEvidencePacket) : bool :=
  safe_scope_id repository_id && safe_scope_id generation_id && safe_scope_id parser_identity
  && safe_scope_id algorithm_identity && bool_decide (validate_revision_sha revision_sha = Ok tt)
  && (len packets <=? max_packets limits) && negb (max_clauses_per_rule limits =? 0)
  && negb (max_clause_text_bytes limits =? 0) && negb (max_rule_output_bytes limits =? 0)
  && (len (reasons coverage) <=? 32)
  && forallb (fun reason => (blen reason <=? 512) && negb (unsafe_text reason)) (reasons coverage).
Definition render_template_rules (packets : list ArchaeologyEvidencePacket) (facts : list ArchaeologyFact)
    (edges : list ArchaeologyFactEdge) : polling (list ArchaeologyRulePacket) :=
  _ ← poll token CANCELLED;
  if negb (is_render_scope packets) then lift (Err "Archaeology template rule scope or bounds are invalid") else
  if (det_max_facts limits <? len facts) || (det_max_edges limits <? len edges)
  then lift (Err "Archaeology template rule input bound exceeded") else
  input ← packet_input_bytes token facts edges;
  evidence ← evidence_packet_input_bytes packets;
  if det_max_input_bytes limits <? saturating_add input evidence
  then lift (Err "Archaeology template rule input bound exceeded") else
  tables ← for_each_polling index_template_fact ([], []) (enumerate_nat 0 facts);
  edges_by_id ← for_each_polling (index_template_edge (fst tables)) [] (enumerate_nat 0 edges);
  st ← for_each_polling (render_packet (fst tables) edges_by_id (snd tables))
    {| packet_ids := []; rules := []; rendered_bytes := 2 |} packets;
  _ ← poll token CANCELLED;
  mret (sort_by_key rule_id (rules st)).
End Render.

(** ** Examples *)

Definition ex_repository : string := "repo".
Definition ex_sha : string := "0123456789012345678901234567890123456789".
Definition ex_expr : string := ("v1:sha256:" ++ String.concat "" (replicate 32 "0a"))%string.
Definition ex_fact (id : string) (kind : ArchaeologyFactKind) (label : string) : ArchaeologyFact := {|
  fact_id := id; fact_kind := kind; fact_label := label; fact_span_ids := [("span:" ++ id)%string];
  fact_parser_id := "cobol"; fact_trust := TrustExtracted; fact_confidence := ConfidenceHigh;
  fact_attributes := if bool_decide (kind = FactUnresolved) then []
    else [{| attribute_key := "semantic_expr"; attribute_value := ex_expr |}] |}.
Definition ex_edge (kind : ArchaeologyFactEdgeKind) (from to : string) (reason : option string) : ArchaeologyFactEdge := {|
  fact_edge_id := (from ++ ">" ++ to)%string; from_fact_id := from; to_fact_id := to; fact_edge_kind := kind;
  fact_edge_trust := TrustExtracted; fact_edge_evidence_span_ids := [("span:" ++ from); ("span:" ++ to)]%string;
  unresolved_reason := reason |}.
(** A check that reads a field and calls what is not known, and a check that
    contradicts it. *)
Definition ex_facts : list ArchaeologyFact :=
  [ex_fact "check" FactPredicate "AGE < 18"; ex_fact "other" FactPredicate "AGE >= 18";
   ex_fact "age" FactDataField "CUSTOMER AGE"; ex_fact "call" FactUnresolved "unresolved reference"]%string.
Definition ex_edges : list ArchaeologyFactEdge :=
  [ex_edge EdgeReads "check" "age" None; ex_edge EdgeContradicts "check" "other" None;
   ex_edge EdgeUnresolved "check" "call" (Some "reference target is unavailable"%string)]%string.
Definition ex_packets (edges : list ArchaeologyFactEdge) (limits : ArchaeologyDeterministicLimits) :=
  fst <$> derive_evidence_packets never_cancelled (fun _ => Some 100) ex_repository ex_sha ex_facts edges limits 0%nat.
Definition ex_coverage : ArchaeologyCoverage := {|
  coverage_state := CoverageComplete; parser_coverage := CoverageComplete; repository_coverage := CoverageComplete;
  temporal_coverage := CoverageUnavailable; discovered_source_units := 1; indexed_source_units := 1;
  discovered_bytes := 100; indexed_bytes := 100; reasons := [] |}.
Definition ex_rules (edges : list ArchaeologyFactEdge) (limits : ArchaeologyDeterministicLimits) :=
  packets ← ex_packets edges limits;
  fst <$> render_template_rules never_cancelled (fun _ => Some 100) ex_repository "gen" ex_sha ex_coverage "parser"
    "algorithm" limits packets ex_facts edges 0%nat.
Example ex_packets_ok :
  (fun packets => map (fun p => (anchor_fact_id p, packet_supporting_fact_ids p, packet_contradicting_fact_ids p,
     unresolved_fact_ids p, unresolved_reasons p, packet_confidence p)) packets)
  <$> ex_packets ex_edges default_deterministic_limits = Ok
  [("check", ["age"; "check"], ["other"], ["call"], ["unavailable_reference"], ConfidenceLow);
   ("other", ["other"], ["check"], [], [], ConfidenceLow)]%string.
Proof. vm_compute. reflexivity. Qed.
Example ex_rules_ok :
  (fun rules => map (fun r => (rule_kind r, length (clauses r))) rules)
  <$> ex_rules ex_edges default_deterministic_limits = Ok [(RuleValidation, 4%nat); (RuleValidation, 2%nat)].
Proof. vm_compute. reflexivity. Qed.
(** The count of clauses is looked at after relationships, not after
    contradictions. *)
Definition ex_one_clause : ArchaeologyDeterministicLimits := {|
  det_max_facts := 100; det_max_edges := 100; max_packets := 100; max_facts_per_packet := 64;
  max_edges_per_packet := 128; max_examined_edges_per_packet := 512; max_spans_per_packet := 256;
  det_max_input_bytes := 100000; det_max_output_bytes := 100000; max_clauses_per_rule := 1;
  max_clause_text_bytes := 1024; max_rule_output_bytes := 100000; max_cluster_members := 1;
  max_cluster_relations := 1; max_cluster_domains := 1; max_cluster_output_bytes := 1 |}.
Example ex_clause_bound_missed :
  (fun rules => map (fun r => length (clauses r)) rules)
  <$> ex_rules [ex_edge EdgeContradicts "check" "other" None]%string ex_one_clause = Ok [2; 2]%nat.
Proof. vm_compute. reflexivity. Qed.
(** An unmarked relationship to an unresolved fact, which the emission protocol
    does not refuse, makes a packet the renderer refuses. *)
Example ex_unmarked_refused :
  is_Ok (ex_packets [ex_edge EdgeReads "check" "call" None]%string default_deterministic_limits) /\
  ex_rules [ex_edge EdgeReads "check" "call" None]%string default_deterministic_limits
  = Err "Archaeology template packet is invalid".
Proof. split; [eexists|]; vm_compute; reflexivity. Qed.
