(* ===== verification/PacketProps.v ===== *)
(** Theorems about the evidence packets of [Packets]: what the walk around an
    anchor selects, and that the check [TemplateRules.packet_is_valid] accepts
    every packet it makes. *)
From S2P Require Import Prelude Ordering Entries RustText GraphTypes SecretPolicy Contracts Adapter Packets TemplateRules.
Local Open Scope nat_scope.

(** * Sorted sets as lists *)

Lemma filter_sorted {A} `{RustOrd A} (p : A -> bool) (l : list A) :
  StronglySorted lt l -> StronglySorted lt (List.filter p l).
Proof.
  induction 1 as [|x l Hl IH Hall]; cbn; [constructor|]. case_match; [|done]. constructor; [done|].
  apply Forall_forall. intros y [Hy _]%elem_of_filter_bool. by eapply Forall_forall in Hall.
Qed.
Lemma filter_length_le {A} (p : A -> bool) (l : list A) : length (List.filter p l) <= length l.
Proof. induction l as [|x l IH]; cbn; [done|]. case_match; cbn; lia. Qed.
Lemma sorted_set_of_list {A} `{RustOrd A} (l : list A) : StronglySorted lt l -> set_of_list l = l.
Proof.
  intros Hl. apply sorted_ext; [apply set_of_list_sorted|done|]. intros x. apply elem_of_set_of_list.
Qed.

(** * The walk *)

Section Walk.
Context (limits : ArchaeologyDeterministicLimits) (facts : BTreeMap string ArchaeologyFact).
Context (ordered : list ArchaeologyFactEdge) (anchor : string).
Context (Hends : forall e, e ∈ ordered -> from_fact_id e ∈ map_keys facts /\ to_fact_id e ∈ map_keys facts).
Context (Hanchor : anchor ∈ map_keys facts).
Notation edges := (index_edges ordered).

Lemma elem_of_edges_of key id e :
  e ∈ edges_of (foldl (push_keyed key) [] ordered) id <-> e ∈ ordered /\ key e = Some id.
Proof.
  unfold edges_of. rewrite (proj2 (push_keyed_get key ordered id)).
  trans (e ∈ filed key ordered id); [by destruct (filed key ordered id)|]. apply elem_of_filed.
Qed.
Lemma elem_of_outgoing id e : e ∈ edges_of (outgoing edges) id -> e ∈ ordered /\ from_fact_id e = id.
Proof. intros [He Hk]%elem_of_edges_of. split; [done|]. case_match; congruence. Qed.
Lemma elem_of_reverse_control id e : e ∈ edges_of (reverse_control edges) id -> e ∈ ordered /\ to_fact_id e = id.
Proof. intros [He Hk]%elem_of_edges_of. split; [done|]. case_match; congruence. Qed.
Lemma elem_of_contradictions id e :
  e ∈ edges_of (outgoing_contradiction edges) id ++ edges_of (reverse_contradiction edges) id ->
  e ∈ ordered /\ is_contradiction e = true /\ touches_fact id e = true.
Proof.
  unfold touches_fact. intros [[He Hk]%elem_of_edges_of|[He Hk]%elem_of_edges_of]%elem_of_app;
    destruct (is_contradiction e); try done; injection Hk as <-; split_and!; try done;
    rewrite orb_true_iff, !seqb_true; auto.
Qed.

(** A fact the walk has selected, or set aside as contradicting. *)
Definition known (st : packet_walk) (id : string) : Prop := id ∈ selected_facts st \/ id ∈ contradiction_ids st.
Record walk_ok (st : packet_walk) : Prop := {
  w_facts_sorted : StronglySorted lt (selected_facts st);
  w_contradictions_sorted : StronglySorted lt (contradiction_ids st);
  w_edges_sorted : StronglySorted lt (selected_edges st);
  w_anchor : anchor ∈ selected_facts st;
  w_known : forall id, known st id -> id ∈ map_keys facts;
  w_disjoint : forall id, id ∈ selected_facts st -> id ∉ contradiction_ids st;
  w_facts_bound : (len (selected_facts st) <= max_facts_per_packet limits)%N;
  w_edges_bound : (len (selected_edges st) <= max_edges_per_packet limits)%N;
  w_edges : forall id, id ∈ selected_edges st -> exists e, e ∈ ordered /\ fact_edge_id e = id /\
    known st (from_fact_id e) /\ known st (to_fact_id e);
  w_support : forall id, id ∈ selected_facts st -> id <> anchor -> exists e, e ∈ ordered /\
    fact_edge_id e ∈ selected_edges st /\ touches_fact id e = true;
  w_contra : forall id, id ∈ contradiction_ids st -> exists e, e ∈ ordered /\
    fact_edge_id e ∈ selected_edges st /\ is_contradiction e = true /\ touches_fact id e = true;
  w_next : forall id, id ∈ next_facts st -> known st id
}.
(** What is the same of two states for [walk_ok]. *)
Lemma walk_ok_same st st' :
  selected_facts st' = selected_facts st -> contradiction_ids st' = contradiction_ids st ->
  selected_edges st' = selected_edges st -> (forall id, id ∈ next_facts st' -> id ∈ next_facts st) ->
  walk_ok st -> walk_ok st'.
Proof. intros H1 H2 H3 H4 []. split; unfold known in *; rewrite ?H1, ?H2, ?H3; auto. Qed.
Lemma len_insert_new {A} `{RustOrd A} (x : A) s : x ∉ s -> len (set_insert x s) = (len s + 1)%N.
Proof. intros Hx. unfold len. rewrite set_insert_length_new by done. lia. Qed.
Lemma len_insert_bound {A} `{RustOrd A} (x : A) s n :
  x ∉ s -> (len s <= n)%N -> (len s =? n)%N = false -> (len (set_insert x s) <= n)%N.
Proof. intros Hx Hle Hne%N.eqb_neq. rewrite len_insert_new by done. lia. Qed.
Lemma touches_iff id e : touches_fact id e = true <-> from_fact_id e = id \/ to_fact_id e = id.
Proof. unfold touches_fact. by rewrite orb_true_iff, !seqb_true. Qed.

Lemma start_ok : (max_facts_per_packet limits =? 0)%N = false -> walk_ok (start_walk anchor).
Proof.
  intros Hmax%N.eqb_neq. split; cbn; try (by repeat constructor); try (by intros id ?%not_elem_of_nil).
  - by intros id [->%list_elem_of_singleton|?%not_elem_of_nil].
  - intros id _. apply not_elem_of_nil.
  - unfold len. cbn. lia.
  - unfold len. cbn. lia.
  - by intros id ->%list_elem_of_singleton.
Qed.

(** ** A contradiction *)

Lemma known_select_contradiction contradicting edge st id :
  known st id -> known (select_contradiction anchor contradicting edge st) id.
Proof.
  unfold known. cbn [select_contradiction selected_facts contradiction_ids].
  destruct (seqb contradicting anchor) eqn:E; [done|]. rewrite elem_of_set_insert, elem_of_filter_bool, negb_true_iff, seqb_false.
  destruct (decide (id = contradicting)); naive_solver.
Qed.
Lemma select_contradiction_ok contradicting edge st :
  walk_ok st -> edge ∈ ordered -> is_contradiction edge = true -> fact_edge_id edge ∉ selected_edges st ->
  (len (selected_edges st) =? max_edges_per_packet limits)%N = false ->
  touches_fact contradicting edge = true ->
  (forall id, touches_fact id edge = true -> id <> contradicting -> known st id) ->
  walk_ok (select_contradiction anchor contradicting edge st).
Proof.
  intros Hst He Hcontra Hnew Hmax Ht Hother. pose proof (fun id => known_select_contradiction contradicting edge st id) as Hmono.
  assert (contradicting ∈ map_keys facts) as Hfact.
  { apply touches_iff in Ht as [<-| <-]; by apply Hends. }
  assert (known (select_contradiction anchor contradicting edge st) contradicting) as Hc.
  { unfold known. cbn [select_contradiction selected_facts contradiction_ids]. destruct (seqb contradicting anchor) eqn:E.
    - apply seqb_true in E as ->. left. apply (w_anchor _ Hst).
    - right. apply elem_of_set_insert. by left. }
  split; cbn [select_contradiction selected_facts contradiction_ids selected_edges next_facts].
  - case_match; [apply Hst|]. apply filter_sorted, Hst.
  - case_match; [apply Hst|]. apply set_insert_sorted, Hst.
  - apply set_insert_sorted, Hst.
  - case_match eqn:E; [apply Hst|]. apply elem_of_filter_bool. split; [apply Hst|]. apply seqb_false in E.
    apply negb_true_iff, seqb_false. congruence.
  - intros id Hid. destruct (decide (id = contradicting)) as [->|Hne]; [done|]. apply (w_known _ Hst).
    revert Hid. unfold known. cbn [select_contradiction selected_facts contradiction_ids]. case_match; [done|].
    rewrite elem_of_set_insert, elem_of_filter_bool. naive_solver.
  - intros id. case_match; [apply Hst|]. rewrite elem_of_filter_bool, negb_true_iff, seqb_false, elem_of_set_insert.
    intros [Hid Hne] [->|Hin]; [done|]. by apply (w_disjoint _ Hst id).
  - case_match; [apply Hst|]. pose proof (w_facts_bound _ Hst). unfold len in *.
    pose proof (filter_length_le (fun id => negb (seqb id contradicting)) (selected_facts st)). lia.
  - apply len_insert_bound; [done|apply Hst|done].
  - intros id [->|Hid]%elem_of_set_insert.
    + exists edge. split_and!; [done..| |].
      * destruct (decide (from_fact_id edge = contradicting)) as [->|]; [done|]. apply Hmono, Hother; [|done]. apply touches_iff. by left.
      * destruct (decide (to_fact_id edge = contradicting)) as [->|]; [done|]. apply Hmono, Hother; [|done]. apply touches_iff. by right.
    + destruct (w_edges _ Hst _ Hid) as (e & H1 & H2 & H3 & H4). exists e. auto.
  - intros id Hid Hne. assert (id ∈ selected_facts st) as Hin by (revert Hid; case_match; [done|]; by rewrite elem_of_filter_bool; intros []).
    destruct (w_support _ Hst _ Hin Hne) as (e & H1 & H2 & H3). exists e. rewrite elem_of_set_insert. auto.
  - intros id Hid. assert (id = contradicting \/ id ∈ contradiction_ids st) as [->|Hin].
    { revert Hid. case_match; [by right|]. by rewrite elem_of_set_insert. }
    + exists edge. rewrite elem_of_set_insert. auto.
    + destruct (w_contra _ Hst _ Hin) as (e & H1 & H2 & H3 & H4). exists e. rewrite elem_of_set_insert. auto.
  - intros id Hid. by apply Hmono, (w_next _ Hst).
Qed.
Lemma contradicting_end_Ok snapshot st e current :
  e ∈ ordered -> current ∈ snapshot -> touches_fact current e = true ->
  exists c, contradicting_end facts snapshot st e = Ok c /\ touches_fact c e = true /\
    forall id, touches_fact id e = true -> id <> c -> id ∈ snapshot.
Proof.
  intros He Hcur Ht%touches_iff. destruct (Hends e He) as [Hf Hto]. unfold contradicting_end.
  destruct (set_contains (from_fact_id e) snapshot) eqn:Efrom; [apply set_contains_true in Efrom|apply set_contains_false in Efrom].
  - destruct (set_contains (to_fact_id e) snapshot) eqn:Eto; [apply set_contains_true in Eto|apply set_contains_false in Eto].
    + assert (forall id, touches_fact id e = true -> id ∈ snapshot) as Hall by (intros id [<-| <-]%touches_iff; done).
      apply map_get_is_Some in Hf as [from ->], Hto as [to ->].
      case_match; [|cbn [index_or_panic mbind outcome_bind]]; eexists; (split; [reflexivity|]); (split; [apply touches_iff|by auto]);
        case_match; auto.
    + eexists. split; [done|]. split; [apply touches_iff; by right|]. intros id [<-| <-]%touches_iff; done.
  - eexists. split; [done|]. split; [apply touches_iff; by left|]. intros id [<-| <-]%touches_iff; [done|].
    intros _. destruct Ht as [<-| <-]; done.
Qed.

Lemma examine_ok st : walk_ok st -> walk_ok (examine st).
Proof. by apply walk_ok_same. Qed.
Lemma cut_ok st : walk_ok st -> walk_ok (cut st).
Proof. by apply walk_ok_same. Qed.
Definition covers (snapshot : BTreeSet string) (st : packet_walk) : Prop :=
  (forall id, id ∈ snapshot -> known st id) /\ next_facts st = [].
Lemma contradiction_step_ok snapshot current st e :
  walk_ok st -> covers snapshot st -> current ∈ snapshot -> e ∈ ordered -> is_contradiction e = true ->
  touches_fact current e = true ->
  exists st', contradiction_step limits facts anchor snapshot st e = Ok st' /\ walk_ok st' /\ covers snapshot st'.
Proof.
  intros Hst Hcov Hcur He Hc Ht. unfold contradiction_step.
  case_match; [by exists st|]. case_match; [exists (cut st); split_and!; [done|by apply cut_ok|done]|].
  pose proof (examine_ok st Hst) as Hst'. cbn zeta. destruct (set_contains _ _) eqn:Enew; [by exists (examine st)|].
  destruct (len (selected_edges (examine st)) =? max_edges_per_packet limits)%N eqn:Emax; [exists (cut (examine st)); split_and!; [done|by apply cut_ok|done]|].
  destruct (contradicting_end_Ok snapshot (examine st) e current He Hcur Ht) as (c & -> & Htc & Hother).
  cbn [mbind outcome_bind]. eexists. split; [done|]. apply set_contains_false in Enew. split.
  - apply select_contradiction_ok; try done. intros id Hid Hne. by apply Hcov, Hother.
  - split; [|apply Hcov]. intros id Hid. by apply known_select_contradiction, Hcov.
Qed.
(** A loop whose steps succeed and keep an invariant. *)
Lemma for_each_keeps {S A} (P : S -> Prop) (f : S -> A -> outcome S) l s :
  P s -> (forall x s, x ∈ l -> P s -> exists s', f s x = Ok s' /\ P s') ->
  exists s', for_each f s l = Ok s' /\ P s'.
Proof.
  revert s. induction l as [|x l IH]; intros s Hs Hf; cbn [for_each]; [by exists s|].
  destruct (Hf x s) as (s1 & -> & Hs1); [left|done|]. apply IH; [done|]. intros y s' Hy. apply Hf. by right.
Qed.
Lemma contradictions_at_ok snapshot st current :
  walk_ok st -> covers snapshot st -> current ∈ snapshot ->
  exists st', contradictions_at limits facts edges anchor snapshot st current = Ok st' /\ walk_ok st' /\ covers snapshot st'.
Proof.
  intros Hst Hcov Hcur. unfold contradictions_at. case_match; [by exists st|].
  apply (for_each_keeps (fun st => walk_ok st /\ covers snapshot st)); [done|].
  intros e s (He & Hc & Ht)%elem_of_contradictions [Hs Hs']. by apply (contradiction_step_ok snapshot current).
Qed.

(** ** A relationship *)

Lemma known_select_relation depth other edge st id : known st id -> known (select_relation depth other edge st) id.
Proof.
  unfold known. cbn [select_relation selected_facts contradiction_ids]. case_match; [|done].
  rewrite elem_of_set_insert. naive_solver.
Qed.
Lemma select_relation_ok depth other edge st :
  walk_ok st -> edge ∈ ordered -> fact_edge_id edge ∉ selected_edges st -> touches_fact other edge = true ->
  (forall id, touches_fact id edge = true -> id <> other -> known st id) ->
  (len (selected_edges st) =? max_edges_per_packet limits)%N = false ->
  (other ∉ selected_facts st -> (len (selected_facts st) =? max_facts_per_packet limits)%N = false) ->
  walk_ok (select_relation depth other edge st).
Proof.
  intros Hst He Hnew Ht Hends' Hmax Hfacts. pose proof (fun id => known_select_relation depth other edge st id) as Hmono.
  set (is_new := negb (set_contains other (contradiction_ids st)) && negb (set_contains other (selected_facts st))).
  assert (is_new = true -> other ∉ contradiction_ids st /\ other ∉ selected_facts st) as Htrue.
  { unfold is_new. by rewrite andb_true_iff, !negb_true_iff, !set_contains_false. }
  assert (known (select_relation depth other edge st) other) as Hother.
  { unfold known. cbn [select_relation selected_facts contradiction_ids]. fold is_new. destruct is_new eqn:E.
    - left. apply elem_of_set_insert. by left.
    - apply andb_false_iff in E as [E%negb_false_iff%set_contains_true|E%negb_false_iff%set_contains_true]; auto. }
  assert (forall id, touches_fact id edge = true -> known (select_relation depth other edge st) id) as Hboth.
  { intros id Hid. destruct (decide (id = other)) as [->|Hne]; [done|]. by apply Hmono, Hends'. }
  split; cbn [select_relation selected_facts contradiction_ids selected_edges next_facts]; fold is_new.
  - case_match; [apply set_insert_sorted|]; apply Hst.
  - apply Hst.
  - apply set_insert_sorted, Hst.
  - case_match; [apply elem_of_set_insert; right|]; apply Hst.
  - intros id Hid. destruct (decide (id = other)) as [->|Hne].
    { apply touches_iff in Ht as [<-| <-]; by apply Hends. }
    apply (w_known _ Hst). revert Hid. unfold known. cbn [select_relation selected_facts contradiction_ids]. fold is_new.
    case_match; [|done]. rewrite elem_of_set_insert. naive_solver.
  - intros id. case_match; [|apply Hst]. intros [->|Hid]%elem_of_set_insert; [by apply Htrue|by apply (w_disjoint _ Hst)].
  - case_match; [|apply Hst]. destruct Htrue as [_ Hn]; [done|]. apply len_insert_bound; [done|apply Hst|auto].
  - apply len_insert_bound; [done|apply Hst|done].
  - intros id [->|Hid]%elem_of_set_insert.
    + exists edge. split_and!; try done; apply Hboth, touches_iff; auto.
    + destruct (w_edges _ Hst _ Hid) as (e & H1 & H2 & H3 & H4). exists e. auto.
  - intros id Hid Hne. assert (id = other \/ id ∈ selected_facts st) as [->|Hin].
    { revert Hid. case_match; [|by right]. by rewrite elem_of_set_insert. }
    + exists edge. rewrite elem_of_set_insert. auto.
    + destruct (w_support _ Hst _ Hin Hne) as (e & H1 & H2 & H3). exists e. rewrite elem_of_set_insert. auto.
  - intros id Hid. destruct (w_contra _ Hst _ Hid) as (e & H1 & H2 & H3 & H4). exists e. rewrite elem_of_set_insert. auto.
  - intros id Hid. assert (id = other \/ id ∈ next_facts st) as [->|Hin]; [|done|by apply Hmono, (w_next _ Hst)].
    revert Hid. case_match; [|by right]. by rewrite elem_of_set_insert.
Qed.
Lemma relation_step_cases depth (reverse : bool) st e (P : packet_walk -> Prop) :
  P st -> P (cut st) -> P (examine st) -> P (cut (examine st)) ->
  (let other := if reverse then from_fact_id e else to_fact_id e in
   fact_edge_id e ∉ selected_edges st -> (len (selected_edges st) =? max_edges_per_packet limits)%N = false ->
   (other ∉ selected_facts st -> (len (selected_facts st) =? max_facts_per_packet limits)%N = false) ->
   P (select_relation depth other e (examine st))) ->
  P (relation_step limits depth reverse st e).
Proof.
  intros H1 H2 H3 H4 H5. unfold relation_step. destruct (truncated st); [done|].
  destruct (examined_edges st =? _)%N; [done|]. cbn zeta.
  destruct (set_contains (fact_edge_id e) _) eqn:Enew; [done|]. destruct (_ || _) eqn:Emax; [done|].
  apply set_contains_false in Enew. apply orb_false_iff in Emax as [Emax Efacts]. apply H5; [done..|].
  intros Hn%set_contains_false. cbn [examine selected_facts] in Efacts. by rewrite Hn in Efacts.
Qed.
Lemma relation_step_mono depth (reverse : bool) st e id : known st id -> known (relation_step limits depth reverse st e) id.
Proof.
  intros Hid. apply (relation_step_cases depth reverse st e (fun st => known st id)); try done.
  intros other _ _ _. by apply known_select_relation.
Qed.
Lemma relation_step_ok depth (reverse : bool) current st e :
  walk_ok st -> known st current -> e ∈ ordered -> (if reverse then to_fact_id e else from_fact_id e) = current ->
  walk_ok (relation_step limits depth reverse st e).
Proof.
  intros Hst Hcur He Hend. apply relation_step_cases; [done|by apply cut_ok|by apply examine_ok|by apply cut_ok, examine_ok|].
  intros other Hnew Hmax Hfacts. apply select_relation_ok; try done.
  - by apply examine_ok.
  - apply touches_iff. subst other. destruct reverse; auto.
  - subst other. intros id [Hid|Hid]%touches_iff Hne; destruct reverse; subst; done.
Qed.
Lemma relations_at_ok depth st current :
  walk_ok st -> known st current ->
  walk_ok (relations_at limits edges depth st current) /\
  (forall id, known st id -> known (relations_at limits edges depth st current) id).
Proof.
  intros Hst Hcur. unfold relations_at. case_match; [done|].
  assert (forall (reverse : bool) l st, (forall e, e ∈ l -> e ∈ ordered /\ (if reverse then to_fact_id e else from_fact_id e) = current) ->
    walk_ok st -> known st current -> let st' := foldl (relation_step limits depth reverse) st l in
    walk_ok st' /\ known st' current /\ forall id, known st id -> known st' id) as Hloop.
  { intros reverse l. induction l as [|e l IH]; intros s Hl Hs Hc; cbn [foldl]; [done|].
    destruct (Hl e) as [He Hend]; [left|]. pose proof (relation_step_ok depth reverse current s e Hs Hc He Hend) as H1.
    pose proof (fun id => relation_step_mono depth reverse s e id) as H2.
    destruct (IH (relation_step limits depth reverse s e)) as (H3 & H4 & H5); [intros; apply Hl; by right|done|by apply H2|].
    split_and!; [done..|]. intros id Hid. by apply H5, H2. }
  destruct (Hloop false (edges_of (outgoing edges) current) st) as (H1 & H2 & H3); [apply elem_of_outgoing|done..|].
  case_match; [|done].
  destruct (Hloop true (edges_of (reverse_control edges) current) _ (elem_of_reverse_control current) H1 H2) as (H4 & H5 & H6).
  split; [done|]. intros id Hid. by apply H6, H3.
Qed.
Definition next_selected (st : packet_walk) : Prop := forall id, id ∈ next_facts st -> id ∈ selected_facts st.
Lemma relation_step_next depth (reverse : bool) st e : next_selected st -> next_selected (relation_step limits depth reverse st e).
Proof.
  intros Hst. apply relation_step_cases; try done. intros other _ _ _ id.
  cbn [select_relation examine next_facts selected_facts]. case_match; [|apply Hst].
  rewrite !elem_of_set_insert. intros [->|Hid]; [by left|right; by apply Hst].
Qed.
Lemma relations_at_next depth st current : next_selected st -> next_selected (relations_at limits edges depth st current).
Proof.
  intros Hst. unfold relations_at. case_match; [done|].
  assert (forall (reverse : bool) l st, next_selected st -> next_selected (foldl (relation_step limits depth reverse) st l)) as Hloop.
  { intros reverse l. induction l as [|e l IH]; intros s Hs; cbn [foldl]; [done|]. by apply IH, relation_step_next. }
  case_match; repeat apply Hloop; done.
Qed.
Lemma walk_depth_ok depth frontier st :
  walk_ok st -> (forall id, id ∈ frontier -> id ∈ selected_facts st) ->
  exists st', walk_depth limits facts edges anchor depth frontier st = Ok st' /\ walk_ok st' /\ next_selected st'.
Proof.
  intros Hst Hfr. unfold walk_depth.
  assert (walk_ok (new_depth st)) as Hst' by (by apply (walk_ok_same st); [..|intros id ?%not_elem_of_nil|]).
  destruct (for_each_keeps (fun s => walk_ok s /\ covers (selected_facts (new_depth st)) s)
    (contradictions_at limits facts edges anchor (selected_facts (new_depth st))) frontier (new_depth st))
    as (s & -> & Hs & Hcov & Hnil).
  - split; [done|]. split; [|done]. intros id Hid. by left.
  - intros current s Hcur [Hs Hcov]. apply contradictions_at_ok; [done..|by apply Hfr].
  - cbn [mbind outcome_bind]. eexists. split; [done|].
    assert (forall id, id ∈ frontier -> known s id) as Hknown by (intros id Hid; by apply Hcov, Hfr).
    assert (next_selected s) as Hnext by (intros id; rewrite Hnil; by intros ?%not_elem_of_nil).
    clear - Hs Hknown Hends Hnext. revert s Hs Hknown Hnext.
    induction frontier as [|current l IH]; intros s Hs Hknown Hnext; cbn [foldl]; [done|].
    destruct (relations_at_ok depth s current) as [H1 H2]; [done|apply Hknown; left|].
    apply IH; [done| |by apply relations_at_next]. intros id Hid. apply H2, Hknown. by right.
Qed.
Lemma walk_exists : (max_facts_per_packet limits =? 0)%N = false ->
  exists st, walk limits facts edges anchor = Ok st /\ walk_ok st.
Proof.
  intros Hmax. unfold walk. destruct (walk_depth_ok 0%N [anchor] (start_walk anchor)) as (s & -> & Hs & Hnext);
    [by apply start_ok|by intros id ->%list_elem_of_singleton; left|].
  cbn [mbind outcome_bind]. destruct (walk_depth_ok 1%N (next_facts s) s Hs Hnext) as (s' & -> & Hs' & _). eauto.
Qed.
End Walk.

(** * The packet *)

Lemma extend_evidence_Ok limit lists evidence :
  for_each (extend_evidence limit) [] lists = Ok evidence ->
  evidence = set_of_list (concat lists) /\ (len evidence <= limit)%N.
Proof.
  apply (for_each_inv (fun pre s => s = set_of_list (concat pre) /\ (len s <= limit)%N)); [split; [done|unfold len; cbn; lia]|].
  intros pre ids suf s1 s2 _ [-> Hlen] Hstep. rewrite concat_app. cbn [concat]. rewrite app_nil_r.
  revert Hstep. unfold extend_evidence.
  apply (for_each_inv (fun pre' s => s = set_of_list (concat pre ++ pre') /\ (len s <= limit)%N)); [by rewrite app_nil_r|].
  intros pre' id suf' s3 s4 _ [-> Hlen3] [Hb [= <-]]%if_Err_Ok.
  rewrite (app_assoc (concat pre) pre' [id]), set_of_list_snoc. split; [done|].
  apply andb_false_iff in Hb as [Hb%negb_false_iff%set_contains_true|Hb].
  - by rewrite set_insert_id by (done || apply set_of_list_sorted).
  - destruct (set_contains id (set_of_list (concat pre ++ pre'))) eqn:Hin.
    + apply set_contains_true in Hin. by rewrite set_insert_id by (done || apply set_of_list_sorted).
    + apply set_contains_false in Hin. by apply len_insert_bound.
Qed.
Lemma is_distinct_sorted l : StronglySorted lt l -> is_distinct l = true.
Proof. intros Hl. unfold is_distinct. rewrite sorted_set_of_list by done. apply Nat.eqb_refl. Qed.
Lemma is_nil_filter_set {A} `{RustOrd A} (l : list A) : is_nil (set_of_list l) = is_nil l.
Proof.
  destruct l as [|x l]; [done|]. apply is_nil_false. intros Hnil.
  assert (x ∈ set_of_list (x :: l)) as Hx by (apply elem_of_set_of_list; left). rewrite Hnil in Hx. by apply not_elem_of_nil in Hx.
Qed.

Lemma forallb_elem {A} (p : A -> bool) l : forallb p l = true <-> forall x, x ∈ l -> p x = true.
Proof. rewrite forallb_forall. by setoid_rewrite <- list_elem_of_In. Qed.
Lemma caveats_exact a b c d :
  elemb "kind is identifier-derived and requires review"%string (packet_caveats_of a b c d) = a /\
  elemb "packet has unresolved relationships"%string (packet_caveats_of a b c d) = b /\
  elemb "packet has contradicting evidence"%string (packet_caveats_of a b c d) = c /\
  elemb "packet relationship bound was truncated"%string (packet_caveats_of a b c d) = d /\
  is_distinct (packet_caveats_of a b c d) = true.
Proof. by destruct a, b, c, d; vm_compute. Qed.

(** Relationships to unresolved facts are marked as such, and only those.  The
    linker adds no others; the emission protocol compares the mark of a
    relationship with its reason, not with the fact it leads to. *)
Record edges_marked (facts : BTreeMap string ArchaeologyFact) (edges : list ArchaeologyFactEdge) : Prop := {
  em_from : forall e f, e ∈ edges -> map_get (from_fact_id e) facts = Some f -> fact_kind f <> FactUnresolved;
  em_to : forall e f, e ∈ edges -> map_get (to_fact_id e) facts = Some f ->
    is_unresolved_edge e = true <-> fact_kind f = FactUnresolved;
  em_contradiction : forall e, e ∈ edges -> is_contradiction e = true -> is_unresolved_edge e = false
}.

Section Packet.
Context (limits : ArchaeologyDeterministicLimits) (facts : BTreeMap string ArchaeologyFact).
Context (edges_by_id : BTreeMap string ArchaeologyFactEdge) (ordered : list ArchaeologyFactEdge) (spans : BTreeSet string).
Context (Hends : forall e, e ∈ ordered -> from_fact_id e ∈ map_keys facts /\ to_fact_id e ∈ map_keys facts).
Context (Hfacts : forall id f, map_get id facts = Some f -> fact_id f = id).
Context (Hedges : forall id e, map_get id edges_by_id = Some e <-> e ∈ ordered /\ fact_edge_id e = id).
Context (Hspans : forall id f span, map_get id facts = Some f -> span ∈ fact_span_ids f -> span ∈ spans).
Context (Hedge_spans : forall e span, e ∈ ordered -> span ∈ fact_edge_evidence_span_ids e -> span ∈ spans).
Context (Hmarked : edges_marked facts ordered) (Hmax : (max_facts_per_packet limits =? 0)%N = false).

Lemma elem_of_walked st e : e ∈ omap (fun id => map_get id edges_by_id) (selected_edges st) <->
  e ∈ ordered /\ fact_edge_id e ∈ selected_edges st.
Proof.
  rewrite list_elem_of_omap. split.
  - intros (id & Hid & [He <-]%Hedges). done.
  - intros [He Hid]. exists (fact_edge_id e). split; [done|]. by apply Hedges.
Qed.

Section Anchor.
Context (anchor : ArchaeologyFact) (Hanchor : map_get (fact_id anchor) facts = Some anchor) (His : is_anchor anchor = true).
Context (st : packet_walk) (Hst : walk_ok limits facts ordered (fact_id anchor) st).

Definition unresolved_of : list string :=
  List.filter (fun id => is_some_and (map_get id facts) is_unresolved) (selected_facts st).
Definition supporting_of : list string :=
  List.filter (fun id => negb (set_contains id (contradiction_ids st)) && negb (elemb id unresolved_of)) (selected_facts st).
Lemma elem_of_unresolved id : id ∈ unresolved_of <-> id ∈ selected_facts st /\
  exists f, map_get id facts = Some f /\ fact_kind f = FactUnresolved.
Proof.
  unfold unresolved_of. rewrite elem_of_filter_bool. unfold is_some_and, is_unresolved.
  destruct (map_get id facts) as [f|]; [rewrite bool_decide_eq_true|]; naive_solver.
Qed.
Lemma elem_of_supporting id : id ∈ supporting_of <-> id ∈ selected_facts st /\ id ∉ unresolved_of.
Proof.
  unfold supporting_of. rewrite elem_of_filter_bool, andb_true_iff, !negb_true_iff, elemb_false, set_contains_false.
  split; [naive_solver|]. intros [Hid Hun]. split_and!; [done| |done]. by apply (w_disjoint _ _ _ _ _ Hst).
Qed.
Lemma supporting_sorted : StronglySorted lt supporting_of.
Proof. apply filter_sorted, Hst. Qed.
Lemma unresolved_sorted : StronglySorted lt unresolved_of.
Proof. apply filter_sorted, Hst. Qed.
Lemma anchor_supporting : fact_id anchor ∈ supporting_of.
Proof.
  apply elem_of_supporting. split; [apply Hst|]. intros [_ (f & Hf & Hk)]%elem_of_unresolved.
  rewrite Hanchor in Hf. injection Hf as <-. unfold is_anchor in His. by rewrite Hk in His.
Qed.
Lemma elem_of_packet_facts id :
  id ∈ set_of_list (supporting_of ++ contradiction_ids st ++ unresolved_of) <-> known st id.
Proof.
  rewrite elem_of_set_of_list, !elem_of_app, elem_of_supporting. unfold known.
  destruct (decide (id ∈ unresolved_of)) as [Hu|Hu]; [|naive_solver].
  pose proof Hu as [Hs _]%elem_of_unresolved. naive_solver.
Qed.
(** An edge the walk selected that leads to a fact left unresolved is marked. *)
Lemma unresolved_touched id : id ∈ unresolved_of -> exists e, e ∈ ordered /\ fact_edge_id e ∈ selected_edges st /\
  is_unresolved_edge e = true /\ touches_fact id e = true.
Proof.
  intros [Hid (f & Hf & Hk)]%elem_of_unresolved.
  destruct (w_support _ _ _ _ _ Hst id Hid) as (e & He & Hsel & Ht).
  { intros ->. rewrite Hanchor in Hf. injection Hf as <-. unfold is_anchor in His. by rewrite Hk in His. }
  exists e. split_and!; [done..| |done]. apply touches_iff in Ht as [<-| <-].
  - by destruct (em_from _ _ Hmarked e f He Hf).
  - by apply (em_to _ _ Hmarked e f He Hf).
Qed.
Lemma marked_edge_unresolved e : e ∈ ordered -> fact_edge_id e ∈ selected_edges st -> is_unresolved_edge e = true ->
  to_fact_id e ∈ unresolved_of.
Proof.
  intros He Hsel Hun. destruct (Hends e He) as [_ [f Hf]%map_get_is_Some].
  pose proof Hun as Hk%(em_to _ _ Hmarked e f He Hf). apply elem_of_unresolved. split; [|eauto].
  destruct (w_edges _ _ _ _ _ Hst _ Hsel) as (e' & He' & Hid & _ & Hto).
  assert (e' = e) as ->.
  { assert (map_get (fact_edge_id e) edges_by_id = Some e) as H1 by by apply Hedges.
    assert (map_get (fact_edge_id e) edges_by_id = Some e') as H2 by by apply Hedges. congruence. }
  destruct Hto as [Hto|Hto]; [done|]. exfalso.
  destruct (w_contra _ _ _ _ _ Hst _ Hto) as (c & Hc & _ & Hcontra & Ht).
  pose proof (em_contradiction _ _ Hmarked c Hc Hcontra) as Hno. apply touches_iff in Ht as [Ht|Ht].
  - rewrite <- Ht in Hf. by apply (em_from _ _ Hmarked c f Hc Hf).
  - rewrite <- Ht in Hf. apply (em_to _ _ Hmarked c f Hc Hf) in Hk. congruence.
Qed.

Definition lookup : list string -> list ArchaeologyFact := omap (fun id => map_get id facts).
Definition walked : list ArchaeologyFactEdge := omap (fun id => map_get id edges_by_id) (selected_edges st).
Definition reasons_of : list string :=
  let reasons := set_of_list (map categorical_unresolved_reason (omap unresolved_reason walked)) in
  if negb (is_nil unresolved_of) && is_nil reasons then ["unresolved_reference"%string] else reasons.
Definition classified : ArchaeologyRuleKind * bool :=
  classify anchor (List.filter (is_uncontradicted (fact_id anchor) walked) (lookup supporting_of)).
Definition made_packet (id : string) (evidence : list string) : ArchaeologyEvidencePacket := {|
  packet_id := id; packet_kind := fst classified; anchor_fact_id := fact_id anchor;
  packet_supporting_fact_ids := supporting_of; packet_contradicting_fact_ids := contradiction_ids st;
  relationship_ids := selected_edges st; packet_evidence_span_ids := evidence;
  unresolved_fact_ids := unresolved_of; unresolved_reasons := reasons_of;
  packet_confidence := packet_confidence_of (snd classified) (negb (is_nil unresolved_of))
    (negb (is_nil (contradiction_ids st))) (truncated st);
  packet_caveats := packet_caveats_of (snd classified) (negb (is_nil unresolved_of))
    (negb (is_nil (contradiction_ids st))) (truncated st) |}.

Lemma elem_of_lookup ids f : f ∈ lookup ids <-> fact_id f ∈ ids /\ map_get (fact_id f) facts = Some f.
Proof.
  unfold lookup. rewrite list_elem_of_omap. split.
  - intros (id & Hid & Hf). pose proof (Hfacts _ _ Hf) as <-. done.
  - intros [Hid Hf]. eauto.
Qed.
Lemma reasons_nil : is_nil reasons_of = is_nil unresolved_of.
Proof.
  unfold reasons_of. cbn zeta. destruct (is_nil unresolved_of) eqn:Hun; cbn [negb andb].
  - rewrite is_nil_filter_set. apply is_nil_true in Hun.
    destruct (omap unresolved_reason walked) as [|r l] eqn:E; [done|]. exfalso.
    assert (r ∈ omap unresolved_reason walked) as (e & [He Hsel]%elem_of_walked & Hr)%list_elem_of_omap by (rewrite E; left).
    assert (is_unresolved_edge e = true) as Hmark by (unfold is_unresolved_edge; rewrite Hr; apply orb_true_r).
    pose proof (marked_edge_unresolved e He Hsel Hmark) as Hin. rewrite Hun in Hin. by apply not_elem_of_nil in Hin.
  - by case_match.
Qed.
Lemma reasons_categorical r : r ∈ reasons_of ->
  r ∈ ["ambiguous_reference"; "unavailable_reference"; "unresolved_reference"]%string.
Proof.
  unfold reasons_of. cbn zeta. case_match; [intros ->%list_elem_of_singleton; right; right; left|].
  intros (v & -> & _)%elem_of_set_of_list%list_elem_of_fmap. unfold categorical_unresolved_reason.
  case_match; [left|]. case_match; [right; left|right; right; left].
Qed.
Lemma evidence_exact : set_of_list
    (concat (map fact_span_ids (lookup (set_of_list (supporting_of ++ contradiction_ids st ++ unresolved_of))))
     ++ concat (map fact_edge_evidence_span_ids walked))
  = set_of_list (concat (map fact_span_ids (lookup (selected_facts st) ++ lookup (contradiction_ids st))
     ++ map fact_edge_evidence_span_ids walked)).
Proof.
  apply set_of_list_ext. intros span. rewrite map_app, !concat_app, !elem_of_app, !elem_of_concat_map.
  setoid_rewrite elem_of_lookup. setoid_rewrite elem_of_packet_facts. unfold known. naive_solver.
Qed.
Lemma evidence_known span : span ∈ set_of_list (concat (map fact_span_ids (lookup (selected_facts st)
    ++ lookup (contradiction_ids st)) ++ map fact_edge_evidence_span_ids walked)) -> span ∈ spans.
Proof.
  rewrite elem_of_set_of_list, map_app, !concat_app, !elem_of_app, !elem_of_concat_map.
  intros [[(f & Hs & [_ Hf]%elem_of_lookup)|(f & Hs & [_ Hf]%elem_of_lookup)]|(e & Hs & [He _]%elem_of_walked)]; eauto.
Qed.

Lemma packet_known id evidence :
  evidence = set_of_list (concat (map fact_span_ids (lookup (selected_facts st)
    ++ lookup (contradiction_ids st)) ++ map fact_edge_evidence_span_ids walked)) ->
  packet_ids_are_known (made_packet id evidence) facts edges_by_id spans = true.
Proof.
  intros Hev. assert (StronglySorted lt evidence) as Hevs by (rewrite Hev; apply set_of_list_sorted).
  pose proof supporting_sorted as Hss. pose proof unresolved_sorted as Hus.
  pose proof (w_contradictions_sorted _ _ _ _ _ Hst) as Hcs. pose proof (w_edges_sorted _ _ _ _ _ Hst) as Hes.
  unfold packet_ids_are_known. cbn [made_packet packet_supporting_fact_ids packet_contradicting_fact_ids
    unresolved_fact_ids relationship_ids packet_evidence_span_ids anchor_fact_id packet_kind unresolved_reasons packet_confidence].
  rewrite !(sorted_set_of_list supporting_of), !(sorted_set_of_list (contradiction_ids st)),
    !(sorted_set_of_list unresolved_of), !(sorted_set_of_list (selected_edges st)), !(sorted_set_of_list evidence) by done.
  fold walked. fold (lookup supporting_of).
  change (omap (fun id => map_get id facts) ?l) with (lookup l).
  rewrite Hanchor. fold classified. destruct classified as [kind derived] eqn:Hclass. cbn [fst snd].
  rewrite !is_distinct_sorted by done. rewrite evidence_exact, <- Hev, reasons_nil.
  destruct (caveats_exact derived (negb (is_nil unresolved_of)) (negb (is_nil (contradiction_ids st))) (truncated st))
    as (Hk & Hu & Hc & Ht & _).
  unfold has_caveat. cbn [made_packet packet_caveats]. rewrite Hclass. cbn [snd]. rewrite Hk, Hu, Hc, Ht.
  repeat (apply andb_true_iff; split); try apply forallb_elem; try (apply bool_decide_eq_true_2; done); try done.
  - intros x [Hx _]%elem_of_supporting. apply negb_true_iff, elemb_false. by apply (w_disjoint _ _ _ _ _ Hst).
  - intros x [_ Hx]%elem_of_supporting. by apply negb_true_iff, elemb_false.
  - intros x Hx. apply negb_true_iff, elemb_false. intros [Hs _]%elem_of_unresolved. by apply (w_disjoint _ _ _ _ _ Hst x).
  - intros x [Hx _]%elem_of_supporting. apply map_contains_key_true, (w_known _ _ _ _ _ Hst). by left.
  - intros x Hx. apply map_contains_key_true, (w_known _ _ _ _ _ Hst). by right.
  - intros x [_ (f & -> & Hf)]%elem_of_unresolved. by apply bool_decide_eq_true_2.
  - intros x Hx. destruct (w_edges _ _ _ _ _ Hst x Hx) as (e & He & Hid & _).
    apply map_contains_key_true, map_get_is_Some. exists e. by apply Hedges.
  - intros x Hx. apply set_contains_true. rewrite Hev in Hx. by apply evidence_known.
  - intros e [He Hsel]%elem_of_walked. destruct (w_edges _ _ _ _ _ Hst _ Hsel) as (e' & He' & Hid & Hf & Hto).
    assert (e' = e) as ->.
    { assert (map_get (fact_edge_id e) edges_by_id = Some e) as H1 by by apply Hedges.
      assert (map_get (fact_edge_id e) edges_by_id = Some e') as H2 by by apply Hedges. congruence. }
    apply andb_true_iff. by rewrite !set_contains_true, !elem_of_packet_facts.
  - intros x [Hx _]%elem_of_supporting. apply orb_true_iff. destruct (decide (x = fact_id anchor)) as [->|Hne];
      [left; by apply seqb_true|right]. destruct (w_support _ _ _ _ _ Hst x Hx Hne) as (e & He & Hsel & Hte).
    apply any_true. exists e. split; [by apply elem_of_walked|done].
  - intros x Hx. destruct (w_contra _ _ _ _ _ Hst x Hx) as (e & He & Hsel & Hce & Hte).
    apply any_true. exists e. split; [by apply elem_of_walked|]. by rewrite Hce.
  - intros x Hx. destruct (unresolved_touched x Hx) as (e & He & Hsel & Hue & Hte).
    apply any_true. exists e. split; [by apply elem_of_walked|]. by rewrite Hue.
  - by destruct derived.
  - by destruct (is_nil unresolved_of).
  - by destruct (is_nil (contradiction_ids st)).
  - by destruct (is_nil unresolved_of).
Qed.
Lemma packet_valid repository_id revision_sha evidence :
  evidence = set_of_list (concat (map fact_span_ids (lookup (selected_facts st)
    ++ lookup (contradiction_ids st)) ++ map fact_edge_evidence_span_ids walked)) ->
  (len evidence <= max_spans_per_packet limits)%N ->
  packet_is_valid repository_id revision_sha facts edges_by_id spans limits
    (made_packet (expected_packet_id repository_id revision_sha (made_packet "" evidence)) evidence) = true.
Proof.
  intros Hev Hlen. unfold packet_is_valid. rewrite packet_known by done.
  cbn [made_packet packet_id packet_supporting_fact_ids anchor_fact_id relationship_ids packet_evidence_span_ids].
  pose proof anchor_supporting as Ha. pose proof (w_facts_bound _ _ _ _ _ Hst) as Hf.
  repeat (apply andb_true_iff; split); try done.
  - by apply seqb_true.
  - apply negb_true_iff, is_nil_false. intros Hnil. rewrite Hnil in Ha. by apply not_elem_of_nil in Ha.
  - by apply elemb_true.
  - apply N.leb_le. etrans; [|exact Hf]. unfold len, supporting_of.
    pose proof (filter_length_le (fun id => negb (set_contains id (contradiction_ids st)) && negb (elemb id unresolved_of))
      (selected_facts st)). lia.
  - apply N.leb_le, Hst.
  - by apply N.leb_le.
  - apply caveats_exact.
  - apply is_distinct_sorted. cbn [unresolved_reasons made_packet]. unfold reasons_of. cbn zeta.
    case_match; [repeat constructor|apply set_of_list_sorted].
  - apply forallb_elem. cbn [packet_caveats made_packet]. unfold packet_caveats_of, when. intros x Hx. apply elemb_true.
    repeat case_match; cbn in Hx; set_solver.
  - apply forallb_elem. intros r Hr. by apply elemb_true, reasons_categorical.
Qed.
End Anchor.
End Packet.

(** * All packets *)

(** A polling loop that inserts what is new into a table of its state. *)
Lemma insert_polled {S A K V} `{RustOrd K} (table : S -> BTreeMap K V) (key : A -> K) (value : A -> V) (ok : A -> Prop)
    (f : S -> A -> polling S) s0 l n s n' :
  (forall s x n s' n', f s x n = Ok (s', n') ->
    ok x /\ map_contains_key (key x) (table s) = false /\ table s' = map_insert (key x) (value x) (table s)) ->
  table s0 = [] -> for_each_polling f s0 l n = Ok (s, n') ->
  map_wf (table s) /\ Forall ok l /\ NoDup (map key l) /\
  forall k v, map_get k (table s) = Some v <-> exists x, x ∈ l /\ key x = k /\ value x = v.
Proof.
  intros Hf H0. apply (for_each_polling_inv (fun pre s => map_wf (table s) /\ Forall ok pre /\ NoDup (map key pre) /\
    forall k v, map_get k (table s) = Some v <-> exists x, x ∈ pre /\ key x = k /\ value x = v)).
  { rewrite H0. split_and!; [constructor|constructor|constructor|]. intros k v. split; [done|].
    by intros (x & ?%not_elem_of_nil & _). }
  intros pre x suf s1 s2 k k' _ (Hwf & Hok & Hnd & Hget) (Hx & Hnew & ->)%Hf.
  assert (forall v, map_get (key x) (table s1) <> Some v) as Hnone.
  { intros v Hv. assert (map_contains_key (key x) (table s1) = true) as Hc; [|congruence].
    apply map_contains_key_true, map_get_is_Some. by exists v. }
  split_and!; [by apply map_insert_wf|apply Forall_app; split; [done|by apply Forall_singleton]|..].
  - rewrite map_app. apply NoDup_app. split_and!; [done| |apply NoDup_singleton].
    intros j (y & -> & Hy)%list_elem_of_fmap Hj%list_elem_of_singleton.
    apply (Hnone (value y)), Hget. by exists y.
  - intros j v. rewrite map_get_insert by done.
    assert ((exists y, y ∈ pre ++ [x] /\ key y = j /\ value y = v) <->
      map_get j (table s1) = Some v \/ key x = j /\ value x = v) as ->.
    { rewrite Hget. setoid_rewrite elem_of_app. setoid_rewrite list_elem_of_singleton. naive_solver. }
    destruct (cmp j (key x)) eqn:E.
    1: apply cmp_eq_iff in E as ->; naive_solver.
    all: assert (key x <> j) by (intros <-; by rewrite cmp_refl in E); naive_solver.
Qed.
Lemma elem_of_enumerate_snd {A} (l : list A) x : (exists i, (i, x) ∈ enumerate_nat 0 l) <-> x ∈ l.
Proof. rewrite list_elem_of_lookup. by setoid_rewrite elem_of_enumerate. Qed.
Lemma map_snd_key {A B} (f : A -> B) (l : list A) : map (fun p => f (snd p)) (enumerate_nat 0 l) = map f l.
Proof. by rewrite <- (map_map snd f), map_snd_enumerate. Qed.

(** The tables both halves build agree with the input. *)
Record facts_ok (facts : list ArchaeologyFact) (by_id : BTreeMap string ArchaeologyFact) : Prop := {
  fo_wf : map_wf by_id;
  fo_get : forall id f, map_get id by_id = Some f <-> f ∈ facts /\ fact_id f = id;
  fo_ids : NoDup (map fact_id facts)
}.
Record edges_ok (edges : list ArchaeologyFactEdge) (by_id : BTreeMap string ArchaeologyFact)
    (edges_by_id : BTreeMap string ArchaeologyFactEdge) : Prop := {
  eo_wf : map_wf edges_by_id;
  eo_get : forall id e, map_get id edges_by_id = Some e <-> e ∈ edges /\ fact_edge_id e = id;
  eo_ids : NoDup (map fact_edge_id edges);
  eo_ends : forall e, e ∈ edges -> from_fact_id e ∈ map_keys by_id /\ to_fact_id e ∈ map_keys by_id;
  eo_evidence : forall e, e ∈ edges -> edge_evidence_matches_endpoints e by_id = true
}.
Lemma matches_ends e by_id : edge_evidence_matches_endpoints e by_id = true ->
  from_fact_id e ∈ map_keys by_id /\ to_fact_id e ∈ map_keys by_id.
Proof.
  unfold edge_evidence_matches_endpoints. rewrite <- !map_get_is_Some.
  destruct (map_get (from_fact_id e) by_id), (map_get (to_fact_id e) by_id); done.
Qed.
Lemma facts_table facts by_id : map_wf by_id -> NoDup (map (fun p => fact_id (snd p)) (enumerate_nat 0 facts)) ->
  (forall id f, map_get id by_id = Some f <-> exists p, p ∈ enumerate_nat 0 facts /\ fact_id (snd p) = id /\ snd p = f) ->
  facts_ok facts by_id.
Proof.
  intros Hwf Hnd Hget. split; [done| |by rewrite map_snd_key in Hnd]. intros id f. rewrite Hget. split.
  - intros ([i f'] & Hin & <- & <-). split; [|done]. apply elem_of_enumerate_snd. by exists i.
  - intros [(i & Hin)%elem_of_enumerate_snd <-]. by exists (i, f).
Qed.
Lemma index_fact_ok token facts n by_id n' :
  for_each_polling (index_fact token) [] (enumerate_nat 0 facts) n = Ok (by_id, n') -> facts_ok facts by_id.
Proof.
  intros H. eapply (insert_polled (fun s => s) (fun p => fact_id (snd p)) snd (fun _ => True)) in H as (Hwf & _ & Hnd & Hget); [|clear|done].
  - by apply facts_table.
  - intros s [i f] n s' n'. cbn [index_fact fst snd]. intros (u & n1 & _ & H)%polling_bind_Ok.
    case_match eqn:E; [done|]. apply mret_Ok in H as ->. by apply orb_false_iff in E as [_ E].
Qed.
Lemma index_edge_ok token by_id edges n edges_by_id n' :
  for_each_polling (index_edge token by_id) [] (enumerate_nat 0 edges) n = Ok (edges_by_id, n') ->
  edges_ok edges by_id edges_by_id /\
  forall e, e ∈ edges -> is_contradiction e = true -> from_fact_id e <> to_fact_id e.
Proof.
  intros H. eapply (insert_polled (fun s => s) (fun p => fact_edge_id (snd p)) snd (fun p =>
    is_dangling by_id (snd p) = false /\ edge_evidence_matches_endpoints (snd p) by_id = true)) in H
    as (Hwf & Hok & Hnd & Hget); [|clear|done].
  - assert (forall e, e ∈ edges -> is_dangling by_id e = false /\ edge_evidence_matches_endpoints e by_id = true) as Hall.
    { intros e [i Hin]%elem_of_enumerate_snd. eapply Forall_forall in Hok; [|exact Hin]. done. }
    split; [split; [done| |by rewrite map_snd_key in Hnd| |]|].
    + intros id e. rewrite Hget. split.
      * intros ([i e'] & Hin & <- & <-). split; [|done]. apply elem_of_enumerate_snd. by exists i.
      * intros [(i & Hin)%elem_of_enumerate_snd <-]. by exists (i, e).
    + intros e He. by apply matches_ends, Hall.
    + intros e He. by apply Hall.
    + intros e He Hc. destruct (Hall e He) as [[_ Hd]%orb_false_iff _]. rewrite Hc in Hd. by apply seqb_false in Hd.
  - intros s [i e] n s' n'. cbn [index_edge fst snd]. intros (u & n1 & _ & H)%polling_bind_Ok.
    case_match eqn:E; [done|]. apply mret_Ok in H as ->.
    apply orb_false_iff in E as [[[_ E1]%orb_false_iff E2%negb_false_iff]%orb_false_iff E3]. done.
Qed.

Lemma packet_for_anchor_made repository_id revision_sha anchor facts edges_by_id ordered limits packet :
  packet_for_anchor repository_id revision_sha anchor facts edges_by_id (index_edges ordered) limits = Ok packet ->
  exists st evidence, walk limits facts (index_edges ordered) (fact_id anchor) = Ok st /\
    for_each (extend_evidence (max_spans_per_packet limits)) []
      (map fact_span_ids (lookup facts (selected_facts st) ++ lookup facts (contradiction_ids st))
       ++ map fact_edge_evidence_span_ids (walked edges_by_id st)) = Ok evidence /\
    packet = made_packet facts edges_by_id anchor st
      (expected_packet_id repository_id revision_sha (made_packet facts edges_by_id anchor st "" evidence)) evidence.
Proof.
  intros (st & Hwalk & (evidence & Hev & Hp)%bind_Ok)%bind_Ok. exists st, evidence. split_and!; [done|done|].
  revert Hp. fold (walked edges_by_id st). fold (lookup facts (selected_facts st)).
  unfold made_packet, classified, reasons_of, supporting_of, lookup. destruct (classify _ _) as [kind derived].
  cbn [fst snd]. intros [= <-]. reflexivity.
Qed.

(** The packets a derivation made: one per anchor, sorted by their ids. *)
Lemma derived_packets token json_packet repository_id revision_sha facts edges limits n packets n' :
  derive_evidence_packets token json_packet repository_id revision_sha facts edges limits n = Ok (packets, n') ->
  exists by_id edges_by_id made,
    facts_ok facts by_id /\ edges_ok (sort_by_key fact_edge_id edges) by_id edges_by_id /\
    (max_facts_per_packet limits =? 0)%N = false /\
    Forall2 (fun anchor p => packet_for_anchor repository_id revision_sha anchor by_id edges_by_id
      (index_edges (sort_by_key fact_edge_id edges)) limits = Ok p) (List.filter is_anchor facts) made /\
    packets = sort_by_key packet_id made.
Proof.
  unfold derive_evidence_packets. intros (u & n1 & _ & H)%polling_bind_Ok. destruct (_ || _) eqn:Hscope in H; [done|].
  apply orb_false_iff in Hscope as [[_ Hmax]%orb_false_iff _]. case_match; [done|].
  apply polling_bind_Ok in H as (input & n2 & _ & H). case_match; [done|].
  apply polling_bind_Ok in H as (by_id & n3 & Hfacts%index_fact_ok & H).
  apply polling_bind_Ok in H as (edges_by_id & n4 & [Hedges _]%index_edge_ok & H). case_match; [done|].
  apply polling_bind_Ok in H as (st & n5 & Hst & H).
  apply polling_bind_Ok in H as (u' & n6 & _ & ->%mret_Ok).
  exists by_id, edges_by_id, (fst st). split_and!; [done..| |done].
  revert Hst. apply (for_each_polling_inv (fun pre st => Forall2 (fun anchor p => packet_for_anchor repository_id
    revision_sha anchor by_id edges_by_id (index_edges (sort_by_key fact_edge_id edges)) limits = Ok p) pre (fst st)));
    [constructor|].
  intros pre anchor suf s1 s2 k k' _ Hpre (u0 & k1 & _ & Hstep)%polling_bind_Ok.
  apply polling_bind_Ok in Hstep as (p & k2 & (p' & Hp & [= -> _])%lift_Ok & Hstep).
  apply polling_bind_Ok in Hstep as (size & k3 & _ & Hstep). cbn zeta in Hstep. case_match; [done|].
  apply mret_Ok in Hstep as ->. cbn [fst]. by apply Forall2_app; [|constructor].
Qed.

(** ** The tables the renderer builds *)

Lemma spans_step (pre : list (nat * ArchaeologyFact)) i f spans :
  spans = set_of_list (concat (map (fun p => fact_span_ids (snd p)) pre)) ->
  foldl (fun spans id => set_insert id spans) spans (fact_span_ids f)
  = set_of_list (concat (map (fun p => fact_span_ids (snd p)) (pre ++ [(i, f)]))).
Proof.
  intros ->. rewrite map_app, concat_app. unfold set_of_list. rewrite foldl_app. cbn [map concat snd]. by rewrite app_nil_r.
Qed.
Lemma index_template_fact_ok token facts n tables n' :
  for_each_polling (index_template_fact token) ([], []) (enumerate_nat 0 facts) n = Ok (tables, n') ->
  facts_ok facts (fst tables) /\ snd tables = set_of_list (concat (map fact_span_ids facts)).
Proof.
  assert (forall s i f k s' k', index_template_fact token s (i, f) k = Ok (s', k') ->
    map_contains_key (fact_id f) (fst s) = false /\
    s' = (map_insert (fact_id f) f (fst s), foldl (fun spans id => set_insert id spans) (snd s) (fact_span_ids f))) as Hstep.
  { intros s i f k s' k'. cbn [index_template_fact]. intros (u & n1 & _ & H)%polling_bind_Ok.
    case_match eqn:E; [done|]. apply mret_Ok in H as ->. by apply orb_false_iff in E as [_ E]. }
  intros H. split.
  - eapply (insert_polled fst (fun p => fact_id (snd p)) snd (fun _ => True)) in H as (Hwf & _ & Hnd & Hget); [|clear H|done].
    + by apply facts_table.
    + intros s [i f] k s' k' [Hnew ->]%Hstep. done.
  - rewrite <- (map_snd_enumerate 0 facts), map_map. revert H.
    apply (for_each_polling_inv (fun pre st => snd st = set_of_list (concat (map (fun p => fact_span_ids (snd p)) pre))));
      [done|]. intros pre [i f] suf s1 s2 k k' _ Hs [_ ->]%Hstep. by apply spans_step.
Qed.
Lemma edges_table edges by_id edges_by_id : map_wf edges_by_id ->
  Forall (fun p => edge_evidence_matches_endpoints (snd p) by_id = true) (enumerate_nat 0 edges) ->
  NoDup (map (fun p => fact_edge_id (snd p)) (enumerate_nat 0 edges)) ->
  (forall id e, map_get id edges_by_id = Some e <->
    exists p, p ∈ enumerate_nat 0 edges /\ fact_edge_id (snd p) = id /\ snd p = e) ->
  edges_ok edges by_id edges_by_id.
Proof.
  intros Hwf Hok Hnd Hget.
  assert (forall e, e ∈ edges -> edge_evidence_matches_endpoints e by_id = true) as Hall.
  { intros e [i Hin]%elem_of_enumerate_snd. eapply Forall_forall in Hok; [|exact Hin]. done. }
  split; [done| |by rewrite map_snd_key in Hnd| |done].
  - intros id e. rewrite Hget. split.
    + intros ([i e'] & Hin & <- & <-). split; [|done]. apply elem_of_enumerate_snd. by exists i.
    + intros [(i & Hin)%elem_of_enumerate_snd <-]. by exists (i, e).
  - intros e He. by apply matches_ends, Hall.
Qed.
Lemma index_template_edge_ok token by_id edges n edges_by_id n' :
  for_each_polling (index_template_edge token by_id) [] (enumerate_nat 0 edges) n = Ok (edges_by_id, n') ->
  edges_ok edges by_id edges_by_id.
Proof.
  intros H. eapply (insert_polled (fun s => s) (fun p => fact_edge_id (snd p)) snd (fun p =>
    edge_evidence_matches_endpoints (snd p) by_id = true)) in H as (Hwf & Hok & Hnd & Hget); [|clear|done].
  - by apply edges_table.
  - intros s [i e] k s' k'. cbn [index_template_edge fst snd]. intros (u & n1 & _ & H)%polling_bind_Ok.
    case_match eqn:E; [done|]. apply mret_Ok in H as ->.
    by apply orb_false_iff in E as [[_ E2%negb_false_iff]%orb_false_iff E3].
Qed.
(** Both halves build the same tables. *)
Lemma facts_ok_unique facts m1 m2 : facts_ok facts m1 -> facts_ok facts m2 -> m1 = m2.
Proof.
  intros [H1 G1 _] [H2 G2 _]. apply map_ext_get; [done..|]. intros id.
  destruct (map_get id m1) as [f|] eqn:E; [symmetry; apply G2, G1, E|].
  destruct (map_get id m2) as [f|] eqn:E2; [|done]. by apply G2, G1 in E2 as <-.
Qed.
Lemma edges_ok_unique edges edges' by_id m1 m2 :
  edges ≡ₚ edges' -> edges_ok edges by_id m1 -> edges_ok edges' by_id m2 -> m1 = m2.
Proof.
  intros Hp [H1 G1 _ _ _] [H2 G2 _ _ _]. setoid_rewrite <- Hp in G2. apply map_ext_get; [done..|]. intros id.
  destruct (map_get id m1) as [e|] eqn:E; [symmetry; apply G2, G1, E|].
  destruct (map_get id m2) as [e|] eqn:E2; [|done]. by apply G2, G1 in E2 as <-.
Qed.
Lemma edge_spans_known facts edges by_id edges_by_id e span :
  facts_ok facts by_id -> edges_ok edges by_id edges_by_id -> e ∈ edges -> span ∈ fact_edge_evidence_span_ids e ->
  span ∈ set_of_list (concat (map fact_span_ids facts)).
Proof.
  intros Hf He Hin Hspan. pose proof (eo_evidence _ _ _ He e Hin) as Hm. revert Hm. unfold edge_evidence_matches_endpoints.
  destruct (map_get (from_fact_id e) by_id) as [from|] eqn:E1; [|done].
  destruct (map_get (to_fact_id e) by_id) as [to|] eqn:E2; [|done].
  apply (fo_get _ _ Hf) in E1 as [E1 _], E2 as [E2 _]. intros Heq%bool_decide_eq_true.
  assert (span ∈ set_of_list (fact_edge_evidence_span_ids e)) as Hs by by apply elem_of_set_of_list.
  rewrite Heq in Hs. apply elem_of_set_of_list, elem_of_app in Hs. apply elem_of_set_of_list, elem_of_concat_map.
  destruct Hs; eauto.
Qed.
