(* ===== verification/PacketTheorems.v ===== *)
(** What the derivation of evidence packets in [Packets] guarantees: the
    renderer of [TemplateRules] accepts every packet, a packet that says nothing
    of truncation holds all there is around its anchor and nothing further away,
    and both halves return within their bounds, cancelled or not. *)
From S2P Require Import Prelude Ordering Entries RustText GraphTypes SecretPolicy Contracts Adapter Packets TemplateRules PacketProps.
Local Open Scope nat_scope.

(** * The packets are accepted *)

(** Relationships to unresolved facts are marked as such, and only those.  The
    linker adds no others; the emission protocol compares the mark of a
    relationship with its reason, not with the fact it leads to. *)
Record marked (facts : list ArchaeologyFact) (edges : list ArchaeologyFactEdge) : Prop := {
  mk_from : forall e f, e ∈ edges -> f ∈ facts -> fact_id f = from_fact_id e -> fact_kind f <> FactUnresolved;
  mk_to : forall e f, e ∈ edges -> f ∈ facts -> fact_id f = to_fact_id e ->
    is_unresolved_edge e = true <-> fact_kind f = FactUnresolved;
  mk_contradiction : forall e, e ∈ edges -> is_contradiction e = true -> is_unresolved_edge e = false
}.
(** An answer is not the failure [message]. *)
Definition spared {A} (message : string) (o : outcome A) : Prop := o <> Err message.
Section Spared.
Context (message : string).
Lemma spared_bind {A B} (m : outcome A) (f : A -> outcome B) :
  spared message m -> (forall a, m = Ok a -> spared message (f a)) -> spared message (m ≫= f).
Proof. unfold spared. destruct m as [a|e|w]; cbn; [auto|congruence|done]. Qed.
Notation spared := (spared message).
Lemma spared_polling_bind {A B} (m : polling A) (f : A -> polling B) n :
  spared (m n) -> (forall a n', m n = Ok (a, n') -> spared (f a n')) -> spared ((m ≫= f) n).
Proof. intros Hm Hf. apply spared_bind; [done|]. intros [a n'] Ha. by apply Hf. Qed.
Lemma spared_lift {A} (m : outcome A) n : spared m -> spared (lift m n).
Proof. intros Hm. apply spared_bind; done. Qed.
Lemma spared_index {A} (m : option A) : spared (index_or_panic m).
Proof. by destruct m. Qed.
Lemma spared_ok_or {A} (m : option A) e : e <> message -> spared (ok_or m e).
Proof. destruct m; [done|]. by intros He [= ?]. Qed.
Lemma spared_poll token e n : e <> message -> spared (poll token e n).
Proof. unfold poll. case_match; [|done]. by intros He [= ?]. Qed.
Lemma spared_poll_every token e period i n : e <> message -> spared (poll_every token e period i n).
Proof. unfold poll_every. case_match; [apply spared_poll|done]. Qed.
Lemma spared_for_all {A} (f : A -> outcome unit) l : (forall x, spared (f x)) -> spared (for_all f l).
Proof.
  intros Hf. induction l as [|x l IH]; cbn [for_all]; [done|]. apply spared_bind; [done|]. by intros [] _.
Qed.
(** A loop whose invariant keeps its steps from failing that way. *)
Lemma spared_for_each {S A} (P : list A -> S -> Prop) (f : S -> A -> polling S) l s n :
  P [] s -> (forall pre x suf s k, l = pre ++ x :: suf -> P pre s -> spared (f s x k)) ->
  (forall pre x suf s k s' k', l = pre ++ x :: suf -> P pre s -> f s x k = Ok (s', k') -> P (pre ++ [x]) s') ->
  spared (for_each_polling f s l n).
Proof.
  intros H0 Hf Hstep. enough (forall suf pre s n, l = pre ++ suf -> P pre s -> spared (for_each_polling f s suf n)) as Hall
    by by apply (Hall l []).
  clear s n H0. induction suf as [|x suf IH]; intros pre s n Hl Hs; cbn [for_each_polling]; [done|].
  apply spared_polling_bind; [by eapply Hf|]. intros s' n' Hs'.
  apply (IH (pre ++ [x])); [by rewrite <- app_assoc|]. by eapply Hstep.
Qed.
Lemma spared_loop {S A} (f : S -> A -> polling S) l s n :
  (forall s x k, spared (f s x k)) -> spared (for_each_polling f s l n).
Proof. intros Hf. by apply (spared_for_each (fun _ _ => True)). Qed.
End Spared.
Ltac sparing := repeat first
  [ done | apply spared_polling_bind; [|intros] | apply spared_bind; [|intros] | apply spared_lift
  | apply spared_index | apply spared_ok_or; discriminate | apply spared_poll; discriminate
  | apply spared_poll_every; discriminate | apply spared_loop; intros
  | match goal with |- spared _ (match ?c with _ => _ end) => destruct c end
  | match goal with |- spared _ ((match ?c with _ => _ end) _) => destruct c end
  | match goal with |- spared _ (Err _) => discriminate end ].

Definition INVALID_PACKET : string := "Archaeology template packet is invalid".
Lemma merge_spared clauses clause : spared INVALID_PACKET (merge_rendered_clause clauses clause).
Proof.
  induction clauses as [|c l IH]; cbn [merge_rendered_clause]; [done|]. unfold merge_clause. by sparing.
Qed.
Lemma render_rule_spared token repository_id generation_id revision_sha coverage parser algorithm limits packet facts edges n :
  spared INVALID_PACKET (render_rule token repository_id generation_id revision_sha coverage parser algorithm limits
    packet facts edges n).
Proof.
  unfold render_rule, anchor_clause, bounded_text. sparing.
  - unfold render_relationship, contradiction_clause, relationship_clause, bounded_text, merge_optional. sparing.
    all: apply merge_spared.
  - unfold ArchaeologyRulePacket_validate, validate_revision_sha, ArchaeologyRuleClause_validate. sparing.
    apply spared_for_all. intros. sparing.
Qed.
Section Accepted.
Context (repository_id revision_sha : string) (facts : list ArchaeologyFact) (edges : list ArchaeologyFactEdge).
Context (limits : ArchaeologyDeterministicLimits) (by_id : BTreeMap string ArchaeologyFact).
Context (edges_by_id : BTreeMap string ArchaeologyFactEdge).
Notation ordered := (sort_by_key fact_edge_id edges).
Context (Hfacts : facts_ok facts by_id) (Hedges : edges_ok ordered by_id edges_by_id).
Context (Hmax : (max_facts_per_packet limits =? 0)%N = false).

Lemma elem_of_ordered e : e ∈ ordered <-> e ∈ edges.
Proof. by rewrite sort_by_key_Permutation. Qed.
Lemma walk_of_anchor anchor : anchor ∈ facts ->
  exists st, walk limits by_id (index_edges ordered) (fact_id anchor) = Ok st /\
    walk_ok limits by_id ordered (fact_id anchor) st.
Proof.
  intros Ha. apply walk_exists; [apply Hedges| |done].
  apply map_get_is_Some. exists anchor. by apply (fo_get _ _ Hfacts).
Qed.
Lemma made_packet_valid anchor packet :
  marked facts edges -> anchor ∈ facts -> is_anchor anchor = true ->
  packet_for_anchor repository_id revision_sha anchor by_id edges_by_id (index_edges ordered) limits = Ok packet ->
  packet_is_valid repository_id revision_sha by_id edges_by_id (set_of_list (concat (map fact_span_ids facts))) limits
    packet = true.
Proof.
  intros Hmarked Hin Hanchor (st & evidence & Hwalk & [Hev Hlen]%extend_evidence_Ok & ->)%packet_for_anchor_made.
  destruct (walk_of_anchor anchor Hin) as (st' & Hst' & Hok). rewrite Hwalk in Hst'. injection Hst' as <-.
  apply (packet_valid limits by_id edges_by_id ordered); try done.
  - apply Hedges.
  - by intros id f [_ Hid]%(fo_get _ _ Hfacts).
  - apply Hedges.
  - intros id f span [Hf _]%(fo_get _ _ Hfacts) Hspan. apply elem_of_set_of_list, elem_of_concat_map. eauto.
  - intros e span He. by apply (edge_spans_known _ _ _ _ _ _ Hfacts Hedges).
  - split.
    + intros e f He%elem_of_ordered [Hf Hid]%(fo_get _ _ Hfacts). by apply (mk_from _ _ Hmarked e f).
    + intros e f He%elem_of_ordered [Hf Hid]%(fo_get _ _ Hfacts). by apply (mk_to _ _ Hmarked e f).
    + intros e He%elem_of_ordered. by apply (mk_contradiction _ _ Hmarked).
  - by apply (fo_get _ _ Hfacts).
Qed.
End Accepted.

(** Packets that are valid and distinct are never refused. *)
Lemma render_packets_spared token json_rule repository_id generation_id revision_sha coverage parser algorithm limits
    facts edges spans packets k :
  (forall p, p ∈ packets -> packet_is_valid repository_id revision_sha facts edges spans limits p = true) ->
  NoDup (map packet_id packets) ->
  spared INVALID_PACKET (for_each_polling (render_packet token json_rule repository_id generation_id revision_sha coverage
    parser algorithm limits facts edges spans) {| packet_ids := []; rules := []; rendered_bytes := 2 |} packets k).
Proof.
  intros Hvalid Hids. apply (spared_for_each _ (fun pre st => forall id, id ∈ packet_ids st <-> id ∈ map packet_id pre)).
  - intros id. by rewrite !elem_of_nil.
  - intros pre p suf st k' -> Hst. unfold render_packet. apply spared_polling_bind; [sparing|intros _ n1 _].
    rewrite Hvalid by (apply elem_of_app; right; left).
    assert (set_contains (packet_id p) (packet_ids st) = false) as ->.
    { apply set_contains_false. rewrite Hst. intros Hin. rewrite map_app in Hids. apply NoDup_app in Hids as (_ & Hd & _).
      apply (Hd _ Hin). left. }
    cbn [negb orb]. apply spared_polling_bind; [apply render_rule_spared|intros rule n2 _]. sparing.
  - intros pre p suf st k' st' k'' -> Hst (u & n1 & _ & Hstep)%polling_bind_Ok. case_match; [done|].
    apply polling_bind_Ok in Hstep as (rule & n2 & _ & Hstep). apply polling_bind_Ok in Hstep as (size & n3 & _ & Hstep).
    cbn zeta in Hstep. case_match; [done|]. apply mret_Ok in Hstep as ->. intros id. cbn [packet_ids].
    rewrite elem_of_set_insert, Hst, map_app, elem_of_app. cbn [map]. rewrite list_elem_of_singleton. tauto.
Qed.

(** C24: the two halves agree under two conditions: where exactly the relationships
    to unresolved facts are marked as unresolved, none starts at one and no
    contradiction is marked ([marked]), and no two packets derived have one identity, the renderer does not refuse a packet the derivation
    made from the same facts and relationships under the same limits: identities,
    bounds, evidence, classification, caveats and confidence all check out against
    the tables it rebuilds.  Both are needed: the first is not enforced by the
    emission protocol, and [TemplateRules.ex_unmarked_refused] is a packet that is
    derived and refused without it. *)
Theorem derived_packets_accepted token json_packet repository_id revision_sha facts edges limits n packets n' :
  derive_evidence_packets token json_packet repository_id revision_sha facts edges limits n = Ok (packets, n') ->
  marked facts edges -> NoDup (map packet_id packets) ->
  forall token' json_rule generation_id coverage parser algorithm k,
    render_template_rules token' json_rule repository_id generation_id revision_sha coverage parser algorithm limits
      packets facts edges k <> Err "Archaeology template packet is invalid".
Proof.
  intros (by_id & edges_by_id & made & Hfacts & Hedges & Hmax & Hmade & ->)%derived_packets Hmarked Hids
    token' json_rule generation_id coverage parser algorithm k.
  change (spared INVALID_PACKET (render_template_rules token' json_rule repository_id generation_id revision_sha coverage
    parser algorithm limits (sort_by_key packet_id made) facts edges k)).
  unfold render_template_rules. apply spared_polling_bind; [sparing|intros _ n1 _]. case_match; [discriminate|].
  case_match; [discriminate|].
  apply spared_polling_bind; [unfold packet_input_bytes, sum_bytes; sparing|intros input n2 _].
  apply spared_polling_bind; [unfold evidence_packet_input_bytes, sum_bytes; sparing|intros evidence n3 _].
  case_match; [discriminate|].
  apply spared_polling_bind; [unfold index_template_fact; sparing|].
  intros tables n4 [Hf ->]%index_template_fact_ok. rewrite (facts_ok_unique _ _ _ Hf Hfacts).
  apply spared_polling_bind; [unfold index_template_edge; sparing|].
  intros edges' n5 He%index_template_edge_ok.
  rewrite (edges_ok_unique _ _ _ _ _ (Permutation_sym (sort_by_key_Permutation fact_edge_id edges)) He Hedges).
  apply spared_polling_bind; [apply render_packets_spared; [|done]|intros st n6 _; sparing].
  intros p Hp%elem_of_sort_by_key%list_elem_of_lookup_1.
  destruct Hp as [i Hp]. destruct (Forall2_lookup_r _ _ _ _ _ Hmade Hp) as (anchor & Ha & Hpacket).
  apply list_elem_of_lookup_2, elem_of_filter_bool in Ha as [Hin Hanchor].
  by apply (made_packet_valid _ _ _ edges _ _ _ Hfacts Hedges Hmax anchor).
Qed.
(** The example's run. *)
Example ex_packet_ids_distinct :
  (fun packets => bool_decide (NoDup (map packet_id packets))) <$> ex_packets ex_edges default_deterministic_limits = Ok true.
Proof. vm_compute. reflexivity. Qed.
Lemma ex_packets_run : exists packets n',
  derive_evidence_packets never_cancelled (fun _ => Some 100%N) ex_repository ex_sha ex_facts ex_edges
    default_deterministic_limits 0 = Ok (packets, n') /\ NoDup (map packet_id packets).
Proof.
  pose proof ex_packet_ids_distinct as H. unfold ex_packets in H.
  destruct (derive_evidence_packets _ _ _ _ _ _ _ _) as [[packets n']|e|w]; [|discriminate H..].
  exists packets, n'. split; [reflexivity|]. cbn [fmap outcome_fmap fst] in H. injection H as H. by apply bool_decide_eq_true in H.
Qed.
(** Membership in a list of the example, element by element. *)
Ltac each_of H tac :=
  repeat (apply elem_of_cons in H as [->|H]; [tac|]); by apply not_elem_of_nil in H.
Lemma ex_marked : marked ex_facts ex_edges.
Proof.
  split.
  - intros e f He Hf Hid. unfold ex_edges, ex_facts in *. each_of He ltac:(each_of Hf ltac:(done)).
  - intros e f He Hf Hid. unfold ex_edges, ex_facts in *. each_of He ltac:(each_of Hf ltac:(done)).
  - intros e He. unfold ex_edges in He. each_of He ltac:(done).
Qed.
Lemma derived_packets_accepted_witness : exists packets n',
  derive_evidence_packets never_cancelled (fun _ => Some 100%N) ex_repository ex_sha ex_facts ex_edges
    default_deterministic_limits 0 = Ok (packets, n') /\
  render_template_rules never_cancelled (fun _ => Some 100%N) ex_repository "gen" ex_sha ex_coverage "parser" "algorithm"
    default_deterministic_limits packets ex_facts ex_edges 0 <> Err "Archaeology template packet is invalid".
Proof.
  destruct ex_packets_run as (packets & n' & Hrun & Hids). exists packets, n'. split; [exact Hrun|].
  exact (derived_packets_accepted _ _ _ _ _ _ _ _ _ _ Hrun ex_marked Hids _ _ _ _ _ _ _).
Defined.

(** * What a packet holds *)

(** A fact one step from the anchor: what the anchor leads to, and what controls
    or computes it. *)
Inductive neighbour (edges : list ArchaeologyFactEdge) (anchor : string) : string -> Prop :=
| neighbour_out e :
    e ∈ edges -> leads_out e = true -> from_fact_id e = anchor -> neighbour edges anchor (to_fact_id e)
| neighbour_back e :
    e ∈ edges -> reverse_at_anchor (fact_edge_kind e) = true -> to_fact_id e = anchor ->
    neighbour edges anchor (from_fact_id e).
(** The relationships a packet may hold: those of the anchor and those of its
    neighbours. *)
Inductive around (edges : list ArchaeologyFactEdge) (anchor : string) : ArchaeologyFactEdge -> Prop :=
| around_contradiction e current :
    is_contradiction e = true -> touches_fact current e = true -> current = anchor \/ neighbour edges anchor current ->
    around edges anchor e
| around_out e :
    leads_out e = true -> from_fact_id e = anchor \/ neighbour edges anchor (from_fact_id e) -> around edges anchor e
| around_back e : reverse_at_anchor (fact_edge_kind e) = true -> to_fact_id e = anchor -> around edges anchor e.
(** The relationships a packet must hold unless it says it is truncated: all of
    the anchor's; the contradictions of a neighbour that is not itself set aside
    as contradicting; and what a neighbour no selected contradiction touches
    leads to. *)
Inductive required (edges : list ArchaeologyFactEdge) (p : ArchaeologyEvidencePacket) : ArchaeologyFactEdge -> Prop :=
| required_contradiction e :
    is_contradiction e = true -> touches_fact (anchor_fact_id p) e = true -> required edges p e
| required_out e : leads_out e = true -> from_fact_id e = anchor_fact_id p -> required edges p e
| required_back e :
    reverse_at_anchor (fact_edge_kind e) = true -> to_fact_id e = anchor_fact_id p -> required edges p e
| required_next_contradiction e current :
    is_contradiction e = true -> touches_fact current e = true -> neighbour edges (anchor_fact_id p) current ->
    current ∉ packet_contradicting_fact_ids p -> required edges p e
| required_next_out e :
    leads_out e = true -> neighbour edges (anchor_fact_id p) (from_fact_id e) ->
    from_fact_id e ∉ packet_contradicting_fact_ids p ->
    (forall c, c ∈ edges -> fact_edge_id c ∈ relationship_ids p -> is_contradiction c = true ->
      touches_fact (from_fact_id e) c = false) ->
    required edges p e.

Section Walk.
Context (limits : ArchaeologyDeterministicLimits) (facts : BTreeMap string ArchaeologyFact).
Context (ordered : list ArchaeologyFactEdge) (anchor : string).
Notation edges := (index_edges ordered).

(** From [st] to [st'] the walk looked at the relationships [l]. *)
Record extends (l : list ArchaeologyFactEdge) (st st' : packet_walk) : Prop := {
  xt_new : forall id, id ∈ selected_edges st' -> id ∈ selected_edges st \/ id ∈ map fact_edge_id l;
  xt_old : forall id, id ∈ selected_edges st -> id ∈ selected_edges st';
  xt_all : truncated st' = false -> truncated st = false /\ forall id, id ∈ map fact_edge_id l -> id ∈ selected_edges st';
  xt_contradictions : forall id, id ∈ contradiction_ids st -> id ∈ contradiction_ids st';
  xt_terminal : forall id, id ∈ contradiction_terminal_ids st' -> id ∈ contradiction_terminal_ids st \/
    exists e, e ∈ l /\ touches_fact id e = true /\ id <> anchor /\ fact_edge_id e ∈ selected_edges st'
}.
Lemma extends_refl st : extends [] st st.
Proof. split; auto. intros Ht. split; [done|]. by intros id ?%not_elem_of_nil. Qed.
Lemma extends_trans l1 l2 st1 st2 st3 : extends l1 st1 st2 -> extends l2 st2 st3 -> extends (l1 ++ l2) st1 st3.
Proof.
  intros [N1 O1 A1 C1 T1] [N2 O2 A2 C2 T2]. split; rewrite ?map_app; try setoid_rewrite elem_of_app; auto.
  - intros id [[|]%N1|]%N2; auto.
  - intros [[H1 H2]%A1 H3]%A2. split; [done|]. naive_solver.
  - intros id [[Hid|(e & He & H1 & H2 & H3)]%T1|(e & He & H1 & H2 & H3)]%T2; [by left|right; exists e..]; auto.
Qed.
(** A step on one relationship that gives up, does nothing new or selects it. *)
Lemma extends_cut e st : extends [e] st (cut st) /\ extends [e] st (cut (examine st)).
Proof. by repeat (split; auto). Qed.
Lemma extends_examine e st : fact_edge_id e ∈ selected_edges st -> extends [e] st (examine st).
Proof. intros He. split; cbn; auto. intros Ht. split; [done|]. by intros id ->%list_elem_of_singleton. Qed.
Lemma extends_truncated e st : truncated st = true -> extends [e] st st.
Proof. intros Ht. split; auto. congruence. Qed.
Lemma extends_select e st st' :
  truncated st' = truncated st -> selected_edges st' = set_insert (fact_edge_id e) (selected_edges st) ->
  (forall id, id ∈ contradiction_ids st -> id ∈ contradiction_ids st') ->
  (forall id, id ∈ contradiction_terminal_ids st' -> id ∈ contradiction_terminal_ids st \/ touches_fact id e = true /\ id <> anchor) ->
  extends [e] st st'.
Proof.
  intros Ht Hs Hc Htm. split; rewrite ?Hs, ?Ht; try done; cbn [map].
  - intros id [->|Hid]%elem_of_set_insert; [right; left|by left].
  - intros id Hid. apply elem_of_set_insert. by right.
  - intros Hf. split; [done|]. intros id ->%list_elem_of_singleton. apply elem_of_set_insert. by left.
  - intros id [Hid|[Hid Hne]]%Htm; [by left|right]. exists e. split_and!; [left|done..|]. apply elem_of_set_insert. by left.
Qed.
Lemma extends_same l st1 st2 st1' : selected_edges st1' = selected_edges st1 -> truncated st1' = truncated st1 ->
  contradiction_ids st1' = contradiction_ids st1 -> contradiction_terminal_ids st1' = contradiction_terminal_ids st1 ->
  extends l st1' st2 -> extends l st1 st2.
Proof. intros H1 H2 H3 H4 [N O A C T]. split; rewrite <- ?H1, <- ?H2, <- ?H3, <- ?H4; auto. Qed.

Lemma contradiction_step_extends snapshot st e st' :
  contradiction_step limits facts anchor snapshot st e = Ok st' -> extends [e] st st'.
Proof.
  unfold contradiction_step. case_match eqn:E1; [intros [= <-]; by apply extends_truncated|].
  case_match; [intros [= <-]; apply extends_cut|]. cbn zeta.
  case_match eqn:E2; [apply set_contains_true in E2; intros [= <-]; by apply extends_examine|].
  case_match; [intros [= <-]; apply extends_cut|]. intros (c & _ & [= <-])%bind_Ok.
  apply extends_select; [done|done| |].
  - intros id Hid. cbn [select_contradiction examine contradiction_ids]. case_match; [done|]. apply elem_of_set_insert. by right.
  - intros id. cbn [select_contradiction examine contradiction_terminal_ids foldl]. intros Hid.
    enough (id ∈ contradiction_terminal_ids st \/ (from_fact_id e = id \/ to_fact_id e = id) /\ id <> anchor) as [|[]]
      by (rewrite touches_iff; auto).
    revert Hid. destruct (seqb (from_fact_id e) anchor) eqn:H1, (seqb (to_fact_id e) anchor) eqn:H2;
      rewrite ?elem_of_set_insert; apply seqb_true in H1 || apply seqb_false in H1;
      apply seqb_true in H2 || apply seqb_false in H2; naive_solver.
Qed.
Lemma relation_step_extends depth (reverse : bool) st e :
  extends [e] st (relation_step limits depth reverse st e) /\
  contradiction_terminal_ids (relation_step limits depth reverse st e) = contradiction_terminal_ids st.
Proof.
  unfold relation_step. case_match eqn:E1; [split; [by apply extends_truncated|done]|].
  case_match; [split; [apply extends_cut|done]|]. cbn zeta.
  case_match eqn:E2; [apply set_contains_true in E2; split; [by apply extends_examine|done]|].
  case_match; [split; [apply extends_cut|done]|]. split; [|done]. apply extends_select; auto.
Qed.
Lemma for_each_extends snapshot l st st' :
  for_each (contradiction_step limits facts anchor snapshot) st l = Ok st' -> extends l st st'.
Proof.
  apply (for_each_inv (fun pre s => extends pre st s)); [apply extends_refl|].
  intros pre e suf s1 s2 _ H1 H2%contradiction_step_extends. by eapply extends_trans.
Qed.
Lemma foldl_extends depth (reverse : bool) l st :
  extends l st (foldl (relation_step limits depth reverse) st l) /\
  contradiction_terminal_ids (foldl (relation_step limits depth reverse) st l) = contradiction_terminal_ids st.
Proof.
  revert st. induction l as [|e l IH]; intros st; cbn [foldl]; [split; [apply extends_refl|done]|].
  destruct (relation_step_extends depth reverse st e) as [H1 H2], (IH (relation_step limits depth reverse st e)) as [H3 H4].
  split; [|congruence]. by apply (extends_trans [e] l _ _ _ H1).
Qed.

Definition contradictions_of (id : string) : list ArchaeologyFactEdge :=
  edges_of (outgoing_contradiction edges) id ++ edges_of (reverse_contradiction edges) id.
Definition relations_of (depth : N) (id : string) : list ArchaeologyFactEdge :=
  edges_of (outgoing edges) id ++ if (depth =? 0)%N then edges_of (reverse_control edges) id else [].
Lemma contradictions_extend snapshot frontier st st' :
  for_each (contradictions_at limits facts edges anchor snapshot) st frontier = Ok st' ->
  exists l, extends l st st' /\ (forall e, e ∈ l -> exists current, current ∈ frontier /\ e ∈ contradictions_of current) /\
    (forall current e, current ∈ frontier -> current ∉ contradiction_ids st' -> e ∈ contradictions_of current -> e ∈ l).
Proof.
  apply (for_each_inv (fun pre s => exists l, extends l st s /\
    (forall e, e ∈ l -> exists current, current ∈ pre /\ e ∈ contradictions_of current) /\
    (forall current e, current ∈ pre -> current ∉ contradiction_ids s -> e ∈ contradictions_of current -> e ∈ l))).
  { exists []. split_and!; [apply extends_refl|by intros e ?%not_elem_of_nil|by intros current e ?%not_elem_of_nil]. }
  intros pre current suf s1 s2 _ (l & Hl & Hin & Hall) Hstep.
  set (l' := if set_contains current (contradiction_ids s1) then [] else contradictions_of current).
  assert (extends l' s1 s2) as Hl'.
  { revert Hstep. unfold contradictions_at, l'. case_match; [intros [= <-]; apply extends_refl|apply for_each_extends]. }
  exists (l ++ l'). split_and!; [by eapply extends_trans| |].
  - intros e [(c & Hc & He)%Hin|He]%elem_of_app; [exists c; split; [|done]; apply elem_of_app; by left|].
    exists current. split; [apply elem_of_app; right; left|]. unfold l' in He. case_match; [|done]. by apply not_elem_of_nil in He.
  - intros c e [Hc|Hc]%elem_of_app Hno He; apply elem_of_app.
    + left. apply (Hall c); [done| |done]. contradict Hno. by apply (xt_contradictions _ _ _ Hl').
    + right. apply list_elem_of_singleton in Hc as ->. unfold l'. destruct (set_contains _ _) eqn:E; [|done].
      destruct Hno. apply set_contains_true in E. by apply (xt_contradictions _ _ _ Hl').
Qed.
Lemma relations_at_extends depth st current :
  contradiction_terminal_ids (relations_at limits edges depth st current) = contradiction_terminal_ids st /\
  exists l, extends l st (relations_at limits edges depth st current) /\
    l = if set_contains current (contradiction_terminal_ids st) then [] else relations_of depth current.
Proof.
  unfold relations_at, relations_of. destruct (set_contains _ _); [split; [done|]; exists []; split; [apply extends_refl|done]|].
  destruct (foldl_extends depth false (edges_of (outgoing edges) current) st) as [H1 H2]. destruct (depth =? 0)%N.
  - destruct (foldl_extends depth true (edges_of (reverse_control edges) current)
      (foldl (relation_step limits depth false) st (edges_of (outgoing edges) current))) as [H3 H4].
    split; [congruence|]. eexists. split; [|done]. by eapply extends_trans.
  - split; [done|]. eexists. split; [|done]. by rewrite app_nil_r.
Qed.
Lemma relations_extend depth frontier st :
  exists l, extends l st (foldl (relations_at limits edges depth) st frontier) /\
    (forall e, e ∈ l -> exists current, current ∈ frontier /\ e ∈ relations_of depth current) /\
    (forall current e, current ∈ frontier -> current ∉ contradiction_terminal_ids st -> e ∈ relations_of depth current -> e ∈ l).
Proof.
  revert st. induction frontier as [|current frontier IH]; intros st; cbn [foldl].
  { exists []. split_and!; [apply extends_refl|by intros e ?%not_elem_of_nil|by intros current e ?%not_elem_of_nil]. }
  destruct (relations_at_extends depth st current) as (Ht & l1 & H1 & Hl1).
  destruct (IH (relations_at limits edges depth st current)) as (l2 & H2 & Hin & Hall). rewrite Ht in Hall.
  exists (l1 ++ l2). split_and!; [by eapply extends_trans| |].
  - intros e [He|(c & Hc & He)%Hin]%elem_of_app; [exists current; split; [left|]|exists c; split; [by right|done]].
    subst l1. case_match; [by apply not_elem_of_nil in He|done].
  - intros c e [->|Hc]%elem_of_cons Hno He; apply elem_of_app; [left|right; by eapply Hall].
    subst l1. apply set_contains_false in Hno. by rewrite Hno.
Qed.
End Walk.

Section Holds.
Context (limits : ArchaeologyDeterministicLimits) (facts : BTreeMap string ArchaeologyFact).
Context (all ordered : list ArchaeologyFactEdge) (anchor : string).
Context (Hall : forall e, e ∈ ordered <-> e ∈ all) (Hids : NoDup (map fact_edge_id ordered)).
Context (Hends : forall e, e ∈ ordered -> from_fact_id e ∈ map_keys facts /\ to_fact_id e ∈ map_keys facts).
Context (Hanchor : anchor ∈ map_keys facts) (Hmax : (max_facts_per_packet limits =? 0)%N = false).
Notation edges := (index_edges ordered).

Lemma elem_of_contradictions_of id e : e ∈ contradictions_of ordered id <->
  e ∈ all /\ is_contradiction e = true /\ touches_fact id e = true.
Proof.
  unfold contradictions_of. cbn [index_edges outgoing_contradiction reverse_contradiction]. rewrite elem_of_app, !elem_of_edges_of, touches_iff, Hall.
  destruct (is_contradiction e); naive_solver.
Qed.
Lemma elem_of_relations_of depth id e : e ∈ relations_of ordered depth id <-> e ∈ all /\
  (leads_out e = true /\ from_fact_id e = id \/
   depth = 0%N /\ reverse_at_anchor (fact_edge_kind e) = true /\ to_fact_id e = id).
Proof.
  unfold relations_of. cbn [index_edges outgoing reverse_control]. rewrite elem_of_app. destruct (N.eqb_spec depth 0) as [->|Hd];
    rewrite ?elem_of_edges_of, ?elem_of_nil, ?Hall.
  - destruct (leads_out e), (reverse_at_anchor _); naive_solver.
  - destruct (leads_out e); naive_solver.
Qed.
Lemma same_edge e e' : e ∈ all -> e' ∈ all -> fact_edge_id e = fact_edge_id e' -> e = e'.
Proof. rewrite <- !Hall. by apply (key_identifies fact_edge_id ordered). Qed.

(** One level of the walk: what it looked at, and that it all is selected unless
    the walk was cut. *)
Lemma walk_depth_extends depth frontier st st' :
  walk_depth limits facts edges anchor depth frontier st = Ok st' ->
  exists l, extends anchor l st st' /\
    (forall e, e ∈ l -> exists current, current ∈ frontier /\
      (e ∈ contradictions_of ordered current \/ e ∈ relations_of ordered depth current)) /\
    (forall current e, current ∈ frontier -> current ∉ contradiction_ids st' -> e ∈ contradictions_of ordered current -> e ∈ l) /\
    (forall current e, current ∈ frontier -> current ∉ contradiction_terminal_ids st' -> e ∈ relations_of ordered depth current -> e ∈ l) /\
    (forall id, id ∈ contradiction_terminal_ids st' -> id ∈ contradiction_terminal_ids st \/
      id <> anchor /\ exists e, e ∈ all /\ is_contradiction e = true /\ touches_fact id e = true /\ fact_edge_id e ∈ selected_edges st').
Proof.
  intros (s & Hs & [= <-])%bind_Ok. apply contradictions_extend in Hs as (l1 & H1 & Hin1 & Hall1).
  destruct (relations_extend limits ordered anchor depth frontier s) as (l2 & H2 & Hin2 & Hall2).
  assert (contradiction_terminal_ids (foldl (relations_at limits edges depth) s frontier) = contradiction_terminal_ids s) as Hterm.
  { clear. revert s. induction frontier as [|x l IH]; intros s; cbn [foldl]; [done|]. rewrite IH.
    apply (relations_at_extends limits ordered EmptyString). }
  exists (l1 ++ l2). rewrite Hterm. split_and!.
  - apply (extends_same _ _ _ _ (new_depth st)); [done..|]. by eapply extends_trans.
  - intros e [(c & Hc & He)%Hin1|(c & Hc & He)%Hin2]%elem_of_app; exists c; auto.
  - intros c e Hc Hno He. apply elem_of_app. left. apply (Hall1 c); [done| |done]. contradict Hno.
    by apply (xt_contradictions _ _ _ _ H2).
  - intros c e Hc Hno He. apply elem_of_app. right. by apply (Hall2 c).
  - intros id [Hid|(e & He & Ht & Hne & Hsel)]%(xt_terminal _ _ _ _ H1); [by left|right]. split; [done|]. exists e.
    apply Hin1 in He as (c & _ & (Hin & Hc & _)%elem_of_contradictions_of). split_and!; try done.
    by apply (xt_old _ _ _ _ H2).
Qed.

Lemma level_pick e l d (frontier : list string) : e ∈ all ->
  (forall e, e ∈ l -> exists current, current ∈ frontier /\
    (e ∈ contradictions_of ordered current \/ e ∈ relations_of ordered d current)) ->
  fact_edge_id e ∈ map fact_edge_id l ->
  exists c, c ∈ frontier /\ (e ∈ contradictions_of ordered c \/ e ∈ relations_of ordered d c).
Proof.
  intros He Hl (e' & Heq & He')%list_elem_of_fmap. destruct (Hl e' He') as (c & Hc & Hin). exists c.
  rewrite (same_edge e e'); [done..| |done]. destruct Hin as [[]%elem_of_contradictions_of|[]%elem_of_relations_of]; done.
Qed.

(** The frontier of the second level: the neighbours of the anchor. *)
Definition selected_next (st : packet_walk) : Prop := forall id, id ∈ selected_facts st -> id = anchor \/ id ∈ next_facts st.
Definition next_near (st : packet_walk) : Prop := forall id, id ∈ next_facts st -> neighbour all anchor id.
Lemma contradiction_step_frontier snapshot st e st' :
  contradiction_step limits facts anchor snapshot st e = Ok st' ->
  (selected_next st -> selected_next st') /\ next_facts st' = next_facts st.
Proof.
  unfold contradiction_step. case_match; [by intros [= <-]|]. case_match; [by intros [= <-]|]. cbn zeta.
  case_match; [by intros [= <-]|]. case_match; [by intros [= <-]|]. intros (c & _ & [= <-])%bind_Ok.
  split; [|done]. intros Hst id. cbn [select_contradiction examine selected_facts next_facts].
  case_match; [apply Hst|]. intros [Hid _]%elem_of_filter_bool. by apply Hst.
Qed.
Lemma relation_step_frontier depth (reverse : bool) st e :
  neighbour all anchor (if reverse then from_fact_id e else to_fact_id e) -> selected_next st /\ next_near st ->
  selected_next (relation_step limits depth reverse st e) /\ next_near (relation_step limits depth reverse st e).
Proof.
  intros He Hst. apply relation_step_cases; [done..|]. destruct Hst as [H1 H2]. intros other _ _ _. subst other. split; intros id.
  - cbn [select_relation examine selected_facts next_facts]. destruct (negb _ && negb _); [|apply H1].
    rewrite !elem_of_set_insert. intros [->|[|]%H1]; auto.
  - cbn [select_relation examine selected_facts next_facts]. destruct (negb _ && negb _); [|apply H2].
    rewrite !elem_of_set_insert. intros [->|Hid]; [done|by apply H2].
Qed.
Lemma walk_depth_frontier st : walk_depth limits facts edges anchor 0 [anchor] (start_walk anchor) = Ok st ->
  selected_next st /\ next_near st.
Proof.
  intros (s & Hs & [= <-])%bind_Ok. cbn [foldl].
  assert (selected_next s /\ next_facts s = []) as [H1 H2].
  { revert Hs. apply (for_each_inv (fun _ s => selected_next s /\ next_facts s = [])).
    { split; [|done]. intros id ->%list_elem_of_singleton. by left. }
    intros pre c suf s1 s2 _ Hs1. unfold contradictions_at. case_match; [by intros [= <-]|].
    apply (for_each_inv (fun _ s => selected_next s /\ next_facts s = [])); [done|].
    intros pre' e suf' s3 s4 _ [H3 H4] [H5 H6]%contradiction_step_frontier. split; [auto|congruence]. }
  assert (selected_next s /\ next_near s) as Hs' by (split; [done|]; intros id; rewrite H2; by intros ?%not_elem_of_nil).
  clear - Hs' Hall. unfold relations_at. case_match; [done|]. cbn [N.eqb].
  assert (forall (reverse : bool) l st, (forall e, e ∈ l -> neighbour all anchor (if reverse then from_fact_id e else to_fact_id e)) ->
    selected_next st /\ next_near st -> let st' := foldl (relation_step limits 0 reverse) st l in
    selected_next st' /\ next_near st') as Hloop.
  { intros reverse l. induction l as [|e l IH]; intros st Hl Hst; cbn [foldl]; [done|].
    apply IH; [intros; apply Hl; by right|]. apply relation_step_frontier; [apply Hl; left|done]. }
  apply (Hloop true), (Hloop false); [..|done].
  - intros e [He Hk]%elem_of_edges_of. destruct (reverse_at_anchor _) eqn:E; [|done].
    apply (neighbour_back _ _ e); [by apply Hall|done|congruence].
  - intros e [He Hk]%elem_of_edges_of. destruct (leads_out e) eqn:E; [|done].
    apply (neighbour_out _ _ e); [by apply Hall|done|congruence].
Qed.

Section Walked.
Context (st : packet_walk) (Hwalk : walk limits facts edges anchor = Ok st).

Lemma walked_twice : exists s, walk_depth limits facts edges anchor 0 [anchor] (start_walk anchor) = Ok s /\
  walk_ok limits facts ordered anchor s /\ walk_depth limits facts edges anchor 1 (next_facts s) s = Ok st.
Proof.
  pose proof Hwalk as Hw. apply bind_Ok in Hw as (s & H1 & H2). exists s. split_and!; [done| |done].
  destruct (walk_depth_ok limits facts ordered anchor Hends 0%N [anchor] (start_walk anchor)) as (s' & Hs' & Hok & _).
  - by apply start_ok.
  - intros id ->%list_elem_of_singleton. left.
  - rewrite H1 in Hs'. by injection Hs' as ->.
Qed.
Lemma walk_around e : e ∈ all -> fact_edge_id e ∈ selected_edges st -> around all anchor e.
Proof.
  intros He Hsel. destruct walked_twice as (s & H1 & _ & H2).
  pose proof (walk_depth_frontier _ H1) as [_ Hnear].
  apply walk_depth_extends in H1 as (l1 & X1 & Hin1 & _), H2 as (l2 & X2 & Hin2 & _).
  assert (exists current depth, (current = anchor \/ neighbour all anchor current /\ depth = 1%N) /\
    (e ∈ contradictions_of ordered current \/ e ∈ relations_of ordered depth current)) as (c & d & Hc & Hin).
  { destruct (xt_new _ _ _ _ X2 _ Hsel) as [Hs|Hs].
    - destruct (xt_new _ _ _ _ X1 _ Hs) as [?%not_elem_of_nil|(c & ->%list_elem_of_singleton & Hin)%(level_pick e _ _ _ He Hin1)]; [done|].
      exists anchor, 0%N. auto.
    - apply (level_pick e _ _ _ He Hin2) in Hs as (c & Hc & Hin). exists c, 1%N. auto. }
  destruct Hin as [(_ & Hk & Ht)%elem_of_contradictions_of|(_ & [[Hk Hf]|(Hd & Hk & Hto)])%elem_of_relations_of].
  - apply (around_contradiction _ _ _ c); [done..|naive_solver].
  - apply around_out; [done|]. rewrite Hf. naive_solver.
  - apply around_back; [done|]. destruct Hc as [->|[_ ->]]; done.
Qed.
Lemma walk_required p e :
  truncated st = false -> anchor_fact_id p = anchor -> packet_contradicting_fact_ids p = contradiction_ids st ->
  relationship_ids p = selected_edges st -> e ∈ all -> required all p e -> fact_edge_id e ∈ selected_edges st.
Proof.
  intros Hcut Ha Hpc Hpr He Hreq. destruct walked_twice as (s & H1 & Hs & H2).
  pose proof (walk_depth_frontier _ H1) as [Hnext _].
  apply walk_depth_extends in H1 as (l1 & X1 & _ & C1 & R1 & T1), H2 as (l2 & X2 & _ & C2 & R2 & T2).
  destruct (xt_all _ _ _ _ X2 Hcut) as [Hcut1 A2], (xt_all _ _ _ _ X1 Hcut1) as [_ A1].
  assert (anchor ∉ contradiction_ids s) as Hac by apply (w_disjoint _ _ _ _ _ Hs), (w_anchor _ _ _ _ _ Hs).
  assert (anchor ∉ contradiction_terminal_ids s) as Hat by (by intros [?%not_elem_of_nil|[]]%T1).
  assert (forall e, e ∈ l1 -> fact_edge_id e ∈ selected_edges st) as S1
    by (intros x Hx; by apply (xt_old _ _ _ _ X2), A1, list_elem_of_fmap_2).
  assert (forall e, e ∈ l2 -> fact_edge_id e ∈ selected_edges st) as S2 by (intros x Hx; by apply A2, list_elem_of_fmap_2).
  assert (forall b, neighbour all anchor b -> b ∉ contradiction_ids st -> b = anchor \/ b ∈ next_facts s) as Hnear.
  { assert (forall x b, x ∈ all -> x ∈ relations_of ordered 0 anchor -> touches_fact b x = true ->
      b ∉ contradiction_ids st -> b = anchor \/ b ∈ next_facts s) as Hb.
    { intros x b Hx Hrel Ht Hno. assert (fact_edge_id x ∈ selected_edges s) as Hsel
        by (apply A1, list_elem_of_fmap_2, (R1 anchor); [left|done..]).
      destruct (w_edges _ _ _ _ _ Hs _ Hsel) as (x' & Hx' & Heq & Hf & Hto).
      rewrite (same_edge x' x) in Hf, Hto by (done || by apply Hall).
      assert (known s b) as [Hb|Hb] by (apply touches_iff in Ht as [<-| <-]; done); [by apply Hnext|].
      destruct Hno. by apply (xt_contradictions _ _ _ _ X2). }
    intros b [x Hx Hk Hf|x Hx Hk Hto]; (apply (Hb x); [done|apply elem_of_relations_of|apply touches_iff]); auto. }
  destruct Hreq as [e Hc Ht|e Hk Hf|e Hk Hto|e c Hc Ht Hn Hno|e Hk Hn Hno Hquiet]; rewrite ?Ha, ?Hpc, ?Hpr in *.
  - apply S1, (C1 anchor); [left|done|]. by apply elem_of_contradictions_of.
  - apply S1, (R1 anchor); [left|done|]. apply elem_of_relations_of. auto.
  - apply S1, (R1 anchor); [left|done|]. apply elem_of_relations_of. auto.
  - destruct (Hnear c Hn Hno) as [->|Hin].
    + apply S1, (C1 anchor); [left|done|]. by apply elem_of_contradictions_of.
    + apply S2, (C2 c); [done..|]. by apply elem_of_contradictions_of.
  - destruct (Hnear _ Hn Hno) as [Heq|Hin].
    + apply S1, (R1 anchor); [left|done|]. apply elem_of_relations_of. auto.
    + apply S2, (R2 (from_fact_id e)); [done| |apply elem_of_relations_of; auto].
      assert (forall c, c ∈ all -> fact_edge_id c ∈ selected_edges st -> is_contradiction c = true ->
        touches_fact (from_fact_id e) c = true -> False) as Hq.
      { intros c Hin' Hsel Hc Ht. by rewrite (Hquiet c) in Ht. }
      intros [[?%not_elem_of_nil|(_ & c & Hcin & Hc & Ht & Hsel)]%T1|(_ & c & Hcin & Hc & Ht & Hsel)]%T2; [done| |by apply (Hq c)].
      apply (Hq c); [done| |done..]. by apply (xt_old _ _ _ _ X2).
Qed.
End Walked.
End Holds.

(** C25: a packet holds what surrounds its anchor.  There is one packet for each
    anchor fact; every relationship in a packet is one of the anchor or of a fact
    one step from it; and a packet without the truncation caveat holds every
    relationship it must: the anchor's own, the contradictions of its neighbours
    and what uncontradicted neighbours lead to. *)
Theorem packet_holds_surroundings token json_packet repository_id revision_sha facts edges limits n packets n' :
  derive_evidence_packets token json_packet repository_id revision_sha facts edges limits n = Ok (packets, n') ->
  map anchor_fact_id packets ≡ₚ map fact_id (List.filter is_anchor facts) /\
  forall p, p ∈ packets ->
    (forall id, id ∈ relationship_ids p ->
      exists e, e ∈ edges /\ fact_edge_id e = id /\ around edges (anchor_fact_id p) e) /\
    ("packet relationship bound was truncated"%string ∉ packet_caveats p ->
      forall e, e ∈ edges -> required edges p e -> fact_edge_id e ∈ relationship_ids p).
Proof.
  intros (by_id & edges_by_id & made & Hfacts & Hedges & Hmax & Hmade & ->)%derived_packets. split.
  { rewrite sort_by_key_Permutation. clear - Hmade.
    induction Hmade as [|anchor p l k Hp _ IH]; cbn [map]; [done|].
    apply packet_for_anchor_made in Hp as (st & evidence & _ & _ & ->). by rewrite IH. }
  intros p [i Hp]%elem_of_sort_by_key%list_elem_of_lookup_1.
  destruct (Forall2_lookup_r _ _ _ _ _ Hmade Hp) as (anchor & Ha & Hpacket). clear Hp.
  apply list_elem_of_lookup_2, elem_of_filter_bool in Ha as [Hin Hanchor].
  apply packet_for_anchor_made in Hpacket as (st & evidence & Hwalk & _ & ->).
  destruct (walk_of_anchor _ edges limits _ _ Hfacts Hedges Hmax anchor Hin) as (st' & Hst' & Hok).
  rewrite Hwalk in Hst'. injection Hst' as <-.
  assert (fact_id anchor ∈ map_keys by_id) as Hkey
    by (apply map_get_is_Some; exists anchor; by apply (fo_get _ _ Hfacts)).
  pose proof (elem_of_ordered edges) as Hall. cbn [made_packet relationship_ids anchor_fact_id]. split.
  - intros id Hid. destruct (w_edges _ _ _ _ _ Hok _ Hid) as (e & He & <- & _). exists e.
    split_and!; [by apply Hall|done|]. apply (walk_around limits by_id edges _ (fact_id anchor) Hall) with (st := st); try done.
    + apply Hedges.
    + apply Hedges.
    + by apply Hall.
  - intros Hcut e He Hreq. eapply (walk_required limits by_id edges _ (fact_id anchor) Hall); try done; try apply Hedges; try done.
    revert Hcut. cbn [made_packet packet_caveats]. rewrite <- elemb_false.
    destruct (caveats_exact (snd (classified by_id edges_by_id anchor st)) (negb (is_nil (unresolved_of by_id st)))
      (negb (is_nil (contradiction_ids st))) (truncated st)) as (_ & _ & _ & -> & _). done.
Qed.
Lemma packet_holds_surroundings_witness : exists packets n',
  derive_evidence_packets never_cancelled (fun _ => Some 100%N) ex_repository ex_sha ex_facts ex_edges
    default_deterministic_limits 0 = Ok (packets, n') /\
  map anchor_fact_id packets ≡ₚ ["check"; "other"]%string /\
  forall p, p ∈ packets -> forall id, id ∈ relationship_ids p ->
    exists e, e ∈ ex_edges /\ fact_edge_id e = id /\ around ex_edges (anchor_fact_id p) e.
Proof.
  destruct ex_packets_run as (packets & n' & Hrun & _). exists packets, n'. split; [exact Hrun|].
  destruct (packet_holds_surroundings _ _ _ _ _ _ _ _ _ _ Hrun) as [Hanchors Hall]. split; [exact Hanchors|].
  intros p Hp. exact (proj1 (Hall p Hp)).
Defined.

(** * The derivation returns *)

Lemma extend_evidence_returns limit evidence lists : returns (for_each (extend_evidence limit) evidence lists).
Proof.
  apply (for_each_returns (fun _ => True)); [done| |done]. intros ids s _ _.
  apply (for_each_returns (fun _ => True)); [done| |done]. intros id s' _ _. by case_match.
Qed.
Lemma sum_bytes_returns {A} token (sizes : A -> list N) total l n :
  returns (for_each_polling (sum_bytes token sizes) total l n).
Proof. apply for_each_polling_all. intros s [i x] k _. unfold sum_bytes. returning. Qed.
Lemma packet_input_bytes_returns token facts edges n : returns (packet_input_bytes token facts edges n).
Proof. unfold packet_input_bytes. returning; apply sum_bytes_returns. Qed.
Lemma derive_evidence_packets_returns token json_packet repository_id revision_sha facts edges limits n :
  returns (derive_evidence_packets token json_packet repository_id revision_sha facts edges limits n).
Proof.
  unfold derive_evidence_packets. apply returns_polling_bind; [returning|intros _ n1 _].
  destruct (_ || _) eqn:Hscope; [done|]. apply orb_false_iff in Hscope as [[_ Hmax]%orb_false_iff _]. case_match; [done|].
  apply returns_polling_bind; [apply packet_input_bytes_returns|intros input n2 _]. case_match; [done|].
  apply returns_polling_bind; [|intros by_id n3 Hfacts%index_fact_ok].
  { apply for_each_polling_all. intros s [i f] k _. unfold index_fact. returning. }
  apply returns_polling_bind; [|intros edges_by_id n4 [Hedges _]%index_edge_ok].
  { apply for_each_polling_all. intros s [i e] k _. unfold index_edge. returning. }
  case_match; [done|]. apply returns_polling_bind; [|intros st n5 _; returning].
  apply for_each_polling_all. intros st anchor k [Hin _]%elem_of_filter_bool. unfold derive_packet.
  apply returns_polling_bind; [returning|intros _ n5 _]. apply returns_polling_bind.
  - apply returns_lift. unfold packet_for_anchor.
    destruct (walk_of_anchor _ edges limits _ _ Hfacts Hedges Hmax anchor Hin) as (w & -> & _). cbn [mbind outcome_bind].
    apply returns_bind; [apply extend_evidence_returns|]. intros evidence _. by case_match.
  - intros packet n6 _. apply returns_polling_bind; [apply returns_lift, returns_ok_or|intros; returning].
Qed.
Lemma derive_evidence_packets_cancellable json_packet repository_id revision_sha facts edges limits :
  cancellable CANCELLED (fun token => derive_evidence_packets token json_packet repository_id revision_sha facts edges limits).
Proof.
  unfold derive_evidence_packets, packet_input_bytes, sum_bytes, index_fact, index_edge, derive_packet. cancelling.
Qed.
