(* ===== verification/TemplateProps.v ===== *)
(** What the template rules of [TemplateRules] guarantee: every rule is the rule
    of one packet and says nothing the packet does not support, every explained
    relationship has its evidence in a clause, and the renderer returns, within
    its bounds, whatever its input. *)
From S2P Require Import Prelude Ordering Entries RustText GraphTypes SecretPolicy Contracts Adapter Packets TemplateRules PacketProps PacketTheorems.
Local Open Scope nat_scope.

(** * Clauses *)

(** Confidence [left] is at most [right]. *)
Definition at_most (left right : ArchaeologyConfidence) : Prop := conservative_confidence left right = left.
Lemma at_most_refl a : at_most a a.
Proof. by destruct a. Qed.
Lemma at_most_merged a b c : at_most a c -> at_most b c -> at_most (conservative_confidence a b) c.
Proof. by destruct a, b, c. Qed.
Definition bounded (limits : ArchaeologyDeterministicLimits) (text : string) : Prop :=
  trim_is_empty text = false /\ (blen text <= max_clause_text_bytes limits)%N /\ unsafe_text text = false.
Lemma bounded_text_Ok limits text value : bounded_text text (max_clause_text_bytes limits) = Ok value ->
  value = text /\ bounded limits text.
Proof.
  unfold bounded_text. intros [[[H1 H2%N.ltb_ge]%orb_false_iff H3]%orb_false_iff [= ->]]%if_Err_Ok. done.
Qed.
(** A clause claims nothing beyond the packet: it rests on facts the packet
    supports, cites only its evidence, and is no more confident. *)
Record grounded (limits : ArchaeologyDeterministicLimits) (p : ArchaeologyEvidencePacket) (c : ArchaeologyRuleClause)
    : Prop := {
  gr_text : bounded limits (clause_text c);
  gr_trust : clause_trust c = TrustDeterministic;
  gr_confidence : at_most (clause_confidence c) (packet_confidence p);
  gr_support : forall id, id ∈ supporting_fact_ids c -> id ∈ packet_supporting_fact_ids p;
  gr_contradict : forall id, id ∈ contradicting_fact_ids c -> id ∈ packet_contradicting_fact_ids p;
  gr_evidence : forall id, id ∈ evidence_span_ids c -> id ∈ packet_evidence_span_ids p
}.
(** What a clause has is kept by another. *)
Record kept_in (c c' : ArchaeologyRuleClause) : Prop := {
  ki_text : clause_text c' = clause_text c;
  ki_support : forall id, id ∈ supporting_fact_ids c -> id ∈ supporting_fact_ids c';
  ki_contradict : forall id, id ∈ contradicting_fact_ids c -> id ∈ contradicting_fact_ids c';
  ki_evidence : forall id, id ∈ evidence_span_ids c -> id ∈ evidence_span_ids c'
}.
Lemma kept_in_refl c : kept_in c c.
Proof. done. Qed.
Lemma kept_in_trans a b c : kept_in a b -> kept_in b c -> kept_in a c.
Proof. intros [H1 H2 H3 H4] [K1 K2 K3 K4]. split; [congruence|auto..]. Qed.
Lemma elem_of_merged_ids a b id : id ∈ merged_ids a b <-> id ∈ a \/ id ∈ b.
Proof. unfold merged_ids. by rewrite elem_of_sort_dedup, elem_of_app. Qed.
Lemma merge_clause_kept a b m : merge_clause a b = Ok m -> clause_text a = clause_text b -> kept_in a m /\ kept_in b m.
Proof.
  unfold merge_clause. intros [Htrust [Hd [= <-]]%if_Err_Ok]%if_Err_Ok Htext. split.
  - by split; cbn; [done|..]; intros id Hid; apply elem_of_merged_ids; left.
  - by split; cbn; [done|..]; intros id Hid; apply elem_of_merged_ids; right.
Qed.
Lemma merge_rendered_clause_kept clauses c merged : merge_rendered_clause clauses c = Ok merged ->
  forall d, d ∈ c :: clauses -> exists d', d' ∈ merged /\ kept_in d d'.
Proof.
  revert merged. induction clauses as [|a l IH]; intros merged; cbn [merge_rendered_clause].
  - intros [= <-] d Hd. exists d. done.
  - destruct (seqb (clause_text a) (clause_text c)) eqn:E.
    + apply seqb_true in E. intros (m & [Ha Hc]%merge_clause_kept & [= <-])%bind_Ok; [|done].
      intros d [->|[->|Hd]%elem_of_cons]%elem_of_cons; [exists m; split; [left|done]..|].
      exists d. split; [by right|done].
    + intros (rest & Hr & [= <-])%bind_Ok d. pose proof (IH _ Hr) as Hrest. intros [->|[->|Hd]%elem_of_cons]%elem_of_cons.
      * destruct (Hrest c) as (d' & ? & ?); [left|]. exists d'. split; [by right|done].
      * exists a. split; [left|done].
      * destruct (Hrest d) as (d' & ? & ?); [by right|]. exists d'. split; [by right|done].
Qed.
Lemma merge_clause_Ok limits p a b m : merge_clause a b = Ok m -> clause_text a = clause_text b ->
  clause_text m = clause_text a /\ (grounded limits p a -> grounded limits p b -> grounded limits p m).
Proof.
  unfold merge_clause. intros [Htrust [Hd [= <-]]%if_Err_Ok]%if_Err_Ok Htext. split; [done|].
  intros [] []. split; cbn; auto; try (by apply at_most_merged); intros id [|]%elem_of_merged_ids; auto.
Qed.
Lemma merge_rendered_clause_Ok limits p clauses c merged : merge_rendered_clause clauses c = Ok merged ->
  (Forall (grounded limits p) clauses -> grounded limits p c -> Forall (grounded limits p) merged) /\
  (forall text, text ∈ map clause_text merged <-> text ∈ map clause_text clauses \/ text = clause_text c) /\
  (NoDup (map clause_text clauses) -> NoDup (map clause_text merged)) /\
  (forall d, d ∈ c :: clauses -> exists d', d' ∈ merged /\ kept_in d d').
Proof.
  intros Hmerge. assert (forall A B C D : Prop, A /\ B /\ C -> D -> A /\ B /\ C /\ D) as Hand by tauto.
  apply Hand; [|by apply merge_rendered_clause_kept]. clear Hand. revert merged Hmerge.
  induction clauses as [|a l IH]; intros merged; cbn [merge_rendered_clause].
  - intros [= <-]. split_and!; [intros; by constructor| |].
    + intros text. cbn. rewrite elem_of_nil, list_elem_of_singleton. tauto.
    + intros _. apply NoDup_singleton.
  - destruct (seqb (clause_text a) (clause_text c)) eqn:E.
    + apply seqb_true in E. intros (m & Hm & [= <-])%bind_Ok.
      destruct (merge_clause_Ok limits p _ _ _ Hm E) as (Ht & Hg). cbn [map]. rewrite Ht. split_and!.
      * intros [H1 H2]%Forall_cons H3. constructor; auto.
      * intros text. rewrite elem_of_cons. naive_solver.
      * done.
    + apply seqb_false in E. intros (rest & (H1 & H2 & H3)%IH & [= <-])%bind_Ok. cbn [map]. split_and!.
      * intros [Ha Hl]%Forall_cons Hc. constructor; auto.
      * intros text. rewrite !elem_of_cons, H2. tauto.
      * intros [Ha Hl]%NoDup_cons. apply NoDup_cons. split; [|auto]. rewrite H2. naive_solver.
Qed.

(** * What the check of a packet establishes *)

Record packet_checked (p : ArchaeologyEvidencePacket) (facts : BTreeMap string ArchaeologyFact)
    (edges : BTreeMap string ArchaeologyFactEdge) : Prop := {
  pc_anchor : anchor_fact_id p ∈ packet_supporting_fact_ids p /\ anchor_fact_id p ∈ map_keys facts;
  pc_support : forall id, id ∈ packet_supporting_fact_ids p -> id ∈ map_keys facts;
  pc_contradict : forall id, id ∈ packet_contradicting_fact_ids p -> id ∈ map_keys facts;
  pc_disjoint : forall id, id ∈ packet_supporting_fact_ids p -> id ∉ packet_contradicting_fact_ids p;
  pc_edges : forall id, id ∈ relationship_ids p -> id ∈ map_keys edges;
  pc_fact_spans : forall id f span, id ∈ packet_supporting_fact_ids p \/ id ∈ packet_contradicting_fact_ids p ->
    map_get id facts = Some f -> span ∈ fact_span_ids f -> span ∈ packet_evidence_span_ids p;
  pc_edge_spans : forall id e span, id ∈ relationship_ids p -> map_get id edges = Some e ->
    span ∈ fact_edge_evidence_span_ids e -> span ∈ packet_evidence_span_ids p;
  pc_low : packet_contradicting_fact_ids p <> [] \/ unresolved_fact_ids p <> [] -> packet_confidence p = ConfidenceLow
}.
Lemma forallb_set {A} `{RustOrd A} (q : A -> bool) l : forallb q (set_of_list l) = true -> forall x, x ∈ l -> q x = true.
Proof. intros Hq x Hx. eapply forallb_elem; [exact Hq|]. by apply elem_of_set_of_list. Qed.
Lemma packet_is_valid_checked repository_id revision_sha facts edges spans limits p :
  packet_is_valid repository_id revision_sha facts edges spans limits p = true -> packet_checked p facts edges.
Proof.
  unfold packet_is_valid. rewrite !andb_true_iff. intros (((((((_ & _) & Ha%elemb_true) & _) & _) & _) & Hknown) & _).
  revert Hknown. unfold packet_ids_are_known. cbn zeta.
  destruct (map_get (anchor_fact_id p) facts) as [anchor|] eqn:Eanchor; [|done].
  destruct (classify _ _) as [kind derived]. rewrite !andb_true_iff.
  intros Hk. repeat match type of Hk with _ /\ _ => let H := fresh "K" in destruct Hk as [Hk H] end.
  repeat match goal with K : forallb _ (set_of_list _) = true |- _ => pose proof (forallb_set _ _ K); clear K end.
  repeat match goal with K : bool_decide _ = true |- _ => apply bool_decide_eq_true in K end.
  rename select (forall x, x ∈ packet_supporting_fact_ids p -> (fun id => map_contains_key id facts) x = true) into Hsup.
  rename select (forall x, x ∈ packet_contradicting_fact_ids p -> (fun id => map_contains_key id facts) x = true) into Hcon.
  rename select (forallb _ (relationship_ids p) = true) into Hrel.
  rename select (disjoint_ids (set_of_list (packet_supporting_fact_ids p)) (set_of_list (packet_contradicting_fact_ids p)) = true) into Hdis.
  rename select (set_of_list (concat _ ++ concat _) = _) into Hspans.
  rename select (packet_confidence p = _) into Hconf.
  assert (forall span, span ∈ packet_evidence_span_ids p <-> span ∈ concat
    (map fact_span_ids (omap (fun id => map_get id facts) (set_of_list (set_of_list (packet_supporting_fact_ids p) ++
       set_of_list (packet_contradicting_fact_ids p) ++ set_of_list (unresolved_fact_ids p))))) ++
    concat (map fact_edge_evidence_span_ids (omap (fun id => map_get id edges) (set_of_list (relationship_ids p))))) as Hev
    by (intros span; by rewrite <- elem_of_set_of_list, <- Hspans, elem_of_set_of_list).
  split.
  - split; [done|]. apply map_get_is_Some. eauto.
  - intros id Hid. by apply map_contains_key_true, Hsup.
  - intros id Hid. by apply map_contains_key_true, Hcon.
  - intros id Hid Hin. pose proof (forallb_set _ _ Hdis id Hid) as Hn. apply negb_true_iff, elemb_false in Hn.
    destruct Hn. by apply elem_of_set_of_list.
  - intros id Hid. by apply map_contains_key_true, (proj1 (forallb_elem _ _) Hrel).
  - intros id f span Hid Hf Hspan. apply Hev, elem_of_app. left. apply elem_of_concat_map. exists f. split; [done|].
    apply list_elem_of_omap. exists id. split; [|done]. rewrite !elem_of_set_of_list, !elem_of_app, !elem_of_set_of_list. tauto.
  - intros id e span Hid He Hspan. apply Hev, elem_of_app. right. apply elem_of_concat_map. exists e. split; [done|].
    apply list_elem_of_omap. exists id. split; [|done]. by apply elem_of_set_of_list.
  - intros Hne. rewrite Hconf, !is_nil_filter_set. unfold packet_confidence_of. destruct Hne as [Hne%is_nil_false|Hne%is_nil_false];
      by rewrite Hne; cbn [negb]; rewrite ?orb_true_r.
Qed.

(** * The clauses of a rule *)

(** The relationships a rule explains: a contradiction between what the packet
    supports and what it sets aside, and any other relationship of a supporting
    fact. *)
Definition explains (p : ArchaeologyEvidencePacket) (e : ArchaeologyFactEdge) : bool :=
  if is_contradiction e then is_some (contradiction_ends p e)
  else elemb (from_fact_id e) (packet_supporting_fact_ids p) || elemb (to_fact_id e) (packet_supporting_fact_ids p).
(** A clause that rests on a supporting end of the relationship and cites all its
    evidence. *)
Record explained_by (p : ArchaeologyEvidencePacket) (e : ArchaeologyFactEdge) (c : ArchaeologyRuleClause) : Prop := {
  xb_support : exists id, touches_fact id e = true /\ id ∈ supporting_fact_ids c;
  xb_evidence : forall span, span ∈ fact_edge_evidence_span_ids e -> span ∈ evidence_span_ids c
}.
Lemma explained_by_kept p e c c' : explained_by p e c -> kept_in c c' -> explained_by p e c'.
Proof. intros [(id & Ht & Hid) Hev] [_ Hs _ Hk]. split; [exists id|]; auto. Qed.

Section Rule.
Context (limits : ArchaeologyDeterministicLimits) (p : ArchaeologyEvidencePacket).
Context (facts : list ArchaeologyFact) (by_id : BTreeMap string ArchaeologyFact).
Context (edges : list ArchaeologyFactEdge) (edges_by_id : BTreeMap string ArchaeologyFactEdge).
Context (Hfacts : facts_ok facts by_id) (Hedges : edges_ok edges by_id edges_by_id).
Context (Hp : packet_checked p by_id edges_by_id).

Lemma anchor_clause_Ok rule_id anchor c :
  map_get (anchor_fact_id p) by_id = Some anchor -> anchor_clause rule_id p anchor limits = Ok c -> grounded limits p c.
Proof.
  intros Ha (text & [-> Htext]%bounded_text_Ok & [= <-])%bind_Ok.
  pose proof Ha as [_ Hid]%(fo_get _ _ Hfacts). split; cbn; try done.
  - apply at_most_refl.
  - intros id ->%list_elem_of_singleton. rewrite Hid. apply Hp.
  - by intros id ?%not_elem_of_nil.
  - intros id. rewrite elem_of_set_of_list. intros Hs. apply (pc_fact_spans _ _ _ Hp (anchor_fact_id p) anchor); [left; apply Hp|done..].
Qed.
Lemma contradiction_ends_Some e supporting contradicting : contradiction_ends p e = Some (supporting, contradicting) ->
  supporting ∈ packet_supporting_fact_ids p /\ contradicting ∈ packet_contradicting_fact_ids p /\
  (from_fact_id e = supporting /\ to_fact_id e = contradicting \/ from_fact_id e = contradicting /\ to_fact_id e = supporting).
Proof.
  unfold contradiction_ends. destruct (elemb (from_fact_id e) _ && _) eqn:E1.
  - apply andb_true_iff in E1 as [H1%elemb_true H2%elemb_true]. intros [= <- <-]. auto.
  - destruct (elemb (to_fact_id e) _ && _) eqn:E2; [|done].
    apply andb_true_iff in E2 as [H1%elemb_true H2%elemb_true]. intros [= <- <-]. auto.
Qed.
Lemma edge_evidence e : e ∈ edges -> exists from to,
  map_get (from_fact_id e) by_id = Some from /\ map_get (to_fact_id e) by_id = Some to /\
  forall span, span ∈ fact_edge_evidence_span_ids e <-> span ∈ fact_span_ids from \/ span ∈ fact_span_ids to.
Proof.
  intros He. pose proof (eo_evidence _ _ _ Hedges e He) as Hm. revert Hm. unfold edge_evidence_matches_endpoints.
  destruct (map_get (from_fact_id e) by_id) as [from|]; [|done]. destruct (map_get (to_fact_id e) by_id) as [to|]; [|done].
  intros Heq%bool_decide_eq_true. exists from, to. split_and!; [done..|]. intros span.
  by rewrite <- elem_of_app, <- (elem_of_set_of_list span (fact_edge_evidence_span_ids e)), Heq, elem_of_set_of_list.
Qed.
Lemma contradiction_clause_Ok rule_id e oc : e ∈ edges -> is_contradiction e = true ->
  contradiction_clause rule_id p e by_id limits = Ok oc ->
  match oc with Some c => grounded limits p c /\ explained_by p e c | None => explains p e = false end.
Proof.
  intros He Hk. unfold contradiction_clause, explains. rewrite Hk.
  destruct (contradiction_ends p e) as [[supporting contradicting]|] eqn:Eends; [|by intros [= <-]].
  destruct (contradiction_ends_Some _ _ _ Eends) as (Hs & Hc & Hends). destruct (edge_evidence e He) as (from & to & Hf & Hto & Hspans).
  intros (f & Hsf%index_or_panic_Ok & H)%bind_Ok. apply bind_Ok in H as (g & Hcg%index_or_panic_Ok & [_ H]%if_Err_Ok).
  apply bind_Ok in H as (text & [-> Htext]%bounded_text_Ok & [= <-]). split; split; cbn [clause_text clause_trust clause_confidence
    supporting_fact_ids contradicting_fact_ids evidence_span_ids]; try done.
  - unfold at_most. rewrite (pc_low _ _ _ Hp); [done|left]. intros Hnil. rewrite Hnil in Hc. by apply not_elem_of_nil in Hc.
  - by intros id ->%list_elem_of_singleton.
  - by intros id ->%list_elem_of_singleton.
  - intros id. rewrite elem_of_set_of_list, elem_of_app. intros [Hid|Hid];
      [apply (pc_fact_spans _ _ _ Hp supporting f)|apply (pc_fact_spans _ _ _ Hp contradicting g)]; auto.
  - exists supporting. split; [apply touches_iff; naive_solver|left].
  - intros span Hspan%Hspans. apply elem_of_set_of_list, elem_of_app.
    destruct Hends as [[H1 H2]|[H1 H2]]; rewrite H1, H2 in *; simplify_eq; tauto.
Qed.
Lemma relationship_clause_Ok rule_id e oc : e ∈ edges -> fact_edge_id e ∈ relationship_ids p -> is_contradiction e = false ->
  relationship_clause rule_id p e by_id limits = Ok oc ->
  match oc with Some c => grounded limits p c /\ explained_by p e c | None => explains p e = false end.
Proof.
  intros He Hid Hk. unfold relationship_clause, explains. rewrite Hk. cbn zeta.
  set (ends := List.filter _ _). assert (forall id, id ∈ ends <-> touches_fact id e = true /\ id ∈ packet_supporting_fact_ids p) as Hends.
  { intros id. unfold ends. rewrite elem_of_filter_bool, !elem_of_cons, elem_of_nil, touches_iff, elemb_true. naive_solver. }
  destruct (is_nil ends) eqn:Enil.
  { intros [= <-]. apply is_nil_true in Enil. setoid_rewrite Enil in Hends.
    assert (forall id, touches_fact id e = true -> elemb id (packet_supporting_fact_ids p) = false) as Hno.
    { intros id Ht. apply elemb_false. intros Hin. eapply not_elem_of_nil, Hends. eauto. }
    apply orb_false_iff. split; apply Hno, touches_iff; auto. }
  apply is_nil_false in Enil. set (cited := List.filter _ [from_fact_id e; to_fact_id e]).
  assert (forall id, id ∈ cited -> id ∈ packet_contradicting_fact_ids p) as Hcited
    by (by intros id [_ Hc%elemb_true]%elem_of_filter_bool). clearbody cited.
  set (unresolved := any _ [from_fact_id e; to_fact_id e]).
  assert (unresolved = true -> packet_confidence p = ConfidenceLow) as Hlow.
  { intros (id & _ & Hun%elemb_true)%any_true. apply (pc_low _ _ _ Hp). right. intros Hnil. rewrite Hnil in Hun.
    by apply not_elem_of_nil in Hun. }
  clearbody unresolved. intros (f & _ & H)%bind_Ok. apply bind_Ok in H as (g & _ & H).
  apply bind_Ok in H as (text & [-> Htext]%bounded_text_Ok & [= <-]). split; split; cbn [clause_text clause_trust clause_confidence
    supporting_fact_ids contradicting_fact_ids evidence_span_ids]; try done.
  - destruct unresolved; [by rewrite Hlow|apply at_most_refl].
  - by intros id [_ Hs]%Hends.
  - intros span. rewrite elem_of_set_of_list. intros Hspan. apply (pc_edge_spans _ _ _ Hp (fact_edge_id e) e); [done|by apply (eo_get _ _ _ Hedges)|done].
  - destruct ends as [|id l]; [done|]. exists id. assert (id ∈ id :: l) as Hin by left. split; [by apply Hends|done].
  - intros span Hspan. by apply elem_of_set_of_list.
Qed.

(** The clauses after some of the relationships. *)
Record clauses_ok (seen : list string) (clauses : list ArchaeologyRuleClause) : Prop := {
  co_grounded : Forall (grounded limits p) clauses;
  co_texts : NoDup (map clause_text clauses);
  co_explained : forall e, e ∈ edges -> fact_edge_id e ∈ seen -> explains p e = true ->
    exists c, c ∈ clauses /\ explained_by p e c
}.
Lemma merge_optional_ok seen clauses e oc merged :
  clauses_ok seen clauses -> e ∈ edges ->
  match oc with Some c => grounded limits p c /\ explained_by p e c | None => explains p e = false end ->
  merge_optional clauses oc = Ok merged -> clauses_ok (seen ++ [fact_edge_id e]) merged.
Proof.
  intros [Hg Ht Hx] He Hoc Hm.
  assert (forall e', e' ∈ edges -> fact_edge_id e' ∈ seen ++ [fact_edge_id e] -> e' = e \/ fact_edge_id e' ∈ seen) as Hseen.
  { intros e' He' [Hin|Heq%list_elem_of_singleton]%elem_of_app; [by right|left].
    by apply (key_identifies _ _ (eo_ids _ _ _ Hedges)). }
  destruct oc as [c|]; cbn [merge_optional] in Hm.
  - destruct Hoc as [Hc Hce]. apply (merge_rendered_clause_Ok limits p) in Hm as (H1 & _ & H3 & H4). split; [auto..|].
    intros e' He' [->|Hin]%(Hseen _ He') Hexp.
    + destruct (H4 c) as (d & Hd & Hk); [left|]. exists d. split; [done|]. by eapply explained_by_kept.
    + destruct (Hx e' He' Hin Hexp) as (c' & Hc' & Hce'). destruct (H4 c') as (d & Hd & Hk); [by right|].
      exists d. split; [done|]. by eapply explained_by_kept.
  - injection Hm as <-. split; [done..|]. intros e' He' [->|Hin]%(Hseen _ He') Hexp; [congruence|auto].
Qed.
Lemma render_relationship_ok token rule_id seen clauses i id n merged n' :
  clauses_ok seen clauses -> id ∈ relationship_ids p ->
  render_relationship token limits rule_id p by_id edges_by_id clauses (i, id) n = Ok (merged, n') ->
  clauses_ok (seen ++ [id]) merged.
Proof.
  intros Hc Hid. cbn [render_relationship]. intros (u & n1 & _ & H)%polling_bind_Ok.
  apply polling_bind_Ok in H as (e & n2 & (e' & He%index_or_panic_Ok & [= -> _])%lift_Ok & H).
  pose proof He as [Hin <-]%(eo_get _ _ _ Hedges). destruct (is_contradiction e') eqn:Ek.
  - apply polling_bind_Ok in H as (oc & n3 & (oc' & Hoc & [= -> _])%lift_Ok & (m & Hm & [= -> _])%lift_Ok).
    eapply merge_optional_ok; [done|done| |done]. by eapply contradiction_clause_Ok.
  - apply polling_bind_Ok in H as (oc & n3 & (oc' & Hoc & [= -> _])%lift_Ok & H).
    apply polling_bind_Ok in H as (m & n4 & (m' & Hm & [= -> _])%lift_Ok & H). case_match; [done|].
    apply mret_Ok in H as ->. eapply merge_optional_ok; [done|done| |done]. by eapply relationship_clause_Ok.
Qed.
Lemma render_rule_Ok token repository_id generation_id revision_sha coverage parser algorithm n rule n' :
  render_rule token repository_id generation_id revision_sha coverage parser algorithm limits p by_id edges_by_id n
    = Ok (rule, n') ->
  exists title cs, rule = rule_of repository_id generation_id revision_sha coverage parser algorithm p title cs /\
    bounded limits title /\ clauses_ok (relationship_ids p) cs /\ ArchaeologyRulePacket_validate rule = Ok tt.
Proof.
  intros (anchor & n1 & (a & Ha%index_or_panic_Ok & [= -> _])%lift_Ok & H)%polling_bind_Ok.
  apply polling_bind_Ok in H as (first & n2 & (c & Hc & [= -> _])%lift_Ok & H).
  apply polling_bind_Ok in H as (cs & n3 & Hloop & H).
  apply polling_bind_Ok in H as (title & n4 & (t & [-> Ht]%bounded_text_Ok & [= -> _])%lift_Ok & H). cbn zeta in H.
  apply polling_bind_Ok in H as ([] & n5 & ([] & Hv & _)%lift_Ok & ->%mret_Ok).
  eexists _, cs. split_and!; [done|done| |done].
  assert (clauses_ok (map snd (enumerate_nat 0 (sort (relationship_ids p)))) cs) as Hok.
  { revert Hloop. apply (for_each_polling_inv (fun pre cs => clauses_ok (map snd pre) cs)).
    - split; [apply Forall_singleton; by eapply anchor_clause_Ok|apply NoDup_singleton|].
      by intros e _ ?%not_elem_of_nil.
    - intros pre [i id] suf s1 s2 k k' Hl Hs Hstep. rewrite map_app. eapply render_relationship_ok; [done| |done].
      apply (elem_of_sort_by cmp). fold (sort (relationship_ids p)). apply elem_of_enumerate_snd. exists i. rewrite Hl.
      apply elem_of_app. right. left. }
  rewrite map_snd_enumerate in Hok. destruct Hok as [H1 H2 H3]. split; [done..|]. intros e He Hid. apply H3; [done|].
  by apply (elem_of_sort_by cmp).
Qed.
End Rule.

(** * The rules *)

(** What a rule has to do with its packet. *)
Record rule_of_packet (limits : ArchaeologyDeterministicLimits) (edges : list ArchaeologyFactEdge)
    (p : ArchaeologyEvidencePacket) (rule : ArchaeologyRulePacket) : Prop := {
  rp_id : rule_id rule = expected_rule_id p;
  rp_kind : rule_kind rule = packet_kind p;
  rp_standing : rule_lifecycle rule = LifecycleCandidate /\ rule_trust rule = TrustDeterministic /\
    rule_confidence rule = packet_confidence p;
  rp_title : bounded limits (rule_title rule);
  rp_texts : NoDup (map clause_text (clauses rule));
  rp_clauses : forall c, c ∈ clauses rule -> grounded limits p c /\ supporting_fact_ids c <> [] /\ evidence_span_ids c <> [];
  rp_explained : forall e, e ∈ edges -> fact_edge_id e ∈ relationship_ids p -> explains p e = true ->
    exists c, c ∈ clauses rule /\ explained_by p e c
}.
Lemma rendered_rules token json_rule repository_id generation_id revision_sha coverage parser algorithm limits packets facts
    edges n rendered n' :
  render_template_rules token json_rule repository_id generation_id revision_sha coverage parser algorithm limits packets
    facts edges n = Ok (rendered, n') ->
  exists made, Forall2 (rule_of_packet limits edges) packets made /\ rendered = sort_by_key rule_id made.
Proof.
  unfold render_template_rules. intros (u & n1 & _ & H)%polling_bind_Ok. case_match; [done|]. case_match; [done|].
  apply polling_bind_Ok in H as (input & n2 & _ & H). apply polling_bind_Ok in H as (evidence & n3 & _ & H).
  case_match; [done|]. apply polling_bind_Ok in H as (tables & n4 & [Hfacts _]%index_template_fact_ok & H).
  apply polling_bind_Ok in H as (edges_by_id & n5 & Hedges%index_template_edge_ok & H).
  apply polling_bind_Ok in H as (st & n6 & Hst & H). apply polling_bind_Ok in H as (u' & n7 & _ & ->%mret_Ok).
  exists (rules st). split; [|done]. revert Hst.
  apply (for_each_polling_inv (fun pre st => Forall2 (rule_of_packet limits edges) pre (rules st))); [constructor|].
  intros pre p suf s1 s2 k k' _ Hpre (u0 & k1 & _ & Hstep)%polling_bind_Ok.
  destruct (_ || _) eqn:Hvalid in Hstep; [done|]. apply orb_false_iff in Hvalid as [Hvalid%negb_false_iff _].
  apply packet_is_valid_checked in Hvalid.
  apply polling_bind_Ok in Hstep as (rule & k2 & (title & cs & -> & Ht & [Hg Hnd Hx] & Hv)%(render_rule_Ok _ _ _ _ _ _ Hfacts Hedges Hvalid) & Hstep).
  apply polling_bind_Ok in Hstep as (size & k3 & _ & Hstep). cbn zeta in Hstep. case_match; [done|].
  apply mret_Ok in Hstep as ->. cbn [rules]. apply Forall2_app; [done|]. constructor; [|constructor].
  apply rule_packet_validate_spec in Hv as (_ & _ & _ & _ & _ & Hwf). split; try done.
  intros c Hc. eapply Forall_forall in Hg; [|exact Hc]. eapply Forall_forall in Hwf; [|exact Hc]. split; [done|].
  split; apply Hwf.
Qed.

(** C26: a rendered rule says what its packet supports and nothing else.  There is
    one rule per packet, under the packet's identity, a deterministic candidate of
    the packet's kind and confidence; its clauses have distinct texts, within the
    privacy and byte bounds, each rests on facts the packet supports and spans it
    cites, and is never more confident than the packet; and every contradiction
    between what the packet supports and what it sets aside, and every other
    relationship of a supporting fact, has a clause that cites all its evidence. *)
Theorem rendered_rules_grounded token json_rule repository_id generation_id revision_sha coverage parser algorithm limits
    packets facts edges n rendered n' :
  render_template_rules token json_rule repository_id generation_id revision_sha coverage parser algorithm limits packets
    facts edges n = Ok (rendered, n') ->
  map rule_id rendered ≡ₚ map expected_rule_id packets /\
  forall rule, rule ∈ rendered -> exists p, p ∈ packets /\ rule_of_packet limits edges p rule.
Proof.
  intros (made & Hmade & ->)%rendered_rules. split.
  - rewrite sort_by_key_Permutation. clear - Hmade. induction Hmade as [|p r l k Hr _ IH]; cbn [map]; [done|].
    by rewrite (rp_id _ _ _ _ Hr), IH.
  - intros rule [i Hr]%elem_of_sort_by_key%list_elem_of_lookup_1.
    destruct (Forall2_lookup_r _ _ _ _ _ Hmade Hr) as (p & Hp & Hrule). exists p. split; [|done].
    by apply list_elem_of_lookup_2 in Hp.
Qed.
Lemma fmap_bind_fst_Ok {A B C} (f : A -> B) (m : outcome (C * nat)) (g : C -> outcome (A * nat)) b :
  f <$> (c ← fst <$> m; fst <$> g c) = Ok b -> exists c n a n', m = Ok (c, n) /\ g c = Ok (a, n') /\ f a = b.
Proof.
  destruct m as [[c n]|e|w]; cbn; [|done..]. destruct (g c) as [[a n']|e|w] eqn:E; cbn; [|done..]. intros [= <-].
  exists c, n, a, n'. done.
Qed.
Lemma ex_rules_unfold edges limits : ex_rules edges limits =
  (packets ← fst <$> derive_evidence_packets never_cancelled (fun _ => Some 100%N) ex_repository ex_sha ex_facts edges limits 0;
   fst <$> render_template_rules never_cancelled (fun _ => Some 100%N) ex_repository "gen" ex_sha ex_coverage "parser"
     "algorithm" limits packets ex_facts edges 0).
Proof. reflexivity. Qed.
Lemma ex_rules_run : exists packets n1 rendered n2,
  derive_evidence_packets never_cancelled (fun _ => Some 100%N) ex_repository ex_sha ex_facts ex_edges
    default_deterministic_limits 0 = Ok (packets, n1) /\
  render_template_rules never_cancelled (fun _ => Some 100%N) ex_repository "gen" ex_sha ex_coverage "parser" "algorithm"
    default_deterministic_limits packets ex_facts ex_edges 0 = Ok (rendered, n2) /\ length rendered = 2.
Proof.
  pose proof ex_rules_ok as H. rewrite ex_rules_unfold in H.
  apply fmap_bind_fst_Ok in H as (packets & n1 & rendered & n2 & H1 & H2 & H3). exists packets, n1, rendered, n2.
  split; [exact H1|]. split; [exact H2|]. apply (f_equal length) in H3. rewrite length_map in H3. exact H3.
Qed.
Lemma rendered_rules_grounded_witness : exists packets n1 rendered n2,
  derive_evidence_packets never_cancelled (fun _ => Some 100%N) ex_repository ex_sha ex_facts ex_edges
    default_deterministic_limits 0 = Ok (packets, n1) /\
  render_template_rules never_cancelled (fun _ => Some 100%N) ex_repository "gen" ex_sha ex_coverage "parser" "algorithm"
    default_deterministic_limits packets ex_facts ex_edges 0 = Ok (rendered, n2) /\ length rendered = 2 /\
  forall rule, rule ∈ rendered -> exists p, p ∈ packets /\ rule_of_packet default_deterministic_limits ex_edges p rule.
Proof.
  destruct ex_rules_run as (packets & n1 & rendered & n2 & Hd & Hr & Hlen). exists packets, n1, rendered, n2.
  split; [exact Hd|]. split; [exact Hr|]. split; [exact Hlen|].
  exact (proj2 (rendered_rules_grounded _ _ _ _ _ _ _ _ _ _ _ _ _ _ _ Hr)).
Defined.

(** * Termination and cancellation *)

Lemma merge_rendered_clause_returns clauses c : returns (merge_rendered_clause clauses c).
Proof.
  induction clauses as [|a l IH]; cbn [merge_rendered_clause]; [done|]. case_match.
  - apply returns_bind; [|done]. unfold merge_clause. by repeat case_match.
  - apply returns_bind; done.
Qed.
Lemma merge_optional_returns clauses oc : returns (merge_optional clauses oc).
Proof. destruct oc; [apply merge_rendered_clause_returns|done]. Qed.
Lemma bounded_text_returns text limit : returns (bounded_text text limit).
Proof. unfold bounded_text. by case_match. Qed.
Lemma rule_validate_returns rule : returns (ArchaeologyRulePacket_validate rule).
Proof.
  unfold ArchaeologyRulePacket_validate. case_match; [done|].
  apply returns_bind; [destruct (validate_revision_sha_cases (rule_revision_sha rule)) as [-> | ->]; done|intros _ _].
  case_match; [done|]. apply for_all_returns. intros c _. unfold ArchaeologyRuleClause_validate. by repeat case_match.
Qed.
Lemma index_returns {A} (m : option A) : is_Some m -> returns (index_or_panic m).
Proof. by intros [a ->]. Qed.

Section Returns.
Context (limits : ArchaeologyDeterministicLimits) (p : ArchaeologyEvidencePacket) (by_id : BTreeMap string ArchaeologyFact).
Context (edges : list ArchaeologyFactEdge) (edges_by_id : BTreeMap string ArchaeologyFactEdge).
Context (Hedges : edges_ok edges by_id edges_by_id) (Hp : packet_checked p by_id edges_by_id).

Lemma contradiction_clause_returns rule_id e : returns (contradiction_clause rule_id p e by_id limits).
Proof.
  unfold contradiction_clause. destruct (contradiction_ends p e) as [[s c]|] eqn:E; [|done].
  destruct (contradiction_ends_Some _ _ _ _ E) as (Hs & Hc & _).
  apply returns_bind; [apply index_returns, map_get_is_Some, Hp, Hs|intros f _].
  apply returns_bind; [apply index_returns, map_get_is_Some; by apply (pc_contradict _ _ _ Hp)|intros g _].
  case_match; [done|]. apply returns_bind; [apply bounded_text_returns|done].
Qed.
Lemma relationship_clause_returns rule_id e : e ∈ edges -> returns (relationship_clause rule_id p e by_id limits).
Proof.
  intros He. destruct (eo_ends _ _ _ Hedges e He) as [Hf Ht]. unfold relationship_clause. case_match; [done|].
  apply returns_bind; [by apply index_returns, map_get_is_Some|intros f _].
  apply returns_bind; [by apply index_returns, map_get_is_Some|intros g _].
  apply returns_bind; [apply bounded_text_returns|done].
Qed.
Lemma render_rule_returns token repository_id generation_id revision_sha coverage parser algorithm n :
  returns (render_rule token repository_id generation_id revision_sha coverage parser algorithm limits p by_id edges_by_id n).
Proof.
  unfold render_rule. apply returns_polling_bind; [apply returns_lift, index_returns, map_get_is_Some, Hp|intros anchor n1 _].
  apply returns_polling_bind; [|intros first n2 _].
  { apply returns_lift. unfold anchor_clause. apply returns_bind; [apply bounded_text_returns|done]. }
  apply returns_polling_bind; [|intros cs n3 _].
  - apply for_each_polling_all. intros s [i id] k Hin. unfold render_relationship.
    assert (id ∈ relationship_ids p) as Hid.
    { apply (elem_of_sort_by cmp). fold (sort (relationship_ids p)). apply elem_of_enumerate_snd. by exists i. }
    apply (pc_edges _ _ _ Hp) in Hid as Hkey. apply map_get_is_Some in Hkey as [e He].
    pose proof He as [Hin' _]%(eo_get _ _ _ Hedges).
    apply returns_polling_bind; [returning|intros _ n3 _]. rewrite He. cbn [index_or_panic].
    change (lift (Ok e) n3) with (Ok (e, n3)). apply returns_polling_bind; [done|intros e' n4 [= <- _]].
    destruct (is_contradiction e).
    + apply returns_polling_bind; [apply returns_lift, contradiction_clause_returns|intros oc n5 _].
      apply returns_lift, merge_optional_returns.
    + apply returns_polling_bind; [by apply returns_lift, relationship_clause_returns|intros oc n5 _].
      apply returns_polling_bind; [apply returns_lift, merge_optional_returns|intros; returning].
  - apply returns_polling_bind; [apply returns_lift, bounded_text_returns|intros title n4 _]. cbn zeta.
    apply returns_polling_bind; [apply returns_lift, rule_validate_returns|intros; returning].
Qed.
End Returns.
Lemma render_template_rules_returns token json_rule repository_id generation_id revision_sha coverage parser algorithm limits
    packets facts edges n :
  returns (render_template_rules token json_rule repository_id generation_id revision_sha coverage parser algorithm limits
    packets facts edges n).
Proof.
  unfold render_template_rules. apply returns_polling_bind; [returning|intros _ n1 _]. case_match; [done|]. case_match; [done|].
  apply returns_polling_bind; [apply packet_input_bytes_returns|intros input n2 _].
  apply returns_polling_bind; [apply sum_bytes_returns|intros evidence n3 _]. case_match; [done|].
  apply returns_polling_bind; [|intros tables n4 _].
  { apply for_each_polling_all. intros s [i f] k _. unfold index_template_fact. returning. }
  apply returns_polling_bind; [|intros edges_by_id n5 Hedges%index_template_edge_ok].
  { apply for_each_polling_all. intros s [i e] k _. unfold index_template_edge. returning. }
  apply returns_polling_bind; [|intros; returning].
  apply for_each_polling_all. intros st p k _. unfold render_packet. apply returns_polling_bind; [returning|intros _ n6 _].
  destruct (negb (packet_is_valid _ _ _ _ _ _ p) || _) eqn:Hvalid; [done|]. apply orb_false_iff in Hvalid as [Hvalid%negb_false_iff%packet_is_valid_checked _].
  apply returns_polling_bind; [by eapply render_rule_returns|intros rule n7 _].
  apply returns_polling_bind; [apply returns_lift, returns_ok_or|intros; returning].
Qed.
Lemma render_template_rules_cancellable json_rule repository_id generation_id revision_sha coverage parser algorithm limits
    packets facts edges :
  cancellable CANCELLED (fun token => render_template_rules token json_rule repository_id generation_id revision_sha coverage
    parser algorithm limits packets facts edges).
Proof.
  unfold render_template_rules, packet_input_bytes, evidence_packet_input_bytes, sum_bytes, index_template_fact,
    index_template_edge, render_packet, render_rule, render_relationship. cancelling.
Qed.

(** Deriving and rendering return on every input, whatever the flag does: no
    table is indexed at an absent key and no loop runs on; and a flag that rises
    while they run changes nothing but to turn the answer into the
    cancellation. *)
Theorem packets_and_rules_return json_packet json_rule repository_id generation_id revision_sha coverage parser algorithm
    limits packets facts edges :
  (forall token n,
    returns (derive_evidence_packets token json_packet repository_id revision_sha facts edges limits n) /\
    returns (render_template_rules token json_rule repository_id generation_id revision_sha coverage parser algorithm limits
      packets facts edges n)) /\
  cancellable "Archaeology packet derivation cancelled" (fun token =>
    derive_evidence_packets token json_packet repository_id revision_sha facts edges limits) /\
  cancellable "Archaeology packet derivation cancelled" (fun token =>
    render_template_rules token json_rule repository_id generation_id revision_sha coverage parser algorithm limits
      packets facts edges).
Proof.
  split_and!; [|apply derive_evidence_packets_cancellable|apply render_template_rules_cancellable].
  intros token n. split; [apply derive_evidence_packets_returns|apply render_template_rules_returns].
Qed.
