(* ===== verification/Clusters.v ===== *)
(** The clustering half of
    [src/crates/codevetter-core/src/commands/business_rule_archaeology/deterministic_rules.rs]:
    rules of the same exact meaning get one primary rule and aliases to it, rules
    that support what others set aside are marked as conflicting, and occurrences
    of one canonical rule are merged.  [serde_json::to_string] on strings and
    arrays of strings is the parameter [to_string], the length of the serialized
    rules [json_rules]. *)
From S2P Require Import Prelude Ordering Entries RustText GraphTypes SecretPolicy Contracts Adapter Packets TemplateRules.
Local Open Scope N_scope.

(** What the code serializes to compare or rank: strings, and tuples, vectors and
    sets of these, which are arrays. *)
Inductive json : Type := JString (s : string) | JArray (l : list json).
Definition JStrings (l : list string) : json := JArray (map JString l).
(** [.expect(..)] *)
Definition expect {A} (o : option A) : outcome A := match o with Some a => Ok a | None => Crash "expect" end.

Definition GENERATED_ONLY : string := "cluster contains only generated or vendor evidence".
Definition set_clause (clause : ArchaeologyRuleClause) (confidence : ArchaeologyConfidence)
    (supporting contradicting evidence caveats : list string) : ArchaeologyRuleClause := {|
  clause_id := clause_id clause; clause_text := clause_text clause; clause_trust := clause_trust clause;
  clause_confidence := confidence; supporting_fact_ids := supporting; contradicting_fact_ids := contradicting;
  evidence_span_ids := evidence; Contracts.caveats := caveats |}.
Definition set_rule (rule : ArchaeologyRulePacket) (domains : list string) (confidence : ArchaeologyConfidence)
    (cs : list ArchaeologyRuleClause) (dependencies conflicts aliases : list string) : ArchaeologyRulePacket := {|
  rule_id := rule_id rule; rule_repository_id := rule_repository_id rule; rule_generation_id := rule_generation_id rule;
  rule_revision_sha := rule_revision_sha rule; rule_kind := rule_kind rule; rule_title := rule_title rule;
  domain_ids := domains; rule_lifecycle := rule_lifecycle rule; rule_trust := rule_trust rule;
  rule_confidence := confidence; Contracts.clauses := cs; dependency_rule_ids := dependencies;
  conflict_rule_ids := conflicts; alias_rule_ids := aliases; rule_coverage := rule_coverage rule;
  rule_parser_identity := rule_parser_identity rule; rule_algorithm_identity := rule_algorithm_identity rule;
  rule_synthesis_identity := rule_synthesis_identity rule |}.
Definition with_clauses (rule : ArchaeologyRulePacket) (cs : list ArchaeologyRuleClause) : ArchaeologyRulePacket :=
  set_rule rule (domain_ids rule) (rule_confidence rule) cs (dependency_rule_ids rule) (conflict_rule_ids rule)
    (alias_rule_ids rule).
Definition with_conflicts (rule : ArchaeologyRulePacket) (conflicts : list string) : ArchaeologyRulePacket :=
  set_rule rule (domain_ids rule) (rule_confidence rule) (clauses rule) (dependency_rule_ids rule) conflicts
    (alias_rule_ids rule).

(** ** What clustering refuses *)

Definition cluster_private_text (value : string) : bool :=
  str_contains NUL value || looks_like_secret value || starts_with "/" value || starts_with "\" value
  || is_drive_path value || is_some_and (str_get_to 5 value) (fun prefix => eq_ignore_ascii_case prefix "file:").
Definition is_semantic_attribute (attribute : ArchaeologyAttribute) : bool :=
  has_key ["symbol"; "target"; "operation"; "reads"; "writes"; "controls"; "semantic_expr"]%string attribute.
Definition cluster_fact_contains_secret (fact : ArchaeologyFact) : bool :=
  cluster_private_text (fact_label fact)
  || any (fun a => is_semantic_attribute a && cluster_private_text (attribute_value a)) (fact_attributes fact).
Definition cluster_rule_has_private_text (rule : ArchaeologyRulePacket) : bool :=
  cluster_private_text (rule_title rule) || any cluster_private_text (reasons (rule_coverage rule))
  || any (fun clause => cluster_private_text (clause_text clause) || any cluster_private_text (caveats clause))
       (clauses rule).
Definition has_alphanumeric (value : string) : bool := any is_ascii_alphanumeric (bytes value).
Definition is_cluster_fact (fact : ArchaeologyFact) : bool :=
  is_cited_fact fact && valid_fact_semantic_expression fact && has_alphanumeric (fact_label fact)
  && negb (any (fun a => is_semantic_attribute a && negb (has_alphanumeric (attribute_value a))) (fact_attributes fact))
  && negb (cluster_fact_contains_secret fact).
Definition is_cluster_origin (facts : BTreeMap string ArchaeologyFact) (origin : ArchaeologyFactOrigin) : bool :=
  map_contains_key (origin_fact_id origin) facts && safe_scope_id (origin_source_unit_id origin)
  && safe_scope_id (origin_path_identity origin) && safe_scope_id (origin_ranking_path_identity origin)
  && match origin_classification origin with
     | ClassSource | ClassGenerated | ClassVendor => true | _ => false end.
Definition is_cluster_edge (facts : BTreeMap string ArchaeologyFact) (edge : ArchaeologyFactEdge) : bool :=
  safe_id (fact_edge_id edge) && deterministic_source_trust (fact_edge_trust edge)
  && negb (is_some_and (unresolved_reason edge) cluster_private_text) && edge_evidence_matches_endpoints edge facts.
Definition clause_fits (limits : ArchaeologyDeterministicLimits) (clause : ArchaeologyRuleClause) : bool :=
  (saturating_add (len (supporting_fact_ids clause)) (len (contradicting_fact_ids clause)) <=? max_facts_per_packet limits)
  && (len (evidence_span_ids clause) <=? max_spans_per_packet limits).
Definition rule_fits (limits : ArchaeologyDeterministicLimits) (rule : ArchaeologyRulePacket) : bool :=
  (len (clauses rule) <=? max_clauses_per_rule limits)
  && forallb (fun clause => (blen (clause_text clause) <=? max_clause_text_bytes limits) && clause_fits limits clause)
       (clauses rule).
(** The clause cites exactly what its facts cite, no fact or span twice. *)
Definition clause_evidence_is_exact (facts : BTreeMap string ArchaeologyFact) (clause : ArchaeologyRuleClause) : bool :=
  let supporting := set_of_list (supporting_fact_ids clause) in
  let contradicting := set_of_list (contradicting_fact_ids clause) in
  let evidence := set_of_list (evidence_span_ids clause) in
  let expected := set_of_list (concat (map fact_span_ids
    (omap (fun id => map_get id facts) (supporting ++ contradicting)))) in
  is_distinct (supporting_fact_ids clause) && is_distinct (contradicting_fact_ids clause)
  && is_distinct (evidence_span_ids clause) && disjoint_ids supporting contradicting
  && forallb (fun id => map_contains_key id facts) supporting
  && forallb (fun id => map_contains_key id facts) contradicting && bool_decide (evidence = expected).
Definition cluster_scope : Type := string * string * string * ArchaeologyCoverage.
#[export] Instance cluster_scope_eq_dec : EqDecision cluster_scope.
Proof. unfold cluster_scope. solve_decision. Defined.
Definition scope_of (rule : ArchaeologyRulePacket) : cluster_scope :=
  (rule_generation_id rule, rule_parser_identity rule, rule_algorithm_identity rule, rule_coverage rule).
Definition is_cluster_clause (facts : BTreeMap string ArchaeologyFact) (spans : BTreeSet string)
    (limits : ArchaeologyDeterministicLimits) (clause : ArchaeologyRuleClause) : bool :=
  safe_scope_id (clause_id clause) && (blen (clause_text clause) <=? max_clause_text_bytes limits)
  && forallb (fun id => safe_id id && set_contains id spans) (evidence_span_ids clause)
  && forallb safe_id (supporting_fact_ids clause ++ contradicting_fact_ids clause)
  && negb (bool_decide (clause_confidence clause = ConfidenceUnavailable))
  && clause_evidence_is_exact facts clause && clause_fits limits clause.
Definition is_cluster_rule (repository_id revision_sha : string) (scope : option cluster_scope)
    (facts : BTreeMap string ArchaeologyFact) (spans : BTreeSet string) (limits : ArchaeologyDeterministicLimits)
    (rule : ArchaeologyRulePacket) : bool :=
  seqb (rule_repository_id rule) repository_id && seqb (rule_revision_sha rule) revision_sha
  && safe_scope_id (rule_id rule) && safe_scope_id (rule_generation_id rule)
  && safe_scope_id (rule_parser_identity rule) && safe_scope_id (rule_algorithm_identity rule)
  && negb (is_some_and scope (fun scope => negb (bool_decide (scope_of rule = scope))))
  && negb (trim_is_empty (rule_title rule)) && negb (cluster_rule_has_private_text rule)
  && is_nil (dependency_rule_ids rule) && is_nil (domain_ids rule) && is_nil (alias_rule_ids rule)
  && is_nil (conflict_rule_ids rule) && negb (bool_decide (rule_confidence rule = ConfidenceUnavailable))
  && (len (clauses rule) <=? max_clauses_per_rule limits)
  && forallb (is_cluster_clause facts spans limits) (clauses rule).

(** ** What a rule refers to *)

Definition supporting_rule_fact_ids (rule : ArchaeologyRulePacket) : BTreeSet string :=
  set_of_list (concat (map supporting_fact_ids (clauses rule))).
Definition contradicting_rule_fact_ids (rule : ArchaeologyRulePacket) : BTreeSet string :=
  set_of_list (concat (map contradicting_fact_ids (clauses rule))).
Definition rule_fact_ids (rule : ArchaeologyRulePacket) : BTreeSet string :=
  set_of_list (concat (map (fun clause => supporting_fact_ids clause ++ contradicting_fact_ids clause) (clauses rule))).
Definition normalize_clause (clause : ArchaeologyRuleClause) : ArchaeologyRuleClause :=
  set_clause clause (clause_confidence clause) (sort (supporting_fact_ids clause)) (sort (contradicting_fact_ids clause))
    (sort (evidence_span_ids clause)) (sort (List.filter (fun value => negb (seqb value GENERATED_ONLY)) (caveats clause))).
Definition normalize_rule (rule : ArchaeologyRulePacket) : ArchaeologyRulePacket :=
  with_clauses rule (map normalize_clause (clauses rule)).
Definition categorical_cluster_caveat (value : string) : outcome string :=
  if elemb value ["kind is identifier-derived and requires review"; "packet has unresolved relationships";
       "packet has contradicting evidence"; "packet relationship bound was truncated";
       "relationship target is unresolved"]%string
  then Ok value else Err "Archaeology rule clustering caveat is not categorical".
Definition stable_fact_semantic_key (fact : ArchaeologyFact) : outcome (string * string) :=
  match List.filter (has_key ["semantic_expr"%string]) (fact_attributes fact) with
  | [] => Err "Archaeology canonical occurrence fact lacks semantic identity"
  | expression :: rest =>
      if negb (is_nil rest) || negb (canonical_semantic_digest (attribute_value expression))
      then Err "Archaeology canonical occurrence fact has invalid semantic identity" else
      Ok (fact_kind_debug (fact_kind fact), attribute_value expression)
  end.
Definition fingerprint_of (facts : BTreeMap string ArchaeologyFact) (id : string) : outcome string :=
  fact ← index_or_panic (map_get id facts);
  Ok (fact_fingerprint fact).
Definition exact_fact_fingerprints (ids : list string) (facts : BTreeMap string ArchaeologyFact) : outcome (list string) :=
  if negb (is_distinct ids) || any (fun id => negb (map_contains_key id facts)) (set_of_list ids)
  then Err "Archaeology rule clustering cites unknown or duplicate facts" else
  values ← collect (fingerprint_of facts) (set_of_list ids);
  Ok (sort values).

(** [members.iter().min_by_key(..)]: the first of the least. *)
Fixpoint least_by {K A} `{RustOrd K} (best : K * A) (l : list (K * A)) : A :=
  match l with
  | [] => snd best
  | x :: l => least_by (match cmp (fst x) (fst best) with Lt => x | _ => best end) l
  end.
Definition min_by_key {K A} `{RustOrd K} (rank : A -> outcome K) (l : list A) (e : string) : outcome A :=
  ranked ← collect (fun x => key ← rank x; Ok (key, x)) l;
  match ranked with
  | [] => Err e
  | first :: rest => Ok (least_by first rest)
  end.
(** [clauses.sort_by_key(..)] *)
Definition sort_by_rank {A} (rank : A -> outcome string) (l : list A) : outcome (list A) :=
  ranked ← collect (fun x => key ← rank x; Ok (key, x)) l;
  Ok (map snd (sort_by_key fst ranked)).

Section Ranks.
Context (to_string : json -> option string) (facts : BTreeMap string ArchaeologyFact).

Definition canonical_clause_semantic_rank (clause : ArchaeologyRuleClause) : outcome string :=
  supporting ← collect (fingerprint_of facts) (supporting_fact_ids clause);
  contradicting ← collect (fingerprint_of facts) (contradicting_fact_ids clause);
  expect (to_string (JArray [JString (normalized_semantic_text (clause_text clause)); JStrings (set_of_list supporting);
    JStrings (set_of_list contradicting); JStrings (set_of_list (map normalized_semantic_text (caveats clause)))])).
Definition canonical_rule_semantic_rank (rule : ArchaeologyRulePacket) : outcome string :=
  ranks ← collect canonical_clause_semantic_rank (clauses rule);
  expect (to_string (JArray [JString (rule_kind_name (rule_kind rule)); JString (normalized_semantic_text (rule_title rule));
    JStrings (sort ranks)])).
Definition confidence_rank (confidence : ArchaeologyConfidence) : N :=
  match confidence with
  | ConfidenceHigh => 0 | ConfidenceMedium => 1 | ConfidenceLow => 2 | ConfidenceUnavailable => 3
  end.
Definition is_source (origin : ArchaeologyFactOrigin) : bool := bool_decide (origin_classification origin = ClassSource).
Definition primary_rank (origins : BTreeMap string ArchaeologyFactOrigin) (rule : ArchaeologyRulePacket)
    : outcome (N * (N * (N * (N * (N * (string * string)))))) :=
  let fact_ids := rule_fact_ids rule in
  fact_origins ← collect (fun id => index_or_panic (map_get id origins)) fact_ids;
  rule_facts ← collect (fun id => index_or_panic (map_get id facts)) fact_ids;
  let unresolved := saturating_add (len (List.filter is_unresolved rule_facts))
    (len (List.filter (fun value => elemb value
       ["packet has unresolved relationships"; "relationship target is unresolved"]%string)
       (concat (map caveats (clauses rule))))) in
  rank ← canonical_rule_semantic_rank rule;
  Ok (len (List.filter (fun origin => negb (is_source origin)) fact_origins),
      (unresolved, (len (contradicting_rule_fact_ids rule), (confidence_rank (rule_confidence rule),
      (len (set_of_list (map origin_source_unit_id fact_origins)),
      (String.concat NUL (set_of_list (map origin_ranking_path_identity fact_origins)), rank)))))).
End Ranks.

(** ** The meaning of a rule *)

Record relation_scan : Type := { seen_edges : BTreeSet string; relationships : list string; examined : N }.
Section Compatibility.
Context (token : StructuralGraphCancellation) (to_string : json -> option string).
Context (facts : BTreeMap string ArchaeologyFact) (edges : BTreeMap string (list ArchaeologyFactEdge)).
Context (max_examined_edges : N).

Definition scan_edge (referenced : BTreeSet string) (st : relation_scan) (edge : ArchaeologyFactEdge) : polling relation_scan :=
  _ ← poll token CANCELLED;
  if examined st =? max_examined_edges then lift (Err "Archaeology rule cluster relationship bound exceeded") else
  let st := {| seen_edges := seen_edges st; relationships := relationships st; examined := examined st + 1 |} in
  if set_contains (from_fact_id edge) referenced && set_contains (to_fact_id edge) referenced
     && negb (set_contains (fact_edge_id edge) (seen_edges st)) then
    from ← lift (fingerprint_of facts (from_fact_id edge));
    to ← lift (fingerprint_of facts (to_fact_id edge));
    mret {| seen_edges := set_insert (fact_edge_id edge) (seen_edges st);
            relationships := relationships st ++ [String.concat NUL [edge_kind_debug (fact_edge_kind edge); from; to]];
            examined := examined st |}
  else mret st.
Definition scan_fact (referenced : BTreeSet string) (st : relation_scan) (fact_id : string) : polling relation_scan :=
  _ ← poll token CANCELLED;
  for_each_polling (scan_edge referenced) st (default [] (map_get fact_id edges)).
Definition clause_signature (clause : ArchaeologyRuleClause) : polling string :=
  _ ← poll token CANCELLED;
  if negb (bool_decide (clause_trust clause = TrustDeterministic))
  then lift (Err "Archaeology rule clustering clause trust is invalid") else
  supporting ← lift (exact_fact_fingerprints (supporting_fact_ids clause) facts);
  contradicting ← lift (exact_fact_fingerprints (contradicting_fact_ids clause) facts);
  let referenced := set_of_list (supporting_fact_ids clause ++ contradicting_fact_ids clause) in
  st ← for_each_polling (scan_fact referenced) {| seen_edges := []; relationships := []; examined := 0 |} referenced;
  caveats ← lift (collect categorical_cluster_caveat
    (List.filter (fun value => negb (seqb value GENERATED_ONLY)) (caveats clause)));
  lift (ok_or (to_string (JArray [JStrings supporting; JStrings contradicting; JStrings (sort (relationships st));
    JStrings (sort caveats)])) "Archaeology rule cluster signature is not serializable").
Definition compatibility_key (rule : ArchaeologyRulePacket) : polling string :=
  if negb (bool_decide (rule_trust rule = TrustDeterministic))
     || negb (bool_decide (rule_lifecycle rule = LifecycleCandidate)) || is_some (rule_synthesis_identity rule)
  then lift (Err "Archaeology rule clustering requires deterministic candidates") else
  signatures ← for_each_polling (fun signatures clause =>
      signature ← clause_signature clause; mret (signatures ++ [signature])) [] (clauses rule);
  lift (ok_or (to_string (JArray [JString (rule_kind_debug (rule_kind rule)); JStrings (sort signatures)]))
    "Archaeology rule cluster key is not serializable").
End Compatibility.

(** ** The tables *)

(** An edge is filed under both its ends. *)
Definition file_edge (m : BTreeMap string (list ArchaeologyFactEdge)) (edge : ArchaeologyFactEdge)
    : BTreeMap string (list ArchaeologyFactEdge) :=
  let m := push_entry (from_fact_id edge) edge m in
  if seqb (to_fact_id edge) (from_fact_id edge) then m else push_entry (to_fact_id edge) edge m.
Definition origin_bytes (origin : ArchaeologyFactOrigin) : list N :=
  map blen [origin_fact_id origin; origin_source_unit_id origin; origin_path_identity origin;
    origin_ranking_path_identity origin] ++ [32].
Definition clause_bytes (clause : ArchaeologyRuleClause) : list N :=
  64 :: map blen ([clause_id clause; clause_text clause] ++ supporting_fact_ids clause ++ contradicting_fact_ids clause
    ++ evidence_span_ids clause ++ caveats clause).
Definition rule_bytes (rule : ArchaeologyRulePacket) : list N :=
  128 :: map blen ([rule_id rule; rule_repository_id rule; rule_generation_id rule; rule_revision_sha rule; rule_title rule;
      rule_parser_identity rule; rule_algorithm_identity rule]
    ++ match rule_synthesis_identity rule with Some identity => [identity] | None => [] end
    ++ domain_ids rule ++ dependency_rule_ids rule ++ conflict_rule_ids rule ++ alias_rule_ids rule
    ++ reasons (rule_coverage rule)).

Record cluster_tables : Type := {
  facts_by_id : BTreeMap string ArchaeologyFact;
  known_spans : BTreeSet string;
  origins_by_fact : BTreeMap string ArchaeologyFactOrigin;
  edges_by_fact : BTreeMap string (list ArchaeologyFactEdge)
}.
Section Tables.
Context (token : StructuralGraphCancellation).

Definition sum_clause (total : N) (clause : ArchaeologyRuleClause) : polling N :=
  _ ← poll token CANCELLED;
  mret (foldl saturating_add total (clause_bytes clause)).
Definition sum_rule (total : N) (entry : nat * ArchaeologyRulePacket) : polling N :=
  _ ← poll_every token CANCELLED 128 (fst entry);
  for_each_polling sum_clause (foldl saturating_add total (rule_bytes (snd entry))) (clauses (snd entry)).
Definition cluster_input_bytes (facts : list ArchaeologyFact) (edges : list ArchaeologyFactEdge)
    (origins : list ArchaeologyFactOrigin) (rules : list ArchaeologyRulePacket) : polling N :=
  total ← packet_input_bytes token facts edges;
  total ← for_each_polling (sum_bytes token origin_bytes) total (enumerate_nat 0 origins);
  for_each_polling sum_rule total (enumerate_nat 0 rules).

Definition index_cluster_fact (st : BTreeMap string ArchaeologyFact * BTreeSet string) (entry : nat * ArchaeologyFact)
    : polling (BTreeMap string ArchaeologyFact * BTreeSet string) :=
  let '(index, fact) := entry in
  _ ← poll_every token CANCELLED 128 index;
  if negb (is_cluster_fact fact) || map_contains_key (fact_id fact) (fst st)
  then lift (Err "Archaeology rule clustering facts are invalid") else
  mret (map_insert (fact_id fact) fact (fst st), foldl (fun spans id => set_insert id spans) (snd st) (fact_span_ids fact)).
Definition index_cluster_origin (facts : BTreeMap string ArchaeologyFact) (origins : BTreeMap string ArchaeologyFactOrigin)
    (entry : nat * ArchaeologyFactOrigin) : polling (BTreeMap string ArchaeologyFactOrigin) :=
  let '(index, origin) := entry in
  _ ← poll_every token CANCELLED 128 index;
  if negb (is_cluster_origin facts origin) || map_contains_key (origin_fact_id origin) origins
  then lift (Err "Archaeology rule clustering origins are invalid or private") else
  mret (map_insert (origin_fact_id origin) origin origins).
Definition index_cluster_edge (facts : BTreeMap string ArchaeologyFact) (edges : BTreeMap string ArchaeologyFactEdge)
    (entry : nat * ArchaeologyFactEdge) : polling (BTreeMap string ArchaeologyFactEdge) :=
  let '(index, edge) := entry in
  _ ← poll_every token CANCELLED 128 index;
  if negb (is_cluster_edge facts edge) || map_contains_key (fact_edge_id edge) edges
  then lift (Err "Archaeology rule clustering relationships are invalid") else
  mret (map_insert (fact_edge_id edge) edge edges).
Definition build_cluster_tables (facts : list ArchaeologyFact) (edges : list ArchaeologyFactEdge)
    (origins : list ArchaeologyFactOrigin) : polling cluster_tables :=
  indexed ← for_each_polling index_cluster_fact ([], []) (enumerate_nat 0 facts);
  origins_by_fact ← for_each_polling (index_cluster_origin (fst indexed)) [] (enumerate_nat 0 origins);
  if negb (length origins_by_fact =? length (fst indexed))%nat
  then lift (Err "Archaeology rule clustering requires one origin per fact") else
  edges_by_id ← for_each_polling (index_cluster_edge (fst indexed)) [] (enumerate_nat 0 edges);
  mret {| facts_by_id := fst indexed; known_spans := snd indexed; origins_by_fact := origins_by_fact;
          edges_by_fact := foldl file_edge [] (map_values edges_by_id) |}.
End Tables.

(** ** Clusters *)

Record cluster_state : Type := {
  normalized : list ArchaeologyRulePacket;
  cluster_rule_ids : BTreeSet string;
  cluster_keys : BTreeMap string (list nat)
}.
Record election : Type := {
  elected_rules : list ArchaeologyRulePacket;
  member_primary : list N;
  primary_indices : BTreeSet N;
  relation_count : N
}.
Definition lower_clause (clause : ArchaeologyRuleClause) : ArchaeologyRuleClause :=
  set_clause clause ConfidenceLow (supporting_fact_ids clause) (contradicting_fact_ids clause) (evidence_span_ids clause)
    (caveats clause).
Definition add_generated_caveat (cs : list ArchaeologyRuleClause) : outcome (list ArchaeologyRuleClause) :=
  match cs with
  | [] => Crash "index out of bounds"
  | first :: rest =>
      if elemb GENERATED_ONLY (caveats first) then Ok cs else
      Ok (set_clause first (clause_confidence first) (supporting_fact_ids first) (contradicting_fact_ids first)
            (evidence_span_ids first) (sort (caveats first ++ [GENERATED_ONLY])) :: rest)
  end.
(** A member becomes the primary or an alias of it, of low confidence where the
    whole cluster is generated. *)
Definition elect_rule (is_primary : bool) (primary_id : string) (generated_only : bool) (rule : ArchaeologyRulePacket)
    : outcome ArchaeologyRulePacket :=
  let domains := if is_primary then ["domain:other"%string] else domain_ids rule in
  let aliases := if is_primary then alias_rule_ids rule else [primary_id] in
  if generated_only then
    cs ← add_generated_caveat (map lower_clause (clauses rule));
    Ok (set_rule rule domains ConfidenceLow cs (dependency_rule_ids rule) (conflict_rule_ids rule) aliases)
  else Ok (set_rule rule domains (rule_confidence rule) (clauses rule) (dependency_rule_ids rule) (conflict_rule_ids rule)
             aliases).

Section Cluster.
Context (token : StructuralGraphCancellation) (to_string : json -> option string).
Context (limits : ArchaeologyDeterministicLimits) (t : cluster_tables).
Context (repository_id revision_sha : string) (scope : option cluster_scope).

Definition cluster_rule (st : cluster_state) (entry : nat * ArchaeologyRulePacket) : polling cluster_state :=
  let '(index, rule) := entry in
  _ ← poll_every token CANCELLED 128 index;
  _ ← lift (ArchaeologyRulePacket_validate rule);
  if negb (is_cluster_rule repository_id revision_sha scope (facts_by_id t) (known_spans t) limits rule)
     || set_contains (rule_id rule) (cluster_rule_ids st)
  then lift (Err "Archaeology rule clustering rule scope is invalid") else
  let rule := normalize_rule rule in
  key ← compatibility_key token to_string (facts_by_id t) (edges_by_fact t) (max_examined_edges_per_packet limits) rule;
  if len (default [] (map_get key (cluster_keys st))) =? max_cluster_members limits
  then lift (Err "Archaeology rule cluster member bound exceeded") else
  mret {| normalized := normalized st ++ [rule]; cluster_rule_ids := set_insert (rule_id rule) (cluster_rule_ids st);
          cluster_keys := push_entry key index (cluster_keys st) |}.

Definition has_source_fact (rules : list ArchaeologyRulePacket) (index : nat) : outcome bool :=
  rule ← at_index rules index;
  any_outcome (fun id => origin ← index_or_panic (map_get id (origins_by_fact t)); Ok (is_source origin)) (rule_fact_ids rule).
Definition elect_member (primary : nat) (primary_id : string) (generated_only : bool) (st : election) (index : nat)
    : polling election :=
  _ ← poll token CANCELLED;
  primaries ← lift (set_index (member_primary st) index (N.of_nat primary));
  rule ← lift (at_index (elected_rules st) index);
  rule ← lift (elect_rule (index =? primary)%nat primary_id generated_only rule);
  rules ← lift (set_index (elected_rules st) index rule);
  mret {| elected_rules := rules; member_primary := primaries; primary_indices := primary_indices st;
          relation_count := if (index =? primary)%nat then relation_count st else saturating_add (relation_count st) 1 |}.
Definition elect_cluster (st : election) (members : list nat) : polling election :=
  _ ← poll token CANCELLED;
  primary ← lift (min_by_key (fun index => rule ← at_index (elected_rules st) index;
      primary_rank to_string (facts_by_id t) (origins_by_fact t) rule) members "Archaeology rule cluster is empty");
  primary_rule ← lift (at_index (elected_rules st) primary);
  source ← lift (any_outcome (has_source_fact (elected_rules st)) members);
  for_each_polling (elect_member primary (rule_id primary_rule) (negb source))
    {| elected_rules := elected_rules st; member_primary := member_primary st;
       primary_indices := set_insert (N.of_nat primary) (primary_indices st); relation_count := relation_count st |} members.

(** ** Conflicts *)

Definition add_supporting_primaries (primaries : list N) (m : BTreeMap string (BTreeSet N)) (entry : nat * ArchaeologyRulePacket)
    : polling (BTreeMap string (BTreeSet N)) :=
  let '(index, rule) := entry in
  _ ← poll_every token CANCELLED 128 index;
  lift (for_each (fun m id =>
      fingerprint ← fingerprint_of (facts_by_id t) id;
      primary ← at_index primaries index;
      Ok (insert_entry fingerprint primary m)) m (supporting_rule_fact_ids rule)).
Definition add_conflict (primary : N) (conflicts : BTreeSet (N * N)) (other : N) : BTreeSet (N * N) :=
  if primary =? other then conflicts else set_insert (N.min primary other, N.max primary other) conflicts.
Definition add_conflicts (primaries : list N) (supporting_primaries : BTreeMap string (BTreeSet N))
    (conflicts : BTreeSet (N * N)) (entry : nat * ArchaeologyRulePacket) : polling (BTreeSet (N * N)) :=
  let '(index, rule) := entry in
  _ ← poll_every token CANCELLED 128 index;
  primary ← lift (at_index primaries index);
  lift (for_each (fun conflicts id =>
      fingerprint ← fingerprint_of (facts_by_id t) id;
      Ok (foldl (add_conflict primary) conflicts (default [] (map_get fingerprint supporting_primaries))))
    conflicts (contradicting_rule_fact_ids rule)).
Definition push_conflict (rules : list ArchaeologyRulePacket) (index : nat) (id : string) : outcome (list ArchaeologyRulePacket) :=
  rule ← at_index rules index;
  set_index rules index (with_conflicts rule (conflict_rule_ids rule ++ [id])).
Definition mark_conflict (rules : list ArchaeologyRulePacket) (conflict : N * N) : outcome (list ArchaeologyRulePacket) :=
  let left := N.to_nat (fst conflict) in
  let right := N.to_nat (snd conflict) in
  left_rule ← at_index rules left;
  right_rule ← at_index rules right;
  rules ← push_conflict rules left (rule_id right_rule);
  push_conflict rules right (rule_id left_rule).
Definition find_conflicts (st : election) : polling (BTreeSet (N * N)) :=
  supporting_primaries ← for_each_polling (add_supporting_primaries (member_primary st)) []
    (enumerate_nat 0 (elected_rules st));
  for_each_polling (add_conflicts (member_primary st) supporting_primaries) [] (enumerate_nat 0 (elected_rules st)).
End Cluster.

(** ** Occurrences of one canonical rule *)

Record reconciliation : Type := {
  reconciled_rules : list ArchaeologyRulePacket;
  replacements : BTreeMap string string;
  removed : BTreeSet nat
}.
Section Reconcile.
Context (to_string : json -> option string) (facts : BTreeMap string ArchaeologyFact) (limits : ArchaeologyDeterministicLimits).

Definition occurrence_key (rule : ArchaeologyRulePacket) : outcome string :=
  supporting ← collect (fun id => fact ← index_or_panic (map_get id facts); stable_fact_semantic_key fact)
    (supporting_rule_fact_ids rule);
  ok_or (to_string (JArray [JString (rule_kind_name (rule_kind rule));
    JArray (map (fun key => JStrings [fst key; snd key]) (set_of_list supporting))]))
    "Archaeology canonical occurrence key is not serializable".
Definition group_occurrence (groups : BTreeMap string (list nat)) (entry : nat * ArchaeologyRulePacket)
    : outcome (BTreeMap string (list nat)) :=
  let '(index, rule) := entry in
  if negb (is_nil (alias_rule_ids rule)) then Ok groups else
  key ← occurrence_key rule;
  Ok (push_entry key index groups).
(** The secondary's clauses and relations go to the primary. *)
Definition absorb (primary : nat) (primary_id : string) (st : reconciliation) (secondary : nat) : outcome reconciliation :=
  secondary_rule ← at_index (reconciled_rules st) secondary;
  primary_rule ← at_index (reconciled_rules st) primary;
  cs ← for_each merge_rendered_clause (clauses primary_rule) (clauses secondary_rule);
  rules ← set_index (reconciled_rules st) primary (set_rule primary_rule (domain_ids primary_rule)
    (conservative_confidence (rule_confidence primary_rule) (rule_confidence secondary_rule)) cs
    (dependency_rule_ids primary_rule ++ dependency_rule_ids secondary_rule)
    (conflict_rule_ids primary_rule ++ conflict_rule_ids secondary_rule) (alias_rule_ids primary_rule));
  Ok {| reconciled_rules := rules; replacements := map_insert (rule_id secondary_rule) primary_id (replacements st);
        removed := set_insert secondary (removed st) |}.
Definition sort_clauses (rule : ArchaeologyRulePacket) : outcome ArchaeologyRulePacket :=
  cs ← sort_by_rank (canonical_clause_semantic_rank to_string facts) (clauses rule);
  Ok (with_clauses rule cs).
Definition reconcile_group (st : reconciliation) (members : list nat) : outcome reconciliation :=
  if (length members <=? 1)%nat then Ok st else
  primary ← min_by_key (fun index => rule ← at_index (reconciled_rules st) index;
      canonical_rule_semantic_rank to_string facts rule) members "Archaeology canonical occurrence group is empty";
  primary_rule ← at_index (reconciled_rules st) primary;
  st ← for_each (absorb primary (rule_id primary_rule)) st (List.filter (fun index => negb (index =? primary)%nat) members);
  rule ← at_index (reconciled_rules st) primary;
  rule ← sort_clauses rule;
  rules ← set_index (reconciled_rules st) primary rule;
  if (max_clauses_per_rule limits <? len (clauses rule)) || negb (forallb (clause_fits limits) (clauses rule))
  then Err "Archaeology canonical occurrence merge bound exceeded" else
  Ok {| reconciled_rules := rules; replacements := replacements st; removed := removed st |}.
Definition replace_id (replacements : BTreeMap string string) (id : string) : string := default id (map_get id replacements).
Definition replaced_ids (replacements : BTreeMap string string) (self : string) (ids : list string) : list string :=
  dedup (sort (List.filter (fun id => negb (seqb id self)) (map (replace_id replacements) ids))).
Definition reparent (replacements : BTreeMap string string) (rule : ArchaeologyRulePacket) : ArchaeologyRulePacket :=
  set_rule rule (domain_ids rule) (rule_confidence rule) (clauses rule)
    (replaced_ids replacements (rule_id rule) (dependency_rule_ids rule))
    (replaced_ids replacements (rule_id rule) (conflict_rule_ids rule))
    (dedup (sort (map (replace_id replacements) (alias_rule_ids rule)))).
Definition reconcile_duplicate_canonical_occurrences (rules : list ArchaeologyRulePacket)
    : outcome (list ArchaeologyRulePacket) :=
  groups ← for_each group_occurrence [] (enumerate_nat 0 rules);
  st ← for_each reconcile_group {| reconciled_rules := rules; replacements := []; removed := [] |} (map_values groups);
  if is_nil (replacements st) then Ok (reconciled_rules st) else
  let kept := map snd (List.filter (fun entry => negb (set_contains (fst entry) (removed st)))
    (enumerate_nat 0 (map (reparent (replacements st)) (reconciled_rules st)))) in
  _ ← for_all ArchaeologyRulePacket_validate kept;
  Ok kept.
End Reconcile.

(** ** The whole *)

Section Whole.
Context (token : StructuralGraphCancellation) (to_string : json -> option string).
Context (json_rules : list ArchaeologyRulePacket -> option N) (repository_id revision_sha : string).
Context (limits : ArchaeologyDeterministicLimits).

Definition is_clustering_scope (rules : list ArchaeologyRulePacket) (facts : list ArchaeologyFact)
    (edges : list ArchaeologyFactEdge) (origins : list ArchaeologyFactOrigin) : bool :=
  safe_scope_id repository_id && bool_decide (validate_revision_sha revision_sha = Ok tt)
  && (len rules <=? max_packets limits) && (len facts <=? det_max_facts limits) && (len edges <=? det_max_edges limits)
  && (len origins <=? det_max_facts limits)
  && forallb (fun bound => negb (bound =? 0))
       [det_max_input_bytes limits; max_clauses_per_rule limits; max_clause_text_bytes limits; max_facts_per_packet limits;
        max_examined_edges_per_packet limits; max_spans_per_packet limits; max_cluster_members limits;
        max_cluster_relations limits; max_cluster_domains limits; max_cluster_output_bytes limits].
Definition check_rule_input (entry : nat * ArchaeologyRulePacket) : polling unit :=
  _ ← poll_every token CANCELLED 128 (fst entry);
  if rule_fits limits (snd entry) then mret tt
  else lift (Err "Archaeology rule clustering rule input bound exceeded").
(** Clusters, primaries and conflicts. *)
Definition cluster_rules (t : cluster_tables) (rules : list ArchaeologyRulePacket) : polling (list ArchaeologyRulePacket) :=
  let clustered := sort_by_key rule_id rules in
  let scope := option_map scope_of (head clustered) in
  st ← for_each_polling (cluster_rule token to_string limits t repository_id revision_sha scope)
    {| normalized := []; cluster_rule_ids := []; cluster_keys := [] |} (enumerate_nat 0 clustered);
  elected ← for_each_polling (elect_cluster token to_string t)
    {| elected_rules := normalized st; member_primary := replicate (length clustered) usize_max; primary_indices := [];
       relation_count := 0 |} (map_values (cluster_keys st));
  if max_cluster_domains limits <? len (primary_indices elected)
  then lift (Err "Archaeology rule cluster domain bound exceeded") else
  conflicts ← find_conflicts token t elected;
  let relation_count := saturating_add (relation_count elected) (N.min (len conflicts * 2) usize_max) in
  if max_cluster_relations limits <? relation_count
  then lift (Err "Archaeology rule cluster relation bound exceeded") else
  marked ← lift (for_each mark_conflict (elected_rules elected) conflicts);
  mret (map (fun rule => with_conflicts rule (dedup (sort (conflict_rule_ids rule)))) marked).
Definition cluster_evidence_compatible_rules (rules : list ArchaeologyRulePacket) (facts : list ArchaeologyFact)
    (edges : list ArchaeologyFactEdge) (origins : list ArchaeologyFactOrigin) : polling (list ArchaeologyRulePacket) :=
  _ ← poll token CANCELLED;
  if negb (is_clustering_scope rules facts edges origins)
  then lift (Err "Archaeology rule clustering scope or bounds are invalid") else
  _ ← for_each_polling (fun _ => check_rule_input) tt (enumerate_nat 0 rules);
  input ← cluster_input_bytes token facts edges origins rules;
  if det_max_input_bytes limits <? input then lift (Err "Archaeology rule clustering input byte bound exceeded") else
  t ← build_cluster_tables token facts edges origins;
  clustered ← cluster_rules t rules;
  reconciled ← lift (reconcile_duplicate_canonical_occurrences to_string (facts_by_id t) limits clustered);
  sorted ← lift (collect (sort_clauses to_string (facts_by_id t)) reconciled);
  _ ← poll token CANCELLED;
  length ← lift (ok_or (json_rules sorted) "Archaeology clustered rules are not serializable");
  if max_cluster_output_bytes limits <? length
  then lift (Err "Archaeology rule cluster output byte bound exceeded") else
  _ ← poll token CANCELLED;
  mret sorted.
End Whole.

(** ** An example *)

(** A serialization that tells values apart. *)
Fixpoint ex_escape (s : string) (rest : string) : string :=
  match s with
  | EmptyString => "'" ++ rest
  | String c s => "\" ++ String c (ex_escape s rest)
  end%string.
Fixpoint ex_json (j : json) (rest : string) : string :=
  match j with
  | JString s => "'" ++ ex_escape s rest
  | JArray l => "[" ++ foldr (fun j rest => "," ++ ex_json j rest) ("]" ++ rest) l
  end%string.
Definition ex_to_string (j : json) : option string := Some (ex_json j "").
(** Two occurrences of one check, a check that sets it aside, and the check again
    under another name. *)
Definition ex_check (id label digit : string) : ArchaeologyFact := {|
  fact_id := id; fact_kind := FactPredicate; fact_label := label; fact_span_ids := [("span:" ++ id)%string];
  fact_parser_id := "cobol"; fact_trust := TrustExtracted; fact_confidence := ConfidenceHigh;
  fact_attributes := [{| attribute_key := "semantic_expr";
    attribute_value := ("v1:sha256:" ++ String.concat "" (replicate 64 digit))%string |}] |}.
Definition ex_cluster_facts : list ArchaeologyFact :=
  [ex_check "first" "AGE < 18" "0"; ex_check "second" "age < 18" "0"; ex_check "against" "AGE >= 18" "1";
   ex_check "renamed" "MINOR" "0"]%string.
Definition ex_origin (id : string) : ArchaeologyFactOrigin := {|
  origin_fact_id := id; origin_source_unit_id := "unit"; origin_path_identity := "path";
  origin_ranking_path_identity := "ranking"; origin_classification := ClassSource |}.
Definition ex_origins : list ArchaeologyFactOrigin := map ex_origin ["first"; "second"; "against"; "renamed"]%string.
Definition ex_clause (id text : string) (supporting contradicting : list string) : ArchaeologyRuleClause := {|
  clause_id := id; clause_text := text; clause_trust := TrustDeterministic; clause_confidence := ConfidenceHigh;
  supporting_fact_ids := supporting; contradicting_fact_ids := contradicting;
  evidence_span_ids := map (fun id => ("span:" ++ id)%string) (supporting ++ contradicting); caveats := [] |}.
Definition ex_rule (id : string) (cs : list ArchaeologyRuleClause) : ArchaeologyRulePacket := {|
  rule_id := id; rule_repository_id := ex_repository; rule_generation_id := "gen"; rule_revision_sha := ex_sha;
  rule_kind := RuleValidation; rule_title := "The age is checked"; domain_ids := []; rule_lifecycle := LifecycleCandidate;
  rule_trust := TrustDeterministic; rule_confidence := ConfidenceHigh; Contracts.clauses := cs; dependency_rule_ids := [];
  conflict_rule_ids := []; alias_rule_ids := []; rule_coverage := ex_coverage; rule_parser_identity := "parser";
  rule_algorithm_identity := "algorithm"; rule_synthesis_identity := None |}.
Definition ex_cluster_rules : list ArchaeologyRulePacket :=
  [ex_rule "r4" [ex_clause "c4" "Minors are refused" ["renamed"] []];
   ex_rule "r2" [ex_clause "c2" "Age is checked" ["second"] []];
   ex_rule "r1" [ex_clause "c1" "Age is checked" ["first"] []];
   ex_rule "r3" [ex_clause "c3" "Age is not checked" ["against"] ["first"]]]%string.
Definition ex_cluster (rules : list ArchaeologyRulePacket) : outcome (list ArchaeologyRulePacket * nat) :=
  cluster_evidence_compatible_rules never_cancelled ex_to_string (fun _ => Some 100) ex_repository ex_sha
    default_deterministic_limits rules ex_cluster_facts [] ex_origins 0%nat.
Definition ex_relations (rule : ArchaeologyRulePacket) := (rule_id rule, alias_rule_ids rule, conflict_rule_ids rule,
  map clause_text (clauses rule)).
Example ex_cluster_ok : map ex_relations <$> (fst <$> ex_cluster ex_cluster_rules) = Ok
  [("r1", [], ["r3"], ["Age is checked"; "Minors are refused"]); ("r2", ["r1"], [], ["Age is checked"]);
   ("r3", [], ["r1"], ["Age is not checked"])]%string.
Proof. vm_compute. reflexivity. Qed.
