(* ===== verification/ClusterProps.v ===== *)
(** Lemmas about the clustering of [Clusters]: the tables it builds, the meaning
    its keys serialize, and what its loops do to the rules. *)
From S2P Require Import Prelude Ordering Entries RustText GraphTypes SecretPolicy Contracts Adapter Packets TemplateRules PacketProps PacketTheorems TemplateProps Clusters.
Local Open Scope nat_scope.

(** * Answers without the flag *)

(** Whatever the flag does and whenever the operation starts, it can only return
    one answer. *)
Definition steady {A} (op : StructuralGraphCancellation -> polling A) : Prop :=
  exists m : outcome A, forall token n a n', op token n = Ok (a, n') -> m = Ok a.
Lemma steady_const {A} (m : outcome A) : steady (fun _ => lift m).
Proof. exists m. intros token n a n' (b & -> & [= -> _])%lift_Ok. done. Qed.
Lemma steady_ret {A} (a : A) : steady (fun _ => mret a).
Proof. exists (Ok a). by intros token n b n' ->%mret_Ok. Qed.
Lemma steady_poll message : steady (fun token => poll token message).
Proof. exists (Ok tt). by intros token n [] n'. Qed.
Lemma steady_poll_every message period index : steady (fun token => poll_every token message period index).
Proof. exists (Ok tt). by intros token n [] n'. Qed.
Lemma steady_bind {A B} (op : StructuralGraphCancellation -> polling A) (f : StructuralGraphCancellation -> A -> polling B) :
  steady op -> (forall a, steady (fun token => f token a)) -> steady (fun token => op token ≫= f token).
Proof.
  intros [m Hm] Hf. destruct m as [a|e|w].
  - destruct (Hf a) as [k Hk]. exists k. intros token n b n' (a' & n1 & [= <-]%Hm & Hb)%polling_bind_Ok. eauto.
  - exists (Err e). by intros token n b n' (a' & n1 & ?%Hm & _)%polling_bind_Ok.
  - exists (Crash w). by intros token n b n' (a' & n1 & ?%Hm & _)%polling_bind_Ok.
Qed.
Lemma steady_for_each {S A} (f : StructuralGraphCancellation -> S -> A -> polling S) s l :
  (forall s x, steady (fun token => f token s x)) -> steady (fun token => for_each_polling (f token) s l).
Proof.
  intros Hf. revert s. induction l as [|x l IH]; intros s; cbn [for_each_polling]; [apply (steady_ret s)|].
  apply (steady_bind (fun token => f token s x) (fun token s' => for_each_polling (f token) s' l)); auto.
Qed.
Lemma steady_unique {A} (op : StructuralGraphCancellation -> polling A) token n a k token' n' a' k' :
  steady op -> op token n = Ok (a, k) -> op token' n' = Ok (a', k') -> a = a'.
Proof. intros [m Hm] H1%Hm H2%Hm. congruence. Qed.
Ltac steadying := repeat first
  [ apply steady_poll | apply steady_poll_every | apply steady_const | apply steady_ret
  | apply steady_bind; [|intros ?] | apply steady_for_each; intros ? ? | case_match ].

(** * The tables *)

Definition edge_ends (edge : ArchaeologyFactEdge) : list string :=
  from_fact_id edge :: if seqb (to_fact_id edge) (from_fact_id edge) then [] else [to_fact_id edge].
Definition edges_filed (edges_by_id : BTreeMap string ArchaeologyFactEdge) : BTreeMap string (list ArchaeologyFactEdge) :=
  foldl file_edge [] (map_values edges_by_id).
Lemma edges_filed_pushes edges_by_id : edges_filed edges_by_id =
  pushes (concat (map (fun e => map (fun key => (key, e)) (edge_ends e)) (map_values edges_by_id))).
Proof.
  unfold edges_filed. rewrite <- (pushes_concat edge_ends (fun e => e)). apply foldl_ext_in. intros m e.
  unfold file_edge, edge_ends. by destruct (seqb _ _).
Qed.
Lemma elem_of_edges_filed edges_by_id id e :
  e ∈ default [] (map_get id (edges_filed edges_by_id)) <-> e ∈ map_values edges_by_id /\ touches_fact id e = true.
Proof.
  rewrite edges_filed_pushes, pushes_default, elem_of_entries, elem_of_concat_map, touches_iff.
  setoid_rewrite list_elem_of_fmap. unfold edge_ends. split.
  - intros (e' & (key & [= <- <-] & Hkey) & He). split; [done|]. destruct (seqb _ _); set_solver.
  - intros [He Ht]. exists e. split; [|done]. exists id. split; [done|].
    destruct (seqb (to_fact_id e) (from_fact_id e)) eqn:E; [apply seqb_true in E|]; set_solver.
Qed.
Lemma edges_ok_values edges by_id edges_by_id e : edges_ok edges by_id edges_by_id ->
  e ∈ map_values edges_by_id <-> e ∈ edges.
Proof.
  intros [Hwf Hget _ _ _]. unfold map_values. rewrite list_elem_of_fmap. split.
  - intros ([id e'] & -> & [Hin _]%(map_get_Some _ _ _ Hwf)%Hget). done.
  - intros He. exists (fact_edge_id e, e). split; [done|]. by apply (map_get_Some _ _ _ Hwf), Hget.
Qed.

Record origins_ok (facts : list ArchaeologyFact) (origins : list ArchaeologyFactOrigin)
    (origins_by_fact : BTreeMap string ArchaeologyFactOrigin) : Prop := {
  oo_wf : map_wf origins_by_fact;
  oo_get : forall id o, map_get id origins_by_fact = Some o <-> o ∈ origins /\ origin_fact_id o = id;
  oo_keys : forall id, id ∈ map_keys origins_by_fact <-> id ∈ map fact_id facts
}.
(** The tables of facts, relationships and origins that agree with the input. *)
Record cluster_tables_ok (facts : list ArchaeologyFact) (edges : list ArchaeologyFactEdge)
    (origins : list ArchaeologyFactOrigin) (t : cluster_tables) : Prop := {
  ct_facts : facts_ok facts (facts_by_id t);
  ct_spans : known_spans t = set_of_list (concat (map fact_span_ids facts));
  ct_origins : origins_ok facts origins (origins_by_fact t);
  ct_edges : exists edges_by_id, edges_ok edges (facts_by_id t) edges_by_id /\ edges_by_fact t = edges_filed edges_by_id
}.
Lemma facts_ok_keys facts by_id id : facts_ok facts by_id -> id ∈ map_keys by_id <-> id ∈ map fact_id facts.
Proof.
  intros Hf. rewrite <- map_get_is_Some, list_elem_of_fmap. split.
  - intros [f [Hin <-]%(fo_get _ _ Hf)]. eauto.
  - intros (f & -> & Hin). exists f. by apply (fo_get _ _ Hf).
Qed.

Lemma index_cluster_fact_ok token facts n tables n' :
  for_each_polling (index_cluster_fact token) ([], []) (enumerate_nat 0 facts) n = Ok (tables, n') ->
  facts_ok facts (fst tables) /\ snd tables = set_of_list (concat (map fact_span_ids facts)) /\
  Forall (fun f => is_cluster_fact f = true) facts.
Proof.
  assert (forall s i f k s' k', index_cluster_fact token s (i, f) k = Ok (s', k') ->
    is_cluster_fact f = true /\ map_contains_key (fact_id f) (fst s) = false /\
    s' = (map_insert (fact_id f) f (fst s), foldl (fun spans id => set_insert id spans) (snd s) (fact_span_ids f))) as Hstep.
  { intros s i f k s' k'. cbn [index_cluster_fact]. intros (u & n1 & _ & H)%polling_bind_Ok.
    case_match eqn:E; [done|]. apply mret_Ok in H as ->. by apply orb_false_iff in E as [E1%negb_false_iff E]. }
  intros H. split_and!.
  - eapply (insert_polled fst (fun p => fact_id (snd p)) snd (fun _ => True)) in H as (Hwf & _ & Hnd & Hget); [|clear H|done].
    + by apply facts_table.
    + by intros s [i f] k s' k' (_ & Hnew & ->)%Hstep.
  - rewrite <- (map_snd_enumerate 0 facts), map_map. revert H.
    apply (for_each_polling_inv (fun pre st => snd st = set_of_list (concat (map (fun p => fact_span_ids (snd p)) pre))));
      [done|]. intros pre [i f] suf s1 s2 k k' _ Hs (_ & _ & ->)%Hstep. by apply spans_step.
  - apply Forall_forall. rewrite <- (map_snd_enumerate 0 facts). revert H.
    apply (for_each_polling_inv (fun pre _ => forall f, f ∈ map snd pre -> is_cluster_fact f = true)); [by intros f ?%not_elem_of_nil|].
    intros pre [i f] suf s1 s2 k k' _ Hs (Hf & _)%Hstep f'. rewrite map_app. intros [Hin| ->%list_elem_of_singleton]%elem_of_app; auto.
Qed.
Lemma index_cluster_origin_ok token by_id origins n origins_by_fact n' :
  for_each_polling (index_cluster_origin token by_id) [] (enumerate_nat 0 origins) n = Ok (origins_by_fact, n') ->
  map_wf origins_by_fact /\ (forall id o, map_get id origins_by_fact = Some o <-> o ∈ origins /\ origin_fact_id o = id) /\
  (forall id, id ∈ map_keys origins_by_fact -> id ∈ map_keys by_id) /\ NoDup (map origin_fact_id origins).
Proof.
  intros H. eapply (insert_polled (fun s => s) (fun p => origin_fact_id (snd p)) snd (fun p => is_cluster_origin by_id (snd p) = true))
    in H as (Hwf & Hok & Hnd & Hget); [|clear|done].
  - assert (forall id o, map_get id origins_by_fact = Some o <-> o ∈ origins /\ origin_fact_id o = id) as Hall.
    { intros id o. rewrite Hget. split.
      - intros ([i o'] & Hin & <- & <-). split; [|done]. apply elem_of_enumerate_snd. by exists i.
      - intros [(i & Hin)%elem_of_enumerate_snd <-]. by exists (i, o). }
    split_and!; [done..| |by rewrite map_snd_key in Hnd].
    intros id [o [(i & Hin)%elem_of_enumerate_snd <-]%Hall]%map_get_is_Some.
    eapply Forall_forall in Hok; [|exact Hin]. unfold is_cluster_origin in Hok. rewrite !andb_true_iff in Hok.
    apply map_contains_key_true, Hok.
  - intros s [i o] k s' k'. cbn [index_cluster_origin fst snd]. intros (u & n1 & _ & H)%polling_bind_Ok.
    case_match eqn:E; [done|]. apply mret_Ok in H as ->. by apply orb_false_iff in E as [E1%negb_false_iff E2].
Qed.
Lemma index_cluster_edge_ok token by_id edges n edges_by_id n' :
  for_each_polling (index_cluster_edge token by_id) [] (enumerate_nat 0 edges) n = Ok (edges_by_id, n') ->
  edges_ok edges by_id edges_by_id.
Proof.
  intros H. eapply (insert_polled (fun s => s) (fun p => fact_edge_id (snd p)) snd (fun p =>
    edge_evidence_matches_endpoints (snd p) by_id = true)) in H as (Hwf & Hok & Hnd & Hget); [|clear|done].
  - by apply edges_table.
  - intros s [i e] k s' k'. cbn [index_cluster_edge fst snd]. intros (u & n1 & _ & H)%polling_bind_Ok.
    case_match eqn:E; [done|]. apply mret_Ok in H as ->.
    apply orb_false_iff in E as [E1%negb_false_iff E2]. unfold is_cluster_edge in E1. rewrite !andb_true_iff in E1.
    split_and!; [apply E1|done..].
Qed.
Lemma wf_keys_length {K V W} `{RustOrd K} (m : BTreeMap K V) (m' : BTreeMap K W) :
  map_wf m -> map_wf m' -> (forall k, k ∈ map_keys m -> k ∈ map_keys m') -> length m = length m' ->
  forall k, k ∈ map_keys m' -> k ∈ map_keys m.
Proof.
  intros H1%map_keys_NoDup H2%map_keys_NoDup Hsub Hlen.
  assert (map_keys m ≡ₚ map_keys m') as Hp; [|intros k; by rewrite Hp].
  apply (submseteq_length_Permutation); [by apply NoDup_submseteq|]. unfold map_keys. rewrite !length_map. lia.
Qed.
Lemma build_cluster_tables_ok token facts edges origins n t n' :
  build_cluster_tables token facts edges origins n = Ok (t, n') -> cluster_tables_ok facts edges origins t.
Proof.
  unfold build_cluster_tables. intros ([by_id spans] & n1 & (Hf & Hs & _)%index_cluster_fact_ok & H)%polling_bind_Ok.
  apply polling_bind_Ok in H as (os & n2 & (Hwf & Hget & Hsub & _)%index_cluster_origin_ok & H).
  cbn [fst snd] in *. destruct (negb _) eqn:Hlen in H; [done|]. apply negb_false_iff, Nat.eqb_eq in Hlen.
  apply polling_bind_Ok in H as (es & n3 & He%index_cluster_edge_ok & ->%mret_Ok). split; cbn; [done|done| |by exists es].
  split; [done..|]. intros id. rewrite <- (facts_ok_keys _ _ _ Hf). split; [apply Hsub|].
  apply (wf_keys_length os by_id); [done|apply Hf|done|done].
Qed.

(** The tables do not depend on the order of the input. *)
Lemma facts_ok_perm facts facts' m : facts ≡ₚ facts' -> facts_ok facts m -> facts_ok facts' m.
Proof. intros Hp [H1 H2 H3]. split; [done|by setoid_rewrite <- Hp|by rewrite <- Hp]. Qed.
Lemma cluster_tables_unique facts facts' edges edges' origins origins' t t' :
  facts ≡ₚ facts' -> edges ≡ₚ edges' -> origins ≡ₚ origins' ->
  cluster_tables_ok facts edges origins t -> cluster_tables_ok facts' edges' origins' t' -> t = t'.
Proof.
  intros Hf He Ho [F S [W G _] (m & E & B)] [F' S' [W' G' _] (m' & E' & B')].
  assert (facts_by_id t = facts_by_id t') as Hfacts by (apply (facts_ok_unique facts'); [by apply (facts_ok_perm facts)|done]).
  assert (known_spans t = known_spans t') as Hspans.
  { rewrite S, S'. apply set_of_list_ext. intros span. rewrite !elem_of_concat_map. by setoid_rewrite Hf. }
  assert (origins_by_fact t = origins_by_fact t') as Horigins.
  { setoid_rewrite <- Ho in G'. apply map_ext_get; [done..|]. intros id.
    destruct (map_get id (origins_by_fact t)) as [o|] eqn:E1; [symmetry; by apply G', G|].
    destruct (map_get id (origins_by_fact t')) as [o|] eqn:E2; [|done]. by apply G', G in E2 as <-. }
  rewrite <- Hfacts in E'. pose proof (edges_ok_unique _ _ _ _ _ He E E') as <-.
  destruct t, t'; cbn in *. congruence.
Qed.

(** * Order of the input *)

Section Steady.
Context (to_string : json -> option string) (limits : ArchaeologyDeterministicLimits) (t : cluster_tables).
Context (repository_id revision_sha : string) (scope : option cluster_scope).

Lemma compatibility_key_steady edges limit rule :
  steady (fun token => compatibility_key token to_string (facts_by_id t) edges limit rule).
Proof. unfold compatibility_key, clause_signature, scan_fact, scan_edge. steadying. Qed.
Lemma cluster_rule_steady st entry :
  steady (fun token => cluster_rule token to_string limits t repository_id revision_sha scope st entry).
Proof.
  unfold cluster_rule. case_match. apply steady_bind; [apply steady_poll_every|intros _].
  apply steady_bind; [apply steady_const|intros _]. case_match; [apply steady_const|]. cbn zeta.
  apply steady_bind; [apply compatibility_key_steady|intros key]. steadying.
Qed.
Lemma elect_cluster_steady st members : steady (fun token => elect_cluster token to_string t st members).
Proof. unfold elect_cluster, elect_member. steadying. Qed.
Lemma find_conflicts_steady st : steady (fun token => find_conflicts token t st).
Proof. unfold find_conflicts, add_supporting_primaries, add_conflicts. steadying. Qed.
End Steady.
Lemma cluster_rules_steady to_string repository_id revision_sha limits t rules :
  steady (fun token => cluster_rules token to_string repository_id revision_sha limits t rules).
Proof.
  unfold cluster_rules. cbn zeta. apply steady_bind; [apply steady_for_each; intros; apply cluster_rule_steady|intros st].
  apply steady_bind; [apply steady_for_each; intros; apply elect_cluster_steady|intros elected].
  case_match; [apply steady_const|]. apply steady_bind; [apply find_conflicts_steady|intros conflicts].
  case_match; [apply steady_const|]. steadying.
Qed.
(** What an answer consists of. *)
Lemma clustered_Ok token to_string json_rules repository_id revision_sha limits rules facts edges origins n out n' :
  cluster_evidence_compatible_rules token to_string json_rules repository_id revision_sha limits rules facts edges origins n
    = Ok (out, n') ->
  exists t n1 clustered n2 reconciled, cluster_tables_ok facts edges origins t /\
    cluster_rules token to_string repository_id revision_sha limits t rules n1 = Ok (clustered, n2) /\
    reconcile_duplicate_canonical_occurrences to_string (facts_by_id t) limits clustered = Ok reconciled /\
    collect (sort_clauses to_string (facts_by_id t)) reconciled = Ok out /\
    forallb (rule_fits limits) rules = true.
Proof.
  unfold cluster_evidence_compatible_rules. intros (u & n1 & _ & H)%polling_bind_Ok. case_match; [done|].
  apply polling_bind_Ok in H as ([] & n2 & Hfit & H). apply polling_bind_Ok in H as (input & n3 & _ & H). case_match; [done|].
  apply polling_bind_Ok in H as (t & n4 & Ht%build_cluster_tables_ok & H).
  apply polling_bind_Ok in H as (clustered & n5 & Hc & H).
  apply polling_bind_Ok in H as (reconciled & n6 & (r & Hr & [= -> _])%lift_Ok & H).
  apply polling_bind_Ok in H as (sorted & n7 & (s & Hs & [= -> _])%lift_Ok & H).
  apply polling_bind_Ok in H as (u' & n8 & _ & H). apply polling_bind_Ok in H as (size & n9 & _ & H). case_match; [done|].
  apply polling_bind_Ok in H as (u'' & n10 & _ & ->%mret_Ok). exists t, n4, clustered, n5, r. split_and!; [done..|].
  apply forallb_elem. rewrite <- (map_snd_enumerate 0 rules). revert Hfit.
  apply (for_each_polling_inv (fun pre _ => forall rule, rule ∈ map snd pre -> rule_fits limits rule = true));
    [by intros rule ?%not_elem_of_nil|].
  intros pre [i rule] suf s1 s2 k k' _ Hpre (v & k1 & _ & Hstep)%polling_bind_Ok rule'. cbn [snd] in Hstep.
  case_match; [|done]. rewrite map_app. intros [Hin| ->%list_elem_of_singleton]%elem_of_app; auto.
Qed.
(** The rules a run accepts are distinct. *)
Lemma cluster_rules_distinct token to_string repository_id revision_sha limits t rules n out n' :
  cluster_rules token to_string repository_id revision_sha limits t rules n = Ok (out, n') -> NoDup (map rule_id rules).
Proof.
  unfold cluster_rules. cbn zeta. intros (st & n1 & Hst & _)%polling_bind_Ok.
  assert (NoDup (map (fun p => rule_id (snd p)) (enumerate_nat 0 (sort_by_key rule_id rules)))) as Hnd.
  { eapply (for_each_polling_inv (fun pre st => NoDup (map (fun p => rule_id (snd p)) pre) /\
      forall id, id ∈ cluster_rule_ids st <-> id ∈ map (fun p => rule_id (snd p)) pre)) in Hst as [Hnd _]; [done| |].
    - split; [constructor|]. intros id. by rewrite !elem_of_nil.
    - intros pre [i rule] suf s1 s2 k k' _ [Hnd Hids]. cbn [cluster_rule]. intros (u & k1 & _ & H)%polling_bind_Ok.
      apply polling_bind_Ok in H as (u' & k2 & _ & H). destruct (_ || _) eqn:Hnew in H; [done|].
      apply orb_false_iff in Hnew as [_ Hnew%set_contains_false]. rewrite Hids in Hnew. cbn zeta in H.
      apply polling_bind_Ok in H as (key & k3 & _ & H). case_match; [done|]. apply mret_Ok in H as ->.
      rewrite map_app. split; [by apply NoDup_snoc|]. intros id. cbn [cluster_rule_ids normalize_rule with_clauses set_rule rule_id].
      rewrite elem_of_set_insert, Hids, elem_of_app. cbn [map snd]. rewrite list_elem_of_singleton. tauto. }
  rewrite <- (map_map snd rule_id), map_snd_enumerate in Hnd. revert Hnd.
  by rewrite sort_by_key_Permutation.
Qed.

(** * The meaning of a rule *)

(** The signature of a clause and of a rule, as the value that is serialized:
    what its facts are, which relationships join them, what it warns of. *)
Section Meaning.
Context (facts : BTreeMap string ArchaeologyFact) (edges_by_id : BTreeMap string ArchaeologyFactEdge).

Definition print_of (id : string) : string :=
  match map_get id facts with Some fact => fact_fingerprint fact | None => "" end.
Definition relation_of (e : ArchaeologyFactEdge) : string :=
  String.concat NUL [edge_kind_debug (fact_edge_kind e); print_of (from_fact_id e); print_of (to_fact_id e)].
Definition joins_facts (referenced : list string) (e : ArchaeologyFactEdge) : bool :=
  elemb (from_fact_id e) referenced && elemb (to_fact_id e) referenced.
Definition clause_meaning (clause : ArchaeologyRuleClause) : json :=
  JArray [JStrings (sort (map print_of (supporting_fact_ids clause)));
    JStrings (sort (map print_of (contradicting_fact_ids clause)));
    JStrings (sort (map relation_of (List.filter
      (joins_facts (supporting_fact_ids clause ++ contradicting_fact_ids clause)) (map_values edges_by_id))));
    JStrings (sort (List.filter (fun value => negb (seqb value GENERATED_ONLY)) (caveats clause)))].
(** Rules that mean the same: the same kind, and clauses that mean the same. *)
Definition same_meaning (r s : ArchaeologyRulePacket) : Prop :=
  rule_kind r = rule_kind s /\ map clause_meaning (clauses r) ≡ₚ map clause_meaning (clauses s).

Context (edges : list ArchaeologyFactEdge) (Hedges : edges_ok edges facts edges_by_id).

Lemma fingerprint_of_Ok id fp : fingerprint_of facts id = Ok fp -> print_of id = fp.
Proof. unfold fingerprint_of, print_of. intros (f & ->%index_or_panic_Ok & [= <-])%bind_Ok. done. Qed.
Lemma collect_fingerprints ids fps : collect (fingerprint_of facts) ids = Ok fps -> fps = map print_of ids.
Proof.
  intros H%collect_Ok. induction H as [|id fp ids fps Hid _ IH]; [done|]. cbn [map]. by rewrite (fingerprint_of_Ok _ _ Hid), IH.
Qed.
Lemma is_distinct_NoDup l : is_distinct l = true -> set_of_list l ≡ₚ l.
Proof.
  intros Hlen%Nat.eqb_eq. apply submseteq_length_Permutation; [|lia]. apply NoDup_submseteq.
  - apply sorted_NoDup, set_of_list_sorted.
  - intros x. by rewrite elem_of_set_of_list.
Qed.
Lemma exact_fact_fingerprints_Ok ids fps : exact_fact_fingerprints ids facts = Ok fps ->
  fps = sort (map print_of ids) /\ (forall id, id ∈ ids -> id ∈ map_keys facts).
Proof.
  unfold exact_fact_fingerprints. intros [[Hd%negb_false_iff Hk]%orb_false_iff H]%if_Err_Ok.
  apply bind_Ok in H as (values & ->%collect_fingerprints & [= <-]). split.
  - apply sort_perm_eq, Permutation_map. by apply is_distinct_NoDup.
  - intros id Hid. apply map_contains_key_true. destruct (map_contains_key id facts) eqn:E; [done|].
    assert (any (fun id => negb (map_contains_key id facts)) (set_of_list ids) = true) as Hany; [|congruence].
    apply any_true. exists id. split; [by apply elem_of_set_of_list|]. by rewrite E.
Qed.
Lemma values_NoDup : NoDup (map_values edges_by_id).
Proof.
  apply (NoDup_fmap_1 fact_edge_id). change (NoDup (map fact_edge_id (map_values edges_by_id))).
  assert (map fact_edge_id (map_values edges_by_id) = map_keys edges_by_id) as ->; [|apply map_keys_NoDup, Hedges].
  unfold map_keys, map_values. rewrite map_map. apply map_ext_in. intros [id e] Hin%list_elem_of_In. cbn.
  apply (map_get_Some _ _ _ (eo_wf _ _ _ Hedges)), (eo_get _ _ _ Hedges) in Hin as [_ <-]. done.
Qed.

Section Scan.
Context (referenced : BTreeSet string) (limit : N) (token : StructuralGraphCancellation).
Lemma elemb_set_contains (x : string) l : elemb x l = set_contains x (set_of_list l).
Proof.
  apply eq_true_iff_eq. by rewrite elemb_true, set_contains_true, elem_of_set_of_list.
Qed.
Definition joined (e : ArchaeologyFactEdge) : bool :=
  set_contains (from_fact_id e) referenced && set_contains (to_fact_id e) referenced.
Record scanned (seen : list ArchaeologyFactEdge) (st : relation_scan) (found : list ArchaeologyFactEdge) : Prop := {
  sc_relations : relationships st = map relation_of found;
  sc_ids : forall id, id ∈ seen_edges st <-> id ∈ map fact_edge_id found;
  sc_NoDup : NoDup found;
  sc_found : forall e, e ∈ found -> e ∈ map_values edges_by_id /\ joined e = true;
  sc_seen : forall e, e ∈ seen -> joined e = true -> e ∈ found
}.
Lemma scan_edge_ok seen st found e n st' n' :
  scanned seen st found -> e ∈ map_values edges_by_id -> (forall x, x ∈ seen -> x ∈ map_values edges_by_id) ->
  scan_edge token facts limit referenced st e n = Ok (st', n') -> exists found', scanned (seen ++ [e]) st' found'.
Proof.
  intros Hst He Hseen (u & n1 & _ & H)%polling_bind_Ok. case_match; [done|]. cbn zeta in H.
  assert (forall x, x ∈ map_values edges_by_id -> fact_edge_id x = fact_edge_id e -> x = e) as Hone.
  { intros x Hx Heq. rewrite !(edges_ok_values _ _ _ _ Hedges) in *.
    by apply (key_identifies fact_edge_id edges (eo_ids _ _ _ Hedges)). }
  destruct (_ && _) eqn:Hj in H.
  - apply andb_true_iff in Hj as [Hj Hnew%negb_true_iff%set_contains_false].
    apply polling_bind_Ok in H as (f & n2 & (f' & Hf%fingerprint_of_Ok & [= -> _])%lift_Ok & H).
    apply polling_bind_Ok in H as (g & n3 & (g' & Hg%fingerprint_of_Ok & [= -> _])%lift_Ok & ->%mret_Ok).
    cbn [seen_edges] in Hnew. rewrite (sc_ids _ _ _ Hst) in Hnew. exists (found ++ [e]).
    split; cbn [relationships seen_edges].
    + rewrite (sc_relations _ _ _ Hst), map_app. cbn [map]. unfold relation_of at 3. by rewrite Hf, Hg.
    + intros id. rewrite elem_of_set_insert, (sc_ids _ _ _ Hst), map_app, elem_of_app. cbn [map].
      rewrite list_elem_of_singleton. tauto.
    + apply NoDup_snoc. split; [|apply Hst]. contradict Hnew. by apply list_elem_of_fmap_2.
    + intros x [Hx| ->%list_elem_of_singleton]%elem_of_app; [by apply (sc_found _ _ _ Hst)|done].
    + intros x [Hx| ->%list_elem_of_singleton]%elem_of_app Hxj; apply elem_of_app; [left; by apply (sc_seen _ _ _ Hst)|right; left].
  - apply mret_Ok in H as ->. exists found. destruct Hst as [H1 H2 H3 H4 H5]. split; cbn [relationships seen_edges]; try done.
    intros x [Hx| ->%list_elem_of_singleton]%elem_of_app Hxj; [auto|].
    apply andb_false_iff in Hj as [Hj|Hj%negb_false_iff%set_contains_true]; [unfold joined in Hxj; congruence|].
    cbn [seen_edges] in Hj. apply H2, list_elem_of_fmap in Hj as (y & Hy & Hin).
    rewrite <- (Hone y); [done|by apply H4|done].
Qed.
Lemma scan_facts_ok n st n' :
  for_each_polling (scan_fact token facts (edges_filed edges_by_id) limit referenced)
    {| seen_edges := []; relationships := []; examined := 0 |} referenced n = Ok (st, n') ->
  exists found, scanned (concat (map (fun id => default [] (map_get id (edges_filed edges_by_id))) referenced)) st found.
Proof.
  assert (forall x id, x ∈ default [] (map_get id (edges_filed edges_by_id)) -> x ∈ map_values edges_by_id) as Hval
    by by intros x id [Hx _]%elem_of_edges_filed.
  apply (for_each_polling_inv (fun pre st =>
    exists found, scanned (concat (map (fun id => default [] (map_get id (edges_filed edges_by_id))) pre)) st found)).
  { exists []. split; [done|done|constructor|by intros e ?%not_elem_of_nil|by intros e ?%not_elem_of_nil]. }
  intros pre id suf s1 s2 k k' _ [found Hfound] (u & n1 & _ & H)%polling_bind_Ok. rewrite map_app, concat_app. cbn [map concat].
  rewrite app_nil_r. revert H.
  apply (for_each_polling_inv (fun pre' st => exists found,
    scanned (concat (map (fun id => default [] (map_get id (edges_filed edges_by_id))) pre) ++ pre') st found)).
  { exists found. by rewrite app_nil_r. }
  intros pre' e suf' s3 s4 k3 k4 Hl [found' Hfound'] Hstep. rewrite app_assoc.
  assert (e ∈ default [] (map_get id (edges_filed edges_by_id))) as Hin by (rewrite Hl; apply elem_of_app; right; left).
  eapply scan_edge_ok; [done|by eapply Hval| |done]. intros x [(id' & Hx & _)%elem_of_concat_map|Hx]%elem_of_app; [by eapply Hval|].
  apply (Hval x id). rewrite Hl. apply elem_of_app. by left.
Qed.
Lemma scanned_all st found : scanned (concat (map (fun id => default [] (map_get id (edges_filed edges_by_id))) referenced)) st found ->
  found ≡ₚ List.filter joined (map_values edges_by_id).
Proof.
  intros [_ _ H3 H4 H5]. apply NoDup_Permutation; [done|apply filter_bool_NoDup, values_NoDup|].
  intros e. rewrite elem_of_filter_bool. split; [apply H4|]. intros [He Hj]. apply H5; [|done].
  apply elem_of_concat_map. exists (from_fact_id e). pose proof Hj as [Hf%set_contains_true _]%andb_true_iff.
  split; [|done]. apply elem_of_edges_filed. split; [done|]. apply touches_iff. by left.
Qed.
End Scan.

Context (to_string : json -> option string).
Lemma collect_categorical l k : collect categorical_cluster_caveat l = Ok k -> k = l.
Proof.
  intros H%collect_Ok. induction H as [|x y l k Hx _ IH]; [done|]. unfold categorical_cluster_caveat in Hx.
  case_match; [|done]. injection Hx as ->. by rewrite IH.
Qed.
Lemma clause_signature_Ok token limit clause n s n' :
  clause_signature token to_string facts (edges_filed edges_by_id) limit clause n = Ok (s, n') ->
  to_string (clause_meaning clause) = Some s /\
  forall id, id ∈ supporting_fact_ids clause ++ contradicting_fact_ids clause -> id ∈ map_keys facts.
Proof.
  intros (u & n1 & _ & H)%polling_bind_Ok. case_match; [done|].
  apply polling_bind_Ok in H as (sup & n2 & (x & [-> Hks]%exact_fact_fingerprints_Ok & [= -> _])%lift_Ok & H).
  apply polling_bind_Ok in H as (con & n3 & (y & [-> Hkc]%exact_fact_fingerprints_Ok & [= -> _])%lift_Ok & H). cbn zeta in H.
  apply polling_bind_Ok in H as (st & n4 & [found Hfound]%scan_facts_ok & H).
  apply polling_bind_Ok in H as (cav & n5 & (z & ->%collect_categorical & [= -> _])%lift_Ok & H).
  apply lift_Ok in H as (s' & Hs%ok_or_Ok & [= -> _]). split.
  - rewrite <- Hs. unfold clause_meaning. do 2 f_equal. do 2 f_equal. f_equal. f_equal.
    rewrite (sc_relations _ _ _ _ Hfound). apply sort_perm_eq, Permutation_map. rewrite (scanned_all _ _ _ Hfound).
    rewrite (List.filter_ext _ (joined (set_of_list (supporting_fact_ids clause ++ contradicting_fact_ids clause)))); [done|].
    intros e. unfold joins_facts, joined. by rewrite !elemb_set_contains.
  - intros id [Hid|Hid]%elem_of_app; auto.
Qed.
Lemma compatibility_key_Ok token limit rule n key n' :
  compatibility_key token to_string facts (edges_filed edges_by_id) limit rule n = Ok (key, n') ->
  exists signatures, Forall2 (fun c s => to_string (clause_meaning c) = Some s) (clauses rule) signatures /\
    to_string (JArray [JString (rule_kind_debug (rule_kind rule)); JStrings (sort signatures)]) = Some key.
Proof.
  unfold compatibility_key. case_match; [done|]. intros (signatures & n1 & Hloop & (k & Hk%ok_or_Ok & [= -> _])%lift_Ok)%polling_bind_Ok.
  exists signatures. split; [|done]. revert Hloop.
  apply (for_each_polling_inv (fun pre sigs => Forall2 (fun c s => to_string (clause_meaning c) = Some s) pre sigs)); [constructor|].
  intros pre c suf s1 s2 k1 k2 _ Hpre (s & k3 & [Hs _]%clause_signature_Ok & ->%mret_Ok)%polling_bind_Ok.
  apply Forall2_app; [done|]. by constructor.
Qed.
End Meaning.

Lemma Forall2_perm {A B} (R : A -> B -> Prop) l k k' :
  Forall2 R l k -> k ≡ₚ k' -> exists l', l ≡ₚ l' /\ Forall2 R l' k'.
Proof.
  intros Hlk Hk. revert l Hlk. induction Hk as [|x k k' _ IH|x y k|k1 k2 k3 _ IH1 _ IH2]; intros l Hl.
  - inversion Hl; subst. by exists [].
  - inversion Hl as [|a ? l0 ? Ha Hl0]; subst. destruct (IH l0 Hl0) as (l' & Hp & Hl'). exists (a :: l').
    split; [by constructor|by constructor].
  - inversion Hl as [|a ? l0 ? Ha Hl0]; subst. inversion Hl0 as [|b ? l1 ? Hb Hl1]; subst.
    exists (b :: a :: l1). split; [constructor|by repeat constructor].
  - destruct (IH1 l Hl) as (l2 & H12 & Hl2). destruct (IH2 l2 Hl2) as (l3 & H23 & Hl3). exists l3. split; [by etrans|done].
Qed.
Lemma Forall2_left_unique {A B} (R : A -> B -> Prop) l l' k :
  (forall x y b, R x b -> R y b -> x = y) -> Forall2 R l k -> Forall2 R l' k -> l = l'.
Proof.
  intros HR Hl. revert l'. induction Hl as [|x b l k Hx _ IH]; intros l' Hl'; inversion Hl'; subst; [done|].
  f_equal; [by eapply HR|by apply IH].
Qed.
(** The text of a value tells it from the others. *)
Definition injective (to_string : json -> option string) : Prop :=
  forall x y s, to_string x = Some s -> to_string y = Some s -> x = y.
Lemma map_JString_inj l k : map JString l = map JString k -> l = k.
Proof. revert k. induction l as [|x l IH]; intros [|y k]; [done..|]. intros [= -> ?%IH]. by subst. Qed.
Lemma rule_kind_debug_inj a b : rule_kind_debug a = rule_kind_debug b -> a = b.
Proof. by destruct a, b. Qed.
(** Keys are equal exactly where the rules mean the same. *)
Lemma compatibility_key_meaning to_string facts edges_by_id edges token limit r n key k token' limit' r' n' key' k' :
  injective to_string -> edges_ok edges facts edges_by_id ->
  compatibility_key token to_string facts (edges_filed edges_by_id) limit r n = Ok (key, k) ->
  compatibility_key token' to_string facts (edges_filed edges_by_id) limit' r' n' = Ok (key', k') ->
  key = key' <-> same_meaning facts edges_by_id r r'.
Proof.
  intros Hinj He (sigs & Hsigs & Hkey)%(compatibility_key_Ok _ _ _ He) (sigs' & Hsigs' & Hkey')%(compatibility_key_Ok _ _ _ He).
  pose proof (fun l k k' => Forall2_left_unique (fun m s => to_string m = Some s) l k k' Hinj) as Huniq.
  assert (forall cs ss, Forall2 (fun c s => to_string (clause_meaning facts edges_by_id c) = Some s) cs ss ->
    Forall2 (fun m s => to_string m = Some s) (map (clause_meaning facts edges_by_id) cs) ss) as Hmap.
  { intros cs ss. induction 1; by constructor. }
  apply Hmap in Hsigs, Hsigs'. unfold same_meaning. split.
  - intros <-. pose proof (Hinj _ _ _ Hkey Hkey') as [= Hkind%rule_kind_debug_inj Hsort]. split; [done|].
    apply map_JString_inj in Hsort.
    assert (sigs ≡ₚ sigs') as Hp by (etrans; [symmetry; apply (sort_by_perm cmp sigs)|]; fold (sort sigs); rewrite Hsort; apply sort_by_perm).
    destruct (Forall2_perm _ _ _ _ Hsigs Hp) as (l' & Hl & Hl'). rewrite Hl. by rewrite (Huniq _ _ _ Hl' Hsigs').
  - intros [Hkind Hp]. symmetry in Hp.
    assert (exists ss, sigs' ≡ₚ ss /\ Forall2 (fun m s => to_string m = Some s) (map (clause_meaning facts edges_by_id) (clauses r)) ss)
      as (ss & Hss & Hr).
    { apply Forall2_flip in Hsigs'. destruct (Forall2_perm _ _ _ _ Hsigs' Hp) as (ss & Hss & Hr). exists ss.
      split; [done|]. by apply Forall2_flip. }
    assert (ss = sigs) as ->.
    { clear - Hr Hsigs. revert sigs Hsigs. induction Hr as [|m s l ss Hm _ IH]; intros sigs Hs; inversion Hs; subst; [done|].
      f_equal; [congruence|auto]. }
    assert (sort sigs' = sort sigs) as Hsort by by apply sort_perm_eq. rewrite Hkind, <- Hsort in Hkey. congruence.
Qed.
