(* ===== verification/ClusterRuns.v ===== *)
(** What the loops of [Clusters] do to the rules: which rules are elected, which
    are marked as conflicting, and what becomes of the occurrences of one
    canonical rule. *)
From S2P Require Import Prelude Ordering Entries RustText GraphTypes SecretPolicy Contracts Adapter Packets TemplateRules PacketProps PacketTheorems TemplateProps Clusters ClusterProps.
Local Open Scope nat_scope.

(** * The first of the least *)

Section Least.
Context {K A : Type} `{RustOrd K}.

Lemma least_by_ok best (l : list (K * A)) :
  exists k, (k, least_by best l) ∈ best :: l /\ forall x, x ∈ best :: l -> cmp k (fst x) <> Gt.
Proof.
  revert best. induction l as [|x l IH]; intros best; cbn [least_by].
  - exists (fst best). split; [destruct best; left|]. intros x ->%list_elem_of_singleton. by rewrite cmp_refl.
  - destruct (IH (match cmp (fst x) (fst best) with Lt => x | _ => best end)) as (k & Hin & Hle). exists k. split.
    + revert Hin. case_match; rewrite !elem_of_cons; tauto.
    + intros y Hy. destruct (cmp (fst x) (fst best)) eqn:E.
      2: { assert (cmp k (fst x) <> Gt) as Hx by (apply Hle; left).
           apply elem_of_cons in Hy as [->|Hy]; [|by apply Hle]. apply (by_key_le_trans (fun x : K => x) _ _ _ Hx). congruence. }
      all: assert (cmp k (fst best) <> Gt) as Hx by (apply Hle; left).
      all: apply elem_of_cons in Hy as [->|[->|Hy]%elem_of_cons]; [done| |apply Hle; by right].
      all: apply (by_key_le_trans (fun x : K => x) _ _ _ Hx); rewrite (cmp_antisym (fst x)), E; done.
Qed.
Lemma min_by_key_Ok (rank : A -> outcome K) l e x : min_by_key rank l e = Ok x ->
  x ∈ l /\ exists k, rank x = Ok k /\ forall y, y ∈ l -> exists k', rank y = Ok k' /\ cmp k k' <> Gt.
Proof.
  unfold min_by_key. intros (ranked & Hr%collect_Ok & Hm)%bind_Ok. destruct ranked as [|first rest]; [done|].
  injection Hm as <-. destruct (least_by_ok first rest) as (k & [i Hin]%list_elem_of_lookup_1 & Hle).
  destruct (Forall2_lookup_r _ _ _ _ _ Hr Hin) as (x & Hx & (k' & Hk & [= -> <-])%bind_Ok).
  split; [by apply list_elem_of_lookup_2 in Hx|]. exists k. split; [done|].
  intros y [j Hy]%list_elem_of_lookup_1. destruct (Forall2_lookup_l _ _ _ _ _ Hr Hy) as ([ky y'] & Hj & (k' & Hk' & [= -> ->])%bind_Ok).
  exists ky. split; [done|]. by apply (Hle (ky, y')), list_elem_of_lookup_2 with j.
Qed.
End Least.
Lemma elem_of_snoc {A} (l : list A) x y : y ∈ l ++ [x] <-> y ∈ l \/ y = x.
Proof. by rewrite elem_of_app, list_elem_of_singleton. Qed.
Lemma enumerate_split {A} (l : list A) pre i x suf : enumerate_nat 0 l = pre ++ (i, x) :: suf -> i = length pre.
Proof.
  intros Hl. assert (map fst (enumerate_nat 0 l) !! length pre = Some i) as Hi.
  { rewrite Hl, map_app. cbn [map fst]. apply list_lookup_middle. by rewrite length_map. }
  rewrite map_fst_enumerate in Hi. apply lookup_seq in Hi as [-> _]. done.
Qed.

(** * Groups of indices *)

(** The indices of a list of keys, those of the same key together. *)
Definition groups_of (keys : list string) : list (list nat) := map_values (pushes (zip keys (seq 0 (length keys)))).
Lemma zip_seq_lookup {A} (keys : list A) key i : (key, i) ∈ zip keys (seq 0 (length keys)) <-> keys !! i = Some key.
Proof.
  split.
  - intros [j Hj]%list_elem_of_lookup. apply lookup_zip_with_Some in Hj as (key' & i' & [= -> ->] & Hk & [-> _]%lookup_seq). done.
  - intros Hk. apply list_elem_of_lookup. exists i. apply lookup_zip_with_Some. exists key, i. split_and!; [done..|].
    apply lookup_seq. split; [done|]. by apply lookup_lt_Some in Hk.
Qed.
Lemma groups_perm keys : concat (groups_of keys) ≡ₚ seq 0 (length keys).
Proof.
  unfold groups_of. rewrite pushes_perm. change (map snd) with (fmap (M := list) (@snd string nat)).
  rewrite snd_zip; [done|]. by rewrite length_seq.
Qed.
Lemma groups_NoDup keys : NoDup (concat (groups_of keys)).
Proof. rewrite groups_perm. apply NoDup_seq. Qed.
Lemma group_keys keys g : g ∈ groups_of keys -> exists key, forall i, i ∈ g <-> keys !! i = Some key.
Proof.
  intros [key ->]%elem_of_push_groups. exists key. intros i. by rewrite elem_of_entries, zip_seq_lookup.
Qed.
Lemma group_of keys i : i < length keys -> exists g, g ∈ groups_of keys /\ i ∈ g.
Proof.
  intros [key Hkey]%lookup_lt_is_Some. pose proof Hkey as Hin%zip_seq_lookup. eexists. split; [by eapply push_groups_elem|].
  by apply elem_of_entries.
Qed.
Lemma zip_seq_snoc {A} (keys : list A) key :
  zip (keys ++ [key]) (seq 0 (length (keys ++ [key]))) = zip keys (seq 0 (length keys)) ++ [(key, length keys)].
Proof.
  rewrite length_app. cbn [length]. rewrite Nat.add_1_r, seq_S. by rewrite zip_with_app by by rewrite length_seq.
Qed.

(** * The loop over the rules *)

Section Loop.
Context (token : StructuralGraphCancellation) (to_string : json -> option string).
Context (limits : ArchaeologyDeterministicLimits) (t : cluster_tables).
Context (repository_id revision_sha : string) (scope : option cluster_scope).

Record admitted (rule : ArchaeologyRulePacket) (key : string) : Prop := {
  ad_valid : ArchaeologyRulePacket_validate rule = Ok tt;
  ad_fits : is_cluster_rule repository_id revision_sha scope (facts_by_id t) (known_spans t) limits rule = true;
  ad_key : exists n n', compatibility_key token to_string (facts_by_id t) (edges_by_fact t)
    (max_examined_edges_per_packet limits) (normalize_rule rule) n = Ok (key, n')
}.
Lemma cluster_loop_ok rules n st n' :
  for_each_polling (cluster_rule token to_string limits t repository_id revision_sha scope)
    {| normalized := []; cluster_rule_ids := []; cluster_keys := [] |} (enumerate_nat 0 rules) n = Ok (st, n') ->
  exists keys, normalized st = map normalize_rule rules /\ map_values (cluster_keys st) = groups_of keys /\
    Forall2 admitted rules keys.
Proof.
  intros H. enough (exists keys, normalized st = map normalize_rule (map snd (enumerate_nat 0 rules)) /\
    cluster_keys st = pushes (zip keys (seq 0 (length keys))) /\ Forall2 admitted (map snd (enumerate_nat 0 rules)) keys)
    as (keys & H1 & H2 & H3).
  { rewrite map_snd_enumerate in *. exists keys. split_and!; [done| |done]. unfold groups_of. by rewrite H2. }
  revert H. apply (for_each_polling_inv (fun pre st => exists keys, normalized st = map normalize_rule (map snd pre) /\
    cluster_keys st = pushes (zip keys (seq 0 (length keys))) /\ Forall2 admitted (map snd pre) keys)).
  { exists []. done. }
  intros pre [i rule] suf s1 s2 k k' ->%enumerate_split (keys & Hn & Hk & Hr). cbn [cluster_rule].
  intros (u & k1 & _ & H)%polling_bind_Ok. apply polling_bind_Ok in H as ([] & k2 & ([] & Hv & _)%lift_Ok & H).
  destruct (_ || _) eqn:Hfit in H; [done|]. apply orb_false_iff in Hfit as [Hfit%negb_false_iff _]. cbn zeta in H.
  apply polling_bind_Ok in H as (key & k3 & Hkey & H). case_match; [done|]. apply mret_Ok in H as ->.
  exists (keys ++ [key]). cbn [normalized cluster_keys]. rewrite !map_app. split_and!.
  - by rewrite Hn.
  - rewrite zip_seq_snoc, Hk. unfold pushes at 2. rewrite foldl_app. cbn [foldl fst snd].
    apply Forall2_length in Hr. rewrite length_map in Hr. by rewrite Hr.
  - apply Forall2_app; [done|]. constructor; [|constructor]. split; [done|done|by exists k2, k3].
Qed.
End Loop.

(** * The election *)

Section Election.
Context (token : StructuralGraphCancellation) (to_string : json -> option string) (t : cluster_tables).
Notation rank := (primary_rank to_string (facts_by_id t) (origins_by_fact t)).

(** Rule [i] of the group led by [p] as the election leaves it. *)
Definition elected_at (base : list ArchaeologyRulePacket) (p : nat) (primary_id : string) (generated : bool) (i : nat)
    (st : election) : Prop :=
  member_primary st !! i = Some (N.of_nat p) /\ exists r r', base !! i = Some r /\
    elect_rule (i =? p) primary_id generated r = Ok r' /\ elected_rules st !! i = Some r'.
(** The group has a leader, of the least rank. *)
Definition elected_group (base : list ArchaeologyRulePacket) (g : list nat) (st : election) : Prop :=
  exists p pr generated k, p ∈ g /\ base !! p = Some pr /\ rank pr = Ok k /\
    (forall i r, i ∈ g -> base !! i = Some r -> exists k', rank r = Ok k' /\ cmp k k' <> Gt) /\
    forall i, i ∈ g -> elected_at base p (rule_id pr) generated i st.
Definition same_at (i : nat) (st st' : election) : Prop :=
  elected_rules st' !! i = elected_rules st !! i /\ member_primary st' !! i = member_primary st !! i.
Lemma same_at_trans i a b c : same_at i a b -> same_at i b c -> same_at i a c.
Proof. intros [? ?] [? ?]. split; congruence. Qed.
Lemma elected_at_same base p pid generated i st st' :
  elected_at base p pid generated i st -> same_at i st st' -> elected_at base p pid generated i st'.
Proof. intros (Hm & r & r' & Hr & He & Hr') [S1 S2]. split; [congruence|]. exists r, r'. split_and!; congruence. Qed.

Lemma elect_member_Ok p pid generated st i n st' n' : elect_member token p pid generated st i n = Ok (st', n') ->
  elected_at (elected_rules st) p pid generated i st' /\ (forall j, j <> i -> same_at j st st') /\
  length (elected_rules st') = length (elected_rules st).
Proof.
  intros (u & n1 & _ & H)%polling_bind_Ok.
  apply polling_bind_Ok in H as (primaries & n2 & (x & [Hi ->]%set_index_inv & [= -> _])%lift_Ok & H).
  apply polling_bind_Ok in H as (r & n3 & (y & Hr%at_index_inv & [= -> _])%lift_Ok & H).
  apply polling_bind_Ok in H as (r' & n4 & (z & Hr' & [= -> _])%lift_Ok & H).
  apply polling_bind_Ok in H as (rules & n5 & (w & [Hj ->]%set_index_inv & [= -> _])%lift_Ok & ->%mret_Ok).
  unfold elected_at, same_at. cbn [elected_rules member_primary]. split; [split|split].
  - by apply list_lookup_insert_eq.
  - exists y, z. split_and!; [done..|]. by apply list_lookup_insert_eq.
  - intros j Hne. by rewrite !list_lookup_insert_ne.
  - by rewrite length_insert.
Qed.
Lemma elect_members_ok p pid generated st members n st' n' : NoDup members ->
  for_each_polling (elect_member token p pid generated) st members n = Ok (st', n') ->
  (forall i, i ∈ members -> elected_at (elected_rules st) p pid generated i st') /\
  (forall i, i ∉ members -> same_at i st st') /\ length (elected_rules st') = length (elected_rules st).
Proof.
  intros Hnd. apply (for_each_polling_inv (fun pre s =>
    (forall i, i ∈ pre -> elected_at (elected_rules st) p pid generated i s) /\
    (forall i, i ∉ pre -> same_at i st s) /\ length (elected_rules s) = length (elected_rules st))).
  { split_and!; [by intros i ?%not_elem_of_nil|done|done]. }
  intros pre x suf s1 s2 k k' -> (Hin & Hout & Hlen) (Hx & Hother & Hlen')%elect_member_Ok.
  apply NoDup_app in Hnd as (_ & Hnd & _). assert (x ∉ pre) as Hnew by (intros Hp; apply (Hnd x Hp); left).
  split_and!; [| |congruence].
  - intros i [Hi| ->%list_elem_of_singleton]%elem_of_app.
    + apply (elected_at_same _ _ _ _ _ s1); [by apply Hin|]. apply Hother. by intros ->.
    + destruct Hx as (Hm & r & r' & Hr & He & Hr'). split; [done|]. exists r, r'. split_and!; [|done..].
      destruct (Hout x Hnew) as [<- _]. done.
  - intros i [Hi Hne]%not_elem_of_app. apply (same_at_trans _ _ s1); [by apply Hout|]. apply Hother. set_solver.
Qed.
Lemma elect_cluster_ok base st g n st' n' : NoDup g -> (forall i, i ∈ g -> elected_rules st !! i = base !! i) ->
  elect_cluster token to_string t st g n = Ok (st', n') ->
  elected_group base g st' /\ (forall i, i ∉ g -> same_at i st st') /\ length (elected_rules st') = length (elected_rules st).
Proof.
  intros Hnd Hbase (u & n1 & _ & H)%polling_bind_Ok.
  apply polling_bind_Ok in H as (p & n2 & (x & [Hp (k & Hk & Hleast)]%min_by_key_Ok & [= -> _])%lift_Ok & H).
  apply polling_bind_Ok in H as (pr & n3 & (y & Hpr%at_index_inv & [= -> _])%lift_Ok & H).
  apply polling_bind_Ok in H as (source & n4 & _ & H).
  apply elect_members_ok in H as (Hin & Hout & Hlen); [|done]. cbn [elected_rules] in *. split_and!; [|done|done].
  exists x, y, (negb source), k. apply bind_Ok in Hk as (y' & Hy'%at_index_inv & Hk). assert (y' = y) as -> by congruence.
  split_and!; [done|by rewrite <- Hbase|done| |].
  - intros i r Hi Hr. destruct (Hleast i Hi) as (k' & (r' & Hr'%at_index_inv & Hrank)%bind_Ok & Hle). exists k'.
    rewrite Hbase in Hr' by done. split; [congruence|done].
  - intros i Hi. destruct (Hin i Hi) as (Hm & r & r' & Hr & He & Hr'). split; [done|]. exists r, r'.
    split_and!; [by rewrite <- Hbase|done..].
Qed.
Lemma elect_clusters_ok groups st n st' n' : NoDup (concat groups) ->
  for_each_polling (elect_cluster token to_string t) st groups n = Ok (st', n') ->
  (forall g, g ∈ groups -> elected_group (elected_rules st) g st') /\
  length (elected_rules st') = length (elected_rules st).
Proof.
  intros Hnd H. enough ((forall g, g ∈ groups -> elected_group (elected_rules st) g st') /\
    (forall i, i ∉ concat groups -> same_at i st st') /\ length (elected_rules st') = length (elected_rules st)) by naive_solver.
  revert H. apply (for_each_polling_inv (fun pre s => (forall g, g ∈ pre -> elected_group (elected_rules st) g s) /\
    (forall i, i ∉ concat pre -> same_at i st s) /\ length (elected_rules s) = length (elected_rules st))).
  { split_and!; [by intros g ?%not_elem_of_nil|done|done]. }
  intros pre g suf s1 s2 k k' -> (Hin & Hout & Hlen) Hstep. rewrite concat_app in Hnd. cbn [concat] in Hnd.
  apply NoDup_app in Hnd as (_ & Hnew & (Hg & _ & _)%NoDup_app).
  assert (forall i, i ∈ g -> i ∉ concat pre) as Hfresh by (intros i Hi Hp; apply (Hnew i Hp), elem_of_app; by left).
  apply (elect_cluster_ok (elected_rules st)) in Hstep as (Hgroup & Hother & Hlen');
    [|done|intros i Hi; by apply (Hout i), Hfresh].
  split_and!; [| |congruence].
  - intros g' [Hg'| ->%list_elem_of_singleton]%elem_of_app; [|done].
    destruct (Hin g' Hg') as (p & pr & gen & kp & H1 & H2 & H3 & H4 & H5). exists p, pr, gen, kp. split_and!; [done..|].
    intros i Hi. apply (elected_at_same _ _ _ _ _ s1); [by apply H5|]. apply Hother. intros Hig.
    apply (Hfresh i Hig), elem_of_concat. by exists g'.
  - intros i. rewrite concat_app. cbn [concat]. rewrite app_nil_r, not_elem_of_app. intros [H1 H2].
    apply (same_at_trans _ _ s1); [by apply Hout|by apply Hother].
Qed.
End Election.

(** * Rules recast *)

(** A clause with the same text, facts and evidence, maybe in another order. *)
Record recast (c c' : ArchaeologyRuleClause) : Prop := {
  rc_text : clause_text c' = clause_text c;
  rc_support : supporting_fact_ids c' ≡ₚ supporting_fact_ids c;
  rc_contradict : contradicting_fact_ids c' ≡ₚ contradicting_fact_ids c;
  rc_evidence : evidence_span_ids c' ≡ₚ evidence_span_ids c
}.
Record recast_rule (r r' : ArchaeologyRulePacket) : Prop := {
  rr_id : rule_id r' = rule_id r;
  rr_kind : rule_kind r' = rule_kind r;
  rr_clauses : Forall2 recast (clauses r) (clauses r')
}.
Lemma recast_refl c : recast c c.
Proof. done. Qed.
Lemma recast_trans a b c : recast a b -> recast b c -> recast a c.
Proof. intros [H1 H2 H3 H4] [K1 K2 K3 K4]. split; etrans; done. Qed.
Lemma recast_rule_trans a b c : recast_rule a b -> recast_rule b c -> recast_rule a c.
Proof.
  intros [H1 H2 H3] [K1 K2 K3]. split; [by etrans..|]. clear - H3 K3. revert K3. generalize (clauses c) as cs.
  induction H3 as [|x y l k Hxy _ IH]; intros cs Hc; inversion Hc; subst; constructor; [by eapply recast_trans|auto].
Qed.
Lemma recast_kept c c' : recast c c' -> kept_in c c'.
Proof. intros [H1 H2 H3 H4]. split; [done|intros id Hid; by rewrite ?H2, ?H3, ?H4..]. Qed.
Lemma recast_concat (f : ArchaeologyRuleClause -> list string) l k :
  (forall c c', recast c c' -> f c' ≡ₚ f c) -> Forall2 recast l k -> concat (map f k) ≡ₚ concat (map f l).
Proof. intros Hf. induction 1 as [|c c' l k Hc _ IH]; cbn [map concat]; [done|]. by rewrite (Hf _ _ Hc), IH. Qed.
Lemma recast_facts r r' : recast_rule r r' ->
  supporting_rule_fact_ids r' = supporting_rule_fact_ids r /\ contradicting_rule_fact_ids r' = contradicting_rule_fact_ids r.
Proof.
  intros [_ _ Hc]. split; apply set_of_list_perm, recast_concat; try done; by intros c c' [].
Qed.
Lemma normalize_recast r : recast_rule r (normalize_rule r).
Proof.
  split; [done..|]. cbn [normalize_rule with_clauses set_rule Contracts.clauses]. induction (clauses r) as [|c l IH];
    constructor; [|done]. split; cbn [normalize_clause set_clause clause_text supporting_fact_ids contradicting_fact_ids
    evidence_span_ids]; [done|apply sort_by_perm..].
Qed.
Lemma lower_recast l : Forall2 recast l (map lower_clause l).
Proof. induction l as [|c l IH]; constructor; done. Qed.
Record elected_rule (is_primary : bool) (primary_id : string) (r r' : ArchaeologyRulePacket) : Prop := {
  er_recast : recast_rule r r';
  er_domains : domain_ids r' = if is_primary then ["domain:other"%string] else domain_ids r;
  er_aliases : alias_rule_ids r' = if is_primary then alias_rule_ids r else [primary_id];
  er_dependencies : dependency_rule_ids r' = dependency_rule_ids r;
  er_conflicts : conflict_rule_ids r' = conflict_rule_ids r
}.
Lemma elect_rule_Ok is_primary primary_id generated r r' : elect_rule is_primary primary_id generated r = Ok r' ->
  elected_rule is_primary primary_id r r'.
Proof.
  unfold elect_rule. destruct generated.
  - intros (cs & Hcs & [= <-])%bind_Ok. split; [|done..]. split; [done..|]. cbn [set_rule Contracts.clauses].
    revert Hcs. pose proof (lower_recast (clauses r)) as Hl. revert Hl. generalize (map lower_clause (clauses r)) as ls.
    intros [|c ls] Hl; cbn [add_generated_caveat]; [done|]. case_match; [by intros [= <-]|]. intros [= <-].
    inversion Hl as [|c0 ? l0 ? [] Hls Heq]; subst. by constructor.
  - intros [= <-]. split; [|done..]. split; [done..|]. cbn [set_rule Contracts.clauses]. by apply Forall_Forall2_diag, Forall_forall.
Qed.

(** * Conflicts *)

(** [r] sets a fact aside that [s] rests on, or one with the same fingerprint. *)
Definition sets_aside (facts : BTreeMap string ArchaeologyFact) (r s : ArchaeologyRulePacket) : Prop :=
  exists a b, a ∈ contradicting_rule_fact_ids r /\ b ∈ supporting_rule_fact_ids s /\ print_of facts a = print_of facts b.
Section Conflicts.
Context (token : StructuralGraphCancellation) (t : cluster_tables) (primaries : list N).
Notation print := (print_of (facts_by_id t)).

(** The primaries filed under a fingerprint after the rules [l]. *)
Definition supported_by (l : list (nat * ArchaeologyRulePacket)) (m : BTreeMap string (BTreeSet N)) : Prop :=
  map_wf m /\ forall fp q, q ∈ default [] (map_get fp m) <->
    exists i r id, (i, r) ∈ l /\ id ∈ supporting_rule_fact_ids r /\ print id = fp /\ primaries !! i = Some q.
Lemma add_supporting_primaries_ok pre i r m n m' n' : supported_by pre m ->
  add_supporting_primaries token t primaries m (i, r) n = Ok (m', n') -> supported_by (pre ++ [(i, r)]) m'.
Proof.
  intros Hm (u & n1 & _ & (m2 & Hloop & [= -> _])%lift_Ok)%polling_bind_Ok.
  enough (map_wf m2 /\ forall fp q, q ∈ default [] (map_get fp m2) <-> q ∈ default [] (map_get fp m) \/
    exists id, id ∈ supporting_rule_fact_ids r /\ print id = fp /\ primaries !! i = Some q) as [Hwf Hin].
  { split; [done|]. intros fp q. rewrite Hin. destruct Hm as [_ Hm]. rewrite Hm. setoid_rewrite elem_of_snoc. split.
    - intros [(j & s & b & Hj & ?)|(b & ?)]; [exists j, s, b; tauto|exists i, r, b; tauto].
    - intros (j & s & b & [Hj|[= -> ->]] & ?); [left; by exists j, s, b|right; by exists b]. }
  revert Hloop. apply (for_each_inv (fun pre' m2 => map_wf m2 /\ forall fp q, q ∈ default [] (map_get fp m2) <->
    q ∈ default [] (map_get fp m) \/ exists id, id ∈ pre' /\ print id = fp /\ primaries !! i = Some q)).
  { split; [apply Hm|]. intros fp q. setoid_rewrite elem_of_nil. naive_solver. }
  intros pre' id suf s1 s2 _ [Hwf Hin] (fp' & Hfp%fingerprint_of_Ok & (p & Hp%at_index_inv & [= <-])%bind_Ok)%bind_Ok.
  split; [by apply map_insert_wf|]. intros fp q. rewrite map_get_insert_entry by done. setoid_rewrite elem_of_snoc. case_decide as Hd.
  - subst fp fp'. cbn [default]. unfold Datatypes.id. rewrite elem_of_set_insert, Hin. split.
    + intros [->|[|(b & ?)]]; [right; exists id; tauto|by left|right; exists b; tauto].
    + intros [|(b & [Hb| ->] & ? & ?)]; [by right; left|right; right; by exists b|left; congruence].
  - rewrite Hin. split; (intros [|(b & Hb)]; [by left|right; exists b; naive_solver]).
Qed.
Lemma elem_of_add_conflict p conflicts others x :
  x ∈ foldl (add_conflict p) conflicts others <-> x ∈ conflicts \/
    exists q, q ∈ others /\ p <> q /\ x = (N.min p q, N.max p q).
Proof.
  revert conflicts. induction others as [|q others IH]; intros conflicts; cbn [foldl].
  - setoid_rewrite elem_of_nil. naive_solver.
  - rewrite IH. setoid_rewrite elem_of_cons. unfold add_conflict. destruct (p =? q)%N eqn:E.
    + apply N.eqb_eq in E. naive_solver.
    + apply N.eqb_neq in E. rewrite elem_of_set_insert. naive_solver.
Qed.
Lemma add_conflicts_ok rules supporting conflicts i r n conflicts' n' : supported_by rules supporting ->
  add_conflicts token t primaries supporting conflicts (i, r) n = Ok (conflicts', n') -> forall x,
  x ∈ conflicts' <-> x ∈ conflicts \/ exists p q j s, primaries !! i = Some p /\ primaries !! j = Some q /\ (j, s) ∈ rules /\
    sets_aside (facts_by_id t) r s /\ p <> q /\ x = (N.min p q, N.max p q).
Proof.
  intros [_ Hs] (u & n1 & _ & H)%polling_bind_Ok x.
  apply polling_bind_Ok in H as (p & n2 & (p' & Hp%at_index_inv & [= -> _])%lift_Ok & (c & Hloop & [= -> _])%lift_Ok).
  enough (x ∈ c <-> x ∈ conflicts \/ exists q, (exists id, id ∈ contradicting_rule_fact_ids r /\
    q ∈ default [] (map_get (print id) supporting)) /\ p' <> q /\ x = (N.min p' q, N.max p' q)) as ->.
  { setoid_rewrite Hs. unfold sets_aside. split; (intros [|Hx]; [by left|right]).
    - destruct Hx as (q & (a & Ha & j & s & b & Hj & Hb & Hab & Hq) & Hne & Hx). exists p', q, j, s. naive_solver.
    - destruct Hx as (p & q & j & s & Hi & Hq & Hj & (a & b & Ha & Hb & Hab) & Hne & Hx).
      assert (p = p') as -> by congruence. exists q. split; [|done]. exists a. split; [done|]. exists j, s, b. done. }
  revert Hloop. apply (for_each_inv (fun pre c => x ∈ c <-> x ∈ conflicts \/ exists q, (exists id, id ∈ pre /\
    q ∈ default [] (map_get (print id) supporting)) /\ p' <> q /\ x = (N.min p' q, N.max p' q))).
  { setoid_rewrite elem_of_nil. naive_solver. }
  intros pre id suf s1 s2 _ Hpre (fp & <-%fingerprint_of_Ok & [= <-])%bind_Ok.
  rewrite elem_of_add_conflict, Hpre. setoid_rewrite elem_of_snoc. split.
  - intros [[|(q & (b & ? & ?) & ?)]|(q & ? & ?)]; [by left|right; exists q; split; [exists b; tauto|done]|].
    right. exists q. split; [exists id; tauto|done].
  - intros [|(q & (b & [Hb| ->] & ?) & ?)]; [by left; left| |right; by exists q]. left. right. exists q. split; [by exists b|done].
Qed.
End Conflicts.
Lemma find_conflicts_ok token t st n conflicts n' : find_conflicts token t st n = Ok (conflicts, n') -> forall x,
  x ∈ conflicts <-> exists p q i j r s, member_primary st !! i = Some p /\ member_primary st !! j = Some q /\
    elected_rules st !! i = Some r /\ elected_rules st !! j = Some s /\ sets_aside (facts_by_id t) r s /\ p <> q /\
    x = (N.min p q, N.max p q).
Proof.
  intros (m & n1 & Hm & H)%polling_bind_Ok x.
  assert (supported_by t (member_primary st) (enumerate_nat 0 (elected_rules st)) m) as Hsup.
  { revert Hm. apply (for_each_polling_inv (supported_by t (member_primary st))).
    - split; [constructor|]. intros fp q. cbn. rewrite elem_of_nil. setoid_rewrite elem_of_nil. naive_solver.
    - intros pre [i r] suf s1 s2 k k' _. apply add_supporting_primaries_ok. }
  assert (x ∈ conflicts <-> exists p q i j r s, member_primary st !! i = Some p /\ member_primary st !! j = Some q /\
    (i, r) ∈ enumerate_nat 0 (elected_rules st) /\ (j, s) ∈ enumerate_nat 0 (elected_rules st) /\
    sets_aside (facts_by_id t) r s /\ p <> q /\ x = (N.min p q, N.max p q)) as ->;
    [|by setoid_rewrite elem_of_enumerate].
  revert H. apply (for_each_polling_inv (fun pre conflicts => x ∈ conflicts <-> exists p q i j r s,
    member_primary st !! i = Some p /\ member_primary st !! j = Some q /\ (i, r) ∈ pre /\
    (j, s) ∈ enumerate_nat 0 (elected_rules st) /\ sets_aside (facts_by_id t) r s /\ p <> q /\ x = (N.min p q, N.max p q))).
  - setoid_rewrite elem_of_nil. naive_solver.
  - intros pre [i r] suf s1 s2 k k' _ Hpre Hstep. rewrite (add_conflicts_ok _ _ _ _ _ _ _ _ _ _ _ Hsup Hstep), Hpre.
    setoid_rewrite elem_of_snoc. split.
    + intros [(p & q & i' & j & r' & s & ?)|(p & q & j & s & ?)]; [exists p, q, i', j, r', s|exists p, q, i, j, r, s]; tauto.
    + intros (p & q & i' & j & r' & s & Hp & Hq & [Hi|[= -> ->]] & ?);
        [left; exists p, q, i', j, r', s; tauto|right; exists p, q, j, s; tauto].
Qed.

(** ** The marks *)

(** The rules with the conflicts [marks] tells. *)
Definition marked_by (base : list ArchaeologyRulePacket) (marks : nat -> string -> Prop) (rules : list ArchaeologyRulePacket)
    : Prop :=
  length rules = length base /\ forall i r, base !! i = Some r -> exists ids, rules !! i = Some (with_conflicts r ids) /\
    forall id, id ∈ ids <-> id ∈ conflict_rule_ids r \/ marks i id.
Lemma marked_by_base base : marked_by base (fun _ _ => False) base.
Proof.
  split; [done|]. intros i r Hr. exists (conflict_rule_ids r). split; [by destruct r|]. intros id. tauto.
Qed.
Lemma marked_by_iff base marks marks' rules :
  (forall i id, marks i id <-> marks' i id) -> marked_by base marks rules -> marked_by base marks' rules.
Proof. intros Hiff [Hlen Hr]. split; [done|]. by setoid_rewrite <- Hiff. Qed.
Lemma marked_by_lookup base marks rules i r : marked_by base marks rules -> rules !! i = Some r ->
  exists b, base !! i = Some b /\ rule_id b = rule_id r.
Proof.
  intros [Hlen Hin] Hr. destruct (lookup_lt_is_Some_2 base i) as [b Hb]; [rewrite <- Hlen; by apply lookup_lt_Some in Hr|].
  exists b. split; [done|]. destruct (Hin i b Hb) as (ids & Hr' & _). rewrite Hr in Hr'. by injection Hr' as ->.
Qed.
Lemma push_conflict_ok base marks rules i id rules' : marked_by base marks rules ->
  push_conflict rules i id = Ok rules' -> marked_by base (fun j x => marks j x \/ j = i /\ x = id) rules'.
Proof.
  intros [Hlen Hin] (r & Hr%at_index_inv & [Hi ->]%set_index_inv)%bind_Ok. split; [by rewrite length_insert|].
  intros j b Hb. destruct (Hin j b Hb) as (ids & Hj & Hids). destruct (decide (j = i)) as [->|Hne].
  - exists (ids ++ [id]). rewrite list_lookup_insert_eq by done. rewrite Hr in Hj. injection Hj as ->. split; [done|].
    intros x. rewrite elem_of_snoc, Hids. tauto.
  - exists ids. rewrite list_lookup_insert_ne by done. split; [done|]. intros x. rewrite Hids. naive_solver.
Qed.
(** Rule [i] is one of a pair and [id] names the other. *)
Definition in_pair (base : list ArchaeologyRulePacket) (conflicts : list (N * N)) (i : nat) (id : string) : Prop :=
  exists x s, (x ∈ conflicts /\ i = N.to_nat (fst x) /\ base !! N.to_nat (snd x) = Some s \/
    x ∈ conflicts /\ i = N.to_nat (snd x) /\ base !! N.to_nat (fst x) = Some s) /\ id = rule_id s.
Lemma mark_conflicts_ok base conflicts rules :
  for_each mark_conflict base conflicts = Ok rules -> marked_by base (in_pair base conflicts) rules.
Proof.
  apply (for_each_inv (fun pre rules => marked_by base (in_pair base pre) rules)).
  { apply (marked_by_iff _ (fun _ _ => False)); [|apply marked_by_base]. unfold in_pair. setoid_rewrite elem_of_nil. naive_solver. }
  intros pre x suf s1 s2 _ Hpre (l & Hl%at_index_inv & H)%bind_Ok.
  apply bind_Ok in H as (r & Hr%at_index_inv & (s3 & H1 & H2)%bind_Ok).
  destruct (marked_by_lookup _ _ _ _ _ Hpre Hl) as (bl & Hbl & Hl').
  destruct (marked_by_lookup _ _ _ _ _ Hpre Hr) as (br & Hbr & Hr').
  apply (push_conflict_ok base _ _ _ _ _ Hpre) in H1. apply (push_conflict_ok base _ _ _ _ _ H1) in H2. revert H2.
  apply marked_by_iff. intros i id. unfold in_pair. setoid_rewrite elem_of_snoc. rewrite <- Hl', <- Hr'. split.
  - intros [[(y & s & ? & ?)|[-> ->]]|[-> ->]]; [exists y, s; tauto|exists x, br; tauto|exists x, bl; tauto].
  - intros (y & s & [([Hy| ->] & ? & ?)|([Hy| ->] & ? & ?)] & Hs); [left; left; exists y, s; tauto| |left; left; exists y, s; tauto|].
    + left. right. split; congruence.
    + right. split; congruence.
Qed.

(** * The outcome of clustering *)

(** [p] and [q] lead clusters of which one sets aside what the other rests on. *)
Definition conflicting (facts : BTreeMap string ArchaeologyFact) (rules : list ArchaeologyRulePacket) (primary : nat -> nat)
    (p q : nat) : Prop :=
  p <> q /\ exists i j r s, rules !! i = Some r /\ rules !! j = Some s /\ primary i = p /\ primary j = q /\
    (sets_aside facts r s \/ sets_aside facts s r).
Lemma conflicting_sym facts rules primary p q : conflicting facts rules primary p q -> conflicting facts rules primary q p.
Proof. intros (Hne & i & j & r & s & H). split; [done|]. exists j, i, s, r. tauto. Qed.
Record clustered_rule (is_primary : bool) (primary_id : string) (r r' : ArchaeologyRulePacket) : Prop := {
  cr_recast : recast_rule r r';
  cr_domains : domain_ids r' = if is_primary then ["domain:other"%string] else [];
  cr_aliases : alias_rule_ids r' = if is_primary then [] else [primary_id];
  cr_dependencies : dependency_rule_ids r' = []
}.
Record clustered_from (to_string : json -> option string) (t : cluster_tables) (rules : list ArchaeologyRulePacket)
    (keys : list string) (primary : nat -> nat) (out : list ArchaeologyRulePacket) : Prop := {
  cf_length : length out = length rules;
  cf_leader : forall i, i < length rules -> primary i < length rules /\ primary (primary i) = primary i;
  cf_groups : forall i j, i < length rules -> j < length rules -> primary i = primary j <-> keys !! i = keys !! j;
  cf_least : forall i r pr, rules !! i = Some r -> rules !! primary i = Some pr -> exists k k',
    primary_rank to_string (facts_by_id t) (origins_by_fact t) (normalize_rule pr) = Ok k /\
    primary_rank to_string (facts_by_id t) (origins_by_fact t) (normalize_rule r) = Ok k' /\ cmp k k' <> Gt;
  cf_rule : forall i r, rules !! i = Some r -> exists pr r', rules !! primary i = Some pr /\ out !! i = Some r' /\
    clustered_rule (i =? primary i) (rule_id pr) r r' /\
    (forall id, id ∈ conflict_rule_ids r' <->
      exists q s, rules !! q = Some s /\ id = rule_id s /\ conflicting (facts_by_id t) rules primary i q)
}.
Lemma admitted_bare token to_string limits t repository_id revision_sha scope r key :
  admitted token to_string limits t repository_id revision_sha scope r key ->
  dependency_rule_ids r = [] /\ domain_ids r = [] /\ alias_rule_ids r = [] /\ conflict_rule_ids r = [].
Proof.
  intros [_ Hfit _]. unfold is_cluster_rule in Hfit. rewrite !andb_true_iff in Hfit.
  repeat match goal with H : _ /\ _ |- _ => destruct H end.
  repeat match goal with H : is_nil _ = true |- _ => apply is_nil_true in H end. done.
Qed.

Section Outcome.
Context (to_string : json -> option string) (t : cluster_tables) (base : list ArchaeologyRulePacket) (keys : list string).
Context (st : election) (Hgroups : forall g, g ∈ groups_of keys -> elected_group to_string t base g st).
Notation rank := (primary_rank to_string (facts_by_id t) (origins_by_fact t)).

(** The index of the primary of rule [i]. *)
Definition primary_index (i : nat) : nat := N.to_nat (default 0%N (member_primary st !! i)).
Lemma primary_index_at i p : member_primary st !! i = Some (N.of_nat p) -> primary_index i = p.
Proof. unfold primary_index. intros ->. cbn. unfold Datatypes.id. lia. Qed.
Lemma elected_in i : i < length keys -> exists g : list nat, i ∈ g /\
  (forall j, j ∈ g <-> keys !! j = keys !! i) /\ (forall j, j ∈ g -> primary_index j = primary_index i) /\
  primary_index i ∈ g /\ exists pr r r' k k', base !! primary_index i = Some pr /\ base !! i = Some r /\
  elected_rules st !! i = Some r' /\ member_primary st !! i = Some (N.of_nat (primary_index i)) /\
  elected_rule (i =? primary_index i) (rule_id pr) r r' /\ rank pr = Ok k /\ rank r = Ok k' /\ cmp k k' <> Gt.
Proof.
  intros (g & Hg & Hi)%group_of. exists g. destruct (group_keys _ _ Hg) as (key & Hkey).
  destruct (Hgroups g Hg) as (p & pr & gen & k & Hp & Hpr & Hk & Hle & Hat).
  assert (forall j, j ∈ g -> primary_index j = p) as Hall by (intros j Hj; apply primary_index_at, (Hat j Hj)).
  rewrite (Hall i Hi). split_and!; [done| |done|done|].
  - intros j. rewrite Hkey. by rewrite (proj1 (Hkey i) Hi).
  - destruct (Hat i Hi) as (Hm & r & r' & Hr & He & Hr'). destruct (Hle i r Hi Hr) as (k' & Hk' & Hkk).
    exists pr, r, r', k, k'. split_and!; try done. by eapply elect_rule_Ok.
Qed.
Lemma primary_index_leader i : i < length keys -> primary_index i < length keys /\
  primary_index (primary_index i) = primary_index i.
Proof.
  intros Hi. destruct (elected_in i Hi) as (g & Hin & Hkeys & Hall & Hp & _). split; [|by apply Hall].
  apply Hkeys in Hp. apply lookup_lt_is_Some. rewrite Hp. by apply lookup_lt_is_Some.
Qed.
Lemma primary_index_groups i j : i < length keys -> j < length keys ->
  primary_index i = primary_index j <-> keys !! i = keys !! j.
Proof.
  intros Hi Hj. destruct (elected_in i Hi) as (g & _ & Hkeys & Hall & Hp & _).
  destruct (elected_in j Hj) as (g' & _ & Hkeys' & _ & Hp' & _). split.
  - intros Heq. apply Hkeys in Hp. apply Hkeys' in Hp'. congruence.
  - intros Heq. symmetry. apply Hall, Hkeys. done.
Qed.
End Outcome.
(** The pairs marked are those of the clusters that conflict. *)
Section Pairs.
Context (facts : BTreeMap string ArchaeologyFact) (rules : list ArchaeologyRulePacket) (primary : nat -> nat) (st : election).
Context (Hlen : length (elected_rules st) = length rules).
Context (Hst : forall i r, rules !! i = Some r -> exists e, elected_rules st !! i = Some e /\ recast_rule r e /\
  member_primary st !! i = Some (N.of_nat (primary i))).

Lemma elected_back i e : elected_rules st !! i = Some e -> exists r, rules !! i = Some r /\ recast_rule r e /\
  member_primary st !! i = Some (N.of_nat (primary i)).
Proof.
  intros He. destruct (lookup_lt_is_Some_2 rules i) as [r Hr]; [rewrite <- Hlen; by apply lookup_lt_Some in He|].
  exists r. destruct (Hst i r Hr) as (e' & He' & H). simplify_eq. done.
Qed.
Lemma pair_conflicting (conflicts : BTreeSet (N * N)) : (forall x, x ∈ conflicts <-> exists p q i j r s, member_primary st !! i = Some p /\
    member_primary st !! j = Some q /\ elected_rules st !! i = Some r /\ elected_rules st !! j = Some s /\
    sets_aside facts r s /\ p <> q /\ x = (N.min p q, N.max p q)) ->
  forall x, x ∈ conflicts <-> exists p q, conflicting facts rules primary p q /\ x = (N.of_nat (Nat.min p q), N.of_nat (Nat.max p q)).
Proof.
  intros Hc x. rewrite Hc. split.
  - intros (p & q & i & j & e & f & Hp & Hq & He & Hf & Ha & Hne & ->).
    destruct (elected_back i e He) as (r & Hr & [_ Hcon]%recast_facts & Hmi), (elected_back j f Hf) as (s & Hs & [Hsup _]%recast_facts & Hmj).
    simplify_eq. exists (primary i), (primary j). split; [|f_equal; lia]. split; [naive_solver|]. exists i, j, r, s.
    split_and!; [done..|left]. unfold sets_aside in *. by rewrite Hcon, Hsup in Ha.
  - intros (p & q & (Hne & i & j & r & s & Hr & Hs & <- & <- & Ha) & ->).
    destruct (Hst i r Hr) as (e & He & [Hsup Hcon]%recast_facts & Hmi), (Hst j s Hs) as (f & Hf & [Hsup' Hcon']%recast_facts & Hmj).
    unfold sets_aside in *. destruct Ha as [Ha|Ha].
    + exists (N.of_nat (primary i)), (N.of_nat (primary j)), i, j, e, f. rewrite Hcon, Hsup'.
      split_and!; [done..|lia|f_equal; lia].
    + exists (N.of_nat (primary j)), (N.of_nat (primary i)), j, i, f, e. rewrite Hcon', Hsup.
      split_and!; [done..|lia|f_equal; lia].
Qed.
Lemma in_pair_conflicting (conflicts : BTreeSet (N * N)) : (forall x, x ∈ conflicts <-> exists p q, conflicting facts rules primary p q /\
    x = (N.of_nat (Nat.min p q), N.of_nat (Nat.max p q))) ->
  forall i id, in_pair (elected_rules st) conflicts i id <->
    exists q s, rules !! q = Some s /\ id = rule_id s /\ conflicting facts rules primary i q.
Proof.
  intros Hc i id. unfold in_pair. setoid_rewrite Hc. split.
  - intros (x & e & Hx & ->).
    assert (exists q, elected_rules st !! q = Some e /\ conflicting facts rules primary i q) as (q & He & Hq).
    { destruct Hx as [((p & q & Hpq & ->) & -> & He)|((p & q & Hpq & ->) & -> & He)]; cbn [fst snd] in *; rewrite !Nat2N.id in *.
      all: destruct (le_lt_dec p q) as [Hle|Hle];
        rewrite ?(Nat.min_l p q), ?(Nat.max_r p q), ?(Nat.min_r p q), ?(Nat.max_l p q) in * by lia;
        eauto using conflicting_sym. }
    destruct (elected_back q e He) as (s & Hs & [Hid _ _] & _). exists q, s. split_and!; [done|by rewrite Hid|done].
  - intros (q & s & Hs & -> & Hq). destruct (Hst q s Hs) as (e & He & [Hid _ _] & _).
    exists (N.of_nat (Nat.min i q), N.of_nat (Nat.max i q)), e. split; [|by rewrite Hid]. cbn [fst snd]. rewrite !Nat2N.id.
    destruct (le_lt_dec i q) as [Hle|Hle];
      rewrite ?(Nat.min_l i q), ?(Nat.max_r i q), ?(Nat.min_r i q), ?(Nat.max_l i q) by lia; [left|right];
      (split_and!; [exists i, q|..]; [|done..]); (split; [done|f_equal; lia]).
Qed.
End Pairs.
Lemma cluster_rules_ok token to_string repository_id revision_sha limits t rules n out n' :
  cluster_rules token to_string repository_id revision_sha limits t rules n = Ok (out, n') ->
  exists keys primary, let sorted := sort_by_key rule_id rules in
    Forall2 (admitted token to_string limits t repository_id revision_sha (option_map scope_of (head sorted))) sorted keys /\
    clustered_from to_string t sorted keys primary out.
Proof.
  unfold cluster_rules. cbn zeta. set (sorted := sort_by_key rule_id rules). set (scope := option_map scope_of (head sorted)).
  intros (st & n1 & (keys & Hnorm & Hgroups & Hadm)%cluster_loop_ok & H)%polling_bind_Ok.
  apply polling_bind_Ok in H as (elected & n2 & Helect & H). rewrite Hgroups in Helect.
  apply elect_clusters_ok in Helect as [Hall Hlen]; [|apply groups_NoDup]. cbn [elected_rules] in Hall, Hlen.
  rewrite Hnorm in Hall, Hlen. case_match; [done|]. apply polling_bind_Ok in H as (conflicts & n3 & Hc & H).
  pose proof (find_conflicts_ok _ _ _ _ _ _ Hc) as Hconf. clear Hc. case_match; [done|].
  apply polling_bind_Ok in H as (marked & n4 & (m & [Hml Hmarked]%mark_conflicts_ok & [= -> _])%lift_Ok & ->%mret_Ok).
  pose proof (Forall2_length _ _ _ Hadm) as Hkl. rewrite length_map in Hlen. exists keys, (primary_index elected).
  split; [done|]. pose proof (elected_in to_string t _ keys elected Hall) as Hin.
  pose proof (primary_index_leader to_string t _ keys elected Hall) as Hleader.
  pose proof (primary_index_groups to_string t _ keys elected Hall) as Hsame.
  assert (forall i r, (map normalize_rule sorted) !! i = Some r -> exists r0, sorted !! i = Some r0 /\ r = normalize_rule r0) as Hback.
  { intros i r. change (map normalize_rule sorted) with (normalize_rule <$> sorted). rewrite list_lookup_fmap.
    destruct (sorted !! i) as [r0|]; [|done]. intros [= <-]. by exists r0. }
  rewrite <- Hkl in *.
  assert (forall i r, sorted !! i = Some r -> exists e, elected_rules elected !! i = Some e /\ recast_rule r e /\
    member_primary elected !! i = Some (N.of_nat (primary_index elected i))) as Hst.
  { intros i r Hr. destruct (Hin i (lookup_lt_Some _ _ _ Hr)) as (_ & _ & _ & _ & _ & _ & r1 & e & _ & _ & _ & H2 & H3 & H4 & [H5 _ _ _ _] & _).
    apply Hback in H2 as (? & H2 & ->). simplify_eq. exists e. split_and!; [done| |done].
    by apply (recast_rule_trans _ _ _ (normalize_recast r)). }
  split; [by rewrite length_map, Hml|exact Hleader|exact Hsame| |].
  - intros i r pr Hr Hpr. destruct (Hin i (lookup_lt_Some _ _ _ Hr)) as (_ & _ & _ & _ & _ & pr' & r' & _ & k & k' & E1 & E2 & _ & _ & _ & E3).
    apply Hback in E1 as (? & E1 & ->), E2 as (? & E2 & ->). exists k, k'. simplify_eq. done.
  - intros i r Hr. destruct (Hin i (lookup_lt_Some _ _ _ Hr)) as (_ & _ & _ & _ & _ & pr' & r1 & e & k & k' & E1 & E2 & E3 & _ & Hel & _).
    apply Hback in E1 as (pr & Hpr & ->), E2 as (? & E2 & ->). simplify_eq.
    destruct (Hmarked i e E3) as (ids & Hi & Hids). exists pr, (with_conflicts e (dedup (sort ids))). split; [done|].
    assert (r ∈ sorted) as Hrs by by apply list_elem_of_lookup_2 in Hr.
    destruct (Forall2_lookup_l _ _ _ _ _ Hadm Hr) as (key & _ & (Hd & Hdom & Hal & Hcf)%admitted_bare).
    destruct Hel as [Hrecast Hdomains Haliases Hdeps Hconfs]. split; [|split].
    + change (map ?f ?l) with (f <$> l). rewrite list_lookup_fmap, Hi. done.
    + split; cbn.
      * apply (recast_rule_trans _ _ _ (normalize_recast r)). by destruct Hrecast.
      * etrans; [exact Hdomains|]. by rewrite <- Hdom.
      * etrans; [exact Haliases|]. by rewrite <- Hal.
      * etrans; [exact Hdeps|]. done.
    + intros id. cbn [with_conflicts set_rule conflict_rule_ids]. rewrite elem_of_sort_dedup, Hids, Hconfs.
      rewrite (in_pair_conflicting (facts_by_id t) sorted (primary_index elected) elected Hlen Hst _
        (pair_conflicting _ _ _ _ Hlen Hst _ Hconf)). cbn [normalize_rule with_clauses set_rule conflict_rule_ids].
      rewrite Hcf, elem_of_nil. tauto.
Qed.

(** * Occurrences of one canonical rule *)

Lemma merge_rendered_clauses_Ok clauses more merged : for_each merge_rendered_clause clauses more = Ok merged ->
  forall c, c ∈ clauses ++ more -> exists c', c' ∈ merged /\ kept_in c c'.
Proof.
  apply (for_each_inv (fun pre merged => forall c, c ∈ clauses ++ pre -> exists c', c' ∈ merged /\ kept_in c c')).
  { intros c. rewrite app_nil_r. intros Hc. by exists c. }
  intros pre x suf s1 s2 _ Hpre Hm c. rewrite app_assoc, elem_of_snoc.
  pose proof (merge_rendered_clause_kept _ _ _ Hm) as Hkept.
  intros [Hc| ->]; [|apply Hkept; left]. destruct (Hpre c Hc) as (d & Hd & Hcd).
  destruct (Hkept d) as (d' & Hd' & Hdd); [by right|]. exists d'. split; [done|]. by eapply kept_in_trans.
Qed.
(** [r'] is [r] with what the rules [l] add. *)
Record absorbed (r : ArchaeologyRulePacket) (l : ArchaeologyRulePacket -> Prop) (r' : ArchaeologyRulePacket) : Prop := {
  ab_id : rule_id r' = rule_id r;
  ab_kind : rule_kind r' = rule_kind r;
  ab_domains : domain_ids r' = domain_ids r;
  ab_aliases : alias_rule_ids r' = alias_rule_ids r;
  ab_conflicts : forall id, id ∈ conflict_rule_ids r' <-> exists s, l s /\ id ∈ conflict_rule_ids s;
  ab_dependencies : forall id, id ∈ dependency_rule_ids r' <-> exists s, l s /\ id ∈ dependency_rule_ids s;
  ab_clauses : forall s c, l s -> c ∈ clauses s -> exists c', c' ∈ clauses r' /\ kept_in c c'
}.
Lemma absorbed_iff r (l l' : ArchaeologyRulePacket -> Prop) r' : (forall s, l s <-> l' s) -> absorbed r l r' -> absorbed r l' r'.
Proof. intros Hl []. split; try done; by setoid_rewrite <- Hl. Qed.
Lemma absorbed_self r : absorbed r (fun s => s = r) r.
Proof. split; try done; [naive_solver..|]. intros s c -> Hc. by exists c. Qed.
Lemma absorbed_clauses r l r' cs : absorbed r l r' -> (forall c, c ∈ clauses r' -> c ∈ cs) -> absorbed r l (with_clauses r' cs).
Proof.
  intros [] Hcs. split; cbn; try done. intros s c Hs Hc. destruct (ab_clauses0 s c Hs Hc) as (c' & ? & ?). exists c'. auto.
Qed.
Lemma absorbed_more r l r' s cs confidence : absorbed r l r' ->
  for_each merge_rendered_clause (clauses r') (clauses s) = Ok cs ->
  absorbed r (fun s' => l s' \/ s' = s) (set_rule r' (domain_ids r') confidence cs
    (dependency_rule_ids r' ++ dependency_rule_ids s) (conflict_rule_ids r' ++ conflict_rule_ids s) (alias_rule_ids r')).
Proof.
  intros [A1 A2 A3 A4 A5 A6 A7] Hcs. split; cbn; try done.
  - intros id. rewrite elem_of_app, A5. split; [intros [(x & ? & ?)|?]; [exists x|exists s]; auto|].
    intros (x & [Hx| ->] & ?); [left; by exists x|by right].
  - intros id. rewrite elem_of_app, A6. split; [intros [(x & ? & ?)|?]; [exists x|exists s]; auto|].
    intros (x & [Hx| ->] & ?); [left; by exists x|by right].
  - pose proof (merge_rendered_clauses_Ok _ _ _ Hcs) as Hm. setoid_rewrite elem_of_app in Hm.
    intros s' c [Hs'| ->] Hc; [|apply Hm; by right]. destruct (A7 s' c Hs' Hc) as (c1 & Hc1 & Hk).
    destruct (Hm c1) as (c2 & ? & ?); [by left|]. exists c2. split; [done|]. by eapply kept_in_trans.
Qed.

Section Absorb.
Context (p : nat) (st0 : reconciliation) (pr : ArchaeologyRulePacket) (Hpr : reconciled_rules st0 !! p = Some pr).
Notation rules0 := (reconciled_rules st0).
Record absorbing (l : list nat) (st : reconciliation) : Prop := {
  ag_length : length (reconciled_rules st) = length rules0;
  ag_other : forall i, i <> p -> reconciled_rules st !! i = rules0 !! i;
  ag_leader : exists r', reconciled_rules st !! p = Some r' /\
    absorbed pr (fun s => s = pr \/ exists i, i ∈ l /\ rules0 !! i = Some s) r';
  ag_removed : forall i, i ∈ removed st <-> i ∈ removed st0 \/ i ∈ l;
  ag_wf : map_wf (replacements st);
  ag_replaced : forall id id', map_get id (replacements st) = Some id' <->
    (exists i s, i ∈ l /\ rules0 !! i = Some s /\ rule_id s = id /\ id' = rule_id pr) \/
    map_get id (replacements st0) = Some id' /\ (forall i s, i ∈ l -> rules0 !! i = Some s -> rule_id s <> id)
}.
Lemma absorb_step l st i st' : i <> p -> absorbing l st -> absorb p (rule_id pr) st i = Ok st' -> absorbing (l ++ [i]) st'.
Proof.
  intros Hne [Hlen Hother (r' & Hr' & Hab) Hrem Hwf Hrep] (s & Hs%at_index_inv & H)%bind_Ok.
  apply bind_Ok in H as (x & Hx%at_index_inv & (cs & Hcs & (rules & [Hp ->]%set_index_inv & [= <-])%bind_Ok)%bind_Ok).
  assert (x = r') as -> by congruence. rewrite Hother in Hs by done. split; cbn [reconciled_rules replacements removed].
  - by rewrite length_insert.
  - intros j Hj. rewrite list_lookup_insert_ne by done. by apply Hother.
  - eexists. split; [by apply list_lookup_insert_eq|].     eapply absorbed_iff; [|by apply absorbed_more]. intros s'. setoid_rewrite elem_of_snoc. split.
    + intros [[->|(j & ? & ?)]| ->]; [by left|right; exists j; auto|right; exists i; auto].
    + intros [->|(j & [Hj| ->] & ?)]; [by left; left|left; right; by exists j|right; congruence].
  - intros j. rewrite elem_of_set_insert, Hrem, elem_of_snoc. tauto.
  - by apply map_insert_wf.
  - intros id id'. setoid_rewrite elem_of_snoc. destruct (decide (id = rule_id s)) as [->|Hid].
    + rewrite map_get_insert_eq by done. split.
      * intros [= <-]. left. exists i, s. auto.
      * intros [(j & s' & _ & _ & _ & ->)|[_ Hn]]; [done|]. by destruct (Hn i s); [right|..].
    + rewrite map_get_insert_ne, Hrep by done. split.
      * intros [(j & s' & Hj & ?)|[Hg Hn]]; [left; exists j, s'; tauto|right; split; [done|]].
        intros j s' [Hj| ->] Hs'; [by eapply Hn|congruence].
      * intros [(j & s' & [Hj| ->] & Hs' & Hid' & ?)|[Hg Hn]]; [left; by exists j, s'|congruence|right; split; [done|]].
        intros j s' Hj. apply Hn. by left.
Qed.
Lemma absorb_loop l st : (forall i, i ∈ l -> i <> p) -> map_wf (replacements st0) ->
  for_each (absorb p (rule_id pr)) st0 l = Ok st -> absorbing l st.
Proof.
  intros Hl Hwf. apply (for_each_inv absorbing).
  - split; try done.
    + exists pr. split; [done|]. eapply absorbed_iff; [|apply absorbed_self]. intros s. setoid_rewrite elem_of_nil. naive_solver.
    + intros i. rewrite elem_of_nil. tauto.
    + intros id id'. setoid_rewrite elem_of_nil. naive_solver.
  - intros pre i suf s1 s2 -> Hs Hstep. eapply absorb_step; [|done..]. apply Hl, elem_of_app. right. left.
Qed.
End Absorb.
Lemma sort_by_rank_elem {A} (rank : A -> outcome string) l k x : sort_by_rank rank l = Ok k -> x ∈ k <-> x ∈ l.
Proof.
  intros (ranked & Hr%collect_Ok & [= <-])%bind_Ok. rewrite list_elem_of_fmap.
  assert (map snd ranked = l) as <-.
  { clear x. induction Hr as [|x [k y] l ranked (key & _ & [= -> ->])%bind_Ok _ IH]; [done|]. cbn [map snd]. by rewrite IH. }
  rewrite list_elem_of_fmap. setoid_rewrite elem_of_sort_by_key. done.
Qed.

Section Reconcile.
Context (to_string : json -> option string) (facts : BTreeMap string ArchaeologyFact) (limits : ArchaeologyDeterministicLimits).
Context (base : list ArchaeologyRulePacket) (Hids : NoDup (map rule_id base)).

Lemma rule_index i j r s : base !! i = Some r -> base !! j = Some s -> rule_id r = rule_id s -> i = j.
Proof.
  intros Hr Hs Heq. apply (NoDup_lookup (map rule_id base) i j (rule_id r) Hids); change (map ?f ?l) with (f <$> l);
    rewrite list_lookup_fmap; [by rewrite Hr|rewrite Hs; cbn; by f_equal].
Qed.
(** Of the rules [done], rule [i] is now part of rule [lead i]. *)
Record reconciled_from (done : list nat) (lead : nat -> nat) (st : reconciliation) : Prop := {
  rf_length : length (reconciled_rules st) = length base;
  rf_lead : forall i, i ∈ done -> lead i ∈ done /\ lead (lead i) = lead i /\ i < length base;
  rf_same : forall i, i ∉ done -> lead i = i;
  rf_removed : forall i, i ∈ removed st <-> lead i <> i;
  rf_wf : map_wf (replacements st);
  rf_replaced : forall id id', map_get id (replacements st) = Some id' <-> exists i s q,
    base !! i = Some s /\ rule_id s = id /\ lead i <> i /\ base !! lead i = Some q /\ id' = rule_id q;
  rf_other : forall i, i ∉ done -> reconciled_rules st !! i = base !! i;
  rf_rule : forall i r, base !! i = Some r -> lead i = i -> exists r', reconciled_rules st !! i = Some r' /\
    absorbed r (fun s => exists j, base !! j = Some s /\ lead j = i) r'
}.
Lemma reconcile_group_ok done lead st g st' :
  reconciled_from done lead st -> NoDup g -> (forall i, i ∈ g -> i ∉ done /\ i < length base) ->
  reconcile_group to_string facts limits st g = Ok st' -> exists lead', reconciled_from (done ++ g) lead' st' /\
    (forall i, i ∉ g -> lead' i = lead i) /\ forall i, i ∈ g -> lead' i ∈ g /\ forall j, j ∈ g -> lead' i = lead' j.
Proof.
  intros Hst Hnd Hg. unfold reconcile_group. destruct (length g <=? 1) eqn:Hlen.
  { intros [= <-]. apply Nat.leb_le in Hlen. exists lead. split; [|split; [done|]].
    - destruct Hst as [H1 H2 H3 H4 H5 H6 H7 H8]. split; try done.
      + intros i [Hi|Hi]%elem_of_app; [destruct (H2 i Hi) as (?&?&?); split_and!; [apply elem_of_app; by left|done..]|].
        destruct (Hg i Hi) as [Hn Hl]. rewrite !H3 by (rewrite ?H3; done). split_and!; [apply elem_of_app; by right|done..].
      + intros i [Hi _]%not_elem_of_app. auto.
      + intros i [Hi _]%not_elem_of_app. auto.
    - intros i Hi. rewrite (rf_same _ _ _ Hst) by by apply Hg. split; [done|]. intros j Hj.
      rewrite (rf_same _ _ _ Hst) by by apply Hg. destruct g as [|x [|y g]]; cbn in Hlen; [by apply not_elem_of_nil in Hi| |lia].
      apply list_elem_of_singleton in Hi, Hj. congruence. }
  intros (p & [Hp _]%min_by_key_Ok & H)%bind_Ok. apply bind_Ok in H as (pr & Hpr%at_index_inv & H).
  apply bind_Ok in H as (st1 & Hloop & H). apply bind_Ok in H as (r1 & Hr1%at_index_inv & H).
  apply bind_Ok in H as (r2 & (cs & Hcs & [= <-])%bind_Ok & H). apply bind_Ok in H as (rules & [_ ->]%set_index_inv & H).
  apply if_Err_Ok in H as [_ [= <-]]. clear Hlen. destruct (Hg p Hp) as [Hpdone Hplen].
  apply (absorb_loop p st pr Hpr) in Hloop as [A1 A2 (r' & Hr' & Hab) A4 A5 A6];
    [|intros i [_ Hi%negb_true_iff%Nat.eqb_neq]%elem_of_filter_bool; done|apply Hst].
  assert (r' = r1) as -> by congruence. rewrite (rf_other _ _ _ Hst) in Hpr by done.
  assert (forall i, i ∈ List.filter (fun index => negb (index =? p)) g <-> i ∈ g /\ i <> p) as Hsec.
  { intros i. by rewrite elem_of_filter_bool, negb_true_iff, Nat.eqb_neq. }
  assert (forall i, i ∈ g -> lead i = i) as Hfix by (intros i Hi; by apply (rf_same _ _ _ Hst), Hg).
  assert (forall i, lead i ∈ g -> i ∈ g) as Hback.
  { intros i Hi. destruct (decide (i ∈ done)) as [Hd|Hd]; [by destruct (Hg _ Hi) as [[] _]; apply (rf_lead _ _ _ Hst)|].
    by rewrite (rf_same _ _ _ Hst) in Hi. }
  exists (fun i => if decide (i ∈ g) then p else lead i). split; [|split].
  2: { intros i Hi. by rewrite decide_False. }
  2: { intros i Hi. rewrite decide_True by done. split; [done|]. intros j Hj. by rewrite decide_True. }
  split; cbn [reconciled_rules replacements removed]; [|..|].
  - rewrite length_insert, A1. apply Hst.
  - intros i Hi. rewrite elem_of_app in *. case_decide as Hig.
    + rewrite decide_True by done. split_and!; [by right|done|by apply Hg].
    + destruct Hi as [Hi|]; [|done]. destruct (rf_lead _ _ _ Hst i Hi) as (Hl & Hll & Hlt).
      rewrite decide_False by (intros Hlg; by apply (Hg _ Hlg)). split_and!; [by left|done..].
  - intros i [Hi Hig]%not_elem_of_app. rewrite decide_False by done. by apply Hst.
  - intros i. rewrite A4, Hsec, (rf_removed _ _ _ Hst). case_decide as Hig; [|tauto]. rewrite (Hfix i Hig). naive_solver.
  - done.
  - intros id id'. rewrite A6, (rf_replaced _ _ _ Hst). split.
    + intros [(i & s & [Hig Hne]%Hsec & Hs & Hid & ->)|[(i & s & q & Hs & Hid & Hne & Hq & ->) _]].
      * rewrite (rf_other _ _ _ Hst) in Hs by by apply Hg. exists i, s, pr. rewrite decide_True by done. split_and!; done.
      * exists i, s, q. rewrite decide_False by auto. split_and!; done.
    + intros (i & s & q & Hs & Hid & Hne & Hq & ->). case_decide as Hig; [left|right].
      * exists i, s. rewrite (rf_other _ _ _ Hst) by by apply Hg. split_and!; [apply Hsec; auto|done..|]. congruence.
      * split; [exists i, s, q; split_and!; done|]. intros j s' [Hjg _]%Hsec Hs' Heq. subst id.
        rewrite (rf_other _ _ _ Hst) in Hs' by by apply Hg. by rewrite (rule_index j i s' s Hs' Hs Heq) in Hjg.
  - intros i [Hi Hig]%not_elem_of_app. rewrite list_lookup_insert_ne by (intros ->; done).
    rewrite A2 by (intros ->; done). by apply Hst.
  - intros i r Hr. case_decide as Hig.
    + intros <-. assert (r = pr) as -> by congruence. eexists. split; [apply list_lookup_insert_eq; by rewrite A1, (rf_length _ _ _ Hst)|].
      apply (absorbed_iff _ (fun s => s = pr \/ exists i, i ∈ List.filter (fun index => negb (index =? p)) g /\ reconciled_rules st !! i = Some s)).
      * intros s. split.
        -- intros [->|(j & [Hj Hne]%Hsec & Hs)]; [exists p; split; [done|by rewrite decide_True]|].
           exists j. rewrite (rf_other _ _ _ Hst) in Hs by by apply Hg. split; [done|by rewrite decide_True].
        -- intros (j & Hs & Hj). case_decide as Hjg; [|by destruct Hjg; apply Hback; rewrite Hj].
           destruct (decide (j = p)) as [->|Hne]; [left; congruence|right]. exists j. split; [by apply Hsec|].
           by rewrite (rf_other _ _ _ Hst) by by apply Hg.
      * apply absorbed_clauses; [done|]. intros c. by rewrite (sort_by_rank_elem _ _ _ _ Hcs).
    + intros Hlead. destruct (rf_rule _ _ _ Hst i r Hr Hlead) as (r' & Hi & Hab'). exists r'.
      rewrite list_lookup_insert_ne by (intros ->; done). rewrite A2 by (intros ->; done). split; [done|].
      eapply absorbed_iff; [|exact Hab']. intros s. split; intros (j & Hs & Hj); exists j; (split; [done|]).
      * rewrite decide_False; [done|]. intros Hjg. rewrite (Hfix j Hjg) in Hj. congruence.
      * case_decide as Hjg; [congruence|done].
Qed.
End Reconcile.

Section Groups.
Context (to_string : json -> option string) (facts : BTreeMap string ArchaeologyFact) (limits : ArchaeologyDeterministicLimits).
Context (base : list ArchaeologyRulePacket).
Notation canonical i key := (exists r, base !! i = Some r /\ alias_rule_ids r = [] /\ occurrence_key to_string facts r = Ok key).

Lemma group_occurrences_ok groups :
  for_each (group_occurrence to_string facts) [] (enumerate_nat 0 base) = Ok groups ->
  exists l, groups = pushes l /\ NoDup (map snd l) /\ (forall key i, (key, i) ∈ l <-> canonical i key) /\
    forall i r, base !! i = Some r -> alias_rule_ids r = [] -> i ∈ map snd l.
Proof.
  intros H. enough (exists l, groups = pushes l /\ NoDup (map snd l) /\ (forall i, i ∈ map snd l -> i < length (enumerate_nat 0 base)) /\
    (forall key i, (key, i) ∈ l <-> exists r, (i, r) ∈ enumerate_nat 0 base /\ alias_rule_ids r = [] /\
      occurrence_key to_string facts r = Ok key) /\
    forall i r, (i, r) ∈ enumerate_nat 0 base -> alias_rule_ids r = [] -> i ∈ map snd l) as (l & H1 & H2 & _ & H3 & H4).
  { exists l. split_and!; [done..| |].
    - intros key i. rewrite H3. by setoid_rewrite elem_of_enumerate.
    - intros i r Hr%elem_of_enumerate. by apply H4. }
  revert H. apply (for_each_inv (fun pre groups => exists l, groups = pushes l /\ NoDup (map snd l) /\
    (forall i, i ∈ map snd l -> i < length pre) /\ (forall key i, (key, i) ∈ l <-> exists r, (i, r) ∈ pre /\
      alias_rule_ids r = [] /\ occurrence_key to_string facts r = Ok key) /\
    forall i r, (i, r) ∈ pre -> alias_rule_ids r = [] -> i ∈ map snd l)).
  { exists []. split_and!; [done|constructor|by intros i ?%not_elem_of_nil| |by intros i r ?%not_elem_of_nil].
    intros key i. setoid_rewrite elem_of_nil. naive_solver. }
  intros pre [i r] suf s1 s2 ->%enumerate_split (l & -> & Hnd & Hlt & Hl & Hall). rewrite length_app. cbn [length group_occurrence].
  destruct (negb (is_nil (alias_rule_ids r))) eqn:Ea.
  - apply negb_true_iff, is_nil_false in Ea. intros [= <-]. exists l. split_and!; [done..|intros i Hi%Hlt; lia| |].
    + intros key i. rewrite Hl. setoid_rewrite elem_of_snoc. split; [intros (x & ? & ?); exists x; tauto|].
      intros (x & [?|[= -> ->]] & ? & ?); [by exists x|done].
    + intros i x [Hx|[= -> ->]]%elem_of_snoc Hax; [by eapply Hall|done].
  - apply negb_false_iff, is_nil_true in Ea. intros (key & Hkey & [= <-])%bind_Ok. exists (l ++ [(key, length pre)]). split_and!.
    + unfold pushes. by rewrite foldl_app.
    + rewrite map_app. cbn [map snd]. apply NoDup_snoc. split; [|done]. intros Hi%Hlt. lia.
    + intros i. rewrite map_app. cbn [map snd]. rewrite elem_of_snoc. intros [Hi%Hlt| ->]; lia.
    + intros key' i. rewrite elem_of_snoc, Hl. setoid_rewrite elem_of_snoc. split.
      * intros [(x & ? & ?)|[= -> ->]]; [exists x; tauto|exists r; auto].
      * intros (x & [?|[= -> ->]] & ? & ?); [left; by exists x|right; congruence].
    + intros i x. rewrite map_app. cbn [map snd]. rewrite !elem_of_snoc. intros [Hx|[= -> ->]] Hax; [left; by eapply Hall|by right].
Qed.
Context (Hids : NoDup (map rule_id base)).

Lemma reconcile_groups_ok groups st :
  NoDup (concat groups) -> (forall i, i ∈ concat groups -> i < length base) ->
  for_each (reconcile_group to_string facts limits) {| reconciled_rules := base; replacements := []; removed := [] |} groups
    = Ok st ->
  exists lead, reconciled_from base (concat groups) lead st /\
    forall g i, g ∈ groups -> i ∈ g -> lead i ∈ g /\ forall j, j ∈ g -> lead i = lead j.
Proof.
  intros Hnd Hlt. apply (for_each_inv (fun pre st => exists lead, reconciled_from base (concat pre) lead st /\
    forall g i, g ∈ pre -> i ∈ g -> lead i ∈ g /\ forall j, j ∈ g -> lead i = lead j)).
  { exists (fun i => i). split; [|by intros g i ?%not_elem_of_nil]. split; try done.
    - intros i. cbn. by intros ?%not_elem_of_nil.
    - intros i. cbn. rewrite elem_of_nil. tauto.
    - constructor.
    - intros id id'. split; [done|]. by intros (i & s & q & _ & _ & ? & _).
    - intros i r Hr _. exists r. split; [done|]. eapply absorbed_iff; [|apply absorbed_self]. naive_solver. }
  intros pre g suf s1 s2 -> (lead & Hst & Hgroups) Hstep. rewrite concat_app in Hnd, Hlt. cbn [concat] in Hnd, Hlt.
  apply NoDup_app in Hnd as (_ & Hd & (Hg & _ & _)%NoDup_app).
  assert (forall i, i ∈ g -> i ∉ concat pre) as Hfresh by (intros i Hi Hp; apply (Hd i Hp), elem_of_app; by left).
  assert (forall i, i ∈ g -> i ∉ concat pre /\ i < length base) as Hnew.
  { intros i Hi. split; [by apply Hfresh|]. apply Hlt. rewrite !elem_of_app. auto. }
  destruct (reconcile_group_ok to_string facts limits _ Hids _ _ _ _ _ Hst Hg Hnew Hstep) as (lead' & Hst' & Hsame & Hg').
  exists lead'. rewrite concat_app. cbn [concat]. rewrite app_nil_r. split; [done|].
  intros g' i [Hin| ->]%elem_of_snoc Hi; [|by apply Hg'].
  assert (forall j, j ∈ g' -> lead' j = lead j) as Heq.
  { intros j Hj. apply Hsame. intros Hjg. apply (Hfresh j Hjg), elem_of_concat. by exists g'. }
  destruct (Hgroups g' i Hin Hi) as [H1 H2]. rewrite Heq by done. split; [done|]. intros j Hj. rewrite Heq by done. by apply H2.
Qed.
(** Canonical rules are led by a canonical rule of the same meaning, and only by
    that; the others lead themselves. *)
Lemma occurrences_ok groups st :
  for_each (group_occurrence to_string facts) [] (enumerate_nat 0 base) = Ok groups ->
  for_each (reconcile_group to_string facts limits) {| reconciled_rules := base; replacements := []; removed := [] |}
    (map_values groups) = Ok st ->
  exists done lead, reconciled_from base done lead st /\
    (forall i, i ∈ done <-> exists r, base !! i = Some r /\ alias_rule_ids r = []) /\
    forall i j, i ∈ done -> j ∈ done -> lead i = lead j <-> exists key, canonical i key /\ canonical j key.
Proof.
  intros (l & -> & Hnd & Hl & Hall)%group_occurrences_ok Hloop. pose proof (pushes_perm l) as Hp.
  assert (forall i, i ∈ concat (map_values (pushes l)) <-> exists key, (key, i) ∈ l) as Hin.
  { intros i. rewrite Hp, list_elem_of_fmap. split; [intros ([key j] & -> & ?); by exists key|intros [key ?]; by exists (key, i)]. }
  apply reconcile_groups_ok in Hloop as (lead & Hst & Hgroups).
  2: { by rewrite Hp. }
  2: { intros i [key (r & Hr & _)%Hl]%Hin. by apply lookup_lt_Some in Hr. }
  exists (concat (map_values (pushes l))), lead. split_and!; [done| |].
  - intros i. rewrite Hin. split.
    + intros [key (r & Hr & Ha & _)%Hl]. by exists r.
    + intros (r & Hr & Ha). pose proof (Hall i r Hr Ha) as ([key j] & -> & ?)%list_elem_of_fmap. by exists key.
  - intros i j [ki Hi]%Hin [kj Hj]%Hin. pose proof (push_groups_elem _ _ _ Hi) as Hgi. pose proof (push_groups_elem _ _ _ Hj) as Hgj.
    apply elem_of_entries in Hi, Hj. split.
    + intros Heq. exists ki. split; [by apply Hl, elem_of_entries|].
      destruct (Hgroups _ _ Hgi Hi) as [Hli _], (Hgroups _ _ Hgj Hj) as [Hlj _]. rewrite Heq in Hli.
      apply elem_of_entries, Hl in Hli as (r & Hr & _ & Hk), Hlj as (r' & Hr' & _ & Hk'). simplify_eq.
      apply Hl, elem_of_entries. congruence.
    + intros (key & Hki & Hkj). apply Hl, elem_of_entries in Hki, Hkj. eapply (Hgroups (entries_of l key)); [|done..].
      eapply push_groups_elem. by apply elem_of_entries.
Qed.
End Groups.

(** Rules that refer to each other and nothing else. *)
Record related (rules : list ArchaeologyRulePacket) : Prop := {
  rl_ids : NoDup (map rule_id rules);
  rl_dependencies : forall r, r ∈ rules -> dependency_rule_ids r = [];
  rl_aliases : forall r, r ∈ rules -> alias_rule_ids r = [] \/
    exists p pr, rules !! p = Some pr /\ alias_rule_ids pr = [] /\ alias_rule_ids r = [rule_id pr];
  rl_conflicts : forall r id, r ∈ rules -> id ∈ conflict_rule_ids r ->
    id <> rule_id r /\ exists q s, rules !! q = Some s /\ rule_id s = id
}.
(** Rule [r] at [i] becomes [r'] when every rule [j] becomes part of [lead j]. *)
Record settled (base : list ArchaeologyRulePacket) (lead : nat -> nat) (i : nat) (r r' : ArchaeologyRulePacket) : Prop := {
  se_id : rule_id r' = rule_id r;
  se_kind : rule_kind r' = rule_kind r;
  se_domains : domain_ids r' = domain_ids r;
  se_dependencies : dependency_rule_ids r' = [];
  se_aliases : alias_rule_ids r = [] /\ alias_rule_ids r' = [] \/ exists p pr q, base !! p = Some pr /\
    alias_rule_ids pr = [] /\ alias_rule_ids r = [rule_id pr] /\ base !! lead p = Some q /\ alias_rule_ids r' = [rule_id q];
  se_conflicts : forall id, id ∈ conflict_rule_ids r' <-> id <> rule_id r /\ exists j s q x y, base !! j = Some s /\ lead j = i /\
    base !! q = Some x /\ rule_id x ∈ conflict_rule_ids s /\ base !! lead q = Some y /\ id = rule_id y;
  se_clauses : forall j s c, base !! j = Some s -> lead j = i -> c ∈ clauses s -> exists c', c' ∈ clauses r' /\ kept_in c c'
}.
Section Settled.
Context (base : list ArchaeologyRulePacket) (Hbase : related base).
Context (finished : list nat) (lead : nat -> nat) (st : reconciliation) (Hst : reconciled_from base finished lead st).
Context (Hfinished : forall i, i ∈ finished <-> exists r, base !! i = Some r /\ alias_rule_ids r = []).

Lemma lead_lookup i r : base !! i = Some r -> exists q, base !! lead i = Some q /\ lead (lead i) = lead i.
Proof.
  intros Hr. destruct (decide (i ∈ finished)) as [Hi|Hi].
  - destruct (rf_lead _ _ _ _ Hst i Hi) as (Hl & Hll & _). apply Hfinished in Hl as (q & Hq & _). by exists q.
  - rewrite !(rf_same _ _ _ _ Hst i) by done. by exists r.
Qed.
Lemma replace_id_lead i r q : base !! i = Some r -> base !! lead i = Some q ->
  replace_id (replacements st) (rule_id r) = rule_id q.
Proof.
  intros Hr Hq. unfold replace_id. destruct (map_get _ _) as [id|] eqn:E; cbn; unfold Datatypes.id.
  - apply (rf_replaced _ _ _ _ Hst) in E as (j & s & q' & Hs & Heq & _ & Hq' & ->).
    rewrite (rule_index base (rl_ids _ Hbase) j i s r Hs Hr Heq) in Hq'. congruence.
  - destruct (decide (lead i = i)) as [Hl|Hl]; [rewrite Hl in Hq; congruence|].
    assert (map_get (rule_id r) (replacements st) = Some (rule_id q)) as Hsome; [|congruence].
    apply (rf_replaced _ _ _ _ Hst). by exists i, r, q.
Qed.
Lemma settled_of i r x r' : base !! i = Some r -> lead i = i ->
  absorbed r (fun s => exists j, base !! j = Some s /\ lead j = i) x ->
  rule_id r' = rule_id x -> rule_kind r' = rule_kind x -> domain_ids r' = domain_ids x -> clauses r' = clauses x ->
  (dependency_rule_ids x = [] -> dependency_rule_ids r' = []) ->
  (forall id, alias_rule_ids x = [id] -> alias_rule_ids r' = [replace_id (replacements st) id]) ->
  (alias_rule_ids x = [] -> alias_rule_ids r' = []) ->
  (forall id, id ∈ conflict_rule_ids r' <-> id <> rule_id r /\ exists o, o ∈ conflict_rule_ids x /\ id = replace_id (replacements st) o) ->
  settled base lead i r r'.
Proof.
  intros Hr Hlead [A1 A2 A3 A4 A5 A6 A7] H1 H2 H3 H4 H5 H6 H7 H8. assert (r ∈ base) as Hin by by apply list_elem_of_lookup_2 in Hr.
  split; [congruence|congruence|congruence| | | |].
  - apply H5, elem_of_nil_inv. intros id. rewrite A6. intros (s & (j & Hs & _) & Hid).
    rewrite (rl_dependencies _ Hbase s) in Hid by by apply list_elem_of_lookup_2 in Hs. by apply not_elem_of_nil in Hid.
  - destruct (rl_aliases _ Hbase r Hin) as [Ha|(p & pr & Hp & Hpa & Ha)]; [left; split; [done|apply H7; congruence]|right].
    destruct (lead_lookup p pr Hp) as (q & Hq & _). exists p, pr, q. split_and!; [done..|].
    rewrite <- (replace_id_lead p pr q Hp Hq). apply H6. congruence.
  - intros id. rewrite H8. split; (intros [Hne Hex]; split; [done|]).
    + destruct Hex as (o & (s & (j & Hs & Hj) & Ho)%A5 & ->).
      destruct (rl_conflicts _ Hbase s o) as (_ & q & x' & Hx' & <-); [by apply list_elem_of_lookup_2 in Hs|done|].
      destruct (lead_lookup q x' Hx') as (y & Hy & _). exists j, s, q, x', y. split_and!; [done..|]. by apply (replace_id_lead q).
    + destruct Hex as (j & s & q & x' & y & Hs & Hj & Hx' & Hc & Hy & ->). exists (rule_id x'). split.
      * apply A5. exists s. split; [by exists j|done].
      * symmetry. by apply (replace_id_lead q).
  - intros j s c Hs Hj Hc. rewrite H4. apply (A7 s); [by exists j|done].
Qed.
Lemma settled_here i r : base !! i = Some r -> lead i = i -> replacements st = [] ->
  exists r', reconciled_rules st !! i = Some r' /\ settled base lead i r r'.
Proof.
  intros Hr Hlead Hnil. destruct (rf_rule _ _ _ _ Hst i r Hr Hlead) as (x & Hx & Hab). exists x. split; [done|].
  assert (forall id, replace_id (replacements st) id = id) as Hid by (intros id; by rewrite Hnil).
  apply (settled_of i r x); try done; [intros id; by rewrite Hid|]. intros id. setoid_rewrite Hid. split.
  - intros Hc. split; [|by exists id]. pose proof Hc as (s & (j & Hs & Hj) & Hcs)%(ab_conflicts _ _ _ Hab).
    assert (j = i) as ->.
    { destruct (decide (lead j = j)) as [|Hne]; [congruence|]. destruct (lead_lookup j s Hs) as (q & Hq & _).
      assert (map_get (rule_id s) (replacements st) = Some (rule_id q)) as Hsome; [|by rewrite Hnil in Hsome].
      apply (rf_replaced _ _ _ _ Hst). by exists j, s, q. }
    assert (s = r) as -> by congruence. apply (rl_conflicts _ Hbase r id); [by apply list_elem_of_lookup_2 in Hr|done].
  - by intros [_ (o & Ho & ->)].
Qed.
Lemma settled_reparent i r : base !! i = Some r -> lead i = i ->
  exists r', reconciled_rules st !! i = Some r' /\ settled base lead i r (reparent (replacements st) r').
Proof.
  intros Hr Hlead. destruct (rf_rule _ _ _ _ Hst i r Hr Hlead) as (x & Hx & Hab). exists x. split; [done|].
  apply (settled_of i r x); try done; cbn [reparent set_rule alias_rule_ids dependency_rule_ids conflict_rule_ids].
  - by intros ->.
  - by intros id ->.
  - by intros ->.
  - intros id. unfold replaced_ids. rewrite elem_of_sort_dedup, elem_of_filter_bool, negb_true_iff, seqb_false, list_elem_of_fmap.
    rewrite (ab_id _ _ _ Hab). naive_solver.
Qed.
End Settled.
(** What is kept of rules that are settled where they are. *)
Lemma settled_kept base lead (final : list ArchaeologyRulePacket) (q : nat -> bool) :
  NoDup (map rule_id base) -> length final = length base -> (forall i, i < length base -> q i = true <-> lead i = i) ->
  (forall i r, base !! i = Some r -> lead i = i -> exists r', final !! i = Some r' /\ settled base lead i r r') ->
  let kept := map snd (List.filter (fun e => q (fst e)) (enumerate_nat 0 final)) in
  (forall i r, base !! i = Some r -> lead i = i -> exists r', r' ∈ kept /\ settled base lead i r r') /\
  (forall r', r' ∈ kept -> exists i r, base !! i = Some r /\ lead i = i /\ settled base lead i r r') /\
  NoDup (map rule_id kept).
Proof.
  intros Hids Hlen Hq Hfinal kept.
  assert (forall i r', (i, r') ∈ List.filter (fun e => q (fst e)) (enumerate_nat 0 final) <->
    exists r, base !! i = Some r /\ lead i = i /\ final !! i = Some r' /\ settled base lead i r r') as Hin.
  { intros i r'. rewrite elem_of_filter_bool, elem_of_enumerate. cbn [fst]. split.
    - intros [Hr' Hl]. pose proof (lookup_lt_Some _ _ _ Hr') as Hlt. rewrite Hlen in Hlt.
      apply Hq in Hl; [|done]. destruct (lookup_lt_is_Some_2 base i Hlt) as [r Hr].
      destruct (Hfinal i r Hr Hl) as (x & Hx & Hs). exists r. simplify_eq. done.
    - intros (r & Hr & Hl & Hr' & _). split; [done|]. apply Hq; [|done]. by apply lookup_lt_Some in Hr. }
  split_and!.
  - intros i r Hr Hl. destruct (Hfinal i r Hr Hl) as (r' & Hr' & Hs). exists r'. split; [|done].
    apply list_elem_of_fmap. exists (i, r'). split; [done|]. apply Hin. by exists r.
  - intros r' ([i x] & -> & (r & ? & ? & _ & ?)%Hin)%list_elem_of_fmap. by exists i, r.
  - unfold kept. rewrite map_map. change (map ?f ?l) with (f <$> l). apply NoDup_fmap_2_strong.
    + intros [i x] [j y] (r & Hr & _ & Hx & Hs)%Hin (s & Hs' & _ & Hy & Ht)%Hin Heq. cbn in Heq.
      rewrite (se_id _ _ _ _ _ Hs), (se_id _ _ _ _ _ Ht) in Heq. assert (i = j) as -> by by eapply rule_index.
      congruence.
    + apply filter_bool_NoDup, (NoDup_fmap_1 fst). change (fst <$> ?l) with (map fst l). rewrite map_fst_enumerate. apply NoDup_seq.
Qed.
Lemma reconcile_ok to_string facts limits base kept : related base ->
  reconcile_duplicate_canonical_occurrences to_string facts limits base = Ok kept ->
  exists lead, (forall i r, base !! i = Some r -> exists q, base !! lead i = Some q /\ lead (lead i) = lead i /\
      (alias_rule_ids r <> [] -> lead i = i) /\ (alias_rule_ids r = [] -> alias_rule_ids q = [] /\
        exists key, occurrence_key to_string facts r = Ok key /\ occurrence_key to_string facts q = Ok key)) /\
    (forall i r, base !! i = Some r -> lead i = i -> exists r', r' ∈ kept /\ settled base lead i r r') /\
    (forall r', r' ∈ kept -> exists i r, base !! i = Some r /\ lead i = i /\ settled base lead i r r') /\
    NoDup (map rule_id kept).
Proof.
  intros Hbase (groups & Hgroups & (st & Hloop & H)%bind_Ok)%bind_Ok.
  destruct (occurrences_ok _ _ _ _ (rl_ids _ Hbase) _ _ Hgroups Hloop) as (finished & lead & Hst & Hfinished & Hkeys).
  exists lead. split.
  { intros i r Hr. destruct (lead_lookup base finished lead st Hst Hfinished i r Hr) as (q & Hq & Hll). exists q.
    split_and!; [done|done| |].
    - intros Ha. apply (rf_same _ _ _ _ Hst). intros (r' & Hr' & Ha')%Hfinished. congruence.
    - intros Ha. assert (i ∈ finished) as Hi by (apply Hfinished; by exists r).
      destruct (rf_lead _ _ _ _ Hst i Hi) as (Hl & _). pose proof Hl as (q' & Hq' & Haq)%Hfinished.
      assert (q' = q) as -> by congruence. split; [done|]. symmetry in Hll.
      apply (Hkeys i (lead i) Hi Hl) in Hll as (key & (r' & Hr' & _ & Hk) & (q' & Hq'' & _ & Hk')). simplify_eq. by exists key. }
  assert (forall i, i < length base -> set_contains i (removed st) = false <-> lead i = i) as Hremoved.
  { intros i _. rewrite set_contains_false, (rf_removed _ _ _ _ Hst). destruct (decide (lead i = i)); tauto. }
  destruct (is_nil (replacements st)) eqn:Hnil.
  - injection H as <-. apply is_nil_true in Hnil.
    destruct (settled_kept base lead (reconciled_rules st) (fun _ => true)) as (H1 & H2 & H3).
    + apply Hbase.
    + apply Hst.
    + intros i [r Hr]%lookup_lt_is_Some. split; [intros _|done]. destruct (decide (lead i = i)) as [|Hne]; [done|].
      destruct (lead_lookup base finished lead st Hst Hfinished i r Hr) as (q & Hq & _).
      assert (map_get (rule_id r) (replacements st) = Some (rule_id q)) as Hsome; [|by rewrite Hnil in Hsome].
      apply (rf_replaced _ _ _ _ Hst). by exists i, r, q.
    + intros i r Hr Hl. by apply (settled_here base Hbase finished lead st Hst Hfinished).
    + assert (map snd (List.filter (fun e : nat * ArchaeologyRulePacket => true) (enumerate_nat 0 (reconciled_rules st)))
        = reconciled_rules st) as Heq by (rewrite filter_true; apply map_snd_enumerate).
      rewrite Heq in *. done.
  - apply bind_Ok in H as (u & _ & [= <-]).
    apply (settled_kept base lead (map (reparent (replacements st)) (reconciled_rules st)) (fun i => negb (set_contains i (removed st)))).
    + apply Hbase.
    + rewrite length_map. apply Hst.
    + intros i Hi. by rewrite negb_true_iff, Hremoved.
    + intros i r Hr Hl. destruct (settled_reparent base Hbase finished lead st Hst Hfinished i r Hr Hl) as (x & Hx & Hs).
      exists (reparent (replacements st) x). split; [|done]. change (map ?f ?l) with (f <$> l). by rewrite list_lookup_fmap, Hx.
Qed.
