(* ===== verification/ClusterTheorems.v ===== *)
(** What the clustering of [Clusters] guarantees: its answer depends on no order of
    its input, rules share a primary exactly when they mean the same, the conflicts
    it marks are those of the evidence, the relations of its answer stay within it,
    and no clause or evidence is lost. *)
From S2P Require Import Prelude Ordering Entries RustText GraphTypes SecretPolicy Contracts Adapter Packets TemplateRules PacketProps PacketTheorems TemplateProps Clusters ClusterProps ClusterRuns.
Local Open Scope nat_scope.

(** * Order of the input *)

(** C31: the answer of clustering does not depend on the order in which rules, facts,
    relationships and origins arrive, nor on when the cancellation flag was looked
    at: two runs that answer, on the same input in any two orders, answer the same
    rules in the same order, with the same primaries, aliases, conflicts, merged
    occurrences and order of clauses. *)
Theorem clustering_order_independent token token' to_string json_rules repository_id revision_sha limits
    rules rules' facts facts' edges edges' origins origins' n n' out k out' k' :
  rules ≡ₚ rules' -> facts ≡ₚ facts' -> edges ≡ₚ edges' -> origins ≡ₚ origins' ->
  cluster_evidence_compatible_rules token to_string json_rules repository_id revision_sha limits rules facts edges origins n
    = Ok (out, k) ->
  cluster_evidence_compatible_rules token' to_string json_rules repository_id revision_sha limits rules' facts' edges' origins' n'
    = Ok (out', k') ->
  out = out'.
Proof.
  intros Hr Hf He Ho (t & m & clustered & m1 & reconciled & Ht & Hc & Hrec & Hout & _)%clustered_Ok
    (t' & m' & clustered' & m1' & reconciled' & Ht' & Hc' & Hrec' & Hout' & _)%clustered_Ok.
  pose proof (cluster_tables_unique _ _ _ _ _ _ _ _ Hf He Ho Ht Ht') as <-.
  assert (sort_by_key rule_id rules = sort_by_key rule_id rules') as Hsort.
  { apply (sort_by_key_ext rule_id); [done|]. apply key_identifies. by eapply cluster_rules_distinct. }
  assert (clustered = clustered') as <-; [|congruence].
  eapply (steady_unique _ _ _ _ _ _ _ _ _ (cluster_rules_steady to_string repository_id revision_sha limits t rules)); [exact Hc|].
  unfold cluster_rules in *. by rewrite Hsort.
Qed.
(** The example's runs. *)
Lemma fmap_fst_Ok {A B C} (f : A -> B) (m : outcome (A * C)) b : f <$> (fst <$> m) = Ok b -> exists a c, m = Ok (a, c) /\ f a = b.
Proof. destruct m as [[a c]|e|w]; cbn; [|done..]. intros [= <-]. by exists a, c. Qed.
Lemma ex_cluster_unfold rules : ex_cluster rules =
  cluster_evidence_compatible_rules never_cancelled ex_to_string (fun _ => Some 100%N) ex_repository ex_sha
    default_deterministic_limits rules ex_cluster_facts [] ex_origins 0.
Proof. reflexivity. Qed.
Example ex_cluster_reversed : map ex_relations <$> (fst <$> ex_cluster (reverse ex_cluster_rules)) =
  (map ex_relations <$> (fst <$> ex_cluster ex_cluster_rules)).
Proof. vm_compute. reflexivity. Qed.
Lemma ex_cluster_run : exists out k out' k',
  cluster_evidence_compatible_rules never_cancelled ex_to_string (fun _ => Some 100%N) ex_repository ex_sha
    default_deterministic_limits ex_cluster_rules ex_cluster_facts [] ex_origins 0 = Ok (out, k) /\
  cluster_evidence_compatible_rules never_cancelled ex_to_string (fun _ => Some 100%N) ex_repository ex_sha
    default_deterministic_limits (reverse ex_cluster_rules) ex_cluster_facts [] ex_origins 0 = Ok (out', k') /\
  map rule_id out = ["r1"; "r2"; "r3"]%string.
Proof.
  pose proof ex_cluster_ok as H1. pose proof ex_cluster_reversed as H2. rewrite H1 in H2.
  apply fmap_fst_Ok in H1 as (out & k & H1 & Hout), H2 as (out' & k' & H2 & _). rewrite ex_cluster_unfold in H1, H2.
  exists out, k, out', k'. split; [exact H1|]. split; [exact H2|].
  apply (f_equal (map (fun x => fst (fst (fst x))))) in Hout. rewrite map_map in Hout. exact Hout.
Qed.
Lemma clustering_order_independent_witness : exists out k k',
  cluster_evidence_compatible_rules never_cancelled ex_to_string (fun _ => Some 100%N) ex_repository ex_sha
    default_deterministic_limits ex_cluster_rules ex_cluster_facts [] ex_origins 0 = Ok (out, k) /\
  cluster_evidence_compatible_rules never_cancelled ex_to_string (fun _ => Some 100%N) ex_repository ex_sha
    default_deterministic_limits (reverse ex_cluster_rules) ex_cluster_facts [] ex_origins 0 = Ok (out, k') /\
  map rule_id out = ["r1"; "r2"; "r3"]%string.
Proof.
  destruct ex_cluster_run as (out & k & out' & k' & H1 & H2 & Hids). exists out, k, k'. split; [exact H1|]. split; [|exact Hids].
  rewrite (clustering_order_independent _ _ _ _ _ _ _ _ _ _ _ _ _ _ _ _ _ _ _ _ _ (symmetry (reverse_Permutation ex_cluster_rules))
    (Permutation_refl _) (Permutation_refl _) (Permutation_refl _) H1 H2).
  exact H2.
Defined.

(** * Primaries *)

(** A rule means what it means however its clauses list their facts. *)
Lemma clause_meaning_normalize facts edges c : clause_meaning facts edges (normalize_clause c) = clause_meaning facts edges c.
Proof.
  unfold clause_meaning. cbn [normalize_clause set_clause supporting_fact_ids contradicting_fact_ids Contracts.caveats].
  assert (forall l : list string, sort l ≡ₚ l) as Hsort by (intros l; apply sort_by_perm).
  rewrite (sort_perm_eq _ _ (Permutation_map (print_of facts) (Hsort (supporting_fact_ids c)))),
    (sort_perm_eq _ _ (Permutation_map (print_of facts) (Hsort (contradicting_fact_ids c)))).
  rewrite (List.filter_ext (joins_facts (sort (supporting_fact_ids c) ++ sort (contradicting_fact_ids c)))
    (joins_facts (supporting_fact_ids c ++ contradicting_fact_ids c))).
  2: { intros e. unfold joins_facts. f_equal; apply eq_true_iff_eq; by rewrite !elemb_true, !elem_of_app, !Hsort. }
  rewrite (forallb_filter_id _ (sort (List.filter _ _))); [by rewrite (sort_perm_eq _ _ (Hsort _))|].
  apply forallb_elem. intros x. rewrite Hsort, elem_of_filter_bool. tauto.
Qed.
Lemma same_meaning_normalize facts edges r s :
  same_meaning facts edges (normalize_rule r) (normalize_rule s) <-> same_meaning facts edges r s.
Proof.
  unfold same_meaning. cbn [normalize_rule with_clauses set_rule rule_kind Contracts.clauses]. rewrite !map_map.
  by rewrite !(map_ext _ _ (clause_meaning_normalize facts edges)).
Qed.
(** The primary of a clustered rule. *)
Definition primary_of (rule : ArchaeologyRulePacket) : string :=
  match alias_rule_ids rule with primary :: _ => primary | [] => rule_id rule end.
Section Clustered.
Context (to_string : json -> option string) (t : cluster_tables) (rules : list ArchaeologyRulePacket) (keys : list string).
Context (primary : nat -> nat) (out : list ArchaeologyRulePacket) (Hout : clustered_from to_string t rules keys primary out).
Context (Hids : NoDup (map rule_id rules)).

Lemma out_at i r' : out !! i = Some r' -> exists r pr, rules !! i = Some r /\ rules !! primary i = Some pr /\
  clustered_rule (i =? primary i) (rule_id pr) r r' /\ rule_id r' = rule_id r /\ primary_of r' = rule_id pr.
Proof.
  intros Hr'. destruct (lookup_lt_is_Some_2 rules i) as [r Hr].
  { rewrite <- (cf_length _ _ _ _ _ _ Hout). by apply lookup_lt_Some in Hr'. }
  destruct (cf_rule _ _ _ _ _ _ Hout i r Hr) as (pr & x & Hpr & Hx & Hc & _). assert (x = r') as -> by congruence.
  exists r, pr. split_and!; [done..|apply Hc|]. unfold primary_of. rewrite (cr_aliases _ _ _ _ Hc).
  destruct (i =? primary i) eqn:E; [|done]. apply Nat.eqb_eq in E. rewrite <- E in Hpr.
  rewrite (rr_id _ _ (cr_recast _ _ _ _ Hc)). congruence.
Qed.
Lemma out_ids : map rule_id out = map rule_id rules.
Proof.
  apply list_eq. intros i. change (map ?f ?l) with (f <$> l). rewrite !list_lookup_fmap.
  destruct (out !! i) as [r'|] eqn:E.
  - destruct (out_at i r' E) as (r & pr & Hr & _ & _ & Hid & _). rewrite Hr. cbn. congruence.
  - apply lookup_ge_None in E. rewrite (cf_length _ _ _ _ _ _ Hout) in E. apply lookup_ge_None in E. by rewrite E.
Qed.
Lemma primary_same i j r' s' : out !! i = Some r' -> out !! j = Some s' ->
  primary_of r' = primary_of s' <-> primary i = primary j.
Proof.
  intros (r & pr & _ & Hpr & _ & _ & ->)%out_at (s & ps & _ & Hps & _ & _ & ->)%out_at. split.
  - by apply (rule_index rules Hids).
  - intros Heq. congruence.
Qed.
End Clustered.
Section Run.
Context (token : StructuralGraphCancellation) (to_string : json -> option string) (repository_id revision_sha : string).
Context (limits : ArchaeologyDeterministicLimits) (t : cluster_tables) (rules out : list ArchaeologyRulePacket) (n n' : nat).
Context (Hrun : cluster_rules token to_string repository_id revision_sha limits t rules n = Ok (out, n')).

Lemma sorted_NoDup_ids : NoDup (map rule_id (sort_by_key rule_id rules)).
Proof. rewrite sort_by_key_Permutation. by eapply cluster_rules_distinct. Qed.
Lemma sorted_at r r' : r ∈ rules -> r' ∈ out -> rule_id r' = rule_id r ->
  exists i, sort_by_key rule_id rules !! i = Some r /\ out !! i = Some r'.
Proof.
  intros Hr [i Hi]%list_elem_of_lookup_1 Hid. exists i. split; [|done].
  destruct (cluster_rules_ok _ _ _ _ _ _ _ _ _ _ Hrun) as (keys & primary & _ & Hout).
  destruct (out_at _ _ _ _ _ _ Hout i r' Hi) as (s & pr & Hs & _ & _ & Heq & _). rewrite Hs. f_equal.
  apply (key_identifies rule_id _ sorted_NoDup_ids); [by apply list_elem_of_lookup_2 in Hs|by apply elem_of_sort_by_key|congruence].
Qed.
End Run.

(** C27: clustering puts together exactly what means the same.  The rules keep their
    identities, in order; two rules end up with the same primary if and only if
    they are of one kind and their clauses rest on, and set aside, facts of the
    same fingerprints, joined by the same relationships, with the same caveats,
    in whatever order; and a primary is a rule of its cluster whose rank -- source
    before generated evidence, resolved before unresolved, fewest contradictions,
    most confidence -- none of the cluster beats.  Serialization is assumed to tell
    values apart. *)
Theorem clusters_by_meaning token to_string repository_id revision_sha limits facts edges origins t edges_by_id rules n out n' :
  cluster_rules token to_string repository_id revision_sha limits t rules n = Ok (out, n') ->
  injective to_string -> cluster_tables_ok facts edges origins t -> edges_ok edges (facts_by_id t) edges_by_id ->
  map rule_id out = sort (map rule_id rules) /\
  (forall r s r' s', r ∈ rules -> s ∈ rules -> r' ∈ out -> s' ∈ out -> rule_id r' = rule_id r -> rule_id s' = rule_id s ->
    primary_of r' = primary_of s' <-> same_meaning (facts_by_id t) edges_by_id r s) /\
  (forall r r', r ∈ rules -> r' ∈ out -> rule_id r' = rule_id r -> exists p k k', p ∈ rules /\ rule_id p = primary_of r' /\
    primary_rank to_string (facts_by_id t) (origins_by_fact t) (normalize_rule p) = Ok k /\
    primary_rank to_string (facts_by_id t) (origins_by_fact t) (normalize_rule r) = Ok k' /\ cmp k k' <> Gt).
Proof.
  intros Hrun Hinj [_ _ _ (edges_by_id' & Hedges' & Hfiled)] Hedges.
  rewrite <- (edges_ok_unique _ _ _ _ _ (Permutation_refl _) Hedges Hedges') in Hfiled. clear Hedges'.
  pose proof (sorted_NoDup_ids _ _ _ _ _ _ _ _ _ _ Hrun) as Hids. pose proof (sorted_at _ _ _ _ _ _ _ _ _ _ Hrun) as Hat.
  destruct (cluster_rules_ok _ _ _ _ _ _ _ _ _ _ Hrun) as (keys & primary & Hadm & Hout).
  split; [by rewrite (out_ids _ _ _ _ _ _ Hout), map_sort_by_key|split].
  - intros r s r' s' Hr Hs Hr' Hs' Hir His. destruct (Hat r r' Hr Hr' Hir) as (i & Hi & Hi'), (Hat s s' Hs Hs' His) as (j & Hj & Hj').
    rewrite (primary_same _ _ _ _ _ _ Hout Hids i j r' s' Hi' Hj'), (cf_groups _ _ _ _ _ _ Hout);
      [|by eapply lookup_lt_Some..].
    destruct (Forall2_lookup_l _ _ _ _ _ Hadm Hi) as (key & Hk & [_ _ (k1 & k2 & Hkey)]).
    destruct (Forall2_lookup_l _ _ _ _ _ Hadm Hj) as (key' & Hk' & [_ _ (k3 & k4 & Hkey')]).
    rewrite Hk, Hk', <- (same_meaning_normalize _ _ r s). rewrite Hfiled in Hkey, Hkey'.
    rewrite <- (compatibility_key_meaning _ _ _ _ _ _ _ _ _ _ _ _ _ _ _ _ Hinj Hedges Hkey Hkey').
    split; [by intros [= ->]|by intros ->].
  - intros r r' Hr Hr' Hid. destruct (Hat r r' Hr Hr' Hid) as (i & Hi & Hi').
    destruct (out_at _ _ _ _ _ _ Hout i r' Hi') as (x & pr & Hx & Hpr & _ & _ & Hp).
    destruct (cf_least _ _ _ _ _ _ Hout i r pr Hi Hpr) as (k & k' & H1 & H2 & H3). exists pr, k, k'.
    split_and!; [|done..]. apply (elem_of_sort_by_key rule_id). by apply list_elem_of_lookup_2 in Hpr.
Qed.

(** C30: the conflicts that are marked are those of the evidence.  Two rules of the
    answer name each other as conflicting exactly if they are primaries of two
    clusters of which some rule of one sets aside a fact -- or one of the same
    fingerprint -- that some rule of the other rests on. *)
Theorem conflicts_by_evidence token to_string repository_id revision_sha limits t rules n out n' r' s' :
  cluster_rules token to_string repository_id revision_sha limits t rules n = Ok (out, n') -> r' ∈ out -> s' ∈ out ->
  rule_id s' ∈ conflict_rule_ids r' <->
    primary_of r' = rule_id r' /\ primary_of s' = rule_id s' /\ rule_id r' <> rule_id s' /\
    exists a b a' b', a ∈ rules /\ b ∈ rules /\ a' ∈ out /\ b' ∈ out /\ rule_id a' = rule_id a /\ rule_id b' = rule_id b /\
      primary_of a' = rule_id r' /\ primary_of b' = rule_id s' /\
      (sets_aside (facts_by_id t) a b \/ sets_aside (facts_by_id t) b a).
Proof.
  intros Hrun [i Hi]%list_elem_of_lookup_1 [j Hj]%list_elem_of_lookup_1.
  pose proof (sorted_NoDup_ids _ _ _ _ _ _ _ _ _ _ Hrun) as Hids. pose proof (sorted_at _ _ _ _ _ _ _ _ _ _ Hrun) as Hat.
  destruct (cluster_rules_ok _ _ _ _ _ _ _ _ _ _ Hrun) as (keys & primary & Hadm & Hout). set (sorted := sort_by_key rule_id rules) in *.
  pose proof (rule_index sorted Hids) as Hindex.
  destruct (out_at _ _ _ _ _ _ Hout i r' Hi) as (r & pr & Hr & Hpr & _ & Hir & Hpr').
  destruct (out_at _ _ _ _ _ _ Hout j s' Hj) as (s & ps & Hs & Hps & _ & Hjs & Hps').
  destruct (cf_rule _ _ _ _ _ _ Hout i r Hr) as (pr0 & r0 & Hpr0 & Hr0 & _ & Hc). simplify_eq. rewrite Hc.
  rewrite Hpr', Hps', Hir, Hjs. split.
  - intros (q & x & Hx & Heq & Hne & a & b & ra & rb & Ha & Hb & <- & Hpb & Hab).
    assert (j = q) as -> by by apply (Hindex j q s x). subst q.
    destruct (cf_leader _ _ _ _ _ _ Hout a (lookup_lt_Some _ _ _ Ha)) as [_ Hla].
    destruct (cf_leader _ _ _ _ _ _ Hout b (lookup_lt_Some _ _ _ Hb)) as [_ Hlb].
    rewrite Hla in Hpr. rewrite Hlb in Hps. simplify_eq. split_and!; [done..| |].
    + intros Hrs. apply Hne. by apply (Hindex _ _ pr s).
    + destruct (cf_rule _ _ _ _ _ _ Hout a ra Ha) as (pa & a' & Hpa & Ha' & _).
      destruct (cf_rule _ _ _ _ _ _ Hout b rb Hb) as (pb & b' & Hpb & Hb' & _).
      destruct (out_at _ _ _ _ _ _ Hout a a' Ha') as (ra' & pa' & Hra' & Hpa' & _ & Hida & Hqa).
      destruct (out_at _ _ _ _ _ _ Hout b b' Hb') as (rb' & pb' & Hrb' & Hpb' & _ & Hidb & Hqb). simplify_eq.
      exists ra, rb, a', b'. split_and!; try done.
      1,2: apply (elem_of_sort_by_key rule_id); by eapply list_elem_of_lookup_2.
      1,2: by eapply list_elem_of_lookup_2.
  - intros (Hpi & Hpj & Hne & a & b & a' & b' & Ha & Hb & Ha' & Hb' & Hida & Hidb & Hpa & Hpb & Hab).
    exists j, s. split_and!; [done..|]. split; [intros ->; congruence|].
    destruct (Hat a a' Ha Ha' Hida) as (x & Hx & Hx'), (Hat b b' Hb Hb' Hidb) as (y & Hy & Hy').
    exists x, y, a, b. split_and!; [done..| | |done].
    + destruct (out_at _ _ _ _ _ _ Hout x a' Hx') as (? & pa & _ & Hpx & _ & _ & Hq). apply (Hindex _ _ pa r Hpx Hr). congruence.
    + destruct (out_at _ _ _ _ _ _ Hout y b' Hy') as (? & pb & _ & Hpy & _ & _ & Hq). apply (Hindex _ _ pb s Hpy Hs). congruence.
Qed.

(** * The whole answer *)

Section Answer.
Context (to_string : json -> option string) (t : cluster_tables) (rules : list ArchaeologyRulePacket) (keys : list string).
Context (primary : nat -> nat) (out : list ArchaeologyRulePacket) (Hout : clustered_from to_string t rules keys primary out).
Context (Hids : NoDup (map rule_id rules)).

Lemma clustered_at i r' : out !! i = Some r' -> exists r pr, rules !! i = Some r /\ rules !! primary i = Some pr /\
  clustered_rule (i =? primary i) (rule_id pr) r r' /\ rule_id r' = rule_id r /\
  forall id, id ∈ conflict_rule_ids r' <-> exists q s, rules !! q = Some s /\ id = rule_id s /\
    conflicting (facts_by_id t) rules primary i q.
Proof.
  intros Hr'. destruct (out_at _ _ _ _ _ _ Hout i r' Hr') as (r & pr & Hr & Hpr & Hc & Hid & _).
  destruct (cf_rule _ _ _ _ _ _ Hout i r Hr) as (pr' & x & _ & Hx & _ & Hconf). assert (x = r') as -> by congruence.
  exists r, pr. done.
Qed.
(** Only primaries conflict, and they do so with each other. *)
Lemma clustered_conflict i j r' s' : out !! i = Some r' -> out !! j = Some s' -> rule_id s' ∈ conflict_rule_ids r' ->
  rule_id r' ∈ conflict_rule_ids s' /\ alias_rule_ids r' = [].
Proof.
  intros (r & pr & Hr & Hpr & Hc & Hid & Hconf)%clustered_at (s & ps & Hs & Hps & Hd & Hid' & Hconf')%clustered_at.
  rewrite Hconf, Hconf', Hid, Hid'. intros (q & x & Hx & Heq & Hq).
  assert (j = q) as <- by by apply (rule_index rules Hids j q s x). split.
  - exists i, r. split_and!; [done..|]. by apply conflicting_sym.
  - destruct Hq as (_ & a & _ & ra & _ & Ha & _ & <- & _). destruct (cf_leader _ _ _ _ _ _ Hout a (lookup_lt_Some _ _ _ Ha)) as [_ Hl].
    rewrite (cr_aliases _ _ _ _ Hc), Hl, Nat.eqb_refl. done.
Qed.
Lemma clustered_related : related out.
Proof.
  split.
  - by rewrite (out_ids _ _ _ _ _ _ Hout).
  - intros r' [i (r & pr & _ & _ & Hc & _)%clustered_at]%list_elem_of_lookup_1. apply Hc.
  - intros r' [i (r & pr & Hr & Hpr & Hc & _)%clustered_at]%list_elem_of_lookup_1. rewrite (cr_aliases _ _ _ _ Hc).
    destruct (i =? primary i); [by left|right]. destruct (cf_rule _ _ _ _ _ _ Hout (primary i) pr Hpr) as (x & p' & _ & Hp' & Hc' & _).
    destruct (cf_leader _ _ _ _ _ _ Hout i (lookup_lt_Some _ _ _ Hr)) as [_ Hl].
    exists (primary i), p'. split_and!; [done| |by rewrite (rr_id _ _ (cr_recast _ _ _ _ Hc'))].
    by rewrite (cr_aliases _ _ _ _ Hc'), Hl, Nat.eqb_refl.
  - intros r' id [i (r & pr & Hr & Hpr & Hc & Hid & Hconf)%clustered_at]%list_elem_of_lookup_1. rewrite Hconf.
    intros (q & s & Hs & -> & Hq). rewrite Hid. split.
    + intros Heq. apply (proj1 Hq). symmetry. by apply (rule_index rules Hids q i s r).
    + destruct (cf_rule _ _ _ _ _ _ Hout q s Hs) as (x & s' & _ & Hs' & Hc' & _). exists q, s'. split; [done|].
      apply Hc'.
Qed.
End Answer.
(** The rules of an answer: those of the clusters, settled among each other, their
    clauses in order. *)
Record same_but_order (r r' : ArchaeologyRulePacket) : Prop := {
  so_id : rule_id r' = rule_id r; so_kind : rule_kind r' = rule_kind r; so_domains : domain_ids r' = domain_ids r;
  so_dependencies : dependency_rule_ids r' = dependency_rule_ids r; so_conflicts : conflict_rule_ids r' = conflict_rule_ids r;
  so_aliases : alias_rule_ids r' = alias_rule_ids r; so_clauses : forall c, c ∈ clauses r' <-> c ∈ clauses r
}.
Lemma sort_clauses_Ok to_string facts r r' : sort_clauses to_string facts r = Ok r' -> same_but_order r r'.
Proof. intros (cs & Hcs & [= <-])%bind_Ok. split; try done. intros c. by apply (sort_by_rank_elem _ _ _ _ Hcs). Qed.
Lemma answer_ok token to_string json_rules repository_id revision_sha limits rules facts edges origins n out k :
  cluster_evidence_compatible_rules token to_string json_rules repository_id revision_sha limits rules facts edges origins n
    = Ok (out, k) ->
  exists t keys primary base lead kept, NoDup (map rule_id (sort_by_key rule_id rules)) /\
    clustered_from to_string t (sort_by_key rule_id rules) keys primary base /\
    (forall i r, base !! i = Some r -> exists q, base !! lead i = Some q /\ lead (lead i) = lead i /\
      (alias_rule_ids r <> [] -> lead i = i) /\ (alias_rule_ids r = [] -> alias_rule_ids q = [] /\
        exists key, occurrence_key to_string (facts_by_id t) r = Ok key /\ occurrence_key to_string (facts_by_id t) q = Ok key)) /\
    (forall i r, base !! i = Some r -> lead i = i -> exists r', r' ∈ kept /\ settled base lead i r r') /\
    (forall r', r' ∈ kept -> exists i r, base !! i = Some r /\ lead i = i /\ settled base lead i r r') /\
    NoDup (map rule_id kept) /\ Forall2 same_but_order kept out.
Proof.
  intros (t & m & base & m1 & kept & Ht & Hc & Hrec & Hsort & _)%clustered_Ok.
  pose proof (sorted_NoDup_ids _ _ _ _ _ _ _ _ _ _ Hc) as Hids.
  destruct (cluster_rules_ok _ _ _ _ _ _ _ _ _ _ Hc) as (keys & primary & _ & Hout).
  destruct (reconcile_ok _ _ _ _ _ (clustered_related _ _ _ _ _ _ Hout Hids) Hrec) as (lead & H1 & H2 & H3 & H4).
  exists t, keys, primary, base, lead, kept. split_and!; try done. apply collect_Ok in Hsort.
  eapply Forall2_impl; [exact Hsort|]. intros r r'. apply sort_clauses_Ok.
Qed.
(** The relations of an answer. *)
Record answer_closed (rules out : list ArchaeologyRulePacket) : Prop := {
  ac_ids : NoDup (map rule_id out) /\ forall r, r ∈ out -> rule_id r ∈ map rule_id rules;
  ac_dependencies : forall r, r ∈ out -> dependency_rule_ids r = [];
  ac_roles : forall r, r ∈ out ->
    alias_rule_ids r = [] /\ domain_ids r = ["domain:other"%string] \/
    exists p, p ∈ out /\ alias_rule_ids r = [rule_id p] /\ alias_rule_ids p = [] /\ domain_ids r = [] /\
      conflict_rule_ids r = [];
  ac_conflicts : forall r id, r ∈ out -> id ∈ conflict_rule_ids r -> id <> rule_id r /\
    exists s, s ∈ out /\ rule_id s = id /\ alias_rule_ids s = [] /\ rule_id r ∈ conflict_rule_ids s
}.
(** C28: the relations of an answer stay within it.  The rules are rules of the input,
    none twice; every one is either canonical, with the domain of its cluster, or an
    alias of exactly one canonical rule that is still there, without domain or
    conflict of its own; and every conflict names another canonical rule of the
    answer, which names it back -- merging the occurrences of a canonical rule leaves
    no reference to what it removed. *)
Theorem clustering_closed token to_string json_rules repository_id revision_sha limits rules facts edges origins n out k :
  cluster_evidence_compatible_rules token to_string json_rules repository_id revision_sha limits rules facts edges origins n
    = Ok (out, k) -> answer_closed rules out.
Proof.
  intros (t & keys & primary & base & lead & kept & Hids & Hout & Hlead & Hkept & Hback & Hnd & Hsame)%answer_ok.
  assert (forall i r, base !! i = Some r -> lead i = i -> exists r' o, o ∈ out /\ settled base lead i r r' /\ same_but_order r' o) as Hof.
  { intros i r Hr Hl. destruct (Hkept i r Hr Hl) as (r' & [m Hm]%list_elem_of_lookup_1 & Hs).
    destruct (Forall2_lookup_l _ _ _ _ _ Hsame Hm) as (o & Ho & Hso). exists r', o. split_and!; try done. by apply list_elem_of_lookup_2 in Ho. }
  assert (forall o, o ∈ out -> exists i r r', base !! i = Some r /\ lead i = i /\ settled base lead i r r' /\ same_but_order r' o) as Hfrom.
  { intros o [m Hm]%list_elem_of_lookup_1. destruct (Forall2_lookup_r _ _ _ _ _ Hsame Hm) as (r' & Hr' & Hso).
    destruct (Hback r') as (i & r & ? & ? & ?); [by apply list_elem_of_lookup_2 in Hr'|]. by exists i, r, r'. }
  pose proof (clustered_at _ _ _ _ _ _ Hout) as Hat. pose proof (clustered_conflict _ _ _ _ _ _ Hout Hids) as Hconflict.
  split.
  - assert (map rule_id out = map rule_id kept) as ->.
    { clear - Hsame. induction Hsame as [|r o kept out [Hid _ _ _ _ _ _] _ IH]; [done|]. cbn [map]. by rewrite Hid, IH. }
    split; [done|]. intros o (i & r & r' & Hr & _ & Hs & Hso)%Hfrom. rewrite (so_id _ _ Hso), (se_id _ _ _ _ _ Hs).
    destruct (Hat i r Hr) as (x & _ & Hx & _ & _ & -> & _). apply list_elem_of_fmap. exists x. split; [done|].
    apply (elem_of_sort_by_key rule_id). by apply list_elem_of_lookup_2 in Hx.
  - intros o (i & r & r' & Hr & _ & Hs & Hso)%Hfrom. rewrite (so_dependencies _ _ Hso). apply Hs.
  - intros o (i & r & r' & Hr & Hl & Hs & Hso)%Hfrom. rewrite (so_aliases _ _ Hso), (so_domains _ _ Hso), (so_conflicts _ _ Hso), (se_domains _ _ _ _ _ Hs).
    destruct (Hat i r Hr) as (x & px & Hx & Hpx & Hc & _ & Hconf). rewrite (cr_domains _ _ _ _ Hc).
    destruct (se_aliases _ _ _ _ _ Hs) as [[Ha Ha']|(p & pr & q & Hp & Hpa & Ha & Hq & Ha')].
    + left. split; [done|]. rewrite (cr_aliases _ _ _ _ Hc) in Ha. by destruct (i =? primary i).
    + right. assert ((i =? primary i) = false) as ->.
      { rewrite (cr_aliases _ _ _ _ Hc) in Ha. by destruct (i =? primary i). }
      destruct (Hlead p pr Hp) as (q' & Hq' & Hll & _ & Hcanon). assert (q' = q) as -> by congruence.
      destruct (Hcanon Hpa) as [Hqa _]. destruct (Hof _ _ Hq Hll) as (y & o' & Ho' & Hsy & Hsoy). exists o'.
      split_and!; [done|by rewrite Ha', (so_id _ _ Hsoy), (se_id _ _ _ _ _ Hsy)| |done|].
      * rewrite (so_aliases _ _ Hsoy). destruct (se_aliases _ _ _ _ _ Hsy) as [[_ ?]|(? & ? & ? & _ & _ & ? & _)]; [done|congruence].
      * apply elem_of_nil_inv. intros id (Hne & j & s & q1 & x1 & y1 & Hj & Hlj & Hx1 & Hcj & _)%(se_conflicts _ _ _ _ _ Hs).
        destruct (Hconflict j q1 s x1 Hj Hx1 Hcj) as [_ Hsa]. destruct (Hlead j s Hj) as (z & Hz & _ & _ & Hzc).
        destruct (Hzc Hsa) as [Hza _]. rewrite Hlj in Hz. congruence.
  - intros o id (i & r & r' & Hr & Hl & Hs & Hso)%Hfrom. rewrite (so_conflicts _ _ Hso), (so_id _ _ Hso), (se_id _ _ _ _ _ Hs).
    intros (Hne & j & s & q & x & y & Hj & Hlj & Hx & Hc & Hy & ->)%(se_conflicts _ _ _ _ _ Hs). split; [done|].
    destruct (Hconflict j q s x Hj Hx Hc) as [Hback' _]. destruct (Hconflict q j x s Hx Hj Hback') as [_ Hxa].
    destruct (Hlead q x Hx) as (y' & Hy' & Hll & _ & Hcanon). assert (y' = y) as -> by congruence. destruct (Hcanon Hxa) as [Hya _].
    destruct (Hof _ _ Hy Hll) as (z & o' & Ho' & Hsz & Hsoz). exists o'. split_and!; [done|by rewrite (so_id _ _ Hsoz), (se_id _ _ _ _ _ Hsz)| |].
    + rewrite (so_aliases _ _ Hsoz). destruct (se_aliases _ _ _ _ _ Hsz) as [[_ ?]|(? & ? & ? & _ & _ & ? & _)]; [done|congruence].
    + rewrite (so_conflicts _ _ Hsoz). apply (se_conflicts _ _ _ _ _ Hsz). split; [done|]. exists q, x, j, s, r.
      split_and!; try done. by rewrite Hlj.
Qed.
Lemma occurrence_kind_inj a b : rule_kind_name a = rule_kind_name b -> a = b.
Proof. by destruct a, b. Qed.
(** C29: no clause and no evidence is lost.  Every clause of every rule of the input
    is in a clause of the answer of the same text, with all its facts -- for and
    against -- and all its spans: in the rule of the same identity, or, where that
    was an occurrence of a canonical rule and is gone, in a canonical rule, which is
    of the same kind. *)
Theorem clustering_keeps_evidence token to_string json_rules repository_id revision_sha limits rules facts edges origins n out k :
  cluster_evidence_compatible_rules token to_string json_rules repository_id revision_sha limits rules facts edges origins n
    = Ok (out, k) ->
  forall r c, r ∈ rules -> c ∈ clauses r -> exists r' c', r' ∈ out /\ c' ∈ clauses r' /\ kept_in c c' /\
    (rule_id r' = rule_id r \/ rule_id r ∉ map rule_id out /\ alias_rule_ids r' = []) /\
    (injective to_string -> rule_kind r' = rule_kind r).
Proof.
  intros (t & keys & primary & base & lead & kept & Hids & Hout & Hlead & Hkept & Hback & Hnd & Hsame)%answer_ok r c Hr Hc.
  apply (elem_of_sort_by_key rule_id), list_elem_of_lookup_1 in Hr as [i Hi].
  destruct (cf_rule _ _ _ _ _ _ Hout i r Hi) as (pr & b & _ & Hb & Hcr & _). pose proof (cr_recast _ _ _ _ Hcr) as [Hbid Hbkind Hbc].
  apply list_elem_of_lookup_1 in Hc as [m Hc]. destruct (Forall2_lookup_l _ _ _ _ _ Hbc Hc) as (cb & Hcb%list_elem_of_lookup_2 & Hrc%recast_kept).
  destruct (Hlead i b Hb) as (q & Hq & Hll & Halias & Hcanon). destruct (Hkept _ q Hq Hll) as (r' & Hr' & Hs).
  destruct (se_clauses _ _ _ _ _ Hs i b cb Hb eq_refl Hcb) as (c' & Hc' & Hk).
  apply list_elem_of_lookup_1 in Hr' as [j Hr']. destruct (Forall2_lookup_l _ _ _ _ _ Hsame Hr') as (o & Ho & Hso).
  exists o, c'. split_and!; [by apply list_elem_of_lookup_2 in Ho|by apply Hso|by eapply kept_in_trans| |].
  - rewrite (so_id _ _ Hso), (se_id _ _ _ _ _ Hs). destruct (decide (lead i = i)) as [Heq|Hne]; [left; congruence|right].
    assert (alias_rule_ids b = []) as Hba by (destruct (alias_rule_ids b); [done|by destruct Hne; apply Halias]).
    destruct (Hcanon Hba) as [Hqa _]. split.
    + intros (o' & Hid & [m' Ho']%list_elem_of_lookup_1)%list_elem_of_fmap.
      destruct (Forall2_lookup_r _ _ _ _ _ Hsame Ho') as (x & Hx%list_elem_of_lookup_2 & Hso').
      destruct (Hback x Hx) as (i' & y & Hy & Hl' & Hs'). rewrite (so_id _ _ Hso'), (se_id _ _ _ _ _ Hs') in Hid.
      apply Hne. assert (i' = i) as <-; [|done].
      apply (rule_index base (rl_ids _ (clustered_related _ _ _ _ _ _ Hout Hids)) i' i y b Hy Hb). congruence.
    + rewrite (so_aliases _ _ Hso). destruct (se_aliases _ _ _ _ _ Hs) as [[_ ?]|(? & ? & ? & _ & _ & ? & _)]; [done|congruence].
  - intros Hinj. rewrite (so_kind _ _ Hso), (se_kind _ _ _ _ _ Hs), <- Hbkind.
    destruct (decide (alias_rule_ids b = [])) as [Hba|Hba]; [|by rewrite (Halias Hba) in Hq; congruence].
    destruct (Hcanon Hba) as [_ (key & (x & _ & Hx%ok_or_Ok)%bind_Ok & (y & _ & Hy%ok_or_Ok)%bind_Ok)].
    pose proof (Hinj _ _ _ Hx Hy) as [= Hkind%occurrence_kind_inj _]. done.
Qed.

(** * The example *)

Lemma append_one c s : (String c "" ++ s)%string = String c s.
Proof. reflexivity. Qed.
Lemma ex_escape_inj s s' rest rest' : ex_escape s rest = ex_escape s' rest' -> s = s' /\ rest = rest'.
Proof.
  revert s'. induction s as [|c s IH]; intros [|c' s']; cbn [ex_escape]; rewrite !append_one; [by intros [= ->]|done|done|].
  intros [= -> [-> ->]%IH]. done.
Qed.
Lemma ex_json_inj (j j' : json) rest rest' : ex_json j rest = ex_json j' rest' -> j = j' /\ rest = rest'.
Proof.
  revert j j' rest rest'. fix ex_json_inj 1. intros j j' rest rest'. destruct j as [s|l], j' as [s'|l']; cbn [ex_json]; rewrite !append_one; [|done..|].
  - by intros [= [-> ->]%ex_escape_inj].
  - intros [= H]. enough (l = l' /\ rest = rest') as [-> ->] by done. revert l' H.
    induction l as [|x l IH]; intros [|x' l']; cbn [foldr]; rewrite ?append_one; [by intros [= ->]|done|done|].
    intros [= [-> [-> ->]%IH]%ex_json_inj]. done.
Qed.
Lemma ex_to_string_inj : injective ex_to_string.
Proof. intros j j' s [= <-] [= [H _]%ex_json_inj]. done. Qed.
Lemma ex_clustered : exists edges_by_id t out n n',
  cluster_rules never_cancelled ex_to_string ex_repository ex_sha default_deterministic_limits t ex_cluster_rules n
    = Ok (out, n') /\ cluster_tables_ok ex_cluster_facts [] ex_origins t /\ edges_ok [] (facts_by_id t) edges_by_id.
Proof.
  destruct ex_cluster_run as (out & k & _ & _ & (t & n & base & n' & _ & Ht & Hc & _)%clustered_Ok & _).
  destruct (ct_edges _ _ _ _ Ht) as (edges_by_id & He & _). exists edges_by_id, t, base, n, n'. split; [exact Hc|]. split; [exact Ht|exact He].
Qed.
Lemma clusters_by_meaning_witness : exists edges_by_id t out n n',
  cluster_rules never_cancelled ex_to_string ex_repository ex_sha default_deterministic_limits t ex_cluster_rules n
    = Ok (out, n') /\
  forall r s r' s', r ∈ ex_cluster_rules -> s ∈ ex_cluster_rules -> r' ∈ out -> s' ∈ out -> rule_id r' = rule_id r ->
    rule_id s' = rule_id s -> primary_of r' = primary_of s' <-> same_meaning (facts_by_id t) edges_by_id r s.
Proof.
  destruct ex_clustered as (edges_by_id & t & out & n & n' & Hc & Ht & He). exists edges_by_id, t, out, n, n'. split; [exact Hc|].
  exact (proj1 (proj2 (clusters_by_meaning _ _ _ _ _ _ _ _ _ _ _ _ _ _ Hc ex_to_string_inj Ht He))).
Defined.
Lemma conflicts_by_evidence_witness : exists t out n n',
  cluster_rules never_cancelled ex_to_string ex_repository ex_sha default_deterministic_limits t ex_cluster_rules n
    = Ok (out, n') /\
  forall r', r' ∈ out -> rule_id r' ∉ conflict_rule_ids r'.
Proof.
  destruct ex_clustered as (_ & t & out & n & n' & Hc & _ & _). exists t, out, n, n'. split; [exact Hc|].
  intros r' Hr' Hin. destruct (proj1 (conflicts_by_evidence _ _ _ _ _ _ _ _ _ _ _ _ Hc Hr' Hr') Hin) as (_ & _ & Hne & _).
  exact (Hne eq_refl).
Defined.
Lemma clustering_closed_witness : exists out k,
  cluster_evidence_compatible_rules never_cancelled ex_to_string (fun _ => Some 100%N) ex_repository ex_sha
    default_deterministic_limits ex_cluster_rules ex_cluster_facts [] ex_origins 0 = Ok (out, k) /\
  map rule_id out = ["r1"; "r2"; "r3"]%string /\ answer_closed ex_cluster_rules out.
Proof.
  destruct ex_cluster_run as (out & k & _ & _ & H & _ & Hids). exists out, k. split; [exact H|]. split; [exact Hids|].
  exact (clustering_closed _ _ _ _ _ _ _ _ _ _ _ _ _ H).
Defined.
(** The rule ["r4"] is gone, its clause is not. *)
Lemma clustering_keeps_evidence_witness : exists out k,
  cluster_evidence_compatible_rules never_cancelled ex_to_string (fun _ => Some 100%N) ex_repository ex_sha
    default_deterministic_limits ex_cluster_rules ex_cluster_facts [] ex_origins 0 = Ok (out, k) /\
  map rule_id out = ["r1"; "r2"; "r3"]%string /\
  exists r' c', r' ∈ out /\ c' ∈ clauses r' /\ kept_in (ex_clause "c4" "Minors are refused" ["renamed"] []) c'.
Proof.
  destruct ex_cluster_run as (out & k & _ & _ & H & _ & Hids). exists out, k. split; [exact H|]. split; [exact Hids|].
  destruct (clustering_keeps_evidence _ _ _ _ _ _ _ _ _ _ _ _ _ H (ex_rule "r4" [ex_clause "c4" "Minors are refused" ["renamed"%string] []])
    (ex_clause "c4" "Minors are refused" ["renamed"%string] []) ltac:(left) ltac:(left)) as (r' & c' & Hr' & Hc' & Hk & _).
  exists r', c'. split; [exact Hr'|]. split; [exact Hc'|exact Hk].
Defined.
