(* ===== verification/TrustedGraph.v ===== *)
(** [src/crates/codevetter-core/src/commands/business_rule_archaeology/graph.rs]:
    the projection of archaeology evidence into the trusted graph.  The input is
    bounded and validated, then one loop per kind of evidence emits nodes and
    edges, and a last pass limits the trust of each edge to that of its
    endpoints.  One definition below per loop of the source, threading the
    vectors the loop pushes to; indexing a table ([spans[id]]) is
    [index_or_panic].

    [serde_json] is a parameter: [json_chunks] are the lengths of the buffers it
    writes for an input, [json_length] the length of a fragment it serializes. *)
From S2P Require Import Prelude Ordering RustText SecretPolicy GraphTypes Contracts Inventory.
Local Open Scope N_scope.

Definition ARCHAEOLOGY_GRAPH_CONTRACT_ID : string :=
  "codevetter.business-rule-archaeology.trusted-graph.v1".

Record ArchaeologyGraphLimits : Type := {
  max_source_units : N;
  max_spans : N;
  max_facts : N;
  max_fact_edges : N;
  max_rules : N;
  max_rule_relations : N;
  max_clauses : N;
  max_domains : N;
  max_nodes : N;
  max_edges : N;
  max_evidence_ids_per_item : N;
  max_source_anchors_per_item : N;
  max_metadata_items_per_item : N;
  max_input_bytes : N;
  max_output_bytes : N
}.
Definition default_graph_limits : ArchaeologyGraphLimits := {|
  max_source_units := 128; max_spans := 256; max_facts := 256; max_fact_edges := 512;
  max_rules := 64; max_rule_relations := 512; max_clauses := 256; max_domains := 64;
  max_nodes := 500; max_edges := 2000; max_evidence_ids_per_item := 64;
  max_source_anchors_per_item := 64; max_metadata_items_per_item := 128;
  max_input_bytes := 8 * 1024 * 1024; max_output_bytes := 1024 * 1024 |}.

(** ** Data *)

Inductive ArchaeologyGraphClaimRole : Type := NavigationOnly.

Record ArchaeologyGraphEvidence : Type := {
  ev_revision_sha : string;
  ev_origin : ArchaeologyTrust;
  evidence_ids : list string;
  contradicting_evidence_ids : list string;
  ev_coverage : ArchaeologyCoverage;
  ev_lifecycle : option ArchaeologyRuleLifecycle;
  ev_confidence : option ArchaeologyConfidence;
  ev_parser_identity : option string;
  ev_algorithm_identity : option string;
  ev_synthesis_identity : option string;
  ev_limitations : list string;
  claim_role : ArchaeologyGraphClaimRole
}.
Record ArchaeologyTrustedGraphNode : Type := {
  node_graph : StructuralGraphNode; node_archaeology : ArchaeologyGraphEvidence
}.
Record ArchaeologyTrustedGraphEdge : Type := {
  edge_graph : StructuralGraphEdge; edge_archaeology : ArchaeologyGraphEvidence
}.
Record ArchaeologyGraphDomain : Type := {
  domain_id : string; domain_label : string; parent_domain_id : option string
}.

Inductive ArchaeologyGraphRuleRelationKind : Type :=
  | DependsOn | Precedes | Overrides | Aliases | ConflictsWith | Supersedes.
#[export] Instance relation_kind_eq_dec : EqDecision ArchaeologyGraphRuleRelationKind.
Proof. solve_decision. Defined.
Definition relation_kind_index (k : ArchaeologyGraphRuleRelationKind) : N :=
  match k with
  | DependsOn => 0 | Precedes => 1 | Overrides => 2 | Aliases => 3 | ConflictsWith => 4
  | Supersedes => 5
  end.
#[export] Instance ord_relation_kind : RustOrd ArchaeologyGraphRuleRelationKind.
Proof. apply (ord_by relation_kind_index). by intros [] []. Defined.

Record ArchaeologyGraphRuleRelation : Type := {
  relation_id : string;
  from_rule_id : string;
  to_rule_id : string;
  relation_kind : ArchaeologyGraphRuleRelationKind;
  relation_trust : ArchaeologyTrust;
  relation_evidence_ids : list string;
  relation_limitations : list string
}.

Record ArchaeologyTrustedGraphFragment : Type := {
  schema_version : N;
  contract_id : string;
  fragment_repository_id : string;
  fragment_generation_id : string;
  fragment_revision_sha : string;
  fragment_nodes : list ArchaeologyTrustedGraphNode;
  fragment_edges : list ArchaeologyTrustedGraphEdge;
  fragment_coverage : ArchaeologyCoverage;
  truncated : bool
}.

Record ArchaeologyGraphInput : Type := {
  in_repository_id : string;
  in_generation_id : string;
  in_revision_sha : string;
  in_coverage : ArchaeologyCoverage;
  in_source_units : list ArchaeologyInventoryUnit;
  in_spans : list ArchaeologySourceSpan;
  in_facts : list ArchaeologyFact;
  in_fact_origins : list ArchaeologyFactOrigin;
  in_fact_edges : list ArchaeologyFactEdge;
  in_rules : list ArchaeologyRulePacket;
  in_domains : list ArchaeologyGraphDomain;
  in_rule_relations : list ArchaeologyGraphRuleRelation
}.

(** ** Names *)

Definition fact_node_kind (kind : ArchaeologyFactKind) : string :=
  match kind with
  | FactDeclaration | FactEntryPoint => "archaeology_program"
  | FactDataField | FactConstant => "archaeology_data"
  | FactCall => "archaeology_call"
  | FactTransaction => "archaeology_transaction"
  | FactPredicate => "archaeology_predicate"
  | FactDecision => "archaeology_decision"
  | FactCalculation => "archaeology_calculation"
  | FactMutation => "archaeology_mutation"
  | FactInputOutput => "archaeology_input_output"
  | FactControlFlow => "archaeology_control_flow"
  | FactInclude => "archaeology_include"
  | FactUnresolved => "archaeology_unresolved"
  end.
Definition fact_kind_name (kind : ArchaeologyFactKind) : string :=
  match kind with
  | FactDeclaration => "declaration"
  | FactDataField => "data_field"
  | FactConstant => "constant"
  | FactPredicate => "predicate"
  | FactDecision => "decision"
  | FactCalculation => "calculation"
  | FactMutation => "mutation"
  | FactCall => "call"
  | FactInputOutput => "input_output"
  | FactTransaction => "transaction"
  | FactControlFlow => "control_flow"
  | FactEntryPoint => "entry_point"
  | FactInclude => "include"
  | FactUnresolved => "unresolved"
  end.
Definition fact_edge_kind_name (kind : ArchaeologyFactEdgeKind) : string :=
  match kind with
  | EdgeDefines => "defines"
  | EdgeReads => "reads"
  | EdgeWrites => "writes"
  | EdgeCalls => "calls"
  | EdgeIncludes => "includes"
  | EdgeControls => "controls"
  | EdgeBranchesTo => "branches_to"
  | EdgeCalculates => "calculates"
  | EdgeBeginsTransaction => "begins_transaction"
  | EdgeCommitsTransaction => "commits_transaction"
  | EdgeRollsBackTransaction => "rolls_back_transaction"
  | EdgeSupports => "supports"
  | EdgeContradicts => "contradicts"
  | EdgeAliases => "aliases"
  | EdgeUnresolved => "unresolved"
  end.
Definition rule_relation_kind_name (kind : ArchaeologyGraphRuleRelationKind) : string :=
  match kind with
  | DependsOn => "depends_on"
  | Precedes => "precedes"
  | Overrides => "overrides"
  | Aliases => "aliases"
  | ConflictsWith => "conflicts_with"
  | Supersedes => "supersedes"
  end.
Definition classification_name (value : ArchaeologySourceClassification) : string :=
  match value with
  | ClassSource => "source"
  | ClassGenerated => "generated"
  | ClassVendor => "vendor"
  | ClassProtected => "protected"
  | ClassOpaque => "opaque"
  | ClassUnavailable => "unavailable"
  end.
Definition rule_kind_name (value : ArchaeologyRuleKind) : string :=
  match value with
  | RuleValidation => "validation"
  | RuleCalculation => "calculation"
  | RuleEligibility => "eligibility"
  | RuleEntitlement => "entitlement"
  | RuleRouting => "routing"
  | RuleMutation => "mutation"
  | RuleException => "exception"
  | RuleLifecycle => "lifecycle"
  | RuleTransaction => "transaction"
  | RuleOther => "other"
  end.
Definition lifecycle_name (value : ArchaeologyRuleLifecycle) : string :=
  match value with
  | LifecycleCandidate => "candidate"
  | LifecycleReviewNeeded => "review_needed"
  | LifecycleAccepted => "accepted"
  | LifecycleRejected => "rejected"
  | LifecycleSuperseded => "superseded"
  | LifecycleConflicted => "conflicted"
  | LifecycleUnavailable => "unavailable"
  end.
Definition confidence_name (value : ArchaeologyConfidence) : string :=
  match value with
  | ConfidenceHigh => "high"
  | ConfidenceMedium => "medium"
  | ConfidenceLow => "low"
  | ConfidenceUnavailable => "unavailable"
  end.

(** ** Trust *)

Definition trust_rank (trust : GraphTrust) : N :=
  match trust with Extracted => 0 | Inferred => 1 | Ambiguous => 2 | Legacy => 3 end.
(** [max_by_key]: the last of the greatest. *)
Definition weakest_graph_trust (values : list GraphTrust) : GraphTrust :=
  match values with
  | [] => Ambiguous
  | v :: values =>
      foldl (fun best trust => if trust_rank best <=? trust_rank trust then trust else best) v values
  end.
Definition graph_trust (trust : ArchaeologyTrust) (force_ambiguous : bool) : GraphTrust :=
  if force_ambiguous then Ambiguous else
  match trust with
  | TrustExtracted => Extracted
  | TrustDeterministic | TrustHumanConfirmed => Inferred
  | TrustModelSynthesized | TrustUnknown => Ambiguous
  end.
Definition graph_origin (trust : ArchaeologyTrust) : GraphOrigin :=
  match trust with
  | TrustExtracted => OExtracted
  | TrustDeterministic => ODeterministic
  | TrustModelSynthesized => OModelSynthesized
  | TrustHumanConfirmed => OHumanConfirmed
  | TrustUnknown => OLegacyMetadata
  end.
Definition trust_confidence (trust : ArchaeologyTrust) : ArchaeologyConfidence :=
  match trust with
  | TrustExtracted => ConfidenceHigh
  | TrustDeterministic | TrustHumanConfirmed => ConfidenceMedium
  | TrustModelSynthesized | TrustUnknown => ConfidenceLow
  end.
(** [matches!(trust, ModelSynthesized | Unknown)] *)
Definition is_uncertain (trust : ArchaeologyTrust) : bool :=
  match trust with TrustModelSynthesized | TrustUnknown => true | _ => false end.

(** ** Safe text *)

Definition safe_id (value : string) : bool :=
  negb (is_empty value)
  && (blen value <=? 256)
  && negb (any (N.eqb 0) (chars value))
  && negb (any is_whitespace (chars value))
  && negb (is_absolute_path value)
  && negb (contains_sensitive_path value)
  && negb (looks_like_secret value).
Definition safe_public_text (value : string) : bool :=
  negb (trim_is_empty value)
  && (blen value <=? 2048)
  && negb (any (N.eqb 0) (chars value))
  && negb (contains_sensitive_path value)
  && negb (looks_like_secret value).

(** ** Tables *)

Definition unique_by {T} (values : list T) (id : T -> string) (label : string)
    : outcome (BTreeMap string T) :=
  for_each (fun output value =>
      if negb (safe_id (id value)) || is_some (map_get (id value) output)
      then Err ("Archaeology trusted graph " ++ label ++ " identity is invalid or duplicate")
      else Ok (map_insert (id value) value output)) [] values.

Record graph_tables : Type := {
  units : BTreeMap string ArchaeologyInventoryUnit;
  spans : BTreeMap string ArchaeologySourceSpan;
  facts : BTreeMap string ArchaeologyFact;
  origins : BTreeMap string ArchaeologyFactOrigin;
  fact_edges : BTreeMap string ArchaeologyFactEdge;
  rules : BTreeMap string ArchaeologyRulePacket;
  domains : BTreeMap string ArchaeologyGraphDomain;
  rule_relations : BTreeMap string ArchaeologyGraphRuleRelation
}.
Definition unit_id (u : ArchaeologyInventoryUnit) : string := unit_source_unit_id (inv_identity u).

Definition build_tables (input : ArchaeologyGraphInput) : outcome graph_tables :=
  units ← unique_by (in_source_units input) unit_id "source unit";
  spans ← unique_by (in_spans input) span_id "source span";
  facts ← unique_by (in_facts input) fact_id "fact";
  origins ← unique_by (in_fact_origins input) origin_fact_id "fact origin";
  fact_edges ← unique_by (in_fact_edges input) fact_edge_id "fact edge";
  rules ← unique_by (in_rules input) rule_id "rule";
  domains ← unique_by (in_domains input) domain_id "domain";
  rule_relations ← unique_by (in_rule_relations input) relation_id "rule relation";
  Ok {| units := units; spans := spans; facts := facts; origins := origins;
        fact_edges := fact_edges; rules := rules; domains := domains;
        rule_relations := rule_relations |}.

(** ** Bounds on the input *)

Record BoundedWriter : Type := { writer_bytes : N; writer_max_bytes : N }.
Definition BoundedWriter_write (self : BoundedWriter) (buffer_len : N) : outcome BoundedWriter :=
  next ← ok_or (checked_add (writer_bytes self) buffer_len) "archaeology graph input overflow";
  if writer_max_bytes self <? next then Err "archaeology graph input byte bound exceeded" else
  Ok {| writer_bytes := next; writer_max_bytes := writer_max_bytes self |}.
(** [serde_json::to_writer] hands the writer one buffer after another and stops
    at the first error, which [map_err] renames. *)
Definition bounded_input_bytes (chunks : list N) (max_bytes : N) : outcome unit :=
  match for_each BoundedWriter_write {| writer_bytes := 0; writer_max_bytes := max_bytes |} chunks with
  | Ok _ => Ok tt
  | Err _ => Err "Archaeology trusted graph input byte bound exceeded"
  | Crash w => Crash w
  end.

Definition clause_count (rules : list ArchaeologyRulePacket) : N :=
  foldl (fun n rule => n + len (clauses rule)) 0 rules.

Definition validate_scope (json_chunks : ArchaeologyGraphInput -> list N)
    (input : ArchaeologyGraphInput) (limits : ArchaeologyGraphLimits) : outcome unit :=
  if negb (safe_id (in_repository_id input)) || negb (safe_id (in_generation_id input))
     || match validate_revision_sha (in_revision_sha input) with Err _ => true | _ => false end
  then Err "Archaeology trusted graph scope is invalid" else
  if (max_source_units limits <? len (in_source_units input))
     || (max_spans limits <? len (in_spans input))
     || (max_facts limits <? len (in_facts input))
     || (max_facts limits <? len (in_fact_origins input))
     || (max_fact_edges limits <? len (in_fact_edges input))
     || (max_rules limits <? len (in_rules input))
     || (max_rule_relations limits <? len (in_rule_relations input))
     || (max_clauses limits <? clause_count (in_rules input))
     || (max_domains limits <? len (in_domains input))
  then Err "Archaeology trusted graph input bound exceeded" else
  bounded_input_bytes (json_chunks input) (max_input_bytes limits).

Definition validate_coverage (coverage : ArchaeologyCoverage) (limits : ArchaeologyGraphLimits)
    : outcome unit :=
  if (max_metadata_items_per_item limits <? len (reasons coverage))
     || any (fun reason => negb (safe_public_text reason)) (reasons coverage)
  then Err "Archaeology trusted graph coverage metadata is invalid" else Ok tt.

(** ** References between the tables *)

Definition relation_key : Type := (string * (string * ArchaeologyGraphRuleRelationKind))%type.

Section References.
Context (limits : ArchaeologyGraphLimits) (input : ArchaeologyGraphInput) (t : graph_tables).

Definition validate_unit (u : ArchaeologyInventoryUnit) : outcome unit :=
  if negb (seqb (unit_repository_id (inv_identity u)) (in_repository_id input))
     || negb (seqb (unit_revision_sha (inv_identity u)) (in_revision_sha input))
     || negb (safe_id (unit_id u))
     || negb (safe_public_text (inv_language u))
     || is_some_and (inv_dialect u) (fun value => negb (safe_public_text value))
     || any (fun value => negb (safe_public_text value)) (inv_coverage_reasons u)
     || (max_metadata_items_per_item limits <? len (inv_coverage_reasons u))
  then Err "Archaeology trusted graph source unit is invalid" else Ok tt.

Definition validate_span (span : ArchaeologySourceSpan) : outcome unit :=
  _ ← ArchaeologySourceSpan_validate span;
  if negb (seqb (span_revision_sha span) (in_revision_sha input))
     || negb (map_contains_key (span_source_unit_id span) (units t))
     || any (fun value => negb (is_some (u32_try_from value)))
          [line (span_start span); column (span_start span);
           line (span_end span); column (span_end span)]
  then Err "Archaeology trusted graph span is outside its scope" else Ok tt.

Definition validate_fact (fact : ArchaeologyFact) : outcome unit :=
  match map_get (fact_id fact) (origins t) with
  | None => Err "Archaeology trusted graph fact has no origin"
  | Some origin =>
      if negb (map_contains_key (origin_source_unit_id origin) (units t))
         || negb (seqb (origin_fact_id origin) (fact_id fact))
         || negb (safe_public_text (fact_label fact))
         || negb (safe_id (fact_parser_id fact))
         || is_nil (fact_span_ids fact)
         || (max_evidence_ids_per_item limits <? len (fact_span_ids fact))
         || any (fun id => match map_get id (spans t) with
                           | None => true
                           | Some span => negb (seqb (span_source_unit_id span)
                                                     (origin_source_unit_id origin))
                           end) (fact_span_ids fact)
      then Err "Archaeology trusted graph fact evidence is invalid" else Ok tt
  end.

(** [fact.into_iter().flat_map(|fact| fact.span_ids)] *)
Definition spans_of (id : string) : BTreeSet string :=
  match map_get id (facts t) with Some fact => set_of_list (fact_span_ids fact) | None => [] end.

Definition validate_fact_edge (edge : ArchaeologyFactEdge) : outcome unit :=
  let from_spans := spans_of (from_fact_id edge) in
  let to_spans := spans_of (to_fact_id edge) in
  let ids := fact_edge_evidence_span_ids edge in
  if negb (map_contains_key (from_fact_id edge) (facts t))
     || negb (map_contains_key (to_fact_id edge) (facts t))
     || is_nil ids
     || (max_evidence_ids_per_item limits <? len ids)
     || any (fun id => negb (map_contains_key id (spans t))
                       || negb (set_contains id from_spans) && negb (set_contains id to_spans)) ids
     || negb (any (fun id => set_contains id from_spans) ids)
     || negb (any (fun id => set_contains id to_spans) ids)
  then Err "Archaeology trusted graph fact edge is invalid" else Ok tt.

Definition validate_domain (domain : ArchaeologyGraphDomain) : outcome unit :=
  if negb (safe_id (domain_id domain))
     || negb (safe_public_text (domain_label domain))
     || is_some_and (parent_domain_id domain) (fun parent => negb (map_contains_key parent (domains t)))
  then Err "Archaeology trusted graph domain is invalid" else Ok tt.

(** [!evidence_span_ids.any(|span| facts[fact_id].span_ids.contains(span))] *)
Definition fact_uncited (clause : ArchaeologyRuleClause) (fact_id : string) : outcome bool :=
  cited ← any_outcome (fun span_id =>
      fact ← index_or_panic (map_get fact_id (facts t));
      Ok (elemb span_id (fact_span_ids fact))) (evidence_span_ids clause);
  Ok (negb cited).

(** [||] evaluates the last disjunct, which indexes [facts], only where the
    others, one of which looks the fact up, are false. *)
Definition validate_clause (clause_ids : BTreeSet string) (clause : ArchaeologyRuleClause)
    : outcome (BTreeSet string) :=
  let cited_facts := supporting_fact_ids clause ++ contradicting_fact_ids clause in
  bad ← (if set_contains (clause_id clause) clause_ids
            || negb (safe_public_text (clause_text clause))
            || any (fun value => negb (safe_public_text value)) (caveats clause)
            || (max_metadata_items_per_item limits <? len (caveats clause))
            || any (fun id => negb (map_contains_key id (facts t))) cited_facts
            || any (fun id => negb (map_contains_key id (spans t))) (evidence_span_ids clause)
            || (max_evidence_ids_per_item limits
                  <? saturating_add
                       (saturating_add (len (supporting_fact_ids clause))
                                       (len (contradicting_fact_ids clause)))
                       (len (evidence_span_ids clause)))
         then Ok true else any_outcome (fact_uncited clause) cited_facts);
  if (bad : bool) then Err "Archaeology trusted graph clause evidence is invalid" else
  Ok (set_insert (clause_id clause) clause_ids).

Definition rule_relations_of (rule : ArchaeologyRulePacket) : list relation_key :=
  map (fun target => (rule_id rule, (target, DependsOn))) (dependency_rule_ids rule)
  ++ map (fun target => (rule_id rule, (target, ConflictsWith))) (conflict_rule_ids rule)
  ++ map (fun target => (rule_id rule, (target, Aliases))) (alias_rule_ids rule).

Definition validate_rule (st : BTreeSet string * BTreeSet relation_key) (rule : ArchaeologyRulePacket)
    : outcome (BTreeSet string * BTreeSet relation_key) :=
  let '(clause_ids, expected) := st in
  _ ← ArchaeologyRulePacket_validate rule;
  _ ← validate_coverage (rule_coverage rule) limits;
  if negb (seqb (rule_repository_id rule) (in_repository_id input))
     || negb (seqb (rule_generation_id rule) (in_generation_id input))
     || negb (seqb (rule_revision_sha rule) (in_revision_sha input))
     || negb (safe_public_text (rule_title rule))
     || negb (safe_id (rule_parser_identity rule))
     || negb (safe_id (rule_algorithm_identity rule))
     || is_some_and (rule_synthesis_identity rule) (fun identity => negb (safe_id identity))
     || any (fun id => negb (map_contains_key id (domains t))) (domain_ids rule)
     || any (fun id => negb (map_contains_key id (rules t)))
          (dependency_rule_ids rule ++ conflict_rule_ids rule ++ alias_rule_ids rule)
  then Err "Archaeology trusted graph rule scope is invalid" else
  let expected := foldl (fun s key => set_insert key s) expected (rule_relations_of rule) in
  clause_ids ← for_each validate_clause clause_ids (clauses rule);
  Ok (clause_ids, expected).

Definition validate_relation (actual : BTreeSet relation_key)
    (relation : ArchaeologyGraphRuleRelation) : outcome (BTreeSet relation_key) :=
  let ids := relation_evidence_ids relation in
  let key := (from_rule_id relation, (to_rule_id relation, relation_kind relation)) in
  if negb (map_contains_key (from_rule_id relation) (rules t))
     || negb (map_contains_key (to_rule_id relation) (rules t))
     || is_nil ids
     || (max_evidence_ids_per_item limits <? len ids)
     || (max_metadata_items_per_item limits <? len (relation_limitations relation))
     || any (fun id => negb (safe_id id)
               || negb (map_contains_key id (facts t)) && negb (map_contains_key id (spans t))
                  && negb (map_contains_key id (rules t))) ids
     || any (fun value => negb (safe_public_text value)) (relation_limitations relation)
     || bool_decide (relation_kind relation = DependsOn)
        && negb (is_uncertain (relation_trust relation))
        && negb (any (fun id => map_contains_key id (facts t) || map_contains_key id (spans t)) ids)
     || set_contains key actual
  then Err "Archaeology trusted graph rule relation is invalid" else
  Ok (set_insert key actual).

Definition is_materialized (key : relation_key) : bool :=
  match snd (snd key) with DependsOn | ConflictsWith | Aliases => true | _ => false end.

Definition validate_references : outcome unit :=
  _ ← validate_coverage (in_coverage input) limits;
  _ ← for_all validate_unit (map_values (units t));
  _ ← for_all validate_span (map_values (spans t));
  if negb (len (origins t) =? len (facts t))
  then Err "Archaeology trusted graph requires one fact origin per fact" else
  _ ← for_all validate_fact (map_values (facts t));
  _ ← for_all validate_fact_edge (map_values (fact_edges t));
  _ ← for_all validate_domain (map_values (domains t));
  st ← for_each validate_rule ([], []) (map_values (rules t));
  actual ← for_each validate_relation [] (map_values (rule_relations t));
  if negb (bool_decide (snd st = set_of_list (List.filter is_materialized actual)))
  then Err "Archaeology trusted graph rule relation parity failed" else
  Ok tt.
End References.

(** ** Emission *)

Definition evidence (revision_sha : string) (origin : ArchaeologyTrust)
    (evidence_ids contradicting_evidence_ids : list string) (coverage : ArchaeologyCoverage)
    (lifecycle : option ArchaeologyRuleLifecycle) (confidence : option ArchaeologyConfidence)
    (parser_identity algorithm_identity synthesis_identity : option string)
    (limitations : list string) (_force_navigation_only : bool)
    : outcome ArchaeologyGraphEvidence :=
  let evidence_ids := dedup (sort evidence_ids) in
  let contradicting_evidence_ids := dedup (sort contradicting_evidence_ids) in
  let limitations := dedup (sort limitations) in
  if is_nil evidence_ids
     || any (fun value => negb (safe_id value)) evidence_ids
     || any (fun value => negb (safe_id value)) contradicting_evidence_ids
     || any (fun value => negb (safe_public_text value)) limitations
  then Err "Archaeology trusted graph provenance is invalid" else
  Ok {| ev_revision_sha := revision_sha;
        ev_origin := origin;
        evidence_ids := evidence_ids;
        contradicting_evidence_ids := contradicting_evidence_ids;
        ev_coverage := coverage;
        ev_lifecycle := lifecycle;
        ev_confidence := confidence;
        ev_parser_identity := parser_identity;
        ev_algorithm_identity := algorithm_identity;
        ev_synthesis_identity := synthesis_identity;
        ev_limitations := limitations;
        claim_role := NavigationOnly |}.

Definition typed_edge (input : ArchaeologyGraphInput) (kind from to : string)
    (trust : ArchaeologyTrust) (evidence_ids contradicting_evidence_ids : list string)
    (sources : list GraphSourceAnchor) (coverage : ArchaeologyCoverage)
    (limitations : list string) (force_navigation_only : bool)
    : outcome ArchaeologyTrustedGraphEdge :=
  let identity_evidence := dedup (sort evidence_ids) in
  let id := stable_graph_id "archaeology-trusted-edge"
    (String.concat NUL [in_repository_id input; in_generation_id input; kind; from; to;
                        String.concat NUL identity_evidence]) in
  archaeology ← evidence (in_revision_sha input) trust evidence_ids contradicting_evidence_ids
                  coverage None (Some (trust_confidence trust)) None None None limitations
                  force_navigation_only;
  Ok {| edge_graph := {|
          edge_id := id; from := from; to := to;
          edge_kind := "archaeology_" ++ kind;
          GraphTypes.evidence := "Evidence-traced archaeology relationship: " ++ kind;
          edge_trust := graph_trust trust force_navigation_only;
          edge_origin := graph_origin trust;
          edge_sources := sources; candidates := [] |};
        edge_archaeology := archaeology |}.

Record graph_state : Type := {
  nodes : list ArchaeologyTrustedGraphNode;
  edges : list ArchaeologyTrustedGraphEdge;
  edge_ids : BTreeSet string
}.
Definition no_graph : graph_state := {| nodes := []; edges := []; edge_ids := [] |}.

Definition push_node (limits : ArchaeologyGraphLimits) (st : graph_state)
    (node : ArchaeologyTrustedGraphNode) : outcome graph_state :=
  if len (nodes st) =? max_nodes limits
  then Err "Archaeology trusted graph node bound exceeded" else
  Ok {| nodes := nodes st ++ [node]; edges := edges st; edge_ids := edge_ids st |}.
Definition push_edge (limits : ArchaeologyGraphLimits) (st : graph_state)
    (edge : ArchaeologyTrustedGraphEdge) : outcome graph_state :=
  if len (edges st) =? max_edges limits
  then Err "Archaeology trusted graph edge bound exceeded" else
  if set_contains (edge_id (edge_graph edge)) (edge_ids st)
  then Err "Archaeology trusted graph edge identity is duplicate" else
  Ok {| nodes := nodes st; edges := edges st ++ [edge];
        edge_ids := set_insert (edge_id (edge_graph edge)) (edge_ids st) |}.

Abbreviation node_id_map := (BTreeMap (string * string) string).
Definition node (ids : node_id_map) (key : string * string) : outcome string :=
  ok_or (map_get key ids) "Archaeology trusted graph endpoint is missing".
Definition graph_id (repository generation kind id : string) : string :=
  stable_graph_id "archaeology-trusted-node"
    (String.concat NUL [repository; generation; kind; id]).

Definition span_anchor (span : ArchaeologySourceSpan) : GraphSourceAnchor := {|
  path := span_source_unit_id span;
  start_line := u32_try_from (line (span_start span));
  start_column := u32_try_from (column (span_start span));
  end_line := u32_try_from (line (span_end span));
  end_column := u32_try_from (column (span_end span));
  excerpt := None |}.
Definition exact_anchors (ids : list string) (spans : BTreeMap string ArchaeologySourceSpan)
    : outcome (list GraphSourceAnchor) :=
  collect (fun id => span ← ok_or (map_get id spans) "Archaeology trusted graph exact span is missing";
                     Ok (span_anchor span)) ids.
Definition clause_fact_span_ids (clause : ArchaeologyRuleClause) (fact : ArchaeologyFact)
    : outcome (list string) :=
  let fact_spans := set_of_list (fact_span_ids fact) in
  let output := List.filter (fun span_id => set_contains span_id fact_spans) (evidence_span_ids clause) in
  if is_nil output
  then Err "Archaeology trusted graph clause-to-fact evidence is not exact" else Ok output.

Definition build_node_ids (input : ArchaeologyGraphInput) (t : graph_tables) : node_id_map :=
  let graph_id := graph_id (in_repository_id input) (in_generation_id input) in
  let add kind := fun ids id => map_insert (kind, id) (graph_id kind id) ids in
  let ids := foldl (add "source_unit"%string) [] (map_keys (units t)) in
  let ids := foldl (add "span"%string) ids (map_keys (spans t)) in
  let ids := foldl (add "fact"%string) ids (map_keys (facts t)) in
  let ids := foldl (add "rule"%string) ids (map_keys (rules t)) in
  let ids := foldl (add "domain"%string) ids (map_keys (domains t)) in
  foldl (fun ids rule => foldl (fun ids clause => add "clause"%string ids (clause_id clause)) ids (clauses rule))
    ids (map_values (rules t)).

Definition CANCELLED : string := "Archaeology trusted graph projection cancelled".

(** ** The loops *)

Section Projection.
Context (limits : ArchaeologyGraphLimits) (input : ArchaeologyGraphInput) (t : graph_tables).
Context (ids : node_id_map).

(** [push_node(nodes, Node { graph: Graph { id: node(..)?, .. }, archaeology: evidence(..)? })] *)
Definition emit_node (st : graph_state) (key : string * string)
    (graph : string -> StructuralGraphNode) (archaeology : outcome ArchaeologyGraphEvidence)
    : outcome graph_state :=
  id ← node ids key;
  archaeology ← archaeology;
  push_node limits st {| node_graph := graph id; node_archaeology := archaeology |}.

(** [push_edge(edges, ids, typed_edge(input, kind, node(..)?, node(..)?, ..)?)] *)
Definition emit_edge (st : graph_state) (kind : string) (from to : string * string)
    (trust : ArchaeologyTrust) (evidence_ids contradicting_evidence_ids : list string)
    (sources : outcome (list GraphSourceAnchor)) (coverage : ArchaeologyCoverage)
    (limitations : list string) (force_navigation_only : bool) : outcome graph_state :=
  from ← node ids from;
  to ← node ids to;
  sources ← sources;
  edge ← typed_edge input kind from to trust evidence_ids contradicting_evidence_ids sources
           coverage limitations force_navigation_only;
  push_edge limits st edge.

(** [vec![span_anchor(spans[id])]] *)
Definition indexed_anchor (span_id : string) : outcome (list GraphSourceAnchor) :=
  span ← index_or_panic (map_get span_id (spans t)); Ok [span_anchor span].
Definition unit_language (source_unit_id : string) : option string :=
  inv_language <$> map_get source_unit_id (units t).

Definition project_unit (st : graph_state) (u : ArchaeologyInventoryUnit) : outcome graph_state :=
  let dialect := match inv_dialect u with Some d => d | None => "unspecified"%string end in
  emit_node st ("source_unit"%string, unit_id u)
    (fun id => {|
       node_id := id;
       node_kind := "archaeology_source_unit";
       label := inv_language u ++ " source unit";
       qualified_name := None; node_path := None;
       detail := Some ("classification=" ++ classification_name (inv_classification u)
                       ++ "; dialect=" ++ dialect)%string;
       language := Some (inv_language u);
       community_id := None;
       node_trust := Extracted; node_origin := OExtracted; node_sources := [] |})
    (evidence (in_revision_sha input) TrustExtracted [unit_id u] [] (in_coverage input) None None
       (Some (inv_language u ++ ":" ++ dialect)%string) None None (inv_coverage_reasons u) false).

Definition project_span (st : graph_state) (span : ArchaeologySourceSpan) : outcome graph_state :=
  let anchor := span_anchor span in
  st ← emit_node st ("span"%string, span_id span)
    (fun id => {|
       node_id := id;
       node_kind := "archaeology_source_span";
       label := "Exact source span";
       qualified_name := None; node_path := None;
       detail := Some "one-based Unicode position; byte identity remains authoritative"%string;
       language := unit_language (span_source_unit_id span);
       community_id := None;
       node_trust := Extracted; node_origin := OExtracted; node_sources := [anchor] |})
    (evidence (in_revision_sha input) TrustExtracted [span_id span] [] (in_coverage input) None
       (Some ConfidenceHigh) None None None [] false);
  emit_edge st "contains_span" ("source_unit"%string, span_source_unit_id span)
    ("span"%string, span_id span) TrustExtracted [span_id span] [] (Ok [anchor])
    (in_coverage input) [] false.

Definition project_fact (st : graph_state) (fact : ArchaeologyFact) : outcome graph_state :=
  origin ← index_or_panic (map_get (fact_id fact) (origins t));
  fact_spans ← exact_anchors (fact_span_ids fact) (spans t);
  let unresolved := bool_decide (fact_kind fact = FactUnresolved) in
  st ← emit_node st ("fact"%string, fact_id fact)
    (fun id => {|
       node_id := id;
       node_kind := fact_node_kind (fact_kind fact);
       label := fact_label fact;
       qualified_name := None; node_path := None;
       detail := Some ("normalized " ++ fact_kind_name (fact_kind fact) ++ " fact")%string;
       language := unit_language (origin_source_unit_id origin);
       community_id := None;
       node_trust := graph_trust (fact_trust fact) unresolved;
       node_origin := graph_origin (fact_trust fact);
       node_sources := fact_spans |})
    (evidence (in_revision_sha input) (fact_trust fact) (fact_span_ids fact ++ [fact_id fact]) []
       (in_coverage input) None (Some (fact_confidence fact)) (Some (fact_parser_id fact)) None None
       (when unresolved "normalized relationship target is unresolved"%string) unresolved);
  st ← emit_edge st "contains_fact" ("source_unit"%string, origin_source_unit_id origin)
    ("fact"%string, fact_id fact) (fact_trust fact) (fact_span_ids fact) [] (Ok fact_spans)
    (in_coverage input) [] unresolved;
  for_each (fun st span_id =>
      emit_edge st "located_at" ("fact"%string, fact_id fact) ("span"%string, span_id)
        (fact_trust fact) [fact_id fact; span_id] [] (indexed_anchor span_id)
        (in_coverage input) [] unresolved)
    st (fact_span_ids fact).

Definition project_fact_edge (st : graph_state) (edge : ArchaeologyFactEdge) : outcome graph_state :=
  let unresolved := bool_decide (fact_edge_kind edge = EdgeUnresolved)
                    || is_some (unresolved_reason edge) in
  let limitations := when unresolved "normalized relationship is unresolved or ambiguous"%string in
  emit_edge st (fact_edge_kind_name (fact_edge_kind edge)) ("fact"%string, from_fact_id edge)
    ("fact"%string, to_fact_id edge) (fact_edge_trust edge)
    (fact_edge_evidence_span_ids edge ++ [fact_edge_id edge]) []
    (exact_anchors (fact_edge_evidence_span_ids edge) (spans t))
    (in_coverage input) limitations unresolved.

Definition project_domain (st : graph_state) (domain : ArchaeologyGraphDomain) : outcome graph_state :=
  emit_node st ("domain"%string, domain_id domain)
    (fun id => {|
       node_id := id;
       node_kind := "archaeology_domain";
       label := domain_label domain;
       qualified_name := None; node_path := None;
       detail := (fun parent => ("parent=" ++ parent)%string) <$> parent_domain_id domain;
       language := None;
       community_id := Some (domain_id domain);
       node_trust := Inferred; node_origin := ODeterministic; node_sources := [] |})
    (evidence (in_revision_sha input) TrustDeterministic [domain_id domain] [] (in_coverage input)
       None None None None None
       (when (seqb (domain_id domain) "domain:other") "deterministic fallback domain accounting"%string)
       false).

(** A clause, under its rule. *)
Definition project_clause_node (rule : ArchaeologyRulePacket) (st : graph_state)
    (clause : ArchaeologyRuleClause) (clause_sources : list GraphSourceAnchor) : outcome graph_state :=
  let clause_uncertain := is_uncertain (clause_trust clause) in
  st ← emit_node st ("clause"%string, clause_id clause)
    (fun id => {|
       node_id := id;
       node_kind := "archaeology_rule_clause";
       label := clause_text clause;
       qualified_name := None; node_path := None;
       detail := Some "atomic evidence-traced rule clause"%string;
       language := None;
       community_id := head (domain_ids rule);
       node_trust := graph_trust (clause_trust clause) clause_uncertain;
       node_origin := graph_origin (clause_trust clause);
       node_sources := clause_sources |})
    (evidence (in_revision_sha input) (clause_trust clause)
       (supporting_fact_ids clause ++ evidence_span_ids clause ++ [clause_id clause])
       (contradicting_fact_ids clause) (rule_coverage rule) (Some (rule_lifecycle rule))
       (Some (clause_confidence clause)) (Some (rule_parser_identity rule))
       (Some (rule_algorithm_identity rule)) (rule_synthesis_identity rule)
       (caveats clause) clause_uncertain);
  emit_edge st "has_clause" ("rule"%string, rule_id rule) ("clause"%string, clause_id clause)
    (clause_trust clause) [rule_id rule; clause_id clause] (contradicting_fact_ids clause)
    (Ok clause_sources) (rule_coverage rule) (caveats clause) clause_uncertain.

(** The [supported_by] and [contradicted_by] loops. *)
Definition project_clause_fact (rule : ArchaeologyRulePacket) (clause : ArchaeologyRuleClause)
    (kind : string) (contradicting : string -> list string) (st : graph_state) (fact_id : string)
    : outcome graph_state :=
  let clause_uncertain := is_uncertain (clause_trust clause) in
  fact ← index_or_panic (map_get fact_id (facts t));
  fact_span_ids ← clause_fact_span_ids clause fact;
  fact_sources ← exact_anchors fact_span_ids (spans t);
  emit_edge st kind ("clause"%string, clause_id clause) ("fact"%string, fact_id)
    (clause_trust clause) ([clause_id clause; fact_id] ++ fact_span_ids) (contradicting fact_id)
    (Ok fact_sources) (rule_coverage rule) (caveats clause) clause_uncertain.

Definition project_clause_span (rule : ArchaeologyRulePacket) (clause : ArchaeologyRuleClause)
    (st : graph_state) (span_id : string) : outcome graph_state :=
  emit_edge st "cited_at" ("clause"%string, clause_id clause) ("span"%string, span_id)
    (clause_trust clause) [clause_id clause; span_id] [] (indexed_anchor span_id)
    (rule_coverage rule) (caveats clause) (is_uncertain (clause_trust clause)).

Definition project_clause (rule : ArchaeologyRulePacket) (st : graph_state)
    (clause : ArchaeologyRuleClause) : outcome graph_state :=
  clause_sources ← exact_anchors (evidence_span_ids clause) (spans t);
  st ← project_clause_node rule st clause clause_sources;
  st ← for_each (project_clause_fact rule clause "supported_by" (fun _ => [])) st
         (supporting_fact_ids clause);
  st ← for_each (project_clause_fact rule clause "contradicted_by" (fun fact_id => [fact_id])) st
         (contradicting_fact_ids clause);
  for_each (project_clause_span rule clause) st (evidence_span_ids clause).

Definition rule_evidence (rule : ArchaeologyRulePacket) : list string :=
  rule_id rule
  :: flat_map (fun clause => supporting_fact_ids clause ++ evidence_span_ids clause) (clauses rule).
Definition rule_contradictions (rule : ArchaeologyRulePacket) : list string :=
  flat_map contradicting_fact_ids (clauses rule).
Definition rule_limitations (rule : ArchaeologyRulePacket) : list string :=
  reasons (rule_coverage rule) ++ flat_map caveats (clauses rule).

Definition project_rule_node (st : graph_state) (rule : ArchaeologyRulePacket) : outcome graph_state :=
  let uncertain := is_uncertain (rule_trust rule) in
  sources ← collect (fun span_id => span ← index_or_panic (map_get span_id (spans t));
                                    Ok (span_anchor span))
              (flat_map evidence_span_ids (clauses rule));
  st ← emit_node st ("rule"%string, rule_id rule)
    (fun id => {|
       node_id := id;
       node_kind := "archaeology_rule_" ++ rule_kind_name (rule_kind rule);
       label := rule_title rule;
       qualified_name := None; node_path := None;
       detail := Some ("lifecycle=" ++ lifecycle_name (rule_lifecycle rule)
                       ++ "; confidence=" ++ confidence_name (rule_confidence rule))%string;
       language := None;
       community_id := head (domain_ids rule);
       node_trust := graph_trust (rule_trust rule) uncertain;
       node_origin := graph_origin (rule_trust rule);
       node_sources := sources |})
    (evidence (in_revision_sha input) (rule_trust rule) (rule_evidence rule)
       (rule_contradictions rule) (rule_coverage rule) (Some (rule_lifecycle rule))
       (Some (rule_confidence rule)) (Some (rule_parser_identity rule))
       (Some (rule_algorithm_identity rule)) (rule_synthesis_identity rule)
       (rule_limitations rule) uncertain);
  for_each (fun st domain_id =>
      emit_edge st "classified_in" ("rule"%string, rule_id rule) ("domain"%string, domain_id)
        TrustDeterministic [rule_id rule; domain_id] [] (Ok []) (rule_coverage rule) [] false)
    st (domain_ids rule).

Definition project_relation (st : graph_state) (relation : ArchaeologyGraphRuleRelation)
    : outcome graph_state :=
  source ← index_or_panic (map_get (from_rule_id relation) (rules t));
  emit_edge st (rule_relation_kind_name (relation_kind relation))
    ("rule"%string, from_rule_id relation) ("rule"%string, to_rule_id relation)
    (relation_trust relation) (relation_evidence_ids relation ++ [relation_id relation])
    (when (bool_decide (relation_kind relation = ConflictsWith)) (to_rule_id relation))
    (Ok []) (rule_coverage source) (relation_limitations relation)
    (is_uncertain (relation_trust relation)).

(** ** The loops, each polling the flag before an element *)

Definition polled {A} (token : StructuralGraphCancellation)
    (f : graph_state -> A -> outcome graph_state) (st : graph_state) (x : A) : polling graph_state :=
  _ ← poll token CANCELLED; lift (f st x).

Definition project_rule (token : StructuralGraphCancellation) (st : graph_state)
    (rule : ArchaeologyRulePacket) : polling graph_state :=
  st ← polled token project_rule_node st rule;
  for_each_polling (polled token (project_clause rule)) st (clauses rule).

Definition emit_all (token : StructuralGraphCancellation) : polling graph_state :=
  st ← for_each_polling (polled token project_unit) no_graph (map_values (units t));
  st ← for_each_polling (polled token project_span) st (map_values (spans t));
  st ← for_each_polling (polled token project_fact) st (map_values (facts t));
  st ← for_each_polling (polled token project_fact_edge) st (map_values (fact_edges t));
  st ← for_each_polling (polled token project_domain) st (map_values (domains t));
  st ← for_each_polling (project_rule token) st (map_values (rules t));
  for_each_polling (polled token project_relation) st (map_values (rule_relations t)).
End Projection.

(** ** Trust of the edges, and the fragment *)

Definition ENDPOINT_LIMITATION : string :=
  "endpoint trust limits this relationship to ambiguous navigation".

Definition limit_edge (node_trusts : BTreeMap string GraphTrust) (edge : ArchaeologyTrustedGraphEdge)
    : outcome ArchaeologyTrustedGraphEdge :=
  let g := edge_graph edge in
  let a := edge_archaeology edge in
  from_trust ← ok_or (map_get (from g) node_trusts) "Archaeology trusted graph edge source is missing";
  to_trust ← ok_or (map_get (to g) node_trusts) "Archaeology trusted graph edge target is missing";
  let projected_trust := weakest_graph_trust [edge_trust g; from_trust; to_trust] in
  let limited := bool_decide (projected_trust = Ambiguous) && negb (bool_decide (edge_trust g = Ambiguous)) in
  Ok {| edge_graph := {|
          edge_id := edge_id g; from := from g; to := to g; edge_kind := edge_kind g;
          GraphTypes.evidence := GraphTypes.evidence g;
          edge_trust := projected_trust; edge_origin := edge_origin g;
          edge_sources := edge_sources g; candidates := candidates g |};
        edge_archaeology := {|
          ev_revision_sha := ev_revision_sha a;
          ev_origin := ev_origin a;
          evidence_ids := evidence_ids a;
          contradicting_evidence_ids := contradicting_evidence_ids a;
          ev_coverage := ev_coverage a;
          ev_lifecycle := ev_lifecycle a;
          ev_confidence := if limited then Some ConfidenceLow else ev_confidence a;
          ev_parser_identity := ev_parser_identity a;
          ev_algorithm_identity := ev_algorithm_identity a;
          ev_synthesis_identity := ev_synthesis_identity a;
          ev_limitations := if limited then dedup (sort (ev_limitations a ++ [ENDPOINT_LIMITATION]))
                            else ev_limitations a;
          claim_role := claim_role a |} |}.

Definition node_trusts (nodes : list ArchaeologyTrustedGraphNode) : BTreeMap string GraphTrust :=
  map_of_list (map (fun node => (node_id (node_graph node), node_trust (node_graph node))) nodes).

Definition within_bounds (limits : ArchaeologyGraphLimits) (value : ArchaeologyGraphEvidence)
    (sources : list GraphSourceAnchor) : bool :=
  (len (evidence_ids value) <=? max_evidence_ids_per_item limits)
  && (len (contradicting_evidence_ids value) <=? max_evidence_ids_per_item limits)
  && (len sources <=? max_source_anchors_per_item limits).
Definition validate_output_bounds (fragment : ArchaeologyTrustedGraphFragment)
    (limits : ArchaeologyGraphLimits) : outcome unit :=
  if any (fun node => negb (within_bounds limits (node_archaeology node) (node_sources (node_graph node))))
       (fragment_nodes fragment)
     || any (fun edge => negb (within_bounds limits (edge_archaeology edge) (edge_sources (edge_graph edge))))
          (fragment_edges fragment)
  then Err "Archaeology trusted graph evidence or source-anchor bound exceeded" else Ok tt.

Definition by_node_id (left right : ArchaeologyTrustedGraphNode) : comparison :=
  cmp (node_id (node_graph left)) (node_id (node_graph right)).
Definition by_edge_id (left right : ArchaeologyTrustedGraphEdge) : comparison :=
  cmp (edge_id (edge_graph left)) (edge_id (edge_graph right)).

Definition build_fragment (input : ArchaeologyGraphInput) (st : graph_state)
    : outcome ArchaeologyTrustedGraphFragment :=
  edges ← collect (limit_edge (node_trusts (nodes st))) (edges st);
  Ok {| schema_version := ARCHAEOLOGY_SCHEMA_VERSION;
        contract_id := ARCHAEOLOGY_GRAPH_CONTRACT_ID;
        fragment_repository_id := in_repository_id input;
        fragment_generation_id := in_generation_id input;
        fragment_revision_sha := in_revision_sha input;
        fragment_nodes := sort_by by_node_id (nodes st);
        fragment_edges := sort_by by_edge_id edges;
        fragment_coverage := in_coverage input;
        truncated := false |}.

Section Project.
(** serde_json: the buffers [to_writer] writes for an input, and the length
    of [to_vec] of a fragment, [None] where it fails. *)
Context (json_chunks : ArchaeologyGraphInput -> list N).
Context (json_length : ArchaeologyTrustedGraphFragment -> option N).

Definition project_archaeology_graph_fragment (input : ArchaeologyGraphInput)
    (limits : ArchaeologyGraphLimits) (token : StructuralGraphCancellation)
    : polling ArchaeologyTrustedGraphFragment :=
  _ ← poll token CANCELLED;
  _ ← lift (validate_scope json_chunks input limits);
  t ← lift (build_tables input);
  _ ← lift (validate_references limits input t);
  st ← emit_all limits input t (build_node_ids input t) token;
  fragment ← lift (build_fragment input st);
  _ ← poll token CANCELLED;
  _ ← lift (validate_output_bounds fragment limits);
  output_bytes ← lift (ok_or (json_length fragment) "Archaeology trusted graph is not serializable");
  _ ← lift (if max_output_bytes limits <? output_bytes
            then Err "Archaeology trusted graph output byte bound exceeded" else Ok tt);
  _ ← poll token CANCELLED;
  mret fragment.
End Project.

(** ** A concrete fragment *)

Section Examples.
Definition ex_sha : string := String.concat "" (replicate 40 "a").
Definition ex_coverage : ArchaeologyCoverage := {|
  coverage_state := CoverageComplete; parser_coverage := CoverageComplete;
  repository_coverage := CoverageComplete; temporal_coverage := CoveragePartial;
  discovered_source_units := 1; indexed_source_units := 1; discovered_bytes := 64;
  indexed_bytes := 64; reasons := ["history is partial"] |}.
Definition ex_unit : ArchaeologyInventoryUnit := {|
  inv_identity := {| unit_source_unit_id := "unit:1"; unit_repository_id := "repo:1";
    unit_revision_sha := ex_sha; unit_path_identity := "path:1"; unit_relative_path := None;
    unit_content_hash := None; unit_hash_algorithm := None; unit_change_identity := None |};
  inv_classification := ClassSource; inv_language := "cobol"; inv_dialect := None;
  inv_byte_count := 64; inv_line_count := 4; inv_include_candidates := [];
  inv_coverage_reasons := [] |}.
Definition ex_span (id : string) (at_line : N) : ArchaeologySourceSpan := {|
  span_id := id; span_source_unit_id := "unit:1"; span_revision_sha := ex_sha;
  span_start := {| byte := at_line * 10; line := at_line; column := 1 |};
  span_end := {| byte := at_line * 10 + 9; line := at_line; column := 10 |} |}.
Definition ex_fact (id span : string) (kind : ArchaeologyFactKind) (trust : ArchaeologyTrust)
    : ArchaeologyFact := {|
  fact_id := id; fact_kind := kind; fact_label := "order total"; fact_span_ids := [span];
  fact_parser_id := "cobol-parser:1"; fact_trust := trust; fact_confidence := ConfidenceHigh;
  fact_attributes := [] |}.
Definition ex_origin (id : string) : ArchaeologyFactOrigin := {|
  origin_fact_id := id; origin_source_unit_id := "unit:1"; origin_path_identity := "path:1";
  origin_ranking_path_identity := "rank:1"; origin_classification := ClassSource |}.
Definition ex_clause (id fact span : string) (trust : ArchaeologyTrust) : ArchaeologyRuleClause := {|
  clause_id := id; clause_text := "an order needs a total"; clause_trust := trust;
  clause_confidence := ConfidenceMedium; supporting_fact_ids := [fact];
  contradicting_fact_ids := []; evidence_span_ids := [span]; caveats := [] |}.
Definition ex_rule (id : string) (trust : ArchaeologyTrust) (c : ArchaeologyRuleClause)
    (depends : list string) : ArchaeologyRulePacket := {|
  rule_id := id; rule_repository_id := "repo:1"; rule_generation_id := "gen:1";
  rule_revision_sha := ex_sha; rule_kind := RuleValidation; rule_title := "Order totals";
  domain_ids := ["domain:other"]; rule_lifecycle := LifecycleCandidate; rule_trust := trust;
  rule_confidence := ConfidenceMedium; clauses := [c]; dependency_rule_ids := depends;
  conflict_rule_ids := []; alias_rule_ids := []; rule_coverage := ex_coverage;
  rule_parser_identity := "cobol-parser:1"; rule_algorithm_identity := "rules:1";
  rule_synthesis_identity := None |}.
Definition ex_input : ArchaeologyGraphInput := {|
  in_repository_id := "repo:1"; in_generation_id := "gen:1"; in_revision_sha := ex_sha;
  in_coverage := ex_coverage;
  in_source_units := [ex_unit];
  in_spans := [ex_span "span:1" 1; ex_span "span:2" 2];
  in_facts := [ex_fact "fact:1" "span:1" FactPredicate TrustExtracted;
               ex_fact "fact:2" "span:2" FactUnresolved TrustDeterministic];
  in_fact_origins := [ex_origin "fact:2"; ex_origin "fact:1"];
  in_fact_edges := [{| fact_edge_id := "edge:1"; from_fact_id := "fact:1"; to_fact_id := "fact:2";
    fact_edge_kind := EdgeCalls; fact_edge_trust := TrustExtracted;
    fact_edge_evidence_span_ids := ["span:1"; "span:2"]; unresolved_reason := None |}];
  in_rules := [ex_rule "rule:1" TrustDeterministic (ex_clause "clause:1" "fact:1" "span:1" TrustDeterministic)
                 ["rule:2"];
               ex_rule "rule:2" TrustModelSynthesized
                 (ex_clause "clause:2" "fact:2" "span:2" TrustModelSynthesized) []];
  in_domains := [{| domain_id := "domain:other"; domain_label := "Other"; parent_domain_id := None |}];
  in_rule_relations := [{| relation_id := "relation:1"; from_rule_id := "rule:1";
    to_rule_id := "rule:2"; relation_kind := DependsOn; relation_trust := TrustDeterministic;
    relation_evidence_ids := ["fact:1"]; relation_limitations := [] |}] |}.
Definition ex_chunks (_ : ArchaeologyGraphInput) : list N := [100; 200].
Definition ex_length (_ : ArchaeologyTrustedGraphFragment) : option N := Some 4096.
Definition ex_project (input : ArchaeologyGraphInput) (token : StructuralGraphCancellation) :=
  project_archaeology_graph_fragment ex_chunks ex_length input default_graph_limits token 0%nat.

Example ex_project_sizes :
  (r ← ex_project ex_input never_cancelled;
   Ok (len (fragment_nodes (fst r)), len (fragment_edges (fst r)))) = Ok (10, 16).
Proof. vm_compute. reflexivity. Qed.
Example ex_project_cancelled : ex_project ex_input (cancelled_from 5) = Err CANCELLED.
Proof. vm_compute. reflexivity. Qed.
(** An edge between an extracted fact and an unresolved one is ambiguous. *)
Example ex_project_trust :
  (r ← ex_project ex_input never_cancelled;
   Ok (map (fun e => edge_trust (edge_graph e))
         (List.filter (fun e => seqb (edge_kind (edge_graph e)) "archaeology_calls")
            (fragment_edges (fst r))))) = Ok [Ambiguous].
Proof. vm_compute. reflexivity. Qed.
End Examples.
