(* ===== verification/TrustedGraphProps.v ===== *)
(** Theorems about the projection of [TrustedGraph]: what a fragment contains,
    how far its nodes and edges may be trusted, and that projecting neither
    panics nor depends on the order of its input. *)
From S2P Require Import Prelude Ordering RustText SecretPolicy GraphTypes Contracts Inventory TrustedGraph.
Local Open Scope N_scope.

(** * Provenance *)

(** How strong a trust may be shown for what comes from a source: only what was
    extracted is shown as extracted, what was derived or confirmed at most as
    inferred, and what a model or nobody vouches for as ambiguous. *)
Inductive may_show : ArchaeologyTrust -> GraphTrust -> Prop :=
| show_ambiguous origin : may_show origin Ambiguous
| show_inferred origin : origin ∈ [TrustExtracted; TrustDeterministic; TrustHumanConfirmed] -> may_show origin Inferred
| show_extracted : may_show TrustExtracted Extracted.
(** The origin of a node or edge of the graph. *)
Inductive shows_origin : ArchaeologyTrust -> GraphOrigin -> Prop :=
| origin_extracted : shows_origin TrustExtracted OExtracted
| origin_deterministic : shows_origin TrustDeterministic ODeterministic
| origin_model : shows_origin TrustModelSynthesized OModelSynthesized
| origin_human : shows_origin TrustHumanConfirmed OHumanConfirmed
| origin_unknown : shows_origin TrustUnknown OLegacyMetadata.
(** [weaker t u]: [t] is no stronger a claim than [u]. *)
Inductive weaker : GraphTrust -> GraphTrust -> Prop :=
| weaker_extracted t : t <> Legacy -> weaker t Extracted
| weaker_inferred t : t ∈ [Inferred; Ambiguous] -> weaker t Inferred
| weaker_ambiguous : weaker Ambiguous Ambiguous.
(** What every node and edge says about where it comes from. *)
Definition provenance_ok (revision : string) (ev : ArchaeologyGraphEvidence)
    (origin : GraphOrigin) (trust : GraphTrust) : Prop :=
  ev_revision_sha ev = revision /\
  evidence_ids ev <> [] /\ StronglySorted lt (evidence_ids ev) /\
  Forall (fun id => safe_id id = true) (evidence_ids ev) /\
  Forall (fun id => safe_id id = true) (contradicting_evidence_ids ev) /\
  StronglySorted lt (ev_limitations ev) /\
  Forall (fun text => safe_public_text text = true) (ev_limitations ev) /\
  shows_origin (ev_origin ev) origin /\ may_show (ev_origin ev) trust.

Lemma not_any_Forall {A} (p : A -> bool) l :
  any (fun x => negb (p x)) l = false <-> Forall (fun x => p x = true) l.
Proof. rewrite any_false, Forall_forall. by setoid_rewrite negb_false_iff. Qed.

Lemma graph_trust_shown trust force : may_show trust (graph_trust trust force).
Proof. destruct trust, force; constructor; set_solver. Qed.
Lemma graph_origin_shown trust : shows_origin trust (graph_origin trust).
Proof. destruct trust; constructor. Qed.
Lemma may_show_weaker origin t u : may_show origin u -> weaker t u -> may_show origin t.
Proof.
  intros [o|o Ho|] Hw; inversion Hw as [? Hn|? Hin|]; subst; try constructor; try done.
  - apply elem_of_cons in Hin as [->| ->%list_elem_of_singleton]; by constructor.
  - destruct t; try done; constructor. set_solver.
Qed.
Lemma may_show_known origin t : may_show origin t -> t <> Legacy.
Proof. by intros []. Qed.
Lemma rank_weaker t u : t <> Legacy -> trust_rank u <= trust_rank t -> weaker t u.
Proof. intros Hn Hr. destruct t, u; try done; constructor; set_solver. Qed.
Lemma evidence_origin revision origin ids contra coverage lifecycle confidence parser algorithm synthesis limitations force ev :
  TrustedGraph.evidence revision origin ids contra coverage lifecycle confidence parser algorithm synthesis
    limitations force = Ok ev -> ev_origin ev = origin.
Proof. unfold TrustedGraph.evidence. rewrite if_Err_Ok. by intros [_ [= <-]]. Qed.

Lemma evidence_provenance revision origin ids contra coverage lifecycle confidence parser algorithm
    synthesis limitations force force' ev :
  TrustedGraph.evidence revision origin ids contra coverage lifecycle confidence parser algorithm synthesis
    limitations force = Ok ev ->
  provenance_ok revision ev (graph_origin origin) (graph_trust origin force').
Proof.
  unfold TrustedGraph.evidence. rewrite if_Err_Ok, !orb_false_iff, is_nil_false, !not_any_Forall.
  intros ((((Hne & Hids) & Hcontra) & Hlim) & [= <-]). unfold provenance_ok. cbn.
  split_and!; try done; try apply sort_dedup_sorted; [apply graph_origin_shown|apply graph_trust_shown].
Qed.

Section Items.
Context (limits : ArchaeologyGraphLimits) (input : ArchaeologyGraphInput).
Context (t : graph_tables) (ids : node_id_map).

(** The identity of the node of an element. *)
Definition gid (key : string * string) : string :=
  graph_id (in_repository_id input) (in_generation_id input) (fst key) (snd key).
Context (Hids : forall key id, map_get key ids = Some id -> id = gid key).

Definition node_ok (n : ArchaeologyTrustedGraphNode) : Prop :=
  provenance_ok (in_revision_sha input) (node_archaeology n) (node_origin (node_graph n))
    (node_trust (node_graph n)).
Definition edge_ok (e : ArchaeologyTrustedGraphEdge) : Prop :=
  provenance_ok (in_revision_sha input) (edge_archaeology e) (edge_origin (edge_graph e))
    (edge_trust (edge_graph e)).

Definition nid (n : ArchaeologyTrustedGraphNode) : string := node_id (node_graph n).
Definition eid (e : ArchaeologyTrustedGraphEdge) : string := edge_id (edge_graph e).
(** A node's identity and origin, and those of the node of an element. *)
Definition says (n : ArchaeologyTrustedGraphNode) : string * ArchaeologyTrust := (nid n, ev_origin (node_archaeology n)).
Definition gsays (k : (string * string) * ArchaeologyTrust) : string * ArchaeologyTrust := (gid (fst k), snd k).
(** Kind, endpoints and origin. *)
Definition shape (e : ArchaeologyTrustedGraphEdge) : string * string * string * ArchaeologyTrust :=
  (edge_kind (edge_graph e), from (edge_graph e), to (edge_graph e), ev_origin (edge_archaeology e)).
Definition gshape (s : string * (string * string) * (string * string) * ArchaeologyTrust) :
    string * string * string * ArchaeologyTrust :=
  let '(kind, from, to, origin) := s in ("archaeology_" ++ kind, gid from, gid to, origin)%string.

Definition graph_inv (st : graph_state) : Prop :=
  Forall node_ok (nodes st) /\ Forall edge_ok (edges st) /\
  len (nodes st) <= max_nodes limits /\ len (edges st) <= max_edges limits /\
  NoDup (map eid (edges st)) /\ forall id, id ∈ edge_ids st <-> id ∈ map eid (edges st).

(** [st'] is [st] with the nodes of the given elements and the edges of the
    given shapes emitted, in that order. *)
Definition grows (ks : list ((string * string) * ArchaeologyTrust))
    (ss : list (string * (string * string) * (string * string) * ArchaeologyTrust)) (st st' : graph_state) : Prop :=
  graph_inv st -> graph_inv st' /\
  map says (nodes st') = map says (nodes st) ++ map gsays ks /\
  map shape (edges st') = map shape (edges st) ++ map gshape ss.

Lemma grows_refl st : grows [] [] st st.
Proof. intros H. cbn. by rewrite !app_nil_r. Qed.
Lemma grows_trans ks1 ss1 ks2 ss2 st1 st2 st3 :
  grows ks1 ss1 st1 st2 -> grows ks2 ss2 st2 st3 -> grows (ks1 ++ ks2) (ss1 ++ ss2) st1 st3.
Proof.
  intros H12 H23 Hinv. destruct (H12 Hinv) as (Hinv2 & Hn & He).
  destruct (H23 Hinv2) as (Hinv3 & Hn' & He'). split; [done|].
  by rewrite Hn', Hn, He', He, !map_app, !app_assoc.
Qed.

Lemma emit_node_grows st key origin graph archaeology st' :
  emit_node limits ids st key graph archaeology = Ok st' ->
  (forall id ev, archaeology = Ok ev -> node_id (graph id) = id /\ ev_origin ev = origin /\
     node_ok {| node_graph := graph id; node_archaeology := ev |}) ->
  grows [(key, origin)] [] st st'.
Proof.
  unfold emit_node. intros H Hok. apply bind_Ok in H as (id & Hid & H).
  apply ok_or_Ok, Hids in Hid as ->. apply bind_Ok in H as (ev & Hev & H).
  unfold push_node in H. apply if_Err_Ok in H as [Hlen%N.eqb_neq [= <-]].
  destruct (Hok (gid key) ev Hev) as (Hnid & Ho & Hn).
  intros (Hns & Hes & Hmax & Hrest). unfold graph_inv. cbn [nodes edges edge_ids].
  rewrite Forall_app, len_snoc, map_app, app_nil_r. cbn [map]. unfold says at 2, nid. cbn [node_graph node_archaeology].
  rewrite Hnid, Ho. split_and!; try done; try apply Hrest; [by constructor|lia].
Qed.

Lemma emit_edge_grows st kind from to trust eids contra sources coverage limitations force st' :
  emit_edge limits input ids st kind from to trust eids contra sources coverage limitations force = Ok st' ->
  grows [] [(kind, from, to, trust)] st st'.
Proof.
  unfold emit_edge. intros H. apply bind_Ok in H as (f & Hf & H). apply ok_or_Ok, Hids in Hf as ->.
  apply bind_Ok in H as (g & Hg & H). apply ok_or_Ok, Hids in Hg as ->.
  apply bind_Ok in H as (srcs & _ & H). apply bind_Ok in H as (e & He & H).
  unfold push_edge in H. apply if_Err_Ok in H as [Hlen%N.eqb_neq H].
  apply if_Err_Ok in H as [Hnew%set_contains_false [= <-]].
  assert (edge_ok e /\ shape e = gshape (kind, from, to, trust)) as [Hok Hshape].
  { unfold typed_edge in He. apply bind_Ok in He as (ev & Hev & [= <-]).
    split; [eapply evidence_provenance, Hev|]. apply evidence_origin in Hev. unfold shape. cbn. by rewrite Hev. }
  intros (Hns & Hes & Hn & Hmax & Hnd & Hin). unfold graph_inv. cbn [nodes edges edge_ids].
  rewrite app_nil_r, Forall_app, len_snoc, !map_app. cbn [map]. rewrite Hshape.
  split; [|done]. split_and!; try done; [by constructor|lia| |].
  - rewrite Hin in Hnew. apply NoDup_app. split; [done|]. split; [|apply NoDup_singleton].
    intros id Hid ->%list_elem_of_singleton. done.
  - intros id. rewrite elem_of_set_insert, Hin, elem_of_app, list_elem_of_singleton. unfold eid. tauto.
Qed.

(** Loops add up. *)
Lemma for_each_grows {A} (f : graph_state -> A -> outcome graph_state) ks ss l st st' :
  (forall x st st', x ∈ l -> f st x = Ok st' -> grows (ks x) (ss x) st st') ->
  for_each f st l = Ok st' -> grows (flat_map ks l) (flat_map ss l) st st'.
Proof.
  intros Hf. revert st. induction l as [|x l IH]; intros st; cbn.
  - intros [= <-]. apply grows_refl.
  - intros (st1 & Hx & Hl)%bind_Ok. eapply grows_trans; [eapply Hf; [left|done]|].
    apply IH; [|done]. intros y s s' Hy. apply Hf. by right.
Qed.
Lemma for_each_polling_grows {A} (f : graph_state -> A -> polling graph_state) ks ss l st n st' n' :
  (forall x st st' n n', f st x n = Ok (st', n') -> grows (ks x) (ss x) st st') ->
  for_each_polling f st l n = Ok (st', n') -> grows (flat_map ks l) (flat_map ss l) st st'.
Proof.
  intros Hf. revert st n. induction l as [|x l IH]; intros st n; cbn.
  - intros [= <- <-]. apply grows_refl.
  - intros (st1 & n1 & Hx & Hl)%polling_bind_Ok. eapply grows_trans; [by eapply Hf|by eapply IH].
Qed.
Lemma polled_grows {A} token (f : graph_state -> A -> outcome graph_state) ks ss st x n st' n' :
  (forall st', f st x = Ok st' -> grows ks ss st st') ->
  polled token f st x n = Ok (st', n') -> grows ks ss st st'.
Proof.
  intros Hf H. unfold polled in H. apply polling_bind_Ok in H as (_ & n1 & _ & H).
  apply lift_Ok in H as (s & H & [= -> _]). by apply Hf.
Qed.

(** ** What each element contributes *)

Definition span_key (id : string) : string * string := ("span"%string, id).
Definition fact_key (id : string) : string * string := ("fact"%string, id).
Definition rule_key (id : string) : string * string := ("rule"%string, id).
Definition clause_key (id : string) : string * string := ("clause"%string, id).
Definition domain_key (id : string) : string * string := ("domain"%string, id).
(** An element and where it comes from. *)
Abbreviation element := ((string * string) * ArchaeologyTrust)%type.
Definition unit_node (u : ArchaeologyInventoryUnit) : element := (("source_unit"%string, unit_id u), TrustExtracted).
Definition span_node (s : ArchaeologySourceSpan) : element := (span_key (span_id s), TrustExtracted).
Definition fact_node (f : ArchaeologyFact) : element := (fact_key (fact_id f), fact_trust f).
Definition domain_node (d : ArchaeologyGraphDomain) : element := (domain_key (domain_id d), TrustDeterministic).
Definition clause_node (c : ArchaeologyRuleClause) : element := (clause_key (clause_id c), clause_trust c).
Abbreviation edge_shape := (string * (string * string) * (string * string) * ArchaeologyTrust)%type.

Definition span_shapes (s : ArchaeologySourceSpan) : list edge_shape :=
  [("contains_span"%string, ("source_unit"%string, span_source_unit_id s), span_key (span_id s), TrustExtracted)].
Definition fact_unit (f : ArchaeologyFact) : string :=
  match map_get (fact_id f) (origins t) with Some o => origin_source_unit_id o | None => ""%string end.
Definition fact_shapes (unit_of : ArchaeologyFact -> string) (f : ArchaeologyFact) : list edge_shape :=
  ("contains_fact"%string, ("source_unit"%string, unit_of f), fact_key (fact_id f), fact_trust f)
  :: map (fun s => ("located_at"%string, fact_key (fact_id f), span_key s, fact_trust f)) (fact_span_ids f).
Definition fact_edge_shapes (e : ArchaeologyFactEdge) : list edge_shape :=
  [(fact_edge_kind_name (fact_edge_kind e), fact_key (from_fact_id e), fact_key (to_fact_id e), fact_edge_trust e)].
Definition clause_shapes (rule : ArchaeologyRulePacket) (c : ArchaeologyRuleClause) : list edge_shape :=
  [("has_clause"%string, rule_key (rule_id rule), clause_key (clause_id c), clause_trust c)]
  ++ map (fun f => ("supported_by"%string, clause_key (clause_id c), fact_key f, clause_trust c)) (supporting_fact_ids c)
  ++ map (fun f => ("contradicted_by"%string, clause_key (clause_id c), fact_key f, clause_trust c)) (contradicting_fact_ids c)
  ++ map (fun s => ("cited_at"%string, clause_key (clause_id c), span_key s, clause_trust c)) (evidence_span_ids c).
Definition rule_nodes (rule : ArchaeologyRulePacket) : list element :=
  (rule_key (rule_id rule), rule_trust rule) :: map clause_node (clauses rule).
Definition rule_shapes (rule : ArchaeologyRulePacket) : list edge_shape :=
  map (fun d => ("classified_in"%string, rule_key (rule_id rule), domain_key d, TrustDeterministic)) (domain_ids rule)
  ++ flat_map (clause_shapes rule) (clauses rule).
Definition relation_shapes (r : ArchaeologyGraphRuleRelation) : list edge_shape :=
  [(rule_relation_kind_name (relation_kind r), rule_key (from_rule_id r), rule_key (to_rule_id r), relation_trust r)].

(** A node whose trust follows from its origin's. *)
Lemma evidence_node_ok graph origin force' eids contra coverage lifecycle confidence parser algorithm
    synthesis limitations force :
  (forall id, node_id (graph id) = id) ->
  (forall id, node_origin (graph id) = graph_origin origin) ->
  (forall id, node_trust (graph id) = graph_trust origin force') ->
  forall id ev, TrustedGraph.evidence (in_revision_sha input) origin eids contra coverage lifecycle confidence
      parser algorithm synthesis limitations force = Ok ev ->
    node_id (graph id) = id /\ ev_origin ev = origin /\ node_ok {| node_graph := graph id; node_archaeology := ev |}.
Proof.
  intros Hid Ho Ht id ev Hev. split; [done|]. split; [by eapply evidence_origin|]. unfold node_ok. cbn [node_archaeology node_graph].
  rewrite Ho, Ht. by eapply evidence_provenance.
Qed.

Ltac node_done force := eapply (evidence_node_ok _ _ force); reflexivity.
Tactic Notation "emitted" ident(H) "forced" constr(force) :=
  eapply emit_node_grows in H; [|node_done force].

Lemma project_unit_grows st u st' :
  project_unit limits input ids st u = Ok st' -> grows [unit_node u] [] st st'.
Proof. unfold project_unit. intros H. by emitted H forced false. Qed.

Lemma project_span_grows st s st' :
  project_span limits input t ids st s = Ok st' -> grows [span_node s] (span_shapes s) st st'.
Proof.
  unfold project_span. intros (st1 & Hn & He)%bind_Ok. emitted Hn forced false.
  apply emit_edge_grows in He. exact (grows_trans _ _ _ _ _ _ _ Hn He).
Qed.

Lemma flat_map_nil {A B} (l : list A) : flat_map (fun _ => @nil B) l = [].
Proof. by induction l. Qed.
Lemma flat_map_single {A B} (f : A -> B) l : flat_map (fun x => [f x]) l = map f l.
Proof. induction l as [|x l IH]; cbn; [done|]. by rewrite IH. Qed.

(** A loop that emits one edge per element. *)
Lemma edge_loop_grows {A} (f : graph_state -> A -> outcome graph_state) (s : A -> edge_shape) l st st' :
  (forall x st st', f st x = Ok st' -> grows [] [s x] st st') ->
  for_each f st l = Ok st' -> grows [] (map s l) st st'.
Proof.
  intros Hf H. rewrite <- (flat_map_single s l), <- (flat_map_nil (B := element) l).
  eapply for_each_grows; [|exact H]. eauto.
Qed.

Lemma project_fact_grows st f st' :
  project_fact limits input t ids st f = Ok st' -> grows [fact_node f] (fact_shapes fact_unit f) st st'.
Proof.
  unfold project_fact. intros (o & Ho & H)%bind_Ok. apply index_or_panic_Ok in Ho.
  apply bind_Ok in H as (anchors & _ & H). apply bind_Ok in H as (st1 & Hn & H).
  emitted Hn forced (bool_decide (fact_kind f = FactUnresolved)).
  apply bind_Ok in H as (st2 & He & Hl). apply emit_edge_grows in He.
  apply (edge_loop_grows _ (fun s => ("located_at"%string, fact_key (fact_id f), span_key s, fact_trust f))) in Hl;
    [|intros; by eapply emit_edge_grows].
  unfold fact_shapes, fact_unit. rewrite Ho.
  exact (grows_trans _ _ _ _ _ _ _ Hn (grows_trans _ _ _ _ _ _ _ He Hl)).
Qed.

Lemma project_fact_edge_grows st e st' :
  project_fact_edge limits input t ids st e = Ok st' -> grows [] (fact_edge_shapes e) st st'.
Proof. apply emit_edge_grows. Qed.

Lemma project_domain_grows st d st' :
  project_domain limits input ids st d = Ok st' -> grows [domain_node d] [] st st'.
Proof. unfold project_domain. intros H. by emitted H forced false. Qed.

Lemma project_clause_fact_grows rule c kind contra st f st' :
  project_clause_fact limits input t ids rule c kind contra st f = Ok st' ->
  grows [] [(kind, clause_key (clause_id c), fact_key f, clause_trust c)] st st'.
Proof.
  unfold project_clause_fact. intros (fact & _ & H)%bind_Ok. apply bind_Ok in H as (sp & _ & H).
  apply bind_Ok in H as (src & _ & H). by apply emit_edge_grows in H.
Qed.

Lemma project_clause_grows rule st c st' :
  project_clause limits input t ids rule st c = Ok st' ->
  grows [clause_node c] (clause_shapes rule c) st st'.
Proof.
  unfold project_clause. intros (src & _ & H)%bind_Ok. apply bind_Ok in H as (st1 & Hn & H).
  unfold project_clause_node in Hn. apply bind_Ok in Hn as (st0 & Hn & He).
  emitted Hn forced (is_uncertain (clause_trust c)). apply emit_edge_grows in He.
  apply bind_Ok in H as (st2 & Hsup & H). apply bind_Ok in H as (st3 & Hcon & Hspan).
  apply (edge_loop_grows _ (fun f => ("supported_by"%string, clause_key (clause_id c), fact_key f, clause_trust c))) in Hsup;
    [|intros; by eapply project_clause_fact_grows].
  apply (edge_loop_grows _ (fun f => ("contradicted_by"%string, clause_key (clause_id c), fact_key f, clause_trust c))) in Hcon;
    [|intros; by eapply project_clause_fact_grows].
  apply (edge_loop_grows _ (fun s => ("cited_at"%string, clause_key (clause_id c), span_key s, clause_trust c))) in Hspan;
    [|intros; by eapply emit_edge_grows].
  exact (grows_trans _ _ _ _ _ _ _ Hn (grows_trans _ _ _ _ _ _ _ He
    (grows_trans _ _ _ _ _ _ _ Hsup (grows_trans _ _ _ _ _ _ _ Hcon Hspan)))).
Qed.

Lemma project_rule_node_grows st rule st' :
  project_rule_node limits input t ids st rule = Ok st' ->
  grows [(rule_key (rule_id rule), rule_trust rule)]
    (map (fun d => ("classified_in"%string, rule_key (rule_id rule), domain_key d, TrustDeterministic)) (domain_ids rule)) st st'.
Proof.
  unfold project_rule_node. intros (src & _ & H)%bind_Ok. apply bind_Ok in H as (st1 & Hn & He).
  emitted Hn forced (is_uncertain (rule_trust rule)).
  apply (edge_loop_grows _ (fun d => ("classified_in"%string, rule_key (rule_id rule), domain_key d, TrustDeterministic))) in He;
    [|intros; by eapply emit_edge_grows].
  exact (grows_trans _ _ _ _ _ _ _ Hn He).
Qed.

Lemma project_rule_grows token st rule n st' n' :
  project_rule limits input t ids token st rule n = Ok (st', n') ->
  grows (rule_nodes rule) (rule_shapes rule) st st'.
Proof.
  unfold project_rule. intros (st1 & n1 & Hr & Hc)%polling_bind_Ok.
  apply (polled_grows _ _ _ _ _ _ _ _ _ (project_rule_node_grows _ _)) in Hr.
  eapply (for_each_polling_grows _ (fun c => [clause_node c]) (clause_shapes rule)) in Hc;
    [|intros x s s' k k' H; revert H; apply polled_grows; intros; by eapply project_clause_grows].
  rewrite flat_map_single in Hc. exact (grows_trans _ _ _ _ _ _ _ Hr Hc).
Qed.

Lemma project_relation_grows st r st' :
  project_relation limits input t ids st r = Ok st' -> grows [] (relation_shapes r) st st'.
Proof.
  unfold project_relation. intros (source & _ & H)%bind_Ok. by apply emit_edge_grows in H.
Qed.

(** The whole emission, in the order of the tables. *)
Definition table_nodes : list element :=
  map unit_node (map_values (units t)) ++ map span_node (map_values (spans t))
  ++ map fact_node (map_values (facts t)) ++ map domain_node (map_values (domains t))
  ++ flat_map rule_nodes (map_values (rules t)).
Definition table_shapes : list edge_shape :=
  flat_map span_shapes (map_values (spans t)) ++ flat_map (fact_shapes fact_unit) (map_values (facts t))
  ++ flat_map fact_edge_shapes (map_values (fact_edges t))
  ++ flat_map rule_shapes (map_values (rules t))
  ++ flat_map relation_shapes (map_values (rule_relations t)).

Lemma no_graph_inv : graph_inv no_graph.
Proof.
  unfold graph_inv. cbn. split_and!; try constructor; try apply N.le_0_l.
  all: by intros ?%elem_of_nil.
Qed.

Lemma polled_loop_grows {A} token (f : graph_state -> A -> outcome graph_state) ks ss l st n st' n' :
  (forall x st st', f st x = Ok st' -> grows (ks x) (ss x) st st') ->
  for_each_polling (polled token f) st l n = Ok (st', n') -> grows (flat_map ks l) (flat_map ss l) st st'.
Proof.
  intros Hf. apply for_each_polling_grows. intros x s s' k k'. apply polled_grows. eauto.
Qed.

Lemma emit_all_Ok token n st n' :
  emit_all limits input t ids token n = Ok (st, n') ->
  graph_inv st /\ map says (nodes st) = map gsays table_nodes /\ map shape (edges st) = map gshape table_shapes.
Proof.
  unfold emit_all. intros (s1 & n1 & H1 & H)%polling_bind_Ok. apply polling_bind_Ok in H as (s2 & n2 & H2 & H).
  apply polling_bind_Ok in H as (s3 & n3 & H3 & H). apply polling_bind_Ok in H as (s4 & n4 & H4 & H).
  apply polling_bind_Ok in H as (s5 & n5 & H5 & H). apply polling_bind_Ok in H as (s6 & n6 & H6 & H7).
  apply (polled_loop_grows _ _ (fun u => [unit_node u]) (fun _ => [])) in H1; [|intros; by apply project_unit_grows].
  apply (polled_loop_grows _ _ (fun s => [span_node s]) span_shapes) in H2;
    [|intros; by apply project_span_grows].
  apply (polled_loop_grows _ _ (fun f => [fact_node f]) (fact_shapes fact_unit)) in H3;
    [|intros; by apply project_fact_grows].
  apply (polled_loop_grows _ _ (fun _ => []) fact_edge_shapes) in H4; [|intros; by apply project_fact_edge_grows].
  apply (polled_loop_grows _ _ (fun d => [domain_node d]) (fun _ => [])) in H5;
    [|intros; by apply project_domain_grows].
  apply (for_each_polling_grows _ rule_nodes rule_shapes) in H6; [|intros; by eapply project_rule_grows].
  apply (polled_loop_grows _ _ (fun _ => []) relation_shapes) in H7; [|intros; by apply project_relation_grows].
  destruct (grows_trans _ _ _ _ _ _ _ H1 (grows_trans _ _ _ _ _ _ _ H2 (grows_trans _ _ _ _ _ _ _ H3
    (grows_trans _ _ _ _ _ _ _ H4 (grows_trans _ _ _ _ _ _ _ H5 (grows_trans _ _ _ _ _ _ _ H6 H7)))))
    no_graph_inv) as (Hinv & Hn & He).
  split; [done|]. rewrite !flat_map_single, !flat_map_nil in Hn. rewrite !flat_map_nil in He.
  cbn [no_graph nodes edges map app] in Hn, He. rewrite !app_nil_r in Hn. done.
Qed.
End Items.

(** * Tables of the input *)

Lemma unique_by_Ok {T} (l : list T) id label m :
  unique_by l id label = Ok m -> keyed id m /\ map_values m ≡ₚ l.
Proof.
  apply (for_each_inv (fun pre m => keyed id m /\ map_values m ≡ₚ pre)).
  - split; [|done]. split; [apply SSorted_nil|constructor].
  - intros pre x suf m1 m2 _ [Hk Hv] H. apply if_Err_Ok in H as [[_ Hnew]%orb_false_iff [= <-]].
    assert (map_get (id x) m1 = None) as Hnone by (by destruct (map_get (id x) m1)).
    split; [by apply keyed_insert|]. unfold map_values in *.
    rewrite (map_insert_perm _ _ _ Hnone). cbn. rewrite Hv. apply Permutation_cons_append.
Qed.
Lemma unique_by_perm {T} (l k : list T) id label m1 m2 :
  l ≡ₚ k -> unique_by l id label = Ok m1 -> unique_by k id label = Ok m2 -> m1 = m2.
Proof.
  intros Hlk [Hk1 Hv1]%unique_by_Ok [Hk2 Hv2]%unique_by_Ok.
  apply (keyed_ext id); [done..|]. by rewrite Hv1, Hv2.
Qed.
Lemma keyed_values_get {T} (id : T -> string) m x :
  keyed id m -> x ∈ map_values m -> map_get (id x) m = Some x.
Proof.
  intros [Hwf Hk] ([k v] & -> & Hin)%list_elem_of_fmap. apply map_get_Some; [done|].
  rewrite Forall_forall in Hk. specialize (Hk _ Hin). cbn in *. by subst k.
Qed.

Definition tables_ok (input : ArchaeologyGraphInput) (t : graph_tables) : Prop :=
  (keyed unit_id (units t) /\ map_values (units t) ≡ₚ in_source_units input) /\
  (keyed span_id (spans t) /\ map_values (spans t) ≡ₚ in_spans input) /\
  (keyed fact_id (facts t) /\ map_values (facts t) ≡ₚ in_facts input) /\
  (keyed origin_fact_id (origins t) /\ map_values (origins t) ≡ₚ in_fact_origins input) /\
  (keyed fact_edge_id (fact_edges t) /\ map_values (fact_edges t) ≡ₚ in_fact_edges input) /\
  (keyed rule_id (rules t) /\ map_values (rules t) ≡ₚ in_rules input) /\
  (keyed domain_id (domains t) /\ map_values (domains t) ≡ₚ in_domains input) /\
  (keyed relation_id (rule_relations t) /\ map_values (rule_relations t) ≡ₚ in_rule_relations input).

Lemma build_tables_Ok input t : build_tables input = Ok t -> tables_ok input t.
Proof.
  unfold build_tables. intros H.
  do 8 (apply bind_Ok in H as (? & ?%unique_by_Ok & H)). injection H as <-. unfold tables_ok. cbn. auto 10.
Qed.

(** ** Identities of the nodes *)

Lemma foldl_preserves {A B} (P : A -> Prop) (f : A -> B -> A) l a :
  (forall a b, P a -> P (f a b)) -> P a -> P (foldl f a l).
Proof. intros Hf. revert a; induction l as [|b l IH]; cbn; auto. Qed.

Lemma build_node_ids_gid input t key id :
  map_get key (build_node_ids input t) = Some id -> id = gid input key.
Proof.
  enough (map_wf (build_node_ids input t) /\
    forall key id, map_get key (build_node_ids input t) = Some id -> id = gid input key) as [_ H] by apply H.
  set (P := fun ids : node_id_map => map_wf ids /\
    forall key id, map_get key ids = Some id -> id = gid input key).
  assert (forall kind ids id, P ids ->
    P (map_insert (kind, id) (graph_id (in_repository_id input) (in_generation_id input) kind id) ids)) as Hadd.
  { intros kind ids x [Hwf Hget]. split; [by apply map_insert_wf|]. intros k v.
    destruct (decide (k = (kind, x))) as [->|Hne].
    - rewrite map_get_insert_eq by done. intros [= <-]. done.
    - rewrite map_get_insert_ne by done. apply Hget. }
  change (P (build_node_ids input t)). unfold build_node_ids.
  apply foldl_preserves; [intros; apply foldl_preserves; auto|].
  do 5 (apply foldl_preserves; [auto|]). split; [apply SSorted_nil|done].
Qed.

(** * The fragment *)

Lemma foldl_weakest best l :
  trust_rank best <= trust_rank (foldl (fun best trust => if trust_rank best <=? trust_rank trust then trust else best) best l) /\
  Forall (fun x => trust_rank x <= trust_rank (foldl (fun best trust => if trust_rank best <=? trust_rank trust then trust else best) best l)) l /\
  (foldl (fun best trust => if trust_rank best <=? trust_rank trust then trust else best) best l) ∈ best :: l.
Proof.
  revert best; induction l as [|x l IH]; intros best; cbn [foldl]; [split_and!; [done|constructor|left]|].
  destruct (IH (if trust_rank best <=? trust_rank x then x else best)) as (H1 & H2 & H3).
  destruct (N.leb_spec (trust_rank best) (trust_rank x)).
  - split_and!; [lia|by constructor|by right].
  - split_and!; [done|constructor; [lia|done]|]. apply elem_of_cons in H3 as [->|]; [left|by do 2 right].
Qed.
Lemma weakest_bound l x : x ∈ l -> trust_rank x <= trust_rank (weakest_graph_trust l).
Proof.
  destruct l as [|v l]; [by intros ?%elem_of_nil|]. cbn [weakest_graph_trust].
  destruct (foldl_weakest v l) as (H1 & H2 & _). rewrite Forall_forall in H2.
  intros [->|Hx]%elem_of_cons; auto.
Qed.
Lemma weakest_elem v l : weakest_graph_trust (v :: l) ∈ v :: l.
Proof. apply foldl_weakest. Qed.

Lemma endpoint_limitation_safe : safe_public_text ENDPOINT_LIMITATION = true.
Proof. vm_compute. reflexivity. Qed.

(** What limiting does to an edge. *)
Lemma limit_edge_Ok nodes e e' revision :
  limit_edge (node_trusts nodes) e = Ok e' ->
  Forall (fun n => exists origin, may_show origin (node_trust (node_graph n))) nodes ->
  provenance_ok revision (edge_archaeology e) (edge_origin (edge_graph e)) (edge_trust (edge_graph e)) ->
  shape e' = shape e /\ eid e' = eid e /\
  provenance_ok revision (edge_archaeology e') (edge_origin (edge_graph e')) (edge_trust (edge_graph e')) /\
  (exists n, n ∈ nodes /\ nid n = from (edge_graph e') /\
     weaker (edge_trust (edge_graph e')) (node_trust (node_graph n))) /\
  (exists n, n ∈ nodes /\ nid n = to (edge_graph e') /\
     weaker (edge_trust (edge_graph e')) (node_trust (node_graph n))).
Proof.
  unfold limit_edge. intros H Hnl Hp. apply bind_Ok in H as (tf & Hf & H). apply bind_Ok in H as (tt' & Ht & [= <-]).
  apply ok_or_Ok, map_of_list_elem, list_elem_of_fmap in Hf as (nf & [= Hfid Hft] & Hnf).
  apply ok_or_Ok, map_of_list_elem, list_elem_of_fmap in Ht as (nt & [= Htid Htt] & Hnt).
  rewrite Forall_forall in Hnl. set (w := weakest_graph_trust [edge_trust (edge_graph e); tf; tt']).
  assert (forall x, x ∈ [edge_trust (edge_graph e); tf; tt'] -> trust_rank x <= trust_rank w) as Hw
    by apply weakest_bound.
  assert (w <> Legacy) as Hlegacy.
  { assert (w ∈ [edge_trust (edge_graph e); tf; tt']) as Hin by apply weakest_elem.
    apply elem_of_cons in Hin as [->|[->| ->%list_elem_of_singleton]%elem_of_cons].
    - eapply may_show_known, Hp.
    - rewrite Hft. destruct (Hnl _ Hnf) as [o Ho]. by eapply may_show_known.
    - rewrite Htt. destruct (Hnl _ Hnt) as [o Ho]. by eapply may_show_known. }
  split; [done|]. split; [done|].
  destruct Hp as (H1 & H2 & H3 & H4 & H5 & H6 & H7 & H8 & H9).
  cbn [edge_graph edge_archaeology edge_trust edge_origin from to]. split; [|split].
  - unfold provenance_ok. cbn. do 5 (split; [done|]). split; [|split; [|split; [done|]]].
    + case_match; [apply sort_dedup_sorted|done].
    + case_match; [|done]. rewrite Forall_forall in *. intros x Hx. rewrite elem_of_sort_dedup in Hx.
      apply elem_of_app in Hx as [Hx| ->%list_elem_of_singleton]; [auto|apply endpoint_limitation_safe].
    + eapply may_show_weaker; [exact H9|]. apply rank_weaker; [done|]. apply Hw. left.
  - exists nf. split; [done|]. split; [done|]. apply rank_weaker; [done|]. rewrite <- Hft. apply Hw. right. left.
  - exists nt. split; [done|]. split; [done|]. apply rank_weaker; [done|]. rewrite <- Htt. apply Hw. do 2 right. left.
Qed.

Section Fragments.
Context (json_chunks : ArchaeologyGraphInput -> list N).
Context (json_length : ArchaeologyTrustedGraphFragment -> option N).
Notation project := (project_archaeology_graph_fragment json_chunks json_length).

(** The stages of a projection that returned a fragment. *)
Lemma project_Ok input limits token n fragment n' :
  project input limits token n = Ok (fragment, n') ->
  exists t st k k', build_tables input = Ok t /\ validate_references limits input t = Ok tt /\
    emit_all limits input t (build_node_ids input t) token k = Ok (st, k') /\ k = S n /\
    build_fragment input st = Ok fragment /\ validate_output_bounds fragment limits = Ok tt.
Proof.
  unfold project_archaeology_graph_fragment.
  intros (u1 & n1 & H1 & H)%polling_bind_Ok. apply poll_Ok in H1 as [_ [= -> ->]].
  apply polling_bind_Ok in H as (u2 & n2 & H2 & H). apply lift_Ok in H2 as (? & _ & [= -> ->]).
  apply polling_bind_Ok in H as (t & n3 & H3 & H). apply lift_Ok in H3 as (t' & Ht & [= -> ->]).
  apply polling_bind_Ok in H as (u4 & n4 & H4 & H). apply lift_Ok in H4 as ([] & Hr & [= -> ->]).
  apply polling_bind_Ok in H as (st & n5 & H5 & H).
  apply polling_bind_Ok in H as (f & n6 & H6 & H). apply lift_Ok in H6 as (f' & Hf & [= -> ->]).
  apply polling_bind_Ok in H as (u7 & n7 & _ & H).
  apply polling_bind_Ok in H as (u8 & n8 & H8 & H). apply lift_Ok in H8 as ([] & Hb & _).
  apply polling_bind_Ok in H as (u9 & n9 & _ & H). apply polling_bind_Ok in H as (u10 & n10 & _ & H).
  apply polling_bind_Ok in H as (u11 & n11 & _ & [= <- _]).
  exists t', st, (S n), n5. auto 10.
Qed.

Lemma build_fragment_Ok input st fragment :
  build_fragment input st = Ok fragment ->
  fragment_nodes fragment = sort_by by_node_id (nodes st) /\
  exists es, Forall2 (fun e e' => limit_edge (node_trusts (nodes st)) e = Ok e') (edges st) es /\
    fragment_edges fragment = sort_by by_edge_id es.
Proof.
  unfold build_fragment. intros (es & Hes%collect_Ok & [= <-])%bind_Ok. cbn. eauto.
Qed.

(** The facts about a fragment that the theorems select from. *)
Lemma fragment_Ok input limits token n fragment n' :
  project input limits token n = Ok (fragment, n') ->
  exists t st es, tables_ok input t /\ validate_references limits input t = Ok tt /\
    graph_inv limits input st /\
    map says (nodes st) = map (gsays input) (table_nodes t) /\
    map shape (edges st) = map (gshape input) (table_shapes t) /\
    Forall2 (fun e e' => limit_edge (node_trusts (nodes st)) e = Ok e') (edges st) es /\
    fragment_nodes fragment = sort_by by_node_id (nodes st) /\
    fragment_edges fragment = sort_by by_edge_id es /\
    validate_output_bounds fragment limits = Ok tt.
Proof.
  intros (t & st & k & k' & Ht & Hr & He & _ & Hf & Hb)%project_Ok.
  apply (emit_all_Ok _ _ _ _ (build_node_ids_gid input t)) in He as (Hinv & Hn & Hs).
  apply build_fragment_Ok in Hf as (Hfn & es & Hes & Hfe).
  exists t, st, es. auto 10 using build_tables_Ok.
Qed.

Lemma limited_edges input limits st es :
  graph_inv limits input st ->
  Forall2 (fun e e' => limit_edge (node_trusts (nodes st)) e = Ok e') (edges st) es ->
  map shape es = map shape (edges st) /\ map eid es = map eid (edges st) /\
  Forall (fun e' => edge_ok input e' /\
    (exists n, n ∈ nodes st /\ nid n = from (edge_graph e') /\
       weaker (edge_trust (edge_graph e')) (node_trust (node_graph n))) /\
    (exists n, n ∈ nodes st /\ nid n = to (edge_graph e') /\
       weaker (edge_trust (edge_graph e')) (node_trust (node_graph n)))) es.
Proof.
  intros (Hns & Hes & _). assert (Forall (fun n => exists origin, may_show origin (node_trust (node_graph n))) (nodes st)) as Hnl.
  { eapply Forall_impl; [exact Hns|]. intros x Hx. eexists. apply Hx. }
  revert Hes. generalize (edges st) as l. intros l Hes H. induction H as [|e e' l k He _ IH]; [done|].
  apply Forall_cons in Hes as [Hok Hes]. destruct (IH Hes) as (IH1 & IH2 & IH3).
  destruct (limit_edge_Ok _ _ _ _ He Hnl Hok) as (Hsh & Hid & Hp & Hf & Ht).
  cbn. rewrite Hsh, Hid, IH1, IH2. split; [done|]. split; [done|]. constructor; [|done]. done.
Qed.
End Fragments.

(** ** Properties *)

(** What the graph says of the elements of the input: one node per element, one
    edge per reference, each with where it comes from. *)
Definition origin_unit (origins : list ArchaeologyFactOrigin) (f : ArchaeologyFact) : string :=
  match List.find (fun o => seqb (origin_fact_id o) (fact_id f)) origins with
  | Some o => origin_source_unit_id o
  | None => ""%string
  end.
Definition input_nodes (input : ArchaeologyGraphInput) : list ((string * string) * ArchaeologyTrust) :=
  map unit_node (in_source_units input) ++ map span_node (in_spans input) ++ map fact_node (in_facts input)
  ++ map domain_node (in_domains input) ++ flat_map rule_nodes (in_rules input).
Definition input_shapes (input : ArchaeologyGraphInput) :
    list (string * (string * string) * (string * string) * ArchaeologyTrust) :=
  flat_map span_shapes (in_spans input)
  ++ flat_map (fact_shapes (origin_unit (in_fact_origins input))) (in_facts input)
  ++ flat_map fact_edge_shapes (in_fact_edges input)
  ++ flat_map rule_shapes (in_rules input)
  ++ flat_map relation_shapes (in_rule_relations input).
Lemma fact_unit_origin input t f :
  tables_ok input t -> fact_unit t f = origin_unit (in_fact_origins input) f.
Proof.
  intros (_ & _ & _ & [Hk Hv] & _). unfold fact_unit, origin_unit.
  destruct (List.find _ (in_fact_origins input)) as [o|] eqn:E.
  - apply find_some in E as [Hin Hid%seqb_true]. rewrite <- Hid.
    rewrite <- list_elem_of_In, <- Hv in Hin. by rewrite (keyed_values_get _ _ _ Hk Hin).
  - destruct (map_get (fact_id f) (origins t)) as [o|] eqn:Eo; [|done]. exfalso.
    pose proof (keyed_get _ _ _ _ Hk Eo) as Hid.
    assert (o ∈ map_values (origins t)) as Hin.
    { apply map_get_Some in Eo; [|apply Hk]. apply list_elem_of_fmap. by exists (fact_id f, o). }
    rewrite Hv, list_elem_of_In in Hin. apply (find_none _ _ E) in Hin.
    apply seqb_false in Hin. by rewrite Hid in Hin.
Qed.
Lemma table_nodes_input input t : tables_ok input t -> table_nodes t ≡ₚ input_nodes input.
Proof.
  intros ((_ & Hu) & (_ & Hs) & (_ & Hf) & _ & _ & (_ & Hr) & (_ & Hd) & _).
  unfold table_nodes, input_nodes. by rewrite Hu, Hs, Hf, Hd, Hr.
Qed.
Lemma table_shapes_input input t : tables_ok input t -> table_shapes t ≡ₚ input_shapes input.
Proof.
  intros Ht. pose proof Ht as ((_ & Hu) & (_ & Hs) & (_ & Hf) & _ & (_ & He) & (_ & Hr) & (_ & Hd) & (_ & Hl)).
  unfold table_shapes, input_shapes. rewrite Hs, Hf, He, Hr, Hl. f_equiv. f_equiv.
  rewrite (flat_map_ext _ (fact_shapes (origin_unit (in_fact_origins input)))); [done|].
  intros f. unfold fact_shapes. by rewrite (fact_unit_origin input t f Ht).
Qed.




(** The input of the example, projected. *)
Lemma ex_projected :
  is_Ok (project_archaeology_graph_fragment ex_chunks ex_length ex_input default_graph_limits never_cancelled 0%nat).
Proof. eexists. vm_compute. reflexivity. Qed.


(** A fragment is within its bounds and canonical: nodes and edges are
    counted and sorted by identity, no two edges share one, and every item's
    evidence and source anchors are within the limits. *)
Theorem fragment_bounded (json_chunks : ArchaeologyGraphInput -> list N)
    (json_length : ArchaeologyTrustedGraphFragment -> option N) (input : ArchaeologyGraphInput)
    (limits : ArchaeologyGraphLimits) (token : StructuralGraphCancellation) (n n' : nat)
    (fragment : ArchaeologyTrustedGraphFragment)
    (H : project_archaeology_graph_fragment json_chunks json_length input limits token n
         = Ok (fragment, n')) :
  len (fragment_nodes fragment) <= max_nodes limits /\
  len (fragment_edges fragment) <= max_edges limits /\
  StronglySorted lt (map eid (fragment_edges fragment)) /\
  StronglySorted (fun x y => cmp (nid x) (nid y) <> Gt) (fragment_nodes fragment) /\
  Forall (fun x => within_bounds limits (node_archaeology x) (node_sources (node_graph x)) = true)
    (fragment_nodes fragment) /\
  Forall (fun e => within_bounds limits (edge_archaeology e) (edge_sources (edge_graph e)) = true)
    (fragment_edges fragment).
Proof.
  apply fragment_Ok in H as (t & st & es & _ & _ & Hinv & _ & _ & Hes & Hfn & Hfe & Hb).
  pose proof (limited_edges _ _ _ _ Hinv Hes) as (_ & Hids & _).
  destruct Hinv as (_ & _ & Hmn & Hme & Hnd & _).
  unfold validate_output_bounds in Hb. apply if_Err_Ok in Hb as [[Hb1 Hb2]%orb_false_iff _].
  apply not_any_Forall in Hb1, Hb2. split_and!; [| | | |done|done].
  - rewrite Hfn. unfold len in *. by rewrite sort_by_length.
  - rewrite Hfe. unfold len in *. rewrite sort_by_length, <- (Forall2_length _ _ _ Hes). done.
  - rewrite Hfe. apply (sort_by_key_NoDup eid). by rewrite Hids.
  - rewrite Hfn. apply (sort_by_key_sorted nid).
Qed.

Lemma fragment_bounded_witness :
  exists fragment n',
    project_archaeology_graph_fragment ex_chunks ex_length ex_input default_graph_limits never_cancelled 0%nat
      = Ok (fragment, n') /\
    len (fragment_nodes fragment) <= 500.
Proof.
  destruct ex_projected as [[fragment n'] E]. exists fragment, n'. split; [exact E|].
  exact (proj1 (fragment_bounded ex_chunks ex_length ex_input default_graph_limits never_cancelled 0%nat n' fragment E)).
Defined.

(** ** Nothing is dropped *)

(** A projection drops and invents nothing. The nodes of a fragment
    are exactly one per source unit, span, fact, domain, rule and clause of the
    input, under that element's identity; the edges are exactly one per
    reference: a span in its unit, a fact in its unit and at each of its spans,
    each fact edge, each rule's domains, clauses and relations, each clause's
    facts and spans; and the fragment is not marked truncated. *)
Theorem fragment_complete (json_chunks : ArchaeologyGraphInput -> list N)
    (json_length : ArchaeologyTrustedGraphFragment -> option N) (input : ArchaeologyGraphInput)
    (limits : ArchaeologyGraphLimits) (token : StructuralGraphCancellation) (n n' : nat)
    (fragment : ArchaeologyTrustedGraphFragment)
    (H : project_archaeology_graph_fragment json_chunks json_length input limits token n
         = Ok (fragment, n')) :
  map says (fragment_nodes fragment) ≡ₚ map (gsays input) (input_nodes input) /\
  map shape (fragment_edges fragment) ≡ₚ map (gshape input) (input_shapes input) /\
  truncated fragment = false.
Proof.
  assert (truncated fragment = false) as Htr.
  { apply project_Ok in H as (t & st & k & k' & _ & _ & _ & _ & Hf & _). unfold build_fragment in Hf.
    by apply bind_Ok in Hf as (es & _ & [= <-]). }
  apply fragment_Ok in H as (t & st & es & Ht & _ & Hinv & Hn & Hs & Hes & Hfn & Hfe & _).
  pose proof (limited_edges _ _ _ _ Hinv Hes) as (Hshape & _ & _).
  split; [|split; [|done]].
  - rewrite Hfn, sort_by_perm, Hn. by rewrite (table_nodes_input _ _ Ht).
  - rewrite Hfe, sort_by_perm, Hshape, Hs. by rewrite (table_shapes_input _ _ Ht).
Qed.

Lemma fragment_complete_witness :
  exists fragment n',
    project_archaeology_graph_fragment ex_chunks ex_length ex_input default_graph_limits never_cancelled 0%nat
      = Ok (fragment, n') /\
    map says (fragment_nodes fragment) ≡ₚ map (gsays ex_input) (input_nodes ex_input).
Proof.
  destruct ex_projected as [[fragment n'] E]. exists fragment, n'. split; [exact E|].
  exact (proj1 (fragment_complete ex_chunks ex_length ex_input default_graph_limits never_cancelled 0%nat n'
    fragment E)).
Defined.

(** ** The order of the input *)

(** The same input, its lists in another order. *)
Definition same_input (i1 i2 : ArchaeologyGraphInput) : Prop :=
  in_repository_id i1 = in_repository_id i2 /\ in_generation_id i1 = in_generation_id i2 /\
  in_revision_sha i1 = in_revision_sha i2 /\ in_coverage i1 = in_coverage i2 /\
  in_source_units i1 ≡ₚ in_source_units i2 /\ in_spans i1 ≡ₚ in_spans i2 /\
  in_facts i1 ≡ₚ in_facts i2 /\ in_fact_origins i1 ≡ₚ in_fact_origins i2 /\
  in_fact_edges i1 ≡ₚ in_fact_edges i2 /\ in_rules i1 ≡ₚ in_rules i2 /\
  in_domains i1 ≡ₚ in_domains i2 /\ in_rule_relations i1 ≡ₚ in_rule_relations i2.

Lemma build_tables_perm i1 i2 t1 t2 :
  same_input i1 i2 -> build_tables i1 = Ok t1 -> build_tables i2 = Ok t2 -> t1 = t2.
Proof.
  unfold build_tables. intros (_ & _ & _ & _ & H1 & H2 & H3 & H4 & H5 & H6 & H7 & H8) Ha Hb.
  do 8 (apply bind_Ok in Ha as (? & ? & Ha)). do 8 (apply bind_Ok in Hb as (? & ? & Hb)).
  injection Ha as <-. injection Hb as <-. f_equal; by eapply unique_by_perm.
Qed.

(** The loops read the input's scalars only. *)
Lemma emit_all_scalars limits i1 i2 t token n :
  same_input i1 i2 ->
  emit_all limits i1 t (build_node_ids i1 t) token n = emit_all limits i2 t (build_node_ids i2 t) token n.
Proof.
  intros (Hr & Hg & Hs & Hc & _). destruct i1, i2. cbn in Hr, Hg, Hs, Hc. subst. reflexivity.
Qed.
Lemma build_fragment_scalars i1 i2 st : same_input i1 i2 -> build_fragment i1 st = build_fragment i2 st.
Proof. intros (Hr & Hg & Hs & Hc & _). unfold build_fragment. by rewrite Hr, Hg, Hs, Hc. Qed.

(** The order in which units, spans, facts, rules, domains and
    relations are supplied does not matter: two fragments that are returned for
    the same input in different orders are the same. *)
Theorem fragment_order_independent (json_chunks1 json_chunks2 : ArchaeologyGraphInput -> list N)
    (json_length : ArchaeologyTrustedGraphFragment -> option N) (i1 i2 : ArchaeologyGraphInput)
    (limits : ArchaeologyGraphLimits) (token : StructuralGraphCancellation) (n n1 n2 : nat)
    (f1 f2 : ArchaeologyTrustedGraphFragment) (Hsame : same_input i1 i2)
    (H1 : project_archaeology_graph_fragment json_chunks1 json_length i1 limits token n = Ok (f1, n1))
    (H2 : project_archaeology_graph_fragment json_chunks2 json_length i2 limits token n = Ok (f2, n2)) :
  f1 = f2.
Proof.
  apply project_Ok in H1 as (t1 & st1 & k1 & k1' & Ht1 & _ & He1 & -> & Hf1 & _).
  apply project_Ok in H2 as (t2 & st2 & k2 & k2' & Ht2 & _ & He2 & -> & Hf2 & _).
  rewrite (build_tables_perm _ _ _ _ Hsame Ht1 Ht2), (emit_all_scalars _ _ _ _ _ _ Hsame) in He1.
  rewrite He1 in He2. injection He2 as -> ->.
  rewrite (build_fragment_scalars _ _ _ Hsame) in Hf1. congruence.
Qed.

Definition ex_input_reversed : ArchaeologyGraphInput := {|
  in_repository_id := in_repository_id ex_input; in_generation_id := in_generation_id ex_input;
  in_revision_sha := in_revision_sha ex_input; in_coverage := in_coverage ex_input;
  in_source_units := reverse (in_source_units ex_input); in_spans := reverse (in_spans ex_input);
  in_facts := reverse (in_facts ex_input); in_fact_origins := reverse (in_fact_origins ex_input);
  in_fact_edges := reverse (in_fact_edges ex_input); in_rules := reverse (in_rules ex_input);
  in_domains := reverse (in_domains ex_input); in_rule_relations := reverse (in_rule_relations ex_input) |}.
Lemma ex_reversed_same : same_input ex_input ex_input_reversed.
Proof. unfold same_input. do 4 (split; [reflexivity|]). split_and!; symmetry; apply reverse_Permutation. Qed.
Lemma ex_reversed_projected :
  is_Ok (project_archaeology_graph_fragment ex_chunks ex_length ex_input_reversed default_graph_limits
           never_cancelled 0%nat).
Proof. eexists. vm_compute. reflexivity. Qed.
Lemma fragment_order_independent_witness :
  exists f1 f2 n1 n2,
    project_archaeology_graph_fragment ex_chunks ex_length ex_input default_graph_limits never_cancelled 0%nat
      = Ok (f1, n1) /\
    project_archaeology_graph_fragment ex_chunks ex_length ex_input_reversed default_graph_limits
      never_cancelled 0%nat = Ok (f2, n2) /\ f1 = f2.
Proof.
  destruct ex_projected as [[f1 n1] E1]. destruct ex_reversed_projected as [[f2 n2] E2].
  exists f1, f2, n1, n2. split; [exact E1|]. split; [exact E2|].
  exact (fragment_order_independent ex_chunks ex_chunks ex_length ex_input ex_input_reversed
    default_graph_limits never_cancelled 0%nat n1 n2 f1 f2 ex_reversed_same E1 E2).
Defined.

(** * What validation establishes *)

Section References.
Context (limits : ArchaeologyGraphLimits) (input : ArchaeologyGraphInput) (t : graph_tables).

Definition clause_refs (c : ArchaeologyRuleClause) : Prop :=
  (forall id, id ∈ supporting_fact_ids c ++ contradicting_fact_ids c -> is_Some (map_get id (facts t))) /\
  (forall id, id ∈ evidence_span_ids c -> is_Some (map_get id (spans t))).

Lemma not_any_key {V} (m : BTreeMap string V) l :
  any (fun id => negb (map_contains_key id m)) l = false -> forall id, id ∈ l -> is_Some (map_get id m).
Proof.
  rewrite any_false. intros H id Hid. specialize (H id Hid). apply negb_false_iff in H.
  by apply is_some_true in H.
Qed.

Lemma validate_clause_Ok s c s' : validate_clause limits t s c = Ok s' -> clause_refs c.
Proof.
  unfold validate_clause. intros (bad & Hb & H)%bind_Ok. apply if_Err_Ok in H as [-> _].
  destruct (_ || _) eqn:E; [done|]. rewrite !orb_false_iff in E.
  destruct E as (((((_ & _) & _) & Hf) & Hs) & _). by split; apply not_any_key.
Qed.

Lemma fact_uncited_returns c id : is_Some (map_get id (facts t)) -> returns (fact_uncited t c id).
Proof.
  intros [f Hf]. unfold fact_uncited. apply returns_bind; [|done].
  apply any_outcome_returns. intros s _. by rewrite Hf.
Qed.
Lemma validate_clause_returns s c : returns (validate_clause limits t s c).
Proof.
  unfold validate_clause. apply returns_bind; [|intros [] _; done].
  destruct (_ || _) eqn:E; [done|]. rewrite !orb_false_iff in E.
  destruct E as (((((_ & _) & _) & Hf) & Hs) & _). apply any_outcome_returns.
  intros id Hid. apply fact_uncited_returns. by eapply not_any_key.
Qed.

Definition rules_checked (pre : list ArchaeologyRulePacket) (st : BTreeSet string * BTreeSet relation_key)
    : Prop :=
  StronglySorted lt (snd st) /\
  (forall k, k ∈ snd st <-> exists r, r ∈ pre /\ k ∈ rule_relations_of r) /\
  (forall r, r ∈ pre -> Forall clause_refs (clauses r)).

Lemma foldl_insert_sorted (l : list relation_key) s :
  StronglySorted lt s -> StronglySorted lt (foldl (fun s k => set_insert k s) s l).
Proof. apply (foldl_preserves (StronglySorted lt)). intros. by apply set_insert_sorted. Qed.
Lemma elem_of_foldl_insert (l : list relation_key) s k :
  k ∈ foldl (fun s k => set_insert k s) s l <-> k ∈ l \/ k ∈ s.
Proof.
  revert s; induction l as [|x l IH]; intros s; cbn; [rewrite elem_of_nil; tauto|].
  rewrite IH, elem_of_set_insert, elem_of_cons. tauto.
Qed.

Lemma validate_rules_Ok l st :
  for_each (validate_rule limits input t) ([], []) l = Ok st -> rules_checked l st.
Proof.
  apply (for_each_inv rules_checked).
  - split; [apply SSorted_nil|]. split; [|by intros r ?%elem_of_nil].
    intros k. cbn. rewrite elem_of_nil. split; [done|]. by intros (r & ?%elem_of_nil & _).
  - intros pre r suf [c1 e1] st' _ (Hs & Hk & Hc) H. unfold validate_rule in H.
    rewrite !then_Ok, if_Err_Ok, bind_Ok in H. destruct H as (_ & _ & _ & cs & Hcs & [= <-]). unfold rules_checked. cbn [snd] in *.
    split; [by apply foldl_insert_sorted|]. split.
    + intros k. rewrite elem_of_foldl_insert, Hk. setoid_rewrite elem_of_app.
      setoid_rewrite list_elem_of_singleton. naive_solver.
    + intros r' [Hr'| ->%list_elem_of_singleton]%elem_of_app; [auto|].
      apply (for_each_inv (fun pre _ => Forall clause_refs pre)) in Hcs; [done|constructor|].
      intros pre' c suf' s1 s2 _ Hpre Hc'. apply Forall_app. split; [done|].
      constructor; [by eapply validate_clause_Ok|constructor].
Qed.
Lemma validate_rules_returns l st : returns (for_each (validate_rule limits input t) st l).
Proof.
  apply (for_each_returns (fun _ => True)); [done| |done]. intros r [cs ex] _ _.
  unfold validate_rule. apply returns_bind; [|intros _ _].
  { apply returns_if; [done|]. intros _. apply returns_bind; [by apply returns_if|]. intros _ _.
    apply returns_if; [done|]. intros _. apply for_all_returns. intros c _.
    unfold ArchaeologyRuleClause_validate. repeat (apply returns_if; intros _); done. }
  apply returns_bind; [by apply returns_if|]. intros _ _. apply returns_if; [done|]. intros _.
  apply returns_bind; [|done]. apply (for_each_returns (fun _ => True)); [done| |done].
  intros c s _ _. apply validate_clause_returns.
Qed.

(** The keys of the relations seen. *)
Definition relation_key_of (r : ArchaeologyGraphRuleRelation) : relation_key :=
  (from_rule_id r, (to_rule_id r, relation_kind r)).
Definition relations_checked (pre : list ArchaeologyGraphRuleRelation) (s : BTreeSet relation_key) : Prop :=
  (forall k, k ∈ s <-> k ∈ map relation_key_of pre) /\ NoDup (map relation_key_of pre) /\
  forall r, r ∈ pre -> is_Some (map_get (from_rule_id r) (rules t)).

Lemma validate_relations_Ok l s :
  for_each (validate_relation limits t) [] l = Ok s -> relations_checked l s.
Proof.
  apply (for_each_inv relations_checked).
  - split; [done|]. split; [constructor|by intros r ?%elem_of_nil].
  - intros pre r suf s1 s2 _ (Hk & Hnd & Hf) H. unfold validate_relation in H.
    apply if_Err_Ok in H as [E [= <-]]. rewrite !orb_false_iff in E.
    destruct E as ((((((((Hfrom & _) & _) & _) & _) & _) & _) & _) & Hnew%set_contains_false).
    rewrite Hk in Hnew. fold (relation_key_of r) in *. unfold relations_checked. rewrite map_app. cbn [map].
    split; [|split].
    + intros k. rewrite elem_of_set_insert, Hk, elem_of_app, list_elem_of_singleton. tauto.
    + apply NoDup_app. split; [done|]. split; [|apply NoDup_singleton].
      intros k Hin ->%list_elem_of_singleton. done.
    + intros r' [?| ->%list_elem_of_singleton]%elem_of_app; [auto|].
      apply negb_false_iff in Hfrom. by apply is_some_true.
Qed.

(** The references the projection follows. *)
Definition refs_ok : Prop :=
  (forall f, f ∈ map_values (facts t) -> is_Some (map_get (fact_id f) (origins t)) /\
     forall id, id ∈ fact_span_ids f -> is_Some (map_get id (spans t))) /\
  (forall r, r ∈ map_values (rules t) -> Forall clause_refs (clauses r)) /\
  (forall r, r ∈ map_values (rule_relations t) -> is_Some (map_get (from_rule_id r) (rules t))) /\
  NoDup (map relation_key_of (map_values (rule_relations t))) /\
  (forall k, is_materialized k = true ->
     (exists r, r ∈ map_values (rules t) /\ k ∈ rule_relations_of r) <->
     k ∈ map relation_key_of (map_values (rule_relations t))).

Lemma validate_fact_Ok f :
  validate_fact limits t f = Ok tt ->
  is_Some (map_get (fact_id f) (origins t)) /\
  forall id, id ∈ fact_span_ids f -> is_Some (map_get id (spans t)).
Proof.
  unfold validate_fact. destruct (map_get (fact_id f) (origins t)) as [o|]; [|done]. intros H.
  split; [eauto|]. apply if_Err_Ok in H as [E _]. rewrite !orb_false_iff in E.
  destruct E as [_ E]. rewrite any_false in E. intros id Hid. specialize (E id Hid). cbn in E.
  destruct (map_get id (spans t)); [eauto|done].
Qed.

Lemma rule_relations_materialized r k : k ∈ rule_relations_of r -> is_materialized k = true.
Proof.
  unfold rule_relations_of. rewrite !elem_of_app, !list_elem_of_fmap.
  by intros [(? & -> & _)|[(? & -> & _)|(? & -> & _)]].
Qed.

Lemma validate_references_Ok : validate_references limits input t = Ok tt -> refs_ok.
Proof.
  unfold validate_references. intros H. rewrite !then_Ok, if_Err_Ok, !then_Ok in H.
  destruct H as (_ & _ & _ & _ & Hf & _ & _ & H). apply bind_Ok in H as (st & Hr & H).
  apply bind_Ok in H as (actual & Ha & H). apply if_Err_Ok in H as [Hpar _].
  apply negb_false_iff, bool_decide_eq_true in Hpar.
  apply validate_rules_Ok in Hr as (_ & Hk & Hc). apply validate_relations_Ok in Ha as (Hrk & Hnd & Hfrom).
  apply for_all_Ok in Hf. rewrite Forall_forall in Hf. unfold refs_ok.
  split; [intros f Hin; by apply validate_fact_Ok, Hf|]. split; [done|]. split; [done|]. split; [done|].
  intros k Hm. rewrite <- Hk, Hpar, elem_of_set_of_list, list_elem_of_In, filter_In, <- list_elem_of_In, Hrk.
  tauto.
Qed.

Lemma validate_references_returns : returns (validate_references limits input t).
Proof.
  unfold validate_references. apply returns_bind; [by apply returns_if|]. intros _ _.
  apply returns_bind; [apply for_all_returns; intros; by apply returns_if|]. intros _ _.
  apply returns_bind.
  { apply for_all_returns. intros s _. apply returns_bind; [|by intros; apply returns_if].
    unfold ArchaeologySourceSpan_validate. apply returns_if; [done|]. intros _.
    apply returns_bind; [unfold validate_revision_sha; by case_match|].
    intros _ _. repeat (apply returns_if; intros _); done. }
  intros _ _. apply returns_if; [done|]. intros _.
  apply returns_bind; [apply for_all_returns; intros; unfold validate_fact; repeat case_match; done|intros _ _].
  apply returns_bind; [apply for_all_returns; intros; by apply returns_if|intros _ _].
  apply returns_bind; [apply for_all_returns; intros; by apply returns_if|intros _ _].
  apply returns_bind; [apply validate_rules_returns|]. intros st _.
  apply returns_bind; [|intros; by apply returns_if].
  apply (for_each_returns (fun _ => True)); [done| |done]. intros. by apply returns_if.
Qed.
End References.

(** * The projection never panics *)

Lemma evidence_returns revision origin ids contra coverage lifecycle confidence parser algorithm synthesis
    limitations force :
  returns (TrustedGraph.evidence revision origin ids contra coverage lifecycle confidence parser algorithm
             synthesis limitations force).
Proof. by apply returns_if. Qed.
Lemma exact_anchors_returns ids spans : returns (exact_anchors ids spans).
Proof.
  apply collect_returns. intros id _. apply returns_bind; [apply returns_ok_or|done].
Qed.
Lemma clause_fact_span_ids_returns c f : returns (clause_fact_span_ids c f).
Proof. by apply returns_if. Qed.
Lemma index_or_panic_returns {A} (o : option A) : is_Some o -> returns (index_or_panic o).
Proof. by intros [a ->]. Qed.
#[local] Hint Resolve evidence_returns exact_anchors_returns clause_fact_span_ids_returns
  index_or_panic_returns : outcomes.

Section NeverPanics.
Context (limits : ArchaeologyGraphLimits) (input : ArchaeologyGraphInput) (t : graph_tables).
Context (ids : node_id_map) (Hrefs : refs_ok t).

Lemma emit_node_returns st key graph ev :
  returns ev -> returns (emit_node limits ids st key graph ev).
Proof.
  intros Hev. apply returns_bind; [apply returns_ok_or|]. intros id _.
  apply returns_bind; [done|]. intros a _. by apply returns_if.
Qed.
Lemma emit_edge_returns st kind from to trust eids contra sources coverage limitations force :
  returns sources ->
  returns (emit_edge limits input ids st kind from to trust eids contra sources coverage limitations force).
Proof.
  intros Hs. do 2 (apply returns_bind; [apply returns_ok_or|intros ? _]).
  apply returns_bind; [done|]. intros src _. apply returns_bind.
  - apply returns_bind; [apply evidence_returns|done].
  - intros e _. repeat (apply returns_if; intros _); done.
Qed.
Lemma indexed_anchor_returns id : is_Some (map_get id (spans t)) -> returns (indexed_anchor t id).
Proof. intros H. apply returns_bind; [by apply index_or_panic_returns|done]. Qed.
#[local] Hint Resolve emit_node_returns emit_edge_returns indexed_anchor_returns : outcomes.

Lemma loop_returns {A} (f : graph_state -> A -> outcome graph_state) l st :
  (forall x st, x ∈ l -> returns (f st x)) -> returns (for_each f st l).
Proof. intros Hf. apply (for_each_returns (fun _ => True)); auto. Qed.

Lemma project_unit_returns st u : returns (project_unit limits input ids st u).
Proof. unfold project_unit. auto with outcomes. Qed.
Lemma project_span_returns st s : returns (project_span limits input t ids st s).
Proof. unfold project_span. apply returns_bind; auto with outcomes. Qed.
Lemma project_domain_returns st d : returns (project_domain limits input ids st d).
Proof. unfold project_domain. auto with outcomes. Qed.
Lemma project_fact_edge_returns st e : returns (project_fact_edge limits input t ids st e).
Proof. unfold project_fact_edge. auto with outcomes. Qed.

Lemma project_fact_returns st f :
  f ∈ map_values (facts t) -> returns (project_fact limits input t ids st f).
Proof.
  intros Hin. destruct Hrefs as (Hf & _). destruct (Hf f Hin) as [Ho Hs]. unfold project_fact.
  apply returns_bind; [auto with outcomes|]. intros o _. apply returns_bind; [auto with outcomes|].
  intros src _. apply returns_bind; [auto with outcomes|]. intros s1 _.
  apply returns_bind; [auto with outcomes|]. intros s2 _. apply loop_returns. auto with outcomes.
Qed.

Lemma project_clause_returns rule st c :
  clause_refs t c -> returns (project_clause limits input t ids rule st c).
Proof.
  intros [Hf Hs]. unfold project_clause. apply returns_bind; [auto with outcomes|]. intros src _.
  apply returns_bind; [apply returns_bind; auto with outcomes|]. intros s1 _.
  assert (forall kind contra st id, is_Some (map_get id (facts t)) ->
    returns (project_clause_fact limits input t ids rule c kind contra st id)) as Hcf.
  { intros kind contra s id Hid. unfold project_clause_fact. apply returns_bind; [auto with outcomes|].
    intros f _. apply returns_bind; [auto with outcomes|]. intros sp _.
    apply returns_bind; auto with outcomes. }
  apply returns_bind; [apply loop_returns; intros; apply Hcf, Hf, elem_of_app; by left|]. intros s2 _.
  apply returns_bind; [apply loop_returns; intros; apply Hcf, Hf, elem_of_app; by right|]. intros s3 _.
  apply loop_returns. intros id s Hid. unfold project_clause_span. auto with outcomes.
Qed.

Lemma project_rule_node_returns st rule :
  Forall (clause_refs t) (clauses rule) -> returns (project_rule_node limits input t ids st rule).
Proof.
  intros Hc. unfold project_rule_node. apply returns_bind.
  - apply collect_returns. intros id Hid. apply returns_bind; [|done]. apply index_or_panic_returns.
    rewrite list_elem_of_In, in_flat_map in Hid. destruct Hid as (c & Hin & Hid).
    apply list_elem_of_In in Hin, Hid. rewrite Forall_forall in Hc. by apply (Hc c Hin).
  - intros src _. apply returns_bind; [auto with outcomes|]. intros s _. apply loop_returns.
    auto with outcomes.
Qed.

Lemma project_relation_returns st r :
  r ∈ map_values (rule_relations t) -> returns (project_relation limits input t ids st r).
Proof.
  intros Hin. destruct Hrefs as (_ & _ & Hr & _). unfold project_relation.
  apply returns_bind; auto with outcomes.
Qed.

Lemma polling_bind_returns {A B} (m : polling A) (f : A -> polling B) n :
  returns (m n) -> (forall a k, returns (f a k)) -> returns ((m ≫= f) n).
Proof. intros Hm Hf. apply returns_bind; [done|]. by intros [a k] _. Qed.
Lemma poll_returns token message n : returns (poll token message n).
Proof. unfold poll. by case_match. Qed.
Lemma lift_returns {A} (m : outcome A) n : returns m -> returns (lift m n).
Proof. intros. by apply returns_bind. Qed.

Lemma polled_loop_returns {A} token (f : graph_state -> A -> outcome graph_state) l st n :
  (forall x st, x ∈ l -> returns (f st x)) -> returns (for_each_polling (polled token f) st l n).
Proof.
  intros Hf. apply (for_each_polling_returns (fun _ => True)); [done| |done]. intros x s k Hx _.
  apply polling_bind_returns; [apply poll_returns|]. intros _ k'. apply lift_returns. auto.
Qed.

Lemma emit_all_returns token n : returns (emit_all limits input t ids token n).
Proof.
  pose proof Hrefs as (_ & Hc & _). unfold emit_all.
  apply polling_bind_returns; [apply polled_loop_returns; intros; apply project_unit_returns|intros ? ?].
  apply polling_bind_returns; [apply polled_loop_returns; intros; apply project_span_returns|intros ? ?].
  apply polling_bind_returns; [apply polled_loop_returns; intros; by apply project_fact_returns|intros ? ?].
  apply polling_bind_returns; [apply polled_loop_returns; intros; apply project_fact_edge_returns|intros ? ?].
  apply polling_bind_returns; [apply polled_loop_returns; intros; apply project_domain_returns|intros ? ?].
  apply polling_bind_returns; [|intros; apply polled_loop_returns; intros; by apply project_relation_returns].
  apply (for_each_polling_returns (fun _ => True)); [done| |done]. intros r s kr Hr _. unfold project_rule.
  apply polling_bind_returns.
  - unfold polled. apply polling_bind_returns; [apply poll_returns|]. intros _ ?.
    apply lift_returns, project_rule_node_returns. auto.
  - intros s' ks'. apply polled_loop_returns. intros c s'' Hin. apply project_clause_returns.
    specialize (Hc r Hr). rewrite Forall_forall in Hc. auto.
Qed.
End NeverPanics.

Lemma unique_by_returns {T} (l : list T) id label : returns (unique_by l id label).
Proof. apply (for_each_returns (fun _ => True)); [done| |done]. intros. by apply returns_if. Qed.
Lemma build_tables_returns input : returns (build_tables input).
Proof. unfold build_tables. do 8 (apply returns_bind; [apply unique_by_returns|intros ? _]). done. Qed.
Lemma validate_scope_returns json_chunks input limits : returns (validate_scope json_chunks input limits).
Proof.
  unfold validate_scope. do 2 (apply returns_if; [done|]; intros _). unfold bounded_input_bytes.
  destruct (for_each _ _ _) as [w|e|e] eqn:E; [done|done|]. exfalso.
  enough (returns (for_each BoundedWriter_write {| writer_bytes := 0; writer_max_bytes := max_input_bytes limits |}
    (json_chunks input))) as H by by rewrite E in H.
  apply (for_each_returns (fun _ => True)); [done| |done]. intros x s _ _.
  apply returns_bind; [apply returns_ok_or|]. intros. by apply returns_if.
Qed.

(** Projecting never panics: validation is complete enough that every
    table the loops index ([spans\[id\]], [facts\[id\]], [origins\[id\]],
    [rules\[id\]]) holds the key they use, whatever the input. *)
Theorem projection_never_panics (json_chunks : ArchaeologyGraphInput -> list N)
    (json_length : ArchaeologyTrustedGraphFragment -> option N) (input : ArchaeologyGraphInput)
    (limits : ArchaeologyGraphLimits) (token : StructuralGraphCancellation) (n : nat) :
  returns (project_archaeology_graph_fragment json_chunks json_length input limits token n).
Proof.
  unfold project_archaeology_graph_fragment.
  apply polling_bind_returns; [apply poll_returns|intros _ n1].
  apply polling_bind_returns; [apply lift_returns, validate_scope_returns|intros _ n2].
  apply polling_bind_returns; [apply lift_returns, build_tables_returns|intros t n3].
  apply returns_bind; [apply lift_returns, validate_references_returns|]. intros [[] n4] Hr.
  apply lift_Ok in Hr as ([] & Hr & _). apply validate_references_Ok in Hr.
  apply polling_bind_returns; [by apply emit_all_returns|intros st n5].
  apply polling_bind_returns; [|intros f n6].
  { apply lift_returns, returns_bind; [|done]. apply collect_returns. intros e _. unfold limit_edge.
    do 2 (apply returns_bind; [apply returns_ok_or|intros ? _]). done. }
  apply polling_bind_returns; [apply poll_returns|intros _ n7].
  apply polling_bind_returns; [by apply lift_returns, returns_if|intros _ n8].
  apply polling_bind_returns; [apply lift_returns, returns_ok_or|intros b n9].
  apply polling_bind_returns; [by apply lift_returns, returns_if|intros _ n10].
  apply polling_bind_returns; [apply poll_returns|done].
Qed.

(** * Relations *)

(** A projected input has exactly the relations its rules name. For
    dependencies, conflicts and aliases, a rule names a target if and only if
    one relation of the input, and only one, joins the two with that kind, so
    that no relation is invented and none is missing. *)
Theorem relation_parity (json_chunks : ArchaeologyGraphInput -> list N)
    (json_length : ArchaeologyTrustedGraphFragment -> option N) (input : ArchaeologyGraphInput)
    (limits : ArchaeologyGraphLimits) (token : StructuralGraphCancellation) (n n' : nat)
    (fragment : ArchaeologyTrustedGraphFragment)
    (H : project_archaeology_graph_fragment json_chunks json_length input limits token n
         = Ok (fragment, n')) :
  let related kind from to := exists r, r ∈ in_rule_relations input /\
    from_rule_id r = from /\ to_rule_id r = to /\ relation_kind r = kind in
  let named kind (targets : ArchaeologyRulePacket -> list string) :=
    forall from to, (exists rule, rule ∈ in_rules input /\ rule_id rule = from /\ to ∈ targets rule) <->
                    related kind from to in
  named DependsOn dependency_rule_ids /\ named ConflictsWith conflict_rule_ids /\
  named Aliases alias_rule_ids /\ NoDup (map relation_key_of (in_rule_relations input)).
Proof.
  intros related named. apply fragment_Ok in H as (t & st & es & Ht & Hr & _).
  apply validate_references_Ok in Hr as (_ & _ & _ & Hnd & Hpar).
  destruct Ht as (_ & _ & _ & _ & _ & (_ & Hrules) & _ & (_ & Hrel)). rewrite Hrel in Hnd.
  setoid_rewrite Hrules in Hpar. setoid_rewrite Hrel in Hpar.
  assert (forall kind from to, (from, (to, kind)) ∈ map relation_key_of (in_rule_relations input) <->
    related kind from to) as Hrelated.
  { intros kind from to. rewrite list_elem_of_fmap. unfold related, relation_key_of. split.
    - intros (r & [= -> -> ->] & Hin). eauto 10.
    - intros (r & Hin & <- & <- & <-). eauto. }
  assert (forall kind from to (targets : ArchaeologyRulePacket -> list string),
    is_materialized (from, (to, kind)) = true ->
    (forall r, (from, (to, kind)) ∈ rule_relations_of r <-> rule_id r = from /\ to ∈ targets r) ->
    (exists rule, rule ∈ in_rules input /\ rule_id rule = from /\ to ∈ targets rule) <-> related kind from to)
    as Hnamed.
  { intros kind from to targets Hm Htargets. rewrite <- Hrelated, <- (Hpar _ Hm). by setoid_rewrite Htargets. }
  assert (forall r from to kind, (from, (to, kind)) ∈ rule_relations_of r <-> rule_id r = from /\
    ((kind = DependsOn /\ to ∈ dependency_rule_ids r) \/ (kind = ConflictsWith /\ to ∈ conflict_rule_ids r) \/
     (kind = Aliases /\ to ∈ alias_rule_ids r))) as Hof.
  { intros r from to kind. unfold rule_relations_of. rewrite !elem_of_app, !list_elem_of_fmap. naive_solver. }
  split; [|split; [|split; [|done]]]; intros from to; apply Hnamed; try done; intros r; rewrite Hof; naive_solver.
Qed.

Lemma relation_parity_witness :
  exists r, r ∈ in_rule_relations ex_input /\ from_rule_id r = "rule:1"%string /\
    to_rule_id r = "rule:2"%string /\ relation_kind r = DependsOn.
Proof.
  destruct ex_projected as [[fragment n'] E].
  destruct (relation_parity ex_chunks ex_length ex_input default_graph_limits never_cancelled 0%nat n'
    fragment E) as (Hdep & _).
  apply Hdep. eexists. split; [left|]. split; [reflexivity|]. cbn. left.
Defined.

(** * Cancellation *)

(** Cancelling a projection can only replace its result by the
    cancellation error; a fragment that is returned is the one an undisturbed
    projection returns. *)
Theorem projection_cancellable (json_chunks : ArchaeologyGraphInput -> list N)
    (json_length : ArchaeologyTrustedGraphFragment -> option N) (input : ArchaeologyGraphInput)
    (limits : ArchaeologyGraphLimits) :
  cancellable CANCELLED (project_archaeology_graph_fragment json_chunks json_length input limits).
Proof.
  assert (forall A (f : graph_state -> A -> outcome graph_state) l st,
    cancellable CANCELLED (fun token => for_each_polling (polled token f) st l)) as Hloop.
  { intros A f l st. apply (cancellable_for_each _ (fun token => polled token f)). intros s x. unfold polled.
    auto with cancel. }
  assert (forall t ids, cancellable CANCELLED (fun token => emit_all limits input t ids token)) as Hemit.
  { intros t ids. unfold emit_all. repeat (apply cancellable_bind; [apply Hloop|intros ?]).
    apply cancellable_bind; [|intros; apply Hloop].
    apply (cancellable_for_each _ (fun token => project_rule limits input t ids token)). intros s r.
    unfold project_rule. apply cancellable_bind; [unfold polled; auto with cancel|intros; apply Hloop]. }
  unfold project_archaeology_graph_fragment. apply cancellable_bind; [auto with cancel|intros _].
  apply cancellable_bind; [auto with cancel|intros _]. apply cancellable_bind; [auto with cancel|intros t].
  apply cancellable_bind; [auto with cancel|intros _]. apply cancellable_bind; [apply Hemit|intros st].
  repeat (apply cancellable_bind; [auto with cancel|intros ?]). auto with cancel.
Qed.
