(* ===== verification/JsonValue.v ===== *)
(** [serde_json::Value] as the modelled files use it: the value of a JSON text,
    with objects as maps, and the reads that answer nothing where the value has
    another shape. *)
From S2P Require Import Prelude Ordering RustText F64.
Local Open Scope N_scope.

(** [serde_json::Number]: [PosInt], [NegInt] or [Float]. *)
Inductive JsonNumber : Type := PosInt (n : N) | NegInt (z : Z) | JsonFloat (x : f64).
Inductive Value : Type :=
| ValueNull
| ValueBool (b : bool)
| ValueNumber (n : JsonNumber)
| ValueString (s : string)
| ValueArray (l : list Value)
| ValueObject (m : BTreeMap string Value).
Abbreviation JsonMap := (BTreeMap string Value) (only parsing).

(** [as_str], [as_u64], [as_array], [as_object], [get] of a key *)
Definition as_str (value : Value) : option string := match value with ValueString s => Some s | _ => None end.
Definition as_u64 (value : Value) : option N := match value with ValueNumber (PosInt n) => Some n | _ => None end.
Definition as_array (value : Value) : option (list Value) := match value with ValueArray l => Some l | _ => None end.
Definition as_object (value : Value) : option JsonMap := match value with ValueObject m => Some m | _ => None end.
Definition value_get (key : string) (value : Value) : option Value := m ← as_object value; map_get key m.
(** [value == "text"] *)
Definition is_text (text : string) (value : option Value) : bool :=
  match value with Some (ValueString s) => seqb s text | _ => false end.
(** [pointer("/a/b")], for tokens that are no indices. *)
Fixpoint pointer (tokens : list string) (value : Value) : option Value :=
  match tokens with
  | [] => Some value
  | token :: tokens => value ← value_get token value; pointer tokens value
  end.
(** [if let Some(place) = value.pointer_mut(tokens) { *place = f(place) }] *)
Fixpoint pointer_update (tokens : list string) (f : Value -> Value) (value : Value) : Value :=
  match tokens, value with
  | [], _ => f value
  | token :: tokens, ValueObject m =>
      match map_get token m with
      | Some inner => ValueObject (map_insert token (pointer_update tokens f inner) m)
      | None => value
      end
  | _ :: _, _ => value
  end.

Section ValueInduction.
Context (P : Value -> Prop) (Hnull : P ValueNull) (Hbool : forall b, P (ValueBool b)).
Context (Hnumber : forall n, P (ValueNumber n)) (Hstring : forall s, P (ValueString s)).
Context (Harray : forall l, Forall P l -> P (ValueArray l)).
Context (Hobject : forall m, Forall (fun e => P (snd e)) m -> P (ValueObject m)).
(** Induction over what arrays and objects hold. *)
Fixpoint Value_induction (value : Value) : P value :=
  match value with
  | ValueNull => Hnull
  | ValueBool b => Hbool b
  | ValueNumber n => Hnumber n
  | ValueString s => Hstring s
  | ValueArray l => Harray l ((fix each l : Forall P l :=
      match l with [] => Forall_nil_2 _ | v :: l => Forall_cons_2 _ _ _ (Value_induction v) (each l) end) l)
  | ValueObject m => Hobject m ((fix each m : Forall (fun e => P (snd e)) m :=
      match m with [] => Forall_nil_2 _ | e :: m => Forall_cons_2 _ _ _ (Value_induction (snd e)) (each m) end) m)
  end.
End ValueInduction.
