(* ===== verification/McpSanitize.v ===== *)
(** [src/crates/codevetter-core/src/mcp/sanitize.rs]: what an MCP response may
    show.  Objects lose the keys that hold local or private values, text that
    looks like a path of this machine, a credential or an address is withheld,
    excerpts are cut, and a response over the byte limit is refused.  The length
    of a serialized value is the parameter [json_value]. *)
From S2P Require Import Prelude Ordering RustText Utf8 SecretPolicy JsonValue.
Local Open Scope N_scope.

(** ** The keys and the texts (limits.rs, sanitize.rs) *)

Definition MAX_EXCERPT_BYTES : N := 2048.
Definition MAX_RESPONSE_BYTES : N := 256 * 1024.
Definition OMITTED : string := "[redacted]".
Definition removed_keys : list string :=
  ["repo_path"; "repository_path"; "database_path"; "command"; "raw_prompt"; "prompt"; "email"; "author_email";
   "content_hash"; "credential"; "credentials"].
Definition is_sensitive_reference_key (key : string) : bool :=
  elemb key ["path"; "old_path"; "source_path"; "file"; "filename"; "label"; "detail"]%string.
Definition is_excerpt_key (key : string) : bool :=
  elemb key ["summary"; "detail"; "excerpt"; "text"; "subject"; "title"; "label"]%string.

(** [s.split_once(needle)]: what is before and after the first occurrence. *)
Definition split_once (needle s : string) : option (string * string) :=
  match find_after needle s with
  | Some rest => Some (str_take (String.length s - String.length rest - String.length needle) s, rest)
  | None => None
  end.
(** An at sign is 64, then a dot, an underscore, a dash, a plus sign. *)
Definition email_edge (c : N) : bool := negb (is_ascii_alphanumeric c) && negb (elemb c [64; 46; 95; 45; 43]).
Definition is_email (part : string) : bool :=
  match split_once "@" (trim_matches email_edge part) with
  | None => false
  | Some (local, domain) =>
      negb (is_empty local) && str_contains "." domain && negb (starts_with "." domain) && negb (ends_with "." domain)
  end.
Definition looks_like_email (value : string) : bool := any is_email (split_whitespace value).
(** A colon, a slash, a backslash. *)
Definition is_absolute_local_path (value : string) : bool :=
  is_absolute_path value
  || (is_some_and (nth_error (bytes value) 1) (fun b => b =? 58)
      && is_some_and (nth_error (bytes value) 2) (fun b => elemb b [47; 92])).
(** White space, quotes, a comma, a semicolon, brackets of all kinds, an equals
    sign. *)
Definition path_boundary (c : N) : bool :=
  is_whitespace c || elemb c [96; 39; 34; 44; 59; 40; 41; 91; 93; 123; 125; 60; 62; 61].
Definition contains_absolute_local_path (value : string) : bool :=
  is_absolute_local_path value
  || any is_absolute_local_path (List.filter (fun token => negb (is_empty token)) (split path_boundary value)).

(** [while !value.is_char_boundary(end) { end -= 1; }], which stops at 0 at the
    latest. *)
Fixpoint boundary_below (end_ : nat) (value : string) : nat :=
  if is_char_boundary value (N.of_nat end_) then end_ else match end_ with O => O | S end_ => boundary_below end_ value end.
Definition truncate_utf8_bytes (value : string) (max_bytes : N) : string :=
  if blen value <=? max_bytes then value else str_take (boundary_below (N.to_nat max_bytes) value) value.

(** ** Sanitizing *)

Definition withheld (key : option string) (text : string) : bool :=
  (is_some_and key is_sensitive_reference_key && contains_sensitive_path text)
  || contains_absolute_local_path text || looks_like_secret text || looks_like_email text.
Definition sanitize_text (key : option string) (text : string) : string :=
  if withheld key text then OMITTED
  else if is_some_and key is_excerpt_key && (MAX_EXCERPT_BYTES <? blen text)
  then truncate_utf8_bytes text MAX_EXCERPT_BYTES else text.
Fixpoint sanitize_value (key : option string) (value : Value) : Value :=
  match value with
  | ValueObject m => ValueObject ((fix sanitize_map (m : list (string * Value)) : list (string * Value) :=
      match m with
      | [] => []
      | (key, value) :: m =>
          if elemb key removed_keys then sanitize_map m else (key, sanitize_value (Some key) value) :: sanitize_map m
      end) m)
  | ValueArray l => ValueArray (map (sanitize_value key) l)
  | ValueString text => ValueString (sanitize_text key text)
  | _ => value
  end.
Section Response.
Context (json_value : Value -> string + N).

Definition check_response_size (value : Value) : outcome Value :=
  match json_value value with
  | inl error => Err ("Serialize MCP response: " ++ error)
  | inr length =>
      if MAX_RESPONSE_BYTES <? length then Err "MCP response exceeds the 262144 byte limit; narrow the request"
      else Ok value
  end.
Definition sanitize_response (value : Value) : outcome Value := check_response_size (sanitize_value None value).

(** ** The command of an invocation *)

Definition SUPPORTED_COMMANDS : list string :=
  ["check"; "scope"; "qa"; "trex"; "warm"; "differential"; "scenario"; "performance"; "runs"; "capabilities"; "collect"].
Definition supported_command (event : Value) : option string :=
  command ← value_get "command" event ≫= as_str;
  if is_text "codevetter.skill-invocation/v1" (value_get "source_schema_version" event)
     && is_text "invocation_metadata" (value_get "command_provenance" event) && elemb command SUPPORTED_COMMANDS
  then Some command else None.
Definition invocation_commands (value : Value) : list (option string) :=
  if is_text "invocation_list" (pointer ["data"; "operation"]%string value)
     && is_text "codevetter.invocation-events/v1" (pointer ["data"; "data"; "schema_version"]%string value)
  then match pointer ["data"; "data"; "invocations"]%string value ≫= as_array with
       | Some events => map supported_command events
       | None => []
       end
  else [].
Definition restore_command (event : Value) (command : option string) : Value :=
  match event, command with
  | ValueObject m, Some command => ValueObject (map_insert "command"%string (ValueString command) m)
  | _, _ => event
  end.
(** [for (event, command) in events.iter_mut().zip(commands)] *)
Fixpoint restore_commands (events : list Value) (commands : list (option string)) : list Value :=
  match events, commands with
  | event :: events, command :: commands => restore_command event command :: restore_commands events commands
  | _, _ => events
  end.
Definition sanitize_invocation_response (value : Value) : outcome Value :=
  let commands := invocation_commands value in
  let value := sanitize_value None value in
  let value := pointer_update ["data"; "data"; "invocations"]%string (fun events =>
    match events with ValueArray l => ValueArray (restore_commands l commands) | _ => events end) value in
  check_response_size value.
End Response.
Definition sanitize_error_message (message repo_path : string) : string :=
  if contains_sensitive_path message || looks_like_secret message || contains_absolute_local_path message
  then "Requested content is unavailable under CodeVetter redaction policy"
  else if is_empty repo_path then message else replace_str repo_path "[repository]" message.

(** ** The source's tests, and what the checks miss *)

Definition ex_object (l : list (string * Value)) : Value := ValueObject (foldl (fun m e => map_insert (fst e) (snd e) m) [] l).
Definition ex_response : Value := ex_object
  [("repo_path", ValueString "/private/repo");
   ("sources", ValueArray [ex_object [("path", ValueString ".env"); ("summary", ValueString "sk-proj-secret")];
     ex_object [("path", ValueString "/Users/private/project/src/main.rs"); ("summary", ValueString "safe")]]);
   ("safe", ex_object [("path", ValueString "src/main.rs")]); ("raw_prompt", ValueString "private instructions");
   ("reviewer", ValueString "person@example.com"); ("stale", ValueBool true);
   ("built", ValueString "Build failed at C:\Users\alice\main.rs:12"); ("relative", ValueString "Build failed at src/main.rs:12")]%string.
Example ex_sanitized : sanitize_response (fun _ => inr 100) ex_response = Ok (ex_object
  [("sources", ValueArray [ex_object [("path", ValueString "[redacted]"); ("summary", ValueString "[redacted]")];
     ex_object [("path", ValueString "[redacted]"); ("summary", ValueString "safe")]]);
   ("safe", ex_object [("path", ValueString "src/main.rs")]); ("reviewer", ValueString "[redacted]"); ("stale", ValueBool true);
   ("built", ValueString "[redacted]"); ("relative", ValueString "Build failed at src/main.rs:12")])%string.
Proof. vm_compute. reflexivity. Qed.
Definition ex_event : Value := ex_object
  [("source_schema_version", ValueString "codevetter.skill-invocation/v1"); ("command_provenance", ValueString "invocation_metadata");
   ("command", ValueString "scope"); ("nested", ex_object [("command", ValueString "scope")]); ("repo_path", ValueString "/private/repo")]%string.
Definition ex_invocations (events : list Value) : Value := ex_object
  [("command", ValueString "scope"); ("data", ex_object [("operation", ValueString "invocation_list");
    ("data", ex_object [("schema_version", ValueString "codevetter.invocation-events/v1"); ("invocations", ValueArray events)])])]%string.
Example ex_command_kept : sanitize_invocation_response (fun _ => inr 100) (ex_invocations [ex_event]) = Ok (ex_object
  [("data", ex_object [("operation", ValueString "invocation_list");
    ("data", ex_object [("schema_version", ValueString "codevetter.invocation-events/v1"); ("invocations", ValueArray [ex_object
      [("source_schema_version", ValueString "codevetter.skill-invocation/v1"); ("command_provenance", ValueString "invocation_metadata");
       ("command", ValueString "scope"); ("nested", ValueObject [])]])])])])%string.
Proof. vm_compute. reflexivity. Qed.
(** An address at the end of a sentence is not seen: the full stop is not trimmed,
    and a domain that ends with one is no domain. *)
Example ex_address_before_full_stop :
  looks_like_email "Ask person@example.com about it." = true /\ looks_like_email "Ask person@example.com." = false.
Proof. split; vm_compute; reflexivity. Qed.
(** An excerpt is cut after it was looked at: what the cut leaves is not. *)
Example ex_cut_makes_an_address :
  let cut := sanitize_text (Some "summary"%string) (String.concat "" (replicate 2026 " ") ++ "Ask person@example.com.")%string in
  looks_like_email (String.concat "" (replicate 2026 " ") ++ "Ask person@example.com.")%string = false /\ looks_like_email cut = true.
Proof. split; vm_compute; reflexivity. Qed.
