(* ===== verification/PrivateText.v ===== *)
(** What text a response must not show, said without the code: paths of this
    machine, names of sensitive files, credentials and addresses, as parts of a
    text between the characters that bound them.  [withheld_private] shows that
    [McpSanitize.withheld] holds of exactly such text. *)
From S2P Require Import Prelude Ordering RustText Utf8 SecretPolicy JsonValue McpSanitize.
Local Open Scope N_scope.

(** * Parts of a text *)

Section Words.
Context (sep : N -> Prop).
Definition clear (l : list (N * string)) : Prop := Forall (fun c => ~ sep (fst c)) l.
Definition after_separator (l : list (N * string)) : Prop := l = [] \/ exists k c, l = k ++ [c] /\ sep (fst c).
Definition before_separator (l : list (N * string)) : Prop := l = [] \/ exists c k, l = c :: k /\ sep (fst c).
(** A word lies between separators or the ends of the text, and has none. *)
Definition word_in (s word : string) : Prop := exists l1 w l2, char_indices s = l1 ++ w ++ l2 /\ word = encode w /\
  clear w /\ after_separator l1 /\ before_separator l2.
Definition first_word (s word : string) : Prop := exists w l2, char_indices s = w ++ l2 /\ word = encode w /\
  clear w /\ before_separator l2.
Definition last_word (s word : string) : Prop := exists l1 w, char_indices s = l1 ++ w /\ word = encode w /\
  clear w /\ after_separator l1.
(** What is left when the characters of a kind are taken off at the start, or at
    both ends. *)
Definition opens_clear (l : list (N * string)) : Prop := match l with [] => True | c :: _ => ~ sep (fst c) end.
Definition stripped_start (s rest : string) : Prop := exists l1 w, char_indices s = l1 ++ w /\ rest = encode w /\
  Forall (fun c => sep (fst c)) l1 /\ opens_clear w.
Definition stripped (s inner : string) : Prop := exists l1 w l2, char_indices s = l1 ++ w ++ l2 /\ inner = encode w /\
  Forall (fun c => sep (fst c)) l1 /\ Forall (fun c => sep (fst c)) l2 /\ opens_clear w /\ opens_clear (reverse w).
End Words.
Definition begins (p s : string) : Prop := exists t, s = (p ++ t)%string.
Definition ends (p s : string) : Prop := exists t, s = (t ++ p)%string.
Definition contains (p s : string) : Prop := exists t u, s = (t ++ p ++ u)%string.
(** [rest] follows the first occurrence of [p]. *)
Definition after_first (p s rest : string) : Prop := exists t, s = (t ++ p ++ rest)%string /\
  forall t' rest', s = (t' ++ p ++ rest')%string -> (String.length t <= String.length t')%nat.

(** ** The code's functions find them *)

Section Split.
Context (p : N -> bool) (sep : N -> Prop) (Hp : forall c, p c = true <-> sep c).

Lemma clear_no c : p c = false <-> ~ sep c.
Proof. by rewrite <- Hp, not_true_iff_false. Qed.
Lemma elem_of_pieces cur l word : word ∈ split_pieces p cur l <->
  (exists w l2, l = w ++ l2 /\ word = (cur ++ encode w)%string /\ clear sep w /\ before_separator sep l2) \/
  (exists l1 c w l2, l = (l1 ++ [c]) ++ w ++ l2 /\ sep (fst c) /\ word = encode w /\ clear sep w /\ before_separator sep l2).
Proof.
  revert cur. induction l as [|[c e] l IH]; intros cur; cbn [split_pieces].
  - rewrite list_elem_of_singleton. split.
    + intros ->. left. exists [], []. rewrite append_nil_r. by repeat constructor.
    + intros [(w & l2 & [-> ->]%eq_sym%app_nil & -> & _)|(l1 & c & w & l2 & H & _)]; [by rewrite append_nil_r|].
      by destruct l1.
  - destruct (p c) eqn:E.
    + apply Hp in E. rewrite elem_of_cons, IH. split.
      * intros [->|[(w & l2 & -> & -> & Hw & H2)|(l1 & d & w & l2 & -> & Hd & -> & Hw & H2)]].
        -- left. exists [], ((c, e) :: l). rewrite append_nil_r. split_and!; [done|done|constructor|]. right. eauto.
        -- right. exists [], (c, e), w, l2. done.
        -- right. exists ((c, e) :: l1), d, w, l2. done.
      * intros [(w & l2 & H & -> & Hw & H2)|(l1 & d & w & l2 & H & Hd & -> & Hw & H2)].
        -- left. destruct w as [|x w]; [by rewrite append_nil_r|]. injection H as <- _. by apply Forall_cons in Hw as [[] _].
        -- right. destruct l1 as [|x l1]; injection H as <- ->; [left; by exists w, l2|right; by exists l1, d, w, l2].
    + apply clear_no in E. rewrite IH. split.
      * intros [(w & l2 & -> & -> & Hw & H2)|(l1 & d & w & l2 & -> & Hd & -> & Hw & H2)].
        -- left. exists ((c, e) :: w), l2. rewrite encode_cons, append_assoc. split_and!; [done|done|by constructor|done].
        -- right. exists ((c, e) :: l1), d, w, l2. done.
      * intros [(w & l2 & H & -> & Hw & H2)|(l1 & d & w & l2 & H & Hd & -> & Hw & H2)].
        -- left. destruct w as [|x w].
           { cbn in H. subst l2. destruct H2 as [?|(d & k & [= <- _] & ?)]; done. }
           injection H as <- ->. apply Forall_cons in Hw as [_ Hw]. exists w, l2. by rewrite encode_cons, append_assoc.
        -- right. destruct l1 as [|x l1]; injection H as <- ->; [done|]. by exists l1, d, w, l2.
Qed.
Lemma elem_of_split s word : word ∈ split p s <-> word_in sep s word.
Proof.
  unfold split, word_in. rewrite elem_of_pieces. split.
  - intros [(w & l2 & H & -> & Hw & H2)|(l1 & c & w & l2 & H & Hc & -> & Hw & H2)].
    + exists [], w, l2. split_and!; [done|done|done|by left|done].
    + exists (l1 ++ [c]), w, l2. split_and!; [done|done|done|right; eauto|done].
  - intros (l1 & w & l2 & H & -> & Hw & [->|(k & c & -> & Hc)] & H2); [left; by exists w, l2|right; by exists k, c, w, l2].
Qed.
Lemma first_piece_iff s word : first_word sep s word <-> first_piece p s = word.
Proof.
  assert (forall l cur w l2, l = w ++ l2 -> clear sep w -> before_separator sep l2 ->
    head (split_pieces p cur l) = Some (cur ++ encode w)%string) as Hhead.
  { induction l as [|[c e] l IH]; intros cur w l2 H Hw H2; cbn [split_pieces].
    - apply eq_sym, app_nil in H as [-> ->]. by rewrite append_nil_r.
    - destruct w as [|x w].
      + cbn in H. subst l2. destruct H2 as [?|(d & k & [= <- _] & Hd)]; [done|]. apply Hp in Hd. cbn in Hd. by rewrite Hd, append_nil_r.
      + injection H as <- H. apply Forall_cons in Hw as [Hc%clear_no Hw]. cbn in Hc. rewrite Hc, (IH _ w l2), encode_cons, append_assoc; done. }
  assert (forall l, exists w l2, l = w ++ l2 /\ clear sep w /\ before_separator sep l2) as Hex.
  { induction l as [|c l (w & l2 & -> & Hw & H2)]; [exists [], []; by repeat constructor|]. destruct (p (fst c)) eqn:E.
    - apply Hp in E. exists [], (c :: w ++ l2). split_and!; [done|constructor|right; eauto].
    - apply clear_no in E. exists (c :: w), l2. split_and!; [done|by constructor|done]. }
  assert (forall word, first_word sep s word -> first_piece p s = word) as Hone.
  { intros x (w & l2 & H & -> & Hw & H2). unfold first_piece, split.
    specialize (Hhead _ "" w l2 H Hw H2). destruct (split_pieces _ _ _); [done|]. by injection Hhead. }
  split; [apply Hone|]. intros <-. destruct (Hex (char_indices s)) as (w & l2 & H & Hw & H2).
  assert (first_word sep s (encode w)) as Hfirst by (exists w, l2; done). by rewrite (Hone _ Hfirst).
Qed.
Lemma last_piece_iff s word : last_word sep s word <-> last_piece p s = word.
Proof.
  assert (forall w cur, clear sep w -> split_pieces p cur w = [(cur ++ encode w)%string]) as Hclear.
  { induction w as [|[c e] w IH]; intros cur Hw; cbn [split_pieces]; [by rewrite append_nil_r|].
    apply Forall_cons in Hw as [Hc%clear_no Hw]. cbn in Hc. by rewrite Hc, IH, encode_cons, append_assoc. }
  assert (forall l, exists l1 w, l = l1 ++ w /\ clear sep w /\ after_separator sep l1) as Hex.
  { induction l as [|c l (l1 & w & -> & Hw & H1)] using rev_ind; [exists [], []; by repeat constructor|]. destruct (p (fst c)) eqn:E.
    - apply Hp in E. exists ((l1 ++ w) ++ [c]), []. rewrite app_nil_r. split_and!; [done|constructor|right; eauto].
    - apply clear_no in E. exists l1, (w ++ [c]). rewrite app_assoc. split_and!; [done|apply Forall_app; by repeat constructor|done]. }
  assert (forall word, last_word sep s word -> last_piece p s = word) as Hone.
  { intros x (l1 & w & H & -> & Hw & H1). unfold last_piece, split. rewrite H. destruct H1 as [->|(k & [c e] & -> & Hc)].
    - cbn [app]. by rewrite Hclear.
    - apply Hp in Hc. rewrite <- app_assoc. cbn [app]. by rewrite split_pieces_app, (Hclear w), reverse_snoc by done. }
  split; [apply Hone|]. intros <-. destruct (Hex (char_indices s)) as (l1 & w & H & Hw & H1).
  assert (last_word sep s (encode w)) as Hlast by (exists l1, w; done). by rewrite (Hone _ Hlast).
Qed.

Lemma drop_while_stripped l : exists l1, l = l1 ++ drop_while (fun c => p (fst c)) l /\ Forall (fun c => sep (fst c)) l1 /\
  opens_clear sep (drop_while (fun c : N * string => p (fst c)) l).
Proof.
  induction l as [|c l (l1 & H & H1 & H2)]; cbn [drop_while]; [by exists []|]. destruct (p (fst c)) eqn:E.
  - exists (c :: l1). split_and!; [by rewrite H at 1|constructor; [by apply Hp|done]|done].
  - exists []. split_and!; [done|constructor|by apply clear_no].
Qed.
Lemma drop_while_app l1 w : Forall (fun c => sep (fst c)) l1 -> opens_clear sep w ->
  drop_while (fun c : N * string => p (fst c)) (l1 ++ w) = w.
Proof.
  intros H1 Hw. induction H1 as [|c l1 Hc _ IH]; cbn [app drop_while].
  - destruct w as [|c w]; [done|]. cbn [drop_while]. apply clear_no in Hw. by rewrite Hw.
  - apply Hp in Hc. by rewrite Hc.
Qed.
Lemma trim_start_iff s rest : stripped_start sep s rest <-> trim_start_matches p s = rest.
Proof.
  unfold trim_start_matches. split.
  - intros (l1 & w & H & -> & H1 & Hw). by rewrite H, drop_while_app.
  - intros <-. destruct (drop_while_stripped (char_indices s)) as (l1 & H & H1 & Hw). eexists l1, _. done.
Qed.
Lemma trim_iff s inner : stripped sep s inner <-> trim_matches p s = inner.
Proof.
  unfold trim_matches. split.
  - intros (l1 & w & l2 & H & -> & H1 & H2 & Hw & Hr). rewrite H. destruct w as [|c w].
    + cbn [app]. assert (drop_while (fun c => p (fst c)) (l1 ++ l2) = []) as ->.
      { rewrite <- (app_nil_r (l1 ++ l2)). apply drop_while_app; [by apply Forall_app|done]. }
      done.
    + rewrite drop_while_app by done. rewrite reverse_app, drop_while_app; [by rewrite reverse_involutive| |done].
      by apply Forall_reverse.
  - intros <-. destruct (drop_while_stripped (char_indices s)) as (l1 & H & H1 & Hw). set (k := drop_while _ _) in *.
    destruct (drop_while_stripped (reverse k)) as (l2 & Hk & H2 & Hr). set (w := drop_while _ (reverse k)) in *.
    assert (k = reverse w ++ reverse l2) as Hk' by by rewrite <- reverse_app, <- Hk, reverse_involutive.
    exists l1, (reverse w), (reverse l2). rewrite reverse_involutive. split_and!; try done.
    + by rewrite <- Hk'.
    + by apply Forall_reverse.
    + destruct (reverse w); [done|]. by rewrite Hk' in Hw.
Qed.
End Split.

Lemma starts_with_iff q s : starts_with q s = true <-> begins q s.
Proof. apply starts_with_true. Qed.
Lemma find_after_iff q s rest : find_after q s = Some rest <-> after_first q s rest.
Proof.
  assert (forall c s', starts_with q (String c s') = false -> forall t u, String c s' = (t ++ q ++ u)%string ->
    exists t', t = String c t' /\ s' = (t' ++ q ++ u)%string) as Hlater.
  { intros c s' Hno [|d t] u H; [rewrite append_nil_l in H; by rewrite H, starts_with_append in Hno|].
    rewrite append_cons in H. injection H as <- ->. eauto. }
  assert (forall s, starts_with q s = true -> after_first q s rest <-> str_drop (String.length q) s = rest) as Hhere.
  { intros s' (u & ->)%starts_with_true. rewrite str_drop_append. split.
    - intros (t & H & Hmin). specialize (Hmin "" u eq_refl). destruct t; [|cbn in Hmin; lia]. by apply (append_inj_l q) in H.
    - intros <-. exists ""%string. split; [done|]. cbn. lia. }
  induction s as [|c s IH]; cbn [find_after].
  - destruct (starts_with q "") eqn:E; [rewrite Hhere by done; naive_solver|]. split; [done|].
    intros (t & H & _). destruct t; [|done]. rewrite append_nil_l in H. by rewrite H, starts_with_append in E.
  - destruct (starts_with q (String c s)) eqn:E; [rewrite Hhere by done; naive_solver|]. rewrite IH. split.
    + intros (t & -> & Hmin). exists (String c t). split; [done|]. intros t' u' (t1 & -> & H)%(Hlater _ _ E). cbn.
      specialize (Hmin _ _ H). lia.
    + intros (t & (t1 & -> & H)%(Hlater _ _ E) & Hmin). exists t1. split; [done|]. intros t' u' ->.
      specialize (Hmin (String c t') u' eq_refl). cbn in Hmin. lia.
Qed.
Lemma str_contains_iff q s : str_contains q s = true <-> contains q s.
Proof.
  unfold str_contains. destruct (find_after q s) as [rest|] eqn:E; cbn; split; try done.
  - apply find_after_iff in E as (t & H & _). intros _. by exists t, rest.
  - intros (t & u & ->). pose proof (find_after_append q t u) as H. by rewrite E in H.
Qed.
Lemma take_drop_str n s : (str_take n s ++ str_drop n s)%string = s.
Proof. revert s. induction n as [|n IH]; intros [|c s]; try done. cbn [str_take str_drop]. by rewrite append_cons, IH. Qed.
Lemma ends_with_iff q s : ends_with q s = true <-> ends q s.
Proof.
  unfold ends_with. rewrite andb_true_iff, Nat.leb_le, seqb_true. split.
  - intros [_ H]. exists (str_take (String.length s - String.length q) s). rewrite <- H at 2. symmetry. apply take_drop_str.
  - intros [t ->]. rewrite length_append. split; [lia|].
    replace (String.length t + String.length q - String.length q)%nat with (String.length t) by lia. apply str_drop_append.
Qed.

(** * Paths of this machine *)

(** A path that starts with a slash, or with a character, a colon and a slash or
    backslash. *)
Definition local_path (s : string) : Prop :=
  begins "/" s \/ exists drive sep rest, bytes s = drive :: 58 :: sep :: rest /\ (sep = 47 \/ sep = 92).
(** White space, a backquote, quotes, a comma, a semicolon, brackets of all kinds,
    an equals sign; a colon is none, so that [file:///home/me] has no such word. *)
Definition path_edge (c : N) : Prop :=
  is_whitespace c = true \/ c ∈ [96; 39; 34; 44; 59; 40; 41; 91; 93; 123; 125; 60; 62; 61].
Definition shows_local_path (s : string) : Prop :=
  local_path s \/ exists word, word_in path_edge s word /\ local_path word.

(** * Names of sensitive files *)

Definition sensitive_path (path : string) : Prop :=
  let lower := to_ascii_lowercase (replace_byte 92 47 path) in
  (exists name, last_word (eq 47) lower name /\
    (name ∈ [".env"; ".npmrc"; ".pypirc"; ".netrc"; ".dockercfg"; "id_rsa"; "id_ed25519"; "credentials";
       "credentials.json"; "secrets.yml"; "secrets.yaml"; "secrets.json"; "terraform.tfstate"]%string \/
     begins ".env." name \/ begins "terraform.tfstate." name \/
     (exists ending, ending ∈ [".pem"; ".key"; ".p12"; ".pfx"; ".jks"; ".keystore"]%string /\ ends ending name) \/
     contains "service-account" name \/ contains "service_account" name)) \/
  exists inner directory, stripped (eq 47) lower inner /\ directory ∈ ["/.ssh/"; "/.aws/"; "/.kube/"; "/secrets/"]%string /\
    contains directory ("/" ++ inner ++ "/").
(** White space, a backquote, quotes, a comma, a semicolon, parentheses; and what
    may be around a name, a colon or a square bracket. *)
Definition name_edge (c : N) : Prop := is_whitespace c = true \/ c ∈ [96; 39; 34; 44; 59; 40; 41].
Definition name_wrapper (c : N) : Prop := c ∈ [58; 91; 93].
Definition names_sensitive_path (s : string) : Prop :=
  sensitive_path s \/ exists word inner, word_in name_edge s word /\ stripped name_wrapper word inner /\
    inner <> EmptyString /\ sensitive_path inner.

(** * Credentials *)

Inductive credential (s : string) : Prop :=
  | credential_marker marker : marker ∈ ["-----begin private key-----"; "-----begin rsa private key-----"; "sk-ant-"; "sk-proj-";
      "github_pat_"; "ghp_"; "xoxb-"; "xoxp-"; "xapp-"; "aiza"; "postgres://"; "postgresql://"; "mongodb://"; "mongodb+srv://";
      "mysql://"; "redis://"; "bearer "]%string -> contains marker (to_ascii_lowercase s) -> credential s
  (** An address with a user and a password before an at sign. *)
  | credential_login word rest user : word_in (fun c => is_whitespace c = true) s word -> word <> EmptyString ->
      after_first "://" word rest -> first_word (eq 64) rest user -> contains ":" user -> contains "@" word -> credential s
  (** The identity of a cloud key: twenty capital letters and digits. *)
  | credential_key word : word_in (fun c => is_ascii_alphanumeric c = false /\ c <> 95) s word -> blen word = 20 ->
      begins "AKIA" word \/ begins "ASIA" word -> Forall (fun c => 65 <= c <= 90 \/ 48 <= c <= 57) (chars word) -> credential s
  (** A value of eight bytes or more after the first assignment to a key. *)
  | credential_assigned key sign rest value word :
      key ∈ ["password"; "passwd"; "api_key"; "apikey"; "access_token"; "client_secret"]%string -> sign ∈ ["="; ":"; " ="]%string ->
      after_first (key ++ sign) (to_ascii_lowercase s) rest -> stripped_start (fun c => c ∈ [32; 39; 34]) rest value ->
      first_word (fun c => is_whitespace c = true \/ c ∈ [39; 34; 44]) value word -> 8 <= blen word ->
      word <> "[redacted]"%string -> credential s.

(** * Addresses *)

(** A word that is, without the characters around it, a name, an at sign and a
    domain that has a full stop in it, but not at its ends. *)
Definition address_edge (c : N) : Prop := is_ascii_alphanumeric c = false /\ c ∉ [64; 46; 95; 45; 43].
Definition shows_address (s : string) : Prop := exists word inner name domain,
  word_in (fun c => is_whitespace c = true) s word /\ stripped address_edge word inner /\
  inner = (name ++ "@" ++ domain)%string /\ after_first "@" inner domain /\ name <> EmptyString /\
  contains "." domain /\ ~ begins "." domain /\ ~ ends "." domain.

(** Text that is private under a key. *)
Inductive private_text (key : option string) (s : string) : Prop :=
  | private_path : shows_local_path s -> private_text key s
  | private_name k : key = Some k -> k ∈ ["path"; "old_path"; "source_path"; "file"; "filename"; "label"; "detail"]%string ->
      names_sensitive_path s -> private_text key s
  | private_credential : credential s -> private_text key s
  | private_address : shows_address s -> private_text key s.

(** * What the code withholds *)

Lemma absolute_local_path_iff s : is_absolute_local_path s = true <-> local_path s.
Proof.
  unfold is_absolute_local_path, local_path, is_absolute_path. rewrite orb_true_iff, starts_with_iff, andb_true_iff.
  apply or_iff_compat_l. destruct (bytes s) as [|a [|b [|c l]]]; cbn; try naive_solver.
  rewrite N.eqb_eq. setoid_rewrite elemb_true. setoid_rewrite elem_of_cons. setoid_rewrite list_elem_of_singleton. naive_solver.
Qed.
Lemma path_edge_iff c : path_boundary c = true <-> path_edge c.
Proof. unfold path_boundary, path_edge. by rewrite orb_true_iff, elemb_true. Qed.
Lemma absolute_path_iff s : contains_absolute_local_path s = true <-> shows_local_path s.
Proof.
  unfold contains_absolute_local_path, shows_local_path. rewrite orb_true_iff, absolute_local_path_iff, any_true.
  setoid_rewrite elem_of_filter_bool. setoid_rewrite (elem_of_split _ _ path_edge_iff). setoid_rewrite absolute_local_path_iff.
  apply or_iff_compat_l. split; [naive_solver|]. intros (word & Hw & Hl). exists word. split_and!; try done.
  destruct word; [|done]. by destruct Hl as [[t Ht]|(? & ? & ? & ? & _)].
Qed.

Lemma eqb_iff b c : (b =? c) = true <-> b = c.
Proof. apply N.eqb_eq. Qed.
Lemma any_in {A} (p : A -> bool) (Q : A -> Prop) l : (forall x, p x = true <-> Q x) -> any p l = true <-> exists x, x ∈ l /\ Q x.
Proof. intros HQ. rewrite any_true. by setoid_rewrite HQ. Qed.
Lemma sensitive_path_iff path : is_sensitive_path path = true <-> sensitive_path path.
Proof.
  unfold is_sensitive_path, sensitive_path, slash, backslash. cbv zeta.
  set (lower := to_ascii_lowercase (replace_byte 92 47 path)).
  setoid_rewrite (last_piece_iff _ _ (eqb_iff 47)). setoid_rewrite (trim_iff _ _ (eqb_iff 47)).
  rewrite orb_true_iff, (any_in _ _ _ (fun d => str_contains_iff d _)).
  assert (forall A B C D, (A <-> C) -> (B <-> D) -> A \/ B <-> C \/ D) as Hor by tauto. apply Hor; clear Hor.
  - rewrite !orb_true_iff, elemb_true, !starts_with_iff, !ends_with_iff, seqb_true, !str_contains_iff.
    set (name := last_piece _ lower). split.
    + intros H. exists name. split; [done|]. unfold sensitive_names in H.
      repeat setoid_rewrite elem_of_cons in H. repeat setoid_rewrite elem_of_cons. clearbody name. 
      destruct_or!; try tauto; right; right; right; left;
        match goal with K : ends ?e name |- _ => exists e; split; [tauto|done] end.
    + intros (n & <- & H). fold name in H. unfold sensitive_names. clearbody name.
      destruct H as [H|[H|[H|[(e & He & H)|H]]]]; [|tauto|tauto| |tauto].
      * repeat setoid_rewrite elem_of_cons in H. repeat setoid_rewrite elem_of_cons. tauto.
      * repeat setoid_rewrite elem_of_cons in He. destruct_or!; subst; try tauto. by apply elem_of_nil in He.
  - naive_solver.
Qed.

Lemma blank_iff c : is_whitespace c = true <-> is_whitespace c = true.
Proof. done. Qed.
Lemma name_edge_iff c : path_separator c = true <-> name_edge c.
Proof. unfold path_separator, name_edge. by rewrite orb_true_iff, elemb_true. Qed.
Lemma names_sensitive_path_iff s : contains_sensitive_path s = true <-> names_sensitive_path s.
Proof.
  unfold contains_sensitive_path, names_sensitive_path. rewrite orb_true_iff, sensitive_path_iff, any_true.
  apply or_iff_compat_l. setoid_rewrite elem_of_filter_bool. setoid_rewrite list_elem_of_fmap.
  setoid_rewrite (elem_of_split _ _ name_edge_iff). setoid_rewrite sensitive_path_iff. setoid_rewrite negb_true_iff.
  setoid_rewrite is_empty_false. setoid_rewrite (trim_iff path_wrapper name_wrapper (fun c => elemb_true c _)). naive_solver.
Qed.

Lemma any_word (p : string -> bool) (Q : string -> Prop) s : (forall x, p x = true <-> Q x) ->
  any p (split_whitespace s) = true <-> exists word, word_in (fun c => is_whitespace c = true) s word /\ word <> EmptyString /\ Q word.
Proof.
  intros HQ. rewrite any_true. unfold split_whitespace. setoid_rewrite elem_of_filter_bool.
  setoid_rewrite (elem_of_split _ _ blank_iff). setoid_rewrite negb_true_iff. setoid_rewrite is_empty_false.
  setoid_rewrite HQ. naive_solver.
Qed.
Lemma after_some q s (p : string -> bool) (Q : string -> Prop) : (forall x, p x = true <-> Q x) ->
  is_some_and (find_after q s) p = true <-> exists rest, after_first q s rest /\ Q rest.
Proof.
  intros HQ. setoid_rewrite <- find_after_iff. destruct (find_after q s) as [rest|]; cbn; [rewrite HQ|]; naive_solver.
Qed.

Definition has_login (s : string) : Prop := exists word, word_in (fun c => is_whitespace c = true) s word /\ word <> EmptyString /\
  exists rest, after_first "://" word rest /\ exists user, first_word (eq 64) rest user /\ contains ":" user /\ contains "@" word.
Lemma login_iff s : contains_basic_auth_url s = true <-> has_login s.
Proof.
  apply any_word. intros word. apply after_some. intros rest. cbv zeta.
  rewrite andb_true_iff, !str_contains_iff. setoid_rewrite (first_piece_iff _ _ (eqb_iff 64)). naive_solver.
Qed.
Definition has_cloud_key (s : string) : Prop := exists word, word_in (fun c => is_ascii_alphanumeric c = false /\ c <> 95) s word /\
  blen word = 20 /\ (begins "AKIA" word \/ begins "ASIA" word) /\ Forall (fun c => 65 <= c <= 90 \/ 48 <= c <= 57) (chars word).
Lemma cloud_key_iff s :
  any is_cloud_access_key (split (fun c => negb (is_ascii_alphanumeric c) && negb (c =? 95)) s) = true <-> has_cloud_key s.
Proof.
  rewrite any_true. apply exist_proper. intros word.
  rewrite (elem_of_split _ (fun c => is_ascii_alphanumeric c = false /\ c <> 95)) by
    (intros c; by rewrite andb_true_iff, !negb_true_iff, N.eqb_neq).
  unfold is_cloud_access_key. rewrite !andb_true_iff, N.eqb_eq, orb_true_iff, !starts_with_iff, forallb_forall, Forall_forall.
  setoid_rewrite list_elem_of_In. unfold is_ascii_uppercase, is_ascii_digit, in_range.
  setoid_rewrite orb_true_iff. setoid_rewrite andb_true_iff. setoid_rewrite N.leb_le. tauto.
Qed.
Definition has_assignment (s : string) : Prop := exists key sign rest value word,
  key ∈ ["password"; "passwd"; "api_key"; "apikey"; "access_token"; "client_secret"]%string /\ sign ∈ ["="; ":"; " ="]%string /\
  after_first (key ++ sign) (to_ascii_lowercase s) rest /\ stripped_start (fun c => c ∈ [32; 39; 34]) rest value /\
  first_word (fun c => is_whitespace c = true \/ c ∈ [39; 34; 44]) value word /\ 8 <= blen word /\ word <> "[redacted]"%string.
Lemma assignment_iff s : contains_credential_assignment s = true <-> has_assignment s.
Proof.
  unfold contains_credential_assignment. cbv zeta. set (lower := to_ascii_lowercase s).
  assert (forall needle, is_some_and (find_after needle lower) (fun rest =>
      let candidate := first_piece value_separator (trim_start_matches value_opening rest) in
      (8 <=? blen candidate) && negb (seqb candidate "[redacted]")) = true <->
    exists rest, after_first needle lower rest /\ exists value word, stripped_start (fun c => c ∈ [32; 39; 34]) rest value /\
      first_word (fun c => is_whitespace c = true \/ c ∈ [39; 34; 44]) value word /\ 8 <= blen word /\ word <> "[redacted]"%string)
    as Hneedle.
  { intros needle. apply after_some. intros rest. cbv zeta. rewrite andb_true_iff, N.leb_le, negb_true_iff, seqb_false.
    setoid_rewrite (trim_start_iff value_opening _ (fun c => elemb_true c _)).
    setoid_rewrite (first_piece_iff value_separator (fun c => is_whitespace c = true \/ c ∈ [39; 34; 44])); [naive_solver|].
    intros c. unfold value_separator. by rewrite orb_true_iff, elemb_true. }
  rewrite any_true. unfold has_assignment. apply exist_proper. intros key. rewrite any_true. setoid_rewrite Hneedle.
  fold lower. split.
  - intros (Hkey & needle & Hn & rest & Hrest & value & word & H).
    assert (exists sign, sign ∈ ["="; ":"; " ="]%string /\ needle = (key ++ sign)%string) as (sign & Hs & ->).
    { rewrite !elem_of_cons, elem_of_nil in Hn. destruct_or!; try done; eexists; (split; [|exact Hn]); set_solver. }
    exists sign, rest, value, word. tauto.
  - intros (sign & rest & value & word & Hkey & Hs & Hrest & H). split; [done|]. exists (key ++ sign)%string. split.
    + rewrite !elem_of_cons, elem_of_nil in Hs |- *. destruct_or!; subst; tauto.
    + exists rest. split; [done|]. by exists value, word.
Qed.
Lemma credential_iff s : looks_like_secret s = true <-> credential s.
Proof.
  assert (forall a b c : bool, (if a then true else if b then true else c) = true <-> a = true \/ b = true \/ c = true) as Hif
    by (intros [] [] []; naive_solver).
  unfold looks_like_secret. cbv zeta. rewrite Hif, !orb_true_iff, any_true, str_contains_iff, login_iff, cloud_key_iff, assignment_iff.
  setoid_rewrite str_contains_iff. split.
  - intros [(m & Hm & Hc)|[[Hc|H]|[H|H]]].
    + apply (credential_marker s (to_ascii_lowercase m)); [|done]. apply (list_elem_of_fmap_2 to_ascii_lowercase) in Hm.
      cbn in Hm. set_solver.
    + apply (credential_marker s "bearer "); [set_solver|done].
    + destruct H as (word & ? & ? & rest & ? & user & ? & ? & ?). by eapply credential_login.
    + destruct H as (word & ? & ? & ? & ?). by eapply credential_key.
    + destruct H as (key & sign & rest & value & word & ? & ? & ? & ? & ? & ? & ?). by eapply credential_assigned.
  - intros [m Hm Hc|word rest user|word|key sign rest value word].
    + assert (m = "bearer "%string \/ m ∈ map to_ascii_lowercase secret_markers) as [->|(k & -> & Hk)%list_elem_of_fmap]
        by (cbn; set_solver); eauto.
    + right; left; right. unfold has_login. eauto 10.
    + right; right; left. unfold has_cloud_key. eauto 10.
    + right; right; right. exists key, sign, rest, value, word. done.
Qed.

Lemma split_once_iff q s a b : split_once q s = Some (a, b) <-> s = (a ++ q ++ b)%string /\ after_first q s b.
Proof.
  unfold split_once. destruct (find_after q s) as [rest|] eqn:E.
  - pose proof E as (t & Ht & _)%find_after_iff. assert (str_take (String.length s - String.length rest - String.length q) s = t) as ->.
    { rewrite Ht, !length_append. replace (_ - _ - _)%nat with (String.length t) by lia. apply str_take_append. }
    rewrite <- find_after_iff, E. split; [intros [= <- <-]; done|]. intros [Hs [= ->]]. rewrite Ht in Hs.
    apply append_inj_length in Hs as [-> _]; [done|]. pose proof (f_equal String.length Hs) as Hl. rewrite !length_append in Hl. lia.
  - split; [done|]. intros [_ H%find_after_iff]. by rewrite E in H.
Qed.
Lemma address_edge_iff c : email_edge c = true <-> address_edge c.
Proof. unfold email_edge, address_edge. by rewrite andb_true_iff, !negb_true_iff, elemb_false. Qed.
Lemma address_iff s : looks_like_email s = true <-> shows_address s.
Proof.
  unfold looks_like_email. rewrite (any_word _ (fun word => exists inner name domain, stripped address_edge word inner /\
    inner = (name ++ "@" ++ domain)%string /\ after_first "@" inner domain /\ name <> EmptyString /\
    contains "." domain /\ ~ begins "." domain /\ ~ ends "." domain)).
  - unfold shows_address. split.
    + intros (word & Hw & _ & inner & name & domain & H). by exists word, inner, name, domain.
    + intros (word & inner & name & domain & Hw & Hi & H). exists word. split; [done|]. split; [|by exists inner, name, domain].
      intros ->. destruct Hi as (l1 & w & l2 & Hl%eq_sym%app_nil & -> & _). destruct Hl as [_ [-> _]%app_nil].
      destruct H as [H _]. by destruct name.
  - intros word. unfold is_email. setoid_rewrite (trim_iff _ _ address_edge_iff).
    destruct (split_once "@" (trim_matches email_edge word)) as [[name domain]|] eqn:E.
    + rewrite !andb_true_iff, !negb_true_iff, is_empty_false, <- !not_true_iff_false, str_contains_iff, starts_with_iff, ends_with_iff.
      pose proof E as [H1 H2]%split_once_iff. split; [intros; exists (trim_matches email_edge word), name, domain; tauto|].
      intros (inner & n & d & <- & Hs & Hf & H). assert (split_once "@" (trim_matches email_edge word) = Some (n, d)) as E'
        by by apply split_once_iff. rewrite E in E'. injection E' as <- <-. tauto.
    + split; [done|]. intros (inner & n & d & <- & Hs & Hf & H). assert (split_once "@" (trim_matches email_edge word) = Some (n, d)) as E'
        by by apply split_once_iff. by rewrite E in E'.
Qed.

(** What is withheld is the private text. *)
Lemma withheld_private key s : withheld key s = true <-> private_text key s.
Proof.
  unfold withheld. rewrite !orb_true_iff, andb_true_iff, absolute_path_iff, credential_iff, address_iff, names_sensitive_path_iff. split.
  - intros [[[[Hk H]|H]|H]|H]; [|by apply private_path|by apply private_credential|by apply private_address].
    destruct key as [k|]; [|done]. apply elemb_true in Hk. by apply (private_name _ _ k).
  - intros [H|k -> Hk%elemb_true H|H|H]; auto.
Qed.
Lemma not_withheld key s : withheld key s = false <-> ~ private_text key s.
Proof. by rewrite <- withheld_private, not_true_iff_false. Qed.
Lemma no_local_path s : contains_absolute_local_path s = false <-> ~ shows_local_path s.
Proof. by rewrite <- absolute_path_iff, not_true_iff_false. Qed.

(** What the boundaries miss: a path in an address of a file, and a credential
    after a first assignment to the same key. *)
Example ex_file_url_kept : sanitize_response (fun _ => inr 100) (ValueString "see file:///Users/alice/secret/main.rs") =
  Ok (ValueString "see file:///Users/alice/secret/main.rs").
Proof. vm_compute. reflexivity. Qed.
Example ex_second_assignment_kept : looks_like_secret "password= password=hunter2hunter2" = true /\
  looks_like_secret "password=x; password=hunter2hunter2" = false.
Proof. vm_compute. done. Qed.
