(* ===== verification/McpSanitizeProps.v ===== *)
(** What [McpSanitize] guarantees of a response: no private key and no private
    text at any depth, and nothing else changed. *)
From S2P Require Import Prelude Ordering RustText Utf8 Paths SecretPolicy JsonValue McpSanitize PrivateText.
Local Open Scope N_scope.

(** * Cut text *)

Lemma boundary_below_ok end_ value : is_char_boundary value (N.of_nat (boundary_below end_ value)) = true /\
  (boundary_below end_ value <= end_)%nat.
Proof.
  induction end_ as [|n IH]; cbn [boundary_below].
  - assert (is_char_boundary value (N.of_nat 0) = true) as H.
    { unfold is_char_boundary. apply boundary_at_true. by exists [], (char_indices value). }
    by rewrite H.
  - case_match eqn:E; [done|]. destruct IH. split; [done|lia].
Qed.
(** What is left of a text that is cut: its first characters. *)
Lemma truncate_part value max_bytes : from_utf8 value = true -> exists l1 l2, char_indices value = l1 ++ l2 /\
  truncate_utf8_bytes value max_bytes = encode l1 /\ char_indices (encode l1) = l1 /\
  blen (truncate_utf8_bytes value max_bytes) <= max_bytes.
Proof.
  intros Hu. unfold truncate_utf8_bytes. destruct (blen value <=? max_bytes) eqn:E.
  - apply N.leb_le in E. exists (char_indices value), []. rewrite app_nil_r, encode_char_indices. done.
  - destruct (boundary_below_ok (N.to_nat max_bytes) value) as [(l1 & l2 & Hl & Hsize)%boundary_at_true Hle].
    exists l1, l2. assert (str_take (boundary_below (N.to_nat max_bytes) value) value = encode l1) as ->.
    { rewrite <- (encode_char_indices value) at 2. rewrite Hl, encode_app.
      replace (boundary_below (N.to_nat max_bytes) value) with (String.length (encode l1)); [apply str_take_append|].
      rewrite <- blen_encode in Hsize. unfold blen in Hsize. lia. }
    split_and!; [done|done| |].
    + apply (char_indices_part value [] l1 l2); done.
    + rewrite blen_encode, <- Hsize. lia.
Qed.
Lemma split_pieces_first p cur l : exists piece rest, split_pieces p cur l = (cur ++ piece)%string :: rest.
Proof.
  revert cur. induction l as [|[c e] l IH]; intros cur; cbn [split_pieces].
  - exists EmptyString, []. by rewrite append_nil_r.
  - destruct (p c).
    + exists EmptyString, (split_pieces p EmptyString l). by rewrite append_nil_r.
    + destruct (IH (cur ++ e)%string) as (piece & rest & ->). exists (e ++ piece)%string, rest. by rewrite append_assoc.
Qed.
(** The pieces of what is left begin pieces of the whole. *)
Lemma split_pieces_prefix p cur l1 l2 piece : piece ∈ split_pieces p cur l1 ->
  exists rest, (piece ++ rest)%string ∈ split_pieces p cur (l1 ++ l2).
Proof.
  revert cur. induction l1 as [|[c e] l1 IH]; intros cur; cbn [split_pieces app].
  - intros ->%list_elem_of_singleton. destruct (split_pieces_first p cur l2) as (rest & k & ->). exists rest. left.
  - destruct (p c); [|apply IH]. intros [->|Hp]%elem_of_cons.
    + exists EmptyString. rewrite append_nil_r. left.
    + destruct (IH _ Hp) as [rest Hr]. exists rest. by right.
Qed.
Lemma absolute_prefix value rest : is_absolute_local_path value = true -> is_absolute_local_path (value ++ rest) = true.
Proof.
  unfold is_absolute_local_path, is_absolute_path. rewrite bytes_app, !orb_true_iff, !andb_true_iff.
  intros [(t & ->)%starts_with_true|[H1 H2]]; [left|right].
  - rewrite append_assoc. apply starts_with_append.
  - split.
    + destruct (nth_error (bytes value) 1) eqn:E; [|done]. rewrite nth_error_app1; [by rewrite E|]. apply nth_error_Some. congruence.
    + destruct (nth_error (bytes value) 2) eqn:E; [|done]. rewrite nth_error_app1; [by rewrite E|]. apply nth_error_Some. congruence.
Qed.
Lemma contains_absolute_true value : contains_absolute_local_path value = true <->
  is_absolute_local_path value = true \/ exists token, token ∈ split path_boundary value /\ token <> EmptyString /\
    is_absolute_local_path token = true.
Proof.
  unfold contains_absolute_local_path. rewrite orb_true_iff, any_true. setoid_rewrite elem_of_filter_bool.
  setoid_rewrite negb_true_iff. setoid_rewrite is_empty_false. naive_solver.
Qed.
(** Cutting a text does not bring a path out. *)
Lemma truncate_no_path value max_bytes : from_utf8 value = true -> contains_absolute_local_path value = false ->
  contains_absolute_local_path (truncate_utf8_bytes value max_bytes) = false.
Proof.
  intros Hu Hno. destruct (truncate_part value max_bytes Hu) as (l1 & l2 & Hl & -> & Hl1 & _).
  apply not_true_is_false. rewrite contains_absolute_true. intros Habs. apply not_true_iff_false in Hno. apply Hno.
  apply contains_absolute_true. destruct Habs as [Ha|(token & Ht & Hne & Ha)].
  - left. rewrite <- (encode_char_indices value), Hl, encode_app. by apply absolute_prefix.
  - right. unfold split in *. rewrite Hl1 in Ht. destruct (split_pieces_prefix path_boundary "" l1 l2 token Ht) as [rest Hr].
    exists (token ++ rest)%string. rewrite Hl. split_and!; [done| |by apply absolute_prefix].
    destruct token; [done|]. by rewrite append_cons.
Qed.
Lemma omitted_shown key : withheld key OMITTED = false.
Proof. unfold withheld. assert (contains_sensitive_path OMITTED = false) as -> by reflexivity. rewrite andb_false_r. reflexivity. Qed.

(** * What is shown *)

(** The keys whose values stay on this machine, and the keys of excerpts, as a
    response promises them. *)
Definition private_keys : list string :=
  ["repo_path"; "repository_path"; "database_path"; "command"; "raw_prompt"; "prompt"; "email"; "author_email";
   "content_hash"; "credential"; "credentials"].
Definition excerpt (key : option string) : Prop :=
  exists k, key = Some k /\ k ∈ ["summary"; "detail"; "excerpt"; "text"; "subject"; "title"; "label"]%string.
Lemma excerpt_iff key : is_some_and key is_excerpt_key = true <-> excerpt key.
Proof.
  unfold excerpt. destruct key as [k|]; cbn; [|naive_solver]. unfold is_excerpt_key. rewrite elemb_true. naive_solver.
Qed.
Lemma removed_private k : elemb k removed_keys = true <-> k ∈ private_keys.
Proof. apply elemb_true. Qed.
Lemma kept_not_private k : elemb k removed_keys = false <-> k ∉ private_keys.
Proof. apply elemb_false. Qed.
(** Every text of a value is a Rust string. *)
Inductive texts_valid : Value -> Prop :=
| valid_null : texts_valid ValueNull
| valid_bool b : texts_valid (ValueBool b)
| valid_number n : texts_valid (ValueNumber n)
| valid_string s : from_utf8 s = true -> texts_valid (ValueString s)
| valid_array l : Forall texts_valid l -> texts_valid (ValueArray l)
| valid_object m : Forall (fun e => texts_valid (snd e)) m -> texts_valid (ValueObject m).
(** Text that may be shown under a key: it shows no path of this machine, an
    excerpt is within its bound, and it was withheld, or is not private, or is the
    start of an excerpt over the bound that is not private as a whole. *)
Record text_shown (key : option string) (text : string) : Prop := {
  ts_path : ~ shows_local_path text;
  ts_bound : excerpt key -> blen text <= 2048;
  ts_checked : text = "[redacted]"%string \/ ~ private_text key text \/
    excerpt key /\ exists rest, 2048 < blen (text ++ rest) /\ ~ private_text key (text ++ rest)
}.
Inductive shown : option string -> Value -> Prop :=
| shown_null key : shown key ValueNull
| shown_bool key b : shown key (ValueBool b)
| shown_number key n : shown key (ValueNumber n)
| shown_string key text : text_shown key text -> shown key (ValueString text)
| shown_array key l : Forall (shown key) l -> shown key (ValueArray l)
| shown_object key m : Forall (fun e => fst e ∉ private_keys /\ shown (Some (fst e)) (snd e)) m -> shown key (ValueObject m).
Lemma withheld_path key text : withheld key text = false -> contains_absolute_local_path text = false.
Proof. unfold withheld. rewrite !orb_false_iff. tauto. Qed.
Lemma sanitize_text_shown key text : from_utf8 text = true -> text_shown key (sanitize_text key text).
Proof.
  intros Hu. unfold sanitize_text. destruct (withheld key text) eqn:Hw.
  - split; [by apply no_local_path|intros _; by compute|by left].
  - pose proof (withheld_path _ _ Hw) as Hp. destruct (is_some_and key is_excerpt_key && _) eqn:E.
    + apply andb_true_iff in E as [Hk%excerpt_iff Hlong%N.ltb_lt].
      destruct (truncate_part text MAX_EXCERPT_BYTES Hu) as (l1 & l2 & Hl & Hcut & _ & Hlen). split.
      * by apply no_local_path, truncate_no_path.
      * done.
      * right. right. split; [done|]. exists (encode l2). rewrite Hcut, <- encode_app, <- Hl, encode_char_indices.
        split; [done|by apply not_withheld].
    + split; [by apply no_local_path| |right; left; by apply not_withheld]. intros Hk%excerpt_iff. rewrite Hk in E.
      by apply N.ltb_ge in E.
Qed.
(** [sanitize_map], as the source composes it: the keys go, then what is left is
    sanitized. *)
Definition sanitize_map (m : list (string * Value)) : list (string * Value) :=
  map (fun e => (fst e, sanitize_value (Some (fst e)) (snd e))) (List.filter (fun e => negb (elemb (fst e) removed_keys)) m).
Lemma sanitize_object key m : sanitize_value key (ValueObject m) = ValueObject (sanitize_map m).
Proof.
  cbn [sanitize_value]. f_equal. unfold sanitize_map. induction m as [|[k v] m IH]; [done|]. cbn [List.filter fst].
  destruct (elemb k removed_keys); cbn [negb map fst snd]; [done|]. by rewrite IH.
Qed.
Lemma sanitize_value_shown value key : texts_valid value -> shown key (sanitize_value key value).
Proof.
  revert key. induction value as [| | |s|l IH|m IH] using Value_induction; intros key Hv; inversion Hv as [| | |? Hs|? Hl|? Hm]; subst;
    [constructor..| | |].
  - constructor. by apply sanitize_text_shown.
  - cbn [sanitize_value]. constructor. apply Forall_forall. intros v (w & -> & Hw)%list_elem_of_fmap.
    rewrite !Forall_forall in *. by apply IH, Hl.
  - rewrite sanitize_object. constructor. apply Forall_forall.
    intros e ([k v] & -> & [Hin Hk]%elem_of_filter_bool)%list_elem_of_fmap. cbn [fst snd] in *. rewrite !Forall_forall in *.
    split; [by apply kept_not_private, negb_true_iff|]. by apply (IH (k, v)), (Hm (k, v)).
Qed.

(** * What is left alone *)

(** Nothing of it would be withheld or cut. *)
Inductive harmless : option string -> Value -> Prop :=
| harmless_null key : harmless key ValueNull
| harmless_bool key b : harmless key (ValueBool b)
| harmless_number key n : harmless key (ValueNumber n)
| harmless_string key text : ~ private_text key text -> (excerpt key -> blen text <= 2048) ->
    harmless key (ValueString text)
| harmless_array key l : Forall (harmless key) l -> harmless key (ValueArray l)
| harmless_object key m : Forall (fun e => fst e ∉ private_keys /\ harmless (Some (fst e)) (snd e)) m ->
    harmless key (ValueObject m).
Lemma str_take_length n s : (String.length (str_take n s) <= n)%nat.
Proof. revert s. induction n as [|n IH]; intros [|c s]; cbn; [lia..|]. specialize (IH s). lia. Qed.
Lemma truncate_bound value max_bytes : blen (truncate_utf8_bytes value max_bytes) <= max_bytes.
Proof.
  unfold truncate_utf8_bytes. destruct (blen value <=? max_bytes) eqn:E; [by apply N.leb_le in E|].
  pose proof (str_take_length (boundary_below (N.to_nat max_bytes) value) value) as H1.
  destruct (boundary_below_ok (N.to_nat max_bytes) value) as [_ H2]. unfold blen. lia.
Qed.
Lemma sanitize_text_same key text : sanitize_text key text = text <->
  ~ private_text key text /\ (excerpt key -> blen text <= 2048).
Proof.
  rewrite <- not_withheld. unfold sanitize_text. destruct (withheld key text) eqn:Hw.
  - split; [|by intros []]. intros <-. by rewrite omitted_shown in Hw.
  - destruct (is_some_and key is_excerpt_key) eqn:Hk; cbn [andb].
    + pose proof Hk as He%excerpt_iff. destruct (MAX_EXCERPT_BYTES <? blen text) eqn:E.
      * apply N.ltb_lt in E. unfold MAX_EXCERPT_BYTES in *. split; [|intros [_ H]; specialize (H He); lia].
        intros H. pose proof (truncate_bound text 2048) as Hb. rewrite H in Hb. lia.
      * apply N.ltb_ge in E. naive_solver.
    + split; [|done]. intros _. split; [done|]. intros He%excerpt_iff. congruence.
Qed.
Lemma sanitize_map_length m : (length (sanitize_map m) <= length m)%nat.
Proof. unfold sanitize_map. rewrite length_map. apply List.filter_length_le. Qed.
Lemma sanitize_map_same m : sanitize_map m = m <->
  Forall (fun e => fst e ∉ private_keys /\ sanitize_value (Some (fst e)) (snd e) = snd e) m.
Proof.
  induction m as [|[k v] m IH]; [done|]. rewrite Forall_cons, <- IH. cbn [fst snd].
  assert (sanitize_map ((k, v) :: m) = (if elemb k removed_keys then [] else [(k, sanitize_value (Some k) v)]) ++ sanitize_map m) as ->.
  { unfold sanitize_map. cbn [List.filter fst]. by destruct (elemb k removed_keys). }
  destruct (elemb k removed_keys) eqn:E; cbn [app].
  - apply removed_private in E. split; [|naive_solver]. intros H. pose proof (sanitize_map_length m) as Hl.
    rewrite H in Hl. cbn in Hl. lia.
  - apply kept_not_private in E. split; [intros [= H1 H2]; by rewrite H1|by intros [[_ ->] ->]].
Qed.
Lemma map_same {A} (f : A -> A) (l : list A) : map f l = l <-> Forall (fun v => f v = v) l.
Proof.
  induction l as [|v l IH]; [done|]. cbn [map]. rewrite Forall_cons, <- IH.
  split; [by intros [= H1 H2]|by intros [-> ->]].
Qed.
Lemma sanitize_value_same value key : sanitize_value key value = value <-> harmless key value.
Proof.
  revert key. induction value as [| | |s|l IH|m IH] using Value_induction; intros key.
  1-3: split; [constructor|done].
  - cbn [sanitize_value]. split.
    + intros [= [H1 H2]%sanitize_text_same]. by constructor.
    + inversion 1 as [| | |? ? H1 H2| |]; subst. by rewrite (proj2 (sanitize_text_same key s)).
  - cbn [sanitize_value]. transitivity (Forall (fun v => sanitize_value key v = v) l).
    + split; [intros [= H]|intros H; f_equal]; by apply map_same.
    + rewrite Forall_forall in IH. split.
      * intros H. constructor. rewrite Forall_forall in *. intros v Hv. by apply IH; auto.
      * inversion 1 as [| | | |? ? Hl|]; subst. rewrite Forall_forall in *. intros v Hv. by apply IH; auto.
  - rewrite sanitize_object. transitivity (sanitize_map m = m); [split; [by intros [= H]|by intros ->]|]. rewrite sanitize_map_same.
    rewrite Forall_forall in IH. split.
    + intros H. constructor. rewrite Forall_forall in *. intros e He. destruct (H e He). split; [done|]. by apply IH.
    + inversion 1 as [| | | | |? ? Hm]; subst. rewrite Forall_forall in *. intros e He. destruct (Hm e He). split; [done|]. by apply IH.
Qed.

(** * The command of an invocation *)

(** Every object of a value is a map. *)
Inductive value_wf : Value -> Prop :=
| wf_null : value_wf ValueNull
| wf_bool b : value_wf (ValueBool b)
| wf_number n : value_wf (ValueNumber n)
| wf_string s : value_wf (ValueString s)
| wf_array l : Forall value_wf l -> value_wf (ValueArray l)
| wf_object (m : list (string * Value)) : map_wf m -> Forall (fun e => value_wf (snd e)) m -> value_wf (ValueObject m).
Lemma map_get_sanitize k (m : list (string * Value)) : map_get k (sanitize_map m) =
  if elemb k removed_keys then None else sanitize_value (Some k) <$> map_get k m.
Proof.
  unfold sanitize_map. induction m as [|[k' v] m IH]; cbn [List.filter fst map_get]; [by destruct (elemb k removed_keys)|].
  destruct (cmp k k') eqn:E; [apply cmp_eq_iff in E as <-| |].
  1: destruct (elemb k removed_keys) eqn:Hk; cbn [negb map map_get fst snd]; [done|by rewrite cmp_refl].
  all: destruct (elemb k' removed_keys); cbn [negb map map_get fst snd]; [done|by rewrite E].
Qed.
Lemma value_get_sanitize k key value : value_get k (sanitize_value key value) =
  if elemb k removed_keys then None else sanitize_value (Some k) <$> value_get k value.
Proof.
  unfold value_get. destruct value as [| | | | |m]; try by destruct (elemb k removed_keys).
  rewrite sanitize_object. apply map_get_sanitize.
Qed.
Lemma pointer_sanitize tokens key value : Forall (fun t => t ∉ removed_keys) tokens ->
  pointer tokens (sanitize_value key value) = sanitize_value (default key (Some <$> last tokens)) <$> pointer tokens value.
Proof.
  intros Ht. revert key value. induction Ht as [|t tokens Ht Hts IH]; intros key value; [done|].
  cbn [pointer]. rewrite value_get_sanitize. apply elemb_false in Ht as ->.
  destruct (value_get t value) as [v|]; [|done]. cbn [fmap option_fmap option_map mbind option_bind].
  rewrite IH. f_equal. f_equal. destruct tokens as [|t' tokens]; [done|]. rewrite last_cons_cons.
  destruct (last (t' :: tokens)) eqn:E; [done|]. by apply last_None in E.
Qed.
Lemma wf_lookup (m : list (string * Value)) k v : value_wf (ValueObject m) -> map_get k m = Some v -> map_wf m /\ value_wf v.
Proof.
  inversion 1 as [| | | | |? Hm Hvs]; subst. intros Hv%map_get_Some; [|done]. split; [done|].
  rewrite Forall_forall in Hvs. by apply (Hvs (k, v)).
Qed.
Lemma pointer_update_twice tokens f g value : value_wf value ->
  pointer_update tokens g (pointer_update tokens f value) = pointer_update tokens (fun v => g (f v)) value.
Proof.
  revert value. induction tokens as [|t tokens IH]; intros value Hv; [done|].
  destruct value as [| | | | |m]; try done. cbn [pointer_update]. destruct (map_get t m) as [v|] eqn:Hg; [|by rewrite Hg].
  destruct (wf_lookup _ _ _ Hv Hg) as [Hm Hw]. rewrite map_get_insert_eq, IH by done. f_equal.
  apply map_ext_get; [auto with ordered..|]. intros k. rewrite !map_get_insert by auto with ordered. by destruct (cmp k t).
Qed.
Lemma pointer_updated tokens f value : value_wf value ->
  pointer tokens (pointer_update tokens f value) = f <$> pointer tokens value.
Proof.
  revert value. induction tokens as [|t tokens IH]; intros value Hv; [done|].
  destruct value as [| | | | |m]; try done. cbn [pointer_update pointer]. unfold value_get. cbn [as_object mbind option_bind].
  destruct (map_get t m) as [v|] eqn:Hg; [|cbn [as_object mbind option_bind]; by rewrite Hg].
  destruct (wf_lookup _ _ _ Hv Hg) as [Hm Hw]. cbn [as_object mbind option_bind]. rewrite map_get_insert_eq by done. by apply IH.
Qed.
Lemma sanitize_map_wf (m : list (string * Value)) : map_wf m -> map_wf (sanitize_map m).
Proof.
  unfold map_wf, sanitize_map, map_keys. rewrite map_map. cbn [fst]. intros Hm.
  induction m as [|[k v] m IH]; cbn [List.filter map fst] in *; [done|]. apply StronglySorted_inv in Hm as [Hm Hk].
  destruct (elemb k removed_keys); cbn [negb map fst]; [by apply IH|]. constructor; [by apply IH|].
  rewrite Forall_forall in *. intros k' (e & -> & [He _]%elem_of_filter_bool)%list_elem_of_fmap. apply Hk.
  by apply list_elem_of_fmap_2.
Qed.
Lemma sanitize_wf key value : value_wf value -> value_wf (sanitize_value key value).
Proof.
  revert key. induction value as [| | |s|l IH|m IH] using Value_induction; intros key Hv; [constructor..| |];
    inversion Hv as [| | | |? Hl|? Hm Hvs]; subst; rewrite Forall_forall in *.
  - cbn [sanitize_value]. constructor. apply Forall_forall. intros v (w & -> & Hw)%list_elem_of_fmap. by apply IH, Hl.
  - rewrite sanitize_object. constructor; [by apply sanitize_map_wf|]. apply Forall_forall.
    intros e (e' & -> & [Hin _]%elem_of_filter_bool)%list_elem_of_fmap. cbn [snd]. by apply IH, Hvs.
Qed.
Lemma pointer_update_same tokens f value : value_wf value -> (forall v, pointer tokens value = Some v -> f v = v) ->
  pointer_update tokens f value = value.
Proof.
  revert value. induction tokens as [|t tokens IH]; intros value Hv Hf; [by apply Hf|].
  destruct value as [| | | | |m]; try done. cbn [pointer_update]. destruct (map_get t m) as [v|] eqn:Hg; [|done].
  destruct (wf_lookup _ _ _ Hv Hg) as [Hm Hw]. rewrite IH; [|done|].
  - f_equal. apply map_ext_get; [auto with ordered..|]. intros k. rewrite map_get_insert by done.
    destruct (cmp k t) eqn:E; [|done..]. by apply cmp_eq_iff in E as ->.
  - intros w Hp. apply Hf. cbn [pointer]. unfold value_get. cbn [as_object mbind option_bind]. by rewrite Hg.
Qed.
Lemma restore_commands_lookup events commands i event : events !! i = Some event ->
  restore_commands events commands !! i = Some (default event (restore_command event <$> commands !! i)).
Proof.
  revert commands i. induction events as [|e events IH]; intros commands i; [done|].
  destruct commands as [|c commands]; [intros Hi; cbn [restore_commands]; by rewrite Hi|].
  destruct i as [|i]; cbn [restore_commands lookup list_lookup]; [by intros [= ->]|]. apply IH.
Qed.
Lemma restore_commands_length events commands : length (restore_commands events commands) = length events.
Proof. revert commands. induction events as [|e events IH]; intros [|c commands]; cbn; [done..|]. by rewrite IH. Qed.
Lemma supported_of_object event command : supported_command event = Some command ->
  exists m, event = ValueObject m /\ value_get "command" event = Some (ValueString command) /\ command ∈ SUPPORTED_COMMANDS.
Proof.
  unfold supported_command. intros (c & (v & Hv & Hc)%bind_Some & Hs)%bind_Some.
  destruct v; try done. injection Hc as ->.
  destruct (_ && elemb c SUPPORTED_COMMANDS) eqn:E; [|done]. injection Hs as ->.
  apply andb_true_iff in E as [_ E%elemb_true]. destruct event; try done. eauto.
Qed.
Lemma is_text_true text value : is_text text value = true <-> value = Some (ValueString text).
Proof.
  unfold is_text. destruct value as [[| | |s| |]|]; try done. rewrite seqb_true. split; [by intros ->|by intros [= ->]].
Qed.
(** The command of a recorded invocation. *)
Record command_of (event : Value) (name : string) : Prop := {
  co_command : value_get "command" event = Some (ValueString name);
  co_supported : name ∈ SUPPORTED_COMMANDS;
  co_recorded : value_get "source_schema_version" event = Some (ValueString "codevetter.skill-invocation/v1");
  co_provenance : value_get "command_provenance" event = Some (ValueString "invocation_metadata")
}.
Lemma supported_command_exact event name : supported_command event = Some name <-> command_of event name.
Proof.
  unfold supported_command. split.
  - intros (c & (v & Hv & Hc)%bind_Some & Hs)%bind_Some. destruct v; try done. injection Hc as ->.
    destruct (_ && elemb c SUPPORTED_COMMANDS) eqn:E; [|done]. injection Hs as ->.
    rewrite !andb_true_iff, !is_text_true, elemb_true in E. destruct E as [[H1 H2] H3]. by split.
  - intros [-> Hs%elemb_true -> ->]. cbn [mbind option_bind as_str]. by rewrite !(proj2 (is_text_true _ _)), Hs by done.
Qed.
(** What an event shows after its command was put back. *)
Lemma restored_get event place key : value_wf event ->
  value_get key (restore_command (sanitize_value place event) (supported_command event)) =
  if seqb key "command" then ValueString <$> supported_command event else value_get key (sanitize_value place event).
Proof.
  intros Hwf. pose proof (sanitize_wf place event Hwf) as Hs. destruct (supported_command event) as [c|] eqn:Hc.
  - destruct (supported_of_object _ _ Hc) as (m & -> & _). rewrite sanitize_object in *. cbn [restore_command].
    inversion Hs as [| | | | |? Hm _]; subst. unfold value_get. cbn [as_object mbind option_bind].
    rewrite map_get_insert by done. unfold seqb. case_bool_decide as E.
    + subst. by rewrite cmp_refl.
    + destruct (cmp key "command") eqn:Ec; [by apply cmp_eq_iff in Ec|done..].
  - assert (restore_command (sanitize_value place event) None = sanitize_value place event) as ->
      by (by destruct (sanitize_value place event)).
    unfold seqb. case_bool_decide as E; [|done]. subst. by rewrite value_get_sanitize.
Qed.
Lemma pointer_wf tokens value inner : value_wf value -> pointer tokens value = Some inner -> value_wf inner.
Proof.
  revert value. induction tokens as [|t tokens IH]; intros value Hv; cbn [pointer]; [by intros [= <-]|].
  intros (v & Hget & Hp)%bind_Some. unfold value_get in Hget. destruct value as [| | | | |m]; try done.
  cbn [as_object mbind option_bind] in Hget. by apply (IH v); [apply (wf_lookup m t v)|].
Qed.
