(* ===== verification/McpScope.v ===== *)
(** [src/crates/codevetter-core/src/mcp/uri.rs] and [mcp/cursor.rs]: the addresses
    of history resources, which name the repository they belong to, and the
    cursors of a paged request, which carry the request they belong to.  Base64
    and the JSON of a cursor are parameters. *)
From S2P Require Import Prelude Ordering RustText Utf8 Paths JsonValue.
Local Open Scope N_scope.

(** ** Resource addresses (uri.rs) *)

Definition SCHEME : string := "codevetter-history".
Definition RESOURCE_KINDS : list string :=
  ["repository"; "graph"; "snapshot"; "community"; "release"; "landmark-catalog"; "contributor-summary"; "commit"; "episode";
   "entity-lineage"; "causal-thread"; "annotation"; "evidence"; "archaeology-catalog"; "archaeology-rule"; "archaeology-domain";
   "archaeology-source"; "archaeology-relations"; "archaeology-temporal"; "archaeology-evidence"].
Record HistoryResourceUri : Type := { uri_repo_id : string; uri_kind : string; uri_id : string }.
Definition id_byte (b : N) : bool := is_ascii_alphanumeric b || (b =? 45) || (b =? 95).
Definition validate_repo_id (repo_id : string) : outcome unit :=
  if (blen repo_id <? 16) || (128 <? blen repo_id) || negb (forallb id_byte (bytes repo_id))
  then Err "Invalid opaque CodeVetter repository identity" else Ok ().
Definition HistoryResourceUri_new (repo_id kind id : string) : outcome HistoryResourceUri :=
  _ ← validate_repo_id repo_id;
  if negb (elemb kind RESOURCE_KINDS) then Err "Unknown CodeVetter history resource kind"
  else if is_empty id || (4096 <? blen id) || any is_control (chars id)
  then Err "Invalid CodeVetter history resource identifier"
  else Ok {| uri_repo_id := repo_id; uri_kind := kind; uri_id := id |}.
(** A question mark, a number sign, a backslash. *)
Definition uri_forbidden (c : N) : bool := elemb c [63; 35; 92].

Section Base64.
Context (base64_encode : string -> string) (base64_decode : string -> option string).

Definition uri_to_string (uri : HistoryResourceUri) : string :=
  SCHEME ++ "://" ++ uri_repo_id uri ++ "/" ++ uri_kind uri ++ "/" ++ base64_encode (uri_id uri).
Definition HistoryResourceUri_parse (raw expected_repo_id : string) : outcome HistoryResourceUri :=
  match strip_prefix (SCHEME ++ "://") raw with
  | None => Err "Invalid CodeVetter history resource scheme"
  | Some remainder =>
      if any uri_forbidden (chars remainder) || str_contains ".." remainder
      then Err "Invalid CodeVetter history resource URI"
      else
        let segments := split (N.eqb 47) remainder in
        let repo_id := default EmptyString (segments !! 0%nat) in
        let kind := default EmptyString (segments !! 1%nat) in
        let encoded_id := default EmptyString (segments !! 2%nat) in
        if is_some (segments !! 3%nat) || negb (seqb repo_id expected_repo_id)
        then Err "CodeVetter history resource is outside this repository scope"
        else
          _ ← validate_repo_id repo_id;
          if negb (elemb kind RESOURCE_KINDS) then Err "Unknown CodeVetter history resource kind"
          else match base64_decode encoded_id with
               | Some decoded =>
                   if from_utf8 decoded then HistoryResourceUri_new repo_id kind decoded
                   else Err "Malformed CodeVetter history resource identifier"
               | None => Err "Malformed CodeVetter history resource identifier"
               end
  end.

(** ** Cursors (cursor.rs) *)

Record McpCursor : Type := {
  cursor_version : N; cursor_repo_id : string; cursor_operation : string; cursor_offset : N; cursor_fingerprint : string;
  cursor_position : option Value
}.
Definition McpCursor_new (repo_id operation : string) (offset : N) (fingerprint : string) : McpCursor :=
  {| cursor_version := 1; cursor_repo_id := repo_id; cursor_operation := operation; cursor_offset := offset;
     cursor_fingerprint := fingerprint; cursor_position := None |}.
Definition with_position (cursor : McpCursor) (position : Value) : McpCursor :=
  {| cursor_version := cursor_version cursor; cursor_repo_id := cursor_repo_id cursor; cursor_operation := cursor_operation cursor;
     cursor_offset := cursor_offset cursor; cursor_fingerprint := cursor_fingerprint cursor; cursor_position := Some position |}.
Context (cursor_to_vec : McpCursor -> string + string) (cursor_from_slice : string -> option McpCursor).

Definition McpCursor_encode (cursor : McpCursor) : outcome string :=
  match cursor_to_vec cursor with
  | inr bytes => Ok (base64_encode bytes)
  | inl error => Err ("Encode MCP cursor: " ++ error)
  end.
Definition McpCursor_decode (raw repo_id operation fingerprint : string) : outcome McpCursor :=
  if 2048 <? blen raw then Err "Invalid MCP cursor"
  else match base64_decode raw with
       | None => Err "Invalid MCP cursor"
       | Some bytes =>
           match cursor_from_slice bytes with
           | None => Err "Invalid MCP cursor"
           | Some cursor =>
               if negb (cursor_version cursor =? 1) || negb (seqb (cursor_repo_id cursor) repo_id)
                  || negb (seqb (cursor_operation cursor) operation) || negb (seqb (cursor_fingerprint cursor) fingerprint)
               then Err "MCP cursor does not belong to this request"
               else Ok cursor
           end
       end.
(** [cursor.position::<T>()], with the deserializer of [T]. *)
Definition position_as {T} (from_value : Value -> option T) (cursor : McpCursor) : outcome (option T) :=
  match cursor_position cursor with
  | None => Ok None
  | Some value =>
      match from_value value with Some position => Ok (Some position) | None => Err "Invalid MCP cursor position" end
  end.
End Base64.

(** ** The source's tests, with hexadecimal text in place of base64 *)

Definition hex_value (c : Ascii.ascii) : option N :=
  let b := byte_of c in
  if is_ascii_digit b then Some (b - 48) else if in_range 97 102 b then Some (b - 87) else None.
Fixpoint unhex (s : string) : option string :=
  match s with
  | EmptyString => Some EmptyString
  | String a (String b s) => x ← hex_value a; y ← hex_value b; rest ← unhex s; Some (String (char_of (16 * x + y)) rest)
  | String _ EmptyString => None
  end.
Definition ex_repo : string := "repo_0123456789abcdef".
Definition ex_uri : HistoryResourceUri := {| uri_repo_id := ex_repo; uri_kind := "commit"; uri_id := "feature/a b#c" |}.
Example ex_uri_ok : HistoryResourceUri_new ex_repo "commit" "feature/a b#c" = Ok ex_uri /\
  HistoryResourceUri_parse unhex (uri_to_string hex ex_uri) ex_repo = Ok ex_uri /\
  HistoryResourceUri_parse unhex (uri_to_string hex ex_uri) "repo_different123456" =
    Err "CodeVetter history resource is outside this repository scope" /\
  map (fun rest => HistoryResourceUri_parse unhex (SCHEME ++ "://" ++ ex_repo ++ rest) ex_repo)
    ["/release/../evidence"; "/release/"; "/unknown/6a"; "/release/%%%"; "/release/6a?cursor=1"; "/release/6a/extra"]%string =
    [Err "Invalid CodeVetter history resource URI"; Err "Invalid CodeVetter history resource identifier";
     Err "Unknown CodeVetter history resource kind"; Err "Malformed CodeVetter history resource identifier";
     Err "Invalid CodeVetter history resource URI"; Err "CodeVetter history resource is outside this repository scope"].
Proof. split_and!; vm_compute; reflexivity. Qed.
