(* ===== verification/McpScopeProps.v ===== *)
(** Resource addresses and cursors read back: exactly what was printed, in its own
    scope only. *)
From S2P Require Import Prelude Ordering RustText Utf8 Paths JsonValue McpScope.
Local Open Scope N_scope.

(** * Text of ASCII *)

Lemma strip_prefix_Some p s rest : strip_prefix p s = Some rest <-> s = (p ++ rest)%string.
Proof.
  unfold strip_prefix. destruct (starts_with p s) eqn:E.
  - apply starts_with_true in E as [t ->]. rewrite str_drop_append. split; [by intros [= ->]|].
    intros ->%append_inj_l. done.
  - split; [done|]. intros ->. by rewrite starts_with_append in E.
Qed.
Lemma find_after_Some needle s rest : find_after needle s = Some rest -> exists before, s = (before ++ needle ++ rest)%string.
Proof.
  induction s as [|c s IH]; cbn [find_after]; (destruct (starts_with needle _) eqn:E;
    [apply starts_with_true in E as [t Ht]; rewrite Ht, str_drop_append; intros [= ->]; by exists EmptyString|]); [done|].
  intros [before ->]%IH. by exists (String c before).
Qed.
Definition ascii (s : string) : Prop := Forall (fun b => b < 128) (bytes s).
Lemma ascii_char_indices s : ascii s -> char_indices s = map (fun c => (byte_of c, String c "")) (String.list_ascii_of_string s).
Proof.
  unfold ascii. induction s as [|c s IH]; intros Hs; [done|]. cbn [bytes] in Hs. apply Forall_cons in Hs as [Hc Hs].
  rewrite <- (append_nil_l (String c s)), char_indices_ascii by done. cbn [String.list_ascii_of_string map]. by rewrite IH.
Qed.
Lemma ascii_chars s : ascii s -> chars s = bytes s.
Proof.
  intros Hs. unfold chars. rewrite ascii_char_indices by done. rewrite map_map. clear Hs.
  induction s as [|c s IH]; [done|]. cbn [String.list_ascii_of_string map bytes]. by rewrite IH.
Qed.
Lemma from_utf8_after s c t : byte_of c < 128 -> from_utf8 (s ++ String c t) = true -> from_utf8 t = true.
Proof.
  intros Hc. unfold from_utf8. rewrite char_indices_ascii, forallb_app by done. cbn [forallb].
  rewrite !andb_true_iff. tauto.
Qed.
Lemma split_pieces_ne p cur l : exists x k, split_pieces p cur l = x :: k.
Proof. revert cur. induction l as [|[c e] l IH]; intros cur; cbn [split_pieces]; [eauto|]. destruct (p c); eauto. Qed.
Lemma concat_pieces cur l : Forall (fun ce => snd ce = encode_utf8 (fst ce)) l ->
  String.concat "/" (split_pieces (N.eqb 47) cur l) = (cur ++ encode l)%string.
Proof.
  intros Hl. revert cur. induction Hl as [|[c e] l He _ IH]; intros cur; cbn [split_pieces]; [by rewrite append_nil_r|].
  destruct (47 =? c) eqn:E.
  - apply N.eqb_eq in E as <-. cbn [fst snd] in He. rewrite encode_cons, He.
    destruct (split_pieces_ne (N.eqb 47) "" l) as (x & k & Hk). specialize (IH EmptyString). rewrite Hk in *.
    change (String.concat "/" (cur :: x :: k)) with (cur ++ "/" ++ String.concat "/" (x :: k))%string. by rewrite IH.
  - rewrite IH, encode_cons. by rewrite append_assoc.
Qed.
Lemma concat_split s : from_utf8 s = true -> String.concat "/" (split (N.eqb 47) s) = s.
Proof.
  intros Hs. unfold split. rewrite concat_pieces; [by rewrite append_nil_l, encode_char_indices|].
  unfold from_utf8 in Hs. rewrite forallb_forall in Hs. apply Forall_forall. intros ce Hin.
  apply list_elem_of_In, Hs, andb_true_iff in Hin as [_ He]. by apply seqb_true.
Qed.

(** * Addresses *)

(** What an address must be, apart from how it is written. *)
Record uri_ok (uri : HistoryResourceUri) : Prop := {
  uo_length : 16 <= blen (uri_repo_id uri) <= 128;
  uo_opaque : Forall (fun b => id_byte b = true) (bytes (uri_repo_id uri));
  uo_kind : uri_kind uri ∈ RESOURCE_KINDS;
  uo_id : uri_id uri <> EmptyString /\ blen (uri_id uri) <= 4096;
  uo_plain : Forall (fun c => is_control c = false) (chars (uri_id uri))
}.
Lemma validate_repo_id_ok repo_id : validate_repo_id repo_id = Ok () <->
  16 <= blen repo_id <= 128 /\ Forall (fun b => id_byte b = true) (bytes repo_id).
Proof.
  unfold validate_repo_id. destruct (_ || _) eqn:E.
  - split; [done|]. intros [Hl Hb]. exfalso. rewrite !orb_true_iff, !N.ltb_lt, negb_true_iff in E.
    destruct E as [[?|?]|E]; [lia..|]. apply not_true_iff_false in E. apply E, forallb_forall. intros b Hin.
    rewrite Forall_forall in Hb. by apply Hb, list_elem_of_In.
  - rewrite !orb_false_iff, !N.ltb_ge, negb_false_iff in E. destruct E as [[H1 H2] H3]. split; [|done]. intros _. split; [done|].
    rewrite forallb_forall in H3. apply Forall_forall. intros b Hin. by apply H3, list_elem_of_In.
Qed.
Lemma HistoryResourceUri_new_ok repo_id kind id uri : HistoryResourceUri_new repo_id kind id = Ok uri <->
  uri = {| uri_repo_id := repo_id; uri_kind := kind; uri_id := id |} /\ uri_ok uri.
Proof.
  unfold HistoryResourceUri_new. split.
  - destruct (validate_repo_id repo_id) as [[]| |] eqn:Hr; [|done..]. apply validate_repo_id_ok in Hr as [Hl Hb].
    cbn [mbind outcome_bind]. destruct (elemb kind RESOURCE_KINDS) eqn:Hk; [|done]. cbn [negb].
    destruct (_ || _) eqn:E; [done|]. intros [= <-]. split; [done|].
    rewrite !orb_false_iff, N.ltb_ge, is_empty_false, any_false in E. destruct E as [[Hne Hlen] Hc].
    split; cbn; [done|done|by apply elemb_true|done|]. apply Forall_forall. exact Hc.
  - intros [-> [Hl Hb Hk%elemb_true [Hne Hlen] Hc]]; cbn in *.
    rewrite (proj2 (validate_repo_id_ok repo_id)) by done. cbn [mbind outcome_bind]. rewrite Hk. cbn [negb].
    rewrite (proj2 (is_empty_false id)), (proj2 (N.ltb_ge 4096 _)) by done. rewrite (proj2 (any_false _ _)); [done|].
    by apply Forall_forall.
Qed.

Section Base64.
Context (base64_encode : string -> string) (base64_decode : string -> option string).
(** The alphabet of URL-safe base64 without padding; it decodes what it encoded,
    and nothing else. *)
Context (Halphabet : forall text, Forall (fun b => id_byte b = true) (bytes (base64_encode text))).
Context (Hdecode : forall text, base64_decode (base64_encode text) = Some text).
Context (Hcanonical : forall raw text, base64_decode raw = Some text -> base64_encode text = raw).
Context (Hempty : base64_encode EmptyString = EmptyString).
Abbreviation uri_to_string := (uri_to_string base64_encode).
Abbreviation HistoryResourceUri_parse := (HistoryResourceUri_parse base64_decode).

Definition remainder_byte (b : N) : bool := id_byte b || (b =? 47).
Lemma kind_bytes kind : kind ∈ RESOURCE_KINDS -> Forall (fun b => id_byte b = true) (bytes kind).
Proof.
  intros Hk. assert (Forall (fun kind => forallb id_byte (bytes kind) = true) RESOURCE_KINDS) as Hall by (repeat constructor).
  rewrite Forall_forall in Hall. specialize (Hall kind Hk). rewrite forallb_forall in Hall.
  apply Forall_forall. intros b Hb. by apply Hall, list_elem_of_In.
Qed.
Lemma id_byte_lt b : id_byte b = true -> b < 128.
Proof.
  unfold id_byte, is_ascii_alphanumeric, is_ascii_alphabetic, is_ascii_uppercase, is_ascii_lowercase, is_ascii_digit, in_range.
  rewrite !orb_true_iff, !andb_true_iff, !N.leb_le, !N.eqb_eq. lia.
Qed.
Lemma id_text_ascii s : Forall (fun b => id_byte b = true) (bytes s) -> ascii s.
Proof. intros Hs. apply (Forall_impl _ _ _ Hs). exact id_byte_lt. Qed.
Lemma id_text_free s : Forall (fun b => id_byte b = true) (bytes s) -> free_of (N.eqb 47) s.
Proof.
  intros Hs. unfold free_of. rewrite ascii_chars by (by apply id_text_ascii). apply (Forall_impl _ _ _ Hs).
  intros b Hb. apply not_true_iff_false. by intros <-%N.eqb_eq.
Qed.
(** Everything after the scheme of a printed address. *)
Lemma remainder_plain s : Forall (fun b => remainder_byte b = true) (bytes s) ->
  any uri_forbidden (chars s) = false /\ str_contains ".." s = false.
Proof.
  intros Hs. assert (ascii s) as Ha.
  { apply (Forall_impl _ _ _ Hs). intros b [Hb|Hb]%orb_true_iff; [by apply id_byte_lt|by apply N.eqb_eq in Hb as ->]. }
  rewrite ascii_chars by done. rewrite Forall_forall in Hs. split.
  - apply any_false. intros b Hb. apply not_true_iff_false. intros Hf%elemb_true. specialize (Hs b Hb).
    rewrite !elem_of_cons, elem_of_nil in Hf. by destruct Hf as [->|[->|[->|[]]]].
  - unfold str_contains. destruct (find_after ".." s) as [rest|] eqn:E; [|done]. exfalso.
    apply find_after_Some in E as [before ->]. specialize (Hs 46). rewrite !bytes_app in Hs. cbn in Hs.
    assert (false = true); [|done]. apply Hs. set_solver.
Qed.
Lemma parse_printed uri : uri_ok uri -> from_utf8 (uri_id uri) = true ->
  HistoryResourceUri_parse (uri_to_string uri) (uri_repo_id uri) = Ok uri.
Proof.
  intros Huri Htext. pose proof Huri as [Hl Hb Hk _ _]. pose proof (kind_bytes _ Hk) as Hkb.
  unfold HistoryResourceUri_parse, uri_to_string.
  rewrite (proj2 (strip_prefix_Some (SCHEME ++ "://") _ (uri_repo_id uri ++ "/" ++ uri_kind uri ++ "/" ++ base64_encode (uri_id uri))))
    by (by rewrite append_assoc).
  set (remainder := (uri_repo_id uri ++ _)%string).
  assert (remainder = String.concat "/" [uri_repo_id uri; uri_kind uri; base64_encode (uri_id uri)]) as Hr by done.
  destruct (remainder_plain remainder) as [-> ->].
  { subst remainder. rewrite !bytes_app, !Forall_app. unfold remainder_byte.
    split_and!; try (by repeat constructor); apply Forall_forall; intros b Hin; apply orb_true_iff; left.
    - rewrite Forall_forall in Hb. by apply Hb.
    - rewrite Forall_forall in Hkb. by apply Hkb.
    - specialize (Halphabet (uri_id uri)). rewrite Forall_forall in Halphabet. by apply Halphabet. }
  cbn [orb]. rewrite Hr, split_concat; [|done|repeat constructor; by apply id_text_free].
  cbn [lookup list_lookup from_option id is_some negb]. rewrite (proj2 (seqb_true _ _)) by done. cbn [orb negb].
  rewrite (proj2 (validate_repo_id_ok _)) by done. cbn [mbind outcome_bind]. rewrite (proj2 (elemb_true _ _)) by done. cbn [negb].
  rewrite Hdecode, Htext. apply HistoryResourceUri_new_ok. by destruct uri.
Qed.
Lemma parse_printed_only raw repo_id uri : from_utf8 raw = true -> HistoryResourceUri_parse raw repo_id = Ok uri ->
  raw = uri_to_string uri /\ uri_repo_id uri = repo_id /\ uri_ok uri /\ from_utf8 (uri_id uri) = true.
Proof.
  intros Hraw. unfold HistoryResourceUri_parse. destruct (strip_prefix _ raw) as [remainder|] eqn:Hp; [|done].
  apply strip_prefix_Some in Hp. destruct (_ || str_contains _ _); [done|].
  assert (from_utf8 remainder = true) as Hrem.
  { apply (from_utf8_after (SCHEME ++ ":/") (char_of 47)); [done|]. by rewrite Hp in Hraw. }
  pose proof (concat_split remainder Hrem) as Hcat. destruct (_ || negb (seqb _ repo_id)) eqn:Hscope; [done|].
  apply orb_false_iff in Hscope as [H3 Hrepo%negb_false_iff%seqb_true].
  destruct (validate_repo_id _) as [[]| |]; [|done..]. cbn [mbind outcome_bind].
  destruct (elemb _ RESOURCE_KINDS) eqn:Hk; [|done]. cbn [negb].
  destruct (base64_decode _) as [text|] eqn:Hd; [|done]. destruct (from_utf8 text) eqn:Hid; [|done].
  intros [Huri Hok]%HistoryResourceUri_new_ok. apply Hcanonical in Hd.
  destruct (split (N.eqb 47) remainder) as [|a [|b [|c [|d l]]]]; cbn [lookup list_lookup from_option id] in *; try done.
  - subst uri. destruct Hok as [_ _ _ [Hne _] _]. cbn in Hne. exfalso. apply Hne.
    assert (Some text = Some EmptyString) as [= ->]; [|done]. by rewrite <- (Hdecode text), <- (Hdecode EmptyString), Hd, Hempty.
  - subst uri. cbn [uri_repo_id uri_kind uri_id] in *. split_and!; [|done..].
    unfold uri_to_string. cbn [uri_repo_id uri_kind uri_id]. rewrite Hp, <- Hcat, Hd. cbn [String.concat]. by rewrite append_assoc.
Qed.
End Base64.
