(* ===== verification/McpTheorems.v ===== *)
(** The theorems of the MCP access layer: what a response may show, which command
    an invocation keeps, and that addresses and cursors are read back in their own
    scope only. *)
From S2P Require Import Prelude Ordering RustText Utf8 Paths SecretPolicy JsonValue McpSanitize PrivateText McpSanitizeProps McpScope McpScopeProps.
Local Open Scope N_scope.

(** * Responses *)

Lemma check_response_size_Ok json_value value response : check_response_size json_value value = Ok response ->
  response = value /\ exists length, json_value value = inr length /\ length <= MAX_RESPONSE_BYTES.
Proof.
  unfold check_response_size. destruct (json_value value) as [error|length]; [done|].
  destruct (MAX_RESPONSE_BYTES <? length) eqn:E; [done|]. intros [= <-]. apply N.ltb_ge in E. eauto.
Qed.
Definition ex_small : Value -> string + N := fun _ => inr 100.

(** * Invocations *)

Definition invocations_path : list string := ["data"; "data"; "invocations"]%string.
(** The envelope of [invocation_list]. *)
Definition is_invocation_list (value : Value) : bool :=
  is_text "invocation_list" (pointer ["data"; "operation"]%string value)
  && is_text "codevetter.invocation-events/v1" (pointer ["data"; "data"; "schema_version"]%string value).
Lemma invocations_path_kept : Forall (fun t => t ∉ removed_keys) invocations_path.
Proof. repeat constructor; by apply elemb_false. Qed.
(** Of the answer to [invocation_list] each event keeps its own command, if that
    is one of the supported commands of a recorded invocation, and is otherwise the
    sanitized event; nothing else of the response differs from the sanitized value,
    and no other response differs from it at all. *)
Theorem invocation_commands_restored json_value value response :
  value_wf value -> sanitize_invocation_response json_value value = Ok response ->
  pointer_update invocations_path (fun _ => ValueNull) response =
    pointer_update invocations_path (fun _ => ValueNull) (sanitize_value None value) /\
  (is_invocation_list value = false -> response = sanitize_value None value) /\
  forall events, is_invocation_list value = true -> pointer invocations_path value = Some (ValueArray events) ->
    exists shown_events, pointer invocations_path response = Some (ValueArray shown_events) /\
      length shown_events = length events /\
      forall i event, events !! i = Some event -> exists shown_event, shown_events !! i = Some shown_event /\
        (forall command, value_get "command" shown_event = Some command <->
          exists name, command = ValueString name /\ command_of event name) /\
        forall key, key <> "command"%string ->
          value_get key shown_event = value_get key (sanitize_value (Some "invocations"%string) event).
Proof.
  intros Hwf [-> _]%check_response_size_Ok. fold invocations_path. pose proof (sanitize_wf None value Hwf) as Hs.
  set (restore := fun events => _). assert (is_invocation_list value = false -> invocation_commands value = []) as Hno.
  { unfold is_invocation_list, invocation_commands. by intros ->. }
  split_and!.
  - by rewrite pointer_update_twice.
  - intros He. apply pointer_update_same; [done|]. intros v _. subst restore. cbv beta. rewrite Hno by done.
    destruct v; try done. by destruct l.
  - intros events He Hp. rewrite pointer_updated by done. rewrite pointer_sanitize by apply invocations_path_kept.
    rewrite Hp. cbn [fmap option_fmap option_map]. eexists. split; [reflexivity|].
    rewrite restore_commands_length, length_map. split; [done|]. intros i event Hi.
    assert (invocation_commands value = map supported_command events) as ->.
    { unfold is_invocation_list in He. unfold invocation_commands. rewrite He. fold invocations_path. by rewrite Hp. }
    rewrite (restore_commands_lookup _ _ i (sanitize_value (Some "invocations"%string) event)) by (by rewrite list_lookup_fmap, Hi).
    eexists. split; [reflexivity|]. rewrite list_lookup_fmap, Hi. cbn [fmap option_fmap option_map from_option id].
    assert (value_wf event) as Hew.
    { pose proof (pointer_wf _ _ _ Hwf Hp) as Hl. inversion Hl as [| | | |? Hall|]; subst.
      rewrite Forall_forall in Hall. by apply Hall, list_elem_of_lookup_2 with i. }
    split; [intros command|intros key Hkey%seqb_false]; rewrite restored_get by done; [cbn [seqb]|by rewrite Hkey].
    rewrite (proj2 (seqb_true _ _)) by done. setoid_rewrite <- supported_command_exact.
    destruct (supported_command event) as [name|]; naive_solver.
Qed.
Definition ex_invocation_value : Value := ex_invocations [ex_event].
Lemma ex_invocation_wf : value_wf ex_invocation_value.
Proof. repeat (constructor; try (vm_compute; reflexivity)). Qed.
Lemma invocation_commands_restored_witness : exists response shown_event,
  sanitize_invocation_response ex_small ex_invocation_value = Ok response /\
  (exists shown_events, pointer invocations_path response = Some (ValueArray shown_events) /\ shown_events !! 0%nat = Some shown_event) /\
  value_get "command" shown_event = Some (ValueString "scope") /\
  value_get "repo_path" ex_event = Some (ValueString "/private/repo") /\ value_get "repo_path" shown_event = None.
Proof.
  destruct (invocation_commands_restored ex_small ex_invocation_value _ ex_invocation_wf ex_command_kept) as (_ & _ & Hevents).
  destruct (Hevents [ex_event] eq_refl eq_refl) as (shown_events & Hp & _ & Hshown).
  destruct (Hshown 0%nat ex_event eq_refl) as (shown_event & Hi & Hcommand & Hrest).
  eexists; exists shown_event. split; [apply ex_command_kept|]. split_and!.
  - exists shown_events. split; [exact Hp|exact Hi].
  - apply Hcommand. exists "scope"%string. split; [reflexivity|]. split; try reflexivity. repeat constructor.
  - reflexivity.
  - rewrite Hrest by discriminate. reflexivity.
Defined.

(** * Addresses and cursors *)

(** C35: Reading an address inverts printing it: a text is read as a resource of a
    repository exactly when it is the printed address of that resource, in that
    repository, with an opaque repository identity, a known kind and a bounded
    identifier without control characters.  An address of another repository, a
    second spelling or a longer path is never read. *)
Theorem resource_uri_exact base64_encode base64_decode
    (Halphabet : forall text, Forall (fun b => id_byte b = true) (bytes (base64_encode text)))
    (Hdecode : forall text, base64_decode (base64_encode text) = Some text)
    (Hcanonical : forall raw text, base64_decode raw = Some text -> base64_encode text = raw)
    (Hempty : base64_encode EmptyString = EmptyString) raw repo_id uri :
  from_utf8 raw = true ->
  HistoryResourceUri_parse base64_decode raw repo_id = Ok uri <->
  raw = uri_to_string base64_encode uri /\ uri_repo_id uri = repo_id /\ uri_ok uri /\ from_utf8 (uri_id uri) = true.
Proof.
  intros Hraw. split; [by eapply parse_printed_only|]. intros (-> & <- & Hok & Htext). by apply parse_printed.
Qed.
Lemma hex_value_digit d : d < 16 -> hex_value (hex_digit d) = Some d.
Proof.
  intros Hd. assert (Forall (fun d => hex_value (hex_digit d) = Some d) (map N.of_nat (seq 0 16))) as Hall by (repeat constructor).
  rewrite Forall_forall in Hall. apply Hall. rewrite <- (N2Nat.id d). apply list_elem_of_fmap_2, elem_of_seq. lia.
Qed.
Lemma hex_value_Some c d : hex_value c = Some d -> d < 16 /\ hex_digit d = c.
Proof. destruct c as [[] [] [] [] [] [] [] []]; cbv; intros [= <-]; split; (reflexivity || lia). Qed.
Lemma hex_cons c s : hex (String c s) =
  String (hex_digit ((byte_of c / 16) mod 16)) (String (hex_digit (byte_of c mod 16)) (hex s)).
Proof. reflexivity. Qed.
Lemma unhex_hex s : unhex (hex s) = Some s.
Proof.
  induction s as [|c s IH]; [done|]. rewrite hex_cons. cbn [unhex]. pose proof (byte_of_lt c) as Hc.
  rewrite !hex_value_digit by (by apply N.mod_lt). cbn [mbind option_bind]. rewrite IH. cbn [mbind option_bind]. do 2 f_equal.
  rewrite <- (char_of_byte c) at 3. f_equal. rewrite (N.mod_small (byte_of c / 16)) by (apply N.Div0.div_lt_upper_bound; lia).
  symmetry. apply N.div_mod. lia.
Qed.
Lemma hex_unhex raw text : unhex raw = Some text -> hex text = raw.
Proof.
  remember (String.length raw) as n eqn:Hn. revert raw Hn text.
  induction n as [n IH] using lt_wf_ind; intros [|a [|b raw]] -> text; cbn [unhex]; [by intros [= <-]|done|].
  intros (x & [Hx <-]%hex_value_Some & (y & [Hy <-]%hex_value_Some & (rest & Hrest & [= <-])%bind_Some)%bind_Some)%bind_Some.
  rewrite hex_cons, byte_of_char by lia. rewrite (IH (String.length raw) ltac:(cbn; lia) raw eq_refl rest Hrest).
  rewrite <- (N.div_unique (16 * x + y) 16 x y), <- (N.mod_unique (16 * x + y) 16 x y) by lia. by rewrite N.mod_small.
Qed.
Lemma hex_alphabet text : Forall (fun b => id_byte b = true) (bytes (hex text)).
Proof.
  assert (forall d, d < 16 -> id_byte (byte_of (hex_digit d)) = true) as Hdigit.
  { intros d Hd. assert (Forall (fun d => id_byte (byte_of (hex_digit d)) = true) (map N.of_nat (seq 0 16))) as Hall by (repeat constructor).
    rewrite Forall_forall in Hall. apply Hall. rewrite <- (N2Nat.id d). apply list_elem_of_fmap_2, elem_of_seq. lia. }
  induction text as [|c text IH]; [constructor|]. rewrite hex_cons. cbn [bytes].
  repeat (constructor; [apply Hdigit; by apply N.mod_lt|]). exact IH.
Qed.
Lemma ex_uri_fine : uri_ok ex_uri.
Proof. apply (HistoryResourceUri_new_ok ex_repo "commit" "feature/a b#c" ex_uri), ex_uri_ok. Qed.
Lemma resource_uri_exact_witness : HistoryResourceUri_parse unhex (uri_to_string hex ex_uri) ex_repo = Ok ex_uri /\
  forall uri, HistoryResourceUri_parse unhex (uri_to_string hex ex_uri) "repo_different123456" <> Ok uri.
Proof.
  split.
  - apply (resource_uri_exact hex unhex hex_alphabet unhex_hex hex_unhex eq_refl); [vm_compute; reflexivity|].
    split_and!; [reflexivity|reflexivity|exact ex_uri_fine|vm_compute; reflexivity].
  - intros uri. rewrite (proj1 (proj2 (proj2 ex_uri_ok))). discriminate.
Defined.

Section Cursors.
Context (base64_encode : string -> string) (base64_decode : string -> option string).
Context (cursor_to_vec : McpCursor -> string + string) (cursor_from_slice : string -> option McpCursor).

(** What a request may read of a cursor: the request's own cursor. *)
Lemma decode_in_scope raw repo_id operation fingerprint cursor :
  McpCursor_decode base64_decode cursor_from_slice raw repo_id operation fingerprint = Ok cursor ->
  cursor_version cursor = 1 /\ cursor_repo_id cursor = repo_id /\ cursor_operation cursor = operation /\
  cursor_fingerprint cursor = fingerprint /\ blen raw <= 2048.
Proof.
  unfold McpCursor_decode. destruct (2048 <? blen raw) eqn:El; [done|]. apply N.ltb_ge in El.
  destruct (base64_decode raw) as [bytes|]; [|done]. destruct (cursor_from_slice bytes) as [c|]; [|done].
  destruct (_ || _) eqn:E; [done|]. intros [= <-].
  rewrite !orb_false_iff, !negb_false_iff, N.eqb_eq, !seqb_true in E. tauto.
Qed.
End Cursors.
(** C36: A cursor is bound to its request: what a request reads of a cursor names the
    request's repository, operation and fingerprint, whoever made the text.  The
    text handed out for a cursor with no null position, if it is within 2048 bytes,
    is read back whole -- position and offset -- by the cursor's request and refused
    by every other; if it is longer, every request refuses it, its own too. *)
Theorem cursor_bound_to_request base64_encode base64_decode cursor_to_vec cursor_from_slice
    (Hdecode : forall text, base64_decode (base64_encode text) = Some text)
    (Hjson : forall cursor bytes, cursor_position cursor <> Some ValueNull ->
      cursor_to_vec cursor = inr bytes -> cursor_from_slice bytes = Some cursor)
    raw repo_id operation fingerprint :
  (forall cursor, McpCursor_decode base64_decode cursor_from_slice raw repo_id operation fingerprint = Ok cursor ->
    cursor_version cursor = 1 /\ cursor_repo_id cursor = repo_id /\ cursor_operation cursor = operation /\
    cursor_fingerprint cursor = fingerprint) /\
  forall cursor, cursor_version cursor = 1 -> cursor_position cursor <> Some ValueNull ->
    McpCursor_encode base64_encode cursor_to_vec cursor = Ok raw ->
    McpCursor_decode base64_decode cursor_from_slice raw repo_id operation fingerprint =
      if bool_decide (2048 < blen raw) then Err "Invalid MCP cursor"
      else if bool_decide (cursor_repo_id cursor = repo_id /\ cursor_operation cursor = operation /\
                      cursor_fingerprint cursor = fingerprint)
      then Ok cursor else Err "MCP cursor does not belong to this request".
Proof.
  split; [intros cursor Hd; apply decode_in_scope in Hd; tauto|].
  intros cursor Hv Hpos Henc. unfold McpCursor_encode in Henc.
  destruct (cursor_to_vec cursor) as [error|bytes] eqn:Hvec; [done|]. injection Henc as <-.
  unfold McpCursor_decode. case_bool_decide as Hlen; [by apply N.ltb_lt in Hlen as ->|].
  rewrite (proj2 (N.ltb_ge _ _)) by lia. rewrite Hdecode, (Hjson cursor bytes) by done.
  rewrite Hv. cbn [N.eqb Pos.eqb negb orb]. unfold seqb. repeat case_bool_decide; cbn [negb orb]; naive_solver.
Qed.
(** A cursor holds its request's fingerprint, and the fingerprint the text of the
    query, which may have 4096 bytes: the cursor of a long query is refused by the
    request it was handed out for. *)
Lemma long_fingerprint_refused base64_encode base64_decode cursor_to_vec cursor_from_slice cursor raw
    (Hbase64 : forall text, blen text <= blen (base64_encode text))
    (Hholds : forall bytes, cursor_to_vec cursor = inr bytes -> blen (cursor_fingerprint cursor) <= blen bytes) :
  2048 < blen (cursor_fingerprint cursor) -> McpCursor_encode base64_encode cursor_to_vec cursor = Ok raw ->
  McpCursor_decode base64_decode cursor_from_slice raw (cursor_repo_id cursor) (cursor_operation cursor)
    (cursor_fingerprint cursor) = Err "Invalid MCP cursor".
Proof.
  intros Hlong Henc. unfold McpCursor_encode in Henc. destruct (cursor_to_vec cursor) as [error|bytes] eqn:Hvec; [done|].
  injection Henc as <-. specialize (Hholds bytes eq_refl). specialize (Hbase64 bytes). unfold McpCursor_decode.
  by rewrite (proj2 (N.ltb_lt _ _)) by lia.
Qed.
(** Cursors without position of one request, by their offset. *)
Definition ex_cursor : McpCursor := McpCursor_new ex_repo "history_search" 25 "abc".
Definition ex_to_vec (cursor : McpCursor) : string + string :=
  if bool_decide (cursor_version cursor = 1 /\ cursor_repo_id cursor = ex_repo /\ cursor_operation cursor = "history_search"%string /\
                  cursor_offset cursor = 25 /\ cursor_fingerprint cursor = "abc"%string) && negb (is_some (cursor_position cursor))
  then inr "{}"%string else inl "not of this example"%string.
Definition ex_from_slice (bytes : string) : option McpCursor := if seqb bytes "{}" then Some ex_cursor else None.
Lemma ex_cursor_json cursor bytes : cursor_position cursor <> Some ValueNull ->
  ex_to_vec cursor = inr bytes -> ex_from_slice bytes = Some cursor.
Proof.
  intros _. unfold ex_to_vec. case_bool_decide as E; [|done]. destruct cursor as [v r o off f [position|]]; cbn in *; [done|].
  intros [= <-]. destruct E as (-> & -> & -> & -> & ->). reflexivity.
Qed.
Lemma cursor_bound_to_request_witness : exists raw, McpCursor_encode hex ex_to_vec ex_cursor = Ok raw /\
  McpCursor_decode unhex ex_from_slice raw ex_repo "history_search" "abc" = Ok ex_cursor /\
  McpCursor_decode unhex ex_from_slice raw "other" "history_search" "abc" = Err "MCP cursor does not belong to this request".
Proof.
  exists "7b7d"%string. split; [reflexivity|]. split.
  - rewrite (proj2 (cursor_bound_to_request hex unhex ex_to_vec ex_from_slice unhex_hex ex_cursor_json "7b7d" ex_repo "history_search" "abc")
      ex_cursor); [vm_compute; reflexivity|reflexivity|discriminate|reflexivity].
  - rewrite (proj2 (cursor_bound_to_request hex unhex ex_to_vec ex_from_slice unhex_hex ex_cursor_json "7b7d" "other" "history_search" "abc")
      ex_cursor); [vm_compute; reflexivity|reflexivity|discriminate|reflexivity].
Defined.
