(* ===== verification/Jobs.v ===== *)
(** [jobs.rs]: the durable archaeology jobs over three SQLite tables, the
    repositories, their generations and the jobs that build them.  A database
    function is a [DB] action on the tables; a statement is its guard and its
    change of one row, refused by the constraints of
    [db/schema/business_rule_archaeology.sql]; a transaction takes back what it
    did unless it succeeds.  The tables a generation's evidence is in, and the
    functions over them, are the class [GenerationContent]. *)
From S2P Require Import Prelude Ordering RustText SecretPolicy Contracts.
From stdpp Require Import gmap.
Local Open Scope N_scope.

(** * Data *)

Definition MAX_ID_BYTES : N := 256.
Definition MAX_CHECKPOINT_BYTES : N := 64 * 1024.
Definition MAX_ERRORS : N := 16.
Definition MAX_ERRORS_JSON_BYTES : N := 32 * 1024.
Definition MAX_CHECKPOINT_COUNTERS : N := 32.
Definition ARCHAEOLOGY_STORAGE_SCHEMA_VERSION : N := 2.
Definition i64_max : N := 2 ^ 63 - 1.

Inductive ArchaeologyJobStage : Type :=
| StageInventory | StageParse | StageLink | StageDerive | StageSynthesize | StageValidate | StagePublish | StageCleanup | StageIdle.
Inductive ArchaeologyJobState : Type :=
| StatePending | StateRunning | StatePaused | StateCancelling | StateCompleted | StateFailed | StateCancelled | StateUnavailable.
Inductive GenerationStatus : Type := GenStaging | GenReady | GenFailed | GenCancelled | GenSuperseded.
Inductive ArchaeologyJobErrorCode : Type :=
| InventoryFailed | ParserFailed | LinkFailed | DerivationFailed | SynthesisFailed | ValidationFailed | PublicationFailed
| CleanupFailed | OwnershipLost | Internal.
#[export] Instance job_stage_eq_dec : EqDecision ArchaeologyJobStage.
Proof. solve_decision. Defined.
#[export] Instance job_state_eq_dec : EqDecision ArchaeologyJobState.
Proof. solve_decision. Defined.
#[export] Instance generation_status_eq_dec : EqDecision GenerationStatus.
Proof. solve_decision. Defined.
Record ArchaeologyJobCheckpoint : Type := {
  cursor_identity : option string; source_unit_id : option string; ordinal : option N; counters : BTreeMap string N
}.
Record ArchaeologyGenerationIdentity : Type := {
  id_revision_sha : string; id_source : string; id_parser : string; id_algorithm : string; id_config : string
}.
Record NewArchaeologyJob : Type := {
  new_job_id : string; new_repository_id : string; new_generation_id : string; new_owner_id : string;
  new_identity : ArchaeologyGenerationIdentity; new_total_units : option N; new_now : string
}.
Record ArchaeologyPublication : Type := {
  pub_job_id : string; pub_repository_id : string; pub_generation_id : string; pub_owner_id : string;
  pub_identity : ArchaeologyGenerationIdentity; pub_now : string
}.
Record ArchaeologyJobStatus : Type := {
  status_schema_version : N; status_job_id : option string; status_repository_id : option string;
  status_generation_id : option string; status_owner_id : option string; status_stage : ArchaeologyJobStage;
  status_state : ArchaeologyJobState; status_completed_units : N; status_total_units : option N;
  status_checkpoint_identity : option string; status_cancellation_requested : bool; status_coverage : ArchaeologyCoverage;
  status_updated_at : option string; status_errors : list string
}.

(** ** The rows (business_rule_archaeology.sql) *)

Record Repository : Type := {
  repo_path : string; repo_source_identity : string; current_revision : string; ready_generation_id : option string;
  repo_created_at : string; repo_updated_at : string
}.
Record Generation : Type := {
  gen_repository_id : string; gen_schema_version : N; gen_identity : ArchaeologyGenerationIdentity;
  gen_status : GenerationStatus; gen_coverage_json : string; source_unit_count : Z; fact_count : Z; rule_count : Z;
  gen_created_at : string; published_at : option string
}.
Record Job : Type := {
  job_repository_id : string; job_generation_id : option string; owner_id : string; stage : ArchaeologyJobStage;
  state : ArchaeologyJobState; checkpoint_identity : option string; checkpoint_json : string; completed_units : Z;
  total_units : option Z; cancellation_requested : bool; errors_json : string; started_at : option string;
  job_updated_at : string; finished_at : option string
}.
Record ArchaeologyTableSeal : Type := { seal_count : N; seal_sha256 : string }.
Record ArchaeologyValidationSnapshot : Type := {
  empty_inventory_proven : bool; coverage_sha256 : string; tables : BTreeMap string ArchaeologyTableSeal
}.
Record ArchaeologyValidationReceipt : Type := {
  receipt_version : N; receipt_repository_id : string; receipt_generation_id : string;
  receipt_identity : ArchaeologyGenerationIdentity; receipt_schema_version : N; snapshot : ArchaeologyValidationSnapshot
}.
#[export] Instance generation_identity_eq_dec : EqDecision ArchaeologyGenerationIdentity.
Proof. solve_decision. Defined.
#[export] Instance table_seal_eq_dec : EqDecision ArchaeologyTableSeal.
Proof. solve_decision. Defined.
#[export] Instance validation_snapshot_eq_dec : EqDecision ArchaeologyValidationSnapshot.
Proof. solve_decision. Defined.
#[export] Instance validation_receipt_eq_dec : EqDecision ArchaeologyValidationReceipt.
Proof. solve_decision. Defined.

(** * The database *)

Record Store (C : Type) : Type := {
  repositories : gmap string Repository; generations : gmap string Generation; jobs : gmap string Job; content : C
}.
Arguments repositories {C} _.
Arguments generations {C} _.
Arguments jobs {C} _.
Arguments content {C} _.
Arguments Build_Store {C} _ _ _ _.
(** SQLite's [julianday], which is NULL for text it cannot read, as a number that
    is only compared; chrono's instants likewise; the message of a statement that
    fails; [serde_json] for the records that are stored as text. *)
Class Clock : Type := { julianday : string -> option Z; parse_from_rfc3339 : string -> option Z }.
Class Sqlite : Type := { sqlite_error : string -> string }.
Class JobJson : Type := {
  checkpoint_to_string : ArchaeologyJobCheckpoint -> string + string;
  checkpoint_from_str : string -> option ArchaeologyJobCheckpoint;
  errors_to_string : list string -> string + string;
  errors_from_str : string -> option (list string);
  receipt_to_string : ArchaeologyValidationReceipt -> string + string;
  receipt_from_str : string -> option ArchaeologyValidationReceipt;
  coverage_to_vec : ArchaeologyCoverage -> string + string;
  coverage_from_str : string -> option ArchaeologyCoverage
}.
(** The sums of a generation's source rows. *)
Record CoverageTotals : Type := { discovered_units : N; indexed_units : N; total_discovered_bytes : N; total_indexed_bytes : N }.
(** The other tables, of type [C], and the functions of other files over them:
    none changes the three tables of jobs. *)
Class GenerationContent (C : Type) : Type := {
  TemporalContext : Type;
  validate_integrity : Store C -> ArchaeologyPublication -> outcome CoverageTotals;
  validation_table_seals : C -> string -> outcome (BTreeMap string ArchaeologyTableSeal);
  reconcile_generation_lifecycle : Store C -> string -> string -> option string -> string -> outcome C;
  resolve_archaeology_temporal_context : C -> string -> string -> option string -> outcome TemporalContext;
  persist_temporal_projection : Store C -> string -> string -> option string -> TemporalContext -> string -> outcome C;
  delete_generation_content : string -> C -> C;
  cleanup_counts : C -> string -> N * N * N * N
}.

Section Database.
Context {C : Type} `{Clock} `{Sqlite} `{JobJson}.
Abbreviation Store := (Store C).

Definition DB (A : Type) : Type := Store -> outcome A * Store.
#[export] Instance db_ret : MRet DB := fun A a s => (Ok a, s).
#[export] Instance db_bind : MBind DB := fun A B f m s =>
  match m s with
  | (Ok a, s) => f a s
  | (Err e, s) => (Err e, s)
  | (Crash e, s) => (Crash e, s)
  end.
Definition result {A} (r : outcome A) : DB A := fun s => (r, s).
Definition query {A} (f : Store -> A) : DB A := fun s => (Ok (f s), s).
Definition set_content (c : C) : DB unit := fun s =>
  (Ok (), {| repositories := repositories s; generations := generations s; jobs := jobs s; content := c |}).
(** A transaction that is dropped before its commit rolls back. *)
Definition transaction {A} (body : DB A) : DB A := fun s =>
  match body s with (Ok a, s') => (Ok a, s') | (failure, _) => (failure, s) end.
Definition require (condition : bool) (error : string) : DB unit := result (if condition then Ok () else Err error).

Definition not_before (now updated_at : string) : bool :=
  match julianday now, julianday updated_at with Some now, Some updated_at => (updated_at <=? now)%Z | _, _ => false end.
Definition is_active (state : ArchaeologyJobState) : bool :=
  elemb state [StatePending; StateRunning; StatePaused; StateCancelling].
Definition live_status (status : GenerationStatus) : bool := elemb status [GenStaging; GenReady].

(** ** Constraints *)

(** [idx_archaeology_jobs_active_repository]: another active job. *)
Definition other_active (s : Store) (job_id repository_id : string) : bool :=
  any (fun e => negb (seqb (fst e) job_id) && seqb (job_repository_id (snd e)) repository_id && is_active (state (snd e)))
      (map_to_list (jobs s)).
Definition units_checked (job : Job) : bool :=
  (0 <=? completed_units job)%Z
  && match total_units job with None => true | Some total => (0 <=? total)%Z && (completed_units job <=? total)%Z end.
Definition job_violation (s : Store) (job_id : string) (job : Job) : option string :=
  if negb (units_checked job) then Some "archaeology_jobs"%string
  else if is_active (state job) && other_active s job_id (job_repository_id job)
  then Some "archaeology_jobs.repository_id"%string else None.
Definition other_ready (s : Store) (generation_id repository_id : string) : bool :=
  any (fun e => negb (seqb (fst e) generation_id) && seqb (gen_repository_id (snd e)) repository_id
                && bool_decide (gen_status (snd e) = GenReady)) (map_to_list (generations s)).
(** [idx_archaeology_generations_identity]: another live generation of one
    identity. *)
Definition other_identity (s : Store) (generation_id : string) (generation : Generation) : bool :=
  any (fun e => negb (seqb (fst e) generation_id) && seqb (gen_repository_id (snd e)) (gen_repository_id generation)
                && (gen_schema_version (snd e) =? gen_schema_version generation)
                && bool_decide (gen_identity (snd e) = gen_identity generation) && live_status (gen_status (snd e)))
      (map_to_list (generations s)).
Definition counts_checked (generation : Generation) : bool :=
  (0 <=? source_unit_count generation)%Z && (0 <=? fact_count generation)%Z && (0 <=? rule_count generation)%Z.
Definition generation_violation (s : Store) (generation_id : string) (generation : Generation) : option string :=
  if negb (counts_checked generation) then Some "archaeology_generations"%string
  else if bool_decide (gen_status generation = GenReady) && other_ready s generation_id (gen_repository_id generation)
  then Some "archaeology_generations.repository_id"%string
  else if live_status (gen_status generation) && other_identity s generation_id generation
  then Some "archaeology_generations identity"%string else None.

(** ** Statements *)

Definition put_job (job_id : string) (job : Job) (s : Store) : Store :=
  {| repositories := repositories s; generations := generations s; jobs := <[job_id := job]> (jobs s); content := content s |}.
Definition put_generation (generation_id : string) (generation : Generation) (s : Store) : Store :=
  {| repositories := repositories s; generations := <[generation_id := generation]> (generations s); jobs := jobs s;
     content := content s |}.
Definition put_repository (repository_id : string) (repository : Repository) (s : Store) : Store :=
  {| repositories := <[repository_id := repository]> (repositories s); generations := generations s; jobs := jobs s;
     content := content s |}.
Definition violated (what constraint : string) : string := what ++ ": " ++ sqlite_error constraint.
(** [UPDATE archaeology_jobs SET set WHERE job_id = ?1 AND guard]: the rows it
    changed. *)
Definition update_job (what job_id : string) (guard : Store -> Job -> bool) (set : Job -> Job) : DB N := fun s =>
  match jobs s !! job_id with
  | Some job =>
      if guard s job then
        match job_violation s job_id (set job) with
        | Some constraint => (Err (violated what constraint), s)
        | None => (Ok 1, put_job job_id (set job) s)
        end
      else (Ok 0, s)
  | None => (Ok 0, s)
  end.
Definition update_generation (what generation_id : string) (guard : Store -> Generation -> bool)
    (set : Generation -> Generation) : DB N := fun s =>
  match generations s !! generation_id with
  | Some generation =>
      if guard s generation then
        match generation_violation s generation_id (set generation) with
        | Some constraint => (Err (violated what constraint), s)
        | None => (Ok 1, put_generation generation_id (set generation) s)
        end
      else (Ok 0, s)
  | None => (Ok 0, s)
  end.
(** No constraint names a column of a repository that is updated, its path
    apart, which no statement of a job changes. *)
Definition update_repository (repository_id : string) (guard : Repository -> bool) (set : Repository -> Repository) : DB N := fun s =>
  match repositories s !! repository_id with
  | Some repository => if guard repository then (Ok 1, put_repository repository_id (set repository) s) else (Ok 0, s)
  | None => (Ok 0, s)
  end.
Definition insert_generation (what generation_id : string) (generation : Generation) : DB unit := fun s =>
  if is_some (generations s !! generation_id) then (Err (violated what "archaeology_generations.generation_id"), s)
  else if negb (is_some (repositories s !! gen_repository_id generation)) then (Err (violated what "FOREIGN KEY"), s)
  else match generation_violation s generation_id generation with
       | Some constraint => (Err (violated what constraint), s)
       | None => (Ok (), put_generation generation_id generation s)
       end.
Definition insert_job (what job_id : string) (job : Job) : DB unit := fun s =>
  if is_some (jobs s !! job_id) then (Err (violated what "archaeology_jobs.job_id"), s)
  else if negb (is_some (repositories s !! job_repository_id job))
          || negb (match job_generation_id job with None => true | Some id => is_some (generations s !! id) end)
  then (Err (violated what "FOREIGN KEY"), s)
  else match job_violation s job_id job with
       | Some constraint => (Err (violated what constraint), s)
       | None => (Ok (), put_job job_id job s)
       end.

(** * Validation *)

Definition validate_id (label value : string) : outcome unit :=
  if is_empty value || (MAX_ID_BYTES <? blen value) || str_contains NUL value
  then Err ("Archaeology " ++ label ++ " identity must contain 1..=256 safe bytes") else Ok ().
Definition validate_timestamp (value : string) : outcome Z :=
  match parse_from_rfc3339 value with Some time => Ok time | None => Err "Archaeology timestamps must be RFC 3339" end.
Definition validate_actor (job_id owner_id now : string) : outcome unit :=
  _ ← validate_id "job" job_id; _ ← validate_id "owner" owner_id; _ ← validate_timestamp now; Ok ().
Definition GenerationIdentity_validate (identity : ArchaeologyGenerationIdentity) : outcome unit :=
  _ ← validate_revision_sha (id_revision_sha identity);
  _ ← validate_id "source" (id_source identity); _ ← validate_id "parser" (id_parser identity);
  _ ← validate_id "algorithm" (id_algorithm identity); validate_id "config" (id_config identity).
Definition validate_owned_generation (job_id repository_id generation_id owner_id : string)
    (identity : ArchaeologyGenerationIdentity) (now : string) : outcome unit :=
  _ ← validate_actor job_id owner_id now; _ ← validate_id "repository" repository_id;
  _ ← validate_id "generation" generation_id; GenerationIdentity_validate identity.
(** A dash, an underscore, a colon, a full stop, an at sign. *)
Definition token_byte (b : N) : bool := is_ascii_alphanumeric b || elemb b [45; 95; 58; 46; 64].
Definition validate_persisted_token (label value max : string) (max_bytes : N) : outcome unit :=
  if is_empty value || (max_bytes <? blen value) || looks_like_secret value || contains_sensitive_path value
     || negb (forallb token_byte (bytes value))
  then Err ("Archaeology " ++ label ++ " must be an opaque safe token of 1..=" ++ max ++ " bytes") else Ok ().
Definition validate_optional_token (label : string) (value : option string) : outcome unit :=
  match value with Some value => validate_persisted_token label value "256" MAX_ID_BYTES | None => Ok () end.
Definition validate_checkpoint (checkpoint : ArchaeologyJobCheckpoint) : outcome unit :=
  _ ← validate_optional_token "checkpoint cursor" (cursor_identity checkpoint);
  _ ← validate_optional_token "checkpoint source unit" (source_unit_id checkpoint);
  if MAX_CHECKPOINT_COUNTERS <? len (counters checkpoint) then Err "Archaeology checkpoint has more than 32 counters"
  else for_each (fun _ key => validate_persisted_token "checkpoint counter" key "64" 64) () (map_keys (counters checkpoint)).
Definition stage_index (stage : ArchaeologyJobStage) : option N :=
  match stage with
  | StageInventory => Some 0 | StageParse => Some 1 | StageLink => Some 2 | StageDerive => Some 3 | StageSynthesize => Some 4
  | StageValidate => Some 5 | StagePublish => Some 6 | StageCleanup => Some 7 | StageIdle => None
  end.
Definition validate_stage_progression (current next : ArchaeologyJobStage) : outcome unit :=
  match current, next with
  | StageSynthesize, StageValidate => Err "Archaeology synthesis must atomically validate and materialize its rule catalog"
  | StageValidate, StagePublish => Err "Archaeology validate must persist a deterministic publication receipt"
  | StagePublish, StageCleanup => Err "Archaeology publish must advance through atomic generation publication"
  | _, _ =>
      match stage_index current, stage_index next with
      | Some current_index, Some next_index =>
          if (next_index =? current_index) || (next_index =? current_index + 1) then Ok ()
          else Err "Archaeology stages must stay current or advance exactly once"
      | _, _ => Err "Idle is not an active archaeology stage"
      end
  end.
Definition to_i64 (value : N) : outcome Z :=
  if i64_max <? value then Err "Archaeology progress exceeds SQLite range" else Ok (Z.of_N value).
(** [total_units.map(to_i64).transpose()] *)
Definition optional_i64 (value : option N) : outcome (option Z) :=
  match value with Some value => Some <$> to_i64 value | None => Ok None end.
Definition cas_error (action job_id : string) : string :=
  "Archaeology job " ++ action ++ " rejected: owner, state, stage, or progress changed for " ++ job_id.
Definition require_cas (changed : N) (action job_id : string) : DB unit := require (changed =? 1) (cas_error action job_id).
Definition error_code_name (code : ArchaeologyJobErrorCode) : string :=
  match code with
  | InventoryFailed => "inventory_failed" | ParserFailed => "parser_failed" | LinkFailed => "link_failed"
  | DerivationFailed => "derivation_failed" | SynthesisFailed => "synthesis_failed" | ValidationFailed => "validation_failed"
  | PublicationFailed => "publication_failed" | CleanupFailed => "cleanup_failed" | OwnershipLost => "ownership_lost"
  | Internal => "internal"
  end.

(** * The operations of a job *)

Definition ArchaeologyCoverage_default : ArchaeologyCoverage :=
  {| coverage_state := CoverageUnavailable; parser_coverage := CoverageUnavailable; repository_coverage := CoverageUnavailable;
     temporal_coverage := CoverageUnavailable; discovered_source_units := 0; indexed_source_units := 0; discovered_bytes := 0;
     indexed_bytes := 0; reasons := [] |}.
Definition u64_try_from (error : string) (value : Z) : outcome N := if (value <? 0)%Z then Err error else Ok (Z.to_N value).
Definition load_job (job_id : string) : DB ArchaeologyJobStatus :=
  row ← query (fun s => jobs s !! job_id);
  match row with
  | None => result (Err "Archaeology job does not exist")
  | Some job => result (
      completed ← u64_try_from "Negative completed units" (completed_units job);
      total ← match total_units job with Some total => Some <$> u64_try_from "Negative total units" total | None => Ok None end;
      match errors_from_str (errors_json job) with
      | None => Err "Stored archaeology errors are invalid"
      | Some errors => Ok {|
          status_schema_version := ARCHAEOLOGY_SCHEMA_VERSION; status_job_id := Some job_id;
          status_repository_id := Some (job_repository_id job); status_generation_id := job_generation_id job;
          status_owner_id := Some (owner_id job); status_stage := stage job; status_state := state job;
          status_completed_units := completed; status_total_units := total;
          status_checkpoint_identity := checkpoint_identity job; status_cancellation_requested := cancellation_requested job;
          status_coverage := ArchaeologyCoverage_default; status_updated_at := Some (job_updated_at job); status_errors := errors |}
      end)
  end.

(** The columns an UPDATE sets. *)
Definition with_state (new : ArchaeologyJobState) (job : Job) : Job :=
  {| job_repository_id := job_repository_id job; job_generation_id := job_generation_id job; owner_id := owner_id job;
     stage := stage job; state := new; checkpoint_identity := checkpoint_identity job; checkpoint_json := checkpoint_json job;
     completed_units := completed_units job; total_units := total_units job; cancellation_requested := cancellation_requested job;
     errors_json := errors_json job; started_at := started_at job; job_updated_at := job_updated_at job; finished_at := finished_at job |}.
Definition with_stage (new : ArchaeologyJobStage) (job : Job) : Job :=
  {| job_repository_id := job_repository_id job; job_generation_id := job_generation_id job; owner_id := owner_id job;
     stage := new; state := state job; checkpoint_identity := checkpoint_identity job; checkpoint_json := checkpoint_json job;
     completed_units := completed_units job; total_units := total_units job; cancellation_requested := cancellation_requested job;
     errors_json := errors_json job; started_at := started_at job; job_updated_at := job_updated_at job; finished_at := finished_at job |}.
Definition with_checkpoint (identity json : string) (job : Job) : Job :=
  {| job_repository_id := job_repository_id job; job_generation_id := job_generation_id job; owner_id := owner_id job;
     stage := stage job; state := state job; checkpoint_identity := Some identity; checkpoint_json := json;
     completed_units := completed_units job; total_units := total_units job; cancellation_requested := cancellation_requested job;
     errors_json := errors_json job; started_at := started_at job; job_updated_at := job_updated_at job; finished_at := finished_at job |}.
Definition with_units (completed : Z) (total : option Z) (job : Job) : Job :=
  {| job_repository_id := job_repository_id job; job_generation_id := job_generation_id job; owner_id := owner_id job;
     stage := stage job; state := state job; checkpoint_identity := checkpoint_identity job; checkpoint_json := checkpoint_json job;
     completed_units := completed; total_units := total; cancellation_requested := cancellation_requested job;
     errors_json := errors_json job; started_at := started_at job; job_updated_at := job_updated_at job; finished_at := finished_at job |}.
Definition with_cancellation (requested : bool) (job : Job) : Job :=
  {| job_repository_id := job_repository_id job; job_generation_id := job_generation_id job; owner_id := owner_id job;
     stage := stage job; state := state job; checkpoint_identity := checkpoint_identity job; checkpoint_json := checkpoint_json job;
     completed_units := completed_units job; total_units := total_units job; cancellation_requested := requested;
     errors_json := errors_json job; started_at := started_at job; job_updated_at := job_updated_at job; finished_at := finished_at job |}.
Definition with_errors (json : string) (job : Job) : Job :=
  {| job_repository_id := job_repository_id job; job_generation_id := job_generation_id job; owner_id := owner_id job;
     stage := stage job; state := state job; checkpoint_identity := checkpoint_identity job; checkpoint_json := checkpoint_json job;
     completed_units := completed_units job; total_units := total_units job; cancellation_requested := cancellation_requested job;
     errors_json := json; started_at := started_at job; job_updated_at := job_updated_at job; finished_at := finished_at job |}.
Definition with_owner (owner : string) (job : Job) : Job :=
  {| job_repository_id := job_repository_id job; job_generation_id := job_generation_id job; owner_id := owner;
     stage := stage job; state := state job; checkpoint_identity := checkpoint_identity job; checkpoint_json := checkpoint_json job;
     completed_units := completed_units job; total_units := total_units job; cancellation_requested := cancellation_requested job;
     errors_json := errors_json job; started_at := started_at job; job_updated_at := job_updated_at job; finished_at := finished_at job |}.
Definition updated (now : string) (job : Job) : Job :=
  {| job_repository_id := job_repository_id job; job_generation_id := job_generation_id job; owner_id := owner_id job;
     stage := stage job; state := state job; checkpoint_identity := checkpoint_identity job; checkpoint_json := checkpoint_json job;
     completed_units := completed_units job; total_units := total_units job; cancellation_requested := cancellation_requested job;
     errors_json := errors_json job; started_at := started_at job; job_updated_at := now; finished_at := finished_at job |}.
Definition finished (now : string) (job : Job) : Job :=
  {| job_repository_id := job_repository_id job; job_generation_id := job_generation_id job; owner_id := owner_id job;
     stage := stage job; state := state job; checkpoint_identity := checkpoint_identity job; checkpoint_json := checkpoint_json job;
     completed_units := completed_units job; total_units := total_units job; cancellation_requested := cancellation_requested job;
     errors_json := errors_json job; started_at := started_at job; job_updated_at := job_updated_at job; finished_at := Some now |}.
Definition with_status (new : GenerationStatus) (generation : Generation) : Generation :=
  {| gen_repository_id := gen_repository_id generation; gen_schema_version := gen_schema_version generation;
     gen_identity := gen_identity generation; gen_status := new; gen_coverage_json := gen_coverage_json generation;
     source_unit_count := source_unit_count generation; fact_count := fact_count generation; rule_count := rule_count generation;
     gen_created_at := gen_created_at generation; published_at := published_at generation |}.
Definition with_published_at (now : string) (generation : Generation) : Generation :=
  {| gen_repository_id := gen_repository_id generation; gen_schema_version := gen_schema_version generation;
     gen_identity := gen_identity generation; gen_status := gen_status generation; gen_coverage_json := gen_coverage_json generation;
     source_unit_count := source_unit_count generation; fact_count := fact_count generation; rule_count := rule_count generation;
     gen_created_at := gen_created_at generation; published_at := Some now |}.
Definition with_counts (units facts rules : Z) (generation : Generation) : Generation :=
  {| gen_repository_id := gen_repository_id generation; gen_schema_version := gen_schema_version generation;
     gen_identity := gen_identity generation; gen_status := gen_status generation; gen_coverage_json := gen_coverage_json generation;
     source_unit_count := units; fact_count := facts; rule_count := rules;
     gen_created_at := gen_created_at generation; published_at := published_at generation |}.
Definition with_ready (generation_id now : string) (repository : Repository) : Repository :=
  {| repo_path := repo_path repository; repo_source_identity := repo_source_identity repository;
     current_revision := current_revision repository; ready_generation_id := Some generation_id;
     repo_created_at := repo_created_at repository; repo_updated_at := now |}.

Definition staging_generation (input : NewArchaeologyJob) : Generation :=
  {| gen_repository_id := new_repository_id input; gen_schema_version := ARCHAEOLOGY_STORAGE_SCHEMA_VERSION;
     gen_identity := new_identity input; gen_status := GenStaging; gen_coverage_json := "{}"; source_unit_count := 0; fact_count := 0;
     rule_count := 0; gen_created_at := new_now input; published_at := None |}.
Definition new_job (input : NewArchaeologyJob) (total : option Z) : Job :=
  {| job_repository_id := new_repository_id input; job_generation_id := Some (new_generation_id input);
     owner_id := new_owner_id input; stage := StageInventory; state := StateRunning; checkpoint_identity := None;
     checkpoint_json := "{}"; completed_units := 0; total_units := total; cancellation_requested := false; errors_json := "[]";
     started_at := Some (new_now input); job_updated_at := new_now input; finished_at := None |}.
Definition start_job (input : NewArchaeologyJob) : DB ArchaeologyJobStatus :=
  _ ← result (validate_owned_generation (new_job_id input) (new_repository_id input) (new_generation_id input)
                (new_owner_id input) (new_identity input) (new_now input));
  total ← result (optional_i64 (new_total_units input));
  transaction (
    _ ← insert_generation "Create archaeology staging generation" (new_generation_id input) (staging_generation input);
    _ ← insert_job "Create archaeology job" (new_job_id input) (new_job input total);
    load_job (new_job_id input)).

(** The WHERE of [checkpoint_job]; [COALESCE(?8, total_units)] is the total after
    it. *)
Definition new_total (total : option Z) (job : Job) : option Z := match total with Some total => Some total | None => total_units job end.
Definition may_checkpoint (owner : string) (expected next : ArchaeologyJobStage) (identity : string) (completed : Z) (total : option Z)
    (now : string) (job : Job) : bool :=
  seqb (owner_id job) owner && bool_decide (state job = StateRunning) && bool_decide (stage job = expected)
  && (completed_units job <=? completed)%Z
  && match total_units job, total with Some old, Some new => (old =? new)%Z | _, _ => true end
  && match new_total total job with None => true | Some bound => (completed <=? bound)%Z end
  && (negb (bool_decide (next = expected)) || (completed_units job <? completed)%Z
      || match checkpoint_identity job with None => true | Some old => seqb old identity end)
  && not_before now (job_updated_at job).
Definition checkpoint_job (job_id owner : string) (expected_stage next_stage : ArchaeologyJobStage) (identity : string)
    (checkpoint : ArchaeologyJobCheckpoint) (completed : N) (total : option N) (now : string) : DB ArchaeologyJobStatus :=
  _ ← result (validate_actor job_id owner now);
  _ ← result (validate_stage_progression expected_stage next_stage);
  _ ← result (validate_persisted_token "checkpoint" identity "256" MAX_ID_BYTES);
  _ ← result (validate_checkpoint checkpoint);
  json ← result (match checkpoint_to_string checkpoint with
                 | inr json => Ok json | inl error => Err ("Encode archaeology checkpoint: " ++ error) end);
  _ ← require (blen json <=? MAX_CHECKPOINT_BYTES) "Archaeology checkpoint exceeds 65536 bytes";
  completed ← result (to_i64 completed);
  total ← result (optional_i64 total);
  _ ← require (match total with Some total => (completed <=? total)%Z | None => true end)
        "Completed archaeology units exceed total units";
  changed ← update_job "Checkpoint archaeology job" job_id
    (fun _ => may_checkpoint owner expected_stage next_stage identity completed total now)
    (fun job => updated now (with_units completed (new_total total job) (with_checkpoint identity json (with_stage next_stage job))));
  _ ← require_cas changed "checkpoint" job_id;
  load_job job_id.
Definition owned_in (owner : string) (states : list ArchaeologyJobState) (now : string) (job : Job) : bool :=
  seqb (owner_id job) owner && elemb (state job) states && not_before now (job_updated_at job).
Definition heartbeat_job (job_id owner now : string) : DB ArchaeologyJobStatus :=
  _ ← result (validate_actor job_id owner now);
  changed ← update_job "Heartbeat archaeology job" job_id (fun _ => owned_in owner [StateRunning; StateCancelling] now) (updated now);
  _ ← require_cas changed "heartbeat" job_id;
  load_job job_id.
Definition state_name (state : ArchaeologyJobState) : string :=
  match state with
  | StatePending => "pending" | StateRunning => "running" | StatePaused => "paused" | StateCancelling => "cancelling"
  | StateCompleted => "completed" | StateFailed => "failed" | StateCancelled => "cancelled" | StateUnavailable => "unavailable"
  end.
Definition transition_state (job_id owner : string) (from to : ArchaeologyJobState) (cancellation : bool) (now : string) :
    DB ArchaeologyJobStatus :=
  _ ← result (validate_actor job_id owner now);
  changed ← update_job "Transition archaeology job" job_id (fun _ => owned_in owner [from] now)
    (fun job => updated now (with_cancellation cancellation (with_state to job)));
  _ ← require_cas changed (state_name to) job_id;
  load_job job_id.
Definition pause_job (job_id owner now : string) : DB ArchaeologyJobStatus :=
  transition_state job_id owner StateRunning StatePaused false now.
Definition resume_job (job_id owner now : string) : DB ArchaeologyJobStatus :=
  transition_state job_id owner StatePaused StateRunning false now.

(** [SELECT 1 FROM archaeology_generations WHERE generation_id =
    archaeology_jobs.generation_id AND p] *)
Definition generation_of (s : Store) (job : Job) (p : Generation -> bool) : bool :=
  is_some_and (job_generation_id job ≫= fun id => generations s !! id) p.
Definition has_status (status : GenerationStatus) (generation : Generation) : bool := bool_decide (gen_status generation = status).
Definition request_cancel (job_id owner now : string) : DB ArchaeologyJobStatus :=
  _ ← result (validate_actor job_id owner now);
  changed ← update_job "Request archaeology cancellation" job_id
    (fun s job => owned_in owner [StateRunning; StatePaused] now job
       && generation_of s job (fun generation => has_status GenStaging generation
            || (bool_decide (stage job = StageCleanup) && has_status GenReady generation)))
    (fun job => updated now (with_cancellation true (with_state StateCancelling job)));
  _ ← require_cas changed "cancel" job_id;
  load_job job_id.

(** [SELECT EXISTS (... status = 'ready' AND repository.ready_generation_id =
    generation.generation_id)], of the generation of a job. *)
Definition published_ready (s : Store) (job_id : string) : bool :=
  match jobs s !! job_id with
  | None => false
  | Some job =>
      generation_of s job (has_status GenReady)
      && is_some_and (repositories s !! job_repository_id job) (fun repository =>
           is_some (job_generation_id job) && bool_decide (ready_generation_id repository = job_generation_id job))
  end.
Definition update_staging_generation (job_id : string) (status : GenerationStatus) : DB unit :=
  generation_id ← query (fun s => jobs s !! job_id ≫= job_generation_id);
  changed ← match generation_id with
            | Some id => update_generation "Update owned archaeology generation" id (fun _ => has_status GenStaging) (with_status status)
            | None => result (Ok 0)
            end;
  if changed =? 1 then result (Ok ())
  else
    published ← query (fun s => published_ready s job_id);
    if published && elemb status [GenFailed; GenCancelled] then result (Ok ())
    else require_cas changed "generation update" job_id.
Definition finish_job (job_id owner : string) (from to : ArchaeologyJobState) (generation_status : option GenerationStatus)
    (now : string) : DB ArchaeologyJobStatus :=
  _ ← result (validate_actor job_id owner now);
  transaction (
    changed ← update_job "Finish archaeology job" job_id (fun _ => owned_in owner [from] now)
      (fun job => updated now (finished now (with_stage StageIdle (with_state to job))));
    _ ← require_cas changed (state_name to) job_id;
    _ ← match generation_status with Some status => update_staging_generation job_id status | None => result (Ok ()) end;
    load_job job_id).
Definition acknowledge_cancel (job_id owner now : string) : DB ArchaeologyJobStatus :=
  finish_job job_id owner StateCancelling StateCancelled (Some GenCancelled) now.
Definition complete_job (job_id owner now : string) : DB ArchaeologyJobStatus :=
  _ ← result (validate_actor job_id owner now);
  transaction (
    changed ← update_job "Complete archaeology job" job_id
      (fun s job => owned_in owner [StateRunning] now job && bool_decide (stage job = StageCleanup)
         && negb (cancellation_requested job)
         && generation_of s job (fun generation => seqb (gen_repository_id generation) (job_repository_id job)
                                                   && has_status GenReady generation))
      (fun job => updated now (finished now (with_stage StageIdle (with_state StateCompleted job))));
    _ ← require_cas changed "complete" job_id;
    load_job job_id).
Definition may_fail : list ArchaeologyJobState := [StateRunning; StatePaused; StateCancelling].
Definition push_error (current : string) (code : ArchaeologyJobErrorCode) : outcome string :=
  match errors_from_str current with
  | None => Err "Stored archaeology errors are invalid"
  | Some errors =>
      if MAX_ERRORS <=? len errors then Err "Archaeology job retains at most 16 errors"
      else match errors_to_string (errors ++ [error_code_name code]) with
           | inl error => Err error
           | inr json => if MAX_ERRORS_JSON_BYTES <? blen json then Err "Archaeology errors exceed 32768 bytes" else Ok json
           end
  end.
Definition fail_job (job_id owner : string) (code : ArchaeologyJobErrorCode) (now : string) : DB ArchaeologyJobStatus :=
  _ ← result (validate_actor job_id owner now);
  transaction (
    current ← query (fun s => job ← jobs s !! job_id;
                              if seqb (owner_id job) owner && elemb (state job) may_fail then Some (errors_json job) else None);
    current ← result (match current with Some current => Ok current | None => Err (cas_error "fail" job_id) end);
    json ← result (push_error current code);
    changed ← update_job "Fail archaeology job" job_id (fun _ => owned_in owner may_fail now)
      (fun job => updated now (finished now (with_errors json (with_stage StageIdle (with_state StateFailed job)))));
    _ ← require_cas changed "fail" job_id;
    _ ← update_staging_generation job_id GenFailed;
    load_job job_id).

(** The first row the query of [recover_stale_job] finds; there is one at most. *)
Definition active_job (s : Store) (repository_id : string) : option (string * Job) :=
  head (List.filter (fun e => seqb (job_repository_id (snd e)) repository_id && is_active (state (snd e))) (map_to_list (jobs s))).
Definition recovered_state (state : ArchaeologyJobState) : ArchaeologyJobState :=
  match state with StateRunning => StatePaused | _ => state end.
Definition recover_stale_job (repository_id new_owner stale_before now : string) : DB ArchaeologyJobStatus :=
  _ ← result (validate_id "repository" repository_id);
  _ ← result (validate_id "owner" new_owner);
  stale_before_time ← result (validate_timestamp stale_before);
  now_time ← result (validate_timestamp now);
  _ ← require (stale_before_time <=? now_time)%Z "Archaeology stale cutoff cannot be later than now";
  row ← query (fun s => active_job s repository_id);
  match row with
  | None => result (Err "No active archaeology job exists")
  | Some (job_id, row) =>
      if seqb (owner_id row) new_owner then load_job job_id
      else
        heartbeat ← result (validate_timestamp (job_updated_at row));
        _ ← require (heartbeat <? stale_before_time)%Z "Active archaeology job owner heartbeat is still live";
        changed ← update_job "Recover stale archaeology job" job_id
          (fun _ job => seqb (job_repository_id job) repository_id && seqb (owner_id job) (owner_id row)
             && bool_decide (state job = state row) && seqb (job_updated_at job) (job_updated_at row))
          (fun job => updated now (with_state (recovered_state (state row)) (with_owner new_owner job)));
        _ ← require_cas changed "recover" job_id;
        load_job job_id
  end.
End Database.
