(* ===== verification/JobPublication.v ===== *)
(** The publication of a generation ([jobs.rs]): the receipt of what was
    validated, kept in the job's checkpoint, and the transaction that computes it
    again and makes the generation the one that is read. *)
From S2P Require Import Prelude Ordering RustText SecretPolicy Contracts Jobs.
From stdpp Require Import gmap.
Local Open Scope N_scope.

Definition VALIDATION_RECEIPT_VERSION : N := 1.
Definition MAX_COVERAGE_REASONS : N := 32.
Definition MAX_COVERAGE_REASON_BYTES : N := 512.
Definition INVENTORY_COMPLETE_COUNTER : string := "inventory_complete".

Section Publication.
Context {C : Type} `{Clock} `{Sqlite} `{JobJson} `{GenerationContent C} (sha256 : string -> string).
Abbreviation Store := (Store C).
Abbreviation DB := (@DB C).

(** * The receipt *)

Definition digest_identity (bytes prefix : string) : string := prefix ++ hex (sha256 bytes).
Definition sha256_identity (bytes : string) : string := digest_identity bytes "sha256:".
Definition validation_receipt_identity (json : string) : string := digest_identity json "validation:v1:".
Definition encode_validation_receipt (receipt : ArchaeologyValidationReceipt) : outcome string :=
  match receipt_to_string receipt with
  | inl error => Err ("Encode archaeology validation receipt: " ++ error)
  | inr json =>
      if MAX_CHECKPOINT_BYTES <? blen json then Err "Archaeology validation receipt exceeds 65536 bytes" else Ok json
  end.
Definition incomplete (state : ArchaeologyCoverageState) : bool := elemb state [CoveragePartial; CoverageUnavailable].
Definition reason_refused (reason : string) : bool :=
  is_empty reason || (MAX_COVERAGE_REASON_BYTES <? blen reason) || looks_like_secret reason || contains_sensitive_path reason.
Definition parse_coverage (json label : string) : outcome ArchaeologyCoverage :=
  if MAX_CHECKPOINT_BYTES <? blen json then Err ("Archaeology " ++ label ++ " coverage exceeds its byte bound")
  else match coverage_from_str json with
       | None => Err ("Archaeology " ++ label ++ " coverage is invalid")
       | Some coverage =>
           if incomplete (coverage_state coverage) && is_nil (reasons coverage)
           then Err ("Archaeology " ++ label ++ " partial or unavailable coverage requires a reason")
           else if (MAX_COVERAGE_REASONS <? len (reasons coverage)) || any reason_refused (reasons coverage)
             || (discovered_source_units coverage <? indexed_source_units coverage)
             || (discovered_bytes coverage <? indexed_bytes coverage)
             || (bool_decide (coverage_state coverage = CoverageComplete)
                 && (negb (indexed_source_units coverage =? discovered_source_units coverage)
                     || negb (indexed_bytes coverage =? discovered_bytes coverage)))
           then Err ("Archaeology " ++ label ++ " coverage is inconsistent")
           else Ok coverage
       end.
Definition table_count (seals : BTreeMap string ArchaeologyTableSeal) (table : string) : N :=
  match map_get table seals with Some seal => seal_count seal | None => 0 end.
Definition snapshot_count (snapshot : ArchaeologyValidationSnapshot) (table : string) : N := table_count (tables snapshot) table.
Definition seal_sum (seals : BTreeMap string ArchaeologyTableSeal) : N := foldr (fun e sum => seal_count (snd e) + sum) 0 seals.
(** A row of [archaeology_generations] is the input's: repository and identity,
    in the current schema. *)
Definition is_input_generation (input : ArchaeologyPublication) (generation : Generation) : bool :=
  seqb (gen_repository_id generation) (pub_repository_id input) && bool_decide (gen_identity generation = pub_identity input)
  && (gen_schema_version generation =? ARCHAEOLOGY_STORAGE_SCHEMA_VERSION).
Definition coverage_totals (coverage : ArchaeologyCoverage) : N * N * N * N :=
  (discovered_source_units coverage, indexed_source_units coverage, discovered_bytes coverage, indexed_bytes coverage).
Definition persisted_totals (totals : CoverageTotals) : N * N * N * N :=
  (discovered_units totals, indexed_units totals, total_discovered_bytes totals, total_indexed_bytes totals).
Definition build_validation_receipt (s : Store) (input : ArchaeologyPublication) (empty_inventory_proven : bool) :
    outcome ArchaeologyValidationReceipt :=
  match generations s !! pub_generation_id input with
  | Some generation =>
      if is_input_generation input generation && live_status (gen_status generation) then
        totals ← validate_integrity s input;
        seals ← validation_table_seals (content s) (pub_generation_id input);
        if negb (bool_decide (map_get "search_manifest" seals = map_get "fts" seals))
        then Err "Archaeology FTS linkage does not match its manifest" else
        let empty_inventory := table_count seals "source_units" =? 0 in
        if empty_inventory && (negb (seal_sum seals =? 0) || negb empty_inventory_proven)
        then Err "Empty archaeology publication requires completed inventory with total zero" else
        coverage ← parse_coverage (gen_coverage_json generation) "generation";
        if negb (bool_decide (coverage_totals coverage = persisted_totals totals))
        then Err "Archaeology coverage does not match persisted source rows" else
        if negb empty_inventory && (table_count seals "facts" =? 0) && bool_decide (coverage_state coverage = CoverageComplete)
        then Err "Zero-fact archaeology catalogs require explicit incomplete coverage" else
        match coverage_to_vec coverage with
        | inl error => Err error
        | inr bytes => Ok {|
            receipt_version := VALIDATION_RECEIPT_VERSION; receipt_repository_id := pub_repository_id input;
            receipt_generation_id := pub_generation_id input; receipt_identity := pub_identity input;
            receipt_schema_version := ARCHAEOLOGY_STORAGE_SCHEMA_VERSION;
            snapshot := {| empty_inventory_proven := empty_inventory; coverage_sha256 := sha256_identity bytes; tables := seals |} |}
        end
      else Err "Archaeology staging generation identity changed"
  | None => Err "Archaeology staging generation identity changed"
  end.
(** The job of a publication, in the hands of its owner. *)
Definition is_input_job (input : ArchaeologyPublication) (job : Job) : bool :=
  seqb (job_repository_id job) (pub_repository_id input)
  && bool_decide (job_generation_id job = Some (pub_generation_id input)) && seqb (owner_id job) (pub_owner_id input).
Definition running_at (at_ : ArchaeologyJobStage) (job : Job) : bool := bool_decide (state job = StateRunning) && bool_decide (stage job = at_).
Definition may_advance (input : ArchaeologyPublication) (at_ : ArchaeologyJobStage) (job : Job) : bool :=
  is_input_job input job && running_at at_ job && negb (cancellation_requested job) && not_before (pub_now input) (job_updated_at job).
Definition snapshot_counts (snapshot : ArchaeologyValidationSnapshot) : outcome (Z * Z * Z) :=
  units ← to_i64 (snapshot_count snapshot "source_units"); facts ← to_i64 (snapshot_count snapshot "facts");
  rules ← to_i64 (snapshot_count snapshot "rules"); Ok (units, facts, rules).
Definition validate_publication_input (input : ArchaeologyPublication) : outcome unit :=
  validate_owned_generation (pub_job_id input) (pub_repository_id input) (pub_generation_id input) (pub_owner_id input)
    (pub_identity input) (pub_now input).

Definition validate_generation_for_publication (input : ArchaeologyPublication) : DB ArchaeologyJobStatus :=
  _ ← result (validate_publication_input input);
  transaction (
    row ← query (fun s => job ← jobs s !! pub_job_id input; if may_advance input StageValidate job then Some job else None);
    job ← result (match row with Some job => Ok job | None => Err (cas_error "validate" (pub_job_id input)) end);
    prior ← result (match checkpoint_from_str (checkpoint_json job) with
                    | Some prior => Ok prior | None => Err "Stored archaeology pre-validation checkpoint is invalid" end);
    let inventory_complete := bool_decide (map_get INVENTORY_COMPLETE_COUNTER (counters prior) = Some 1) in
    let proven := inventory_complete && bool_decide (completed_units job = 0%Z) && bool_decide (total_units job = Some 0%Z) in
    built ← query (fun s => build_validation_receipt s input proven);
    receipt ← result built;
    json ← result (encode_validation_receipt receipt);
    changed ← update_job "Persist archaeology validation receipt" (pub_job_id input) (fun _ => may_advance input StageValidate)
      (fun job => updated (pub_now input) (with_checkpoint (validation_receipt_identity json) json (with_stage StagePublish job)));
    _ ← require_cas changed "validation receipt" (pub_job_id input);
    counts ← result (snapshot_counts (snapshot receipt));
    changed ← update_generation "Persist archaeology validated counts" (pub_generation_id input) (fun _ => has_status GenStaging)
      (with_counts (fst (fst counts)) (snd (fst counts)) (snd counts));
    _ ← require_cas changed "validated counts" (pub_job_id input);
    load_job (pub_job_id input)).

Definition verify_persisted_counts (s : Store) (generation_id : string) (snapshot : ArchaeologyValidationSnapshot) : outcome unit :=
  match generations s !! generation_id with
  | None => Err ("Read persisted generation counts: " ++ sqlite_error "no rows")
  | Some generation =>
      counts ← snapshot_counts snapshot;
      if bool_decide ((source_unit_count generation, fact_count generation, rule_count generation) = counts) then Ok ()
      else Err "Persisted archaeology generation counts changed after validation"
  end.
Definition verify_validation_receipt (s : Store) (input : ArchaeologyPublication) : outcome unit :=
  let row := job ← jobs s !! pub_job_id input;
             if is_input_job input job && elemb (state job) [StateRunning; StateCompleted; StateFailed; StateCancelled]
                && elemb (stage job) [StagePublish; StageCleanup; StageIdle]
             then Some job else None in
  job ← match row with Some job => Ok job | None => Err "Archaeology publication requires a validation receipt" end;
  identity ← match checkpoint_identity job with
             | Some identity => Ok identity
             | None => Err ("Load archaeology validation receipt: " ++ sqlite_error "checkpoint_identity") end;
  let json := checkpoint_json job in
  if (MAX_CHECKPOINT_BYTES <? blen json) || negb (seqb (validation_receipt_identity json) identity)
  then Err "Archaeology validation receipt identity is invalid" else
  stored ← match receipt_from_str json with
           | Some stored => Ok stored | None => Err "Stored archaeology validation receipt is invalid" end;
  encoded ← encode_validation_receipt stored;
  if negb (seqb encoded json) then Err "Stored archaeology validation receipt is not canonical" else
  current ← build_validation_receipt s input (empty_inventory_proven (snapshot stored));
  _ ← verify_persisted_counts s (pub_generation_id input) (snapshot current);
  if bool_decide (stored = current) then Ok () else Err "Archaeology generation changed after validation".

(** * The publication *)

Definition publication_is_already_committed (s : Store) (input : ArchaeologyPublication) : bool :=
  is_some_and (jobs s !! pub_job_id input) (fun job =>
    is_input_job input job && elemb (state job) [StateRunning; StateCompleted; StateFailed; StateCancelled]
    && elemb (stage job) [StageCleanup; StageIdle])
  && is_some_and (generations s !! pub_generation_id input) (fun generation =>
       has_status GenReady generation && bool_decide (gen_identity generation = pub_identity input)
       && (gen_schema_version generation =? ARCHAEOLOGY_STORAGE_SCHEMA_VERSION))
  && is_some_and (repositories s !! pub_repository_id input) (fun repository =>
       bool_decide (ready_generation_id repository = Some (pub_generation_id input))).
(** The ready generations of a repository. *)
Definition ready_ids (s : Store) (repository_id : string) : list string :=
  map fst (List.filter (fun e => seqb (gen_repository_id (snd e)) repository_id && has_status GenReady (snd e))
    (map_to_list (generations s))).
Definition validate_ready_pointer (s : Store) (repository_id : string) (ready_generation_id : option string) : outcome unit :=
  let ready := ready_ids s repository_id in
  let matches := len (List.filter (fun id => bool_decide (Some id = ready_generation_id)) ready) in
  let expected := if is_some ready_generation_id then 1 else 0 in
  if (len ready =? expected) && (matches =? expected) then Ok ()
  else Err "Archaeology ready pointer and ready generation disagree".
(** The ready generation of the repository with an id. *)
Definition ready_row (s : Store) (repository_id generation_id : string) : option Generation :=
  generation ← generations s !! generation_id;
  if seqb (gen_repository_id generation) repository_id && has_status GenReady generation then Some generation else None.
Definition compatible_temporal_prior (s : Store) (repository_id : string) (prior_ready : option string) :
    outcome (option string) :=
  match prior_ready with
  | None => Ok None
  | Some generation_id =>
      match ready_row s repository_id generation_id with
      | None => Err ("Load temporal prior archaeology generation: " ++ sqlite_error "no rows")
      | Some generation =>
          Ok (if gen_schema_version generation =? ARCHAEOLOGY_STORAGE_SCHEMA_VERSION then Some generation_id else None)
      end
  end.
Definition temporal_prior_revision (s : Store) (repository_id : string) (prior : option string) : outcome (option string) :=
  match prior with
  | None => Ok None
  | Some generation_id =>
      match ready_row s repository_id generation_id with
      | None => Err ("Load temporal prior revision: " ++ sqlite_error "no rows")
      | Some generation => Ok (Some (id_revision_sha (gen_identity generation)))
      end
  end.
(** What the publication changes of the other tables. *)
Definition project_generation (input : ArchaeologyPublication) (prior_ready : option string) (path : string) : DB unit :=
  reconciled ← query (fun s => reconcile_generation_lifecycle s (pub_repository_id input) (pub_generation_id input) prior_ready
                                 (pub_now input));
  reconciled ← result reconciled;
  _ ← set_content reconciled;
  prior ← query (fun s => compatible_temporal_prior s (pub_repository_id input) prior_ready);
  prior ← result prior;
  revision ← query (fun s => temporal_prior_revision s (pub_repository_id input) prior);
  revision ← result revision;
  history ← query (fun s => resolve_archaeology_temporal_context (content s) path (id_revision_sha (pub_identity input)) revision);
  history ← result history;
  projected ← query (fun s => persist_temporal_projection s (pub_repository_id input) (pub_generation_id input) prior history
                                (pub_now input));
  projected ← result projected;
  set_content projected.
(** The rows of the publication: the job goes on to its cleanup, the prior
    generation is superseded, the new one is ready, and the pointer moves. *)
Definition supersede_prior (input : ArchaeologyPublication) (prior_ready : option string) : DB unit :=
  match prior_ready with
  | None => result (Ok ())
  | Some prior_id =>
      changed ← update_generation "Supersede prior archaeology generation" prior_id
        (fun _ generation => seqb (gen_repository_id generation) (pub_repository_id input) && has_status GenReady generation)
        (with_status GenSuperseded);
      require_cas changed "supersede" (pub_job_id input)
  end.
Definition publish_rows (input : ArchaeologyPublication) (prior_ready : option string) : DB unit :=
  changed ← update_job "Claim archaeology publication stage" (pub_job_id input) (fun _ => may_advance input StagePublish)
    (fun job => updated (pub_now input) (with_stage StageCleanup job));
  _ ← require_cas changed "publish" (pub_job_id input);
  _ ← supersede_prior input prior_ready;
  changed ← update_generation "Publish archaeology generation" (pub_generation_id input)
    (fun s generation => is_input_generation input generation && has_status GenStaging generation
       && is_some_and (jobs s !! pub_job_id input) (fun job => is_input_job input job && running_at StageCleanup job))
    (fun generation => with_published_at (pub_now input) (with_status GenReady generation));
  _ ← require_cas changed "generation publish" (pub_job_id input);
  changed ← update_repository (pub_repository_id input)
    (fun repository => bool_decide (ready_generation_id repository = prior_ready)
       && seqb (current_revision repository) (id_revision_sha (pub_identity input))
       && seqb (repo_source_identity repository) (id_source (pub_identity input))
       && not_before (pub_now input) (repo_updated_at repository))
    (with_ready (pub_generation_id input) (pub_now input));
  require_cas changed "ready pointer publish" (pub_job_id input).
Definition publish_generation (input : ArchaeologyPublication) : DB ArchaeologyJobStatus :=
  _ ← result (validate_publication_input input);
  transaction (
    verified ← query (fun s => verify_validation_receipt s input);
    _ ← result verified;
    committed ← query (fun s => publication_is_already_committed s input);
    if (committed : bool) then load_job (pub_job_id input)
    else
      row ← query (fun s => repositories s !! pub_repository_id input);
      repository ← result (match row with Some repository => Ok repository | None => Err "Archaeology repository does not exist" end);
      let prior_ready := ready_generation_id repository in
      agreed ← query (fun s => validate_ready_pointer s (pub_repository_id input) prior_ready);
      _ ← result agreed;
      _ ← project_generation input prior_ready (repo_path repository);
      _ ← publish_rows input prior_ready;
      load_job (pub_job_id input)).
End Publication.
