(* ===== verification/JobStages.v ===== *)
(** What the other stages do to the three tables ([jobs.rs]): the registration of
    a repository, the statements by which each stage hands its job to the next,
    the removal of a refresh that found nothing to do, and the cleanup of
    generations that are not read. *)
From S2P Require Import Prelude Ordering RustText Contracts Jobs JobPublication.
From stdpp Require Import gmap.
Local Open Scope N_scope.

Section Stages.
Context {C : Type} `{Clock} `{Sqlite} `{JobJson} `{GenerationContent C}.
Abbreviation Store := (Store C).
Abbreviation DB := (@DB C).

(** * Statements of the stages *)

(** [INSERT ... ON CONFLICT(repository_id) DO UPDATE] of [run_inventory_refresh];
    paths are unique. *)
Definition path_taken (s : Store) (repository_id path : string) : bool :=
  any (fun e => negb (seqb (fst e) repository_id) && seqb (repo_path (snd e)) path) (map_to_list (repositories s)).
Definition registered (path source revision now : string) (existing : option Repository) : Repository :=
  {| repo_path := path; repo_source_identity := source; current_revision := revision;
     ready_generation_id := existing ≫= ready_generation_id;
     repo_created_at := match existing with Some repository => repo_created_at repository | None => now end;
     repo_updated_at := now |}.
Definition register_repository (repository_id path source revision now : string) : DB unit := fun s =>
  if path_taken s repository_id path
  then (Err (violated "Register archaeology repository inventory" "archaeology_repositories.repo_path"), s)
  else (Ok (), put_repository repository_id (registered path source revision now (repositories s !! repository_id)) s).
Definition with_coverage (json : string) (generation : Generation) : Generation :=
  {| gen_repository_id := gen_repository_id generation; gen_schema_version := gen_schema_version generation;
     gen_identity := gen_identity generation; gen_status := gen_status generation; gen_coverage_json := json;
     source_unit_count := source_unit_count generation; fact_count := fact_count generation; rule_count := rule_count generation;
     gen_created_at := gen_created_at generation; published_at := published_at generation |}.
Definition persist_inventory_coverage (generation_id repository_id json : string) : DB unit :=
  _ ← update_generation "Persist archaeology inventory coverage" generation_id
        (fun _ generation => seqb (gen_repository_id generation) repository_id && has_status GenStaging generation) (with_coverage json);
  result (Ok ()).
(** What [clone_unaffected_ready_facts] copies where a refresh finds nothing to do
    ([invalidation_store.rs]). *)
Definition clone_noop_coverage (generation_id ready : string) : DB unit :=
  prior ← query (fun s => gen_coverage_json <$> generations s !! ready);
  existing ← query (fun s => is_some (generations s !! generation_id));
  match prior with
  | Some json =>
      _ ← update_generation "Clone no-op archaeology generation coverage" generation_id (fun _ _ => true) (with_coverage json);
      result (Ok ())
  | None =>
      require (negb existing) (violated "Clone no-op archaeology generation coverage" "archaeology_generations.coverage_json")
  end.
(** The lease a stage works under: the input's job, running at a stage, with no
    cancellation asked for. *)
Definition has_lease (input : ArchaeologyPublication) (at_ : ArchaeologyJobStage) (job : Job) : bool :=
  is_input_job input job && running_at at_ job && negb (cancellation_requested job).
(** A plan that only synthesizes again skips the parse stage. *)
Definition checkpoint_refresh_plan (input : ArchaeologyPublication) (synthesis_only : bool) (identity json : string) : DB unit :=
  let next := if synthesis_only then StageLink else StageParse in
  changed ← update_job "Checkpoint archaeology refresh plan" (pub_job_id input) (fun _ => has_lease input StageInventory)
    (fun job => updated (pub_now input) (with_checkpoint identity json (with_stage next job)));
  require (changed =? 1) "Archaeology refresh plan lost its job lease".
Definition complete_incremental_parse (input : ArchaeologyPublication) : DB unit :=
  changed ← update_job "Complete archaeology incremental parse" (pub_job_id input) (fun _ => has_lease input StageParse)
    (fun job => updated (pub_now input) (with_stage StageLink job));
  require (changed =? 1) "Archaeology incremental parse lost its job lease".
(** The checkpoint that ends the link, the derive and the synthesize stage. *)
Definition end_stage (what action : string) (timed : bool) (from to : ArchaeologyJobStage) (input : ArchaeologyPublication)
    (receipt json : string) (completed : Z) (total : option Z) : DB unit :=
  changed ← update_job what (pub_job_id input)
    (fun _ job => has_lease input from job && bool_decide (completed_units job = completed) && bool_decide (total_units job = total)
       && (negb timed || not_before (pub_now input) (job_updated_at job)))
    (fun job => updated (pub_now input) (with_checkpoint receipt json (with_stage to job)));
  require_cas changed action (pub_job_id input).
Definition link_checkpoint := end_stage "Checkpoint archaeology link" "link checkpoint" false StageLink StageDerive.
Definition derive_checkpoint := end_stage "Checkpoint archaeology derivation" "derive checkpoint" false StageDerive StageSynthesize.
Definition catalog_checkpoint :=
  end_stage "Archaeology synthesis catalog checkpoint catalog" "synthesis catalog checkpoint" true StageSynthesize StageValidate.

(** * Deleting generations *)

(** [ON DELETE SET NULL] and [ON DELETE CASCADE]. *)
Definition forget_generation (generation_id : string) (job : Job) : Job :=
  if bool_decide (job_generation_id job = Some generation_id)
  then {| job_repository_id := job_repository_id job; job_generation_id := None; owner_id := owner_id job;
          stage := stage job; state := state job; checkpoint_identity := checkpoint_identity job;
          checkpoint_json := checkpoint_json job; completed_units := completed_units job; total_units := total_units job;
          cancellation_requested := cancellation_requested job; errors_json := errors_json job; started_at := started_at job;
          job_updated_at := job_updated_at job; finished_at := finished_at job |}
  else job.
Definition drop_generation (generation_id : string) (s : Store) : Store :=
  {| repositories := repositories s; generations := delete generation_id (generations s);
     jobs := forget_generation generation_id <$> jobs s; content := delete_generation_content generation_id (content s) |}.
Definition delete_generation (generation_id : string) (guard : Store -> Generation -> bool) : DB N := fun s =>
  match generations s !! generation_id with
  | Some generation => if guard s generation then (Ok 1, drop_generation generation_id s) else (Ok 0, s)
  | None => (Ok 0, s)
  end.
Definition delete_job (job_id : string) (guard : Job -> bool) : DB N := fun s =>
  match jobs s !! job_id with
  | Some job =>
      if guard job
      then (Ok 1, {| repositories := repositories s; generations := generations s; jobs := delete job_id (jobs s); content := content s |})
      else (Ok 0, s)
  | None => (Ok 0, s)
  end.
(** The end of [prepare_incremental_refresh] where nothing has changed. *)
Definition remove_noop_refresh (input : ArchaeologyPublication) : DB unit :=
  transaction (
    deleted ← delete_job (pub_job_id input) (has_lease input StageInventory);
    _ ← require (deleted =? 1) "Archaeology no-op refresh lost its job lease";
    deleted ← delete_generation (pub_generation_id input)
      (fun _ generation => seqb (gen_repository_id generation) (pub_repository_id input) && has_status GenStaging generation);
    require (deleted =? 1) "Archaeology no-op staging generation did not reconcile").

(** * Cleanup *)

Definition MAX_CLEANUP_GENERATIONS : N := 256.
Inductive ArchaeologyCleanupMode : Type := DryRun | Apply.
#[export] Instance cleanup_mode_eq_dec : EqDecision ArchaeologyCleanupMode.
Proof. solve_decision. Defined.
Record ArchaeologyCleanup : Type := {
  clean_job_id : string; clean_owner_id : string; clean_mode : ArchaeologyCleanupMode; retain_superseded : N; clean_now : string
}.
Record ArchaeologyCleanupGeneration : Type := {
  clean_generation_id : string; clean_status : GenerationStatus; search_index_rows : N; synthesis_cache_rows : N;
  synthesis_attempt_rows : N; synthesis_response_bytes : N
}.
Record ArchaeologyCleanupReport : Type := {
  dry_run : bool; report_repository_id : string; candidates : list ArchaeologyCleanupGeneration; truncated : bool;
  deleted_generations : N; deleted_search_index_rows : N; deleted_synthesis_cache_rows : N; deleted_synthesis_attempt_rows : N;
  deleted_synthesis_response_bytes : N; unavailable_resources : list string
}.
Definition terminal_states : list ArchaeologyJobState := [StateFailed; StateCancelled; StateCompleted].
Definition may_clean (job : Job) : bool :=
  (running_at StageCleanup job && negb (cancellation_requested job))
  || (elemb (state job) terminal_states && bool_decide (stage job = StageIdle)).
(** [repository.ready_generation_id = job.generation_id], which is no match where
    either is NULL. *)
Definition leads_to_ready (s : Store) (job : Job) : bool :=
  is_some_and (repositories s !! job_repository_id job) (fun repository =>
    is_some (job_generation_id job) && bool_decide (ready_generation_id repository = job_generation_id job)).
Definition authorize_cleanup (input : ArchaeologyCleanup) : DB (string * bool) :=
  row ← query (fun s => job ← jobs s !! clean_job_id input;
                        _ ← repositories s !! job_repository_id job;
                        if seqb (owner_id job) (clean_owner_id input) && may_clean job && not_before (clean_now input) (job_updated_at job)
                        then Some (job_repository_id job, leads_to_ready s job) else None);
  authorized ← result (match row with Some row => Ok row | None => Err (cas_error "cleanup" (clean_job_id input)) end);
  if bool_decide (clean_mode input = Apply) then
    changed ← update_job "Claim archaeology cleanup" (clean_job_id input)
      (fun _ job => seqb (owner_id job) (clean_owner_id input) && seqb (job_repository_id job) (fst authorized) && may_clean job
                    && not_before (clean_now input) (job_updated_at job))
      (updated (clean_now input));
    _ ← require_cas changed "cleanup" (clean_job_id input);
    result (Ok authorized)
  else result (Ok authorized).
Definition any_job (s : Store) (p : Job -> bool) : bool := any (fun e => p (snd e)) (map_to_list (jobs s)).
Definition works_on (generation_id : string) (job : Job) : bool := bool_decide (job_generation_id job = Some generation_id).
Definition in_use (s : Store) (generation_id : string) : bool :=
  any_job s (fun job => works_on generation_id job && is_active (state job)).
Definition done_by (s : Store) (owner generation_id : string) : bool :=
  any_job s (fun job => works_on generation_id job && seqb (owner_id job) owner && elemb (state job) terminal_states).
Definition ready_pointer (s : Store) (repository_id : string) : option string :=
  repositories s !! repository_id ≫= ready_generation_id.
(** The generations that are not read nor worked on. *)
Definition unused (s : Store) (repository_id : string) (e : string * Generation) : bool :=
  seqb (gen_repository_id (snd e)) repository_id && negb (has_status GenReady (snd e))
  && negb (bool_decide (ready_pointer s repository_id = Some (fst e))) && negb (in_use s (fst e)).
Definition age (e : string * Generation) : string * string := (gen_created_at (snd e), fst e).
(** [ROW_NUMBER() OVER (PARTITION BY status ORDER BY created_at DESC,
    generation_id DESC)] *)
Definition status_rank (l : list (string * Generation)) (e : string * Generation) : N :=
  1 + len (List.filter (fun e' => bool_decide (gen_status (snd e') = gen_status (snd e)) && bool_decide (cmp (age e) (age e') = Lt)) l).
Definition to_delete (s : Store) (owner : string) (retain : N) (owns_current_lease : bool) (l : list (string * Generation))
    (e : string * Generation) : bool :=
  (owns_current_lease && has_status GenSuperseded (snd e) && (retain <? status_rank l e))
  || (elemb (gen_status (snd e)) [GenStaging; GenFailed; GenCancelled] && done_by s owner (fst e)).
Definition candidate_of (c : C) (e : string * Generation) : ArchaeologyCleanupGeneration :=
  let '(rows, cache, attempts, bytes) := cleanup_counts c (fst e) in
  {| clean_generation_id := fst e; clean_status := gen_status (snd e); search_index_rows := rows; synthesis_cache_rows := cache;
     synthesis_attempt_rows := attempts; synthesis_response_bytes := bytes |}.
Definition cleanup_candidates (s : Store) (repository_id owner : string) (retain : N) (owns_current_lease : bool) :
    list ArchaeologyCleanupGeneration * bool :=
  let l := List.filter (unused s repository_id) (map_to_list (generations s)) in
  let chosen := sort_by_key age (List.filter (to_delete s owner retain owns_current_lease l) l) in
  let rows := firstn 257 chosen in
  (map (candidate_of (content s)) (firstn 256 rows), MAX_CLEANUP_GENERATIONS <? len rows).
Definition may_delete (input : ArchaeologyCleanup) (repository_id : string) (candidate : ArchaeologyCleanupGeneration) (s : Store)
    (generation : Generation) : bool :=
  let id := clean_generation_id candidate in
  seqb (gen_repository_id generation) repository_id && bool_decide (gen_status generation = clean_status candidate)
  && negb (bool_decide (ready_pointer s repository_id = Some id)) && negb (in_use s id)
  && ((has_status GenSuperseded generation
       && is_some_and (jobs s !! clean_job_id input) (fun lease => seqb (owner_id lease) (clean_owner_id input) && leads_to_ready s lease))
      || done_by s (clean_owner_id input) id).
Definition delete_candidate (input : ArchaeologyCleanup) (repository_id : string) (candidate : ArchaeologyCleanupGeneration) : DB unit :=
  deleted ← delete_generation (clean_generation_id candidate) (may_delete input repository_id candidate);
  require_cas deleted "cleanup generation" (clean_job_id input).
Fixpoint delete_candidates (input : ArchaeologyCleanup) (repository_id : string) (l : list ArchaeologyCleanupGeneration) : DB unit :=
  match l with
  | [] => result (Ok ())
  | candidate :: l => _ ← delete_candidate input repository_id candidate; delete_candidates input repository_id l
  end.
Definition sum_of (f : ArchaeologyCleanupGeneration -> N) (l : list ArchaeologyCleanupGeneration) : N :=
  foldr (fun candidate sum => f candidate + sum) 0 l.
Definition cleanup_generations (input : ArchaeologyCleanup) : DB ArchaeologyCleanupReport :=
  _ ← result (validate_actor (clean_job_id input) (clean_owner_id input) (clean_now input));
  _ ← require (retain_superseded input <=? MAX_CLEANUP_GENERATIONS) "Archaeology cleanup retention exceeds 256 generations";
  transaction (
    authorized ← authorize_cleanup input;
    planned ← query (fun s => cleanup_candidates s (fst authorized) (clean_owner_id input) (retain_superseded input) (snd authorized));
    let apply := bool_decide (clean_mode input = Apply) in
    _ ← (if apply then delete_candidates input (fst authorized) (fst planned) else result (Ok ()));
    let counted f := if apply then sum_of f (fst planned) else 0 in
    result (Ok {|
      dry_run := negb apply; report_repository_id := fst authorized; candidates := fst planned; truncated := snd planned;
      deleted_generations := counted (fun _ => 1); deleted_search_index_rows := counted search_index_rows;
      deleted_synthesis_cache_rows := counted synthesis_cache_rows; deleted_synthesis_attempt_rows := counted synthesis_attempt_rows;
      deleted_synthesis_response_bytes := counted synthesis_response_bytes;
      unavailable_resources := ["parser_cache"%string] |})).
End Stages.
