(* ===== verification/JobWorld.v ===== *)
(** What the jobs are for, without rows and clocks: each repository shows one
    generation or none, generations are staged, shown, superseded or given up, and
    one worker at a time builds one.  [world_step] is the specification the
    operations of [Jobs], [JobPublication] and [JobStages] refine, and
    [world_ok] its invariant. *)
From S2P Require Import Prelude Ordering RustText Contracts Jobs.
From stdpp Require Import gmap.

Record Worker : Type := {
  w_repository : string; w_generation : option string; w_owner : string; w_state : ArchaeologyJobState; w_stage : ArchaeologyJobStage
}.
Record World : Type := {
  shown : gmap string (option string);
  statuses : gmap string (string * GenerationStatus);
  workers : gmap string Worker
}.
Definition set_worker (id : string) (k : Worker) (w : World) : World :=
  {| shown := shown w; statuses := statuses w; workers := <[id := k]> (workers w) |}.
Definition set_status (g r : string) (status : GenerationStatus) (w : World) : World :=
  {| shown := shown w; statuses := <[g := (r, status)]> (statuses w); workers := workers w |}.
Definition show (r : string) (g : option string) (w : World) : World :=
  {| shown := <[r := g]> (shown w); statuses := statuses w; workers := workers w |}.
Definition at_stage (st : ArchaeologyJobStage) (k : Worker) : Worker :=
  {| w_repository := w_repository k; w_generation := w_generation k; w_owner := w_owner k; w_state := w_state k; w_stage := st |}.
Definition in_state (st : ArchaeologyJobState) (k : Worker) : Worker :=
  {| w_repository := w_repository k; w_generation := w_generation k; w_owner := w_owner k; w_state := st; w_stage := w_stage k |}.
Definition of_owner (owner : string) (k : Worker) : Worker :=
  {| w_repository := w_repository k; w_generation := w_generation k; w_owner := owner; w_state := w_state k; w_stage := w_stage k |}.
Definition forget (g : string) (k : Worker) : Worker :=
  if bool_decide (w_generation k = Some g)
  then {| w_repository := w_repository k; w_generation := None; w_owner := w_owner k; w_state := w_state k; w_stage := w_stage k |}
  else k.
Definition active (k : Worker) : Prop := is_active (w_state k) = true.
(** A generation is not published by going on: that is [publishes]. *)
Inductive goes_on : ArchaeologyJobStage -> ArchaeologyJobStage -> Prop :=
| goes_stay st : st <> StageIdle -> goes_on st st
| goes_parse : goes_on StageInventory StageParse
| goes_skip : goes_on StageInventory StageLink
| goes_link : goes_on StageParse StageLink
| goes_derive : goes_on StageLink StageDerive
| goes_synthesize : goes_on StageDerive StageSynthesize
| goes_validate : goes_on StageSynthesize StageValidate
| goes_publish : goes_on StageValidate StagePublish.
Inductive switches : ArchaeologyJobState -> ArchaeologyJobState -> Prop :=
| switch_pause : switches StateRunning StatePaused
| switch_resume : switches StatePaused StateRunning
| switch_cancel st : st = StateRunning \/ st = StatePaused -> switches st StateCancelling.
(** How a worker gives up: with the state of its generation, which is [None] where
    the generation is shown already and stays. *)
Inductive gives_up : ArchaeologyJobState -> ArchaeologyJobState -> GenerationStatus -> Prop :=
| gives_cancelled : gives_up StateCancelling StateCancelled GenCancelled
| gives_failed st : st ∈ may_fail -> gives_up st StateFailed GenFailed.
Definition idle_worker (w : World) (r : string) : Prop := forall id k, workers w !! id = Some k -> w_repository k = r -> ~ active k.

Inductive world_step : World -> World -> Prop :=
| step_register w r : shown w !! r = None -> world_step w (show r None w)
| step_start w r g id owner : is_Some (shown w !! r) -> statuses w !! g = None -> workers w !! id = None -> idle_worker w r ->
    world_step w (set_worker id {| w_repository := r; w_generation := Some g; w_owner := owner; w_state := StateRunning;
                                   w_stage := StageInventory |} (set_status g r GenStaging w))
| step_on w id k st : workers w !! id = Some k -> w_state k = StateRunning -> goes_on (w_stage k) st ->
    world_step w (set_worker id (at_stage st k) w)
| step_switch w id k st : workers w !! id = Some k -> switches (w_state k) st -> world_step w (set_worker id (in_state st k) w)
| step_recover w id k owner : workers w !! id = Some k -> active k ->
    world_step w (set_worker id (in_state (recovered_state (w_state k)) (of_owner owner k)) w)
| step_give_up w id k g r st status : workers w !! id = Some k -> gives_up (w_state k) st status ->
    w_generation k = Some g -> statuses w !! g = Some (r, GenStaging) ->
    world_step w (set_worker id (at_stage StageIdle (in_state st k)) (set_status g r status w))
| step_stop w id k g r st status : workers w !! id = Some k -> gives_up (w_state k) st status ->
    w_generation k = Some g -> statuses w !! g = Some (r, GenReady) ->
    world_step w (set_worker id (at_stage StageIdle (in_state st k)) w)
| step_complete w id k g r : workers w !! id = Some k -> w_state k = StateRunning -> w_stage k = StageCleanup ->
    w_generation k = Some g -> statuses w !! g = Some (r, GenReady) ->
    world_step w (set_worker id (at_stage StageIdle (in_state StateCompleted k)) w)
| step_publish w id k r g : workers w !! id = Some k -> w_state k = StateRunning -> w_stage k = StagePublish ->
    w_repository k = r -> w_generation k = Some g -> statuses w !! g = Some (r, GenStaging) -> shown w !! r = Some None ->
    world_step w (show r (Some g) (set_status g r GenReady (set_worker id (at_stage StageCleanup k) w)))
| step_replace w id k r g prior : workers w !! id = Some k -> w_state k = StateRunning -> w_stage k = StagePublish ->
    w_repository k = r -> w_generation k = Some g -> statuses w !! g = Some (r, GenStaging) -> shown w !! r = Some (Some prior) ->
    statuses w !! prior = Some (r, GenReady) ->
    world_step w (show r (Some g) (set_status g r GenReady (set_status prior r GenSuperseded
      (set_worker id (at_stage StageCleanup k) w))))
| step_remove w id k g r : workers w !! id = Some k -> w_state k = StateRunning -> w_stage k = StageInventory ->
    w_generation k = Some g -> statuses w !! g = Some (r, GenStaging) ->
    world_step w {| shown := shown w; statuses := delete g (statuses w); workers := forget g <$> delete id (workers w) |}
| step_discard w g r status : statuses w !! g = Some (r, status) -> status <> GenReady ->
    (forall id k, workers w !! id = Some k -> w_generation k = Some g -> ~ active k) ->
    world_step w {| shown := shown w; statuses := delete g (statuses w); workers := forget g <$> workers w |}.
Definition empty_world : World := {| shown := ∅; statuses := ∅; workers := ∅ |}.

(** * The invariant *)

(** What an active worker holds: before its publication a staged generation of its
    repository, after it the one that is shown. *)
Inductive holds (w : World) (k : Worker) : Prop :=
| holds_staged g : w_generation k = Some g -> statuses w !! g = Some (w_repository k, GenStaging) ->
    w_stage k <> StageCleanup -> w_stage k <> StageIdle -> holds w k
| holds_shown g : w_generation k = Some g -> statuses w !! g = Some (w_repository k, GenReady) ->
    w_stage k = StageCleanup -> holds w k.
Record world_ok (w : World) : Prop := {
  (** what is shown is what is ready *)
  ok_shown : forall r g, shown w !! r = Some (Some g) <-> statuses w !! g = Some (r, GenReady);
  ok_repository : forall g r status, statuses w !! g = Some (r, status) -> is_Some (shown w !! r);
  (** one worker at a time *)
  ok_one : forall r id1 id2 k1 k2, workers w !! id1 = Some k1 -> workers w !! id2 = Some k2 -> w_repository k1 = r ->
    w_repository k2 = r -> active k1 -> active k2 -> id1 = id2;
  (** no generation is built twice *)
  ok_own : forall id1 id2 k1 k2 g, workers w !! id1 = Some k1 -> workers w !! id2 = Some k2 -> w_generation k1 = Some g ->
    w_generation k2 = Some g -> id1 = id2;
  ok_known : forall id k g, workers w !! id = Some k -> w_generation k = Some g -> is_Some (statuses w !! g);
  ok_holds : forall id k, workers w !! id = Some k -> active k -> holds w k;
  ok_ended : forall id k, workers w !! id = Some k -> ~ active k ->
    w_stage k = StageIdle /\ w_state k ∈ [StateCompleted; StateFailed; StateCancelled]
}.
Lemma empty_ok : world_ok empty_world.
Proof. split; cbn; intros *; rewrite ?lookup_empty; naive_solver. Qed.
Lemma holds_status w w' k : (forall g, w_generation k = Some g -> statuses w !! g = statuses w' !! g) -> holds w k -> holds w' k.
Proof.
  intros Hs [g Hg Hst H1 H2|g Hg Hst H1].
  - apply (holds_staged _ _ g); [done| |done|done]. by rewrite <- (Hs g Hg).
  - apply (holds_shown _ _ g); [done| |done]. by rewrite <- (Hs g Hg).
Qed.
Lemma ok_set_worker w id k k' : world_ok w -> workers w !! id = Some k -> w_repository k' = w_repository k ->
  w_generation k' = w_generation k -> (active k' -> active k /\ holds w k') ->
  (~ active k' -> w_stage k' = StageIdle /\ w_state k' ∈ [StateCompleted; StateFailed; StateCancelled]) ->
  world_ok (set_worker id k' w).
Proof.
  intros Hok Hk Hr Hg Hact Hend. destruct Hok as [O1 O2 O3 O4 O5 O6 O7].
  split; cbn [set_worker workers shown statuses]; [done|done| | | | |].
  - intros r id1 id2 k1 k2 [[<- <-]|[Hne1 H1]]%lookup_insert_Some [[<- <-]|[Hne2 H2]]%lookup_insert_Some R1 R2 A1 A2; [done|..].
    + apply (O3 r id id2 k k2); try done; [congruence|]. by apply Hact.
    + apply (O3 r id1 id k1 k); try done; [congruence|]. by apply Hact.
    + by apply (O3 r id1 id2 k1 k2).
  - intros id1 id2 k1 k2 g [[<- <-]|[Hne1 H1]]%lookup_insert_Some [[<- <-]|[Hne2 H2]]%lookup_insert_Some G1 G2; [done|..].
    + apply (O4 id id2 k k2 g); try done. congruence.
    + apply (O4 id1 id k1 k g); try done. congruence.
    + by apply (O4 id1 id2 k1 k2 g).
  - intros id1 k1 g [[<- <-]|[Hne1 H1]]%lookup_insert_Some G; [|by apply (O5 id1 k1)]. apply (O5 id k); [done|congruence].
  - intros id1 k1 [[<- <-]|[Hne1 H1]]%lookup_insert_Some A; apply (holds_status w); try done; [by apply Hact|by apply (O6 id1)].
  - intros id1 k1 [[<- <-]|[Hne1 H1]]%lookup_insert_Some A; [|by apply (O7 id1)]. by apply Hend.
Qed.
Lemma ok_set_status w g r old new : world_ok w -> statuses w !! g = Some (r, old) -> old <> GenReady -> new <> GenReady ->
  (forall id k, workers w !! id = Some k -> w_generation k = Some g -> ~ active k) -> world_ok (set_status g r new w).
Proof.
  intros Hok Hg Hold Hnew Hidle. destruct Hok as [O1 O2 O3 O4 O5 O6 O7].
  split; cbn [set_status workers shown statuses]; [| |done|done| | |done].
  - intros r' g'. rewrite O1, lookup_insert_Some. destruct (decide (g = g')) as [<-|Hne]; [|naive_solver].
    rewrite Hg. split; [by intros [= _ ?]|]. intros [[_ [= _ ?]]|[? _]]; done.
  - intros g' r' status [[<- [= -> _]]|[_ Hs]]%lookup_insert_Some; [by apply (O2 g r' old)|by apply (O2 g' r' status)].
  - intros id k g' Hk Hkg. destruct (decide (g = g')) as [<-|Hne]; [rewrite lookup_insert_eq; eauto|].
    rewrite lookup_insert_ne by done. by apply (O5 id k).
  - intros id k Hk A. apply (holds_status w); [|by apply (O6 id)]. intros g' Hkg. cbn.
    rewrite lookup_insert_ne; [done|]. intros <-. by apply (Hidle id k).
Qed.
(** A staged generation is one worker's. *)
Lemma sole_worker w id k g : world_ok w -> workers w !! id = Some k -> w_generation k = Some g ->
  forall id' k', workers w !! id' = Some k' -> w_generation k' = Some g -> id' = id.
Proof. intros Hok Hk Hg id' k' Hk' Hg'. by apply (ok_own w Hok id' id k' k g). Qed.
Lemma not_active k st : w_state k = st -> is_active st = false -> ~ active k.
Proof. unfold active. intros -> ->. done. Qed.
Lemma active_state k st : w_state k = st -> is_active st = true -> active k.
Proof. unfold active. by intros ->. Qed.
Lemma ok_start w r g id owner : world_ok w -> is_Some (shown w !! r) -> statuses w !! g = None -> workers w !! id = None ->
  idle_worker w r ->
  world_ok (set_worker id {| w_repository := r; w_generation := Some g; w_owner := owner; w_state := StateRunning;
                             w_stage := StageInventory |} (set_status g r GenStaging w)).
Proof.
  intros [O1 O2 O3 O4 O5 O6 O7] Hr Hg Hid Hidle.
  assert (forall id' k, workers w !! id' = Some k -> w_generation k <> Some g) as Hfresh.
  { intros id' k Hk Hkg. destruct (O5 id' k g Hk Hkg) as [x Hx]. congruence. }
  split; cbn [set_worker set_status workers shown statuses].
  - intros r' g'. rewrite O1, lookup_insert_Some. naive_solver.
  - intros g' r' status [[<- [= <- _]]|[_ Hs]]%lookup_insert_Some; [done|by apply (O2 g' r' status)].
  - intros r' id1 id2 k1 k2 [[<- <-]|[Hne1 H1]]%lookup_insert_Some [[<- <-]|[Hne2 H2]]%lookup_insert_Some R1 R2 A1 A2; [done|..].
    + cbn in R1. rewrite <- R1 in R2. by destruct (Hidle id2 k2 H2 R2).
    + cbn in R2. rewrite <- R2 in R1. by destruct (Hidle id1 k1 H1 R1).
    + by apply (O3 r' id1 id2 k1 k2).
  - intros id1 id2 k1 k2 g' [[<- <-]|[Hne1 H1]]%lookup_insert_Some [[<- <-]|[Hne2 H2]]%lookup_insert_Some G1 G2; [done|..].
    + injection G1 as <-. by destruct (Hfresh id2 k2 H2).
    + injection G2 as <-. by destruct (Hfresh id1 k1 H1).
    + by apply (O4 id1 id2 k1 k2 g').
  - intros id1 k1 g' [[<- <-]|[Hne1 H1]]%lookup_insert_Some G; [injection G as <-; rewrite lookup_insert_eq; eauto|].
    rewrite lookup_insert_ne; [by apply (O5 id1 k1)|]. intros <-. by apply (Hfresh id1 k1).
  - intros id1 k1 [[<- <-]|[Hne1 H1]]%lookup_insert_Some A.
    + apply (holds_staged _ _ g); [done| |done|done]. by apply lookup_insert_eq.
    + apply (holds_status w); [|by apply (O6 id1)]. intros g' Hkg. cbn. rewrite lookup_insert_ne; [done|].
      intros <-. by apply (Hfresh id1 k1).
  - intros id1 k1 [[<- <-]|[Hne1 H1]]%lookup_insert_Some A; [by destruct A|by apply (O7 id1)].
Qed.
Lemma ok_publish w id k r g prior st' : world_ok w -> workers w !! id = Some k -> w_state k = StateRunning ->
  w_stage k = StagePublish -> w_repository k = r -> w_generation k = Some g -> statuses w !! g = Some (r, GenStaging) ->
  shown w !! r = Some prior ->
  (forall g', st' !! g' = if decide (g' = g) then Some (r, GenReady)
                          else if decide (prior = Some g') then Some (r, GenSuperseded) else statuses w !! g') ->
  world_ok {| shown := <[r := Some g]> (shown w); statuses := st'; workers := <[id := at_stage StageCleanup k]> (workers w) |}.
Proof.
  intros Hok Hk Hrun Hst Hr Hg Hstg Hprior Hst'. assert (active k) as Hact by (by apply (active_state k StateRunning)).
  destruct Hok as [O1 O2 O3 O4 O5 O6 O7].
  assert (forall g', prior = Some g' -> statuses w !! g' = Some (r, GenReady)) as Hp.
  { intros g' ->. by apply O1. }
  split; cbn [shown statuses workers].
  - intros r' g'. rewrite Hst', lookup_insert_Some. destruct (decide (g' = g)) as [->|Hne].
    + split; [intros [[<- _]|[Hne Hs]]; [done|]|intros [= ->]; by left]. apply O1 in Hs. congruence.
    + destruct (decide (prior = Some g')) as [->|Hnp].
      * split; [|done]. intros [[_ [= ?]]|[Hne' Hs]]; [done|]. apply O1 in Hs. specialize (Hp g' eq_refl). congruence.
      * rewrite <- O1. split; [intros [[_ [= ?]]|[_ ?]]; done|]. intros Hs. right. split; [|done]. intros <-. congruence.
  - intros g' r' status. rewrite Hst'. intros Hs. destruct (decide (r = r')) as [<-|Hne]; [rewrite lookup_insert_eq; eauto|].
    rewrite lookup_insert_ne by done. destruct (decide (g' = g)); [congruence|]. destruct (decide (prior = Some g')); [congruence|].
    by apply (O2 g' r' status).
  - intros r' id1 id2 k1 k2 [[<- <-]|[Hne1 H1]]%lookup_insert_Some [[<- <-]|[Hne2 H2]]%lookup_insert_Some R1 R2 A1 A2; [done|..].
    + by apply (O3 r' id id2 k k2).
    + by apply (O3 r' id1 id k1 k).
    + by apply (O3 r' id1 id2 k1 k2).
  - intros id1 id2 k1 k2 g' [[<- <-]|[Hne1 H1]]%lookup_insert_Some [[<- <-]|[Hne2 H2]]%lookup_insert_Some G1 G2; [done|..].
    + by apply (O4 id id2 k k2 g').
    + by apply (O4 id1 id k1 k g').
    + by apply (O4 id1 id2 k1 k2 g').
  - intros id1 k1 g' Hk1 G. rewrite Hst'. destruct (decide (g' = g)); [eauto|]. destruct (decide (prior = Some g')); [eauto|].
    apply lookup_insert_Some in Hk1 as [[<- <-]|[_ Hk1]]; [by apply (O5 id k)|by apply (O5 id1 k1)].
  - intros id1 k1 [[<- <-]|[Hne1 H1]]%lookup_insert_Some A.
    + apply (holds_shown _ _ g); [done| |done]. cbn [statuses w_repository at_stage]. rewrite Hst', Hr. by rewrite decide_True.
    + apply (holds_status w); [|by apply (O6 id1)]. intros g' Hg'. cbn. rewrite Hst'.
      rewrite decide_False by (intros ->; by apply Hne1, (O4 id id1 k k1 g)).
      rewrite decide_False; [done|]. intros Hpr. apply Hne1. apply (O3 r id id1 k k1); try done.
      specialize (Hp g' Hpr). destruct (O6 id1 k1 H1 A) as [? Hx Hsx _ _|? Hx Hsx _]; congruence.
  - intros id1 k1 [[<- <-]|[Hne1 H1]]%lookup_insert_Some A; [by destruct A|by apply (O7 id1)].
Qed.
Lemma forget_state g k : w_state (forget g k) = w_state k /\ w_stage (forget g k) = w_stage k /\ w_repository (forget g k) = w_repository k.
Proof. unfold forget. by case_bool_decide. Qed.
Lemma forget_generation_Some g k g' : w_generation (forget g k) = Some g' <-> w_generation k = Some g' /\ g' <> g.
Proof. unfold forget. case_bool_decide; cbn; naive_solver. Qed.
Lemma ok_discard w g r status : world_ok w -> statuses w !! g = Some (r, status) -> status <> GenReady ->
  (forall id k, workers w !! id = Some k -> w_generation k = Some g -> ~ active k) ->
  world_ok {| shown := shown w; statuses := delete g (statuses w); workers := forget g <$> workers w |}.
Proof.
  intros [O1 O2 O3 O4 O5 O6 O7] Hg Hnr Hidle.
  assert (forall id k, (forget g <$> workers w) !! id = Some k -> exists k0, workers w !! id = Some k0 /\ k = forget g k0) as Hf.
  { intros id k. rewrite lookup_fmap. intros (k0 & -> & Hk0)%fmap_Some. eauto. }
  assert (forall k, active (forget g k) <-> active k) as Ha.
  { intros k. unfold active. destruct (forget_state g k) as [-> _]. done. }
  split; cbn [shown statuses workers].
  - intros r' g'. rewrite O1, lookup_delete_Some. naive_solver.
  - intros g' r' st' [_ Hs]%lookup_delete_Some. by apply (O2 g' r' st').
  - intros r' id1 id2 k1 k2 (k1' & H1 & ->)%Hf (k2' & H2 & ->)%Hf. rewrite !Ha.
    destruct (forget_state g k1') as (_ & _ & ->), (forget_state g k2') as (_ & _ & ->). by apply (O3 r' id1 id2 k1' k2').
  - intros id1 id2 k1 k2 g' (k1' & H1 & ->)%Hf (k2' & H2 & ->)%Hf [G1 _]%forget_generation_Some [G2 _]%forget_generation_Some.
    by apply (O4 id1 id2 k1' k2' g').
  - intros id k g' (k0 & Hk & ->)%Hf [G Hne]%forget_generation_Some. rewrite lookup_delete_ne by done. by apply (O5 id k0).
  - intros id k (k0 & Hk & ->)%Hf A. rewrite Ha in A. pose proof (Hidle id k0 Hk) as Hid.
    assert (w_generation k0 <> Some g) as Hne by (intros E; by apply Hid).
    assert (forget g k0 = k0) as -> by (unfold forget; by rewrite bool_decide_false).
    apply (holds_status w); [|by apply (O6 id)]. intros g' Hg'. cbn. rewrite lookup_delete_ne; [done|]. congruence.
  - intros id k (k0 & Hk & ->)%Hf. rewrite Ha. destruct (forget_state g k0) as (-> & -> & _). by apply (O7 id).
Qed.
Lemma ok_delete_worker w id : world_ok w ->
  world_ok {| shown := shown w; statuses := statuses w; workers := delete id (workers w) |}.
Proof.
  intros [O1 O2 O3 O4 O5 O6 O7]. split; cbn [shown statuses workers]; [done|done| | | | |].
  - intros r id1 id2 k1 k2 [_ H1]%lookup_delete_Some [_ H2]%lookup_delete_Some. by apply (O3 r id1 id2 k1 k2).
  - intros id1 id2 k1 k2 g [_ H1]%lookup_delete_Some [_ H2]%lookup_delete_Some. by apply (O4 id1 id2 k1 k2 g).
  - intros id1 k1 g [_ H1]%lookup_delete_Some. by apply (O5 id1 k1).
  - intros id1 k1 [_ H1]%lookup_delete_Some A. apply (holds_status w); [done|]. by apply (O6 id1).
  - intros id1 k1 [_ H1]%lookup_delete_Some. by apply (O7 id1).
Qed.
Lemma ok_register w r : world_ok w -> shown w !! r = None -> world_ok (show r None w).
Proof.
  intros [O1 O2 O3 O4 O5 O6 O7] Hr. split; cbn [show shown statuses workers]; [| |done|done|done| |done].
  - intros r' g. rewrite lookup_insert_Some. split; [intros [[_ ?]|[_ ?%O1]]; done|]. intros Hs%O1. right. split; [congruence|done].
  - intros g r' status Hs%O2. destruct (decide (r = r')) as [<-|Hne]; [rewrite lookup_insert_eq; eauto|by rewrite lookup_insert_ne].
  - intros id k Hk A. apply (holds_status w); [done|]. by apply (O6 id).
Qed.
Lemma goes_on_stages a b : goes_on a b -> a <> StageIdle /\ b <> StageIdle /\ (b = StageCleanup <-> a = StageCleanup).
Proof. destruct 1; done. Qed.
Lemma switches_active a b : switches a b -> is_active a = true /\ is_active b = true.
Proof. by destruct 1 as [| |? [->| ->]]. Qed.
Lemma gives_up_ends a b status : gives_up a b status ->
  is_active a = true /\ is_active b = false /\ b ∈ [StateCompleted; StateFailed; StateCancelled] /\
  (status = GenFailed \/ status = GenCancelled).
Proof.
  destruct 1 as [|st Hst]; [split_and!; [done..|set_solver|by right]|]. split_and!; [|done|set_solver|by left].
  unfold may_fail in Hst. rewrite !elem_of_cons, elem_of_nil in Hst. by destruct Hst as [->|[->|[->|[]]]].
Qed.
Lemma holds_stage w k k' : w_repository k' = w_repository k -> w_generation k' = w_generation k ->
  w_stage k' <> StageIdle -> (w_stage k' = StageCleanup <-> w_stage k = StageCleanup) -> holds w k -> holds w k'.
Proof.
  intros Hr Hg Hni Hc [g G S N1 N2|g G S N1].
  - apply (holds_staged _ _ g); [congruence|by rewrite Hr|by rewrite Hc|done].
  - apply (holds_shown _ _ g); [congruence|by rewrite Hr|by apply Hc].
Qed.
Lemma holds_not_idle w k : holds w k -> w_stage k <> StageIdle.
Proof. destruct 1; congruence. Qed.
Lemma ok_end w id k st : world_ok w -> workers w !! id = Some k -> is_active st = false ->
  st ∈ [StateCompleted; StateFailed; StateCancelled] -> world_ok (set_worker id (at_stage StageIdle (in_state st k)) w).
Proof.
  intros Hok Hk Hst Hin. apply (ok_set_worker w id k); [done..| |done]. unfold active. cbn. by rewrite Hst.
Qed.
(** The specification keeps its invariant. *)
Lemma world_step_ok w w' : world_ok w -> world_step w w' -> world_ok w'.
Proof.
  intros Hok Hstep. destruct Hstep as [w r Hr|w r g id o Hr Hg Hid Hidle|w id k st Hk Hrun Hgo|w id k st Hk Hsw|w id k o Hk Hact
    |w id k g r st status Hk Hup Hg Hs|w id k g r st status Hk Hup Hg Hs|w id k g r Hk Hrun Hst Hg Hs
    |w id k r g Hk Hrun Hst Hr Hg Hs Hsh|w id k r g prior Hk Hrun Hst Hr Hg Hs Hsh Hp|w id k g r Hk Hrun Hst Hg Hs|w g r status Hg Hnr Hidle].
  - by apply ok_register.
  - by apply ok_start.
  - assert (active k) as Hact by (by apply (active_state k StateRunning)). apply goes_on_stages in Hgo as (H1 & H2 & H3).
    apply (ok_set_worker w id k); [done..| |done]. intros _. split; [done|].
    apply (holds_stage w k); [done..|]. by apply (ok_holds w Hok id).
  - apply switches_active in Hsw as [H1 H2]. assert (holds w k) as Hh by (by apply (ok_holds w Hok id)).
    apply (ok_set_worker w id k); [done..| |intros Hn; by destruct Hn]. intros _. split; [done|].
    by apply (holds_stage w k); [done|done|exact (holds_not_idle w k Hh)|done|].
  - assert (holds w k) as Hh by (by apply (ok_holds w Hok id)).
    apply (ok_set_worker w id k); [done..| |].
    + intros _. split; [done|]. by apply (holds_stage w k); [done|done|exact (holds_not_idle w k Hh)|done|].
    + unfold active in *. cbn. intros Hn. destruct Hn. by destruct (w_state k).
  - apply gives_up_ends in Hup as (H1 & H2 & H3 & H4).
    apply (ok_set_status (set_worker id (at_stage StageIdle (in_state st k)) w) g r GenStaging status); [by apply ok_end|done..| |].
    + by destruct H4 as [->| ->].
    + cbn. intros id' k' [[<- <-]|[Hne Hk']]%lookup_insert_Some Hg'; [unfold active; cbn; by rewrite H2|].
      destruct Hne. symmetry. by apply (sole_worker w id k g Hok Hk Hg id' k').
  - apply gives_up_ends in Hup as (H1 & H2 & H3 & _). by apply ok_end.
  - apply ok_end; [done..|set_solver].
  - apply (ok_publish w id k r g None); try done. intros g'. cbn. destruct (decide (g' = g)) as [->|]; [by rewrite lookup_insert_eq|].
    by rewrite lookup_insert_ne, decide_False by done.
  - apply (ok_publish w id k r g (Some prior)); try done. intros g'. cbn. destruct (decide (g' = g)) as [->|]; [by rewrite lookup_insert_eq|].
    rewrite lookup_insert_ne by done. destruct (decide (Some prior = Some g')) as [[= ->]|Hne]; [by rewrite lookup_insert_eq|].
    by rewrite lookup_insert_ne by congruence.
  - pose proof (ok_discard _ g r GenStaging (ok_delete_worker w id Hok)) as Hd. cbn in Hd. apply Hd; [done..|]. intros id' k' [Hne Hk']%lookup_delete_Some Hg'.
    destruct Hne. symmetry. by apply (sole_worker w id k g Hok Hk Hg id' k').
  - by apply (ok_discard w g r status).
Qed.
Lemma world_steps_ok w w' : world_ok w -> rtc world_step w w' -> world_ok w'.
Proof. intros Hok Hs. induction Hs as [w|w1 w2 w3 H12 _ IH]; [done|]. by apply IH, (world_step_ok w1). Qed.
