(* ===== verification/JobRuns.v ===== *)
(** Runs of database actions: what a run that succeeded went through, what any run
    leaves behind, and how the rows it wrote look in a [World]. *)
From S2P Require Import Prelude Ordering RustText Contracts Jobs JobPublication JobStages JobWorld.
From stdpp Require Import gmap.
Local Open Scope N_scope.

Section Runs.
Context {C : Type} `{Clock} `{Sqlite} `{JobJson} `{GenerationContent C}.
Abbreviation Store := (Store C).
Abbreviation DB := (@DB C).

(** * Successful runs *)

Lemma db_bind_Ok {A B} (m : DB A) (k : A -> DB B) s b s' : (m ≫= k) s = (Ok b, s') ->
  exists a s1, m s = (Ok a, s1) /\ k a s1 = (Ok b, s').
Proof. unfold mbind, db_bind. destruct (m s) as [[a|e|e] s1] eqn:E; [|done..]. eauto. Qed.
Lemma result_Ok {A} (r : outcome A) (s : Store) a s' : result r s = (Ok a, s') -> r = Ok a /\ s' = s.
Proof. unfold result. by intros [= -> ->]. Qed.
Lemma query_Ok {A} (f : Store -> A) s a s' : query f s = (Ok a, s') -> a = f s /\ s' = s.
Proof. unfold query. by intros [= -> ->]. Qed.
Lemma require_Ok b e (s : Store) a s' : require b e s = (Ok a, s') -> b = true /\ s' = s.
Proof. unfold require. intros [Hb ->]%result_Ok. by destruct b. Qed.
Lemma require_cas_Ok n action id (s : Store) a s' : require_cas n action id s = (Ok a, s') -> n = 1 /\ s' = s.
Proof. unfold require_cas. by intros [Hn%N.eqb_eq ->]%require_Ok. Qed.
Lemma bind_query_Ok {A B} (f : Store -> A) (k : A -> DB B) s b s' : (query f ≫= k) s = (Ok b, s') -> k (f s) s = (Ok b, s').
Proof. done. Qed.
Lemma bind_result_Ok {A B} (r : outcome A) (k : A -> DB B) s b s' : (result r ≫= k) s = (Ok b, s') ->
  exists a, r = Ok a /\ k a s = (Ok b, s').
Proof. intros (a & s1 & [-> ->]%result_Ok & Hk)%db_bind_Ok. eauto. Qed.
Lemma bind_require_Ok {B} b e (k : unit -> DB B) s a s' : (require b e ≫= k) s = (Ok a, s') -> b = true /\ k () s = (Ok a, s').
Proof. intros ([] & s1 & [-> ->]%require_Ok & Hk)%db_bind_Ok. done. Qed.
Lemma bind_cas_Ok {B} n action id (k : unit -> DB B) s a s' : (require_cas n action id ≫= k) s = (Ok a, s') ->
  n = 1 /\ k () s = (Ok a, s').
Proof. intros [Hn%N.eqb_eq Hk]%bind_require_Ok. done. Qed.
Lemma transaction_Ok {A} (body : DB A) s a s' : transaction body s = (Ok a, s') -> body s = (Ok a, s').
Proof. unfold transaction. by destruct (body s) as [[a'|e|e] s1]. Qed.
Lemma set_content_Ok c (s : Store) a s' : set_content c s = (Ok a, s') ->
  repositories s' = repositories s /\ generations s' = generations s /\ jobs s' = jobs s /\ content s' = c.
Proof. unfold set_content. by intros [= _ <-]. Qed.
(** What a statement found when it changed a row. *)
Definition updates_job (id : string) (guard : Store -> Job -> bool) (set : Job -> Job) (s s' : Store) : Prop :=
  exists job, jobs s !! id = Some job /\ guard s job = true /\ job_violation s id (set job) = None /\
    s' = put_job id (set job) s.
Definition updates_generation (id : string) (guard : Store -> Generation -> bool) (set : Generation -> Generation)
    (s s' : Store) : Prop :=
  exists generation, generations s !! id = Some generation /\ guard s generation = true /\
    generation_violation s id (set generation) = None /\ s' = put_generation id (set generation) s.
Lemma update_job_Ok what id guard set s n s' : update_job what id guard set s = (Ok n, s') ->
  n = 1 /\ updates_job id guard set s s' \/ n = 0 /\ s' = s.
Proof.
  unfold update_job, updates_job. destruct (jobs s !! id) as [job|] eqn:E; [|intros [= <- <-]; by right].
  destruct (guard s job) eqn:Hg; [|intros [= <- <-]; by right].
  destruct (job_violation s id (set job)) eqn:Hv; [done|]. intros [= <- <-]. left. eauto 10.
Qed.
Lemma update_generation_Ok what id guard set s n s' : update_generation what id guard set s = (Ok n, s') ->
  n = 1 /\ updates_generation id guard set s s' \/ n = 0 /\ s' = s.
Proof.
  unfold update_generation, updates_generation. destruct (generations s !! id) as [generation|] eqn:E; [|intros [= <- <-]; by right].
  destruct (guard s generation) eqn:Hg; [|intros [= <- <-]; by right].
  destruct (generation_violation s id (set generation)) eqn:Hv; [done|]. intros [= <- <-]. left. eauto 10.
Qed.
Lemma update_repository_Ok id guard set (s : Store) n s' : update_repository id guard set s = (Ok n, s') ->
  n = 1 /\ (exists row, repositories s !! id = Some row /\ guard row = true /\ s' = put_repository id (set row) s) \/
  n = 0 /\ s' = s.
Proof.
  unfold update_repository. destruct (repositories s !! id) as [row|] eqn:E; [|intros [= <- <-]; by right].
  destruct (guard row) eqn:Hg; intros [= <- <-]; [left|right]; eauto 10.
Qed.
Lemma delete_generation_Ok id guard (s : Store) n s' : delete_generation id guard s = (Ok n, s') ->
  n = 1 /\ (exists generation, generations s !! id = Some generation /\ guard s generation = true /\ s' = drop_generation id s) \/
  n = 0 /\ s' = s.
Proof.
  unfold delete_generation. destruct (generations s !! id) as [generation|] eqn:E; [|intros [= <- <-]; by right].
  destruct (guard s generation) eqn:Hg; intros [= <- <-]; [left|right]; eauto 10.
Qed.
Lemma delete_job_Ok id guard (s : Store) n s' : delete_job id guard s = (Ok n, s') ->
  n = 1 /\ (exists job, jobs s !! id = Some job /\ guard job = true /\
    s' = {| repositories := repositories s; generations := generations s; jobs := delete id (jobs s); content := content s |}) \/
  n = 0 /\ s' = s.
Proof.
  unfold delete_job. destruct (jobs s !! id) as [job|] eqn:E; [|intros [= <- <-]; by right].
  destruct (guard job) eqn:Hg; intros [= <- <-]; [left|right]; eauto 10.
Qed.
Lemma insert_generation_Ok what id generation (s : Store) a s' : insert_generation what id generation s = (Ok a, s') ->
  generations s !! id = None /\ is_Some (repositories s !! gen_repository_id generation) /\
  generation_violation s id generation = None /\ s' = put_generation id generation s.
Proof.
  unfold insert_generation. destruct (generations s !! id) eqn:E; [done|].
  destruct (repositories s !! gen_repository_id generation) eqn:Er; [|done]. cbn [is_some negb].
  destruct (generation_violation s id generation) eqn:Hv; [done|]. intros [= _ <-]. eauto.
Qed.
Lemma insert_job_Ok what id job (s : Store) a s' : insert_job what id job s = (Ok a, s') ->
  jobs s !! id = None /\ job_violation s id job = None /\ s' = put_job id job s.
Proof.
  unfold insert_job. destruct (jobs s !! id) eqn:E; [done|]. cbn [is_some].
  destruct (_ || _); [done|]. destruct (job_violation s id job) eqn:Hv; [done|]. by intros [= _ <-].
Qed.
Lemma load_job_pure id (s : Store) : snd (load_job id s) = s.
Proof. unfold load_job, mbind, db_bind, query. cbn. by destruct (jobs s !! id). Qed.
Lemma load_job_Ok id (s : Store) status s' : load_job id s = (Ok status, s') -> s' = s.
Proof. pose proof (load_job_pure id s) as E. by intros Hl; rewrite Hl in E. Qed.

(** A compare-and-swap that went through. *)
Lemma bind_swap_Ok {B} what id guard set action id' (k : DB B) s b s' :
  (changed ← update_job what id guard set; _ ← require_cas changed action id'; k) s = (Ok b, s') ->
  exists s1, updates_job id guard set s s1 /\ k s1 = (Ok b, s').
Proof.
  intros (n & s1 & Hu & [-> Hk]%bind_cas_Ok)%db_bind_Ok. apply update_job_Ok in Hu as [[_ Hu]|[? _]]; [eauto|done].
Qed.
Lemma bind_swap_generation_Ok {B} what id guard set action id' (k : DB B) s b s' :
  (changed ← update_generation what id guard set; _ ← require_cas changed action id'; k) s = (Ok b, s') ->
  exists s1, updates_generation id guard set s s1 /\ k s1 = (Ok b, s').
Proof.
  intros (n & s1 & Hu & [-> Hk]%bind_cas_Ok)%db_bind_Ok. apply update_generation_Ok in Hu as [[_ Hu]|[? _]]; [eauto|done].
Qed.

(** * What any run leaves behind *)

(** An action that looks before it acts. *)
Lemma result_state {A B} (r : outcome A) (k : A -> DB B) s :
  snd ((result r ≫= k) s) = s \/ exists a, r = Ok a /\ snd ((result r ≫= k) s) = snd (k a s).
Proof. unfold mbind, db_bind, result. destruct r as [a|e|e]; eauto. Qed.
Lemma require_state {B} b e (k : unit -> DB B) s :
  snd ((require b e ≫= k) s) = s \/ b = true /\ snd ((require b e ≫= k) s) = snd (k () s).
Proof. unfold require. destruct b; [right|left]; done. Qed.
Lemma query_state {A B} (f : Store -> A) (k : A -> DB B) s : snd ((query f ≫= k) s) = snd (k (f s) s).
Proof. done. Qed.
Lemma transaction_state {A} (body : DB A) s :
  snd (transaction body s) = s \/ exists a s', body s = (Ok a, s') /\ snd (transaction body s) = s'.
Proof. unfold transaction. destruct (body s) as [[a|e|e] s']; eauto. Qed.
Lemma transaction_failed {A} (body : DB A) s : ~ is_Ok (fst (transaction body s)) -> snd (transaction body s) = s.
Proof. unfold transaction. destruct (body s) as [[a|e|e] s']; [|done..]. cbn. intros Hn. destruct Hn. by exists a. Qed.
Lemma update_state what id guard set s :
  snd (update_job what id guard set s) = s \/ updates_job id guard set s (snd (update_job what id guard set s)).
Proof.
  unfold update_job, updates_job. destruct (jobs s !! id) as [job|] eqn:E; [|by left].
  destruct (guard s job) eqn:Hg; [|by left]. destruct (job_violation s id (set job)) eqn:Hv; [by left|]. right. eauto 10.
Qed.
(** One compare-and-swap and the row read back. *)
Lemma cas_state {B} what id guard set (k : N -> DB B) s : (forall n s, snd (k n s) = s) ->
  let s' := snd ((update_job what id guard set ≫= k) s) in s' = s \/ updates_job id guard set s s'.
Proof.
  intros Hk. cbv zeta. pose proof (update_state what id guard set s) as Hu. unfold mbind, db_bind.
  destruct (update_job what id guard set s) as [[n|e|e] s1]; cbn [fst snd] in *; [rewrite Hk|..]; exact Hu.
Qed.
Lemma cas_then_load action id id' n (s : Store) : snd ((_ ← require_cas n action id; load_job id') s) = s.
Proof. unfold require_cas, require, mbind, db_bind, result. destruct (n =? 1); [apply load_job_pure|done]. Qed.
End Runs.
