(* ===== verification/JobProps.v ===== *)
(** The operations on the three tables refine [world_step]. *)
From S2P Require Import Prelude Ordering RustText Contracts Jobs JobPublication JobStages JobWorld JobRuns.
From stdpp Require Import gmap.
Local Open Scope N_scope.

Section Refinement.
Context {C : Type} `{Clock} `{Sqlite} `{JobJson} `{GenerationContent C}.
Abbreviation Store := (Store C).
Abbreviation DB := (@DB C).

Definition worker_of (job : Job) : Worker :=
  {| w_repository := job_repository_id job; w_generation := job_generation_id job; w_owner := owner_id job;
     w_state := state job; w_stage := stage job |}.
Definition status_of (generation : Generation) : string * GenerationStatus := (gen_repository_id generation, gen_status generation).
Definition view (s : Store) : World :=
  {| shown := ready_generation_id <$> repositories s; statuses := status_of <$> generations s; workers := worker_of <$> jobs s |}.

Lemma view_worker s id job : jobs s !! id = Some job -> workers (view s) !! id = Some (worker_of job).
Proof. intros Hj. cbn. by rewrite lookup_fmap, Hj. Qed.
Lemma view_status s id generation : generations s !! id = Some generation -> statuses (view s) !! id = Some (status_of generation).
Proof. intros Hg. cbn. by rewrite lookup_fmap, Hg. Qed.
Lemma view_shown s id repository : repositories s !! id = Some repository -> shown (view s) !! id = Some (ready_generation_id repository).
Proof. intros Hr. cbn. by rewrite lookup_fmap, Hr. Qed.
Lemma view_put_job id job (s : Store) : view (put_job id job s) = set_worker id (worker_of job) (view s).
Proof. unfold view, put_job, set_worker. cbn. by rewrite fmap_insert. Qed.
Lemma view_put_generation id generation (s : Store) : view (put_generation id generation s) =
  set_status id (gen_repository_id generation) (gen_status generation) (view s).
Proof. unfold view, put_generation, set_status. cbn. by rewrite fmap_insert. Qed.
Lemma view_put_repository id repository (s : Store) : view (put_repository id repository s) =
  show id (ready_generation_id repository) (view s).
Proof. unfold view, put_repository, show. cbn. by rewrite fmap_insert. Qed.
Lemma view_drop_generation id (s : Store) : view (drop_generation id s) =
  {| shown := shown (view s); statuses := delete id (statuses (view s)); workers := forget id <$> workers (view s) |}.
Proof.
  unfold view, drop_generation. cbn. rewrite fmap_delete, <- !map_fmap_compose. f_equal. apply map_fmap_ext. intros i job _. cbn.
  unfold forget_generation, forget, worker_of. cbn. by case_bool_decide.
Qed.
Lemma view_delete_job id (s : Store) :
  view {| repositories := repositories s; generations := generations s; jobs := delete id (jobs s); content := content s |} =
  {| shown := shown (view s); statuses := statuses (view s); workers := delete id (workers (view s)) |}.
Proof. unfold view. cbn. by rewrite fmap_delete. Qed.
(** A row written as it looked. *)
Lemma view_touched id job job' (s : Store) : jobs s !! id = Some job -> worker_of job' = worker_of job ->
  view (put_job id job' s) = view s.
Proof.
  intros Hj Hw. rewrite view_put_job, Hw. unfold set_worker. rewrite insert_id by (by apply view_worker). by destruct (view s).
Qed.
Lemma view_same_status id generation generation' (s : Store) : generations s !! id = Some generation ->
  status_of generation' = status_of generation -> view (put_generation id generation' s) = view s.
Proof.
  intros Hg Hs. rewrite view_put_generation. unfold set_status.
  assert ((gen_repository_id generation', gen_status generation') = status_of generation) as -> by done.
  rewrite insert_id by (by apply view_status). by destruct (view s).
Qed.
(** An operation does nothing, or is a step of the specification. *)
Definition refines {A} (m : DB A) : Prop := forall s, rtc world_step (view s) (view (snd (m s))).
Lemma refines_cas id guard set (s s' : Store) : s' = s \/ updates_job id guard set s s' ->
  (forall job, jobs s !! id = Some job -> guard s job = true -> rtc world_step (view s) (view (put_job id (set job) s))) ->
  rtc world_step (view s) (view s').
Proof. intros [->|(job & Hj & Hg & _ & ->)] Hstep; [done|by apply Hstep]. Qed.
Lemma steps_result {A B} (r : outcome A) (k : A -> DB B) s :
  (forall a, r = Ok a -> rtc world_step (view s) (view (snd (k a s)))) -> rtc world_step (view s) (view (snd ((result r ≫= k) s))).
Proof. intros Hk. destruct (result_state r k s) as [->|(a & Ha & ->)]; [done|by apply Hk]. Qed.
Lemma steps_require {B} b e (k : unit -> DB B) s :
  (b = true -> rtc world_step (view s) (view (snd (k () s)))) -> rtc world_step (view s) (view (snd ((require b e ≫= k) s))).
Proof. intros Hk. destruct (require_state b e k s) as [->|(Hb & ->)]; [done|by apply Hk]. Qed.
Lemma refines_result {A B} (r : outcome A) (k : A -> DB B) : (forall a, r = Ok a -> refines (k a)) -> refines (result r ≫= k).
Proof. intros Hk s. apply steps_result. intros a Ha. by apply Hk. Qed.
Lemma refines_require {B} b e (k : unit -> DB B) : (b = true -> refines (k ())) -> refines (require b e ≫= k).
Proof. intros Hk s. apply steps_require. intros Hb. by apply Hk. Qed.
Lemma refines_transaction {A} (m : DB A) :
  (forall s a s', m s = (Ok a, s') -> rtc world_step (view s) (view s')) -> refines (transaction m).
Proof. intros Hm s. destruct (transaction_state m s) as [->|(a & s' & Hr & ->)]; [done|by eapply Hm]. Qed.
Lemma refines_load id : refines (load_job id).
Proof. intros s. by rewrite load_job_pure. Qed.

Lemma owned_in_true owner states now job : owned_in owner states now job = true <->
  owner_id job = owner /\ state job ∈ states /\ not_before now (job_updated_at job) = true.
Proof. unfold owned_in. rewrite !andb_true_iff, seqb_true, elemb_true. tauto. Qed.
Lemma has_status_true status generation : has_status status generation = true <-> gen_status generation = status.
Proof. apply bool_decide_eq_true. Qed.
Ltac unguard := cbv beta in *; repeat match goal with
  | H : (_ && _) = true |- _ => apply andb_true_iff in H as [? ?]
  | H : bool_decide _ = true |- _ => apply bool_decide_eq_true in H
  | H : is_input_job _ _ = true |- _ => unfold is_input_job in H
  | H : running_at _ _ = true |- _ => unfold running_at in H
  | H : may_advance _ _ _ = true |- _ => unfold may_advance in H
  | H : has_lease _ _ _ = true |- _ => unfold has_lease in H
  | H : is_input_generation _ _ = true |- _ => unfold is_input_generation in H
  | H : has_status _ _ = true |- _ => apply has_status_true in H
  | H : seqb _ _ = true |- _ => apply seqb_true in H
  | H : owned_in _ _ _ _ = true |- _ => apply owned_in_true in H as (? & ? & ?)
  | H : _ ∈ [_] |- _ => apply list_elem_of_singleton in H
  end.
Ltac one_step := apply rtc_once; rewrite view_put_job.

Lemma heartbeat_refines id owner now : refines (heartbeat_job id owner now).
Proof.
  apply refines_result. intros _ _ s. eapply refines_cas; [apply cas_state; intros; apply cas_then_load|].
  intros job Hj _. by rewrite (view_touched id job).
Qed.
Lemma transition_refines id owner from to cancellation now : switches from to ->
  refines (transition_state id owner from to cancellation now).
Proof.
  intros Hsw. apply refines_result. intros _ _ s. eapply refines_cas; [apply cas_state; intros; apply cas_then_load|].
  intros job Hj Hg. unguard. one_step. apply (step_switch _ id (worker_of job)); [by apply view_worker|]. cbn. by simplify_eq.
Qed.
Lemma request_cancel_refines id owner now : refines (request_cancel id owner now).
Proof.
  apply refines_result. intros _ _ s. eapply refines_cas; [apply cas_state; intros; apply cas_then_load|].
  intros job Hj Hg. unguard. one_step. apply (step_switch _ id (worker_of job)); [by apply view_worker|]. cbn.
  constructor. set_solver.
Qed.
Lemma progression_goes_on a b : validate_stage_progression a b = Ok () -> goes_on a b.
Proof. destruct a, b; cbn; try done; constructor; done. Qed.
Lemma checkpoint_refines id owner expected next identity checkpoint completed total now :
  refines (checkpoint_job id owner expected next identity checkpoint completed total now).
Proof.
  do 4 (apply refines_result; intros ? ?). apply refines_result. intros json _. apply refines_require. intros _.
  apply refines_result. intros done_ _. apply refines_result. intros bound _. apply refines_require. intros _ s.
  eapply refines_cas; [apply cas_state; intros; apply cas_then_load|].
  intros job Hj Hg. unfold may_checkpoint in Hg. unguard. one_step.
  apply (step_on _ id (worker_of job)); [by apply view_worker|done|]. cbn. subst expected. by apply progression_goes_on; destruct a0.
Qed.

(** ** Endings *)

Lemma update_staging_generation_Ok id status (s : Store) a s' : update_staging_generation id status s = (Ok a, s') ->
  exists g generation, jobs s !! id ≫= job_generation_id = Some g /\ generations s !! g = Some generation /\
  (gen_status generation = GenStaging /\ s' = put_generation g (with_status status generation) s \/
   gen_status generation = GenReady /\ s' = s).
Proof.
  unfold update_staging_generation. intros Hrun%bind_query_Ok. apply db_bind_Ok in Hrun as (n & s1 & Hupd & Hrest).
  assert (n = 0 -> s1 = s -> exists g generation, jobs s !! id ≫= job_generation_id = Some g /\
    generations s !! g = Some generation /\ gen_status generation = GenReady /\ s' = s) as Hstop.
  { intros -> ->. cbn in Hrest. apply bind_query_Ok in Hrest.
    destruct (published_ready s id) eqn:Hp; cbn [andb] in Hrest; [|by apply require_cas_Ok in Hrest as [? _]].
    unfold published_ready, generation_of in Hp. destruct (jobs s !! id) as [job|] eqn:Hj; [|done].
    destruct (job_generation_id job) as [g|] eqn:Hg; [|done]. cbn in Hp. destruct (generations s !! g) as [generation|] eqn:Hgen; [|done].
    cbn [is_some_and] in Hp. unguard. exists g, generation. cbn. rewrite Hg. split_and!; try done.
    destruct (elemb _ _); [by apply result_Ok in Hrest as [_ ->]|by apply require_cas_Ok in Hrest as [? _]]. }
  destruct (jobs s !! id ≫= job_generation_id) as [g|] eqn:Hg.
  - apply update_generation_Ok in Hupd as [[-> (generation & Hgen & Hst & _ & ->)]|[-> ->]].
    + cbn in Hrest. apply result_Ok in Hrest as [_ ->]. exists g, generation. unguard. split_and!; [done|done|]. by left.
    + destruct (Hstop eq_refl eq_refl) as (g' & generation & ? & ? & ? & ?). eauto 10.
  - apply result_Ok in Hupd as [[= <-] ->]. destruct (Hstop eq_refl eq_refl) as (g' & generation & ? & ? & ? & ?). eauto 10.
Qed.
(** A worker gives up, and its generation with it unless that is shown. *)
Lemma give_up_refines id job st status job' (s : Store) a s' : jobs s !! id = Some job -> gives_up (state job) st status ->
  worker_of job' = at_stage StageIdle (in_state st (worker_of job)) -> job_generation_id job' = job_generation_id job ->
  update_staging_generation id status (put_job id job' s) = (Ok a, s') -> rtc world_step (view s) (view s').
Proof.
  intros Hj Hup Hw Hgid (g & generation & Hg & Hgen & Hend)%update_staging_generation_Ok. apply rtc_once.
  cbn [put_job jobs generations] in Hg, Hgen. rewrite lookup_insert_eq in Hg. cbn in Hg. rewrite Hgid in Hg.
  pose proof (view_worker s id job Hj) as Hk. pose proof (view_status s g generation Hgen) as Hs.
  destruct Hend as [[Hst ->]|[Hst ->]].
  - rewrite view_put_generation, view_put_job, Hw.
    apply (step_give_up (view s) id (worker_of job) g (gen_repository_id generation) st status); [done..|].
    rewrite Hs. unfold status_of. by rewrite Hst.
  - rewrite view_put_job, Hw. apply (step_stop (view s) id (worker_of job) g (gen_repository_id generation) st status); [done..|].
    rewrite Hs. unfold status_of. by rewrite Hst.
Qed.
Lemma acknowledge_cancel_refines id owner now : refines (acknowledge_cancel id owner now).
Proof.
  apply refines_result. intros _ _. apply refines_transaction. intros s status s' Hrun.
  apply bind_swap_Ok in Hrun as (s1 & (job & Hj & Hg & _ & ->) & Hrun). unguard.
  apply db_bind_Ok in Hrun as (u & s2 & Hend & ->%load_job_Ok).
  refine (give_up_refines id job _ _ _ s u s2 Hj _ _ _ Hend); [|done|done].
  assert (state job = StateCancelling) as -> by done. constructor.
Qed.
Lemma fail_refines id owner code now : refines (fail_job id owner code now).
Proof.
  apply refines_result. intros _ _. apply refines_transaction. intros s status s' Hrun.
  apply bind_query_Ok, bind_result_Ok in Hrun as (current & _ & Hrun). apply bind_result_Ok in Hrun as (json & _ & Hrun).
  apply bind_swap_Ok in Hrun as (s1 & (job & Hj & Hg & _ & ->) & Hrun). unguard.
  apply db_bind_Ok in Hrun as (u & s2 & Hend & ->%load_job_Ok).
  refine (give_up_refines id job _ _ _ s u s2 Hj _ _ _ Hend); [|done|done]. by constructor.
Qed.
Lemma generation_of_true (s : Store) job p : generation_of s job p = true <->
  exists g generation, job_generation_id job = Some g /\ generations s !! g = Some generation /\ p generation = true.
Proof.
  unfold generation_of. destruct (job_generation_id job) as [g|]; cbn; [|naive_solver].
  destruct (generations s !! g) as [generation|] eqn:E; cbn; [|naive_solver]. split; [eauto|].
  intros (g' & generation' & [= <-] & Hg & Hp). congruence.
Qed.
Lemma complete_refines id owner now : refines (complete_job id owner now).
Proof.
  apply refines_result. intros _ _. apply refines_transaction. intros s status s' Hrun.
  apply bind_swap_Ok in Hrun as (s1 & (job & Hj & Hg & _ & ->) & ->%load_job_Ok). unguard.
  match goal with H : generation_of _ _ _ = true |- _ => apply generation_of_true in H as (g & generation & Hgid & Hgen & Hp) end.
  unguard. one_step. pose proof (view_status s g generation Hgen) as Hst.
  apply (step_complete (view s) id (worker_of job) g (gen_repository_id generation)); [by apply view_worker|done..|].
  rewrite Hst. unfold status_of. congruence.
Qed.
Lemma other_active_false (s : Store) id r : other_active s id r = false <->
  forall id' job, jobs s !! id' = Some job -> job_repository_id job = r -> is_active (state job) = true -> id' = id.
Proof.
  unfold other_active. rewrite any_false. split.
  - intros Hany id' job Hj Hr Ha. specialize (Hany (id', job)). cbn in Hany.
    rewrite Ha, andb_true_r, (proj2 (seqb_true _ _) Hr), andb_true_r, negb_false_iff, seqb_true in Hany.
    apply Hany. by apply elem_of_map_to_list.
  - intros Hall [id' job] Hin%elem_of_map_to_list. cbn. destruct (is_active (state job)) eqn:Ha; [|by rewrite andb_false_r].
    destruct (seqb (job_repository_id job) r) eqn:Hr; [|by rewrite andb_false_r]. apply seqb_true in Hr.
    rewrite !andb_true_r, negb_false_iff, seqb_true. by apply (Hall id' job).
Qed.
Lemma start_refines input : refines (start_job input).
Proof.
  apply refines_result. intros _ _. apply refines_result. intros total _. apply refines_transaction. intros s status s' Hrun.
  apply db_bind_Ok in Hrun as (u & s1 & (Hg & Hr & _ & ->)%insert_generation_Ok & (u' & s2 & Hins & ->%load_job_Ok)%db_bind_Ok).
  apply insert_job_Ok in Hins as (Hj & Hv & ->). cbn in Hj, Hr. apply rtc_once. rewrite view_put_job, view_put_generation.
  apply (step_start (view s) (new_repository_id input) (new_generation_id input) (new_job_id input) (new_owner_id input)).
  - destruct Hr as [repository Hr]. rewrite (view_shown _ _ _ Hr). eauto.
  - cbn. by rewrite lookup_fmap, Hg.
  - cbn. by rewrite lookup_fmap, Hj.
  - intros id k Hk Hrep Hact. cbn in Hk. rewrite lookup_fmap in Hk. apply fmap_Some in Hk as (job & Hjob & ->).
    unfold job_violation in Hv. destruct (negb _); [done|]. cbn in Hv.
    destruct (other_active _ _ _) eqn:Ho; [done|]. rewrite other_active_false in Ho. cbn in Ho.
    specialize (Ho id job Hjob Hrep Hact). subst id. by rewrite Hj in Hjob.
Qed.
Lemma active_job_Some (s : Store) r id job : active_job s r = Some (id, job) ->
  jobs s !! id = Some job /\ job_repository_id job = r /\ is_active (state job) = true.
Proof.
  unfold active_job. intros Hh%head_Some_elem_of. apply elem_of_filter_bool in Hh as [Hin%elem_of_map_to_list Hp].
  cbn in Hp. unguard. done.
Qed.
Lemma recover_refines r owner stale now : refines (recover_stale_job r owner stale now).
Proof.
  apply refines_result. intros _ _. apply refines_result. intros _ _. apply refines_result. intros before _.
  apply refines_result. intros time _. apply refines_require. intros _ s. rewrite query_state.
  destruct (active_job s r) as [[id row]|] eqn:Ha; [|done]. apply active_job_Some in Ha as (Hrow & _ & Hact).
  destruct (seqb (owner_id row) owner); [by rewrite load_job_pure|].
  apply steps_result. intros heartbeat _. apply steps_require. intros _.
  eapply refines_cas; [apply cas_state; intros; apply cas_then_load|].
  intros job Hj Hg. unguard. one_step. simplify_eq.
  apply (step_recover (view s) id (worker_of row)); [by apply view_worker|done].
Qed.

(** ** Stages *)

Lemma stage_refines id guard set (s s' : Store) from to :
  s' = s \/ updates_job id guard set s s' -> (forall job, guard s job = true -> state job = StateRunning /\ stage job = from) ->
  (forall job, worker_of (set job) = at_stage to (worker_of job)) -> goes_on from to -> rtc world_step (view s) (view s').
Proof.
  intros Hu Hg Hset Hgo. eapply refines_cas; [exact Hu|]. intros job Hj Hgj. destruct (Hg job Hgj) as [Hrun Hst]. one_step.
  rewrite Hset. apply (step_on (view s) id (worker_of job)); [by apply view_worker|done|]. cbn. by rewrite Hst.
Qed.
Lemma require_pure b e (s : Store) : snd (require b e s) = s.
Proof. by destruct b. Qed.
Lemma checkpoint_refresh_plan_refines input synthesis_only identity json :
  refines (checkpoint_refresh_plan input synthesis_only identity json).
Proof.
  intros s. eapply (stage_refines _ _ _ _ _ StageInventory (if synthesis_only then StageLink else StageParse));
    [apply cas_state; intros; apply require_pure| |done|destruct synthesis_only; constructor].
  intros job Hg. unguard. done.
Qed.
Lemma complete_incremental_parse_refines input : refines (complete_incremental_parse input).
Proof.
  intros s. eapply (stage_refines _ _ _ _ _ StageParse StageLink); [apply cas_state; intros; apply require_pure| |done|constructor].
  intros job Hg. unguard. done.
Qed.
Lemma end_stage_refines what action timed from to input receipt json completed total : goes_on from to ->
  refines (end_stage what action timed from to input receipt json completed total).
Proof.
  intros Hgo s. eapply (stage_refines _ _ _ _ _ from to); [apply cas_state; intros; apply require_pure| |done|done].
  intros job Hg. unguard. done.
Qed.
Lemma validate_refines sha256 input : refines (validate_generation_for_publication sha256 input).
Proof.
  apply refines_result. intros _ _. apply refines_transaction. intros s status s' Hrun.
  apply bind_query_Ok, bind_result_Ok in Hrun as (row & _ & Hrun). apply bind_result_Ok in Hrun as (prior & _ & Hrun).
  apply bind_query_Ok, bind_result_Ok in Hrun as (receipt & _ & Hrun). apply bind_result_Ok in Hrun as (json & _ & Hrun).
  apply bind_swap_Ok in Hrun as (s1 & Hu & Hrun). apply bind_result_Ok in Hrun as (counts & _ & Hrun).
  apply bind_swap_generation_Ok in Hrun as (s2 & (generation & Hgen & _ & _ & ->) & ->%load_job_Ok).
  rewrite (view_same_status _ generation) by done.
  eapply (stage_refines _ _ _ _ _ StageValidate StagePublish); [right; exact Hu| |done|constructor]. intros job Hg. unguard. done.
Qed.
Lemma register_refines r path source revision now : refines (register_repository r path source revision now).
Proof.
  intros s. unfold register_repository. destruct (path_taken s r path); [done|]. cbn [snd]. rewrite view_put_repository. cbn.
  destruct (repositories s !! r) as [repository|] eqn:E; cbn.
  - unfold show. rewrite insert_id by (by apply view_shown). by destruct (view s).
  - apply rtc_once, step_register. cbn. by rewrite lookup_fmap, E.
Qed.
Lemma coverage_refines g r json : refines (persist_inventory_coverage g r json).
Proof.
  intros s. unfold persist_inventory_coverage, mbind, db_bind, update_generation.
  destruct (generations s !! g) as [generation|] eqn:E; [|done]. destruct (_ && _); [|done].
  destruct (generation_violation _ _ _); [done|]. cbn. by rewrite (view_same_status _ generation).
Qed.
Lemma clone_coverage_refines g ready : refines (clone_noop_coverage g ready).
Proof.
  intros s. unfold clone_noop_coverage, mbind, db_bind, query, update_generation, require, result.
  destruct (gen_coverage_json <$> generations s !! ready) as [json|]; [|by destruct (negb _)].
  destruct (generations s !! g) as [generation|] eqn:E; [|done].
  destruct (generation_violation _ _ _); [done|]. cbn. by rewrite (view_same_status _ generation).
Qed.
Lemma set_content_refines c : refines (set_content c).
Proof. by intros s. Qed.
Lemma remove_refines input : refines (remove_noop_refresh input).
Proof.
  apply refines_transaction. intros s a s' Hrun. apply db_bind_Ok in Hrun as (n & s1 & Hd & Hrun).
  apply bind_require_Ok in Hrun as [Hn%N.eqb_eq Hrun]. apply db_bind_Ok in Hrun as (n' & s2 & Hd' & [Hn'%N.eqb_eq ->]%require_Ok).
  apply delete_job_Ok in Hd as [[_ (job & Hj & Hg & ->)]|[? _]]; [|by subst n].
  apply delete_generation_Ok in Hd' as [[_ (generation & Hgen & Hg' & ->)]|[? _]]; [|by subst n']. cbn in Hgen. unguard.
  apply rtc_once. rewrite view_drop_generation, view_delete_job. cbn [shown statuses workers].
  apply (step_remove (view s) (pub_job_id input) (worker_of job) (pub_generation_id input) (gen_repository_id generation));
    [by apply view_worker|done..|]. rewrite (view_status s _ _ Hgen). unfold status_of. congruence.
Qed.

(** ** Publication *)

Lemma project_generation_Ok input prior path (s : Store) a s' : project_generation input prior path s = (Ok a, s') ->
  repositories s' = repositories s /\ generations s' = generations s /\ jobs s' = jobs s.
Proof.
  intros Hrun. unfold project_generation in Hrun. apply bind_query_Ok, bind_result_Ok in Hrun as (c & _ & Hrun).
  apply db_bind_Ok in Hrun as (u & s1 & (E1 & E2 & E3 & _)%set_content_Ok & Hrun).
  apply bind_query_Ok, bind_result_Ok in Hrun as (p & _ & Hrun). apply bind_query_Ok, bind_result_Ok in Hrun as (rev & _ & Hrun).
  apply bind_query_Ok, bind_result_Ok in Hrun as (h & _ & Hrun). apply bind_query_Ok, bind_result_Ok in Hrun as (c' & _ & Hrun).
  apply set_content_Ok in Hrun as (F1 & F2 & F3 & _). by rewrite F1, F2, F3.
Qed.
Lemma validate_ready_pointer_Ok (s : Store) r prior : validate_ready_pointer s r prior = Ok () ->
  match prior with
  | None => forall g generation, generations s !! g = Some generation -> gen_repository_id generation = r ->
      gen_status generation <> GenReady
  | Some g => exists generation, generations s !! g = Some generation /\ gen_repository_id generation = r /\
      gen_status generation = GenReady
  end.
Proof.
  unfold validate_ready_pointer. destruct (_ && _) eqn:E; [|done]. intros _. apply andb_true_iff in E as [E1%N.eqb_eq E2%N.eqb_eq].
  assert (forall g, g ∈ ready_ids s r <-> exists generation, generations s !! g = Some generation /\
    gen_repository_id generation = r /\ gen_status generation = GenReady) as Hin.
  { intros g. unfold ready_ids. rewrite list_elem_of_fmap. split.
    - intros ([g' generation] & -> & [Hi%elem_of_map_to_list Hp]%elem_of_filter_bool). cbn in Hp. unguard. eauto.
    - intros (generation & Hg & Hr & Hs). exists (g, generation). split; [done|]. apply elem_of_filter_bool.
      split; [by apply elem_of_map_to_list|]. cbn. by rewrite (proj2 (seqb_true _ _) Hr), (proj2 (has_status_true _ _) Hs). }
  destruct prior as [g|]; cbn [is_some] in *.
  - apply Hin. destruct (List.filter _ (ready_ids s r)) as [|g' l] eqn:Ef; [done|].
    assert (g' ∈ g' :: l) as Hg' by left. rewrite <- Ef in Hg'. apply elem_of_filter_bool in Hg' as [Hg' Hp%bool_decide_eq_true].
    by injection Hp as ->.
  - intros g generation Hg Hr Hs. destruct (ready_ids s r) as [|g' l] eqn:Er; [|done]. assert (g ∈ []) as Hbad by (apply Hin; eauto).
    by apply elem_of_nil in Hbad.
Qed.
(** The rows of a publication, in the order they are written. *)
Record publishes (input : ArchaeologyPublication) (prior : option string) (s s' : Store) : Prop := {
  pb_rows : exists job generation repository,
    jobs s !! pub_job_id input = Some job /\ may_advance input StagePublish job = true /\
    generations s !! pub_generation_id input = Some generation /\ is_input_generation input generation = true /\
    gen_status generation = GenStaging /\ repositories s !! pub_repository_id input = Some repository /\
    ready_generation_id repository = prior /\ prior <> Some (pub_generation_id input) /\
    (forall g, prior = Some g -> exists old, generations s !! g = Some old /\ gen_repository_id old = pub_repository_id input /\
      gen_status old = GenReady) /\
    jobs s' = <[pub_job_id input := updated (pub_now input) (with_stage StageCleanup job)]> (jobs s) /\
    generations s' = <[pub_generation_id input := with_published_at (pub_now input) (with_status GenReady generation)]>
      (match prior with
       | None => generations s
       | Some g => alter (with_status GenSuperseded) g (generations s)
       end) /\
    repositories s' = <[pub_repository_id input := with_ready (pub_generation_id input) (pub_now input) repository]> (repositories s) /\
    content s' = content s
}.
Lemma supersede_prior_Ok input prior (s : Store) a s' : supersede_prior input prior s = (Ok a, s') ->
  repositories s' = repositories s /\ jobs s' = jobs s /\ content s' = content s /\
  generations s' = match prior with None => generations s | Some g => alter (with_status GenSuperseded) g (generations s) end /\
  forall g, prior = Some g -> exists old, generations s !! g = Some old /\ gen_repository_id old = pub_repository_id input /\
    gen_status old = GenReady.
Proof.
  unfold supersede_prior. destruct prior as [g|]; [|by intros [_ ->]%result_Ok].
  intros (n & s1 & Hu & [Hn ->]%require_cas_Ok)%db_bind_Ok.
  apply update_generation_Ok in Hu as [[_ (old & Hold & Hg & _ & ->)]|[? _]]; [|by subst n]. unguard.
  cbn. split_and!; [done|done|done| |intros g' [= <-]; eauto].
  apply map_eq. intros i. destruct (decide (i = g)) as [->|Hne].
  - by rewrite lookup_insert_eq, lookup_alter_eq, Hold.
  - by rewrite lookup_insert_ne, lookup_alter_ne.
Qed.
Lemma publish_rows_Ok input prior (s : Store) a s' : publish_rows input prior s = (Ok a, s') -> publishes input prior s s'.
Proof.
  intros Hrun. unfold publish_rows in Hrun. apply bind_swap_Ok in Hrun as (s1 & (job & Hj & Hg & _ & ->) & Hrun).
  apply db_bind_Ok in Hrun as (u & s2 & Hsup & Hrun).
  apply supersede_prior_Ok in Hsup as (R2 & J2 & C2 & G2 & Hprior). cbn [put_job repositories jobs content generations] in *.
  apply bind_swap_generation_Ok in Hrun as (s3 & (generation & Hgen & Hgg & _ & ->) & Hrun).
  apply db_bind_Ok in Hrun as (n & s4 & Hu & [Hn ->]%require_cas_Ok).
  apply update_repository_Ok in Hu as [[_ (repository & Hrep & Hgr & ->)]|[? _]]; [|by subst n].
  cbn [put_generation repositories] in Hrep. rewrite R2 in Hrep.
  rewrite !andb_true_iff in Hgg. rewrite !andb_true_iff in Hgr. destruct Hgg as [[Hinput Hstaging%has_status_true] _].
  destruct Hgr as [[[Hready%bool_decide_eq_true _] _] _].
  assert (prior <> Some (pub_generation_id input)) as Hne.
  { intros ->. rewrite G2, lookup_alter_eq in Hgen. apply fmap_Some in Hgen as (old & _ & ->). done. }
  assert (generations s !! pub_generation_id input = Some generation) as Hgen'.
  { rewrite G2 in Hgen. destruct prior as [g|]; [|done]. rewrite lookup_alter_ne in Hgen; [done|congruence]. }
  split. exists job, generation, repository. cbn. rewrite R2, J2, G2, C2. by split_and!.
Qed.
Lemma status_superseded g r old (m : gmap string Generation) : m !! g = Some old -> gen_repository_id old = r ->
  status_of <$> alter (with_status GenSuperseded) g m = <[g := (r, GenSuperseded)]> (status_of <$> m).
Proof.
  intros Hg Hr. apply map_eq. intros i. rewrite lookup_fmap. destruct (decide (i = g)) as [->|Hne].
  - rewrite lookup_alter_eq, lookup_insert_eq, Hg. cbn. by rewrite <- Hr.
  - by rewrite lookup_alter_ne, lookup_insert_ne, lookup_fmap by done.
Qed.
Lemma publishes_step input prior (s s' : Store) :
  match prior with
  | None => forall g generation, generations s !! g = Some generation -> gen_repository_id generation = pub_repository_id input ->
      gen_status generation <> GenReady
  | Some g => True
  end -> publishes input prior s s' -> world_step (view s) (view s').
Proof.
  intros Hnone [(job & generation & repository & Hj & Hadv & Hgen & Hinput & Hst & Hrep & Hready & Hne & Hprior & J & G & R & _)].
  unfold may_advance, is_input_generation in *. unguard.
  assert (workers (view s) !! pub_job_id input = Some (worker_of job)) as Hk by (by apply view_worker).
  assert (statuses (view s) !! pub_generation_id input = Some (pub_repository_id input, GenStaging)) as Hs.
  { rewrite (view_status s _ _ Hgen). unfold status_of. congruence. }
  pose proof (view_shown s _ _ Hrep) as Hsh. rewrite Hready in Hsh.
  assert (view s' = show (pub_repository_id input) (Some (pub_generation_id input))
    (set_status (pub_generation_id input) (pub_repository_id input) GenReady
      (match prior with None => fun w => w | Some g => set_status g (pub_repository_id input) GenSuperseded end
        (set_worker (pub_job_id input) (at_stage StageCleanup (worker_of job)) (view s))))) as ->.
  { unfold view. rewrite J, G, R, !fmap_insert. unfold show, set_status, set_worker.
    assert (status_of (with_published_at (pub_now input) (with_status GenReady generation)) = (pub_repository_id input, GenReady)) as ->
      by (unfold status_of; cbn; congruence).
    destruct prior as [g|]; cbn; [|done]. destruct (Hprior g eq_refl) as (old & Hold & Hr & _).
    by rewrite (status_superseded g (pub_repository_id input) old). }
  destruct prior as [g|].
  - destruct (Hprior g eq_refl) as (old & Hold & Hr & Hrs).
    apply (step_replace (view s) (pub_job_id input) (worker_of job)); try done.
    rewrite (view_status s _ _ Hold). unfold status_of. congruence.
  - by apply (step_publish (view s) (pub_job_id input) (worker_of job)).
Qed.
Lemma publish_refines sha256 input : refines (publish_generation sha256 input).
Proof.
  apply refines_result. intros _ _. apply refines_transaction. intros s status s' Hrun.
  apply bind_query_Ok, bind_result_Ok in Hrun as (u & _ & Hrun). apply bind_query_Ok in Hrun.
  destruct (publication_is_already_committed s input); [by apply load_job_Ok in Hrun as ->|].
  apply bind_query_Ok, bind_result_Ok in Hrun as (repository & Hrep & Hrun).
  apply bind_query_Ok, bind_result_Ok in Hrun as ([] & Hagree%validate_ready_pointer_Ok & Hrun).
  apply db_bind_Ok in Hrun as (u1 & s1 & (R1 & G1 & J1)%project_generation_Ok & Hrun).
  apply db_bind_Ok in Hrun as (u2 & s2 & Hrows%publish_rows_Ok & ->%load_job_Ok).
  assert (view s = view s1) as -> by (unfold view; by rewrite R1, G1, J1).
  apply rtc_once. eapply publishes_step; [|exact Hrows]. destruct (ready_generation_id repository); [done|]. by rewrite G1.
Qed.

(** ** Cleanup *)

Lemma authorize_cleanup_Ok input (s : Store) r owns s' : authorize_cleanup input s = (Ok (r, owns), s') ->
  exists job, jobs s !! clean_job_id input = Some job /\ owner_id job = clean_owner_id input /\ may_clean job = true /\
    not_before (clean_now input) (job_updated_at job) = true /\ job_repository_id job = r /\ owns = leads_to_ready s job /\
    s' = if bool_decide (clean_mode input = Apply) then put_job (clean_job_id input) (updated (clean_now input) job) s else s.
Proof.
  intros Hrun. unfold authorize_cleanup in Hrun. apply bind_query_Ok, bind_result_Ok in Hrun as ([r0 owns0] & Hrow & Hrun).
  destruct (jobs s !! clean_job_id input) as [job|] eqn:Hj; [|done]. cbn [mbind option_bind] in Hrow.
  destruct (repositories s !! job_repository_id job) as [repository|]; [|done]. cbn [mbind option_bind] in Hrow.
  destruct (_ && _) eqn:E; [|done]. injection Hrow as <- <-. rewrite !andb_true_iff, seqb_true in E. destruct E as [[Ho Hc] Hn].
  destruct (bool_decide (clean_mode input = Apply)).
  - apply bind_swap_Ok in Hrun as (s1 & (job' & Hj' & _ & _ & ->) & [[= <- <-] ->]%result_Ok). cbn in Hj'.
    rewrite Hj in Hj'. injection Hj' as <-. eauto 10.
  - apply result_Ok in Hrun as [[= <- <-] ->]. eauto 10.
Qed.
Lemma any_job_false (s : Store) p : any_job s p = false <-> forall id job, jobs s !! id = Some job -> p job = false.
Proof.
  unfold any_job. rewrite any_false. split.
  - intros Hall id job Hj. apply (Hall (id, job)). by apply elem_of_map_to_list.
  - intros Hall [id job] Hin%elem_of_map_to_list. by apply (Hall id).
Qed.
Lemma any_job_true (s : Store) p : any_job s p = true <-> exists id job, jobs s !! id = Some job /\ p job = true.
Proof.
  unfold any_job. rewrite any_true. split.
  - intros ([id job] & Hin%elem_of_map_to_list & Hp). eauto.
  - intros (id & job & Hj & Hp). exists (id, job). split; [by apply elem_of_map_to_list|done].
Qed.
(** What is deleted was neither shown nor worked on. *)
Lemma delete_candidate_Ok input r candidate (s : Store) a s' : delete_candidate input r candidate s = (Ok a, s') ->
  exists generation, generations s !! clean_generation_id candidate = Some generation /\
    may_delete input r candidate s generation = true /\ s' = drop_generation (clean_generation_id candidate) s.
Proof.
  intros (n & s1 & Hd & [-> ->]%require_cas_Ok)%db_bind_Ok. apply delete_generation_Ok in Hd as [[_ Hd]|[? _]]; [done|done].
Qed.
Lemma delete_candidate_step input r candidate (s : Store) a s' : clean_status candidate <> GenReady ->
  delete_candidate input r candidate s = (Ok a, s') -> world_step (view s) (view s').
Proof.
  intros Hst (generation & Hgen & Hmay & ->)%delete_candidate_Ok. rewrite view_drop_generation.
  unfold may_delete in Hmay. rewrite !andb_true_iff in Hmay. destruct Hmay as [[[[Hr Hs%bool_decide_eq_true] _] Huse%negb_true_iff] _].
  apply (step_discard (view s) _ (gen_repository_id generation) (gen_status generation)); [|congruence|].
  - by rewrite (view_status s _ _ Hgen).
  - intros id k Hk Hg Hact. cbn in Hk. rewrite lookup_fmap in Hk. apply fmap_Some in Hk as (job & Hj & ->). cbn in Hg, Hact.
    unfold in_use in Huse. rewrite any_job_false in Huse. specialize (Huse id job Hj). unfold works_on in Huse.
    rewrite Hg, bool_decide_true in Huse by done. unfold active in Hact. cbn in *. by rewrite Hact in Huse.
Qed.
Lemma delete_candidates_steps input r l (s : Store) a s' : Forall (fun candidate => clean_status candidate <> GenReady) l ->
  delete_candidates input r l s = (Ok a, s') -> rtc world_step (view s) (view s').
Proof.
  intros Hl. revert s a. induction Hl as [|candidate l Hst _ IH]; intros s a; cbn [delete_candidates]; [by intros [_ ->]%result_Ok|].
  intros (u & s1 & Hd & Hrest)%db_bind_Ok. eapply rtc_l; [by eapply delete_candidate_step|by eapply IH].
Qed.
Lemma candidate_of_fields (c : C) e : clean_generation_id (candidate_of c e) = fst e /\ clean_status (candidate_of c e) = gen_status (snd e).
Proof. unfold candidate_of. by destruct (cleanup_counts c (fst e)) as [[[? ?] ?] ?]. Qed.
(** What a cleanup plans. *)
Lemma cleanup_candidates_in (s : Store) r owner retain owns candidate :
  candidate ∈ fst (cleanup_candidates s r owner retain owns) ->
  exists g generation, generations s !! g = Some generation /\ unused s r (g, generation) = true /\
    to_delete s owner retain owns (List.filter (unused s r) (map_to_list (generations s))) (g, generation) = true /\
    candidate = candidate_of (content s) (g, generation).
Proof.
  unfold cleanup_candidates. cbn [fst]. intros ([g generation] & -> & Hin)%list_elem_of_fmap.
  assert ((g, generation) ∈ sort_by_key age (List.filter (to_delete s owner retain owns
    (List.filter (unused s r) (map_to_list (generations s)))) (List.filter (unused s r) (map_to_list (generations s))))) as Hs.
  { apply elem_of_take in Hin as (i & Hi & _). apply list_elem_of_lookup_2 in Hi. by apply elem_of_take in Hi as (j & ?%list_elem_of_lookup_2 & _). }
  rewrite elem_of_sort_by_key in Hs. apply elem_of_filter_bool in Hs as [[Hin'%elem_of_map_to_list Hu]%elem_of_filter_bool Ht].
  exists g, generation. done.
Qed.
Lemma cleanup_refines input : refines (cleanup_generations input).
Proof.
  apply refines_result. intros _ _. apply refines_require. intros _. apply refines_transaction. intros s report s' Hrun.
  apply db_bind_Ok in Hrun as ([r owns] & s1 & (job & Hj & _ & _ & _ & _ & _ & Hs1)%authorize_cleanup_Ok & Hrun).
  assert (view s1 = view s) as Hview.
  { rewrite Hs1. destruct (bool_decide _); [|done]. by apply (view_touched _ job). }
  apply bind_query_Ok in Hrun. apply db_bind_Ok in Hrun as (u & s2 & Hdel & [_ ->]%result_Ok). rewrite <- Hview.
  destruct (bool_decide (clean_mode input = Apply)); [|by apply result_Ok in Hdel as [_ ->]].
  eapply delete_candidates_steps; [|exact Hdel]. apply Forall_forall.
  intros candidate (g & generation & _ & Hu & _ & ->)%cleanup_candidates_in. rewrite (proj2 (candidate_of_fields _ _)).
  unfold unused in Hu. cbn [fst snd] in *. rewrite !andb_true_iff in Hu. destruct Hu as [[[_ Hn%negb_true_iff] _] _].
  intros Hs. by rewrite (proj2 (has_status_true _ _) Hs) in Hn.
Qed.
End Refinement.
