(* ===== verification/JobFacts.v ===== *)
(** Facts about single operations on the three tables: what they never touch,
    whom they serve, and that the rows stay well formed. *)
From S2P Require Import Prelude Ordering RustText Contracts Jobs JobPublication JobStages JobRuns JobProps.
From stdpp Require Import gmap.
Local Open Scope N_scope.
Create HintDb within.

Section Facts.
Context {C : Type} `{Clock} `{Sqlite} `{JobJson} `{GenerationContent C}.
Abbreviation Store := (Store C).
Abbreviation DB := (@DB C).

(** * Actions within a relation *)

Section Within.
Context (P : Store -> Store -> Prop) `{!PreOrder P}.
(** Whatever the outcome, the database left is related to the one found. *)
Definition within {A} (m : DB A) : Prop := forall s, P s (snd (m s)).
Lemma within_result {A} (r : outcome A) : within (result r).
Proof. by intros s. Qed.
Lemma within_query {A} (f : Store -> A) : within (query f).
Proof. by intros s. Qed.
Lemma within_require b e : within (require b e).
Proof. intros s. by rewrite require_pure. Qed.
Lemma within_require_cas n action id : within (require_cas n action id).
Proof. apply within_require. Qed.
Lemma within_load id : within (load_job id).
Proof. intros s. by rewrite load_job_pure. Qed.
Lemma within_bind {A B} (m : DB A) (k : A -> DB B) : within m -> (forall a, within (k a)) -> within (m ≫= k).
Proof.
  intros Hm Hk s. unfold mbind, db_bind. specialize (Hm s). destruct (m s) as [[a|e|e] s1]; cbn in *; [|done..].
  transitivity s1; [done|apply Hk].
Qed.
Lemma within_transaction {A} (m : DB A) : within m -> within (transaction m).
Proof. intros Hm s. specialize (Hm s). unfold transaction. by destruct (m s) as [[a|e|e] s1]. Qed.
End Within.

(** * Repositories *)

Definition same_repositories (s s' : Store) : Prop := repositories s' = repositories s.
#[export] Instance same_repositories_preorder : PreOrder same_repositories.
Proof. split; [done|]. intros s1 s2 s3 H12 H23. unfold same_repositories in *. congruence. Qed.
Lemma update_job_repositories what id guard set : within same_repositories (update_job what id guard set).
Proof. intros s. by destruct (update_state what id guard set s) as [->|(job & _ & _ & _ & ->)]. Qed.
Lemma update_generation_repositories what id guard set : within same_repositories (update_generation what id guard set).
Proof. intros s. unfold update_generation. by repeat case_match. Qed.
Lemma insert_generation_repositories what id generation : within same_repositories (insert_generation what id generation).
Proof. intros s. unfold insert_generation. by repeat case_match. Qed.
Lemma insert_job_repositories what id job : within same_repositories (insert_job what id job).
Proof. intros s. unfold insert_job. by repeat case_match. Qed.
Lemma delete_generation_repositories id guard : within same_repositories (delete_generation id guard).
Proof. intros s. unfold delete_generation. by repeat case_match. Qed.
Lemma delete_job_repositories id guard : within same_repositories (delete_job id guard).
Proof. intros s. unfold delete_job. by repeat case_match. Qed.
Lemma set_content_repositories c : within same_repositories (set_content c).
Proof. done. Qed.
End Facts.
#[export] Hint Resolve within_result within_query within_require within_require_cas within_load within_transaction
  update_job_repositories update_generation_repositories insert_generation_repositories insert_job_repositories
  delete_generation_repositories delete_job_repositories set_content_repositories : within.
Ltac within := repeat first [progress auto with within typeclass_instances | apply within_transaction | apply within_bind; [typeclasses eauto|..|intros ?] | case_match].

Section Repositories.
Context {C : Type} `{Clock} `{Sqlite} `{JobJson} `{GenerationContent C}.
Abbreviation Store := (Store C).
Abbreviation DB := (@DB C).
Lemma update_staging_repositories id status : within same_repositories (update_staging_generation id status : DB _).
Proof. unfold update_staging_generation. within. Qed.
Hint Resolve update_staging_repositories : within.
Lemma start_repositories input : within same_repositories (start_job input : DB _).
Proof. unfold start_job. within. Qed.
Lemma checkpoint_repositories id owner expected next identity checkpoint completed total now :
  within same_repositories (checkpoint_job id owner expected next identity checkpoint completed total now : DB _).
Proof. unfold checkpoint_job. within. Qed.
Lemma heartbeat_repositories id owner now : within same_repositories (heartbeat_job id owner now : DB _).
Proof. unfold heartbeat_job. within. Qed.
Lemma transition_repositories id owner from to cancellation now :
  within same_repositories (transition_state id owner from to cancellation now : DB _).
Proof. unfold transition_state. within. Qed.
Lemma request_cancel_repositories id owner now : within same_repositories (request_cancel id owner now : DB _).
Proof. unfold request_cancel. within. Qed.
Lemma acknowledge_cancel_repositories id owner now : within same_repositories (acknowledge_cancel id owner now : DB _).
Proof. unfold acknowledge_cancel, finish_job. within. Qed.
Lemma complete_repositories id owner now : within same_repositories (complete_job id owner now : DB _).
Proof. unfold complete_job. within. Qed.
Lemma fail_repositories id owner code now : within same_repositories (fail_job id owner code now : DB _).
Proof. unfold fail_job. within. Qed.
Lemma recover_repositories r owner stale now : within same_repositories (recover_stale_job r owner stale now : DB _).
Proof. unfold recover_stale_job. within. Qed.
Lemma validate_repositories sha256 input : within same_repositories (validate_generation_for_publication sha256 input : DB _).
Proof. unfold validate_generation_for_publication. within. Qed.
Lemma end_stage_repositories what action timed from to input receipt json completed total :
  within same_repositories (end_stage what action timed from to input receipt json completed total : DB _).
Proof. unfold end_stage. within. Qed.
Lemma refresh_plan_repositories input synthesis_only identity json :
  within same_repositories (checkpoint_refresh_plan input synthesis_only identity json : DB _).
Proof. unfold checkpoint_refresh_plan. within. Qed.
Lemma parsed_repositories input : within same_repositories (complete_incremental_parse input : DB _).
Proof. unfold complete_incremental_parse. within. Qed.
Lemma coverage_repositories g r json : within same_repositories (persist_inventory_coverage g r json : DB _).
Proof. unfold persist_inventory_coverage. within. Qed.
Lemma clone_coverage_repositories g ready : within same_repositories (clone_noop_coverage g ready : DB _).
Proof. unfold clone_noop_coverage. within. Qed.
Lemma remove_repositories input : within same_repositories (remove_noop_refresh input : DB _).
Proof. unfold remove_noop_refresh. within. Qed.
Lemma delete_candidates_repositories input r l : within same_repositories (delete_candidates input r l : DB _).
Proof. induction l as [|candidate l IH]; cbn [delete_candidates]; [within|]. unfold delete_candidate. within. Qed.
Hint Resolve delete_candidates_repositories : within.
Lemma cleanup_repositories input : within same_repositories (cleanup_generations input : DB _).
Proof. unfold cleanup_generations, authorize_cleanup. within. Qed.
End Repositories.

(** * Operations in a worker's name *)

Section Owners.
Context {C : Type} `{Clock} `{Sqlite} `{JobJson} `{GenerationContent C}.
Abbreviation Store := (Store C).
Abbreviation DB := (@DB C).

(** The job is not, or no longer, the owner's. *)
Definition not_owned (s : Store) (id owner : string) : Prop := forall job, jobs s !! id = Some job -> owner_id job <> owner.
Definition refuses {A} (m : DB A) (s : Store) : Prop := snd (m s) = s /\ ~ is_Ok (fst (m s)).
Lemma refuses_err {A} e (s : Store) : refuses (result (Err e) : DB A) s.
Proof. split; [done|]. by intros [a Ha]. Qed.
Lemma refuses_result {A B} (r : outcome A) (k : A -> DB B) s : (forall a, r = Ok a -> refuses (k a) s) -> refuses (result r ≫= k) s.
Proof.
  intros Hk. destruct r as [a|e|e]; [by apply Hk|split; [done|]; by intros [a Ha]..].
Qed.
Lemma refuses_require {B} b e (k : unit -> DB B) s : (b = true -> refuses (k ()) s) -> refuses (require b e ≫= k) s.
Proof. intros Hk. apply refuses_result. destruct b; [intros [] _; by apply Hk|done]. Qed.
Lemma refuses_transaction {A} (m : DB A) s : refuses m s -> refuses (transaction m) s.
Proof. unfold refuses, transaction. destruct (m s) as [[a|e|e] s']; cbn; intros [_ Hn]; [destruct Hn; by exists a|done..]. Qed.
Lemma unmatched_update what id guard set (s : Store) : (forall job, jobs s !! id = Some job -> guard s job = false) ->
  update_job what id guard set s = (Ok 0, s).
Proof. intros Hg. unfold update_job. destruct (jobs s !! id) as [job|]; [|done]. by rewrite Hg. Qed.
Lemma refuses_swap {B} what id guard set action id' (k : DB B) s : (forall job, jobs s !! id = Some job -> guard s job = false) ->
  refuses (changed ← update_job what id guard set; _ ← require_cas changed action id'; k) s.
Proof.
  intros Hg. unfold refuses, mbind, db_bind. rewrite unmatched_update by done. split; [done|]. by intros [a Ha].
Qed.
Lemma refuses_claim what id guard set e s : (forall job, jobs s !! id = Some job -> guard s job = false) ->
  refuses (changed ← update_job what id guard set; require (changed =? 1) e) s.
Proof. intros Hg. unfold refuses, mbind, db_bind. rewrite unmatched_update by done. split; [done|]. by intros [a Ha]. Qed.

Lemma foreign_owned_in s id owner states now job : not_owned s id owner -> jobs s !! id = Some job -> owned_in owner states now job = false.
Proof. intros Ho Hj. apply not_true_is_false. intros (Hg & _)%owned_in_true. by apply (Ho job Hj). Qed.
Lemma foreign_input s input job : not_owned s (pub_job_id input) (pub_owner_id input) -> jobs s !! pub_job_id input = Some job ->
  is_input_job input job = false.
Proof.
  intros Ho Hj. apply not_true_is_false. unfold is_input_job. rewrite !andb_true_iff, !seqb_true. intros [_ Hg]. by apply (Ho job Hj).
Qed.
Lemma heartbeat_foreign id owner now s : not_owned s id owner -> refuses (heartbeat_job id owner now : DB _) s.
Proof. intros Ho. apply refuses_result. intros _ _. apply refuses_swap. intros job Hj. by apply (foreign_owned_in s id). Qed.
Lemma transition_foreign id owner from to cancellation now s : not_owned s id owner ->
  refuses (transition_state id owner from to cancellation now : DB _) s.
Proof. intros Ho. apply refuses_result. intros _ _. apply refuses_swap. intros job Hj. by apply (foreign_owned_in s id). Qed.
Lemma request_cancel_foreign id owner now s : not_owned s id owner -> refuses (request_cancel id owner now : DB _) s.
Proof.
  intros Ho. apply refuses_result. intros _ _. apply refuses_swap. intros job Hj. by rewrite (foreign_owned_in s id).
Qed.
Lemma checkpoint_foreign id owner expected next identity checkpoint completed total now s : not_owned s id owner ->
  refuses (checkpoint_job id owner expected next identity checkpoint completed total now : DB _) s.
Proof.
  intros Ho. do 5 (apply refuses_result; intros ? _). apply refuses_require. intros _. do 2 (apply refuses_result; intros ? _).
  apply refuses_require. intros _. apply refuses_swap. intros job Hj. apply not_true_is_false. unfold may_checkpoint.
  intros Hg. repeat apply andb_true_iff in Hg as [Hg _]. by apply (Ho job Hj), seqb_true.
Qed.
Lemma acknowledge_cancel_foreign id owner now s : not_owned s id owner -> refuses (acknowledge_cancel id owner now : DB _) s.
Proof.
  intros Ho. apply refuses_result. intros _ _. apply refuses_transaction, refuses_swap. intros job Hj. by apply (foreign_owned_in s id).
Qed.
Lemma complete_foreign id owner now s : not_owned s id owner -> refuses (complete_job id owner now : DB _) s.
Proof.
  intros Ho. apply refuses_result. intros _ _. apply refuses_transaction, refuses_swap. intros job Hj.
  by rewrite (foreign_owned_in s id).
Qed.
Lemma fail_foreign id owner code now s : not_owned s id owner -> refuses (fail_job id owner code now : DB _) s.
Proof.
  intros Ho. apply refuses_result. intros _ _. apply refuses_transaction. apply refuses_result. intros current Hcur. exfalso.
  destruct (jobs s !! id) as [job|] eqn:Hj; [|done]. cbn [mbind option_bind] in Hcur. specialize (Ho job Hj).
  by rewrite (proj2 (seqb_false _ _) Ho) in Hcur.
Qed.
Lemma validate_foreign sha256 input s : not_owned s (pub_job_id input) (pub_owner_id input) ->
  refuses (validate_generation_for_publication sha256 input : DB _) s.
Proof.
  intros Ho. apply refuses_result. intros _ _. apply refuses_transaction. apply refuses_result. intros job Hrow. exfalso.
  destruct (jobs s !! pub_job_id input) as [job'|] eqn:Hj; [|done]. cbn [mbind option_bind] in Hrow.
  unfold may_advance in Hrow. by rewrite (foreign_input s) in Hrow.
Qed.
Lemma publish_foreign sha256 input s : not_owned s (pub_job_id input) (pub_owner_id input) ->
  refuses (publish_generation sha256 input : DB _) s.
Proof.
  intros Ho. apply refuses_result. intros _ _. apply refuses_transaction. apply refuses_result. intros u Hv. exfalso.
  unfold verify_validation_receipt in Hv. destruct (jobs s !! pub_job_id input) as [job'|] eqn:Hj; [|done].
  cbn [mbind option_bind] in Hv. by rewrite (foreign_input s) in Hv.
Qed.
Lemma foreign_lease s input at_ job : not_owned s (pub_job_id input) (pub_owner_id input) -> jobs s !! pub_job_id input = Some job ->
  has_lease input at_ job = false.
Proof. intros Ho Hj. unfold has_lease. by rewrite (foreign_input s). Qed.
Lemma refresh_plan_foreign input synthesis_only identity json s : not_owned s (pub_job_id input) (pub_owner_id input) ->
  refuses (checkpoint_refresh_plan input synthesis_only identity json : DB _) s.
Proof. intros Ho. apply refuses_claim. intros job Hj. by apply (foreign_lease s). Qed.
Lemma parsed_foreign input s : not_owned s (pub_job_id input) (pub_owner_id input) ->
  refuses (complete_incremental_parse input : DB _) s.
Proof. intros Ho. apply refuses_claim. intros job Hj. by apply (foreign_lease s). Qed.
Lemma end_stage_foreign what action timed from to input receipt json completed total s :
  not_owned s (pub_job_id input) (pub_owner_id input) ->
  refuses (end_stage what action timed from to input receipt json completed total : DB _) s.
Proof. intros Ho. apply refuses_claim. intros job Hj. by rewrite (foreign_lease s). Qed.
Lemma remove_foreign input s : not_owned s (pub_job_id input) (pub_owner_id input) -> refuses (remove_noop_refresh input : DB _) s.
Proof.
  intros Ho. apply refuses_transaction. unfold refuses, mbind, db_bind, delete_job.
  destruct (jobs s !! pub_job_id input) as [job|] eqn:Hj; [rewrite (foreign_lease s) by done|]; (split; [done|]; by intros [a Ha]).
Qed.
Lemma cleanup_foreign input s : not_owned s (clean_job_id input) (clean_owner_id input) -> refuses (cleanup_generations input : DB _) s.
Proof.
  intros Ho. apply refuses_result. intros _ _. apply refuses_require. intros _. apply refuses_transaction.
  assert (refuses (authorize_cleanup input : DB _) s) as [Hs Hn].
  { apply refuses_result. intros a Ha. exfalso. destruct (jobs s !! clean_job_id input) as [job|] eqn:Hj; [|done].
    cbn [mbind option_bind] in Ha. destruct (repositories s !! job_repository_id job); [|done]. cbn [mbind option_bind] in Ha.
    specialize (Ho job Hj). by rewrite (proj2 (seqb_false _ _) Ho) in Ha. }
  unfold refuses, mbind, db_bind. destruct (authorize_cleanup input s) as [[a|e|e] s1]; cbn in *; subst.
  - destruct Hn. by exists a.
  - split; [done|]. by intros [a Ha].
  - split; [done|]. by intros [a Ha].
Qed.
End Owners.

(** * Rows *)

Section Rows.
Context {C : Type} `{Clock} `{Sqlite} `{JobJson} `{GenerationContent C}.
Abbreviation Store := (Store C).
Abbreviation DB := (@DB C).

(** Every row passes its CHECKs, and no error is recorded for a job that has not
    ended; none waits to be started. *)
Record rows_ok (s : Store) : Prop := {
  ro_units : forall id job, jobs s !! id = Some job -> units_checked job = true;
  ro_errors : forall id job, jobs s !! id = Some job -> is_active (state job) = true -> errors_json job = "[]"%string;
  ro_started : forall id job, jobs s !! id = Some job -> state job <> StatePending;
  ro_counts : forall g generation, generations s !! g = Some generation -> counts_checked generation = true
}.
Definition keeps_rows (s s' : Store) : Prop := rows_ok s -> rows_ok s'.
#[export] Instance keeps_rows_preorder : PreOrder keeps_rows.
Proof. split; [intros s Hs; exact Hs|]. intros s1 s2 s3 H12 H23 Hs. apply H23, H12, Hs. Qed.
Lemma rows_put_job id job (s : Store) : rows_ok s -> units_checked job = true ->
  (is_active (state job) = true -> errors_json job = "[]"%string) -> state job <> StatePending -> rows_ok (put_job id job s).
Proof.
  intros [R1 R2 R4 R3] Hu He Hp. split; cbn [put_job jobs generations]; [| | |done].
  - intros id' job' [[<- <-]|[_ Hj]]%lookup_insert_Some; [done|by apply (R1 id')].
  - intros id' job' [[<- <-]|[_ Hj]]%lookup_insert_Some; [done|by apply (R2 id')].
  - intros id' job' [[<- <-]|[_ Hj]]%lookup_insert_Some; [done|by apply (R4 id')].
Qed.
Lemma rows_put_generation g generation (s : Store) : rows_ok s -> counts_checked generation = true ->
  rows_ok (put_generation g generation s).
Proof.
  intros [R1 R2 R4 R3] Hc. split; cbn [put_generation jobs generations]; [done|done|done|].
  intros g' generation' [[<- <-]|[_ Hj]]%lookup_insert_Some; [done|by apply (R3 g')].
Qed.
Lemma violation_units (s : Store) id job : job_violation s id job = None -> units_checked job = true.
Proof. unfold job_violation. by destruct (units_checked job). Qed.
Lemma violation_counts (s : Store) g generation : generation_violation s g generation = None -> counts_checked generation = true.
Proof. unfold generation_violation. by destruct (counts_checked generation). Qed.
(** An UPDATE of a job starts no job and leaves the errors of one that goes on. *)
Definition goes_on_clean (guard : Store -> Job -> bool) (set : Job -> Job) : Prop := forall s job, guard s job = true ->
  (is_active (state (set job)) = true -> is_active (state job) = true /\ errors_json (set job) = errors_json job) /\
  (state (set job) = StatePending -> state job = StatePending).
Lemma update_job_rows what id guard set : goes_on_clean guard set -> within keeps_rows (update_job what id guard set).
Proof.
  intros Hset s Hs. destruct (update_state what id guard set s) as [->|(job & Hj & Hg & Hv & ->)]; [done|].
  destruct (Hset s job Hg) as [Ha Hp]. apply rows_put_job; [done|by eapply violation_units|..].
  - intros [Hact ->]%Ha. by apply (ro_errors s Hs id).
  - intros Hst%Hp. by apply (ro_started s Hs id job).
Qed.
Lemma update_generation_rows what g guard set : within keeps_rows (update_generation what g guard set).
Proof.
  intros s Hs. unfold update_generation. destruct (generations s !! g) as [generation|]; [|done]. destruct (guard s generation); [|done].
  destruct (generation_violation s g (set generation)) eqn:Hv; [done|]. by apply rows_put_generation; [|eapply violation_counts].
Qed.
Lemma insert_generation_rows what g generation : within keeps_rows (insert_generation what g generation).
Proof.
  intros s Hs. unfold insert_generation. destruct (is_some _); [done|]. destruct (negb _); [done|].
  destruct (generation_violation s g generation) eqn:Hv; [done|]. by apply rows_put_generation; [|eapply violation_counts].
Qed.
Lemma insert_job_rows what id job : errors_json job = "[]"%string -> state job <> StatePending -> within keeps_rows (insert_job what id job).
Proof.
  intros He Hp s Hs. unfold insert_job. destruct (is_some _); [done|]. destruct (_ || _); [done|].
  destruct (job_violation s id job) eqn:Hv; [done|]. by apply rows_put_job; [|eapply violation_units|..].
Qed.
Lemma update_repository_rows id guard set : within keeps_rows (update_repository id guard set).
Proof. intros s [R1 R2 R4 R3]. unfold update_repository. by repeat case_match. Qed.
Lemma delete_job_rows id guard : within keeps_rows (delete_job id guard).
Proof.
  intros s Hs. unfold delete_job. destruct (jobs s !! id); [|done]. destruct (guard _); [|done]. destruct Hs as [R1 R2 R4 R3].
  split; cbn; [intros id' job [_ Hj]%lookup_delete_Some; by apply (R1 id')|intros id' job [_ Hj]%lookup_delete_Some; by apply (R2 id')|intros id' job [_ Hj]%lookup_delete_Some; by apply (R4 id')|done].
Qed.
Lemma delete_generation_rows g guard : within keeps_rows (delete_generation g guard).
Proof.
  intros s Hs. unfold delete_generation. destruct (generations s !! g); [|done]. destruct (guard _ _); [|done]. destruct Hs as [R1 R2 R4 R3].
  assert (forall job, units_checked (forget_generation g job) = units_checked job /\ state (forget_generation g job) = state job /\
    errors_json (forget_generation g job) = errors_json job) as Hf.
  { intros job. unfold forget_generation. by case_bool_decide. }
  split; cbn.
  - intros id job. rewrite lookup_fmap. intros (job' & Hj & ->)%fmap_Some. rewrite (proj1 (Hf job')). by apply (R1 id).
  - intros id job. rewrite lookup_fmap. intros (job' & Hj & ->)%fmap_Some. destruct (Hf job') as (_ & -> & ->). by apply (R2 id).
  - intros id job. rewrite lookup_fmap. intros (job' & Hj & ->)%fmap_Some. destruct (Hf job') as (_ & -> & _). by apply (R4 id).
  - intros g' generation [_ Hg]%lookup_delete_Some. by apply (R3 g').
Qed.
Lemma set_content_rows c : within keeps_rows (set_content c).
Proof. intros s [R1 R2 R4 R3]. by split. Qed.
Lemma register_rows r path source revision now : within keeps_rows (register_repository r path source revision now).
Proof. intros s [R1 R2 R4 R3]. unfold register_repository. by destruct (path_taken s r path). Qed.
End Rows.
#[export] Hint Resolve update_generation_rows insert_generation_rows update_repository_rows delete_job_rows delete_generation_rows
  set_content_rows : within.
Ltac clean := apply update_job_rows; intros ? ? Hguard; cbv beta in Hguard; cbn;
  repeat match goal with
  | H : _ && _ = true |- _ => apply andb_true_iff in H as [? ?]
  | H : bool_decide _ = true |- _ => apply bool_decide_eq_true in H
  | H : owned_in _ _ _ _ = true |- _ => apply owned_in_true in H as (? & ? & ?)
  | H : _ ∈ _ :: _ |- _ => apply elem_of_cons in H as [H|H]
  | H : _ ∈ [] |- _ => by apply elem_of_nil in H
  end; (split; intros; try discriminate); try split;
  first [congruence | match goal with Hs : state _ = ?st |- _ => rewrite Hs in *; first [done | by destruct st] end].

Section RowsKept.
Context {C : Type} `{Clock} `{Sqlite} `{JobJson} `{GenerationContent C}.
Abbreviation Store := (Store C).
Abbreviation DB := (@DB C).
Lemma update_staging_rows id status : within keeps_rows (update_staging_generation id status : DB _).
Proof. unfold update_staging_generation. within. Qed.
Hint Resolve update_staging_rows : within.
Lemma start_rows input : within keeps_rows (start_job input : DB _).
Proof. unfold start_job. within. by apply insert_job_rows. Qed.
Lemma checkpoint_rows id owner expected next identity checkpoint completed total now :
  within keeps_rows (checkpoint_job id owner expected next identity checkpoint completed total now : DB _).
Proof. unfold checkpoint_job. within; clean. Qed.
Lemma heartbeat_rows id owner now : within keeps_rows (heartbeat_job id owner now : DB _).
Proof. unfold heartbeat_job. within; clean. Qed.
Lemma pause_rows id owner now : within keeps_rows (pause_job id owner now : DB _).
Proof. unfold pause_job, transition_state. within; clean. Qed.
Lemma resume_rows id owner now : within keeps_rows (resume_job id owner now : DB _).
Proof. unfold resume_job, transition_state. within; clean. Qed.
Lemma request_cancel_rows id owner now : within keeps_rows (request_cancel id owner now : DB _).
Proof. unfold request_cancel. within; clean. Qed.
Lemma acknowledge_cancel_rows id owner now : within keeps_rows (acknowledge_cancel id owner now : DB _).
Proof. unfold acknowledge_cancel, finish_job. within; clean. Qed.
Lemma complete_rows id owner now : within keeps_rows (complete_job id owner now : DB _).
Proof. unfold complete_job. within; clean. Qed.
Lemma fail_rows id owner code now : within keeps_rows (fail_job id owner code now : DB _).
Proof. unfold fail_job. within; clean. Qed.
Lemma recover_rows r owner stale now : within keeps_rows (recover_stale_job r owner stale now : DB _).
Proof. unfold recover_stale_job. within; clean. Qed.
Lemma validate_rows sha256 input : within keeps_rows (validate_generation_for_publication sha256 input : DB _).
Proof. unfold validate_generation_for_publication. within; clean. Qed.
Lemma publish_generation_rows sha256 input : within keeps_rows (publish_generation sha256 input : DB _).
Proof. unfold publish_generation, project_generation, publish_rows, supersede_prior. within; clean. Qed.
Lemma end_stage_rows what action timed from to input receipt json completed total :
  within keeps_rows (end_stage what action timed from to input receipt json completed total : DB _).
Proof. unfold end_stage. within; clean. Qed.
Lemma refresh_plan_rows input synthesis_only identity json :
  within keeps_rows (checkpoint_refresh_plan input synthesis_only identity json : DB _).
Proof. unfold checkpoint_refresh_plan. within; clean. Qed.
Lemma parsed_rows input : within keeps_rows (complete_incremental_parse input : DB _).
Proof. unfold complete_incremental_parse. within; clean. Qed.
Lemma coverage_rows g r json : within keeps_rows (persist_inventory_coverage g r json : DB _).
Proof. unfold persist_inventory_coverage. within. Qed.
Lemma clone_coverage_rows g ready : within keeps_rows (clone_noop_coverage g ready : DB _).
Proof. unfold clone_noop_coverage. within. Qed.
Lemma remove_rows input : within keeps_rows (remove_noop_refresh input : DB _).
Proof. unfold remove_noop_refresh. within. Qed.
Lemma delete_candidates_rows input r l : within keeps_rows (delete_candidates input r l : DB _).
Proof. induction l as [|candidate l IH]; cbn [delete_candidates]; [within|]. unfold delete_candidate. within. Qed.
Hint Resolve delete_candidates_rows : within.
Lemma cleanup_rows input : within keeps_rows (cleanup_generations input : DB _).
Proof. unfold cleanup_generations, authorize_cleanup. within; clean. Qed.
End RowsKept.
