(* ===== verification/JobOutcomes.v ===== *)
(** What the operations of a job come to: a publication that succeeded, the end of
    a job that its owner gives up, and the generations a cleanup deletes. *)
From S2P Require Import Prelude Ordering RustText Contracts Jobs JobPublication JobStages JobWorld JobRuns JobProps JobFacts.
From stdpp Require Import gmap.
Local Open Scope N_scope.

(** * Publication *)

Section Published.
Context {C : Type} `{Clock} `{Sqlite} `{JobJson} `{GenerationContent C}.
Abbreviation Store := (Store C).
Abbreviation DB := (@DB C).

(** The receipt in the checkpoint of a job is what is in the tables now. *)
Definition receipt_holds (sha256 : string -> string) (s : Store) (input : ArchaeologyPublication) (job : Job) : Prop :=
  checkpoint_identity job = Some (validation_receipt_identity sha256 (checkpoint_json job)) /\
  exists receipt, receipt_from_str (checkpoint_json job) = Some receipt /\
    encode_validation_receipt receipt = Ok (checkpoint_json job) /\
    build_validation_receipt sha256 s input (empty_inventory_proven (snapshot receipt)) = Ok receipt /\
    verify_persisted_counts s (pub_generation_id input) (snapshot receipt) = Ok ().
Lemma verify_validation_receipt_Ok sha256 (s : Store) input : verify_validation_receipt sha256 s input = Ok () ->
  exists job, jobs s !! pub_job_id input = Some job /\ is_input_job input job = true /\ receipt_holds sha256 s input job.
Proof.
  unfold verify_validation_receipt. intros (job & Hrow & Hv)%bind_Ok.
  apply bind_Ok in Hv as (identity & Hid & Hv). destruct (_ || _) eqn:Ebound in Hv; [done|].
  apply bind_Ok in Hv as (stored & Hstored & Hv). apply bind_Ok in Hv as (encoded & Henc & Hv).
  destruct (negb (seqb encoded _)) eqn:Ecan in Hv; [done|]. apply bind_Ok in Hv as (current & Hcur & Hv).
  apply bind_Ok in Hv as ([] & Hcounts & Hv). case_bool_decide as Heq; [|done]. subst current.
  destruct (jobs s !! pub_job_id input) as [job'|] eqn:Hj; [|done]. cbn [mbind option_bind] in Hrow.
  destruct (is_input_job input job') eqn:Hi; [|done]. cbn [andb] in Hrow. destruct (_ && _); [|done]. injection Hrow as ->.
  exists job. split; [done|]. split; [done|]. apply orb_false_iff in Ebound as [_ Hident%negb_false_iff%seqb_true].
  apply negb_false_iff, seqb_true in Ecan. split.
  - destruct (checkpoint_identity job); [|done]. by injection Hid as ->; rewrite Hident.
  - exists stored. destruct (receipt_from_str (checkpoint_json job)) as [stored'|]; [|done]. injection Hstored as ->.
    rewrite Ecan in Henc. done.
Qed.
Lemma publish_generation_Ok sha256 input (s : Store) status s' : publish_generation sha256 input s = (Ok status, s') ->
  verify_validation_receipt sha256 s input = Ok () /\
  (publication_is_already_committed s input = true /\ s' = s \/
   publication_is_already_committed s input = false /\
   exists repository s1, repositories s !! pub_repository_id input = Some repository /\
     project_generation input (ready_generation_id repository) (repo_path repository) s = (Ok (), s1) /\
     repositories s1 = repositories s /\ generations s1 = generations s /\ jobs s1 = jobs s /\
     publishes input (ready_generation_id repository) s1 s').
Proof.
  unfold publish_generation. intros (u & _ & Hbody%transaction_Ok)%bind_result_Ok.
  apply bind_query_Ok, bind_result_Ok in Hbody as ([] & Hv & Hbody). split; [done|]. apply bind_query_Ok in Hbody.
  destruct (publication_is_already_committed s input); [left; by apply load_job_Ok in Hbody as ->|right]. split; [done|].
  apply bind_query_Ok, bind_result_Ok in Hbody as (repository & Hrep & Hbody).
  apply bind_query_Ok, bind_result_Ok in Hbody as ([] & _ & Hbody).
  apply db_bind_Ok in Hbody as ([] & s1 & Hproj & Hbody). pose proof Hproj as (R1 & G1 & J1)%project_generation_Ok.
  apply db_bind_Ok in Hbody as (u2 & s2 & Hrows%publish_rows_Ok & ->%load_job_Ok).
  destruct (repositories s !! pub_repository_id input) as [row|] eqn:Hr; [|done]. injection Hrep as ->. eauto 10.
Qed.
Lemma publish_failed sha256 input (s : Store) : ~ is_Ok (fst (publish_generation sha256 input s)) -> snd (publish_generation sha256 input s) = s.
Proof.
  unfold publish_generation, mbind, db_bind, result. destruct (validate_publication_input input) as [u|e|e]; [|done..].
  apply transaction_failed.
Qed.
(** What a publication does to what is shown. *)
Lemma publishes_pointer input prior (s s' : Store) r : publishes input prior s s' ->
  ready_pointer s' r = (if bool_decide (pub_repository_id input = r) then Some (pub_generation_id input) else ready_pointer s r) /\
  ready_pointer s (pub_repository_id input) = prior.
Proof.
  intros [(job & generation & repository & _ & _ & _ & _ & _ & Hrep & Hready & _ & _ & _ & _ & R & _)]. unfold ready_pointer.
  rewrite R, Hrep. split; [|done]. case_bool_decide as E; [subst r; by rewrite lookup_insert_eq|by rewrite lookup_insert_ne].
Qed.
Lemma publishes_statuses input prior (s s' : Store) : publishes input prior s s' ->
  gen_status <$> generations s' !! pub_generation_id input = Some GenReady /\
  forall old, prior = Some old -> gen_status <$> generations s' !! old = Some GenSuperseded.
Proof.
  intros [(job & generation & repository & _ & _ & _ & _ & _ & _ & _ & Hne & Hprior & _ & G & _)]. rewrite G.
  split; [by rewrite lookup_insert_eq|]. intros old ->. destruct (Hprior old eq_refl) as (row & Hrow & _).
  rewrite lookup_insert_ne by congruence. by rewrite lookup_alter_eq, Hrow.
Qed.
End Published.

(** * A job that is given up *)

Section GivenUp.
Context {C : Type} `{Clock} `{Sqlite} `{JobJson} `{GenerationContent C}.
Abbreviation Store := (Store C).
Abbreviation DB := (@DB C).

(** What [serde_json] does with no error and with one. *)
Record reads_errors (code : ArchaeologyJobErrorCode) : Prop := {
  reads_none : errors_from_str "[]" = Some [];
  reads_one : exists json, errors_to_string [error_code_name code] = inr json /\
    errors_from_str json = Some [error_code_name code] /\ blen json <= MAX_ERRORS_JSON_BYTES
}.
Lemma push_first_error code : reads_errors code ->
  exists json, push_error "[]" code = Ok json /\ errors_from_str json = Some [error_code_name code].
Proof.
  intros [H0' (json & Hto & Hfrom & Hlen)]. exists json. unfold push_error. rewrite H0'. cbn [len length app].
  change (MAX_ERRORS <=? 0) with false. cbv iota. rewrite Hto. destruct (N.ltb_spec MAX_ERRORS_JSON_BYTES (blen json)); [lia|done].
Qed.
Lemma update_job_runs what id guard set (s : Store) job : jobs s !! id = Some job -> guard s job = true ->
  job_violation s id (set job) = None -> update_job what id guard set s = (Ok 1, put_job id (set job) s).
Proof. intros Hj Hg Hv. unfold update_job. by rewrite Hj, Hg, Hv. Qed.
Lemma ended_violation (s : Store) id job : units_checked job = true -> is_active (state job) = false -> job_violation s id job = None.
Proof. intros Hu Ha. unfold job_violation. by rewrite Hu, Ha. Qed.
Lemma dead_violation (s : Store) g generation : counts_checked generation = true -> live_status (gen_status generation) = false ->
  generation_violation s g generation = None.
Proof.
  intros Hc Hl. unfold generation_violation. rewrite Hc, Hl. cbn [negb andb].
  case_bool_decide as E; [|done]. by rewrite E in Hl.
Qed.
(** The generation of a job that ends without it. *)
Lemma update_staging_runs id g status generation (s : Store) job : jobs s !! id = Some job -> job_generation_id job = Some g ->
  generations s !! g = Some generation -> counts_checked generation = true -> status ∈ [GenFailed; GenCancelled] ->
  gen_status generation = GenStaging \/ gen_status generation = GenReady /\ published_ready s id = true ->
  update_staging_generation id status s = (Ok (),
    if bool_decide (gen_status generation = GenStaging) then put_generation g (with_status status generation) s else s).
Proof.
  intros Hj Hg Hgen Hc Hst Hcase. unfold update_staging_generation, query, mbind, db_bind. cbn. rewrite Hj. cbn. rewrite Hg.
  unfold update_generation. rewrite Hgen. destruct Hcase as [Hs|[Hs Hp]].
  - rewrite (proj2 (has_status_true _ _) Hs), dead_violation.
    + by rewrite bool_decide_true.
    + done.
    + apply elem_of_cons in Hst as [->|Hst]; [done|]. by apply list_elem_of_singleton in Hst as ->.
  - assert (has_status GenStaging generation = false) as -> by (apply not_true_is_false; rewrite has_status_true; congruence).
    cbn. rewrite Hp, (proj2 (elemb_true _ _) Hst), bool_decide_false by congruence. done.
Qed.
Lemma load_job_runs id (s : Store) job errors : jobs s !! id = Some job -> units_checked job = true ->
  errors_from_str (errors_json job) = Some errors ->
  exists status, load_job id s = (Ok status, s) /\ status_state status = state job /\ status_stage status = stage job /\
    status_errors status = errors.
Proof.
  intros Hj Hu He. unfold load_job, query, mbind, db_bind. cbn. rewrite Hj. unfold result. rewrite He.
  unfold units_checked in Hu. rewrite andb_true_iff in Hu. destruct Hu as [Hc Ht].
  assert (u64_try_from "Negative completed units" (completed_units job) = Ok (Z.to_N (completed_units job))) as ->.
  { unfold u64_try_from. destruct (Z.ltb_spec (completed_units job) 0); [|done]. apply Z.leb_le in Hc. lia. }
  destruct (total_units job) as [total|]; cbn.
  - rewrite andb_true_iff in Ht. destruct Ht as [Ht _]. unfold u64_try_from.
    destruct (Z.ltb_spec total 0); [apply Z.leb_le in Ht; lia|]. cbn. by eexists.
  - by eexists.
Qed.
Definition failed_row (json now : string) (job : Job) : Job :=
  updated now (finished now (with_errors json (with_stage StageIdle (with_state StateFailed job)))).
Lemma fail_job_runs id job g generation code now (s : Store) : rows_ok s -> reads_errors code -> jobs s !! id = Some job ->
  is_active (state job) = true -> validate_actor id (owner_id job) now = Ok () -> not_before now (job_updated_at job) = true ->
  job_generation_id job = Some g -> generations s !! g = Some generation ->
  gen_status generation = GenStaging \/ gen_status generation = GenReady /\ published_ready s id = true ->
  exists status json, fail_job id (owner_id job) code now s = (Ok status,
    (if bool_decide (gen_status generation = GenStaging) then put_generation g (with_status GenFailed generation) else (fun s => s))
      (put_job id (failed_row json now job) s)) /\
    status_state status = StateFailed /\ status_stage status = StageIdle /\ status_errors status = [error_code_name code].
Proof.
  intros Hrows Hreads Hj Ha Hactor Hnow Hg Hgen Hcase.
  destruct (push_first_error code Hreads) as (json & Hpush & Hfrom).
  assert (state job ∈ may_fail) as Hmay.
  { pose proof (ro_started s Hrows id job Hj). unfold may_fail. destruct (state job); try done; set_solver. }
  set (s1 := put_job id (failed_row json now job) s).
  assert (jobs s1 !! id = Some (failed_row json now job)) as Hj1 by (cbn; by rewrite lookup_insert_eq).
  assert (units_checked (failed_row json now job) = true) as Hu by exact (ro_units s Hrows id job Hj).
  assert (update_staging_generation id GenFailed s1 = (Ok (),
    if bool_decide (gen_status generation = GenStaging) then put_generation g (with_status GenFailed generation) s1 else s1)) as Hupd.
  { eapply update_staging_runs; [exact Hj1|exact Hg|exact Hgen|by eapply ro_counts|set_solver|].
    destruct Hcase as [Hs|[Hs Hp]]; [by left|right; split; [done|]]. unfold published_ready in *. rewrite Hj1. by rewrite Hj in Hp. }
  set (s2 := if bool_decide (gen_status generation = GenStaging) then put_generation g (with_status GenFailed generation) s1 else s1) in *.
  assert (jobs s2 !! id = Some (failed_row json now job)) as Hj2 by (unfold s2; by case_bool_decide).
  destruct (load_job_runs id s2 (failed_row json now job) [error_code_name code]) as (status & Hload & Hst & Hstage & Herr); [done..|].
  exists status, json. split; [|done].
  assert (fail_job id (owner_id job) code now s = (Ok status, s2)) as ->; [|unfold s2; by case_bool_decide].
  unfold fail_job. rewrite Hactor. unfold mbind at 1, db_bind at 1, result at 1. cbv iota. unfold transaction, query.
  unfold mbind at 1, db_bind at 1. rewrite Hj. cbn [mbind option_bind].
  rewrite (proj2 (seqb_true _ _) eq_refl), (proj2 (elemb_true _ _) Hmay). cbn [andb]. unfold mbind at 1, db_bind at 1, result at 1. cbv iota.
  rewrite (ro_errors s Hrows id job Hj Ha), Hpush. unfold mbind at 1, db_bind at 1, result at 1. cbv iota. unfold mbind at 1, db_bind at 1.
  rewrite (update_job_runs _ _ _ _ _ job); [|done|by rewrite owned_in_true|by apply ended_violation].
  change (updated now _) with (failed_row json now job). fold s1. unfold require_cas, require, mbind, db_bind, result. cbn [N.eqb Pos.eqb].
  rewrite Hupd. fold s2. by rewrite Hload.
Qed.
End GivenUp.

(** * Cleanup *)

Section Cleaned.
Context {C : Type} `{Clock} `{Sqlite} `{JobJson} `{GenerationContent C}.
Abbreviation Store := (Store C).
Abbreviation DB := (@DB C).

(** No active job is on a generation. *)
Definition not_worked_on (s : Store) (g : string) : Prop := forall id job, jobs s !! id = Some job ->
  job_generation_id job = Some g -> state job ∉ [StatePending; StateRunning; StatePaused; StateCancelling].
(** A generation of a repository that is neither ready, nor shown, nor worked on. *)
Definition idle_generation (s : Store) (r g : string) (generation : Generation) : Prop :=
  generations s !! g = Some generation /\ gen_repository_id generation = r /\ gen_status generation <> GenReady /\
  (forall row, repositories s !! r = Some row -> ready_generation_id row <> Some g) /\ not_worked_on s g.
(** [g'] was made after [g], by the text of the times and then by identity. *)
Definition made_after (g : string) (generation : Generation) (g' : string) (generation' : Generation) : Prop :=
  Ordering.lt (gen_created_at generation) (gen_created_at generation') \/
  gen_created_at generation = gen_created_at generation' /\ Ordering.lt g g'.
Definition superseded_after (s : Store) (r g : string) (generation : Generation) (g' : string) : Prop :=
  exists generation', idle_generation s r g' generation' /\ gen_status generation' = GenSuperseded /\ made_after g generation g' generation'.
(** What a cleanup deletes: an idle generation that either was superseded, where the
    caller's job made what is shown and as many as are retained were made after
    it and superseded; or was left by a job of the caller that has ended. *)
Definition deletable (s : Store) (input : ArchaeologyCleanup) (lease : Job) (g : string) (generation : Generation) : Prop :=
  let r := job_repository_id lease in
  idle_generation s r g generation /\
  (gen_status generation = GenSuperseded /\
     (exists row shown, repositories s !! r = Some row /\ ready_generation_id row = Some shown /\ job_generation_id lease = Some shown) /\
     (exists newer : list string, NoDup newer /\ len newer = retain_superseded input /\
        forall g', g' ∈ newer -> superseded_after s r g generation g')
   \/
   gen_status generation ∈ [GenStaging; GenFailed; GenCancelled] /\
     exists id job, jobs s !! id = Some job /\ job_generation_id job = Some g /\ owner_id job = clean_owner_id input /\
       state job ∈ [StateFailed; StateCancelled; StateCompleted]).
Lemma any_job_put (s : Store) id job job' p : jobs s !! id = Some job -> p job' = p job -> any_job (put_job id job' s) p = any_job s p.
Proof.
  intros Hj Hp. apply Bool.eq_true_iff_eq. rewrite !any_job_true. cbn. split.
  - intros (i & row & [[<- <-]|[Hne Hrow]]%lookup_insert_Some & Ht); [|by eauto]. exists id, job. by rewrite <- Hp.
  - intros (i & row & Hrow & Ht). destruct (decide (i = id)) as [->|Hne].
    + exists id, job'. rewrite lookup_insert_eq. split; [done|]. rewrite Hp. congruence.
    + exists i, row. by rewrite lookup_insert_ne.
Qed.
Lemma unused_touched (s : Store) id job now r e : jobs s !! id = Some job -> unused (put_job id (updated now job) s) r e = unused s r e.
Proof. intros Hj. unfold unused, in_use. by rewrite (any_job_put s id job). Qed.
Lemma in_use_false (s : Store) g : in_use s g = false <-> not_worked_on s g.
Proof.
  unfold in_use. rewrite any_job_false. unfold not_worked_on, works_on. split.
  - intros Hu id job Hj Hg Hin. specialize (Hu id job Hj). rewrite bool_decide_true in Hu by done.
    cbn in Hu. unfold is_active in Hu. by rewrite (proj2 (elemb_true _ _) Hin) in Hu.
  - intros Hu id job Hj. case_bool_decide as Hg; [|done]. cbn. apply not_true_is_false. intros Ha%elemb_true. by apply (Hu id job Hj Hg).
Qed.
Lemma done_by_true (s : Store) owner g : done_by s owner g = true <-> exists id job, jobs s !! id = Some job /\
  job_generation_id job = Some g /\ owner_id job = owner /\ state job ∈ [StateFailed; StateCancelled; StateCompleted].
Proof.
  unfold done_by. rewrite any_job_true. unfold works_on.
  split; intros (id & job & Hj & Hp); exists id, job;
    rewrite ?andb_true_iff, ?bool_decide_eq_true, ?seqb_true, ?elemb_true in *; tauto.
Qed.
Lemma unused_true (s : Store) r g generation : generations s !! g = Some generation ->
  unused s r (g, generation) = true <-> idle_generation s r g generation.
Proof.
  intros Hg. unfold unused, idle_generation, ready_pointer. cbn [fst snd].
  rewrite !andb_true_iff, !negb_true_iff, seqb_true, in_use_false, bool_decide_eq_false.
  assert (has_status GenReady generation = false <-> gen_status generation <> GenReady) as ->
    by (rewrite <- not_true_iff_false, has_status_true; tauto).
  assert ((repositories s !! r ≫= ready_generation_id) <> Some g <->
    (forall row, repositories s !! r = Some row -> ready_generation_id row <> Some g)) as ->; [|tauto].
  destruct (repositories s !! r) as [row|]; cbn; [|done]. split; [by intros Hn row' [= <-]|auto].
Qed.
Lemma unused_idle (s : Store) r g generation :
  (g, generation) ∈ List.filter (unused s r) (map_to_list (generations s)) <-> idle_generation s r g generation.
Proof.
  rewrite elem_of_filter_bool, elem_of_map_to_list. split; [by intros [Hg Hu]; apply unused_true|].
  intros Hi. assert (generations s !! g = Some generation) as Hg by apply Hi. split; [done|by apply unused_true].
Qed.
Lemma leads_to_ready_true (s : Store) job : leads_to_ready s job = true <-> exists row shown,
  repositories s !! job_repository_id job = Some row /\ ready_generation_id row = Some shown /\ job_generation_id job = Some shown.
Proof.
  unfold leads_to_ready. destruct (repositories s !! job_repository_id job) as [row|]; cbn; [|split; [done|by intros (? & ? & ? & _)]].
  rewrite andb_true_iff, bool_decide_eq_true. split.
  - intros [Hs Hr]. destruct (job_generation_id job) as [g|]; [|done]. eauto.
  - intros (row' & g & [= <-] & Hr & ->). done.
Qed.
Lemma age_after g generation g' generation' : cmp (age (g, generation)) (age (g', generation')) = Lt <-> made_after g generation g' generation'.
Proof.
  unfold age, made_after, Ordering.lt. cbn. destruct (String.compare _ _) eqn:E; cbn.
  - apply String.compare_eq_iff in E. rewrite E. split; [by right|by intros [?|[_ ?]]]. 
  - split; [by left|done].
  - split; [done|]. intros [?|[Heq _]]; [done|]. rewrite Heq in E.
    change (cmp (gen_created_at generation') (gen_created_at generation') = Gt) in E. by rewrite cmp_refl in E.
Qed.
Lemma filter_bool_sublist {A} (p : A -> bool) l : List.filter p l `sublist_of` l.
Proof. induction l as [|x l IH]; cbn; [done|]. destruct (p x); by constructor. Qed.
(** A rank counts what was made after. *)
Lemma status_rank_newer (s : Store) r g generation n : gen_status generation = GenSuperseded ->
  n < status_rank (List.filter (unused s r) (map_to_list (generations s))) (g, generation) <->
  exists newer : list string, NoDup newer /\ len newer = n /\ forall g', g' ∈ newer -> superseded_after s r g generation g'.
Proof.
  intros Hst. unfold status_rank. set (l := List.filter (unused s r) _). set (after := List.filter _ l).
  assert (forall g', g' ∈ map fst after <-> superseded_after s r g generation g') as Hin.
  { intros g'. rewrite list_elem_of_fmap. unfold superseded_after, after. split.
    - intros ([g1 generation'] & -> & [Hi%unused_idle Hp]%elem_of_filter_bool). cbn [fst snd] in Hp.
      rewrite andb_true_iff, !bool_decide_eq_true, age_after in Hp. destruct Hp as [Hs Ha]. exists generation'. by rewrite Hs.
    - intros (generation' & Hi & Hs & Ha). exists (g', generation'). split; [done|]. apply elem_of_filter_bool.
      split; [by apply unused_idle|]. cbn [fst snd]. rewrite !bool_decide_true; [done|by apply age_after|by rewrite Hs]. }
  assert (NoDup (map fst after)) as Hnd.
  { apply (sublist_NoDup _ (map fst (map_to_list (generations s)))); [apply NoDup_fst_map_to_list|].
    apply fmap_sublist. etrans; apply filter_bool_sublist. }
  assert (len after = len (map fst after)) as -> by (unfold len; by rewrite length_map). split.
  - intros Hn. exists (take (N.to_nat n) (map fst after)). split_and!.
    + eapply sublist_NoDup; [exact Hnd|]. apply sublist_take.
    + unfold len in *. rewrite length_take. lia.
    + intros g' Hg'. apply Hin. by eapply subseteq_take.
  - intros (newer & Hd & <- & Hall). unfold len. enough (length newer <= length (map fst after))%nat by lia.
    apply submseteq_length, NoDup_submseteq; [done|]. intros g' Hg'. by apply Hin, Hall.
Qed.
Lemma to_delete_deletable (s : Store) input lease g generation : idle_generation s (job_repository_id lease) g generation ->
  to_delete s (clean_owner_id input) (retain_superseded input) (leads_to_ready s lease)
    (List.filter (unused s (job_repository_id lease)) (map_to_list (generations s))) (g, generation) = true <->
  deletable s input lease g generation.
Proof.
  intros Hi. unfold deletable, to_delete. cbn [fst snd].
  rewrite orb_true_iff, !andb_true_iff, has_status_true, N.ltb_lt, elemb_true, leads_to_ready_true, done_by_true. split.
  - intros [[[Hl Hs] Hn]|[Hs Hd]]; (split; [done|]); [left|by right]. split; [done|]. split; [done|]. by apply status_rank_newer.
  - intros [_ [(Hs & Hl & Hn)|[Hs Hd]]]; [left|by right]. split; [done|]. by apply status_rank_newer.
Qed.
Lemma may_clean_true job : may_clean job = true <->
  state job = StateRunning /\ stage job = StageCleanup /\ cancellation_requested job = false \/
  state job ∈ [StateFailed; StateCancelled; StateCompleted] /\ stage job = StageIdle.
Proof.
  unfold may_clean, running_at. rewrite orb_true_iff, !andb_true_iff, negb_true_iff, elemb_true, !bool_decide_eq_true. tauto.
Qed.
(** The plan, at the database the cleanup found. *)
Lemma candidates_deletable (s s1 : Store) input lease : jobs s !! clean_job_id input = Some lease ->
  s1 = (if bool_decide (clean_mode input = Apply) then put_job (clean_job_id input) (updated (clean_now input) lease) s else s) ->
  let planned := cleanup_candidates s1 (job_repository_id lease) (clean_owner_id input) (retain_superseded input) (leads_to_ready s lease) in
  (forall candidate, candidate ∈ fst planned -> exists generation,
     clean_status candidate = gen_status generation /\ deletable s input lease (clean_generation_id candidate) generation) /\
  (snd planned = false -> forall g generation, deletable s input lease g generation -> g ∈ map clean_generation_id (fst planned)).
Proof.
  intros Hj Hs1. cbv zeta. unfold cleanup_candidates. set (r := job_repository_id lease).
  assert (generations s1 = generations s) as -> by (subst s1; by case_bool_decide).
  rewrite (List.filter_ext (unused s1 r) (unused s r)) by (intros e; subst s1; case_bool_decide; [by apply unused_touched|done]).
  set (l := List.filter (unused s r) _).
  rewrite (List.filter_ext (to_delete s1 _ _ _ l) (to_delete s (clean_owner_id input) (retain_superseded input) (leads_to_ready s lease) l)).
  2: { intros e. subst s1. case_bool_decide; [|done]. unfold to_delete, done_by. by rewrite (any_job_put s (clean_job_id input) lease). }
  set (chosen := sort_by_key age _).
  assert (forall g generation, (g, generation) ∈ chosen <-> deletable s input lease g generation) as Hchosen.
  { intros g generation. unfold chosen. rewrite elem_of_sort_by_key, elem_of_filter_bool. unfold l. rewrite unused_idle.
    split; [intros [Hi Hd]; by apply to_delete_deletable|]. intros Hd. assert (idle_generation s r g generation) as Hi by apply Hd.
    split; [done|]. by apply to_delete_deletable. }
  cbn [fst snd]. split.
  - intros candidate ([g generation] & -> & Hin)%list_elem_of_fmap. destruct (candidate_of_fields (content s1) (g, generation)) as [-> ->].
    exists generation. split; [done|]. apply Hchosen. by do 2 apply subseteq_take in Hin.
  - intros Htr g generation Hd%Hchosen. apply N.ltb_ge in Htr. change MAX_CLEANUP_GENERATIONS with 256 in Htr. unfold len in Htr.
    rewrite length_firstn in Htr. rewrite !firstn_all2; [|lia|rewrite length_firstn; lia].
    rewrite map_map. apply list_elem_of_fmap. exists (g, generation). split; [|done]. by destruct (candidate_of_fields (content s1) (g, generation)) as [-> _].
Qed.
(** The candidates and nothing else. *)
Lemma delete_candidates_Ok input r l (s : Store) a s' : delete_candidates input r l s = (Ok a, s') ->
  repositories s' = repositories s /\
  (forall g, generations s' !! g = if bool_decide (g ∈ map clean_generation_id l) then None else generations s !! g) /\
  (forall id job, jobs s !! id = Some job -> is_active (state job) = true -> jobs s' !! id = Some job).
Proof.
  revert s a. induction l as [|candidate l IH]; intros s a; cbn [delete_candidates map].
  - intros [_ ->]%result_Ok. by split_and!.
  - intros (u & s1 & (generation & Hgen & Hmay & ->)%delete_candidate_Ok & (R & G & J)%IH)%db_bind_Ok. cbn in R, G, J.
    split_and!; [done|..].
    + intros g. rewrite G. destruct (decide (g = clean_generation_id candidate)) as [->|Hne].
      * rewrite lookup_delete_eq, (bool_decide_true (_ ∈ _ :: _)) by left. by case_bool_decide.
      * rewrite lookup_delete_ne by done. rewrite (bool_decide_ext (g ∈ _ :: _) (g ∈ map clean_generation_id l)); [done|].
        rewrite elem_of_cons. split; [by intros [?|?]|by right].
    + intros id job Hj Ha. apply J; [|done]. rewrite lookup_fmap, Hj. cbn. f_equal. unfold forget_generation.
      case_bool_decide as E; [|done]. exfalso. unfold may_delete in Hmay. rewrite !andb_true_iff in Hmay.
      destruct Hmay as [[_ Huse%negb_true_iff] _]. unfold in_use in Huse. rewrite any_job_false in Huse.
      specialize (Huse id job Hj). unfold works_on in Huse. by rewrite E, Ha, bool_decide_true in Huse.
Qed.
Lemma sum_of_ones l : sum_of (fun _ => 1) l = len l.
Proof. induction l as [|c l IH]; [done|]. cbn [sum_of foldr] in *. fold (sum_of (fun _ => 1) l). rewrite IH. unfold len. cbn [length]. lia. Qed.
Lemma cleanup_generations_Ok input (s : Store) report s' : cleanup_generations input s = (Ok report, s') ->
  exists lease s1, jobs s !! clean_job_id input = Some lease /\ owner_id lease = clean_owner_id input /\ may_clean lease = true /\
    s1 = (if bool_decide (clean_mode input = Apply) then put_job (clean_job_id input) (updated (clean_now input) lease) s else s) /\
    let planned := cleanup_candidates s1 (job_repository_id lease) (clean_owner_id input) (retain_superseded input) (leads_to_ready s lease) in
    candidates report = fst planned /\ truncated report = snd planned /\ dry_run report = negb (bool_decide (clean_mode input = Apply)) /\
    (if bool_decide (clean_mode input = Apply) then
       delete_candidates input (job_repository_id lease) (fst planned) s1 = (Ok (), s') /\ deleted_generations report = len (fst planned)
     else s' = s /\ deleted_generations report = 0).
Proof.
  unfold cleanup_generations. intros (u & _ & [_ Hrun%transaction_Ok]%bind_require_Ok)%bind_result_Ok.
  apply db_bind_Ok in Hrun as ([r owns] & s1 & (lease & Hj & Ho & Hc & _ & <- & -> & Hs1)%authorize_cleanup_Ok & Hrun).
  apply bind_query_Ok in Hrun. apply db_bind_Ok in Hrun as ([] & s2 & Hdel & [[= <-] ->]%result_Ok).
  exists lease, s1. split_and!; try done. cbn [fst snd] in *. case_bool_decide.
  - split; [exact Hdel|]. cbn. apply sum_of_ones.
  - apply result_Ok in Hdel as [_ ->]. done.
Qed.
End Cleaned.
