(* ===== verification/JobOperations.v ===== *)
(** Everything that is done to the three tables of the jobs, as one type of
    operations, and the databases they lead to. *)
From S2P Require Import Prelude Ordering RustText Contracts Jobs JobPublication JobStages.
From stdpp Require Import gmap.
Local Open Scope N_scope.

Section Operations.
Context {C : Type} `{Clock} `{Sqlite} `{JobJson} `{GenerationContent C} (sha256 : string -> string).
Abbreviation Store := (Store C).
Abbreviation DB := (@DB C).

(** Everything that is done to the three tables; the other tables may change at
    any time. *)
Inductive Operation : Type :=
| OpStart (input : NewArchaeologyJob)
| OpCheckpoint (job_id owner : string) (expected next : ArchaeologyJobStage) (identity : string)
    (checkpoint : ArchaeologyJobCheckpoint) (completed : N) (total : option N) (now : string)
| OpHeartbeat (job_id owner now : string)
| OpPause (job_id owner now : string)
| OpResume (job_id owner now : string)
| OpRequestCancel (job_id owner now : string)
| OpAcknowledgeCancel (job_id owner now : string)
| OpComplete (job_id owner now : string)
| OpFail (job_id owner : string) (code : ArchaeologyJobErrorCode) (now : string)
| OpRecover (repository_id new_owner stale_before now : string)
| OpValidate (input : ArchaeologyPublication)
| OpPublish (input : ArchaeologyPublication)
| OpCleanup (input : ArchaeologyCleanup)
| OpRegister (repository_id path source revision now : string)
| OpCoverage (generation_id repository_id json : string)
| OpCloneCoverage (generation_id ready : string)
| OpRefreshPlan (input : ArchaeologyPublication) (synthesis_only : bool) (identity json : string)
| OpParsed (input : ArchaeologyPublication)
| OpLinked (input : ArchaeologyPublication) (receipt json : string) (completed : Z) (total : option Z)
| OpDerived (input : ArchaeologyPublication) (receipt json : string) (completed : Z) (total : option Z)
| OpSynthesized (input : ArchaeologyPublication) (receipt json : string) (completed : Z) (total : option Z)
| OpRemove (input : ArchaeologyPublication)
| OpContent (c : C).
Definition ignore {A} (m : DB A) : DB unit := fun s => (_ ← fst (m s); Ok (), snd (m s)).
Definition run (op : Operation) : DB unit :=
  match op with
  | OpStart input => ignore (start_job input)
  | OpCheckpoint id owner expected next identity checkpoint completed total now =>
      ignore (checkpoint_job id owner expected next identity checkpoint completed total now)
  | OpHeartbeat id owner now => ignore (heartbeat_job id owner now)
  | OpPause id owner now => ignore (pause_job id owner now)
  | OpResume id owner now => ignore (resume_job id owner now)
  | OpRequestCancel id owner now => ignore (request_cancel id owner now)
  | OpAcknowledgeCancel id owner now => ignore (acknowledge_cancel id owner now)
  | OpComplete id owner now => ignore (complete_job id owner now)
  | OpFail id owner code now => ignore (fail_job id owner code now)
  | OpRecover r owner stale now => ignore (recover_stale_job r owner stale now)
  | OpValidate input => ignore (validate_generation_for_publication sha256 input)
  | OpPublish input => ignore (publish_generation sha256 input)
  | OpCleanup input => ignore (cleanup_generations input)
  | OpRegister r path source revision now => register_repository r path source revision now
  | OpCoverage g r json => persist_inventory_coverage g r json
  | OpCloneCoverage g ready => clone_noop_coverage g ready
  | OpRefreshPlan input synthesis_only identity json => checkpoint_refresh_plan input synthesis_only identity json
  | OpParsed input => complete_incremental_parse input
  | OpLinked input receipt json completed total => link_checkpoint input receipt json completed total
  | OpDerived input receipt json completed total => derive_checkpoint input receipt json completed total
  | OpSynthesized input receipt json completed total => catalog_checkpoint input receipt json completed total
  | OpRemove input => remove_noop_refresh input
  | OpContent c => set_content c
  end.
(** The database an operation leaves, successful or not. *)
Definition after (op : Operation) (s : Store) : Store := snd (run op s).
Definition empty_store (c : C) : Store := {| repositories := ∅; generations := ∅; jobs := ∅; content := c |}.
Inductive Reachable : Store -> Prop :=
| reachable_empty c : Reachable (empty_store c)
| reachable_after op s : Reachable s -> Reachable (after op s).
(** The job an operation is about and in whose name it is done. *)
Definition acts_for (op : Operation) : option (string * string) :=
  match op with
  | OpCheckpoint id owner _ _ _ _ _ _ _ | OpHeartbeat id owner _ | OpPause id owner _ | OpResume id owner _
  | OpRequestCancel id owner _ | OpAcknowledgeCancel id owner _ | OpComplete id owner _ | OpFail id owner _ _ => Some (id, owner)
  | OpValidate input | OpPublish input | OpRefreshPlan input _ _ _ | OpParsed input | OpLinked input _ _ _ _
  | OpDerived input _ _ _ _ | OpSynthesized input _ _ _ _ | OpRemove input => Some (pub_job_id input, pub_owner_id input)
  | OpCleanup input => Some (clean_job_id input, clean_owner_id input)
  | OpStart _ | OpRecover _ _ _ _ | OpRegister _ _ _ _ _ | OpCoverage _ _ _ | OpCloneCoverage _ _ | OpContent _ => None
  end.
End Operations.
