(* ===== verification/JobExample.v ===== *)
(** A database, a clock and encodings on which the operations of the jobs are run:
    a repository whose first job fails, and whose second job publishes a generation
    with nothing in it. *)
From S2P Require Import Prelude Ordering RustText Contracts Jobs JobPublication JobStages JobOperations.
From stdpp Require Import gmap.
Local Open Scope N_scope.

(** A timestamp is the number its bytes are the digits of. *)
Definition example_time (text : string) : option Z := Some (Z.of_N (foldl (fun n b => 256 * n + b) 0 (bytes text))).
#[export] Instance example_clock : Clock := {| julianday := example_time; parse_from_rfc3339 := example_time |}.
#[export] Instance example_sqlite : Sqlite := {| sqlite_error := fun constraint => constraint |}.
Definition example_sha256 (text : string) : string := text.
Definition example_identity : ArchaeologyGenerationIdentity :=
  {| id_revision_sha := "aaaaaaaaaaaaaaaaaaaaaaaaaaaaaaaaaaaaaaaa"; id_source := "src"; id_parser := "parser";
     id_algorithm := "algorithm"; id_config := "config" |}.
Definition example_coverage : ArchaeologyCoverage :=
  {| coverage_state := CoverageComplete; parser_coverage := CoverageComplete; repository_coverage := CoverageComplete;
     temporal_coverage := CoverageComplete; discovered_source_units := 0; indexed_source_units := 0; discovered_bytes := 0;
     indexed_bytes := 0; reasons := [] |}.
Definition example_receipt : ArchaeologyValidationReceipt :=
  {| receipt_version := 1; receipt_repository_id := "repo"; receipt_generation_id := "g1"; receipt_identity := example_identity;
     receipt_schema_version := 2;
     snapshot := {| empty_inventory_proven := true; coverage_sha256 := sha256_identity example_sha256 "coverage"; tables := [] |} |}.
Definition example_codes : list string := map error_code_name
  [InventoryFailed; ParserFailed; LinkFailed; DerivationFailed; SynthesisFailed; ValidationFailed; PublicationFailed; CleanupFailed;
   OwnershipLost; Internal].
Definition example_errors (errors : list string) : string := "[" ++ String.concat "," errors ++ "]".
#[export] Instance example_json : JobJson := {|
  checkpoint_to_string := fun _ => inr "{}"%string;
  checkpoint_from_str := fun text => Some {|
    cursor_identity := None; source_unit_id := None; ordinal := None;
    counters := if seqb text "complete" then [(INVENTORY_COMPLETE_COUNTER, 1)] else [] |};
  errors_to_string := fun errors => inr (example_errors errors);
  errors_from_str := fun text =>
    if seqb text "[]" then Some [] else
    (fun code => [code]) <$> find (fun code => seqb text (example_errors [code])) example_codes;
  receipt_to_string := fun receipt =>
    if bool_decide (receipt = example_receipt) then inr "receipt"%string else inl "another receipt"%string;
  receipt_from_str := fun text => if seqb text "receipt" then Some example_receipt else None;
  coverage_to_vec := fun _ => inr "coverage"%string;
  coverage_from_str := fun text => if seqb text "{}" then Some example_coverage else None
|}.
#[export] Instance example_content : GenerationContent unit := {|
  TemporalContext := unit;
  validate_integrity := fun _ _ =>
    Ok {| discovered_units := 0; indexed_units := 0; total_discovered_bytes := 0; total_indexed_bytes := 0 |};
  validation_table_seals := fun _ _ => Ok [];
  reconcile_generation_lifecycle := fun s _ _ _ _ => Ok (content s);
  resolve_archaeology_temporal_context := fun _ _ _ _ => Ok ();
  persist_temporal_projection := fun s _ _ _ _ _ => Ok (content s);
  delete_generation_content := fun _ c => c;
  cleanup_counts := fun _ _ => (0, 0, 0, 0)
|}.
Definition example_job (id generation now : string) : NewArchaeologyJob :=
  {| new_job_id := id; new_repository_id := "repo"; new_generation_id := generation; new_owner_id := "me";
     new_identity := example_identity; new_total_units := Some 0; new_now := now |}.
Definition example_publication (now : string) : ArchaeologyPublication :=
  {| pub_job_id := "j1"; pub_repository_id := "repo"; pub_generation_id := "g1"; pub_owner_id := "me";
     pub_identity := example_identity; pub_now := now |}.
Definition example_cleanup : ArchaeologyCleanup :=
  {| clean_job_id := "j1"; clean_owner_id := "me"; clean_mode := Apply; retain_superseded := 0; clean_now := "14" |}.
Definition replay (history : list (Operation (C := unit))) : Store unit := foldl (fun s op => after example_sha256 op s) (empty_store ()) history.
(** A job fails; another goes through its stages. *)
Definition history : list (Operation (C := unit)) :=
  [OpRegister "repo" "/repo" "src" "aaaaaaaaaaaaaaaaaaaaaaaaaaaaaaaaaaaaaaaa" "01"; OpStart (example_job "j0" "g0" "02");
   OpFail "j0" "me" ParserFailed "03"; OpStart (example_job "j1" "g1" "04");
   OpRefreshPlan (example_publication "05") false "plan" "{}"; OpParsed (example_publication "06");
   OpLinked (example_publication "07") "linked" "{}" 0 (Some 0%Z); OpDerived (example_publication "08") "derived" "{}" 0 (Some 0%Z);
   OpSynthesized (example_publication "09") "catalog" "complete" 0 (Some 0%Z); OpValidate (example_publication "10");
   OpPublish (example_publication "11")].
Definition validated : Store unit := replay (take 10 history).
Definition published : Store unit := replay history.
Definition started : Store unit := replay (take 2 history).
