(* ===== verification/JobTheorems.v ===== *)
(** What the jobs guarantee, whatever is done to them in whatever order: the
    database is always in a state of the specification, what is shown is replaced
    by publications only, a worker that lost its job can do nothing to it, and no
    job is stuck. *)
From S2P Require Import Prelude Ordering RustText Contracts Jobs JobPublication JobStages JobWorld JobRuns JobProps JobFacts JobOutcomes JobOperations JobExample.
From stdpp Require Import gmap.
Local Open Scope N_scope.

Section Theorems.
Context {C : Type} `{Clock} `{Sqlite} `{JobJson} `{GenerationContent C} (sha256 : string -> string).
Abbreviation Store := (Store C).
Abbreviation DB := (@DB C).
Abbreviation Operation := (@Operation C).
Abbreviation run := (run sha256).
Abbreviation after := (after sha256).
Abbreviation Reachable := (Reachable sha256).

Lemma run_refines op : refines (run op).
Proof.
  destruct op; intros s; cbn [run ignore snd].
  - apply start_refines.
  - apply checkpoint_refines.
  - apply heartbeat_refines.
  - apply transition_refines, switch_pause.
  - apply transition_refines, switch_resume.
  - apply request_cancel_refines.
  - apply acknowledge_cancel_refines.
  - apply complete_refines.
  - apply fail_refines.
  - apply recover_refines.
  - apply validate_refines.
  - apply publish_refines.
  - apply cleanup_refines.
  - apply register_refines.
  - apply coverage_refines.
  - apply clone_coverage_refines.
  - apply checkpoint_refresh_plan_refines.
  - apply complete_incremental_parse_refines.
  - apply end_stage_refines. constructor.
  - apply end_stage_refines. constructor.
  - apply end_stage_refines. constructor.
  - apply remove_refines.
  - apply set_content_refines.
Qed.
Lemma reachable_ok s : Reachable s -> world_ok (view s).
Proof.
  induction 1 as [c|op s _ IH].
  - unfold view, empty_store. cbn. rewrite !fmap_empty. apply empty_ok.
  - by apply (world_steps_ok (view s)), run_refines.
Qed.
Lemma within_ignore {A} (P : Store -> Store -> Prop) (m : DB A) : within P m -> within P (ignore m).
Proof. intros Hm s. apply Hm. Qed.
Hint Resolve start_rows checkpoint_rows heartbeat_rows pause_rows resume_rows request_cancel_rows acknowledge_cancel_rows
  complete_rows fail_rows recover_rows validate_rows publish_generation_rows cleanup_rows register_rows coverage_rows clone_coverage_rows
  refresh_plan_rows parsed_rows end_stage_rows remove_rows set_content_rows within_ignore : within.
Lemma run_rows op : within keeps_rows (run op).
Proof. destruct op; cbn [run]; unfold link_checkpoint, derive_checkpoint, catalog_checkpoint; eauto with within. Qed.
Lemma empty_rows (c : C) : rows_ok (empty_store c).
Proof. split; intros ? ?; cbn; by rewrite lookup_empty. Qed.
Lemma reachable_rows s : Reachable s -> rows_ok s.
Proof. induction 1 as [c|op s _ IH]; [apply empty_rows|by apply run_rows]. Qed.
Hint Resolve start_repositories checkpoint_repositories heartbeat_repositories transition_repositories request_cancel_repositories
  acknowledge_cancel_repositories complete_repositories fail_repositories recover_repositories validate_repositories
  cleanup_repositories coverage_repositories clone_coverage_repositories refresh_plan_repositories parsed_repositories end_stage_repositories
  remove_repositories : within.
(** What an operation leaves of the repositories. *)
Lemma run_repositories op s : repositories (after op s) = repositories s \/ (exists input, op = OpPublish input) \/
  exists r path source revision now, op = OpRegister r path source revision now /\ forall r', ready_pointer (after op s) r' = ready_pointer s r'.
Proof.
  unfold after. destruct op; cbn [run]; unfold link_checkpoint, derive_checkpoint, catalog_checkpoint, pause_job, resume_job;
    try (left; match goal with |- repositories (snd (?m s)) = _ => assert (within same_repositories m) as Hm by eauto with within typeclass_instances; apply (Hm s) end).
  - right; left. eauto.
  - right; right. exists repository_id, path, source, revision, now. split; [done|]. intros r'. unfold register_repository.
    destruct (path_taken s repository_id path); [done|]. unfold ready_pointer. cbn. destruct (decide (repository_id = r')) as [->|Hne].
    + rewrite lookup_insert_eq. cbn. by destruct (repositories s !! r').
    + by rewrite lookup_insert_ne.
Qed.
Lemma refuses_ignore {A} (m : DB A) s : refuses m s -> refuses (ignore m) s.
Proof. unfold refuses, ignore. destruct (m s) as [[a|e|e] s']; cbn; intros [-> Hn]; (split; [done|]);
  [destruct Hn; by exists a|by intros [? ?]..]. Qed.
Hint Resolve checkpoint_foreign heartbeat_foreign transition_foreign request_cancel_foreign acknowledge_cancel_foreign
  complete_foreign fail_foreign validate_foreign publish_foreign cleanup_foreign refresh_plan_foreign parsed_foreign
  end_stage_foreign remove_foreign : within.
Lemma run_foreign op s id owner : acts_for op = Some (id, owner) -> not_owned s id owner -> refuses (run op) s.
Proof.
  destruct op; try done; intros [= <- <-] Ho; cbn [run]; unfold link_checkpoint, derive_checkpoint, catalog_checkpoint, pause_job, resume_job;
    try apply refuses_ignore; auto with within.
Qed.
Lemma active_job_in (s : Store) r id job : active_job s r = Some (id, job) ->
  jobs s !! id = Some job /\ job_repository_id job = r /\ is_active (state job) = true.
Proof.
  unfold active_job. intros Hh%head_Some_elem_of. apply elem_of_filter_bool in Hh as [Hin%elem_of_map_to_list Hp].
  cbn in Hp. rewrite andb_true_iff, seqb_true in Hp. by destruct Hp.
Qed.
(** A job that changes hands is the one active job of the repository. *)
Lemma recover_takes r new stale now s0 status s id job : Reachable s0 -> recover_stale_job r new stale now s0 = (Ok status, s) ->
  jobs s0 !! id = Some job -> job_repository_id job = r -> is_active (state job) = true -> owner_id job <> new ->
  s = put_job id (updated now (with_state (recovered_state (state job)) (with_owner new job))) s0.
Proof.
  intros Hs Hrun Hj Hr Ha Hne. unfold recover_stale_job in Hrun. do 4 (apply bind_result_Ok in Hrun as (? & _ & Hrun)).
  apply bind_require_Ok in Hrun as [_ Hrun]. apply bind_query_Ok in Hrun.
  destruct (active_job s0 r) as [[id0 row]|] eqn:Eact; [|by apply result_Ok in Hrun as [? _]].
  apply active_job_in in Eact as (Hj0 & Hr0 & Ha0).
  assert (id0 = id) as ->.
  { apply (ok_one _ (reachable_ok s0 Hs) r id0 id (worker_of row) (worker_of job)); try done; by apply view_worker. }
  rewrite Hj in Hj0. injection Hj0 as <-. rewrite (proj2 (seqb_false _ _) Hne) in Hrun.
  apply bind_result_Ok in Hrun as (? & _ & Hrun). apply bind_require_Ok in Hrun as [_ Hrun].
  apply bind_swap_Ok in Hrun as (s1 & (row & Hrow & _ & _ & ->) & ->%load_job_Ok). congruence.
Qed.
(** C4: Every operation on the jobs, with whatever it is called and in whatever
    state of the database, does nothing to what the specification sees or takes
    steps of the specification: registering, starting, going on by one stage,
    pausing, cancelling, changing hands, giving up, publishing, completing,
    discarding. *)
Theorem job_operations_refine op s : rtc world_step (view s) (view (after op s)).
Proof. apply run_refines. Qed.
(** C5: In every database the operations lead to, a repository's pointer names
    exactly its ready generation, one job at most is active in a repository, its
    generation is staged until the job publishes it and is then the one shown, and
    a job that is not active has ended and is idle. *)
Theorem reachable_jobs_consistent s : Reachable s ->
  (forall r row g, repositories s !! r = Some row ->
    ready_generation_id row = Some g <->
    exists generation, generations s !! g = Some generation /\ gen_repository_id generation = r /\ gen_status generation = GenReady) /\
  (forall id1 id2 job1 job2, jobs s !! id1 = Some job1 -> jobs s !! id2 = Some job2 ->
    job_repository_id job1 = job_repository_id job2 -> is_active (state job1) = true -> is_active (state job2) = true -> id1 = id2) /\
  (forall id job, jobs s !! id = Some job -> is_active (state job) = true ->
    exists g generation, job_generation_id job = Some g /\ generations s !! g = Some generation /\
      gen_repository_id generation = job_repository_id job /\ stage job <> StageIdle /\
      gen_status generation = (if bool_decide (stage job = StageCleanup) then GenReady else GenStaging)) /\
  (forall id job, jobs s !! id = Some job -> is_active (state job) = false -> stage job = StageIdle /\ state job ∈ terminal_states).
Proof.
  intros [O1 O2 O3 O4 O5 O6 O7]%reachable_ok. split_and!.
  - intros r row g Hr. specialize (O1 r g). rewrite (view_shown s r row Hr) in O1. cbn in O1. rewrite lookup_fmap in O1.
    transitivity (Some (ready_generation_id row) = Some (Some g)); [split; [by intros ->|by intros [= ->]]|]. rewrite O1, fmap_Some. unfold status_of.
    split; intros (generation & Hg & Hs); exists generation; [by injection Hs as -> ->|]. destruct Hs as [-> ->]. done.
  - intros id1 id2 job1 job2 Hj1 Hj2 Hr A1 A2.
    apply (O3 (job_repository_id job2) id1 id2 (worker_of job1) (worker_of job2)); try done; by apply view_worker.
  - intros id job Hj A. destruct (O6 id (worker_of job)) as [g Hg Hs N1 N2|g Hg Hs N1]; [by apply view_worker|done|..];
      cbn in *; rewrite lookup_fmap in Hs; apply fmap_Some in Hs as (generation & Hgen & Hs); injection Hs as Hr Hst;
      exists g, generation; split_and!; try done.
    + by rewrite bool_decide_false.
    + by rewrite N1.
    + by rewrite bool_decide_true.
  - intros id job Hj A. destruct (O7 id (worker_of job)) as [Hst Hstate]; [by apply view_worker|by unfold active; cbn; rewrite A|].
    split; [done|]. cbn in Hstate. unfold terminal_states. set_solver.
Qed.
(** C6: What a repository shows changes by a publication only: by the owner of the
    running job of the publication, not cancelled, at its publish stage, to the
    generation of that job, which was staged and is ready after; and what was shown
    before is superseded. *)
Theorem shown_changes_by_publication op s r : ready_pointer (after op s) r <> ready_pointer s r ->
  exists input job generation,
    op = OpPublish input /\ pub_repository_id input = r /\ is_Ok (fst (run op s)) /\
    jobs s !! pub_job_id input = Some job /\ owner_id job = pub_owner_id input /\ state job = StateRunning /\
    stage job = StagePublish /\ cancellation_requested job = false /\ receipt_holds sha256 s input job /\
    generations s !! pub_generation_id input = Some generation /\ gen_status generation = GenStaging /\
    ready_pointer (after op s) r = Some (pub_generation_id input) /\
    gen_status <$> generations (after op s) !! pub_generation_id input = Some GenReady /\
    forall old, ready_pointer s r = Some old -> gen_status <$> generations (after op s) !! old = Some GenSuperseded.
Proof.
  intros Hne. destruct (run_repositories op s) as [Hrep|[[input ->]|(r0 & path & source & revision & now & -> & Hsame)]];
    [by unfold ready_pointer in Hne; rewrite Hrep in Hne| |by rewrite Hsame in Hne].
  unfold after in *. cbn [run] in *. unfold ignore in *. cbn [snd] in *.
  destruct (publish_generation sha256 input s) as [[status|e|e] s'] eqn:Hrun; cbn [fst snd] in *.
  2-3: pose proof (publish_failed sha256 input s) as Hf; rewrite Hrun in Hf; cbn in Hf; rewrite Hf in Hne; [done|by intros [? ?]].
  apply publish_generation_Ok in Hrun as [Hv [[_ ->]|(_ & row & s1 & Hrow & _ & R1 & G1 & J1 & Hpub)]]; [done|].
  destruct (publishes_pointer _ _ _ _ r Hpub) as [Hp Hprior]. destruct (publishes_statuses _ _ _ _ Hpub) as [Hnew Hold].
  assert (forall r', ready_pointer s1 r' = ready_pointer s r') as Hsame by (intros r'; unfold ready_pointer; by rewrite R1).
  rewrite Hsame in Hp, Hprior. rewrite Hp in Hne |- *. case_bool_decide as Er; [|done].
  apply verify_validation_receipt_Ok in Hv as (job & Hj & _ & Hholds).
  destruct Hpub as [(job' & generation & row' & Hj' & Hadv & Hgen & _ & Hst & _)]. rewrite J1, Hj in Hj'. injection Hj' as <-.
  rewrite G1 in Hgen. unfold may_advance, is_input_job, running_at in Hadv.
  rewrite !andb_true_iff, negb_true_iff, !bool_decide_eq_true, !seqb_true in Hadv. destruct Hadv as [[[[[_ _] Ho] [Hrun Hstage]] Hc] _].
  exists input, job, generation. subst r. rewrite Hprior. split_and!; try done. by eexists.
Qed.
(** C7: An operation in the name of a worker that is not the owner of the job, or of
    a job that is not there, fails and changes nothing; that is what happens to the
    owner of an active job once another worker has recovered it. *)
Theorem stale_owner_refused op s id owner : acts_for op = Some (id, owner) ->
  (not_owned s id owner -> after op s = s /\ ~ is_Ok (fst (run op s))) /\
  (forall s0 r new stale now status job, Reachable s0 -> jobs s0 !! id = Some job -> job_repository_id job = r ->
    is_active (state job) = true -> owner_id job = owner -> new <> owner ->
    recover_stale_job r new stale now s0 = (Ok status, s) -> after op s = s /\ ~ is_Ok (fst (run op s))).
Proof.
  intros Hop. split; [by apply run_foreign|]. intros s0 r new stale now status job Hs0 Hj Hr Ha Ho Hne Hrec.
  apply (run_foreign op s id owner Hop). rewrite (recover_takes r new stale now s0 status s id job) by (done || congruence).
  intros job' Hj'. cbn in Hj'. rewrite lookup_insert_eq in Hj'. injection Hj' as <-. cbn. done.
Qed.
(** C8: The owner of an active job can always end it: failing it succeeds, leaves
    it failed and idle with the error recorded, leaves what is shown, gives up a
    generation that is still staged, and leaves the repository free for another
    job. *)
Theorem active_job_can_be_failed s id job code now : Reachable s -> reads_errors code -> jobs s !! id = Some job ->
  is_active (state job) = true -> validate_actor id (owner_id job) now = Ok () -> not_before now (job_updated_at job) = true ->
  exists status s', fail_job id (owner_id job) code now s = (Ok status, s') /\
    status_state status = StateFailed /\ status_stage status = StageIdle /\ status_errors status = [error_code_name code] /\
    repositories s' = repositories s /\
    (forall id' job', jobs s' !! id' = Some job' -> job_repository_id job' = job_repository_id job -> is_active (state job') = false) /\
    (forall g, job_generation_id job = Some g ->
      gen_status <$> generations s' !! g = Some (if bool_decide (stage job = StageCleanup) then GenReady else GenFailed)).
Proof.
  intros Hs Hreads Hj Ha Hactor Hnow. pose proof (reachable_ok s Hs) as Hok.
  assert (exists g generation, job_generation_id job = Some g /\ generations s !! g = Some generation /\
    gen_status generation = (if bool_decide (stage job = StageCleanup) then GenReady else GenStaging) /\
    (gen_status generation = GenStaging \/ gen_status generation = GenReady /\ published_ready s id = true)) as
    (g & generation & Hg & Hgen & Hst & Hcase).
  { destruct (ok_holds _ Hok id (worker_of job)) as [g Hg Hstat N1 N2|g Hg Hstat N1]; [by apply view_worker|done|..];
      cbn in Hg, Hstat, N1; pose proof Hstat as Hview; rewrite lookup_fmap in Hstat; apply fmap_Some in Hstat as (generation & Hgen & Hs2);
      injection Hs2 as Hr Hst; exists g, generation; split_and!; try done.
    - by rewrite bool_decide_false.
    - by left.
    - by rewrite bool_decide_true.
    - right. split; [done|]. unfold published_ready, generation_of. rewrite Hj, Hg. cbn. rewrite Hgen. cbn.
      rewrite (proj2 (has_status_true _ _)) by done. apply (ok_shown _ Hok) in Hview. cbn in Hview. rewrite lookup_fmap in Hview.
      apply fmap_Some in Hview as (row & -> & Hrow). cbn. by rewrite bool_decide_true by done. }
  destruct (fail_job_runs id job g generation code now s) as (status & json & Hrun & Hstate & Hstage & Herr);
    [by apply reachable_rows|done..|].
  match type of Hrun with _ = (_, ?x) => set (s' := x) in Hrun end. exists status, s'.
  assert (jobs s' = <[id := failed_row json now job]> (jobs s) /\ repositories s' = repositories s) as [J R]
    by (unfold s'; by destruct (bool_decide (gen_status generation = GenStaging))).
  split_and!; try done.
  - intros id' job'. rewrite J. intros [[<- <-]|[Hne Hj']]%lookup_insert_Some Hr; [done|]. apply not_true_is_false. intros Ha'. apply Hne.
    apply (ok_one _ Hok (job_repository_id job) id id' (worker_of job) (worker_of job')); try done; by apply view_worker.
  - intros g' Hg'. rewrite Hg in Hg'. injection Hg' as <-. unfold s'. destruct (decide (stage job = StageCleanup)) as [E|E].
    + rewrite (bool_decide_true _ E) in Hst |- *. rewrite bool_decide_false by congruence. cbn. by rewrite Hgen; cbn; rewrite Hst.
    + rewrite (bool_decide_false _ E) in Hst |- *. rewrite bool_decide_true by done. cbn. by rewrite lookup_insert_eq.
Qed.
(** C9: A publication that does not succeed changes nothing.  One that does found in
    the job's checkpoint the canonical receipt of what is in the tables at that
    time, and had been done before and changes nothing, or writes exactly the rows
    of a publication: the job at its cleanup, the prior generation superseded, the
    new one ready, the pointer moved. *)
Theorem publication_exact input s :
  match publish_generation sha256 input s with
  | (Ok _, s') =>
      (exists job, jobs s !! pub_job_id input = Some job /\ is_input_job input job = true /\ receipt_holds sha256 s input job) /\
      (publication_is_already_committed s input = true /\ s' = s \/
       publication_is_already_committed s input = false /\
       exists job generation repository,
         let prior := ready_generation_id repository in
         jobs s !! pub_job_id input = Some job /\ generations s !! pub_generation_id input = Some generation /\
         repositories s !! pub_repository_id input = Some repository /\ gen_status generation = GenStaging /\
         prior <> Some (pub_generation_id input) /\
         jobs s' = <[pub_job_id input := updated (pub_now input) (with_stage StageCleanup job)]> (jobs s) /\
         generations s' = <[pub_generation_id input := with_published_at (pub_now input) (with_status GenReady generation)]>
           (match prior with None => generations s | Some g => alter (with_status GenSuperseded) g (generations s) end) /\
         repositories s' = <[pub_repository_id input := with_ready (pub_generation_id input) (pub_now input) repository]> (repositories s))
  | (_, s') => s' = s
  end.
Proof.
  pose proof (publish_failed sha256 input s) as Hf. destruct (publish_generation sha256 input s) as [[status|e|e] s'] eqn:Hrun; cbn in Hf;
    [clear Hf|apply Hf; by intros [? ?]..].
  apply publish_generation_Ok in Hrun as [Hv%verify_validation_receipt_Ok Hcases]. split; [done|].
  destruct Hcases as [[? ->]|(Hnot & row & s1 & Hrow & _ & R1 & G1 & J1 & Hpub)]; [by left|right]. split; [done|].
  destruct Hpub as [(job & generation & row' & Hj & _ & Hgen & _ & Hst & Hrow' & _ & Hne & _ & J & G & R & _)].
  rewrite R1, Hrow in Hrow'. injection Hrow' as <-. rewrite J1 in Hj, J. rewrite G1 in Hgen, G. rewrite R1 in R.
  exists job, generation, row. split_and!; done.
Qed.
(** C10: A cleanup, of a job at its cleanup or ended, deletes at most 256 generations
    and only ones of its repository that are not ready, not shown and not worked on,
    and that were superseded, with as many as are retained made and superseded
    after them, where the job made what is shown, or were left by an ended job of
    the caller; all of them, unless it says that it is truncated.  Other
    generations and the other active jobs stay as they are; a dry run changes
    nothing. *)
Theorem cleanup_deletes_unused input s report s' : cleanup_generations input s = (Ok report, s') ->
  repositories s' = repositories s /\ len (candidates report) <= 256 /\
  (exists lease, jobs s !! clean_job_id input = Some lease /\ owner_id lease = clean_owner_id input /\
    (state lease = StateRunning /\ stage lease = StageCleanup /\ cancellation_requested lease = false \/
     state lease ∈ [StateFailed; StateCancelled; StateCompleted] /\ stage lease = StageIdle) /\
    (forall candidate, candidate ∈ candidates report -> exists generation,
      clean_status candidate = gen_status generation /\ deletable s input lease (clean_generation_id candidate) generation) /\
    (truncated report = false -> forall g generation, deletable s input lease g generation ->
      g ∈ map clean_generation_id (candidates report))) /\
  match clean_mode input with
  | DryRun => s' = s /\ deleted_generations report = 0
  | Apply =>
      (forall g, generations s' !! g = if bool_decide (g ∈ map clean_generation_id (candidates report)) then None else generations s !! g) /\
      (forall id job, id <> clean_job_id input -> jobs s !! id = Some job -> is_active (state job) = true -> jobs s' !! id = Some job) /\
      deleted_generations report = len (candidates report)
  end.
Proof.
  intros (lease & s1 & Hj & Ho & Hmay & Hs1 & Hc & Ht & _ & Hend)%cleanup_generations_Ok. cbv zeta in *.
  assert (len (candidates report) <= 256) as Hlen.
  { rewrite Hc. unfold cleanup_candidates, len. cbn [fst]. rewrite length_map, !length_firstn. lia. }
  destruct (candidates_deletable s s1 input lease Hj Hs1) as [Hdel Hall]. rewrite <- Hc in Hdel, Hall. rewrite <- Ht in Hall.
  apply may_clean_true in Hmay. destruct (clean_mode input).
  - rewrite bool_decide_false in Hs1, Hend by done. destruct Hend as [-> ?]. split_and!; eauto 10.
  - rewrite bool_decide_true in Hs1, Hend by done. destruct Hend as [Hrun ?]. rewrite <- Hc in Hrun.
    apply delete_candidates_Ok in Hrun as (R & G & J). subst s1. cbn in R, G, J.
    split_and!; [done|done|by exists lease|done| |congruence].
    intros id job Hne Hjob Ha. apply J; [by rewrite lookup_insert_ne|done].
Qed.
End Theorems.

(** * Witnesses *)

Lemma replay_reachable ops : Reachable example_sha256 (replay ops).
Proof.
  unfold replay. induction ops as [|op ops IH] using rev_ind; [apply reachable_empty|]. rewrite foldl_app. cbn. by apply reachable_after.
Qed.
Lemma reachable_jobs_consistent_witness :
  Reachable example_sha256 published /\ ready_generation_id <$> repositories published !! "repo" = Some (Some "g1") /\
  exists generation, generations published !! "g1" = Some generation /\ gen_status generation = GenReady.
Proof.
  split; [apply replay_reachable|]. split; [by vm_compute|].
  destruct (repositories published !! "repo") as [row|] eqn:Hr; [|by vm_compute in Hr].
  destruct (reachable_jobs_consistent example_sha256 published (replay_reachable history)) as [Hready _].
  destruct (proj1 (Hready "repo" row "g1" Hr)) as (generation & Hg & _ & Hs); [|exists generation; exact (conj Hg Hs)].
  vm_compute in Hr. injection Hr as <-. reflexivity.
Defined.
Lemma shown_changes_by_publication_witness :
  ready_pointer validated "repo" = None /\
  exists input, pub_repository_id input = "repo"%string /\
    ready_pointer (after example_sha256 (OpPublish (example_publication "11")) validated) "repo" = Some (pub_generation_id input).
Proof.
  split; [by vm_compute|].
  destruct (shown_changes_by_publication example_sha256 (OpPublish (example_publication "11")) validated "repo")
    as (input & job & generation & _ & Hop & _ & _ & _ & _ & _ & _ & _ & _ & _ & Hp & _); [by vm_compute|].
  exists input. exact (conj Hop Hp).
Defined.
Lemma stale_owner_refused_witness :
  let recovered := after example_sha256 (OpRecover "repo" "you" "05" "06") started in
  owner_id <$> jobs recovered !! "j0" = Some "you" /\
  after example_sha256 (OpHeartbeat "j0" "me" "07") recovered = recovered.
Proof.
  split; [by vm_compute|].
  refine (proj1 (proj1 (stale_owner_refused example_sha256 (OpHeartbeat "j0" "me" "07") _ "j0" "me" eq_refl) _)).
  intros job Hj. vm_compute in Hj. injection Hj as <-. by vm_compute.
Defined.
Lemma active_job_can_be_failed_witness :
  reads_errors Internal /\ exists status, fst (fail_job "j0" "me" Internal "03" started) = Ok status /\ status_state status = StateFailed.
Proof.
  assert (reads_errors Internal) as Hreads by (split; [reflexivity|by eexists]). split; [exact Hreads|].
  destruct (jobs started !! "j0") as [job|] eqn:Hj; [|by vm_compute in Hj].
  assert (owner_id job = "me"%string /\ is_active (state job) = true /\ not_before "03" (job_updated_at job) = true) as (Ho & Ha & Hn)
    by (vm_compute in Hj; injection Hj as <-; by vm_compute).
  destruct (active_job_can_be_failed example_sha256 started "j0" job Internal "03") as (status & s' & Hrun & Hs & _);
    [apply replay_reachable|done|done|done|by rewrite Ho; vm_compute|done|].
  rewrite Ho in Hrun. exists status. by rewrite Hrun.
Defined.
Lemma cleanup_deletes_unused_witness :
  exists report s', cleanup_generations example_cleanup published = (Ok report, s') /\ deleted_generations report = 1 /\
    generations published !! "g0" <> None /\ generations s' !! "g0" = None /\ generations s' !! "g1" = generations published !! "g1".
Proof.
  destruct (cleanup_generations example_cleanup published) as [[report|e|e] s'] eqn:Hrun; [|by vm_compute in Hrun..].
  destruct (cleanup_deletes_unused example_cleanup published report s' Hrun) as (_ & _ & _ & Hg & _ & Hcount).
  assert (map clean_generation_id (candidates report) = ["g0"%string]) as Hc by (vm_compute in Hrun; by injection Hrun as <- _).
  rewrite Hc in Hg. exists report, s'. split_and!; [done| |by vm_compute|by rewrite Hg|by rewrite Hg].
  rewrite Hcount. vm_compute in Hrun. by injection Hrun as <- _.
Defined.
